(* ===== verification/_CoqProject ===== *)
-Q . S2P
Prelude.v
Bytes.v
HashApi.v
CryptoUtils.v
Sha512.v
Preimage.v
Certificate.v
TrustStore.v
Posix.v
AuditChain.v
SecurityEpoch.v
EvpApi.v
Issuer.v
Notary.v
Profiles.v
JsonText.v
ManifestCanon.v
ArappV2.v
ArappSign.v
SupervisorPolicy.v
Ring.v
EventBroker.v
PackageBuilder.v
PackageIndex.v
Drain.v
HttpCodec.v
GuestChannel.v
GuestRouter.v
Forwarder.v
Lifecycle.v
VaultText.v
Vault.v
VaultMatrix.v
Seccomp.v
Sandbox.v
Psi.v
AppManifest.v
AppManifestText.v
