(* ===== verification/Prelude.v ===== *)
(** * Verification of the security core of alrios

    alrios runs application packages on nodes of a fleet. A node has a profile that
    says how strict it is; a package carries a manifest, a ciphertext and signatures,
    made with keys whose certificates lead to a root anchor; what a node does is
    recorded in a hash-chained log; a security epoch that can only grow outdates old
    policies. The development models the code that decides whom a node trusts and what
    it runs, records and publishes, as it is written, and proves what that code is for.

    ** Files and sources

    Paths are relative to src/src/libraries/, headers to src/include/alrios/.

    - Prelude: machine integers, buffers ([sub], [upd], [rd]), C strings, the result
      type [res] ([Ok], [Err] of a status, [Fault] for an access outside an object),
      tactics and hints.
    - Bytes: big-endian loads and stores and [ranges_overlap], which the sources
      repeat as static functions.
    - HashApi, EvpApi: interfaces. The first is what the SHA-512 engine promises to
      the PKI, package and epoch code; the second what that code relies on of OpenSSL,
      which is not part of the repository, with an instance that satisfies it.
    - CryptoUtils: crypto/utils.c. Sha512: crypto/sha512.c.
    - Certificate: the codec of pki/certificate.c. TrustStore: the root anchors of the
      same file. Issuer: pki/issuer.c. Preimage: pki/preimage.c. Notary: pki/notary.c
      and crypto/ed25519.c.
    - JsonText, ManifestCanon: pki/manifest_canon.c, lexical level and grammar.
    - ArappV2: package/arapp_v2_reader.c. ArappSign: package/arapp_v2_signatures.c.
    - Posix: the world of the code that keeps its state in a file.
    - AuditChain: audit/hash_chain.c. SecurityEpoch: policy/security_epoch.c.
    - Profiles: policy/profiles.c. SupervisorPolicy: supervisor/policy.c.
    - Ring: a circular buffer as the list it holds, which the broker's mailboxes and
      the router's queues share. EventBroker: events/broker.c.
    - PackageBuilder: package/package_v2.c. PackageIndex: package/index.c and the
      builder of package/index_writer.c.
    - Drain: deploy/drain.c. Lifecycle: hooks/lifecycle.c, hooks/hooks_executor.c and
      deploy/atomic_swap.c.
    - HttpCodec: ipc/http_serializer.c. GuestChannel: ipc/guest_channel.c. GuestRouter:
      supervisor/guest_router.c.
    - Forwarder: audit/forwarder.c, with the socket calls of platform/hal.
    - VaultText, Vault, VaultMatrix: vault/store.c, vault/vault.c and
      platform/core/vault_loader.c: the text of the records, the sealed file, and the
      table of secrets and its way into the environment of a process.
    - Seccomp: the filter programs of sandbox/seccomp_filter.c and sandbox/devmode_jail.c
      with a machine that runs them. Sandbox: sandbox/cgroups_init.c, ns_unshare.c,
      devmode_jail.c and mounts.c, as sequences of system calls over an environment that
      answers each from the calls before.
    - Psi: resources/psi.c.
    - AppManifest, AppManifestText: manifest/arapp_parser.c, the reader of app.json: the
      first its operations, the second the texts it reads back.

    Definitions keep the names of the C functions. A structure is a [Record], an
    output parameter a component of the result, a pointer that may be NULL an [option]
    or, where the code compares addresses, a [ptr]. Integers are [Z] with the
    wrap-around written out; buffers are lists of octets and every read of a buffer
    that comes from outside is bounds-checked ([Fault]).

    ** How the parts interact

    SupervisorPolicy is the composition: at start-up it decodes the certificates of the
    trust directory (Certificate), fills and seals the trust store (TrustStore), and
    later evaluates a package file by validating the container (ArappV2, which calls
    ManifestCanon to see that the manifest is canonical), verifying its signatures
    (ArappSign over Sha512 and EVP), its signer's chain (Issuer) and the rules of the
    profile (Profiles, CryptoUtils). [sovereign_launch] goes through all of it.

    A running guest talks to the supervisor through GuestRouter, whose messages travel in
    the datagrams of GuestChannel; requests for a web application are frames of
    HttpCodec. Forwarder reads the log of AuditChain at start-up to see that it was not
    rolled back, and keeps its own state in a file of Posix. Before a process of an
    application runs, the supervisor gives it the secrets of the application (Vault,
    VaultMatrix) and the jail (Sandbox, whose last step is a filter of Seccomp). Notary
    signs files for the packaging tools; a signature is accepted under a key or under a
    chain of Issuer. Psi names the process to stop when memory is short. A deployment drains the
    connections of a release (Drain) and replaces it under the hooks of Lifecycle.

    ** What the theorems show

    - SHA-512: hashing in any number of calls computes FIPS 180-4 of the whole message.
    - Certificates: the codec is a bijection between typed certificates and accepted
      octets, decoding never reads outside its input, and a signature covers every
      field. The store refines a finite map, sealed or not. A chain is accepted exactly
      when the three certificates are linked, valid now and signed; a chain that the
      issuer made is.
    - Manifests: canonicalisation is idempotent, its fixed points are exactly the texts
      of canonical values; it ends on every terminated input without reading outside its
      storage, whichever calls of the allocator fail; string literals are read back; keys
      are in UTF-16 order. The reader of app.json reads a printed manifest back, ends
      on every text that names no steps (a stray brace among the steps keeps it for ever),
      and an accepted manifest fits its arrays.
    - Packages: the reader accepts exactly the encodings of well-formed packages in
      their time window and never reads out of bounds; what is signed verifies, and the
      verifier's verdict is that of the two primitives over the digest of the container.
      What the builder writes is made of the canonical form of the manifest file and the
      content of the payload file, the encoding of an unsigned package the reader takes,
      and a build is all or nothing whatever call of stdio fails.
    - Index: an image is accepted exactly when it is the signed encoding of a
      well-formed index; the index of a directory lists its files and the directory
      verifies against it; what verifies later is the same up to a second preimage.
    - Supervisor: a launch is granted exactly when capabilities and profile admit it;
      a package's verdict is that of an abstract admission condition; what a
      sovereign node admits is well-formed and signed twice, under the certificate its
      trust level puts in use, which leads to the root only as far as the code checks.
    - Audit log: for every script of short transfers, errors, interrupts and crashes the
      file holds the old log, the new log, or the old log and a torn record that
      recovery removes; the verifier accepts exactly chains; two logs with the same
      last hash have the same entries, or different blocks of one hash at one position.
    - Epoch: no call and no crash makes the stored epoch smaller, unless a torn write is
      authentic with the tag of the body it was overwriting; records round-trip;
      the monitor never goes back and the gates stay closed once closed.
    - Forwarder: what the queue takes is delivered in order and once, each with an
      authentic receipt; a restart after any crash goes on where the session stopped or
      at the next acknowledged checkpoint; a collector that answers gets everything.
    - Guests: an entry is served once and in the order of its queue, and a datagram is
      accepted only if it is one that was sent, from the process that may send it. A
      frame of HttpCodec decodes to the message it was made of, and no frame makes the
      decoder read outside it.
    - Deployment: a drain lets no new stream in, finishes what it can and always comes
      to an end, whatever the interleaving of the threads that call it. A hook always
      comes to an end and its verdict is what it deserves; a phase runs exactly its
      hooks; the guarded swap of the link is a transaction, but for a master that could
      not be told and a way back that was cut off too.
    - Notary: a payload is accepted exactly when it is notarised, with or without a
      certificate; what is signed is encoded, decoded and accepted; a signature moved to
      another payload makes the signed texts or the payloads collide under SHA-512.
    - Vault: the secrets that are sealed, saved and loaded are those that are given out;
      what reaches the environment of a process are records of its own application. The
      two ways in which an injection leaves a buffer are named.
    - Sandbox: the filters decide as a table of system calls says; a jail that was
      entered has its limits, then its namespaces, then its filter; a mount is done whole
      or undone, also when it is busy, and what it brings along from below is followed.
    - Pressure: the parser accepts exactly the kernel's texts; what is shed may be shed,
      and nothing that may be shed precedes it.
    - Events: every call implements its specification on a map of mailboxes; messages
      arrive in order, at most once, without gaps unless a loss was reported; limits
      and counters hold after every history and nothing leaks.

    ** Bounds and fuel

    Loops over data are structural. The JSON parser recurses on fuel that
    [canonicalize_total] shows sufficient for every input, so running out of fuel
    ([Stuck], which a read outside the input is too) is not a result. Its allocator
    answers each call by the place that asks, the input left and the size, so calls
    of one size may fail independently. File loops are structural in the script of the environment: a script
    that ends is a process that dies at that point, which the theorems cover. The
    waiting loops of Lifecycle have a turn for every five milliseconds of their deadline,
    which [wait_loop_spec] shows to be enough with a clock that works. Proofs
    about EVP assume [EvpLaws]; collision resistance is never assumed: a theorem that
    needs it has as an alternative that two named values of its own, which differ, have
    the same digest.

    A filter runs with its length as fuel, since its jumps go forward only; the write
    loop of the namespaces has the retries of the code. The fields of a pressure line are
    read with the line's length as fuel; [psi_parse_correct] shows it enough.

    ** Not modelled

    The daemons, the command line tools, the installer, the SDK, the logger, the platform
    layer, the loaders and the variants for Windows are mostly system calls, printing and
    glue. Of the libraries with logic of their own, the layers of deployments
    (deploy/layering.c), the legacy archive parser (archive/zip.c), descriptor passing
    and the handover of sockets, the pages of sensitive memory, crash reports and the
    temporary file of package/index_writer.c are not modelled.
    AEAD, ML-KEM, ML-DSA and key derivation call OpenSSL: they are parameters with named
    laws and an instance (EvpApi, NotaryApi, VaultCrypto). Concurrency is
    modelled where the code handles it: by the lock and the crashes of Posix, by the
    interleaved steps of the threads in Drain, and by the handler that calls back into
    the router in GuestRouter; the event
    broker has no lock, so a history is one thread's calls. *)

From stdpp Require Export base list numbers option.
From Stdlib Require Export ZArith Lia.
From Stdlib Require Ascii String.
Export String.StringSyntax.

#[global] Open Scope Z_scope.

(** ** Machine integers

    A C integer of width [w] is an integer [z] with [0 <= z < 2 ^ w]; every
    operation that can leave the range wraps explicitly. *)

Definition u8 (z : Z) : Z := z mod 2 ^ 8.

Definition u16 (z : Z) : Z := z mod 2 ^ 16.

Definition u32 (z : Z) : Z := z mod 2 ^ 32.

Definition u64 (z : Z) : Z := z mod 2 ^ 64.

Definition UINT16_MAX : Z := 2 ^ 16 - 1.

Definition UINT32_MAX : Z := 2 ^ 32 - 1.

Definition UINT64_MAX : Z := 2 ^ 64 - 1.

Definition INT64_MAX : Z := 2 ^ 63 - 1.

(** [size_t] and [uintptr_t] are 64 bits wide on both supported targets. *)
Definition SIZE_MAX : Z := UINT64_MAX.

(** ** Byte sequences *)

(** A byte buffer is the list of its bytes; [byte_ok] is the range of one. *)
Abbreviation bytes := (list Z).

Definition byte_ok (b : Z) : Prop := 0 <= b < 256.

Definition bytes_ok (l : bytes) : Prop := Forall byte_ok l.

(** Length as a C [size_t]. *)
Definition len {A} (l : list A) : Z := Z.of_nat (length l).

(** The [n] bytes of [b] from offset [off] on. *)
Definition sub {A} (off n : Z) (b : list A) : list A :=
  take (Z.to_nat n) (drop (Z.to_nat off) b).

(** [memcpy(b + off, data, len data)] on a buffer that holds the region. *)
Definition upd {A} (off : Z) (data b : list A) : list A :=
  take (Z.to_nat off) b ++ data ++ drop (Z.to_nat off + length data) b.

(** [memset(_, 0, n)] on a fresh buffer of [n] bytes. *)
Definition zeros (n : Z) : bytes := replicate (Z.to_nat n) 0.

(** The byte at index [i]. *)
Definition at_ (b : bytes) (i : Z) : Z := nth (Z.to_nat i) b 0.

(** [memcmp(a, b, n) == 0] on operands of the same length. *)
Fixpoint bytes_eqb (a b : bytes) : bool :=
  match a, b with
  | [], [] => true
  | x :: a, y :: b => (x =? y) && bytes_eqb a b
  | _, _ => false
  end.

(** A C string: the bytes before the terminating NUL of its storage. *)
Fixpoint cstr (b : bytes) : bytes :=
  match b with
  | [] => []
  | c :: b => if c =? 0 then [] else c :: cstr b
  end.

(** The bytes of a Rocq string literal. *)
Fixpoint lit (s : String.string) : bytes :=
  match s with
  | String.EmptyString => []
  | String.String a s => Z.of_N (Ascii.N_of_ascii a) :: lit s
  end.

Arguments lit _%_string_scope.

(** What [%d], [%zu] and the like print of a number that is not negative, with fuel for its
    digits. *)
Fixpoint digits (fuel : nat) (n : Z) (rest : bytes) : bytes :=
  match fuel with
  | O => rest
  | S fuel =>
      let rest := (48 + n mod 10) :: rest in
      if n / 10 =? 0 then rest else digits fuel (n / 10) rest
  end.

Definition decimal (n : Z) : bytes := digits 20 n [].

(** ** Fallible computations

    [Ok] is success, [Err] a status code the C function returns, and [Fault] an
    access outside the object the code was given (undefined behaviour in C). *)
Inductive res (A : Type) : Type :=
  | Ok (a : A)
  | Err (e : Z)
  | Fault.
Arguments Ok {A} _.
Arguments Err {A} _.
Arguments Fault {A}.

Definition rbind {A B} (m : res A) (k : A -> res B) : res B :=
  match m with
  | Ok a => k a
  | Err e => Err e
  | Fault => Fault
  end.

(** [if (c) return e;] *)
Definition reject {A} (c : bool) (e : Z) (k : res A) : res A :=
  if c then Err e else k.

(** A bounds-checked read of [n] bytes at [off]. *)
Definition rd (off n : Z) (b : bytes) : res bytes :=
  if (0 <=? off) && (0 <=? n) && (off + n <=? len b)
  then Ok (sub off n b) else Fault.

Declare Scope res_scope.
Delimit Scope res_scope with res.
Notation "'let!' x ':=' m 'in' k" := (rbind m (fun x => k))
  (at level 10, x pattern, m at level 100, k at level 200) : res_scope.
Notation "'fail_if' c 'with' e ';;' k" := (reject c e k)
  (at level 10, c at level 99, e at level 99, k at level 200) : res_scope.
#[global] Open Scope res_scope.

Create HintDb buf.
Create Rewrite HintDb buf.

(** ** Shared tactics *)

(** Case analysis on the tests of a straight-line body, left to right. *)
Ltac bool_hyps :=
  repeat match goal with
  | H : _ && _ = true |- _ => apply andb_true_iff in H as [? ?]
  | H : _ || _ = false |- _ => apply orb_false_iff in H as [? ?]
  | H : negb _ = true |- _ => apply negb_true_iff in H
  | H : negb _ = false |- _ => apply negb_false_iff in H
  | H : (_ =? _) = true |- _ => apply Z.eqb_eq in H
  | H : (_ =? _) = false |- _ => apply Z.eqb_neq in H
  | H : (_ <? _) = true |- _ => apply Z.ltb_lt in H
  | H : (_ <? _) = false |- _ => apply Z.ltb_ge in H
  | H : (_ <=? _) = true |- _ => apply Z.leb_le in H
  | H : (_ <=? _) = false |- _ => apply Z.leb_gt in H
  | H : (_ >? _) = _ |- _ => rewrite Z.gtb_ltb in H
  | H : (_ >=? _) = _ |- _ => rewrite Z.geb_leb in H
  end.

(** Split the first [if] or [match] of the goal that blocks. *)
Ltac split_if :=
  match goal with
  | |- context [if ?c then _ else _] => destruct c eqn:?
  end.

(** The same in hypothesis [H]. *)
Ltac split_if_in H :=
  match type of H with
  | context [if ?c then _ else _] => destruct c eqn:?
  end.

(** Decide the first test of the goal from the context by [lia]. *)
Ltac decide_if :=
  match goal with
  | |- context [if ?c then _ else _] =>
      first [ replace c with false by (symmetry; bool_hyps; lia)
            | replace c with true by (symmetry; bool_hyps; lia) ]
  end.

(** ** Lists as byte buffers *)

Section Buffers.
Context {A : Type}.
Implicit Types b d : list A.

Lemma len_nonneg b : 0 <= len b.
Proof. unfold len. lia. Qed.

Lemma len_nil : len (@nil A) = 0.
Proof. reflexivity. Qed.

Lemma len_cons x b : len (x :: b) = 1 + len b.
Proof. unfold len. simpl length. lia. Qed.

Lemma len_app b d : len (b ++ d) = len b + len d.
Proof. unfold len. rewrite length_app. lia. Qed.

Lemma len_replicate n (x : A) : len (replicate n x) = Z.of_nat n.
Proof. unfold len. by rewrite length_replicate. Qed.

Lemma len_take n b : len (take n b) = Z.min (Z.of_nat n) (len b).
Proof. unfold len. rewrite length_take. lia. Qed.

Lemma len_drop n b : len (drop n b) = Z.max 0 (len b - Z.of_nat n).
Proof. unfold len. rewrite length_drop. lia. Qed.

Lemma len_sub off n b :
  0 <= off -> 0 <= n -> off + n <= len b -> len (sub off n b) = n.
Proof. intros. unfold sub. rewrite len_take, len_drop. lia. Qed.

Lemma len_sub_le off n b : len (sub off n b) <= Z.max 0 n.
Proof. unfold sub. rewrite len_take. lia. Qed.

Lemma len_upd off d b :
  0 <= off -> off + len d <= len b -> len (upd off d b) = len b.
Proof.
  intros. unfold upd. rewrite !len_app, len_take, len_drop.
  unfold len in *. lia.
Qed.

(** Reading back a region that was written. *)
Lemma sub_upd_same off n d b :
  0 <= off -> n = len d -> off + n <= len b -> sub off n (upd off d b) = d.
Proof.
  intros Hoff -> Hb. unfold sub, upd.
  rewrite drop_app_length' by (rewrite length_take; unfold len in *; lia).
  rewrite take_app_length' by (unfold len; lia). done.
Qed.

(** Reading a region before, or after, the one that was written. *)
Lemma sub_upd_other off n off' d b :
  0 <= off -> 0 <= n -> 0 <= off' -> off' + len d <= len b ->
  off + n <= off' \/ off' + len d <= off ->
  sub off n (upd off' d b) = sub off n b.
Proof.
  intros ? ? ? Hb Hd. unfold sub, upd. apply list_eq. intros i.
  rewrite !lookup_take. case_decide as Hi; [|done].
  rewrite !lookup_drop.
  unfold len in *.
  destruct Hd as [Hd|Hd].
  - rewrite lookup_app_l by (rewrite length_take; lia).
    rewrite lookup_take. case_decide; [done|lia].
  - rewrite lookup_app_r by (rewrite length_take; lia).
    rewrite lookup_app_r by (rewrite length_take; lia).
    rewrite lookup_drop. f_equal. rewrite length_take. lia.
Qed.

Lemma sub_full b : sub 0 (len b) b = b.
Proof. unfold sub, len. rewrite Nat2Z.id. apply take_ge. simpl. lia. Qed.

Lemma sub_all n b : n = len b -> sub 0 n b = b.
Proof. intros ->. apply sub_full. Qed.

Lemma sub_app_l off n b d :
  0 <= off -> 0 <= n -> off + n <= len b -> sub off n (b ++ d) = sub off n b.
Proof.
  intros. unfold sub, len in *.
  rewrite drop_app_le by lia. apply take_app_le. rewrite length_drop. lia.
Qed.

Lemma sub_app_r off n b d :
  len b <= off -> sub off n (b ++ d) = sub (off - len b) n d.
Proof.
  intros. unfold sub, len in *. rewrite drop_app_ge by lia. f_equal. f_equal. lia.
Qed.

Lemma sub_here off n b d : off = 0 -> n = len b -> sub off n (b ++ d) = b.
Proof.
  intros -> ->. pose proof (len_nonneg b). rewrite sub_app_l by lia. apply sub_full.
Qed.

(** Two adjacent regions are one. *)
Lemma sub_sub off n m b :
  0 <= off -> 0 <= n -> 0 <= m ->
  sub off n b ++ sub (off + n) m b = sub off (n + m) b.
Proof.
  intros. unfold sub. rewrite (Z2Nat.inj_add n m) by lia.
  rewrite <- take_take_drop. rewrite drop_drop. repeat f_equal. lia.
Qed.

Lemma sub_join off n off' m b :
  0 <= off -> 0 <= n -> 0 <= m -> off' = off + n ->
  sub off n b ++ sub off' m b = sub off (n + m) b.
Proof. intros ? ? ? ->. by apply sub_sub. Qed.

Lemma sub_of_sub off n off' n' b :
  0 <= off -> 0 <= off' -> 0 <= n' -> off' + n' <= n ->
  sub off' n' (sub off n b) = sub (off + off') n' b.
Proof.
  intros. unfold sub.
  apply list_eq. intros i. rewrite !lookup_take. case_decide; [|done].
  rewrite !lookup_drop, !lookup_take. case_decide; [|lia].
  rewrite !lookup_drop. f_equal. lia.
Qed.

Lemma sub_prefix m k b : 0 <= m <= k -> sub 0 m (sub 0 k b) = sub 0 m b.
Proof. intros. by rewrite sub_of_sub by lia. Qed.

Lemma sub_drop off n k b :
  0 <= k -> 0 <= off -> sub off n (drop (Z.to_nat k) b) = sub (k + off) n b.
Proof. intros. unfold sub. rewrite drop_drop. do 2 f_equal. lia. Qed.

(** Writing where a known prefix ends. *)
Lemma upd_app_at off a d b :
  off = len a -> upd off d (a ++ b) = a ++ d ++ drop (length d) b.
Proof.
  intros ->. unfold upd, len. rewrite Nat2Z.id, take_app_length. f_equal. f_equal.
  rewrite drop_app_add. done.
Qed.

(** Writing the fields of a buffer one after the other. *)
Lemma upd_next off a d b :
  off = len a -> upd off d (a ++ b) = (a ++ d) ++ drop (length d) b.
Proof. intros. rewrite upd_app_at by done. apply app_assoc. Qed.

Lemma sub_0_split n b :
  0 <= n -> b = sub 0 n b ++ drop (Z.to_nat n) b.
Proof. intros. unfold sub. simpl. rewrite drop_0. by rewrite take_drop. Qed.

Lemma drop_sub off b :
  0 <= off <= len b -> drop (Z.to_nat off) b = sub off (len b - off) b.
Proof.
  intros. unfold sub. rewrite take_ge; [done|]. rewrite length_drop. unfold len in *. lia.
Qed.

(** Writing a region leaves prefix, data, suffix. *)
Lemma upd_split off d b :
  0 <= off -> off + len d <= len b ->
  upd off d b = sub 0 off b ++ d ++ sub (off + len d) (len b - off - len d) b.
Proof.
  intros. unfold upd, sub. simpl. rewrite drop_0. f_equal. f_equal.
  rewrite take_ge by (rewrite length_drop; unfold len in *; lia).
  f_equal. unfold len. lia.
Qed.
End Buffers.

#[export] Hint Rewrite @len_nil @len_cons @len_app @len_replicate : buf.

Lemma len_zeros n : 0 <= n -> len (zeros n) = n.
Proof. intros. unfold zeros. rewrite len_replicate. lia. Qed.

(** ** Range of bytes *)

Lemma bytes_ok_app a b : bytes_ok (a ++ b) <-> bytes_ok a /\ bytes_ok b.
Proof. unfold bytes_ok. by rewrite Forall_app. Qed.

Lemma bytes_ok_sub off n b : bytes_ok b -> bytes_ok (sub off n b).
Proof. intros. apply Forall_take, Forall_drop. done. Qed.

Lemma bytes_ok_upd off d b : bytes_ok d -> bytes_ok b -> bytes_ok (upd off d b).
Proof.
  intros. unfold upd. rewrite !bytes_ok_app. split_and!; [|done|].
  - by apply Forall_take.
  - by apply Forall_drop.
Qed.

Lemma bytes_ok_zeros n : bytes_ok (zeros n).
Proof. apply Forall_replicate. unfold byte_ok. lia. Qed.

#[export] Hint Resolve bytes_ok_sub bytes_ok_upd bytes_ok_zeros : buf.

Lemma u8_byte z : byte_ok (u8 z).
Proof. unfold byte_ok, u8. apply Z.mod_pos_bound. lia. Qed.

Lemma at_ok b i : bytes_ok b -> byte_ok (at_ b i).
Proof.
  intros H. unfold at_.
  destruct (decide (Z.to_nat i < length b)%nat) as [Hi|Hi].
  - apply (proj1 (List.Forall_forall _ _) H). by apply nth_In.
  - rewrite nth_overflow by lia. unfold byte_ok. lia.
Qed.

(** A one-byte region. *)
Lemma sub_one b i : 0 <= i < len b -> sub i 1 b = [at_ b i].
Proof.
  intros. unfold sub, at_. change (Z.to_nat 1) with 1%nat.
  assert (Hi : (Z.to_nat i < length b)%nat) by (unfold len in *; lia).
  revert Hi. generalize (Z.to_nat i) as k. clear. revert b.
  fix IH 2. intros b k Hk. destruct k as [|k], b as [|x b]; simpl in *; try lia.
  - done.
  - apply IH. lia.
Qed.

Lemma at_sub b off n i :
  0 <= off -> 0 <= i < n -> at_ (sub off n b) i = at_ b (off + i).
Proof.
  intros. unfold at_, sub.
  rewrite !nth_lookup, lookup_take. case_decide; [|lia].
  rewrite lookup_drop. do 2 f_equal. lia.
Qed.

Lemma at_sub0 b n i : 0 <= i < n -> at_ (sub 0 n b) i = at_ b i.
Proof. intros. by rewrite at_sub by lia. Qed.

(** The bytes that are tested to be zero one by one. *)
Lemma zeros_of_at (b : bytes) n :
  len b = Z.of_nat n -> (forall i, 0 <= i < Z.of_nat n -> at_ b i = 0) -> b = zeros (Z.of_nat n).
Proof.
  revert n. induction b as [|x b IH]; intros [|n] Hl H; unfold len in Hl; simpl length in Hl; try lia.
  - done.
  - unfold zeros. rewrite Nat2Z.id. simpl. f_equal.
    + apply (H 0). lia.
    + rewrite (IH n); [unfold zeros; by rewrite Nat2Z.id|unfold len; lia|].
      intros i Hi. specialize (H (i + 1) ltac:(lia)). unfold at_ in *.
      replace (Z.to_nat (i + 1)) with (S (Z.to_nat i)) in H by lia. exact H.
Qed.

(** The range test, as a program. *)
Definition bytes_okb (b : bytes) : bool := forallb (fun x => (0 <=? x) && (x <? 256)) b.

Lemma bytes_okb_ok b : bytes_okb b = true -> bytes_ok b.
Proof.
  intros H. apply List.Forall_forall. intros x Hx.
  apply (proj1 (forallb_forall _ _) H) in Hx. bool_hyps. done.
Qed.

(** A property of the numbers below a constant, by evaluation. *)
Lemma range_check (n : nat) (p : Z -> bool) :
  forallb p (map Z.of_nat (seq 0 n)) = true -> forall x, 0 <= x < Z.of_nat n -> p x = true.
Proof.
  intros H x Hx. rewrite forallb_forall in H. apply H.
  rewrite in_map_iff. exists (Z.to_nat x). rewrite in_seq. lia.
Qed.

(** [use_range n p x H]: [H : p x = true], for a test [p] that holds below [n]. *)
Ltac use_range n p x H :=
  pose proof (range_check n p ltac:(vm_compute; reflexivity) x ltac:(lia)) as H; cbv beta in H.

(** ** Equality of buffers *)

Lemma bytes_eqb_eq a b : bytes_eqb a b = true <-> a = b.
Proof.
  revert b. induction a as [|x a IH]; intros [|y b]; simpl; try (split; done).
  rewrite andb_true_iff, Z.eqb_eq, IH. split; [intros [-> ->]|intros [=]]; done.
Qed.

Lemma bytes_eqb_refl a : bytes_eqb a a = true.
Proof. by apply bytes_eqb_eq. Qed.

Lemma bytes_eqb_neq a b : bytes_eqb a b = false <-> a <> b.
Proof. rewrite <- bytes_eqb_eq. by destruct (bytes_eqb a b). Qed.

(** ** C strings *)

Lemma cstr_no_nul b : Forall (fun c => c <> 0) (cstr b).
Proof.
  induction b as [|c b IH]; simpl; [done|].
  destruct (c =? 0) eqn:E; [done|]. constructor; [|done]. by apply Z.eqb_neq.
Qed.

(** A NUL-free string is read back from any storage that holds it and a NUL. *)
Lemma cstr_terminated s rest :
  Forall (fun c => c <> 0) s -> cstr (s ++ 0 :: rest) = s.
Proof.
  induction 1 as [|c s Hc _ IH]; simpl; [done|].
  rewrite (proj2 (Z.eqb_neq _ _) Hc). by rewrite IH.
Qed.

Lemma cstr_id b : Forall (fun c => c <> 0) b -> cstr b = b.
Proof. induction 1 as [|c b Hc _ IH]; cbn; [done|]. by rewrite (proj2 (Z.eqb_neq c 0) Hc), IH. Qed.

Lemma cstr_len b : len (cstr b) <= len b.
Proof.
  induction b as [|c b IH]; simpl; [done|]. destruct (c =? 0); rewrite ?len_cons.
  - rewrite len_nil. pose proof (len_nonneg b). lia.
  - lia.
Qed.

(** ** Checked reads *)

Lemma rd_ok off n b :
  0 <= off -> 0 <= n -> off + n <= len b -> rd off n b = Ok (sub off n b).
Proof. intros. unfold rd. by decide_if. Qed.

Lemma rd_inv off n b x :
  rd off n b = Ok x ->
  x = sub off n b /\ 0 <= off /\ 0 <= n /\ off + n <= len b.
Proof.
  unfold rd. split_if; [|done]. intros [= <-]. bool_hyps. done.
Qed.

(** Injectivity of result triples, without computing their components. *)
Lemma triple_inv {A B C} (a a' : A) (b b' : B) (c c' : C) :
  (a, b, Some c) = (a', b', Some c') -> a = a' /\ b = b' /\ c = c'.
Proof. by intros [=]. Qed.

(** Reads of a concatenation, piece by piece. *)
Lemma rd_skip off n a b : len a <= off -> rd off n (a ++ b) = rd (off - len a) n b.
Proof.
  intros. pose proof (len_nonneg a). unfold rd. rewrite len_app, sub_app_r by done.
  rewrite (proj2 (Z.leb_le 0 off)), (proj2 (Z.leb_le 0 (off - len a))) by lia.
  replace (off + n <=? len a + len b) with (off - len a + n <=? len b); [done|].
  apply eq_true_iff_eq. rewrite !Z.leb_le. lia.
Qed.

Lemma rd_here off n a b : off = 0 -> n = len a -> rd off n (a ++ b) = Ok a.
Proof.
  intros -> ->. pose proof (len_nonneg a). pose proof (len_nonneg b).
  rewrite rd_ok by (rewrite ?len_app; lia). rewrite sub_app_l by lia. by rewrite sub_full.
Qed.

Lemma rd_last off n a : off = 0 -> n = len a -> rd off n a = Ok a.
Proof. intros. rewrite <- (app_nil_r a) at 1. by apply rd_here. Qed.

(** Inversion of a successful computation. *)
Lemma rbind_ok_inv {A B} (m : res A) (k : A -> res B) y :
  rbind m k = Ok y -> exists x, m = Ok x /\ k x = Ok y.
Proof. destruct m; simpl; try done. eauto. Qed.

Lemma reject_ok_inv {A} c e (k : res A) y : reject c e k = Ok y -> c = false /\ k = Ok y.
Proof. unfold reject. by destruct c. Qed.

Lemma reject_true {A} c e (k : res A) : c = true -> reject c e k = Err e.
Proof. by intros ->. Qed.

Lemma reject_false {A} c e (k : res A) : c = false -> reject c e k = k.
Proof. by intros ->. Qed.

Lemma rbind_no_fault {A B} (m : res A) (k : A -> res B) :
  m <> Fault -> (forall x, m = Ok x -> k x <> Fault) -> rbind m k <> Fault.
Proof. intros Hm Hk. destruct m; simpl; [by apply Hk|done|congruence]. Qed.

Lemma reject_no_fault {A} c e (k : res A) : (c = false -> k <> Fault) -> reject c e k <> Fault.
Proof. unfold reject. intros Hk. destruct c; [done|by apply Hk]. Qed.

Lemma rd_no_fault off n b : 0 <= off -> 0 <= n -> off + n <= len b -> rd off n b <> Fault.
Proof. intros. by rewrite rd_ok. Qed.

(** Computations that never report the status [0] as an error. *)
Definition proper_err {A} (m : res A) : Prop := forall e, m = Err e -> e <> 0.

Lemma rbind_proper {A B} (m : res A) (k : A -> res B) :
  proper_err m -> (forall x, proper_err (k x)) -> proper_err (rbind m k).
Proof. intros Hm Hk e. destruct m; simpl; [apply Hk| |done]. intros [=]. by apply Hm; f_equal. Qed.

Lemma reject_proper {A} c e (k : res A) : e <> 0 -> proper_err k -> proper_err (reject c e k).
Proof. intros He Hk e'. unfold reject. destruct c; [by intros [= <-]|apply Hk]. Qed.

(** A status other than [0] is passed on as the error. *)
Lemma reject_status_proper {A} e (k : res A) : proper_err k -> proper_err (reject (negb (e =? 0)) e k).
Proof.
  intros Hk e' H. unfold reject in H. destruct (e =? 0) eqn:E; cbn [negb] in H; [by apply Hk|].
  apply Z.eqb_neq in E. by injection H as <-.
Qed.

Lemma rd_proper off n b : proper_err (rd off n b).
Proof. intros e. unfold rd. by destruct (_ && _). Qed.

Lemma ok_proper {A} (x : A) : proper_err (Ok x).
Proof. by intros e. Qed.

(** Sequential writes into a zero-filled buffer: the next field follows the
    ones already written, after a gap of [gap] zero bytes. *)
Lemma upd_fill0 P off d k :
  off = len P -> len d <= k -> upd off d (P ++ zeros k) = (P ++ d) ++ zeros (k - len d).
Proof.
  intros -> ?. pose proof (len_nonneg d). rewrite upd_app_at, <- app_assoc by done.
  do 2 f_equal. unfold zeros. rewrite drop_replicate. f_equal. unfold len in *. lia.
Qed.

Lemma upd_fill P off d k gap :
  off = len P + gap -> 0 <= gap -> gap + len d <= k ->
  upd off d (P ++ zeros k) = (P ++ zeros gap ++ d) ++ zeros (k - gap - len d).
Proof.
  intros -> ? ?. pose proof (len_nonneg d).
  replace (zeros k) with (zeros gap ++ zeros (k - gap)).
  - rewrite (app_assoc P (zeros gap) (zeros (k - gap))).
    rewrite upd_fill0 by (rewrite ?len_app, ?len_zeros; lia).
    by rewrite <- (app_assoc P).
  - unfold zeros. rewrite <- replicate_add. f_equal. lia.
Qed.

#[export] Hint Rewrite len_zeros using lia : buf.

(** Component constants: [autounfold with consts]. *)
Create HintDb consts.

Ltac clia := autounfold with consts in *; autorewrite with buf in *; lia.

(** Read a field of a concatenation: skip the ones before it. *)
Ltac read_field := repeat rewrite sub_app_r by clia; apply sub_here; clia.

(** Evaluation of a goal [a = b] by the kernel, without normalising it first. *)
Ltac vm_refl := match goal with |- @eq ?A _ ?b => vm_cast_no_check (@eq_refl A b) end.

(** Read the next field of a concatenation. *)
Ltac next_field :=
  cbv beta zeta; cbn [rbind];
  repeat (rewrite rd_skip by clia);
  first [rewrite rd_here by clia | rewrite rd_last by clia];
  cbn [rbind].

(** Invert [H : <straight-line body> = Ok y]. *)
Ltac res_inv H :=
  repeat match type of H with
  | reject _ _ _ = Ok _ => apply reject_ok_inv in H as [? H]
  | rbind (rd _ _ _) _ = Ok _ =>
      let x := fresh "x" in let Hx := fresh "Hx" in
      apply rbind_ok_inv in H as (x & Hx & H); apply rd_inv in Hx as (-> & ? & ? & ?)
  | rbind _ _ = Ok _ =>
      let x := fresh "x" in let Hx := fresh "Hx" in
      apply rbind_ok_inv in H as (x & Hx & H)
  | (let _ := _ in _) = Ok _ => cbv zeta in H
  end.
