(* ===== verification/Bytes.v ===== *)
(** Big-endian integers in byte buffers, overlap of memory ranges.

    The wire formats of the program store every integer in network order with
    the same six helpers, which each component declares as static functions:
    here they are the ones of src/libraries/audit/hash_chain.c (the text is the
    same in pki/certificate.c, events/broker.c and policy/security_epoch.c).
    [be_bytes] and [be_val] are the specification they are proved against. *)

From S2P Require Import Prelude.

(** ** Specification *)

(** The [n] low-order bytes of [v], most significant first. *)
Fixpoint be_bytes (n : nat) (v : Z) : bytes :=
  match n with
  | O => []
  | S n => be_bytes n (v / 256) ++ [v mod 256]
  end.

(** The integer a big-endian byte sequence denotes. *)
Definition be_val (b : bytes) : Z := fold_left (fun v x => v * 256 + x) b 0.

(** ** The code's loads and stores *)

Definition load_u16_be (input : bytes) : Z :=
  u16 (Z.lor (Z.shiftl (at_ input 0) 8) (at_ input 1)).

Definition load_u32_be (input : bytes) : Z :=
  Z.lor (Z.lor (Z.lor (u32 (Z.shiftl (at_ input 0) 24))
                      (u32 (Z.shiftl (at_ input 1) 16)))
               (u32 (Z.shiftl (at_ input 2) 8)))
        (at_ input 3).

(** [for (index = 0; index < 8; ++index) value = (value << 8) | input[index];] *)
Definition load_u64_be (input : bytes) : Z :=
  fold_left (fun value index => Z.lor (u64 (Z.shiftl value 8)) (at_ input index))
    [0; 1; 2; 3; 4; 5; 6; 7] 0.

Definition store_u16_be (value : Z) : bytes := [u8 (Z.shiftr value 8); u8 value].

Definition store_u32_be (value : Z) : bytes :=
  [u8 (Z.shiftr value 24); u8 (Z.shiftr value 16); u8 (Z.shiftr value 8); u8 value].

(** [for (index = 8; index > 0; --index) { output[index - 1] = (uint8_t)value;
    value >>= 8; }]: the bytes already written stand after the new one. *)
Fixpoint store_u64_loop (index : nat) (value : Z) (output : bytes) : bytes :=
  match index with
  | O => output
  | S index => store_u64_loop index (Z.shiftr value 8) (u8 value :: output)
  end.

Definition store_u64_be (value : Z) : bytes := store_u64_loop 8 value [].

(** A nullable pointer with the address of its pointee. *)
Inductive ptr (A : Type) : Type :=
  | NULL
  | At (addr : Z) (val : A).
Arguments NULL {A}.
Arguments At {A} _ _.

Definition addr_of {A} (p : ptr A) : Z :=
  match p with NULL => 0 | At a _ => a end.

Definition is_null {A} (p : ptr A) : bool :=
  match p with NULL => true | At _ _ => false end.

(** Do [first_len] bytes at [first] and [second_len] bytes at [second] share a
    byte?  A range that would wrap the address space counts as overlapping. *)
Definition ranges_overlap {A B} (first : ptr A) (first_len : Z)
    (second : ptr B) (second_len : Z) : bool :=
  if is_null first || is_null second || (first_len =? 0) || (second_len =? 0)
  then false
  else
    let first_start := addr_of first in
    let second_start := addr_of second in
    if (first_len >? SIZE_MAX - first_start) || (second_len >? SIZE_MAX - second_start)
    then true
    else
      let first_end := first_start + first_len in
      let second_end := second_start + second_len in
      (first_start <? second_end) && (second_start <? first_end).

(** ** Lemmas on the specification *)

Lemma length_be_bytes n v : length (be_bytes n v) = n.
Proof.
  revert v. induction n; intros; simpl; [done|]. rewrite length_app, IHn. simpl. lia.
Qed.

Lemma len_be_bytes n v : len (be_bytes n v) = Z.of_nat n.
Proof. unfold len. by rewrite length_be_bytes. Qed.

Lemma be_bytes_ok n v : bytes_ok (be_bytes n v).
Proof.
  revert v. induction n; intros; simpl; [constructor|].
  apply bytes_ok_app. split; [done|]. repeat constructor; apply Z.mod_pos_bound; lia.
Qed.

Lemma be_val_app a b : be_val (a ++ [b]) = be_val a * 256 + b.
Proof. unfold be_val. by rewrite fold_left_app. Qed.

Lemma be_val_bytes n v : 0 <= v < 256 ^ Z.of_nat n -> be_val (be_bytes n v) = v.
Proof.
  revert v. induction n as [|n IH]; intros v Hv.
  - change (be_bytes 0 v) with (@nil Z). change (be_val []) with 0.
    change (256 ^ Z.of_nat 0) with 1 in Hv. lia.
  - simpl be_bytes. rewrite be_val_app, IH.
    + pose proof (Z.div_mod v 256). lia.
    + rewrite Nat2Z.inj_succ, Z.pow_succ_r in Hv by lia.
      split; [apply Z.div_pos; lia|apply Z.div_lt_upper_bound; lia].
Qed.

Lemma be_val_bound b : bytes_ok b -> 0 <= be_val b < 256 ^ len b.
Proof.
  induction b as [|x b IH] using rev_ind; intros H.
  - change (be_val []) with 0. change (256 ^ len []) with 1. lia.
  - apply bytes_ok_app in H as [Hb Hx]. apply Forall_inv in Hx. unfold byte_ok in Hx.
    rewrite be_val_app, len_app. change (len [x]) with 1.
    rewrite Z.pow_add_r by (pose proof (len_nonneg b); lia).
    specialize (IH Hb). change (256 ^ 1) with 256. lia.
Qed.

Lemma be_bytes_val b : bytes_ok b -> be_bytes (length b) (be_val b) = b.
Proof.
  induction b as [|x b IH] using rev_ind; intros H; [done|].
  apply bytes_ok_app in H as [Hb Hx]. apply Forall_inv in Hx. unfold byte_ok in Hx.
  rewrite length_app, be_val_app. simpl. rewrite Nat.add_1_r. simpl.
  rewrite Z.div_add_l, Z.div_small, Z.add_0_r, IH by (done || lia).
  f_equal. f_equal. rewrite Z.add_comm, Z.mod_add, Z.mod_small; lia.
Qed.

Lemma be_bytes_app n m v :
  be_bytes (n + m) v = be_bytes n (v / 256 ^ Z.of_nat m) ++ be_bytes m v.
Proof.
  revert v. induction m as [|m IH]; intros v.
  - rewrite Nat.add_0_r. change (256 ^ Z.of_nat 0) with 1. by rewrite Z.div_1_r, app_nil_r.
  - rewrite Nat.add_succ_r. simpl be_bytes. rewrite IH, app_assoc.
    do 3 f_equal. rewrite Z.div_div by lia. f_equal.
    rewrite Nat2Z.inj_succ, Z.pow_succ_r by lia. lia.
Qed.

Lemma be_bytes_mod n v : be_bytes n (v mod 256 ^ Z.of_nat n) = be_bytes n v.
Proof.
  revert v. induction n as [|n IH]; intros v; [done|]. simpl be_bytes.
  rewrite Nat2Z.inj_succ, Z.pow_succ_r by lia.
  rewrite Z.rem_mul_r by lia. rewrite (Z.mul_comm 256).
  rewrite Z.div_add, (Z.div_small (v mod 256)), Z.add_0_l, IH
    by (try apply Z.mod_pos_bound; lia).
  by rewrite Z.mod_add, Z.mod_mod by lia.
Qed.

Lemma be_bytes_inj n v w :
  0 <= v < 256 ^ Z.of_nat n -> 0 <= w < 256 ^ Z.of_nat n ->
  be_bytes n v = be_bytes n w -> v = w.
Proof. intros Hv Hw E. rewrite <- (be_val_bytes n v), E by done. by apply be_val_bytes. Qed.

(** ** The loads and stores meet the specification *)

Lemma lor_disjoint_add a b n :
  0 <= n -> 0 <= b < 2 ^ n -> Z.lor (Z.shiftl a n) b = a * 2 ^ n + b.
Proof.
  intros Hn Hb. rewrite <- Z.shiftl_mul_pow2 by done.
  rewrite <- Z.lxor_lor.
  - symmetry. apply Z.add_nocarry_lxor, Z.bits_inj'. intros i Hi.
    rewrite Z.land_spec, Z.bits_0. destruct (Z.lt_ge_cases i n).
    + by rewrite Z.shiftl_spec_low.
    + rewrite <- (Z.mod_small b (2 ^ n)) by done.
      rewrite Z.mod_pow2_bits_high by lia. apply andb_false_r.
  - apply Z.bits_inj'. intros i Hi.
    rewrite Z.land_spec, Z.bits_0. destruct (Z.lt_ge_cases i n).
    + by rewrite Z.shiftl_spec_low.
    + rewrite <- (Z.mod_small b (2 ^ n)) by done.
      rewrite Z.mod_pow2_bits_high by lia. apply andb_false_r.
Qed.

Lemma u8_shiftr v n : 0 <= n -> u8 (Z.shiftr v n) = (v / 2 ^ n) mod 256.
Proof. intros. unfold u8. by rewrite Z.shiftr_div_pow2. Qed.

Lemma store_u16_be_spec v : store_u16_be v = be_bytes 2 v.
Proof. unfold store_u16_be. rewrite u8_shiftr by lia. done. Qed.

Lemma store_u32_be_spec v : store_u32_be v = be_bytes 4 v.
Proof.
  unfold store_u32_be. rewrite !u8_shiftr by lia. simpl be_bytes. unfold u8.
  rewrite !Z.div_div by lia. done.
Qed.

Lemma store_u64_loop_spec n v out : store_u64_loop n v out = be_bytes n v ++ out.
Proof.
  revert v out. induction n as [|n IH]; intros; simpl; [done|].
  rewrite IH, <- (app_assoc (be_bytes n _)). simpl. rewrite Z.shiftr_div_pow2 by lia. done.
Qed.

Lemma store_u64_be_spec v : store_u64_be v = be_bytes 8 v.
Proof. unfold store_u64_be. by rewrite store_u64_loop_spec, app_nil_r. Qed.

Lemma load_u16_be_spec a b :
  byte_ok a -> byte_ok b -> load_u16_be [a; b] = be_val [a; b].
Proof.
  unfold byte_ok. intros. unfold load_u16_be, at_. simpl nth.
  rewrite lor_disjoint_add by lia. unfold be_val, u16. simpl fold_left.
  rewrite Z.mod_small; lia.
Qed.

Lemma load_u32_be_spec a b c d :
  byte_ok a -> byte_ok b -> byte_ok c -> byte_ok d ->
  load_u32_be [a; b; c; d] = be_val [a; b; c; d].
Proof.
  unfold byte_ok. intros. unfold load_u32_be, at_. simpl nth. unfold u32.
  rewrite !(Z.mod_small (Z.shiftl _ _)) by (rewrite Z.shiftl_mul_pow2; lia).
  transitivity (Z.lor (Z.shiftl (Z.lor (Z.shiftl (Z.lor (Z.shiftl a 8) b) 8) c) 8) d).
  - rewrite !Z.shiftl_lor, !Z.shiftl_shiftl by lia. done.
  - rewrite !lor_disjoint_add by lia. done.
Qed.

Lemma load_u64_be_loop l v :
  0 <= v < 256 ^ (8 - len l) -> len l <= 8 -> bytes_ok l ->
  fold_left (fun value x => Z.lor (u64 (Z.shiftl value 8)) x) l v
  = fold_left (fun v x => v * 256 + x) l v.
Proof.
  revert v. induction l as [|x l IH]; intros v Hv Hl Hok; simpl; [done|].
  rewrite len_cons in *. apply Forall_cons_iff in Hok as [Hx Hok]. unfold byte_ok in Hx.
  pose proof (len_nonneg l).
  assert (0 <= v * 256 + x < 256 ^ (8 - len l)).
  { replace (8 - len l) with (Z.succ (8 - (1 + len l))) by lia.
    rewrite Z.pow_succ_r by lia. lia. }
  assert (256 ^ (8 - len l) <= 2 ^ 64).
  { change (2 ^ 64) with (256 ^ 8). apply Z.pow_le_mono_r; lia. }
  unfold u64. rewrite (Z.mod_small (Z.shiftl v 8))
    by (rewrite Z.shiftl_mul_pow2 by lia; change (2 ^ 8) with 256; lia).
  rewrite lor_disjoint_add by lia. change (2 ^ 8) with 256. apply IH; [done|lia|done].
Qed.

(** Loads read a prefix of what they are given. *)
Lemma load_u16_be_val b :
  bytes_ok b -> len b = 2 -> load_u16_be b = be_val b.
Proof.
  intros Hok Hl. destruct b as [|x [|y [|]]]; try done; unfold len in Hl; simpl in Hl; try lia.
  unfold bytes_ok in Hok. rewrite !Forall_cons_iff in Hok. apply load_u16_be_spec; tauto.
Qed.

Lemma load_u32_be_val b :
  bytes_ok b -> len b = 4 -> load_u32_be b = be_val b.
Proof.
  intros Hok Hl. destruct b as [|x [|y [|z [|w [|]]]]]; unfold len in Hl; simpl in Hl; try lia.
  unfold bytes_ok in Hok. rewrite !Forall_cons_iff in Hok. apply load_u32_be_spec; tauto.
Qed.

Lemma load_u64_be_val b :
  bytes_ok b -> len b = 8 -> load_u64_be b = be_val b.
Proof.
  intros Hok Hl. pose proof Hl as Hl'.
  destruct b as [|x0 [|x1 [|x2 [|x3 [|x4 [|x5 [|x6 [|x7 [|]]]]]]]]];
    unfold len in Hl; simpl in Hl; try lia.
  transitivity (fold_left (fun value x => Z.lor (u64 (Z.shiftl value 8)) x)
                  [x0; x1; x2; x3; x4; x5; x6; x7] 0).
  { unfold load_u64_be, at_.
    cbn [fold_left Z.to_nat Pos.to_nat Pos.iter_op Nat.add nth]. done. }
  apply load_u64_be_loop; [rewrite Hl'; simpl; lia|rewrite Hl'; lia|done].
Qed.

(** ** Round trips *)

Lemma load_store_u16 v : 0 <= v < 2 ^ 16 -> load_u16_be (store_u16_be v) = v.
Proof.
  intros. rewrite store_u16_be_spec, load_u16_be_val.
  - by apply be_val_bytes.
  - apply be_bytes_ok.
  - apply len_be_bytes.
Qed.

Lemma load_store_u32 v : 0 <= v < 2 ^ 32 -> load_u32_be (store_u32_be v) = v.
Proof.
  intros. rewrite store_u32_be_spec, load_u32_be_val.
  - by apply be_val_bytes.
  - apply be_bytes_ok.
  - apply len_be_bytes.
Qed.

Lemma load_store_u64 v : 0 <= v < 2 ^ 64 -> load_u64_be (store_u64_be v) = v.
Proof.
  intros. rewrite store_u64_be_spec, load_u64_be_val.
  - by apply be_val_bytes.
  - apply be_bytes_ok.
  - apply len_be_bytes.
Qed.

Lemma store_load_gen n b : bytes_ok b -> length b = n -> be_bytes n (be_val b) = b.
Proof. intros ? <-. by apply be_bytes_val. Qed.

Lemma store_load_u16 b : bytes_ok b -> len b = 2 -> store_u16_be (load_u16_be b) = b.
Proof.
  intros. rewrite store_u16_be_spec, load_u16_be_val by done.
  apply store_load_gen; [done|unfold len in *; lia].
Qed.

Lemma store_load_u32 b : bytes_ok b -> len b = 4 -> store_u32_be (load_u32_be b) = b.
Proof.
  intros. rewrite store_u32_be_spec, load_u32_be_val by done.
  apply store_load_gen; [done|unfold len in *; lia].
Qed.

Lemma store_load_u64 b : bytes_ok b -> len b = 8 -> store_u64_be (load_u64_be b) = b.
Proof.
  intros. rewrite store_u64_be_spec, load_u64_be_val by done.
  apply store_load_gen; [done|unfold len in *; lia].
Qed.

Lemma load_u16_bound b : bytes_ok b -> len b = 2 -> 0 <= load_u16_be b < 2 ^ 16.
Proof.
  intros Hok Hl. rewrite load_u16_be_val by done.
  pose proof (be_val_bound b Hok) as H. rewrite Hl in H. exact H.
Qed.

Lemma load_u32_bound b : bytes_ok b -> len b = 4 -> 0 <= load_u32_be b < 2 ^ 32.
Proof.
  intros Hok Hl. rewrite load_u32_be_val by done.
  pose proof (be_val_bound b Hok) as H. rewrite Hl in H. exact H.
Qed.

Lemma load_u64_bound b : bytes_ok b -> len b = 8 -> 0 <= load_u64_be b < 2 ^ 64.
Proof.
  intros Hok Hl. rewrite load_u64_be_val by done.
  pose proof (be_val_bound b Hok) as H. rewrite Hl in H. exact H.
Qed.

Lemma len_store_u16 v : len (store_u16_be v) = 2.
Proof. done. Qed.

Lemma len_store_u32 v : len (store_u32_be v) = 4.
Proof. done. Qed.

Lemma len_store_u64 v : len (store_u64_be v) = 8.
Proof. done. Qed.

Lemma store_u16_ok v : bytes_ok (store_u16_be v).
Proof. rewrite store_u16_be_spec. apply be_bytes_ok. Qed.

Lemma store_u32_ok v : bytes_ok (store_u32_be v).
Proof. rewrite store_u32_be_spec. apply be_bytes_ok. Qed.

Lemma store_u64_ok v : bytes_ok (store_u64_be v).
Proof. rewrite store_u64_be_spec. apply be_bytes_ok. Qed.

#[export] Hint Rewrite len_store_u16 len_store_u32 len_store_u64 : buf.
#[export] Hint Resolve store_u16_ok store_u32_ok store_u64_ok : buf.
Lemma store16_inj v w : 0 <= v < 2 ^ 16 -> 0 <= w < 2 ^ 16 -> store_u16_be v = store_u16_be w -> v = w.
Proof. intros ? ? E. rewrite <- (load_store_u16 v), E by done. by apply load_store_u16. Qed.

Lemma store64_inj v w : 0 <= v < 2 ^ 64 -> 0 <= w < 2 ^ 64 -> store_u64_be v = store_u64_be w -> v = w.
Proof. intros ? ? E. rewrite <- (load_store_u64 v), E by done. by apply load_store_u64. Qed.

(** Two concatenations whose first parts have the same length. *)
Lemma app_split {A} (a b c d : list A) : len a = len c -> a ++ b = c ++ d -> a = c /\ b = d.
Proof. intros Hl. apply app_inj_1. unfold len in Hl. lia. Qed.

Lemma store32_inj v w : 0 <= v < 2 ^ 32 -> 0 <= w < 2 ^ 32 -> store_u32_be v = store_u32_be w -> v = w.
Proof. intros ? ? E. rewrite <- (load_store_u32 v), E by done. by apply load_store_u32. Qed.

(** The loop of the load, for the code that writes the same loop on its own. *)
Lemma load_u64_be_unfold b :
  load_u64_be b = fold_left (fun value index => Z.lor (u64 (Z.shiftl value 8)) (at_ b index)) [0; 1; 2; 3; 4; 5; 6; 7] 0.
Proof. reflexivity. Qed.

#[global] Opaque store_u16_be store_u32_be store_u64_be load_u16_be load_u32_be load_u64_be.

(** ** Overlap *)

(** Overlap is symmetric, and for ranges that do not wrap it is exactly the
    existence of a common address. *)
Lemma ranges_overlap_sym {A B} (p : ptr A) n (q : ptr B) m :
  ranges_overlap p n q m = ranges_overlap q m p n.
Proof.
  unfold ranges_overlap.
  destruct (is_null p), (is_null q), (n =? 0), (m =? 0); simpl; try done.
  rewrite orb_comm. destruct (_ || _); [done|]. apply andb_comm.
Qed.

Lemma ranges_overlap_iff {A B} (p : ptr A) n (q : ptr B) m :
  is_null p = false -> is_null q = false -> 0 <= n -> 0 <= m ->
  addr_of p + n <= SIZE_MAX -> addr_of q + m <= SIZE_MAX ->
  ranges_overlap p n q m = true <->
  exists a, addr_of p <= a < addr_of p + n /\ addr_of q <= a < addr_of q + m.
Proof.
  intros Hp Hq Hn Hm Hpn Hqm. unfold ranges_overlap. rewrite Hp, Hq. simpl.
  destruct (n =? 0) eqn:En; [|destruct (m =? 0) eqn:Em]; simpl.
  - bool_hyps. split; [done|]. intros (a & ? & ?). lia.
  - bool_hyps. split; [done|]. intros (a & ? & ?). lia.
  - rewrite !Z.gtb_ltb. bool_hyps. decide_if.
    rewrite andb_true_iff, !Z.ltb_lt. split.
    + intros [? ?]. exists (Z.max (addr_of p) (addr_of q)). lia.
    + intros (a & ? & ?). lia.
Qed.
