(* ===== verification/HashApi.v ===== *)
(** The hash interface: what the SHA-512 engine promises to the components that
    call it (PKI certificates, package pre-images, the security epoch record).

    [Sha512Api] is the C interface of include/alrios/crypto_verify.h;
    [Sha512Laws] is its contract with respect to a hash function [H] on whole
    messages. Sha512.v gives the instance for the code. *)

From S2P Require Import Prelude.

(** The three entry points on a nullable context pointer. *)
Class Sha512Api := {
  sha_ctx : Type;
  sha_uninit : sha_ctx;
  sha_init : option sha_ctx -> Z * option sha_ctx;
  sha_update : option sha_ctx -> option bytes -> Z -> Z * option sha_ctx;
  sha_final : option sha_ctx -> bool -> Z * option sha_ctx * option bytes;
}.

(** Messages the contract covers: the bit length fits the 128-bit field. *)
Definition SHA_MAX : Z := 2 ^ 125.

Class Sha512Laws (api : Sha512Api) (H : bytes -> bytes) := {
  sha_rep : sha_ctx -> bytes -> Prop;
  sha_init_ok c : exists c', sha_init (Some c) = (0, Some c') /\ sha_rep c' [];
  sha_update_ok c m d :
    sha_rep c m -> len d < 2 ^ 64 -> len m + len d < SHA_MAX ->
    exists c', sha_update (Some c) (Some d) (len d) = (0, Some c') /\ sha_rep c' (m ++ d);
  sha_final_ok c m :
    sha_rep c m -> len m < SHA_MAX ->
    exists c', sha_final (Some c) true = (0, Some c', Some (H m));
  sha_digest_len m : len (H m) = 64;
  sha_digest_ok m : bytes_ok (H m);
}.

Section Client.
Context `{api : Sha512Api}.

(** [alrios_sha512_update(&ctx, p, len) == OK && ...] over consecutive buffers. *)
Fixpoint sha_updates (c : option sha_ctx) (parts : list bytes) : Z * option sha_ctx :=
  match parts with
  | [] => (0, c)
  | p :: parts =>
      let '(status, c) := sha_update c (Some p) (len p) in
      if status =? 0 then sha_updates c parts else (status, c)
  end.

(** The call sequence of the clients: init, the updates, final; [None] when
    any of them reports an error. *)
Definition sha512_parts (parts : list bytes) : option bytes :=
  let '(status, c) := sha_init (Some sha_uninit) in
  if negb (status =? 0) then None
  else
    let '(status, c) := sha_updates c parts in
    if negb (status =? 0) then None
    else
      let '(status, _, out) := sha_final c true in
      if negb (status =? 0) then None else out.

Context {H : bytes -> bytes} {laws : Sha512Laws api H}.

Lemma sha_updates_ok parts c m :
  sha_rep c m -> Forall (fun p : bytes => len p < 2 ^ 64) parts ->
  len m + len (concat parts) < SHA_MAX ->
  exists c', sha_updates (Some c) parts = (0, Some c') /\ sha_rep c' (m ++ concat parts).
Proof.
  revert c m. induction parts as [|p parts IH]; intros c m Hc Hf Hl; cbn [sha_updates concat] in *.
  - exists c. by rewrite app_nil_r.
  - apply Forall_cons_iff in Hf as [Hp Hf]. rewrite len_app in Hl.
    pose proof (len_nonneg (concat parts)).
    destruct (sha_update_ok c m p Hc Hp) as (c1 & -> & H1); [lia|].
    rewrite app_assoc. apply (IH c1 (m ++ p)); [done|done|]. rewrite len_app. lia.
Qed.

(** A client run computes the hash of the concatenation. *)
Lemma sha512_parts_ok parts :
  Forall (fun p : bytes => len p < 2 ^ 64) parts -> len (concat parts) < SHA_MAX ->
  sha512_parts parts = Some (H (concat parts)).
Proof.
  intros Hf Hl. unfold sha512_parts.
  destruct (sha_init_ok sha_uninit) as (c0 & -> & H0). cbn [negb Z.eqb].
  destruct (sha_updates_ok parts c0 [] H0 Hf Hl) as (c1 & -> & H1). cbn [negb Z.eqb].
  rewrite app_nil_l in H1. destruct (sha_final_ok c1 _ H1 Hl) as (c2 & ->). done.
Qed.
End Client.
