(* ===== verification/CryptoUtils.v ===== *)
(** Constant-time comparison, zeroization and the capability mask
    (src/libraries/crypto/utils.c, include/alrios/crypto_verify.h). *)

From S2P Require Import Prelude.

Definition ALRIOS_CRYPTO_OK : Z := 0.

Definition ALRIOS_CRYPTO_ERR_NULL_PTR : Z := -1001.

Definition ALRIOS_CRYPTO_CAP_ED25519 : Z := Z.shiftl 1 0.

Definition ALRIOS_CRYPTO_CAP_AES_256_GCM : Z := Z.shiftl 1 1.

Definition ALRIOS_CRYPTO_CAP_ML_DSA_65 : Z := Z.shiftl 1 2.

Definition ALRIOS_CRYPTO_CAP_ML_KEM_768 : Z := Z.shiftl 1 3.

(** [while (len--) *p++ = 0x00;] *)
Fixpoint zeroize_loop (n : nat) (p : bytes) : bytes :=
  match n, p with
  | O, _ => p
  | S n, _ :: p => 0 :: zeroize_loop n p
  | S _, [] => []
  end.

Definition alrios_explicit_zeroize (p : option bytes) (n : Z) : option bytes :=
  match p with
  | None => None
  | Some b => if n =? 0 then p else Some (zeroize_loop (Z.to_nat n) b)
  end.

(** [for (i = 0; i < len; i++) result |= (ua[i] ^ ub[i]);] *)
Fixpoint memcmp_loop (n : nat) (i : Z) (ua ub : bytes) (result : Z) : Z :=
  match n with
  | O => result
  | S n => memcmp_loop n (i + 1) ua ub
             (Z.lor result (Z.lxor (at_ ua i) (at_ ub i)))
  end.

(** The branch-free conversion of the accumulated difference. *)
Definition memcmp_fold (result : Z) : Z :=
  let diff := Z.lor result (Z.shiftr result 4) in
  let diff := Z.lor diff (Z.shiftr diff 2) in
  let diff := Z.lor diff (Z.shiftr diff 1) in
  Z.land diff 1.

Definition alrios_constant_time_memcmp (a b : option bytes) (n : Z) : Z :=
  match a, b with
  | Some ua, Some ub => - memcmp_fold (memcmp_loop (Z.to_nat n) 0 ua ub 0)
  | _, _ => -1
  end.

(** The optional algorithms the build was configured with
    ([ALRIOS_HAVE_ML_DSA_65], [ALRIOS_HAVE_ML_KEM_768]). *)
Record build_config := {
  have_ml_dsa_65 : bool;
  have_ml_kem_768 : bool;
}.

Definition alrios_crypto_capabilities (cfg : build_config) : Z :=
  let capabilities := Z.lor ALRIOS_CRYPTO_CAP_ED25519 ALRIOS_CRYPTO_CAP_AES_256_GCM in
  let capabilities :=
    if have_ml_dsa_65 cfg then Z.lor capabilities ALRIOS_CRYPTO_CAP_ML_DSA_65
    else capabilities in
  if have_ml_kem_768 cfg then Z.lor capabilities ALRIOS_CRYPTO_CAP_ML_KEM_768
  else capabilities.

Definition alrios_crypto_has_capability (cfg : build_config) (capability : Z) : bool :=
  Z.land (alrios_crypto_capabilities cfg) capability =? capability.

(** ** Lemmas *)

Lemma memcmp_fold_byte r :
  0 <= r < 256 -> memcmp_fold r = if r =? 0 then 0 else 1.
Proof.
  intros Hr.
  assert (H : forallb (fun r => memcmp_fold r =? (if r =? 0 then 0 else 1))
                (map Z.of_nat (seq 0 256)) = true) by (vm_compute; reflexivity).
  rewrite forallb_forall in H. apply Z.eqb_eq, H.
  rewrite in_map_iff. exists (Z.to_nat r). rewrite in_seq. lia.
Qed.

Lemma lor_byte a b : byte_ok a -> byte_ok b -> byte_ok (Z.lor a b).
Proof.
  unfold byte_ok. intros Ha Hb.
  assert (0 <= Z.lor a b) by (apply Z.lor_nonneg; lia). split; [done|].
  destruct (Z.eq_dec (Z.lor a b) 0) as [->|Hn]; [lia|].
  apply Z.log2_lt_cancel. rewrite Z.log2_lor by lia.
  change (Z.log2 256) with 8.
  assert (Hl : forall x, 0 <= x < 256 -> Z.log2 x < 8); [|destruct (Z.max_spec (Z.log2 a) (Z.log2 b)) as [[_ ->]|[_ ->]]; auto].
  intros x Hx. destruct (Z.eq_dec x 0) as [->|]; [done|].
  apply Z.log2_lt_pow2; [lia|]. change (2 ^ 8) with 256. lia.
Qed.

Lemma lxor_byte a b : byte_ok a -> byte_ok b -> byte_ok (Z.lxor a b).
Proof.
  unfold byte_ok. intros Ha Hb.
  assert (0 <= Z.lxor a b) by (apply Z.lxor_nonneg; lia). split; [done|].
  destruct (Z.eq_dec (Z.lxor a b) 0) as [->|Hn]; [lia|].
  apply Z.log2_lt_cancel. eapply Z.le_lt_trans; [apply Z.log2_lxor; lia|].
  change (Z.log2 256) with 8.
  assert (Hl : forall x, 0 <= x < 256 -> Z.log2 x < 8); [|destruct (Z.max_spec (Z.log2 a) (Z.log2 b)) as [[_ ->]|[_ ->]]; auto].
  intros x Hx. destruct (Z.eq_dec x 0) as [->|]; [done|].
  apply Z.log2_lt_pow2; [lia|]. change (2 ^ 8) with 256. lia.
Qed.

Lemma memcmp_loop_spec n i ua ub r :
  bytes_ok ua -> bytes_ok ub -> byte_ok r -> 0 <= i ->
  byte_ok (memcmp_loop n i ua ub r) /\
  (memcmp_loop n i ua ub r = 0 <->
   r = 0 /\ forall k, i <= k < i + Z.of_nat n -> at_ ua k = at_ ub k).
Proof.
  intros Ha Hb. revert i r. induction n as [|n IH]; intros i r Hr Hi; simpl memcmp_loop.
  - split; [done|]. split; [|tauto]. intros ->. split; [done|]. lia.
  - destruct (IH (i + 1) (Z.lor r (Z.lxor (at_ ua i) (at_ ub i)))) as [Hok Hiff].
    { apply lor_byte; [done|]. apply lxor_byte; by apply at_ok. }
    { lia. }
    split; [done|]. rewrite Hiff, Z.lor_eq_0_iff, Z.lxor_eq_0_iff. split.
    + intros [[-> He] Hk]. split; [done|]. intros k Hk'.
      destruct (Z.eq_dec k i) as [->|]; [done|]. apply Hk. lia.
    + intros [-> Hk]. split; [split; [done|apply Hk; lia]|].
      intros k Hk'. apply Hk. lia.
Qed.

Lemma sub_ext_at n a b :
  0 <= n -> n <= len a -> n <= len b ->
  (forall k, 0 <= k < n -> at_ a k = at_ b k) <-> sub 0 n a = sub 0 n b.
Proof.
  intros Hn Ha Hb. split.
  - intros H. apply (nth_ext _ _ 0 0).
    + pose proof (len_sub 0 n a). pose proof (len_sub 0 n b). unfold len in *. lia.
    + intros k Hk. specialize (H (Z.of_nat k)).
      pose proof (len_sub 0 n a). assert (Z.of_nat k < n) by (unfold len in *; lia).
      rewrite <- (at_sub0 a n), <- (at_sub0 b n) in H by lia.
      unfold at_ in H. rewrite Nat2Z.id in H. apply H. lia.
  - intros H k Hk.
    rewrite <- (at_sub0 a n k), <- (at_sub0 b n k), H by lia. done.
Qed.

(** The comparison as the callers use it. *)
Lemma constant_time_memcmp_spec a b n :
  bytes_ok a -> bytes_ok b -> 0 <= n -> n <= len a -> n <= len b ->
  alrios_constant_time_memcmp (Some a) (Some b) n
  = if bytes_eqb (sub 0 n a) (sub 0 n b) then 0 else -1.
Proof.
  intros Ha Hb Hn Hla Hlb. unfold alrios_constant_time_memcmp.
  destruct (memcmp_loop_spec (Z.to_nat n) 0 a b 0) as [Hok Hiff];
    [done|done|unfold byte_ok; lia|lia|].
  rewrite memcmp_fold_byte by exact Hok. rewrite Z2Nat.id in Hiff by done.
  destruct (bytes_eqb _ _) eqn:E.
  - apply bytes_eqb_eq in E.
    rewrite (proj2 Hiff); [done|]. split; [done|]. intros k Hk.
    apply (proj2 (sub_ext_at n a b Hn Hla Hlb) E). lia.
  - apply bytes_eqb_neq in E. destruct (memcmp_loop _ _ _ _ _ =? 0) eqn:E0; [|done].
    bool_hyps. exfalso. apply E, (sub_ext_at n a b Hn Hla Hlb). intros. apply (proj1 Hiff E0). lia.
Qed.

(** The comparison of two buffers of exactly [n] bytes. *)
Lemma constant_time_memcmp_full a b n :
  bytes_ok a -> bytes_ok b -> len a = n -> len b = n ->
  alrios_constant_time_memcmp (Some a) (Some b) n = if bytes_eqb a b then 0 else -1.
Proof.
  intros ? ? Hla Hlb. pose proof (len_nonneg a).
  rewrite constant_time_memcmp_spec by (done || lia).
  rewrite <- Hla at 1. rewrite sub_full. rewrite <- Hlb at 1. by rewrite sub_full.
Qed.

Lemma zeroize_loop_all n p : (length p <= n)%nat -> zeroize_loop n p = replicate (length p) 0.
Proof.
  revert p. induction n; intros [|x p]; simpl; intros; try done; try lia.
  f_equal. apply IHn. lia.
Qed.

Lemma explicit_zeroize_full b :
  alrios_explicit_zeroize (Some b) (len b) = Some (zeros (len b)).
Proof.
  unfold alrios_explicit_zeroize. destruct (len b =? 0) eqn:E.
  - bool_hyps. destruct b; [done|]. rewrite len_cons in E. pose proof (len_nonneg b). lia.
  - rewrite zeroize_loop_all by (unfold len; lia). unfold zeros, len. by rewrite Nat2Z.id.
Qed.

(** ** Properties *)

(** [alrios_constant_time_memcmp] answers 0 exactly when the first [n]
    bytes of the two buffers agree, -1 otherwise, and -1 on a null pointer. *)
Theorem constant_time_memcmp_correct a b n :
  bytes_ok a -> bytes_ok b -> 0 <= n <= len a -> n <= len b ->
  (alrios_constant_time_memcmp (Some a) (Some b) n = 0 <-> sub 0 n a = sub 0 n b) /\
  (alrios_constant_time_memcmp (Some a) (Some b) n = -1 <-> sub 0 n a <> sub 0 n b) /\
  (forall q, alrios_constant_time_memcmp None q n = -1) /\
  (forall p, alrios_constant_time_memcmp p None n = -1).
Proof.
  intros Ha Hb Hn Hlb. rewrite constant_time_memcmp_spec by (done || lia).
  destruct (bytes_eqb (sub 0 n a) (sub 0 n b)) eqn:E.
  - apply bytes_eqb_eq in E. rewrite E. split_and!; try done. by intros [].
  - apply bytes_eqb_neq in E. split_and!; try done. by intros [].
Qed.

(** Two differing buffers of three bytes. *)
Lemma constant_time_memcmp_correct_witness :
  alrios_constant_time_memcmp (Some [1; 2; 3]) (Some [1; 2; 4]) 3 = -1.
Proof.
  apply (constant_time_memcmp_correct [1; 2; 3] [1; 2; 4] 3).
  - repeat constructor; lia.
  - repeat constructor; lia.
  - unfold len; simpl; lia.
  - unfold len; simpl; lia.
  - vm_compute. intros [=].
Defined.
