(* ===== verification/Sha512.v ===== *)
(** The SHA-512 engine (src/libraries/crypto/sha512.c).

    The streaming context keeps the chaining state, a 128-bit byte counter and a
    partial block. [sha512_spec] is FIPS 180-4: pad the whole message, compress
    block by block. [ctx_rep ctx m] says that [ctx] is what the code holds after
    absorbing [m] in any number of calls; [Sha512Api]/[Sha512Laws] are the
    interface under which the other components use the engine. *)

From S2P Require Import Prelude Bytes CryptoUtils HashApi.

(** ** Code *)

Definition SHA512_DIGEST_LEN : Z := 64.

(** [ROTR64(x, n)] *)
Definition ROTR64 (x n : Z) : Z := Z.lor (Z.shiftr x n) (u64 (Z.shiftl x (64 - n))).

Definition SHR (x n : Z) : Z := Z.shiftr x n.

(** [~x] on 64 bits. *)
Definition not64 (x : Z) : Z := Z.lxor x UINT64_MAX.

Definition Ch (x y z : Z) : Z := Z.lxor (Z.land x y) (Z.land (not64 x) z).

Definition Maj (x y z : Z) : Z :=
  Z.lxor (Z.lxor (Z.land x y) (Z.land x z)) (Z.land y z).

Definition Sigma0 (x : Z) : Z := Z.lxor (Z.lxor (ROTR64 x 28) (ROTR64 x 34)) (ROTR64 x 39).

Definition Sigma1 (x : Z) : Z := Z.lxor (Z.lxor (ROTR64 x 14) (ROTR64 x 18)) (ROTR64 x 41).

Definition sigma0 (x : Z) : Z := Z.lxor (Z.lxor (ROTR64 x 1) (ROTR64 x 8)) (SHR x 7).

Definition sigma1 (x : Z) : Z := Z.lxor (Z.lxor (ROTR64 x 19) (ROTR64 x 61)) (SHR x 6).

Definition SHA512_H0 : list Z :=
  [ 0x6a09e667f3bcc908; 0xbb67ae8584caa73b;
    0x3c6ef372fe94f82b; 0xa54ff53a5f1d36f1;
    0x510e527fade682d1; 0x9b05688c2b3e6c1f;
    0x1f83d9abfb41bd6b; 0x5be0cd19137e2179 ].

Definition K : list Z :=
  [ 0x428a2f98d728ae22; 0x7137449123ef65cd; 0xb5c0fbcfec4d3b2f; 0xe9b5dba58189dbbc;
    0x3956c25bf348b538; 0x59f111f1b605d019; 0x923f82a4af194f9b; 0xab1c5ed5da6d8118;
    0xd807aa98a3030242; 0x12835b0145706fbe; 0x243185be4ee4b28c; 0x550c7dc3d5ffb4e2;
    0x72be5d74f27b896f; 0x80deb1fe3b1696b1; 0x9bdc06a725c71235; 0xc19bf174cf692694;
    0xe49b69c19ef14ad2; 0xefbe4786384f25e3; 0x0fc19dc68b8cd5b5; 0x240ca1cc77ac9c65;
    0x2de92c6f592b0275; 0x4a7484aa6ea6e483; 0x5cb0a9dcbd41fbd4; 0x76f988da831153b5;
    0x983e5152ee66dfab; 0xa831c66d2db43210; 0xb00327c898fb213f; 0xbf597fc7beef0ee4;
    0xc6e00bf33da88fc2; 0xd5a79147930aa725; 0x06ca6351e003826f; 0x142929670a0e6e70;
    0x27b70a8546d22ffc; 0x2e1b21385c26c926; 0x4d2c6dfc5ac42aed; 0x53380d139d95b3df;
    0x650a73548baf63de; 0x766a0abb3c77b2a8; 0x81c2c92e47edaee6; 0x92722c851482353b;
    0xa2bfe8a14cf10364; 0xa81a664bbc423001; 0xc24b8b70d0f89791; 0xc76c51a30654be30;
    0xd192e819d6ef5218; 0xd69906245565a910; 0xf40e35855771202a; 0x106aa07032bbd1b8;
    0x19a4c116b8d2d0c8; 0x1e376c085141ab53; 0x2748774cdf8eeb99; 0x34b0bcb5e19b48a8;
    0x391c0cb3c5c95a63; 0x4ed8aa4ae3418acb; 0x5b9cca4f7763e373; 0x682e6ff3d6b2b8a3;
    0x748f82ee5defb2fc; 0x78a5636f43172f60; 0x84c87814a1f0ab72; 0x8cc702081a6439ec;
    0x90befffa23631e28; 0xa4506cebde82bde9; 0xbef9a3f7b2c67915; 0xc67178f2e372532b;
    0xca273eceea26619c; 0xd186b8c721c0c207; 0xeada7dd6cde0eb1e; 0xf57d4f7fee6ed178;
    0x06f067aa72176fba; 0x0a637dc5a2c898a6; 0x113f9804bef90dae; 0x1b710b35131c471b;
    0x28db77f523047d84; 0x32caab7b40c72493; 0x3c9ebe0a15c9bebc; 0x431d67c49c100d4c;
    0x4cc5d4becb3e42b6; 0x597f299cfc657e2a; 0x5fcb6fab3ad6faec; 0x6c44198c4a475817 ].

(** Entry [t] of a [uint64_t] array. *)
Definition word (w : list Z) (t : nat) : Z := nth t w 0.

(** [w\[t\]] for [t < 16]: eight bytes of the block, shifted into place. *)
Definition load_word (block : bytes) (t : nat) : Z :=
  let b i := at_ block (Z.of_nat t * 8 + i) in
  Z.lor (Z.lor (Z.lor (Z.lor (Z.lor (Z.lor (Z.lor
    (u64 (Z.shiftl (b 0) 56)) (u64 (Z.shiftl (b 1) 48)))
    (u64 (Z.shiftl (b 2) 40))) (u64 (Z.shiftl (b 3) 32)))
    (u64 (Z.shiftl (b 4) 24))) (u64 (Z.shiftl (b 5) 16)))
    (u64 (Z.shiftl (b 6) 8))) (b 7).

(** [for (t = 16; t < 80; t++) w\[t\] = ...]: the array is filled in order. *)
Fixpoint schedule_loop (n : nat) (w : list Z) : list Z :=
  match n with
  | O => w
  | S n =>
      let t := length w in
      schedule_loop n
        (w ++ [u64 (u64 (u64 (sigma1 (word w (t - 2)) + word w (t - 7))
                         + sigma0 (word w (t - 15))) + word w (t - 16))])
  end.

Definition schedule (block : bytes) : list Z :=
  schedule_loop 64 (map (load_word block) (seq 0 16)).

Record regs := mk_regs { ra : Z; rb : Z; rc : Z; rd_ : Z; re : Z; rf : Z; rg : Z; rh : Z }.

Definition round (w : list Z) (r : regs) (t : nat) : regs :=
  let '(mk_regs a b c d e f g h) := r in
  let t1 := u64 (u64 (u64 (u64 (h + Sigma1 e) + Ch e f g) + word K t) + word w t) in
  let t2 := u64 (Sigma0 a + Maj a b c) in
  mk_regs (u64 (t1 + t2)) a b c (u64 (d + t1)) e f g.

Definition sha512_transform (state : list Z) (block : bytes) : list Z :=
  let w := schedule block in
  let s := word state in
  let r := fold_left (round w) (seq 0 80)
             (mk_regs (s 0%nat) (s 1%nat) (s 2%nat) (s 3%nat)
                      (s 4%nat) (s 5%nat) (s 6%nat) (s 7%nat)) in
  [ u64 (s 0%nat + ra r); u64 (s 1%nat + rb r); u64 (s 2%nat + rc r); u64 (s 3%nat + rd_ r);
    u64 (s 4%nat + re r); u64 (s 5%nat + rf r); u64 (s 6%nat + rg r); u64 (s 7%nat + rh r) ].

(** [alrios_sha512_ctx_t] *)
Record sha512_ctx := mk_ctx {
  state : list Z;
  count0 : Z;
  count1 : Z;
  buffer : bytes;
}.

Definition alrios_sha512_init (ctx : option sha512_ctx) : Z * option sha512_ctx :=
  match ctx with
  | None => (ALRIOS_CRYPTO_ERR_NULL_PTR, None)
  | Some _ => (ALRIOS_CRYPTO_OK, Some (mk_ctx SHA512_H0 0 0 (zeros 128)))
  end.

(** [while (left_ >= 128) { sha512_transform(state, input); ... }] with the
    number of remaining bytes as fuel. *)
Fixpoint update_loop (fuel : nat) (st : list Z) (left_ : Z) (input : bytes) : list Z * Z * bytes :=
  match fuel with
  | O => (st, left_, input)
  | S fuel =>
      if left_ >=? 128
      then update_loop fuel (sha512_transform st (sub 0 128 input)) (left_ - 128)
             (drop 128 input)
      else (st, left_, input)
  end.

Definition alrios_sha512_update (ctx : option sha512_ctx) (data : option bytes) (n : Z)
    : Z * option sha512_ctx :=
  match ctx with
  | None => (ALRIOS_CRYPTO_ERR_NULL_PTR, None)
  | Some c =>
      match data with
      | None => (ALRIOS_CRYPTO_OK, ctx)
      | Some input =>
          if n =? 0 then (ALRIOS_CRYPTO_OK, ctx)
          else
            let buffer_idx := count0 c mod 128 in
            let prev_count0 := count0 c in
            let c0 := u64 (count0 c + n) in
            let c1 := if c0 <? prev_count0 then u64 (count1 c + 1) else count1 c in
            let to_fill := 128 - buffer_idx in
            if (buffer_idx >? 0) && (n <? to_fill)
            then (ALRIOS_CRYPTO_OK,
                  Some (mk_ctx (state c) c0 c1 (upd buffer_idx (sub 0 n input) (buffer c))))
            else
              let '(st, left_, input, buf) :=
                if buffer_idx >? 0
                then
                  let buf := upd buffer_idx (sub 0 to_fill input) (buffer c) in
                  (sha512_transform (state c) buf, n - to_fill,
                   drop (Z.to_nat to_fill) input, buf)
                else (state c, n, input, buffer c) in
              let '(st, left_, input) := update_loop (Z.to_nat left_) st left_ input in
              let buf := if left_ >? 0 then upd 0 (sub 0 left_ input) buf else buf in
              (ALRIOS_CRYPTO_OK, Some (mk_ctx st c0 c1 buf))
      end
  end.

(** [(uint8_t)((v >> (56 - i * 8)) & 0xFF)] for [i = 0 .. 7]. *)
Definition store_be64 (v : Z) : bytes :=
  map (fun i => u8 (Z.land (Z.shiftr v (56 - i * 8)) 255)) [0; 1; 2; 3; 4; 5; 6; 7].

(** The status, the scrubbed context and the digest written to [out_hash]
    ([out_present]: is that pointer non-null?). *)
Definition alrios_sha512_final (ctx : option sha512_ctx) (out_present : bool)
    : Z * option sha512_ctx * option bytes :=
  match ctx, out_present with
  | Some c, true =>
      let bit_count_lo := u64 (Z.shiftl (count0 c) 3) in
      let bit_count_hi := Z.lor (u64 (Z.shiftl (count1 c) 3)) (Z.shiftr (count0 c) 61) in
      let buffer_idx := count0 c mod 128 in
      let buf := upd buffer_idx [128] (buffer c) in
      let buffer_idx := buffer_idx + 1 in
      let '(st, buf, buffer_idx) :=
        if buffer_idx >? 112
        then
          let buf := upd buffer_idx (zeros (128 - buffer_idx)) buf in
          (sha512_transform (state c) buf, buf, 0)
        else (state c, buf, buffer_idx) in
      let buf := upd buffer_idx (zeros (112 - buffer_idx)) buf in
      let buf := upd 112 (store_be64 bit_count_hi) buf in
      let buf := upd 120 (store_be64 bit_count_lo) buf in
      let st := sha512_transform st buf in
      (ALRIOS_CRYPTO_OK, Some (mk_ctx (replicate 8 0) 0 0 (zeros 128)),
       Some (concat (map store_be64 st)))
  | _, _ => (ALRIOS_CRYPTO_ERR_NULL_PTR, ctx, None)
  end.

(** The context the C function declares on its stack, before [init]. *)
Definition uninit_ctx : sha512_ctx := mk_ctx (replicate 8 0) 0 0 (zeros 128).

Definition alrios_sha512 (data : option bytes) (n : Z) (out_present : bool)
    : Z * option bytes :=
  if negb out_present then (ALRIOS_CRYPTO_ERR_NULL_PTR, None)
  else if (n >? 0) && (match data with None => true | Some _ => false end)
  then (ALRIOS_CRYPTO_ERR_NULL_PTR, None)
  else
    let '(ret, ctx) := alrios_sha512_init (Some uninit_ctx) in
    if negb (ret =? ALRIOS_CRYPTO_OK) then (ret, None)
    else
      let '(ret, ctx) := alrios_sha512_update ctx data n in
      if negb (ret =? ALRIOS_CRYPTO_OK) then (ret, None)
      else
        let '(ret, _, out) := alrios_sha512_final ctx out_present in (ret, out).

(** ** Specification: FIPS 180-4 *)

(** Section 5.1.2: a one bit, zeros to 112 mod 128 bytes, the bit length. *)
Definition pad (m : bytes) : bytes :=
  m ++ 128 :: zeros ((111 - len m) mod 128) ++ be_bytes 16 (8 * len m).

(** Compress the first [n] blocks of [m]. *)
Fixpoint compress (n : nat) (st : list Z) (m : bytes) : list Z :=
  match n with
  | O => st
  | S n => compress n (sha512_transform st (sub 0 128 m)) (drop 128 m)
  end.

Definition blocks (m : bytes) : nat := Z.to_nat (len m / 128).

Definition digest_of (st : list Z) : bytes := concat (map (be_bytes 8) st).

Definition sha512_spec (m : bytes) : bytes :=
  digest_of (compress (blocks (pad m)) SHA512_H0 (pad m)).

(** What a context holds after absorbing the message [m]. *)
Record ctx_rep (c : sha512_ctx) (m : bytes) : Prop := {
  rep_count : count0 c + 2 ^ 64 * count1 c = len m;
  rep_count0 : 0 <= count0 c < 2 ^ 64;
  rep_count1 : 0 <= count1 c < 2 ^ 64;
  rep_state : state c = compress (blocks m) SHA512_H0 m;
  rep_buflen : len (buffer c) = 128;
  rep_buffer : sub 0 (len m mod 128) (buffer c) = sub (len m - len m mod 128) (len m mod 128) m;
}.

(** A run of the engine over a list of chunks. *)
Definition update_all (c : option sha512_ctx) (chunks : list bytes) : option sha512_ctx :=
  fold_left (fun c d => snd (alrios_sha512_update c (Some d) (len d))) chunks c.

Example sha512_abc :
  snd (alrios_sha512 (Some (lit "abc")) 3 true)
  = Some (be_bytes 64 0xddaf35a193617abacc417349ae20413112e6fa4e89a97ea20a9eeee64b55d39a2192992a274fc1a836ba3c23a3feebbd454d4423643ce80e2a9ac94fa54ca49f).
Proof. vm_compute. reflexivity. Qed.

(** ** Block compression *)

Lemma compress_add a b st m :
  compress (a + b) st m = compress b (compress a st m) (drop (128 * a) m).
Proof.
  revert st m. induction a as [|a IH]; intros; cbn [compress Nat.add].
  - by rewrite Nat.mul_0_r, drop_0.
  - rewrite IH, drop_drop. do 2 f_equal. lia.
Qed.

Lemma compress_app n st m x :
  (128 * n <= length m)%nat -> compress n st (m ++ x) = compress n st m.
Proof.
  revert st m. induction n as [|n IH]; intros st m H; simpl compress; [done|].
  rewrite sub_app_l by (unfold len; lia).
  rewrite drop_app_le by lia. apply IH. rewrite length_drop. lia.
Qed.

(** Compressing an aligned message, then more input. *)
Lemma compress_aligned m x n :
  len m mod 128 = 0 -> 0 <= n ->
  compress (Z.to_nat n) (compress (blocks m) SHA512_H0 m) x
  = compress (Z.to_nat (len m / 128 + n)) SHA512_H0 (m ++ x).
Proof.
  intros Hm Hn. pose proof (len_nonneg m). unfold blocks.
  assert (len m = 128 * (len m / 128)) by (pose proof (Z.div_mod (len m) 128); lia).
  rewrite Z2Nat.inj_add by (try apply Z.div_pos; lia).
  rewrite compress_add, compress_app by (unfold len in *; lia).
  f_equal. rewrite drop_app_ge by (unfold len in *; lia).
  replace (128 * Z.to_nat (len m / 128) - length m)%nat with 0%nat by (unfold len in *; lia).
  by rewrite drop_0.
Qed.

Lemma update_loop_spec fuel st n input :
  0 <= n <= Z.of_nat fuel ->
  update_loop fuel st n input
  = (compress (Z.to_nat (n / 128)) st input, n mod 128, drop (Z.to_nat (128 * (n / 128))) input).
Proof.
  revert st n input. induction fuel as [|fuel IH]; intros st n input Hn; simpl update_loop.
  - replace n with 0 by lia. change (0 / 128) with 0. simpl. by rewrite drop_0.
  - destruct (n >=? 128) eqn:E; bool_hyps.
    + rewrite IH by lia.
      replace n with (1 * 128 + (n - 128)) at 4 5 6 by lia.
      rewrite (Z.add_comm (1 * 128)), Z.div_add, Z.mod_add by lia.
      assert (0 <= (n - 128) / 128) by (apply Z.div_pos; lia).
      rewrite (Z2Nat.inj_add _ 1) by lia. rewrite Nat.add_1_r. simpl compress.
      rewrite drop_drop. do 2 f_equal. lia.
    + rewrite Z.div_small, Z.mod_small by lia. simpl. by rewrite drop_0.
Qed.

(** ** The streaming invariant *)

Lemma rep_idx c m : ctx_rep c m -> count0 c mod 128 = len m mod 128.
Proof.
  intros [Hc _ _ _ _ _]. rewrite <- Hc.
  replace (2 ^ 64 * count1 c) with ((2 ^ 57 * count1 c) * 128) by lia.
  by rewrite Z.mod_add.
Qed.

Lemma init_rep c : exists c', alrios_sha512_init (Some c) = (ALRIOS_CRYPTO_OK, Some c') /\ ctx_rep c' [].
Proof.
  eexists. split; [reflexivity|].
  constructor; try done; simpl; change (len []) with 0; lia || done.
Qed.

Lemma carry_spec c m n :
  ctx_rep c m -> 0 <= n < 2 ^ 64 -> len m + n < 2 ^ 128 ->
  let c0 := u64 (count0 c + n) in
  let c1 := if c0 <? count0 c then u64 (count1 c + 1) else count1 c in
  c0 + 2 ^ 64 * c1 = len m + n /\ 0 <= c0 < 2 ^ 64 /\ 0 <= c1 < 2 ^ 64.
Proof.
  intros [Hc H0 H1 _ _ _] Hn Hm. cbv zeta. unfold u64.
  destruct (Z.lt_ge_cases (count0 c + n) (2 ^ 64)).
  - rewrite (Z.mod_small (count0 c + n)) by lia. decide_if. lia.
  - assert (E : (count0 c + n) mod 2 ^ 64 = count0 c + n - 2 ^ 64).
    { symmetry. apply (Z.mod_unique _ _ 1); lia. }
    rewrite E. decide_if.
    assert (count1 c + 1 < 2 ^ 64) by nia.
    rewrite Z.mod_small by lia. nia.
Qed.

(** Appending to a partial block that stays partial. *)
Lemma rep_partial c m d c0 c1 :
  ctx_rep c m -> 0 < len m mod 128 -> len d < 128 - len m mod 128 ->
  c0 + 2 ^ 64 * c1 = len m + len d -> 0 <= c0 < 2 ^ 64 -> 0 <= c1 < 2 ^ 64 ->
  ctx_rep (mk_ctx (state c) c0 c1 (upd (len m mod 128) d (buffer c))) (m ++ d).
Proof.
  intros [_ _ _ Hs Hbl Hb] Hr Hd Hc H0 H1.
  pose proof (len_nonneg m). pose proof (len_nonneg d).
  pose proof (Z.div_mod (len m) 128 ltac:(lia)) as Hdm.
  assert (Hq : (len m + len d) / 128 = len m / 128).
  { symmetry. apply (Z.div_unique _ _ _ (len m mod 128 + len d)); lia. }
  assert (Hmod : (len m + len d) mod 128 = len m mod 128 + len d).
  { pose proof (Z.div_mod (len m + len d) 128). lia. }
  set (r := len m mod 128) in *.
  constructor; simpl; rewrite ?len_app; try done.
  - rewrite Hs. unfold blocks. rewrite len_app, Hq, compress_app; [done|].
    assert (0 <= len m / 128) by (apply Z.div_pos; lia). unfold len in *. lia.
  - rewrite len_upd; lia.
  - rewrite Hmod. replace (len m + len d - (r + len d)) with (len m - r) by lia.
    rewrite <- !sub_sub by lia. rewrite !Z.add_0_l.
    rewrite sub_upd_same by lia. rewrite sub_upd_other by lia.
    rewrite Hb, sub_app_l by lia. f_equal.
    replace (len m - r + r) with (len m) by lia.
    rewrite sub_app_r by lia. rewrite Z.sub_diag, sub_full. done.
Qed.

(** Absorbing input when the pending block is empty. *)
Lemma rep_aligned st buf m d c0 c1 :
  len m mod 128 = 0 -> st = compress (blocks m) SHA512_H0 m -> len buf = 128 ->
  c0 + 2 ^ 64 * c1 = len m + len d -> 0 <= c0 < 2 ^ 64 -> 0 <= c1 < 2 ^ 64 ->
  let '(st', left_, input) := update_loop (Z.to_nat (len d)) st (len d) d in
  ctx_rep (mk_ctx st' c0 c1 (if left_ >? 0 then upd 0 (sub 0 left_ input) buf else buf)) (m ++ d).
Proof.
  intros Hm -> Hbl Hc H0 H1.
  pose proof (len_nonneg m). pose proof (len_nonneg d).
  rewrite update_loop_spec by lia.
  pose proof (Z.div_mod (len m) 128 ltac:(lia)) as Hdm.
  pose proof (Z.div_mod (len d) 128 ltac:(lia)) as Hdd.
  pose proof (Z.mod_pos_bound (len d) 128 ltac:(lia)).
  assert (0 <= len d / 128) by (apply Z.div_pos; lia).
  assert (Hq : (len m + len d) / 128 = len m / 128 + len d / 128).
  { symmetry. apply (Z.div_unique _ _ _ (len d mod 128)); lia. }
  assert (Hmod : (len m + len d) mod 128 = len d mod 128).
  { pose proof (Z.div_mod (len m + len d) 128). lia. }
  set (r := len d mod 128) in *.
  assert (Htail : sub (len m + len d - r) r (m ++ d) = sub 0 r (drop (Z.to_nat (128 * (len d / 128))) d)).
  { rewrite sub_app_r by lia. rewrite drop_sub by lia. rewrite sub_of_sub by lia.
    f_equal. lia. }
  constructor; simpl; rewrite ?len_app; try done.
  - rewrite compress_aligned by done. unfold blocks. by rewrite len_app, Hq.
  - destruct (r >? 0) eqn:E; [|done]. bool_hyps.
    rewrite len_upd; [done|lia|]. rewrite len_sub; rewrite ?drop_sub, ?len_sub; lia.
  - rewrite Hmod, Htail. destruct (r >? 0) eqn:E; bool_hyps.
    + apply sub_upd_same; try lia; rewrite ?len_sub; rewrite ?drop_sub, ?len_sub; lia.
    + replace r with 0 by lia. done.
Qed.

(** Completing the pending block compresses it as the next block. *)
Lemma rep_fill c m d :
  ctx_rep c m -> 0 < len m mod 128 -> len d = 128 - len m mod 128 ->
  let buf := upd (len m mod 128) d (buffer c) in
  len buf = 128 /\ len (m ++ d) mod 128 = 0 /\
  sha512_transform (state c) buf = compress (blocks (m ++ d)) SHA512_H0 (m ++ d).
Proof.
  intros [_ _ _ Hs Hbl Hb] Hr Hd. cbv zeta. pose proof (len_nonneg m). pose proof (len_nonneg d).
  pose proof (Z.div_mod (len m) 128 ltac:(lia)) as Hdm.
  assert (0 <= len m / 128) by (apply Z.div_pos; lia).
  assert (Hbuf : upd (len m mod 128) d (buffer c) = sub (len m - len m mod 128) 128 (m ++ d)).
  { rewrite upd_split, Hb by lia.
    replace (len (buffer c) - len m mod 128 - len d) with 0 by lia.
    replace (sub _ 0 _) with (@nil Z) by (unfold sub; by rewrite take_0).
    rewrite app_nil_r.
    transitivity (sub (len m - len m mod 128) (len m mod 128 + len d) (m ++ d));
      [|f_equal; lia].
    rewrite <- sub_sub by lia. rewrite sub_app_l by lia. f_equal.
    rewrite sub_app_r by lia.
    replace (len m - len m mod 128 + len m mod 128 - len m) with 0 by lia.
    by rewrite sub_full. }
  split_and!.
  - rewrite len_upd; lia.
  - rewrite len_app, Hd. symmetry. apply (Z.mod_unique _ _ (len m / 128 + 1)); lia.
  - rewrite Hbuf, Hs. unfold blocks. rewrite len_app, Hd.
    replace ((len m + (128 - len m mod 128)) / 128) with (len m / 128 + 1)
      by (apply (Z.div_unique _ _ _ 0); lia).
    rewrite Z2Nat.inj_add by lia. rewrite compress_add, compress_app by (unfold len in *; lia).
    change (Z.to_nat 1) with 1%nat. cbn [compress]. f_equal.
    unfold sub. change (Z.to_nat 0) with 0%nat. rewrite drop_0. do 2 f_equal. lia.
Qed.

(** One call of [update] absorbs its input, whatever was pending. *)
Lemma update_rep c m d :
  ctx_rep c m -> len d < 2 ^ 64 -> len m + len d < 2 ^ 128 ->
  exists c', alrios_sha512_update (Some c) (Some d) (len d) = (ALRIOS_CRYPTO_OK, Some c')
             /\ ctx_rep c' (m ++ d).
Proof.
  intros Hrep Hd Hmd. pose proof (len_nonneg d). pose proof (len_nonneg m).
  destruct (carry_spec c m (len d) Hrep) as (Hc & Hc0 & Hc1); [lia|lia|]. cbv zeta in *.
  pose proof (Z.mod_pos_bound (len m) 128 ltac:(lia)).
  unfold alrios_sha512_update. cbv zeta. rewrite (rep_idx _ _ Hrep).
  set (c0 := u64 (count0 c + len d)) in *.
  set (c1 := if c0 <? count0 c then _ else _) in *.
  destruct (len d =? 0) eqn:E0; bool_hyps.
  { destruct d; [|rewrite len_cons in *; pose proof (len_nonneg d); lia].
    exists c. by rewrite app_nil_r. }
  destruct (len m mod 128 >? 0) eqn:Er; bool_hyps; simpl andb.
  - destruct (len d <? 128 - len m mod 128) eqn:El; bool_hyps.
    + eexists. split; [reflexivity|]. rewrite sub_full. by apply rep_partial.
    + set (f := 128 - len m mod 128) in *.
      assert (Hl2 : len (drop (Z.to_nat f) d) = len d - f) by (rewrite len_drop; lia).
      destruct (rep_fill c m (sub 0 f d) Hrep) as (Hb & Ha & Hst); [lia|by rewrite len_sub by lia|].
      pose proof (rep_aligned _ (upd (len m mod 128) (sub 0 f d) (buffer c))
        (m ++ sub 0 f d) (drop (Z.to_nat f) d) c0 c1 Ha Hst Hb) as Hal.
      rewrite Hl2, len_app, len_sub, <- app_assoc, <- sub_0_split in Hal by lia.
      destruct (update_loop _ _ _ _) as [[st' l'] i'].
      eexists. split; [reflexivity|]. apply Hal; lia.
  - pose proof (rep_aligned (state c) (buffer c) m d c0 c1) as Hal.
    destruct (update_loop _ _ _ _) as [[st' l'] i'].
    eexists. split; [reflexivity|]. apply Hal; try done; [lia|by destruct Hrep..].
Qed.

Lemma update_all_rep chunks c m :
  ctx_rep c m -> len m + len (concat chunks) < 2 ^ 128 ->
  Forall (fun d : bytes => len d < 2 ^ 64) chunks ->
  exists c', update_all (Some c) chunks = Some c' /\ ctx_rep c' (m ++ concat chunks).
Proof.
  revert c m. induction chunks as [|d chunks IH]; intros c m Hc Hl Hf; cbn [concat] in *.
  - exists c. by rewrite app_nil_r.
  - apply Forall_cons_iff in Hf as [Hd Hf]. rewrite len_app in Hl.
    pose proof (len_nonneg (concat chunks)).
    destruct (update_rep c m d Hc) as (c1 & E & Hc1); [done|lia|].
    change (update_all (Some c) (d :: chunks))
      with (update_all (snd (alrios_sha512_update (Some c) (Some d) (len d))) chunks).
    rewrite E. cbn [snd].
    destruct (IH c1 (m ++ d) Hc1) as (c2 & E2 & Hc2); [rewrite len_app; lia|done|].
    exists c2. split; [exact E2|]. by rewrite app_assoc.
Qed.

(** ** Finalization *)

Lemma store_be64_spec v : store_be64 v = be_bytes 8 v.
Proof.
  unfold store_be64. simpl map. simpl be_bytes. rewrite !Z.div_div by lia.
  assert (H : forall n, 0 <= n -> u8 (Z.land (Z.shiftr v n) 255) = (v / 2 ^ n) mod 256).
  { intros n Hn. change 255 with (Z.ones 8). rewrite Z.land_ones, Z.shiftr_div_pow2 by lia.
    unfold u8. by rewrite Z.mod_mod by lia. }
  rewrite !H by lia. change (2 ^ 0) with 1. by rewrite Z.div_1_r.
Qed.

(** The two halves of the bit counter are the 128-bit message length in bits. *)
Lemma bit_count_spec c m :
  ctx_rep c m -> len m < 2 ^ 125 ->
  store_be64 (Z.lor (u64 (Z.shiftl (count1 c) 3)) (Z.shiftr (count0 c) 61))
  ++ store_be64 (u64 (Z.shiftl (count0 c) 3)) = be_bytes 16 (8 * len m).
Proof.
  intros [Hc H0 H1 _ _ _] Hm. rewrite !store_be64_spec.
  rewrite (be_bytes_app 8 8). change (256 ^ Z.of_nat 8) with (2 ^ 64).
  assert (count1 c < 2 ^ 61) by lia.
  unfold u64. rewrite !Z.shiftl_mul_pow2, Z.shiftr_div_pow2 by lia.
  rewrite (Z.mod_small (count1 c * 2 ^ 3)) by lia.
  rewrite <- (Z.shiftl_mul_pow2 (count1 c)) by lia.
  rewrite lor_disjoint_add by (try split; try apply Z.div_pos; try apply Z.div_lt_upper_bound; lia).
  f_equal.
  - f_equal. rewrite <- Hc. apply (Z.div_unique _ _ _ ((count0 c * 2 ^ 3) mod 2 ^ 64)).
    + pose proof (Z.mod_pos_bound (count0 c * 2 ^ 3) (2 ^ 64)). lia.
    + pose proof (Z.div_mod (count0 c * 2 ^ 3) (2 ^ 64) ltac:(lia)) as Hdm.
      replace (count0 c / 2 ^ 61) with (count0 c * 2 ^ 3 / 2 ^ 64); [lia|].
      change (2 ^ 64) with (2 ^ 61 * 2 ^ 3). by rewrite Z.div_mul_cancel_r by lia.
  - change (2 ^ 64) with (256 ^ Z.of_nat 8). rewrite be_bytes_mod, <- (be_bytes_mod 8 (8 * _)).
    rewrite <- (be_bytes_mod 8 (count0 c * 2 ^ 3)). f_equal. rewrite <- Hc.
    change (256 ^ Z.of_nat 8) with (2 ^ 64).
    replace (8 * (count0 c + 2 ^ 64 * count1 c))
      with (count0 c * 2 ^ 3 + (8 * count1 c) * 2 ^ 64) by lia.
    by rewrite Z.mod_add by lia.
Qed.

(** Zero fill up to the length field, and the length field. *)
Lemma close_block P rest hi lo :
  len P <= 112 -> len (P ++ rest) = 128 -> len hi = 8 -> len lo = 8 ->
  upd 120 lo (upd 112 hi (upd (len P) (zeros (112 - len P)) (P ++ rest)))
  = P ++ zeros (112 - len P) ++ hi ++ lo.
Proof.
  intros HP Hr Hhi Hlo. pose proof (len_nonneg P). rewrite len_app in Hr.
  rewrite upd_app_at by done. rewrite app_assoc.
  rewrite upd_app_at by (rewrite len_app, len_zeros; lia). rewrite (app_assoc _ hi).
  rewrite upd_app_at by (rewrite !len_app, len_zeros, Hhi; lia).
  rewrite <- !app_assoc. do 3 f_equal.
  replace (drop (length lo) _) with (@nil Z); [by rewrite app_nil_r|].
  symmetry. apply nil_length_inv. unfold zeros, len in *.
  rewrite !length_drop, length_replicate. lia.
Qed.

(** The padded message after its last whole block. *)
Lemma pad_blocks m n tail :
  pad m = sub 0 (len m - len m mod 128) m ++ tail -> len tail = 128 * Z.of_nat n ->
  compress (blocks (pad m)) SHA512_H0 (pad m)
  = compress n (compress (blocks m) SHA512_H0 m) tail.
Proof.
  intros Hp Hl. pose proof (len_nonneg m).
  pose proof (Z.div_mod (len m) 128 ltac:(lia)) as Hdm.
  pose proof (Z.mod_pos_bound (len m) 128 ltac:(lia)).
  set (q := sub 0 (len m - len m mod 128) m) in *.
  assert (Hq : len q = 128 * (len m / 128)) by (unfold q; rewrite len_sub; lia).
  assert (Hb : blocks m = blocks q).
  { unfold blocks. rewrite Hq, (Z.mul_comm 128), Z.div_mul by lia. done. }
  assert (Hst : compress (blocks m) SHA512_H0 m = compress (blocks q) SHA512_H0 q).
  { rewrite Hb. rewrite (sub_0_split (len m - len m mod 128) m) at 1 by lia.
    apply compress_app. unfold blocks. rewrite Hq, (Z.mul_comm 128), Z.div_mul by lia.
    unfold len in *. lia. }
  rewrite Hst. replace n with (Z.to_nat (Z.of_nat n)) by lia.
  rewrite compress_aligned; [|rewrite Hq, Z.mul_comm; apply Z.mod_mul; lia|lia].
  rewrite <- Hp. f_equal. unfold blocks. f_equal.
  rewrite Hp, len_app, Hl. rewrite Hq, !(Z.mul_comm 128), <- Z.mul_add_distr_r, !Z.div_mul; lia.
Qed.

(** [pad m], cut at its last block boundary. *)
Lemma pad_tail m :
  pad m = sub 0 (len m - len m mod 128) m
          ++ ((sub (len m - len m mod 128) (len m mod 128) m ++ [128])
              ++ zeros ((111 - len m) mod 128)) ++ be_bytes 16 (8 * len m).
Proof.
  pose proof (len_nonneg m). pose proof (Z.mod_pos_bound (len m) 128 ltac:(lia)).
  pose proof (Z.mod_le (len m) 128 ltac:(lia) ltac:(lia)).
  unfold pad. rewrite !app_assoc, sub_sub by lia.
  replace (len m - len m mod 128 + len m mod 128) with (len m) by lia.
  rewrite sub_full, <- !app_assoc. done.
Qed.

Lemma digest_of_spec st : concat (map store_be64 st) = digest_of st.
Proof. unfold digest_of. f_equal. apply map_ext. intros. apply store_be64_spec. Qed.

(** Zero fill of a block that has no room for the length field. *)
Lemma fill_block P rest :
  len P + len rest = 128 -> upd (len P) (zeros (128 - len P)) (P ++ rest) = P ++ zeros (128 - len P).
Proof.
  intros Hl. pose proof (len_nonneg P). pose proof (len_nonneg rest).
  rewrite upd_app_at by done.
  replace (drop (length (zeros _)) rest) with (@nil Z); [by rewrite app_nil_r|].
  symmetry. apply nil_length_inv. rewrite length_drop. unfold zeros, len in *.
  rewrite length_replicate. lia.
Qed.

(** The padding that fits the current block. *)
Lemma pad_short m P hi lo :
  hi ++ lo = be_bytes 16 (8 * len m) -> len m mod 128 < 112 ->
  P = sub (len m - len m mod 128) (len m mod 128) m ++ [128] -> len P = len m mod 128 + 1 ->
  sha512_spec m
  = digest_of (sha512_transform (compress (blocks m) SHA512_H0 m)
                 (P ++ zeros (112 - len P) ++ hi ++ lo)).
Proof.
  intros Hbits Hr HP Hl. pose proof (len_nonneg m).
  pose proof (Z.mod_pos_bound (len m) 128 ltac:(lia)).
  pose proof (Z.div_mod (len m) 128 ltac:(lia)) as Hdm.
  assert (Hz : (111 - len m) mod 128 = 112 - len P)
    by (symmetry; apply (Z.mod_unique _ _ (- (len m / 128))); lia).
  assert (H16 : len (hi ++ lo) = 16) by (rewrite Hbits; apply len_be_bytes).
  assert (Hlen : len (P ++ zeros (112 - len P) ++ hi ++ lo) = 128)
    by (rewrite len_app, (len_app (zeros _)), H16, len_zeros; lia).
  unfold sha512_spec. rewrite (pad_blocks m 1 (P ++ zeros (112 - len P) ++ hi ++ lo)).
  - cbn [compress]. by rewrite sub_all by done.
  - rewrite pad_tail, <- HP, Hz, Hbits. by rewrite <- !app_assoc.
  - rewrite Hlen. lia.
Qed.

(** The padding that needs one more block. *)
Lemma pad_long m P hi lo :
  hi ++ lo = be_bytes 16 (8 * len m) -> 112 <= len m mod 128 ->
  P = sub (len m - len m mod 128) (len m mod 128) m ++ [128] -> len P = len m mod 128 + 1 ->
  sha512_spec m
  = digest_of (sha512_transform
      (sha512_transform (compress (blocks m) SHA512_H0 m) (P ++ zeros (128 - len P)))
      (zeros 112 ++ hi ++ lo)).
Proof.
  intros Hbits Hr HP Hl. pose proof (len_nonneg m).
  pose proof (Z.mod_pos_bound (len m) 128 ltac:(lia)).
  pose proof (Z.div_mod (len m) 128 ltac:(lia)) as Hdm.
  assert (Hz : (111 - len m) mod 128 = 128 - len P + 112)
    by (symmetry; apply (Z.mod_unique _ _ (- (len m / 128) - 1)); lia).
  assert (H16 : len (hi ++ lo) = 16) by (rewrite Hbits; apply len_be_bytes).
  assert (Hl1 : len (P ++ zeros (128 - len P)) = 128) by (rewrite len_app, len_zeros; lia).
  assert (Hl2 : len (zeros 112 ++ hi ++ lo) = 128) by (rewrite len_app, H16; done).
  unfold sha512_spec.
  rewrite (pad_blocks m 2 ((P ++ zeros (128 - len P)) ++ zeros 112 ++ hi ++ lo)).
  - cbn [compress]. rewrite sub_app_l by lia. rewrite sub_all by done.
    rewrite drop_app_length' by (unfold len in Hl1 at 1; lia).
    by rewrite sub_all by done.
  - rewrite pad_tail, <- HP, Hz, Hbits. unfold zeros.
    rewrite Z2Nat.inj_add, replicate_add by lia. by rewrite <- !app_assoc.
  - rewrite len_app, Hl1, Hl2. lia.
Qed.

(** Finalization compresses exactly the padding. *)
Lemma final_rep c m :
  ctx_rep c m -> len m < 2 ^ 125 ->
  alrios_sha512_final (Some c) true
  = (ALRIOS_CRYPTO_OK, Some uninit_ctx, Some (sha512_spec m)).
Proof.
  intros Hrep Hm. pose proof (len_nonneg m).
  pose proof (Z.mod_pos_bound (len m) 128 ltac:(lia)) as Hr.
  pose proof (Z.mod_le (len m) 128 ltac:(lia) ltac:(lia)).
  pose proof (bit_count_spec c m Hrep Hm) as Hbits.
  pose proof Hrep as [_ _ _ Hs Hbl Hb].
  unfold alrios_sha512_final. cbv zeta. rewrite (rep_idx _ _ Hrep).
  set (hi := store_be64 (Z.lor _ _)) in *.
  set (lo := store_be64 (u64 (Z.shiftl (count0 c) 3))) in *.
  set (T := sub (len m - len m mod 128) (len m mod 128) m) in *.
  assert (HT : len T = len m mod 128) by (unfold T; rewrite len_sub; lia).
  rewrite (sub_0_split (len m mod 128) (buffer c)) by lia.
  rewrite Hb, upd_app_at, app_assoc by lia.
  set (rest := drop (length [128]) _). set (P := T ++ [128]).
  assert (HP : len P = len m mod 128 + 1)
    by (unfold P; rewrite len_app; change (len [128]) with 1; lia).
  assert (Hrest : len P + len rest = 128) by (unfold rest; rewrite !len_drop; simpl length; lia).
  rewrite <- HP. destruct (len P >? 112) eqn:E; bool_hyps; rewrite digest_of_spec.
  - rewrite fill_block by done.
    pose proof (close_block [] (P ++ zeros (128 - len P)) hi lo) as Hc.
    rewrite len_nil in Hc. cbn [app] in Hc.
    rewrite Hc by (done || lia || (rewrite len_app, len_zeros; lia)).
    rewrite (pad_long m P hi lo) by (done || lia). by rewrite Hs.
  - rewrite close_block by (done || lia || (rewrite len_app; lia)).
    rewrite (pad_short m P hi lo) by (done || lia). by rewrite Hs.
Qed.

(** ** The interface instance *)

Lemma digest_of_len st : len (digest_of st) = 8 * len st.
Proof.
  unfold digest_of. induction st as [|x st IH]; [done|].
  cbn [map concat]. rewrite len_app, IH, len_be_bytes, len_cons. lia.
Qed.

Lemma digest_of_ok st : bytes_ok (digest_of st).
Proof.
  unfold digest_of. induction st as [|x st IH]; [constructor|].
  cbn [map concat]. apply bytes_ok_app. split; [apply be_bytes_ok|done].
Qed.

Lemma compress_len n st m : len st = 8 -> len (compress n st m) = 8.
Proof. revert st m. induction n; intros; [done|]. apply IHn. done. Qed.

Lemma sha512_spec_len m : len (sha512_spec m) = 64.
Proof. unfold sha512_spec. rewrite digest_of_len, compress_len; done. Qed.

#[export] Instance sha512_api : Sha512Api := {
  sha_ctx := sha512_ctx;
  sha_uninit := uninit_ctx;
  sha_init := alrios_sha512_init;
  sha_update := alrios_sha512_update;
  sha_final := alrios_sha512_final;
}.

Lemma sha512_update_ok c m d :
  ctx_rep c m -> len d < 2 ^ 64 -> len m + len d < SHA_MAX ->
  exists c', alrios_sha512_update (Some c) (Some d) (len d) = (0, Some c') /\ ctx_rep c' (m ++ d).
Proof. intros. apply update_rep; [done..|]. unfold SHA_MAX in *. lia. Qed.

Lemma sha512_final_ok c m :
  ctx_rep c m -> len m < SHA_MAX ->
  exists c', alrios_sha512_final (Some c) true = (0, Some c', Some (sha512_spec m)).
Proof. intros. eexists. by apply final_rep. Qed.

#[export] Instance sha512_laws : Sha512Laws sha512_api sha512_spec := {
  sha_rep := ctx_rep;
  sha_init_ok := init_rep;
  sha_update_ok := sha512_update_ok;
  sha_final_ok := sha512_final_ok;
  sha_digest_len := sha512_spec_len;
  sha_digest_ok := fun m => digest_of_ok _;
}.

(** ** The message schedule *)

Lemma length_schedule_loop n w : length (schedule_loop n w) = (length w + n)%nat.
Proof.
  revert w. induction n as [|n IH]; intros; simpl; [lia|]. rewrite IH, length_app. simpl. lia.
Qed.

Lemma schedule_loop_prefix n w t : (t < length w)%nat -> word (schedule_loop n w) t = word w t.
Proof.
  revert w. induction n as [|n IH]; intros w Ht; [done|]. cbn [schedule_loop].
  rewrite IH by (rewrite length_app; lia). unfold word. by rewrite app_nth1.
Qed.

(** The FIPS recurrence, reduced modulo 2^64. *)
Definition fips_w (w : list Z) (t : nat) : Z :=
  (sigma1 (word w (t - 2)) + word w (t - 7) + sigma0 (word w (t - 15)) + word w (t - 16)) mod 2 ^ 64.

Lemma schedule_loop_step n w t :
  (16 <= length w)%nat -> (length w <= t < length w + n)%nat ->
  word (schedule_loop n w) t = fips_w (schedule_loop n w) t.
Proof.
  revert w. induction n as [|n IH]; intros w Hw Ht; [lia|]. cbn [schedule_loop].
  set (x := u64 _). destruct (decide (t = length w)) as [->|Hne].
  - unfold fips_w. rewrite !schedule_loop_prefix by (rewrite length_app; simpl; lia).
    unfold word at 1. rewrite app_nth2, Nat.sub_diag by lia. simpl nth.
    unfold word. rewrite !app_nth1 by lia. unfold x, u64, word.
    rewrite Z.add_mod_idemp_l, <- Z.add_assoc, Z.add_mod_idemp_l, Z.add_assoc by lia. done.
  - apply IH; rewrite length_app; simpl; lia.
Qed.

Lemma lor_eight a b c d e f g h :
  Forall byte_ok [a; b; c; d; e; f; g; h] ->
  Z.lor (Z.lor (Z.lor (Z.lor (Z.lor (Z.lor (Z.lor
    (u64 (Z.shiftl a 56)) (u64 (Z.shiftl b 48))) (u64 (Z.shiftl c 40)))
    (u64 (Z.shiftl d 32))) (u64 (Z.shiftl e 24))) (u64 (Z.shiftl f 16)))
    (u64 (Z.shiftl g 8))) h = be_val [a; b; c; d; e; f; g; h].
Proof.
  rewrite !Forall_cons_iff. unfold byte_ok. intros.
  unfold u64. rewrite !(Z.mod_small (Z.shiftl _ _)) by (rewrite Z.shiftl_mul_pow2; lia).
  transitivity (Z.lor (Z.shiftl (Z.lor (Z.shiftl (Z.lor (Z.shiftl (Z.lor (Z.shiftl
    (Z.lor (Z.shiftl (Z.lor (Z.shiftl (Z.lor (Z.shiftl a 8) b) 8) c) 8) d) 8) e) 8) f) 8) g) 8) h).
  - rewrite !Z.shiftl_lor, !Z.shiftl_shiftl by lia. done.
  - rewrite !lor_disjoint_add by lia. done.
Qed.

Lemma load_word_spec block t :
  bytes_ok block -> 8 * Z.of_nat t + 8 <= len block ->
  load_word block t = be_val (sub (8 * Z.of_nat t) 8 block).
Proof.
  intros Hok Hl.
  assert (Hs : forall i, 0 <= i < 8 ->
    at_ block (Z.of_nat t * 8 + i) = at_ (sub (8 * Z.of_nat t) 8 block) i)
    by (intros; rewrite at_sub by lia; f_equal; lia).
  unfold load_word. cbv zeta. rewrite !Hs by lia.
  pose proof (bytes_ok_sub (8 * Z.of_nat t) 8 block Hok) as Hb.
  assert (Hlen : len (sub (8 * Z.of_nat t) 8 block) = 8) by (rewrite len_sub; lia).
  revert Hb Hlen. generalize (sub (8 * Z.of_nat t) 8 block) as s. clear. intros s Hb Hlen.
  destruct s as [|a [|b [|c [|d [|e [|f [|g [|h [|]]]]]]]]]; unfold len in Hlen; simpl in Hlen; try lia.
  by apply lor_eight.
Qed.

(** ** Properties *)

(** C10: streaming SHA-512 refines FIPS 180-4. However a message of fewer than
    2^125 bytes is split into [update] calls, [final] writes the padded-message
    hash of the concatenation and scrubs the context. *)
Theorem sha512_streaming_refines c chunks :
  Forall (fun d : bytes => len d < 2 ^ 64) chunks ->
  len (concat chunks) < 2 ^ 125 ->
  alrios_sha512_final (update_all (snd (alrios_sha512_init (Some c))) chunks) true
  = (ALRIOS_CRYPTO_OK, Some uninit_ctx, Some (sha512_spec (concat chunks))).
Proof.
  intros Hf Hl. destruct (init_rep c) as (c0 & -> & H0). cbn [snd].
  destruct (update_all_rep chunks c0 [] H0) as (c1 & -> & H1).
  - rewrite len_nil. lia.
  - done.
  - by apply final_rep.
Qed.

(** Three chunks that straddle a block boundary. *)
Lemma sha512_streaming_refines_witness :
  snd (alrios_sha512_final
         (update_all (snd (alrios_sha512_init (Some uninit_ctx)))
            [replicate 100 97; replicate 60 98; [99]]) true)
  = Some (sha512_spec (concat [replicate 100 97; replicate 60 98; [99]])).
Proof.
  rewrite (sha512_streaming_refines uninit_ctx [replicate 100 97; replicate 60 98; [99]]).
  - reflexivity.
  - repeat constructor.
  - vm_compute. reflexivity.
Defined.

(** The message schedule is the one of FIPS 180-4 section 6.4.2: 80 words,
    the first sixteen the big-endian words of the block, the others given by the
    recurrence on the same array. *)
Theorem schedule_recurrence block :
  bytes_ok block -> len block = 128 ->
  length (schedule block) = 80%nat /\
  (forall t, (t < 16)%nat ->
     word (schedule block) t = be_val (sub (8 * Z.of_nat t) 8 block)) /\
  (forall t, (16 <= t < 80)%nat -> word (schedule block) t = fips_w (schedule block) t).
Proof.
  intros Hok Hl. unfold schedule. split_and!.
  - rewrite length_schedule_loop, length_map, length_seq. done.
  - intros t Ht. rewrite schedule_loop_prefix by (rewrite length_map, length_seq; lia).
    rewrite <- load_word_spec by (done || lia). unfold word.
    rewrite (nth_indep _ 0 (load_word block 0)) by (rewrite length_map, length_seq; lia).
    by rewrite map_nth, seq_nth by lia.
  - intros t Ht. apply schedule_loop_step; rewrite length_map, length_seq; lia.
Qed.

(** The padded block of the message "abc". *)
Lemma schedule_recurrence_witness :
  word (schedule (pad (lit "abc"))) 16
  = fips_w (schedule (pad (lit "abc"))) 16.
Proof.
  apply (schedule_recurrence (pad (lit "abc"))).
  - vm_compute. repeat constructor; discriminate.
  - vm_compute. reflexivity.
  - lia.
Defined.
