(* ===== verification/Preimage.v ===== *)
(** Signature pre-image of a v1 package: prefix, manifest, ciphertext
    (src/libraries/pki/preimage.c). *)

From S2P Require Import Prelude Bytes HashApi Sha512.

(** [sizeof(arapp_header_prefix_v1_t)], asserted by the source. *)
Definition PFX_LEN : Z := 136.

(** Overlap of [a, a + a_len) and [b, b + b_len); a range that wraps the
    address space counts as overlapping. *)
Definition buffers_overlap {A B} (a : ptr A) (a_len : Z) (b : ptr B) (b_len : Z) : bool :=
  if is_null a || is_null b || (a_len =? 0) || (b_len =? 0) then false
  else
    let a_start := addr_of a in
    let a_end := u64 (a_start + a_len) in
    let b_start := addr_of b in
    let b_end := u64 (b_start + b_len) in
    if (a_end <? a_start) || (b_end <? b_start) then true
    else (a_start <? b_end) && (b_start <? a_end).

(** The pointee of a pointer the caller has checked. *)
Definition deref (p : ptr bytes) : bytes :=
  match p with NULL => [] | At _ b => b end.

(** What the builder leaves behind: status, [out_preimage], [*out_len]. *)
Record preimage_result := mk_pre {
  pre_status : Z;
  pre_out : bytes;
  pre_len : option Z;
}.

Definition alrios_build_preimage_with_len (pfx manifest : ptr bytes) (m_len : Z)
    (ct : ptr bytes) (c_len : Z) (out_preimage : ptr bytes) (max_out : Z)
    (has_out_len : bool) : preimage_result :=
  let fail e := mk_pre e (deref out_preimage) None in
  if is_null pfx || is_null out_preimage then fail (-1)
  else if (m_len >? 0) && is_null manifest then fail (-1)
  else if (c_len >? 0) && is_null ct then fail (-1)
  else
    let pfx_len := PFX_LEN in
    if m_len >? SIZE_MAX - pfx_len then fail (-2)
    else
      let prefix_manifest_len := pfx_len + m_len in
      if c_len >? SIZE_MAX - prefix_manifest_len then fail (-2)
      else
        let total_len := prefix_manifest_len + c_len in
        if total_len >? max_out then fail (-2)
        else if buffers_overlap out_preimage total_len pfx pfx_len
                || (m_len >? 0) && buffers_overlap out_preimage total_len manifest m_len
                || (c_len >? 0) && buffers_overlap out_preimage total_len ct c_len
        then fail (-1)
        else
          let out := upd 0 (sub 0 pfx_len (deref pfx)) (deref out_preimage) in
          let out :=
            if m_len >? 0 then upd pfx_len (sub 0 m_len (deref manifest)) out else out in
          let out :=
            if c_len >? 0 then upd prefix_manifest_len (sub 0 c_len (deref ct)) out else out in
          mk_pre 0 out (if has_out_len then Some total_len else None).

Definition alrios_build_preimage (pfx manifest : ptr bytes) (m_len : Z)
    (ct : ptr bytes) (c_len : Z) (out_preimage : ptr bytes) (max_out : Z) : preimage_result :=
  alrios_build_preimage_with_len pfx manifest m_len ct c_len out_preimage max_out false.

Section Digest.
Context `{api : Sha512Api}.

(** Status and [out_digest] ([out_present]: is that pointer non-null?). *)
Definition alrios_preimage_compute_digest (pfx manifest : ptr bytes) (m_len : Z)
    (ct : ptr bytes) (c_len : Z) (out_present : bool) : Z * option bytes :=
  if is_null pfx || negb out_present then (-1, None)
  else if (m_len >? 0) && is_null manifest then (-1, None)
  else if (c_len >? 0) && is_null ct then (-1, None)
  else
    match sha512_parts
            ([sub 0 PFX_LEN (deref pfx)]
             ++ (if m_len >? 0 then [sub 0 m_len (deref manifest)] else [])
             ++ (if c_len >? 0 then [sub 0 c_len (deref ct)] else [])) with
    | None => (-1, None)
    | Some d => (0, Some d)
    end.
End Digest.

(** ** Specification *)

(** The signed octets. *)
Definition preimage_of (pfx manifest : ptr bytes) (m_len : Z) (ct : ptr bytes) (c_len : Z) : bytes :=
  sub 0 PFX_LEN (deref pfx) ++ sub 0 m_len (deref manifest) ++ sub 0 c_len (deref ct).

(** The objects the pointers designate are as large as the caller says. *)
Record args_ok (pfx manifest : ptr bytes) (m_len : Z) (ct : ptr bytes) (c_len : Z) : Prop := {
  ok_pfx : is_null pfx = false -> PFX_LEN <= len (deref pfx);
  ok_mlen : 0 <= m_len;
  ok_clen : 0 <= c_len;
  ok_man : is_null manifest = false -> m_len <= len (deref manifest);
  ok_ct : is_null ct = false -> c_len <= len (deref ct);
}.

(** ** Lemmas *)

Lemma buffers_overlap_ranges {A B} (p : ptr A) n (q : ptr B) m :
  0 <= n -> 0 <= m -> 0 <= addr_of p -> 0 <= addr_of q ->
  addr_of p + n < 2 ^ 64 -> addr_of q + m < 2 ^ 64 ->
  buffers_overlap p n q m = ranges_overlap p n q m.
Proof.
  intros. unfold buffers_overlap, ranges_overlap.
  destruct (_ || _ || _ || _); [done|]. unfold u64.
  rewrite !(Z.mod_small (_ + _)) by lia. rewrite !Z.gtb_ltb.
  unfold SIZE_MAX, UINT64_MAX. by repeat decide_if.
Qed.

Lemma sub_0_zero {A} (b : list A) : sub 0 0 b = [].
Proof. reflexivity. Qed.

Lemma part_len p n :
  0 <= n -> (is_null p = false -> n <= len (deref p)) ->
  (n >? 0) && is_null p = false -> len (sub 0 n (deref p)) = n.
Proof.
  intros Hn Hp Hg. destruct (n >? 0) eqn:E; bool_hyps; simpl in Hg.
  - rewrite len_sub; [done|lia|lia|]. apply Hp in Hg. lia.
  - replace n with 0 by lia. done.
Qed.

(** A conditional append of an empty buffer is no append. *)
Lemma opt_part n (p : ptr bytes) :
  0 <= n -> concat (if n >? 0 then [sub 0 n (deref p)] else []) = sub 0 n (deref p).
Proof.
  intros Hn. destruct (n >? 0) eqn:E; bool_hyps; simpl; [by rewrite app_nil_r|].
  by replace n with 0 by lia.
Qed.

(** [upd] of an optional trailing part. *)
Lemma opt_upd n (p : ptr bytes) off a b :
  0 <= n -> off = len a ->
  (if n >? 0 then upd off (sub 0 n (deref p)) (a ++ b) else a ++ b)
  = a ++ sub 0 n (deref p) ++ drop (length (sub 0 n (deref p))) b.
Proof.
  intros Hn Hoff. destruct (n >? 0) eqn:E; bool_hyps; [by apply upd_app_at|].
  replace n with 0 by lia. simpl. by rewrite drop_0.
Qed.

(** A successful build writes the pre-image at the start of the buffer. *)
Lemma build_ok pfx man m_len ct c_len out max_out hl r :
  args_ok pfx man m_len ct c_len ->
  alrios_build_preimage_with_len pfx man m_len ct c_len out max_out hl = r ->
  pre_status r = 0 ->
  PFX_LEN + m_len + c_len <= max_out /\ PFX_LEN + m_len + c_len <= SIZE_MAX /\
  (m_len >? 0) && is_null man = false /\ (c_len >? 0) && is_null ct = false /\
  is_null pfx = false /\ is_null out = false /\
  pre_out r = preimage_of pfx man m_len ct c_len
              ++ drop (length (preimage_of pfx man m_len ct c_len)) (deref out) /\
  pre_len r = if hl then Some (PFX_LEN + m_len + c_len) else None.
Proof.
  intros [Hp Hm Hc Hman Hct] <-. unfold alrios_build_preimage_with_len. cbv zeta beta.
  destruct (is_null pfx || is_null out) eqn:E1; [done|].
  destruct (_ && is_null man) eqn:E2; [done|].
  destruct (_ && is_null ct) eqn:E3; [done|].
  destruct (m_len >? SIZE_MAX - _) eqn:E4; [done|]. destruct (c_len >? SIZE_MAX - _) eqn:E5; [done|].
  destruct (_ >? max_out) eqn:E6; [done|]. destruct (_ || _ || _) eqn:E7; [done|].
  intros _. bool_hyps. split_and!; try done; try lia. cbn [pre_out].
  assert (Ep : is_null pfx = false) by done.
  pose proof (part_len pfx PFX_LEN ltac:(done) Hp Ep) as Hlp.
  pose proof (part_len man m_len Hm Hman E2) as Hlm.
  pose proof (upd_app_at 0 [] (sub 0 PFX_LEN (deref pfx)) (deref out)) as Hu.
  cbn [app] in Hu. rewrite Hu by done. clear Hu.
  rewrite opt_upd by lia. rewrite (app_assoc (sub 0 PFX_LEN _)).
  rewrite opt_upd by (rewrite ?len_app; lia).
  unfold preimage_of. rewrite !drop_drop, <- !app_assoc, !length_app.
  do 3 f_equal.
Qed.

(** ** Properties *)

Section Properties.
Context `{laws : Sha512Laws}.

(** The digest of [alrios_preimage_compute_digest] is the hash of exactly
    the octets that a successful [alrios_build_preimage_with_len] writes, and the
    length it reports is their number. *)
Theorem digest_of_built_preimage pfx man m_len ct c_len out max_out :
  args_ok pfx man m_len ct c_len ->
  m_len < 2 ^ 64 -> c_len < 2 ^ 64 ->
  pre_status (alrios_build_preimage_with_len pfx man m_len ct c_len out max_out true) = 0 ->
  let r := alrios_build_preimage_with_len pfx man m_len ct c_len out max_out true in
  exists n, pre_len r = Some n /\ n = PFX_LEN + m_len + c_len /\
    sub 0 n (pre_out r) = preimage_of pfx man m_len ct c_len /\
    alrios_preimage_compute_digest pfx man m_len ct c_len true
    = (0, Some (H (sub 0 n (pre_out r)))).
Proof.
  intros Hargs Hm64 Hc64 Hs. cbv zeta.
  destruct (build_ok _ _ _ _ _ _ _ _ _ Hargs eq_refl Hs)
    as (Hmax & Hsz & Em & Ec & Ep & Eo & -> & ->).
  destruct Hargs as [Hp Hm Hc Hman Hct].
  pose proof (part_len pfx PFX_LEN ltac:(done) Hp Ep) as Hpl.
  pose proof (part_len man m_len Hm Hman Em) as Hml.
  pose proof (part_len ct c_len Hc Hct Ec) as Hcl.
  assert (Hlen : len (preimage_of pfx man m_len ct c_len) = PFX_LEN + m_len + c_len)
    by (unfold preimage_of; rewrite !len_app; lia).
  assert (Hsub : sub 0 (PFX_LEN + m_len + c_len)
    (preimage_of pfx man m_len ct c_len ++
     drop (length (preimage_of pfx man m_len ct c_len)) (deref out))
    = preimage_of pfx man m_len ct c_len)
    by (rewrite sub_app_l by (unfold PFX_LEN in *; lia); apply sub_all; lia).
  eexists. split_and!; [reflexivity|done|exact Hsub|]. rewrite Hsub.
  unfold alrios_preimage_compute_digest. rewrite Ep, Em, Ec. cbn [orb negb].
  rewrite (sha512_parts_ok (H := H)).
  - rewrite !concat_app, !opt_part by done. cbn [concat]. by rewrite app_nil_r.
  - apply Forall_app. split; [apply Forall_singleton; rewrite Hpl; done|].
    apply Forall_app. split.
    + destruct (m_len >? 0); [apply Forall_singleton; lia|apply Forall_nil_2].
    + destruct (c_len >? 0); [apply Forall_singleton; lia|apply Forall_nil_2].
  - rewrite !concat_app, !opt_part by done. cbn [concat]. rewrite app_nil_r, !len_app.
    unfold SHA_MAX, SIZE_MAX, UINT64_MAX in *. lia.
Qed.
End Properties.

(** A 136-byte prefix, a two-byte manifest and no ciphertext, in three disjoint
    objects, with the engine of Sha512.v. *)
Lemma digest_of_built_preimage_witness :
  alrios_preimage_compute_digest (At 1000 (replicate 136 7)) (At 2000 [1; 2]) 2 NULL 0 true
  = (0, Some (sha512_spec (replicate 136 7 ++ [1; 2]))).
Proof.
  destruct (digest_of_built_preimage (H := sha512_spec) (At 1000 (replicate 136 7))
              (At 2000 [1; 2]) 2 NULL 0 (At 4000 (zeros 200)) 200) as (n & _ & -> & Hs & ->).
  - constructor; vm_compute; congruence.
  - reflexivity.
  - reflexivity.
  - vm_compute. reflexivity.
  - rewrite Hs. reflexivity.
Defined.
