(* ===== verification/Certificate.v ===== *)
(** Certificates and the trust store (src/libraries/pki/certificate.c).

    [certificate] is [alrios_certificate_t] with its fixed arrays; the codec is
    the one of the file, every read of the wire bounds-checked. The key
    identifiers go through the hash interface of HashApi.v. *)

From S2P Require Import Prelude Bytes CryptoUtils HashApi Sha512.

(** ** Constants (include/alrios/pki/certificate.h) *)

Definition ALRIOS_CERTIFICATE_VERSION_1 : Z := 1.

Definition HEADER_SIZE_V1 : Z := 92.

Definition TBS_DOMAIN_SIZE : Z := 18.

Definition SUBJECT_MAX : Z := 64.

Definition SERIAL_SIZE : Z := 16.

Definition KEY_ID_SIZE : Z := 32.

Definition ED25519_KEY_SIZE : Z := 32.

Definition ML_DSA_65_KEY_SIZE : Z := 1952.

Definition HYBRID_KEY_SIZE : Z := 1984.

Definition ED25519_SIG_SIZE : Z := 64.

Definition ML_DSA_65_SIG_SIZE : Z := 3309.

Definition HYBRID_SIG_SIZE : Z := 3373.

Definition WIRE_MAX : Z := 5513.

Definition TBS_MAX : Z := 2074.

Definition MAX_ANCHORS : Z := 8.

Definition ROLE_ROOT : Z := 1.

Definition ROLE_LEAF : Z := 3.

Definition CERT_OK : Z := 0.

Definition ERR_INVALID_ARGUMENT : Z := -4001.

Definition ERR_TRUNCATED : Z := -4002.

Definition ERR_BAD_MAGIC : Z := -4003.

Definition ERR_VERSION : Z := -4004.

Definition ERR_LENGTH : Z := -4005.

Definition ERR_ALGORITHM : Z := -4006.

Definition ERR_FIELD : Z := -4007.

Definition ERR_NONCANONICAL : Z := -4008.

Definition ERR_CAPACITY : Z := -4009.

Definition ERR_NOT_FOUND : Z := -4010.

Definition ERR_DUPLICATE : Z := -4011.

Definition ERR_SEALED : Z := -4012.

Definition ERR_STATE : Z := -4013.

Definition ERR_OVERLAP : Z := -4014.

Definition certificate_magic : bytes := [65; 76; 82; 73; 67; 69; 82; 84].

Definition tbs_domain : bytes :=
  [65; 76; 82; 73; 79; 83; 45; 67; 69; 82; 84; 45; 84; 66; 83; 45; 86; 49].

Definition key_id_domain : bytes :=
  [65; 76; 82; 73; 79; 83; 45; 75; 69; 89; 45; 73; 68; 45; 86; 49].

(** ** Data *)

Record certificate := mk_cert {
  version : Z;
  role : Z;
  public_key_algorithm : Z;
  signature_algorithm : Z;
  serial : bytes;
  issuer_key_id : bytes;
  not_before : Z;
  not_after : Z;
  subject_len : Z;
  subject : bytes;
  public_key_len : Z;
  public_key : bytes;
  signature_len : Z;
  signature : bytes;
}.

(** [sizeof(alrios_certificate_t)] with the natural alignment of its fields. *)
Definition CERT_SIZEOF : Z := 5520.

(** [memset(out_certificate, 0, sizeof(...))] *)
Definition zero_cert : certificate :=
  mk_cert 0 0 0 0 (zeros SERIAL_SIZE) (zeros KEY_ID_SIZE) 0 0
    0 (zeros SUBJECT_MAX) 0 (zeros HYBRID_KEY_SIZE) 0 (zeros HYBRID_SIG_SIZE).

(** The C type: field widths and array sizes. *)
Record cert_typed (c : certificate) : Prop := {
  ty_version : 0 <= version c < 2 ^ 16;
  ty_role : byte_ok (role c);
  ty_pka : byte_ok (public_key_algorithm c);
  ty_sa : byte_ok (signature_algorithm c);
  ty_serial : len (serial c) = SERIAL_SIZE /\ bytes_ok (serial c);
  ty_issuer : len (issuer_key_id c) = KEY_ID_SIZE /\ bytes_ok (issuer_key_id c);
  ty_nb : 0 <= not_before c < 2 ^ 64;
  ty_na : 0 <= not_after c < 2 ^ 64;
  ty_sl : 0 <= subject_len c < 2 ^ 64;
  ty_subject : len (subject c) = SUBJECT_MAX /\ bytes_ok (subject c);
  ty_pl : 0 <= public_key_len c < 2 ^ 64;
  ty_pk : len (public_key c) = HYBRID_KEY_SIZE /\ bytes_ok (public_key c);
  ty_gl : 0 <= signature_len c < 2 ^ 64;
  ty_sig : len (signature c) = HYBRID_SIG_SIZE /\ bytes_ok (signature c);
}.

(** ** Validation *)

Definition public_key_length (algorithm : Z) : res Z :=
  if algorithm =? 1 then Ok ED25519_KEY_SIZE
  else if algorithm =? 2 then Ok ML_DSA_65_KEY_SIZE
  else if algorithm =? 3 then Ok HYBRID_KEY_SIZE
  else Err ERR_ALGORITHM.

Definition signature_length (algorithm : Z) : res Z :=
  if algorithm =? 1 then Ok ED25519_SIG_SIZE
  else if algorithm =? 2 then Ok ML_DSA_65_SIG_SIZE
  else if algorithm =? 3 then Ok HYBRID_SIG_SIZE
  else Err ERR_ALGORITHM.

Definition subject_char (ch : Z) : bool :=
  (97 <=? ch) && (ch <=? 122) || (48 <=? ch) && (ch <=? 57)
  || (ch =? 46) || (ch =? 45) || (ch =? 95).

Definition valid_subject (subj : bytes) (n : Z) : bool :=
  if (n =? 0) || (n >? SUBJECT_MAX) then false
  else forallb subject_char (sub 0 n subj).

(** [for (...) all_zero &= (p\[index\] == 0U);] *)
Definition all_zero (p : bytes) : bool := forallb (fun b => b =? 0) p.

(** The wire length of a valid certificate, or the first error. *)
Definition validate_certificate (c : certificate) : res Z :=
  fail_if negb (version c =? ALRIOS_CERTIFICATE_VERSION_1) with ERR_VERSION;;
  fail_if (role c <? ROLE_ROOT) || (role c >? ROLE_LEAF) with ERR_FIELD;;
  let! expected_key_len := public_key_length (public_key_algorithm c) in
  let! expected_signature_len := signature_length (signature_algorithm c) in
  fail_if negb (public_key_len c =? expected_key_len)
          || negb (signature_len c =? expected_signature_len) with ERR_LENGTH;;
  fail_if negb (valid_subject (subject c) (subject_len c))
          || (not_before c >? not_after c) with ERR_FIELD;;
  fail_if all_zero (sub 0 SERIAL_SIZE (serial c))
          || all_zero (sub 0 (public_key_len c) (public_key c)) with ERR_FIELD;;
  fail_if subject_len c >? SIZE_MAX - HEADER_SIZE_V1 with ERR_LENGTH;;
  let wire_len := HEADER_SIZE_V1 + subject_len c in
  fail_if public_key_len c >? SIZE_MAX - wire_len with ERR_LENGTH;;
  let wire_len := wire_len + public_key_len c in
  fail_if signature_len c >? SIZE_MAX - wire_len with ERR_LENGTH;;
  let wire_len := wire_len + signature_len c in
  fail_if (wire_len >? WIRE_MAX) || (wire_len >? UINT32_MAX) with ERR_LENGTH;;
  Ok wire_len.

(** ** Encoding *)

Definition encode_header (c : certificate) (wire_len : Z) : bytes :=
  let header := zeros HEADER_SIZE_V1 in
  let header := upd 0 certificate_magic header in
  let header := upd 8 (store_u16_be (version c)) header in
  let header := upd 10 [role c] header in
  let header := upd 11 [public_key_algorithm c] header in
  let header := upd 12 [signature_algorithm c] header in
  let header := upd 16 (store_u32_be (u32 wire_len)) header in
  let header := upd 20 (store_u16_be (u16 (subject_len c))) header in
  let header := upd 22 (store_u16_be (u16 (public_key_len c))) header in
  let header := upd 24 (store_u16_be (u16 (signature_len c))) header in
  let header := upd 28 (sub 0 SERIAL_SIZE (serial c)) header in
  let header := upd 44 (sub 0 KEY_ID_SIZE (issuer_key_id c)) header in
  let header := upd 76 (store_u64_be (not_before c)) header in
  upd 84 (store_u64_be (not_after c)) header.

(** Status, [*out_written], and the bytes written to the front of [out_wire]
    ([None]: the buffer is untouched). *)
Definition encode_result : Type := Z * Z * option bytes.

Definition alrios_certificate_encode (certificate_ : ptr certificate) (out_wire : ptr bytes)
    (out_capacity : Z) (out_written : bool) : encode_result :=
  match certificate_, negb (is_null out_wire) && out_written with
  | At _ c, true =>
      match validate_certificate c with
      | Err status => (status, 0, None)
      | Fault => (0, 0, None)
      | Ok wire_len =>
          if out_capacity <? wire_len then (ERR_CAPACITY, 0, None)
          else if ranges_overlap certificate_ CERT_SIZEOF out_wire wire_len
          then (ERR_OVERLAP, 0, None)
          else
            let header := encode_header c wire_len in
            (CERT_OK, wire_len,
             Some (header ++ sub 0 (subject_len c) (subject c)
                   ++ sub 0 (public_key_len c) (public_key c)
                   ++ sub 0 (signature_len c) (signature c)))
      end
  | _, _ => (ERR_INVALID_ARGUMENT, 0, None)
  end.

Definition alrios_certificate_encode_tbs (certificate_ : ptr certificate) (out_tbs : ptr bytes)
    (out_capacity : Z) (out_written : bool) : encode_result :=
  match certificate_, negb (is_null out_tbs) && out_written with
  | At _ c, true =>
      match validate_certificate c with
      | Err status => (status, 0, None)
      | Fault => (0, 0, None)
      | Ok wire_len =>
          let tbs_len := TBS_DOMAIN_SIZE + HEADER_SIZE_V1 + subject_len c + public_key_len c in
          if (tbs_len >? TBS_MAX) || (out_capacity <? tbs_len) then (ERR_CAPACITY, 0, None)
          else if ranges_overlap certificate_ CERT_SIZEOF out_tbs tbs_len
          then (ERR_OVERLAP, 0, None)
          else
            let header := encode_header c wire_len in
            (CERT_OK, tbs_len,
             Some (tbs_domain ++ header ++ sub 0 (subject_len c) (subject c)
                   ++ sub 0 (public_key_len c) (public_key c)))
      end
  | _, _ => (ERR_INVALID_ARGUMENT, 0, None)
  end.

(** ** Decoding *)

(** The part of [alrios_certificate_decode] between the argument checks and the
    labels [fail:] / success: every read of [wire] is bounds-checked. *)
Definition decode_fields (wire : bytes) (wire_len : Z) : res certificate :=
  fail_if wire_len <? HEADER_SIZE_V1 with ERR_TRUNCATED;;
  let! magic := rd 0 8 wire in
  fail_if negb (bytes_eqb magic certificate_magic) with ERR_BAD_MAGIC;;
  let! b_version := rd 8 2 wire in
  let! b_role := rd 10 1 wire in
  let! b_pka := rd 11 1 wire in
  let! b_sa := rd 12 1 wire in
  let version_ := load_u16_be b_version in
  fail_if negb (version_ =? ALRIOS_CERTIFICATE_VERSION_1) with ERR_VERSION;;
  let! pad1 := rd 13 3 wire in
  let! pad2 := rd 26 2 wire in
  fail_if negb (at_ pad1 0 =? 0) || negb (at_ pad1 1 =? 0) || negb (at_ pad1 2 =? 0)
          || negb (at_ pad2 0 =? 0) || negb (at_ pad2 1 =? 0) with ERR_NONCANONICAL;;
  let! b_total := rd 16 4 wire in
  fail_if negb (load_u32_be b_total =? wire_len) || (wire_len >? WIRE_MAX) with ERR_LENGTH;;
  let! b_sl := rd 20 2 wire in
  let! b_pl := rd 22 2 wire in
  let! b_gl := rd 24 2 wire in
  let subject_len_ := load_u16_be b_sl in
  let public_key_len_ := load_u16_be b_pl in
  let signature_len_ := load_u16_be b_gl in
  let! expected_key_len := public_key_length (at_ b_pka 0) in
  let! expected_signature_len := signature_length (at_ b_sa 0) in
  fail_if (subject_len_ =? 0) || (subject_len_ >? SUBJECT_MAX)
          || negb (public_key_len_ =? expected_key_len)
          || negb (signature_len_ =? expected_signature_len) with ERR_LENGTH;;
  let total_len := HEADER_SIZE_V1 in
  fail_if subject_len_ >? SIZE_MAX - total_len with ERR_LENGTH;;
  let total_len := total_len + subject_len_ in
  fail_if public_key_len_ >? SIZE_MAX - total_len with ERR_LENGTH;;
  let total_len := total_len + public_key_len_ in
  fail_if signature_len_ >? SIZE_MAX - total_len with ERR_LENGTH;;
  let total_len := total_len + signature_len_ in
  fail_if negb (total_len =? wire_len) with ERR_LENGTH;;
  let! b_serial := rd 28 SERIAL_SIZE wire in
  let! b_issuer := rd 44 KEY_ID_SIZE wire in
  let! b_nb := rd 76 8 wire in
  let! b_na := rd 84 8 wire in
  let offset := HEADER_SIZE_V1 in
  let! b_subject := rd offset subject_len_ wire in
  let offset := offset + subject_len_ in
  let! b_pk := rd offset public_key_len_ wire in
  let offset := offset + public_key_len_ in
  let! b_sig := rd offset signature_len_ wire in
  let decoded :=
    mk_cert version_ (at_ b_role 0) (at_ b_pka 0) (at_ b_sa 0) b_serial b_issuer
      (load_u64_be b_nb) (load_u64_be b_na)
      subject_len_ (upd 0 b_subject (zeros SUBJECT_MAX))
      public_key_len_ (upd 0 b_pk (zeros HYBRID_KEY_SIZE))
      signature_len_ (upd 0 b_sig (zeros HYBRID_SIG_SIZE)) in
  let! total_len := validate_certificate decoded in
  fail_if negb (total_len =? wire_len) with ERR_LENGTH;;
  Ok decoded.

(** Status and the new contents of [*out_certificate]; [Fault] if the wire
    buffer is read out of bounds. *)
Definition alrios_certificate_decode (wire : ptr bytes) (wire_len : Z)
    (out_certificate : ptr certificate) : res (Z * option certificate) :=
  if is_null out_certificate then Ok (ERR_INVALID_ARGUMENT, None)
  else
    match wire with
    | NULL => Ok (ERR_INVALID_ARGUMENT, Some zero_cert)
    | At _ w =>
        if ranges_overlap wire wire_len out_certificate CERT_SIZEOF
        then Ok (ERR_OVERLAP, Some zero_cert)
        else
          match decode_fields w wire_len with
          | Ok decoded => Ok (CERT_OK, Some decoded)
          | Err status => Ok (status, Some zero_cert)
          | Fault => Fault
          end
    end.

#[export] Hint Unfold HEADER_SIZE_V1 TBS_DOMAIN_SIZE SUBJECT_MAX SERIAL_SIZE KEY_ID_SIZE
  ED25519_KEY_SIZE ML_DSA_65_KEY_SIZE HYBRID_KEY_SIZE ED25519_SIG_SIZE ML_DSA_65_SIG_SIZE
  HYBRID_SIG_SIZE WIRE_MAX TBS_MAX MAX_ANCHORS ROLE_ROOT ROLE_LEAF
  ALRIOS_CERTIFICATE_VERSION_1 SIZE_MAX UINT64_MAX UINT32_MAX UINT16_MAX : consts.

(** ** Specification *)

(** What a valid certificate is. *)
Record cert_valid (c : certificate) : Prop := {
  va_version : version c = ALRIOS_CERTIFICATE_VERSION_1;
  va_role : ROLE_ROOT <= role c <= ROLE_LEAF;
  va_pka : public_key_length (public_key_algorithm c) = Ok (public_key_len c);
  va_sa : signature_length (signature_algorithm c) = Ok (signature_len c);
  va_subject : valid_subject (subject c) (subject_len c) = true;
  va_dates : not_before c <= not_after c;
  va_serial : all_zero (sub 0 SERIAL_SIZE (serial c)) = false;
  va_key : all_zero (sub 0 (public_key_len c) (public_key c)) = false;
}.

(** The octets of its encoding. *)
Definition wire_length (c : certificate) : Z :=
  HEADER_SIZE_V1 + subject_len c + public_key_len c + signature_len c.

(** The certificate a decoder can rebuild: the unused tails of its arrays are
    zero. *)
Definition scrub (c : certificate) : certificate :=
  mk_cert (version c) (role c) (public_key_algorithm c) (signature_algorithm c)
    (serial c) (issuer_key_id c) (not_before c) (not_after c)
    (subject_len c) (upd 0 (sub 0 (subject_len c) (subject c)) (zeros SUBJECT_MAX))
    (public_key_len c) (upd 0 (sub 0 (public_key_len c) (public_key c)) (zeros HYBRID_KEY_SIZE))
    (signature_len c) (upd 0 (sub 0 (signature_len c) (signature c)) (zeros HYBRID_SIG_SIZE)).

(** The wire form. *)
Definition cert_wire (c : certificate) : bytes :=
  encode_header c (wire_length c) ++ sub 0 (subject_len c) (subject c)
  ++ sub 0 (public_key_len c) (public_key c) ++ sub 0 (signature_len c) (signature c).

(** The to-be-signed octets. *)
Definition cert_tbs (c : certificate) : bytes :=
  tbs_domain ++ encode_header c (wire_length c) ++ sub 0 (subject_len c) (subject c)
  ++ sub 0 (public_key_len c) (public_key c).

(** The certificate the fields of [w] denote. *)
Definition cert_of_wire (w : bytes) : certificate :=
  let sl := load_u16_be (sub 20 2 w) in
  let pl := load_u16_be (sub 22 2 w) in
  let gl := load_u16_be (sub 24 2 w) in
  mk_cert (load_u16_be (sub 8 2 w)) (at_ (sub 10 1 w) 0) (at_ (sub 11 1 w) 0)
    (at_ (sub 12 1 w) 0) (sub 28 SERIAL_SIZE w) (sub 44 KEY_ID_SIZE w)
    (load_u64_be (sub 76 8 w)) (load_u64_be (sub 84 8 w))
    sl (upd 0 (sub HEADER_SIZE_V1 sl w) (zeros SUBJECT_MAX))
    pl (upd 0 (sub (HEADER_SIZE_V1 + sl) pl w) (zeros HYBRID_KEY_SIZE))
    gl (upd 0 (sub (HEADER_SIZE_V1 + sl + pl) gl w) (zeros HYBRID_SIG_SIZE)).

(** The tests a wire passes when it is decoded. *)
Record wire_accepted (w : bytes) (wl : Z) : Prop := {
  wa_magic : sub 0 8 w = certificate_magic;
  wa_pad1 : sub 13 3 w = zeros 3;
  wa_pad2 : sub 26 2 w = zeros 2;
  wa_total : load_u32_be (sub 16 4 w) = wl;
  wa_bound : wl <= len w;
  wa_sl : 1 <= load_u16_be (sub 20 2 w) <= SUBJECT_MAX;
  wa_pl : 0 <= load_u16_be (sub 22 2 w) <= HYBRID_KEY_SIZE;
  wa_gl : 0 <= load_u16_be (sub 24 2 w) <= HYBRID_SIG_SIZE;
  wa_len : wl = wire_length (cert_of_wire w);
  wa_valid : cert_valid (cert_of_wire w);
}.

(** A self-signed Ed25519 root named "r". *)
Definition sample_cert : certificate :=
  mk_cert 1 1 1 1 (upd 0 [1] (zeros SERIAL_SIZE)) (zeros KEY_ID_SIZE) 10 20
    1 (upd 0 (lit "r") (zeros SUBJECT_MAX)) 32 (upd 0 [9] (zeros HYBRID_KEY_SIZE))
    64 (zeros HYBRID_SIG_SIZE).

(** Its wire form. *)
Definition sample_wire : bytes := cert_wire sample_cert.

(** A root with a hybrid key. *)
Definition hybrid_cert : certificate :=
  mk_cert 1 1 3 1 (upd 0 [1] (zeros SERIAL_SIZE)) (zeros KEY_ID_SIZE) 10 20
    1 (upd 0 (lit "r") (zeros SUBJECT_MAX)) 1984 (upd 0 [9] (zeros HYBRID_KEY_SIZE))
    64 (zeros HYBRID_SIG_SIZE).

(** ** Validation, proved *)

Lemma pk_length_cases a n : public_key_length a = Ok n -> n = 32 \/ n = 1952 \/ n = 1984.
Proof. unfold public_key_length. repeat split_if; intros [=]; subst; clia. Qed.

Lemma sig_length_cases a n : signature_length a = Ok n -> n = 64 \/ n = 3309 \/ n = 3373.
Proof. unfold signature_length. repeat split_if; intros [=]; subst; clia. Qed.

Lemma pk_length_no_fault a : public_key_length a <> Fault.
Proof. unfold public_key_length. by repeat split_if. Qed.

Lemma sig_length_no_fault a : signature_length a <> Fault.
Proof. unfold signature_length. by repeat split_if. Qed.

Lemma valid_subject_len s n : valid_subject s n = true -> 0 <= n -> 1 <= n <= 64.
Proof. unfold valid_subject. split_if; [done|]. bool_hyps. clia. Qed.

(** Validation accepts exactly the valid certificates and returns their wire
    length. *)
Lemma validate_iff c wl :
  0 <= subject_len c ->
  validate_certificate c = Ok wl <-> cert_valid c /\ wl = wire_length c.
Proof.
  intros Hs. unfold validate_certificate. split.
  - intros H. res_inv H. bool_hyps. injection H as <-.
    apply pk_length_cases in Hx as Hp. apply sig_length_cases in Hx0 as Hg. subst.
    split; [constructor; try done; try lia|unfold wire_length; lia].
  - intros [[Hv Hr Hp Hg Hsub Hd Hse Hk] ->].
    apply pk_length_cases in Hp as Hp'. apply sig_length_cases in Hg as Hg'.
    apply valid_subject_len in Hsub as Hsl; [|done].
    rewrite Hp, Hg, Hsub, Hse, Hk, Hv, !Z.eqb_refl. cbn [rbind negb orb].
    rewrite !reject_false; [done|clia..| |].
    + apply orb_false_iff. rewrite !Z.gtb_ltb, !Z.ltb_ge. clia.
    + clia.
Qed.

(** ** The codec *)

Lemma typed_sub_serial c : cert_typed c -> sub 0 SERIAL_SIZE (serial c) = serial c.
Proof. intros []. apply sub_all. symmetry. tauto. Qed.

Lemma typed_sub_issuer c : cert_typed c -> sub 0 KEY_ID_SIZE (issuer_key_id c) = issuer_key_id c.
Proof. intros []. apply sub_all. symmetry. tauto. Qed.

(** The fixed header, field by field. *)
Lemma encode_header_fields c wl :
  cert_typed c ->
  encode_header c wl
  = certificate_magic ++ store_u16_be (version c) ++ [role c] ++ [public_key_algorithm c]
    ++ [signature_algorithm c] ++ zeros 3 ++ store_u32_be (u32 wl)
    ++ store_u16_be (u16 (subject_len c)) ++ store_u16_be (u16 (public_key_len c))
    ++ store_u16_be (u16 (signature_len c)) ++ zeros 2 ++ serial c ++ issuer_key_id c
    ++ store_u64_be (not_before c) ++ store_u64_be (not_after c).
Proof.
  intros Ht. unfold encode_header. cbv zeta.
  rewrite typed_sub_serial, typed_sub_issuer by done.
  destruct Ht as [_ _ _ _ [Hs _] [Hi _] _ _ _ _ _ _ _ _].
  unfold SERIAL_SIZE, KEY_ID_SIZE in *.
  assert (Hm : len certificate_magic = 8) by done.
  change (zeros HEADER_SIZE_V1) with ([] ++ zeros 92).
  rewrite (upd_fill0 []) by clia.
  do 4 (rewrite upd_fill0 by clia).
  rewrite (upd_fill _ 16 _ _ 3) by clia.
  do 3 (rewrite upd_fill0 by clia).
  rewrite (upd_fill _ 28 _ _ 2) by clia.
  do 3 (rewrite upd_fill0 by clia).
  match goal with |- _ ++ zeros ?k = _ => replace k with 0 by clia end.
  rewrite app_nil_r, app_nil_l, <- !app_assoc. done.
Qed.

Lemma sub_scrub n b k : 0 <= n -> n <= len b -> n <= k ->
  sub 0 n (upd 0 (sub 0 n b) (zeros k)) = sub 0 n b.
Proof. intros. apply sub_upd_same; rewrite ?len_sub, ?len_zeros; lia. Qed.

Lemma valid_lens c :
  cert_typed c -> cert_valid c ->
  1 <= subject_len c <= 64 /\ 32 <= public_key_len c <= 1984 /\ 64 <= signature_len c <= 3373.
Proof.
  intros Ht Hv. destruct Ht as [_ _ _ _ _ _ _ _ Hsl _ _ _ _ _].
  destruct Hv as [_ _ Hp Hg Hs _ _ _].
  apply pk_length_cases in Hp. apply sig_length_cases in Hg.
  apply valid_subject_len in Hs; lia.
Qed.

Lemma scrub_valid c : cert_typed c -> cert_valid c -> cert_valid (scrub c).
Proof.
  intros Ht Hv. destruct (valid_lens c Ht Hv) as (? & ? & ?).
  destruct Ht, Hv. constructor; cbn; try done.
  - unfold valid_subject in *. rewrite sub_scrub; [done|lia|clia|clia].
  - rewrite sub_scrub; [done|lia|clia|clia].
Qed.

Lemma cert_wire_len c :
  cert_typed c -> cert_valid c -> len (cert_wire c) = wire_length c.
Proof.
  intros Ht Hv. destruct (valid_lens c Ht Hv) as (? & ? & ?).
  unfold cert_wire, wire_length. rewrite encode_header_fields by done.
  destruct Ht as [_ _ _ _ [? _] [? _] _ _ _ [? _] _ [? _] _ [? _]].
  unfold SERIAL_SIZE, KEY_ID_SIZE, SUBJECT_MAX, HYBRID_KEY_SIZE, HYBRID_SIG_SIZE in *.
  assert (len certificate_magic = 8) by done.
  rewrite !len_app, !len_sub by lia. clia.
Qed.

Lemma decode_wire c :
  cert_typed c -> cert_valid c -> decode_fields (cert_wire c) (wire_length c) = Ok (scrub c).
Proof.
  intros Ht Hv. destruct (valid_lens c Ht Hv) as (? & ? & ?).
  pose proof (proj2 (validate_iff (scrub c) (wire_length c) ltac:(cbn; lia))
                (conj (scrub_valid c Ht Hv) eq_refl)) as Hval.
  unfold cert_wire. rewrite encode_header_fields by done. rewrite <- !app_assoc.
  destruct Ht as [? ? ? ? [? _] [? _] ? ? ? [? _] ? [? _] ? [? _]].
  destruct Hv as [? ? Hp Hg ? ? ? ?].
  assert (len certificate_magic = 8) by done.
  assert (len (sub 0 (subject_len c) (subject c)) = subject_len c) by (apply len_sub; clia).
  assert (len (sub 0 (public_key_len c) (public_key c)) = public_key_len c) by (apply len_sub; clia).
  assert (len (sub 0 (signature_len c) (signature c)) = signature_len c) by (apply len_sub; clia).
  unfold wire_length in *.
  unfold decode_fields. rewrite reject_false by clia.
  next_field. rewrite bytes_eqb_refl. rewrite (reject_false _ ERR_BAD_MAGIC) by done.
  do 4 next_field. rewrite load_store_u16 by done.
  rewrite (reject_false _ ERR_VERSION) by (bool_hyps; clia).
  do 2 next_field. rewrite (reject_false _ ERR_NONCANONICAL) by done.
  next_field. unfold u16, u32. rewrite !Z.mod_small by clia. rewrite load_store_u32 by clia.
  rewrite (reject_false _ ERR_LENGTH) by (rewrite Z.eqb_refl; clia).
  do 3 next_field. rewrite !load_store_u16 by clia.
  unfold at_. change (Z.to_nat 0) with 0%nat. cbn [nth]. rewrite Hp, Hg. cbn [rbind].
  rewrite (reject_false _ ERR_LENGTH) by (rewrite !Z.eqb_refl; cbn [negb orb]; clia).
  do 4 (rewrite (reject_false _ ERR_LENGTH) by (rewrite ?Z.eqb_refl; clia)).
  do 7 next_field. rewrite !load_store_u64 by done.
  fold (scrub c). rewrite Hval. cbn [rbind]. by rewrite Z.eqb_refl.
Qed.

(** An in-place field of the array it was copied into. *)
Lemma sub_of_fill n b k : n = len b -> n <= k -> sub 0 n (upd 0 b (zeros k)) = b.
Proof. intros. pose proof (len_nonneg b). apply sub_upd_same; rewrite ?len_zeros; lia. Qed.

Lemma fill_typed b k : bytes_ok b -> len b <= k -> 0 <= k ->
  len (upd 0 b (zeros k)) = k /\ bytes_ok (upd 0 b (zeros k)).
Proof.
  intros. split; [rewrite len_upd; rewrite ?len_zeros; lia|]. apply bytes_ok_upd; auto with buf.
Qed.

Lemma one_byte w i : 0 <= i < len w -> [at_ (sub i 1 w) 0] = sub i 1 w.
Proof. intros. rewrite at_sub, Z.add_0_r by lia. by rewrite sub_one. Qed.

Lemma decode_accepted w wl c :
  decode_fields w wl = Ok c -> c = cert_of_wire w /\ wire_accepted w wl.
Proof.
  intros H. unfold decode_fields in H. res_inv H. injection H as <-.
  split; [done|]. fold (cert_of_wire w) in *.
  match goal with Hp : public_key_length _ = Ok _ |- _ => apply pk_length_cases in Hp end.
  match goal with Hg : signature_length _ = Ok _ |- _ => apply sig_length_cases in Hg end.
  match goal with Hv : validate_certificate _ = Ok _ |- _ =>
    apply validate_iff in Hv as [Hv ->]; [|done] end.
  bool_hyps. constructor; try done; try clia.
  - by apply bytes_eqb_eq.
  - apply (zeros_of_at _ 3); [rewrite len_sub; lia|]. intros i Hi.
    assert (i = 0 \/ i = 1 \/ i = 2) as [->|[->| ->]] by lia; done.
  - apply (zeros_of_at _ 2); [rewrite len_sub; lia|]. intros i Hi.
    assert (i = 0 \/ i = 1) as [->| ->] by lia; done.
Qed.

Lemma cert_of_wire_typed w wl :
  bytes_ok w -> wire_accepted w wl -> cert_typed (cert_of_wire w).
Proof.
  intros Hok [Hm _ _ Ht Hb Hsl Hpl Hgl Hl _].
  unfold wire_length, cert_of_wire in Hl. cbn in Hl.
  constructor; cbn [cert_of_wire version role public_key_algorithm signature_algorithm serial
    issuer_key_id not_before not_after subject_len subject public_key_len public_key
    signature_len signature]; autounfold with consts in *;
    try (apply load_u16_bound; [auto with buf|rewrite len_sub; lia]);
    try (apply load_u64_bound; [auto with buf|rewrite len_sub; lia]);
    try (apply at_ok; auto with buf); try lia;
    try (split; [rewrite len_sub; lia|auto with buf]);
    (apply fill_typed; [auto with buf|rewrite len_sub; lia|lia]).
Qed.

(** Everything the decoder accepts is the wire form of what it returns. *)
Lemma accepted_wire w wl :
  bytes_ok w -> wire_accepted w wl ->
  scrub (cert_of_wire w) = cert_of_wire w /\ cert_wire (cert_of_wire w) = sub 0 wl w.
Proof.
  intros Hok Ha. pose proof (cert_of_wire_typed w wl Hok Ha) as Hty.
  destruct Ha as [Hm Hp1 Hp2 Ht Hb Hsl Hpl Hgl Hl Hv].
  unfold cert_wire. rewrite encode_header_fields by done. rewrite <- Hl.
  unfold wire_length in Hl. unfold scrub.
  cbn [cert_of_wire version role public_key_algorithm signature_algorithm serial
    issuer_key_id not_before not_after subject_len subject public_key_len public_key
    signature_len signature] in *.
  set (sl := load_u16_be (sub 20 2 w)) in *. set (pl := load_u16_be (sub 22 2 w)) in *.
  set (gl := load_u16_be (sub 24 2 w)) in *. autounfold with consts in *.
  rewrite !sub_of_fill by (rewrite ?len_sub; lia). split; [done|].
  assert (0 <= wl < 2 ^ 32) by (rewrite <- Ht; apply load_u32_bound; [auto with buf|rewrite len_sub; lia]).
  unfold u16, u32. rewrite (Z.mod_small wl), !Z.mod_small by lia.
  rewrite <- Ht at 1. unfold sl at 1, pl at 1, gl at 1.
  rewrite !store_load_u16, store_load_u32, !store_load_u64
    by (auto with buf || (rewrite len_sub; lia)).
  rewrite !one_byte by lia. rewrite <- Hm, <- Hp1, <- Hp2, <- !app_assoc.
  rewrite !sub_join by lia. f_equal. lia.
Qed.

(** ** Memory safety and error codes *)

Lemma pk_length_proper a : proper_err (public_key_length a).
Proof. intros e. unfold public_key_length. repeat split_if; by intros [= <-]. Qed.

Lemma sig_length_proper a : proper_err (signature_length a).
Proof. intros e. unfold signature_length. repeat split_if; by intros [= <-]. Qed.

Lemma validate_proper c : proper_err (validate_certificate c).
Proof.
  unfold validate_certificate. cbv zeta.
  repeat first [apply reject_proper; [done|] | apply rbind_proper; [|intros ?]
               | apply pk_length_proper | apply sig_length_proper | apply ok_proper].
Qed.

Lemma validate_no_fault c : validate_certificate c <> Fault.
Proof.
  unfold validate_certificate. cbv zeta.
  repeat first [apply reject_no_fault; intros _ | apply rbind_no_fault; [|intros ? _]
               | apply pk_length_no_fault | apply sig_length_no_fault | done].
Qed.

Lemma decode_fields_proper w wl : proper_err (decode_fields w wl).
Proof.
  unfold decode_fields. cbv zeta.
  repeat first [apply reject_proper; [done|] | apply rbind_proper; [|intros ?] | apply rd_proper
               | apply pk_length_proper | apply sig_length_proper | apply validate_proper
               | apply ok_proper].
Qed.

(** No read of the decoder leaves a wire buffer that holds [wl] bytes. *)
Lemma decode_fields_no_fault w wl :
  bytes_ok w -> wl <= len w -> decode_fields w wl <> Fault.
Proof.
  intros Hok Hwl. unfold decode_fields. cbv zeta.
  apply reject_no_fault. intros H0. bool_hyps. unfold HEADER_SIZE_V1 in *.
  repeat first [ apply rbind_no_fault; [apply rd_no_fault; clia|intros x Hx];
                 apply rd_inv in Hx as (-> & ?)
               | apply reject_no_fault; intros ? ].
  apply rbind_no_fault; [apply pk_length_no_fault|intros kl Hkl].
  apply rbind_no_fault; [apply sig_length_no_fault|intros gl Hgl].
  repeat (apply reject_no_fault; intros ?). bool_hyps.
  pose proof (load_u16_bound (sub 20 2 w) ltac:(auto with buf) ltac:(rewrite len_sub; lia)).
  pose proof (load_u16_bound (sub 22 2 w) ltac:(auto with buf) ltac:(rewrite len_sub; lia)).
  pose proof (load_u16_bound (sub 24 2 w) ltac:(auto with buf) ltac:(rewrite len_sub; lia)).
  repeat (apply rbind_no_fault; [apply rd_no_fault; clia|intros ? _]).
  apply rbind_no_fault; [apply validate_no_fault|intros ? _].
  by apply reject_no_fault.
Qed.

Lemma sample_typed : cert_typed sample_cert.
Proof.
  constructor; try ((vm_compute; split; [discriminate|reflexivity]) || discriminate);
    split; (apply bytes_okb_ok; vm_compute; reflexivity) || (vm_compute; reflexivity).
Qed.

(** ** Properties *)

(** The bytes a successful encode writes. *)
Lemma encode_ok c a cap out wn :
  cert_typed c -> cert_valid c -> is_null out = false -> wn = true ->
  wire_length c <= cap -> ranges_overlap (At a c) CERT_SIZEOF out (wire_length c) = false ->
  alrios_certificate_encode (At a c) out cap wn = (CERT_OK, wire_length c, Some (cert_wire c)).
Proof.
  intros Ht Hv Ho -> Hc Hov. destruct (valid_lens c Ht Hv) as (? & ? & ?).
  unfold alrios_certificate_encode. rewrite Ho. cbn [negb andb].
  rewrite (proj2 (validate_iff c (wire_length c) ltac:(lia)) (conj Hv eq_refl)).
  replace (cap <? wire_length c) with false by (symmetry; apply Z.ltb_ge; lia).
  by rewrite Hov.
Qed.

Lemma encode_inv c a out cap wn n w :
  cert_typed c ->
  alrios_certificate_encode (At a c) out cap wn = (CERT_OK, n, Some w) ->
  cert_valid c /\ n = wire_length c /\ w = cert_wire c /\ n <= cap.
Proof.
  intros Ht. unfold alrios_certificate_encode. destruct (_ && _); [|done].
  pose proof (validate_proper c) as Hp.
  destruct (validate_certificate c) as [wl|e|] eqn:E; [|done|done].
  apply validate_iff in E as [Hv ->]; [|by destruct Ht as [_ _ _ _ _ _ _ _ [? _]]].
  split_if; [done|]. split_if; [done|]. intros E. bool_hyps.
  apply triple_inv in E as (_ & <- & <-). by split_and!.
Qed.

(** Decoding what [alrios_certificate_encode] wrote gives the certificate
    back, its unused array tails zeroed, and consumes exactly the reported
    length. *)
Theorem certificate_roundtrip c a out cap wn n w a' out' :
  cert_typed c -> is_null out' = false ->
  alrios_certificate_encode (At a c) out cap wn = (CERT_OK, n, Some w) ->
  ranges_overlap (At a' w) n out' CERT_SIZEOF = false ->
  len w = n /\
  alrios_certificate_decode (At a' w) n out' = Ok (CERT_OK, Some (scrub c)).
Proof.
  intros Ht Ho He Hov. apply encode_inv in He as (Hv & -> & -> & _); [|done].
  split; [by apply cert_wire_len|].
  unfold alrios_certificate_decode. rewrite Ho, Hov. by rewrite decode_wire.
Qed.

Lemma certificate_roundtrip_witness :
  alrios_certificate_decode (At 50000 sample_wire) 189 (At 90000 zero_cert)
  = Ok (CERT_OK, Some (scrub sample_cert)).
Proof.
  apply (certificate_roundtrip sample_cert 10000 (At 30000 []) 5513 true 189 sample_wire 50000).
  - apply sample_typed.
  - reflexivity.
  - vm_compute. reflexivity.
  - vm_compute. reflexivity.
Defined.

(** A decode that succeeds has passed every test. *)
Lemma decode_ok_inv w a wl out c :
  alrios_certificate_decode (At a w) wl out = Ok (CERT_OK, Some c) ->
  c = cert_of_wire w /\ wire_accepted w wl.
Proof.
  unfold alrios_certificate_decode. split_if; [done|]. split_if; [by intros [=]|].
  pose proof (decode_fields_proper w wl) as Hp.
  destruct (decode_fields w wl) as [d|e|] eqn:E; [| |done].
  - intros [= <-]. by apply decode_accepted.
  - intros [= He _]. by destruct (Hp e eq_refl).
Qed.

(** C11: the wire format is canonical. Whatever octets the decoder accepts, the
    certificate it returns is well typed and valid, and re-encoding it
    reproduces these octets. *)
Theorem certificate_canonical w a wl out c a' out' cap :
  bytes_ok w ->
  alrios_certificate_decode (At a w) wl out = Ok (CERT_OK, Some c) ->
  is_null out' = false -> wl <= cap -> ranges_overlap (At a' c) CERT_SIZEOF out' wl = false ->
  cert_typed c /\ cert_valid c /\ scrub c = c /\
  alrios_certificate_encode (At a' c) out' cap true = (CERT_OK, wl, Some (sub 0 wl w)).
Proof.
  intros Hok Hd Ho Hc Hov. apply decode_ok_inv in Hd as [-> Ha].
  pose proof (cert_of_wire_typed w wl Hok Ha) as Ht.
  destruct (accepted_wire w wl Hok Ha) as [Hs <-].
  pose proof (wa_valid _ _ Ha) as Hv. pose proof (wa_len _ _ Ha) as Hl.
  split_and!; [done..|]. rewrite Hl in *. by apply encode_ok.
Qed.

Lemma certificate_canonical_witness :
  alrios_certificate_encode (At 10000 (scrub sample_cert)) (At 30000 []) 189 true
  = (CERT_OK, 189, Some (sub 0 189 sample_wire)).
Proof.
  apply (certificate_canonical sample_wire 50000 189 (At 90000 zero_cert)).
  - apply bytes_okb_ok. vm_compute. reflexivity.
  - vm_compute. reflexivity.
  - reflexivity.
  - lia.
  - vm_compute. reflexivity.
Defined.

(** [alrios_certificate_decode] never reads outside a wire buffer that holds
    [wire_len] bytes, and on any error leaves the zero certificate behind a
    non-null output pointer. *)
Theorem certificate_decode_safe wire wire_len out :
  (forall a w, wire = At a w -> bytes_ok w /\ wire_len <= len w) ->
  exists status c, alrios_certificate_decode wire wire_len out = Ok (status, c) /\
    (status <> CERT_OK -> c = if is_null out then None else Some zero_cert).
Proof.
  intros Hw. unfold alrios_certificate_decode. destruct (is_null out); [by eauto|].
  destruct wire as [|a w]; [by eauto|]. destruct (Hw a w eq_refl) as [Hok Hl].
  split_if; [by eauto|].
  pose proof (decode_fields_no_fault w wire_len Hok Hl).
  destruct (decode_fields w wire_len); [|by eauto|done].
  eexists _, _. split; [reflexivity|done].
Qed.

(** A wire whose declared length lies. *)
Lemma certificate_decode_safe_witness :
  exists status c,
    alrios_certificate_decode (At 50000 sample_wire) 150 (At 90000 sample_cert) = Ok (status, c) /\
    (status <> CERT_OK -> c = Some zero_cert).
Proof.
  apply (certificate_decode_safe (At 50000 sample_wire) 150 (At 90000 sample_cert)).
  intros a w [= <- <-]. split.
  - apply bytes_okb_ok. vm_compute. reflexivity.
  - vm_compute. discriminate.
Defined.

(** The bytes a successful TBS encode writes, and when it succeeds. *)
Lemma encode_tbs_ok c a out cap :
  cert_typed c -> cert_valid c -> is_null out = false ->
  TBS_DOMAIN_SIZE + HEADER_SIZE_V1 + subject_len c + public_key_len c <= Z.min TBS_MAX cap ->
  ranges_overlap (At a c) CERT_SIZEOF out
    (TBS_DOMAIN_SIZE + HEADER_SIZE_V1 + subject_len c + public_key_len c) = false ->
  alrios_certificate_encode_tbs (At a c) out cap true
  = (CERT_OK, TBS_DOMAIN_SIZE + HEADER_SIZE_V1 + subject_len c + public_key_len c, Some (cert_tbs c)).
Proof.
  intros Ht Hv Ho Hc Hov. destruct (valid_lens c Ht Hv) as (? & ? & ?).
  unfold alrios_certificate_encode_tbs. rewrite Ho. cbn [negb andb].
  rewrite (proj2 (validate_iff c (wire_length c) ltac:(lia)) (conj Hv eq_refl)). cbv zeta.
  rewrite Z.gtb_ltb. replace (TBS_MAX <? _) with false by (symmetry; apply Z.ltb_ge; lia).
  replace (cap <? _) with false by (symmetry; apply Z.ltb_ge; lia). cbn [orb]. by rewrite Hov.
Qed.

Lemma encode_tbs_inv c a out cap wn n t :
  cert_typed c ->
  alrios_certificate_encode_tbs (At a c) out cap wn = (CERT_OK, n, Some t) ->
  cert_valid c /\
  t = tbs_domain ++ encode_header c (wire_length c) ++ sub 0 (subject_len c) (subject c)
      ++ sub 0 (public_key_len c) (public_key c).
Proof.
  intros Ht. unfold alrios_certificate_encode_tbs. destruct (_ && _); [|done].
  destruct (validate_certificate c) as [wl|e|] eqn:E; [|done|done].
  apply validate_iff in E as [Hv ->]; [|by destruct Ht as [_ _ _ _ _ _ _ _ [? _]]].
  cbv zeta. split_if; [done|]. split_if; [done|]. intros E.
  apply triple_inv in E as (_ & _ & <-). by split.
Qed.

(** The to-be-signed octets determine every field the signature has to
    protect: two certificates with the same TBS encoding agree on everything but
    the signature bytes. *)
Theorem tbs_binds_fields c1 c2 a1 a2 o1 o2 k1 k2 n1 n2 t :
  cert_typed c1 -> cert_typed c2 ->
  alrios_certificate_encode_tbs (At a1 c1) o1 k1 true = (CERT_OK, n1, Some t) ->
  alrios_certificate_encode_tbs (At a2 c2) o2 k2 true = (CERT_OK, n2, Some t) ->
  (version c1, role c1, public_key_algorithm c1, signature_algorithm c1)
  = (version c2, role c2, public_key_algorithm c2, signature_algorithm c2) /\
  serial c1 = serial c2 /\ issuer_key_id c1 = issuer_key_id c2 /\
  not_before c1 = not_before c2 /\ not_after c1 = not_after c2 /\
  subject_len c1 = subject_len c2 /\
  sub 0 (subject_len c1) (subject c1) = sub 0 (subject_len c2) (subject c2) /\
  public_key_len c1 = public_key_len c2 /\
  sub 0 (public_key_len c1) (public_key c1) = sub 0 (public_key_len c2) (public_key c2) /\
  signature_len c1 = signature_len c2.
Proof.
  intros T1 T2 E1 E2. apply encode_tbs_inv in E1 as [V1 ->]; [|done].
  apply encode_tbs_inv in E2 as [V2 E]; [|done].
  destruct (valid_lens c1 T1 V1) as (? & ? & ?). destruct (valid_lens c2 T2 V2) as (? & ? & ?).
  apply app_split in E as [_ E]; [|done].
  rewrite !encode_header_fields in E by done. rewrite <- !app_assoc in E.
  destruct T1 as [? ? ? ? [? _] [? _] ? ? ? [? _] ? [? _] ? _].
  destruct T2 as [? ? ? ? [? _] [? _] ? ? ? [? _] ? [? _] ? _].
  apply app_split in E as [_ E]; [|done].
  apply app_split in E as [Ev%store16_inj E]; [|done..].
  apply app_split in E as [[= Er] E]; [|done]. apply app_split in E as [[= Ep] E]; [|done].
  apply app_split in E as [[= Es] E]; [|done]. apply app_split in E as [_ E]; [|done].
  apply app_split in E as [_ E]; [|done].
  unfold u16 in E. rewrite !Z.mod_small in E by lia.
  apply app_split in E as [Esl%store16_inj E]; [|lia || done..].
  apply app_split in E as [Epl%store16_inj E]; [|lia || done..].
  apply app_split in E as [Egl%store16_inj E]; [|lia || done..].
  apply app_split in E as [_ E]; [|done].
  apply app_split in E as [Ese E]; [|congruence]. apply app_split in E as [Ei E]; [|congruence].
  apply app_split in E as [Enb%store64_inj E]; [|done..].
  apply app_split in E as [Ena%store64_inj E]; [|done..].
  apply app_split in E as [Esu Epk]; [|rewrite !len_sub; clia].
  split_and!; congruence.
Qed.

(** Two certificates that differ in the signature only. *)
Lemma tbs_binds_fields_witness :
  sub 0 (subject_len sample_cert) (subject sample_cert)
  = sub 0 (subject_len (scrub sample_cert)) (subject (scrub sample_cert)).
Proof.
  apply (tbs_binds_fields sample_cert (scrub sample_cert) 10000 10000 (At 30000 []) (At 40000 [])
           2074 2074 143 143
           (tbs_domain ++ encode_header sample_cert 189 ++ lit "r" ++ 9 :: zeros 31)).
  - apply sample_typed.
  - constructor; try ((vm_compute; split; [discriminate|reflexivity]) || discriminate);
      split; (apply bytes_okb_ok; vm_compute; reflexivity) || (vm_compute; reflexivity).
  - vm_compute. reflexivity.
  - vm_compute. reflexivity.
Defined.

(** The TBS octets of a valid certificate fit the limit [TBS_MAX] only up to
    1964 octets of subject and key: every Ed25519 certificate can be encoded for
    signing, and no certificate with a hybrid key can, whatever the buffer. *)
Theorem tbs_capacity c a out cap :
  cert_typed c -> cert_valid c -> is_null out = false -> TBS_MAX <= cap ->
  ranges_overlap (At a c) CERT_SIZEOF out
    (TBS_DOMAIN_SIZE + HEADER_SIZE_V1 + subject_len c + public_key_len c) = false ->
  (subject_len c + public_key_len c <= 1964 <->
   exists n t, alrios_certificate_encode_tbs (At a c) out cap true = (CERT_OK, n, Some t)) /\
  (public_key_algorithm c = 1 -> subject_len c + public_key_len c <= 1964) /\
  (public_key_algorithm c = 3 ->
   alrios_certificate_encode_tbs (At a c) out cap true = (ERR_CAPACITY, 0, None)).
Proof.
  intros Ht Hv Ho Hc Hov. destruct (valid_lens c Ht Hv) as (Hs & Hp & ?).
  assert (Hbig : 1964 < subject_len c + public_key_len c ->
    alrios_certificate_encode_tbs (At a c) out cap true = (ERR_CAPACITY, 0, None)).
  { intros Hlt. unfold alrios_certificate_encode_tbs. rewrite Ho. cbn [negb andb].
    rewrite (proj2 (validate_iff c (wire_length c) ltac:(lia)) (conj Hv eq_refl)). cbv zeta.
    rewrite Z.gtb_ltb. replace (TBS_MAX <? _) with true by (symmetry; apply Z.ltb_lt; clia). done. }
  pose proof (va_pka _ Hv) as Ha. split; [|split].
  - split.
    + intros Hle. rewrite encode_tbs_ok by (done || clia). eauto.
    + intros (n & t & E). destruct (Z.le_gt_cases (subject_len c + public_key_len c) 1964); [done|].
      rewrite Hbig in E by lia. discriminate E.
  - intros E. rewrite E in Ha. injection Ha as Ha. clia.
  - intros E. rewrite E in Ha. injection Ha as Ha. apply Hbig. clia.
Qed.

Lemma tbs_capacity_witness :
  alrios_certificate_encode_tbs (At 10000 hybrid_cert) (At 30000 []) 65536 true
  = (ERR_CAPACITY, 0, None).
Proof.
  apply (tbs_capacity hybrid_cert 10000 (At 30000 []) 65536).
  - constructor; try ((vm_compute; split; [discriminate|reflexivity]) || discriminate);
      split; (apply bytes_okb_ok; vm_compute; reflexivity) || (vm_compute; reflexivity).
  - constructor; (vm_compute; reflexivity) || (vm_compute; split; discriminate) ||
      (vm_compute; discriminate).
  - reflexivity.
  - vm_compute. discriminate.
  - vm_compute. reflexivity.
  - reflexivity.
Defined.
