(* ===== verification/TrustStore.v ===== *)
(** The trust store of root anchors and the key identifiers it is searched by
    (src/libraries/pki/certificate.c, from [alrios_certificate_public_key_id] on).

    The abstract specification is a finite map from key identifiers to
    certificates with a sealed flag; [abs] maps the array of slots to it and every
    operation refines its abstract counterpart. *)

From S2P Require Import Prelude Bytes CryptoUtils HashApi Sha512 Certificate.
From stdpp Require Import gmap.
#[local] Open Scope Z_scope.

(** ** State and operations *)

Record trust_store := mk_store {
  anchors : list certificate;
  anchor_count : Z;
  sealed : Z;
}.

Definition empty_store : trust_store := mk_store (replicate 8 zero_cert) 0 0.

(** The status of an operation and the store it leaves. *)
Definition store_result : Type := Z * option trust_store.

Section Operations.
Context `{api : Sha512Api}.

(** Status and [out_key_id] ([out_present]: is that pointer non-null?). *)
Definition alrios_certificate_public_key_id (certificate_ : option certificate)
    (out_present : bool) : Z * option bytes :=
  let cleared := if out_present then Some (zeros KEY_ID_SIZE) else None in
  match certificate_ with
  | None => (ERR_INVALID_ARGUMENT, cleared)
  | Some c =>
      if negb out_present then (ERR_INVALID_ARGUMENT, cleared)
      else
        match validate_certificate c with
        | Err status => (status, cleared)
        | Fault => (0, cleared)
        | Ok _ =>
            let algorithm_and_length :=
              public_key_algorithm c :: store_u16_be (u16 (public_key_len c)) in
            match sha512_parts [key_id_domain; algorithm_and_length;
                                sub 0 (public_key_len c) (public_key c)] with
            | None => (ERR_FIELD, cleared)
            | Some digest => (CERT_OK, Some (sub 0 KEY_ID_SIZE digest))
            end
        end
  end.

Definition validate_store (store : option trust_store) : Z :=
  match store with
  | None => ERR_INVALID_ARGUMENT
  | Some s => if (anchor_count s >? MAX_ANCHORS) || (sealed s >? 1) then ERR_STATE else CERT_OK
  end.

Definition alrios_trust_store_init (store : option trust_store) : option trust_store :=
  match store with None => None | Some _ => Some empty_store end.

Definition alrios_trust_store_clear (store : option trust_store) : option trust_store :=
  match store with None => None | Some _ => Some empty_store end.

(** Slot [i] of the array. *)
Definition anchor (s : trust_store) (i : nat) : certificate := nth i (anchors s) zero_cert.

(** Scan slots [index, index + n) for a key identifier: the first hit, an error
    of the identifier computation, or nothing. *)
Inductive scan_result :=
  | Hit (index : nat)
  | Failed (status : Z)
  | Miss.

Fixpoint scan_anchors (s : trust_store) (key_id : bytes) (n index : nat) : scan_result :=
  match n with
  | O => Miss
  | S n =>
      match alrios_certificate_public_key_id (Some (anchor s index)) true with
      | (status, out) =>
          if negb (status =? CERT_OK) then Failed status
          else if alrios_constant_time_memcmp out (Some key_id) KEY_ID_SIZE =? 0 then Hit index
          else scan_anchors s key_id n (S index)
      end
  end.

Definition alrios_trust_store_add_anchor (store : option trust_store)
    (certificate_ : option certificate) : store_result :=
  let status := validate_store store in
  match store, certificate_ with
  | Some s, Some c =>
      if negb (status =? CERT_OK) then (status, store)
      else if negb (sealed s =? 0) then (ERR_SEALED, store)
      else if negb (role c =? ROLE_ROOT) then (ERR_FIELD, store)
      else
        match validate_certificate c with
        | Err status => (status, store)
        | Fault => (0, store)
        | Ok _ =>
            if anchor_count s >=? MAX_ANCHORS then (ERR_CAPACITY, store)
            else
              match alrios_certificate_public_key_id certificate_ true with
              | (status, out) =>
                  if negb (status =? CERT_OK) then (status, store)
                  else
                    match out with
                    | None => (status, store)
                    | Some new_key_id =>
                        match scan_anchors s new_key_id (Z.to_nat (anchor_count s)) 0 with
                        | Failed status => (status, store)
                        | Hit _ => (ERR_DUPLICATE, store)
                        | Miss =>
                            (CERT_OK,
                             Some (mk_store (<[Z.to_nat (anchor_count s) := c]> (anchors s))
                                     (anchor_count s + 1) (sealed s)))
                        end
                    end
              end
        end
  | _, _ => (if negb (status =? CERT_OK) then status else ERR_INVALID_ARGUMENT, store)
  end.

(** The validation loop of [seal] over slots [index, index + n). *)
Fixpoint seal_loop (s : trust_store) (n index : nat) : Z :=
  match n with
  | O => CERT_OK
  | S n =>
      if negb (role (anchor s index) =? ROLE_ROOT) then ERR_STATE
      else
        match validate_certificate (anchor s index) with
        | Err status => status
        | Fault => 0
        | Ok _ => seal_loop s n (S index)
        end
  end.

Definition alrios_trust_store_seal (store : option trust_store) : store_result :=
  let status := validate_store store in
  match store with
  | None => (status, store)
  | Some s =>
      if negb (status =? CERT_OK) then (status, store)
      else if anchor_count s =? 0 then (ERR_FIELD, store)
      else
        let status := seal_loop s (Z.to_nat (anchor_count s)) 0 in
        if negb (status =? CERT_OK) then (status, store)
        else (CERT_OK, Some (mk_store (anchors s) (anchor_count s) 1))
  end.

(** Status and the certificate [*out_certificate] points to. *)
Definition alrios_trust_store_lookup (store : option trust_store) (key_id : option bytes)
    (out_present : bool) : Z * option certificate :=
  match store, key_id with
  | Some s, Some key =>
      if negb out_present then (ERR_INVALID_ARGUMENT, None)
      else
        let status := validate_store store in
        if negb (status =? CERT_OK) then (status, None)
        else if sealed s =? 0 then (ERR_SEALED, None)
        else
          match scan_anchors s key (Z.to_nat (anchor_count s)) 0 with
          | Failed status => (status, None)
          | Hit index => (CERT_OK, Some (anchor s index))
          | Miss => (ERR_NOT_FOUND, None)
          end
  | _, _ => (ERR_INVALID_ARGUMENT, None)
  end.

(** The calls that change a store; [init] and [clear] return nothing, here [CERT_OK]. *)
Inductive store_op :=
  | OpInit
  | OpClear
  | OpAdd (c : option certificate)
  | OpSeal.

Definition run_op (s : option trust_store) (op : store_op) : store_result :=
  match op with
  | OpInit => (CERT_OK, alrios_trust_store_init s)
  | OpClear => (CERT_OK, alrios_trust_store_clear s)
  | OpAdd c => alrios_trust_store_add_anchor s c
  | OpSeal => alrios_trust_store_seal s
  end.

Definition resets (op : store_op) : bool :=
  match op with OpInit | OpClear => true | _ => false end.

(** The stores any sequence of calls leads to, from one that was initialised. *)
Inductive reachable : trust_store -> Prop :=
  | reach_init : reachable empty_store
  | reach_step s op status s' :
      reachable s ->
      (forall c, op = OpAdd (Some c) -> cert_typed c) ->
      run_op (Some s) op = (status, Some s') -> reachable s'.
End Operations.

(** ** Abstract specification *)

Section Spec.
Context (H : bytes -> bytes).

Definition key_id_of (c : certificate) : bytes :=
  sub 0 KEY_ID_SIZE
    (H (key_id_domain ++ (public_key_algorithm c :: store_u16_be (u16 (public_key_len c)))
        ++ sub 0 (public_key_len c) (public_key c))).

(** The anchors in use, in insertion order. *)
Definition live (s : trust_store) : list certificate := take (Z.to_nat (anchor_count s)) (anchors s).

Definition abs (s : trust_store) : gmap bytes certificate :=
  list_to_map ((fun c => (key_id_of c, c)) <$> live s).

(** An anchor the store may hold. *)
Definition anchor_ok (c : certificate) : Prop :=
  cert_typed c /\ cert_valid c /\ role c = ROLE_ROOT.

Record store_wf (s : trust_store) : Prop := {
  wf_slots : length (anchors s) = 8%nat;
  wf_count : 0 <= anchor_count s <= MAX_ANCHORS;
  wf_sealed : sealed s = 0 \/ sealed s = 1;
  wf_live : Forall anchor_ok (live s);
  wf_distinct : NoDup (key_id_of <$> live s);
}.

(** Adding to the abstract store: the status, and the new map on success. *)
Definition spec_add (m : gmap bytes certificate) (is_sealed : bool) (c : certificate)
    : Z * gmap bytes certificate :=
  if is_sealed then (ERR_SEALED, m)
  else if negb (role c =? ROLE_ROOT) then (ERR_FIELD, m)
  else
    match validate_certificate c with
    | Ok _ =>
        if decide (8 <= size m)%nat then (ERR_CAPACITY, m)
        else
          match m !! key_id_of c with
          | Some _ => (ERR_DUPLICATE, m)
          | None => (CERT_OK, <[key_id_of c := c]> m)
          end
    | Err status => (status, m)
    | Fault => (0, m)
    end.
End Spec.

(** ** Lemmas *)

Section Proofs.
Context `{laws : Sha512Laws}.

#[local] Abbreviation key_id := (key_id_of H).
#[local] Abbreviation wf := (store_wf H).

Lemma key_id_len c : len (key_id c) = 32.
Proof. unfold key_id_of, KEY_ID_SIZE. rewrite len_sub; rewrite ?sha_digest_len; lia. Qed.

Lemma key_id_bytes c : bytes_ok (key_id c).
Proof. apply bytes_ok_sub, sha_digest_ok. Qed.

(** On a valid certificate the identifier is the truncated hash of its domain,
    algorithm, length and key. *)
Lemma public_key_id_ok c :
  cert_typed c -> cert_valid c ->
  alrios_certificate_public_key_id (Some c) true = (CERT_OK, Some (key_id c)).
Proof.
  intros Ht Hv. destruct (valid_lens c Ht Hv) as (? & ? & ?).
  unfold alrios_certificate_public_key_id. cbn [negb].
  rewrite (proj2 (validate_iff c (wire_length c) ltac:(lia)) (conj Hv eq_refl)).
  assert (Hl : len (sub 0 (public_key_len c) (public_key c)) = public_key_len c).
  { destruct Ht as [_ _ _ _ _ _ _ _ _ _ _ [Hk _] _ _]. apply len_sub; clia. }
  rewrite (sha512_parts_ok (H := H)).
  - cbn [concat]. by rewrite app_nil_r.
  - repeat (apply List.Forall_cons || apply List.Forall_nil).
    + done.
    + rewrite len_cons, len_store_u16. lia.
    + rewrite Hl. lia.
  - cbn [concat]. rewrite !len_app, Hl, len_cons, len_store_u16, len_nil.
    change (len key_id_domain) with 16. unfold SHA_MAX. lia.
Qed.

Lemma anchor_live s i :
  wf s -> (i < Z.to_nat (anchor_count s))%nat -> live s !! i = Some (anchor s i).
Proof.
  intros [Hs Hc _ _ _] Hi. unfold live, anchor, MAX_ANCHORS in *.
  rewrite lookup_take_lt by done. 
  destruct (anchors s !! i) eqn:E; [by erewrite nth_lookup, E|].
  apply lookup_ge_None in E. lia.
Qed.

Lemma length_live s : wf s -> length (live s) = Z.to_nat (anchor_count s).
Proof.
  intros [Hs Hc _ _ _]. unfold live, MAX_ANCHORS in *. rewrite length_take. lia.
Qed.

Lemma anchor_is_ok s i : wf s -> (i < Z.to_nat (anchor_count s))%nat -> anchor_ok (anchor s i).
Proof.
  intros Hw Hi. pose proof (anchor_live s i Hw Hi) as Hl.
  eapply Forall_lookup_1; [apply (wf_live _ _ Hw)|done].
Qed.

(** The scan finds the slot with the given identifier, and only that. *)
Lemma scan_spec s key n index :
  (forall i, (index <= i < index + n)%nat -> anchor_ok (anchor s i)) ->
  bytes_ok key -> len key = 32 ->
  match scan_anchors s key n index with
  | Hit i => (index <= i < index + n)%nat /\ key_id (anchor s i) = key
  | Miss => forall i, (index <= i < index + n)%nat -> key_id (anchor s i) <> key
  | Failed _ => False
  end.
Proof.
  intros Hok Hb Hl. revert index Hok. induction n as [|n IH]; intros index Hok; cbn [scan_anchors].
  - lia.
  - destruct (Hok index ltac:(lia)) as (Ht & Hv & _). rewrite public_key_id_ok by done.
    rewrite Z.eqb_refl. cbn [negb].
    rewrite constant_time_memcmp_full by (auto using key_id_bytes, key_id_len).
    destruct (bytes_eqb _ _) eqn:E.
    + apply bytes_eqb_eq in E. cbn [Z.eqb]. split; [lia|done].
    + apply bytes_eqb_neq in E. cbn [Z.eqb]. specialize (IH (S index)).
      destruct (scan_anchors _ _ _ _) as [i|e|].
      * destruct IH as [? ?]; [intros; apply Hok; lia|]. split; [lia|done].
      * apply IH. intros; apply Hok; lia.
      * intros i Hi. destruct (decide (i = index)) as [->|]; [done|].
        apply IH; [intros; apply Hok; lia|lia].
Qed.

Lemma scan_live s key :
  wf s -> bytes_ok key -> len key = 32 ->
  match scan_anchors s key (Z.to_nat (anchor_count s)) 0 with
  | Hit i => abs H s !! key = Some (anchor s i)
  | Miss => abs H s !! key = None
  | Failed _ => False
  end.
Proof.
  intros Hw Hb Hl. pose proof (scan_spec s key (Z.to_nat (anchor_count s)) 0) as Hs.
  destruct (scan_anchors _ _ _ _) as [i|e|].
  - destruct Hs as [Hi He]; [intros; apply anchor_is_ok; [done|lia]|done|done|].
    apply elem_of_list_to_map.
    + rewrite <- list_fmap_compose. exact (wf_distinct _ _ Hw).
    + apply list_elem_of_fmap. exists (anchor s i). rewrite He. split; [done|].
      apply list_elem_of_lookup. exists i. apply anchor_live; [done|lia].
  - apply Hs; [intros; apply anchor_is_ok; [done|lia]|done|done].
  - apply not_elem_of_list_to_map. rewrite <- list_fmap_compose.
    intros (c & Hc & Hin)%list_elem_of_fmap. apply list_elem_of_lookup in Hin as [i Hi].
    pose proof (lookup_lt_Some _ _ _ Hi) as Hlt. rewrite length_live in Hlt by done.
    rewrite anchor_live in Hi by done. injection Hi as <-.
    apply (Hs ltac:(intros; apply anchor_is_ok; [done|lia]) Hb Hl i ltac:(lia)).
    symmetry. exact Hc.
Qed.

Lemma size_abs s : wf s -> size (abs H s) = Z.to_nat (anchor_count s).
Proof.
  intros Hw. unfold abs. rewrite map_size_list_to_map.
  - by rewrite length_fmap, length_live.
  - rewrite <- list_fmap_compose. exact (wf_distinct _ _ Hw).
Qed.

Lemma validate_store_wf s : wf s -> validate_store (Some s) = CERT_OK.
Proof.
  intros [_ Hc Hs _ _]. unfold validate_store.
  replace (anchor_count s >? MAX_ANCHORS) with false by (symmetry; rewrite Z.gtb_ltb; apply Z.ltb_ge; lia).
  by destruct Hs as [-> | ->].
Qed.

(** The slot after the live ones receives the new anchor. *)
Lemma live_add s c :
  wf s -> anchor_count s < 8 ->
  live (mk_store (<[Z.to_nat (anchor_count s) := c]> (anchors s)) (anchor_count s + 1) (sealed s))
  = live s ++ [c].
Proof.
  intros [Hs Hc _ _ _] Hlt. unfold live. cbn [anchors anchor_count].
  rewrite Z2Nat.inj_add by lia. rewrite Nat.add_1_r.
  rewrite (take_S_r _ _ c) by (apply list_lookup_insert_eq; lia).
  by rewrite take_insert_ge by lia.
Qed.

Lemma wf_add s c :
  wf s -> anchor_ok c -> anchor_count s < 8 -> abs H s !! key_id c = None ->
  wf (mk_store (<[Z.to_nat (anchor_count s) := c]> (anchors s)) (anchor_count s + 1) (sealed s)).
Proof.
  intros Hw Hc Hlt Hnone. pose proof (live_add s c Hw Hlt) as Hl.
  constructor; cbn [anchors anchor_count sealed]; rewrite ?Hl.
  - rewrite length_insert. apply Hw.
  - destruct Hw as [_ ? _ _ _]. unfold MAX_ANCHORS in *. lia.
  - apply Hw.
  - apply Forall_app. split; [apply Hw|]. by apply Forall_singleton.
  - rewrite fmap_app. apply NoDup_app. split_and!; [apply Hw| |apply NoDup_singleton].
    intros x Hx ->%list_elem_of_singleton. apply not_elem_of_list_to_map in Hnone.
    rewrite <- list_fmap_compose in Hnone. done.
Qed.

Lemma abs_add s c :
  wf s -> anchor_count s < 8 -> abs H s !! key_id c = None ->
  abs H (mk_store (<[Z.to_nat (anchor_count s) := c]> (anchors s)) (anchor_count s + 1) (sealed s))
  = <[key_id c := c]> (abs H s).
Proof.
  intros Hw Hlt Hnone. unfold abs at 1. rewrite live_add by done.
  rewrite fmap_app, list_to_map_app. cbn [fmap list_fmap list_to_map foldr].
  fold (abs H s). apply map_eq. intros k.
  destruct (decide (k = key_id c)) as [->|Hk].
  - rewrite lookup_insert_eq, lookup_union_r by done. cbn. apply lookup_insert_eq.
  - rewrite lookup_insert_ne by done. rewrite lookup_union_l; [done|].
    cbn. by rewrite lookup_insert_ne.
Qed.

(** Adding an anchor, against the abstract store. *)
Lemma add_refines s c :
  wf s -> cert_typed c ->
  exists s', alrios_trust_store_add_anchor (Some s) (Some c)
             = (fst (spec_add H (abs H s) (negb (sealed s =? 0)) c), Some s') /\
    wf s' /\ abs H s' = snd (spec_add H (abs H s) (negb (sealed s =? 0)) c) /\
    sealed s' = sealed s /\
    (fst (spec_add H (abs H s) (negb (sealed s =? 0)) c) <> CERT_OK -> s' = s).
Proof.
  intros Hw Ht. unfold alrios_trust_store_add_anchor, spec_add.
  rewrite validate_store_wf by done. cbn [negb Z.eqb].
  destruct (negb (sealed s =? 0)) eqn:Es; [by exists s|].
  destruct (negb (role c =? ROLE_ROOT)) eqn:Er; [by exists s|].
  destruct (validate_certificate c) as [wl|e|] eqn:Ev; [|by exists s|by exists s].
  apply validate_iff in Ev as [Hv _]; [|by destruct Ht as [_ _ _ _ _ _ _ _ [? _]]].
  pose proof (wf_count _ _ Hw) as Hc. rewrite size_abs by done.
  destruct (anchor_count s >=? MAX_ANCHORS) eqn:Ec; bool_hyps.
  all: unfold MAX_ANCHORS in *.
  { rewrite decide_True by lia. by exists s. }
  rewrite decide_False by lia. rewrite public_key_id_ok by done. cbn [negb Z.eqb CERT_OK].
  change (CERT_OK =? CERT_OK) with true. cbn [negb].
  pose proof (scan_live s (key_id c) Hw (key_id_bytes c) (key_id_len c)) as Hs.
  destruct (scan_anchors _ _ _ _) as [i|e|]; [rewrite Hs; by exists s|done|].
  rewrite Hs. eexists. split; [reflexivity|].
  assert (anchor_ok c) by done.
  split_and!; [by apply wf_add|by apply abs_add|done|done].
Qed.

(** Sealing a well-formed store checks what the invariant already guarantees. *)
Lemma seal_loop_ok s n index :
  (forall i, (index <= i < index + n)%nat -> anchor_ok (anchor s i)) -> seal_loop s n index = CERT_OK.
Proof.
  revert index. induction n as [|n IH]; intros index Hok; [done|]. cbn [seal_loop].
  destruct (Hok index ltac:(lia)) as (Ht & Hv & ->). rewrite Z.eqb_refl. cbn [negb].
  destruct (valid_lens _ Ht Hv) as (? & _).
  rewrite (proj2 (validate_iff (anchor s index) (wire_length (anchor s index)) ltac:(lia)) (conj Hv eq_refl)).
  apply IH. intros; apply Hok; lia.
Qed.

Lemma seal_spec s :
  wf s ->
  alrios_trust_store_seal (Some s)
  = if anchor_count s =? 0 then (ERR_FIELD, Some s)
    else (CERT_OK, Some (mk_store (anchors s) (anchor_count s) 1)).
Proof.
  intros Hw. unfold alrios_trust_store_seal. rewrite validate_store_wf by done. cbn [negb Z.eqb].
  change (CERT_OK =? CERT_OK) with true. cbn [negb].
  destruct (anchor_count s =? 0); [done|].
  rewrite seal_loop_ok; [done|]. intros. apply anchor_is_ok; [done|lia].
Qed.

Lemma wf_seal s : wf s -> wf (mk_store (anchors s) (anchor_count s) 1).
Proof. intros []. constructor; auto. Qed.

Lemma wf_empty : wf empty_store.
Proof.
  constructor; [done|cbn; unfold MAX_ANCHORS; lia|by left|apply Forall_nil_2|apply NoDup_nil_2].
Qed.

Lemma run_op_wf s op status s' :
  wf s -> (forall c, op = OpAdd (Some c) -> cert_typed c) ->
  run_op (Some s) op = (status, Some s') ->
  wf s' /\ (sealed s = 1 -> s' = if resets op then empty_store else s).
Proof.
  intros Hw Ht Hr. destruct op as [| |[c|]|]; cbn [run_op] in Hr;
    [by injection Hr as _ <-; split; [apply wf_empty|]..| | |].
  - destruct (add_refines s c Hw (Ht c eq_refl)) as (s1 & E & Hw1 & _ & _ & Hfail).
    rewrite E in Hr. injection Hr as _ <-. split; [done|]. intros Hs. apply Hfail.
    unfold spec_add. by rewrite Hs.
  - unfold alrios_trust_store_add_anchor in Hr. injection Hr as _ <-. done.
  - rewrite seal_spec in Hr by done. destruct (anchor_count s =? 0); injection Hr as _ <-; [done|].
    split; [by apply wf_seal|]. intros Hs. destruct s; cbn in *. by subst.
Qed.

(** Lookup, against the map. *)
Lemma lookup_spec s key :
  wf s -> bytes_ok key -> len key = KEY_ID_SIZE ->
  alrios_trust_store_lookup (Some s) (Some key) true
  = if sealed s =? 0 then (ERR_SEALED, None)
    else match abs H s !! key with
         | Some c => (CERT_OK, Some c)
         | None => (ERR_NOT_FOUND, None)
         end.
Proof.
  intros Hw Hb Hl. unfold alrios_trust_store_lookup.
  rewrite validate_store_wf by done. cbn [negb].
  change (CERT_OK =? CERT_OK) with true. cbn [negb].
  destruct (sealed s =? 0); [done|].
  pose proof (scan_live s key Hw Hb Hl) as Hs.
  by destruct (scan_anchors _ _ _ _) as [i|e|]; [rewrite Hs|destruct Hs|rewrite Hs].
Qed.

(** ** Properties *)

(** C12: [alrios_trust_store_add_anchor] refines insertion into a finite map of
    at most eight anchors: same status on every branch (sealed, wrong role,
    invalid certificate, full, duplicate key, success), the map updated exactly on
    success, the store untouched otherwise, the invariant preserved. *)
Theorem add_anchor_refines_map s c :
  wf s -> cert_typed c ->
  let spec := spec_add H (abs H s) (negb (sealed s =? 0)) c in
  exists s', alrios_trust_store_add_anchor (Some s) (Some c) = (fst spec, Some s') /\
    wf s' /\ abs H s' = snd spec /\ sealed s' = sealed s /\ (fst spec <> CERT_OK -> s' = s).
Proof. intros. cbv zeta. by apply add_refines. Qed.

(** Lookup in a sealed store is lookup in the map (an unsealed one refuses
    to answer). *)
Theorem lookup_refines_map s key :
  wf s -> bytes_ok key -> len key = KEY_ID_SIZE ->
  alrios_trust_store_lookup (Some s) (Some key) true
  = if sealed s =? 0 then (ERR_SEALED, None)
    else match abs H s !! key with
         | Some c => (CERT_OK, Some c)
         | None => (ERR_NOT_FOUND, None)
         end.
Proof. apply lookup_spec. Qed.

(** C40: Every store that calls of init, clear, add and seal lead to, in any order, holds at
    most eight valid roots with pairwise distinct key identifiers. Once it is sealed,
    adding and sealing leave it as it is, and init and clear empty it: no call gives a
    sealed store another set of anchors. *)
Theorem reachable_store_safe s :
  reachable s ->
  wf s /\
  (sealed s = 1 -> forall op status s',
     (forall c, op = OpAdd (Some c) -> cert_typed c) ->
     run_op (Some s) op = (status, Some s') ->
     s' = s \/ (op = OpInit \/ op = OpClear) /\ s' = empty_store).
Proof.
  intros Hr. assert (Hw : wf s).
  { induction Hr as [|s op status s' _ IH Ht Ho]; [apply wf_empty|].
    by destruct (run_op_wf _ _ _ _ IH Ht Ho). }
  split; [done|]. intros Hs op status s' Ht Ho.
  destruct (run_op_wf _ _ _ _ Hw Ht Ho) as [_ ->]; [|done]. destruct op; cbn [resets]; auto.
Qed.
End Proofs.

(** ** Witnesses, over the engine of Sha512.v *)

Definition one_store : trust_store :=
  mk_store (<[0%nat := sample_cert]> (anchors empty_store)) 1 1.

Lemma sample_ok : anchor_ok sample_cert.
Proof.
  split_and!; [apply sample_typed| |done].
  apply (validate_iff sample_cert 189); [discriminate|]. vm_compute. reflexivity.
Qed.

Lemma one_store_wf : store_wf sha512_spec one_store.
Proof.
  constructor; [done|cbn; unfold MAX_ANCHORS; lia|by right|..].
  - apply Forall_singleton, sample_ok.
  - apply NoDup_singleton.
Qed.

(** The first anchor of an empty store is accepted. *)
Lemma empty_add_spec :
  spec_add sha512_spec (abs sha512_spec empty_store) (negb (sealed empty_store =? 0)) sample_cert
  = (CERT_OK, <[key_id_of sha512_spec sample_cert := sample_cert]> ∅).
Proof.
  assert (Ha : abs sha512_spec empty_store = ∅) by reflexivity.
  assert (Hv : validate_certificate sample_cert = Ok 189) by (vm_compute; reflexivity).
  unfold spec_add. rewrite Ha, Hv, map_size_empty, lookup_empty. reflexivity.
Qed.

Lemma add_anchor_refines_map_witness :
  exists s', alrios_trust_store_add_anchor (Some empty_store) (Some sample_cert) = (CERT_OK, Some s').
Proof.
  pose proof (add_anchor_refines_map (H := sha512_spec) empty_store sample_cert
                wf_empty sample_typed) as Hadd.
  cbv zeta in Hadd. rewrite empty_add_spec in Hadd. destruct Hadd as (s' & E & _).
  exists s'. exact E.
Defined.

Lemma lookup_refines_map_witness :
  alrios_trust_store_lookup (Some one_store) (Some (zeros 32)) true
  = if sealed one_store =? 0 then (ERR_SEALED, None)
    else match abs sha512_spec one_store !! zeros 32 with
         | Some c => (CERT_OK, Some c)
         | None => (ERR_NOT_FOUND, None)
         end.
Proof.
  apply (lookup_refines_map (H := sha512_spec) one_store (zeros 32)).
  - apply one_store_wf.
  - apply bytes_ok_zeros.
  - reflexivity.
Defined.

(** The store with one sealed anchor is reached by adding and sealing. *)
Lemma one_store_reachable : reachable one_store.
Proof.
  assert (H1 : reachable (mk_store (<[0%nat := sample_cert]> (anchors empty_store)) 1 0)).
  { apply (reach_step empty_store (OpAdd (Some sample_cert)) CERT_OK); [constructor| |].
    - intros c [= <-]. apply sample_typed.
    - vm_compute. reflexivity. }
  apply (reach_step _ OpSeal CERT_OK _ H1); [done|]. vm_compute. reflexivity.
Qed.

(** It does not take the same root once more. *)
Lemma reachable_store_safe_witness :
  store_wf sha512_spec one_store /\
  forall status s', alrios_trust_store_add_anchor (Some one_store) (Some sample_cert) = (status, Some s') -> s' = one_store.
Proof.
  destruct (reachable_store_safe (H := sha512_spec) one_store one_store_reachable) as [Hw Hs].
  split; [exact Hw|]. intros status s' E.
  destruct (Hs eq_refl (OpAdd (Some sample_cert)) status s') as [->|[[?|?] _]]; [|exact E|reflexivity|discriminate|discriminate].
  intros c [= <-]. apply sample_typed.
Defined.
