(* ===== verification/Posix.v ===== *)
(** The world of the components that keep their state in a file: the file's
    octets, the advisory lock, and a script of what the environment answers.

    Every call of the C library that can fail, be interrupted, transfer less than
    was asked, or be the last one before the process dies takes the next event of
    the script; a script that ends is a process that dies there. A property that
    holds for every script therefore holds for every combination of short
    transfers, EINTR, errors and crashes. [wp] is the crash-aware weakest
    precondition the components are verified with. *)

From S2P Require Import Prelude.

(** ** Worlds and computations *)

(** The environment's answer: go ahead (a transfer moves at most [n] bytes),
    EINTR, or any other error. *)
Inductive event := Go (n : Z) | Intr | Deny.

Record world := mk_world {
  file : bytes;
  lock : Z;
  script : list event;
}.

(** How a computation ends. [OutOfFuel] marks a loop whose bound was too small:
    no operation of the development reaches it. *)
Inductive out (A : Type) : Type :=
  | Ret (a : A)
  | Crash
  | OutOfFuel.
Arguments Ret {A} _.
Arguments Crash {A}.
Arguments OutOfFuel {A}.

Definition io (A : Type) : Type := world -> out A * world.

Definition ret {A} (a : A) : io A := fun w => (Ret a, w).

Definition bind {A B} (m : io A) (k : A -> io B) : io B :=
  fun w =>
    match m w with
    | (Ret a, w') => k a w'
    | (Crash, w') => (Crash, w')
    | (OutOfFuel, w') => (OutOfFuel, w')
    end.

Declare Scope io_scope.
Delimit Scope io_scope with io.
Notation "'let*' x ':=' m 'in' k" := (bind m (fun x => k))
  (at level 10, x pattern, m at level 100, k at level 200) : io_scope.
#[global] Open Scope io_scope.

(** [while (...) body]: [inl] continues with a new state, [inr] leaves. *)
Fixpoint loop {S R} (fuel : nat) (body : S -> io (S + R)) (s : S) : io R :=
  match fuel with
  | O => fun w => (OutOfFuel, w)
  | Datatypes.S fuel =>
      let* r := body s in
      match r with
      | inl s' => loop fuel body s'
      | inr r => ret r
      end
  end.

(** A loop every iteration of which takes an event runs within the script. *)
Definition io_loop {S R} (body : S -> io (S + R)) (s : S) : io R :=
  fun w => loop (Datatypes.S (length (script w))) body s w.

(** ** Calls of the C library *)

(** The result of a call: a value, -1 with EINTR, or -1 with another errno. *)
Inductive sysres (A : Type) : Type :=
  | Res (a : A)
  | SysIntr
  | SysFail.
Arguments Res {A} _.
Arguments SysIntr {A}.
Arguments SysFail {A}.

Definition next_event : io event :=
  fun w =>
    match script w with
    | [] => (Crash, w)
    | ev :: rest => (Ret ev, mk_world (file w) (lock w) rest)
    end.

Definition with_file (f : bytes -> bytes) (w : world) : world :=
  mk_world (f (file w)) (lock w) (script w).

Definition get_file : io bytes := fun w => (Ret (file w), w).

Definition set_file (f : bytes -> bytes) : io unit := fun w => (Ret tt, with_file f w).

Definition set_lock (l : Z) : io unit :=
  fun w => (Ret tt, mk_world (file w) l (script w)).

(** A call without a result other than success. *)
Definition sys_unit (effect : io unit) : io (sysres unit) :=
  let* ev := next_event in
  match ev with
  | Go _ => let* _ := effect in ret (Res tt)
  | Intr => ret SysIntr
  | Deny => ret SysFail
  end.

(** [malloc], an EVP call, [fstat]: succeeds or not. *)
Definition sys_ok : io bool :=
  let* ev := next_event in
  ret (match ev with Go _ => true | _ => false end).

(** [a() == 1 && b() == 1 && ...] over [n] calls of the library. *)
Fixpoint all_calls (n : nat) : io bool :=
  match n with
  | O => ret true
  | S n =>
      let* ok := sys_ok in
      if ok then all_calls n else ret false
  end.

(** [pread(fd, buffer, request, offset)]: at most [request] bytes from [offset]
    on, none past the end of the file. *)
Definition pread (request offset : Z) : io (sysres bytes) :=
  let* ev := next_event in
  match ev with
  | Go n => let* f := get_file in ret (Res (sub offset (Z.min n request) f))
  | Intr => ret SysIntr
  | Deny => ret SysFail
  end.

(** The file after [data] is stored at [offset]; a gap is filled with zeros. *)
Definition splice (offset : Z) (data f : bytes) : bytes :=
  sub 0 offset (f ++ zeros (offset - len f)) ++ data ++ drop (Z.to_nat (offset + len data)) f.

(** [pwrite(fd, data, request, offset)]: a prefix of [data] is stored. *)
Definition pwrite (data : bytes) (request offset : Z) : io (sysres Z) :=
  let* ev := next_event in
  match ev with
  | Go n =>
      let part := sub 0 (Z.min n request) data in
      let* _ := set_file (fun f => if len part =? 0 then f else splice offset part f) in
      ret (Res (len part))
  | Intr => ret SysIntr
  | Deny => ret SysFail
  end.

Definition fsync : io (sysres unit) := sys_unit (ret tt).

Definition ftruncate (length : Z) : io (sysres unit) :=
  sys_unit (set_file (fun f => sub 0 length (f ++ zeros (length - len f)))).

(** [fcntl(fd, F_SETLKW / F_SETLK, &lock)] with [l_type = type]. *)
Definition fcntl_lock (type : Z) : io (sysres unit) := sys_unit (set_lock type).

Definition F_RDLCK : Z := 0.

Definition F_WRLCK : Z := 1.

Definition F_UNLCK : Z := 2.

Definition O_RDONLY : Z := 0.

Definition O_WRONLY : Z := 1.

Definition O_RDWR : Z := 2.

(** A descriptor: its number and the access mode it was opened with. *)
Record descriptor := mk_fd { fd_number : Z; access_mode : Z }.

(** ** Crash-aware weakest preconditions *)

(** [m] run from [w] ends with a result and a world in [Q], or dies and leaves a
    file in [C]; it never exhausts a loop's fuel. *)
Definition wp {A} (m : io A) (C : bytes -> Prop) (Q : A -> world -> Prop) (w : world) : Prop :=
  match m w with
  | (Ret a, w') => Q a w'
  | (Crash, w') => C (file w')
  | (OutOfFuel, _) => False
  end.

Section Rules.
Context (C : bytes -> Prop).

Lemma wp_ret {A} (a : A) Q w : Q a w -> wp (ret a) C Q w.
Proof. done. Qed.

Lemma wp_bind {A B} (m : io A) (k : A -> io B) Q w :
  wp m C (fun a w' => wp (k a) C Q w') w -> wp (bind m k) C Q w.
Proof. unfold wp, bind. by destruct (m w) as [[a| |] w']. Qed.

Lemma wp_mono {A} (m : io A) (Q Q' : A -> world -> Prop) w :
  wp m C Q w -> (forall a w', Q a w' -> Q' a w') -> wp m C Q' w.
Proof. unfold wp. intros Hm HQ. destruct (m w) as [[a| |] w']; auto. Qed.

Lemma wp_weaken {A} (m : io A) (C' : bytes -> Prop) Q w :
  wp m C' Q w -> (forall f, C' f -> C f) -> wp m C Q w.
Proof. unfold wp. intros Hm HC. destruct (m w) as [[a| |] w']; auto. Qed.

Lemma wp_next_event Q w :
  (script w = [] -> C (file w)) ->
  (forall ev rest, script w = ev :: rest -> Q ev (mk_world (file w) (lock w) rest)) ->
  wp next_event C Q w.
Proof. unfold wp, next_event. intros Hc HQ. destruct (script w) eqn:E; eauto. Qed.

Lemma wp_and {A} (m : io A) (C' : bytes -> Prop) Q Q' w :
  wp m C' Q' w -> wp m C Q w -> wp m C (fun a w' => Q' a w' /\ Q a w') w.
Proof. unfold wp. by destruct (m w) as [[a| |] w']. Qed.

(** The loop rule: an invariant and a measure. *)
Lemma wp_loop {S R} (body : S -> io (S + R)) (I : S -> world -> Prop)
    (m : S -> world -> nat) (Q : R -> world -> Prop) fuel s w :
  (forall s w, I s w ->
     wp (body s) C (fun r w' => match r with
                                | inl s' => I s' w' /\ (m s' w' < m s w)%nat
                                | inr r => Q r w'
                                end) w) ->
  I s w -> (m s w < fuel)%nat -> wp (loop fuel body s) C Q w.
Proof.
  intros Hb. revert s w. induction fuel as [|fuel IH]; intros s w Hi Hm; [lia|].
  cbn [loop]. apply wp_bind. eapply wp_mono; [by apply Hb|].
  intros [s'|r] w' Hr; [|done]. destruct Hr as [Hi' Hm']. apply IH; [done|lia].
Qed.

Lemma wp_io_loop {S R} (body : S -> io (S + R)) (I : S -> world -> Prop)
    (Q : R -> world -> Prop) s w :
  (forall s w, I s w ->
     wp (body s) C (fun r w' => match r with
                                | inl s' => I s' w' /\ (length (script w') < length (script w))%nat
                                | inr r => Q r w'
                                end) w) ->
  I s w -> wp (io_loop body s) C Q w.
Proof.
  intros Hb Hi. unfold io_loop. unfold wp at 1.
  apply (wp_loop body I (fun _ w => length (script w))); [done|done|lia].
Qed.
End Rules.

(** ** What the calls do *)

(** [w'] is [w] some events later, with the same file. *)
Definition later (w w' : world) : Prop :=
  file w' = file w /\ (length (script w') <= length (script w))%nat.

(** [w'] is [w] at least one event later, with the same file. *)
Definition later1 (w w' : world) : Prop :=
  file w' = file w /\ (length (script w') < length (script w))%nat.

Lemma later_refl w : later w w.
Proof. by split. Qed.

Lemma later_trans w1 w2 w3 : later w1 w2 -> later w2 w3 -> later w1 w3.
Proof. intros [E1 ?] [E2 ?]. split; [congruence|lia]. Qed.

Lemma later1_later w1 w2 : later1 w1 w2 -> later w1 w2.
Proof. intros [? ?]. split; [done|lia]. Qed.

Section Calls.
Context (C : bytes -> Prop).

Lemma wp_event Q w :
  C (file w) -> (forall ev w', later1 w w' -> Q ev w') -> wp next_event C Q w.
Proof.
  intros Hc HQ. apply wp_next_event; [done|]. intros ev rest E. apply HQ.
  split; [done|]. cbn. rewrite E. cbn. lia.
Qed.

Lemma wp_sys_ok Q w : C (file w) -> (forall b w', later1 w w' -> Q b w') -> wp sys_ok C Q w.
Proof. intros Hc HQ. apply wp_bind, wp_event; [done|]. intros. by apply wp_ret, HQ. Qed.

Lemma wp_all_calls n w : C (file w) -> wp (all_calls n) C (fun _ w' => later w w') w.
Proof.
  revert w. induction n as [|n IH]; intros w Hc; cbn [all_calls]; [apply wp_ret, later_refl|].
  apply wp_bind, wp_sys_ok; [done|]. intros b w1 [F1 L1]. destruct b; [|apply wp_ret; split; [done|lia]].
  eapply wp_mono; [apply IH; by rewrite F1|]. intros _ w2 [F2 L2]. split; [congruence|lia].
Qed.

Lemma wp_pread request offset Q w :
  C (file w) ->
  (forall r w', later1 w w' ->
     (forall data, r = Res data -> exists k, k <= request /\ data = sub offset k (file w)) -> Q r w') ->
  wp (pread request offset) C Q w.
Proof.
  intros Hc HQ. apply wp_bind, wp_event; [done|]. intros ev w' Hw. destruct ev as [n| |].
  - apply wp_bind. unfold wp, get_file. apply HQ; [done|]. intros data [= <-].
    exists (Z.min n request). destruct Hw as [-> _]. split; [lia|done].
  - by apply wp_ret, HQ.
  - by apply wp_ret, HQ.
Qed.

(** A write stores a prefix of the data, or nothing and reports an error. *)
Lemma wp_pwrite data request offset Q w :
  C (file w) ->
  (forall r w', (length (script w') < length (script w))%nat ->
     match r with
     | Res k => exists part rest, data = part ++ rest /\ k = len part /\
                  file w' = (if k =? 0 then file w else splice offset part (file w))
     | _ => file w' = file w
     end -> Q r w') ->
  wp (pwrite data request offset) C Q w.
Proof.
  intros Hc HQ. apply wp_bind, wp_event; [done|]. intros ev w' [Hf Hs]. destruct ev as [n| |].
  - cbv zeta. apply wp_bind. unfold wp at 1, set_file. apply wp_ret, HQ; [done|].
    unfold with_file, sub. cbn [file]. rewrite Hf. cbn [Z.to_nat drop].
    eexists _, _. split_and!; [symmetry; apply take_drop|done|done].
  - by apply wp_ret, HQ.
  - by apply wp_ret, HQ.
Qed.

Lemma wp_fsync Q w : C (file w) -> (forall r w', later1 w w' -> Q r w') -> wp fsync C Q w.
Proof.
  intros Hc HQ. apply wp_bind, wp_event; [done|]. intros [n| |] w' Hw.
  - apply wp_bind, wp_ret, wp_ret. by apply HQ.
  - by apply wp_ret, HQ.
  - by apply wp_ret, HQ.
Qed.

Lemma wp_ftruncate n Q w :
  C (file w) ->
  (forall r w', (length (script w') < length (script w))%nat ->
     match r with
     | Res _ => file w' = sub 0 n (file w ++ zeros (n - len (file w)))
     | _ => file w' = file w
     end -> Q r w') ->
  wp (ftruncate n) C Q w.
Proof.
  intros Hc HQ. apply wp_bind, wp_event; [done|]. intros [k| |] w' [Hf Hs].
  - apply wp_bind. unfold wp at 1, set_file. apply wp_ret, HQ; [done|].
    unfold with_file. cbn [file]. by rewrite Hf.
  - by apply wp_ret, HQ.
  - by apply wp_ret, HQ.
Qed.

Lemma wp_fcntl_lock type Q w :
  C (file w) -> (forall r w', later1 w w' -> (r = Res tt -> lock w' = type) -> Q r w') ->
  wp (fcntl_lock type) C Q w.
Proof.
  intros Hc HQ. apply wp_bind, wp_event; [done|]. intros [n| |] w' [Hf Hs].
  - apply wp_bind. unfold wp at 1, set_lock. apply wp_ret, HQ; [by split|done].
  - by apply wp_ret, HQ.
  - by apply wp_ret, HQ.
Qed.
End Calls.

(** Writing at the end of the file appends. *)
Lemma splice_end f data off : off = len f -> splice off data f = f ++ data.
Proof.
  intros ->. unfold splice. rewrite Z.sub_diag. unfold zeros. cbn [Z.to_nat replicate].
  rewrite app_nil_r, sub_full, drop_ge, app_nil_r; [done|]. 
  pose proof (len_nonneg data). unfold len in *. lia.
Qed.

(** Truncation to a prefix. *)
Lemma truncate_prefix f g n : n = len f -> sub 0 n ((f ++ g) ++ zeros (n - len (f ++ g))) = f.
Proof.
  intros ->. pose proof (len_nonneg f). pose proof (len_nonneg g).
  rewrite sub_app_l by (rewrite ?len_app; lia). rewrite sub_app_l by lia. apply sub_full.
Qed.

(** ** Overwriting a file *)

(** [f] with its first [k] octets replaced by those of [new]. *)
Definition overlay (k : Z) (new f : bytes) : bytes := sub 0 k new ++ drop (Z.to_nat k) f.

Lemma overlay_0 new f : overlay 0 new f = f.
Proof. unfold overlay. by rewrite drop_0. Qed.

Lemma overlay_full new f : len f <= len new -> overlay (len new) new f = new.
Proof.
  intros Hl. unfold overlay. rewrite sub_full, drop_ge, app_nil_r; [done|]. unfold len in *. lia.
Qed.

Lemma len_overlay k new f :
  0 <= k <= len new -> len (overlay k new f) = Z.max k (len f).
Proof. intros. unfold overlay. rewrite len_app, len_sub, len_drop by lia. lia. Qed.

(** A write at the end of the part already overlaid. *)
Lemma splice_overlay k new f part rest :
  0 <= k <= len new -> drop (Z.to_nat k) new = part ++ rest ->
  splice k part (overlay k new f) = overlay (k + len part) new f.
Proof.
  intros Hk Hp. unfold splice, overlay. pose proof (len_nonneg part).
  assert (Hks : len (sub 0 k new) = k) by (rewrite len_sub; lia).
  rewrite <- app_assoc, sub_here by done.
  assert (Hps : part = sub k (len part) new).
  { rewrite <- (Z.add_0_r k) at 1. unfold sub at 1. rewrite Z.add_0_r, Hp. unfold len.
    by rewrite Nat2Z.id, take_app_length. }
  rewrite app_assoc. rewrite Hps at 1. rewrite sub_join by lia. f_equal.
  rewrite drop_app_ge by (unfold len in *; lia). rewrite drop_drop. f_equal.
  unfold len in *. lia.
Qed.

(** One turn of a loop that overwrites the file with [new]: some more octets are
    replaced, or none. *)
Lemma wp_pwrite_overlay C new f k request Q w :
  file w = overlay k new f -> 0 <= k <= len new -> C (overlay k new f) ->
  (forall r w', (length (script w') < length (script w))%nat ->
     match r with
     | Res n => 0 <= n /\ k + n <= len new /\ file w' = overlay (k + n) new f
     | _ => file w' = overlay k new f
     end -> Q r w') ->
  wp (pwrite (drop (Z.to_nat k) new) request k) C Q w.
Proof.
  intros F Hk Hc HQ. apply wp_pwrite; [by rewrite F|]. intros r w' L' Hw. apply HQ; [done|].
  destruct r as [n| |]; [|congruence..]. destruct Hw as (part & rest & Hb & -> & Hf). rewrite F in Hf.
  pose proof (len_nonneg part). pose proof (len_nonneg rest).
  assert (Hl : len new - k = len part + len rest) by (apply (f_equal len) in Hb; rewrite len_drop, len_app in Hb; lia).
  split_and!; [done|lia|]. rewrite Hf. destruct (len part =? 0) eqn:E.
  - by replace (k + len part) with k by lia.
  - by apply (splice_overlay k new f part rest).
Qed.

(** One turn of a loop that reads from [off] on: the octets read so far are those of the
    file, and more of them after the call. *)
Lemma wp_pread_prefix C f off n acc Q w :
  file w = f -> C f -> 0 <= off -> acc = sub off (len acc) f -> len acc <= n ->
  (forall r w', later1 w w' ->
     (forall data, r = Res data -> 0 < len data ->
        acc ++ data = sub off (len (acc ++ data)) f /\ len (acc ++ data) <= n /\
        off + len (acc ++ data) <= len f) -> Q r w') ->
  wp (pread (n - len acc) (off + len acc)) C Q w.
Proof.
  intros F Hc Ho Ha Hn HQ. apply wp_pread; [by rewrite F|]. intros r w' Hl Hr. apply HQ; [done|].
  intros data -> Hpos. destruct (Hr data eq_refl) as (k & Hk & Hd). rewrite F in Hd. pose proof (len_nonneg acc).
  assert (Hda : data = sub (off + len acc) (len data) f /\ len data <= k /\ off + len acc + len data <= len f).
  { pose proof (len_sub_le (off + len acc) k f). subst data. unfold sub in *. rewrite len_take, len_drop in *.
    assert (0 < k) by lia. split; [|lia].
    destruct (Z.le_gt_cases k (len f - (off + len acc))).
    - do 2 f_equal. lia.
    - rewrite !take_ge; [done|rewrite length_drop; unfold len in *; lia..]. }
  destruct Hda as (Hda & ? & ?). rewrite len_app. split; [|lia].
  rewrite Ha at 1. rewrite Hda at 1. by rewrite sub_join by lia.
Qed.

(** ** Undisturbed runs *)

(** At least [n] more events, all of them unrestricted successes. *)
Definition smooth (n : nat) (w : world) : Prop :=
  exists k, (n <= k)%nat /\ script w = replicate k (Go SIZE_MAX).

Lemma smooth_le n m w : smooth n w -> (m <= n)%nat -> smooth m w.
Proof. intros (k & ? & ?) ?. exists k. split; [lia|done]. Qed.

(** The calls of an undisturbed run, which cannot die. *)
Section Smooth.
Context {C : bytes -> Prop}.

Lemma smooth_event n Q w :
  smooth (S n) w ->
  (forall w', file w' = file w -> smooth n w' -> Q (Go SIZE_MAX) w') -> wp next_event C Q w.
Proof.
  intros (k & Hk & E) HQ. destruct k as [|k]; [lia|]. apply wp_next_event; rewrite E; [done|].
  intros ev rest [= <- <-]. apply HQ; [done|]. exists k. split; [lia|done].
Qed.

Lemma smooth_sys_ok n Q w :
  smooth (S n) w -> (forall w', file w' = file w -> smooth n w' -> Q true w') -> wp sys_ok C Q w.
Proof. intros Hs HQ. apply wp_bind. eapply smooth_event; [done|]. intros. by apply wp_ret, HQ. Qed.

Lemma smooth_all_calls n m w Q :
  smooth (n + m) w -> (forall w', file w' = file w -> smooth m w' -> Q true w') ->
  wp (all_calls n) C Q w.
Proof.
  revert w. induction n as [|n IH]; intros w Hs HQ; cbn [all_calls].
  - by apply wp_ret, HQ.
  - apply wp_bind. eapply (smooth_sys_ok (n + m)); [done|]. intros w1 F1 S1. apply IH; [done|].
    intros w2 F2 S2. apply HQ; [congruence|done].
Qed.

Lemma smooth_sys_unit n effect f Q w :
  smooth (S n) w ->
  (forall w, effect w = (Ret tt, mk_world (f (file w)) (lock (snd (effect w))) (script w))) ->
  (forall w', file w' = f (file w) -> smooth n w' -> Q (Res tt) w') ->
  wp (sys_unit effect) C Q w.
Proof.
  intros Hs He HQ. apply wp_bind. eapply smooth_event; [done|]. intros w' F S'.
  apply wp_bind. unfold wp at 1. rewrite He. apply wp_ret, HQ; [cbn; by rewrite F|exact S'].
Qed.

Lemma smooth_pread n request off Q w :
  smooth (S n) w -> request <= SIZE_MAX ->
  (forall w', file w' = file w -> smooth n w' -> Q (Res (sub off request (file w))) w') ->
  wp (pread request off) C Q w.
Proof.
  intros Hs Hr HQ. apply wp_bind. eapply smooth_event; [done|]. intros w' F S'.
  apply wp_bind. unfold wp, get_file. cbn. rewrite Z.min_r, F by done. by apply HQ.
Qed.

Lemma smooth_pwrite n data request off Q w :
  smooth (S n) w -> request = len data -> 0 < len data <= SIZE_MAX ->
  (forall w', file w' = splice off data (file w) -> smooth n w' -> Q (Res (len data)) w') ->
  wp (pwrite data request off) C Q w.
Proof.
  intros Hs -> Hl HQ. apply wp_bind. eapply smooth_event; [done|]. intros w' F S'.
  cbv zeta. rewrite Z.min_r, sub_full by lia. apply wp_bind. unfold wp at 1, set_file.
  replace (len data =? 0) with false by (symmetry; lia).
  apply wp_ret, HQ; [cbn; by rewrite F|exact S'].
Qed.

(** One iteration of a loop. *)
Lemma wp_loop_unroll {S R} (body : S -> io (S + R)) Q fuel s w :
  wp (body s) C (fun r w' => match r with
                             | inl s' => wp (loop fuel body s') C Q w'
                             | inr r => Q r w'
                             end) w ->
  wp (loop (Datatypes.S fuel) body s) C Q w.
Proof.
  intros H. cbn [loop]. apply wp_bind. eapply wp_mono; [done|]. intros [s'|r] w' Hr; [done|by apply wp_ret].
Qed.

Lemma smooth_script n w : smooth n w -> (n <= length (script w))%nat.
Proof. intros (k & ? & ->). by rewrite length_replicate. Qed.

(** A loop that needs at most two iterations. *)
Lemma smooth_loop2 {S R} (body : S -> io (S + R)) Q n s w :
  smooth (Datatypes.S n) w ->
  (forall k, wp (body s) C (fun r w' => match r with
                             | inl s' => wp (body s') C (fun r w'' => match r with
                                 | inl s'' => wp (loop k body s'') C Q w''
                                 | inr r => Q r w'' end) w'
                             | inr r => Q r w'
                             end) w) ->
  wp (io_loop body s) C Q w.
Proof.
  intros Hs H. unfold io_loop, wp at 1. apply smooth_script in Hs.
  destruct (length (script w)) as [|k]; [lia|]. apply wp_loop_unroll.
  eapply wp_mono; [apply (H k)|]. intros [s'|r] w' Hr; [|done]. by apply wp_loop_unroll.
Qed.
End Smooth.

(** Step through a straight-line computation. *)
Ltac wp_step :=
  match goal with
  | |- wp (bind _ _) _ _ _ => apply wp_bind
  | |- wp (ret _) _ _ _ => apply wp_ret
  | |- wp (if ?c then _ else _) _ _ _ => destruct c eqn:?
  | |- wp (let _ := _ in _) _ _ _ => cbv zeta
  end.
