(* ===== verification/AuditChain.v ===== *)
(** The audit log (src/libraries/audit/hash_chain.c): one-record encoder and
    verifier, and the descriptor operations that verify, recover and extend a file
    of hash-chained records.

    The descriptor operations run in the worlds of Posix.v. SHA-256 is the
    library's (EVP); it is the section's parameter [sha256]. The abstract state of a
    log is the list of its entries; [chain_wire] is the only file that represents
    it. *)

From S2P Require Import Prelude Bytes HashApi Sha512 Posix.

(** ** Constants and data (include/alrios/audit/block.h) *)

Definition AUDIT_VERSION_1 : Z := 1.

Definition AUDIT_HEADER_SIZE : Z := 104.

Definition AUDIT_HASH_SIZE : Z := 32.

Definition AUDIT_WIRE_MIN : Z := 136.

Definition AUDIT_PAYLOAD_MAX : Z := 1048576.

Definition AUDIT_WIRE_MAX : Z := 1048712.

Definition AUDIT_OK : Z := 0.

Definition AUDIT_ERR_INVALID_ARGUMENT : Z := -7001.

Definition AUDIT_ERR_CAPACITY : Z := -7002.

Definition AUDIT_ERR_FORMAT : Z := -7003.

Definition AUDIT_ERR_VERSION : Z := -7004.

Definition AUDIT_ERR_LENGTH : Z := -7005.

Definition AUDIT_ERR_NONCANONICAL : Z := -7006.

Definition AUDIT_ERR_HASH : Z := -7007.

Definition AUDIT_ERR_CHAIN : Z := -7008.

Definition AUDIT_ERR_SEQUENCE : Z := -7009.

Definition AUDIT_ERR_TRUNCATED : Z := -7010.

Definition AUDIT_ERR_IO : Z := -7011.

Definition AUDIT_ERR_OVERFLOW : Z := -7012.

Definition AUDIT_ERR_BUSY : Z := -7013.

Definition AUDIT_ERR_OVERLAP : Z := -7014.

Definition SSIZE_MAX : Z := 2 ^ 63 - 1.

Definition audit_magic : bytes := [65; 76; 82; 73; 65; 85; 68; 84].

Definition audit_hash_domain : bytes :=
  [65; 76; 82; 73; 79; 83; 45; 65; 85; 68; 73; 84; 45; 66; 76; 79; 67; 75; 45; 86; 49].

Record block_metadata := mk_md {
  md_version : Z;
  md_sequence : Z;
  md_timestamp_ns : Z;
  md_payload_len : Z;
  md_previous_hash : bytes;
  md_payload_hash : bytes;
  md_block_hash : bytes;
}.

Definition zero_md : block_metadata :=
  mk_md 0 0 0 0 (zeros AUDIT_HASH_SIZE) (zeros AUDIT_HASH_SIZE) (zeros AUDIT_HASH_SIZE).

(** [sizeof(alrios_audit_block_metadata_t)] *)
Definition MD_SIZEOF : Z := 128.

Record chain_result := mk_cr {
  block_count : Z;
  valid_bytes : Z;
  last_sequence : Z;
  last_hash : bytes;
  tail_recovered : Z;
}.

Definition zero_cr : chain_result := mk_cr 0 0 0 (zeros AUDIT_HASH_SIZE) 0.

(** ** Descriptor helpers *)

(** [for (;;)] around a call that is retried while it is interrupted. *)
Definition retry (call : io (sysres unit)) (err : Z) : io Z :=
  io_loop (fun _ : unit =>
    let* r := call in
    ret (match r with
         | Res _ => inr AUDIT_OK
         | SysIntr => inl tt
         | SysFail => inr err
         end)) tt.

Definition lock_fd (lock_type : Z) : io Z := retry (fcntl_lock lock_type) AUDIT_ERR_BUSY.

Definition unlock_fd : io Z :=
  let* r := fcntl_lock F_UNLCK in
  ret (match r with Res _ => AUDIT_OK | _ => AUDIT_ERR_IO end).

Definition fd_mode_valid (fd : descriptor) (require_write : bool) : io bool :=
  if fd_number fd <? 0 then ret false
  else
    let* flags := sys_ok in
    if negb flags then ret false
    else if require_write then ret (access_mode fd =? O_RDWR)
    else ret ((access_mode fd =? O_RDONLY) || (access_mode fd =? O_RDWR)).

(** Status and the octets read; the loop's state is the octets read so far. *)
Definition read_exact_at (length_ offset : Z) : io (Z * bytes) :=
  io_loop (fun buffer =>
    let consumed := len buffer in
    if negb (consumed <? length_) then ret (inr (AUDIT_OK, buffer))
    else if offset >? UINT64_MAX - consumed then ret (inr (AUDIT_ERR_OVERFLOW, buffer))
    else
      let current_offset := offset + consumed in
      if current_offset >? INT64_MAX then ret (inr (AUDIT_ERR_OVERFLOW, buffer))
      else
        let request := length_ - consumed in
        let request := if request >? SSIZE_MAX then SSIZE_MAX else request in
        let* result := pread request current_offset in
        ret (match result with
             | Res data =>
                 if len data >? 0 then inl (buffer ++ data)
                 else inr (AUDIT_ERR_TRUNCATED, buffer)
             | SysIntr => inl buffer
             | SysFail => inr (AUDIT_ERR_IO, buffer)
             end)) [].

Definition write_exact_at (buffer : bytes) (length_ offset : Z) : io Z :=
  io_loop (fun consumed =>
    if negb (consumed <? length_) then ret (inr AUDIT_OK)
    else if offset >? UINT64_MAX - consumed then ret (inr AUDIT_ERR_OVERFLOW)
    else
      let current_offset := offset + consumed in
      if current_offset >? INT64_MAX then ret (inr AUDIT_ERR_OVERFLOW)
      else
        let request := length_ - consumed in
        let request := if request >? SSIZE_MAX then SSIZE_MAX else request in
        let* result := pwrite (drop (Z.to_nat consumed) buffer) request current_offset in
        ret (match result with
             | Res n => if n >? 0 then inl (consumed + n) else inr AUDIT_ERR_IO
             | SysIntr => inl consumed
             | SysFail => inr AUDIT_ERR_IO
             end)) 0.

Definition sync_fd : io Z := retry fsync AUDIT_ERR_IO.

Definition truncate_fd (length_ : Z) : io Z :=
  if length_ >? INT64_MAX then ret AUDIT_ERR_OVERFLOW
  else retry (ftruncate length_) AUDIT_ERR_IO.

Definition magic_prefix (b : bytes) (length_ : Z) : bool :=
  (length_ <=? 8) && bytes_eqb (sub 0 length_ b) (sub 0 length_ audit_magic).

(** Status and size. *)
Definition get_regular_file_size : io (Z * Z) :=
  let* ok := sys_ok in
  if negb ok then ret (AUDIT_ERR_IO, 0)
  else
    let* f := get_file in
    if len f >? INT64_MAX then ret (AUDIT_ERR_OVERFLOW, 0)
    else ret (AUDIT_OK, len f).

(** [*out_total_len] and [*out_payload_len]. *)
Definition decode_header (wire : bytes) (available : Z) : res (Z * Z) :=
  fail_if available <? AUDIT_HEADER_SIZE with AUDIT_ERR_TRUNCATED;;
  fail_if negb (bytes_eqb (sub 0 8 wire) audit_magic) with AUDIT_ERR_FORMAT;;
  fail_if negb (load_u16_be (sub 8 2 wire) =? AUDIT_VERSION_1) with AUDIT_ERR_VERSION;;
  fail_if negb (load_u16_be (sub 10 2 wire) =? AUDIT_HEADER_SIZE)
          || negb (load_u32_be (sub 20 4 wire) =? 0) with AUDIT_ERR_NONCANONICAL;;
  let total_len := load_u32_be (sub 12 4 wire) in
  let payload_len := load_u32_be (sub 16 4 wire) in
  fail_if payload_len >? AUDIT_PAYLOAD_MAX with AUDIT_ERR_LENGTH;;
  let expected_total := AUDIT_WIRE_MIN + payload_len in
  fail_if negb (total_len =? expected_total) || (total_len <? AUDIT_WIRE_MIN)
          || (total_len >? AUDIT_WIRE_MAX) with AUDIT_ERR_LENGTH;;
  Ok (expected_total, payload_len).

Section Audit.
Context (sha256 : bytes -> bytes).

(** ** Records *)

(** [if (ok && n != 0) ok = p && EVP_DigestUpdate(context, p, n) == 1;] with the
    message hashed so far. *)
Definition digest_update (st : bool * bytes) (data : option bytes) (n : Z) : io (bool * bytes) :=
  let '(ok, message) := st in
  if ok && negb (n =? 0) then
    match data with
    | None => ret (false, message)
    | Some d =>
        let* r := sys_ok in
        ret (r, message ++ sub 0 n d)
    end
  else ret (ok, message).

(** Status and digest. *)
Definition sha256_parts (first : option bytes) (first_len : Z) (second : option bytes)
    (second_len : Z) (third : option bytes) (third_len : Z) : io (Z * bytes) :=
  let* context := sys_ok in
  if negb context then ret (AUDIT_ERR_HASH, zeros AUDIT_HASH_SIZE)
  else
    let* ok := sys_ok in
    let* st := digest_update (ok, []) first first_len in
    let* st := digest_update st second second_len in
    let* (ok, message) := digest_update st third third_len in
    if ok then
      let* final := sys_ok in
      if final then ret (AUDIT_OK, sha256 message)
      else ret (AUDIT_ERR_HASH, zeros AUDIT_HASH_SIZE)
    else ret (AUDIT_ERR_HASH, zeros AUDIT_HASH_SIZE).

Definition val_of {A} (p : ptr A) : option A :=
  match p with NULL => None | At _ a => Some a end.

(** What a caller of the encoder sees: status, [*out_written], the octets stored
    from [out_wire] on ([None]: untouched), and [*out_metadata]. *)
Record encoded := mk_enc {
  e_status : Z;
  e_written : Z;
  e_wire : option bytes;
  e_metadata : option block_metadata;
}.

(** The stores into the first [ALRIOS_AUDIT_BLOCK_HEADER_SIZE_V1] octets. *)
Definition record_header (prev : bytes) (sequence timestamp_ns wire_len payload_len : Z)
    (payload_hash : bytes) : bytes :=
  let header := zeros AUDIT_HEADER_SIZE in
  let header := upd 0 audit_magic header in
  let header := upd 8 (store_u16_be AUDIT_VERSION_1) header in
  let header := upd 10 (store_u16_be AUDIT_HEADER_SIZE) header in
  let header := upd 12 (store_u32_be (u32 wire_len)) header in
  let header := upd 16 (store_u32_be (u32 payload_len)) header in
  let header := upd 24 (store_u64_be sequence) header in
  let header := upd 32 (store_u64_be timestamp_ns) header in
  let header := upd 40 (sub 0 AUDIT_HASH_SIZE prev) header in
  upd 72 payload_hash header.

Definition alrios_audit_block_encode (previous_hash : ptr bytes) (sequence timestamp_ns : Z)
    (payload : ptr bytes) (payload_len : Z) (out_wire : ptr bytes) (out_capacity : Z)
    (out_written : bool) (out_metadata : ptr block_metadata) : io encoded :=
  let cleared := match out_metadata with NULL => None | At _ _ => Some zero_md end in
  let fail status := mk_enc status 0 None cleared in
  match previous_hash with
  | NULL => ret (fail AUDIT_ERR_INVALID_ARGUMENT)
  | At _ prev =>
      if (is_null payload && negb (payload_len =? 0)) || is_null out_wire || negb out_written
         || (sequence =? 0)
      then ret (fail AUDIT_ERR_INVALID_ARGUMENT)
      else if payload_len >? AUDIT_PAYLOAD_MAX then ret (fail AUDIT_ERR_LENGTH)
      else
        let wire_len := AUDIT_WIRE_MIN + payload_len in
        if out_capacity <? wire_len then ret (fail AUDIT_ERR_CAPACITY)
        else if ranges_overlap previous_hash AUDIT_HASH_SIZE out_wire wire_len
             || ranges_overlap payload payload_len out_wire wire_len
             || ranges_overlap out_metadata (if is_null out_metadata then 0 else MD_SIZEOF)
                  out_wire wire_len
        then ret (fail AUDIT_ERR_OVERLAP)
        else
          let* (status, payload_hash) :=
            sha256_parts (val_of payload) payload_len None 0 None 0 in
          if negb (status =? AUDIT_OK) then ret (fail status)
          else
            let header := record_header prev sequence timestamp_ns wire_len payload_len payload_hash in
            let body := match val_of payload with
                        | Some p => sub 0 payload_len p
                        | None => []
                        end in
            let* (status, block_hash) :=
              sha256_parts (Some audit_hash_domain) (len audit_hash_domain)
                (Some header) AUDIT_HEADER_SIZE (Some body) payload_len in
            if negb (status =? AUDIT_OK)
            then ret (mk_enc status 0 (Some (zeros wire_len)) cleared)
            else
              ret (mk_enc AUDIT_OK wire_len (Some (header ++ body ++ block_hash))
                     (match out_metadata with
                      | NULL => None
                      | At _ _ =>
                          Some (mk_md AUDIT_VERSION_1 sequence timestamp_ns (u32 payload_len)
                                  (sub 0 AUDIT_HASH_SIZE prev) payload_hash block_hash)
                      end))
  end.

(** Status and [*out_metadata]. *)
Definition alrios_audit_block_verify (wire : ptr bytes) (wire_len : Z)
    (out_metadata : ptr block_metadata) : io (Z * option block_metadata) :=
  let cleared := match out_metadata with NULL => None | At _ _ => Some zero_md end in
  match wire with
  | NULL => ret (AUDIT_ERR_INVALID_ARGUMENT, cleared)
  | At _ w =>
      if negb (is_null out_metadata) && ranges_overlap wire wire_len out_metadata MD_SIZEOF
      then ret (AUDIT_ERR_OVERLAP, cleared)
      else
        match decode_header w wire_len with
        | Err status => ret (status, cleared)
        | Fault => ret (AUDIT_ERR_INVALID_ARGUMENT, cleared)
        | Ok (expected_total, payload_len) =>
            if negb (wire_len =? expected_total)
            then ret (if wire_len <? expected_total then AUDIT_ERR_TRUNCATED
                      else AUDIT_ERR_LENGTH, cleared)
            else if load_u64_be (sub 24 8 w) =? 0 then ret (AUDIT_ERR_SEQUENCE, cleared)
            else
              let payload := drop (Z.to_nat AUDIT_HEADER_SIZE) w in
              let stored_block_hash := drop (Z.to_nat payload_len) payload in
              let* (status, payload_hash) :=
                sha256_parts (Some payload) payload_len None 0 None 0 in
              if negb (status =? AUDIT_OK) then ret (status, cleared)
              else if negb (bytes_eqb payload_hash (sub 72 32 w))
              then ret (AUDIT_ERR_HASH, cleared)
              else
                let* (status, block_hash) :=
                  sha256_parts (Some audit_hash_domain) (len audit_hash_domain)
                    (Some w) AUDIT_HEADER_SIZE (Some payload) payload_len in
                if negb (status =? AUDIT_OK)
                   || negb (bytes_eqb block_hash (sub 0 32 stored_block_hash))
                then ret (AUDIT_ERR_HASH, cleared)
                else
                  ret (AUDIT_OK,
                       match out_metadata with
                       | NULL => None
                       | At _ _ =>
                           Some (mk_md AUDIT_VERSION_1 (load_u64_be (sub 24 8 w))
                                   (load_u64_be (sub 32 8 w)) (u32 payload_len)
                                   (sub 40 32 w) payload_hash block_hash)
                       end)
        end
  end.

(** ** The file *)

(** Distinct objects of a run: a heap block, a local variable, the caller's
    buffer. *)
Definition heap {A} (a : A) : ptr A := At (2 ^ 40) a.

Definition local_var {A} (a : A) : ptr A := At (2 ^ 46) a.

Definition caller {A} (a : option A) : ptr A :=
  match a with None => NULL | Some a => At (2 ^ 44) a end.

(** Local variables of [scan_locked] that live across iterations. *)
Record scan_state := mk_scan {
  offset : Z;
  expected_sequence : Z;
  previous_hash : bytes;
  count_ : Z;
  last_ : Z;
}.

(** Where the loop leaves to. *)
Inductive scan_exit :=
  | Success
  | PartialTail (status : Z)
  | Cleanup (status : Z).

(** The part of an iteration that follows the header: read the whole record,
    verify it, check its place in the chain, advance. *)
Definition scan_record (file_size : Z) (s : scan_state) (total_len : Z)
    : io (scan_state + (scan_exit * scan_state)) :=
  let* record := sys_ok in
  if negb record then ret (inr (Cleanup AUDIT_ERR_CAPACITY, s))
  else
    let* (status, record) := read_exact_at total_len (offset s) in
    if negb (status =? AUDIT_OK) then ret (inr (Cleanup status, s))
    else
      let* (status, metadata) :=
        alrios_audit_block_verify (heap record) total_len (local_var zero_md) in
      let metadata := default zero_md metadata in
      if negb (status =? AUDIT_OK) then ret (inr (Cleanup status, s))
      else if negb (md_sequence metadata =? expected_sequence s)
      then ret (inr (Cleanup AUDIT_ERR_SEQUENCE, s))
      else if negb (bytes_eqb (md_previous_hash metadata) (previous_hash s))
      then ret (inr (Cleanup AUDIT_ERR_CHAIN, s))
      else if offset s >? UINT64_MAX - total_len
      then ret (inr (Cleanup AUDIT_ERR_OVERFLOW, s))
      else
        let offset' := offset s + total_len in
        if (expected_sequence s =? UINT64_MAX) && (offset' <? file_size)
        then ret (inr (Cleanup AUDIT_ERR_SEQUENCE, s))
        else
          ret (inl (mk_scan offset' (u64 (expected_sequence s + 1)) (md_block_hash metadata)
                      (u64 (count_ s + 1)) (md_sequence metadata))).

Definition scan_body (file_size : Z) (s : scan_state) : io (scan_state + (scan_exit * scan_state)) :=
  if negb (offset s <? file_size) then ret (inr (Success, s))
  else
    let remaining := file_size - offset s in
    if remaining <? 8 then
      let* (status, header) := read_exact_at remaining (offset s) in
      if negb (status =? AUDIT_OK) then ret (inr (Cleanup status, s))
      else if negb (magic_prefix header remaining) then ret (inr (Cleanup AUDIT_ERR_FORMAT, s))
      else ret (inr (PartialTail AUDIT_ERR_TRUNCATED, s))
    else
      let* (status, header) := read_exact_at 8 (offset s) in
      if negb (status =? AUDIT_OK) then ret (inr (Cleanup status, s))
      else if negb (bytes_eqb header audit_magic) then ret (inr (Cleanup AUDIT_ERR_FORMAT, s))
      else if remaining <? AUDIT_HEADER_SIZE
      then ret (inr (PartialTail AUDIT_ERR_TRUNCATED, s))
      else
        let* (status, header) := read_exact_at AUDIT_HEADER_SIZE (offset s) in
        if negb (status =? AUDIT_OK) then ret (inr (Cleanup status, s))
        else
          match decode_header header AUDIT_HEADER_SIZE with
          | Err status => ret (inr (Cleanup status, s))
          | Fault => ret (inr (Cleanup AUDIT_ERR_INVALID_ARGUMENT, s))
          | Ok (total_len, _) =>
              if total_len >? remaining then ret (inr (PartialTail AUDIT_ERR_TRUNCATED, s))
              else scan_record file_size s total_len
          end.

(** Status and [*out_result]. *)
Definition scan_locked (recover_tail : bool) : io (Z * chain_result) :=
  let* (status, file_size) := get_regular_file_size in
  if negb (status =? AUDIT_OK) then ret (status, zero_cr)
  else
    let* (exit, s) :=
      io_loop (scan_body file_size) (mk_scan 0 1 (zeros AUDIT_HASH_SIZE) 0 0) in
    let success tail := mk_cr (count_ s) (offset s) (last_ s) (previous_hash s) tail in
    match exit with
    | Cleanup status => ret (status, zero_cr)
    | Success => ret (AUDIT_OK, success 0)
    | PartialTail status =>
        if negb recover_tail then ret (status, zero_cr)
        else
          let* status := truncate_fd (offset s) in
          if negb (status =? AUDIT_OK) then ret (status, zero_cr)
          else
            let* status := sync_fd in
            if negb (status =? AUDIT_OK) then ret (status, zero_cr)
            else ret (AUDIT_OK, success 1)
    end.

(** Status and [*out_result] ([out_present]: is that pointer non-null?). *)
Definition chain_operation (fd : descriptor) (recover_tail out_present : bool)
    : io (Z * chain_result) :=
  if negb out_present then ret (AUDIT_ERR_INVALID_ARGUMENT, zero_cr)
  else
    let* valid := fd_mode_valid fd recover_tail in
    if negb valid then ret (AUDIT_ERR_INVALID_ARGUMENT, zero_cr)
    else
      let* status := lock_fd (if recover_tail then F_WRLCK else F_RDLCK) in
      if negb (status =? AUDIT_OK) then ret (status, zero_cr)
      else
        let* (status, result) := scan_locked recover_tail in
        let* unlock_status := unlock_fd in
        let status := if (status =? AUDIT_OK) && negb (unlock_status =? AUDIT_OK)
                      then unlock_status else status in
        ret (status, if status =? AUDIT_OK then result else zero_cr).

Definition alrios_audit_chain_verify_fd (fd : descriptor) (out_present : bool)
    : io (Z * chain_result) := chain_operation fd false out_present.

Definition alrios_audit_chain_recover_fd (fd : descriptor) (out_present : bool)
    : io (Z * chain_result) := chain_operation fd true out_present.

Definition commit_record (wire : bytes) (wire_len valid_bytes_ : Z) : io Z :=
  let* status := write_exact_at wire wire_len valid_bytes_ in
  if status =? AUDIT_OK then sync_fd else ret status.

(** Undo a failed commit; the status the append reports. *)
Definition rollback (valid_bytes_ status : Z) : io Z :=
  let* rollback_status := truncate_fd valid_bytes_ in
  let* rollback_status :=
    if rollback_status =? AUDIT_OK then sync_fd else ret rollback_status in
  ret (if negb (rollback_status =? AUDIT_OK) then rollback_status else status).

(** The part of the append between the two locks, up to the label [unlock:];
    status and metadata. *)
Definition append_locked (timestamp_ns : Z) (payload : option bytes) (payload_len : Z)
    : io (Z * block_metadata) :=
  let* (status, chain) := scan_locked true in
  if negb (status =? AUDIT_OK) then ret (status, zero_md)
  else if (last_sequence chain =? UINT64_MAX)
          || (valid_bytes chain >? INT64_MAX - AUDIT_WIRE_MIN)
          || (payload_len >? INT64_MAX - valid_bytes chain - AUDIT_WIRE_MIN)
  then ret (AUDIT_ERR_OVERFLOW, zero_md)
  else
    let sequence := if block_count chain =? 0 then 1 else u64 (last_sequence chain + 1) in
    let* wire := sys_ok in
    if negb wire then ret (AUDIT_ERR_CAPACITY, zero_md)
    else
      let* e :=
        alrios_audit_block_encode (local_var (last_hash chain)) sequence timestamp_ns
          (caller payload) payload_len (heap []) (AUDIT_WIRE_MIN + payload_len) true
          (At (2 ^ 47) zero_md) in
      if negb (e_status e =? AUDIT_OK) then ret (e_status e, zero_md)
      else
        let* status := commit_record (default [] (e_wire e)) (e_written e) (valid_bytes chain) in
        if negb (status =? AUDIT_OK) then
          let* status := rollback (valid_bytes chain) status in
          ret (status, zero_md)
        else ret (AUDIT_OK, default zero_md (e_metadata e)).

(** Status and [*out_metadata]. *)
Definition alrios_audit_chain_append_fd (fd : descriptor) (timestamp_ns : Z)
    (payload : option bytes) (payload_len : Z) (out_present : bool) : io (Z * block_metadata) :=
  let null_payload := match payload with None => true | Some _ => false end in
  if negb out_present || (null_payload && negb (payload_len =? 0))
     || (payload_len >? AUDIT_PAYLOAD_MAX)
  then ret (AUDIT_ERR_INVALID_ARGUMENT, zero_md)
  else
    let* valid := fd_mode_valid fd true in
    if negb valid then ret (AUDIT_ERR_INVALID_ARGUMENT, zero_md)
    else
      let* status := lock_fd F_WRLCK in
      if negb (status =? AUDIT_OK) then ret (status, zero_md)
      else
        let* (status, metadata) := append_locked timestamp_ns payload payload_len in
        let* unlock_status := unlock_fd in
        if (status =? AUDIT_OK) && negb (unlock_status =? AUDIT_OK)
        then ret (unlock_status, zero_md)
        else ret (status, metadata).

(** ** Abstract specification: a log is a list of entries *)

Record entry := mk_entry { en_timestamp : Z; en_payload : bytes }.

Definition entry_ok (e : entry) : Prop :=
  0 <= en_timestamp e < 2 ^ 64 /\ bytes_ok (en_payload e) /\
  len (en_payload e) <= AUDIT_PAYLOAD_MAX.

(** The header of the record that follows a record with hash [prev]. *)
Definition block_header (prev : bytes) (seq : Z) (e : entry) : bytes :=
  audit_magic ++ store_u16_be AUDIT_VERSION_1 ++ store_u16_be AUDIT_HEADER_SIZE
  ++ store_u32_be (AUDIT_WIRE_MIN + len (en_payload e)) ++ store_u32_be (len (en_payload e))
  ++ zeros 4 ++ store_u64_be seq ++ store_u64_be (en_timestamp e)
  ++ prev ++ sha256 (en_payload e).

(** The octets whose hash a block ends with. *)
Definition hashed (prev : bytes) (seq : Z) (e : entry) : bytes :=
  audit_hash_domain ++ block_header prev seq e ++ en_payload e.

Definition block_hash (prev : bytes) (seq : Z) (e : entry) : bytes := sha256 (hashed prev seq e).

Definition block_wire (prev : bytes) (seq : Z) (e : entry) : bytes :=
  block_header prev seq e ++ en_payload e ++ block_hash prev seq e.

Definition block_md (prev : bytes) (seq : Z) (e : entry) : block_metadata :=
  mk_md AUDIT_VERSION_1 seq (en_timestamp e) (len (en_payload e)) prev
    (sha256 (en_payload e)) (block_hash prev seq e).

(** The records of the entries [es] that follow a record with hash [prev], the
    first with sequence number [seq]. *)
Fixpoint chain_from (prev : bytes) (seq : Z) (es : list entry) : bytes :=
  match es with
  | [] => []
  | e :: es => block_wire prev seq e ++ chain_from (block_hash prev seq e) (seq + 1) es
  end.

Fixpoint end_hash (prev : bytes) (seq : Z) (es : list entry) : bytes :=
  match es with
  | [] => prev
  | e :: es => end_hash (block_hash prev seq e) (seq + 1) es
  end.

Definition genesis : bytes := zeros AUDIT_HASH_SIZE.

(** The file of a log. *)
Definition chain_wire (es : list entry) : bytes := chain_from genesis 1 es.

(** What the descriptor operations report about it. *)
Definition summary (es : list entry) (tail : Z) : chain_result :=
  mk_cr (len es) (len (chain_wire es)) (len es) (end_hash genesis 1 es) tail.

(** The entry and position a record claims. *)
Definition wire_entry (w : bytes) (p : Z) : entry :=
  mk_entry (load_u64_be (sub 32 8 w)) (sub 104 p w).

(** The octets the caller passes as the payload. *)
Definition payload_of (payload : ptr bytes) (n : Z) : bytes :=
  match val_of payload with Some p => sub 0 n p | None => [] end.

(** What is left of a record whose writing was interrupted. *)
Definition partial_record (rest : bytes) : Prop :=
  0 < len rest /\ sub 0 (Z.min 8 (len rest)) rest = sub 0 (Z.min 8 (len rest)) audit_magic /\
  (len rest < AUDIT_HEADER_SIZE \/
   exists t p, decode_header (sub 0 AUDIT_HEADER_SIZE rest) AUDIT_HEADER_SIZE = Ok (t, p) /\ len rest < t).

(** The loop invariant: the octets before [offset] are the chain of some entries
    and the local variables summarise it. *)
Definition scan_inv (f : bytes) (s : scan_state) (w : world) : Prop :=
  file w = f /\
  exists es, Forall entry_ok es /\ sub 0 (offset s) f = chain_wire es /\
    offset s = len (chain_wire es) /\ offset s <= len f /\
    expected_sequence s = len es + 1 /\ count_ s = len es /\ last_ s = len es /\
    previous_hash s = end_hash genesis 1 es.

(** Where the loop may leave to. *)
Definition scan_post (f : bytes) (r : scan_exit * scan_state) (w : world) : Prop :=
  scan_inv f r.2 w /\
  match r.1 with
  | Success => offset r.2 = len f
  | PartialTail st => st = AUDIT_ERR_TRUNCATED /\ partial_record (drop (Z.to_nat (offset r.2)) f)
  | Cleanup st => st <> AUDIT_OK
  end.

(** The result of a scan that succeeded. *)
Definition scan_ok (recover_tail : bool) (f : bytes) (res : chain_result) (f' : bytes) : Prop :=
  exists es rest, Forall entry_ok es /\ f = chain_wire es ++ rest /\ f' = chain_wire es /\
    len f <= INT64_MAX /\
    (rest = [] /\ res = summary es 0 \/
     recover_tail = true /\ partial_record rest /\ res = summary es 1).

(** The file after a scan that failed. *)
Definition scan_failed (recover_tail : bool) (f f' : bytes) : Prop :=
  f' = f \/
  recover_tail = true /\ exists es rest,
    Forall entry_ok es /\ f = chain_wire es ++ rest /\ partial_record rest /\ f' = chain_wire es.

(** The log a file holds, and what follows it. *)
Definition log_of (f : bytes) (es : list entry) (rest : bytes) : Prop :=
  Forall entry_ok es /\ f = chain_wire es ++ rest /\ (rest = [] \/ partial_record rest).

(** The record an append writes after the entries [es]. *)
Definition next_wire (es : list entry) (e : entry) : bytes :=
  block_wire (end_hash genesis 1 es) (len es + 1) e.

(** The files an append of [e] can leave behind: the old one, or the log it
    held followed by a prefix of the new record. *)
Definition append_file (f : bytes) (e : entry) (f' : bytes) : Prop :=
  f' = f \/
  exists es rest k, log_of f es rest /\ 0 <= k <= len (next_wire es e) /\
    f' = chain_wire es ++ sub 0 k (next_wire es e).

(** The octets that are hashed for the blocks of a log, in their order. *)
Fixpoint messages (prev : bytes) (seq : Z) (es : list entry) : list bytes :=
  match es with
  | [] => []
  | e :: es => hashed prev seq e :: messages (block_hash prev seq e) (seq + 1) es
  end.

(** At some position the two logs have blocks that differ in what is hashed and agree in the
    hash. *)
Definition blocks_collide (es1 es2 : list entry) : Prop :=
  exists i m1 m2, messages genesis 1 es1 !! i = Some m1 /\ messages genesis 1 es2 !! i = Some m2 /\
    m1 <> m2 /\ sha256 m1 = sha256 m2.

(** The loop's state after the records of [es]. *)
Definition scan_at (es : list entry) : scan_state :=
  mk_scan (len (chain_wire es)) (len es + 1) (end_hash genesis 1 es) (len es) (len es).

(** A log followed by an incomplete record of [e]. *)
Definition torn (es : list entry) (e : entry) (f : bytes) : Prop :=
  Forall entry_ok es /\ entry_ok e /\ bytes_ok f /\ len f <= INT64_MAX /\
  exists k, 0 <= k < len (next_wire es e) /\ f = chain_wire es ++ sub 0 k (next_wire es e).

(** The access mode the operation needs. *)
Definition fd_ok (fd : descriptor) (r : bool) : Prop :=
  0 <= fd_number fd /\ (access_mode fd = O_RDWR \/ r = false /\ access_mode fd = O_RDONLY).

(** ** Lemmas *)

Section Proofs.
Context (sha_len : forall m, len (sha256 m) = 32) (sha_ok : forall m, bytes_ok (sha256 m)).

Lemma len_header prev seq e : len prev = 32 -> len (block_header prev seq e) = 104.
Proof.
  intros. unfold block_header.
  rewrite !len_app, !len_store_u16, !len_store_u32, !len_store_u64, len_zeros, sha_len by lia.
  change (len audit_magic) with 8. lia.
Qed.

Lemma len_hash prev seq e : len (block_hash prev seq e) = 32.
Proof. apply sha_len. Qed.

Lemma len_wire prev seq e :
  len prev = 32 -> len (block_wire prev seq e) = AUDIT_WIRE_MIN + len (en_payload e).
Proof.
  intros. unfold block_wire, AUDIT_WIRE_MIN. rewrite !len_app, len_header, len_hash by done. lia.
Qed.

(** The hash call: a digest of the concatenation, or an error. *)
Lemma wp_digest_update C st d n w :
  C (file w) ->
  wp (digest_update st d n) C (fun st' w' => later w w' /\
    (st'.1 = true -> st.1 = true /\
       st'.2 = st.2 ++ (if n =? 0 then [] else match d with Some d => sub 0 n d | None => [] end))) w.
Proof.
  intros Hc. destruct st as [ok m]. unfold digest_update. destruct ok; cbn [andb].
  - destruct (n =? 0); cbn [negb]; [apply wp_ret; split; [apply later_refl|by rewrite app_nil_r]|].
    destruct d as [d|]; [|apply wp_ret; split; [apply later_refl|done]].
    apply wp_bind, wp_sys_ok; [done|]. intros b w' Hw. apply wp_ret. split; [by apply later1_later|done].
  - apply wp_ret. split; [apply later_refl|done].
Qed.

Lemma wp_sha256_parts C a na b nb c nc w :
  C (file w) ->
  wp (sha256_parts a na b nb c nc) C (fun r w' => later w w' /\
    (r.1 = AUDIT_OK ->
     r.2 = sha256 ((if na =? 0 then [] else match a with Some d => sub 0 na d | None => [] end)
                   ++ (if nb =? 0 then [] else match b with Some d => sub 0 nb d | None => [] end)
                   ++ (if nc =? 0 then [] else match c with Some d => sub 0 nc d | None => [] end)))) w.
Proof.
  intros Hc. unfold sha256_parts. apply wp_bind, wp_sys_ok; [done|]. intros c0 w0 [F0 L0].
  wp_step; [apply wp_ret; split; [split; [done|lia]|done]|].
  apply wp_bind, wp_sys_ok; [by rewrite F0|]. intros ok w1 [F1 L1].
  apply wp_bind. eapply wp_mono; [apply wp_digest_update; by rewrite F1, F0|].
  intros st2 w2 [[F2 L2] D2].
  apply wp_bind. eapply wp_mono; [apply wp_digest_update; by rewrite F2, F1, F0|].
  intros st3 w3 [[F3 L3] D3].
  apply wp_bind. eapply wp_mono; [apply wp_digest_update; by rewrite F3, F2, F1, F0|].
  intros [ok4 m4] w4 [[F4 L4] D4]. cbn [fst snd] in *.
  destruct ok4; [|apply wp_ret; split; [split; [congruence|lia]|done]].
  destruct D4 as [O3 ->]; [done|]. destruct D3 as [O2 ->]; [done|]. destruct D2 as [_ ->]; [done|].
  apply wp_bind, wp_sys_ok; [by rewrite F4, F3, F2, F1, F0|]. intros fin w5 [F5 L5].
  assert (later w w5) by (split; [congruence|lia]).
  destruct fin; apply wp_ret; (split; [done|]); [|done]. intros _. cbn [snd].
  by rewrite app_nil_l, <- app_assoc.
Qed.

(** The fields of a record, at their offsets. *)
Lemma header_fields prev seq e rest :
  len prev = 32 ->
  let w := block_header prev seq e ++ rest in
  sub 0 8 w = audit_magic /\ sub 8 2 w = store_u16_be AUDIT_VERSION_1 /\
  sub 10 2 w = store_u16_be AUDIT_HEADER_SIZE /\
  sub 12 4 w = store_u32_be (AUDIT_WIRE_MIN + len (en_payload e)) /\
  sub 16 4 w = store_u32_be (len (en_payload e)) /\ sub 20 4 w = zeros 4 /\
  sub 24 8 w = store_u64_be seq /\ sub 32 8 w = store_u64_be (en_timestamp e) /\
  sub 40 32 w = prev /\ sub 72 32 w = sha256 (en_payload e) /\
  sub 0 104 w = block_header prev seq e /\ drop (Z.to_nat 104) w = rest.
Proof.
  intros Hp. cbv zeta. pose proof (sha_len (en_payload e)) as Hh.
  assert (Hm : len audit_magic = 8) by done.
  assert (Hl : len (block_header prev seq e) = 104) by (by apply len_header).
  split_and!; [..|by apply sub_here|by rewrite drop_app_length' by (unfold len in Hl; lia)].
  all: unfold block_header; rewrite <- !app_assoc; read_field.
Qed.

Lemma decode_header_wire prev seq e rest available :
  len prev = 32 -> entry_ok e -> 104 <= available ->
  decode_header (block_header prev seq e ++ rest) available
  = Ok (AUDIT_WIRE_MIN + len (en_payload e), len (en_payload e)).
Proof.
  intros Hp (_ & _ & Hl) Ha. unfold decode_header.
  destruct (header_fields prev seq e rest Hp) as (-> & -> & -> & -> & -> & -> & _).
  unfold AUDIT_PAYLOAD_MAX, AUDIT_WIRE_MIN, AUDIT_HEADER_SIZE, AUDIT_VERSION_1, AUDIT_WIRE_MAX in *.
  pose proof (len_nonneg (en_payload e)).
  rewrite bytes_eqb_refl, !load_store_u16, !load_store_u32 by lia.
  change (load_u32_be (zeros 4)) with 0.
  repeat rewrite reject_false; [done|..].
  - repeat (apply orb_false_iff; split); [|lia|lia]. by rewrite Z.eqb_refl.
  - lia.
  - done.
  - done.
  - done.
  - lia.
Qed.

(** What an accepted header says. *)
Lemma decode_header_inv w available t p :
  bytes_ok w -> available <= len w -> decode_header w available = Ok (t, p) ->
  sub 0 24 w = audit_magic ++ store_u16_be AUDIT_VERSION_1 ++ store_u16_be AUDIT_HEADER_SIZE
    ++ store_u32_be t ++ store_u32_be p ++ zeros 4 /\
  t = AUDIT_WIRE_MIN + p /\ 0 <= p <= AUDIT_PAYLOAD_MAX /\ 104 <= available.
Proof.
  intros Hok Ha H. unfold decode_header in H. res_inv H. bool_hyps.
  injection H as <- <-. unfold AUDIT_HEADER_SIZE in *.
  pose proof (load_u32_bound (sub 16 4 w) ltac:(auto with buf) ltac:(rewrite len_sub; lia)).
  match goal with E : bytes_eqb _ _ = true |- _ => apply bytes_eqb_eq in E; rename E into Em end.
  match goal with E : load_u32_be (sub 12 4 w) = _ |- _ => rename E into Et end.
  match goal with E : load_u32_be (sub 20 4 w) = _ |- _ => rename E into Ez end.
  match goal with E : load_u16_be (sub 8 2 w) = _ |- _ => rename E into Ev end.
  match goal with E : load_u16_be (sub 10 2 w) = _ |- _ => rename E into Eh end.
  split_and!; try done; try lia.
  change (zeros 4) with (store_u32_be 0).
  rewrite <- Em, <- Et, <- Ez, <- Ev, <- Eh.
  rewrite !store_load_u16, !store_load_u32 by (auto with buf || (rewrite len_sub; lia)).
  rewrite !sub_join by lia. done.
Qed.

Lemma wire_is_block w t p :
  bytes_ok w -> decode_header w (len w) = Ok (t, p) -> len w = t ->
  sub 72 32 w = sha256 (sub 104 p w) ->
  sub (104 + p) 32 w = sha256 (audit_hash_domain ++ sub 0 104 w ++ sub 104 p w) ->
  let prev := sub 40 32 w in
  let seq := load_u64_be (sub 24 8 w) in
  let e := wire_entry w p in
  w = block_wire prev seq e /\ entry_ok e /\ len prev = 32 /\ bytes_ok prev /\
  0 <= seq < 2 ^ 64 /\ len (en_payload e) = p /\ sha256 (en_payload e) = sub 72 32 w /\
  block_hash prev seq e = sub (104 + p) 32 w.
Proof.
  intros Hok Hd Hl Hph Hbh. cbv zeta.
  apply decode_header_inv in Hd as (Hpre & Ht & Hp & _); [|done|lia].
  unfold AUDIT_WIRE_MIN, AUDIT_PAYLOAD_MAX in *.
  assert (Hpl : len (sub 104 p w) = p) by (rewrite len_sub; lia).
  assert (Hhdr : block_header (sub 40 32 w) (load_u64_be (sub 24 8 w)) (wire_entry w p) = sub 0 104 w).
  { unfold block_header, wire_entry. cbn [en_timestamp en_payload].
    rewrite Hpl. unfold AUDIT_WIRE_MIN. rewrite <- Ht, <- Hph.
    rewrite !store_load_u64 by (auto with buf || (rewrite len_sub; lia)).
    rewrite !sub_join by lia. rewrite !app_assoc.
    change (sub 0 104 w) with (sub 0 (24 + 80) w). rewrite <- (sub_join 0 24 24 80 w) by lia.
    rewrite Hpre. by rewrite <- !app_assoc. }
  assert (Hbl : block_hash (sub 40 32 w) (load_u64_be (sub 24 8 w)) (wire_entry w p)
                = sub (104 + p) 32 w).
  { unfold block_hash, hashed. by rewrite Hhdr, Hbh. }
  pose proof (load_u64_bound (sub 24 8 w) ltac:(auto with buf) ltac:(rewrite len_sub; lia)).
  pose proof (load_u64_bound (sub 32 8 w) ltac:(auto with buf) ltac:(rewrite len_sub; lia)).
  assert (Hp32 : len (sub 40 32 w) = 32) by (rewrite len_sub; lia).
  assert (Hw : w = block_wire (sub 40 32 w) (load_u64_be (sub 24 8 w)) (wire_entry w p)).
  { unfold block_wire. rewrite Hhdr, Hbl. cbn [wire_entry en_payload].
    rewrite !sub_join by lia. rewrite sub_all by lia. done. }
  assert (He : entry_ok (wire_entry w p)).
  { split_and!; cbn [wire_entry en_timestamp en_payload]; try lia; [auto with buf|].
    unfold AUDIT_PAYLOAD_MAX. lia. }
  split_and!; try done; try lia. auto with buf.
Qed.

(** The octets the code hashes as the payload. *)
Lemma payload_sub p (w : bytes) :
  0 <= p -> (if p =? 0 then [] else sub 0 p (drop (Z.to_nat 104) w)) = sub 104 p w.
Proof.
  intros. rewrite sub_drop by lia. destruct (p =? 0) eqn:E; bool_hyps; [by subst|by rewrite Z.add_0_r].
Qed.

Lemma decode_header_proper w n : proper_err (decode_header w n).
Proof.
  unfold decode_header. cbv zeta. repeat (apply reject_proper; [done|]). apply ok_proper.
Qed.

(** Verification accepts only canonical records, and reports what they hold. *)
Lemma wp_verify C a wire b md w :
  C (file w) -> bytes_ok wire -> ranges_overlap (At a wire) (len wire) (At b md) MD_SIZEOF = false ->
  wp (alrios_audit_block_verify (At a wire) (len wire) (At b md)) C
    (fun r w' => later w w' /\
       (r.1 = AUDIT_OK -> exists prev seq e,
          wire = block_wire prev seq e /\ entry_ok e /\ len prev = 32 /\ bytes_ok prev /\
          0 < seq < 2 ^ 64 /\ r.2 = Some (block_md prev seq e))) w.
Proof.
  intros Hc Hok Hov. unfold alrios_audit_block_verify. rewrite Hov. cbn [is_null negb andb].
  destruct (decode_header wire (len wire)) as [[t p]|e|] eqn:Hd;
    [|apply wp_ret; split; [apply later_refl|]..].
  2: { cbn. intros ->. by destruct (decode_header_proper _ _ _ Hd). }
  2: done.
  destruct (len wire =? t) eqn:Et; cbn [negb]; bool_hyps;
    [|apply wp_ret; split; [apply later_refl|by destruct (_ <? _)]].
  destruct (load_u64_be (sub 24 8 wire) =? 0) eqn:Es; bool_hyps;
    [apply wp_ret; split; [apply later_refl|done]|].
  pose proof Hd as Hd'. apply decode_header_inv in Hd' as (_ & Ht & Hp & Ha); [|done|lia].
  unfold AUDIT_WIRE_MIN, AUDIT_HEADER_SIZE in *.
  apply wp_bind. eapply wp_mono; [by apply wp_sha256_parts|].
  intros [st ph] w1 [W1 D1]. cbn [fst snd] in *.
  destruct (st =? AUDIT_OK) eqn:E1; cbn [negb]; bool_hyps; [|by apply wp_ret].
  destruct (bytes_eqb ph _) eqn:E2; cbn [negb]; [|by apply wp_ret].
  apply wp_bind. eapply wp_mono; [apply wp_sha256_parts; by destruct W1 as [-> _]|].
  intros [st2 bh] w2 [W2 D2]. cbn [fst snd] in *.
  pose proof (later_trans _ _ _ W1 W2).
  destruct (st2 =? AUDIT_OK) eqn:E3; cbn [negb orb]; bool_hyps; [|by apply wp_ret].
  destruct (bytes_eqb bh _) eqn:E4; cbn [negb]; [|by apply wp_ret].
  apply bytes_eqb_eq in E2, E4. specialize (D1 E1). specialize (D2 E3).
  apply wp_ret. split; [done|]. intros _. cbn [snd].
  cbn [Z.eqb] in D1. rewrite !app_nil_r in D1.
  rewrite payload_sub in D1, D2 by lia.
  change (sub 0 (len audit_hash_domain) audit_hash_domain) with audit_hash_domain in D2.
  cbn [Z.eqb] in D2. change (len audit_hash_domain =? 0) with false in D2.
  rewrite !sub_drop in E4 by lia. rewrite Z.add_0_r in E4.
  destruct (wire_is_block wire t p Hok Hd Et) as (Hw & He & Hpl & Hpo & Hs & Hlp & Hph & Hbh).
  { by rewrite <- E2. }
  { by rewrite <- E4. }
  eexists _, _, _. split; [exact Hw|]. split_and!; try done; try lia.
  f_equal. unfold block_md. rewrite Hlp, Hph, Hbh.
  unfold u32. rewrite Z.mod_small by (unfold AUDIT_PAYLOAD_MAX in *; lia).
  cbn [wire_entry en_timestamp]. by rewrite <- E2, <- E4.
Qed.

(** ** Descriptor helpers *)

(** A retried call ends with the call's own effect or its error. *)
Lemma wp_retry C call err (I : world -> Prop) (Q : world -> Prop) w :
  (forall w, I w -> wp call C (fun r w' => (length (script w') < length (script w))%nat /\
                                  match r with Res _ => Q w' | _ => I w' end) w) ->
  I w ->
  wp (retry call err) C (fun st w' => (st = AUDIT_OK /\ Q w') \/ (st = err /\ I w')) w.
Proof.
  intros Hcall Hi. unfold retry. apply wp_io_loop with (I := fun _ => I); [|done].
  intros _ w0 Hi0. apply wp_bind. eapply wp_mono; [by apply Hcall|].
  intros [[]| |] w' [Hl H']; apply wp_ret; auto.
Qed.

Lemma wp_sync_fd C w :
  C (file w) ->
  wp sync_fd C (fun st w' => file w' = file w /\ (st = AUDIT_OK \/ st = AUDIT_ERR_IO)) w.
Proof.
  intros Hc. eapply wp_mono.
  - apply wp_retry with (I := fun w' => file w' = file w) (Q := fun w' => file w' = file w); [|done].
    intros w0 E. apply wp_fsync; [by rewrite E|]. intros r w' [F L]. split; [done|].
    rewrite <- E. by destruct r.
  - intros st w' [[-> ?]|[-> ?]]; auto.
Qed.

Lemma wp_lock_fd C type w :
  C (file w) ->
  wp (lock_fd type) C (fun st w' => file w' = file w /\ (st = AUDIT_OK \/ st = AUDIT_ERR_BUSY)) w.
Proof.
  intros Hc. eapply wp_mono.
  - apply wp_retry with (I := fun w' => file w' = file w) (Q := fun w' => file w' = file w); [|done].
    intros w0 E. apply wp_fcntl_lock; [by rewrite E|]. intros r w' [F L] _. split; [done|].
    rewrite <- E. by destruct r.
  - intros st w' [[-> ?]|[-> ?]]; auto.
Qed.

Lemma wp_unlock_fd C w :
  C (file w) ->
  wp unlock_fd C (fun st w' => file w' = file w /\ (st = AUDIT_OK \/ st = AUDIT_ERR_IO)) w.
Proof.
  intros Hc. apply wp_bind, wp_fcntl_lock; [done|]. intros r w' [F _] _. apply wp_ret.
  split; [done|]. destruct r; auto.
Qed.

(** Truncation to a prefix [f] either happens or leaves the file alone. *)
Lemma wp_truncate_fd C f g w :
  file w = f ++ g -> C (f ++ g) -> C f ->
  wp (truncate_fd (len f)) C
    (fun st w' => (st = AUDIT_OK /\ file w' = f) \/ (st <> AUDIT_OK /\ file w' = f ++ g)) w.
Proof.
  intros E Hc Hf. unfold truncate_fd. wp_step; [by apply wp_ret; right|].
  eapply wp_mono.
  - apply wp_retry with (I := fun w' => file w' = f ++ g) (Q := fun w' => file w' = f); [|done].
    intros w0 E0. apply wp_ftruncate; [by rewrite E0|]. intros r w' L H'. split; [done|].
    rewrite E0 in H'. rewrite truncate_prefix in H' by done. by destruct r.
  - cbn. intros st w' [[-> ?]|[-> ?]]; [by left|by right].
Qed.

(** A read either returns the region or an error; it never moves the file. *)
Lemma wp_read_exact_at C n off w :
  C (file w) -> 0 <= n -> 0 <= off -> off + n <= len (file w) ->
  wp (read_exact_at n off) C (fun r w' => later w w' /\ (r.1 = AUDIT_OK -> r.2 = sub off n (file w))) w.
Proof.
  intros Hc Hn Ho Hl. unfold read_exact_at.
  apply wp_io_loop with (I := fun acc w' => later w w' /\ acc = sub off (len acc) (file w) /\ len acc <= n).
  - intros acc w0 ([F L] & Ha & Hle). pose proof (len_nonneg acc).
    destruct (negb (len acc <? n)) eqn:E1; bool_hyps.
    { apply wp_ret. split; [by split|]. intros _. cbn [snd].
      by replace n with (len acc) by lia. }
    wp_step; [by apply wp_ret|]. cbv zeta. wp_step; [by apply wp_ret|].
    apply wp_bind, wp_pread; [by rewrite F|]. intros r w' [F' L'] Hr. apply wp_ret.
    destruct r as [data| |]; [|split; [split; [split; [congruence|lia]|done]|done]|by split; [split; [congruence|lia]|]].
    destruct (Hr data eq_refl) as (k & Hk & Hd). rewrite F in Hd.
    destruct (len data >? 0) eqn:E2; bool_hyps; [|by split; [split; [congruence|lia]|]].
    split; [|done]. split; [split; [congruence|lia]|].
    assert (Hk0 : 0 < k) by (destruct (Z.le_gt_cases k 0); [|lia];
      pose proof (len_sub_le (off + len acc) k (file w)); subst data; lia).
    assert (Hkn : k <= n - len acc) by (revert Hk; destruct (_ >? _) eqn:E3; bool_hyps; lia).
    assert (Hdl : len data = k) by (subst data; rewrite len_sub; lia).
    rewrite len_app, Hdl. split; [|lia]. rewrite Ha at 1. subst data. rewrite sub_join by lia. done.
  - split; [apply later_refl|]. split; [done|by rewrite len_nil].
Qed.

(** A write extends the file by a prefix of the buffer, by all of it on success. *)
Lemma wp_write_exact_at C buf base w :
  file w = base -> (forall k, C (base ++ sub 0 k buf)) ->
  wp (write_exact_at buf (len buf) (len base)) C
    (fun st w' => exists k, 0 <= k <= len buf /\ file w' = base ++ sub 0 k buf /\
       (st = AUDIT_OK -> k = len buf)) w.
Proof.
  intros E Hc. unfold write_exact_at.
  apply wp_io_loop with
    (I := fun consumed w' => 0 <= consumed <= len buf /\ file w' = base ++ sub 0 consumed buf).
  2: { pose proof (len_nonneg buf). split; [lia|]. unfold sub. cbn. by rewrite app_nil_r. }
  intros consumed w0 [Hr F]. 
  assert (Hlater : forall st, (st <> AUDIT_OK) -> exists k, 0 <= k <= len buf /\
            file w0 = base ++ sub 0 k buf /\ (st = AUDIT_OK -> k = len buf)) by (intros; by exists consumed).
  destruct (negb (consumed <? len buf)) eqn:E1; bool_hyps.
  { apply wp_ret. exists consumed. split_and!; [lia|lia|done|lia]. }
  wp_step; [by apply wp_ret, Hlater|]. cbv zeta. wp_step; [by apply wp_ret, Hlater|].
  apply wp_bind, wp_pwrite; [by rewrite F|]. intros r w' L' Hw. apply wp_ret.
  destruct r as [n| |]; [|split; [split; [done|congruence]|done]|exists consumed; split_and!; [lia|lia|congruence|done]].
  destruct Hw as (part & rest & Hb & Hn & Hf). rewrite F in Hf.
  destruct (n >? 0) eqn:E2; bool_hyps.
  - split; [|done]. replace (n =? 0) with false in Hf by (symmetry; lia).
    rewrite splice_end in Hf.
    2: { rewrite len_app, len_sub; lia. }
    assert (Hpart : part = sub consumed n buf).
    { rewrite <- (Z.add_0_r consumed), <- sub_drop, Hb by lia. symmetry. by apply sub_here. }
    assert (n <= len buf - consumed).
    { assert (len (drop (Z.to_nat consumed) buf) = len part + len rest) by (by rewrite Hb, len_app).
      rewrite len_drop in *. pose proof (len_nonneg rest). lia. }
    split; [lia|]. rewrite Hf, <- app_assoc, Hpart, sub_join by lia. done.
  - pose proof (len_nonneg part). replace (n =? 0) with true in Hf by (symmetry; lia).
    exists consumed. split_and!; [lia|lia|done|done].
Qed.

(** ** Records *)

Lemma record_header_eq prev seq e :
  len prev = 32 -> len (en_payload e) <= AUDIT_PAYLOAD_MAX ->
  record_header prev seq (en_timestamp e) (AUDIT_WIRE_MIN + len (en_payload e))
    (len (en_payload e)) (sha256 (en_payload e))
  = block_header prev seq e.
Proof.
  intros Hp Hl. unfold record_header, block_header. cbv zeta.
  pose proof (len_nonneg (en_payload e)). pose proof (sha_len (en_payload e)) as Hh.
  unfold AUDIT_PAYLOAD_MAX, AUDIT_WIRE_MIN, AUDIT_HASH_SIZE in *.
  unfold u32. rewrite !Z.mod_small by lia. rewrite (sub_all 32 prev) by lia.
  assert (Hm : len audit_magic = 8) by done.
  change (zeros AUDIT_HEADER_SIZE) with ([] ++ zeros 104).
  do 5 (rewrite upd_fill0 by clia).
  rewrite (upd_fill _ 24 _ _ 4) by clia.
  do 3 (rewrite upd_fill0 by clia).
  match goal with |- _ ++ zeros ?k = _ => replace k with 0 by clia end.
  rewrite app_nil_r, app_nil_l, <- !app_assoc. done.
Qed.

Lemma empty_payload (P : bytes) : (if len P =? 0 then [] else P) = P.
Proof.
  destruct (len P =? 0) eqn:E; [|done]. bool_hyps. symmetry. apply nil_length_inv. unfold len in E. lia.
Qed.

(** Encoding either fails or produces the record of the entry. *)
Lemma wp_encode C prevp seq ts payload plen out cap wr outmd w :
  C (file w) -> 0 <= plen ->
  (forall a p, prevp = At a p -> len p = 32) ->
  (forall a p, payload = At a p -> len p = plen) ->
  wp (alrios_audit_block_encode prevp seq ts payload plen out cap wr outmd) C
    (fun r w' => later w w' /\
       (e_status r = AUDIT_OK -> exists a prev,
          let e := mk_entry ts (payload_of payload plen) in
          prevp = At a prev /\ seq <> 0 /\ len (en_payload e) = plen /\ plen <= AUDIT_PAYLOAD_MAX /\
          e_written r = AUDIT_WIRE_MIN + plen /\ e_wire r = Some (block_wire prev seq e) /\
          (is_null outmd = false -> e_metadata r = Some (block_md prev seq e)))) w.
Proof.
  intros Hc Hpl Hprev Hpay. unfold alrios_audit_block_encode.
  destruct prevp as [|a prev]; [by apply wp_ret; split; [apply later_refl|]|].
  specialize (Hprev _ _ eq_refl).
  repeat (wp_step; [by apply wp_ret; split; [apply later_refl|]|]; cbv zeta).
  bool_hyps.
  assert (exists P, payload_of payload plen = P /\ len P = plen) as (P & HP & HlP).
  { eexists. split; [reflexivity|]. unfold payload_of, val_of. destruct payload as [|b p].
    - cbn in *. destruct (plen =? 0) eqn:E; bool_hyps; [by subst|done].
    - rewrite len_sub; [done|lia|lia|]. rewrite (Hpay b p eq_refl). lia. }
  fold (payload_of payload plen). rewrite HP.
  apply wp_bind. eapply wp_mono; [by apply wp_sha256_parts|].
  intros [st ph] w1 [W1 D1]. cbn [fst snd] in *.
  wp_step; bool_hyps; [apply wp_ret; by split|]. specialize (D1 ltac:(done)).
  cbn [Z.eqb] in D1. rewrite !app_nil_r in D1. fold (payload_of payload plen) in D1.
  rewrite HP in D1. subst plen. rewrite empty_payload in D1. subst ph.
  apply wp_bind. eapply wp_mono; [apply wp_sha256_parts; by destruct W1 as [-> _]|].
  intros [st2 bh] w2 [W2 D2]. cbn [fst snd] in *. pose proof (later_trans _ _ _ W1 W2).
  wp_step; bool_hyps; [apply wp_ret; by split|]. specialize (D2 ltac:(done)).
  apply wp_ret. split; [done|]. intros _. exists a, prev.
  pose proof (record_header_eq prev seq (mk_entry ts P) Hprev) as Hhd.
  cbn [en_payload en_timestamp] in Hhd. rewrite Hhd in D2 by lia. rewrite Hhd by lia.
  assert (Hbh : bh = block_hash prev seq (mk_entry ts P)).
  { rewrite D2. unfold block_hash, hashed. change (len audit_hash_domain =? 0) with false.
    change (sub 0 (len audit_hash_domain) audit_hash_domain) with audit_hash_domain.
    unfold AUDIT_HEADER_SIZE. cbn [Z.eqb]. rewrite sub_full, empty_payload.
    rewrite (sub_all 104) by (by rewrite len_header). done. }
  cbv zeta. cbn [en_payload]. clear D2. subst bh. split_and!; try done; try lia.
  intros Hm. destruct outmd; [done|]. cbn. f_equal. unfold block_md. cbn [en_payload en_timestamp].
  pose proof (len_nonneg P). unfold AUDIT_HASH_SIZE, u32, AUDIT_PAYLOAD_MAX in *.
  by rewrite (sub_all 32), Z.mod_small by lia.
Qed.

(** ** Chains *)

Lemma chain_snoc prev seq es e :
  chain_from prev seq (es ++ [e])
  = chain_from prev seq es ++ block_wire (end_hash prev seq es) (seq + len es) e.
Proof.
  revert prev seq. induction es as [|e' es IH]; intros; cbn [app chain_from end_hash].
  - by rewrite len_nil, Z.add_0_r, app_nil_r.
  - rewrite IH, len_cons, <- app_assoc. do 3 f_equal. lia.
Qed.

Lemma end_hash_snoc prev seq es e :
  end_hash prev seq (es ++ [e]) = block_hash (end_hash prev seq es) (seq + len es) e.
Proof.
  revert prev seq. induction es as [|e' es IH]; intros; cbn [app end_hash].
  - by rewrite len_nil, Z.add_0_r.
  - rewrite IH, len_cons. f_equal. lia.
Qed.

Lemma len_end_hash prev seq es : len prev = 32 -> len (end_hash prev seq es) = 32.
Proof. revert prev seq. induction es; intros; cbn [end_hash]; [done|]. apply IHes, len_hash. Qed.

(** A record has at least 136 octets, so a file bounds the number of records. *)
Lemma len_chain prev seq es :
  len prev = 32 -> AUDIT_WIRE_MIN * len es <= len (chain_from prev seq es).
Proof.
  revert prev seq. induction es as [|e es IH]; intros; cbn [chain_from]; [done|].
  rewrite len_app, len_cons, len_wire by done. specialize (IH (block_hash prev seq e) (seq + 1) (len_hash _ _ _)).
  pose proof (len_nonneg (en_payload e)). unfold AUDIT_WIRE_MIN in *. lia.
Qed.

Lemma genesis_len : len genesis = 32.
Proof. reflexivity. Qed.

(** The verified record extends the chain. *)
Lemma scan_inv_next f s w w' prev seq e total :
  len f <= INT64_MAX ->
  scan_inv f s w -> file w' = f -> entry_ok e ->
  0 <= total -> offset s + total <= len f ->
  sub (offset s) total f = block_wire prev seq e ->
  seq = expected_sequence s -> prev = previous_hash s ->
  scan_inv f (mk_scan (offset s + total) (u64 (expected_sequence s + 1)) (block_hash prev seq e)
                (u64 (count_ s + 1)) seq) w'.
Proof.
  intros Hmax (F & es & Hes & Hpre & Hoff & Hle & He & Hc & Hl & Hp) F' Hok Ht Hb Hsub -> ->.
  split; [done|]. exists (es ++ [e]).
  pose proof (len_chain genesis 1 es genesis_len) as Hn. fold (chain_wire es) in Hn.
  pose proof (len_nonneg es). unfold AUDIT_WIRE_MIN, INT64_MAX in *.
  assert (Hch : chain_wire (es ++ [e]) = chain_wire es ++ sub (offset s) total f).
  { unfold chain_wire. rewrite chain_snoc, Hsub. do 2 f_equal; [done|lia]. }
  cbn [offset expected_sequence count_ last_ previous_hash].
  assert (Hn1 : len (es ++ [e]) = len es + 1) by (rewrite len_app, len_cons, len_nil; lia).
  rewrite Hn1, Hch, end_hash_snoc, len_app.
  rewrite (len_sub (offset s) total f) by lia.
  unfold u64. rewrite !Z.mod_small by lia. split_and!; try lia.
  - apply Forall_app. split; [done|by apply Forall_singleton].
  - rewrite <- Hpre, sub_join by lia. done.
  - f_equal; [done|lia].
Qed.

Lemma rest_at (f : bytes) off k n :
  0 <= k -> 0 <= off -> sub k n (drop (Z.to_nat off) f) = sub (off + k) n f.
Proof. intros. by rewrite sub_drop. Qed.

Lemma scan_inv_later f s w w' : scan_inv f s w -> later w w' -> scan_inv f s w'.
Proof. intros [F ?] [F' _]. split; [congruence|done]. Qed.

Lemma scan_cleanup f s w w' st :
  scan_inv f s w -> later w w' -> st <> AUDIT_OK -> scan_post f (Cleanup st, s) w'.
Proof. intros. split; [by eapply scan_inv_later|done]. Qed.

(** A region of the file is read or the iteration stops. *)
Lemma wp_read_region C f s n w w' :
  scan_inv f s w -> later w w' -> C f -> 0 <= n -> offset s + n <= len f ->
  wp (read_exact_at n (offset s)) C
    (fun r w'' => later w' w'' /\ (r.1 = AUDIT_OK -> r.2 = sub (offset s) n f)) w'.
Proof.
  intros (F & es & _ & _ & Ho & _) [F' L'] Hc Hn Hl. pose proof (len_nonneg (chain_wire es)).
  rewrite F in F'. eapply wp_mono; [apply wp_read_exact_at; rewrite ?F'; done || lia|].
  intros r w'' [W Hr]. rewrite F' in Hr. done.
Qed.

Lemma heap_local (r : bytes) : len r <= AUDIT_WIRE_MAX ->
  ranges_overlap (heap r) (len r) (local_var zero_md) MD_SIZEOF = false.
Proof.
  intros H. unfold ranges_overlap, heap, local_var, AUDIT_WIRE_MAX in *. cbn [is_null orb addr_of].
  destruct (len r =? 0); [done|]. change (MD_SIZEOF =? 0) with false. cbn [orb].
  unfold SIZE_MAX, UINT64_MAX, MD_SIZEOF.
  destruct (_ || _) eqn:E; bool_hyps.
  - apply orb_true_iff in E as [E|E]; bool_hyps; lia.
  - apply andb_false_iff. right. apply Z.ltb_ge. lia.
Qed.

Lemma wp_scan_record C f s w w0 t p :
  bytes_ok f -> len f <= INT64_MAX -> C f -> scan_inv f s w -> later w w0 ->
  offset s + t <= len f -> t = AUDIT_WIRE_MIN + p -> 0 <= p <= AUDIT_PAYLOAD_MAX ->
  wp (scan_record (len f) s t) C
    (fun r w' => match r with
                 | inl s' => scan_inv f s' w' /\ (length (script w') < length (script w))%nat
                 | inr r => scan_post f r w'
                 end) w0.
Proof.
  intros Hok Hmax Hc Hinv W0 Hl Ht Hp. unfold scan_record.
  pose proof Hinv as (F & _). pose proof W0 as [F0 L0].
  apply wp_bind, wp_sys_ok; [congruence|]. intros b w1 [F1 L1].
  assert (W1 : later w w1) by (split; [congruence|lia]).
  wp_step; [by eapply wp_ret, scan_cleanup|].
  unfold AUDIT_WIRE_MIN, AUDIT_PAYLOAD_MAX in *.
  apply wp_bind. eapply wp_mono; [eapply (wp_read_region C f s t w w1); done || lia|].
  intros [st rec] w2 [W2 D2]. cbn [fst snd] in *. pose proof W2 as [F2 L2].
  pose proof (later_trans _ _ _ W1 W2) as W02.
  wp_step; bool_hyps; [by eapply wp_ret, scan_cleanup|]. specialize (D2 ltac:(done)).
  assert (Hlr : len rec = t).
  { destruct Hinv as (_ & es & _ & _ & Ho & _). pose proof (len_nonneg (chain_wire es)).
    subst rec. rewrite len_sub; lia. }
  rewrite <- Hlr at 1. apply wp_bind. eapply wp_mono.
  { apply wp_verify; [congruence|subst rec; auto with buf|apply heap_local; unfold AUDIT_WIRE_MAX; lia]. }
  intros [st3 md] w3 [W3 D3]. cbn [fst snd] in *. cbv zeta.
  pose proof (later_trans _ _ _ W02 W3) as W03.
  assert ((length (script w3) < length (script w))%nat) by (destruct W2, W3; lia).
  wp_step; bool_hyps; [by eapply wp_ret, scan_cleanup|].
  destruct (D3 ltac:(done)) as (prev & seq & e & Hw & He & Hpl & Hpo & Hs & ->). cbn [default md_sequence md_previous_hash block_md].
  wp_step; bool_hyps; [by eapply wp_ret, scan_cleanup|].
  wp_step; bool_hyps; [by eapply wp_ret, scan_cleanup|].
  match goal with E : bytes_eqb _ _ = true |- _ => apply bytes_eqb_eq in E end.
  wp_step; bool_hyps; [by eapply wp_ret, scan_cleanup|].
  wp_step; bool_hyps; [by eapply wp_ret, scan_cleanup|].
  apply wp_ret. split; [|done]. cbn [md_block_hash block_md].
  eapply scan_inv_next; try done; try lia.
  - destruct W03 as [-> _]. done.
  - by rewrite <- D2.
Qed.

(** A tail too short for the magic. *)
Lemma partial_short rest :
  0 < len rest < 8 -> magic_prefix rest (len rest) = true -> partial_record rest.
Proof.
  intros Hl Hm. unfold magic_prefix in Hm. bool_hyps.
  match goal with E : bytes_eqb _ _ = true |- _ => apply bytes_eqb_eq in E end.
  split; [lia|]. rewrite Z.min_r by lia. split; [done|left; unfold AUDIT_HEADER_SIZE; lia].
Qed.

(** A tail that holds the magic but not the record. *)
Lemma partial_magic rest :
  8 <= len rest -> sub 0 8 rest = audit_magic ->
  (len rest < AUDIT_HEADER_SIZE \/
   exists t p, decode_header (sub 0 AUDIT_HEADER_SIZE rest) AUDIT_HEADER_SIZE = Ok (t, p) /\ len rest < t) ->
  partial_record rest.
Proof. intros Hl Hm Hr. split; [lia|]. rewrite Z.min_l by lia. by rewrite Hm. Qed.

(** One iteration. *)
Lemma wp_scan_body C f s w :
  bytes_ok f -> len f <= INT64_MAX -> C f -> scan_inv f s w ->
  wp (scan_body (len f) s) C
    (fun r w' => match r with
                 | inl s' => scan_inv f s' w' /\ (length (script w') < length (script w))%nat
                 | inr r => scan_post f r w'
                 end) w.
Proof.
  intros Hok Hmax Hc Hinv. assert (Hinv' := Hinv).
  destruct Hinv' as (F & es & _ & _ & Hoff & Hle & _).
  pose proof (len_nonneg (chain_wire es)) as Hoff0. rewrite <- Hoff in Hoff0.
  pose proof (later_refl w) as W0.
  unfold scan_body. wp_step; bool_hyps; [apply wp_ret; split; [done|cbn; lia]|]. cbv zeta.
  set (rest := drop (Z.to_nat (offset s)) f).
  assert (Hrl : len rest = len f - offset s) by (subst rest; rewrite len_drop; lia).
  assert (Hrs : forall n, sub 0 n rest = sub (offset s) n f).
  { intros n. subst rest. rewrite sub_drop by lia. by rewrite Z.add_0_r. }
  wp_step; bool_hyps.
  { apply wp_bind. eapply wp_mono; [eapply (wp_read_region C f s _ w w); done || lia|].
    intros [st h] w1 [W1 D1]. cbn [fst snd] in *.
    wp_step; bool_hyps; [by eapply wp_ret, scan_cleanup|]. specialize (D1 ltac:(done)). subst h.
    wp_step; bool_hyps; [by eapply wp_ret, scan_cleanup|]. apply wp_ret.
    split; [by eapply scan_inv_later|]. split; [done|]. cbn [snd]. fold rest.
    apply partial_short; [lia|]. 
    match goal with E : magic_prefix _ _ = true |- _ =>
      rewrite <- Hrs, <- Hrl, sub_full in E; exact E end. }
  apply wp_bind. eapply wp_mono; [eapply (wp_read_region C f s _ w w); done || lia|].
  intros [st h] w1 [W1 D1]. cbn [fst snd] in *.
  wp_step; bool_hyps; [by eapply wp_ret, scan_cleanup|]. specialize (D1 ltac:(done)). subst h.
  wp_step; bool_hyps; [by eapply wp_ret, scan_cleanup|].
  match goal with E : bytes_eqb _ _ = true |- _ => apply bytes_eqb_eq in E as Em end.
  rewrite <- Hrs in Em.
  assert (Htail : forall w', later w w' ->
    (len rest < AUDIT_HEADER_SIZE \/ exists t p,
       decode_header (sub 0 AUDIT_HEADER_SIZE rest) AUDIT_HEADER_SIZE = Ok (t, p) /\ len rest < t) ->
    scan_post f (PartialTail AUDIT_ERR_TRUNCATED, s) w').
  { intros w' W Ht. split; [by eapply scan_inv_later|]. split; [done|].
    cbn [snd]. fold rest. apply partial_magic; [lia|done|done]. }
  wp_step; bool_hyps; [by apply wp_ret, Htail; [|left; lia]|]. unfold AUDIT_HEADER_SIZE in *.
  apply wp_bind. eapply wp_mono; [eapply (wp_read_region C f s _ w w1); done || lia|].
  intros [st2 h] w2 [W2 D2]. cbn [fst snd] in *. pose proof (later_trans _ _ _ W1 W2) as W02.
  wp_step; bool_hyps; [by eapply wp_ret, scan_cleanup|]. specialize (D2 ltac:(done)). subst h.
  destruct (decode_header _ _) as [[t p]|e|] eqn:Hd.
  2: { eapply wp_ret, scan_cleanup; [done..|]. by apply (decode_header_proper _ _ _ Hd). }
  2: by eapply wp_ret, scan_cleanup.
  wp_step; bool_hyps.
  { apply wp_ret, Htail; [done|]. right. exists t, p. split; [done|lia]. }
  apply decode_header_inv in Hd as (_ & ? & ? & _).
  2: { subst rest. by apply bytes_ok_sub, Forall_drop. }
  2: { rewrite len_sub; lia. }
  apply (wp_scan_record C f s w w2 t p); done || lia.
Qed.

(** ** Descriptor operations *)

Lemma wp_file_size C w :
  C (file w) ->
  wp get_regular_file_size C (fun r w' => later w w' /\
    (r.1 = AUDIT_OK -> r.2 = len (file w) /\ len (file w) <= INT64_MAX)) w.
Proof.
  intros Hc. apply wp_bind, wp_sys_ok; [done|]. intros b w1 W1.
  wp_step; [apply wp_ret; split; [by apply later1_later|done]|].
  apply wp_bind. unfold wp, get_file. destruct W1 as [F1 L1]. rewrite F1.
  destruct (_ >? _) eqn:E; bool_hyps; cbn.
  - split; [split; [done|lia]|done].
  - split; [split; [done|lia]|]. done.
Qed.

(** The whole scan: the invariant at the exit taken, or an early error. *)
Lemma wp_scan_loop C f w :
  bytes_ok f -> C f -> file w = f -> len f <= INT64_MAX ->
  wp (io_loop (scan_body (len f)) (mk_scan 0 1 (zeros AUDIT_HASH_SIZE) 0 0)) C (scan_post f) w.
Proof.
  intros Hok Hc F Hmax. apply wp_io_loop with (I := scan_inv f).
  - intros s w0 Hi. by apply wp_scan_body.
  - split; [done|]. exists []. pose proof (len_nonneg f). split_and!; try done.
Qed.

Lemma wp_scan_locked C f r w :
  bytes_ok f -> file w = f -> (forall f', scan_failed r f f' -> C f') ->
  wp (scan_locked r) C (fun p w' =>
    (p.1 = AUDIT_OK /\ scan_ok r f p.2 (file w')) \/
    (p.1 <> AUDIT_OK /\ scan_failed r f (file w'))) w.
Proof.
  intros Hok F HC. assert (Hc : C f) by (apply HC; by left).
  unfold scan_locked. apply wp_bind. eapply wp_mono; [apply wp_file_size; by rewrite F|].
  intros [st n] w1 [[F1 _] D1]. cbn [fst snd] in *. rewrite F in *.
  wp_step; bool_hyps; [by apply wp_ret; right; split; [|left]|]. destruct D1 as [-> Hmax]; [done|].
  apply wp_bind. eapply wp_mono; [by apply wp_scan_loop|].
  intros [exit s] w2 [(F2 & es & Hes & Hpre & Hoff & Hle & He & Hcnt & Hl & Hp) Hx].
  cbn [fst snd] in *. cbv zeta.
  assert (Hsplit : f = chain_wire es ++ drop (Z.to_nat (offset s)) f).
  { rewrite <- Hpre. apply sub_0_split. pose proof (len_nonneg (chain_wire es)). lia. }
  assert (Hsum : forall t, mk_cr (count_ s) (offset s) (last_ s) (previous_hash s) t = summary es t).
  { intros t. unfold summary. by rewrite Hcnt, Hoff, Hl, Hp. }
  destruct exit as [|st2|st2].
  - apply wp_ret. left. split; [done|]. exists es, []. rewrite app_nil_r. cbn [snd].
    assert (f = chain_wire es).
    { rewrite Hsplit, drop_ge, app_nil_r; [done|]. rewrite Hx. unfold len. lia. }
    split_and!; try done; [congruence|]. left. by rewrite Hsum.
  - destruct Hx as [-> Hpart]. wp_step; bool_hyps; [by apply wp_ret; right; split; [|left]|].
    subst r. assert (Hbad : scan_failed true f (chain_wire es)).
    { right. split; [done|]. by eexists es, _. }
    apply wp_bind. rewrite Hoff. eapply wp_mono.
    { apply wp_truncate_fd with (f := chain_wire es); [rewrite F2; exact Hsplit|..].
      - by rewrite <- Hsplit.
      - by apply HC. }
    intros st3 w3 [[-> F3]|[Hst F3]].
    2: { rewrite <- Hsplit in F3. wp_step; bool_hyps; [|done]. apply wp_ret. right. by split; [|left]. }
    change (AUDIT_OK =? AUDIT_OK) with true. cbn [negb].
    apply wp_bind. eapply wp_mono; [apply wp_sync_fd; rewrite F3; by apply HC|].
    intros st4 w4 [F4 _]. rewrite F3 in F4.
    wp_step; bool_hyps; apply wp_ret; [right; by rewrite F4|left]. split; [done|].
    eexists es, _. split_and!; try done. right. by rewrite <- Hoff, Hsum.
  - apply wp_ret. right. by split; [|left].
Qed.

Lemma wp_fd_mode_valid C fd r w :
  C (file w) -> wp (fd_mode_valid fd r) C (fun _ w' => file w' = file w) w.
Proof.
  intros Hc. unfold fd_mode_valid. wp_step; [by apply wp_ret|].
  apply wp_bind, wp_sys_ok; [done|]. intros b w1 [F1 _].
  repeat wp_step; done.
Qed.

Lemma wp_chain_operation C fd r present f w :
  bytes_ok f -> file w = f -> (forall f', scan_failed r f f' -> C f') ->
  (forall res f', scan_ok r f res f' -> C f') ->
  wp (chain_operation fd r present) C (fun p w' =>
    (p.1 = AUDIT_OK /\ scan_ok r f p.2 (file w')) \/
    (p.1 <> AUDIT_OK /\ p.2 = zero_cr /\ (scan_failed r f (file w') \/ exists res, scan_ok r f res (file w')))) w.
Proof.
  intros Hok F HC HC'. assert (Hc : C f) by (apply HC; by left).
  unfold chain_operation. wp_step; [by apply wp_ret; right; split_and!; [|done|left; left]|].
  apply wp_bind. eapply wp_mono; [apply wp_fd_mode_valid; by rewrite F|].
  intros b w1 F1. rewrite F in F1.
  wp_step; [by apply wp_ret; right; split_and!; [|done|left; left]|].
  apply wp_bind. eapply wp_mono; [apply wp_lock_fd; by rewrite F1|].
  intros st w2 [F2 _]. rewrite F1 in F2.
  wp_step; bool_hyps; [by apply wp_ret; right; split_and!; [|done|left; left]|].
  apply wp_bind. eapply wp_mono; [by apply wp_scan_locked|].
  intros [st3 res] w3 H3. cbn [fst snd] in *.
  apply wp_bind. eapply wp_mono.
  { apply wp_unlock_fd. destruct H3 as [[_ H3]|[_ H3]]; [by eapply HC'|by apply HC]. }
  intros st4 w4 [F4 _]. apply wp_ret. cbn [fst snd]. rewrite F4.
  destruct H3 as [[-> H3]|[Hst H3]]; cbn [fst snd].
  - change (AUDIT_OK =? AUDIT_OK) with true. cbn [andb].
    destruct (st4 =? AUDIT_OK) eqn:E4; cbn [negb]; bool_hyps; [by left|].
    rewrite (proj2 (Z.eqb_neq _ _) E4). right. split_and!; [done|done|right; by eexists].
  - rewrite (proj2 (Z.eqb_neq _ _) Hst). cbn [andb]. rewrite (proj2 (Z.eqb_neq _ _) Hst).
    right. split_and!; [done|done|by left].
Qed.

(** ** Appending *)

Lemma chain_wire_snoc es e : chain_wire (es ++ [e]) = chain_wire es ++ next_wire es e.
Proof. unfold chain_wire, next_wire. rewrite chain_snoc. do 2 f_equal. lia. Qed.

Lemma sub_0_0 {A} (b : list A) : sub 0 0 b = [].
Proof. reflexivity. Qed.

Lemma append_file_scan f e es rest :
  log_of f es rest -> append_file f e (chain_wire es).
Proof.
  intros H. right. exists es, rest, 0. pose proof (len_nonneg (next_wire es e)).
  rewrite sub_0_0, app_nil_r. done.
Qed.

Lemma append_file_failed f e f' : scan_failed true f f' -> append_file f e f'.
Proof.
  intros [->|(_ & es & rest & Hes & Hf & Hp & ->)]; [by left|].
  apply (append_file_scan f e es rest). by split; [|split; [|right]].
Qed.

(** The write and, when it fails, the rollback. *)
Lemma wp_commit C f e es rest w :
  log_of f es rest -> file w = chain_wire es -> (forall f', append_file f e f' -> C f') ->
  wp (commit_record (next_wire es e) (len (next_wire es e)) (len (chain_wire es))) C
    (fun st w' => exists k, 0 <= k <= len (next_wire es e) /\
       file w' = chain_wire es ++ sub 0 k (next_wire es e) /\
       (st = AUDIT_OK -> k = len (next_wire es e))) w.
Proof.
  intros Hlog F HC.
  assert (Hpre : forall k, C (chain_wire es ++ sub 0 k (next_wire es e))).
  { intros k. apply HC. right. pose proof (len_nonneg (next_wire es e)).
    exists es, rest, (Z.max 0 (Z.min k (len (next_wire es e)))). split; [done|]. split; [lia|].
    f_equal. unfold sub. change (Z.to_nat 0) with 0%nat. rewrite !drop_0.
    destruct (Z.le_gt_cases k (len (next_wire es e))).
    - f_equal. lia.
    - rewrite !take_ge; [done|unfold len in *; lia..]. }
  apply wp_bind. eapply wp_mono; [by apply wp_write_exact_at|].
  intros st w1 (k & Hk & F1 & Hst). wp_step; bool_hyps.
  - rewrite Hst in * by done. eapply wp_mono; [apply wp_sync_fd; rewrite F1; apply Hpre|].
    intros st2 w2 [F2 _]. exists (len (next_wire es e)). split_and!; [lia|lia|congruence|done].
  - apply wp_ret. by exists k.
Qed.

Lemma wp_rollback C f e es rest k st w :
  log_of f es rest -> 0 <= k <= len (next_wire es e) ->
  file w = chain_wire es ++ sub 0 k (next_wire es e) -> st <> AUDIT_OK ->
  (forall f', append_file f e f' -> C f') ->
  wp (rollback (len (chain_wire es)) st) C
    (fun st' w' => st' <> AUDIT_OK /\ append_file f e (file w')) w.
Proof.
  intros Hlog Hk F Hst HC.
  assert (Hmid : append_file f e (chain_wire es ++ sub 0 k (next_wire es e)))
    by (right; by exists es, rest, k).
  assert (Hnew : append_file f e (chain_wire es)) by (by eapply append_file_scan).
  apply wp_bind. eapply wp_mono; [apply wp_truncate_fd; [exact F|by apply HC..]|].
  intros st1 w1 [[-> F1]|[Hs F1]].
  - apply wp_bind. change (AUDIT_OK =? AUDIT_OK) with true. cbn match.
    eapply wp_mono; [apply wp_sync_fd; rewrite F1; by apply HC|].
    intros st2 w2 [F2 _]. apply wp_ret. rewrite F2, F1. split; [|done].
    destruct (st2 =? AUDIT_OK) eqn:E; cbn [negb]; [done|]. by bool_hyps.
  - rewrite (proj2 (Z.eqb_neq _ _) Hs). apply wp_bind, wp_ret, wp_ret.
    rewrite (proj2 (Z.eqb_neq _ _) Hs). cbn [negb]. by rewrite F1.
Qed.

Lemma wp_append_locked C f ts payload plen w :
  let e := mk_entry ts (payload_of (caller payload) plen) in
  bytes_ok f -> file w = f -> (forall f', append_file f e f' -> C f') ->
  0 <= plen -> (forall p, payload = Some p -> len p = plen) ->
  wp (append_locked ts payload plen) C (fun p w' =>
    (p.1 = AUDIT_OK /\ exists es rest, log_of f es rest /\
       file w' = chain_wire (es ++ [e]) /\ p.2 = block_md (end_hash genesis 1 es) (len es + 1) e) \/
    (p.1 <> AUDIT_OK /\ p.2 = zero_md /\ append_file f e (file w'))) w.
Proof.
  intros e Hok F HC Hpl Hpay. unfold append_locked.
  apply wp_bind. eapply wp_mono.
  { apply (wp_scan_locked C f true); [done..|]. intros. by apply HC, append_file_failed. }
  intros [st cr] w1 H1. cbn [fst snd] in *.
  destruct H1 as [[-> (es & rest & Hes & Hf & F1 & Hmax & Hcr)]|[Hst H1]].
  2: { rewrite (proj2 (Z.eqb_neq _ _) Hst). apply wp_ret. right. split_and!; try done.
       by apply append_file_failed. }
  change (AUDIT_OK =? AUDIT_OK) with true. cbn [negb].
  assert (Hlog : log_of f es rest) by (split_and!; [done|done|destruct Hcr as [[? _]|(_ & ? & _)]; auto]).
  assert (Hsum : block_count cr = len es /\ valid_bytes cr = len (chain_wire es) /\
                 last_sequence cr = len es /\ last_hash cr = end_hash genesis 1 es).
  { by destruct Hcr as [[_ ->]|(_ & _ & ->)]. }
  destruct Hsum as (-> & -> & -> & ->).
  assert (Hold : forall st, st <> AUDIT_OK -> 
    (st = AUDIT_OK /\ (exists es rest, log_of f es rest /\ file w1 = chain_wire (es ++ [e]) /\
       zero_md = block_md (end_hash genesis 1 es) (len es + 1) e)) \/
    (st <> AUDIT_OK /\ zero_md = zero_md /\ append_file f e (file w1))).
  { intros. right. split_and!; [done..|]. rewrite F1. by eapply append_file_scan. }
  wp_step; bool_hyps; [by apply wp_ret, Hold|]. cbv zeta.
  pose proof (len_chain genesis 1 es genesis_len) as Hn. fold (chain_wire es) in Hn.
  pose proof (len_nonneg es). unfold AUDIT_WIRE_MIN, INT64_MAX in *.
  replace (if len es =? 0 then 1 else u64 (len es + 1)) with (len es + 1).
  2: { destruct (len es =? 0) eqn:E; bool_hyps; [lia|]. unfold u64. rewrite Z.mod_small; lia. }
  apply wp_bind, wp_sys_ok; [rewrite F1; by eapply HC, append_file_scan|].
  intros b w2 [F2 _]. rewrite F1 in F2. rewrite F1, <- F2 in Hold.
  wp_step; [by apply wp_ret, Hold|].
  apply wp_bind. eapply wp_mono.
  { apply wp_encode; [rewrite F2; by eapply HC, append_file_scan|done|..].
    - intros a p [= <- <-]. apply len_end_hash, genesis_len.
    - intros a p Hp. destruct payload as [p'|]; [|done]. injection Hp as <- <-. by apply Hpay. }
  intros r w3 [[F3 _] D3]. rewrite F2 in F3. rewrite F2, <- F3 in Hold.
  wp_step; bool_hyps; [by apply wp_ret, Hold|].
  destruct D3 as (a & prev & Hprev & _ & Hel & Hmx & -> & -> & Hmd); [done|].
  injection Hprev as <- <-. specialize (Hmd eq_refl). fold e in Hel, Hmd.
  assert (Hnl : AUDIT_WIRE_MIN + plen = len (next_wire es e)).
  { unfold next_wire. rewrite len_wire by apply len_end_hash, genesis_len. by rewrite Hel. }
  cbn [default]. fold e. fold (next_wire es e).
  rewrite Hnl. apply wp_bind. eapply wp_mono; [by apply (wp_commit C f e es rest)|].
  intros st w4 (k & Hk & F4 & Hst). wp_step; bool_hyps.
  - apply wp_bind. eapply wp_mono; [by apply (wp_rollback C f e es rest k)|].
    intros st2 w5 [Hst2 Hf2]. apply wp_ret. right. by split_and!.
  - apply wp_ret. left. split; [done|]. exists es, rest. split; [done|]. cbn [snd].
    rewrite F4, Hst, sub_full, chain_wire_snoc, Hmd by done. done.
Qed.

Lemma append_file_ok f e es rest : log_of f es rest -> append_file f e (chain_wire (es ++ [e])).
Proof.
  intros H. right. exists es, rest, (len (next_wire es e)).
  pose proof (len_nonneg (next_wire es e)). rewrite sub_full, chain_wire_snoc. split_and!; done || lia.
Qed.

Lemma wp_append C fd f ts payload plen present w :
  let e := mk_entry ts (payload_of (caller payload) plen) in
  bytes_ok f -> file w = f -> (forall f', append_file f e f' -> C f') ->
  0 <= plen -> (forall p, payload = Some p -> len p = plen) ->
  wp (alrios_audit_chain_append_fd fd ts payload plen present) C (fun p w' =>
    append_file f e (file w') /\
    (p.1 = AUDIT_OK -> exists es rest, log_of f es rest /\
       file w' = chain_wire (es ++ [e]) /\ p.2 = block_md (end_hash genesis 1 es) (len es + 1) e) /\
    (p.1 <> AUDIT_OK -> p.2 = zero_md)) w.
Proof.
  intros e Hok F HC Hpl Hpay. unfold alrios_audit_chain_append_fd. cbv zeta.
  assert (Hsame : forall w', file w' = f -> append_file f e (file w')) by (intros w' ->; by left).
  assert (Hc : C f) by (apply HC; by left).
  wp_step; [by apply wp_ret; split; [apply Hsame|]|].
  apply wp_bind. eapply wp_mono; [apply wp_fd_mode_valid; by rewrite F|].
  intros b w1 F1. rewrite F in F1. wp_step; [by apply wp_ret; split; [apply Hsame|]|].
  apply wp_bind. eapply wp_mono; [apply wp_lock_fd; by rewrite F1|].
  intros st w2 [F2 _]. rewrite F1 in F2.
  wp_step; bool_hyps; [by apply wp_ret; split; [apply Hsame|]|].
  apply wp_bind. eapply wp_mono; [by apply (wp_append_locked C f)|].
  intros [st3 md] w3 H3. cbn [fst snd] in *.
  assert (Hf3 : append_file f e (file w3)).
  { destruct H3 as [(_ & es & rest & ? & -> & _)|(_ & _ & ?)]; [by eapply append_file_ok|done]. }
  apply wp_bind. eapply wp_mono; [apply wp_unlock_fd; by apply HC|].
  intros st4 w4 [F4 _]. rewrite <- F4 in *.
  wp_step; bool_hyps; apply wp_ret; cbn [fst snd]; (split; [done|]).
  - by split.
  - destruct H3 as [[-> H3]|(Hn & -> & _)]; [|by split]. by split.
Qed.

(** ** A file determines its log *)

Lemma len_entry_bound e : entry_ok e -> 0 <= AUDIT_WIRE_MIN + len (en_payload e) < 2 ^ 32.
Proof.
  intros (_ & _ & H). unfold AUDIT_WIRE_MIN, AUDIT_PAYLOAD_MAX in *.
  pose proof (len_nonneg (en_payload e)). lia.
Qed.

(** Equal headers and payloads come from equal positions and entries. *)
Lemma header_inj p1 s1 e1 x1 p2 s2 e2 x2 :
  len p1 = 32 -> len p2 = 32 -> entry_ok e1 -> entry_ok e2 ->
  0 <= s1 < 2 ^ 64 -> 0 <= s2 < 2 ^ 64 ->
  block_header p1 s1 e1 ++ en_payload e1 ++ x1 = block_header p2 s2 e2 ++ en_payload e2 ++ x2 ->
  p1 = p2 /\ s1 = s2 /\ e1 = e2 /\ x1 = x2.
Proof.
  intros Hp1 Hp2 H1 H2 Hs1 Hs2 E. unfold block_header in E. rewrite <- !app_assoc in E.
  pose proof (len_entry_bound e1 H1). pose proof (len_entry_bound e2 H2).
  pose proof (len_nonneg (en_payload e1)). pose proof (len_nonneg (en_payload e2)).
  pose proof (sha_len (en_payload e1)). pose proof (sha_len (en_payload e2)).
  destruct H1 as (Ht1 & _ & Hl1). destruct H2 as (Ht2 & _ & Hl2). unfold AUDIT_WIRE_MIN in *.
  apply app_split in E as [_ E]; [|done]. apply app_split in E as [_ E]; [|done].
  apply app_split in E as [_ E]; [|done].
  apply app_split in E as [_ E]; [|by rewrite !len_store_u32].
  apply app_split in E as [El%store32_inj E]; [|lia || by rewrite !len_store_u32..].
  apply app_split in E as [_ E]; [|done].
  apply app_split in E as [Es%store64_inj E]; [|lia || by rewrite !len_store_u64..].
  apply app_split in E as [Et%store64_inj E]; [|lia || by rewrite !len_store_u64..].
  apply app_split in E as [Ep E]; [|lia]. apply app_split in E as [_ E]; [|lia].
  apply app_split in E as [Ey E]; [|lia].
  split_and!; try done. destruct e1, e2; cbn in *; congruence.
Qed.

Lemma block_wire_inj prev seq e1 x1 e2 x2 :
  len prev = 32 -> entry_ok e1 -> entry_ok e2 -> 0 <= seq < 2 ^ 64 ->
  block_wire prev seq e1 ++ x1 = block_wire prev seq e2 ++ x2 -> e1 = e2 /\ x1 = x2.
Proof.
  intros Hp H1 H2 Hs E. unfold block_wire in E. rewrite <- !app_assoc in E.
  apply header_inj in E as (_ & _ & -> & E); [|done..].
  apply app_split in E as [_ E]; [|by rewrite !len_hash]. done.
Qed.

(** A complete record is no partial record. *)
Lemma full_not_partial prev seq e x :
  len prev = 32 -> entry_ok e -> ~ partial_record (block_wire prev seq e ++ x).
Proof.
  intros Hp He (_ & _ & [Hl|(t & p & Hd & Hl)]); rewrite len_app, len_wire in Hl by done;
    pose proof (len_nonneg x); pose proof (len_nonneg (en_payload e)).
  - unfold AUDIT_HEADER_SIZE, AUDIT_WIRE_MIN in *. lia.
  - unfold block_wire in Hd. rewrite <- app_assoc in Hd.
    rewrite sub_here in Hd by (rewrite ?len_header; done).
    rewrite <- (app_nil_r (block_header _ _ _)) in Hd.
    rewrite decode_header_wire in Hd by done. injection Hd as <- <-. lia.
Qed.

Lemma log_unique_from prev seq es es' rest' :
  len prev = 32 -> Forall entry_ok es -> Forall entry_ok es' ->
  0 <= seq -> seq + len es + len es' < 2 ^ 64 ->
  chain_from prev seq es = chain_from prev seq es' ++ rest' ->
  rest' = [] \/ partial_record rest' -> es = es' /\ rest' = [].
Proof.
  revert prev seq es'. induction es as [|e es IH]; intros prev seq es' Hp Hes Hes' Hs Hb E Hr.
  - destruct es' as [|e' es']; cbn [chain_from] in E.
    + by rewrite app_nil_l in E.
    + apply (f_equal len) in E. rewrite !len_app, len_wire, len_nil in E by done.
      pose proof (len_nonneg (en_payload e')). pose proof (len_nonneg rest').
      pose proof (len_nonneg (chain_from (block_hash prev seq e') (seq + 1) es')).
      unfold AUDIT_WIRE_MIN in *. lia.
  - apply Forall_cons_iff in Hes as [He Hes]. rewrite len_cons in Hb.
    pose proof (len_nonneg es). pose proof (len_nonneg es').
    destruct es' as [|e' es']; cbn [chain_from] in E.
    + rewrite app_nil_l in E. subst rest'. exfalso. destruct Hr as [Hr|Hr].
      * apply (f_equal len) in Hr. rewrite len_app, len_wire, len_nil in Hr by done.
        pose proof (len_nonneg (en_payload e)).
        pose proof (len_nonneg (chain_from (block_hash prev seq e) (seq + 1) es)).
        unfold AUDIT_WIRE_MIN in *. lia.
      * by eapply full_not_partial.
    + apply Forall_cons_iff in Hes' as [He' Hes']. rewrite len_cons in Hb.
      pose proof (len_nonneg es'). rewrite <- app_assoc in E.
      apply block_wire_inj in E as [-> E]; [|done || lia..].
      apply IH in E as [-> ->]; [done|apply len_hash|done|done|lia|lia|done].
Qed.

Lemma log_unique es es' rest' :
  Forall entry_ok es -> len (chain_wire es) <= INT64_MAX ->
  log_of (chain_wire es) es' rest' -> es' = es /\ rest' = [].
Proof.
  intros Hes Hl (Hes' & E & Hr).
  pose proof (len_chain genesis 1 es genesis_len). pose proof (len_chain genesis 1 es' genesis_len).
  fold (chain_wire es) (chain_wire es') in *.
  assert (len (chain_wire es') <= len (chain_wire es)) by (rewrite E, len_app; pose proof (len_nonneg rest'); lia).
  unfold AUDIT_WIRE_MIN, INT64_MAX in *.
  destruct (log_unique_from genesis 1 es es' rest') as [-> ->]; try done; lia.
Qed.

(** ** Tamper evidence *)

Lemma hashed_inj p1 s1 e1 p2 s2 e2 :
  len p1 = 32 -> len p2 = 32 -> entry_ok e1 -> entry_ok e2 ->
  0 <= s1 < 2 ^ 64 -> 0 <= s2 < 2 ^ 64 ->
  hashed p1 s1 e1 = hashed p2 s2 e2 -> p1 = p2 /\ s1 = s2 /\ e1 = e2.
Proof.
  intros Hp1 Hp2 H1 H2 Hs1 Hs2 Em. apply app_split in Em as [_ Em]; [|done].
  rewrite <- (app_nil_r (en_payload e1)), <- (app_nil_r (en_payload e2)) in Em.
  apply header_inj in Em as (-> & -> & -> & _); done.
Qed.

Lemma messages_snoc prev seq es e :
  messages prev seq (es ++ [e]) = messages prev seq es ++ [hashed (end_hash prev seq es) (seq + len es) e].
Proof.
  revert prev seq. induction es as [|e' es IH]; intros; cbn [app messages end_hash].
  - by rewrite len_nil, Z.add_0_r.
  - rewrite IH, len_cons. do 4 f_equal. lia.
Qed.

Lemma length_messages prev seq es : length (messages prev seq es) = length es.
Proof. revert prev seq. induction es as [|e es IH]; intros; cbn; [done|by rewrite IH]. Qed.

(** A longer pair of logs collides where the shorter one does, or in its last blocks. *)
Lemma collide_snoc es1 e1 es2 e2 : blocks_collide es1 es2 -> blocks_collide (es1 ++ [e1]) (es2 ++ [e2]).
Proof.
  intros (i & m1 & m2 & H1 & H2 & H). exists i, m1, m2. rewrite !messages_snoc.
  split_and!; [by apply lookup_app_l_Some..|apply H|apply H].
Qed.

Lemma collide_last es1 e1 es2 e2 :
  len es1 = len es2 ->
  hashed (end_hash genesis 1 es1) (1 + len es1) e1 <> hashed (end_hash genesis 1 es2) (1 + len es2) e2 ->
  block_hash (end_hash genesis 1 es1) (1 + len es1) e1 = block_hash (end_hash genesis 1 es2) (1 + len es2) e2 ->
  blocks_collide (es1 ++ [e1]) (es2 ++ [e2]).
Proof.
  intros Hl Hne E. eexists (length es1), _, _. rewrite !messages_snoc. split_and!; [| |exact Hne|exact E].
  - rewrite lookup_app_r by (rewrite length_messages; lia). by rewrite length_messages, Nat.sub_diag.
  - unfold len in Hl. rewrite lookup_app_r by (rewrite length_messages; lia). rewrite length_messages.
    by replace (length es1 - length es2)%nat with 0%nat by lia.
Qed.

(** The last hash of a chain binds every entry before it. *)
Lemma end_hash_binds es1 es2 :
  Forall entry_ok es1 -> Forall entry_ok es2 -> len es1 = len es2 -> len es1 < 2 ^ 63 ->
  end_hash genesis 1 es1 = end_hash genesis 1 es2 -> es1 = es2 \/ blocks_collide es1 es2.
Proof.
  revert es2. induction es1 as [|e1 es1 IH] using rev_ind; intros es2 H1 H2 Hl Hb E.
  - left. destruct es2; [done|]. rewrite len_nil, len_cons in Hl. pose proof (len_nonneg es2). lia.
  - destruct es2 as [|e2 es2 _] using rev_ind.
    { rewrite len_app, len_cons, !len_nil in Hl. pose proof (len_nonneg es1). lia. }
    rewrite !len_app, !len_cons, !len_nil in Hl. rewrite len_app, len_cons, len_nil in Hb.
    apply Forall_app in H1 as [H1 He1%Forall_inv]. apply Forall_app in H2 as [H2 He2%Forall_inv].
    rewrite !end_hash_snoc in E. pose proof (len_nonneg es1).
    destruct (decide (hashed (end_hash genesis 1 es1) (1 + len es1) e1 = hashed (end_hash genesis 1 es2) (1 + len es2) e2)) as [Em|Hne];
      [|right; apply collide_last; [lia|done|done]].
    apply hashed_inj in Em as (Ep & _ & ->); try done; try lia; try apply len_end_hash, genesis_len.
    destruct (IH es2 H1 H2) as [->|Hc]; [lia|lia|done|by left|right; by apply collide_snoc].
Qed.

(** ** Undisturbed runs *)

(** No crash is possible. *)
#[local] Abbreviation nocrash := (fun _ : bytes => False).

Lemma smooth_retry n call err f w Q :
  smooth (S n) w ->
  (forall P, (forall w', file w' = f (file w) -> smooth n w' -> P (Res tt) w') -> wp call nocrash P w) ->
  (forall w', file w' = f (file w) -> smooth n w' -> Q AUDIT_OK w') ->
  wp (retry call err) nocrash Q w.
Proof.
  intros Hs Hcall HQ. unfold retry. eapply smooth_loop2; [done|]. intros k.
  apply wp_bind, Hcall. intros w' F S'. apply wp_ret. by apply HQ.
Qed.

Lemma smooth_sync_fd n Q w :
  smooth (S n) w -> (forall w', file w' = file w -> smooth n w' -> Q AUDIT_OK w') ->
  wp sync_fd nocrash Q w.
Proof.
  intros Hs HQ. eapply (smooth_retry n _ _ id); [done| |done].
  intros P HP. eapply (smooth_sys_unit n _ id); [done|by intros [? ? ?]|done].
Qed.

Lemma smooth_lock_fd n t Q w :
  smooth (S n) w -> (forall w', file w' = file w -> smooth n w' -> Q AUDIT_OK w') ->
  wp (lock_fd t) nocrash Q w.
Proof.
  intros Hs HQ. eapply (smooth_retry n _ _ id); [done| |done].
  intros P HP. eapply (smooth_sys_unit n _ id); [done|by intros [? ? ?]|done].
Qed.

Lemma smooth_unlock_fd n Q w :
  smooth (S n) w -> (forall w', file w' = file w -> smooth n w' -> Q AUDIT_OK w') ->
  wp unlock_fd nocrash Q w.
Proof.
  intros Hs HQ. apply wp_bind. eapply (smooth_sys_unit n _ id); [done|by intros [? ? ?]|].
  intros. by apply wp_ret, HQ.
Qed.

Lemma smooth_truncate_fd n f g Q w :
  smooth (S n) w -> file w = f ++ g -> len f <= INT64_MAX ->
  (forall w', file w' = f -> smooth n w' -> Q AUDIT_OK w') -> wp (truncate_fd (len f)) nocrash Q w.
Proof.
  intros Hs F Hl HQ. unfold truncate_fd. replace (len f >? INT64_MAX) with false by (symmetry; rewrite Z.gtb_ltb; lia).
  eapply (smooth_retry n _ _ (fun _ => f)); [done| |done]. intros P HP.
  eapply (smooth_sys_unit n _ (fun h => sub 0 (len f) (h ++ zeros (len f - len h)))); [done|by intros [? ? ?]|].
  intros w' F' S'. rewrite F, truncate_prefix in F' by done. by apply HP.
Qed.

Lemma smooth_read_exact_at n m off Q w :
  smooth (S m) w -> 0 < n <= SSIZE_MAX -> 0 <= off -> off + n <= len (file w) -> len (file w) <= INT64_MAX ->
  (forall w', file w' = file w -> smooth m w' -> Q (AUDIT_OK, sub off n (file w)) w') ->
  wp (read_exact_at n off) nocrash Q w.
Proof.
  intros Hs Hn Ho Hl Hmax HQ. unfold read_exact_at. unfold SSIZE_MAX, INT64_MAX in *.
  eapply smooth_loop2; [done|]. intros k. rewrite len_nil.
  replace (negb (0 <? n)) with false by (symmetry; apply negb_false_iff; lia).
  replace (off >? UINT64_MAX - 0) with false by (symmetry; rewrite Z.gtb_ltb; unfold UINT64_MAX; lia).
  cbv zeta. rewrite Z.add_0_r, Z.sub_0_r.
  replace (off >? 2 ^ 63 - 1) with false by (symmetry; rewrite Z.gtb_ltb; lia).
  replace (n >? 2 ^ 63 - 1) with false by (symmetry; rewrite Z.gtb_ltb; lia).
  apply wp_bind. eapply smooth_pread; [done|unfold SIZE_MAX, UINT64_MAX; lia|].
  intros w' F S'. apply wp_ret. rewrite len_sub by lia.
  replace (n >? 0) with true by (symmetry; rewrite Z.gtb_ltb; lia).
  rewrite app_nil_l, len_sub, Z.ltb_irrefl by lia. by apply wp_ret, HQ.
Qed.

Lemma smooth_digest_update n st d k w :
  smooth (S n) w -> st.1 = true -> (k <> 0 -> d <> None) ->
  wp (digest_update st d k) nocrash (fun st' w' => st'.1 = true /\ smooth n w') w.
Proof.
  intros Hs Ho Hd. destruct st as [ok m]. cbn in Ho. subst ok. unfold digest_update. cbn [andb].
  destruct (k =? 0) eqn:E; cbn [negb]; bool_hyps.
  { apply wp_ret. split; [done|]. eapply smooth_le; [done|lia]. }
  destruct d as [d|]; [|by destruct Hd].
  apply wp_bind. eapply smooth_sys_ok; [done|]. intros w' _ S'. by apply wp_ret.
Qed.

Lemma smooth_sha256_parts n a na b nb c nc w :
  smooth (6 + n) w ->
  (na <> 0 -> a <> None) -> (nb <> 0 -> b <> None) -> (nc <> 0 -> c <> None) ->
  wp (sha256_parts a na b nb c nc) nocrash (fun r w' => r.1 = AUDIT_OK /\ smooth n w') w.
Proof.
  intros Hs Ha Hb Hc. unfold sha256_parts.
  apply wp_bind. eapply smooth_sys_ok; [done|]. intros w0 _ S0. cbn [negb].
  apply wp_bind. eapply smooth_sys_ok; [done|]. intros w1 _ S1.
  apply wp_bind. eapply wp_mono; [by apply (smooth_digest_update (3 + n))|]. intros st2 w2 [O2 S2].
  apply wp_bind. eapply wp_mono; [by apply (smooth_digest_update (2 + n))|]. intros st3 w3 [O3 S3].
  apply wp_bind. eapply wp_mono; [by apply (smooth_digest_update (1 + n))|]. intros [ok m] w4 [O4 S4].
  cbn in O4. subst ok. apply wp_bind. eapply smooth_sys_ok; [done|]. intros w5 _ S5. by apply wp_ret.
Qed.

(** A canonical record is accepted. *)
Lemma smooth_verify n a prev seq e b md w :
  smooth (12 + n) w -> len prev = 32 -> entry_ok e -> 0 < seq < 2 ^ 64 ->
  ranges_overlap (At a (block_wire prev seq e)) (len (block_wire prev seq e)) (At b md) MD_SIZEOF = false ->
  wp (alrios_audit_block_verify (At a (block_wire prev seq e)) (len (block_wire prev seq e)) (At b md))
    nocrash (fun r w' => r.1 = AUDIT_OK /\ smooth n w') w.
Proof.
  intros Hs Hp He Hseq Hov. pose proof (len_nonneg (en_payload e)).
  unfold alrios_audit_block_verify. rewrite Hov. cbn [is_null negb andb].
  pose proof (len_wire prev seq e Hp) as Hl. unfold AUDIT_WIRE_MIN in Hl.
  destruct (header_fields prev seq e (en_payload e ++ block_hash prev seq e) Hp)
    as (_ & _ & _ & _ & _ & _ & Hsq & _ & _ & Hph & Hhd & Hdr).
  unfold block_wire in *. set (wire := block_header prev seq e ++ en_payload e ++ block_hash prev seq e) in *.
  unfold wire at 1. rewrite decode_header_wire by (done || lia). fold wire. unfold AUDIT_WIRE_MIN, AUDIT_HEADER_SIZE.
  rewrite Hl, Z.eqb_refl, Hsq, load_store_u64, Hdr by lia. cbn [negb].
  replace (seq =? 0) with false by (symmetry; lia).
  apply wp_bind. eapply wp_mono.
  { eapply wp_and; [apply (wp_sha256_parts (fun _ => True)); done|by apply (smooth_sha256_parts (6 + n))]. }
  intros [st ph] w1 [[_ D1] [O1 S1]]. cbn [fst snd] in *. subst st. specialize (D1 eq_refl).
  cbn [Z.eqb] in D1. rewrite !app_nil_r, sub_here, empty_payload in D1 by done. subst ph.
  change (AUDIT_OK =? AUDIT_OK) with true. cbn [negb]. rewrite Hph, bytes_eqb_refl. cbn [negb].
  apply wp_bind. eapply wp_mono.
  { eapply wp_and; [apply (wp_sha256_parts (fun _ => True)); done|by apply (smooth_sha256_parts n)]. }
  intros [st ph] w2 [[_ D2] [O2 S2]]. cbn [fst snd] in *. subst st. specialize (D2 eq_refl).
  change (len audit_hash_domain =? 0) with false in D2. cbn [Z.eqb] in D2.
  change (sub 0 (len audit_hash_domain) audit_hash_domain) with audit_hash_domain in D2.
  rewrite Hhd, sub_here, empty_payload in D2 by done. fold (hashed prev seq e) in D2; fold (block_hash prev seq e) in D2. subst ph.
  rewrite drop_app_length' by (unfold len; lia).
  rewrite sub_all by (by rewrite len_hash). rewrite bytes_eqb_refl. by apply wp_ret.
Qed.

Lemma len_next_wire es e : len (next_wire es e) = AUDIT_WIRE_MIN + len (en_payload e).
Proof. unfold next_wire. apply len_wire, len_end_hash, genesis_len. Qed.

Lemma chain_count_bound es f rest :
  f = chain_wire es ++ rest -> len f <= INT64_MAX -> 136 * len es <= INT64_MAX.
Proof.
  intros -> Hl. rewrite len_app in Hl. pose proof (len_chain genesis 1 es genesis_len).
  fold (chain_wire es) in *. pose proof (len_nonneg rest). unfold AUDIT_WIRE_MIN in *. lia.
Qed.

Lemma next_header es e : next_wire es e
  = block_header (end_hash genesis 1 es) (len es + 1) e
    ++ en_payload e ++ block_hash (end_hash genesis 1 es) (len es + 1) e.
Proof. reflexivity. Qed.

(** What the loop reads at the end of the records of [es]. *)
Lemma region_at es rest n f :
  f = chain_wire es ++ rest -> sub (len (chain_wire es)) n f = sub 0 n rest.
Proof. intros ->. rewrite sub_app_r by lia. by rewrite Z.sub_diag. Qed.

Lemma smooth_scan_record n f es e rest w :
  smooth (14 + n) w -> file w = f -> f = chain_wire es ++ next_wire es e ++ rest ->
  bytes_ok f -> len f <= INT64_MAX -> entry_ok e ->
  wp (scan_record (len f) (scan_at es) (len (next_wire es e))) nocrash
    (fun r w' => r = inl (scan_at (es ++ [e])) /\ file w' = f /\ smooth n w') w.
Proof.
  intros Hs F Hf Hok Hmax He. pose proof (chain_count_bound _ _ _ Hf Hmax) as Hcb.
  pose proof (len_nonneg es). pose proof (len_nonneg (chain_wire es)). pose proof (len_nonneg rest).
  pose proof (len_next_wire es e) as Hnl. pose proof (len_nonneg (en_payload e)).
  assert (Hsz : len f = len (chain_wire es) + len (next_wire es e) + len rest)
    by (rewrite Hf, !len_app; lia).
  pose proof (proj2 (proj2 He)) as Hpm. pose proof (len_end_hash genesis 1 es genesis_len) as Hp32.
  unfold scan_record, AUDIT_WIRE_MIN, AUDIT_PAYLOAD_MAX, INT64_MAX in *.
  apply wp_bind. eapply (smooth_sys_ok (13 + n)); [done|]. intros w1 F1 S1. cbn [negb]. rewrite F in F1.
  apply wp_bind. eapply (smooth_read_exact_at _ (12 + n));
    [done|unfold SSIZE_MAX; lia|cbn; lia|rewrite F1; cbn [offset scan_at]; lia|rewrite F1; unfold INT64_MAX; lia|].
  intros w2 F2 S2. rewrite F1 in *. cbn [offset scan_at].
  rewrite (region_at es _ _ f Hf), sub_here by done. change (AUDIT_OK =? AUDIT_OK) with true. cbn [negb].
  assert (Hno : bytes_ok (next_wire es e)).
  { rewrite Hf in Hok. apply bytes_ok_app in Hok as [_ Hok]. by apply bytes_ok_app in Hok as [? _]. }
  apply wp_bind. eapply wp_mono.
  { assert (Hdis := heap_local (next_wire es e) ltac:(unfold AUDIT_WIRE_MAX; lia)).
    eapply wp_and.
    - by apply (wp_verify (fun _ => True) (2 ^ 40) (next_wire es e) (2 ^ 46) zero_md).
    - unfold next_wire in *.
      apply (smooth_verify n (2 ^ 40) _ _ _ (2 ^ 46) zero_md); try done; lia. }
  intros [st md] w3 [[[F3 _] D3] [O3 S3]]. cbn [fst snd] in *. subst st.
  destruct (D3 eq_refl) as (p' & s' & e' & E & He' & Hp' & _ & Hs' & ->).
  rewrite next_header in E. unfold block_wire in E.
  apply header_inj in E as (<- & <- & <- & _); [|done || lia..].
  cbn [default md_sequence md_previous_hash md_block_hash block_md expected_sequence previous_hash count_ id scan_at offset].
  rewrite !Z.eqb_refl, bytes_eqb_refl. cbn [negb]. change (AUDIT_OK =? AUDIT_OK) with true. cbn [negb].
  replace (len (chain_wire es) >? UINT64_MAX - len (next_wire es e)) with false
    by (symmetry; rewrite Z.gtb_ltb; unfold UINT64_MAX; lia).
  replace (len es + 1 =? UINT64_MAX) with false by (symmetry; unfold UINT64_MAX; lia).
  cbn [andb]. apply wp_ret. split; [|by rewrite F3, F2].
  unfold scan_at. rewrite chain_wire_snoc, end_hash_snoc, !len_app, len_cons, len_nil.
  unfold u64. rewrite !Z.mod_small by lia. do 2 f_equal. f_equal. lia.
Qed.

(** The header of the next record, wherever the rest of it ends. *)
Lemma next_header_prefix es e k :
  104 <= k -> sub 0 104 (sub 0 k (next_wire es e))
              = block_header (end_hash genesis 1 es) (len es + 1) e.
Proof.
  intros Hk. rewrite sub_prefix by lia. rewrite next_header. apply sub_here; [done|].
  symmetry. apply len_header, len_end_hash, genesis_len.
Qed.

Lemma magic_of_header p s e : len p = 32 -> sub 0 8 (block_header p s e) = audit_magic.
Proof.
  intros Hp. destruct (header_fields p s e [] Hp) as (H & _). by rewrite app_nil_r in H.
Qed.

Lemma next_magic es e : sub 0 8 (next_wire es e) = audit_magic.
Proof.
  pose proof (len_end_hash genesis 1 es genesis_len) as Hp.
  rewrite <- (magic_of_header _ (len es + 1) e Hp), <- (next_header_prefix es e 104) by lia.
  by rewrite !sub_prefix by lia.
Qed.

(** An iteration on a complete record advances; on the prefix of one it leaves. *)
Lemma smooth_scan_body n f es e rest k w :
  smooth (16 + n) w -> file w = f -> f = chain_wire es ++ rest ->
  bytes_ok f -> len f <= INT64_MAX -> entry_ok e ->
  (k = len (next_wire es e) /\ (exists x, rest = next_wire es e ++ x) \/
   0 < k < len (next_wire es e) /\ rest = sub 0 k (next_wire es e)) ->
  wp (scan_body (len f) (scan_at es)) nocrash
    (fun r w' => file w' = f /\ smooth n w' /\
       r = if k =? len (next_wire es e) then inl (scan_at (es ++ [e]))
           else inr (PartialTail AUDIT_ERR_TRUNCATED, scan_at es)) w.
Proof.
  intros Hs F Hf Hok Hmax He Hk.
  pose proof (len_nonneg (chain_wire es)). pose proof (len_next_wire es e) as Hnl.
  pose proof (len_nonneg (en_payload e)). pose proof (proj2 (proj2 He)) as Hpm.
  pose proof (len_end_hash genesis 1 es genesis_len) as Hp32.
  assert (Hsz : len f = len (chain_wire es) + len rest) by (rewrite Hf, len_app; lia).
  unfold AUDIT_WIRE_MIN, AUDIT_PAYLOAD_MAX, INT64_MAX in *.
  assert (Hkl : k <= len rest /\ sub 0 k rest = sub 0 k (next_wire es e) /\ 0 < k /\
                (k < len (next_wire es e) -> len rest = k)).
  { destruct Hk as [[-> [x ->]]|[? ->]].
    - rewrite len_app. pose proof (len_nonneg x). rewrite sub_here, sub_full by done. repeat split; lia.
    - rewrite len_sub, sub_prefix by lia. repeat split; lia. }
  destruct Hkl as (Hkr & Hsk & Hk0 & Hshort).
  assert (Hks : forall m, 0 <= m <= k -> sub 0 m rest = sub 0 m (next_wire es e)).
  { intros m ?. rewrite <- (sub_prefix m k rest), Hsk by lia. by rewrite sub_prefix by lia. }
  assert (Hrd : forall m n' w' P, smooth (S n') w' -> file w' = f -> 0 < m <= k -> m <= SSIZE_MAX ->
    (forall w'', file w'' = f -> smooth n' w'' -> P (AUDIT_OK, sub 0 m (next_wire es e)) w'') ->
    wp (read_exact_at m (len (chain_wire es))) nocrash P w').
  { intros m n' w' P S' F' Hm Hm2 HP. eapply smooth_read_exact_at; [done|lia|lia|rewrite F'; lia|rewrite F'; unfold INT64_MAX; lia|].
    rewrite F', (region_at es rest m f Hf), Hks by lia. exact HP. }
  assert (Hkle : k <= len (next_wire es e)) by (destruct Hk as [[-> _]|[? _]]; lia).
  unfold scan_body. cbn [offset scan_at]. unfold SSIZE_MAX in *.
  replace (len (chain_wire es) <? len f) with true by (symmetry; lia). cbn [negb]. cbv zeta.
  replace (len f - len (chain_wire es)) with (len rest) by lia.
  destruct (len rest <? 8) eqn:E8; bool_hyps.
  { rewrite Hshort in * by lia. replace (k =? len (next_wire es e)) with false by (symmetry; lia).
    apply wp_bind. eapply (Hrd k (15 + n)%nat); [done|done|lia|lia|]. intros w1 F1 S1.
    change (AUDIT_OK =? AUDIT_OK) with true. cbn [negb].
    unfold magic_prefix. replace (k <=? 8) with true by (symmetry; lia). cbn [andb].
    rewrite sub_prefix, <- (next_magic es e), sub_prefix, bytes_eqb_refl by lia. cbn [negb].
    apply wp_ret. split_and!; [done|eapply smooth_le; [done|lia]|done]. }
  apply wp_bind. eapply (Hrd 8 (15 + n)%nat); [done|done|lia|lia|]. intros w1 F1 S1.
  change (AUDIT_OK =? AUDIT_OK) with true. rewrite next_magic, bytes_eqb_refl. cbn [negb].
  unfold AUDIT_HEADER_SIZE. destruct (len rest <? 104) eqn:E104; bool_hyps.
  { replace (k =? len (next_wire es e)) with false by (symmetry; lia).
    apply wp_ret. split_and!; [done|eapply smooth_le; [done|lia]|done]. }
  apply wp_bind. eapply (Hrd 104 (14 + n)%nat); [done|done|lia|lia|]. intros w2 F2 S2.
  change (AUDIT_OK =? AUDIT_OK) with true. cbn [negb].
  rewrite <- (sub_prefix 104 104), next_header_prefix by lia.
  rewrite <- (app_nil_r (block_header _ _ _)), decode_header_wire by (done || lia).
  unfold AUDIT_WIRE_MIN. rewrite <- Hnl.
  destruct Hk as [[-> [x Hx]]|[? Hx]].
  - rewrite Z.eqb_refl. replace (len (next_wire es e) >? len rest) with false by (symmetry; rewrite Z.gtb_ltb; lia).
    eapply wp_mono; [eapply (smooth_scan_record n f es e x); try done; congruence|].
    intros r w3 (-> & F3 & S3). done.
  - replace (k =? len (next_wire es e)) with false by (symmetry; lia).
    replace (len (next_wire es e) >? len rest) with true by (symmetry; rewrite Z.gtb_ltb; lia).
    apply wp_ret. split_and!; [done|eapply smooth_le; [done|lia]|done].
Qed.

Lemma chain_wire_app es1 e es2 :
  exists x, chain_wire (es1 ++ e :: es2) = chain_wire es1 ++ next_wire es1 e ++ x.
Proof.
  replace (es1 ++ e :: es2) with ((es1 ++ [e]) ++ es2) by (by rewrite <- app_assoc).
  generalize (chain_wire_snoc es1 e). generalize (es1 ++ [e]). intros l E.
  cut (exists x, chain_wire (l ++ es2) = chain_wire l ++ x).
  { intros [x ->]. exists x. by rewrite E, <- app_assoc. }
  clear E. induction es2 as [|e2 es2 [x IH]] using rev_ind.
  - exists []. by rewrite !app_nil_r.
  - rewrite app_assoc, chain_wire_snoc, IH. eexists. by rewrite <- app_assoc.
Qed.

Lemma smooth_scan_loop n f es e w :
  smooth (16 * length es + 16 + n) w -> file w = f -> torn es e f ->
  wp (io_loop (scan_body (len f)) (mk_scan 0 1 (zeros AUDIT_HASH_SIZE) 0 0)) nocrash
    (fun r w' => file w' = f /\ smooth n w' /\
       r = (if len f =? len (chain_wire es) then Success else PartialTail AUDIT_ERR_TRUNCATED,
            scan_at es)) w.
Proof.
  intros Hs F (Hes & He & Hok & Hmax & k & Hk & Hf).
  assert (Hkl : len (sub 0 k (next_wire es e)) = k) by (rewrite len_sub; lia).
  apply wp_io_loop with (I := fun s w => file w = f /\ scan_inv f s w /\ exists es1 es2,
    es = es1 ++ es2 /\ s = scan_at es1 /\ smooth (16 * length es2 + 16 + n) w).
  2: { split; [done|]. split; [|by exists [], es].
       split; [done|]. exists []. pose proof (len_nonneg f). split_and!; try done. }
  intros s w0 (F0 & Hinv & es1 & es2 & -> & -> & S0).
  destruct es2 as [|e2 es2].
  - rewrite app_nil_r in *. cbn [length Nat.mul Nat.add] in S0.
    assert (Hsz : len f = len (chain_wire es1) + k) by (rewrite Hf, len_app; lia).
    destruct (decide (k = 0)) as [->|Hk0].
    { unfold scan_body. cbn [offset scan_at]. rewrite Hsz, Z.add_0_r, Z.ltb_irrefl, Z.eqb_refl.
      apply wp_ret. split_and!; [done|eapply smooth_le; [done|lia]|done]. }
    eapply wp_mono.
    { eapply (smooth_scan_body n f es1 e (sub 0 k (next_wire es1 e)) k); try done. right. split; [lia|done]. }
    intros r w1 (F1 & S1 & ->). replace (k =? len (next_wire es1 e)) with false by (symmetry; lia).
    replace (len f =? len (chain_wire es1)) with false by (symmetry; lia). done.
  - destruct (chain_wire_app es1 e2 es2) as [x Hx]. rewrite Hx, <- !app_assoc in Hf.
    apply Forall_app in Hes as [Hes1 Hes2]. apply Forall_cons_iff in Hes2 as [He2 _].
    eapply wp_mono.
    { eapply wp_and; [by apply (wp_scan_body (fun _ => True))|].
      eapply (smooth_scan_body (16 * length es2 + 16 + n) f es1 e2 _ (len (next_wire es1 e2)));
        [eapply smooth_le; [exact S0|cbn [length]; lia]|done|exact Hf|done|done|done|].
      left. split; [done|]. by eexists. }
    intros r w1 (H1 & F1 & S1 & ->). rewrite Z.eqb_refl in *. destruct H1 as [Hi1 Hl1].
    split; [|done]. split; [done|]. split; [done|]. exists (es1 ++ [e2]), es2.
    by rewrite <- app_assoc.
Qed.

Lemma smooth_scan_locked n r f es e w :
  smooth (16 * length es + 19 + n) w -> file w = f -> torn es e f ->
  (r = true \/ f = chain_wire es) ->
  wp (scan_locked r) nocrash
    (fun p w' => file w' = chain_wire es /\ smooth n w' /\
       p = (AUDIT_OK, summary es (if len f =? len (chain_wire es) then 0 else 1))) w.
Proof.
  intros Hs F Ht Hr. pose proof Ht as (_ & _ & _ & Hmax & k & Hk & Hf).
  assert (Hkl : len (sub 0 k (next_wire es e)) = k) by (rewrite len_sub; lia).
  assert (Hsz : len f = len (chain_wire es) + k) by (rewrite Hf, len_app; lia).
  unfold scan_locked. apply wp_bind, wp_bind.
  eapply (smooth_sys_ok (16 * length es + 18 + n)); [eapply smooth_le; [done|lia]|]. intros w1 F1 S1. cbn [negb].
  apply wp_bind. unfold wp at 1, get_file. rewrite F1, F.
  replace (len f >? INT64_MAX) with false by (symmetry; rewrite Z.gtb_ltb; lia).
  apply wp_ret. change (AUDIT_OK =? AUDIT_OK) with true. cbn [negb].
  apply wp_bind. eapply wp_mono.
  { eapply (smooth_scan_loop (2 + n) f es e); [eapply smooth_le; [done|lia]|congruence|done]. }
  intros r1 w2 (F2 & S2 & ->). cbv zeta. cbn [count_ offset last_ previous_hash scan_at].
  destruct (len f =? len (chain_wire es)) eqn:E; bool_hyps.
  - apply wp_ret. assert (k = 0) as -> by lia. rewrite sub_0_0, app_nil_r in Hf.
    split_and!; [congruence|eapply smooth_le; [done|lia]|done].
  - destruct Hr as [->|Hr]; [|by rewrite Hr in E]. cbn [negb].
    apply wp_bind. eapply (smooth_truncate_fd (1 + n) (chain_wire es)); [done|by rewrite F2|lia|].
    intros w3 F3 S3. change (AUDIT_OK =? AUDIT_OK) with true. cbn [negb].
    apply wp_bind. eapply (smooth_sync_fd n); [done|]. intros w4 F4 S4.
    change (AUDIT_OK =? AUDIT_OK) with true. cbn [negb]. apply wp_ret. by rewrite F4.
Qed.

Lemma smooth_fd_mode n fd r w Q :
  smooth (S n) w -> fd_ok fd r -> (forall w', file w' = file w -> smooth n w' -> Q true w') ->
  wp (fd_mode_valid fd r) nocrash Q w.
Proof.
  intros Hs [Hn Hm] HQ. unfold fd_mode_valid. replace (fd_number fd <? 0) with false by (symmetry; lia).
  apply wp_bind. eapply smooth_sys_ok; [done|]. intros w' F S'. cbn [negb].
  destruct Hm as [->|[-> ->]]; [destruct r|]; apply wp_ret; by apply HQ.
Qed.

Lemma smooth_chain_operation n fd r f es e w :
  smooth (16 * length es + 22 + n) w -> file w = f -> torn es e f -> fd_ok fd r ->
  (r = true \/ f = chain_wire es) ->
  wp (chain_operation fd r true) nocrash
    (fun p w' => file w' = chain_wire es /\
       p = (AUDIT_OK, summary es (if len f =? len (chain_wire es) then 0 else 1))) w.
Proof.
  intros Hs F Ht Hfd Hr. unfold chain_operation. cbn [negb].
  apply wp_bind. eapply (smooth_fd_mode (16 * length es + 21 + n)); [eapply smooth_le; [done|lia]|done|].
  intros w1 F1 S1. cbn [negb].
  apply wp_bind. eapply (smooth_lock_fd (16 * length es + 20 + n)); [eapply smooth_le; [done|lia]|].
  intros w2 F2 S2. change (AUDIT_OK =? AUDIT_OK) with true. cbn [negb].
  apply wp_bind. eapply wp_mono.
  { eapply (smooth_scan_locked (1 + n) r f es e); [eapply smooth_le; [done|lia]|congruence|done|done]. }
  intros p w3 (F3 & S3 & ->).
  apply wp_bind. eapply (smooth_unlock_fd n); [done|]. intros w4 F4 S4.
  change (AUDIT_OK =? AUDIT_OK) with true. cbn [andb negb]. apply wp_ret.
  change (AUDIT_OK =? AUDIT_OK) with true. split; [congruence|done].
Qed.

Lemma bytes_ok_next es e :
  entry_ok e -> bytes_ok (end_hash genesis 1 es) -> bytes_ok (next_wire es e).
Proof.
  intros (_ & Hp & _) Hh. unfold next_wire, block_wire, block_header, block_hash.
  rewrite !bytes_ok_app. split_and!; try done; try apply sha_ok; try apply bytes_ok_zeros;
    try apply store_u16_ok; try apply store_u32_ok; try apply store_u64_ok; apply bytes_okb_ok; done.
Qed.

Lemma bytes_ok_end_hash es : bytes_ok (end_hash genesis 1 es).
Proof.
  destruct es as [|e es _] using rev_ind; [apply bytes_ok_zeros|].
  rewrite end_hash_snoc. apply sha_ok.
Qed.

Lemma bytes_ok_chain es : Forall entry_ok es -> bytes_ok (chain_wire es).
Proof.
  induction es as [|e es IH] using rev_ind; intros H; [apply Forall_nil_2|].
  apply Forall_app in H as [H He%Forall_inv]. rewrite chain_wire_snoc.
  apply bytes_ok_app. split; [by apply IH|]. apply bytes_ok_next; [done|apply bytes_ok_end_hash].
Qed.

(** Every file an append can leave is a log with an incomplete last record. *)
Lemma append_file_torn es e f :
  Forall entry_ok es -> entry_ok e ->
  len (chain_wire es) + AUDIT_WIRE_MIN + len (en_payload e) <= INT64_MAX ->
  append_file (chain_wire es) e f ->
  exists es' e', torn es' e' f /\ (length es' <= length (es ++ [e]))%nat /\
    (es' = es \/ es' = es ++ [e]) /\ (f = chain_wire (es ++ [e]) -> es' = es ++ [e]).
Proof.
  intros Hes He Hmax Hf. pose proof (len_next_wire es e) as Hnl.
  pose proof (len_nonneg (en_payload e)). pose proof (chain_wire_snoc es e) as Hsnoc.
  unfold AUDIT_WIRE_MIN in *. rewrite length_app.
  assert (Hpre : forall k, 0 <= k < len (next_wire es e) ->
            f = chain_wire es ++ sub 0 k (next_wire es e) ->
            torn es e f /\ (f = chain_wire (es ++ [e]) -> es = es ++ [e])).
  { intros k Hk E. split.
    - split; [done|]. split; [done|]. split; [|split; [rewrite E, len_app, len_sub by lia; lia|by exists k]].
      rewrite E. apply bytes_ok_app. split; [by apply bytes_ok_chain|].
      apply bytes_ok_sub, bytes_ok_next; [done|apply bytes_ok_end_hash].
    - intros E2. exfalso. rewrite E2, Hsnoc in E. apply app_inv_head in E.
      apply (f_equal len) in E. rewrite len_sub in E by lia. lia. }
  destruct Hf as [E|(es0 & rest & k & Hlog & Hk & E)].
  { exists es, e. destruct (Hpre 0) as [Ht Hx]; [lia|by rewrite E, sub_0_0, app_nil_r|].
    split_and!; [done|lia|by left|done]. }
  apply log_unique in Hlog as [-> ->]; [|done|lia].
  destruct (decide (k = len (next_wire es e))) as [->|Hne].
  2: { exists es, e. destruct (Hpre k) as [Ht Hx]; [lia|done|]. split_and!; [done|lia|by left|done]. }
  rewrite sub_full, <- Hsnoc in E. exists (es ++ [e]), e.
  split; [|split; [rewrite length_app; lia|split; [by right|done]]].
  pose proof (len_next_wire (es ++ [e]) e). unfold AUDIT_WIRE_MIN in *.
  split; [apply Forall_app; split; [done|by apply Forall_singleton]|]. split; [done|].
  split; [|split; [rewrite E, Hsnoc, len_app; lia|]].
  - rewrite E, Hsnoc. apply bytes_ok_app. split; [by apply bytes_ok_chain|].
    apply bytes_ok_next; [done|apply bytes_ok_end_hash].
  - exists 0. rewrite sub_0_0, app_nil_r. split; [lia|done].
Qed.

(** ** Properties *)

(** C2: an append run against any sequence of short writes, interruptions,
    errors and a crash at any call leaves the old log or the log extended by the
    new entry, up to an incomplete last record that an undisturbed recovery
    removes; the new entry is there whenever the append reported success. *)
Theorem append_crash_recover fd ts payload plen present w es n :
  let e := mk_entry ts (payload_of (caller payload) plen) in
  Forall entry_ok es -> entry_ok e -> file w = chain_wire es ->
  len (chain_wire es) + AUDIT_WIRE_MIN + plen <= INT64_MAX ->
  0 <= plen -> (forall p, payload = Some p -> len p = plen) ->
  let run := alrios_audit_chain_append_fd fd ts payload plen present w in
  forall w', file w' = file run.2 -> smooth (16 * length (es ++ [e]) + 22 + n) w' -> fd_ok fd true ->
  exists es' tail w'',
    alrios_audit_chain_recover_fd fd true w' = (Ret (AUDIT_OK, summary es' tail), w'') /\
    file w'' = chain_wire es' /\ (es' = es \/ es' = es ++ [e]) /\
    (forall md, run.1 = Ret (AUDIT_OK, md) -> es' = es ++ [e]).
Proof.
  intros e Hes He F Hmax Hpl Hpay run w' F' Hsm Hfd.
  assert (Hmax0 : len (chain_wire es) <= INT64_MAX) by (unfold AUDIT_WIRE_MIN in *; lia).
  assert (Hle : len (en_payload e) <= plen).
  { unfold e, payload_of. cbn [en_payload]. destruct payload as [p|]; cbn [caller val_of]; [|rewrite len_nil; lia].
    pose proof (len_sub_le 0 plen p). lia. }
  assert (Hrun : wp (alrios_audit_chain_append_fd fd ts payload plen present)
            (append_file (chain_wire es) e)
            (fun p w' => append_file (chain_wire es) e (file w') /\
               (p.1 = AUDIT_OK -> file w' = chain_wire (es ++ [e]))) w).
  { eapply wp_mono; [apply (wp_append _ fd (chain_wire es)); try done; by apply bytes_ok_chain|].
    intros p w1 (Hf & Hok & _). split; [done|]. intros Hst. destruct (Hok Hst) as (es' & rest & Hlog & -> & _).
    by apply log_unique in Hlog as [-> _]. }
  assert (Hfile : append_file (chain_wire es) e (file w') /\
            (forall md, run.1 = Ret (AUDIT_OK, md) -> file w' = chain_wire (es ++ [e]))).
  { rewrite F'. unfold wp in Hrun. fold run in Hrun. destruct run as [[p| |] w1]; cbn in *; try done.
    destruct Hrun as [? Hok]. split; [done|]. intros md [= ->]. by apply Hok. }
  clear Hrun. destruct Hfile as [Hf Hret]. clearbody run.
  destruct (append_file_torn es e (file w')) as (es' & e' & Ht & Hlen & Hcase & Hnew); try done; [lia|].
  assert (Hrec : wp (alrios_audit_chain_recover_fd fd true) (fun _ => False) (fun p w'' =>
            file w'' = chain_wire es' /\
            p = (AUDIT_OK, summary es' (if len (file w') =? len (chain_wire es') then 0 else 1))) w').
  { eapply (smooth_chain_operation n); [eapply smooth_le; [done|lia]|done|done|done|by left]. }
  unfold wp in Hrec. destruct (alrios_audit_chain_recover_fd fd true w') as [[p| |] w'']; [|done|done].
  destruct Hrec as [F2 ->]. eexists es', _, w''. split_and!; [reflexivity|done|done|].
  intros md Hr. apply Hnew. by eapply Hret.
Qed.

(** A verification leaves the file alone, and succeeds only on a chain. *)
Lemma wp_verify_fd fd present f w :
  bytes_ok f -> file w = f ->
  wp (alrios_audit_chain_verify_fd fd present) (fun f' => f' = f)
    (fun p w' => file w' = f /\
       (p.1 = AUDIT_OK ->
        exists es, Forall entry_ok es /\ f = chain_wire es /\ len f <= INT64_MAX /\ p.2 = summary es 0)) w.
Proof.
  intros Hok F. eapply wp_mono.
  { apply (wp_chain_operation _ fd false present f); try done.
    - intros f' [->|[? _]]; done.
    - intros res f' (es & rest & _ & -> & -> & _ & [[-> _]|[? _]]); [by rewrite app_nil_r|done]. }
  intros [st res] w' H. cbn [fst snd] in *.
  assert (Hsplit : forall res, scan_ok false f res (file w') ->
     file w' = f /\ exists es, Forall entry_ok es /\ f = chain_wire es /\ len f <= INT64_MAX /\ res = summary es 0).
  { intros r (es & rest & Hes & Hf & F' & Hl & [[-> ->]|[? _]]); [|done].
    rewrite app_nil_r in Hf. split; [congruence|by exists es]. }
  destruct H as [[-> H]|(Hst & _ & [[->|[? _]]|[r H]])]; try done.
  - destruct (Hsplit _ H) as [-> H2]. by split.
  - destruct (Hsplit _ H) as [-> _]. by split.
Qed.

(** Whatever the environment does, [alrios_audit_chain_verify_fd] terminates
    or is killed without touching the file, and an accepted file is byte for
    byte the chain of a list of entries, which the result summarises (an incomplete
    tail is refused). *)
Theorem verify_fd_sound fd present f w :
  bytes_ok f -> file w = f ->
  wp (alrios_audit_chain_verify_fd fd present) (fun f' => f' = f)
    (fun p w' => file w' = f /\
       (p.1 = AUDIT_OK ->
        exists es, Forall entry_ok es /\ f = chain_wire es /\ p.2 = summary es 0)) w.
Proof.
  intros Hok F. eapply wp_mono; [by apply wp_verify_fd|]. intros [st res] w' [H H']. split; [done|].
  intros Hst. destruct (H' Hst) as (es & ? & ? & _ & ?). by exists es.
Qed.

(** Undisturbed, [alrios_audit_chain_verify_fd] accepts every log and
    reports its length, its size and its last hash. *)
Theorem verify_fd_complete fd es w n :
  Forall entry_ok es -> len (chain_wire es) <= INT64_MAX -> file w = chain_wire es ->
  smooth (16 * length es + 22 + n) w -> fd_ok fd false ->
  exists w', alrios_audit_chain_verify_fd fd true w = (Ret (AUDIT_OK, summary es 0), w').
Proof.
  intros Hes Hl F Hs Hfd. 
  assert (Ht : torn es (mk_entry 0 []) (chain_wire es)).
  { split; [done|]. split; [split_and!; cbn; try lia; [apply Forall_nil_2|done]|].
    split; [by apply bytes_ok_chain|]. split; [done|]. exists 0. rewrite sub_0_0, app_nil_r, len_next_wire.
    pose proof (len_nonneg (en_payload (mk_entry 0 []))). split; [unfold AUDIT_WIRE_MIN; lia|done]. }
  pose proof (smooth_chain_operation n fd false _ es _ w Hs F Ht Hfd (or_intror eq_refl)) as Hrun.
  unfold alrios_audit_chain_verify_fd, wp in *.
  destruct (chain_operation fd false true w) as [[p| |] w']; [|done|done].
  destruct Hrun as [_ ->]. rewrite Z.eqb_refl. by exists w'.
Qed.

(** C32: the reported count and last hash authenticate the whole file: two accepted files with
    the same report are equal, or they are the files of two logs that have, at the same
    position, blocks that differ in their hashed octets and have the same SHA-256. *)
Theorem audit_tamper_evident fd1 fd2 w1 w2 w1' w2' res1 res2 :
  bytes_ok (file w1) -> bytes_ok (file w2) ->
  alrios_audit_chain_verify_fd fd1 true w1 = (Ret (AUDIT_OK, res1), w1') ->
  alrios_audit_chain_verify_fd fd2 true w2 = (Ret (AUDIT_OK, res2), w2') ->
  block_count res1 = block_count res2 -> last_hash res1 = last_hash res2 ->
  file w1 = file w2 \/
  exists es1 es2, file w1 = chain_wire es1 /\ file w2 = chain_wire es2 /\ blocks_collide es1 es2.
Proof.
  intros B1 B2 E1 E2 Hc Hh.
  assert (Hsound : forall fd w w' res, bytes_ok (file w) ->
    alrios_audit_chain_verify_fd fd true w = (Ret (AUDIT_OK, res), w') ->
    exists es, Forall entry_ok es /\ file w = chain_wire es /\ res = summary es 0 /\ len (file w) <= INT64_MAX).
  { intros fd w w' res Hok E.
    assert (Hwp := wp_chain_operation (fun _ => True) fd false true (file w) w Hok eq_refl
                     ltac:(done) ltac:(done)).
    unfold alrios_audit_chain_verify_fd in E. unfold wp in Hwp. rewrite E in Hwp. cbn [fst snd] in Hwp.
    destruct Hwp as [[_ (es & rest & Hes & Hf & _ & Hl & [[-> ->]|[? _]])]|[? _]]; try done.
    exists es. by rewrite app_nil_r in Hf. }
  destruct (Hsound _ _ _ _ B1 E1) as (es1 & H1 & F1 & -> & L1).
  destruct (Hsound _ _ _ _ B2 E2) as (es2 & H2 & F2 & -> & L2). cbn in Hc, Hh.
  pose proof (chain_count_bound es1 (file w1) [] ltac:(by rewrite app_nil_r) L1).
  unfold INT64_MAX in *.
  destruct (end_hash_binds es1 es2 H1 H2 Hc ltac:(lia) Hh) as [->|?]; [left; congruence|].
  right. exists es1, es2. by split_and!.
Qed.

(** A recovery that succeeds keeps every complete record: the file was a
    log followed by nothing or by the recognisable beginning of one record, and is
    now that log. *)
Theorem recover_keeps_log fd f w w' res :
  bytes_ok f -> file w = f ->
  alrios_audit_chain_recover_fd fd true w = (Ret (AUDIT_OK, res), w') ->
  exists es rest, Forall entry_ok es /\ f = chain_wire es ++ rest /\ file w' = chain_wire es /\
    (rest = [] /\ res = summary es 0 \/ partial_record rest /\ res = summary es 1).
Proof.
  intros Hok F E.
  assert (Hwp := wp_chain_operation (fun _ => True) fd true true f w Hok F ltac:(done) ltac:(done)).
  unfold alrios_audit_chain_recover_fd in E. unfold wp in Hwp. rewrite E in Hwp. cbn [fst snd] in Hwp.
  destruct Hwp as [[_ (es & rest & Hes & Hf & F' & _ & Hr)]|[? _]]; [|done].
  exists es, rest. split_and!; try done. destruct Hr as [?|(_ & ? & ?)]; auto.
Qed.

(** The verifier accepts what the encoder writes, in any address space and
    any world, and reports the metadata the encoder reported. *)
Theorem audit_block_roundtrip prevp seq ts payload plen out cap wr outmd w w1 r wire a b md w2 n :
  0 <= plen -> 0 <= ts < 2 ^ 64 -> 0 <= seq < 2 ^ 64 ->
  (forall a p, prevp = At a p -> len p = 32 /\ bytes_ok p) ->
  (forall a p, payload = At a p -> len p = plen /\ bytes_ok p) ->
  alrios_audit_block_encode prevp seq ts payload plen out cap wr outmd w = (Ret r, w1) ->
  e_status r = AUDIT_OK -> e_wire r = Some wire ->
  ranges_overlap (At a wire) (len wire) (At b md) MD_SIZEOF = false -> smooth (12 + n) w2 ->
  len wire = e_written r /\
  exists w3 m, alrios_audit_block_verify (At a wire) (len wire) (At b md) w2 = (Ret (AUDIT_OK, Some m), w3) /\
    md_sequence m = seq /\ md_timestamp_ns m = ts /\
    (is_null outmd = false -> e_metadata r = Some m).
Proof.
  intros Hpl Hts Hsq Hprev Hpay E Hst Hwire Hov Hs.
  assert (Henc := wp_encode (fun _ => True) prevp seq ts payload plen out cap wr outmd w
    ltac:(done) Hpl (fun a p H => proj1 (Hprev a p H)) (fun a p H => proj1 (Hpay a p H))).
  unfold wp in Henc. rewrite E in Henc. destruct Henc as [_ Henc].
  destruct (Henc Hst) as (a' & prev & -> & Hne & Hl & Hmx & -> & Hw & Hmd). clear Henc E.
  rewrite Hw in Hwire. injection Hwire as <-.
  destruct (Hprev _ _ eq_refl) as [Hp32 Hpok]. set (e := mk_entry ts (payload_of payload plen)) in *.
  assert (He : entry_ok e).
  { split; [done|]. split; [|by rewrite Hl]. cbn. unfold payload_of. destruct payload as [|c p]; cbn.
    - apply Forall_nil_2.
    - apply bytes_ok_sub. by apply (Hpay c p). }
  split; [by rewrite len_wire, Hl|].
  assert (Hwok : bytes_ok (block_wire prev seq e)).
  { unfold block_wire, block_header, block_hash. rewrite !bytes_ok_app.
    split_and!; try done; try apply sha_ok; try apply bytes_ok_zeros; try apply store_u16_ok;
      try apply store_u32_ok; try apply store_u64_ok; try apply He; apply bytes_okb_ok; done. }
  assert (Hv := smooth_verify n a prev seq e b md w2 Hs Hp32 He ltac:(lia) Hov).
  assert (Hv2 := wp_verify (fun _ => True) a (block_wire prev seq e) b md w2 I Hwok Hov).
  apply (wp_and _ _ _ _ _ _ Hv2) in Hv.
  unfold wp in Hv. destruct (alrios_audit_block_verify _ _ _ w2) as [[[st m]| |] w3]; [|done|done].
  cbn [fst snd] in Hv. destruct Hv as [[_ Hv] [-> _]].
  destruct (Hv eq_refl) as (p' & s' & e' & Ew & He' & Hp' & _ & Hs' & ->).
  unfold block_wire in Ew. apply header_inj in Ew as (<- & <- & <- & _); [|done || lia..].
  exists w3, (block_md prev seq e). by split_and!.
Qed.
End Proofs.
End Audit.

(** ** Witnesses *)

(** A 32-byte hash with the laws the theorems ask of SHA-256. *)
Definition sample_hash (m : bytes) : bytes := sub 0 32 (sha512_spec m).

Lemma sample_hash_len m : len (sample_hash m) = 32.
Proof. unfold sample_hash. rewrite len_sub; rewrite ?sha_digest_len; lia. Qed.

Lemma sample_hash_ok m : bytes_ok (sample_hash m).
Proof. apply bytes_ok_sub, sha_digest_ok. Qed.

Definition sample_entry : entry := mk_entry 7 [1; 2].

Lemma sample_entry_ok : entry_ok sample_entry.
Proof.
  split; [cbn; lia|]. split; [apply bytes_okb_ok; reflexivity|]. vm_compute. discriminate.
Qed.

Definition rw_fd : descriptor := mk_fd 3 O_RDWR.

(** A world with the given file in which [n] calls succeed. *)
Definition calm (f : bytes) (n : nat) : world := mk_world f F_UNLCK (replicate n (Go SIZE_MAX)).

Lemma calm_smooth f n m : (n <= m)%nat -> smooth n (calm f m).
Proof. intros. by exists m. Qed.

Lemma calm_rw r : fd_ok rw_fd r.
Proof. split; [cbn; lia|by left]. Qed.

(** Killed after 50 octets of the first record. *)
Definition torn_script : list event := replicate 20 (Go SIZE_MAX) ++ [Go 50].

Lemma append_crash_recover_witness :
  let w := mk_world [] F_UNLCK torn_script in
  let run := alrios_audit_chain_append_fd sample_hash rw_fd 7 (Some [1; 2]) 2 true w in
  exists es' tail w'',
    alrios_audit_chain_recover_fd sample_hash rw_fd true (calm (file run.2) 100)
    = (Ret (AUDIT_OK, summary sample_hash es' tail), w'') /\
    file w'' = chain_wire sample_hash es' /\ (es' = [] \/ es' = [] ++ [sample_entry]) /\
    (forall md, run.1 = Ret (AUDIT_OK, md) -> es' = [] ++ [sample_entry]).
Proof.
  apply (append_crash_recover sample_hash sample_hash_len sample_hash_ok rw_fd 7 (Some [1; 2]) 2
           true (mk_world [] F_UNLCK torn_script) [] 0).
  - apply Forall_nil_2.
  - apply sample_entry_ok.
  - reflexivity.
  - vm_compute. discriminate.
  - lia.
  - intros p [= <-]. reflexivity.
  - reflexivity.
  - apply calm_smooth. cbn. lia.
  - apply calm_rw.
Defined.

Lemma verify_fd_sound_witness :
  wp (alrios_audit_chain_verify_fd sample_hash rw_fd true) (fun f' => f' = lit "ALRI")
    (fun p w' => file w' = lit "ALRI" /\
       (p.1 = AUDIT_OK -> exists es, Forall entry_ok es /\ lit "ALRI" = chain_wire sample_hash es /\
          p.2 = summary sample_hash es 0)) (mk_world (lit "ALRI") F_UNLCK torn_script).
Proof.
  apply (verify_fd_sound sample_hash sample_hash_len).
  - apply bytes_okb_ok. reflexivity.
  - reflexivity.
Defined.

Lemma verify_fd_complete_witness :
  exists w', alrios_audit_chain_verify_fd sample_hash rw_fd true
               (calm (chain_wire sample_hash [sample_entry]) 50)
             = (Ret (AUDIT_OK, summary sample_hash [sample_entry] 0), w').
Proof.
  apply (verify_fd_complete sample_hash sample_hash_len sample_hash_ok rw_fd [sample_entry] _ 0).
  - apply Forall_singleton, sample_entry_ok.
  - unfold chain_wire. cbn [chain_from]. rewrite app_nil_r, len_wire by (done || apply sample_hash_len).
    vm_compute. discriminate.
  - reflexivity.
  - apply calm_smooth. cbn. lia.
  - apply calm_rw.
Defined.

(** Two logs of one entry each, under a hash that is always the same. *)
Definition weak_hash (m : bytes) : bytes := zeros 32.

Definition weak_log (payload : bytes) : bytes := chain_wire weak_hash [mk_entry 7 payload].

Lemma audit_tamper_evident_witness :
  weak_log [1; 2] = weak_log [3] \/
  exists es1 es2, weak_log [1; 2] = chain_wire weak_hash es1 /\ weak_log [3] = chain_wire weak_hash es2 /\
    blocks_collide weak_hash es1 es2.
Proof.
  apply (audit_tamper_evident weak_hash (fun _ => eq_refl) rw_fd rw_fd (calm (weak_log [1; 2]) 50) (calm (weak_log [3]) 50)
           (calm (weak_log [1; 2]) 32) (calm (weak_log [3]) 32) (summary weak_hash [mk_entry 7 [1; 2]] 0) (summary weak_hash [mk_entry 7 [3]] 0)).
  - apply bytes_okb_ok. vm_compute. reflexivity.
  - apply bytes_okb_ok. vm_compute. reflexivity.
  - vm_compute. reflexivity.
  - vm_compute. reflexivity.
  - reflexivity.
  - reflexivity.
Defined.

(** Five octets of a magic. *)
Lemma recover_keeps_log_witness :
  exists es rest, Forall entry_ok es /\ lit "ALRIA" = chain_wire sample_hash es ++ rest /\
    [] = chain_wire sample_hash es /\
    (rest = [] /\ summary sample_hash [] 1 = summary sample_hash es 0 \/
     partial_record rest /\ summary sample_hash [] 1 = summary sample_hash es 1).
Proof.
  apply (recover_keeps_log sample_hash sample_hash_len rw_fd (lit "ALRIA") (calm (lit "ALRIA") 20)
           (calm [] 13)).
  - apply bytes_okb_ok. reflexivity.
  - reflexivity.
  - vm_compute. reflexivity.
Defined.

Lemma audit_block_roundtrip_witness :
  len (block_wire sample_hash genesis 1 sample_entry) = 138 /\
  exists w3 m,
    alrios_audit_block_verify sample_hash (At 5000 (block_wire sample_hash genesis 1 sample_entry))
      (len (block_wire sample_hash genesis 1 sample_entry)) (At 9000 zero_md) (calm [] 30)
    = (Ret (AUDIT_OK, Some m), w3) /\
    md_sequence m = 1 /\ md_timestamp_ns m = 7 /\
    (is_null (@NULL block_metadata) = false -> None = Some m).
Proof.
  apply (audit_block_roundtrip sample_hash sample_hash_len sample_hash_ok (At 1000 genesis) 1 7
           (At 2000 [1; 2]) 2 (At 3000 []) 138 true NULL (calm [] 30) (calm [] 20)
           (mk_enc 0 138 (Some (block_wire sample_hash genesis 1 sample_entry)) None)
           (block_wire sample_hash genesis 1 sample_entry) 5000 9000 zero_md (calm [] 30) 0).
  - lia.
  - lia.
  - lia.
  - intros a p [= _ <-]. split; [reflexivity|apply bytes_ok_zeros].
  - intros a p [= _ <-]. split; [reflexivity|apply bytes_okb_ok; reflexivity].
  - vm_compute. reflexivity.
  - reflexivity.
  - reflexivity.
  - vm_compute. reflexivity.
  - apply calm_smooth. lia.
Defined.
