(* ===== verification/SecurityEpoch.v ===== *)
(** The security epoch (src/libraries/policy/security_epoch.c): the authenticated
    record of the node's epoch, the file it is kept in, the time monitor and the
    gates on policies and algorithms.

    HMAC-SHA-512 is the library's (EVP_MAC): the section's parameter [hmac]. The
    unkeyed tag goes through the interface of HashApi.v. File operations run in the
    worlds of Posix.v: the descriptor is private to the call, so the offset its
    [lseek]/[read]/[write] calls work at is the number of octets transferred. A
    clock reading is the number the environment's event carries. *)

From S2P Require Import Prelude Bytes HashApi Sha512 Posix.

(** ** Constants and data (include/alrios/policy/security_epoch.h) *)

Definition EPOCH_OK : Z := 0.

Definition EPOCH_ERR_INVALID_ARGUMENT : Z := -3601.

Definition EPOCH_ERR_ROLLBACK : Z := -3602.

Definition EPOCH_ERR_INTEGRITY : Z := -3603.

Definition EPOCH_ERR_IO : Z := -3604.

Definition EPOCH_ERR_TIME_BACKWARD : Z := -3605.

Definition EPOCH_ERR_POLICY_OUTDATED : Z := -3606.

Definition EPOCH_ERR_FORMAT : Z := -3607.

Definition EPOCH_ERR_EXPIRED : Z := -3608.

Definition EPOCH_HASH_SIZE : Z := 64.

Definition EPOCH_BODY_SIZE : Z := 64.

Definition EPOCH_WIRE_SIZE : Z := 128.

Definition EPOCH_VERSION_1 : Z := 1.

Definition EPOCH_CRYPTO_HYBRID_PQC : Z := 2.

Definition g_epoch_magic : bytes := lit "ALRIEPOC".

Definition g_epoch_domain : bytes := lit "ALRIOS-SECURITY-EPOCH-V1".

Record epoch_state := mk_epoch {
  ep_version : Z;
  ep_flags : Z;
  ep_epoch : Z;
  ep_updated_at_ns : Z;
  ep_monotonic_anchor_ns : Z;
  ep_integrity_tag : bytes;
}.

Record time_monitor := mk_mon {
  last_realtime_ns : Z;
  last_monotonic_ns : Z;
  backward_step_threshold_ns : Z;
  violations_count : Z;
  last_violation_delta_ns : Z;
  tamper_detected : Z;
}.

Record crypto_policy := mk_cpolicy {
  min_epoch : Z;
  policy_epoch : Z;
  allowed_algorithms_mask : Z;
  required_capabilities : Z;
  require_pqc : Z;
  valid_from_ns : Z;
  valid_until_ns : Z;
}.

Inductive crypto_algo :=
  | ALGO_NONE
  | ALGO_ED25519_CLASSIC
  | ALGO_ML_DSA_65
  | ALGO_HYBRID_ED25519_ML_DSA
  | ALGO_ML_KEM_768
  | ALGO_AES_256_GCM.

(** ** Clocks *)

(** [clock_gettime]: the nanoseconds since the clock's origin, as the seconds
    and nanoseconds of a timespec. *)
Definition clock_gettime : io (option (Z * Z)) :=
  let* ev := next_event in
  ret (match ev with
       | Go n => Some (n / 1000000000, n mod 1000000000)
       | _ => None
       end).

Definition to_ns (ts : Z * Z) : Z := u64 (u64 (u64 ts.1 * 1000000000) + u64 ts.2).

(** Status, realtime and monotonic nanoseconds. *)
Definition get_current_clocks : io (Z * Z * Z) :=
  let* ts_real := clock_gettime in
  match ts_real with
  | None => ret (EPOCH_ERR_IO, 0, 0)
  | Some ts_real =>
      let* ts_mono := clock_gettime in
      match ts_mono with
      | None => ret (EPOCH_ERR_IO, 0, 0)
      | Some ts_mono => ret (EPOCH_OK, to_ns ts_real, to_ns ts_mono)
      end
  end.

(** ** The record *)

Definition build_body (state : epoch_state) : bytes :=
  let body := zeros EPOCH_BODY_SIZE in
  let body := upd 0 g_epoch_magic body in
  let body := upd 8 (store_u16_be (ep_version state)) body in
  let body := upd 10 (store_u16_be (ep_flags state)) body in
  let body := upd 12 (store_u64_be (ep_epoch state)) body in
  let body := upd 20 (store_u64_be (ep_updated_at_ns state)) body in
  upd 28 (store_u64_be (ep_monotonic_anchor_ns state)) body.

(** ** Time monitor *)

Definition alrios_time_monitor_init (mon : option time_monitor) (threshold : Z)
    : Z * option time_monitor :=
  match mon with
  | None => (EPOCH_ERR_INVALID_ARGUMENT, None)
  | Some _ => (EPOCH_OK, Some (mk_mon 0 0 threshold 0 0 0))
  end.

(** A violation: the sticky flag, the counter and the size of the jump. *)
Definition violation (m : time_monitor) (delta : Z) : time_monitor :=
  mk_mon (last_realtime_ns m) (last_monotonic_ns m) (backward_step_threshold_ns m)
    (u64 (violations_count m + 1)) delta 1.

Definition observe (m : time_monitor) (rt mono : Z) : time_monitor :=
  mk_mon rt mono (backward_step_threshold_ns m) (violations_count m)
    (last_violation_delta_ns m) (tamper_detected m).

Definition alrios_time_monitor_update (mon : option time_monitor)
    (now_realtime_ns now_monotonic_ns : Z) : Z * option time_monitor :=
  match mon with
  | None => (EPOCH_ERR_INVALID_ARGUMENT, None)
  | Some m =>
      if (last_realtime_ns m =? 0) && (last_monotonic_ns m =? 0)
      then (EPOCH_OK, Some (observe m now_realtime_ns now_monotonic_ns))
      else if now_monotonic_ns <? last_monotonic_ns m
      then (EPOCH_ERR_TIME_BACKWARD,
            Some (violation m (u64 (last_monotonic_ns m - now_monotonic_ns))))
      else
        let backward_delta := u64 (last_realtime_ns m - now_realtime_ns) in
        if (now_realtime_ns <? last_realtime_ns m)
           && (backward_delta >? backward_step_threshold_ns m)
        then (EPOCH_ERR_TIME_BACKWARD, Some (violation m backward_delta))
        else (EPOCH_OK, Some (observe m now_realtime_ns now_monotonic_ns))
  end.

Definition alrios_time_monitor_sample (mon : option time_monitor) : io (Z * option time_monitor) :=
  match mon with
  | None => ret (EPOCH_ERR_INVALID_ARGUMENT, None)
  | Some _ =>
      let* (status, rt_ns, mono_ns) := get_current_clocks in
      if negb (status =? EPOCH_OK) then ret (status, mon)
      else ret (alrios_time_monitor_update mon rt_ns mono_ns)
  end.

Definition alrios_time_monitor_verify_against_anchor (mon : option time_monitor)
    (anchor : option epoch_state) : Z :=
  match mon, anchor with
  | Some m, Some a =>
      if (ep_updated_at_ns a >? 0) && (last_realtime_ns m >? 0)
         && (last_realtime_ns m <? ep_updated_at_ns a)
      then EPOCH_ERR_TIME_BACKWARD else EPOCH_OK
  | _, _ => EPOCH_ERR_INVALID_ARGUMENT
  end.

(** ** Gates *)

Definition alrios_security_epoch_gate_policy (state : option epoch_state)
    (policy : option crypto_policy) : Z :=
  match state, policy with
  | Some s, Some p =>
      if policy_epoch p <? ep_epoch s then EPOCH_ERR_POLICY_OUTDATED
      else if ep_epoch s <? min_epoch p then EPOCH_ERR_ROLLBACK
      else if (valid_until_ns p >? 0) && (ep_updated_at_ns s >? valid_until_ns p)
      then EPOCH_ERR_EXPIRED
      else EPOCH_OK
  | _, _ => EPOCH_ERR_INVALID_ARGUMENT
  end.

Definition alrios_security_epoch_gate_algorithm (state : option epoch_state) (algo : crypto_algo)
    : Z :=
  match state with
  | None => EPOCH_ERR_INVALID_ARGUMENT
  | Some s =>
      match algo with
      | ALGO_ED25519_CLASSIC =>
          if ep_epoch s >=? EPOCH_CRYPTO_HYBRID_PQC then EPOCH_ERR_POLICY_OUTDATED
          else EPOCH_OK
      | ALGO_ML_DSA_65 | ALGO_HYBRID_ED25519_ML_DSA | ALGO_ML_KEM_768 | ALGO_AES_256_GCM =>
          EPOCH_OK
      | ALGO_NONE => EPOCH_ERR_INVALID_ARGUMENT
      end
  end.

Definition alrios_crypto_algo_name (algo : crypto_algo) : bytes :=
  match algo with
  | ALGO_ED25519_CLASSIC => lit "Ed25519 (RFC 8032 / Classic)"
  | ALGO_ML_DSA_65 => lit "ML-DSA-65 (FIPS 204)"
  | ALGO_HYBRID_ED25519_ML_DSA => lit "Ed25519 + ML-DSA-65 Hybrid"
  | ALGO_ML_KEM_768 => lit "ML-KEM-768 (FIPS 203)"
  | ALGO_AES_256_GCM => lit "AES-256-GCM"
  | ALGO_NONE => lit "Unknown Algorithm"
  end.

Section Epoch.
Context `{api : Sha512Api}.
Context (hmac : bytes -> bytes -> bytes).

(** Status and tag; the keyed branch makes six EVP calls (fetch, context, init,
    two updates, final). *)
Definition compute_integrity_tag (body : bytes) (key : option bytes) : io (Z * bytes) :=
  match key with
  | Some key =>
      let* ok := all_calls 6 in
      if ok then ret (EPOCH_OK, hmac key (g_epoch_domain ++ body))
      else ret (EPOCH_ERR_INTEGRITY, zeros EPOCH_HASH_SIZE)
  | None =>
      match sha512_parts [g_epoch_domain; body] with
      | Some tag => ret (EPOCH_OK, tag)
      | None => ret (EPOCH_ERR_INTEGRITY, zeros EPOCH_HASH_SIZE)
      end
  end.

Definition alrios_epoch_state_verify_integrity (state : option epoch_state) (key : option bytes)
    : io Z :=
  match state with
  | None => ret EPOCH_ERR_INVALID_ARGUMENT
  | Some state =>
      if negb (ep_version state =? EPOCH_VERSION_1) then ret EPOCH_ERR_FORMAT
      else
        let* (status, expected_tag) := compute_integrity_tag (build_body state) key in
        if negb (status =? EPOCH_OK) then ret status
        else if negb (bytes_eqb (ep_integrity_tag state) expected_tag)
        then ret EPOCH_ERR_INTEGRITY
        else ret EPOCH_OK
  end.

Definition with_tag (s : epoch_state) (tag : bytes) : epoch_state :=
  mk_epoch (ep_version s) (ep_flags s) (ep_epoch s) (ep_updated_at_ns s)
    (ep_monotonic_anchor_ns s) tag.

(** Status and the contents of [*state]. *)
Definition alrios_epoch_state_init (state : option epoch_state) (initial_epoch : Z)
    (key : option bytes) : io (Z * option epoch_state) :=
  match state with
  | None => ret (EPOCH_ERR_INVALID_ARGUMENT, None)
  | Some _ =>
      let state := mk_epoch EPOCH_VERSION_1 0 initial_epoch 0 0 (zeros EPOCH_HASH_SIZE) in
      let* (status, rt_ns, mono_ns) := get_current_clocks in
      if negb (status =? EPOCH_OK) then ret (status, Some state)
      else
        let state := mk_epoch EPOCH_VERSION_1 0 initial_epoch rt_ns mono_ns (zeros EPOCH_HASH_SIZE) in
        let* (status, tag) := compute_integrity_tag (build_body state) key in
        ret (status, Some (with_tag state tag))
  end.

Definition alrios_epoch_state_advance (state : option epoch_state) (next_epoch : Z)
    (key : option bytes) : io (Z * option epoch_state) :=
  match state with
  | None => ret (EPOCH_ERR_INVALID_ARGUMENT, None)
  | Some s =>
      let* status := alrios_epoch_state_verify_integrity state key in
      if negb (status =? EPOCH_OK) then ret (status, state)
      else if next_epoch <? ep_epoch s then ret (EPOCH_ERR_ROLLBACK, state)
      else
        let* (status, rt_ns, mono_ns) := get_current_clocks in
        if negb (status =? EPOCH_OK) then ret (status, state)
        else if (ep_updated_at_ns s >? 0) && (rt_ns <? ep_updated_at_ns s)
        then ret (EPOCH_ERR_TIME_BACKWARD, state)
        else
          let s := mk_epoch (ep_version s) (ep_flags s) next_epoch rt_ns mono_ns
                     (ep_integrity_tag s) in
          let* (status, tag) := compute_integrity_tag (build_body s) key in
          ret (status, Some (with_tag s tag))
  end.

(** Status and the 128 octets of [out_wire] ([None]: untouched). *)
Definition alrios_epoch_state_encode (state : option epoch_state) (key : option bytes)
    (out_present : bool) : io (Z * option bytes) :=
  match state with
  | None => ret (EPOCH_ERR_INVALID_ARGUMENT, None)
  | Some s =>
      if negb out_present then ret (EPOCH_ERR_INVALID_ARGUMENT, None)
      else
        let* status := alrios_epoch_state_verify_integrity state key in
        if negb (status =? EPOCH_OK) then ret (status, None)
        else ret (EPOCH_OK, Some (build_body s ++ sub 0 EPOCH_HASH_SIZE (ep_integrity_tag s)))
  end.

(** The fields at their offsets. *)
Definition parse_wire (w : bytes) : epoch_state :=
  mk_epoch (load_u16_be (sub 8 2 w)) (load_u16_be (sub 10 2 w)) (load_u64_be (sub 12 8 w))
    (load_u64_be (sub 20 8 w)) (load_u64_be (sub 28 8 w)) (sub EPOCH_BODY_SIZE EPOCH_HASH_SIZE w).

(** Status and [*out_state] ([None]: untouched). *)
Definition alrios_epoch_state_decode (in_wire : option bytes) (key : option bytes)
    (out_present : bool) : io (Z * option epoch_state) :=
  match in_wire with
  | None => ret (EPOCH_ERR_INVALID_ARGUMENT, None)
  | Some w =>
      if negb out_present then ret (EPOCH_ERR_INVALID_ARGUMENT, None)
      else if negb (bytes_eqb (sub 0 8 w) g_epoch_magic) then ret (EPOCH_ERR_FORMAT, None)
      else
        let state := parse_wire w in
        let* status := alrios_epoch_state_verify_integrity (Some state) key in
        if negb (status =? EPOCH_OK) then ret (status, None)
        else ret (EPOCH_OK, Some state)
  end.

(** ** The file *)

(** Status and the octets read from the start of the file. *)
Definition read_exact (n : Z) : io (Z * bytes) :=
  io_loop (fun buf =>
    let total := len buf in
    if negb (total <? n) then ret (inr (EPOCH_OK, buf))
    else
      let* r := pread (n - total) total in
      ret (match r with
           | Res data => if len data >? 0 then inl (buf ++ data) else inr (EPOCH_ERR_IO, buf)
           | SysIntr => inl buf
           | SysFail => inr (EPOCH_ERR_IO, buf)
           end)) [].

(** [write] never reports zero octets for a non-empty request on a file, so the
    test of [errno] after such a result has no behaviour here: it ends the loop. *)
Definition write_exact (buf : bytes) (n : Z) : io Z :=
  io_loop (fun total =>
    if negb (total <? n) then ret (inr EPOCH_OK)
    else
      let* r := pwrite (drop (Z.to_nat total) buf) (n - total) total in
      ret (match r with
           | Res k => if k >? 0 then inl (total + k) else inr EPOCH_ERR_IO
           | SysIntr => inl total
           | SysFail => inr EPOCH_ERR_IO
           end)) 0.

Definition alrios_epoch_state_read_fd (fd : Z) (key : option bytes) (out_present : bool)
    : io (Z * option epoch_state) :=
  if (fd <? 0) || negb out_present then ret (EPOCH_ERR_INVALID_ARGUMENT, None)
  else
    let* seek := sys_ok in
    if negb seek then ret (EPOCH_ERR_IO, None)
    else
      let* (status, wire) := read_exact EPOCH_WIRE_SIZE in
      if negb (status =? EPOCH_OK) then ret (status, None)
      else alrios_epoch_state_decode (Some wire) key true.

Definition alrios_epoch_state_write_fd (fd : Z) (key : option bytes) (state : option epoch_state)
    : io Z :=
  if (fd <? 0) || (match state with None => true | Some _ => false end)
  then ret EPOCH_ERR_INVALID_ARGUMENT
  else
    let* (status, wire) := alrios_epoch_state_encode state key true in
    if negb (status =? EPOCH_OK) then ret status
    else
      let* seek := sys_ok in
      if negb seek then ret EPOCH_ERR_IO
      else
        let* status := write_exact (default [] wire) EPOCH_WIRE_SIZE in
        if negb (status =? EPOCH_OK) then ret status
        else
          let* r := ftruncate EPOCH_WIRE_SIZE in
          match r with
          | Res _ =>
              let* r := fsync in
              ret (match r with Res _ => EPOCH_OK | _ => EPOCH_ERR_IO end)
          | _ => ret EPOCH_ERR_IO
          end.

(** [open]: the descriptor, or -1; the file exists or is created empty. *)
Definition open_fd : io Z :=
  let* ok := sys_ok in
  ret (if ok then 3 else -1).

Definition alrios_epoch_state_load_file (path_present : bool) (key : option bytes)
    (out_present : bool) : io (Z * option epoch_state) :=
  if negb path_present || negb out_present then ret (EPOCH_ERR_INVALID_ARGUMENT, None)
  else
    let* fd := open_fd in
    if fd <? 0 then ret (EPOCH_ERR_IO, None)
    else alrios_epoch_state_read_fd fd key true.

Definition alrios_epoch_state_save_file (path_present : bool) (key : option bytes)
    (state : option epoch_state) : io Z :=
  if negb path_present || (match state with None => true | Some _ => false end)
  then ret EPOCH_ERR_INVALID_ARGUMENT
  else
    let* fd := open_fd in
    if fd <? 0 then ret EPOCH_ERR_IO
    else alrios_epoch_state_write_fd fd key state.

(** The uninitialised local [state]. *)
Definition uninit_state : epoch_state := mk_epoch 0 0 0 0 0 (zeros EPOCH_HASH_SIZE).

(** Between the two [flock] calls. *)
Definition advance_locked (fd next_epoch : Z) (key : option bytes) : io (Z * option epoch_state) :=
  let* f := get_file in
  let* (status, state) :=
    if len f =? 0 then alrios_epoch_state_init (Some uninit_state) next_epoch key
    else
      let* (status, state) := alrios_epoch_state_read_fd fd key true in
      if status =? EPOCH_OK then alrios_epoch_state_advance state next_epoch key
      else ret (status, state) in
  if status =? EPOCH_OK then
    let* status := alrios_epoch_state_write_fd fd key state in
    ret (status, if status =? EPOCH_OK then state else None)
  else ret (status, None).

(** Status and [*out_state] ([None]: untouched). *)
Definition alrios_epoch_file_advance (path_present : bool) (next_epoch : Z) (key : option bytes)
    (out_present : bool) : io (Z * option epoch_state) :=
  if negb path_present then ret (EPOCH_ERR_INVALID_ARGUMENT, None)
  else
    let* fd := open_fd in
    if fd <? 0 then ret (EPOCH_ERR_IO, None)
    else
      let* lock := fcntl_lock F_WRLCK in
      match lock with
      | Res _ =>
          let* st := sys_ok in
          if negb st then
            let* _ := fcntl_lock F_UNLCK in
            ret (EPOCH_ERR_IO, None)
          else
            let* (status, state) := advance_locked fd next_epoch key in
            let* _ := fcntl_lock F_UNLCK in
            ret (status, if out_present then state else None)
      | _ => ret (EPOCH_ERR_IO, None)
      end.

(** ** Specification *)

Context (H : bytes -> bytes).

(** The tag of a body. *)
Definition tag_of (key : option bytes) (body : bytes) : bytes :=
  match key with
  | Some key => hmac key (g_epoch_domain ++ body)
  | None => H (g_epoch_domain ++ body)
  end.

Record epoch_typed (s : epoch_state) : Prop := {
  et_version : 0 <= ep_version s < 2 ^ 16;
  et_flags : 0 <= ep_flags s < 2 ^ 16;
  et_epoch : 0 <= ep_epoch s < 2 ^ 64;
  et_updated : 0 <= ep_updated_at_ns s < 2 ^ 64;
  et_anchor : 0 <= ep_monotonic_anchor_ns s < 2 ^ 64;
  et_tag : len (ep_integrity_tag s) = 64 /\ bytes_ok (ep_integrity_tag s);
}.

(** The tag is the right one and the version is known. *)
Definition authentic (key : option bytes) (s : epoch_state) : Prop :=
  ep_version s = EPOCH_VERSION_1 /\ ep_integrity_tag s = tag_of key (build_body s).

Definition wire_of (s : epoch_state) : bytes := build_body s ++ ep_integrity_tag s.

(** The state a file holds, for whoever has the key. *)
Definition file_state (key : option bytes) (f : bytes) (s : epoch_state) : Prop :=
  EPOCH_WIRE_SIZE <= len f /\ sub 0 8 f = g_epoch_magic /\ s = parse_wire f /\ authentic key s.

(** The files a write of [s] over [f] can leave. *)
Definition after_write (key : option bytes) (s : epoch_state) (f f' : bytes) : Prop :=
  f' = f \/ authentic key s /\
    ((exists k, 0 <= k <= EPOCH_WIRE_SIZE /\ f' = overlay k (wire_of s) f) \/ f' = wire_of s).

(** From the file [f] to the file [f'] a write of [s] was cut in the middle of the body, and
    the mixture of the two bodies happens to be authentic: it has the tag of the old body,
    which is still in the file, though it is another body. *)
Definition torn_forgery (key : option bytes) (f f' : bytes) : Prop :=
  exists s0 s k s2, file_state key f s0 /\ authentic key s /\ 0 <= k <= EPOCH_BODY_SIZE /\
    f' = overlay k (wire_of s) f /\ file_state key f' s2 /\
    build_body s2 <> build_body s0 /\ tag_of key (build_body s2) = tag_of key (build_body s0).

(** No state that reads back from the file is older than [e]; the file exists
    and is not empty. *)
Definition floor_inv (key : option bytes) (e : Z) (f : bytes) : Prop :=
  bytes_ok f /\ 0 < len f /\ forall s, file_state key f s -> e <= ep_epoch s.

(** One call of [alrios_epoch_file_advance] per element: the epoch asked for,
    and the environment's script, at whose end the process dies. *)
Fixpoint boots (key : option bytes) (runs : list (Z * list event)) (f : bytes) : bytes :=
  match runs with
  | [] => f
  | (next, script) :: runs =>
      boots key runs
        (file (alrios_epoch_file_advance true next key true (mk_world f F_UNLCK script)).2)
  end.

(** One of the calls left such a mixture. *)
Definition forged (key : option bytes) (runs : list (Z * list event)) (f : bytes) : Prop :=
  exists n, (n < length runs)%nat /\ torn_forgery key (boots key (take n runs) f) (boots key (take (S n) runs) f).

(** ** Lemmas *)

Section Proofs.
Context {laws : Sha512Laws api H}.
Context (hmac_len : forall k m, len (hmac k m) = 64) (hmac_ok : forall k m, bytes_ok (hmac k m)).

Lemma tag_len key body : len (tag_of key body) = 64.
Proof. destruct key; cbn; [done|apply sha_digest_len]. Qed.

Lemma tag_ok key body : bytes_ok (tag_of key body).
Proof. destruct key; cbn; [done|apply sha_digest_ok]. Qed.

Lemma build_body_eq s :
  build_body s = g_epoch_magic ++ store_u16_be (ep_version s) ++ store_u16_be (ep_flags s)
    ++ store_u64_be (ep_epoch s) ++ store_u64_be (ep_updated_at_ns s)
    ++ store_u64_be (ep_monotonic_anchor_ns s) ++ zeros 28.
Proof.
  unfold build_body. cbv zeta. assert (Hm : len g_epoch_magic = 8) by done.
  change (zeros EPOCH_BODY_SIZE) with ([] ++ zeros 64).
  do 6 (rewrite upd_fill0 by clia).
  match goal with |- _ ++ zeros ?k = _ => replace k with 28 by clia end.
  rewrite app_nil_l, <- !app_assoc. done.
Qed.

Lemma len_body s : len (build_body s) = 64.
Proof.
  rewrite build_body_eq, !len_app, !len_store_u16, !len_store_u64, len_zeros by lia. done.
Qed.

Lemma body_ok s : bytes_ok (build_body s).
Proof.
  rewrite build_body_eq, !bytes_ok_app. split_and!; try apply store_u16_ok; try apply store_u64_ok;
    try apply bytes_ok_zeros. by apply bytes_okb_ok.
Qed.

Lemma body_inj s1 s2 :
  epoch_typed s1 -> epoch_typed s2 -> build_body s1 = build_body s2 -> ep_epoch s1 = ep_epoch s2.
Proof.
  intros [] [] E. rewrite !build_body_eq in E.
  apply app_split in E as [_ E]; [|done]. apply app_split in E as [_ E]; [|done].
  apply app_split in E as [_ E]; [|done]. apply app_split in E as [E _]; [|done].
  by apply store64_inj in E.
Qed.

(** The fields of the body, wherever the rest of the wire comes from. *)
Lemma parse_body s x :
  epoch_typed s ->
  parse_wire (build_body s ++ x) = with_tag s (sub 0 64 x) /\ sub 0 8 (build_body s ++ x) = g_epoch_magic.
Proof.
  intros []. assert (Hm : len g_epoch_magic = 8) by done. split.
  - unfold parse_wire, with_tag, EPOCH_BODY_SIZE, EPOCH_HASH_SIZE.
    rewrite (sub_app_r 64) by (by rewrite len_body). rewrite len_body.
    rewrite build_body_eq, <- !app_assoc.
    assert (Hf : forall off n l r (b : bytes), off = len l -> n = len b -> sub off n (l ++ b ++ r) = b).
    { intros off n l r b -> ->. rewrite sub_app_r by lia. rewrite Z.sub_diag. by apply sub_here. }
    set (M := g_epoch_magic) in *. set (V := store_u16_be (ep_version s)).
    set (F := store_u16_be (ep_flags s)). set (E := store_u64_be (ep_epoch s)).
    set (U := store_u64_be (ep_updated_at_ns s)). set (A := store_u64_be (ep_monotonic_anchor_ns s)).
    rewrite (Hf 8 2 M) by done.
    rewrite (app_assoc M V), (Hf 10 2 (M ++ V)) by done.
    rewrite (app_assoc (M ++ V) F), (Hf 12 8 ((M ++ V) ++ F)) by done.
    rewrite (app_assoc ((M ++ V) ++ F) E), (Hf 20 8 (((M ++ V) ++ F) ++ E)) by done.
    rewrite (app_assoc (((M ++ V) ++ F) ++ E) U), (Hf 28 8 ((((M ++ V) ++ F) ++ E) ++ U)) by done.
    subst V F E U A. rewrite !load_store_u16, !load_store_u64 by done. done.
  - rewrite build_body_eq, <- !app_assoc. by apply sub_here.
Qed.

Lemma parse_typed w : bytes_ok w -> 128 <= len w -> epoch_typed (parse_wire w).
Proof.
  intros Hok Hl. unfold parse_wire, EPOCH_BODY_SIZE, EPOCH_HASH_SIZE.
  constructor; cbn; try (apply load_u16_bound || apply load_u64_bound);
    try (by apply bytes_ok_sub); try (rewrite len_sub; lia).
  split; [rewrite len_sub; lia|by apply bytes_ok_sub].
Qed.

(** ** The calls *)

Lemma wp_tag C body key w :
  C (file w) -> len body = 64 ->
  wp (compute_integrity_tag body key) C (fun r w' => later w w' /\
    (r.1 = EPOCH_OK -> r.2 = tag_of key body)) w.
Proof.
  intros Hc Hl. unfold compute_integrity_tag. destruct key as [k|].
  - apply wp_bind. eapply wp_mono; [by apply wp_all_calls|]. intros b w1 W1.
    destruct b; apply wp_ret; by split.
  - rewrite (sha512_parts_ok (H := H)).
    + apply wp_ret. split; [apply later_refl|]. intros _. cbn. by rewrite app_nil_r.
    + repeat (apply List.Forall_cons || apply List.Forall_nil); [done|rewrite Hl; lia].
    + cbn [concat]. rewrite !len_app, Hl, len_nil. change (len g_epoch_domain) with 24. unfold SHA_MAX. lia.
Qed.

Lemma wp_verify_integrity C s key w :
  C (file w) ->
  wp (alrios_epoch_state_verify_integrity (Some s) key) C
    (fun st w' => later w w' /\ (st = EPOCH_OK -> authentic key s)) w.
Proof.
  intros Hc. unfold alrios_epoch_state_verify_integrity.
  wp_step; bool_hyps; [apply wp_ret; split; [apply later_refl|done]|].
  apply wp_bind. eapply wp_mono; [apply wp_tag; [done|apply len_body]|]. intros [st tag] w1 [W1 D1].
  cbn [fst snd] in *. repeat (wp_step; bool_hyps; try (apply wp_ret; by split)).
  split; [done|]. intros _. split; [done|]. rewrite <- D1 by done. by apply bytes_eqb_eq.
Qed.

Lemma wp_clocks C w :
  C (file w) ->
  wp get_current_clocks C (fun r w' => later w w' /\ 0 <= r.1.2 < 2 ^ 64 /\ 0 <= r.2 < 2 ^ 64) w.
Proof.
  intros Hc. unfold get_current_clocks, clock_gettime.
  assert (Hb : forall t, 0 <= to_ns t < 2 ^ 64) by (intros; unfold to_ns, u64; apply Z.mod_pos_bound; lia).
  apply wp_bind, wp_bind, wp_event; [done|]. intros ev w1 [F1 L1]. apply wp_ret.
  destruct ev; [|apply wp_ret; split; [split; [done|lia]|cbn; lia]..].
  apply wp_bind, wp_bind, wp_event; [by rewrite F1|]. intros ev w2 [F2 L2]. apply wp_ret.
  destruct ev; apply wp_ret; (split; [split; [congruence|lia]|]); cbn [fst snd]; try lia. auto.
Qed.

Lemma wp_state_init C next key w :
  C (file w) -> 0 <= next < 2 ^ 64 ->
  wp (alrios_epoch_state_init (Some uninit_state) next key) C (fun r w' => later w w' /\
    (r.1 = EPOCH_OK -> exists s, r.2 = Some s /\ epoch_typed s /\ authentic key s /\ ep_epoch s = next)) w.
Proof.
  intros Hc Hn. unfold alrios_epoch_state_init.
  apply wp_bind. eapply wp_mono; [by apply wp_clocks|]. intros [[st rt] mono] w1 (W1 & Hr & Hm).
  cbn [fst snd] in *. wp_step; bool_hyps; [apply wp_ret; by split|]. cbv zeta.
  apply wp_bind. eapply wp_mono; [apply wp_tag; [by destruct W1 as [-> _]|apply len_body]|].
  intros [st2 tag] w2 [W2 D2]. apply wp_ret. split; [by eapply later_trans|]. cbn [fst snd] in *.
  intros Hst. rewrite (D2 Hst). eexists. split; [reflexivity|].
  split; [|split; [split; [done|done]|done]].
  constructor; cbn; unfold EPOCH_VERSION_1; try lia. split; [apply tag_len|apply tag_ok].
Qed.

Lemma wp_state_advance C s next key w :
  C (file w) -> epoch_typed s -> 0 <= next < 2 ^ 64 ->
  wp (alrios_epoch_state_advance (Some s) next key) C (fun r w' => later w w' /\
    (r.1 = EPOCH_OK -> exists s', r.2 = Some s' /\ epoch_typed s' /\ authentic key s' /\
       ep_epoch s' = next /\ ep_epoch s <= next /\ ep_updated_at_ns s <= ep_updated_at_ns s')) w.
Proof.
  intros Hc Ht Hn. unfold alrios_epoch_state_advance.
  apply wp_bind. eapply wp_mono; [by apply wp_verify_integrity|]. intros st w1 [W1 D1].
  wp_step; bool_hyps; [apply wp_ret; by split|]. destruct D1 as [Hv _]; [done|].
  wp_step; bool_hyps; [apply wp_ret; by split|].
  apply wp_bind. eapply wp_mono; [apply wp_clocks; by destruct W1 as [-> _]|].
  intros [[st1 rt] mono] w2 (W2 & Hr & Hm). cbn [fst snd] in *. pose proof (later_trans _ _ _ W1 W2).
  wp_step; bool_hyps; [apply wp_ret; by split|].
  wp_step; [apply wp_ret; by split|]. cbv zeta.
  apply wp_bind. eapply wp_mono; [apply wp_tag; [|apply len_body]; by destruct W2 as [-> _], W1 as [-> _]|].
  intros [st2 tag] w3 [W3 D3]. apply wp_ret. split; [by eapply later_trans|]. cbn [fst snd] in *.
  intros Hst. rewrite (D3 Hst). eexists. split; [reflexivity|].
  destruct Ht. split; [|split; [by split|split; [done|split; [done|]]]].
  - constructor; cbn; unfold EPOCH_VERSION_1; try lia. split; [apply tag_len|apply tag_ok].
  - cbn. match goal with E : _ && _ = false |- _ => apply andb_false_iff in E as [E|E] end; bool_hyps; lia.
Qed.

Lemma wp_decode C wire key present w :
  C (file w) ->
  wp (alrios_epoch_state_decode (Some wire) key present) C (fun r w' => later w w' /\
    (r.1 = EPOCH_OK -> r.2 = Some (parse_wire wire) /\ sub 0 8 wire = g_epoch_magic /\
       authentic key (parse_wire wire))) w.
Proof.
  intros Hc. unfold alrios_epoch_state_decode.
  wp_step; [apply wp_ret; split; [apply later_refl|done]|].
  wp_step; bool_hyps; [apply wp_ret; split; [apply later_refl|done]|]. cbv zeta.
  apply wp_bind. eapply wp_mono; [by apply wp_verify_integrity|]. intros st w1 [W1 D1].
  wp_step; bool_hyps; apply wp_ret; (split; [done|]); [done|]. intros _. cbn [snd].
  split; [done|]. split; [by apply bytes_eqb_eq|by apply D1].
Qed.

(** ** The file *)

Lemma wp_read_exact C n w :
  C (file w) -> 0 <= n ->
  wp (read_exact n) C (fun r w' => later w w' /\
    (r.1 = EPOCH_OK -> n <= len (file w) /\ r.2 = sub 0 n (file w))) w.
Proof.
  intros Hc Hn. unfold read_exact.
  apply wp_io_loop with (I := fun acc w' => later w w' /\ acc = sub 0 (len acc) (file w) /\
                                   len acc <= n /\ len acc <= len (file w)).
  2: { split; [apply later_refl|]. pose proof (len_nonneg (file w)). by split_and!. }
  intros acc w0 ([F L] & Ha & Hle & Hfl). pose proof (len_nonneg acc).
  destruct (negb (len acc <? n)) eqn:E1; bool_hyps.
  { apply wp_ret. split; [by split|]. intros _. replace n with (len acc) by lia. by split. }
  rewrite <- (Z.add_0_l (len acc)) at 2.
  apply wp_bind, (wp_pread_prefix C (file w) 0 n acc); [done..|]. intros r w' [F' L'] Hr. apply wp_ret.
  assert (Hw : later w w') by (split; [congruence|lia]).
  destruct r as [data| |]; [|by split; [split|]|by split].
  destruct (len data >? 0) eqn:E2; bool_hyps; [|by split]. split; [|done]. split; [done|].
  apply (Hr data); [done|lia].
Qed.

Lemma wp_write_exact C new f w :
  file w = f -> (forall k, 0 <= k <= len new -> C (overlay k new f)) ->
  wp (write_exact new (len new)) C (fun st w' => exists k, 0 <= k <= len new /\
    file w' = overlay k new f /\ (st = EPOCH_OK -> k = len new)) w.
Proof.
  intros F Hc. unfold write_exact.
  apply wp_io_loop with (I := fun k w' => 0 <= k <= len new /\ file w' = overlay k new f).
  2: { pose proof (len_nonneg new). by rewrite overlay_0. }
  intros k w0 [Hk F0].
  destruct (negb (k <? len new)) eqn:E1; bool_hyps.
  { apply wp_ret. exists k. split_and!; try done; lia. }
  apply wp_bind, (wp_pwrite_overlay C new f); [done..|by apply Hc|]. intros r w' L' Hw. apply wp_ret.
  destruct r as [n| |]; [|by split; [split|]|exists k; split_and!; try done; lia].
  destruct Hw as (? & ? & Hf). destruct (n >? 0) eqn:E2; bool_hyps.
  - split; [|done]. split; [lia|done].
  - exists (k + n). split_and!; [lia|lia|done|done].
Qed.

Lemma len_wire_of key s : authentic key s -> len (wire_of s) = EPOCH_WIRE_SIZE.
Proof. intros [_ Ht]. unfold wire_of. rewrite len_app, len_body, Ht, tag_len. done. Qed.

Lemma wp_encode_epoch C s key w :
  C (file w) ->
  wp (alrios_epoch_state_encode (Some s) key true) C (fun r w' => later w w' /\
    (r.1 = EPOCH_OK -> authentic key s /\ r.2 = Some (wire_of s))) w.
Proof.
  intros Hc. unfold alrios_epoch_state_encode. cbn [negb].
  apply wp_bind. eapply wp_mono; [by apply wp_verify_integrity|]. intros st w1 [W1 D1].
  wp_step; bool_hyps; apply wp_ret; (split; [done|]); [done|]. intros _. cbn [snd].
  specialize (D1 ltac:(done)). split; [done|]. unfold wire_of, EPOCH_HASH_SIZE.
  destruct D1 as [_ Ht]. by rewrite sub_all by (rewrite Ht, tag_len; done).
Qed.

Lemma wp_write_fd C fd key s f w :
  file w = f -> (forall f', after_write key s f f' -> C f') ->
  wp (alrios_epoch_state_write_fd fd key (Some s)) C (fun st w' =>
    after_write key s f (file w') /\
    (st = EPOCH_OK -> authentic key s /\ file w' = wire_of s)) w.
Proof.
  intros F HC. assert (Hc : C f) by (apply HC; by left). unfold alrios_epoch_state_write_fd.
  assert (Hsame : forall w', file w' = f -> after_write key s f (file w')) by (intros w' ->; by left).
  wp_step; [by apply wp_ret; split; [apply Hsame|]|].
  apply wp_bind. eapply wp_mono; [apply wp_encode_epoch; by rewrite F|]. intros [st wire] w1 [[F1 _] D1].
  cbn [fst snd] in *. rewrite F in F1.
  wp_step; bool_hyps; [by apply wp_ret; split; [apply Hsame|]|]. destruct D1 as [Ha ->]; [done|].
  pose proof (len_wire_of key s Ha) as Hwl.
  apply wp_bind, wp_sys_ok; [by rewrite F1|]. intros b w2 [F2 _]. rewrite F1 in F2.
  wp_step; [by apply wp_ret; split; [apply Hsame|]|]. cbn [default].
  assert (Hov : forall k, 0 <= k <= len (wire_of s) -> after_write key s f (overlay k (wire_of s) f)).
  { intros k Hk. right. split; [done|]. left. exists k. by rewrite <- Hwl. }
  rewrite <- Hwl. apply wp_bind. eapply wp_mono; [apply wp_write_exact; [done|]; intros; by apply HC, Hov|].
  intros st3 w3 (k & Hk & F3 & Hst). 
  wp_step; bool_hyps; [apply wp_ret; rewrite F3; split; [by apply Hov|done]|].
  rewrite Hst in * by done.
  apply wp_bind, wp_ftruncate; [rewrite F3; by apply HC, Hov|]. intros r w4 _ Hr.
  assert (Hnew : after_write key s f (wire_of s)) by (right; split; [done|by right]).
  destruct r as [[]| |]; [|apply wp_ret; rewrite Hr, F3; split; [by apply Hov|done]..].
  assert (F4 : file w4 = wire_of s).
  { rewrite Hr, F3. unfold overlay at 1 2. rewrite sub_full. by apply truncate_prefix. }
  apply wp_bind, wp_fsync; [rewrite F4; by apply HC|]. intros r w5 [F5 _]. apply wp_ret.
  rewrite F5, F4. split; [done|]. by destruct r.
Qed.

Lemma wp_read_fd C fd key w :
  C (file w) ->
  wp (alrios_epoch_state_read_fd fd key true) C (fun r w' => file w' = file w /\
    (r.1 = EPOCH_OK -> exists s, r.2 = Some s /\ file_state key (file w) s)) w.
Proof.
  intros Hc. unfold alrios_epoch_state_read_fd. wp_step; [by apply wp_ret|].
  apply wp_bind, wp_sys_ok; [done|]. intros b w1 [F1 _]. wp_step; [by apply wp_ret|].
  apply wp_bind. eapply wp_mono; [apply wp_read_exact; [by rewrite F1|done]|].
  intros [st wire] w2 [[F2 _] D2]. cbn [fst snd] in *. rewrite F1 in *.
  wp_step; bool_hyps; [by apply wp_ret|]. destruct D2 as [Hl ->]; [done|].
  eapply wp_mono; [apply wp_decode; by rewrite F2|]. intros r w3 [[F3 _] D3].
  split; [congruence|]. intros Hst. destruct (D3 Hst) as (-> & Hm & Ha).
  assert (Hp : parse_wire (sub 0 EPOCH_WIRE_SIZE (file w)) = parse_wire (file w)).
  { unfold parse_wire, EPOCH_WIRE_SIZE, EPOCH_BODY_SIZE, EPOCH_HASH_SIZE in *.
    by rewrite !sub_of_sub by lia. }
  rewrite Hp in *. eexists. split; [reflexivity|]. unfold EPOCH_WIRE_SIZE in *.
  rewrite sub_of_sub in Hm by lia. by split.
Qed.

(** The files an advance can leave: the old one, or a write of a state that is
    no older than what the file held. *)
Definition advanced (key : option bytes) (next : Z) (f f' : bytes) : Prop :=
  f' = f \/ exists s, epoch_typed s /\ ep_epoch s = next /\ after_write key s f f' /\
    (len f = 0 \/ exists s0, file_state key f s0 /\ ep_epoch s0 <= next).

Lemma wp_advance_locked C fd next key f w :
  bytes_ok f -> file w = f -> 0 <= next < 2 ^ 64 -> (forall f', advanced key next f f' -> C f') ->
  wp (advance_locked fd next key) C (fun r w' => advanced key next f (file w') /\
    (r.1 = EPOCH_OK -> exists s, r.2 = Some s /\ epoch_typed s /\ authentic key s /\
       ep_epoch s = next /\ file w' = wire_of s /\
       (len f = 0 \/ exists s0, file_state key f s0 /\ ep_epoch s0 <= next /\
                       ep_updated_at_ns s0 <= ep_updated_at_ns s))) w.
Proof.
  intros Hok F Hn HC. assert (Hc : C f) by (apply HC; by left). unfold advance_locked.
  apply wp_bind. unfold wp at 1, get_file. rewrite F. apply wp_bind.
  apply wp_mono with (Q := fun r w' => file w' = f /\ (r.1 = EPOCH_OK -> exists s, r.2 = Some s /\
      epoch_typed s /\ authentic key s /\ ep_epoch s = next /\
      (len f = 0 \/ exists s0, file_state key f s0 /\ ep_epoch s0 <= next /\
                      ep_updated_at_ns s0 <= ep_updated_at_ns s))).
  - wp_step; bool_hyps.
    + eapply wp_mono; [apply wp_state_init; [by rewrite F|done]|]. intros r w1 [[F1 _] D1].
      split; [congruence|]. intros Hst. destruct (D1 Hst) as (s & ? & ? & ? & ?). exists s.
      by split_and!; [..|left].
    + apply wp_bind. eapply wp_mono; [apply wp_read_fd; by rewrite F|]. intros [st os] w1 [F1 D1].
      cbn [fst snd] in *. rewrite F in *. wp_step; bool_hyps; [|by apply wp_ret].
      destruct D1 as (s0 & -> & Hs0); [done|].
      assert (Ht0 : epoch_typed s0) by (destruct Hs0 as (? & _ & -> & _); by apply parse_typed).
      eapply wp_mono; [apply wp_state_advance; [by rewrite F1|done|done]|]. intros r w2 [[F2 _] D2].
      split; [congruence|]. intros Hst. destruct (D2 Hst) as (s & ? & ? & ? & ? & ? & ?).
      exists s. split_and!; try done. right. by exists s0.
  - intros [st os] w1 [F1 D1]. cbn [fst snd] in *.
    wp_step; bool_hyps; [|apply wp_ret; rewrite F1; split; [by left|done]].
    destruct D1 as (s & -> & Ht & Ha & He & Hor); [done|].
    assert (Hor' : len f = 0 \/ exists s0, file_state key f s0 /\ ep_epoch s0 <= next).
    { destruct Hor as [?|(s0 & ? & ? & _)]; [by left|right; by exists s0]. }
    apply wp_bind. eapply wp_mono.
    { apply (wp_write_fd C fd key s f); [done|]. intros f' Hf. apply HC. right. by exists s. }
    intros st2 w2 [Hf Hd]. apply wp_ret. cbn [fst snd]. split; [right; by exists s|].
    intros Hst. rewrite Hst. destruct (Hd Hst) as [_ ->]. by exists s.
Qed.

Lemma wp_file_advance C present next key out_present f w :
  bytes_ok f -> file w = f -> 0 <= next < 2 ^ 64 -> (forall f', advanced key next f f' -> C f') ->
  wp (alrios_epoch_file_advance present next key out_present) C (fun r w' =>
    advanced key next f (file w') /\
    (r.1 = EPOCH_OK -> exists s, (out_present = true -> r.2 = Some s) /\ epoch_typed s /\
       authentic key s /\ ep_epoch s = next /\ file w' = wire_of s /\
       (len f = 0 \/ exists s0, file_state key f s0 /\ ep_epoch s0 <= next /\
                       ep_updated_at_ns s0 <= ep_updated_at_ns s))) w.
Proof.
  intros Hok F Hn HC. assert (Hc : C f) by (apply HC; by left). unfold alrios_epoch_file_advance.
  assert (Hsame : forall w', file w' = f -> advanced key next f (file w')) by (intros w' ->; by left).
  wp_step; [by apply wp_ret; split; [apply Hsame|]|].
  apply wp_bind, wp_bind, wp_sys_ok; [by rewrite F|]. intros b w1 [F1 _]. rewrite F in F1. apply wp_ret.
  wp_step; [by apply wp_ret; split; [apply Hsame|]|].
  apply wp_bind, wp_fcntl_lock; [by rewrite F1|]. intros r w2 [F2 _] _. rewrite F1 in F2.
  destruct r; [|by apply wp_ret; split; [apply Hsame|]..].
  apply wp_bind, wp_sys_ok; [by rewrite F2|]. intros b2 w3 [F3 _]. rewrite F2 in F3.
  wp_step.
  { apply wp_bind, wp_fcntl_lock; [by rewrite F3|]. intros r w4 [F4 _] _. rewrite F3 in F4.
    by apply wp_ret; split; [apply Hsame|]. }
  apply wp_bind. eapply wp_mono; [by apply (wp_advance_locked C _ next key f)|].
  intros [st os] w4 [Hf Hd]. cbn [fst snd] in *.
  apply wp_bind, wp_fcntl_lock; [by apply HC|]. intros r w5 [F5 _] _. apply wp_ret. rewrite F5.
  split; [done|]. cbn [fst snd]. intros Hst. destruct (Hd Hst) as (s & -> & ? & ? & ? & ? & ?).
  exists s. split_and!; try done. by destruct out_present.
Qed.

(** ** Rollback protection *)

(** A state read back from a file whose write was cut short is the old one, the
    new one, or a mixture that has the old one's tag. *)
Lemma torn_epoch key k s f s0 s2 :
  bytes_ok f -> epoch_typed s -> authentic key s -> 0 <= k <= EPOCH_WIRE_SIZE ->
  file_state key f s0 -> file_state key (overlay k (wire_of s) f) s2 ->
  ep_epoch s2 = ep_epoch s0 \/ ep_epoch s2 = ep_epoch s \/ torn_forgery key f (overlay k (wire_of s) f).
Proof.
  intros Hok Ht Ha Hk Hf0 Hf2. pose proof Hf0 as (Hl0 & _ & Hs0 & _ & Ht0). pose proof Hf2 as (Hl & _ & Hs2 & _ & Ht2).
  pose proof (len_wire_of key s Ha) as Hwl. unfold EPOCH_WIRE_SIZE in *.
  rewrite len_overlay in Hl by lia.
  destruct (Z.le_gt_cases k 64) as [Hk64|Hk64].
  - (* the tag is still the old one *)
    assert (Htag : ep_integrity_tag s2 = ep_integrity_tag s0).
    { subst s2 s0. unfold parse_wire, EPOCH_BODY_SIZE, EPOCH_HASH_SIZE. cbn [ep_integrity_tag].
      unfold overlay. rewrite sub_app_r by (rewrite len_sub; lia). rewrite len_sub by lia.
      rewrite sub_drop by lia. f_equal. lia. }
    rewrite Ht0, Ht2 in Htag.
    destruct (decide (build_body s2 = build_body s0)) as [Hb|Hne].
    + left. apply body_inj; [|subst s0; by apply parse_typed|done]. subst s2. apply parse_typed.
      * unfold overlay. apply bytes_ok_app. split; [|by apply Forall_drop].
        apply bytes_ok_sub. unfold wire_of. apply bytes_ok_app. split; [apply body_ok|].
        destruct Ha as [_ ->]. apply tag_ok.
      * rewrite len_overlay by lia. lia.
    + right. right. exists s0, s, k, s2. unfold EPOCH_BODY_SIZE. split_and!; [exact Hf0|exact Ha|lia|lia|done|exact Hf2|done|congruence].
  - (* the body is already the new one *)
    right. left. subst s2. unfold overlay, wire_of in *.
    pose proof (len_body s) as Hlb. rewrite len_app in Hwl.
    assert (Hs : sub 0 k (build_body s ++ ep_integrity_tag s)
                 = build_body s ++ sub 0 (k - 64) (ep_integrity_tag s)).
    { replace k with (64 + (k - 64)) at 1 by lia.
      rewrite <- (sub_join 0 64 64 (k - 64)) by lia. rewrite sub_here by done.
      rewrite sub_app_r by lia. by rewrite Hlb. }
    rewrite Hs, <- app_assoc. by destruct (parse_body s (sub 0 (k - 64) (ep_integrity_tag s)
      ++ drop (Z.to_nat k) f) Ht) as [-> _].
Qed.

Lemma wire_of_state key s s2 :
  epoch_typed s -> authentic key s -> file_state key (wire_of s) s2 -> s2 = s.
Proof.
  intros Ht Ha (_ & _ & -> & _). unfold wire_of.
  destruct (parse_body s (ep_integrity_tag s) Ht) as [-> _].
  destruct Ht as [_ _ _ _ _ [Hl _]]. rewrite sub_all by done. by destruct s.
Qed.

Lemma wire_of_ok key s : authentic key s -> bytes_ok (wire_of s).
Proof.
  intros [_ E]. unfold wire_of. apply bytes_ok_app. split; [apply body_ok|]. rewrite E. apply tag_ok.
Qed.

(** Whether a file reads back is decidable. *)
Lemma file_state_dec key f : {file_state key f (parse_wire f)} + {~ file_state key f (parse_wire f)}.
Proof.
  destruct (decide (EPOCH_WIRE_SIZE <= len f /\ sub 0 8 f = g_epoch_magic /\
              ep_version (parse_wire f) = EPOCH_VERSION_1 /\
              ep_integrity_tag (parse_wire f) = tag_of key (build_body (parse_wire f)))) as [(? & ? & ? & ?)|Hn].
  - left. by split_and!.
  - right. intros (? & ? & _ & ? & ?). by apply Hn.
Qed.

Lemma floor_advanced key e next f f' :
  floor_inv key e f -> advanced key next f f' -> floor_inv key e f' \/ torn_forgery key f f'.
Proof.
  intros Hinv [->|(s & Ht & <- & Hw & Hor)]; [by left|].
  destruct Hinv as (Hok & Hlen & Hfl).
  destruct Hor as [?|(s0 & Hs0 & Hle)]; [lia|]. pose proof (Hfl _ Hs0) as He.
  destruct Hw as [->|(Ha & [(k & Hk & ->)| ->])]; [by left| |].
  - pose proof (len_wire_of key s Ha) as Hwl. set (ov := overlay k (wire_of s) f) in *.
    assert (Hov : bytes_ok ov /\ 0 < len ov).
    { split; [|subst ov; rewrite len_overlay; lia]. apply bytes_ok_app.
      split; [by apply bytes_ok_sub, (wire_of_ok key)|by apply Forall_drop]. }
    destruct (file_state_dec key ov) as [Hst|Hno].
    + destruct (torn_epoch key k s f s0 (parse_wire ov) Hok Ht Ha Hk Hs0 Hst) as [E|[E|?]];
        [left|left|by right]; (split_and!; [apply Hov|apply Hov|]); intros s2 (_ & _ & -> & _); lia.
    + left. split_and!; [apply Hov|apply Hov|]. intros s2 Hs2. destruct Hno.
      by destruct Hs2 as (H1 & H2 & -> & H3).
  - left. split_and!; [by apply (wire_of_ok key)|by rewrite (len_wire_of key)|].
    intros s2 Hs2. apply wire_of_state in Hs2; [subst; lia|done..].
Qed.

Lemma boots_floor key e runs f :
  floor_inv key e f -> Forall (fun r => 0 <= fst r < 2 ^ 64) runs ->
  floor_inv key e (boots key runs f) \/ forged key runs f.
Proof.
  revert f. induction runs as [|[next script] runs IH]; intros f Hf Hr; [by left|].
  apply Forall_cons_iff in Hr as [Hn Hr]. cbn [boots fst] in *.
  assert (Hadv : advanced key next f
    (file (alrios_epoch_file_advance true next key true (mk_world f F_UNLCK script)).2)).
  { assert (Hwp := wp_file_advance (advanced key next f) true next key true f
                     (mk_world f F_UNLCK script) (proj1 Hf) eq_refl Hn (fun _ H => H)).
    unfold wp in Hwp. destruct (alrios_epoch_file_advance _ _ _ _ _) as [[r| |] w']; cbn in *;
      [apply Hwp|done|done]. }
  destruct (floor_advanced key e next f _ Hf Hadv) as [Hf'|Ht].
  - destruct (IH _ Hf' Hr) as [?|(n & Hlt & Ht)]; [by left|]. right. exists (S n). split; [cbn; lia|exact Ht].
  - right. exists 0%nat. split; [cbn; lia|exact Ht].
Qed.

(** ** Properties *)

(** C8: the epoch never goes back. Whatever the requests and whatever happens
    to each call (short writes, errors, death at any point), every state that can
    be read from the file afterwards has at least the epoch it had before, unless
    one of the writes was cut in the body and the octets it left are authentic with the
    tag of the body that was being overwritten. *)
Theorem epoch_never_rolls_back key e runs f :
  floor_inv key e f -> Forall (fun r => 0 <= fst r < 2 ^ 64) runs ->
  floor_inv key e (boots key runs f) \/ forged key runs f.
Proof. apply boots_floor. Qed.

(** An advance that reports success has stored an authentic state with
    the epoch asked for; it was no older than the state the file held, which was
    authentic, and the clock had not gone back. *)
Theorem file_advance_ok present next key w w' s :
  bytes_ok (file w) -> 0 <= next < 2 ^ 64 ->
  alrios_epoch_file_advance present next key true w = (Ret (EPOCH_OK, Some s), w') ->
  authentic key s /\ ep_epoch s = next /\ file w' = wire_of s /\
  (len (file w) = 0 \/ exists s0, file_state key (file w) s0 /\ ep_epoch s0 <= ep_epoch s /\
                      ep_updated_at_ns s0 <= ep_updated_at_ns s).
Proof.
  intros Hok Hn E.
  assert (Hwp := wp_file_advance (fun _ => True) present next key true (file w) w Hok eq_refl Hn
                   ltac:(done)).
  unfold wp in Hwp. rewrite E in Hwp. destruct Hwp as [_ Hwp].
  destruct (Hwp eq_refl) as (s' & Hs & _ & Ha & He & Hf & Hor). cbn in Hs. specialize (Hs eq_refl).
  injection Hs as <-. split_and!; try done. by rewrite He.
Qed.

(** ** Undisturbed runs *)

#[local] Abbreviation nocrash := (fun _ : bytes => False).

Lemma smooth_tag m body key w Q :
  smooth (6 + m) w -> len body = 64 ->
  (forall w', file w' = file w -> smooth m w' -> Q (EPOCH_OK, tag_of key body) w') ->
  wp (compute_integrity_tag body key) nocrash Q w.
Proof.
  intros Hs Hl HQ. unfold compute_integrity_tag. destruct key as [k|].
  - apply wp_bind. eapply smooth_all_calls; [done|]. intros w' F S'. by apply wp_ret, HQ.
  - rewrite (sha512_parts_ok (H := H)).
    + apply wp_ret. cbn. rewrite app_nil_r. apply HQ; [done|]. eapply smooth_le; [done|lia].
    + repeat (apply List.Forall_cons || apply List.Forall_nil); [done|rewrite Hl; lia].
    + cbn [concat]. rewrite !len_app, Hl, len_nil. change (len g_epoch_domain) with 24. unfold SHA_MAX. lia.
Qed.

Lemma smooth_verify_integrity m s key w Q :
  smooth (6 + m) w -> authentic key s ->
  (forall w', file w' = file w -> smooth m w' -> Q EPOCH_OK w') ->
  wp (alrios_epoch_state_verify_integrity (Some s) key) nocrash Q w.
Proof.
  intros Hs [Hv Ht] HQ. unfold alrios_epoch_state_verify_integrity. rewrite Hv, Z.eqb_refl. cbn [negb].
  apply wp_bind. eapply (smooth_tag m); [done|apply len_body|]. intros w' F S'.
  change (EPOCH_OK =? EPOCH_OK) with true. rewrite Ht, bytes_eqb_refl. by apply wp_ret, HQ.
Qed.

Lemma smooth_clocks m w Q :
  smooth (2 + m) w ->
  (forall w', file w' = file w -> smooth m w' -> Q (EPOCH_OK, UINT64_MAX, UINT64_MAX) w') ->
  wp get_current_clocks nocrash Q w.
Proof.
  intros Hs HQ. unfold get_current_clocks, clock_gettime.
  apply wp_bind, wp_bind. eapply (smooth_event (1 + m)); [done|]. intros w1 F1 S1. apply wp_ret.
  apply wp_bind, wp_bind. eapply (smooth_event m); [done|]. intros w2 F2 S2. apply wp_ret, wp_ret.
  apply HQ; [congruence|done].
Qed.

(** The record's codec round-trips: an authentic state is encoded into 128
    octets that decode to it, under the same key. *)
Theorem epoch_roundtrip key s w n :
  epoch_typed s -> authentic key s -> smooth (12 + n) w ->
  exists wire w1 w2,
    alrios_epoch_state_encode (Some s) key true w = (Ret (EPOCH_OK, Some wire), w1) /\
    len wire = EPOCH_WIRE_SIZE /\
    alrios_epoch_state_decode (Some wire) key true w1 = (Ret (EPOCH_OK, Some s), w2).
Proof.
  intros Ht Ha Hs.
  assert (Henc : wp (alrios_epoch_state_encode (Some s) key true) nocrash
            (fun r w1 => r = (EPOCH_OK, Some (wire_of s)) /\ smooth (6 + n) w1) w).
  { unfold alrios_epoch_state_encode. cbn [negb]. apply wp_bind.
    eapply (smooth_verify_integrity (6 + n)); [done|done|]. intros w1 F1 S1. apply wp_ret.
    split; [|done]. unfold EPOCH_HASH_SIZE. destruct Ht as [_ _ _ _ _ [Hl _]].
    by rewrite sub_all by done. }
  unfold wp in Henc. destruct (alrios_epoch_state_encode _ _ _ w) as [[r| |] w1] eqn:Ee; [|done|done].
  destruct Henc as [-> S1].
  assert (Hdec : wp (alrios_epoch_state_decode (Some (wire_of s)) key true) nocrash
            (fun r _ => r = (EPOCH_OK, Some s)) w1).
  { unfold alrios_epoch_state_decode, wire_of. cbn [negb].
    destruct (parse_body s (ep_integrity_tag s) Ht) as [-> ->]. rewrite bytes_eqb_refl. cbn [negb]. cbv zeta.
    replace (with_tag s (sub 0 64 (ep_integrity_tag s))) with s.
    2: { destruct Ht as [_ _ _ _ _ [Hl _]]. rewrite sub_all by done. by destruct s. }
    apply wp_bind. eapply (smooth_verify_integrity n); [done|done|]. intros w2 _ _. by apply wp_ret. }
  unfold wp in Hdec. destruct (alrios_epoch_state_decode _ _ _ w1) as [[r| |] w2] eqn:Ed; [|done|done].
  subst r. exists (wire_of s), w1, w2. split_and!; [done|by apply (len_wire_of key)|done].
Qed.

(** An undisturbed in-memory advance of an authentic state succeeds exactly
    when the epoch asked for is not older, and re-authenticates the state; a
    request for an older one is refused and changes nothing. *)
Theorem state_advance_spec key s next w n :
  epoch_typed s -> authentic key s -> 0 <= next < 2 ^ 64 -> smooth (14 + n) w ->
  exists w',
    alrios_epoch_state_advance (Some s) next key w
    = (if next <? ep_epoch s then (Ret (EPOCH_ERR_ROLLBACK, Some s), w')
       else
         let s' := mk_epoch (ep_version s) (ep_flags s) next UINT64_MAX UINT64_MAX (ep_integrity_tag s) in
         (Ret (EPOCH_OK, Some (with_tag s' (tag_of key (build_body s')))), w')).
Proof.
  intros Ht Ha Hn Hs.
  assert (Hwp : wp (alrios_epoch_state_advance (Some s) next key) nocrash
     (fun r _ => r = if next <? ep_epoch s then (EPOCH_ERR_ROLLBACK, Some s)
        else let s' := mk_epoch (ep_version s) (ep_flags s) next UINT64_MAX UINT64_MAX (ep_integrity_tag s) in
             (EPOCH_OK, Some (with_tag s' (tag_of key (build_body s'))))) w).
  { unfold alrios_epoch_state_advance. apply wp_bind.
    eapply (smooth_verify_integrity (8 + n)); [done|done|]. intros w1 F1 S1.
    change (EPOCH_OK =? EPOCH_OK) with true. cbn [negb].
    destruct (next <? ep_epoch s); [by apply wp_ret|].
    apply wp_bind. eapply (smooth_clocks (6 + n)); [done|]. intros w2 F2 S2.
    change (EPOCH_OK =? EPOCH_OK) with true. cbn [negb].
    replace (UINT64_MAX <? ep_updated_at_ns s) with false
      by (symmetry; apply Z.ltb_ge; destruct Ht; unfold UINT64_MAX; lia).
    rewrite andb_false_r. cbv zeta.
    apply wp_bind. eapply (smooth_tag n); [done|apply len_body|]. intros w3 _ _. by apply wp_ret. }
  unfold wp in Hwp. destruct (alrios_epoch_state_advance _ _ _ w) as [[r| |] w'] eqn:Ea; [|done|done].
  subst r. exists w'. by destruct (next <? ep_epoch s).
Qed.

(** A gate that has closed stays closed: a policy refused as outdated and
    an algorithm refused by the state in the file are refused by every state that
    can be read back later, whatever happened in between. *)
Theorem gates_stay_closed key runs f s s' p a :
  bytes_ok f -> file_state key f s -> Forall (fun r => 0 <= fst r < 2 ^ 64) runs ->
  file_state key (boots key runs f) s' ->
  forged key runs f \/
  (alrios_security_epoch_gate_policy (Some s) p = EPOCH_ERR_POLICY_OUTDATED ->
   alrios_security_epoch_gate_policy (Some s') p = EPOCH_ERR_POLICY_OUTDATED) /\
  (alrios_security_epoch_gate_algorithm (Some s) a <> EPOCH_OK ->
   alrios_security_epoch_gate_algorithm (Some s') a <> EPOCH_OK).
Proof.
  intros Hok Hs Hr Hs'.
  destruct (boots_floor key (ep_epoch s) runs f) as [(_ & _ & Hfl)|?]; [|done|..|by left].
  { split; [done|]. split; [destruct Hs as [Hl _]; unfold EPOCH_WIRE_SIZE in Hl; lia|].
    intros s0 Hs0. destruct Hs as (_ & _ & -> & _), Hs0 as (_ & _ & -> & _). lia. }
  specialize (Hfl _ Hs'). right. split.
  - unfold alrios_security_epoch_gate_policy. destruct p as [p|]; [|done].
    destruct (policy_epoch p <? ep_epoch s) eqn:E1; bool_hyps.
    + intros _. by replace (policy_epoch p <? ep_epoch s') with true by (symmetry; lia).
    + repeat split_if; done.
  - destruct a; cbn; try done. rewrite !Z.geb_leb. unfold EPOCH_CRYPTO_HYBRID_PQC.
    destruct (2 <=? ep_epoch s) eqn:E1; bool_hyps; [|done].
    by replace (2 <=? ep_epoch s') with true by (symmetry; lia).
Qed.
End Proofs.
End Epoch.

(** ** The monitor over a run *)

(** Feed a sequence of (realtime, monotonic) readings; the readings accepted. *)
Fixpoint run_monitor (m : time_monitor) (obs : list (Z * Z)) : time_monitor * list (Z * Z) :=
  match obs with
  | [] => (m, [])
  | (rt, mono) :: obs =>
      match alrios_time_monitor_update (Some m) rt mono with
      | (status, m') =>
          let '(m'', acc) := run_monitor (default m m') obs in
          (m'', if status =? EPOCH_OK then (rt, mono) :: acc else acc)
      end
  end.

(** Each accepted reading has a monotonic clock no earlier than the previous
    accepted one and a realtime clock at most [threshold] earlier. *)
Fixpoint plausible (threshold : Z) (prev : Z * Z) (acc : list (Z * Z)) : Prop :=
  match acc with
  | [] => True
  | q :: acc => prev.2 <= q.2 /\ prev.1 - q.1 <= threshold /\ plausible threshold q acc
  end.

(** The same from any monitor that has been running. *)
Lemma run_monitor_gen threshold obs :
  0 <= threshold < 2 ^ 64 -> Forall (fun p => 0 <= p.1 < 2 ^ 64 /\ 0 <= p.2 < 2 ^ 64) obs ->
  forall r0 m0 v d t m acc, 0 <= r0 < 2 ^ 64 -> 0 <= m0 < 2 ^ 64 -> 0 <= v ->
  v + len obs < 2 ^ 64 ->
  run_monitor (mk_mon r0 m0 threshold v d t) obs = (m, acc) ->
  plausible threshold (r0, m0) acc /\ violations_count m = v + (len obs - len acc) /\
  len acc <= len obs /\ tamper_detected m = (if len obs =? len acc then t else 1).
Proof.
  intros Ht Hobs.
  induction Hobs as [|[rt mono] obs [Hr Hm] _ IH]; intros r0 m0 v d t m acc H1 H2 Hv Hl E;
    cbn [run_monitor] in E.
  - injection E as <- <-. cbn. unfold len. cbn. split_and!; try done; lia.
  - cbn [fst snd] in *. rewrite len_cons in *. pose proof (len_nonneg obs).
    assert (Hacc : r0 = 0 /\ m0 = 0 \/ m0 <= mono /\ r0 - rt <= threshold ->
      (let '(m'', a) := run_monitor (mk_mon rt mono threshold v d t) obs in (m'', (rt, mono) :: a)) = (m, acc) ->
      plausible threshold (r0, m0) acc /\ violations_count m = v + (1 + len obs - len acc) /\
      len acc <= 1 + len obs /\ tamper_detected m = (if 1 + len obs =? len acc then t else 1)).
    { clear E. intros Hok E2. destruct (run_monitor _ obs) as [m2 a] eqn:Er. injection E2 as <- <-.
      destruct (IH rt mono v d t m2 a) as (Hp & Hc & Hle & Htd); try done; try lia.
      rewrite len_cons. split; [|split; [lia|split; [lia|]]].
      - cbn [plausible fst snd]. split_and!; [| |done]; lia.
      - rewrite Htd. by replace (1 + len obs =? 1 + len a) with (len obs =? len a) by lia. }
    assert (Hrej : forall dl,
      (let '(m'', a) := run_monitor (mk_mon r0 m0 threshold (u64 (v + 1)) dl 1) obs in (m'', a)) = (m, acc) ->
      plausible threshold (r0, m0) acc /\ violations_count m = v + (1 + len obs - len acc) /\
      len acc <= 1 + len obs /\ tamper_detected m = (if 1 + len obs =? len acc then t else 1)).
    { clear E. intros dl E2.
      destruct (run_monitor (mk_mon r0 m0 threshold (u64 (v + 1)) dl 1) obs) as [m2 a] eqn:Er.
      injection E2 as <- <-.
      unfold u64 in Er. rewrite Z.mod_small in Er by lia.
      destruct (IH r0 m0 (v + 1) dl 1 m2 a) as (Hp & Hc & Hle & Htd); try done; try lia.
      split_and!; [done|lia|lia|]. rewrite Htd.
      replace (1 + len obs =? len a) with false by (symmetry; lia). by destruct (len obs =? len a). }
    unfold alrios_time_monitor_update in E.
    cbn [last_realtime_ns last_monotonic_ns backward_step_threshold_ns] in E.
    unfold observe, violation in E.
    cbn [last_realtime_ns last_monotonic_ns backward_step_threshold_ns violations_count
         last_violation_delta_ns tamper_detected] in E.
    destruct ((r0 =? 0) && (m0 =? 0)) eqn:E0; bool_hyps.
    { apply Hacc; [by left|exact E]. }
    destruct (mono <? m0) eqn:E1; bool_hyps; [by eapply Hrej|].
    destruct ((rt <? r0) && (u64 (r0 - rt) >? threshold)) eqn:E2; [by eapply Hrej|].
    apply Hacc; [right|exact E]. split; [done|].
    apply andb_false_iff in E2 as [E2|E2]; bool_hyps; [lia|].
    unfold u64 in E2. destruct (Z.le_gt_cases rt r0); [rewrite Z.mod_small in E2 by lia|]; lia.
Qed.

(** From a fresh monitor, the readings it accepts are plausible whatever
    the clocks report; every other reading raises the sticky flag and is counted. *)
Theorem monitor_run_spec threshold obs :
  0 <= threshold < 2 ^ 64 -> Forall (fun p => 0 <= p.1 < 2 ^ 64 /\ 0 <= p.2 < 2 ^ 64) obs ->
  len obs < 2 ^ 64 ->
  forall m acc, run_monitor (mk_mon 0 0 threshold 0 0 0) obs = (m, acc) ->
  plausible threshold (0, 0) acc /\ violations_count m = len obs - len acc /\
  tamper_detected m = (if len obs =? len acc then 0 else 1).
Proof.
  intros Ht Hobs Hlen.
  intros m acc E.
  destruct (run_monitor_gen threshold obs Ht Hobs 0 0 0 0 0 m acc) as (? & ? & ? & ?); try done; lia.
Qed.

(** ** Witnesses *)

Definition sample_hmac (key m : bytes) : bytes := sha512_spec (key ++ m).

Lemma sample_hmac_len k m : len (sample_hmac k m) = 64.
Proof. unfold sample_hmac. apply sha_digest_len. Qed.

Lemma sample_hmac_ok k m : bytes_ok (sample_hmac k m).
Proof. unfold sample_hmac. apply sha_digest_ok. Qed.

Definition sample_key : option bytes := Some (replicate 32 7).

Definition sample_body : epoch_state := mk_epoch 1 0 2 100 50 (zeros 64).

(** An authentic state of epoch 2. *)
Definition sample_state : epoch_state :=
  with_tag sample_body (tag_of sample_hmac sha512_spec sample_key (build_body sample_body)).

Lemma sample_state_typed : epoch_typed sample_state.
Proof.
  constructor; cbn; try lia. split; [apply sample_hmac_len|apply sample_hmac_ok].
Qed.

Lemma sample_authentic : authentic sample_hmac sha512_spec sample_key sample_state.
Proof. split; reflexivity. Qed.

Definition sample_file : bytes := wire_of sample_state.

Lemma sample_file_state : file_state sample_hmac sha512_spec sample_key sample_file sample_state.
Proof.
  split; [vm_compute; discriminate|]. split; [vm_compute; reflexivity|].
  split; [vm_compute; reflexivity|apply sample_authentic].
Qed.

Lemma sample_file_ok : bytes_ok sample_file.
Proof. apply bytes_okb_ok. vm_compute. reflexivity. Qed.

Definition calm (f : bytes) (n : nat) : world := mk_world f F_UNLCK (replicate n (Go SIZE_MAX)).

Lemma epoch_calm_smooth f n m : (n <= m)%nat -> smooth n (calm f m).
Proof. intros. by exists m. Qed.

(** An advance killed after 30 octets, then one that is interrupted at once. *)
Definition sample_runs : list (Z * list event) :=
  [(3, replicate 33 (Go SIZE_MAX) ++ [Go 30]); (5, [Go 1; Intr])].

Lemma epoch_never_rolls_back_witness :
  floor_inv sample_hmac sha512_spec sample_key 2
    (boots sample_hmac sample_key sample_runs sample_file)
  \/ forged sample_hmac sha512_spec sample_key sample_runs sample_file.
Proof.
  apply (epoch_never_rolls_back sample_hmac sha512_spec sample_hmac_len sample_hmac_ok).
  - split; [apply sample_file_ok|]. split; [vm_compute; reflexivity|].
    intros s (_ & _ & -> & _). vm_compute. discriminate.
  - repeat constructor; cbn; lia.
Defined.

Lemma gates_stay_closed_witness :
  forged sample_hmac sha512_spec sample_key [(5, [Go 1; Intr])] sample_file \/
  (alrios_security_epoch_gate_policy (Some sample_state) None = EPOCH_ERR_POLICY_OUTDATED ->
   alrios_security_epoch_gate_policy (Some sample_state) None = EPOCH_ERR_POLICY_OUTDATED) /\
  (alrios_security_epoch_gate_algorithm (Some sample_state) ALGO_ED25519_CLASSIC <> EPOCH_OK ->
   alrios_security_epoch_gate_algorithm (Some sample_state) ALGO_ED25519_CLASSIC <> EPOCH_OK).
Proof.
  apply (gates_stay_closed sample_hmac sha512_spec sample_hmac_len sample_hmac_ok sample_key
           [(5, [Go 1; Intr])] sample_file).
  - apply sample_file_ok.
  - apply sample_file_state.
  - repeat constructor; cbn; lia.
  - vm_compute. apply sample_file_state.
Defined.

(** The first advance creates the record. *)
Lemma file_advance_ok_witness :
  exists s, authentic sample_hmac sha512_spec sample_key s /\ ep_epoch s = 4.
Proof.
  eexists. pose proof (file_advance_ok sample_hmac sha512_spec sample_hmac_len sample_hmac_ok true
                         4 sample_key (calm [] 60)) as Hadv.
  destruct (Hadv (alrios_epoch_file_advance sample_hmac true 4 sample_key true (calm [] 60)).2
              (mk_epoch 1 0 4 UINT64_MAX UINT64_MAX
                 (tag_of sample_hmac sha512_spec sample_key
                    (build_body (mk_epoch 1 0 4 UINT64_MAX UINT64_MAX (zeros 64))))))
    as (Ha & He & _).
  - apply Forall_nil_2.
  - lia.
  - vm_compute. reflexivity.
  - split; [exact Ha|exact He].
Defined.

Lemma epoch_roundtrip_witness :
  exists wire w1 w2,
    alrios_epoch_state_encode sample_hmac (Some sample_state) sample_key true (calm [] 12)
    = (Ret (EPOCH_OK, Some wire), w1) /\ len wire = EPOCH_WIRE_SIZE /\
    alrios_epoch_state_decode sample_hmac (Some wire) sample_key true w1
    = (Ret (EPOCH_OK, Some sample_state), w2).
Proof.
  apply (epoch_roundtrip sample_hmac sha512_spec sample_hmac_len sample_key sample_state (calm [] 12) 0).
  - apply sample_state_typed.
  - apply sample_authentic.
  - apply epoch_calm_smooth. lia.
Defined.

Lemma state_advance_spec_witness :
  exists w', alrios_epoch_state_advance sample_hmac (Some sample_state) 1 sample_key (calm [] 14)
             = (Ret (EPOCH_ERR_ROLLBACK, Some sample_state), w').
Proof.
  apply (state_advance_spec sample_hmac sha512_spec sample_key sample_state 1 (calm [] 14) 0).
  - apply sample_state_typed.
  - apply sample_authentic.
  - lia.
  - apply epoch_calm_smooth. lia.
Defined.

(** A reading 40 ns back under a threshold of 10. *)
Lemma monitor_run_spec_witness :
  violations_count (fst (run_monitor (mk_mon 0 0 10 0 0 0) [(100, 1); (60, 2); (95, 3)])) = 1.
Proof.
  apply (monitor_run_spec 10 [(100, 1); (60, 2); (95, 3)]) with (acc := [(100, 1); (95, 3)]).
  - lia.
  - repeat constructor; cbn; lia.
  - reflexivity.
  - reflexivity.
Defined.
