(* ===== verification/EvpApi.v ===== *)
(** The part of OpenSSL's EVP interface the PKI and package code calls. The
    library is not part of the repository: [EvpApi] lists its calls as operations
    on abstract keys, [EvpLaws] states the documented behaviour the code relies
    on, and [toy_evp] is an instance, so that the laws can be seen to hold. *)

From S2P Require Import Prelude Bytes.

(** The algorithm names of [EVP_PKEY_new_raw_public_key(_ex)]. *)
Inductive key_algorithm := KEY_ED25519 | KEY_ML_DSA_65.

Class EvpApi := {
  (** [EVP_PKEY]: a public key, with its private half if it has one. *)
  pkey : Type;
  (** Does [EVP_MD_CTX_new] return a context? *)
  evp_md_ctx_new : bool;
  (** [EVP_DigestInit_ex(EVP_sha512)], one update per element, [EVP_DigestFinal_ex]. *)
  evp_sha512 : list bytes -> option bytes;
  evp_new_raw_public_key : key_algorithm -> bytes -> option pkey;
  evp_get_raw_public_key : pkey -> option bytes;
  (** [EVP_DigestSignInit] with a context string, then [EVP_DigestSign] into a
      buffer of the given capacity: the signature that is stored. *)
  evp_sign : pkey -> bytes -> Z -> bytes -> option bytes;
  (** [EVP_DigestVerifyInit] with a context string. *)
  evp_verify_init : pkey -> bytes -> bool;
  (** [EVP_DigestVerify(ctx, signature, message) == 1]. *)
  evp_verify : pkey -> bytes -> bytes -> bytes -> bool;
}.

Class EvpLaws (api : EvpApi) := {
  evp_sha512_len parts digest : evp_sha512 parts = Some digest -> len digest = 64 /\ bytes_ok digest;
  evp_sha512_concat parts parts' :
    concat parts = concat parts' -> evp_sha512 parts = evp_sha512 parts';
  evp_raw_ok k raw : evp_get_raw_public_key k = Some raw -> len raw = 32 -> bytes_ok raw;
  evp_sign_len k context capacity m s :
    0 <= capacity -> evp_sign k context capacity m = Some s -> len s <= capacity /\ bytes_ok s;
  (** A signature verifies under its own key and under the imported public key. *)
  evp_sign_verify k context capacity m s :
    evp_sign k context capacity m = Some s ->
    evp_verify_init k context = true /\ evp_verify k context s m = true;
  evp_sign_verify_raw k context capacity m s raw :
    evp_sign k context capacity m = Some s -> evp_get_raw_public_key k = Some raw ->
    exists k', evp_new_raw_public_key KEY_ED25519 raw = Some k' /\
      evp_verify_init k' context = true /\ evp_verify k' context s m = true;
}.

(** ** An instance: a keyed checksum *)

Definition toy_sum (k context m : bytes) : Z :=
  fold_left (fun a b => (a * 31 + b) mod 251) (k ++ context ++ m) 7.

Definition toy_sign (k context : bytes) (capacity : Z) (m : bytes) : bytes :=
  replicate (Z.to_nat capacity) (1 + toy_sum k context m mod 250).

Definition toy_evp : EvpApi := {|
  pkey := bytes;
  evp_md_ctx_new := true;
  evp_sha512 parts := Some (toy_sign [] [] 64 (concat parts));
  evp_new_raw_public_key _ raw := Some raw;
  evp_get_raw_public_key k := if bytes_okb k then Some k else None;
  evp_sign k context capacity m := Some (toy_sign k context capacity m);
  evp_verify_init _ _ := true;
  evp_verify k context s m := bytes_eqb s (toy_sign k context (len s) m);
|}.

Lemma len_toy_sign k context capacity m : 0 <= capacity -> len (toy_sign k context capacity m) = capacity.
Proof. intros. unfold toy_sign. rewrite len_replicate. lia. Qed.

Lemma toy_sign_ok k context capacity m : bytes_ok (toy_sign k context capacity m).
Proof.
  apply Forall_replicate. unfold byte_ok.
  pose proof (Z.mod_pos_bound (toy_sum k context m) 250). lia.
Qed.

Lemma toy_verify k context capacity m :
  bytes_eqb (toy_sign k context capacity m)
    (toy_sign k context (len (toy_sign k context capacity m)) m) = true.
Proof.
  apply bytes_eqb_eq. unfold toy_sign. rewrite len_replicate. by rewrite Nat2Z.id.
Qed.

Lemma toy_evp_laws : EvpLaws toy_evp.
Proof.
  constructor.
  - intros parts digest [= <-]. split; [by apply len_toy_sign|apply toy_sign_ok].
  - intros parts parts' E. cbn. by rewrite E.
  - intros k raw E _. cbn in E. destruct (bytes_okb k) eqn:Ek; [|done]. injection E as <-.
    by apply bytes_okb_ok.
  - intros k context capacity m s Hc [= <-]. rewrite len_toy_sign by done.
    split; [lia|apply toy_sign_ok].
  - intros k context capacity m s [= <-]. split; [done|apply toy_verify].
  - intros k context capacity m s raw [= <-] Hr. cbn in Hr.
    destruct (bytes_okb k); [|done]. injection Hr as <-. exists k. split; [done|].
    split; [done|apply toy_verify].
Qed.
