(* ===== verification/Issuer.v ===== *)
(** Issuing certificates and verifying a chain (src/libraries/pki/issuer.c).

    Key generation, randomness, the clock and the place of the local buffer
    [tbs] are the environment of a call ([issue_env]); signatures go through
    EvpApi.v, key identifiers through HashApi.v. *)

From S2P Require Import Prelude Bytes CryptoUtils HashApi Sha512 Certificate TrustStore EvpApi.
From stdpp Require Import gmap.
#[local] Open Scope Z_scope.

Definition ALRIOS_ISSUER_OK : Z := 0.

Definition ISSUER_ERR_INVALID_ARGUMENT : Z := -5001.

Definition ISSUER_ERR_KEYGEN_FAILED : Z := -5002.

Definition ISSUER_ERR_SIGN_FAILED : Z := -5003.

Definition ISSUER_ERR_ENCODE_FAILED : Z := -5004.

Definition ISSUER_ERR_VERIFY_FAILED : Z := -5005.

Definition ISSUER_ERR_EXPIRED : Z := -5007.

Definition ISSUER_ERR_CHAIN_INVALID : Z := -5008.

Definition ROLE_INTERMEDIATE : Z := 2.

Section Issuer.
Context `{api : Sha512Api} {evp : EvpApi}.

(** ** Issuing *)

Record issue_env := {
  (** The key pair [EVP_PKEY_keygen] makes, if it makes one. *)
  fresh_key : option pkey;
  (** The 16 octets of [RAND_bytes]. *)
  random_serial : option bytes;
  (** [time(NULL)]. *)
  clock : Z;
  (** Where the local buffer [tbs] lies. *)
  tbs_at : ptr bytes;
}.

(** Status and what is behind the output pointers afterwards; [None]: not written. *)
Record issued := mk_issued {
  status : Z;
  out_pkey : option pkey;
  out_cert : option certificate;
  out_wire : option bytes;
  out_wire_len : option Z;
}.

Definition failed (status : Z) (cert : option certificate) (wire_len : option Z) : issued :=
  mk_issued status None cert None wire_len.

Definition generate_ed25519_keypair (env : issue_env) : res (pkey * bytes) :=
  match fresh_key env with
  | None => Err ISSUER_ERR_KEYGEN_FAILED
  | Some pkey =>
      match evp_get_raw_public_key pkey with
      | Some raw_pub =>
          if len raw_pub =? 32 then Ok (pkey, raw_pub) else Err ISSUER_ERR_KEYGEN_FAILED
      | None => Err ISSUER_ERR_KEYGEN_FAILED
      end
  end.

Definition sign_tbs (signing_key : pkey) (tbs : bytes) : res bytes :=
  if negb evp_md_ctx_new then Err ISSUER_ERR_SIGN_FAILED
  else
    match evp_sign signing_key [] 64 tbs with
    | Some sig => if len sig =? 64 then Ok sig else Err ISSUER_ERR_SIGN_FAILED
    | None => Err ISSUER_ERR_SIGN_FAILED
    end.

(** A certificate being filled in: everything so far is zero but these fields. *)
Definition blank (role_ : Z) (serial_ issuer : bytes) : certificate :=
  mk_cert ALRIOS_CERTIFICATE_VERSION_1 role_ 1 1 serial_ issuer 0 0
    0 (zeros SUBJECT_MAX) 0 (zeros HYBRID_KEY_SIZE) 0 (zeros HYBRID_SIG_SIZE).

(** The fields from the dates to [signature_len]. *)
Definition filled (role_ : Z) (serial_ issuer : bytes) (now valid_days : Z) (subject_ raw_pub : bytes)
    : certificate :=
  mk_cert ALRIOS_CERTIFICATE_VERSION_1 role_ 1 1 serial_ issuer
    now (u64 (now + u64 (valid_days * 86400)))
    (len subject_) (upd 0 subject_ (zeros SUBJECT_MAX))
    32 (upd 0 raw_pub (zeros HYBRID_KEY_SIZE))
    64 (zeros HYBRID_SIG_SIZE).

(** [memcpy] of the signature, or of a key identifier, into the certificate. *)
Definition with_signature (c : certificate) (sig : bytes) : certificate :=
  mk_cert (version c) (role c) (public_key_algorithm c) (signature_algorithm c) (serial c)
    (issuer_key_id c) (not_before c) (not_after c) (subject_len c) (subject c)
    (public_key_len c) (public_key c) (signature_len c) (upd 0 sig (signature c)).

Definition with_issuer (c : certificate) (key_id : bytes) : certificate :=
  mk_cert (version c) (role c) (public_key_algorithm c) (signature_algorithm c) (serial c)
    key_id (not_before c) (not_after c) (subject_len c) (subject c)
    (public_key_len c) (public_key c) (signature_len c) (signature c).

(** The last steps of the three functions: encode the TBS octets, sign them,
    encode the certificate. [address] is that of [out_cert]. *)
Definition sign_and_encode (env : issue_env) (signing_key new_key : pkey) (address : Z)
    (c : certificate) (wire : ptr bytes) (out_capacity : Z) : issued :=
  match alrios_certificate_encode_tbs (At address c) (tbs_at env) TBS_MAX true with
  | (st, _, Some tbs) =>
      if negb (st =? 0) then failed ISSUER_ERR_ENCODE_FAILED (Some c) None
      else
        match sign_tbs signing_key tbs with
        | Ok sig =>
            let c := with_signature c sig in
            match alrios_certificate_encode (At address c) wire out_capacity true with
            | (st, n, w) =>
                if negb (st =? 0) then failed ISSUER_ERR_ENCODE_FAILED (Some c) (Some n)
                else mk_issued ALRIOS_ISSUER_OK (Some new_key) (Some c) w (Some n)
            end
        | _ => failed ISSUER_ERR_SIGN_FAILED (Some c) None
        end
  | (_, _, None) => failed ISSUER_ERR_ENCODE_FAILED (Some c) None
  end.

(** The null checks and the length check of the subject. *)
Definition arguments_ok (subject_ : option bytes) (others : bool) : bool :=
  match subject_ with
  | Some s => others && negb ((len s =? 0) || (len s >? SUBJECT_MAX))
  | None => false
  end.

Definition alrios_pki_issue_root (env : issue_env) (subject_ : option bytes) (valid_days : Z)
    (pkey_present : bool) (cert : ptr certificate) (wire : ptr bytes) (out_capacity : Z)
    (wire_len_present : bool) : issued :=
  match subject_, cert with
  | Some s, At address _ =>
      if negb (arguments_ok subject_ (pkey_present && negb (is_null wire) && wire_len_present))
      then failed ISSUER_ERR_INVALID_ARGUMENT None None
      else
        match generate_ed25519_keypair env with
        | Ok (pkey, raw_pub) =>
            match random_serial env with
            | None =>
                failed ISSUER_ERR_KEYGEN_FAILED
                  (Some (blank ROLE_ROOT (zeros SERIAL_SIZE) (zeros KEY_ID_SIZE))) None
            | Some serial_ =>
                let c := filled ROLE_ROOT serial_ (zeros KEY_ID_SIZE) (clock env) valid_days s raw_pub in
                match alrios_certificate_public_key_id (Some c) true with
                | (st, Some key_id) =>
                    let c := with_issuer c key_id in
                    if negb (st =? 0) then failed ISSUER_ERR_KEYGEN_FAILED (Some c) None
                    else sign_and_encode env pkey pkey address c wire out_capacity
                | (_, None) => failed ISSUER_ERR_KEYGEN_FAILED (Some c) None
                end
            end
        | Err rc => failed rc None None
        | Fault => failed ISSUER_ERR_KEYGEN_FAILED None None
        end
  | _, _ => failed ISSUER_ERR_INVALID_ARGUMENT None None
  end.

(** The body the other two functions share, with the role of the new certificate. *)
Definition issue_child (role_ : Z) (env : issue_env) (subject_ : option bytes) (valid_days : Z)
    (issuer_cert : option certificate) (issuer_pkey : option pkey)
    (pkey_present : bool) (cert : ptr certificate) (wire : ptr bytes) (out_capacity : Z)
    (wire_len_present : bool) : issued :=
  match subject_, issuer_cert, issuer_pkey, cert with
  | Some s, Some parent, Some signing_key, At address _ =>
      if negb (arguments_ok subject_ (pkey_present && negb (is_null wire) && wire_len_present))
      then failed ISSUER_ERR_INVALID_ARGUMENT None None
      else
        match generate_ed25519_keypair env with
        | Ok (pkey, raw_pub) =>
            match random_serial env with
            | None =>
                failed ISSUER_ERR_KEYGEN_FAILED
                  (Some (blank role_ (zeros SERIAL_SIZE) (zeros KEY_ID_SIZE))) None
            | Some serial_ =>
                match alrios_certificate_public_key_id (Some parent) true with
                | (st, Some key_id) =>
                    if negb (st =? 0) then
                      failed ISSUER_ERR_KEYGEN_FAILED (Some (blank role_ serial_ key_id)) None
                    else
                      let c := filled role_ serial_ key_id (clock env) valid_days s raw_pub in
                      sign_and_encode env signing_key pkey address c wire out_capacity
                | (_, None) =>
                    failed ISSUER_ERR_KEYGEN_FAILED (Some (blank role_ serial_ (zeros KEY_ID_SIZE))) None
                end
            end
        | Err rc => failed rc None None
        | Fault => failed ISSUER_ERR_KEYGEN_FAILED None None
        end
  | _, _, _, _ => failed ISSUER_ERR_INVALID_ARGUMENT None None
  end.

Definition alrios_pki_issue_intermediate := issue_child ROLE_INTERMEDIATE.

Definition alrios_pki_issue_leaf := issue_child ROLE_LEAF.

(** ** Verifying *)

(** [tbs_at] is where the local buffer lies. *)
Definition verify_cert_signature (tbs_at : ptr bytes) (child : ptr certificate) (parent : certificate)
    : Z :=
  match alrios_certificate_encode_tbs child tbs_at TBS_MAX true, child with
  | (st, _, Some tbs), At _ c =>
      if negb (st =? 0) then ISSUER_ERR_VERIFY_FAILED
      else
        match evp_new_raw_public_key KEY_ED25519 (sub 0 (public_key_len parent) (public_key parent)) with
        | None => ISSUER_ERR_VERIFY_FAILED
        | Some parent_pkey =>
            if negb evp_md_ctx_new then ISSUER_ERR_VERIFY_FAILED
            else if negb (evp_verify_init parent_pkey []) then ISSUER_ERR_VERIFY_FAILED
            else if evp_verify parent_pkey [] (sub 0 (signature_len c) (signature c)) tbs
            then ALRIOS_ISSUER_OK else ISSUER_ERR_VERIFY_FAILED
        end
  | _, _ => ISSUER_ERR_VERIFY_FAILED
  end.

Definition outside (c : certificate) (now : Z) : bool := (now <? not_before c) || (now >? not_after c).

Definition alrios_pki_verify_chain (tbs_at : ptr bytes) (store : option trust_store)
    (leaf_cert inter_cert : ptr certificate) (current_time : Z) : Z :=
  match store, leaf_cert, inter_cert with
  | Some _, At _ leaf, At _ inter =>
      if outside leaf current_time then ISSUER_ERR_EXPIRED
      else if outside inter current_time then ISSUER_ERR_EXPIRED
      else if negb (role leaf =? ROLE_LEAF) then ISSUER_ERR_CHAIN_INVALID
      else if negb (role inter =? ROLE_INTERMEDIATE) then ISSUER_ERR_CHAIN_INVALID
      else
        match alrios_trust_store_lookup store (Some (issuer_key_id inter)) true with
        | (st, Some root_anchor) =>
            if negb (st =? CERT_OK) then ISSUER_ERR_CHAIN_INVALID
            else if outside root_anchor current_time then ISSUER_ERR_EXPIRED
            else
              match alrios_certificate_public_key_id (Some inter) true with
              | (st, inter_key_id) =>
                  if negb (st =? 0) then ISSUER_ERR_CHAIN_INVALID
                  else if negb (alrios_constant_time_memcmp (Some (issuer_key_id leaf)) inter_key_id
                                  KEY_ID_SIZE =? 0) then ISSUER_ERR_CHAIN_INVALID
                  else if negb (verify_cert_signature tbs_at leaf_cert inter =? ALRIOS_ISSUER_OK)
                  then ISSUER_ERR_VERIFY_FAILED
                  else if negb (verify_cert_signature tbs_at inter_cert root_anchor =? ALRIOS_ISSUER_OK)
                  then ISSUER_ERR_VERIFY_FAILED
                  else ALRIOS_ISSUER_OK
              end
        | (_, None) => ISSUER_ERR_CHAIN_INVALID
        end
  | _, _, _ => ISSUER_ERR_INVALID_ARGUMENT
  end.
End Issuer.

(** ** Specification *)

(** The environment has the types of the C objects. *)
Definition env_typed {evp : EvpApi} (env : issue_env) : Prop :=
  0 <= clock env < 2 ^ 64 /\
  (forall s, random_serial env = Some s -> len s = SERIAL_SIZE /\ bytes_ok s).

(** [child] carries a signature over its TBS octets that verifies under the
    public key in [parent]. *)
Definition signed_by {evp : EvpApi} (child parent : certificate) : Prop :=
  exists k, evp_new_raw_public_key KEY_ED25519 (sub 0 (public_key_len parent) (public_key parent)) = Some k /\
    evp_verify_init k [] = true /\
    evp_verify k [] (sub 0 (signature_len child) (signature child)) (cert_tbs child) = true.

Definition within (c : certificate) (now : Z) : Prop := not_before c <= now <= not_after c.

(** A chain from a leaf over an intermediate to an anchor of the store [m]. *)
Definition chain_ok {evp : EvpApi} (H : bytes -> bytes) (m : gmap bytes certificate)
    (leaf inter : certificate) (now : Z) : Prop :=
  exists root, m !! issuer_key_id inter = Some root /\
    within leaf now /\ within inter now /\ within root now /\
    role leaf = ROLE_LEAF /\ role inter = ROLE_INTERMEDIATE /\
    issuer_key_id leaf = key_id_of H inter /\
    signed_by leaf inter /\ signed_by inter root.

(** ** Lemmas *)

Lemma with_signature_valid c sig :
  cert_valid c -> cert_valid (with_signature c sig).
Proof. by destruct 1. Qed.

Lemma with_signature_tbs c sig : cert_tbs (with_signature c sig) = cert_tbs c.
Proof. done. Qed.

Lemma with_signature_typed c sig :
  cert_typed c -> bytes_ok sig -> len sig <= HYBRID_SIG_SIZE -> cert_typed (with_signature c sig).
Proof.
  destruct 1 as [? ? ? ? ? ? ? ? ? ? ? ? ? [Hl Hb]]. intros Hs Hn. pose proof (len_nonneg sig).
  constructor; try done. cbn [with_signature signature]. split.
  - rewrite len_upd by clia. done.
  - by apply bytes_ok_upd.
Qed.

Lemma filled_typed r serial_ issuer now days s raw :
  byte_ok r -> len serial_ = SERIAL_SIZE -> bytes_ok serial_ ->
  len issuer = KEY_ID_SIZE -> bytes_ok issuer -> 0 <= now < 2 ^ 64 ->
  bytes_ok s -> len s <= SUBJECT_MAX -> bytes_ok raw -> len raw = 32 ->
  cert_typed (filled r serial_ issuer now days s raw).
Proof.
  intros Hr Hsl Hsb Hil Hib Hn Hs Hss Hraw Hrl. pose proof (len_nonneg s).
  constructor; cbn [filled version role public_key_algorithm signature_algorithm serial issuer_key_id
    not_before not_after subject_len subject public_key_len public_key signature_len signature]; try done.
  - unfold u64. apply Z.mod_pos_bound. lia.
  - clia.
  - apply fill_typed; [done|done|clia].
  - apply fill_typed; [done|clia|clia].
  - split; [by rewrite len_zeros by clia|auto with buf].
Qed.

Section Proofs.
Context `{laws : Sha512Laws} {evp : EvpApi} {elaws : EvpLaws evp}.

(** Where a TBS buffer may lie. *)
Definition apart (tbs_at : ptr bytes) (a : Z) (c : certificate) : Prop :=
  is_null tbs_at = false /\
  ranges_overlap (At a c) CERT_SIZEOF tbs_at
    (TBS_DOMAIN_SIZE + HEADER_SIZE_V1 + subject_len c + public_key_len c) = false.

(** The signature check, on a certificate whose TBS octets fit. *)
Lemma verify_signature_iff tbs_at a c parent :
  cert_typed c -> cert_valid c -> apart tbs_at a c -> evp_md_ctx_new = true ->
  subject_len c + public_key_len c <= 1964 ->
  verify_cert_signature tbs_at (At a c) parent = ALRIOS_ISSUER_OK <-> signed_by c parent.
Proof.
  intros Ht Hv [Hn Hov] Hctx Hfit. unfold verify_cert_signature, signed_by.
  rewrite encode_tbs_ok by (done || clia). change (negb (CERT_OK =? 0)) with false. cbn iota.
  rewrite Hctx. cbn [negb]. split.
  - destruct (evp_new_raw_public_key _ _) as [k|]; [|done].
    destruct (evp_verify_init k []) eqn:E1; [|done]. cbn [negb].
    destruct (evp_verify k _ _ _) eqn:E2; [|done]. intros _. by exists k.
  - intros (k & -> & -> & ->). done.
Qed.

(** What a successful run of the last steps has done. *)
Lemma sign_and_encode_inv env sk nk a c wire cap r :
  cert_typed c -> sign_and_encode env sk nk a c wire cap = r -> status r = ALRIOS_ISSUER_OK ->
  exists sig, out_cert r = Some (with_signature c sig) /\ out_pkey r = Some nk /\
    cert_valid c /\ subject_len c + public_key_len c <= 1964 /\
    len sig = 64 /\ bytes_ok sig /\ evp_sign sk [] 64 (cert_tbs c) = Some sig /\
    out_wire r = Some (cert_wire (with_signature c sig)) /\ out_wire_len r = Some (wire_length c).
Proof.
  intros Ht <-. unfold sign_and_encode.
  destruct (alrios_certificate_encode_tbs _ _ _ _) as [[st n] [t|]] eqn:E; [|done].
  destruct (negb (st =? 0)) eqn:Es; [done|]. bool_hyps. subst st.
  assert (Hfit : subject_len c + public_key_len c <= 1964).
  { clear - E Ht. unfold alrios_certificate_encode_tbs in E. destruct (_ && _); [|done].
    destruct (validate_certificate c) as [wl|e|]; [|done|done]. cbv zeta in E.
    destruct (_ || _) eqn:Eb; [done|]. rewrite Z.gtb_ltb in Eb. bool_hyps. clia. }
  apply encode_tbs_inv in E as [Hv ->]; [|done]. fold (cert_tbs c).
  unfold sign_tbs. destruct (negb evp_md_ctx_new); [done|].
  destruct (evp_sign sk [] 64 (cert_tbs c)) as [sig|] eqn:Esig; [|done].
  destruct (len sig =? 64) eqn:El; [|done]. bool_hyps.
  destruct (evp_sign_len sk [] 64 (cert_tbs c) sig ltac:(lia) Esig) as [_ Hb].
  destruct (alrios_certificate_encode _ _ _ _) as [[st n'] w] eqn:Ee.
  destruct (negb (st =? 0)) eqn:Es; [done|]. bool_hyps. subst st. intros _.
  exists sig. cbn [out_cert out_pkey out_wire out_wire_len].
  assert (Hw : n' = wire_length c /\ w = Some (cert_wire (with_signature c sig))).
  { pose proof (with_signature_typed c sig Ht Hb ltac:(clia)) as Ht'.
    destruct w as [w|].
    - apply encode_inv in Ee as (_ & -> & -> & _); done.
    - revert Ee. unfold alrios_certificate_encode. destruct (_ && _); [|done].
      pose proof (validate_proper (with_signature c sig)) as Hp.
      destruct (validate_certificate _) as [wl|e|] eqn:Ev; [|intros [= ->]; by destruct (Hp _ eq_refl)|].
      + by repeat split_if; intros [=].
      + by destruct (validate_no_fault _ Ev). }
  destruct Hw as [-> ->]. do 8 (split; [done|]). done.
Qed.

(** A certificate [c] for the key [nk], signed with [sk]. *)
Record issued_as (sk nk : pkey) (c : certificate) : Prop := {
  ia_typed : cert_typed c;
  ia_valid : cert_valid c;
  ia_fits : subject_len c + public_key_len c <= 1964;
  ia_key : evp_get_raw_public_key nk = Some (sub 0 (public_key_len c) (public_key c));
  ia_signature : evp_sign sk [] 64 (cert_tbs c) = Some (sub 0 (signature_len c) (signature c));
}.

(** A certificate issued with the key of [parent] is signed by it. *)
Lemma issued_signed sk nk sk' c parent :
  issued_as sk nk c -> issued_as sk' sk parent -> signed_by c parent.
Proof.
  intros [_ _ _ _ Hs] [_ _ _ Hk _]. unfold signed_by.
  destruct (evp_sign_verify_raw _ _ _ _ _ _ Hs Hk) as (k & E & Hi & Hv). by exists k.
Qed.

Lemma filled_issued env sk nk a role_ serial_ issuer days s raw wire cap r :
  env_typed env -> random_serial env = Some serial_ -> byte_ok role_ ->
  bytes_ok issuer -> len issuer = KEY_ID_SIZE -> bytes_ok s -> len s <= SUBJECT_MAX ->
  evp_get_raw_public_key nk = Some raw -> len raw = 32 ->
  sign_and_encode env sk nk a (filled role_ serial_ issuer (clock env) days s raw) wire cap = r ->
  status r = ALRIOS_ISSUER_OK ->
  exists c, out_cert r = Some c /\ out_pkey r = Some nk /\ issued_as sk nk c /\
    role c = role_ /\ issuer_key_id c = issuer /\
    key_id_of H c = key_id_of H (filled role_ serial_ issuer (clock env) days s raw) /\
    not_before c = clock env.
Proof.
  intros [Hclk Hser] Hs Hrole Hib Hil Hsb Hsl Hraw Hrl E Hok.
  destruct (Hser _ Hs) as [Hserl Hserb]. pose proof (evp_raw_ok _ _ Hraw Hrl) as Hrb.
  assert (Ht : cert_typed (filled role_ serial_ issuer (clock env) days s raw)) by (by apply filled_typed).
  destruct (sign_and_encode_inv _ _ _ _ _ _ _ _ Ht E Hok)
    as (sig & Hc & Hk & Hv & Hfit & Hgl & Hgb & Hsign & _).
  eexists. split; [exact Hc|]. split; [exact Hk|]. split; [|done].
  constructor.
  - apply with_signature_typed; [done|done|clia].
  - by apply with_signature_valid.
  - done.
  - cbn [with_signature filled public_key_len public_key]. rewrite <- Hrl.
    rewrite sub_of_fill by (rewrite Hrl; clia). done.
  - rewrite with_signature_tbs. cbn [with_signature filled signature_len signature].
    rewrite <- Hgl at 2. rewrite sub_of_fill by (rewrite Hgl; clia). done.
Qed.

Lemma keypair_inv env nk raw :
  generate_ed25519_keypair env = Ok (nk, raw) ->
  fresh_key env = Some nk /\ evp_get_raw_public_key nk = Some raw /\ len raw = 32.
Proof.
  unfold generate_ed25519_keypair. destruct (fresh_key env) as [k|]; [|done].
  destruct (evp_get_raw_public_key k) as [r|] eqn:Er; [|done].
  destruct (len r =? 32) eqn:El; [|done]. bool_hyps. intros [= <- <-]. by rewrite Er.
Qed.

Lemma keypair_err env e : generate_ed25519_keypair env = Err e -> e = ISSUER_ERR_KEYGEN_FAILED.
Proof.
  unfold generate_ed25519_keypair. destruct (fresh_key env) as [k|]; [|by intros [= <-]].
  destruct (evp_get_raw_public_key k) as [r|]; [|by intros [= <-]].
  destruct (len r =? 32); [done|by intros [= <-]].
Qed.

Lemma arguments_inv s o : arguments_ok (Some s) o = true -> 1 <= len s <= SUBJECT_MAX.
Proof.
  unfold arguments_ok. rewrite Z.gtb_ltb. intros. bool_hyps. pose proof (len_nonneg s). lia.
Qed.

(** What a successful call for a root has made. *)
Lemma issue_root_inv env s days pp cert wire cap lp r :
  env_typed env -> bytes_ok s ->
  alrios_pki_issue_root env (Some s) days pp cert wire cap lp = r -> status r = ALRIOS_ISSUER_OK ->
  exists c k, out_cert r = Some c /\ out_pkey r = Some k /\ fresh_key env = Some k /\
    issued_as k k c /\ role c = ROLE_ROOT /\ issuer_key_id c = key_id_of H c.
Proof.
  intros He Hs <-. unfold alrios_pki_issue_root. destruct cert as [|a c0]; [done|].
  destruct (arguments_ok _ _) eqn:Ea; [|done]. apply arguments_inv in Ea. cbn [negb].
  destruct (generate_ed25519_keypair env) as [[k raw]|e|] eqn:Ek;
    [|apply keypair_err in Ek as ->; done|done].
  apply keypair_inv in Ek as (Hf & Hraw & Hrl).
  destruct (random_serial env) as [serial_|] eqn:Er; [|done].
  destruct (proj2 He _ Er) as [Hserl Hserb].
  pose proof (evp_raw_ok _ _ Hraw Hrl) as Hrb. set (c1 := filled _ _ _ _ _ _ _).
  assert (Ht : cert_typed c1) by (apply filled_typed; try done; try lia; [apply bytes_ok_zeros|apply He]).
  destruct (alrios_certificate_public_key_id (Some c1) true) as [st [kid|]] eqn:Eid; [|done].
  destruct (negb (st =? 0)) eqn:Es; [done|]. bool_hyps. subst st.
  assert (Hv : cert_valid c1).
  { revert Eid. unfold alrios_certificate_public_key_id. cbn [negb].
    pose proof (validate_proper c1) as Hp.
    destruct (validate_certificate c1) as [wl|e|] eqn:Ev.
    - intros _. apply (validate_iff c1 wl); [|done]. cbn [c1 filled subject_len]. apply len_nonneg.
    - intros [= ->]. by destruct (Hp _ eq_refl).
    - by destruct (validate_no_fault _ Ev). }
  rewrite public_key_id_ok in Eid by done. injection Eid as <-.
  intros Hok. change (with_issuer c1 (key_id_of H c1)) with
    (filled ROLE_ROOT serial_ (key_id_of H c1) (clock env) days s raw) in *.
  match goal with |- exists c k, out_cert ?r = _ /\ _ =>
    destruct (filled_issued env k k a ROLE_ROOT serial_ (key_id_of H c1) days s raw wire cap r He Er)
      as (c & Hc & Hk & Hi & Hrole & Hiss & Hid & Hnb); try done; [apply key_id_bytes|apply key_id_len|lia|]
  end.
  exists c, k. rewrite Hiss, Hid. by repeat (split; [done|]).
Qed.

(** What a successful call for an intermediate or a leaf has made. *)
Lemma issue_child_inv role_ env s days parent sk pp cert wire cap lp r :
  env_typed env -> bytes_ok s -> byte_ok role_ -> cert_typed parent -> cert_valid parent ->
  issue_child role_ env (Some s) days (Some parent) (Some sk) pp cert wire cap lp = r ->
  status r = ALRIOS_ISSUER_OK ->
  exists c k, out_cert r = Some c /\ out_pkey r = Some k /\ fresh_key env = Some k /\
    issued_as sk k c /\ role c = role_ /\ issuer_key_id c = key_id_of H parent.
Proof.
  intros He Hs Hrb0 Hpt Hpv <-. unfold issue_child. destruct cert as [|a c0]; [done|].
  destruct (arguments_ok _ _) eqn:Ea; [|done]. apply arguments_inv in Ea. cbn [negb].
  destruct (generate_ed25519_keypair env) as [[k raw]|e|] eqn:Ek;
    [|apply keypair_err in Ek as ->; done|done].
  apply keypair_inv in Ek as (Hf & Hraw & Hrl).
  destruct (random_serial env) as [serial_|] eqn:Er; [|done].
  rewrite public_key_id_ok by done. change (negb (CERT_OK =? 0)) with false. cbv iota zeta.
  intros Hok.
  match goal with |- exists c k, out_cert ?r = _ /\ _ =>
    destruct (filled_issued env sk k a role_ serial_ (key_id_of H parent) days s raw wire cap r He Er)
      as (c & Hc & Hk & Hi & Hrole & Hiss & Hid & Hnb); try done; [apply key_id_bytes|apply key_id_len|lia|]
  end.
  exists c, k. by repeat (split; [done|]).
Qed.

(** A signature check that succeeds, on any certificate. *)
Lemma verify_signature_sound tbs_at a c parent :
  cert_typed c -> verify_cert_signature tbs_at (At a c) parent = ALRIOS_ISSUER_OK ->
  cert_valid c /\ signed_by c parent.
Proof.
  intros Ht. unfold verify_cert_signature, signed_by.
  destruct (alrios_certificate_encode_tbs _ _ _ _) as [[st n] [t|]] eqn:E; [|done].
  destruct (negb (st =? 0)) eqn:Es; [done|]. bool_hyps. subst st.
  apply encode_tbs_inv in E as [Hv ->]; [|done]. fold (cert_tbs c).
  destruct (evp_new_raw_public_key _ _) as [k|]; [|done].
  destruct (negb evp_md_ctx_new); [done|]. destruct (evp_verify_init k []) eqn:E1; [|done].
  cbn [negb]. destruct (evp_verify k _ _ _) eqn:E2; [|done]. intros _. split; [done|]. by exists k.
Qed.

Lemma outside_within c now : outside c now = false <-> within c now.
Proof. unfold outside, within. rewrite Z.gtb_ltb, orb_false_iff, !Z.ltb_ge. tauto. Qed.

(** A chain that is accepted satisfies the specification. *)
Lemma verify_chain_sound tbs_at store al leaf ai inter now :
  store_wf H store -> sealed store = 1 -> cert_typed leaf -> cert_typed inter ->
  alrios_pki_verify_chain tbs_at (Some store) (At al leaf) (At ai inter) now = ALRIOS_ISSUER_OK ->
  chain_ok H (abs H store) leaf inter now.
Proof.
  intros Hw Hs Tl Ti. unfold alrios_pki_verify_chain, chain_ok.
  pose proof (ty_issuer _ Ti) as [Hil Hib]. pose proof (ty_issuer _ Tl) as [Hll Hlb].
  rewrite lookup_spec by done. rewrite Hs. change (1 =? 0) with false. cbv iota.
  destruct (outside leaf now) eqn:E1; [done|]. destruct (outside inter now) eqn:E2; [done|].
  destruct (negb (role leaf =? _)) eqn:E3; [done|]. destruct (negb (role inter =? _)) eqn:E4; [done|].
  destruct (abs H store !! issuer_key_id inter) as [root|] eqn:E5; [|done].
  change (negb (CERT_OK =? CERT_OK)) with false. cbv iota.
  destruct (outside root now) eqn:E6; [done|].
  destruct (alrios_certificate_public_key_id _ _) as [st id] eqn:Ei.
  destruct (negb (st =? 0)); [done|]. destruct (negb (alrios_constant_time_memcmp _ _ _ =? 0)) eqn:E7; [done|].
  destruct (negb (verify_cert_signature tbs_at (At al leaf) inter =? _)) eqn:E8; [done|].
  destruct (negb (verify_cert_signature tbs_at (At ai inter) root =? _)) eqn:E9; [done|]. intros _.
  bool_hyps. apply verify_signature_sound in E8 as [_ E8], E9 as [Vi E9]; [|done..].
  rewrite public_key_id_ok in Ei by done. injection Ei as <- <-.
  rewrite constant_time_memcmp_full in E7 by (done || apply key_id_bytes || apply key_id_len).
  destruct (bytes_eqb _ _) eqn:E10; [|done]. apply bytes_eqb_eq in E10.
  exists root. by apply outside_within in E1, E2, E6.
Qed.

(** Chain verification, against the specification. *)
Lemma verify_chain_spec tbs_at store al leaf ai inter now :
  store_wf H store -> sealed store = 1 -> evp_md_ctx_new = true ->
  cert_typed leaf -> cert_valid leaf -> cert_typed inter -> cert_valid inter ->
  subject_len leaf + public_key_len leaf <= 1964 -> subject_len inter + public_key_len inter <= 1964 ->
  apart tbs_at al leaf -> apart tbs_at ai inter ->
  alrios_pki_verify_chain tbs_at (Some store) (At al leaf) (At ai inter) now = ALRIOS_ISSUER_OK <->
  chain_ok H (abs H store) leaf inter now.
Proof.
  intros Hw Hs Hctx Tl Vl Ti Vi Fl Fi Al Ai. split; [by apply verify_chain_sound|].
  unfold alrios_pki_verify_chain, chain_ok.
  pose proof (ty_issuer _ Ti) as [Hil Hib]. pose proof (ty_issuer _ Tl) as [Hll Hlb].
  rewrite lookup_spec by done. rewrite Hs. change (1 =? 0) with false. cbv iota.
  rewrite public_key_id_ok by done. change (negb (CERT_OK =? 0)) with false.
  change (negb (CERT_OK =? CERT_OK)) with false. cbv iota.
  rewrite constant_time_memcmp_full by (done || apply key_id_bytes || apply key_id_len).
  intros (root & E5 & E1 & E2 & E6 & E3 & E4 & E7 & E8 & E9). rewrite E5.
  apply outside_within in E1, E2, E6. rewrite E1, E2, E3, E4, E6, E7, bytes_eqb_refl.
  change (negb (ROLE_LEAF =? ROLE_LEAF)) with false.
  change (negb (ROLE_INTERMEDIATE =? ROLE_INTERMEDIATE)) with false.
  change (negb (0 =? 0)) with false. cbv iota.
  rewrite (proj2 (verify_signature_iff tbs_at al leaf inter Tl Vl Al Hctx Fl) E8).
  by rewrite (proj2 (verify_signature_iff tbs_at ai inter root Ti Vi Ai Hctx Fi) E9).
Qed.
End Proofs.

(** ** Properties *)

Section Properties.
Context `{laws : Sha512Laws} {evp : EvpApi} {elaws : EvpLaws evp}.

(** C4: [alrios_pki_verify_chain] over a sealed store accepts exactly the
    chains of the specification: leaf, intermediate and an anchor of the store
    within their validity, with the right roles, linked by key identifiers, each
    signed by the next. *)
Theorem verify_chain_correct tbs_at store al leaf ai inter now :
  store_wf H store -> sealed store = 1 -> evp_md_ctx_new = true ->
  cert_typed leaf -> cert_valid leaf -> cert_typed inter -> cert_valid inter ->
  subject_len leaf + public_key_len leaf <= 1964 -> subject_len inter + public_key_len inter <= 1964 ->
  apart tbs_at al leaf -> apart tbs_at ai inter ->
  alrios_pki_verify_chain tbs_at (Some store) (At al leaf) (At ai inter) now = ALRIOS_ISSUER_OK <->
  chain_ok H (abs H store) leaf inter now.
Proof. apply verify_chain_spec. Qed.

(** The three issuing functions and the verifier agree. A leaf issued with
    the key of an intermediate that was issued with the key of a root verifies
    against every store that holds the root, while all three are valid. *)
Theorem issued_chain_verifies tbs_at store al ai now
    envR sR dR pR cR wR nR lR root kR envI sI dI pI cI wI nI lI inter kI
    envL sL dL pL cL wL nL lL leaf kL :
  env_typed envR -> env_typed envI -> env_typed envL -> bytes_ok sR -> bytes_ok sI -> bytes_ok sL ->
  alrios_pki_issue_root envR (Some sR) dR pR cR wR nR lR
    = mk_issued ALRIOS_ISSUER_OK (Some kR) (Some root) (Some (cert_wire root)) (Some (wire_length root)) ->
  alrios_pki_issue_intermediate envI (Some sI) dI (Some root) (Some kR) pI cI wI nI lI
    = mk_issued ALRIOS_ISSUER_OK (Some kI) (Some inter) (Some (cert_wire inter)) (Some (wire_length inter)) ->
  alrios_pki_issue_leaf envL (Some sL) dL (Some inter) (Some kI) pL cL wL nL lL
    = mk_issued ALRIOS_ISSUER_OK (Some kL) (Some leaf) (Some (cert_wire leaf)) (Some (wire_length leaf)) ->
  store_wf H store -> sealed store = 1 -> abs H store !! key_id_of H root = Some root ->
  evp_md_ctx_new = true -> apart tbs_at al leaf -> apart tbs_at ai inter ->
  within root now -> within inter now -> within leaf now ->
  alrios_pki_verify_chain tbs_at (Some store) (At al leaf) (At ai inter) now = ALRIOS_ISSUER_OK.
Proof.
  intros HeR HeI HeL HsR HsI HsL ER EI EL Hw Hs Hroot Hctx Hal Hai HR HI HL.
  apply (issue_root_inv envR sR) in ER as (c & k & [= <-] & [= <-] & _ & IR & _ & _); [|done..].
  assert (Hb : byte_ok ROLE_INTERMEDIATE /\ byte_ok ROLE_LEAF) by (unfold byte_ok, ROLE_INTERMEDIATE, ROLE_LEAF; lia).
  apply (issue_child_inv ROLE_INTERMEDIATE envI sI) in EI as (c & k & [= <-] & [= <-] & _ & II & RI & KI);
    [|done|done|apply Hb|apply IR|apply IR|done].
  apply (issue_child_inv ROLE_LEAF envL sL) in EL as (c & k & [= <-] & [= <-] & _ & IL & RL & KL);
    [|done|done|apply Hb|apply II|apply II|done].
  apply verify_chain_spec; try done; try apply IL; try apply II.
  exists root. rewrite KI, KL. split; [done|].
  do 6 (split; [done|]). split; [by eapply issued_signed|by eapply issued_signed].
Qed.
End Properties.

(** ** Witnesses, over the engine of Sha512.v and the keys of [toy_evp] *)

#[local] Existing Instances toy_evp toy_evp_laws.

Definition sample_env (k : Z) : @issue_env toy_evp := {|
  fresh_key := Some (upd 0 [k] (zeros 32)) : option (@pkey toy_evp);
  random_serial := Some (upd 0 [k] (zeros SERIAL_SIZE));
  clock := 1000;
  tbs_at := At 500000 [];
|}.

Definition or_zero (c : option certificate) : certificate := default zero_cert c.

Definition sample_root_run : issued :=
  alrios_pki_issue_root (sample_env 1) (Some (lit "root")) 30 true (At 10000 zero_cert) (At 20000 [])
    5513 true.

Definition sample_root : certificate :=
  Eval vm_compute in or_zero (out_cert sample_root_run).

Definition sample_inter_run : issued :=
  alrios_pki_issue_intermediate (sample_env 2) (Some (lit "inter")) 20 (Some sample_root)
    (fresh_key (sample_env 1)) true (At 30000 zero_cert) (At 40000 []) 5513 true.

Definition sample_inter : certificate :=
  Eval vm_compute in or_zero (out_cert sample_inter_run).

Definition sample_leaf_run : issued :=
  alrios_pki_issue_leaf (sample_env 3) (Some (lit "leaf")) 10 (Some sample_inter)
    (fresh_key (sample_env 2)) true (At 50000 zero_cert) (At 60000 []) 5513 true.

Definition sample_leaf : certificate :=
  Eval vm_compute in or_zero (out_cert sample_leaf_run).

Definition sample_chain_store : trust_store :=
  mk_store (<[0%nat := sample_root]> (anchors empty_store)) 1 1.

Lemma sample_env_typed k : byte_ok k -> env_typed (sample_env k).
Proof.
  intros Hk. split; [cbn; lia|]. intros s [= <-]. split; [done|].
  apply bytes_ok_upd; [by apply Forall_singleton|apply bytes_ok_zeros].
Qed.

Lemma sample_root_ok : anchor_ok sample_root.
Proof.
  destruct (issue_root_inv (H := sha512_spec) (evp := toy_evp) (elaws := toy_evp_laws) (sample_env 1) (lit "root") 30 true (At 10000 zero_cert) (At 20000 []) 5513 true
    sample_root_run) as (c & k & Hc & Hk & _ & Hi & Hr & _).
  - apply sample_env_typed. unfold byte_ok. lia.
  - apply bytes_okb_ok. vm_compute. reflexivity.
  - reflexivity.
  - vm_refl.
  - assert (E : sample_root = c); [|rewrite E; split; [apply Hi|]; split; [apply Hi|done]].
    transitivity (or_zero (out_cert sample_root_run)); [vm_refl|by rewrite Hc].
Qed.

(** What decides that a certificate is well typed and valid, by evaluation. *)
Definition cert_okb (c : certificate) : bool :=
  (0 <=? version c) && (version c <? 2 ^ 16) && bytes_okb [role c; public_key_algorithm c; signature_algorithm c] &&
  (len (serial c) =? 16) && bytes_okb (serial c) && (len (issuer_key_id c) =? 32) && bytes_okb (issuer_key_id c) &&
  (0 <=? not_before c) && (not_before c <? 2 ^ 64) && (0 <=? not_after c) && (not_after c <? 2 ^ 64) &&
  (0 <=? subject_len c) && (subject_len c <? 2 ^ 64) && (len (subject c) =? 64) && bytes_okb (subject c) &&
  (0 <=? public_key_len c) && (public_key_len c <? 2 ^ 64) && (len (public_key c) =? 1984) && bytes_okb (public_key c) &&
  (0 <=? signature_len c) && (signature_len c <? 2 ^ 64) && (len (signature c) =? 3373) && bytes_okb (signature c) &&
  match validate_certificate c with Ok _ => true | _ => false end.

Lemma cert_okb_ok c : cert_okb c = true -> cert_typed c /\ cert_valid c.
Proof.
  unfold cert_okb. intros H. destruct (validate_certificate c) as [wl|e|] eqn:Ev;
    [|rewrite andb_false_r in H; done|rewrite andb_false_r in H; done].
  rewrite andb_true_r in H. bool_hyps.
  repeat match goal with Hb : bytes_okb _ = true |- _ => apply bytes_okb_ok in Hb end.
  match goal with Hb : bytes_ok [_; _; _] |- _ =>
    apply Forall_cons_iff in Hb as [? Hb]; apply Forall_cons_iff in Hb as [? Hb];
    apply Forall_cons_iff in Hb as [? _] end.
  split; [by constructor|]. by apply (validate_iff c wl).
Qed.

Lemma sample_inter_ok : cert_typed sample_inter /\ cert_valid sample_inter.
Proof. apply cert_okb_ok. vm_compute. reflexivity. Qed.

Lemma sample_leaf_ok : cert_typed sample_leaf /\ cert_valid sample_leaf.
Proof. apply cert_okb_ok. vm_compute. reflexivity. Qed.

Lemma sample_chain_wf : store_wf sha512_spec sample_chain_store.
Proof.
  constructor; [done|cbn; unfold MAX_ANCHORS; lia|by right|..].
  - apply Forall_singleton, sample_root_ok.
  - apply NoDup_singleton.
Qed.

Lemma sample_chain_anchor :
  abs sha512_spec sample_chain_store !! key_id_of sha512_spec sample_root = Some sample_root.
Proof.
  change (abs sha512_spec sample_chain_store) with
    (<[key_id_of sha512_spec sample_root := sample_root]> (∅ : gmap bytes certificate)).
  apply lookup_insert_eq.
Qed.

Lemma issued_chain_verifies_witness :
  alrios_pki_verify_chain (At 500000 []) (Some sample_chain_store) (At 50000 sample_leaf)
    (At 30000 sample_inter) 2000 = ALRIOS_ISSUER_OK.
Proof.
  apply (issued_chain_verifies (H := sha512_spec) (evp := toy_evp) (elaws := toy_evp_laws)
    (At 500000 []) sample_chain_store 50000 30000 2000
    (sample_env 1) (lit "root") 30 true (At 10000 zero_cert) (At 20000 []) 5513 true sample_root
      (upd 0 [1] (zeros 32))
    (sample_env 2) (lit "inter") 20 true (At 30000 zero_cert) (At 40000 []) 5513 true sample_inter
      (upd 0 [2] (zeros 32))
    (sample_env 3) (lit "leaf") 10 true (At 50000 zero_cert) (At 60000 []) 5513 true sample_leaf
      (upd 0 [3] (zeros 32))).
  - apply sample_env_typed. unfold byte_ok. lia.
  - apply sample_env_typed. unfold byte_ok. lia.
  - apply sample_env_typed. unfold byte_ok. lia.
  - apply bytes_okb_ok. vm_compute. reflexivity.
  - apply bytes_okb_ok. vm_compute. reflexivity.
  - apply bytes_okb_ok. vm_compute. reflexivity.
  - vm_refl.
  - vm_refl.
  - vm_refl.
  - apply sample_chain_wf.
  - reflexivity.
  - apply sample_chain_anchor.
  - reflexivity.
  - vm_compute. split; reflexivity.
  - vm_compute. split; reflexivity.
  - vm_compute. split; discriminate.
  - vm_compute. split; discriminate.
  - vm_compute. split; discriminate.
Defined.

Lemma verify_chain_correct_witness :
  chain_ok sha512_spec (abs sha512_spec sample_chain_store) sample_leaf sample_inter 2000.
Proof.
  assert (Hl : cert_typed sample_leaf /\ cert_valid sample_leaf) by apply sample_leaf_ok.
  assert (Hi : cert_typed sample_inter /\ cert_valid sample_inter) by apply sample_inter_ok.
  apply (verify_chain_correct (H := sha512_spec) (At 500000 []) sample_chain_store
    50000 sample_leaf 30000 sample_inter 2000).
  - apply sample_chain_wf.
  - reflexivity.
  - reflexivity.
  - apply Hl.
  - apply Hl.
  - apply Hi.
  - apply Hi.
  - vm_compute. discriminate.
  - vm_compute. discriminate.
  - vm_compute. split; reflexivity.
  - vm_compute. split; reflexivity.
  - vm_refl.
Defined.
