(* ===== verification/Notary.v ===== *)
(** The notary (src/libraries/pki/notary.c, include/alrios/pki/notary.h) and the Ed25519
    verifier it calls (src/libraries/crypto/ed25519.c): signature policies, signing and
    verifying a payload, verification under a certificate chain, the wire form of a
    signature, and the key files.

    The hash engine is [Sha512Api], signatures are [EvpApi]; what the key files need of
    OpenSSL besides is [NotaryApi]. The calls of stdio on a key file are a record of their
    outcomes. The file's own copies of the helpers for big-endian numbers are those of Bytes. *)

From S2P Require Import Prelude Bytes HashApi CryptoUtils Sha512 Certificate TrustStore EvpApi Issuer.

(** ** Constants *)

Definition NOTARY_VERSION_1 : Z := 1.

Definition NOTARY_HEADER_SIZE : Z := 132.

Definition NOTARY_TBS_DOMAIN_SIZE : Z := 20.

Definition NOTARY_MAX_PAYLOAD_SIZE : Z := 256 * 1024 * 1024.

Definition NOTARY_OK : Z := 0.

Definition NOTARY_ERR_INVALID_ARGUMENT : Z := -6001.

Definition NOTARY_ERR_POLICY_VIOLATION : Z := -6002.

Definition NOTARY_ERR_KEY_INVALID : Z := -6003.

Definition NOTARY_ERR_SIGN_FAILED : Z := -6004.

Definition NOTARY_ERR_VERIFY_FAILED : Z := -6005.

Definition NOTARY_ERR_PAYLOAD_TAMPERED : Z := -6006.

Definition NOTARY_ERR_TRUNCATED : Z := -6007.

Definition NOTARY_ERR_BAD_MAGIC : Z := -6008.

Definition NOTARY_ERR_NONCANONICAL : Z := -6009.

Definition NOTARY_ERR_IO_FAILED : Z := -6011.

Definition NOTARY_ERR_CAPACITY : Z := -6012.

Definition POLICY_ALLOW_ED25519 : Z := Z.shiftl 1 0.

Definition POLICY_REQUIRE_PQC : Z := Z.shiftl 1 1.

Definition POLICY_REQUIRE_CERT_BIND : Z := Z.shiftl 1 2.

Definition SIGNATURE_ALGORITHM_ED25519 : Z := 1.

Definition PUBLIC_KEY_ALGORITHM_ED25519 : Z := 1.

Definition CRYPTO_ERR_INVALID_KEY : Z := -1007.

Definition CRYPTO_ERR_ALLOC_FAIL : Z := -1005.

Definition CRYPTO_ERR_INTERNAL : Z := -1008.

Definition CRYPTO_ERR_BAD_SIG_CLASSIC : Z := -1002.

Definition notary_magic : bytes := lit "ARNOTARY".

Definition notary_tbs_domain : bytes := lit "ALRIOS-NOTARY-TBS-V1".

(** ** Data *)

(** The octets [reserved] of the policy are cleared and never read. *)
Record notary_policy := mk_policy {
  flags : Z;
  allowed_signature_algorithm : Z;
  max_validity_period_sec : Z;
}.

Record notary_signature := mk_sig {
  sg_version : Z;
  sg_algorithm : Z;
  sg_reserved : Z;
  sg_payload_len : Z;
  sg_timestamp : Z;
  sg_policy_flags : Z;
  sg_key_id : bytes;
  sg_digest : bytes;
  sg_signature_len : Z;
  sg_signature : bytes;
}.

(** [memset(out_sig, 0, sizeof( *out_sig))] *)
Definition zero_sig : notary_signature :=
  mk_sig 0 0 0 0 0 0 (zeros KEY_ID_SIZE) (zeros 64) 0 (zeros HYBRID_SIG_SIZE).

(** ** Policies *)

(** [(flags & bit) != 0U] *)
Definition has (flags bit : Z) : bool := negb (Z.land flags bit =? 0).

Definition canonical_policy_flags (flags : Z) : Z :=
  if has flags POLICY_REQUIRE_PQC
  then Z.lor POLICY_REQUIRE_PQC (Z.land flags POLICY_REQUIRE_CERT_BIND)
  else Z.lor POLICY_ALLOW_ED25519 (Z.land flags POLICY_REQUIRE_CERT_BIND).

Definition is_policy_canonical (flags : Z) : bool := flags =? canonical_policy_flags flags.

Definition is_supported_policy_flags (flags : Z) : bool :=
  let known := Z.lor (Z.lor POLICY_ALLOW_ED25519 POLICY_REQUIRE_PQC) POLICY_REQUIRE_CERT_BIND in
  if has flags (Z.lxor known UINT32_MAX) then false
  else if has flags POLICY_REQUIRE_PQC && has flags POLICY_ALLOW_ED25519 then false
  else true.

(** Status and the policy afterwards. *)
Definition alrios_notary_policy_init (policy : option notary_policy) (flags_ : Z) : Z * option notary_policy :=
  match policy with
  | None => (NOTARY_ERR_INVALID_ARGUMENT, None)
  | Some _ =>
      let policy := mk_policy 0 0 0 in
      if negb (is_supported_policy_flags flags_) || negb (is_policy_canonical flags_)
      then (NOTARY_ERR_POLICY_VIOLATION, Some policy)
      else
        let normalized_flags := canonical_policy_flags flags_ in
        if negb (is_supported_policy_flags normalized_flags) then (NOTARY_ERR_POLICY_VIOLATION, Some policy)
        else if has normalized_flags POLICY_REQUIRE_PQC
        then (NOTARY_ERR_POLICY_VIOLATION, Some (mk_policy normalized_flags 0 0))
        else (NOTARY_OK, Some (mk_policy normalized_flags SIGNATURE_ALGORITHM_ED25519 0))
  end.

Definition alrios_notary_policy_validate (policy : option notary_policy) (algorithm : Z) : Z :=
  match policy with
  | None => NOTARY_ERR_INVALID_ARGUMENT
  | Some policy =>
      if negb (is_supported_policy_flags (flags policy)) then NOTARY_ERR_POLICY_VIOLATION
      else if negb (is_policy_canonical (flags policy)) then NOTARY_ERR_POLICY_VIOLATION
      else if has (flags policy) POLICY_REQUIRE_PQC then NOTARY_ERR_POLICY_VIOLATION
      else if (algorithm =? SIGNATURE_ALGORITHM_ED25519) && has (flags policy) POLICY_ALLOW_ED25519
              && (allowed_signature_algorithm policy =? SIGNATURE_ALGORITHM_ED25519)
      then NOTARY_OK
      else NOTARY_ERR_POLICY_VIOLATION
  end.

(** ** The wire form *)

(** The test that the encoder and the builder of the signed octets share. *)
Definition sig_canonical (sig : notary_signature) : bool :=
  (sg_version sig =? NOTARY_VERSION_1) && (sg_reserved sig =? 0)
  && (sg_algorithm sig =? SIGNATURE_ALGORITHM_ED25519) && (sg_signature_len sig =? ED25519_SIG_SIZE)
  && is_supported_policy_flags (sg_policy_flags sig) && is_policy_canonical (sg_policy_flags sig)
  && negb (has (sg_policy_flags sig) POLICY_REQUIRE_PQC).

(** The header as both write it: the reserved octets are zero. *)
Definition header (sig : notary_signature) : bytes :=
  notary_magic ++ store_u16_be (sg_version sig) ++ [sg_algorithm sig; 0]
    ++ store_u64_be (sg_payload_len sig) ++ store_u64_be (sg_timestamp sig)
    ++ store_u32_be (sg_policy_flags sig)
    ++ sub 0 KEY_ID_SIZE (sg_key_id sig) ++ sub 0 64 (sg_digest sig)
    ++ store_u16_be (u16 (sg_signature_len sig)) ++ store_u16_be 0.

(** Status, what is written to [*out_written], the octets written. *)
Definition build_signature_tbs (sig : option notary_signature) (out_present : bool) (out_capacity : Z)
    (written_present : bool) : Z * option Z * option bytes :=
  let w0 := if written_present then Some 0 else None in
  match sig with
  | Some sig =>
      if negb out_present || negb written_present then (NOTARY_ERR_INVALID_ARGUMENT, w0, None)
      else if out_capacity <? NOTARY_TBS_DOMAIN_SIZE + NOTARY_HEADER_SIZE then (NOTARY_ERR_CAPACITY, w0, None)
      else if negb (sig_canonical sig) then (NOTARY_ERR_NONCANONICAL, w0, None)
      else
        let tbs := notary_tbs_domain ++ header sig in
        if negb (len tbs =? NOTARY_TBS_DOMAIN_SIZE + NOTARY_HEADER_SIZE)
        then (NOTARY_ERR_SIGN_FAILED, w0, Some (zeros out_capacity))
        else (NOTARY_OK, Some (len tbs), Some tbs)
  | None => (NOTARY_ERR_INVALID_ARGUMENT, w0, None)
  end.

Definition alrios_notary_signature_encode (sig : option notary_signature) (out_present : bool) (out_capacity : Z)
    (written_present : bool) : Z * option Z * option bytes :=
  let w0 := if written_present then Some 0 else None in
  match sig with
  | Some sig =>
      if negb out_present || negb written_present then (NOTARY_ERR_INVALID_ARGUMENT, w0, None)
      else if negb (sig_canonical sig) then (NOTARY_ERR_NONCANONICAL, w0, None)
      else
        let total_len := NOTARY_HEADER_SIZE + sg_signature_len sig in
        if out_capacity <? total_len then (NOTARY_ERR_CAPACITY, w0, None)
        else (NOTARY_OK, Some total_len, Some (header sig ++ sub 0 (sg_signature_len sig) (sg_signature sig)))
  | None => (NOTARY_ERR_INVALID_ARGUMENT, w0, None)
  end.

(** Status and the signature afterwards, which a failure leaves as far as it was read. *)
Definition alrios_notary_signature_decode (wire : option bytes) (wire_len : Z) (out_present : bool)
    : res (Z * option notary_signature) :=
  if negb out_present then Ok (NOTARY_ERR_INVALID_ARGUMENT, None)
  else
    match wire with
    | None => Ok (NOTARY_ERR_INVALID_ARGUMENT, Some zero_sig)
    | Some wire =>
        if wire_len <? NOTARY_HEADER_SIZE then Ok (NOTARY_ERR_TRUNCATED, Some zero_sig)
        else
          let! magic := rd 0 8 wire in
          if negb (bytes_eqb magic notary_magic) then Ok (NOTARY_ERR_BAD_MAGIC, Some zero_sig)
          else
            let! b := rd 8 2 wire in
            let version_ := load_u16_be b in
            let out := mk_sig version_ 0 0 0 0 0 (zeros KEY_ID_SIZE) (zeros 64) 0 (zeros HYBRID_SIG_SIZE) in
            if negb (version_ =? NOTARY_VERSION_1) then Ok (NOTARY_ERR_NONCANONICAL, Some out)
            else
              let! a := rd 10 1 wire in
              let! r := rd 11 1 wire in
              let algorithm := at_ a 0 in
              let reserved := at_ r 0 in
              let out := mk_sig version_ algorithm reserved 0 0 0 (zeros KEY_ID_SIZE) (zeros 64) 0 (zeros HYBRID_SIG_SIZE) in
              if negb (reserved =? 0) then Ok (NOTARY_ERR_NONCANONICAL, Some out)
              else
                let! p := rd 12 8 wire in
                let! t := rd 20 8 wire in
                let! f := rd 28 4 wire in
                let payload_len_ := load_u64_be p in
                let timestamp := load_u64_be t in
                let policy_flags := load_u32_be f in
                let out := mk_sig version_ algorithm reserved payload_len_ timestamp policy_flags
                             (zeros KEY_ID_SIZE) (zeros 64) 0 (zeros HYBRID_SIG_SIZE) in
                if negb (is_supported_policy_flags policy_flags) || negb (is_policy_canonical policy_flags)
                   || has policy_flags POLICY_REQUIRE_PQC
                then Ok (NOTARY_ERR_POLICY_VIOLATION, Some out)
                else
                  let! key_id := rd 32 KEY_ID_SIZE wire in
                  let! digest := rd 64 64 wire in
                  let! l := rd 128 2 wire in
                  let! z := rd 130 2 wire in
                  let sig_len := load_u16_be l in
                  let out := mk_sig version_ algorithm reserved payload_len_ timestamp policy_flags
                               key_id digest 0 (zeros HYBRID_SIG_SIZE) in
                  if negb (load_u16_be z =? 0) then Ok (NOTARY_ERR_NONCANONICAL, Some out)
                  else if negb (algorithm =? SIGNATURE_ALGORITHM_ED25519) || negb (sig_len =? ED25519_SIG_SIZE)
                  then Ok (NOTARY_ERR_NONCANONICAL, Some out)
                  else
                    let total_expected := NOTARY_HEADER_SIZE + sig_len in
                    if negb (wire_len =? total_expected)
                    then Ok (if wire_len <? total_expected then NOTARY_ERR_TRUNCATED else NOTARY_ERR_NONCANONICAL, Some out)
                    else
                      let! s := rd NOTARY_HEADER_SIZE sig_len wire in
                      Ok (NOTARY_OK, Some (mk_sig version_ algorithm reserved payload_len_ timestamp policy_flags
                                             key_id digest sig_len (upd 0 s (zeros HYBRID_SIG_SIZE))))
    end.

(** ** Signing and verifying *)

(** What the notary uses of OpenSSL besides [EvpApi]. *)
Class NotaryApi (evp : EvpApi) := {
  (** [EVP_PKEY_base_id(pkey) == EVP_PKEY_ED25519] *)
  base_id_ed25519 : pkey -> bool;
  (** [EVP_PKEY_new_raw_private_key(EVP_PKEY_ED25519, ...)], [EVP_PKEY_get_raw_private_key] *)
  new_raw_private_key : bytes -> option pkey;
  get_raw_private_key : pkey -> option bytes;
  (** Does [BIO_new_mem_buf] return an object? *)
  bio_new_mem_buf : bool;
  (** [PEM_read_bio_PrivateKey], [PEM_read_bio_PUBKEY] on the whole buffer. *)
  pem_private_key : bytes -> option pkey;
  pem_public_key : bytes -> option pkey;
}.

Class NotaryLaws {evp : EvpApi} (napi : NotaryApi evp) := {
  raw_private_len k raw : get_raw_private_key k = Some raw -> len raw = 32 -> bytes_ok raw;
  (** A key read back from its private octets is an Ed25519 key with the same public half. *)
  raw_private_roundtrip k raw :
    base_id_ed25519 k = true -> get_raw_private_key k = Some raw -> len raw = 32 ->
    exists k', new_raw_private_key raw = Some k' /\ base_id_ed25519 k' = true /\
      evp_get_raw_public_key k' = evp_get_raw_public_key k;
}.

Section Notary.
Context `{api : Sha512Api} {evp : EvpApi} {napi : NotaryApi evp}.

Definition is_ed25519_evp_pkey (k : option pkey) : bool :=
  match k with Some k => base_id_ed25519 k | None => false end.

(** [EVP_PKEY_get_raw_public_key] of an Ed25519 key into 32 octets. *)
Definition raw_public_key (k : option pkey) : option bytes :=
  if is_ed25519_evp_pkey k then
    match k with
    | Some k => match evp_get_raw_public_key k with
                | Some raw => if len raw =? ED25519_KEY_SIZE then Some raw else None
                | None => None
                end
    | None => None
    end
  else None.

Definition derive_ed25519_key_id (pubkey : option bytes) : res bytes :=
  match pubkey with
  | None => Err NOTARY_ERR_INVALID_ARGUMENT
  | Some pubkey =>
      match sha512_parts [key_id_domain;
                          PUBLIC_KEY_ALGORITHM_ED25519 :: store_u16_be ED25519_KEY_SIZE;
                          sub 0 ED25519_KEY_SIZE pubkey] with
      | None => Err NOTARY_ERR_KEY_INVALID
      | Some full_digest => Ok (sub 0 KEY_ID_SIZE full_digest)
      end
  end.

(** [alrios_sha512] of a buffer that is null only if it has no octets. *)
Definition sha512_of (data : option bytes) (n : Z) : option bytes := sha512_parts [sub 0 n (default [] data)].

(** [payload_len > 0 && !payload] *)
Definition missing (payload : option bytes) (payload_len : Z) : bool :=
  (payload_len >? 0) && match payload with None => true | Some _ => false end.

(** The signature that is made of the fields filled in, but for its octets. *)
Definition unsigned_sig (policy : notary_policy) (payload_len now : Z) (key_id digest : bytes) : notary_signature :=
  mk_sig NOTARY_VERSION_1 SIGNATURE_ALGORITHM_ED25519 0 payload_len (u64 now)
    (canonical_policy_flags (flags policy)) key_id digest ED25519_SIG_SIZE (zeros HYBRID_SIG_SIZE).

Definition put_signature (s : notary_signature) (octets : bytes) : notary_signature :=
  mk_sig (sg_version s) (sg_algorithm s) (sg_reserved s) (sg_payload_len s) (sg_timestamp s) (sg_policy_flags s)
    (sg_key_id s) (sg_digest s) (sg_signature_len s) (upd 0 octets (sg_signature s)).

(** The end of [alrios_notary_sign_payload]: the digest of the signed octets and its
    signature. *)
Definition sign_tbs_digest (privkey : pkey) (sig : notary_signature) : Z * notary_signature :=
  match build_signature_tbs (Some sig) true (NOTARY_TBS_DOMAIN_SIZE + NOTARY_HEADER_SIZE) true with
  | (rc, written, tbs) =>
      if negb (rc =? NOTARY_OK) then (rc, sig)
      else if negb evp_md_ctx_new then (NOTARY_ERR_SIGN_FAILED, sig)
      else
        match sha512_of tbs (default 0 written) with
        | None => (NOTARY_ERR_SIGN_FAILED, sig)
        | Some tbs_digest =>
            match evp_sign privkey [] ED25519_SIG_SIZE tbs_digest with
            | None => (NOTARY_ERR_SIGN_FAILED, sig)
            | Some octets =>
                let sig := put_signature sig octets in
                if negb (len octets =? ED25519_SIG_SIZE) then (NOTARY_ERR_SIGN_FAILED, sig) else (NOTARY_OK, sig)
            end
        end
  end.

(** Status and [*out_sig] afterwards; [None]: not written. *)
Definition alrios_notary_sign_payload (now : Z) (policy : option notary_policy) (payload : option bytes)
    (payload_len : Z) (privkey : option pkey) (out_present : bool) : Z * option notary_signature :=
  match policy, privkey with
  | Some p, Some key =>
      if negb out_present then (NOTARY_ERR_INVALID_ARGUMENT, None)
      else if missing payload payload_len then (NOTARY_ERR_INVALID_ARGUMENT, None)
      else if payload_len >? NOTARY_MAX_PAYLOAD_SIZE then (NOTARY_ERR_CAPACITY, None)
      else
        let rc := alrios_notary_policy_validate policy SIGNATURE_ALGORITHM_ED25519 in
        if negb (rc =? NOTARY_OK) then (rc, None)
        else
          match raw_public_key privkey with
          | None => (NOTARY_ERR_KEY_INVALID, Some zero_sig)
          | Some raw_pub =>
              match derive_ed25519_key_id (Some raw_pub) with
              | Ok key_id =>
                  match sha512_of payload payload_len with
                  | None =>
                      (NOTARY_ERR_SIGN_FAILED,
                       Some (mk_sig 0 0 0 0 0 0 key_id (zeros 64) 0 (zeros HYBRID_SIG_SIZE)))
                  | Some digest =>
                      let '(rc, sig) := sign_tbs_digest key (unsigned_sig p payload_len now key_id digest) in
                      (rc, Some sig)
                  end
              | Err rc => (rc, Some zero_sig)
              | Fault => (NOTARY_ERR_KEY_INVALID, Some zero_sig)
              end
          end
  | _, _ => (NOTARY_ERR_INVALID_ARGUMENT, None)
  end.

Definition alrios_ed25519_verify (public_key_ digest signature_ : option bytes) : Z :=
  match public_key_, digest, signature_ with
  | Some public_key_, Some digest, Some signature_ =>
      match evp_new_raw_public_key KEY_ED25519 (sub 0 ED25519_KEY_SIZE public_key_) with
      | None => CRYPTO_ERR_INVALID_KEY
      | Some key =>
          if negb evp_md_ctx_new then CRYPTO_ERR_ALLOC_FAIL
          else if evp_verify_init key [] then
            if evp_verify key [] (sub 0 ED25519_SIG_SIZE signature_) (sub 0 64 digest)
            then ALRIOS_CRYPTO_OK else CRYPTO_ERR_BAD_SIG_CLASSIC
          else CRYPTO_ERR_INTERNAL
      end
  | _, _, _ => ALRIOS_CRYPTO_ERR_NULL_PTR
  end.

(** The end of the verifier, from the check of [signature_len] on. *)
Definition verify_tbs_digest (sig : notary_signature) (pubkey : bytes) : Z :=
  if negb (sg_signature_len sig =? ED25519_SIG_SIZE) then NOTARY_ERR_VERIFY_FAILED
  else
    match build_signature_tbs (Some sig) true (NOTARY_TBS_DOMAIN_SIZE + NOTARY_HEADER_SIZE) true with
    | (rc, written, tbs) =>
        if negb (rc =? NOTARY_OK) then rc
        else
          match sha512_of tbs (default 0 written) with
          | None => NOTARY_ERR_VERIFY_FAILED
          | Some tbs_digest =>
              if negb (alrios_ed25519_verify (Some pubkey) (Some tbs_digest) (Some (sg_signature sig)) =? ALRIOS_CRYPTO_OK)
              then NOTARY_ERR_VERIFY_FAILED else NOTARY_OK
          end
    end.

(** The test of the age of a signature. *)
Definition too_old (policy : notary_policy) (sig : notary_signature) (now : Z) : bool :=
  (max_validity_period_sec policy >? 0)
  && ((u64 now <? sg_timestamp sig) || (u64 now - sg_timestamp sig >? max_validity_period_sec policy)).

Definition verify_payload_with_raw_ed25519_key (now : Z) (policy : option notary_policy) (payload : option bytes)
    (payload_len : Z) (sig : option notary_signature) (pubkey : option bytes) (certificate_chain_validated : bool) : Z :=
  match policy, sig, pubkey with
  | Some p, Some s, Some key =>
      if missing payload payload_len then NOTARY_ERR_INVALID_ARGUMENT
      else if negb (sg_version s =? NOTARY_VERSION_1) || negb (sg_reserved s =? 0) then NOTARY_ERR_NONCANONICAL
      else
        let rc := alrios_notary_policy_validate policy (sg_algorithm s) in
        if negb (rc =? NOTARY_OK) then rc
        else if has (flags p) POLICY_REQUIRE_CERT_BIND && negb certificate_chain_validated
        then NOTARY_ERR_POLICY_VIOLATION
        else if negb (sg_policy_flags s =? canonical_policy_flags (flags p)) then NOTARY_ERR_POLICY_VIOLATION
        else if negb (sg_payload_len s =? payload_len) then NOTARY_ERR_PAYLOAD_TAMPERED
        else if too_old p s now then NOTARY_ERR_POLICY_VIOLATION
        else
          match derive_ed25519_key_id (Some key) with
          | Ok expected_key_id =>
              if negb (alrios_constant_time_memcmp (Some (sg_key_id s)) (Some expected_key_id) KEY_ID_SIZE =? 0)
              then NOTARY_ERR_KEY_INVALID
              else
                match sha512_of payload payload_len with
                | None => NOTARY_ERR_VERIFY_FAILED
                | Some expected_digest =>
                    if negb (alrios_constant_time_memcmp (Some (sg_digest s)) (Some expected_digest) 64 =? 0)
                    then NOTARY_ERR_PAYLOAD_TAMPERED
                    else verify_tbs_digest s key
                end
          | Err rc => rc
          | Fault => NOTARY_ERR_KEY_INVALID
          end
  | _, _, _ => NOTARY_ERR_INVALID_ARGUMENT
  end.

Definition alrios_notary_verify_payload (now : Z) (policy : option notary_policy) (payload : option bytes)
    (payload_len : Z) (sig : option notary_signature) (pubkey : option bytes) : Z :=
  match policy with
  | None => NOTARY_ERR_INVALID_ARGUMENT
  | Some p =>
      if has (flags p) POLICY_REQUIRE_CERT_BIND then NOTARY_ERR_POLICY_VIOLATION
      else verify_payload_with_raw_ed25519_key now policy payload payload_len sig pubkey false
  end.

(** [tbs_at] is where the chain verifier's local buffer lies, as in Issuer. *)
Definition alrios_notary_verify_with_certificate (tbs_at : ptr bytes) (now : Z) (policy : option notary_policy)
    (payload : option bytes) (payload_len : Z) (sig : option notary_signature) (leaf_cert inter_cert : ptr certificate)
    (store : option trust_store) (current_time : Z) : Z :=
  match policy, sig, leaf_cert, inter_cert, store with
  | Some p, Some s, At _ leaf, At _ inter, Some _ =>
      if missing payload payload_len then NOTARY_ERR_INVALID_ARGUMENT
      else if negb (has (flags p) POLICY_REQUIRE_CERT_BIND) then NOTARY_ERR_POLICY_VIOLATION
      else if negb (alrios_pki_verify_chain tbs_at store leaf_cert inter_cert current_time =? ALRIOS_ISSUER_OK)
      then NOTARY_ERR_VERIFY_FAILED
      else if negb (public_key_algorithm leaf =? PUBLIC_KEY_ALGORITHM_ED25519)
              || negb (public_key_len leaf =? ED25519_KEY_SIZE)
      then NOTARY_ERR_POLICY_VIOLATION
      else verify_payload_with_raw_ed25519_key now policy payload payload_len sig (Some (public_key leaf)) true
  | _, _, _, _, _ => NOTARY_ERR_INVALID_ARGUMENT
  end.

(** ** Key files *)

(** The outcomes of the calls on a file that is read; [opens]: the file is there and can be
    opened. *)
Record reading := mk_reading {
  opens : bool;
  seeks_end : bool;
  tells : Z;
  seeks_back : bool;
  mallocs : bool;
  (** The octets [fread] delivers of those asked for, and [ferror] afterwards. *)
  reads : Z -> bytes * bool;
  closes : bool;
}.

(** The common part of the two readers: the whole file, if it is small enough. *)
Definition read_key_file (env : reading) (limit : Z) : res bytes :=
  if negb (opens env) then Err NOTARY_ERR_IO_FAILED
  else if negb (seeks_end env) then Err NOTARY_ERR_IO_FAILED
  else
    let sz := tells env in
    if (sz <=? 0) || (sz >? limit) then Err NOTARY_ERR_KEY_INVALID
    else if negb (seeks_back env) then Err NOTARY_ERR_IO_FAILED
    else if negb (mallocs env) then Err NOTARY_ERR_CAPACITY
    else
      let '(buf, error) := reads env sz in
      if error || negb (len buf =? sz) then Err NOTARY_ERR_IO_FAILED
      else if negb (closes env) then Err NOTARY_ERR_IO_FAILED
      else Ok buf.

(** Status and [*out_pkey]; [None]: not written. *)
Definition alrios_notary_load_private_key_file (env : reading) (path_present out_present : bool)
    : Z * option (option pkey) :=
  if negb path_present || negb out_present then (NOTARY_ERR_INVALID_ARGUMENT, None)
  else
    match read_key_file env 16384 with
    | Err e => (e, Some None)
    | Fault => (NOTARY_ERR_IO_FAILED, Some None)
    | Ok buf =>
        if (len buf =? 32) || (len buf =? 64) then
          match new_raw_private_key (sub 0 32 buf) with
          | None => (NOTARY_ERR_KEY_INVALID, Some None)
          | Some k => (NOTARY_OK, Some (Some k))
          end
        else if negb bio_new_mem_buf then (NOTARY_ERR_KEY_INVALID, Some None)
        else
          match pem_private_key buf with
          | None => (NOTARY_ERR_KEY_INVALID, Some None)
          | Some k =>
              if negb (is_ed25519_evp_pkey (Some k)) then (NOTARY_ERR_KEY_INVALID, Some None)
              else (NOTARY_OK, Some (Some k))
          end
    end.

(** The Ed25519 key of a certificate in the buffer, if that is what it holds. [at_] is where
    the buffers lie: the certificate decoder looks at that. *)
Definition certificate_key (buf_at cert_at : Z) (buf : bytes) : option bytes :=
  if (len buf >=? HEADER_SIZE_V1) && bytes_eqb (sub 0 8 buf) (lit "ALRICERT") then
    match alrios_certificate_decode (At buf_at buf) (len buf) (At cert_at zero_cert) with
    | Ok (st, Some cert) =>
        if (st =? CERT_OK) && (public_key_algorithm cert =? PUBLIC_KEY_ALGORITHM_ED25519)
           && (public_key_len cert =? ED25519_KEY_SIZE)
        then Some (sub 0 ED25519_KEY_SIZE (public_key cert)) else None
    | _ => None
    end
  else None.

(** Status and, on success, the octets of [out_pubkey]. *)
Definition alrios_notary_load_public_key_file (buf_at cert_at : Z) (env : reading) (path_present out_present : bool)
    : Z * option bytes :=
  if negb path_present || negb out_present then (NOTARY_ERR_INVALID_ARGUMENT, None)
  else
    match read_key_file (mk_reading (opens env) (seeks_end env) (tells env) (seeks_back env) true (reads env) (closes env))
            8192 with
    | Err e => (e, None)
    | Fault => (NOTARY_ERR_IO_FAILED, None)
    | Ok buf =>
        if len buf =? ED25519_KEY_SIZE then (NOTARY_OK, Some buf)
        else
          match certificate_key buf_at cert_at buf with
          | Some key => (NOTARY_OK, Some key)
          | None =>
              if negb bio_new_mem_buf then (NOTARY_ERR_KEY_INVALID, None)
              else
                match pem_public_key buf with
                | None => (NOTARY_ERR_KEY_INVALID, None)
                | Some k =>
                    match raw_public_key (Some k) with
                    | Some raw => (NOTARY_OK, Some raw)
                    | None => (NOTARY_ERR_KEY_INVALID, None)
                    end
                end
          end
    end.

(** The outcomes of the calls on a file that is written. [keeps] octets are in the file if
    the flush or the close fails. *)
Record writing := mk_writing {
  creates : bool;
  fdopens : bool;
  writes : Z;
  flushes : bool;
  wcloses : bool;
  keeps : Z;
}.

(** [fwrite], [fflush], [fclose] and the comparison of the count; status and the file. *)
Definition write_key (env : writing) (raw : bytes) : Z * option bytes :=
  if negb (flushes env) then (NOTARY_ERR_IO_FAILED, Some (sub 0 (keeps env) raw))
  else if negb (wcloses env) then (NOTARY_ERR_IO_FAILED, Some (sub 0 (keeps env) raw))
  else if negb (writes env =? len raw) then (NOTARY_ERR_IO_FAILED, Some (sub 0 (writes env) raw))
  else (NOTARY_OK, Some raw).

(** [file] is what is at the path ([None]: nothing); [O_EXCL] makes [open] fail if something is. *)
Definition alrios_notary_save_private_key_raw (env : writing) (file : option bytes) (path_present : bool)
    (k : option pkey) : Z * option bytes :=
  match path_present, k with
  | true, Some key =>
      if negb (is_ed25519_evp_pkey k) then (NOTARY_ERR_KEY_INVALID, file)
      else
        match get_raw_private_key key with
        | None => (NOTARY_ERR_KEY_INVALID, file)
        | Some raw_priv =>
            if negb (len raw_priv =? 32) then (NOTARY_ERR_KEY_INVALID, file)
            else
              match file, creates env with
              | None, true =>
                  if negb (fdopens env) then (NOTARY_ERR_IO_FAILED, Some [])
                  else write_key env raw_priv
              | _, _ => (NOTARY_ERR_IO_FAILED, file)
              end
        end
  | _, _ => (NOTARY_ERR_INVALID_ARGUMENT, file)
  end.

(** [fopen(path, "wb")] empties a file that is there. *)
Definition alrios_notary_save_public_key_raw (env : writing) (file : option bytes) (path_present : bool)
    (pubkey : option bytes) : Z * option bytes :=
  match path_present, pubkey with
  | true, Some key =>
      if negb (creates env) then (NOTARY_ERR_IO_FAILED, file)
      else write_key env (sub 0 ED25519_KEY_SIZE key)
  | _, _ => (NOTARY_ERR_INVALID_ARGUMENT, file)
  end.
End Notary.

#[export] Hint Unfold NOTARY_HEADER_SIZE NOTARY_TBS_DOMAIN_SIZE NOTARY_MAX_PAYLOAD_SIZE : consts.

(** ** Specification *)

(** The C type. *)
Record sig_typed (s : notary_signature) : Prop := {
  st_version : 0 <= sg_version s < 2 ^ 16;
  st_algorithm : byte_ok (sg_algorithm s);
  st_reserved : byte_ok (sg_reserved s);
  st_payload_len : 0 <= sg_payload_len s < 2 ^ 64;
  st_timestamp : 0 <= sg_timestamp s < 2 ^ 64;
  st_flags : 0 <= sg_policy_flags s < 2 ^ 32;
  st_key_id : len (sg_key_id s) = 32 /\ bytes_ok (sg_key_id s);
  st_digest : len (sg_digest s) = 64 /\ bytes_ok (sg_digest s);
  st_signature_len : 0 <= sg_signature_len s < 2 ^ 64;
  st_signature : len (sg_signature s) = HYBRID_SIG_SIZE /\ bytes_ok (sg_signature s);
}.

(** The policies in force: Ed25519, with or without a certificate. *)
Definition flags_ok (f : Z) : Prop := f = POLICY_ALLOW_ED25519 \/ f = Z.lor POLICY_ALLOW_ED25519 POLICY_REQUIRE_CERT_BIND.

Record sig_ok (s : notary_signature) : Prop := {
  so_version : sg_version s = NOTARY_VERSION_1;
  so_reserved : sg_reserved s = 0;
  so_algorithm : sg_algorithm s = SIGNATURE_ALGORITHM_ED25519;
  so_signature_len : sg_signature_len s = ED25519_SIG_SIZE;
  so_flags : flags_ok (sg_policy_flags s);
}.

(** The wire form, and the signature without what the wire form leaves out. *)
Definition sig_wire (s : notary_signature) : bytes := header s ++ sub 0 ED25519_SIG_SIZE (sg_signature s).

Definition sig_tbs (s : notary_signature) : bytes := notary_tbs_domain ++ header s.

Definition sig_scrub (s : notary_signature) : notary_signature :=
  mk_sig (sg_version s) (sg_algorithm s) (sg_reserved s) (sg_payload_len s) (sg_timestamp s) (sg_policy_flags s)
    (sg_key_id s) (sg_digest s) (sg_signature_len s)
    (upd 0 (sub 0 ED25519_SIG_SIZE (sg_signature s)) (zeros HYBRID_SIG_SIZE)).

(** ** Flags *)

Lemma unknown_flags f : 0 <= f < 2 ^ 32 -> Z.land f (Z.lxor 7 UINT32_MAX) = 0 -> f < 8.
Proof.
  intros Hf Hz.
  assert (f = Z.land f (Z.ones 32)) as E by (rewrite Z.land_ones by lia; rewrite Z.mod_small; lia).
  change (Z.ones 32) with (Z.lor (Z.ones 3) (Z.lxor 7 UINT32_MAX)) in E.
  rewrite Z.land_lor_distr_r, Hz, Z.lor_0_r, Z.land_ones in E by lia.
  pose proof (Z.mod_pos_bound f (2 ^ 3)). lia.
Qed.

(** The flags that pass the three tests. *)
Lemma flags_tests f :
  0 <= f < 2 ^ 32 ->
  is_supported_policy_flags f && is_policy_canonical f && negb (has f POLICY_REQUIRE_PQC) = true <-> flags_ok f.
Proof.
  intros Hf. split.
  - unfold is_supported_policy_flags. destruct (has f (Z.lxor _ _)) eqn:E; [done|].
    unfold has in E. bool_hyps. apply unknown_flags in E; [|done].
    assert (f = 0 \/ f = 1 \/ f = 2 \/ f = 3 \/ f = 4 \/ f = 5 \/ f = 6 \/ f = 7)
      as [-> |[-> |[-> |[-> |[-> |[-> |[-> | ->]]]]]]] by lia; vm_compute; intros H; try done; by (left + right).
  - by intros [-> | ->].
Qed.

Lemma sig_canonical_iff s :
  0 <= sg_policy_flags s < 2 ^ 32 -> sig_canonical s = true <-> sig_ok s.
Proof.
  intros Hf. pose proof (flags_tests _ Hf) as Hi. unfold sig_canonical. split.
  - intros H. bool_hyps. constructor; try done. apply Hi. by rewrite H2, H1, H0.
  - intros [H1 H2 H3 H4 H5]. apply Hi in H5. bool_hyps. rewrite H1, H2, H3, H4, H5, H0, H. done.
Qed.

Lemma flags_canonical f : flags_ok f -> canonical_policy_flags f = f.
Proof. by intros [-> | ->]. Qed.

(** What [alrios_notary_policy_validate] accepts. *)
Lemma policy_validate_iff p a :
  0 <= flags p < 2 ^ 32 ->
  alrios_notary_policy_validate (Some p) a = NOTARY_OK <->
  flags_ok (flags p) /\ a = SIGNATURE_ALGORITHM_ED25519 /\ allowed_signature_algorithm p = SIGNATURE_ALGORITHM_ED25519.
Proof.
  intros Hf. pose proof (flags_tests _ Hf) as Hi. unfold alrios_notary_policy_validate. split.
  - destruct (is_supported_policy_flags (flags p)); [|done]. destruct (is_policy_canonical (flags p)); [|done].
    destruct (has (flags p) POLICY_REQUIRE_PQC); [done|]. cbn [negb]. split_if; [|done]. intros _. bool_hyps.
    split; [by apply Hi|done].
  - intros (H5 & -> & ->). pose proof (proj2 Hi H5) as H. bool_hyps. rewrite H0, H, H1. cbn [negb].
    by destruct H5 as [-> | ->].
Qed.

(** ** The codec *)

Lemma header_len s : len (sg_key_id s) = 32 -> len (sg_digest s) = 64 -> len (header s) = NOTARY_HEADER_SIZE.
Proof.
  intros Hk Hd. unfold header. rewrite !sub_all by (symmetry; assumption). rewrite !len_app, Hk, Hd.
  rewrite !len_store_u16, !len_store_u32, !len_store_u64. done.
Qed.

Lemma build_tbs_ok s :
  sig_typed s -> sig_ok s ->
  build_signature_tbs (Some s) true (NOTARY_TBS_DOMAIN_SIZE + NOTARY_HEADER_SIZE) true
  = (NOTARY_OK, Some (len (sig_tbs s)), Some (sig_tbs s)) /\ len (sig_tbs s) = 152.
Proof.
  intros Ht Ho. unfold build_signature_tbs. cbv zeta. cbn [negb orb].
  rewrite (proj2 (sig_canonical_iff s (st_flags s Ht)) Ho).
  assert (len (sig_tbs s) = 152) as Hl.
  { unfold sig_tbs. rewrite len_app, header_len by apply Ht. done. }
  fold (sig_tbs s). rewrite Hl. done.
Qed.

(** What the builder refuses, it refuses with its own status. *)
Lemma build_tbs_inv s written tbs :
  0 <= sg_policy_flags s < 2 ^ 32 ->
  build_signature_tbs (Some s) true (NOTARY_TBS_DOMAIN_SIZE + NOTARY_HEADER_SIZE) true = (NOTARY_OK, written, tbs) -> sig_ok s.
Proof.
  intros Hf. unfold build_signature_tbs. cbv zeta. cbn [negb orb]. split_if; [done|].
  destruct (sig_canonical s) eqn:E; [|done]. intros _. by apply sig_canonical_iff.
Qed.

Lemma sig_wire_len s : sig_typed s -> len (sig_wire s) = 196.
Proof.
  intros Ht. unfold sig_wire. rewrite len_app, header_len by apply Ht.
  rewrite len_sub; [done|done|done|]. destruct Ht as [_ _ _ _ _ _ _ _ _ [-> _]]. clia.
Qed.

Lemma encode_spec s cap :
  sig_typed s -> 196 <= cap ->
  alrios_notary_signature_encode (Some s) true cap true =
    if sig_canonical s then (NOTARY_OK, Some 196, Some (sig_wire s)) else (NOTARY_ERR_NONCANONICAL, Some 0, None).
Proof.
  intros Ht Hc. unfold alrios_notary_signature_encode. cbv zeta. cbn [negb orb].
  destruct (sig_canonical s) eqn:E; [|done]. apply sig_canonical_iff in E; [|apply Ht].
  rewrite (so_signature_len s E). change (NOTARY_HEADER_SIZE + ED25519_SIG_SIZE) with 196.
  rewrite (proj2 (Z.ltb_ge cap 196) Hc). done.
Qed.

Lemma decode_sig_wire s :
  sig_typed s -> sig_ok s ->
  alrios_notary_signature_decode (Some (sig_wire s)) 196 true = Ok (NOTARY_OK, Some (sig_scrub s)).
Proof.
  intros Ht Ho. pose proof (proj2 (flags_tests _ (st_flags s Ht)) (so_flags s Ho)) as Hflags.
  unfold sig_wire, header, sig_scrub.
  destruct Ht as [? ? ? ? ? ? [Hk _] [Hd _] ? [Hs _]], Ho as [-> -> -> -> Hf].
  rewrite !(sub_all _ (sg_key_id s)), !(sub_all _ (sg_digest s)) by (symmetry; assumption).
  assert (len notary_magic = 8) by done.
  assert (len (sub 0 ED25519_SIG_SIZE (sg_signature s)) = 64) by (apply len_sub; clia).
  change [SIGNATURE_ALGORITHM_ED25519; 0] with ([SIGNATURE_ALGORITHM_ED25519] ++ [0]). rewrite <- !app_assoc.
  unfold alrios_notary_signature_decode. cbn [negb]. rewrite (proj2 (Z.ltb_ge 196 NOTARY_HEADER_SIZE)) by clia.
  next_field. rewrite bytes_eqb_refl. cbn [negb].
  next_field. rewrite load_store_u16 by done. change (negb (NOTARY_VERSION_1 =? NOTARY_VERSION_1)) with false. cbv iota.
  do 2 next_field. unfold at_. change (Z.to_nat 0) with 0%nat. cbn [nth]. change (negb (0 =? 0)) with false. cbv iota.
  do 3 next_field. rewrite !load_store_u64, load_store_u32 by done.
  apply andb_prop in Hflags as [[Hf1 Hf2]%andb_prop Hf3%negb_true_iff]. rewrite Hf1, Hf2, Hf3. cbn [negb orb].
  do 4 next_field. change (u16 ED25519_SIG_SIZE) with ED25519_SIG_SIZE. rewrite !load_store_u16 by clia.
  change (negb (0 =? 0)) with false. cbv iota. cbn [negb orb Z.eqb SIGNATURE_ALGORITHM_ED25519].
  change (negb (1 =? 1) || negb (ED25519_SIG_SIZE =? ED25519_SIG_SIZE)) with false. cbv iota.
  change (negb (196 =? NOTARY_HEADER_SIZE + ED25519_SIG_SIZE)) with false. cbv iota.
  next_field. done.
Qed.

(** The fields behind the octets of a wire form. *)
Definition sig_of_wire (w : bytes) : notary_signature :=
  mk_sig (load_u16_be (sub 8 2 w)) (at_ (sub 10 1 w) 0) (at_ (sub 11 1 w) 0) (load_u64_be (sub 12 8 w))
    (load_u64_be (sub 20 8 w)) (load_u32_be (sub 28 4 w)) (sub 32 32 w) (sub 64 64 w) (load_u16_be (sub 128 2 w))
    (upd 0 (sub 132 64 w) (zeros HYBRID_SIG_SIZE)).

Lemma sig_of_wire_typed w : bytes_ok w -> 196 <= len w -> sig_typed (sig_of_wire w).
Proof.
  intros Hok Hl.
  constructor; cbn [sig_of_wire sg_version sg_algorithm sg_reserved sg_payload_len sg_timestamp sg_policy_flags
    sg_key_id sg_digest sg_signature_len sg_signature].
  - apply load_u16_bound; [auto with buf|rewrite len_sub; lia].
  - apply at_ok; auto with buf.
  - apply at_ok; auto with buf.
  - apply load_u64_bound; [auto with buf|rewrite len_sub; lia].
  - apply load_u64_bound; [auto with buf|rewrite len_sub; lia].
  - apply load_u32_bound; [auto with buf|rewrite len_sub; lia].
  - split; [rewrite len_sub; lia|auto with buf].
  - split; [rewrite len_sub; lia|auto with buf].
  - pose proof (load_u16_bound (sub 128 2 w) ltac:(auto with buf) ltac:(rewrite len_sub; lia)). lia.
  - apply fill_typed; [auto with buf|rewrite len_sub; clia|clia].
Qed.

Lemma sig_decode_accepted w n s :
  bytes_ok w -> n <= len w -> alrios_notary_signature_decode (Some w) n true = Ok (NOTARY_OK, Some s) ->
  n = 196 /\ s = sig_of_wire w /\ sig_ok s /\ sub 0 8 w = notary_magic /\ load_u16_be (sub 130 2 w) = 0.
Proof.
  intros Hw Hn. unfold alrios_notary_signature_decode. cbn [negb].
  destruct (n <? NOTARY_HEADER_SIZE) eqn:En; [done|]. apply Z.ltb_ge in En. intros H.
  repeat (res_inv H; try split_if_in H; try done). injection H as Hs.
  assert (Hf : flags_ok (load_u32_be (sub 28 4 w))).
  { apply flags_tests; [apply load_u32_bound; [auto with buf|rewrite len_sub; lia]|]. bool_hyps.
    repeat match goal with E : _ = true |- _ => rewrite E | E : _ = false |- _ => rewrite E end. done. }
  bool_hyps. assert (n = 196) as -> by clia.
  match goal with E : load_u16_be (sub 128 2 w) = _ |- _ => pose proof E as El; rewrite El in Hs end.
  assert (s = sig_of_wire w) as ->.
  { rewrite <- Hs. unfold sig_of_wire. rewrite El. done. }
  split; [done|]. split; [done|]. split; [|split; [by apply bytes_eqb_eq|done]]. by constructor.
Qed.

(** What the decoder accepts is the wire form of what it returns. *)
Lemma decode_inv w n s :
  bytes_ok w -> n <= len w -> alrios_notary_signature_decode (Some w) n true = Ok (NOTARY_OK, Some s) ->
  n = 196 /\ sig_typed s /\ sig_ok s /\ sig_scrub s = s /\ sig_wire s = sub 0 196 w.
Proof.
  intros Hw Hn H. apply sig_decode_accepted in H as (-> & -> & Ho & Hm & Hz); [|done..].
  pose proof (sig_of_wire_typed w Hw Hn) as Ht. split; [done|]. split; [done|]. split; [done|].
  pose proof (so_reserved _ Ho) as Hr. cbn [sig_of_wire sg_reserved] in Hr.
  pose proof (so_signature_len _ Ho) as Hl. cbn [sig_of_wire sg_signature_len] in Hl.
  assert (Hlen : forall a b, 0 <= a -> 0 <= b -> a + b <= 196 -> len (sub a b w) = b) by (intros; apply len_sub; lia).
  unfold sig_scrub, sig_wire, header.
  cbn [sig_of_wire sg_version sg_algorithm sg_reserved sg_payload_len sg_timestamp sg_policy_flags
    sg_key_id sg_digest sg_signature_len sg_signature].
  rewrite (sub_of_fill ED25519_SIG_SIZE) by (rewrite ?Hlen; clia). split; [done|].
  assert (E0 : store_u16_be 0 = sub 130 2 w) by (rewrite <- Hz; apply store_load_u16; [auto with buf|by apply Hlen]).
  assert (E1 : [at_ (sub 10 1 w) 0; 0] = sub 10 1 w ++ sub 11 1 w).
  { transitivity ([at_ (sub 10 1 w) 0] ++ [at_ (sub 11 1 w) 0]); [by rewrite Hr|].
    by rewrite !one_byte by lia. }
  assert (E2 : store_u16_be (u16 (load_u16_be (sub 128 2 w))) = sub 128 2 w).
  { rewrite Hl. change (u16 ED25519_SIG_SIZE) with ED25519_SIG_SIZE. rewrite <- Hl.
    apply store_load_u16; [auto with buf|by apply Hlen]. }
  rewrite E0, E1, E2, <- Hm.
  rewrite (sub_all KEY_ID_SIZE), (sub_all 64 (sub 64 64 w)) by (rewrite Hlen; clia).
  rewrite !store_load_u16, store_load_u32, !store_load_u64 by (auto with buf || (apply Hlen; lia)).
  rewrite <- !app_assoc, !sub_join by clia. done.
Qed.

Lemma decode_no_fault w n p : n <= len w -> alrios_notary_signature_decode (Some w) n p <> Fault.
Proof.
  intros Hn. unfold alrios_notary_signature_decode. destruct p; [cbn [negb]|done].
  destruct (n <? NOTARY_HEADER_SIZE) eqn:En; [done|]. apply Z.ltb_ge in En.
  repeat first [ progress cbv zeta | split_if; [done|] | done
    | (apply rbind_no_fault; [apply rd_no_fault; clia|intros ? _]) ].
Qed.

(** ** Verification *)

Section Proofs.
Context `{laws : Sha512Laws} {evp : EvpApi} {elaws : EvpLaws evp} {napi : NotaryApi evp} {nlaws : NotaryLaws napi}.

(** The identifier of an Ed25519 key. *)
Definition ed25519_key_id (pub : bytes) : bytes :=
  sub 0 KEY_ID_SIZE (H (key_id_domain ++ (PUBLIC_KEY_ALGORITHM_ED25519 :: store_u16_be ED25519_KEY_SIZE) ++ sub 0 ED25519_KEY_SIZE pub)).

(** [octets] is a signature of [digest] under the public key [pub]. *)
Definition ed25519_signed (pub digest octets : bytes) : Prop :=
  exists k, evp_new_raw_public_key KEY_ED25519 (sub 0 ED25519_KEY_SIZE pub) = Some k /\
    evp_verify_init k [] = true /\ evp_verify k [] (sub 0 ED25519_SIG_SIZE octets) digest = true.

(** The policies the library makes: the flags are those of the type. *)
Record policy_typed (p : notary_policy) : Prop := {
  pt_flags : 0 <= flags p < 2 ^ 32;
  pt_max : 0 <= max_validity_period_sec p < 2 ^ 64;
}.

(** A notarised payload: what the verifier promises of what it accepts. *)
Record notarised (p : notary_policy) (payload : bytes) (s : notary_signature) (pub : bytes) (now : Z) : Prop := {
  no_policy : flags_ok (flags p) /\ allowed_signature_algorithm p = SIGNATURE_ALGORITHM_ED25519;
  no_sig : sig_ok s;
  no_flags : sg_policy_flags s = flags p;
  no_len : sg_payload_len s = len payload;
  no_digest : sg_digest s = H payload;
  no_key : sg_key_id s = ed25519_key_id pub;
  no_age : max_validity_period_sec p = 0 \/ sg_timestamp s <= now <= sg_timestamp s + max_validity_period_sec p;
  no_signed : ed25519_signed pub (H (sig_tbs s)) (sg_signature s);
}.

Lemma sha512_of_ok data n :
  n = len (default [] data) -> n < 2 ^ 64 -> sha512_of data n = Some (H (default [] data)).
Proof.
  intros -> Hn. unfold sha512_of. rewrite sub_full. rewrite sha512_parts_ok; cbn [concat]; rewrite ?app_nil_r; [done| |].
  - by repeat constructor.
  - unfold SHA_MAX. lia.
Qed.

Lemma derive_ok pub : derive_ed25519_key_id (Some pub) = Ok (ed25519_key_id pub).
Proof.
  unfold derive_ed25519_key_id, ed25519_key_id.
  pose proof (len_sub_le 0 ED25519_KEY_SIZE pub) as Hl. change (Z.max 0 ED25519_KEY_SIZE) with 32 in Hl.
  rewrite sha512_parts_ok; cbn [concat]; [by rewrite app_nil_r| |].
  - constructor; [by vm_compute|]. constructor; [by rewrite len_cons, len_store_u16|]. constructor; [lia|done].
  - rewrite app_nil_r, !len_app. change (len key_id_domain) with 16. rewrite len_cons, len_store_u16. unfold SHA_MAX. lia.
Qed.

Lemma key_id_bounds pub : len (ed25519_key_id pub) = KEY_ID_SIZE /\ bytes_ok (ed25519_key_id pub).
Proof.
  unfold ed25519_key_id. split.
  - rewrite len_sub; [done|done|done|]. rewrite sha_digest_len. clia.
  - apply bytes_ok_sub, sha_digest_ok.
Qed.

Lemma ed25519_verify_iff pub digest octets :
  evp_md_ctx_new = true -> len digest = 64 ->
  alrios_ed25519_verify (Some pub) (Some digest) (Some octets) = ALRIOS_CRYPTO_OK <-> ed25519_signed pub digest octets.
Proof.
  intros Hctx Hd. unfold alrios_ed25519_verify, ed25519_signed. rewrite Hctx, (sub_all 64 digest) by done. cbn [negb].
  destruct (evp_new_raw_public_key _ _) as [k|]; [|split; [done|by intros (? & ? & _)]].
  destruct (evp_verify_init k []) eqn:E1; [|split; [done|intros (k' & [= <-] & ? & _); congruence]].
  destruct (evp_verify k [] _ digest) eqn:E2; [|split; [done|intros (k' & [= <-] & _ & ?); congruence]].
  split; [|done]. intros _. by exists k.
Qed.

Lemma memcmp_eq a b n :
  bytes_ok a -> bytes_ok b -> len a = n -> len b = n ->
  (alrios_constant_time_memcmp (Some a) (Some b) n =? 0) = true <-> a = b.
Proof.
  intros. rewrite constant_time_memcmp_full by done. rewrite <- bytes_eqb_eq. by destruct (bytes_eqb a b).
Qed.

(** The last part of the verifier, on the octets that are signed. *)
Lemma verify_tbs_iff s pub :
  evp_md_ctx_new = true -> sig_typed s ->
  verify_tbs_digest s pub = NOTARY_OK <-> sig_ok s /\ ed25519_signed pub (H (sig_tbs s)) (sg_signature s).
Proof.
  intros Hctx Ht. unfold verify_tbs_digest. split.
  - destruct (negb (sg_signature_len s =? _)); [done|].
    destruct (build_signature_tbs _ _ _ _) as [[rc written] tbs] eqn:E. destruct (negb (rc =? NOTARY_OK)) eqn:Er.
    { bool_hyps. congruence. }
    bool_hyps. subst rc. pose proof (build_tbs_inv s _ _ (st_flags s Ht) E) as Ho.
    destruct (build_tbs_ok s Ht Ho) as [E' Hl]. rewrite E' in E. injection E as <- <-.
    change (default 0 (Some (len (sig_tbs s)))) with (len (sig_tbs s)). rewrite (sha512_of_ok (Some (sig_tbs s)) (len (sig_tbs s)) eq_refl) by (rewrite Hl; lia).
    change (default [] (Some (sig_tbs s))) with (sig_tbs s). split_if; [done|]. intros _. bool_hyps.
    split; [done|]. apply ed25519_verify_iff; [done|apply sha_digest_len|done].
  - intros [Ho Hs]. rewrite (so_signature_len s Ho). change (negb (ED25519_SIG_SIZE =? ED25519_SIG_SIZE)) with false. cbv iota.
    destruct (build_tbs_ok s Ht Ho) as [-> Hl]. change (negb (NOTARY_OK =? NOTARY_OK)) with false. cbv iota.
    change (default 0 (Some (len (sig_tbs s)))) with (len (sig_tbs s)). rewrite (sha512_of_ok (Some (sig_tbs s)) (len (sig_tbs s)) eq_refl) by (rewrite Hl; lia).
    change (default [] (Some (sig_tbs s))) with (sig_tbs s).
    apply ed25519_verify_iff in Hs; [|done|apply sha_digest_len]. by rewrite Hs.
Qed.

Lemma too_old_iff p s now :
  policy_typed p -> 0 <= now < 2 ^ 64 ->
  too_old p s now = false <->
  max_validity_period_sec p = 0 \/ sg_timestamp s <= now <= sg_timestamp s + max_validity_period_sec p.
Proof.
  intros [_ Hm] Hn. unfold too_old, u64. rewrite Z.mod_small by done. rewrite !Z.gtb_ltb.
  destruct (Z.ltb_spec 0 (max_validity_period_sec p)); destruct (Z.ltb_spec now (sg_timestamp s));
    destruct (Z.ltb_spec (max_validity_period_sec p) (now - sg_timestamp s)); cbn [andb orb]; split; intros; try done; lia.
Qed.

(** A buffer of the caller: its length, and no null pointer with a length. *)
Lemma not_missing payload n : n = len (default [] payload) -> missing payload n = false.
Proof. intros ->. unfold missing. destruct payload; [by rewrite andb_false_r|done]. Qed.

(** The verifier, on a typed signature, is the conjunction of its checks. *)
Lemma verify_raw_iff now p payload s pub chain :
  evp_md_ctx_new = true -> policy_typed p -> sig_typed s -> 0 <= now < 2 ^ 64 -> len (default [] payload) < 2 ^ 64 ->
  verify_payload_with_raw_ed25519_key now (Some p) payload (len (default [] payload)) (Some s) (Some pub) chain = NOTARY_OK <->
  notarised p (default [] payload) s pub now /\ (has (flags p) POLICY_REQUIRE_CERT_BIND = true -> chain = true).
Proof.
  intros Hctx Hp Ht Hn Hl. pose proof (policy_validate_iff p (sg_algorithm s) (pt_flags p Hp)) as Hpol.
  pose proof (key_id_bounds pub) as [Hkl Hkb]. pose proof (too_old_iff p s now Hp Hn) as Hage.
  pose proof (memcmp_eq (sg_key_id s) (ed25519_key_id pub) KEY_ID_SIZE) as Hkey.
  pose proof (memcmp_eq (sg_digest s) (H (default [] payload)) 64) as Hdig.
  destruct (st_key_id s Ht) as [? ?], (st_digest s Ht) as [? ?].
  specialize (Hkey ltac:(done) Hkb ltac:(done) Hkl).
  specialize (Hdig ltac:(done) (sha_digest_ok _) ltac:(done) (sha_digest_len _)).
  unfold verify_payload_with_raw_ed25519_key. rewrite not_missing by done. rewrite derive_ok, sha512_of_ok by done. split.
  - split_if; [done|]. split_if; [by bool_hyps|]. split_if; [done|]. do 3 (split_if; [done|]). do 2 (split_if; [done|]).
    intros Hv. apply verify_tbs_iff in Hv as [Ho Hs]; [|done..]. bool_hyps.
    destruct (proj1 Hpol ltac:(done)) as (? & ? & ?). rewrite flags_canonical in * by done.
    split; [constructor; try done|].
    + by apply Hdig, Z.eqb_eq.
    + by apply Hkey, Z.eqb_eq.
    + by apply Hage.
    + intros Hb. rewrite Hb in *. cbn [andb] in *. by apply negb_false_iff.
  - intros [[Hpo Ho Hf Hlen Hd Hk Ha Hs] Hchain]. rewrite (so_version s Ho), (so_reserved s Ho), Hlen.
    rewrite (proj2 Hpol) by (split; [apply Hpo|split; [apply Ho|apply Hpo]]).
    rewrite flags_canonical, Hf, !Z.eqb_refl by apply Hpo. cbn [negb orb].
    rewrite (proj2 Hage Ha), (proj2 Hkey Hk), (proj2 Hdig Hd). cbn [negb].
    assert (has (flags p) POLICY_REQUIRE_CERT_BIND && negb chain = false) as ->.
    { destruct (has _ _); [|done]. by rewrite Hchain. }
    apply verify_tbs_iff; [done|done|]. done.
Qed.

(** ** Signing *)

Lemma notarised_scrub p m s pub now :
  sig_typed s -> notarised p m s pub now -> notarised p m (sig_scrub s) pub now.
Proof.
  intros Ht [Hp [? ? ? ? ?] ? ? ? ? ? (k & ? & ? & ?)].
  constructor; try done. exists k. split; [done|]. split; [done|]. cbn [sig_scrub sg_signature].
  destruct (st_signature s Ht) as [Hl _]. rewrite sub_scrub by (rewrite ?Hl; clia). done.
Qed.

Lemma scrub_typed s : sig_typed s -> sig_typed (sig_scrub s).
Proof.
  intros Ht. destruct (st_signature s Ht) as [Hl Hb]. destruct Ht. constructor; try done. cbn [sig_scrub sg_signature].
  apply fill_typed; [auto with buf|rewrite len_sub; clia|clia].
Qed.

(** A successful run of the signer makes a notarised payload. *)
Lemma sign_inv now p payload k raw octets s :
  policy_typed p -> 0 <= now < 2 ^ 64 -> len (default [] payload) <= NOTARY_MAX_PAYLOAD_SIZE ->
  flags_ok (flags p) -> raw_public_key (Some k) = Some raw ->
  s = put_signature (unsigned_sig p (len (default [] payload)) now (ed25519_key_id raw) (H (default [] payload))) octets ->
  evp_sign k [] ED25519_SIG_SIZE (H (sig_tbs s)) = Some octets -> len octets = ED25519_SIG_SIZE ->
  sig_typed s /\ sig_ok s /\ sg_policy_flags s = flags p /\ sg_timestamp s = now /\
  ed25519_signed raw (H (sig_tbs s)) (sg_signature s).
Proof.
  intros Hp Hn Hl Hf Hraw Hs Hsign Ho. pose proof (pt_flags p Hp) as Hpf. pose proof (len_nonneg (default [] payload)) as Hl0.
  destruct (key_id_bounds raw) as [Hkl Hkb].
  destruct (evp_sign_len k [] ED25519_SIG_SIZE _ _ ltac:(done) Hsign) as [_ Hob].
  assert (Hget : evp_get_raw_public_key k = Some raw /\ len raw = 32).
  { unfold raw_public_key in Hraw. destruct (is_ed25519_evp_pkey _); [|done]. destruct (evp_get_raw_public_key k) as [r|]; [|done].
    destruct (len r =? ED25519_KEY_SIZE) eqn:E; [|done]. injection Hraw as ->. bool_hyps. done. }
  destruct Hget as [Hget Hrl].
  destruct (evp_sign_verify_raw k [] _ _ _ raw Hsign Hget) as (k' & Hk' & Hi & Hv).
  assert (Hsig : sg_signature s = upd 0 octets (zeros HYBRID_SIG_SIZE)) by (by subst s).
  assert (Hnow : u64 now = now) by (unfold u64; rewrite Z.mod_small; done).
  assert (Hty : sig_typed s).
  { rewrite Hs. constructor; cbn [sg_version sg_algorithm sg_reserved sg_payload_len sg_timestamp
      sg_policy_flags sg_key_id sg_digest sg_signature_len sg_signature put_signature unsigned_sig]; try done.
    - clia.
    - by rewrite Hnow.
    - rewrite flags_canonical by done. done.
    - split; [apply sha_digest_len|apply sha_digest_ok].
    - apply fill_typed; [done|rewrite Ho; done|done]. }
  split; [done|]. split; [|split; [|split]].
  - rewrite Hs. constructor; try done. cbn [put_signature unsigned_sig sg_policy_flags]. by rewrite flags_canonical.
  - rewrite Hs. cbn [put_signature unsigned_sig sg_policy_flags]. by apply flags_canonical.
  - rewrite Hs. exact Hnow.
  - exists k'. rewrite (sub_all ED25519_KEY_SIZE raw) by done. split; [done|]. split; [done|].
    rewrite Hsig, sub_of_fill by (rewrite ?Ho; done). done.
Qed.

(** With a policy in force, a payload within the limit and a key that signs, the signer
    succeeds. *)
Lemma sign_succeeds now p payload k raw :
  evp_md_ctx_new = true -> policy_typed p -> 0 <= now < 2 ^ 64 -> len (default [] payload) <= NOTARY_MAX_PAYLOAD_SIZE ->
  flags_ok (flags p) -> allowed_signature_algorithm p = SIGNATURE_ALGORITHM_ED25519 ->
  raw_public_key (Some k) = Some raw ->
  (forall m, exists o, evp_sign k [] ED25519_SIG_SIZE m = Some o /\ len o = ED25519_SIG_SIZE) ->
  exists s,
    alrios_notary_sign_payload now (Some p) payload (len (default [] payload)) (Some k) true = (NOTARY_OK, Some s) /\
    sig_typed s /\ sg_timestamp s = now /\
    (forall now', max_validity_period_sec p = 0 \/ now <= now' <= now + max_validity_period_sec p ->
       notarised p (default [] payload) s raw now').
Proof.
  intros Hctx Hp Hn Hl Hf Ha Hraw Hsign.
  set (u := unsigned_sig p (len (default [] payload)) now (ed25519_key_id raw) (H (default [] payload))).
  destruct (Hsign (H (sig_tbs u))) as (octets & Hs & Ho).
  pose proof (sign_inv now p payload k raw octets (put_signature u octets) Hp Hn Hl Hf Hraw eq_refl Hs Ho)
    as (Hty & Hok & Hfl & Hts & Hsd).
  assert (Htu : sig_typed u /\ sig_ok u).
  { split; [|by destruct Hok; constructor]. destruct Hty. constructor; try done. cbn [u unsigned_sig sg_signature].
    split; [by rewrite len_zeros|apply bytes_ok_zeros]. }
  destruct Htu as [Htu Hou]. exists (put_signature u octets). split; [|split; [done|split; [done|]]].
  - unfold alrios_notary_sign_payload. rewrite not_missing by done. cbn [negb].
    rewrite Z.gtb_ltb, (proj2 (Z.ltb_ge NOTARY_MAX_PAYLOAD_SIZE _)) by done.
    rewrite (proj2 (policy_validate_iff p SIGNATURE_ALGORITHM_ED25519 (pt_flags p Hp))) by done.
    change (negb (NOTARY_OK =? NOTARY_OK)) with false. cbv iota.
    rewrite Hraw, derive_ok, sha512_of_ok by (done || clia). fold u.
    assert (Hl152 := proj2 (build_tbs_ok u Htu Hou)). unfold sign_tbs_digest.
    rewrite (proj1 (build_tbs_ok u Htu Hou)). change (negb (NOTARY_OK =? NOTARY_OK)) with false. cbv iota.
    rewrite Hctx. cbn [negb]. change (default 0 (Some (len (sig_tbs u)))) with (len (sig_tbs u)).
    rewrite (sha512_of_ok (Some (sig_tbs u)) (len (sig_tbs u)) eq_refl) by (rewrite Hl152; lia).
    change (default [] (Some (sig_tbs u))) with (sig_tbs u). rewrite Hs, Ho. done.
  - intros now' Hage. constructor; try done. cbn [put_signature u unsigned_sig sg_timestamp].
    unfold u64. rewrite Z.mod_small by done. done.
Qed.

(** ** What a signature covers *)

Lemma sig_header_inj s s' :
  sig_typed s -> sig_typed s' -> sig_ok s -> sig_ok s' -> header s = header s' ->
  sg_payload_len s = sg_payload_len s' /\ sg_timestamp s = sg_timestamp s' /\ sg_policy_flags s = sg_policy_flags s' /\
  sg_key_id s = sg_key_id s' /\ sg_digest s = sg_digest s'.
Proof.
  intros [? ? ? Hp Ht Hf [Hk _] [Hd _] ? _] [? ? ? Hp' Ht' Hf' [Hk' _] [Hd' _] ? _] [E1 E2 E3 E4 _] [E1' E2' E3' E4' _].
  unfold header. rewrite E1, E3, E4, E1', E3', E4'.
  rewrite (sub_all KEY_ID_SIZE (sg_key_id s)), (sub_all KEY_ID_SIZE (sg_key_id s')),
    (sub_all 64 (sg_digest s)), (sub_all 64 (sg_digest s')) by (symmetry; assumption).
  intros [_ E]%app_split; [|done]. apply app_split in E as [_ E]; [|done]. apply app_split in E as [_ E]; [|done].
  apply app_split in E as [Ep E]; [|by rewrite !len_store_u64]. apply app_split in E as [Et E]; [|by rewrite !len_store_u64].
  apply app_split in E as [Ef E]; [|by rewrite !len_store_u32]. apply app_split in E as [Ek E]; [|congruence].
  apply app_split in E as [Ed _]; [|congruence].
  apply store64_inj in Ep, Et; [|done..]. apply store32_inj in Ef; [|done..]. done.
Qed.

(** ** Key files *)

(** An undisturbed reading of a file. *)
Definition undisturbed (content : bytes) : reading :=
  mk_reading true true (len content) true true (fun n => (sub 0 n content, false)) true.

Lemma read_undisturbed content limit :
  1 <= len content <= limit -> read_key_file (undisturbed content) limit = Ok content.
Proof.
  intros Hl. unfold read_key_file, undisturbed. cbn [opens seeks_end tells seeks_back mallocs reads closes negb].
  rewrite Z.gtb_ltb, (proj2 (Z.leb_gt (len content) 0)), (proj2 (Z.ltb_ge limit (len content))) by lia. cbn [orb].
  by rewrite sub_full, Z.eqb_refl.
Qed.

Lemma write_key_ok env raw file : write_key env raw = (NOTARY_OK, file) -> file = Some raw.
Proof. unfold write_key. repeat (split_if; [done|]). by intros [= <-]. Qed.

(** A private key that was saved is loaded as a key with the same public half. *)
Lemma load_private_raw k raw :
  base_id_ed25519 k = true -> get_raw_private_key k = Some raw -> len raw = 32 ->
  exists k', alrios_notary_load_private_key_file (undisturbed raw) true true = (NOTARY_OK, Some (Some k')) /\
    base_id_ed25519 k' = true /\ evp_get_raw_public_key k' = evp_get_raw_public_key k.
Proof.
  intros Hb Hr Hl. destruct (raw_private_roundtrip k raw Hb Hr Hl) as (k' & Hk & Hb' & Hp).
  exists k'. split; [|done]. unfold alrios_notary_load_private_key_file. cbn [negb orb].
  rewrite read_undisturbed by lia. rewrite Hl. change ((32 =? 32) || (32 =? 64)) with true. cbv iota.
  rewrite (sub_all 32 raw) by done. by rewrite Hk.
Qed.

Lemma load_public_raw buf_at cert_at pub :
  len pub = 32 -> alrios_notary_load_public_key_file buf_at cert_at (undisturbed pub) true true = (NOTARY_OK, Some pub).
Proof.
  intros Hl. unfold alrios_notary_load_public_key_file. cbn [negb orb].
  change (mk_reading _ _ _ _ true _ _) with (undisturbed pub). rewrite read_undisturbed by lia. by rewrite Hl.
Qed.
End Proofs.

(** ** Properties *)

Section Properties.
Context `{laws : Sha512Laws} {evp : EvpApi} {elaws : EvpLaws evp} {napi : NotaryApi evp} {nlaws : NotaryLaws napi}.

(** C5: the verifier of a payload under a raw key accepts exactly the notarised payloads, and
    only under a policy that does not ask for a certificate: the policy is one in force, the
    signature has the version, algorithm, length and flags it must have, names the payload's
    length and SHA-512 and the key's identifier, is not too old or from the future, and its 64
    octets verify over the hash of all of this. *)
Theorem notary_verify_correct now p payload s pub :
  evp_md_ctx_new = true -> policy_typed p -> sig_typed s -> 0 <= now < 2 ^ 64 -> len (default [] payload) < 2 ^ 64 ->
  alrios_notary_verify_payload now (Some p) payload (len (default [] payload)) (Some s) (Some pub) = NOTARY_OK <->
  notarised (H := H) p (default [] payload) s pub now /\ has (flags p) POLICY_REQUIRE_CERT_BIND = false.
Proof.
  intros Hctx Hp Ht Hn Hl. unfold alrios_notary_verify_payload. pose proof (verify_raw_iff now p payload s pub false Hctx Hp Ht Hn Hl) as Hi.
  destruct (has (flags p) POLICY_REQUIRE_CERT_BIND).
  - split; [done|by intros [_ ?]].
  - rewrite Hi. tauto.
Qed.

(** C20: with a policy that asks for a certificate, exactly the notarised payloads are accepted
    whose key is that of a leaf with a valid Ed25519 key at the end of a valid chain to an
    anchor of the store. *)
Theorem notary_certificate_correct tbs_at now p payload s al leaf ai inter store current_time :
  evp_md_ctx_new = true -> policy_typed p -> sig_typed s -> 0 <= now < 2 ^ 64 -> len (default [] payload) < 2 ^ 64 ->
  store_wf H store -> sealed store = 1 -> cert_typed leaf -> cert_valid leaf -> cert_typed inter -> cert_valid inter ->
  subject_len leaf + public_key_len leaf <= 1964 -> subject_len inter + public_key_len inter <= 1964 ->
  apart tbs_at al leaf -> apart tbs_at ai inter ->
  alrios_notary_verify_with_certificate tbs_at now (Some p) payload (len (default [] payload)) (Some s) (At al leaf) (At ai inter)
    (Some store) current_time = NOTARY_OK <->
  has (flags p) POLICY_REQUIRE_CERT_BIND = true /\ chain_ok H (abs H store) leaf inter current_time /\
  public_key_algorithm leaf = PUBLIC_KEY_ALGORITHM_ED25519 /\ public_key_len leaf = ED25519_KEY_SIZE /\
  notarised (H := H) p (default [] payload) s (public_key leaf) now.
Proof.
  intros Hctx Hp Ht Hn Hl Hw Hse Tl Vl Ti Vi Fl Fi Al Ai.
  pose proof (verify_chain_spec tbs_at store al leaf ai inter current_time Hw Hse Hctx Tl Vl Ti Vi Fl Fi Al Ai) as Hc.
  pose proof (verify_raw_iff now p payload s (public_key leaf) true Hctx Hp Ht Hn Hl) as Hi.
  unfold alrios_notary_verify_with_certificate. rewrite not_missing by done.
  destruct (has (flags p) POLICY_REQUIRE_CERT_BIND); cbn [negb]; [|by split; [|intros (? & _)]].
  destruct (Z.eqb_spec (alrios_pki_verify_chain tbs_at (Some store) (At al leaf) (At ai inter) current_time) ALRIOS_ISSUER_OK) as [E|E];
    cbn [negb]; [|split; [done|intros (_ & ? & _); by apply Hc in E || (exfalso; apply E, Hc)]].
  destruct (Z.eqb_spec (public_key_algorithm leaf) PUBLIC_KEY_ALGORITHM_ED25519) as [E1|E1]; cbn [negb orb];
    [|split; [done|by intros (_ & _ & ? & _)]].
  destruct (Z.eqb_spec (public_key_len leaf) ED25519_KEY_SIZE) as [E2|E2]; cbn [negb];
    [|split; [done|by intros (_ & _ & _ & ? & _)]].
  rewrite Hi. apply Hc in E. tauto.
Qed.

(** C6: what the notary signs, it verifies. Under a policy in force the signer succeeds on every
    payload up to the limit with a key that signs; the signature is written as 196 octets, they
    are read back, and what is read verifies under the key's public half until it is too old
    for the policy. *)
Theorem notary_sign_verify now now' p payload k raw :
  evp_md_ctx_new = true -> policy_typed p -> 0 <= now < 2 ^ 64 -> 0 <= now' < 2 ^ 64 ->
  len (default [] payload) <= NOTARY_MAX_PAYLOAD_SIZE ->
  flags p = POLICY_ALLOW_ED25519 -> allowed_signature_algorithm p = SIGNATURE_ALGORITHM_ED25519 ->
  raw_public_key (Some k) = Some raw ->
  (forall m, exists o, evp_sign k [] ED25519_SIG_SIZE m = Some o /\ len o = ED25519_SIG_SIZE) ->
  max_validity_period_sec p = 0 \/ now <= now' <= now + max_validity_period_sec p ->
  exists s wire s',
    alrios_notary_sign_payload now (Some p) payload (len (default [] payload)) (Some k) true = (NOTARY_OK, Some s) /\
    alrios_notary_signature_encode (Some s) true 196 true = (NOTARY_OK, Some 196, Some wire) /\
    alrios_notary_signature_decode (Some wire) (len wire) true = Ok (NOTARY_OK, Some s') /\
    alrios_notary_verify_payload now' (Some p) payload (len (default [] payload)) (Some s') (Some raw) = NOTARY_OK.
Proof.
  intros Hctx Hp Hn Hn' Hl Hf Ha Hraw Hsign Hage.
  destruct (sign_succeeds now p payload k raw) as (s & Hs & Hty & _ & Hno); try done; [by left|].
  specialize (Hno now' Hage). pose proof (no_sig _ _ _ _ _ Hno) as Hok.
  exists s, (sig_wire s), (sig_scrub s). split; [done|]. split; [|split].
  - rewrite encode_spec by (done || lia). by rewrite (proj2 (sig_canonical_iff s (st_flags s Hty)) Hok).
  - rewrite sig_wire_len by done. by apply decode_sig_wire.
  - unfold alrios_notary_verify_payload. rewrite Hf. change (has POLICY_ALLOW_ED25519 POLICY_REQUIRE_CERT_BIND) with false. cbv iota.
    apply verify_raw_iff; [done|done|by apply scrub_typed|done|clia|]. split; [by apply notarised_scrub|]. by rewrite Hf.
Qed.

(** The codec of signatures. Decoding never reads outside its input; what it accepts is
    196 octets, the wire form of a well-formed signature, and encoding gives them back; every
    well-formed signature is encoded to octets that are decoded to it. *)
Theorem notary_codec_canonical :
  (forall w n p, n <= len w -> alrios_notary_signature_decode (Some w) n p <> Fault) /\
  (forall w n s cap, bytes_ok w -> n <= len w -> 196 <= cap ->
     alrios_notary_signature_decode (Some w) n true = Ok (NOTARY_OK, Some s) ->
     n = 196 /\ sig_typed s /\ sig_ok s /\
     alrios_notary_signature_encode (Some s) true cap true = (NOTARY_OK, Some 196, Some (sub 0 196 w))) /\
  (forall s cap, sig_typed s -> sig_ok s -> 196 <= cap -> exists w,
     alrios_notary_signature_encode (Some s) true cap true = (NOTARY_OK, Some 196, Some w) /\
     alrios_notary_signature_decode (Some w) 196 true = Ok (NOTARY_OK, Some (sig_scrub s))).
Proof.
  split; [intros; by apply decode_no_fault|]. split.
  - intros w n s cap Hw Hn Hc Hd. apply decode_inv in Hd as (-> & Ht & Ho & _ & <-); [|done..].
    split; [done|]. split; [done|]. split; [done|]. rewrite encode_spec by done.
    by rewrite (proj2 (sig_canonical_iff s (st_flags s Ht)) Ho).
  - intros s cap Ht Ho Hc. exists (sig_wire s). split; [|by apply decode_sig_wire]. rewrite encode_spec by done.
    by rewrite (proj2 (sig_canonical_iff s (st_flags s Ht)) Ho).
Qed.

(** C21: a signature cannot be moved to another payload. If two payloads verify with signatures
    whose 64 octets sign the same hash, then the payloads, the time stamps, the policies' flags
    and the keys' identifiers are the same; or the two signed texts differ and have one SHA-512
    digest, or the two payloads do. *)
Theorem notary_tamper_evident now p payload s pub now' p' payload' s' pub' :
  evp_md_ctx_new = true -> policy_typed p -> policy_typed p' -> sig_typed s -> sig_typed s' ->
  0 <= now < 2 ^ 64 -> 0 <= now' < 2 ^ 64 -> len (default [] payload) < 2 ^ 64 -> len (default [] payload') < 2 ^ 64 ->
  alrios_notary_verify_payload now (Some p) payload (len (default [] payload)) (Some s) (Some pub) = NOTARY_OK ->
  alrios_notary_verify_payload now' (Some p') payload' (len (default [] payload')) (Some s') (Some pub') = NOTARY_OK ->
  H (sig_tbs s) = H (sig_tbs s') ->
  (default [] payload = default [] payload' /\ sg_timestamp s = sg_timestamp s' /\ flags p = flags p' /\
   sg_key_id s = sg_key_id s') \/
  (sig_tbs s <> sig_tbs s' /\ H (sig_tbs s) = H (sig_tbs s')) \/
  (default [] payload <> default [] payload' /\ H (default [] payload) = H (default [] payload')).
Proof.
  intros Hctx Hp Hp' Ht Ht' Hn Hn' Hl Hl'. unfold alrios_notary_verify_payload.
  destruct (has (flags p) _); [done|]. destruct (has (flags p') _); [done|].
  intros [N _]%verify_raw_iff [N' _]%verify_raw_iff E; [|done..].
  destruct (decide (sig_tbs s = sig_tbs s')) as [Et|]; [|by right; left].
  apply app_split in Et as [_ Et]; [|done]. apply sig_header_inj in Et as (_ & Ets & Ef & Ek & Ed); [|done|done|apply N|apply N'].
  destruct (decide (default [] payload = default [] payload')) as [?|Hne].
  - left. split; [done|]. split; [done|]. split; [|done]. by rewrite <- (no_flags _ _ _ _ _ N), <- (no_flags _ _ _ _ _ N').
  - right; right. split; [done|].
    by rewrite <- (no_digest _ _ _ _ _ N), <- (no_digest _ _ _ _ _ N').
Qed.

(** Key files. Saving a private key never touches a file that is there; when it reports
    success, the file is new, holds the 32 octets of the key, and loading it gives an Ed25519 key
    with the same public half. A public key that was saved is loaded unchanged. *)
Theorem notary_key_files env file path k rc file' :
  alrios_notary_save_private_key_raw env file path (Some k) = (rc, file') ->
  (file <> None -> file' = file /\ rc <> NOTARY_OK) /\
  (rc = NOTARY_OK -> file = None /\ exists raw, file' = Some raw /\ get_raw_private_key k = Some raw /\ len raw = 32 /\
     exists k', alrios_notary_load_private_key_file (undisturbed raw) true true = (NOTARY_OK, Some (Some k')) /\
       base_id_ed25519 k' = true /\ evp_get_raw_public_key k' = evp_get_raw_public_key k) /\
  (forall env file pub file' a b, len pub = 32 ->
     alrios_notary_save_public_key_raw env file true (Some pub) = (NOTARY_OK, file') ->
     exists content, file' = Some content /\
       alrios_notary_load_public_key_file a b (undisturbed content) true true = (NOTARY_OK, Some pub)).
Proof.
  intros Hs. unfold alrios_notary_save_private_key_raw in Hs. split; [|split].
  - intros Hf. destruct path; [|by injection Hs as <- <-]. cbn [is_ed25519_evp_pkey] in Hs.
    destruct (negb (base_id_ed25519 k)); [by injection Hs as <- <-|].
    destruct (get_raw_private_key k); [|by injection Hs as <- <-].
    destruct (negb _); [by injection Hs as <- <-|]. destruct file; [by injection Hs as <- <-|done].
  - intros ->. destruct path; [|done]. cbn [is_ed25519_evp_pkey] in Hs.
    destruct (base_id_ed25519 k) eqn:Eb; cbn [negb] in Hs; [|done].
    destruct (get_raw_private_key k) as [raw|] eqn:Er; [|done].
    destruct (Z.eqb_spec (len raw) 32) as [El|]; cbn [negb] in Hs; [|done].
    destruct file; [done|]. destruct (creates env); [|done]. destruct (fdopens env); [|done].
    apply write_key_ok in Hs as ->. split; [done|]. exists raw. split; [done|]. split; [done|]. split; [done|].
    by apply load_private_raw.
  - intros env' f pub f' a b Hl. unfold alrios_notary_save_public_key_raw. destruct (negb (creates env')); [done|].
    intros Hw%write_key_ok. subst f'. rewrite (sub_all ED25519_KEY_SIZE pub) by done. exists pub. split; [done|].
    by apply load_public_raw.
Qed.
End Properties.

(** ** Witnesses, over the engine of Sha512.v and the keys of [toy_evp] *)

#[local] Existing Instances toy_evp toy_evp_laws.

#[local] Instance toy_notary : NotaryApi toy_evp := {|
  base_id_ed25519 _ := true;
  new_raw_private_key raw := Some raw;
  get_raw_private_key k := if bytes_okb k then Some k else None;
  bio_new_mem_buf := true;
  pem_private_key _ := None;
  pem_public_key _ := None;
|}.

#[local] Instance toy_notary_laws : NotaryLaws toy_notary.
Proof.
  constructor; cbn; intros k raw.
  - destruct (bytes_okb k) eqn:E; [|done]. intros [= <-] _. by apply bytes_okb_ok.
  - intros _. destruct (bytes_okb k) eqn:E; [|done]. intros [= <-] _. exists k. by rewrite E.
Qed.

Definition open_policy : notary_policy := mk_policy 1 1 60.

Definition bound_policy : notary_policy := mk_policy 5 1 0.

Definition sample_key : bytes := upd 0 [9] (zeros 32).

(** A document signed under either policy, with a key of its own or with the leaf's. *)
Definition signed_with (p : notary_policy) (k : bytes) : notary_signature :=
  match snd (alrios_notary_sign_payload 2000 (Some p) (Some (lit "doc")) 3 (Some (k : @pkey toy_evp)) true) with
  | Some s => s
  | None => zero_sig
  end.

Definition open_sig : notary_signature := Eval vm_compute in signed_with open_policy sample_key.

Definition bound_sig : notary_signature := Eval vm_compute in signed_with bound_policy (upd 0 [3] (zeros 32)).

(** What decides the C type, by evaluation. *)
Definition sig_okb (s : notary_signature) : bool :=
  (0 <=? sg_version s) && (sg_version s <? 2 ^ 16) && bytes_okb [sg_algorithm s; sg_reserved s] &&
  (0 <=? sg_payload_len s) && (sg_payload_len s <? 2 ^ 64) && (0 <=? sg_timestamp s) && (sg_timestamp s <? 2 ^ 64) &&
  (0 <=? sg_policy_flags s) && (sg_policy_flags s <? 2 ^ 32) && (len (sg_key_id s) =? 32) && bytes_okb (sg_key_id s) &&
  (len (sg_digest s) =? 64) && bytes_okb (sg_digest s) && (0 <=? sg_signature_len s) && (sg_signature_len s <? 2 ^ 64) &&
  (len (sg_signature s) =? HYBRID_SIG_SIZE) && bytes_okb (sg_signature s).

Lemma sig_okb_ok s : sig_okb s = true -> sig_typed s.
Proof.
  unfold sig_okb. intros H. bool_hyps.
  repeat match goal with Hb : bytes_okb _ = true |- _ => apply bytes_okb_ok in Hb end.
  match goal with Hb : bytes_ok [_; _] |- _ => apply Forall_cons_iff in Hb as [? Hb]; apply Forall_cons_iff in Hb as [? _] end.
  by constructor.
Qed.

Lemma open_sig_typed : sig_typed open_sig.
Proof. apply sig_okb_ok. vm_compute. reflexivity. Qed.

Lemma bound_sig_typed : sig_typed bound_sig.
Proof. apply sig_okb_ok. vm_compute. reflexivity. Qed.

Lemma small_policy p :
  (0 <=? flags p) = true -> (flags p <? 8) = true -> (0 <=? max_validity_period_sec p) = true ->
  (max_validity_period_sec p <? 2 ^ 16) = true -> policy_typed p.
Proof. intros. bool_hyps. constructor; lia. Qed.

Lemma notary_verify_correct_witness : notarised (H := sha512_spec) open_policy (lit "doc") open_sig sample_key 2060.
Proof.
  refine (proj1 (proj1 (notary_verify_correct (H := sha512_spec) 2060 open_policy (Some (lit "doc")) open_sig sample_key
    _ _ _ _ _) _)).
  - reflexivity.
  - by apply small_policy.
  - apply open_sig_typed.
  - lia.
  - vm_compute. reflexivity.
  - vm_refl.
Defined.

Lemma notary_certificate_correct_witness :
  notarised (H := sha512_spec) bound_policy (lit "doc") bound_sig (public_key sample_leaf) 2000.
Proof.
  assert (Hl : cert_typed sample_leaf /\ cert_valid sample_leaf) by apply sample_leaf_ok.
  assert (Hi : cert_typed sample_inter /\ cert_valid sample_inter) by apply sample_inter_ok.
  apply (notary_certificate_correct (H := sha512_spec) (At 500000 []) 2000 bound_policy (Some (lit "doc")) bound_sig
    50000 sample_leaf 30000 sample_inter sample_chain_store 2000).
  - reflexivity.
  - by apply small_policy.
  - apply bound_sig_typed.
  - lia.
  - vm_compute. reflexivity.
  - apply sample_chain_wf.
  - reflexivity.
  - apply Hl.
  - apply Hl.
  - apply Hi.
  - apply Hi.
  - vm_compute. discriminate.
  - vm_compute. discriminate.
  - vm_compute. split; reflexivity.
  - vm_compute. split; reflexivity.
  - vm_refl.
Defined.

Lemma notary_sign_verify_witness :
  exists s wire s',
    alrios_notary_sign_payload 2000 (Some open_policy) (Some (lit "doc")) 3 (Some (sample_key : @pkey toy_evp)) true = (NOTARY_OK, Some s) /\
    alrios_notary_signature_encode (Some s) true 196 true = (NOTARY_OK, Some 196, Some wire) /\
    alrios_notary_signature_decode (Some wire) (len wire) true = Ok (NOTARY_OK, Some s') /\
    alrios_notary_verify_payload 2030 (Some open_policy) (Some (lit "doc")) 3 (Some s') (Some sample_key) = NOTARY_OK.
Proof.
  apply (notary_sign_verify (H := sha512_spec) 2000 2030 open_policy (Some (lit "doc")) (sample_key : @pkey toy_evp) sample_key).
  - reflexivity.
  - by apply small_policy.
  - lia.
  - lia.
  - vm_compute. discriminate.
  - reflexivity.
  - reflexivity.
  - vm_compute. reflexivity.
  - intros m. eexists. split; [reflexivity|]. by apply len_toy_sign.
  - right. cbn. lia.
Defined.

(** A hash that is the same for every message, and a document signed over it: the signature is
    good for every document of three octets. *)
#[local] Instance weak_sha : Sha512Api | 100 := {
  sha_ctx := bytes;
  sha_uninit := [];
  sha_init _ := (0, Some []);
  sha_update c _ _ := (0, c);
  sha_final c _ := (0, c, Some (zeros 64));
}.

Lemma weak_sha_laws : Sha512Laws weak_sha (fun _ => zeros 64).
Proof.
  refine {| sha_rep := fun (_ : @sha_ctx weak_sha) (_ : bytes) => True |}.
  - intros c. by eexists.
  - intros c m d _ _ _. by eexists.
  - intros c m _ _. by eexists.
  - intros m. reflexivity.
  - intros m. by apply bytes_okb_ok.
Qed.

Definition weak_sig : notary_signature :=
  Eval vm_compute in
    match snd (alrios_notary_sign_payload (api := weak_sha) 2000 (Some open_policy) (Some (lit "doc")) 3 (Some (sample_key : @pkey toy_evp)) true) with
    | Some s => s
    | None => zero_sig
    end.

Lemma notary_tamper_evident_witness :
  (lit "doc" = lit "dog" /\ sg_timestamp weak_sig = sg_timestamp weak_sig /\ flags open_policy = flags open_policy /\
   sg_key_id weak_sig = sg_key_id weak_sig) \/
  (sig_tbs weak_sig <> sig_tbs weak_sig /\ zeros 64 = zeros 64) \/ (lit "doc" <> lit "dog" /\ zeros 64 = zeros 64).
Proof.
  apply (notary_tamper_evident (laws := weak_sha_laws) 2000 open_policy (Some (lit "doc")) weak_sig sample_key
    2060 open_policy (Some (lit "dog")) weak_sig sample_key).
  - reflexivity.
  - by apply small_policy.
  - by apply small_policy.
  - apply sig_okb_ok. vm_compute. reflexivity.
  - apply sig_okb_ok. vm_compute. reflexivity.
  - lia.
  - lia.
  - vm_compute. reflexivity.
  - vm_compute. reflexivity.
  - vm_compute. reflexivity.
  - vm_compute. reflexivity.
  - reflexivity.
Defined.

Lemma notary_key_files_witness :
  None = @None bytes /\ exists raw, Some sample_key = Some raw /\ get_raw_private_key (sample_key : @pkey toy_evp) = Some raw /\ len raw = 32 /\
     exists k', alrios_notary_load_private_key_file (undisturbed raw) true true = (NOTARY_OK, Some (Some k')) /\
       base_id_ed25519 k' = true /\ evp_get_raw_public_key k' = evp_get_raw_public_key (sample_key : @pkey toy_evp).
Proof.
  refine (proj1 (proj2 (notary_key_files (mk_writing true true 32 true true 0) None true (sample_key : @pkey toy_evp) NOTARY_OK
    (Some sample_key) _)) eq_refl).
  vm_compute. reflexivity.
Defined.
