(* ===== verification/Profiles.v ===== *)
(** Node profiles (src/libraries/policy/profiles.c, include/alrios/profiles.h):
    the canonical policy of each profile, the parser of profile names, and the
    compatibility of applications with a node. *)

From S2P Require Import Prelude CryptoUtils.

(** ** Data *)

Definition PROFILE_SOVEREIGN_MAX : Z := 1.

Definition PROFILE_ENTERPRISE_BAL : Z := 2.

Definition PROFILE_EDGE_PERF : Z := 3.

Definition ALRIOS_APP_FLAG_PROFILE_SOVEREIGN : Z := Z.shiftl 1 0.

Definition ALRIOS_APP_FLAG_PROFILE_ENTERPRISE : Z := Z.shiftl 1 1.

Definition ALRIOS_APP_FLAG_PQC_HYBRID_SIG : Z := Z.shiftl 1 6.

Definition ALRIOS_PROFILE_ERR_UNAVAILABLE : Z := -2.

(** [alrios_node_policy_t]; the enumerations are numbered as in the header. *)
Record node_policy := mk_policy {
  profile : Z;
  require_pqc : Z;
  require_zero_disk : Z;
  seccomp_strict : Z;
  log_hashchain : Z;
  guard_pages_enabled : Z;
  net_timeout_sec : Z;
  ipc_mode : Z;
  envelope_crypto : Z;
  sig_enforcement : Z;
  exec_mode : Z;
  isolation_mode : Z;
}.

(** [memset(p, 0, sizeof( *p))]. *)
Definition zero_policy : node_policy := mk_policy 0 0 0 0 0 0 0 0 0 0 0 0.

#[export] Instance node_policy_eq_dec : EqDecision node_policy.
Proof. solve_decision. Defined.

(** ** Operations *)

Section Profiles.
Context (cfg : build_config).

(** Status and the policy behind [p] afterwards. *)
Definition alrios_profile_init (p : option node_policy) (choice : Z) : Z * option node_policy :=
  match p with
  | None => (-1, None)
  | Some q =>
      if choice =? PROFILE_SOVEREIGN_MAX then
        if negb (alrios_crypto_has_capability cfg
                   (Z.lor (Z.lor ALRIOS_CRYPTO_CAP_ED25519 ALRIOS_CRYPTO_CAP_AES_256_GCM)
                      ALRIOS_CRYPTO_CAP_ML_DSA_65))
        then (ALRIOS_PROFILE_ERR_UNAVAILABLE, Some zero_policy)
        else (0, Some (mk_policy choice 1 1 1 1 1 5 1 1 1 1 1))
      else if choice =? PROFILE_ENTERPRISE_BAL then
        (0, Some (mk_policy choice 0 1 0 0 1 15 2 2 2 2 2))
      else if choice =? PROFILE_EDGE_PERF then
        (0, Some (mk_policy choice 0 0 0 0 0 0 3 3 3 3 3))
      else
        (-1, Some (mk_policy choice (require_pqc q) (require_zero_disk q) (seccomp_strict q)
                     (log_hashchain q) (guard_pages_enabled q) (net_timeout_sec q) (ipc_mode q)
                     (envelope_crypto q) (sig_enforcement q) (exec_mode q) (isolation_mode q)))
  end.
End Profiles.

(** [isspace] in the C locale. *)
Definition isspace (c : Z) : bool := (c =? 32) || ((9 <=? c) && (c <=? 13)).

Fixpoint skip_space (s : bytes) : bytes :=
  match s with
  | c :: s' => if isspace c then skip_space s' else s
  | [] => []
  end.

(** [strncmp(s, prefix, strlen(prefix)) == 0], and the string behind the prefix. *)
Definition strip_prefix (prefix s : bytes) : option bytes :=
  if bytes_eqb (sub 0 (len prefix) s) prefix then Some (drop (length prefix) s) else None.

(** [strcmp(s, names\[i\]) == 0] for one of the names. *)
Definition is_one_of (s : bytes) (names : list bytes) : bool := existsb (bytes_eqb s) names.

Definition sovereign_names : list bytes :=
  [lit "sovereign"; lit "SOVEREIGN"; lit "SOVEREIGN-MAX"; lit "sovereign-max"; lit "1"].

Definition enterprise_names : list bytes :=
  [lit "enterprise"; lit "ENTERPRISE"; lit "ENTERPRISE-BALANCED"; lit "enterprise-balanced"; lit "2"].

Definition edge_names : list bytes :=
  [lit "edge_performance"; lit "edge-performance"; lit "EDGE-PERFORMANCE"; lit "edge"; lit "EDGE";
   lit "performance"; lit "PERFORMANCE"; lit "fast"; lit "FAST"; lit "3"].

(** Status and [*out_profile] if it is written; the argument is the C string
    without its NUL. *)
Definition alrios_profile_parse (name_or_flag : option bytes) (out_present : bool) : Z * option Z :=
  match name_or_flag with
  | None => (-1, None)
  | Some name =>
      if negb out_present then (-1, None)
      else
        let s := skip_space name in
        if len s =? 0 then (-1, None)
        else
          let s :=
            match strip_prefix (lit "--profile=") s with
            | Some s => s
            | None =>
                match strip_prefix (lit "alrios.profile=") s with
                | Some s => s
                | None => s
                end
            end in
          if is_one_of s sovereign_names then (0, Some PROFILE_SOVEREIGN_MAX)
          else if is_one_of s enterprise_names then (0, Some PROFILE_ENTERPRISE_BAL)
          else if is_one_of s edge_names then (0, Some PROFILE_EDGE_PERF)
          else (-1, None)
  end.

Definition alrios_profile_name (profile_ : Z) : bytes :=
  if profile_ =? PROFILE_SOVEREIGN_MAX then lit "SOVEREIGN-MAX"
  else if profile_ =? PROFILE_ENTERPRISE_BAL then lit "ENTERPRISE-BALANCED"
  else if profile_ =? PROFILE_EDGE_PERF then lit "EDGE-PERFORMANCE"
  else lit "UNKNOWN".

(** [flags & mask] is not zero. *)
Definition has_flag (flags mask : Z) : bool := negb (Z.land flags mask =? 0).

Definition alrios_profile_validate_app_compat (node : option node_policy) (app_flags : Z) : Z :=
  match node with
  | None => -1
  | Some p =>
      if has_flag app_flags ALRIOS_APP_FLAG_PROFILE_SOVEREIGN
         && negb (profile p =? PROFILE_SOVEREIGN_MAX) then -2
      else if has_flag app_flags ALRIOS_APP_FLAG_PQC_HYBRID_SIG && (require_pqc p =? 0) then -3
      else if has_flag app_flags ALRIOS_APP_FLAG_PROFILE_ENTERPRISE
              && (profile p =? PROFILE_EDGE_PERF) then -4
      else 0
  end.

Definition alrios_profile_is_zero_disk (p : option node_policy) : Z :=
  match p with None => 0 | Some p => require_zero_disk p end.

Definition alrios_profile_requires_pqc (p : option node_policy) : Z :=
  match p with None => 0 | Some p => require_pqc p end.

Definition alrios_profile_has_guard_pages (p : option node_policy) : Z :=
  match p with None => 0 | Some p => guard_pages_enabled p end.

Definition alrios_profile_get_timeout (p : option node_policy) : Z :=
  match p with None => -1 | Some p => net_timeout_sec p end.

(** ** Specification *)

(** [p] is at least as strict as [q] in every protection. *)
Definition stricter (p q : node_policy) : Prop :=
  require_pqc q <= require_pqc p /\ require_zero_disk q <= require_zero_disk p /\
  seccomp_strict q <= seccomp_strict p /\ log_hashchain q <= log_hashchain p /\
  guard_pages_enabled q <= guard_pages_enabled p /\
  ipc_mode p <= ipc_mode q /\ envelope_crypto p <= envelope_crypto q /\
  sig_enforcement p <= sig_enforcement q /\ exec_mode p <= exec_mode q /\
  isolation_mode p <= isolation_mode q.

(** The spellings of a profile. *)
Definition names_of (profile_ : Z) : list bytes :=
  if profile_ =? PROFILE_SOVEREIGN_MAX then sovereign_names
  else if profile_ =? PROFILE_ENTERPRISE_BAL then enterprise_names
  else if profile_ =? PROFILE_EDGE_PERF then edge_names
  else [].

(** An accepted profile argument: white space, an optional prefix, a spelling. *)
Definition spells (name : bytes) (profile_ : Z) : Prop :=
  exists space prefix s, name = space ++ prefix ++ s /\ Forall (fun c => isspace c = true) space /\
    In prefix [[]; lit "--profile="; lit "alrios.profile="] /\ In s (names_of profile_).

(** ** Lemmas *)

(** The policy of a profile, when its initialisation succeeds. *)
Lemma profile_init_cases cfg p choice q :
  alrios_profile_init cfg p choice = (0, Some q) ->
  profile q = choice /\
  (choice = PROFILE_SOVEREIGN_MAX /\ q = mk_policy 1 1 1 1 1 1 5 1 1 1 1 1 /\
     have_ml_dsa_65 cfg = true \/
   choice = PROFILE_ENTERPRISE_BAL /\ q = mk_policy 2 0 1 0 0 1 15 2 2 2 2 2 \/
   choice = PROFILE_EDGE_PERF /\ q = mk_policy 3 0 0 0 0 0 0 3 3 3 3 3).
Proof.
  destruct p as [p|]; [|done]. unfold alrios_profile_init.
  destruct (choice =? PROFILE_SOVEREIGN_MAX) eqn:E1; bool_hyps.
  - subst choice. destruct (negb _) eqn:Ec; [done|]. intros [= <-]. split; [done|]. left.
    split; [done|]. split; [done|]. destruct cfg as [[] []]; done.
  - destruct (choice =? PROFILE_ENTERPRISE_BAL) eqn:E2; bool_hyps.
    + subst choice. intros [= <-]. split; [done|]. right. by left.
    + destruct (choice =? PROFILE_EDGE_PERF) eqn:E3; bool_hyps; [|done].
      subst choice. intros [= <-]. split; [done|]. right. by right.
Qed.

Lemma skip_space_spec s :
  exists space, s = space ++ skip_space s /\ Forall (fun c => isspace c = true) space.
Proof.
  induction s as [|c s (sp & E & Hs)]; cbn [skip_space]; [exists []; by split|].
  destruct (isspace c) eqn:Ec; [|exists []; by split].
  exists (c :: sp). split; [cbn [app]; by f_equal|by constructor].
Qed.

Lemma skip_space_app space s :
  Forall (fun c => isspace c = true) space -> skip_space (space ++ s) = skip_space s.
Proof. induction 1 as [|c sp Hc _ IH]; [done|]. cbn [app skip_space]. by rewrite Hc. Qed.

Lemma is_one_of_spec s names : is_one_of s names = true <-> In s names.
Proof.
  unfold is_one_of. rewrite existsb_exists. split.
  - intros (x & Hx & E). apply bytes_eqb_eq in E as ->. done.
  - intros H. exists s. split; [done|apply bytes_eqb_refl].
Qed.

Lemma strip_prefix_spec prefix s r : strip_prefix prefix s = Some r <-> s = prefix ++ r.
Proof.
  unfold strip_prefix. split.
  - destruct (bytes_eqb _ _) eqn:E; [|done]. intros [= <-]. apply bytes_eqb_eq in E.
    rewrite <- E at 1. unfold sub, len. rewrite Nat2Z.id. cbn [Z.to_nat]. rewrite drop_0.
    by rewrite take_drop.
  - intros ->. rewrite sub_here, bytes_eqb_refl by done. by rewrite drop_app_length.
Qed.

(** The three profiles have different spellings, none with a prefix or a space
    in front. *)
Lemma names_distinct p s :
  In s (names_of p) ->
  (p = PROFILE_SOVEREIGN_MAX \/ p = PROFILE_ENTERPRISE_BAL \/ p = PROFILE_EDGE_PERF) /\
  is_one_of s sovereign_names = (p =? PROFILE_SOVEREIGN_MAX) /\
  (p <> PROFILE_SOVEREIGN_MAX -> is_one_of s enterprise_names = (p =? PROFILE_ENTERPRISE_BAL)) /\
  (p = PROFILE_EDGE_PERF -> is_one_of s edge_names = true) /\
  skip_space s = s /\ s <> [] /\ strip_prefix (lit "--profile=") s = None /\
  strip_prefix (lit "alrios.profile=") s = None.
Proof.
  unfold names_of. intros H.
  destruct (p =? PROFILE_SOVEREIGN_MAX) eqn:E1; [|destruct (p =? PROFILE_ENTERPRISE_BAL) eqn:E2;
    [|destruct (p =? PROFILE_EDGE_PERF) eqn:E3; [|done]]]; bool_hyps; subst p;
    (split; [tauto|]); cbn [In sovereign_names enterprise_names edge_names] in H;
    repeat destruct H as [<-|H]; try done; repeat split; done.
Qed.

(** ** Properties *)

(** [alrios_profile_parse] accepts exactly the spellings of the profiles,
    with white space and one of the two option prefixes in front; everything else
    is refused and leaves the output alone. *)
Theorem profile_parse_spec name :
  (forall p, alrios_profile_parse (Some name) true = (0, Some p) <-> spells name p) /\
  ((forall p, ~ spells name p) -> alrios_profile_parse (Some name) true = (-1, None)).
Proof.
  assert (Hfwd : forall p, alrios_profile_parse (Some name) true = (0, Some p) -> spells name p).
  { intros p H. unfold alrios_profile_parse in H. cbn [negb] in H.
    destruct (skip_space_spec name) as (space & E & Hs). destruct (_ =? 0); [done|].
    assert (Hp : exists prefix s, skip_space name = prefix ++ s /\
      In prefix [[]; lit "--profile="; lit "alrios.profile="] /\
      match strip_prefix (lit "--profile=") (skip_space name) with
      | Some s => s
      | None => match strip_prefix (lit "alrios.profile=") (skip_space name) with
                | Some s => s | None => skip_space name end
      end = s).
    { destruct (strip_prefix (lit "--profile=") _) as [s|] eqn:E1.
      - apply strip_prefix_spec in E1. exists (lit "--profile="), s. split; [done|]. split; [right; by left|done].
      - destruct (strip_prefix (lit "alrios.profile=") _) as [s|] eqn:E2.
        + apply strip_prefix_spec in E2. exists (lit "alrios.profile="), s.
          split; [done|]. split; [right; right; by left|done].
        + exists [], (skip_space name). split; [done|]. split; [by left|done]. }
    destruct Hp as (prefix & s & Eps & Hin & Es). rewrite Es in H.
    exists space, prefix, s. rewrite <- Eps. split; [done|]. split; [done|]. split; [done|].
    destruct (is_one_of s sovereign_names) eqn:E1; [injection H as <-; by apply is_one_of_spec|].
    destruct (is_one_of s enterprise_names) eqn:E2; [injection H as <-; by apply is_one_of_spec|].
    destruct (is_one_of s edge_names) eqn:E3; [injection H as <-; by apply is_one_of_spec|done]. }
  split.
  - intros p. split; [apply Hfwd|]. intros (space & prefix & s & -> & Hs & Hp & Hn).
    destruct (names_distinct p s Hn) as (Hc & H1 & H2 & H3 & Hsk & Hne & Hp1 & Hp2).
    unfold alrios_profile_parse. cbn [negb]. rewrite skip_space_app by done.
    assert (Esk : skip_space (prefix ++ s) = prefix ++ s)
      by (destruct Hp as [<-|[<-|[<-|[]]]]; done).
    rewrite Esk.
    assert (Hlen : (len (prefix ++ s) =? 0) = false).
    { destruct s as [|x s]; [done|]. apply Z.eqb_neq. rewrite len_app, len_cons.
      pose proof (len_nonneg prefix). pose proof (len_nonneg s). lia. }
    rewrite Hlen.
    assert (Est : match strip_prefix (lit "--profile=") (prefix ++ s) with
      | Some s => s
      | None => match strip_prefix (lit "alrios.profile=") (prefix ++ s) with
                | Some s' => s' | None => prefix ++ s end
      end = s).
    { destruct Hp as [<-|[<-|[<-|[]]]].
      - cbn [app]. by rewrite Hp1, Hp2.
      - by rewrite (proj2 (strip_prefix_spec _ _ s) eq_refl).
      - assert (En : strip_prefix (lit "--profile=") (lit "alrios.profile=" ++ s) = None) by done.
        rewrite En. by rewrite (proj2 (strip_prefix_spec _ _ s) eq_refl). }
    rewrite Est, H1. destruct Hc as [->|[->| ->]].
    + done.
    + by rewrite H2.
    + by rewrite H2, H3.
  - intros Hno. destruct (alrios_profile_parse (Some name) true) as [st [p|]] eqn:E.
    + exfalso. apply (Hno p), Hfwd. revert E. unfold alrios_profile_parse. cbn [negb].
      repeat split_if; intros [= <- <-]; done.
    + revert E. unfold alrios_profile_parse. cbn [negb]. by repeat split_if; intros [= <-].
Qed.

Lemma profile_parse_spec_witness :
  alrios_profile_parse (Some (lit " --profile=edge")) true = (0, Some PROFILE_EDGE_PERF) /\
  alrios_profile_parse (Some (lit "Edge")) true = (-1, None).
Proof.
  split.
  - apply (profile_parse_spec (lit " --profile=edge")).
    exists [32], (lit "--profile="), (lit "edge"). split; [done|]. split; [by repeat constructor|].
    split; [right; by left|]. vm_compute. tauto.
  - apply (profile_parse_spec (lit "Edge")). intros p Hs.
    apply (proj1 (profile_parse_spec (lit "Edge"))) in Hs. discriminate Hs.
Defined.

(** The profiles are ordered. The canonical policy of a stricter profile is
    at least as strict in every protection, and refuses no application for its
    requirements that a laxer profile accepts. *)
Theorem profiles_ordered cfg p p' q q' a b flags :
  alrios_profile_init cfg p a = (0, Some p') -> alrios_profile_init cfg q b = (0, Some q') ->
  a <= b ->
  stricter p' q' /\
  (alrios_profile_validate_app_compat (Some q') flags = 0 ->
   alrios_profile_validate_app_compat (Some p') flags = 0).
Proof.
  intros Ha Hb Hab. apply profile_init_cases in Ha as [_ Ha], Hb as [_ Hb].
  unfold PROFILE_SOVEREIGN_MAX, PROFILE_ENTERPRISE_BAL, PROFILE_EDGE_PERF in *.
  assert (Hc : forall f, alrios_profile_validate_app_compat (Some f) flags = 0 ->
    (profile f = 1 \/ has_flag flags ALRIOS_APP_FLAG_PROFILE_SOVEREIGN = false) /\
    (require_pqc f <> 0 \/ has_flag flags ALRIOS_APP_FLAG_PQC_HYBRID_SIG = false) /\
    (profile f <> 3 \/ has_flag flags ALRIOS_APP_FLAG_PROFILE_ENTERPRISE = false)).
  { intros f. unfold alrios_profile_validate_app_compat.
    unfold PROFILE_SOVEREIGN_MAX, PROFILE_EDGE_PERF.
    destruct (has_flag flags ALRIOS_APP_FLAG_PROFILE_SOVEREIGN), (profile f =? 1) eqn:E1,
      (has_flag flags ALRIOS_APP_FLAG_PQC_HYBRID_SIG), (require_pqc f =? 0) eqn:E2,
      (has_flag flags ALRIOS_APP_FLAG_PROFILE_ENTERPRISE), (profile f =? 3) eqn:E3; try done;
      bool_hyps; intros _; split_and!; tauto. }
  destruct Ha as [(-> & -> & _)|[[-> ->]|[-> ->]]], Hb as [(-> & -> & _)|[[-> ->]|[-> ->]]]; try lia;
    (split; [unfold stricter; cbn; lia|]); try done;
    intros H; apply Hc in H as (H1 & H2 & H3); cbn [profile require_pqc] in *;
    unfold alrios_profile_validate_app_compat; cbn [profile require_pqc].
  - destruct H1 as [H1|H1]; [done|]. destruct H2 as [H2|H2]; [done|]. rewrite H1, H2. cbn [andb].
    by rewrite andb_false_r.
  - destruct H1 as [H1|H1]; [done|]. destruct H2 as [H2|H2]; [done|]. rewrite H1, H2. cbn [andb].
    by rewrite andb_false_r.
  - destruct H1 as [H1|H1]; [done|]. destruct H2 as [H2|H2]; [done|]. rewrite H1, H2. cbn [andb].
    by rewrite andb_false_r.
Qed.

Lemma profiles_ordered_witness :
  alrios_profile_validate_app_compat (Some (mk_policy 2 0 1 0 0 1 15 2 2 2 2 2)) 4 = 0.
Proof.
  apply (profiles_ordered {| have_ml_dsa_65 := false; have_ml_kem_768 := false |}
    (Some zero_policy) (mk_policy 2 0 1 0 0 1 15 2 2 2 2 2)
    (Some zero_policy) (mk_policy 3 0 0 0 0 0 0 3 3 3 3 3) 2 3 4).
  - vm_compute. reflexivity.
  - vm_compute. reflexivity.
  - lia.
  - vm_compute. reflexivity.
Defined.
