(* ===== verification/JsonText.v ===== *)
(** The lexical level of the manifest canonicalizer
    (src/libraries/pki/manifest_canon.c, up to [compare_members]): buffers that
    grow, UTF-8, string literals, and the UTF-16 order of object keys.

    The parser's state ([json_parser_t]) is the unread part of the input,
    [input + offset .. input + length); a read beyond it has no result. Whether a
    call of the allocator succeeds is the parameter [malloc_ok] of every definition
    that allocates; it may answer each call of a run differently. *)

From S2P Require Import Prelude Bytes.

Definition ALRIOS_JSON_MAX_INPUT : Z := 1024 * 1024.

Definition ALRIOS_JSON_MAX_DEPTH : Z := 64.

Definition JSON_OK : Z := 0.

Definition JSON_ERR_ARGUMENT : Z := -1.

Definition JSON_ERR_SYNTAX : Z := -2.

Definition JSON_ERR_OUTPUT : Z := -3.

Definition JSON_ERR_MEMORY : Z := -4.

Definition JSON_ERR_UNSUPPORTED : Z := -5.

#[export] Hint Unfold JSON_OK JSON_ERR_ARGUMENT JSON_ERR_SYNTAX JSON_ERR_OUTPUT JSON_ERR_MEMORY
  JSON_ERR_UNSUPPORTED ALRIOS_JSON_MAX_INPUT ALRIOS_JSON_MAX_DEPTH : consts.

(** The characters the code names. *)
Definition QUOTE : Z := 34.

Definition BACKSLASH : Z := 92.

Definition is_digit (byte : Z) : bool := (48 <=? byte) && (byte <=? 57).

(** ** Computations

    The status a function returns with its results on [JSON_OK]. [Stuck]: a read
    outside the input, or a loop that has not ended within the given number of
    iterations. *)
Inductive outcome (A : Type) : Type :=
  | Done (a : A)
  | Fail_ (e : Z)
  | Stuck.
Arguments Done {A} _.
Arguments Fail_ {A} _.
Arguments Stuck {A}.

Definition obind {A B} (m : outcome A) (k : A -> outcome B) : outcome B :=
  match m with
  | Done a => k a
  | Fail_ e => Fail_ e
  | Stuck => Stuck
  end.

Declare Scope outcome_scope.
Notation "'let?' x ':=' m 'in' k" := (obind m (fun x => k))
  (at level 10, x pattern, m at level 100, k at level 200) : outcome_scope.
Notation "'fail_when' c 'with' e ';;' k" := (if c then Fail_ e else k)
  (at level 10, c at level 99, e at level 99, k at level 200) : outcome_scope.
#[global] Open Scope outcome_scope.

(** [input[offset + i]]. *)
Definition byte_at (rest : bytes) (i : Z) : outcome Z :=
  if (0 <=? i) && (i <? len rest) then Done (at_ rest i) else Stuck.

(** The [n] octets at [input + offset], as [memcmp] and [memcpy] read them. *)
Definition bytes_at (rest : bytes) (n : Z) : outcome bytes :=
  if n <=? len rest then Done (sub 0 n rest) else Stuck.

(** ** Calls of the allocator

    A call is known by its place in the code, the number of octets the parser has
    not read when it is made, and the size asked for. No two calls of a run agree
    in all three: a value, an integer's text or an element is allocated behind
    input no other one stands at, and a buffer asks for more each time it grows.
    So a function of requests gives every sequence of answers. The last three sites
    are those of the callers: the buffers around a canonicalization, and a file read
    into memory. *)
Inductive site : Type :=
  | Json_value | Integer_bytes | String_bytes | Array_items | Object_members
  | Writer_output
  | Canon_input | Canon_output | Whole_file.

Record request : Type := mk_request { caller : site; unread : Z; request_size : Z }.

(** ** Memory *)

Section Text.
Context (malloc_ok : request -> bool).

(** [while (next < required) { if (next > SIZE_MAX / 2) ...; next *= 2; }] *)
Fixpoint grow_loop (fuel : nat) (next required : Z) : outcome Z :=
  match fuel with
  | O => Stuck
  | S fuel =>
      if next <? required then
        fail_when next >? SIZE_MAX / 2 with JSON_ERR_MEMORY ;;
        grow_loop fuel (next * 2) required
      else Done next
  end.

(** The new capacity; a capacity can double at most 64 times. *)
Definition checked_grow (caller : site) (unread element_size capacity required : Z) : outcome Z :=
  if required <=? capacity then Done capacity
  else
    let next := if capacity =? 0 then 4 else capacity in
    let? next := grow_loop 65 next required in
    fail_when negb (element_size =? 0) && (next >? SIZE_MAX / element_size) with JSON_ERR_MEMORY ;;
    fail_when negb (malloc_ok (mk_request caller unread (next * element_size))) with JSON_ERR_MEMORY ;;
    Done next.

(** [bytes], [length] and [capacity] of a growing byte string. In what follows
    [unread] is what the parser has not read when a byte is appended. *)
Definition buffer : Type := bytes * Z.

Definition append_byte (unread : Z) (b : buffer) (byte : Z) : outcome buffer :=
  let '(text, capacity) := b in
  let? capacity := checked_grow String_bytes unread 1 capacity (len text + 1) in
  Done (text ++ [byte], capacity).

Fixpoint append_bytes (unread : Z) (b : buffer) (l : bytes) : outcome buffer :=
  match l with
  | [] => Done b
  | byte :: l => let? b := append_byte unread b byte in append_bytes unread b l
  end.

(** ** Characters *)

Fixpoint skip_whitespace (rest : bytes) : bytes :=
  match rest with
  | byte :: rest' =>
      if (byte =? 32) || (byte =? 9) || (byte =? 10) || (byte =? 13)
      then skip_whitespace rest' else rest
  | [] => []
  end.

Definition hex_value (byte : Z) : Z :=
  if (48 <=? byte) && (byte <=? 57) then byte - 48
  else if (97 <=? byte) && (byte <=? 102) then byte - 97 + 10
  else if (65 <=? byte) && (byte <=? 70) then byte - 65 + 10
  else -1.

(** Digits [i .. i + n) of the quad. *)
Fixpoint hex_loop (n : nat) (i : Z) (rest : bytes) (value : Z) : outcome Z :=
  match n with
  | O => Done value
  | S n =>
      let? byte := byte_at rest i in
      let digit := hex_value byte in
      fail_when digit <? 0 with JSON_ERR_SYNTAX ;;
      hex_loop n (i + 1) rest (u32 (Z.lor (Z.shiftl value 4) digit))
  end.

Definition parse_hex_quad (rest : bytes) : outcome (Z * bytes) :=
  fail_when len rest <? 4 with JSON_ERR_SYNTAX ;;
  let? value := hex_loop 4 0 rest 0 in
  Done (value, drop 4 rest).

(** The octets of a code point, first to last. *)
Definition utf8_octets (codepoint : Z) : option bytes :=
  let tail shift := Z.lor 128 (Z.land (Z.shiftr codepoint shift) 63) in
  if codepoint <=? 127 then Some [codepoint]
  else if codepoint <=? 2047 then Some [u8 (Z.lor 192 (Z.shiftr codepoint 6)); tail 0]
  else if codepoint <=? 65535 then
    Some [u8 (Z.lor 224 (Z.shiftr codepoint 12)); tail 6; tail 0]
  else if codepoint <=? 1114111 then
    Some [u8 (Z.lor 240 (Z.shiftr codepoint 18)); tail 12; tail 6; tail 0]
  else None.

Definition append_utf8 (unread : Z) (b : buffer) (codepoint : Z) : outcome buffer :=
  match utf8_octets codepoint with
  | Some octets => append_bytes unread b octets
  | None => Fail_ JSON_ERR_SYNTAX
  end.

Definition utf8_sequence_length (lead : Z) : Z :=
  if (194 <=? lead) && (lead <=? 223) then 2
  else if (224 <=? lead) && (lead <=? 239) then 3
  else if (240 <=? lead) && (lead <=? 244) then 4
  else 0.

(** The code point bits of the lead byte of a sequence. *)
Definition lead_bits (sequence_length lead : Z) : Z :=
  if sequence_length =? 2 then Z.land lead 31
  else if sequence_length =? 3 then Z.land lead 15
  else Z.land lead 7.

(** Continuation bytes [i .. i + n), each checked. *)
Fixpoint continuation_loop (n : nat) (i : Z) (rest : bytes) (codepoint : Z) : outcome Z :=
  match n with
  | O => Done codepoint
  | S n =>
      let? continuation := byte_at rest i in
      fail_when negb (Z.land continuation 192 =? 128) with JSON_ERR_SYNTAX ;;
      continuation_loop n (i + 1) rest
        (u32 (Z.lor (Z.shiftl codepoint 6) (Z.land continuation 63)))
  end.

Definition append_valid_utf8 (rest : bytes) (b : buffer) : outcome (buffer * bytes) :=
  let? lead := byte_at rest 0 in
  let sequence_length := utf8_sequence_length lead in
  fail_when (sequence_length =? 0) || (len rest <? sequence_length) with JSON_ERR_SYNTAX ;;
  let? codepoint :=
    continuation_loop (Z.to_nat (sequence_length - 1)) 1 rest (lead_bits sequence_length lead) in
  fail_when ((sequence_length =? 2) && (codepoint <? 128)) ||
            ((sequence_length =? 3) && (codepoint <? 2048)) ||
            ((sequence_length =? 4) && (codepoint <? 65536)) ||
            (codepoint >? 1114111) ||
            ((55296 <=? codepoint) && (codepoint <=? 57343)) with JSON_ERR_SYNTAX ;;
  let? sequence := bytes_at rest sequence_length in
  let? b := append_bytes (len rest) b sequence in
  Done (b, drop (Z.to_nat sequence_length) rest).

(** ** String literals *)

(** After [\u]: one code point, from one escape or a surrogate pair. *)
Definition unicode_escape (rest : bytes) : outcome (Z * bytes) :=
  let? (codepoint, rest) := parse_hex_quad rest in
  if (55296 <=? codepoint) && (codepoint <=? 56319) then
    fail_when len rest <? 6 with JSON_ERR_SYNTAX ;;
    let? first := byte_at rest 0 in
    fail_when negb (first =? BACKSLASH) with JSON_ERR_SYNTAX ;;
    let? second := byte_at rest 1 in
    fail_when negb (second =? 117) with JSON_ERR_SYNTAX ;;
    match parse_hex_quad (drop 2 rest) with
    | Done (low, rest) =>
        fail_when (low <? 56320) || (low >? 57343) with JSON_ERR_SYNTAX ;;
        Done (u32 (65536 + Z.shiftl (codepoint - 55296) 10 + (low - 56320)), rest)
    | Fail_ _ => Fail_ JSON_ERR_SYNTAX
    | Stuck => Stuck
    end
  else
    fail_when (56320 <=? codepoint) && (codepoint <=? 57343) with JSON_ERR_SYNTAX ;;
    Done (codepoint, rest).

(** The [switch] on the character after a backslash. *)
Definition escape (byte : Z) (rest : bytes) (b : buffer) : outcome (buffer * bytes) :=
  let one byte := let? b := append_byte (len rest) b byte in Done (b, rest) in
  if (byte =? QUOTE) || (byte =? BACKSLASH) || (byte =? 47) then one byte
  else if byte =? 98 then one 8
  else if byte =? 102 then one 12
  else if byte =? 110 then one 10
  else if byte =? 114 then one 13
  else if byte =? 116 then one 9
  else if byte =? 117 then
    let? (codepoint, rest) := unicode_escape rest in
    let? b := append_utf8 (len rest) b codepoint in
    Done (b, rest)
  else Fail_ JSON_ERR_SYNTAX.

(** Behind the loop: [free(bytes); return status;]. The out parameters keep the
    empty string they were initialised with. *)
Definition leave_string (status : Z) (rest : bytes) : outcome (bytes * bytes) :=
  if status =? JSON_OK then Done ([], rest) else Fail_ status.

(** The loop; [status] is the variable of that name, from one iteration to the
    next. *)
Fixpoint string_loop (fuel : nat) (rest : bytes) (b : buffer) (status : Z)
  : outcome (bytes * bytes) :=
  match fuel with
  | O => Stuck
  | S fuel =>
      let continue (result : outcome (buffer * bytes)) :=
        match result with
        | Done (b, rest) => string_loop fuel rest b JSON_OK
        | Fail_ status => leave_string status rest
        | Stuck => Stuck
        end in
      match rest with
      | [] => leave_string status rest
      | byte :: rest' =>
          if byte =? QUOTE then Done (fst b, rest')
          else if byte <? 32 then leave_string status rest'
          else if 128 <=? byte then continue (append_valid_utf8 rest b)
          else if negb (byte =? BACKSLASH) then
            continue (let? b := append_byte (len rest') b byte in Done (b, rest'))
          else
            match rest' with
            | [] => leave_string status rest'
            | byte :: rest'' => continue (escape byte rest'' b)
            end
      end
  end.

(** The string and the input behind it. *)
Definition parse_string_bytes (rest : bytes) : outcome (bytes * bytes) :=
  match rest with
  | byte :: rest' =>
      if byte =? QUOTE then string_loop (S (length rest')) rest' ([], 0) JSON_ERR_SYNTAX
      else Fail_ JSON_ERR_SYNTAX
  | [] => Fail_ JSON_ERR_SYNTAX
  end.
End Text.

(** ** Escaping, as the writer does it *)

(** [hex[nibble]]. *)
Definition hex_digit (nibble : Z) : Z := at_ (lit "0123456789abcdef") nibble.

(** What one byte of a string is written as. *)
Definition escaped (byte : Z) : bytes :=
  if byte =? QUOTE then [BACKSLASH; QUOTE]
  else if byte =? BACKSLASH then [BACKSLASH; BACKSLASH]
  else if byte =? 8 then [BACKSLASH; 98]
  else if byte =? 12 then [BACKSLASH; 102]
  else if byte =? 10 then [BACKSLASH; 110]
  else if byte =? 13 then [BACKSLASH; 114]
  else if byte =? 9 then [BACKSLASH; 116]
  else if byte <? 32 then
    [BACKSLASH; 117; 48; 48; hex_digit (Z.land (Z.shiftr byte 4) 15); hex_digit (Z.land byte 15)]
  else [byte].

(** ** The order of keys *)

(** Continuation bytes [i .. i + n), unchecked. *)
Fixpoint utf8_next_loop (n : nat) (i : Z) (rest : bytes) (value : Z) : outcome Z :=
  match n with
  | O => Done value
  | S n =>
      let? byte := byte_at rest i in
      utf8_next_loop n (i + 1) rest (u32 (Z.lor (Z.shiftl value 6) (Z.land byte 63)))
  end.

(** The code point at the front of the unread key and what follows it. *)
Definition utf8_next (rest : bytes) : outcome (Z * bytes) :=
  let? lead := byte_at rest 0 in
  let count := utf8_sequence_length lead in
  if lead <? 128 then Done (lead, drop 1 rest)
  else
    fail_when (count =? 0) || (len rest <? count) with JSON_ERR_SYNTAX ;;
    let? value := utf8_next_loop (Z.to_nat (count - 1)) 1 rest (lead_bits count lead) in
    Done (value, drop (Z.to_nat count) rest).

(** A cursor in a key: the unread octets and the pending low surrogate. *)
Definition cursor : Type := bytes * Z.

Definition next_utf16_unit (c : cursor) : outcome (Z * cursor) :=
  let '(rest, pending) := c in
  if negb (pending =? 0) then Done (pending, (rest, 0))
  else
    let? (codepoint, rest) :=
      match utf8_next rest with
      | Done r => Done r
      | Fail_ _ => Done (0, rest)
      | Stuck => Stuck
      end in
    if codepoint <=? 65535 then Done (u16 codepoint, (rest, 0))
    else
      let codepoint := codepoint - 65536 in
      Done (u16 (55296 + Z.shiftr codepoint 10), (rest, u16 (56320 + Z.land codepoint 1023))).

Definition at_end (c : cursor) : bool := (len (fst c) =? 0) && (snd c =? 0).

Fixpoint compare_loop (fuel : nat) (left_ right_ : cursor) : outcome Z :=
  match fuel with
  | O => Stuck
  | S fuel =>
      if at_end left_ then Done (if at_end right_ then 0 else -1)
      else if at_end right_ then Done 1
      else
        let? (left_unit, left_) := next_utf16_unit left_ in
        let? (right_unit, right_) := next_utf16_unit right_ in
        if left_unit <? right_unit then Done (-1)
        else if left_unit >? right_unit then Done 1
        else compare_loop fuel left_ right_
  end.

(** A key of [n] octets has at most [n] code units. *)
Definition compare_keys_raw (left_ right_ : bytes) : outcome Z :=
  compare_loop (S (length left_)) (left_, 0) (right_, 0).

(** ** Specification: strings are encodings of Unicode scalar values *)

Definition scalar (cp : Z) : Prop := 0 <= cp <= 1114111 /\ ~ (55296 <= cp <= 57343).

Definition octets (cp : Z) : bytes := default [] (utf8_octets cp).

Definition utf8 (cps : list Z) : bytes := concat (map octets cps).

Definition utf8_valid (s : bytes) : Prop := exists cps, Forall scalar cps /\ s = utf8 cps.

(** The UTF-16 code units of a code point and of a string. *)
Definition code_units (cp : Z) : list Z :=
  if cp <=? 65535 then [cp]
  else [55296 + (cp - 65536) / 1024; 56320 + (cp - 65536) mod 1024].

Definition utf16 (cps : list Z) : list Z := concat (map code_units cps).

(** Lexicographic order, as the sign of a comparison. *)
Fixpoint lexcmp (a b : list Z) : Z :=
  match a, b with
  | [], [] => 0
  | [], _ => -1
  | _, [] => 1
  | x :: a, y :: b => if x <? y then -1 else if x >? y then 1 else lexcmp a b
  end.

(** The text between the quotes. *)
Definition esc_text (s : bytes) : bytes := concat (map escaped s).

(** Computations that report no error as [JSON_OK]. *)
Definition proper {A} (m : outcome A) : Prop := m <> Fail_ JSON_OK.

(** The sequences the parser accepts, by their octets. *)
Inductive sequence : Z -> Z -> bytes -> Prop :=
  | seq2 cp l x : 194 <= l <= 223 -> 128 <= x < 192 ->
      cp = (l - 192) * 64 + (x - 128) -> sequence 2 cp [l; x]
  | seq3 cp l x y : 224 <= l <= 239 -> 128 <= x < 192 -> 128 <= y < 192 ->
      cp = ((l - 224) * 64 + (x - 128)) * 64 + (y - 128) -> sequence 3 cp [l; x; y]
  | seq4 cp l x y z : 240 <= l <= 244 -> 128 <= x < 192 -> 128 <= y < 192 -> 128 <= z < 192 ->
      cp = (((l - 240) * 64 + (x - 128)) * 64 + (y - 128)) * 64 + (z - 128) ->
      sequence 4 cp [l; x; y; z].

(** The invariant of the loop: the text so far is valid, and [JSON_OK] is only
    in [status] once something has been appended. *)
Definition text_ok (b : buffer) (status : Z) : Prop :=
  utf8_valid (fst b) /\ (status = JSON_OK -> 1 <= len (esc_text (fst b))).

(** What the string parser returns for the input [rest], [slack] bytes of escaped
    text having been read before. *)
Definition string_result (slack : Z) (rest : bytes) (r : bytes * bytes) : Prop :=
  utf8_valid (fst r) /\ bytes_ok (snd r) /\
  len (esc_text (fst r)) + 1 + len (snd r) <= slack + len rest.

(** [m] ends, and a result satisfies [P]. *)
Definition ends {A} (m : outcome A) (P : A -> Prop) : Prop :=
  match m with
  | Done a => P a
  | Fail_ _ => True
  | Stuck => False
  end.

Definition grown (b : buffer) : Prop := 0 <= snd b.

(** A step of the string parser: the buffer, and input that is not longer. *)
Definition step_result (rest : bytes) (r : buffer * bytes) : Prop :=
  grown (fst r) /\ len (snd r) <= len rest.

(** The text [a b "c"] with an escaped newline and an emoji. *)
Definition sample_points : list Z := [97; 10; 34; 233; 128512].

(** The code units a cursor has not delivered yet. *)
Inductive cursor_rep : cursor -> list Z -> Prop :=
  | rep_between cps : Forall scalar cps -> cursor_rep (utf8 cps, 0) (utf16 cps)
  | rep_pending cps u : Forall scalar cps -> u <> 0 -> cursor_rep (utf8 cps, u) (u :: utf16 cps).

(** ASCII characters by the way they are escaped. *)
Inductive escape_kind : Z -> bytes -> Prop :=
  | plain x : 32 <= x < 128 -> x <> QUOTE -> x <> BACKSLASH -> escape_kind x [x]
  | short x k : In (x, k) [(34, 34); (92, 92); (8, 98); (12, 102); (10, 110); (13, 114); (9, 116)] ->
      escape_kind x [BACKSLASH; k]
  | hexed x : 0 <= x < 32 ->
      escape_kind x ([BACKSLASH; 117] ++
        [48; 48; hex_digit (Z.land (Z.shiftr x 4) 15); hex_digit (Z.land x 15)]).

(** ** Memory lemmas *)

Lemma grow_loop_ok n next required :
  0 < next -> required <= next * 2 ^ Z.of_nat n -> required < 2 ^ 40 ->
  exists r, grow_loop (S n) next required = Done r /\ 0 < r <= Z.max next (2 * required).
Proof.
  revert next. induction n as [|n IH]; intros next Hn Hr Hb.
  - cbn [grow_loop]. replace (next <? required) with false by (symmetry; lia).
    exists next. split; [done|lia].
  - remember (S n) as m eqn:Em. cbn [grow_loop]. subst m. destruct (next <? required) eqn:E; [|exists next; split; [done|lia]]. bool_hyps.
    replace (next >? SIZE_MAX / 2) with false
      by (symmetry; rewrite Z.gtb_ltb; apply Z.ltb_ge; change (SIZE_MAX / 2) with (2 ^ 63 - 1); lia).
    destruct (IH (next * 2)) as (r & -> & ?); [lia| |done|].
    + rewrite Nat2Z.inj_succ, Z.pow_succ_r in Hr by lia. lia.
    + exists r. split; [done|lia].
Qed.

Section Memory.
Context (malloc_ok : request -> bool) (Hmem : forall n, malloc_ok n = true).

Lemma checked_grow_ok size capacity required :
  0 <= size <= 1024 -> 0 <= capacity -> 0 <= required < 2 ^ 40 ->
  exists c, (forall a u, checked_grow malloc_ok a u size capacity required = Done c) /\ 0 <= c.
Proof.
  intros Hs Hc Hr. unfold checked_grow. destruct (required <=? capacity) eqn:E; [by eauto|].
  bool_hyps.
  destruct (grow_loop_ok 64 (if capacity =? 0 then 4 else capacity) required) as (r & -> & Hb).
  - destruct (capacity =? 0) eqn:?; bool_hyps; lia.
  - change (2 ^ Z.of_nat 64) with (2 ^ 64). destruct (capacity =? 0) eqn:?; bool_hyps; lia.
  - lia.
  - cbn [obind].
    assert (Hlt : negb (size =? 0) && (r >? SIZE_MAX / size) = false).
    { destruct (size =? 0) eqn:E0; [done|]. bool_hyps. cbn [negb andb].
      rewrite Z.gtb_ltb. apply Z.ltb_ge.
      assert (r < 2 ^ 42) by (destruct (capacity =? 0); lia).
      assert (SIZE_MAX / 1024 <= SIZE_MAX / size) by (apply Z.div_le_compat_l; [vm_compute; discriminate|lia]).
      change (SIZE_MAX / 1024) with (2 ^ 54 - 1) in *. lia. }
    rewrite Hlt. exists r. split; [|lia]. intros a u. by rewrite Hmem.
Qed.

Lemma append_byte_ok u s c x :
  0 <= c -> len s + 1 < 2 ^ 40 ->
  exists c', append_byte malloc_ok u (s, c) x = Done (s ++ [x], c') /\ 0 <= c'.
Proof.
  intros Hc Hl. pose proof (len_nonneg s). unfold append_byte.
  destruct (checked_grow_ok 1 c (len s + 1)) as (c' & -> & ?); [lia..|]. by exists c'.
Qed.

Lemma append_bytes_ok u s c l :
  0 <= c -> len s + len l < 2 ^ 40 ->
  exists c', append_bytes malloc_ok u (s, c) l = Done (s ++ l, c') /\ 0 <= c'.
Proof.
  revert s c. induction l as [|x l IH]; intros s c Hc Hl; cbn [append_bytes].
  - exists c. by rewrite app_nil_r.
  - rewrite len_cons in Hl. pose proof (len_nonneg l).
    destruct (append_byte_ok u s c x) as (c' & -> & Hc'); [lia..|]. cbn [obind].
    destruct (IH (s ++ [x]) c' Hc') as (c'' & -> & ?); [rewrite len_app, len_cons, len_nil; lia|].
    exists c''. by rewrite <- app_assoc.
Qed.
End Memory.

(** Reads inside the input. *)
Lemma byte_at_in rest i : 0 <= i < len rest -> byte_at rest i = Done (at_ rest i).
Proof. intros Hi. unfold byte_at. by repeat decide_if. Qed.

Lemma bytes_at_in rest n : n <= len rest -> bytes_at rest n = Done (sub 0 n rest).
Proof. intros Hn. unfold bytes_at. by decide_if. Qed.

Lemma byte_at_done rest i x : byte_at rest i = Done x -> x = at_ rest i /\ 0 <= i < len rest.
Proof. unfold byte_at. destruct (_ && _) eqn:E; [|done]. intros [= <-]. bool_hyps. done. Qed.

Lemma bytes_at_done rest n l : bytes_at rest n = Done l -> l = sub 0 n rest /\ n <= len rest.
Proof. unfold bytes_at. destruct (_ <=? _) eqn:E; [|done]. intros [= <-]. bool_hyps. done. Qed.

Lemma byte_at_proper rest i : proper (byte_at rest i).
Proof. unfold byte_at, proper. by destruct (_ && _). Qed.

Lemma bytes_at_proper rest n : proper (bytes_at rest n).
Proof. unfold bytes_at, proper. by destruct (_ <=? _). Qed.

(** Resolves the reads of the leading bytes of a list. *)
Ltac len_facts :=
  repeat match goal with
  | |- context [len ?l] =>
      assert_fails (assert (0 <= len l) by assumption); pose proof (len_nonneg l)
  end.

Ltac read_bytes :=
  rewrite !byte_at_in by (rewrite ?len_cons; len_facts; lia); cbn [obind].

Ltac read_bytes_in H :=
  repeat (rewrite byte_at_in in H by (rewrite ?len_cons; len_facts; lia); cbn [obind] in H).

(** Inversion of a successful computation. *)
Lemma obind_done {A B} (m : outcome A) (k : A -> outcome B) y :
  obind m k = Done y -> exists x, m = Done x /\ k x = Done y.
Proof. destruct m; simpl; try done. eauto. Qed.

Lemma fail_when_done {A} (c : bool) e (k : outcome A) y :
  (if c then Fail_ e else k) = Done y -> c = false /\ k = Done y.
Proof. by destruct c. Qed.

Lemma obind_proper {A B} (m : outcome A) (k : A -> outcome B) :
  proper m -> (forall x, proper (k x)) -> proper (obind m k).
Proof. unfold proper. intros Hm Hk. destruct m; simpl; [apply Hk|congruence|done]. Qed.

Lemma fail_when_proper {A} (c : bool) e (k : outcome A) :
  e <> JSON_OK -> proper k -> proper (if c then Fail_ e else k).
Proof. unfold proper. destruct c; congruence. Qed.

Lemma done_proper {A} (x : A) : proper (Done x).
Proof. done. Qed.

Lemma stuck_proper {A} : proper (@Stuck A).
Proof. done. Qed.

Create HintDb proper.
#[export] Hint Resolve done_proper stuck_proper byte_at_proper bytes_at_proper : proper.

Ltac prove_proper :=
  repeat first
    [ solve [eauto with proper]
    | progress cbv zeta
    | apply obind_proper; [|intros ?]
    | apply fail_when_proper; [done|]
    | match goal with
      | |- proper (Fail_ _) => intros [=]; done
      | |- proper (let '(_, _) := ?p in _) => destruct p
      | |- proper (match ?m with _ => _ end) => destruct m
      end ].

Section Proper.
Context (malloc_ok : request -> bool).

Lemma grow_loop_proper n next required : proper (grow_loop n next required).
Proof.
  revert next. induction n as [|n IH]; intros next; cbn [grow_loop]; [done|].
  destruct (_ <? _); [|done]. apply fail_when_proper; [done|apply IH].
Qed.

Lemma checked_grow_proper a u size c r : proper (checked_grow malloc_ok a u size c r).
Proof. unfold checked_grow. destruct (_ <=? _); [done|]. pose proof grow_loop_proper. prove_proper. Qed.

Lemma append_byte_proper u b x : proper (append_byte malloc_ok u b x).
Proof. pose proof checked_grow_proper. unfold append_byte. prove_proper. Qed.

Lemma append_bytes_proper u b l : proper (append_bytes malloc_ok u b l).
Proof.
  pose proof append_byte_proper.
  revert b. induction l; intros b; cbn [append_bytes]; [done|]. prove_proper.
Qed.
End Proper.
#[export] Hint Resolve checked_grow_proper append_byte_proper append_bytes_proper : proper.

(** ** UTF-8 *)

(** Linear arithmetic with quotients and remainders. *)
Ltac dlia := Z.to_euclidean_division_equations; lia.

Lemma continuation_byte x :
  byte_ok x -> Z.land x 192 = 128 -> 128 <= x < 192 /\ Z.land x 63 = x - 128.
Proof.
  intros Hx E. unfold byte_ok in Hx.
  use_range 256%nat (fun x => implb (Z.land x 192 =? 128)
    ((128 <=? x) && (x <? 192) && (Z.land x 63 =? x - 128))) x H.
  rewrite E in H. change (implb (128 =? 128) ?b) with b in H. bool_hyps. done.
Qed.

Lemma continuation_of y :
  0 <= y < 64 -> Z.land (128 + y) 192 = 128 /\ Z.land (128 + y) 63 = y.
Proof.
  intros Hy.
  use_range 64%nat (fun y => (Z.land (128 + y) 192 =? 128) && (Z.land (128 + y) 63 =? y)) y H.
  bool_hyps. done.
Qed.

Lemma lead_cases l :
  byte_ok l -> utf8_sequence_length l <> 0 ->
  194 <= l <= 223 /\ utf8_sequence_length l = 2 /\ lead_bits 2 l = l - 192 \/
  224 <= l <= 239 /\ utf8_sequence_length l = 3 /\ lead_bits 3 l = l - 224 \/
  240 <= l <= 244 /\ utf8_sequence_length l = 4 /\ lead_bits 4 l = l - 240.
Proof.
  intros Hl. unfold byte_ok in Hl.
  use_range 256%nat (fun l => (utf8_sequence_length l =? 0) ||
    ((194 <=? l) && (l <=? 223) && ((utf8_sequence_length l =? 2) && (lead_bits 2 l =? l - 192))) ||
    ((224 <=? l) && (l <=? 239) && ((utf8_sequence_length l =? 3) && (lead_bits 3 l =? l - 224))) ||
    ((240 <=? l) && (l <=? 244) && ((utf8_sequence_length l =? 4) && (lead_bits 4 l =? l - 240)))) l H.
  intros Hn. rewrite !orb_true_iff in H. destruct H as [[[H|H]|H]|H]; bool_hyps; [done|..].
  - left. split_and!; done.
  - right; left. split_and!; done.
  - right; right. split_and!; done.
Qed.

(** The octets of a code point, by arithmetic. *)
Lemma octets_spec cp :
  0 <= cp <= 1114111 ->
  octets cp =
    if cp <=? 127 then [cp]
    else if cp <=? 2047 then [192 + cp / 64; 128 + cp mod 64]
    else if cp <=? 65535 then [224 + cp / 4096; 128 + (cp / 64) mod 64; 128 + cp mod 64]
    else [240 + cp / 262144; 128 + (cp / 4096) mod 64; 128 + (cp / 64) mod 64; 128 + cp mod 64].
Proof.
  intros Hcp. unfold octets, utf8_octets. cbv zeta.
  assert (Htail : forall s, 0 <= s ->
    Z.lor 128 (Z.land (Z.shiftr cp s) 63) = 128 + (cp / 2 ^ s) mod 64).
  { intros s Hs. rewrite Z.shiftr_div_pow2 by done. change 63 with (Z.ones 6).
    rewrite Z.land_ones by lia. change (2 ^ 6) with 64.
    assert (0 <= (cp / 2 ^ s) mod 64 < 64) by (apply Z.mod_pos_bound; lia).
    generalize dependent ((cp / 2 ^ s) mod 64). intros y Hy.
    use_range 64%nat (fun y => Z.lor 128 y =? 128 + y) y H. by bool_hyps. }
  rewrite !Htail, !Z.shiftr_div_pow2 by lia.
  change (2 ^ 0) with 1. change (2 ^ 6) with 64. change (2 ^ 12) with 4096.
  change (2 ^ 18) with 262144. rewrite Z.div_1_r.
  destruct (cp <=? 127) eqn:?; [done|]. destruct (cp <=? 2047) eqn:?.
  { bool_hyps. cbn [from_option]; unfold id. assert (0 <= cp / 64 < 32) by dlia. f_equal.
    generalize dependent (cp / 64). intros y Hy.
    use_range 32%nat (fun y => u8 (Z.lor 192 y) =? 192 + y) y H. by bool_hyps. }
  destruct (cp <=? 65535) eqn:?.
  { bool_hyps. cbn [from_option]; unfold id. assert (0 <= cp / 4096 < 16) by dlia. f_equal.
    generalize dependent (cp / 4096). intros y Hy.
    use_range 16%nat (fun y => u8 (Z.lor 224 y) =? 224 + y) y H. by bool_hyps. }
  replace (cp <=? 1114111) with true by (symmetry; lia).
  bool_hyps. cbn [from_option]; unfold id. assert (0 <= cp / 262144 < 8) by dlia. f_equal.
  generalize dependent (cp / 262144). intros y Hy.
  use_range 8%nat (fun y => u8 (Z.lor 240 y) =? 240 + y) y H. by bool_hyps.
Qed.

(** One more continuation byte. *)
Lemma extend_codepoint v y :
  0 <= v < 2 ^ 20 -> 0 <= y < 64 -> u32 (Z.lor (Z.shiftl v 6) y) = v * 64 + y.
Proof.
  intros. rewrite (lor_disjoint_add v y 6) by lia. unfold u32. apply Z.mod_small. lia.
Qed.

(** The scalar test of the parser. *)
Lemma scalar_test cp n :
  (n = 2 /\ 128 <= cp < 2048) \/ (n = 3 /\ 2048 <= cp < 65536) \/ (n = 4 /\ 65536 <= cp < 2 ^ 21) ->
  ((n =? 2) && (cp <? 128)) || ((n =? 3) && (cp <? 2048)) || ((n =? 4) && (cp <? 65536)) ||
  (cp >? 1114111) || ((55296 <=? cp) && (cp <=? 57343)) = false <-> scalar cp.
Proof.
  unfold scalar. rewrite Z.gtb_ltb, !orb_false_iff, !andb_false_iff, !Z.eqb_neq, !Z.ltb_ge, !Z.leb_gt.
  lia.
Qed.

Lemma sequence_of cp :
  scalar cp -> 128 <= cp ->
  sequence (len (octets cp)) cp (octets cp).
Proof.
  intros [Hr Hs] Hlo. rewrite octets_spec by done.
  replace (cp <=? 127) with false by (symmetry; lia).
  destruct (cp <=? 2047) eqn:E2; [|destruct (cp <=? 65535) eqn:E3]; bool_hyps.
  - apply seq2; dlia.
  - apply seq3; dlia.
  - apply seq4; dlia.
Qed.

Lemma sequence_octets n cp l :
  sequence n cp l -> scalar cp -> 
  (n = 2 -> 128 <= cp) -> (n = 3 -> 2048 <= cp) -> (n = 4 -> 65536 <= cp) ->
  octets cp = l.
Proof.
  intros H [Hr _]. rewrite octets_spec by done. revert Hr. destruct H; intros Hr K2 K3 K4.
  - specialize (K2 eq_refl). repeat decide_if. f_equal; [|f_equal]; dlia.
  - specialize (K3 eq_refl). repeat decide_if. f_equal; [|f_equal; [|f_equal]]; dlia.
  - specialize (K4 eq_refl). repeat decide_if.
    f_equal; [|f_equal; [|f_equal; [|f_equal]]]; dlia.
Qed.

Lemma sequence_len n cp l : sequence n cp l -> len l = n /\ 2 <= n <= 4.
Proof. by destruct 1. Qed.

(** What the checked and the unchecked decoder read off a sequence. *)
Lemma sequence_decode n cp l rest :
  sequence n cp l ->
  utf8_sequence_length (at_ (l ++ rest) 0) = n /\ 128 <= at_ (l ++ rest) 0 /\
  continuation_loop (Z.to_nat (n - 1)) 1 (l ++ rest) (lead_bits n (at_ (l ++ rest) 0)) = Done cp /\
  utf8_next_loop (Z.to_nat (n - 1)) 1 (l ++ rest) (lead_bits n (at_ (l ++ rest) 0)) = Done cp.
Proof.
  assert (Hl : forall l, 194 <= l <= 244 -> byte_ok l /\ utf8_sequence_length l <> 0).
  { intros l' H. split; [unfold byte_ok; lia|]. unfold utf8_sequence_length. by repeat split_if; bool_hyps; try lia. }
  assert (Hc : forall x, 128 <= x < 192 -> Z.land x 192 = 128 /\ Z.land x 63 = x - 128).
  { intros x Hx. pose proof (continuation_of (x - 128) ltac:(lia)) as H.
    replace (128 + (x - 128)) with x in H by lia. done. }
  destruct 1 as [cp l x ? Hx ->|cp l x y ? Hx Hy ->|cp l x y z ? Hx Hy Hz ->];
    destruct (lead_cases l) as [(?&E&Eb)|[(?&E&Eb)|(?&E&Eb)]]; try apply Hl; try lia;
    cbn [app]; change (at_ (l :: ?r) 0) with l; rewrite E, Eb; cbn [Z.to_nat Z.sub Z.add Z.opp Z.pos_sub];
    (split; [done|split; [lia|]]).
  - change (Z.to_nat (2 - 1)) with 1%nat. cbn [continuation_loop utf8_next_loop]. read_bytes.
    change (at_ (l :: x :: rest) 1) with x.
    destruct (Hc x Hx) as [E1 ->]. rewrite E1. cbn [negb Z.eqb].
    rewrite extend_codepoint by lia. done.
  - change (Z.to_nat (3 - 1)) with 2%nat. cbn [continuation_loop utf8_next_loop]. read_bytes.
    change (1 + 1) with 2.
    change (at_ (l :: x :: y :: rest) 1) with x. change (at_ (l :: x :: y :: rest) 2) with y.
    destruct (Hc x Hx) as [E1 ->], (Hc y Hy) as [E2 ->]. rewrite E1, E2. cbn [negb Z.eqb].
    rewrite (extend_codepoint (l - 224)), extend_codepoint by lia. done.
  - change (Z.to_nat (4 - 1)) with 3%nat. cbn [continuation_loop utf8_next_loop]. read_bytes.
    change (1 + 1) with 2. change (2 + 1) with 3.
    change (at_ (l :: x :: y :: z :: rest) 1) with x.
    change (at_ (l :: x :: y :: z :: rest) 2) with y.
    change (at_ (l :: x :: y :: z :: rest) 3) with z.
    destruct (Hc x Hx) as [E1 ->], (Hc y Hy) as [E2 ->], (Hc z Hz) as [E3 ->].
    rewrite E1, E2, E3. cbn [negb Z.eqb].
    rewrite (extend_codepoint (l - 240)), (extend_codepoint (_ * 64 + _)), extend_codepoint by lia. done.
Qed.

(** The first [n] items of a list that has them. *)
Lemma first_items {A} (l : list A) (n : nat) :
  Z.of_nat n <= len l -> exists a b, l = a ++ b /\ length a = n.
Proof.
  intros H. exists (take n l), (drop n l). rewrite take_drop, length_take. unfold len in H.
  split; [done|lia].
Qed.

(** Whatever the checked decoder accepts is a sequence. *)
Lemma continuation_sequence rest n cp :
  bytes_ok rest -> n = utf8_sequence_length (at_ rest 0) -> n <> 0 -> n <= len rest ->
  continuation_loop (Z.to_nat (n - 1)) 1 rest (lead_bits n (at_ rest 0)) = Done cp ->
  exists l r, rest = l ++ r /\ sequence n cp l.
Proof.
  intros Hok En Hn Hlen H.
  destruct (lead_cases (at_ rest 0) (at_ok _ _ Hok) ltac:(congruence)) as
    [(Hl&E&Eb)|[(Hl&E&Eb)|(Hl&E&Eb)]]; rewrite E in En; subst n; rewrite Eb in H;
    [destruct (first_items rest 2 Hlen) as (a & b & -> & La)
    |destruct (first_items rest 3 Hlen) as (a & b & -> & La)
    |destruct (first_items rest 4 Hlen) as (a & b & -> & La)];
    exists a, b; (split; [done|]); apply bytes_ok_app in Hok as [Hok _]; unfold bytes_ok in Hok.
  - destruct a as [|l [|x [|]]]; try discriminate La. rewrite !Forall_cons_iff in Hok.
    change (Z.to_nat (2 - 1)) with 1%nat in H. cbn [continuation_loop app] in *. read_bytes_in H.
    change (at_ (l :: ?r) 0) with l in *. change (at_ (l :: x :: b) 1) with x in *.
    apply fail_when_done in H as [H1 H]. bool_hyps.
    destruct (continuation_byte x) as [? E1]; [tauto|done|].
    rewrite E1, extend_codepoint in H by lia. injection H as <-. by apply seq2.
  - destruct a as [|l [|x [|y [|]]]]; try discriminate La. rewrite !Forall_cons_iff in Hok.
    change (Z.to_nat (3 - 1)) with 2%nat in H. cbn [continuation_loop app] in *. read_bytes_in H.
    change (1 + 1) with 2 in *.
    change (at_ (l :: ?r) 0) with l in *. change (at_ (l :: x :: ?r) 1) with x in *.
    change (at_ (l :: x :: y :: ?r) 2) with y in *.
    apply fail_when_done in H as [H1 H]. apply fail_when_done in H as [H2 H]. bool_hyps.
    destruct (continuation_byte x) as [? E1]; [tauto|done|].
    destruct (continuation_byte y) as [? E2]; [tauto|done|].
    rewrite E1, E2, (extend_codepoint (l - 224)), extend_codepoint in H by lia. injection H as <-. by apply seq3.
  - destruct a as [|l [|x [|y [|z [|]]]]]; try discriminate La. rewrite !Forall_cons_iff in Hok.
    change (Z.to_nat (4 - 1)) with 3%nat in H. cbn [continuation_loop app] in *. read_bytes_in H.
    change (1 + 1) with 2 in *. change (2 + 1) with 3 in *.
    change (at_ (l :: ?r) 0) with l in *. change (at_ (l :: x :: ?r) 1) with x in *.
    change (at_ (l :: x :: y :: ?r) 2) with y in *. change (at_ (l :: x :: y :: z :: ?r) 3) with z in *.
    apply fail_when_done in H as [H1 H]. apply fail_when_done in H as [H2 H].
    apply fail_when_done in H as [H3 H]. bool_hyps.
    destruct (continuation_byte x) as [? E1]; [tauto|done|].
    destruct (continuation_byte y) as [? E2]; [tauto|done|].
    destruct (continuation_byte z) as [? E3]; [tauto|done|].
    rewrite E1, E2, E3, (extend_codepoint (l - 240)), (extend_codepoint (_ * 64 + _)),
      extend_codepoint in H by lia. injection H as <-. by apply seq4.
Qed.

Lemma drop_app_n {A} (a b : list A) n : n = len a -> drop (Z.to_nat n) (a ++ b) = b.
Proof. intros ->. unfold len. by rewrite Nat2Z.id, drop_app_length. Qed.

Section Characters.
Context (malloc_ok : request -> bool).

Lemma append_byte_inv u b x b' : append_byte malloc_ok u b x = Done b' -> fst b' = fst b ++ [x].
Proof.
  destruct b as [s c]. unfold append_byte. intros H.
  apply obind_done in H as (c' & _ & H). by injection H as <-.
Qed.

Lemma append_bytes_inv u b l b' : append_bytes malloc_ok u b l = Done b' -> fst b' = fst b ++ l.
Proof.
  revert b. induction l as [|x l IH]; intros b H; cbn [append_bytes] in H.
  - injection H as <-. by rewrite app_nil_r.
  - apply obind_done in H as (b1 & H1%append_byte_inv & H%IH).
    rewrite H, H1, <- app_assoc. done.
Qed.

(** A character beyond ASCII that the parser takes over is a scalar value. *)
Lemma append_valid_utf8_inv rest b b' rest' :
  bytes_ok rest -> append_valid_utf8 malloc_ok rest b = Done (b', rest') ->
  exists cp, scalar cp /\ 128 <= cp /\ rest = octets cp ++ rest' /\ fst b' = fst b ++ octets cp.
Proof.
  intros Hok H. unfold append_valid_utf8 in H. cbv zeta in H.
  apply obind_done in H as (lead & [-> _]%byte_at_done & H).
  apply fail_when_done in H as [Hn H]. bool_hyps.
  apply obind_done in H as (cp & Hc & H). apply fail_when_done in H as [Ht H].
  apply obind_done in H as (sq & [-> _]%bytes_at_done & H).
  apply obind_done in H as (b1 & Hb & H). injection H as -> <-.
  apply continuation_sequence in Hc as (l & r & -> & Hs); [|done..].
  destruct (sequence_len _ _ _ Hs) as [Hl Hn].
  rewrite sub_here in Hb by done. rewrite drop_app_n by done.
  assert (Hcp : (utf8_sequence_length (at_ (l ++ r) 0) = 2 /\ 128 <= cp < 2048) \/
                (utf8_sequence_length (at_ (l ++ r) 0) = 3 /\ 2048 <= cp < 65536) \/
                (utf8_sequence_length (at_ (l ++ r) 0) = 4 /\ 65536 <= cp < 2 ^ 21)).
  { revert Ht. clear - Hs. destruct Hs; subst; rewrite !orb_false_iff, !andb_false_iff;
      change (2 =? 2) with true; change (3 =? 3) with true; change (4 =? 4) with true;
      rewrite !Z.ltb_ge; intros Ht; [left|right; left|right; right]; (split; [done|]);
      destruct Ht as [[[[T2 T3] T4] _] _]; intuition (try discriminate; lia). }
  apply (proj1 (scalar_test _ _ Hcp)) in Ht.
  exists cp. assert (Ho : octets cp = l) by (apply (sequence_octets _ _ _ Hs Ht); lia). rewrite Ho.
  split; [done|split; [lia|split; [done|by apply append_bytes_inv in Hb]]].
Qed.

Lemma octets_len_cases cp :
  scalar cp -> 128 <= cp ->
  (len (octets cp) = 2 /\ 128 <= cp < 2048) \/ (len (octets cp) = 3 /\ 2048 <= cp < 65536) \/
  (len (octets cp) = 4 /\ 65536 <= cp < 2 ^ 21).
Proof.
  intros [Hr _] Hlo. rewrite octets_spec by done.
  replace (cp <=? 127) with false by (symmetry; lia).
  destruct (cp <=? 2047) eqn:?; [|destruct (cp <=? 65535) eqn:?]; bool_hyps;
    [left|right; left|right; right]; (split; [done|lia]).
Qed.

(** The encoding of a scalar value is taken over. *)
Lemma append_valid_utf8_octets cp rest b :
  scalar cp -> 128 <= cp ->
  append_valid_utf8 malloc_ok (octets cp ++ rest) b
  = let? b := append_bytes malloc_ok (len (octets cp ++ rest)) b (octets cp) in Done (b, rest).
Proof.
  intros Hs Hlo. pose proof (sequence_of cp Hs Hlo) as Hq.
  destruct (sequence_len _ _ _ Hq) as [_ Hn].
  destruct (sequence_decode _ _ _ rest Hq) as (E1 & _ & E2 & _).
  pose proof (len_nonneg rest). unfold append_valid_utf8. cbv zeta.
  rewrite byte_at_in by (rewrite len_app; lia). cbn [obind]. rewrite E1, E2. cbn [obind].
  replace (len (octets cp) =? 0) with false by (symmetry; lia).
  replace (len (octets cp ++ rest) <? len (octets cp)) with false
    by (symmetry; rewrite len_app; lia).
  cbn [orb]. rewrite (proj2 (scalar_test cp (len (octets cp)) (octets_len_cases cp Hs Hlo))) by done.
  rewrite bytes_at_in by (rewrite len_app; lia). cbn [obind]. rewrite sub_here by done. by rewrite drop_app_n.
Qed.
End Characters.

Lemma octets_ascii cp : 0 <= cp < 128 -> octets cp = [cp].
Proof. intros. rewrite octets_spec by lia. by decide_if. Qed.

(** The unchecked decoder reads back what the encoder wrote. *)
Lemma utf8_next_octets cp rest : scalar cp -> utf8_next (octets cp ++ rest) = Done (cp, rest).
Proof.
  intros Hs. unfold utf8_next. cbv zeta. destruct (Z.lt_ge_cases cp 128) as [Hlo|Hlo].
  - rewrite octets_ascii by (destruct Hs; lia). cbn [app]. read_bytes.
    change (at_ (cp :: rest) 0) with cp. decide_if. done.
  - pose proof (sequence_of cp Hs Hlo) as Hq. destruct (sequence_len _ _ _ Hq) as [_ Hn].
    destruct (sequence_decode _ _ _ rest Hq) as (E1 & El & _ & E2).
    pose proof (len_nonneg rest).
    rewrite byte_at_in by (rewrite len_app; lia). cbn [obind].
    replace (at_ (octets cp ++ rest) 0 <? 128) with false by (symmetry; lia).
    rewrite E1, E2. cbn [obind].
    replace (len (octets cp) =? 0) with false by (symmetry; lia).
    replace (len (octets cp ++ rest) <? len (octets cp)) with false
      by (symmetry; rewrite len_app; lia).
    cbn [orb]. by rewrite drop_app_n.
Qed.

(** The bytes of a character beyond ASCII. *)
Lemma octets_high cp : scalar cp -> 128 <= cp -> Forall (fun x => 128 <= x < 256) (octets cp).
Proof.
  intros Hs Hlo. destruct (sequence_of cp Hs Hlo); repeat constructor; lia.
Qed.

Lemma octets_len cp : scalar cp -> 1 <= len (octets cp) <= 4.
Proof.
  intros Hs. destruct (Z.lt_ge_cases cp 128) as [Hlo|Hlo].
  - rewrite octets_ascii by (destruct Hs; lia). rewrite len_cons, len_nil. lia.
  - destruct (sequence_len _ _ _ (sequence_of cp Hs Hlo)). lia.
Qed.

(** ** The order of keys *)

Lemma lexcmp_refl a : lexcmp a a = 0.
Proof. induction a as [|x a IH]; cbn [lexcmp]; [done|]. rewrite Z.gtb_ltb, Z.ltb_irrefl. done. Qed.

Lemma lexcmp_eq a b : lexcmp a b = 0 -> a = b.
Proof.
  revert b. induction a as [|x a IH]; intros [|y b]; cbn [lexcmp]; try done.
  repeat split_if; try done. intros H%IH. bool_hyps. f_equal; [lia|done].
Qed.

Lemma lexcmp_opp a b : lexcmp b a = - lexcmp a b.
Proof.
  revert b. induction a as [|x a IH]; intros [|y b]; cbn [lexcmp]; try done.
  repeat split_if; bool_hyps; try done; lia.
Qed.

Lemma lexcmp_trans a b c : lexcmp a b < 0 -> lexcmp b c < 0 -> lexcmp a c < 0.
Proof.
  revert b c. induction a as [|x a IH]; intros [|y b] [|z c]; cbn [lexcmp]; try done; try lia.
  repeat split_if; bool_hyps; try lia. apply IH.
Qed.

Lemma utf8_cons cp cps : utf8 (cp :: cps) = octets cp ++ utf8 cps.
Proof. done. Qed.

Lemma utf16_cons cp cps : utf16 (cp :: cps) = code_units cp ++ utf16 cps.
Proof. done. Qed.

Lemma length_code_units cp : scalar cp -> (length (code_units cp) <= length (octets cp))%nat.
Proof.
  intros Hs. unfold code_units. pose proof (octets_len cp Hs) as Hl. unfold len in Hl.
  destruct (cp <=? 65535) eqn:E; cbn [length]; [lia|]. bool_hyps.
  destruct (octets_len_cases cp Hs ltac:(lia)) as [?|[?|[Hc _]]]; [lia|lia|].
  unfold len in Hc. lia.
Qed.

Lemma length_utf16 cps : Forall scalar cps -> (length (utf16 cps) <= length (utf8 cps))%nat.
Proof.
  induction 1 as [|cp cps Hs _ IH]; [done|].
  rewrite utf8_cons, utf16_cons, !length_app. pose proof (length_code_units cp Hs). lia.
Qed.

Lemma at_end_rep c us : cursor_rep c us -> at_end c = match us with [] => true | _ => false end.
Proof.
  destruct 1 as [cps Hs|cps u Hs Hu]; unfold at_end; cbn [fst snd].
  - destruct Hs as [|cp cps Hs _]; [done|]. rewrite utf8_cons, utf16_cons, len_app.
    pose proof (octets_len cp Hs). pose proof (len_nonneg (utf8 cps)).
    replace (len (octets cp) + len (utf8 cps) =? 0) with false by (symmetry; lia).
    unfold code_units. by destruct (cp <=? 65535).
  - rewrite (proj2 (Z.eqb_neq u 0) Hu). apply andb_false_r.
Qed.

Lemma next_rep c u us :
  cursor_rep c (u :: us) -> exists c', next_utf16_unit c = Done (u, c') /\ cursor_rep c' us.
Proof.
  intros H. inversion H as [cps Hs Hc E|cps u' Hs Hu Hc E]; subst.
  - destruct Hs as [|cp cps Hcp Hs]; [done|]. rewrite utf16_cons in E.
    unfold next_utf16_unit. cbn [negb Z.eqb].
    rewrite utf8_cons, utf8_next_octets by done. cbn [obind].
    destruct Hcp as [Hr Hn]. unfold code_units in E. destruct (cp <=? 65535) eqn:E1; bool_hyps.
    + injection E as <- <-. unfold u16. rewrite Z.mod_small by lia.
      eexists. split; [done|by constructor].
    + injection E as <- <-.
      assert (Z.land (cp - 65536) 1023 = (cp - 65536) mod 1024) as ->
        by (change 1023 with (Z.ones 10); rewrite Z.land_ones by lia; done).
      rewrite Z.shiftr_div_pow2 by lia. change (2 ^ 10) with 1024.
      unfold u16. rewrite !Z.mod_small by dlia.
      eexists. split; [done|]. constructor; [done|dlia].
  - unfold next_utf16_unit. rewrite (proj2 (Z.eqb_neq u 0) Hu). cbn [negb].
    eexists. split; [done|by constructor].
Qed.

Lemma compare_loop_spec n l r ul ur :
  cursor_rep l ul -> cursor_rep r ur -> (length ul < n)%nat ->
  compare_loop n l r = Done (lexcmp ul ur).
Proof.
  revert l r ul ur. induction n as [|n IH]; intros l r ul ur Hl Hr Hn; [lia|].
  cbn [compare_loop]. rewrite (at_end_rep _ _ Hl), (at_end_rep _ _ Hr).
  destruct ul as [|u ul], ur as [|v ur]; try done.
  destruct (next_rep _ _ _ Hl) as (l' & -> & Hl'), (next_rep _ _ _ Hr) as (r' & -> & Hr'). cbn [obind].
  cbn [lexcmp]. destruct (u <? v); [done|]. destruct (u >? v); [done|].
  apply IH; [done..|]. cbn [length] in Hn. lia.
Qed.

(** The comparison of keys is the lexicographic order of their UTF-16 code units. *)
Lemma compare_keys_spec a b :
  Forall scalar a -> Forall scalar b ->
  compare_keys_raw (utf8 a) (utf8 b) = Done (lexcmp (utf16 a) (utf16 b)).
Proof.
  intros Ha Hb. unfold compare_keys_raw. apply compare_loop_spec; [by constructor..|].
  pose proof (length_utf16 a Ha). lia.
Qed.

Lemma code_units_inj x y a b :
  scalar x -> scalar y -> code_units x ++ a = code_units y ++ b -> x = y /\ a = b.
Proof.
  intros [Hx Nx] [Hy Ny]. unfold code_units.
  destruct (x <=? 65535) eqn:E1, (y <=? 65535) eqn:E2; bool_hyps; cbn [app]; intros [=].
  - done.
  - exfalso. dlia.
  - exfalso. dlia.
  - split; [dlia|done].
Qed.

Lemma utf16_inj a b : Forall scalar a -> Forall scalar b -> utf16 a = utf16 b -> a = b.
Proof.
  intros Ha. revert b. induction Ha as [|x a Hx Ha IH]; intros b Hb E; destruct Hb as [|y b Hy Hb].
  - done.
  - rewrite utf16_cons in E. unfold code_units in E. by destruct (y <=? 65535).
  - rewrite utf16_cons in E. unfold code_units in E. by destruct (x <=? 65535).
  - rewrite !utf16_cons in E. apply code_units_inj in E as [-> E]; [|done..].
    f_equal. by apply IH.
Qed.

(** ** Escaping *)

Lemma esc_text_app a b : esc_text (a ++ b) = esc_text a ++ esc_text b.
Proof. unfold esc_text. by rewrite map_app, concat_app. Qed.

Lemma escaped_plain x : 32 <= x -> x <> QUOTE -> x <> BACKSLASH -> escaped x = [x].
Proof. unfold escaped, QUOTE, BACKSLASH. intros. by repeat decide_if. Qed.

Lemma esc_text_high l : Forall (fun x => 128 <= x < 256) l -> esc_text l = l.
Proof.
  induction 1 as [|x l Hx _ IH]; [done|]. unfold esc_text in *. cbn [map concat].
  rewrite IH, escaped_plain by (unfold QUOTE, BACKSLASH; lia). done.
Qed.

Lemma escaped_len x : 1 <= len (escaped x) <= 6.
Proof. unfold escaped. repeat split_if; unfold len; cbn [length]; lia. Qed.

Lemma esc_octets_len cp : scalar cp -> 1 <= len (esc_text (octets cp)) <= 6.
Proof.
  intros Hs. destruct (Z.lt_ge_cases cp 128) as [Hlo|Hlo].
  - rewrite octets_ascii by (destruct Hs; lia). unfold esc_text. cbn [map concat].
    rewrite app_nil_r. apply escaped_len.
  - rewrite esc_text_high by by apply octets_high. pose proof (octets_len cp Hs). lia.
Qed.

Lemma escape_cases x : 0 <= x < 128 -> escape_kind x (escaped x).
Proof.
  intros Hx. unfold escaped, QUOTE, BACKSLASH.
  repeat match goal with
  | |- escape_kind _ (if ?x =? ?c then _ else _) =>
      let E := fresh "E" in destruct (x =? c) eqn:E;
      [apply Z.eqb_eq in E; subst; apply short; cbn; tauto|]
  end.
  bool_hyps. destruct (x <? 32) eqn:E6; bool_hyps.
  - apply hexed. lia.
  - apply plain; unfold QUOTE, BACKSLASH; lia.
Qed.

Lemma hex_loop_app n i a b v :
  0 <= i -> i + Z.of_nat n <= len a -> hex_loop n i (a ++ b) v = hex_loop n i a v.
Proof.
  revert i v. induction n as [|n IH]; intros i v Hi Hl; cbn [hex_loop]; [done|].
  assert (E : at_ (a ++ b) i = at_ a i).
  { unfold at_. rewrite app_nth1; [done|]. unfold len in Hl. lia. }
  pose proof (len_nonneg b). rewrite !byte_at_in by (rewrite ?len_app; lia). cbn [obind].
  rewrite E, IH by lia. done.
Qed.

Lemma hex_quad_low x rest :
  0 <= x < 32 ->
  parse_hex_quad ([48; 48; hex_digit (Z.land (Z.shiftr x 4) 15); hex_digit (Z.land x 15)] ++ rest)
  = Done (x, rest).
Proof.
  intros Hx. unfold parse_hex_quad. rewrite hex_loop_app by (unfold len; cbn; lia).
  pose proof (len_nonneg rest).
  replace (_ <? 4) with false by (symmetry; rewrite len_app, !len_cons, len_nil; lia).
  use_range 32%nat (fun x => match hex_loop 4 0 [48; 48; hex_digit (Z.land (Z.shiftr x 4) 15);
    hex_digit (Z.land x 15)] 0 with Done v => v =? x | _ => false end) x E.
  destruct (hex_loop _ _ _ _); try done. by apply Z.eqb_eq in E as ->.
Qed.

(** ** The string parser reads back what the writer escapes *)

Section Strings.
Context (malloc_ok : request -> bool).

Lemma leave_string_fail e rest : e <> JSON_OK -> leave_string e rest = Fail_ e.
Proof. unfold leave_string, JSON_OK. intros. by decide_if. Qed.

Ltac append_cases :=
  match goal with |- context [append_byte malloc_ok ?u ?b ?x] =>
    let H := fresh in
    pose proof (append_byte_proper malloc_ok u b x) as H; unfold proper in H;
    destruct (append_byte malloc_ok u b x); cbn [obind]
  end;
  [done|apply leave_string_fail; congruence|done].

(** One ASCII character. *)
Lemma string_step_ascii n x rest b status :
  0 <= x < 128 ->
  string_loop malloc_ok (S n) (escaped x ++ rest) b status
  = match append_byte malloc_ok (len rest) b x with
    | Done b => string_loop malloc_ok n rest b JSON_OK
    | Fail_ e => Fail_ e
    | Stuck => Stuck
    end.
Proof.
  intros Hx. destruct (escape_cases x Hx) as [x Hr Hq Hb|x k Hk|x Hr]; cbn [app string_loop].
  - rewrite (proj2 (Z.eqb_neq x QUOTE) Hq), (proj2 (Z.eqb_neq x BACKSLASH) Hb).
    repeat decide_if. cbn [negb]. append_cases.
  - repeat match type of Hk with In _ (_ :: _) => destruct Hk as [[= <- <-]|Hk] end; [..|done];
      unfold escape; cbn [negb andb orb Z.eqb Z.ltb Z.leb Z.compare Pos.eqb Pos.compare
        Pos.compare_cont QUOTE BACKSLASH]; append_cases.
  - change (BACKSLASH =? QUOTE) with false. change (BACKSLASH <? 32) with false.
    change (128 <=? BACKSLASH) with false. rewrite Z.eqb_refl. cbn [negb].
    unfold escape. change (117 =? QUOTE) with false. change (117 =? BACKSLASH) with false.
    cbn [orb Z.eqb Pos.eqb]. unfold unicode_escape.
    change (?a :: ?b :: ?c :: ?d :: rest) with ([a; b; c; d] ++ rest).
    rewrite hex_quad_low by done. cbn [obind].
    replace (55296 <=? x) with false by (symmetry; lia).
    replace (56320 <=? x) with false by (symmetry; lia). cbn [andb obind].
    unfold append_utf8. assert (Eo : utf8_octets x = Some [x])
      by (unfold utf8_octets; cbv zeta; by decide_if).
    rewrite Eo. cbn [append_bytes]. append_cases.
Qed.
End Strings.

Section Roundtrip.
Context (malloc_ok : request -> bool) (Hmem : forall n, malloc_ok n = true).

(** The loop takes over an escaped text, whatever follows. *)
Lemma string_loop_prefix cps n acc c status rest :
  Forall scalar cps -> 0 <= c -> len acc + len (utf8 cps) < 2 ^ 40 ->
  exists c', 0 <= c' /\
    string_loop malloc_ok (length cps + n) (esc_text (utf8 cps) ++ rest) (acc, c) status
    = string_loop malloc_ok n rest (acc ++ utf8 cps, c') (match cps with [] => status | _ => JSON_OK end).
Proof.
  intros Hs. revert acc c status. induction Hs as [|cp cps Hcp Hs IH]; intros acc c status Hc Hl.
  - exists c. cbn [length Nat.add utf8 map concat esc_text app]. by rewrite app_nil_r.
  - rewrite utf8_cons in *. rewrite len_app in Hl. rewrite esc_text_app, <- app_assoc.
    pose proof (len_nonneg (utf8 cps)). cbn [length Nat.add].
    rewrite (app_assoc acc). destruct (Z.lt_ge_cases cp 128) as [Hlo|Hlo].
    + assert (Hr : 0 <= cp < 128) by (destruct Hcp; lia). rewrite octets_ascii in * by done.
      unfold esc_text at 1. cbn [map concat]. setoid_rewrite app_nil_r.
      rewrite string_step_ascii by done. rewrite len_cons, len_nil in Hl.
      destruct (append_byte_ok malloc_ok Hmem (len (esc_text (utf8 cps) ++ rest)) acc c cp) as (c' & -> & Hc'); [lia..|].
      destruct (IH (acc ++ [cp]) c' JSON_OK Hc') as (c2 & Hc2 & E2);
        [rewrite len_app, len_cons, len_nil; lia|].
      exists c2. split; [done|]. rewrite E2. by destruct cps.
    + pose proof (octets_high cp Hcp Hlo) as Hh. pose proof (octets_len cp Hcp) as Hol.
      rewrite esc_text_high by done.
      destruct (append_bytes_ok malloc_ok Hmem (len (octets cp ++ esc_text (utf8 cps) ++ rest)) acc c (octets cp)) as (c' & Ea & Hc'); [lia..|].
      pose proof (append_valid_utf8_octets malloc_ok cp
        (esc_text (utf8 cps) ++ rest) (acc, c) Hcp Hlo) as Ev.
      rewrite Ea in Ev. cbn [obind] in Ev.
      destruct (octets cp) as [|x l] eqn:Eo; [rewrite len_nil in Hol; lia|].
      apply Forall_cons_iff in Hh as [Hx _]. cbn [app string_loop].
      change (x :: l ++ ?r) with ((x :: l) ++ r). rewrite Ev.
      unfold QUOTE at 1. repeat decide_if.
      destruct (IH (acc ++ x :: l) c' JSON_OK Hc') as (c2 & Hc2 & E2); [rewrite len_app; lia|].
      exists c2. split; [done|]. rewrite E2. by destruct cps.
Qed.

Lemma string_loop_text cps n acc c status rest :
  Forall scalar cps -> 0 <= c -> (length cps < n)%nat -> len acc + len (utf8 cps) < 2 ^ 40 ->
  string_loop malloc_ok n (esc_text (utf8 cps) ++ QUOTE :: rest) (acc, c) status
  = Done (acc ++ utf8 cps, rest).
Proof.
  intros Hs Hc Hn Hl. replace n with (length cps + S (n - length cps - 1))%nat by lia.
  destruct (string_loop_prefix cps (S (n - length cps - 1)) acc c status (QUOTE :: rest) Hs Hc Hl)
    as (c' & _ & ->). cbn [string_loop]. by rewrite Z.eqb_refl.
Qed.

Lemma length_utf8 cps : Forall scalar cps -> (length cps <= length (utf8 cps))%nat.
Proof.
  induction 1 as [|cp cps Hs _ IH]; [done|]. rewrite utf8_cons, length_app. cbn [length].
  pose proof (octets_len cp Hs) as Hl. unfold len in Hl. lia.
Qed.

Lemma esc_text_len s : (length s <= length (esc_text s))%nat.
Proof.
  induction s as [|x s IH]; [done|]. unfold esc_text in *. cbn [map concat]. rewrite length_app.
  pose proof (escaped_len x) as Hx. unfold len in Hx. cbn [length]. lia.
Qed.

(** A string literal is read back, wherever it stands. *)
Lemma parse_string_text s rest :
  utf8_valid s -> len s < 2 ^ 40 ->
  parse_string_bytes malloc_ok (QUOTE :: esc_text s ++ QUOTE :: rest) = Done (s, rest).
Proof.
  intros (cps & Hs & ->) Hl. unfold parse_string_bytes. rewrite Z.eqb_refl.
  rewrite string_loop_text; [done|done|lia| |rewrite len_nil; lia].
  rewrite length_app. pose proof (length_utf8 cps Hs). pose proof (esc_text_len (utf8 cps)).
  cbn [length]. lia.
Qed.
(** A literal that is never closed is read as the empty string. *)
Lemma parse_string_unclosed s :
  utf8_valid s -> s <> [] -> len s < 2 ^ 40 ->
  parse_string_bytes malloc_ok (QUOTE :: esc_text s) = Done ([], []).
Proof.
  intros (cps & Hs & ->) Hne Hl. unfold parse_string_bytes. rewrite Z.eqb_refl.
  pose proof (length_utf8 cps Hs). pose proof (esc_text_len (utf8 cps)).
  replace (S (length (esc_text (utf8 cps))))
    with (length cps + S (length (esc_text (utf8 cps)) - length cps))%nat by lia.
  rewrite <- (app_nil_r (esc_text (utf8 cps))) at 2.
  destruct (string_loop_prefix cps (S (length (esc_text (utf8 cps)) - length cps)) [] 0
    JSON_ERR_SYNTAX [] Hs ltac:(lia) ltac:(rewrite len_nil; lia)) as (c' & _ & ->).
  cbn [string_loop]. by destruct cps.
Qed.
End Roundtrip.

(** ** What the string parser returns *)

Lemma utf8_valid_nil : utf8_valid [].
Proof. by exists []. Qed.

Lemma utf8_valid_snoc s cp : utf8_valid s -> scalar cp -> utf8_valid (s ++ octets cp).
Proof.
  intros (cps & Hs & ->) Hcp. exists (cps ++ [cp]). split.
  - apply Forall_app. split; [done|]. by constructor.
  - unfold utf8. rewrite map_app, concat_app. cbn [map concat]. by rewrite app_nil_r.
Qed.

Lemma bytes_ok_drop n b : bytes_ok b -> bytes_ok (drop n b).
Proof. apply Forall_drop. Qed.

Lemma hex_loop_bound n i rest v v' k :
  0 <= v < 16 ^ Z.of_nat k -> (k + n <= 8)%nat -> hex_loop n i rest v = Done v' ->
  0 <= v' < 16 ^ Z.of_nat (k + n).
Proof.
  revert i v k. induction n as [|n IH]; intros i v k Hv Hk H; cbn [hex_loop] in H.
  - injection H as <-. by rewrite Nat.add_0_r.
  - apply obind_done in H as (x & [-> _]%byte_at_done & H).
    apply fail_when_done in H as [Hd H]. bool_hyps.
    assert (hex_value (at_ rest i) < 16) by (unfold hex_value; repeat split_if; bool_hyps; lia).
    replace (k + S n)%nat with (S k + n)%nat by lia. apply (IH _ _ (S k)) in H; [done| |lia].
    rewrite (lor_disjoint_add _ _ 4) by lia.
    assert (16 * 16 ^ Z.of_nat k <= 2 ^ 32).
    { rewrite <- Z.pow_succ_r by lia. change (2 ^ 32) with (16 ^ 8). apply Z.pow_le_mono_r; lia. }
    unfold u32. rewrite Z.mod_small by lia. rewrite Nat2Z.inj_succ, Z.pow_succ_r by lia. lia.
Qed.

Lemma parse_hex_quad_inv rest v rest' :
  parse_hex_quad rest = Done (v, rest') ->
  0 <= v < 65536 /\ rest' = drop 4 rest /\ len rest' = len rest - 4.
Proof.
  unfold parse_hex_quad. intros H. apply fail_when_done in H as [Hl H]. bool_hyps.
  apply obind_done in H as (v' & Hv & H). injection H as <- <-.
  apply (hex_loop_bound 4 0 rest 0 v' 0) in Hv; [|done|lia].
  split; [exact Hv|]. split; [done|]. rewrite len_drop. lia.
Qed.

(** An escape denotes a scalar value. *)
Lemma unicode_escape_inv rest cp rest' :
  bytes_ok rest -> unicode_escape rest = Done (cp, rest') ->
  scalar cp /\ bytes_ok rest' /\ len rest' + 4 <= len rest.
Proof.
  intros Hok H. unfold unicode_escape in H. apply obind_done in H as ([v r] & H1 & H).
  apply parse_hex_quad_inv in H1 as (Hv & -> & Hl).
  destruct ((55296 <=? v) && (v <=? 56319)) eqn:Es.
  - apply fail_when_done in H as [_ H].
    apply obind_done in H as (x & _ & H). apply fail_when_done in H as [_ H].
    apply obind_done in H as (y & _ & H). apply fail_when_done in H as [_ H].
    destruct (parse_hex_quad (drop 2 (drop 4 rest))) as [[low r2]| |] eqn:H2; try done.
    apply parse_hex_quad_inv in H2 as (Hv2 & -> & Hl2).
    apply fail_when_done in H as [Hb H]. injection H as <- <-. rewrite Z.gtb_ltb in Hb. bool_hyps.
    split; [|split; [by repeat apply bytes_ok_drop|]].
    + rewrite Z.shiftl_mul_pow2 by lia. change (2 ^ 10) with 1024. unfold u32.
      rewrite Z.mod_small by lia. unfold scalar. lia.
    + rewrite Hl2, len_drop. pose proof (len_nonneg rest). lia.
  - apply fail_when_done in H as [Hb H]. injection H as <- <-.
    apply andb_false_iff in Es, Hb. rewrite !Z.leb_gt in Es, Hb.
    split; [unfold scalar; lia|]. split; [by apply bytes_ok_drop|lia].
Qed.

Section Soundness.
Context (malloc_ok : request -> bool).

(** An escape appends a scalar value that is not longer when it is escaped again. *)
Lemma escape_inv byte rest b b' rest' :
  bytes_ok rest -> escape malloc_ok byte rest b = Done (b', rest') ->
  exists cp, scalar cp /\ fst b' = fst b ++ octets cp /\ bytes_ok rest' /\
    len (esc_text (octets cp)) + len rest' <= len rest + 2.
Proof.
  intros Hok H. unfold escape in H.
  assert (Hone : forall x, 0 <= x < 128 -> len (escaped x) <= 2 ->
    (let? b := append_byte malloc_ok (len rest) b x in Done (b, rest)) = Done (b', rest') ->
    exists cp, scalar cp /\ fst b' = fst b ++ octets cp /\ bytes_ok rest' /\
      len (esc_text (octets cp)) + len rest' <= len rest + 2).
  { intros x Hx He Hr. apply obind_done in Hr as (b1 & Hb%append_byte_inv & Hr).
    injection Hr as <- <-. exists x. rewrite octets_ascii by done.
    unfold esc_text. cbn [map concat]. rewrite app_nil_r.
    split; [unfold scalar; lia|]. split; [done|]. split; [done|lia]. }
  destruct ((byte =? QUOTE) || (byte =? BACKSLASH) || (byte =? 47)) eqn:E.
  { rewrite !orb_true_iff, !Z.eqb_eq in E. unfold QUOTE, BACKSLASH in E.
    apply (Hone byte); [lia| |exact H].
    destruct E as [[->| ->]| ->]; vm_compute; discriminate. }
  destruct (byte =? 98); [by apply (Hone 8); [lia|vm_compute; discriminate|]|].
  destruct (byte =? 102); [by apply (Hone 12); [lia|vm_compute; discriminate|]|].
  destruct (byte =? 110); [by apply (Hone 10); [lia|vm_compute; discriminate|]|].
  destruct (byte =? 114); [by apply (Hone 13); [lia|vm_compute; discriminate|]|].
  destruct (byte =? 116); [by apply (Hone 9); [lia|vm_compute; discriminate|]|].
  destruct (byte =? 117); [|done].
  apply obind_done in H as ([cp r] & Hu & H). apply obind_done in H as (b1 & Hb & H).
  injection H as <- <-. apply unicode_escape_inv in Hu as (Hs & Hr & Hl); [|done].
  exists cp. split; [done|]. pose proof (esc_octets_len cp Hs).
  unfold append_utf8 in Hb. unfold octets in *.
  destruct (utf8_octets cp) as [l|] eqn:Eo; [|done]. apply append_bytes_inv in Hb.
  split; [done|]. split; [done|]. lia.
Qed.

Lemma unicode_escape_proper rest : proper (unicode_escape rest).
Proof.
  assert (Hh : forall n i r v, proper (hex_loop n i r v)).
  { induction n as [|n IH]; intros i r v; cbn [hex_loop]; prove_proper. }
  assert (Hq : forall r, proper (parse_hex_quad r)) by (intros; unfold parse_hex_quad; prove_proper).
  unfold unicode_escape. prove_proper.
Qed.

Lemma append_utf8_proper u b cp : proper (append_utf8 malloc_ok u b cp).
Proof. unfold append_utf8. prove_proper. Qed.

Lemma escape_proper byte rest b : proper (escape malloc_ok byte rest b).
Proof. pose proof unicode_escape_proper. pose proof append_utf8_proper. unfold escape. prove_proper. Qed.

Lemma append_valid_utf8_proper rest b : proper (append_valid_utf8 malloc_ok rest b).
Proof.
  assert (Hc : forall n i r v, proper (continuation_loop n i r v)).
  { induction n as [|n IH]; intros i r v; cbn [continuation_loop]; prove_proper. }
  unfold append_valid_utf8. prove_proper.
Qed.

Lemma leave_string_proper status rest : proper (leave_string status rest).
Proof.
  unfold leave_string, proper. destruct (_ =? _) eqn:E; [done|]. bool_hyps. congruence.
Qed.

Lemma parse_string_proper rest : proper (parse_string_bytes malloc_ok rest).
Proof.
  assert (Hl : forall n r b st, proper (string_loop malloc_ok n r b st)).
  { induction n as [|n IH]; intros r b st; cbn [string_loop]; [done|].
    pose proof leave_string_proper.
    assert (Hc : forall m : outcome (buffer * bytes), proper match m with
      | Done (b, rest) => string_loop malloc_ok n rest b JSON_OK
      | Fail_ status => leave_string status r
      | Stuck => Stuck
      end) by (intros [[]| |]; auto with proper).
    destruct r as [|x r]; [done|].
    destruct (_ =? QUOTE); [done|]. destruct (_ <? 32); [done|]. destruct (128 <=? x); [apply Hc|].
    destruct (negb _); [apply Hc|]. destruct r; [done|apply Hc]. }
  unfold parse_string_bytes. prove_proper.
Qed.

Lemma leave_string_result b status rest rest0 r :
  text_ok b status -> bytes_ok rest -> len rest <= len rest0 ->
  leave_string status rest = Done r -> string_result (len (esc_text (fst b))) rest0 r.
Proof.
  intros [_ Hs] Hok Hl. unfold leave_string. destruct (status =? JSON_OK) eqn:E; [|done].
  bool_hyps. intros [= <-]. specialize (Hs E). split; [apply utf8_valid_nil|]. split; [done|].
  cbn [fst snd esc_text map concat]. rewrite len_nil. lia.
Qed.

Lemma text_ok_snoc b status b' cp :
  text_ok b status -> scalar cp -> fst b' = fst b ++ octets cp -> text_ok b' JSON_OK.
Proof.
  intros [Hv _] Hs E. unfold text_ok. rewrite E. split; [by apply utf8_valid_snoc|].
  intros _. rewrite esc_text_app, len_app. pose proof (esc_octets_len cp Hs).
  pose proof (len_nonneg (esc_text (fst b))). lia.
Qed.

Lemma string_loop_sound n rest b status r :
  bytes_ok rest -> text_ok b status -> string_loop malloc_ok n rest b status = Done r ->
  string_result (len (esc_text (fst b))) rest r.
Proof.
  revert rest b status. induction n as [|n IH]; intros rest b status Hok Ht H; cbn [string_loop] in H; [done|].
  (* one appended character *)
  assert (Hstep : forall cp b' rest', scalar cp -> fst b' = fst b ++ octets cp -> bytes_ok rest' ->
    len (esc_text (octets cp)) + len rest' <= len rest ->
    string_loop malloc_ok n rest' b' JSON_OK = Done r ->
    string_result (len (esc_text (fst b))) rest r).
  { intros cp b' rest' Hs Eb Hr Hl Hd. apply IH in Hd as (Hv & Hr' & Hlen); [|done|by eapply text_ok_snoc].
    split; [done|]. split; [done|]. rewrite Eb, esc_text_app, len_app in Hlen. lia. }
  destruct rest as [|x rest]; [by apply (leave_string_result b status [])|].
  apply Forall_cons_iff in Hok as [Hx Hr]. rewrite len_cons in Hstep.
  assert (Hleave : leave_string status rest = Done r ->
    string_result (len (esc_text (fst b))) (x :: rest) r).
  { apply leave_string_result; [done..|]. rewrite len_cons. lia. }
  destruct (x =? QUOTE) eqn:Eq.
  { injection H as <-. split; [apply Ht|]. split; [done|]. rewrite len_cons. cbn [fst snd]. lia. }
  destruct (x <? 32) eqn:Ec; [by apply Hleave|].
  destruct (128 <=? x) eqn:Eh; [|destruct (x =? BACKSLASH) eqn:Eb; cbn [negb] in H].
  - pose proof (append_valid_utf8_proper (x :: rest) b) as Hp.
    destruct (append_valid_utf8 malloc_ok (x :: rest) b) as [[b' r']|e|] eqn:Ea; [| |done].
    + apply append_valid_utf8_inv in Ea as (cp & Hs & Hlo & Er & Ebb); [|by constructor].
      assert (Hok' : bytes_ok (x :: rest)) by (by constructor). rewrite Er in Hok'.
      apply bytes_ok_app in Hok' as [_ Hok'].
      apply (Hstep cp b' r'); [done..| |done]. apply (f_equal len) in Er.
      rewrite len_cons, len_app in Er. rewrite esc_text_high by by apply octets_high. lia.
    + rewrite leave_string_fail in H; [done|congruence].
  - destruct rest as [|y rest]; [by apply Hleave|]. apply Forall_cons_iff in Hr as [_ Hr].
    pose proof (escape_proper y rest b) as Hp.
    destruct (escape malloc_ok y rest b) as [[b' r']|e|] eqn:Ea; [| |done].
    + apply escape_inv in Ea as (cp & Hs & Ebb & Hr' & Hl); [|done].
      apply (Hstep cp b' r'); [done..| |done]. rewrite len_cons. lia.
    + rewrite leave_string_fail in H; [done|congruence].
  - pose proof (append_byte_proper malloc_ok (len rest) b x) as Hp.
    destruct (append_byte malloc_ok (len rest) b x) as [b'|e|] eqn:Ea; cbn [obind] in H; [| |done].
    + apply append_byte_inv in Ea. unfold byte_ok in Hx. bool_hyps.
      apply (Hstep x b' rest); [unfold scalar; lia|by rewrite octets_ascii by lia|done| |done].
      rewrite octets_ascii by lia. unfold esc_text. cbn [map concat].
      rewrite app_nil_r, escaped_plain by lia. rewrite len_cons, len_nil. lia.
    + rewrite leave_string_fail in H; [done|congruence].
Qed.

(** A string that is returned is valid UTF-8, and not longer in canonical form
    than the input that was consumed. *)
Lemma parse_string_sound rest s rest' :
  bytes_ok rest -> parse_string_bytes malloc_ok rest = Done (s, rest') ->
  utf8_valid s /\ bytes_ok rest' /\ len (esc_text s) + 2 + len rest' <= len rest.
Proof.
  intros Hok H. unfold parse_string_bytes in H. destruct rest as [|x rest]; [done|].
  destruct (x =? QUOTE); [|done]. apply Forall_cons_iff in Hok as [_ Hok].
  apply string_loop_sound in H as (Hv & Hr & Hl); [|done|split; [apply utf8_valid_nil|done]].
  cbn [fst snd] in *. change (len (esc_text [])) with 0 in Hl.
  split; [done|]. split; [done|]. rewrite len_cons. lia.
Qed.
End Soundness.

(** ** Termination *)

Lemma ends_bind {A B} (m : outcome A) (k : A -> outcome B) P Q :
  ends m P -> (forall x, P x -> ends (k x) Q) -> ends (obind m k) Q.
Proof. destruct m; simpl; auto. Qed.

Lemma ends_fail_when {A} (c : bool) e (k : outcome A) P :
  (c = false -> ends k P) -> ends (if c then Fail_ e else k) P.
Proof. destruct c; simpl; auto. Qed.

Lemma ends_mono {A} (m : outcome A) (P Q : A -> Prop) :
  ends m P -> (forall x, P x -> Q x) -> ends m Q.
Proof. destruct m; simpl; auto. Qed.

Lemma grow_loop_ends n next required :
  0 < next -> SIZE_MAX / 2 < next * 2 ^ Z.of_nat n ->
  ends (grow_loop (S n) next required) (fun r => 0 <= r).
Proof.
  revert next. induction n as [|n IH]; intros next Hn Hb.
  - cbn [grow_loop]. destruct (_ <? _); [|simpl; lia].
    replace (next >? SIZE_MAX / 2) with true; [done|].
    symmetry. rewrite Z.gtb_ltb. apply Z.ltb_lt. change (2 ^ Z.of_nat 0) with 1 in Hb. lia.
  - remember (S n) as m eqn:Em. cbn [grow_loop]. subst m.
    destruct (_ <? _); [|simpl; lia]. apply ends_fail_when. intros _. apply IH; [lia|].
    rewrite Nat2Z.inj_succ, Z.pow_succ_r in Hb by lia. lia.
Qed.

Section Ends.
Context (malloc_ok : request -> bool).

Lemma checked_grow_ends a u size c required :
  0 <= c -> ends (checked_grow malloc_ok a u size c required) (fun c => 0 <= c).
Proof.
  intros Hc. unfold checked_grow. destruct (_ <=? _); [done|].
  eapply ends_bind.
  - apply grow_loop_ends; [destruct (c =? 0) eqn:?; bool_hyps; lia|].
    change (SIZE_MAX / 2) with (2 ^ 63 - 1). change (2 ^ Z.of_nat 64) with (2 ^ 64).
    destruct (c =? 0) eqn:?; bool_hyps; lia.
  - intros r Hr. repeat (apply ends_fail_when; intros _). exact Hr.
Qed.

Lemma append_byte_ends u b x : grown b -> ends (append_byte malloc_ok u b x) grown.
Proof.
  destruct b as [s c]. intros Hb. unfold append_byte. eapply ends_bind; [by apply checked_grow_ends|].
  done.
Qed.

Lemma append_bytes_ends u b l : grown b -> ends (append_bytes malloc_ok u b l) grown.
Proof.
  revert b. induction l as [|x l IH]; intros b Hb; cbn [append_bytes]; [done|].
  eapply ends_bind; [by apply append_byte_ends|done].
Qed.

Lemma append_valid_utf8_ends rest b :
  0 < len rest -> grown b -> ends (append_valid_utf8 malloc_ok rest b) (fun r => grown (fst r) /\ len (snd r) < len rest).
Proof.
  intros Hr Hb. unfold append_valid_utf8. cbv zeta. rewrite byte_at_in by lia. cbn [obind].
  apply ends_fail_when. intros Hn. bool_hyps.
  assert (Hq : 0 <= utf8_sequence_length (at_ rest 0) <= 4)
    by (unfold utf8_sequence_length; repeat split_if; lia).
  assert (Hc : forall n i r v, 0 <= i -> i + Z.of_nat n <= len r ->
    ends (continuation_loop n i r v) (fun _ => True)).
  { induction n as [|n IH]; intros i r v Hi Hl; cbn [continuation_loop]; [done|].
    rewrite byte_at_in by lia. cbn [obind]. apply ends_fail_when. intros _. apply IH; lia. }
  eapply ends_bind; [apply Hc; lia|]. intros cp _. apply ends_fail_when. intros _.
  rewrite bytes_at_in by lia. cbn [obind].
  eapply ends_bind; [by apply append_bytes_ends|]. intros b' Hb'. split; [done|]. cbn [snd].
  rewrite len_drop. lia.
Qed.

Lemma unicode_escape_ends rest : ends (unicode_escape rest) (fun r => len (snd r) <= len rest).
Proof.
  assert (Hh : forall n i r v, 0 <= i -> i + Z.of_nat n <= len r -> ends (hex_loop n i r v) (fun _ => True)).
  { induction n as [|n IH]; intros i r v Hi Hl; cbn [hex_loop]; [done|].
    rewrite byte_at_in by lia. cbn [obind]. apply ends_fail_when. intros _. apply IH; lia. }
  assert (Hq : forall r, ends (parse_hex_quad r) (fun p => snd p = drop 4 r)).
  { intros r. unfold parse_hex_quad. apply ends_fail_when. intros Hr. bool_hyps.
    eapply ends_bind; [apply Hh; lia|done]. }
  unfold unicode_escape. eapply ends_bind; [apply Hq|]. intros [cp r] Hr. cbn [snd] in Hr. subst r.
  pose proof (len_nonneg rest). pose proof (len_drop 4 rest).
  destruct (_ && _).
  - apply ends_fail_when. intros H6. bool_hyps.
    rewrite byte_at_in by lia. cbn [obind]. apply ends_fail_when. intros _.
    rewrite byte_at_in by lia. cbn [obind]. apply ends_fail_when. intros _.
    pose proof (Hq (drop 2 (drop 4 rest))) as H2.
    destruct (parse_hex_quad _) as [[low r]| |]; [|done|done].
    cbn [ends snd] in H2. subst r. apply ends_fail_when. intros _. cbn [ends snd].
    pose proof (len_drop 2 (drop 4 rest)). pose proof (len_drop 4 (drop 2 (drop 4 rest))). lia.
  - apply ends_fail_when. intros _. cbn [ends snd]. lia.
Qed.

Lemma escape_ends byte rest b : grown b -> ends (escape malloc_ok byte rest b) (step_result rest).
Proof.
  intros Hb. unfold escape.
  assert (Hone : forall x, ends (let? b := append_byte malloc_ok (len rest) b x in Done (b, rest)) (step_result rest)).
  { intros x. eapply ends_bind; [by apply append_byte_ends|]. intros b' Hb'. split; [done|]. cbn [snd]. lia. }
  repeat match goal with |- ends (if ?c then _ else _) _ => destruct c; [apply Hone|] end.
  match goal with |- ends (if ?c then _ else _) _ => destruct c; [|done] end.
  eapply ends_bind; [apply unicode_escape_ends|]. intros [cp r] Hr. cbn [snd] in Hr.
  apply (ends_bind _ _ grown); [|intros b' Hb'; by split].
  unfold append_utf8. destruct (utf8_octets cp); [by apply append_bytes_ends|done].
Qed.

Lemma leave_string_ends status rest : ends (leave_string status rest) (fun r => snd r = rest).
Proof. unfold leave_string. by destruct (_ =? _). Qed.

Lemma string_loop_ends n rest b status :
  grown b -> len rest < Z.of_nat n ->
  ends (string_loop malloc_ok n rest b status) (fun r => len (snd r) <= len rest).
Proof.
  revert rest b status. induction n as [|n IH]; intros rest b status Hb Hn; pose proof (len_nonneg rest);
    [lia|]. cbn [string_loop].
  assert (Hleave : forall st r, len r <= len rest ->
    ends (leave_string st r) (fun r => len (snd r) <= len rest)).
  { intros st r Hr. eapply ends_mono; [apply leave_string_ends|]. by intros x ->. }
  assert (Hcont : forall (m : outcome (buffer * bytes)),
    ends m (fun r => grown (fst r) /\ len (snd r) < len rest) ->
    ends match m with
         | Done (b, r) => string_loop malloc_ok n r b JSON_OK
         | Fail_ status => leave_string status rest
         | Stuck => Stuck
         end (fun r => len (snd r) <= len rest)).
  { intros [[b' r']|e|]; [|intros _; by apply Hleave|done]. intros [Hb' Hr]. cbn [fst snd] in *.
    eapply ends_mono; [apply IH; [done|lia]|]. intros x Hx. cbv beta in *. lia. }
  destruct rest as [|x rest]; [by apply Hleave|].
  rewrite len_cons in Hn.
  destruct (x =? QUOTE); [cbn [ends snd]; rewrite len_cons; lia|].
  assert (Hl : len rest <= len (x :: rest)) by (rewrite len_cons; lia).
  destruct (x <? 32); [by apply Hleave|].
  destruct (128 <=? x).
  { apply Hcont. apply append_valid_utf8_ends; [rewrite len_cons; pose proof (len_nonneg rest); lia|done]. }
  destruct (negb _).
  { apply Hcont. eapply ends_bind; [by apply append_byte_ends|]. intros b' Hb'. cbn [ends fst snd].
    rewrite len_cons. split; [done|lia]. }
  destruct rest as [|y rest]; [by apply Hleave|]. rewrite !len_cons in *.
  apply Hcont. eapply ends_mono; [by apply escape_ends|]. intros r [Hr Hlr]. split; [done|lia].
Qed.

Lemma parse_string_ends rest :
  ends (parse_string_bytes malloc_ok rest) (fun r => len (snd r) < len rest).
Proof.
  unfold parse_string_bytes. destruct rest as [|x rest]; [done|]. destruct (_ =? _); [|done].
  eapply ends_mono; [apply string_loop_ends|].
  - unfold grown. cbn [snd]. lia.
  - unfold len. lia.
  - intros r Hr. cbv beta in Hr |- *. rewrite len_cons. lia.
Qed.
End Ends.

(** ** Properties *)

(** A string of Unicode scalar values that is escaped the way
    [write_string] does it is read back by [parse_string_bytes], wherever it
    stands; and whatever [parse_string_bytes] returns is such a string. *)
Theorem string_literal_roundtrip malloc_ok s rest :
  (forall n, malloc_ok n = true) -> utf8_valid s -> len s < 2 ^ 40 ->
  parse_string_bytes malloc_ok (QUOTE :: esc_text s ++ QUOTE :: rest) = Done (s, rest) /\
  (forall input s' rest', bytes_ok input ->
     parse_string_bytes malloc_ok input = Done (s', rest') -> utf8_valid s').
Proof.
  intros Hmem Hs Hl. split; [by apply parse_string_text|].
  intros input s' rest' Hok H. by apply parse_string_sound in H as [? _].
Qed.

Lemma string_literal_roundtrip_witness :
  parse_string_bytes (fun _ => true) (QUOTE :: esc_text (utf8 sample_points) ++ QUOTE :: [44])
  = Done (utf8 sample_points, [44]).
Proof.
  apply (string_literal_roundtrip (fun _ => true) (utf8 sample_points) [44]).
  - done.
  - exists sample_points. split; [|done]. repeat constructor; lia.
  - vm_compute. reflexivity.
Defined.

(** [compare_keys_raw] on valid strings answers, and its answer is the
    lexicographic comparison of the UTF-16 code units: a strict total order in
    which only equal keys compare as 0. *)
Theorem key_order_correct a b :
  Forall scalar a -> Forall scalar b ->
  compare_keys_raw (utf8 a) (utf8 b) = Done (lexcmp (utf16 a) (utf16 b)) /\
  compare_keys_raw (utf8 b) (utf8 a) = Done (- lexcmp (utf16 a) (utf16 b)) /\
  (lexcmp (utf16 a) (utf16 b) = 0 <-> a = b) /\
  (forall c, lexcmp (utf16 a) (utf16 b) < 0 -> lexcmp (utf16 b) (utf16 c) < 0 ->
     lexcmp (utf16 a) (utf16 c) < 0).
Proof.
  intros Ha Hb. rewrite !compare_keys_spec by done. split; [done|]. split; [by rewrite lexcmp_opp|].
  split.
  - split; [by intros E%lexcmp_eq%utf16_inj|]. intros ->. apply lexcmp_refl.
  - intros c. apply lexcmp_trans.
Qed.

(** UTF-16 order differs from the order of code points: U+FFFD is after U+1F600. *)
Lemma key_order_correct_witness :
  compare_keys_raw (utf8 [65533]) (utf8 [128512]) = Done 1.
Proof.
  apply (key_order_correct [65533] [128512]); repeat constructor; unfold scalar; lia.
Defined.
