(* ===== verification/ManifestCanon.v ===== *)
(** The manifest canonicalizer (src/libraries/pki/manifest_canon.c): JSON values,
    the parser, the writer and [alrios_manifest_canonicalize].

    The fixed points of the canonicalizer are the texts of canonical values
    ([canonical]); what a package carries as its manifest is such a text. *)

From S2P Require Import Prelude Bytes JsonText.
From Stdlib Require Import Sorting.Permutation Sorting.Sorted.

#[local] Unset Elimination Schemes.

(** [json_kind_t] and [struct json_value]; a member is a key and its value. *)
Inductive json : Type :=
  | JSON_NULL
  | JSON_BOOL (boolean : Z)
  | JSON_INTEGER (text : bytes)
  | JSON_STRING (text : bytes)
  | JSON_ARRAY (items : list json)
  | JSON_OBJECT (members : list (bytes * json)).

#[local] Set Elimination Schemes.

Definition json_member : Type := bytes * json.

(** The sizes of [json_value_t], of a pointer to it, and of [json_member_t]. *)
Definition VALUE_SIZEOF : Z := 32.

Definition ITEM_SIZEOF : Z := 8.

Definition MEMBER_SIZEOF : Z := 24.

(** [compare_members] on two elements of the array. *)
Definition compare_members (left_ right_ : json_member) : outcome Z :=
  compare_keys_raw (fst left_) (fst right_).

(** [qsort] with that comparator: insertion sort. Keys are pairwise different
    when it is called, so every sorting algorithm gives this result. *)
Fixpoint qsort_insert (m : json_member) (l : list json_member) : outcome (list json_member) :=
  match l with
  | [] => Done [m]
  | m' :: l' =>
      let? order := compare_members m m' in
      if order <? 0 then Done (m :: l)
      else let? l' := qsort_insert m l' in Done (m' :: l')
  end.

Fixpoint qsort (l : list json_member) : outcome (list json_member) :=
  match l with
  | [] => Done []
  | m :: l => let? l := qsort l in qsort_insert m l
  end.

(** The byte at the front satisfies [p]. *)
Definition peek (p : Z -> bool) (rest : bytes) : bool :=
  match rest with [] => false | byte :: _ => p byte end.

(** ** The parser *)

Section Parser.
Context (malloc_ok : request -> bool).

(** [rest] is what the parser has not read. *)
Definition json_value_new (rest : bytes) : outcome unit :=
  fail_when negb (malloc_ok (mk_request Json_value (len rest) VALUE_SIZEOF)) with JSON_ERR_MEMORY ;; Done tt.

Definition parse_literal (rest literal : bytes) (value : json) : outcome (json * bytes) :=
  fail_when len rest <? len literal with JSON_ERR_SYNTAX ;;
  let? front := bytes_at rest (len literal) in
  fail_when negb (bytes_eqb front literal) with JSON_ERR_SYNTAX ;;
  let? _ := json_value_new rest in
  Done (value, drop (length literal) rest).

Fixpoint skip_digits (rest : bytes) : bytes :=
  match rest with
  | byte :: rest' => if is_digit byte then skip_digits rest' else rest
  | [] => []
  end.

(** The digits of an integer: a zero on its own, or digits without leading zero. *)
Definition integer_digits (rest : bytes) : outcome bytes :=
  let? byte := byte_at rest 0 in
  if byte =? 48 then
    fail_when peek is_digit (drop 1 rest) with JSON_ERR_SYNTAX ;;
    Done (drop 1 rest)
  else
    fail_when (byte <? 49) || (byte >? 57) with JSON_ERR_SYNTAX ;;
    Done (skip_digits (drop 1 rest)).

Definition parse_integer (start : bytes) : outcome (json * bytes) :=
  let? byte := byte_at start 0 in
  let minus := byte =? 45 in
  let digits_start := if minus then drop 1 start else start in
  fail_when minus && (len digits_start =? 0) with JSON_ERR_SYNTAX ;;
  let? rest := integer_digits digits_start in
  fail_when peek (fun byte => (byte =? 46) || (byte =? 101) || (byte =? 69)) rest
    with JSON_ERR_UNSUPPORTED ;;
  let length := len start - len rest in
  let? _ := json_value_new rest in
  let? first_digit := byte_at digits_start 0 in
  let '(start, length) :=
    if minus && (len digits_start - len rest =? 1) && (first_digit =? 48)
    then (digits_start, 1) else (start, length) in
  fail_when negb (malloc_ok (mk_request Integer_bytes (len rest) (length + 1))) with JSON_ERR_MEMORY ;;
  let? text := bytes_at start length in
  Done (JSON_INTEGER text, rest).

(** The loop of [parse_array]; [parse] is [parse_value(parser, depth + 1U, _)]. *)
Fixpoint array_loop (parse : bytes -> outcome (json * bytes)) (fuel : nat)
    (items : list json) (capacity : Z) (rest : bytes) : outcome (json * bytes) :=
  match fuel with
  | O => Stuck
  | S fuel =>
      let? (item, rest) := parse rest in
      let? capacity := checked_grow malloc_ok Array_items (len rest) ITEM_SIZEOF capacity (len items + 1) in
      let items := items ++ [item] in
      match skip_whitespace rest with
      | [] => Fail_ JSON_ERR_SYNTAX
      | byte :: rest =>
          if byte =? 93 then Done (JSON_ARRAY items, rest)
          else
            fail_when negb (byte =? 44) with JSON_ERR_SYNTAX ;;
            array_loop parse fuel items capacity (skip_whitespace rest)
      end
  end.

Definition parse_array (parse : bytes -> outcome (json * bytes)) (fuel : nat) (rest : bytes)
  : outcome (json * bytes) :=
  let? _ := json_value_new rest in
  let rest := skip_whitespace (drop 1 rest) in
  if peek (Z.eqb 93) rest then Done (JSON_ARRAY [], drop 1 rest)
  else array_loop parse fuel [] 0 rest.

(** The search for a member with the same key. *)
Fixpoint check_duplicate (key : bytes) (members : list json_member) : outcome unit :=
  match members with
  | [] => Done tt
  | m :: members =>
      let? order := compare_keys_raw key (fst m) in
      fail_when order =? 0 with JSON_ERR_SYNTAX ;;
      check_duplicate key members
  end.

Fixpoint object_loop (parse : bytes -> outcome (json * bytes)) (fuel : nat)
    (members : list json_member) (capacity : Z) (rest : bytes) : outcome (json * bytes) :=
  match fuel with
  | O => Stuck
  | S fuel =>
      let? (key, rest) := parse_string_bytes malloc_ok rest in
      let? _ := check_duplicate key members in
      let rest := skip_whitespace rest in
      fail_when negb (peek (Z.eqb 58) rest) with JSON_ERR_SYNTAX ;;
      let? (value, rest) := parse (drop 1 rest) in
      let? capacity := checked_grow malloc_ok Object_members (len rest) MEMBER_SIZEOF capacity (len members + 1) in
      let members := members ++ [(key, value)] in
      match skip_whitespace rest with
      | [] => Fail_ JSON_ERR_SYNTAX
      | byte :: rest =>
          if byte =? 125 then
            let? members := qsort members in
            Done (JSON_OBJECT members, rest)
          else
            fail_when negb (byte =? 44) with JSON_ERR_SYNTAX ;;
            object_loop parse fuel members capacity (skip_whitespace rest)
      end
  end.

Definition parse_object (parse : bytes -> outcome (json * bytes)) (fuel : nat) (rest : bytes)
  : outcome (json * bytes) :=
  let? _ := json_value_new rest in
  let rest := skip_whitespace (drop 1 rest) in
  if peek (Z.eqb 125) rest then Done (JSON_OBJECT [], drop 1 rest)
  else object_loop parse fuel [] 0 rest.

Fixpoint parse_value (fuel : nat) (depth : Z) (rest : bytes) : outcome (json * bytes) :=
  match fuel with
  | O => Stuck
  | S fuel =>
      fail_when depth >? ALRIOS_JSON_MAX_DEPTH with JSON_ERR_SYNTAX ;;
      let rest := skip_whitespace rest in
      match rest with
      | [] => Fail_ JSON_ERR_SYNTAX
      | byte :: _ =>
          if byte =? 123 then parse_object (parse_value fuel (depth + 1)) fuel rest
          else if byte =? 91 then parse_array (parse_value fuel (depth + 1)) fuel rest
          else if byte =? QUOTE then
            let? _ := json_value_new rest in
            let? (text, rest) := parse_string_bytes malloc_ok rest in
            Done (JSON_STRING text, rest)
          else if byte =? 110 then parse_literal rest (lit "null") JSON_NULL
          else if byte =? 116 then parse_literal rest (lit "true") (JSON_BOOL 1)
          else if byte =? 102 then parse_literal rest (lit "false") (JSON_BOOL 0)
          else if (byte =? 45) || is_digit byte then parse_integer rest
          else Fail_ JSON_ERR_SYNTAX
      end
  end.
End Parser.

(** ** The writer

    [output] is what has been written, [writer->output[0 .. writer->length)];
    a NUL follows it. *)

Section Writer.
Context (capacity : Z).

Definition writer_append (output b : bytes) : outcome bytes :=
  fail_when len b >? u64 (capacity - len output - 1) with JSON_ERR_OUTPUT ;;
  Done (output ++ b).

Fixpoint write_escaped (output text : bytes) : outcome bytes :=
  match text with
  | [] => Done output
  | byte :: text =>
      let? output := writer_append output (escaped byte) in
      write_escaped output text
  end.

Definition write_string (output text : bytes) : outcome bytes :=
  let? output := writer_append output [QUOTE] in
  let? output := write_escaped output text in
  writer_append output [QUOTE].

(** A comma unless this is the first element. *)
Definition write_comma (first : bool) (output : bytes) : outcome bytes :=
  if first then Done output else writer_append output [44].

Fixpoint write_value (output : bytes) (value : json) : outcome bytes :=
  match value with
  | JSON_NULL => writer_append output (lit "null")
  | JSON_BOOL boolean =>
      if negb (boolean =? 0) then writer_append output (lit "true")
      else writer_append output (lit "false")
  | JSON_INTEGER text => writer_append output text
  | JSON_STRING text => write_string output text
  | JSON_ARRAY items =>
      let? output := writer_append output [91] in
      let? output :=
        (fix loop (first : bool) (output : bytes) (items : list json) : outcome bytes :=
           match items with
           | [] => Done output
           | item :: items =>
               let? output := write_comma first output in
               let? output := write_value output item in
               loop false output items
           end) true output items in
      writer_append output [93]
  | JSON_OBJECT members =>
      let? output := writer_append output [123] in
      let? output :=
        (fix loop (first : bool) (output : bytes) (members : list (bytes * json)) : outcome bytes :=
           match members with
           | [] => Done output
           | (key, value) :: members =>
               let? output := write_comma first output in
               let? output := write_string output key in
               let? output := writer_append output [58] in
               let? output := write_value output value in
               loop false output members
           end) true output members in
      writer_append output [125]
  end.
End Writer.

(** ** [alrios_manifest_canonicalize] *)

(** The scan for the terminating NUL, which stops one byte beyond the limit;
    [None]: it leaves the storage. *)
Fixpoint input_length_loop (storage : bytes) (input_length : Z) : option Z :=
  if input_length >? ALRIOS_JSON_MAX_INPUT then Some input_length
  else
    match storage with
    | [] => None
    | byte :: storage =>
        if byte =? 0 then Some input_length else input_length_loop storage (input_length + 1)
    end.

Section Canonicalize.
Context (malloc_ok : request -> bool).

(** Parse, check that nothing follows, write. *)
Definition canonical_text (input : bytes) (max_out : Z) : outcome bytes :=
  let? (root, rest) := parse_value malloc_ok (S (length input)) 0 input in
  fail_when negb (len (skip_whitespace rest) =? 0) with JSON_ERR_SYNTAX ;;
  fail_when negb (malloc_ok (mk_request Writer_output 0 max_out)) with JSON_ERR_MEMORY ;;
  write_value max_out [] root.

(** The status, and the bytes stored at [out_canon] if any. [in_json] is the
    storage behind the pointer. [Fault]: a read outside it, or no result. *)
Definition alrios_manifest_canonicalize (in_json : option bytes) (out_present : bool)
    (max_out : Z) : res (Z * option bytes) :=
  match in_json with
  | None => Ok (JSON_ERR_ARGUMENT, None)
  | Some storage =>
      if negb out_present || (max_out =? 0) then Ok (JSON_ERR_ARGUMENT, None)
      else
        match input_length_loop storage 0 with
        | None => Fault
        | Some input_length =>
            if (input_length =? 0) || (input_length >? ALRIOS_JSON_MAX_INPUT) then
              Ok (JSON_ERR_ARGUMENT, None)
            else
              match canonical_text (sub 0 input_length storage) max_out with
              | Done output => Ok (JSON_OK, Some (output ++ [0]))
              | Fail_ status => Ok (status, None)
              | Stuck => Fault
              end
        end
  end.
End Canonicalize.

(** ** Specification: canonical values and their texts *)

(** Induction over values. *)
Section Induction.
Context (P : json -> Prop) (Hnull : P JSON_NULL) (Hbool : forall b, P (JSON_BOOL b))
  (Hint : forall t, P (JSON_INTEGER t)) (Hstr : forall t, P (JSON_STRING t))
  (Harr : forall items, Forall P items -> P (JSON_ARRAY items))
  (Hobj : forall members, Forall (fun m => P (snd m)) members -> P (JSON_OBJECT members)).

Fixpoint json_induction (v : json) : P v :=
  match v with
  | JSON_NULL => Hnull
  | JSON_BOOL b => Hbool b
  | JSON_INTEGER t => Hint t
  | JSON_STRING t => Hstr t
  | JSON_ARRAY items =>
      Harr items ((fix go l : Forall P l :=
        match l with
        | [] => Forall_nil_2 _
        | x :: l => Forall_cons_2 _ x l (json_induction x) (go l)
        end) items)
  | JSON_OBJECT members =>
      Hobj members ((fix go l : Forall (fun m => P (snd m)) l :=
        match l with
        | [] => Forall_nil_2 _
        | m :: l => Forall_cons_2 (fun m => P (snd m)) m l (json_induction (snd m)) (go l)
        end) members)
  end.
End Induction.

Definition quoted (s : bytes) : bytes := QUOTE :: esc_text s ++ [QUOTE].

(** Elements separated by commas. *)
Definition join (l : list bytes) : bytes :=
  match l with
  | [] => []
  | x :: l => x ++ concat (map (cons 44) l)
  end.

(** The text of a value. *)
Fixpoint text (v : json) : bytes :=
  match v with
  | JSON_NULL => lit "null"
  | JSON_BOOL b => if negb (b =? 0) then lit "true" else lit "false"
  | JSON_INTEGER t => t
  | JSON_STRING s => quoted s
  | JSON_ARRAY items => [91] ++ join (map text items) ++ [93]
  | JSON_OBJECT members =>
      [123] ++ join (map (fun m => quoted (fst m) ++ [58] ++ text (snd m)) members) ++ [125]
  end.

Definition member_text (m : json_member) : bytes := quoted (fst m) ++ [58] ++ text (snd m).

(** An integer without sign of zero and without leading zeros. *)
Definition int_text (t : bytes) : Prop :=
  t = [48] \/
  exists (minus : bool) d ds, t = (if minus then [45] else []) ++ d :: ds /\
    49 <= d <= 57 /\ Forall (fun x => 48 <= x <= 57) ds.

Definition key_lt (a b : json_member) : Prop :=
  exists z, compare_members a b = Done z /\ z < 0.

#[local] Unset Elimination Schemes.

(** Values the canonicalizer produces at nesting depth [d]: no deeper than the
    limit, strings of valid UTF-8, members strictly ascending. *)
Inductive canonical : Z -> json -> Prop :=
  | can_null d : d <= ALRIOS_JSON_MAX_DEPTH -> canonical d JSON_NULL
  | can_bool d b : d <= ALRIOS_JSON_MAX_DEPTH -> b = 0 \/ b = 1 -> canonical d (JSON_BOOL b)
  | can_int d t : d <= ALRIOS_JSON_MAX_DEPTH -> int_text t -> canonical d (JSON_INTEGER t)
  | can_str d s : d <= ALRIOS_JSON_MAX_DEPTH -> utf8_valid s -> canonical d (JSON_STRING s)
  | can_arr d items : d <= ALRIOS_JSON_MAX_DEPTH ->
      Forall (canonical (d + 1)) items -> canonical d (JSON_ARRAY items)
  | can_obj d members : d <= ALRIOS_JSON_MAX_DEPTH ->
      Forall (fun m => utf8_valid (fst m) /\ canonical (d + 1) (snd m)) members ->
      StronglySorted key_lt members -> canonical d (JSON_OBJECT members).

#[local] Set Elimination Schemes.

(** Append [t] to what the writer has if it and a NUL fit. *)
Definition fits (capacity : Z) (output t : bytes) : outcome bytes :=
  if len output + len t <? capacity then Done (output ++ t) else Fail_ JSON_ERR_OUTPUT.

(** Keys of the members of an object under construction. *)
Definition keys_valid (l : list json_member) : Prop := Forall (fun m => utf8_valid (fst m)) l.

(** What may follow a value: nothing, a comma or a closing bracket. *)
Definition delimited (rest : bytes) : Prop :=
  match rest with [] => True | x :: _ => x = 44 \/ x = 93 \/ x = 125 end.

(** A byte no white space starts with. *)
Definition solid (x : Z) : Prop := 32 < x.

(** Parsing the elements one by one. *)
Definition parses (parse : bytes -> outcome (json * bytes)) (v : json) : Prop :=
  forall rest, delimited rest -> parse (text v ++ rest) = Done (v, rest).

(** A member that can be parsed at depth [d]. *)
Definition member_ok (parse : bytes -> outcome (json * bytes)) (m : json_member) : Prop :=
  utf8_valid (fst m) /\ len (fst m) < 2 ^ 40 /\ parses parse (snd m).

(** The result of parsing [s] at depth [d]. *)
Definition value_result (d : Z) (s : bytes) (r : json * bytes) : Prop :=
  canonical d (fst r) /\ bytes_ok (snd r) /\ len (text (fst r)) + len (snd r) <= len s.

(** The length of elements, each with the comma or bracket behind it. *)
Definition elements_len (l : list bytes) : Z := foldr (fun x n => 1 + len x + n) 0 l.

Definition member_canonical (d : Z) (m : json_member) : Prop :=
  utf8_valid (fst m) /\ canonical d (snd m).

Definition no_nul (s : bytes) : Prop := Forall (fun x => x <> 0) s.

Definition plain (s : bytes) : Prop := Forall (fun x => 0 < x < 256) s.

(** A manifest whose members are out of order, with white space. *)
Definition sample_manifest : bytes :=
  [123; 32] ++ quoted (lit "version") ++ [58; 32; 45; 48; 44; 10] ++ quoted (lit "id") ++ [58] ++
  quoted (lit "a") ++ [125].

(** Its canonical form. *)
Definition sample_canonical : bytes :=
  [123] ++ quoted (lit "id") ++ [58] ++ quoted (lit "a") ++ [44] ++ quoted (lit "version") ++ [58; 48; 125].

(** An allocator that gives nothing any more once the parser has passed the first
    key. *)
Definition late_refusal (r : request) : bool := len sample_manifest - 15 <? unread r.

(** ** The writer writes the text *)

Section Writing.
Context (capacity : Z) (Hcap : capacity <= SIZE_MAX).

Lemma writer_append_fits output t :
  len output < capacity -> writer_append capacity output t = fits capacity output t.
Proof.
  intros Hl. pose proof (len_nonneg output). unfold writer_append, fits, u64.
  change SIZE_MAX with (2 ^ 64 - 1) in Hcap. rewrite Z.mod_small by lia.
  rewrite Z.gtb_ltb. destruct (len output + len t <? capacity) eqn:E; bool_hyps; by decide_if.
Qed.

Lemma fits_bind output a b (k : bytes -> outcome bytes) :
  (forall o, len o < capacity -> k o = fits capacity o b) ->
  obind (fits capacity output a) k = fits capacity output (a ++ b).
Proof.
  intros Hk. unfold fits at 1. pose proof (len_nonneg b).
  destruct (len output + len a <? capacity) eqn:E; bool_hyps; cbn [obind].
  - rewrite Hk by (rewrite len_app; lia). unfold fits. rewrite !len_app, <- app_assoc.
    by rewrite Z.add_assoc.
  - unfold fits. rewrite len_app. by decide_if.
Qed.

Lemma fits_nil output : len output < capacity -> fits capacity output [] = Done output.
Proof.
  intros Hl. unfold fits. rewrite len_nil, Z.add_0_r, app_nil_r. by decide_if.
Qed.

Lemma write_escaped_fits s output :
  len output < capacity -> write_escaped capacity output s = fits capacity output (esc_text s).
Proof.
  revert output. induction s as [|x s IH]; intros output Hl; cbn [write_escaped].
  - by rewrite fits_nil.
  - rewrite writer_append_fits by done. apply fits_bind. intros o Ho. by apply IH.
Qed.

Lemma write_string_fits s output :
  len output < capacity -> write_string capacity output s = fits capacity output (quoted s).
Proof.
  intros Hl. unfold write_string, quoted. rewrite writer_append_fits by done.
  apply (fits_bind output [QUOTE]). intros o Ho. rewrite write_escaped_fits by done.
  apply fits_bind. intros o' Ho'. by apply writer_append_fits.
Qed.

Lemma write_comma_fits (first : bool) output (k : bytes -> outcome bytes) t :
  len output < capacity -> (forall o, len o < capacity -> k o = fits capacity o t) ->
  obind (write_comma capacity first output) k
  = fits capacity output ((if first then [] else [44]) ++ t).
Proof.
  intros Hl Hk. destruct first; cbn [write_comma obind app].
  - by apply Hk.
  - rewrite writer_append_fits by done. by apply (fits_bind output [44]).
Qed.

Lemma write_value_fits v output :
  len output < capacity -> write_value capacity output v = fits capacity output (text v).
Proof.
  revert output. induction v as [|b|t|s|items IH|members IH] using json_induction;
    intros output Hl; cbn [write_value text].
  - by apply writer_append_fits.
  - by destruct (negb _); apply writer_append_fits.
  - by apply writer_append_fits.
  - by apply write_string_fits.
  - rewrite writer_append_fits by done. apply fits_bind. intros o Ho.
    assert (Hloop : forall l first o, Forall (fun v => forall output, len output < capacity ->
        write_value capacity output v = fits capacity output (text v)) l -> len o < capacity ->
      (fix loop (first : bool) (output : bytes) (items : list json) : outcome bytes :=
         match items with
         | [] => Done output
         | item :: items =>
             let? output := write_comma capacity first output in
             let? output := write_value capacity output item in
             loop false output items
         end) first o l
      = fits capacity o (if first then join (map text l) else concat (map (cons 44) (map text l)))).
    { induction l as [|x l IHl]; intros first o' Hf Ho'.
      - destruct first; by rewrite fits_nil.
      - apply Forall_cons_iff in Hf as [Hx Hf].
        rewrite (write_comma_fits first o' _ (text x ++ concat (map (cons 44) (map text l)))); [by destruct first|done|].
        intros o2 Ho2. rewrite Hx by done. apply fits_bind. intros o3 Ho3. by rewrite (IHl false). }
    rewrite Hloop by done. apply fits_bind. intros o' Ho'. by apply writer_append_fits.
  - rewrite writer_append_fits by done. apply fits_bind. intros o Ho.
    change (map (fun m => quoted (fst m) ++ [58] ++ text (snd m)) members)
      with (map member_text members).
    assert (Hloop : forall (l : list (bytes * json)) first o,
      Forall (fun m => forall output, len output < capacity ->
        write_value capacity output (snd m) = fits capacity output (text (snd m))) l -> len o < capacity ->
      (fix loop (first : bool) (output : bytes) (members : list (bytes * json)) : outcome bytes :=
         match members with
         | [] => Done output
         | (key, value) :: members =>
             let? output := write_comma capacity first output in
             let? output := write_string capacity output key in
             let? output := writer_append capacity output [58] in
             let? output := write_value capacity output value in
             loop false output members
         end) first o l
      = fits capacity o (if first then join (map member_text l) else concat (map (cons 44) (map member_text l)))).
    { induction l as [|[k x] l IHl]; intros first o' Hf Ho'.
      - destruct first; by rewrite fits_nil.
      - apply Forall_cons_iff in Hf as [Hx Hf]. cbn [snd] in Hx.
        rewrite (write_comma_fits first o' _
          (member_text (k, x) ++ concat (map (cons 44) (map member_text l)))); [by destruct first|done|].
        intros o2 Ho2. rewrite write_string_fits by done. unfold member_text at 1. cbn [fst snd].
        rewrite <- app_assoc. apply fits_bind. intros o3 Ho3. rewrite writer_append_fits by done.
        rewrite <- app_assoc. apply fits_bind. intros o4 Ho4. rewrite Hx by done.
        apply fits_bind. intros o5 Ho5. by rewrite (IHl false). }
    rewrite Hloop by done. apply fits_bind. intros o' Ho'. by apply writer_append_fits.
Qed.
End Writing.

(** ** The order of members *)

Lemma valid_compare a b :
  utf8_valid a -> utf8_valid b ->
  exists z, compare_keys_raw a b = Done z /\ compare_keys_raw b a = Done (- z) /\
    (z = 0 <-> a = b) /\
    (forall c y, utf8_valid c -> z < 0 -> compare_keys_raw b c = Done y -> y < 0 ->
       exists x, compare_keys_raw a c = Done x /\ x < 0).
Proof.
  intros (ca & Ha & ->) (cb & Hb & ->).
  exists (lexcmp (utf16 ca) (utf16 cb)). rewrite !compare_keys_spec by done. split; [done|].
  split; [by rewrite lexcmp_opp|]. split.
  - split.
    + intros E%lexcmp_eq%utf16_inj; [by subst|done..].
    + intros E. destruct (decide (ca = cb)) as [->|Hn]; [apply lexcmp_refl|].
      exfalso. apply Hn. clear Hn. revert cb Hb E. induction Ha as [|x ca Hx Ha IH]; intros cb Hb E;
        destruct Hb as [|y cb Hy Hb].
      * done.
      * rewrite utf8_cons in E. pose proof (octets_len y Hy). apply (f_equal len) in E.
        rewrite len_app in E. change (len (utf8 [])) with 0 in E. pose proof (len_nonneg (utf8 cb)). lia.
      * rewrite utf8_cons in E. pose proof (octets_len x Hx). apply (f_equal len) in E.
        rewrite len_app in E. change (len (utf8 [])) with 0 in E. pose proof (len_nonneg (utf8 ca)). lia.
      * rewrite !utf8_cons in E. pose proof (utf8_next_octets x (utf8 ca) Hx) as Ex.
        rewrite E, utf8_next_octets in Ex by done. injection Ex as -> E'. f_equal. by apply IH.
  - intros c y (cc & Hc & ->) Hz. rewrite !compare_keys_spec by done. intros [= <-] Hy.
    eexists. split; [done|]. by apply (lexcmp_trans _ (utf16 cb)).
Qed.

Lemma keys_valid_cons m l : utf8_valid (fst m) -> keys_valid l -> keys_valid (m :: l).
Proof. by constructor. Qed.

(** The insertion of a new key into a sorted list. *)
Lemma qsort_insert_sound m l l' :
  utf8_valid (fst m) -> keys_valid l -> StronglySorted key_lt l ->
  Forall (fun m' => fst m <> fst m') l ->
  qsort_insert m l = Done l' ->
  Permutation (m :: l) l' /\ StronglySorted key_lt l'.
Proof.
  intros Hm. revert l'. induction l as [|m1 l IH]; intros l' Hl Hs Hd H; cbn [qsort_insert] in H.
  - injection H as <-. split; [done|]. repeat constructor.
  - apply Forall_cons_iff in Hl as [H1 Hl], Hd as [D1 Hd]. inversion Hs as [|? ? Hs' Hlt]; subst.
    destruct (valid_compare (fst m) (fst m1) Hm H1) as (z & E1 & E2 & Ez & Htr).
    unfold compare_members in H. rewrite E1 in H. cbn [obind] in H. destruct (z <? 0) eqn:E.
    + injection H as <-. bool_hyps. split; [done|]. constructor; [done|]. constructor.
      * by exists z.
      * apply List.Forall_forall. intros m2 H2.
        destruct (proj1 (List.Forall_forall _ _) Hlt m2 H2) as (y & Ey & Hy).
        apply (Htr (fst m2) y); [|done..].
        by apply (proj1 (List.Forall_forall _ _) Hl).
    + apply obind_done in H as (l2 & H2 & H). injection H as <-.
      apply IH in H2 as [Hp Hs2]; [|done..]. split.
      * etransitivity; [apply perm_swap|]. by constructor.
      * constructor; [done|]. apply List.Forall_forall. intros m2 H2.
        apply (Permutation_in m2 (Permutation_sym Hp)) in H2. destruct H2 as [<-|H2].
        -- exists (- z). split; [done|]. bool_hyps. assert (z <> 0) by (intros E0; by apply D1, Ez). lia.
        -- by apply (proj1 (List.Forall_forall _ _) Hlt).
Qed.

(** Sorting members with pairwise different keys. *)
Lemma qsort_sound l l' :
  keys_valid l -> List.NoDup (map fst l) -> qsort l = Done l' ->
  Permutation l l' /\ StronglySorted key_lt l'.
Proof.
  revert l'. induction l as [|m l IH]; intros l' Hv Hd H; cbn [qsort map] in *.
  - injection H as <-. split; [done|constructor].
  - apply obind_done in H as (l1 & H1 & H). apply Forall_cons_iff in Hv as [Hm Hv].
    apply NoDup_cons_iff in Hd as [Hn Hd]. destruct (IH l1 Hv Hd H1) as [Hp Hs].
    destruct (qsort_insert_sound m l1 l' Hm) as [Hp' Hs']; [..|done|].
    + unfold keys_valid. by rewrite <- Hp.
    + done.
    + rewrite <- Hp. apply List.Forall_forall. intros m' Hin E. apply Hn. rewrite E.
      by apply in_map.
    + split; [|done]. etransitivity; [|exact Hp']. by constructor.
Qed.

(** A sorted list is not changed. *)
Lemma qsort_sorted l : StronglySorted key_lt l -> qsort l = Done l.
Proof.
  induction 1 as [|m l Hs IH Hlt]; cbn [qsort]; [done|]. rewrite IH. cbn [obind].
  destruct l as [|m' l]; [done|]. apply Forall_cons_iff in Hlt as [(z & E & Hz) _].
  cbn [qsort_insert]. rewrite E. cbn [obind]. by decide_if.
Qed.

Lemma check_duplicate_sound key l :
  utf8_valid key -> keys_valid l -> check_duplicate key l = Done tt -> ~ In key (map fst l).
Proof.
  intros Hk. induction l as [|m l IH]; intros Hv H; cbn [check_duplicate map] in *; [by intros []|].
  apply Forall_cons_iff in Hv as [Hm Hv].
  destruct (valid_compare key (fst m) Hk Hm) as (z & E & _ & Ez & _). rewrite E in H. cbn [obind] in H.
  apply fail_when_done in H as [Hz H]. bool_hyps. intros [Hi|Hi].
  - apply Hz, Ez. congruence.
  - by apply IH in H.
Qed.

Lemma check_duplicate_ends key l :
  utf8_valid key -> keys_valid l -> ends (check_duplicate key l) (fun _ => True).
Proof.
  intros Hk. induction 1 as [|m l Hm Hl IH]; cbn [check_duplicate]; [done|].
  destruct (valid_compare key (fst m) Hk Hm) as (z & E & _). rewrite E. cbn [obind].
  by apply ends_fail_when.
Qed.

Lemma qsort_ends l : keys_valid l -> exists l', qsort l = Done l'.
Proof.
  assert (Hins : forall m l, utf8_valid (fst m) -> keys_valid l ->
    exists l', qsort_insert m l = Done l' /\ keys_valid l').
  { intros m k. induction k as [|m' l0 IH]; intros Hm Hl; cbn [qsort_insert].
    - eexists. split; [done|]. apply keys_valid_cons; [done|constructor].
    - pose proof Hl as Hl0. apply Forall_cons_iff in Hl as [Hm' Hl].
      destruct (valid_compare (fst m) (fst m') Hm Hm') as (z & E & _).
      unfold compare_members. rewrite E. cbn [obind]. destruct (z <? 0).
      + eexists. split; [done|]. by apply keys_valid_cons.
      + destruct (IH Hm Hl) as (l2 & -> & H2). eexists. split; [done|].
        by apply keys_valid_cons. }
  intros Hl. enough (exists l', qsort l = Done l' /\ keys_valid l') as (l' & ? & _) by eauto.
  induction Hl as [|m l Hm Hl IH]; cbn [qsort]; [exists []; split; [done|constructor]|].
  destruct IH as (l1 & -> & H1). cbn [obind]. by apply Hins.
Qed.

(** ** Parsing the text of a canonical value *)

Lemma skip_solid x rest : solid x -> skip_whitespace (x :: rest) = x :: rest.
Proof. unfold solid. intros. cbn [skip_whitespace]. by repeat decide_if. Qed.

Lemma skip_delimited rest : delimited rest -> skip_whitespace rest = rest.
Proof.
  destruct rest as [|x rest]; [done|]. intros H. apply skip_solid.
  unfold solid. cbn [delimited] in H. lia.
Qed.

Lemma text_head d v : canonical d v -> exists x t, text v = x :: t /\ solid x.
Proof.
  unfold solid. destruct 1 as [d|d b Hd [-> | ->]|d t Hd [->|(m & y & ds & -> & ? & _)]|d s|d l|d l];
    cbn [text]; try (by eexists _, _; split; [reflexivity|vm_compute]).
  destruct m; eexists _, _; (split; [reflexivity|]); lia.
Qed.

Lemma peek_delimited p rest :
  delimited rest -> p 44 = false -> p 93 = false -> p 125 = false -> peek p rest = false.
Proof. destruct rest as [|x rest]; [done|]. by intros [->|[->| ->]]. Qed.

Lemma skip_digits_all ds rest :
  Forall (fun x => 48 <= x <= 57) ds -> delimited rest -> skip_digits (ds ++ rest) = rest.
Proof.
  intros Hd Hr. induction Hd as [|x ds Hx _ IH]; cbn [app skip_digits].
  - destruct rest as [|x rest]; [done|]. cbn [skip_digits]. unfold is_digit.
    destruct Hr as [->|[->| ->]]; done.
  - unfold is_digit. by repeat decide_if.
Qed.

Lemma length_join_elem x l : In x l -> (length x <= length (join l))%nat.
Proof.
  destruct l as [|y l]; [done|]. cbn [join]. rewrite length_app. intros [->|H]; [lia|].
  induction l as [|z l IH]; [done|]. cbn [map concat]. rewrite length_app. cbn [length].
  destruct H as [->|H]; [lia|]. specialize (IH H). lia.
Qed.

Lemma length_join l : (length l <= length (join l) + 1)%nat.
Proof.
  destruct l as [|y l]; [cbn; lia|]. cbn [join length]. rewrite length_app.
  induction l as [|z l IH]; [cbn; lia|]. cbn [map concat length]. rewrite length_app. cbn [length]. lia.
Qed.

Lemma length_quoted s : (length s + 2 <= length (quoted s))%nat.
Proof. unfold quoted. cbn [length]. rewrite length_app. cbn [length]. pose proof (esc_text_len s). lia. Qed.

Lemma length_member m :
  length (member_text m) = (length (quoted (fst m)) + 1 + length (text (snd m)))%nat.
Proof. unfold member_text. rewrite !length_app. cbn [length]. lia. Qed.

Section Complete.
Context (malloc_ok : request -> bool) (Hmem : forall n, malloc_ok n = true).

Lemma value_new r : json_value_new malloc_ok r = Done tt.
Proof. unfold json_value_new. by rewrite Hmem. Qed.

Lemma parse_literal_text l rest v :
  parse_literal malloc_ok (l ++ rest) l v = Done (v, rest).
Proof.
  unfold parse_literal. pose proof (len_nonneg rest).
  replace (len (l ++ rest) <? len l) with false by (symmetry; rewrite len_app; lia).
  rewrite bytes_at_in by (rewrite len_app; lia). cbn [obind].
  rewrite sub_here, bytes_eqb_refl by done. cbn [negb]. rewrite value_new. cbn [obind].
  by rewrite drop_app_length.
Qed.

Lemma parse_integer_text t rest :
  int_text t -> delimited rest -> parse_integer malloc_ok (t ++ rest) = Done (JSON_INTEGER t, rest).
Proof.
  intros Ht Hr. pose proof (len_nonneg rest).
  assert (Hp : forall p, p 44 = false -> p 93 = false -> p 125 = false -> peek p rest = false)
    by (intros; by apply peek_delimited).
  destruct Ht as [->|(m & y & ds & -> & Hy & Hds)].
  - unfold parse_integer. cbn [app]. read_bytes. change (at_ (48 :: rest) 0) with 48.
    change (48 =? 45) with false. cbn [andb]. cbv zeta. unfold integer_digits. read_bytes.
    change (at_ (48 :: rest) 0 =? 48) with true. cbn [skipn]. rewrite !drop_0.
    rewrite (Hp is_digit) by done. cbn [obind].
    rewrite (Hp (fun byte => (byte =? 46) || (byte =? 101) || (byte =? 69))) by done.
    rewrite value_new. cbn [obind]. rewrite Hmem. cbn [negb].
    rewrite bytes_at_in, len_cons by (rewrite len_cons; lia). cbn [obind].
    replace (1 + len rest - len rest) with 1 by lia. done.
  - set (start := if m then [45] else []).
    assert (Hdig : integer_digits ((y :: ds) ++ rest) = Done rest).
    { unfold integer_digits. cbn [app skipn]. read_bytes. rewrite drop_0. change (at_ (y :: ds ++ rest) 0) with y.
      rewrite Z.gtb_ltb. repeat decide_if. cbn [orb]. by rewrite skip_digits_all. }
    assert (Hminus : (at_ ((start ++ y :: ds) ++ rest) 0 =? 45) = m).
    { unfold start. destruct m; [done|]. cbn [app]. change (at_ (y :: ds ++ rest) 0) with y. lia. }
    assert (Hds' : (if m then drop 1 ((start ++ y :: ds) ++ rest) else (start ++ y :: ds) ++ rest)
      = (y :: ds) ++ rest) by (unfold start; by destruct m).
    assert (Hlen : 0 < len ((start ++ y :: ds) ++ rest)).
    { rewrite !len_app, len_cons. len_facts. lia. }
    unfold parse_integer. rewrite byte_at_in by lia. cbn [obind]. rewrite Hminus. cbv zeta.
    rewrite Hds', Hdig. cbn [obind].
    replace (len ((y :: ds) ++ rest) =? 0) with false
      by (symmetry; rewrite len_app, len_cons; pose proof (len_nonneg ds); lia).
    rewrite andb_false_r. rewrite Hp by done.
    rewrite value_new. cbn [obind].
    cbn [app]. read_bytes. change (at_ (y :: ds ++ rest) 0) with y.
    replace (y =? 48) with false by (symmetry; lia). rewrite andb_false_r, Hmem. cbn [negb].
    rewrite bytes_at_in by lia. cbn [obind].
    do 3 f_equal. apply sub_here; [done|]. rewrite len_app. lia.
Qed.

Lemma array_loop_text parse d n items acc c rest :
  Forall (fun v => canonical d v /\ parses parse v) items -> items <> [] ->
  0 <= c -> len acc + len items < 2 ^ 30 -> (length items <= n)%nat ->
  array_loop malloc_ok parse n acc c (join (map text items) ++ 93 :: rest)
  = Done (JSON_ARRAY (acc ++ items), rest).
Proof.
  revert n acc c. induction items as [|v items IH]; intros n acc c Hf Hne Hc Hl Hn; [done|].
  clear Hne. apply Forall_cons_iff in Hf as [[Hv Hp] Hf]. destruct n as [|n]; [cbn in Hn; lia|].
  cbn [length] in Hn. rewrite len_cons in Hl. pose proof (len_nonneg items). pose proof (len_nonneg acc).
  destruct (checked_grow_ok malloc_ok Hmem ITEM_SIZEOF c (len acc + 1)) as (c' & Ec & Hc');
    [unfold ITEM_SIZEOF; lia|done|lia|].
  cbn [array_loop map join]. destruct items as [|v2 items].
  - cbn [map concat]. rewrite app_nil_r, Hp by (cbn; lia). cbn [obind]. rewrite Ec. cbn [obind].
    rewrite skip_solid by (unfold solid; lia). done.
  - cbn [map concat]. rewrite <- !app_assoc. rewrite Hp by (cbn; lia). cbn [obind].
    rewrite Ec. cbn [obind app]. rewrite skip_solid by (unfold solid; lia).
    change (44 =? 93) with false. change (negb (44 =? 44)) with false. cbn iota.
    apply Forall_cons_iff in Hf as [[Hv2 Hp2] Hf].
    assert (Es : skip_whitespace (text v2 ++ concat (map (cons 44) (map text items)) ++ 93 :: rest)
      = join (map text (v2 :: items)) ++ 93 :: rest).
    { cbn [map join]. rewrite <- app_assoc. destruct (text_head _ _ Hv2) as (x & t & Ex & Hx).
      rewrite Ex. cbn [app]. by apply skip_solid. }
    rewrite Es, IH; [by rewrite <- app_assoc|by constructor|done|done|rewrite len_app, !len_cons, len_nil in *; lia|].
    cbn [length] in *. lia.
Qed.

Lemma quoted_app s r : quoted s ++ r = QUOTE :: esc_text s ++ QUOTE :: r.
Proof. unfold quoted. cbn [app]. by rewrite <- app_assoc. Qed.

(** A key is different from the smaller ones. *)
Lemma check_duplicate_text m acc :
  utf8_valid (fst m) -> keys_valid acc -> Forall (fun m' => key_lt m' m) acc ->
  check_duplicate (fst m) acc = Done tt.
Proof.
  intros Hm Hv Hlt. induction Hv as [|m' acc Hm' Hv IH]; [done|].
  apply Forall_cons_iff in Hlt as [(z & Ez & Hz) Hlt]. cbn [check_duplicate].
  destruct (valid_compare (fst m') (fst m) Hm' Hm) as (z' & E1 & E2 & _).
  unfold compare_members in Ez. rewrite E1 in Ez. injection Ez as <-. rewrite E2. cbn [obind].
  replace (- z' =? 0) with false by (symmetry; lia). by apply IH.
Qed.

Lemma sorted_middle acc m l :
  StronglySorted key_lt (acc ++ m :: l) -> Forall (fun m' => key_lt m' m) acc.
Proof.
  induction acc as [|a acc IH]; [done|]. cbn [app]. intros H.
  inversion H as [|? ? Hs Hf]; subst. constructor; [|by apply IH].
  apply Forall_app in Hf as [_ Hf]. by apply Forall_cons_iff in Hf as [? _].
Qed.

Lemma object_loop_text parse n l acc c rest :
  Forall (member_ok parse) l -> keys_valid acc -> StronglySorted key_lt (acc ++ l) -> l <> [] ->
  0 <= c -> len acc + len l < 2 ^ 30 -> (length l <= n)%nat ->
  (forall v, In v (map snd l) -> exists x t, text v = x :: t /\ solid x) ->
  object_loop malloc_ok parse n acc c (join (map member_text l) ++ 125 :: rest)
  = Done (JSON_OBJECT (acc ++ l), rest).
Proof.
  revert n acc c. induction l as [|[k v] l IH]; intros n acc c Hf Hv Hs Hne Hc Hl Hn Hh; [done|].
  clear Hne. apply Forall_cons_iff in Hf as [(Hk & Hkl & Hp) Hf]. cbn [fst snd] in *.
  destruct n as [|n]; [cbn in Hn; lia|].
  cbn [length] in Hn. rewrite len_cons in Hl. pose proof (len_nonneg l). pose proof (len_nonneg acc).
  destruct (checked_grow_ok malloc_ok Hmem MEMBER_SIZEOF c (len acc + 1)) as (c' & Ec & Hc');
    [unfold MEMBER_SIZEOF; lia|done|lia|].
  assert (Hd : check_duplicate k acc = Done tt)
    by (apply (check_duplicate_text (k, v)); [done|done|by eapply sorted_middle]).
  assert (Hstep : forall r, delimited r ->
    object_loop malloc_ok parse (S n) acc c (member_text (k, v) ++ r) =
    match r with
    | [] => Fail_ JSON_ERR_SYNTAX
    | byte :: rest =>
        if byte =? 125 then
          let? members := qsort (acc ++ [(k, v)]) in Done (JSON_OBJECT members, rest)
        else
          fail_when negb (byte =? 44) with JSON_ERR_SYNTAX ;;
          object_loop malloc_ok parse n (acc ++ [(k, v)]) c' (skip_whitespace rest)
    end).
  { intros r Hr. unfold member_text. cbn [fst snd object_loop]. rewrite <- app_assoc, quoted_app.
    rewrite parse_string_text by done. cbn [obind]. rewrite Hd. cbn [obind app].
    rewrite skip_solid by (unfold solid; lia). cbn [peek skipn]. rewrite drop_0, Z.eqb_refl.
    cbn [negb]. rewrite Hp by done. cbn [obind]. rewrite Ec. cbn [obind].
    by rewrite skip_delimited. }
  cbn [map join]. destruct l as [|[k2 v2] l].
  - cbn [map concat]. rewrite app_nil_r, Hstep by (cbn; lia). change (125 =? 125) with true.
    cbn iota. rewrite qsort_sorted by done. done.
  - cbn [map concat]. rewrite <- !app_assoc. rewrite Hstep by (cbn; lia). cbn [app].
    change (44 =? 125) with false. change (negb (44 =? 44)) with false. cbn iota.
    assert (Es : skip_whitespace (member_text (k2, v2) ++ concat (map (cons 44) (map member_text l)) ++ 125 :: rest)
      = join (map member_text ((k2, v2) :: l)) ++ 125 :: rest).
    { cbn [map join]. rewrite <- app_assoc. unfold member_text at 1 3. rewrite <- !app_assoc, !quoted_app.
      apply skip_solid. unfold solid, QUOTE. lia. }
    rewrite Es, IH; [by rewrite <- app_assoc|done| |by rewrite <- app_assoc|done|done| |cbn [length] in *; lia|].
    + apply Forall_app. split; [done|]. by repeat constructor.
    + rewrite len_app, !len_cons, len_nil in *. lia.
    + intros w Hw. apply Hh. by right.
Qed.

(** The dispatch on the first byte of a value. *)
Lemma parse_value_solid fuel d x r :
  d <= ALRIOS_JSON_MAX_DEPTH -> solid x ->
  parse_value malloc_ok (S fuel) d (x :: r) =
    if x =? 123 then parse_object malloc_ok (parse_value malloc_ok fuel (d + 1)) fuel (x :: r)
    else if x =? 91 then parse_array malloc_ok (parse_value malloc_ok fuel (d + 1)) fuel (x :: r)
    else if x =? QUOTE then
      let? (text, rest) := parse_string_bytes malloc_ok (x :: r) in Done (JSON_STRING text, rest)
    else if x =? 110 then parse_literal malloc_ok (x :: r) (lit "null") JSON_NULL
    else if x =? 116 then parse_literal malloc_ok (x :: r) (lit "true") (JSON_BOOL 1)
    else if x =? 102 then parse_literal malloc_ok (x :: r) (lit "false") (JSON_BOOL 0)
    else if (x =? 45) || is_digit x then parse_integer malloc_ok (x :: r)
    else Fail_ JSON_ERR_SYNTAX.
Proof.
  intros Hd Hx. cbn [parse_value]. rewrite skip_solid, value_new by done.
  replace (d >? ALRIOS_JSON_MAX_DEPTH) with false by (symmetry; rewrite Z.gtb_ltb; lia). done.
Qed.

Lemma parse_array_text parse d n items rest :
  Forall (fun v => canonical d v /\ parses parse v) items ->
  len items < 2 ^ 30 -> (length items <= n)%nat ->
  parse_array malloc_ok parse n (91 :: join (map text items) ++ 93 :: rest)
  = Done (JSON_ARRAY items, rest).
Proof.
  intros Hf Hl Hn. unfold parse_array. rewrite value_new. cbn [obind skipn]. rewrite drop_0.
  assert (Hloop : items <> [] -> array_loop malloc_ok parse n [] 0 (join (map text items) ++ 93 :: rest)
    = Done (JSON_ARRAY items, rest)).
  { intros Hne. rewrite (array_loop_text parse d); [done..|lia|rewrite len_nil; lia|done]. }
  destruct items as [|v items].
  - cbn [map join app]. rewrite skip_solid by (unfold solid; lia). cbn [peek]. done.
  - pose proof Hf as Hf0. apply Forall_cons_iff in Hf0 as [[Hv _] _].
    destruct (text_head _ _ Hv) as (x & t & Ex & Hx).
    assert (Es : skip_whitespace (join (map text (v :: items)) ++ 93 :: rest)
      = join (map text (v :: items)) ++ 93 :: rest).
    { cbn [map join]. rewrite Ex. cbn [app]. by apply skip_solid. }
    rewrite Es, Hloop by done.
    replace (peek (Z.eqb 93) _) with false; [done|].
    cbn [map join]. rewrite Ex. cbn [app peek]. symmetry.
    apply Z.eqb_neq. intros <-. clear - Hv Ex.
    destruct Hv as [d|d b ? [-> | ->]|d t' ? [->|(m & y & ds & -> & ? & _)]|d s|d l|d l];
      try discriminate Ex. destruct m; injection Ex as Ex _; lia.
Qed.

Lemma parse_object_text parse n l rest :
  Forall (member_ok parse) l -> StronglySorted key_lt l ->
  len l < 2 ^ 30 -> (length l <= n)%nat ->
  (forall v, In v (map snd l) -> exists x t, text v = x :: t /\ solid x) ->
  parse_object malloc_ok parse n (123 :: join (map member_text l) ++ 125 :: rest)
  = Done (JSON_OBJECT l, rest).
Proof.
  intros Hf Hs Hl Hn Hh. unfold parse_object. rewrite value_new. cbn [obind skipn]. rewrite drop_0.
  destruct l as [|m l].
  - cbn [map join app]. rewrite skip_solid by (unfold solid; lia). cbn [peek]. done.
  - assert (E : join (map member_text (m :: l)) ++ 125 :: rest
      = QUOTE :: esc_text (fst m) ++ QUOTE :: [58] ++ text (snd m)
        ++ concat (map (cons 44) (map member_text l)) ++ 125 :: rest).
    { cbn [map join]. unfold member_text at 1. by rewrite <- !app_assoc, quoted_app. }
    assert (Es : skip_whitespace (join (map member_text (m :: l)) ++ 125 :: rest)
      = join (map member_text (m :: l)) ++ 125 :: rest).
    { rewrite E. apply skip_solid. unfold solid, QUOTE. lia. }
    rewrite Es. replace (peek (Z.eqb 125) _) with false by (by rewrite E).
    rewrite object_loop_text; [done|done|constructor|done|done|lia|rewrite len_nil; lia|done|done].
Qed.

(** The parser reads a canonical value back from its text. *)
Lemma parse_value_text v fuel d rest :
  canonical d v -> delimited rest -> (length (text v) < fuel)%nat -> len (text v) < 2 ^ 29 ->
  parse_value malloc_ok fuel d (text v ++ rest) = Done (v, rest).
Proof.
  revert fuel d rest. induction v as [|b|t|s|items IH|members IH] using json_induction;
    intros [|fuel] d rest Hv Hr Hn Hl; try lia; inversion Hv as
      [? Hd|? ? Hd Hb|? ? Hd Ht|? ? Hd Hs|? ? Hd Hf|? ? Hd Hf Hs]; subst; clear Hv.
  - change (text JSON_NULL ++ rest) with (110 :: lit "ull" ++ rest).
    rewrite parse_value_solid by done. apply (parse_literal_text (lit "null")).
  - destruct Hb as [-> | ->].
    + change (text (JSON_BOOL 0) ++ rest) with (102 :: lit "alse" ++ rest).
      rewrite parse_value_solid by done. apply (parse_literal_text (lit "false")).
    + change (text (JSON_BOOL 1) ++ rest) with (116 :: lit "rue" ++ rest).
      rewrite parse_value_solid by done. apply (parse_literal_text (lit "true")).
  - cbn [text] in *. pose proof (parse_integer_text t rest Ht Hr) as Hi.
    assert (Hh : exists x t', t = x :: t' /\ (x = 45 \/ 48 <= x <= 57)).
    { destruct Ht as [->|(m & y & ds & -> & ? & _)]; [by exists 48, []; split; [|lia]|].
      destruct m; eexists _, _; (split; [reflexivity|lia]). }
    destruct Hh as (x & t' & -> & Hx). cbn [app] in *.
    rewrite parse_value_solid by (done || (unfold solid; lia)).
    replace (x =? 123) with false by (symmetry; lia). replace (x =? 91) with false by (symmetry; lia).
    replace (x =? QUOTE) with false by (symmetry; unfold QUOTE; lia).
    replace (x =? 110) with false by (symmetry; lia). replace (x =? 116) with false by (symmetry; lia).
    replace (x =? 102) with false by (symmetry; lia).
    replace ((x =? 45) || is_digit x) with true; [done|]. symmetry. unfold is_digit.
    destruct Hx as [->|Hx]; [done|]. rewrite orb_true_iff, andb_true_iff, !Z.leb_le. lia.
  - cbn [text] in *. rewrite quoted_app. rewrite parse_value_solid by (done || (unfold solid, QUOTE; lia)).
    change (QUOTE =? 123) with false. change (QUOTE =? 91) with false. rewrite Z.eqb_refl.
    rewrite parse_string_text; [done|done|done|].
    pose proof (length_quoted s). unfold len in *. lia.
  - cbn [text app] in *. rewrite <- app_assoc. cbn [app].
    rewrite parse_value_solid by (done || (unfold solid; lia)).
    change (91 =? 123) with false. rewrite Z.eqb_refl. cbn iota.
    cbn [length] in Hn. rewrite length_app in Hn. rewrite len_cons, len_app in Hl. cbn [length] in Hn.
    pose proof (length_join (map text items)) as Hj. rewrite length_map in Hj.
    rewrite (parse_array_text _ (d + 1)); [done| |unfold len in *; lia|lia].
    apply List.Forall_forall. intros v Hv.
    pose proof (proj1 (List.Forall_forall _ _) Hf v Hv) as Hcv. split; [done|].
    intros r Hrd. pose proof (length_join_elem (text v) _ (in_map text _ _ Hv)).
    apply (proj1 (List.Forall_forall _ _) IH v Hv); [done|done|lia|]. unfold len in *. lia.
  - cbn [text] in *.
    change (map (fun m => quoted (fst m) ++ [58] ++ text (snd m)) members)
      with (map member_text members) in *. cbn [app] in *. rewrite <- app_assoc. cbn [app].
    rewrite parse_value_solid by (done || (unfold solid; lia)).
    rewrite Z.eqb_refl. cbn iota.
    cbn [length] in Hn. rewrite length_app in Hn. rewrite len_cons, len_app in Hl. cbn [length] in Hn.
    pose proof (length_join (map member_text members)) as Hj. rewrite length_map in Hj.
    rewrite parse_object_text; [done| |done|unfold len in *; lia|lia|].
    + apply List.Forall_forall. intros m Hm.
      destruct (proj1 (List.Forall_forall _ _) Hf m Hm) as [Hk Hcv].
      pose proof (length_join_elem (member_text m) _ (in_map member_text _ _ Hm)) as Hlm.
      rewrite length_member in Hlm. pose proof (length_quoted (fst m)).
      split; [done|]. split; [unfold len in *; lia|].
      intros r Hrd. apply (proj1 (List.Forall_forall _ _) IH m Hm); [done|done|lia|]. unfold len in *. lia.
    + intros v Hv. apply in_map_iff in Hv as (m & <- & Hm).
      destruct (proj1 (List.Forall_forall _ _) Hf m Hm) as [_ Hcv]. by eapply text_head.
Qed.
End Complete.

(** ** What the parser returns *)

Lemma skip_whitespace_inv s :
  bytes_ok s -> bytes_ok (skip_whitespace s) /\ len (skip_whitespace s) <= len s.
Proof.
  induction 1 as [|x s Hx Hs [IH1 IH2]]; cbn [skip_whitespace]; [split; [constructor|done]|].
  destruct (_ || _).
  - split; [done|]. rewrite len_cons. lia.
  - split; [constructor; done|lia].
Qed.

Lemma skip_digits_inv s :
  exists ds, s = ds ++ skip_digits s /\ Forall (fun x => 48 <= x <= 57) ds.
Proof.
  induction s as [|x s (ds & E & Hd)]; cbn [skip_digits]; [exists []; split; [done|constructor]|].
  destruct (is_digit x) eqn:Ex; [|exists []; split; [done|constructor]]. unfold is_digit in Ex. bool_hyps.
  exists (x :: ds). split; [cbn [app]; by f_equal|]. constructor; [lia|done].
Qed.

Lemma integer_digits_inv s rest :
  integer_digits s = Done rest ->
  exists d ds, s = d :: ds ++ rest /\
    (d = 48 /\ ds = [] \/ 49 <= d <= 57 /\ Forall (fun x => 48 <= x <= 57) ds).
Proof.
  unfold integer_digits. intros H. destruct s as [|d s].
  { done. }
  read_bytes_in H. change (at_ (d :: s) 0) with d in H. cbn [skipn] in H. rewrite drop_0 in H.
  destruct (d =? 48) eqn:E; bool_hyps; apply fail_when_done in H as [Hc H]; injection H as <-.
  - exists d, []. split; [done|]. by left.
  - rewrite Z.gtb_ltb in Hc. bool_hyps. destruct (skip_digits_inv s) as (ds & Es & Hd).
    exists d, ds. rewrite <- Es. split; [done|]. right. split; [lia|done].
Qed.

Section Sound.
Context (malloc_ok : request -> bool).

Lemma value_new_ends r P : P tt -> ends (json_value_new malloc_ok r) P.
Proof. intros HP. unfold json_value_new. by apply ends_fail_when. Qed.

Lemma parse_literal_good d s l v :
  bytes_ok s -> canonical d v -> text v = l ->
  ends (parse_literal malloc_ok s l v) (value_result d s).
Proof.
  intros Hok Hv <-. unfold parse_literal. apply ends_fail_when. intros Hc. bool_hyps.
  rewrite bytes_at_in by lia. cbn [obind]. apply ends_fail_when. intros _.
  eapply ends_bind; [apply (value_new_ends _ (fun _ => True)); done|]. intros _ _. cbn [ends].
  split; [done|]. split; [by apply bytes_ok_drop|]. cbn [fst snd]. rewrite len_drop.
  fold (len (text v)). lia.
Qed.

Lemma parse_integer_good d s :
  bytes_ok s -> 0 < len s -> d <= ALRIOS_JSON_MAX_DEPTH ->
  ends (parse_integer malloc_ok s) (value_result d s).
Proof.
  intros Hok Hpos Hd. unfold parse_integer. rewrite byte_at_in by lia. cbn [obind]. cbv zeta.
  set (minus := at_ s 0 =? 45). set (digits := if minus then drop 1 s else s).
  apply ends_fail_when. intros Hm.
  assert (Hs : minus = true -> s = 45 :: digits).
  { unfold digits, minus. intros E. rewrite E. bool_hyps. destruct s as [|x s]; [done|].
    change (at_ (x :: s) 0) with x in E. subst x. cbn [skipn]. by rewrite drop_0. }
  destruct (integer_digits digits) as [rest|e|] eqn:Ed; [|done|].
  2: { exfalso. unfold integer_digits in Ed. rewrite byte_at_in in Ed.
       - cbn [obind] in Ed. by repeat split_if_in Ed.
       - split; [lia|]. destruct (minus && (len digits =? 0)) eqn:E0; [done|].
         unfold digits in *. destruct minus; [|lia]. bool_hyps. pose proof (len_nonneg (drop 1 s)). lia. }
  apply integer_digits_inv in Ed as (x & ds & E & Hx). cbn [obind].
  apply ends_fail_when. intros _.
  eapply ends_bind; [apply (value_new_ends _ (fun _ => True)); done|]. intros _ _. cbv beta.
  assert (Hdig : len digits - len rest = 1 + len ds) by (rewrite E, len_cons, len_app; lia).
  assert (Hx0 : at_ digits 0 = x) by (by rewrite E).
  pose proof (len_nonneg ds). pose proof (len_nonneg rest).
  rewrite byte_at_in by lia. cbn [obind].
  rewrite Hdig, Hx0.
  assert (Hint : exists t, sub 0 (if minus && (1 + len ds =? 1) && (x =? 48) then 1 else len s - len rest)
      (if minus && (1 + len ds =? 1) && (x =? 48) then digits else s) = t /\
    int_text t /\ len t + len rest <= len s /\ bytes_ok rest).
  { assert (Hr : bytes_ok rest).
    { destruct minus eqn:Em.
      - rewrite (Hs eq_refl) in Hok. apply Forall_cons_iff in Hok as [_ Hok]. rewrite E in Hok.
        apply Forall_cons_iff in Hok as [_ Hok]. by apply bytes_ok_app in Hok as [_ Hok].
      - unfold digits in E. rewrite E in Hok.
        apply Forall_cons_iff in Hok as [_ Hok]. by apply bytes_ok_app in Hok as [_ Hok]. }
    assert (Hplain : int_text (x :: ds)).
    { destruct Hx as [[-> ->]|[Hx Hds]]; [by left|]. right. by exists false, x, ds. }
    destruct minus eqn:Em; cbn [andb].
    - rewrite (Hs eq_refl), E in *. destruct ((1 + len ds =? 1) && (x =? 48)) eqn:Ec.
      + bool_hyps. subst x. exists [48]. split; [|split; [by left|]].
        * change (48 :: ds ++ rest) with ([48] ++ ds ++ rest). by apply sub_here.
        * rewrite !len_cons, len_app, len_nil. split; [lia|done].
      + exists (45 :: x :: ds). split; [|split].
        * change (45 :: x :: ds ++ rest) with ((45 :: x :: ds) ++ rest).
          apply sub_here; [done|]. rewrite len_app. lia.
        * destruct Hx as [[-> ->]|[Hx Hds]]; [done|]. right. by exists true, x, ds.
        * rewrite !len_cons, len_app. split; [lia|done].
    - unfold digits in E. rewrite E in *. exists (x :: ds). split; [|split; [done|]].
      + change (x :: ds ++ rest) with ((x :: ds) ++ rest). apply sub_here; [done|]. rewrite len_app. lia.
      + rewrite !len_cons, len_app. split; [lia|done]. }
  destruct Hint as (t & Et & Hi & Hl & Hr).
  destruct (minus && (1 + len ds =? 1) && (x =? 48)); apply ends_fail_when; intros _;
    rewrite bytes_at_in by lia; cbn [obind]; rewrite Et; (split; [by constructor|split; [done|exact Hl]]).
Qed.

Lemma parse_string_good s :
  bytes_ok s ->
  ends (parse_string_bytes malloc_ok s) (fun r =>
    utf8_valid (fst r) /\ bytes_ok (snd r) /\ len (quoted (fst r)) + len (snd r) <= len s).
Proof.
  intros Hok. pose proof (parse_string_ends malloc_ok s) as He.
  destruct (parse_string_bytes malloc_ok s) as [[k r]|e|] eqn:E; [|done|done].
  apply parse_string_sound in E as (Hv & Hr & Hl); [|done]. split; [done|]. split; [done|].
  cbn [fst snd]. unfold quoted. rewrite len_cons, len_app, len_cons, len_nil. lia.
Qed.

Lemma text_pos d v : canonical d v -> 1 <= len (text v).
Proof.
  intros Hv. destruct (text_head _ _ Hv) as (x & t & -> & _). rewrite len_cons.
  pose proof (len_nonneg t). lia.
Qed.

Lemma elements_len_app a b : elements_len (a ++ b) = elements_len a + elements_len b.
Proof. induction a as [|x a IH]; cbn [app elements_len foldr] in *; [done|]. fold (elements_len (a ++ b)). fold (elements_len a). lia. Qed.

Lemma elements_len_perm a b : Permutation a b -> elements_len a = elements_len b.
Proof.
  induction 1; cbn [elements_len foldr]; [done| | |congruence].
  - unfold elements_len in *. lia.
  - lia.
Qed.

Lemma len_join l : l <> [] -> len (join l) + 1 = elements_len l.
Proof.
  destruct l as [|x l]; [done|]. intros _. cbn [join elements_len foldr]. rewrite len_app.
  assert (E : len (concat (map (cons 44) l)) = elements_len l).
  { induction l as [|y l IH]; [done|]. cbn [map concat elements_len foldr].
    rewrite len_app, len_cons, IH. unfold elements_len. lia. }
  rewrite E. unfold elements_len. lia.
Qed.

Lemma array_loop_good d parse n acc c s :
  (forall s', bytes_ok s' -> len s' <= len s -> ends (parse s') (value_result d s')) ->
  bytes_ok s -> 0 <= c -> Forall (canonical d) acc -> len s < Z.of_nat n ->
  ends (array_loop malloc_ok parse n acc c s) (fun r => exists items,
    fst r = JSON_ARRAY items /\ items <> [] /\ Forall (canonical d) items /\ bytes_ok (snd r) /\
    elements_len (map text items) + len (snd r) <= elements_len (map text acc) + len s).
Proof.
  revert acc c s. induction n as [|n IH]; intros acc c s Hp Hok Hc Hacc Hn; pose proof (len_nonneg s);
    [lia|]. cbn [array_loop].
  eapply ends_bind; [by apply Hp|]. intros [item rest] (Hv & Hr & Hl). cbn [fst snd] in *.
  eapply ends_bind; [by apply checked_grow_ends|]. intros c' Hc'. cbv beta in Hc'.
  destruct (skip_whitespace_inv rest Hr) as [Hr' Hl'].
  pose proof (text_pos _ _ Hv).
  assert (Hacc' : Forall (canonical d) (acc ++ [item])) by (apply Forall_app; split; [done|by constructor]).
  assert (He : elements_len (map text (acc ++ [item])) = elements_len (map text acc) + 1 + len (text item)).
  { rewrite map_app, elements_len_app. cbn [map elements_len foldr]. lia. }
  destruct (skip_whitespace rest) as [|byte r]; [done|].
  apply Forall_cons_iff in Hr' as [_ Hr']. rewrite len_cons in Hl'.
  destruct (byte =? 93).
  - cbn [ends fst snd]. exists (acc ++ [item]). split; [done|].
    split; [by destruct acc|]. split; [done|]. split; [done|lia].
  - apply ends_fail_when. intros _. destruct (skip_whitespace_inv r Hr') as [Hr2 Hl2].
    eapply ends_mono.
    + apply IH; [|done..|lia]. intros s' Hs' Hls'. apply Hp; [done|lia].
    + intros x (items & E & Hne & Hf & Hb & Hlen). exists items.
      split; [done|]. split; [done|]. split; [done|]. split; [done|lia].
Qed.

Lemma members_keys_valid d l : Forall (member_canonical d) l -> keys_valid l.
Proof. intros H. induction H as [|m l [Hm _] _ IH]; [constructor|]. by apply keys_valid_cons. Qed.

Lemma object_loop_good d parse n acc c s :
  (forall s', bytes_ok s' -> len s' <= len s -> ends (parse s') (value_result d s')) ->
  bytes_ok s -> 0 <= c -> Forall (member_canonical d) acc -> List.NoDup (map fst acc) ->
  len s < Z.of_nat n ->
  ends (object_loop malloc_ok parse n acc c s) (fun r => exists l,
    fst r = JSON_OBJECT l /\ l <> [] /\ Forall (member_canonical d) l /\
    StronglySorted key_lt l /\ bytes_ok (snd r) /\
    elements_len (map member_text l) + len (snd r) <= elements_len (map member_text acc) + len s).
Proof.
  revert acc c s. induction n as [|n IH]; intros acc c s Hp Hok Hc Hacc Hnd Hn; pose proof (len_nonneg s);
    [lia|]. cbn [object_loop].
  eapply ends_bind; [by apply parse_string_good|]. intros [key rest] (Hk & Hr & Hl). cbn [fst snd] in *.
  pose proof (members_keys_valid d acc Hacc) as Hkv.
  pose proof (check_duplicate_ends key acc Hk Hkv) as Hce.
  destruct (check_duplicate key acc) as [[]|e|] eqn:Ec; [|done|done]. cbn [obind].
  pose proof (check_duplicate_sound key acc Hk Hkv Ec) as Hnew.
  destruct (skip_whitespace_inv rest Hr) as [Hr1 Hl1].
  apply ends_fail_when. intros Hpk. apply negb_false_iff in Hpk.
  destruct (skip_whitespace rest) as [|x r1]; [done|]. cbn [skipn]. rewrite drop_0.
  apply Forall_cons_iff in Hr1 as [_ Hr1]. rewrite len_cons in Hl1.
  pose proof (len_nonneg (quoted key)). 
  eapply ends_bind; [apply Hp; [done|lia]|]. intros [value r2] (Hv & Hr2 & Hl2). cbn [fst snd] in *.
  eapply ends_bind; [by apply checked_grow_ends|]. intros c' Hc'. cbv beta in Hc'.
  destruct (skip_whitespace_inv r2 Hr2) as [Hr3 Hl3].
  set (m := (key, value)).
  assert (Hacc' : Forall (member_canonical d) (acc ++ [m]))
    by (apply Forall_app; split; [done|by constructor]).
  assert (Hnd' : List.NoDup (map fst (acc ++ [m]))).
  { rewrite map_app. apply NoDup_app; [done|by repeat constructor; intros []|].
    intros k Hin [<-|[]]. done. }
  assert (Hm : len (member_text m) = len (quoted key) + 1 + len (text value)).
  { unfold len. rewrite length_member. cbn [fst snd m]. lia. }
  assert (He : elements_len (map member_text (acc ++ [m]))
    = elements_len (map member_text acc) + 1 + len (member_text m)).
  { rewrite map_app, elements_len_app. cbn [map elements_len foldr]. lia. }
  destruct (skip_whitespace r2) as [|byte r]; [done|].
  apply Forall_cons_iff in Hr3 as [_ Hr3]. rewrite len_cons in Hl3.
  pose proof (text_pos _ _ Hv).
  destruct (byte =? 125).
  - pose proof (members_keys_valid d _ Hacc') as Hkv'.
    destruct (qsort_ends _ Hkv') as (l & El). rewrite El. cbn [obind ends fst snd].
    apply qsort_sound in El as [Hperm Hsort]; [|done..].
    exists l. split; [done|]. split.
    { intros ->. apply Permutation_sym, Permutation_nil in Hperm. by destruct acc. }
    split; [by rewrite <- Hperm|]. split; [done|]. split; [done|].
    rewrite <- (elements_len_perm _ _ (Permutation_map member_text Hperm)). lia.
  - apply ends_fail_when. intros _. destruct (skip_whitespace_inv r Hr3) as [Hr4 Hl4].
    eapply ends_mono.
    + apply IH; [|done..|lia]. intros s' Hs' Hls'. apply Hp; [done|lia].
    + intros y (l & E & Hne & Hf & Hs & Hb & Hlen). exists l.
      split; [done|]. split; [done|]. split; [done|]. split; [done|]. split; [done|lia].
Qed.

(** The parser ends, and what it returns is canonical and not longer than what
    it has consumed. *)
Lemma parse_value_good fuel d s :
  bytes_ok s -> len s < Z.of_nat fuel ->
  ends (parse_value malloc_ok fuel d s) (value_result d s).
Proof.
  revert d s. induction fuel as [|fuel IH]; intros d s Hok Hn; pose proof (len_nonneg s); [lia|].
  cbn [parse_value]. apply ends_fail_when. intros Hd. rewrite Z.gtb_ltb in Hd. bool_hyps.
  destruct (skip_whitespace_inv s Hok) as [Hok' Hl].
  assert (Hmono : forall m, ends m (value_result d (skip_whitespace s)) -> ends m (value_result d s)).
  { intros m Hm. eapply ends_mono; [exact Hm|]. intros x (? & ? & ?). split; [done|]. split; [done|lia]. }
  destruct (skip_whitespace s) as [|x r]; [done|]. apply Hmono. clear Hmono.
  pose proof Hok' as Hr. apply Forall_cons_iff in Hr as [_ Hr].
  destruct (skip_whitespace_inv r Hr) as [Hr1 Hl1]. rewrite len_cons in Hl.
  assert (Hp : forall s', bytes_ok s' -> len s' <= len (skip_whitespace r) ->
    ends (parse_value malloc_ok fuel (d + 1) s') (value_result (d + 1) s')).
  { intros s' Hs' Hl'. apply IH; [done|lia]. }
  destruct (x =? 123) eqn:E1; [|destruct (x =? 91) eqn:E2; [|destruct (x =? QUOTE) eqn:E3]].
  - unfold parse_object. apply (ends_bind _ _ (fun _ => True)); [by apply value_new_ends|].
    intros _ _. cbv zeta. cbn [skipn]. rewrite drop_0. destruct (peek _ _) eqn:Ep.
    + destruct (skip_whitespace r) as [|y r1]; [done|]. cbn [ends skipn]. rewrite drop_0.
      apply Forall_cons_iff in Hr1 as [_ Hr1]. rewrite len_cons in Hl1.
      split; [by repeat constructor|]. split; [done|]. cbn [fst snd text map join app].
      rewrite !len_cons, len_nil. lia.
    + eapply ends_mono; [apply (object_loop_good (d + 1)); [done|done|lia|constructor|constructor|lia]|].
      intros [v r2] (l & Ev & Hne & Hf & Hs & Hb & Hlen). cbn [fst snd] in *. subst v.
      split; [by constructor|]. split; [done|]. cbn [fst snd text].
      change (map (fun m => quoted (fst m) ++ [58] ++ text (snd m)) l) with (map member_text l).
      pose proof (len_join (map member_text l) ltac:(by destruct l)).
      rewrite !len_app, !len_cons, len_nil. cbn [map elements_len foldr] in Hlen. lia.
  - unfold parse_array. apply (ends_bind _ _ (fun _ => True)); [by apply value_new_ends|].
    intros _ _. cbv zeta. cbn [skipn]. rewrite drop_0. destruct (peek _ _) eqn:Ep.
    + destruct (skip_whitespace r) as [|y r1]; [done|]. cbn [ends skipn]. rewrite drop_0.
      apply Forall_cons_iff in Hr1 as [_ Hr1]. rewrite len_cons in Hl1.
      split; [by repeat constructor|]. split; [done|]. cbn [fst snd text map join app].
      rewrite !len_cons, len_nil. lia.
    + eapply ends_mono; [apply (array_loop_good (d + 1)); [done|done|lia|constructor|lia]|].
      intros [v r2] (l & Ev & Hne & Hf & Hb & Hlen). cbn [fst snd] in *. subst v.
      split; [by constructor|]. split; [done|]. cbn [fst snd text].
      pose proof (len_join (map text l) ltac:(by destruct l)).
      rewrite !len_app, !len_cons, len_nil. cbn [map elements_len foldr] in Hlen. lia.
  - apply (ends_bind _ _ (fun _ => True)); [by apply value_new_ends|]. intros _ _.
    eapply ends_bind; [by apply parse_string_good|]. intros [k r2] (Hv & Hr2 & Hl2).
    split; [by constructor|]. by split.
  - destruct (x =? 110); [apply parse_literal_good; [done|by constructor|done]|].
    destruct (x =? 116); [apply parse_literal_good; [done|constructor; [lia|by right]|done]|].
    destruct (x =? 102); [apply parse_literal_good; [done|constructor; [lia|by left]|done]|].
    destruct (_ || _); [by apply parse_integer_good|done].
Qed.
End Sound.

(** ** The bytes of a text *)

Lemma no_nul_check s : forallb (fun x => negb (x =? 0)) s = true -> no_nul s.
Proof.
  intros H. apply List.Forall_forall. intros x Hx.
  apply (proj1 (forallb_forall _ _) H) in Hx. by bool_hyps.
Qed.

Lemma plain_check s : forallb (fun x => (0 <? x) && (x <? 256)) s = true -> plain s.
Proof.
  intros H. apply List.Forall_forall. intros x Hx.
  apply (proj1 (forallb_forall _ _) H) in Hx. bool_hyps. lia.
Qed.

Lemma plain_no_nul s : plain s -> no_nul s.
Proof. intros H. eapply Forall_impl; [|exact H]. intros x ?. cbv beta in *. lia. Qed.

Lemma plain_ok s : plain s -> bytes_ok s.
Proof. intros H. eapply Forall_impl; [|exact H]. intros x ?. cbv beta in *. unfold byte_ok. lia. Qed.

Lemma plain_escaped x : 0 <= x < 256 -> plain (escaped x).
Proof.
  intros Hx. use_range 256%nat (fun x => forallb (fun y => (0 <? y) && (y <? 256)) (escaped x)) x H.
  by apply plain_check.
Qed.

Lemma esc_text_plain s : utf8_valid s -> plain (esc_text s).
Proof.
  intros (cps & Hs & ->).
  assert (Hb : Forall (fun x => 0 <= x < 256) (utf8 cps)).
  { induction Hs as [|cp cps Hcp _ IH]; [constructor|]. rewrite utf8_cons. apply Forall_app. split; [|done].
    destruct (Z.lt_ge_cases cp 128) as [Hlo|Hlo].
    - rewrite octets_ascii by (destruct Hcp; lia). constructor; [destruct Hcp; lia|constructor].
    - eapply Forall_impl; [|by apply octets_high]. intros x ?. cbv beta in *. lia. }
  induction Hb as [|x s Hx _ IH]; [constructor|]. unfold esc_text. cbn [map concat].
  apply Forall_app. split; [by apply plain_escaped|done].
Qed.

Lemma join_plain l : Forall plain l -> plain (join l).
Proof.
  intros H. destruct H as [|x l Hx Hl]; [constructor|]. cbn [join]. apply Forall_app. split; [done|].
  induction Hl as [|y l Hy _ IH]; [constructor|]. cbn [map concat app].
  constructor; [lia|]. by apply Forall_app.
Qed.

Lemma quoted_plain s : utf8_valid s -> plain (quoted s).
Proof.
  intros H. unfold quoted, QUOTE. constructor; [lia|]. apply Forall_app.
  split; [by apply esc_text_plain|by repeat constructor].
Qed.

Lemma text_plain d v : canonical d v -> plain (text v).
Proof.
  revert d. induction v as [|b|t|s|items IH|members IH] using json_induction; intros d Hv;
    inversion Hv as [? Hd|? ? Hd Hb|? ? Hd Ht|? ? Hd Hs|? ? Hd Hf|? ? Hd Hf Hs]; subst; clear Hv;
    cbn [text].
  - by repeat constructor.
  - destruct Hb as [-> | ->]; by repeat constructor.
  - destruct Ht as [->|(m & y & ds & -> & Hy & Hds)]; [by repeat constructor|].
    apply Forall_app. split; [destruct m; by repeat constructor|]. constructor; [lia|].
    eapply Forall_impl; [|exact Hds]. intros x ?. cbv beta in *. lia.
  - by apply quoted_plain.
  - apply Forall_app. split; [by repeat constructor|]. apply Forall_app. split; [|by repeat constructor].
    apply join_plain. apply Forall_map. apply List.Forall_forall. intros v Hin.
    apply (proj1 (List.Forall_forall _ _) IH v Hin (d + 1)).
    by apply (proj1 (List.Forall_forall _ _) Hf).
  - apply Forall_app. split; [by repeat constructor|]. apply Forall_app. split; [|by repeat constructor].
    apply join_plain. apply Forall_map. apply List.Forall_forall. intros m Hin.
    destruct (proj1 (List.Forall_forall _ _) Hf m Hin) as [Hk Hc].
    apply Forall_app. split; [by apply quoted_plain|]. constructor; [lia|].
    by apply (proj1 (List.Forall_forall _ _) IH m Hin (d + 1)).
Qed.

Lemma esc_text_no_nul s : utf8_valid s -> no_nul (esc_text s).
Proof. intros. by apply plain_no_nul, esc_text_plain. Qed.

Lemma text_no_nul d v : canonical d v -> no_nul (text v).
Proof. intros. eapply plain_no_nul, text_plain. done. Qed.

Lemma text_ok d v : canonical d v -> bytes_ok (text v).
Proof. intros. eapply plain_ok, text_plain. done. Qed.

(** ** The input *)

Lemma input_length_text s n pad :
  no_nul s -> n + len s <= ALRIOS_JSON_MAX_INPUT ->
  input_length_loop (s ++ 0 :: pad) n = Some (n + len s).
Proof.
  intros Hs. revert n. induction Hs as [|x s Hx _ IH]; intros n Hn; cbn [app input_length_loop].
  - rewrite len_nil in Hn. rewrite Z.gtb_ltb. decide_if. rewrite Z.eqb_refl, len_nil. f_equal. lia.
  - rewrite len_cons in Hn |- *. pose proof (len_nonneg s). rewrite Z.gtb_ltb. decide_if.
    rewrite (proj2 (Z.eqb_neq x 0) Hx), IH by lia. f_equal. lia.
Qed.

(** A scan that ends within the limit has found a NUL; a terminated string, or
    a storage beyond the limit, is scanned to an end. *)
Lemma input_length_inv storage n k :
  input_length_loop storage n = Some k -> k <= ALRIOS_JSON_MAX_INPUT ->
  exists s pad, storage = s ++ 0 :: pad /\ no_nul s /\ k = n + len s.
Proof.
  revert n. induction storage as [|x storage IH]; intros n H Hk; cbn [input_length_loop] in H;
    rewrite Z.gtb_ltb in H; destruct (_ <? n) eqn:E; bool_hyps; try (injection H as <-; lia); [done|].
  destruct (x =? 0) eqn:E0; bool_hyps.
  - injection H as <-. subst x. exists [], storage. split; [done|]. split; [constructor|].
    rewrite len_nil. lia.
  - apply IH in H as (s & pad & -> & Hs & ->); [|done]. exists (x :: s), pad.
    split; [done|]. split; [by constructor|]. rewrite len_cons. lia.
Qed.

Lemma input_length_total storage n :
  In 0 storage \/ ALRIOS_JSON_MAX_INPUT < n + len storage ->
  exists k, input_length_loop storage n = Some k /\ n <= k.
Proof.
  revert n. induction storage as [|x storage IH]; intros n H; cbn [input_length_loop];
    rewrite Z.gtb_ltb; destruct (_ <? n) eqn:E; bool_hyps;
    try (exists n; split; [done|lia]).
  - destruct H as [[]|H]. rewrite len_nil in H. lia.
  - destruct (x =? 0) eqn:E0; bool_hyps; [exists n; split; [done|lia]|].
    destruct (IH (n + 1)) as (k & Ek & Hk).
    + destruct H as [[H|H]|H]; [done|by left|]. right. rewrite len_cons in H. lia.
    + exists k. split; [done|lia].
Qed.

(** ** The canonical text *)

(** Everything the canonicalizer writes is the text of a canonical value. *)
Lemma canonical_text_good malloc_ok input max_out :
  bytes_ok input -> 0 < max_out <= SIZE_MAX ->
  ends (canonical_text malloc_ok input max_out) (fun o => exists v,
    canonical 0 v /\ o = text v /\ len o <= len input /\ len o < max_out).
Proof.
  intros Hok Hmax. unfold canonical_text. eapply ends_bind.
  - apply parse_value_good; [done|unfold len; lia].
  - intros [v rest] (Hv & Hr & Hl). cbn [fst snd] in *. apply ends_fail_when. intros _.
    apply ends_fail_when. intros _. rewrite write_value_fits by (rewrite ?len_nil; lia).
    unfold fits. rewrite len_nil. destruct (0 + len (text v) <? max_out) eqn:E; [|done]. bool_hyps.
    cbn [ends app]. exists v. pose proof (len_nonneg rest).
    split; [done|]. split; [done|]. lia.
Qed.

(** No failure is reported as success. *)
Lemma parse_value_proper malloc_ok fuel d s : proper (parse_value malloc_ok fuel d s).
Proof.
  assert (Hstr : forall s, proper (parse_string_bytes malloc_ok s)).
  { intros k. apply parse_string_proper. }
  assert (Hnew : forall r, proper (json_value_new malloc_ok r)) by (intros; unfold json_value_new; prove_proper).
  assert (Hlit : forall s l v, proper (parse_literal malloc_ok s l v))
    by (intros; unfold parse_literal; prove_proper).
  assert (Hint : forall s, proper (parse_integer malloc_ok s)).
  { intros k. unfold parse_integer, integer_digits. prove_proper. }
  assert (Hnext : forall c, proper (next_utf16_unit c))
    by (intros [k p]; unfold next_utf16_unit; prove_proper).
  assert (Hcmp : forall a b, proper (compare_keys_raw a b)).
  { intros a b. unfold compare_keys_raw. generalize (S (length a)) as n, (a, 0) as l, (b, 0) as r.
    induction n as [|n IH]; intros l r; cbn [compare_loop]; prove_proper. }
  assert (Hsort : forall l, proper (qsort l)).
  { assert (Hins : forall m l, proper (qsort_insert m l)).
    { intros m. induction l as [|m' l IH]; cbn [qsort_insert]; unfold compare_members; prove_proper. }
    induction l as [|m l IH]; cbn [qsort]; prove_proper. }
  assert (Hdup : forall k l, proper (check_duplicate k l)).
  { intros k. induction l as [|m l IH]; cbn [check_duplicate]; prove_proper. }
  assert (Harr : forall parse n acc c s, (forall s, proper (parse s)) ->
    proper (array_loop malloc_ok parse n acc c s)).
  { intros parse. induction n as [|n IH]; intros acc c k Hp; cbn [array_loop]; prove_proper. }
  assert (Hobj : forall parse n acc c s, (forall s, proper (parse s)) ->
    proper (object_loop malloc_ok parse n acc c s)).
  { intros parse. induction n as [|n IH]; intros acc c k Hp; cbn [object_loop]; prove_proper. }
  revert d s. induction fuel as [|fuel IH]; intros d s; cbn [parse_value]; [done|].
  unfold parse_object, parse_array. prove_proper.
Qed.

Lemma canonical_text_proper malloc_ok s max_out :
  0 < max_out <= SIZE_MAX -> proper (canonical_text malloc_ok s max_out).
Proof.
  intros Hm. pose proof parse_value_proper. unfold canonical_text. apply obind_proper; [done|].
  intros [v rest]. apply fail_when_proper; [done|]. apply fail_when_proper; [done|].
  rewrite write_value_fits by (rewrite ?len_nil; lia). unfold fits. by destruct (_ <? _).
Qed.

(** The canonicalizer leaves the text of a canonical value as it is. *)
Lemma canonical_text_fixed malloc_ok v max_out :
  (forall n, malloc_ok n = true) -> canonical 0 v ->
  len (text v) <= ALRIOS_JSON_MAX_INPUT -> len (text v) < max_out <= SIZE_MAX ->
  canonical_text malloc_ok (text v) max_out = Done (text v).
Proof.
  intros Hmem Hv Hl Hmax. pose proof (len_nonneg (text v)). unfold canonical_text.
  rewrite <- (app_nil_r (text v)) at 2.
  unfold ALRIOS_JSON_MAX_INPUT in Hl.
  rewrite (parse_value_text malloc_ok Hmem v) by (done || lia). cbn [obind].
  change (skip_whitespace []) with (@nil Z). rewrite len_nil. cbn [negb Z.eqb].
  rewrite Hmem. cbn [negb]. rewrite write_value_fits by (rewrite ?len_nil; lia).
  unfold fits. rewrite len_nil. by decide_if.
Qed.

(** A canonical value is determined by its text. *)
Lemma text_inj v w :
  canonical 0 v -> canonical 0 w -> len (text v) < 2 ^ 29 -> text v = text w -> v = w.
Proof.
  intros Hv Hw Hl E. pose (yes := fun _ : request => true). assert (Hy : forall n, yes n = true) by done.
  pose proof (parse_value_text yes Hy v (S (length (text v))) 0 [] Hv I ltac:(lia) Hl) as H1.
  rewrite E in H1, Hl.
  pose proof (parse_value_text yes Hy w (S (length (text w))) 0 [] Hw I ltac:(lia) Hl) as H2.
  rewrite H1 in H2. by injection H2.
Qed.

(** A call on a terminated string within the limits. *)
Lemma canonicalize_eq malloc_ok s pad max_out :
  no_nul s -> 1 <= len s <= ALRIOS_JSON_MAX_INPUT -> max_out <> 0 ->
  alrios_manifest_canonicalize malloc_ok (Some (s ++ 0 :: pad)) true max_out =
    match canonical_text malloc_ok s max_out with
    | Done output => Ok (JSON_OK, Some (output ++ [0]))
    | Fail_ status => Ok (status, None)
    | Stuck => Fault
    end.
Proof.
  intros Hs Hl Hm. unfold alrios_manifest_canonicalize. cbn [negb orb].
  rewrite (proj2 (Z.eqb_neq max_out 0) Hm), (input_length_text s 0) by (done || lia).
  rewrite Z.add_0_l, Z.gtb_ltb. repeat decide_if. cbn [orb]. by rewrite sub_here.
Qed.

(** What a call ends with. *)
Lemma canonicalize_result malloc_ok storage out_present max_out :
  bytes_ok storage -> In 0 storage \/ ALRIOS_JSON_MAX_INPUT < len storage ->
  0 <= max_out <= SIZE_MAX ->
  exists status out,
    alrios_manifest_canonicalize malloc_ok (Some storage) out_present max_out = Ok (status, out) /\
    (status = JSON_OK -> exists v, out = Some (text v ++ [0]) /\ canonical 0 v /\
       len (text v ++ [0]) <= max_out) /\
    (status <> JSON_OK -> out = None).
Proof.
  intros Hok Hend Hmax. unfold alrios_manifest_canonicalize.
  assert (Herr : forall e, e <> JSON_OK -> exists status out, Ok (e, None) = Ok (status, out) /\
    (status = JSON_OK -> exists v, out = Some (text v ++ [0]) /\ canonical 0 v /\
       len (text v ++ [0]) <= max_out) /\ (status <> JSON_OK -> @eq (option bytes) out None)).
  { intros e He. by exists e, None. }
  destruct (negb out_present || (max_out =? 0)) eqn:Ep; [by apply Herr|]. bool_hyps.
  destruct (input_length_total storage 0 ltac:(by rewrite Z.add_0_l)) as (n & En & Hn). rewrite En.
  destruct (_ || _); [by apply Herr|].
  pose proof (canonical_text_good malloc_ok (sub 0 n storage) max_out ltac:(auto with buf) ltac:(lia)) as Hg.
  pose proof (canonical_text_proper malloc_ok (sub 0 n storage) max_out ltac:(lia)) as Hp.
  destruct (canonical_text malloc_ok (sub 0 n storage) max_out) as [o|e|]; [| |done].
  - destruct Hg as (v & Hv & -> & _ & Hl). exists JSON_OK, (Some (text v ++ [0])).
    split; [done|]. split; [|done]. intros _. exists v. split; [done|]. split; [done|].
    rewrite len_app, len_cons, len_nil. lia.
  - apply Herr. by intros ->.
Qed.

(** ** Properties *)

(** C9: canonicalization is idempotent: the output is NUL-free, not longer than
    the input, and canonicalizing it again, into any buffer that holds it,
    gives the same octets. *)
Theorem canonicalize_idempotent malloc_ok storage max_out out :
  (forall n, malloc_ok n = true) -> bytes_ok storage -> 0 <= max_out <= SIZE_MAX ->
  alrios_manifest_canonicalize malloc_ok (Some storage) true max_out = Ok (JSON_OK, Some out) ->
  exists text, out = text ++ [0] /\ no_nul text /\ len text <= len storage /\
    forall pad max_out', len text < max_out' <= SIZE_MAX ->
      alrios_manifest_canonicalize malloc_ok (Some (text ++ 0 :: pad)) true max_out'
      = Ok (JSON_OK, Some out).
Proof.
  intros Hmem Hok Hmax H. unfold alrios_manifest_canonicalize in H. cbn [negb orb] in H.
  destruct (max_out =? 0) eqn:Em; [done|]. bool_hyps.
  destruct (input_length_loop storage 0) as [n|] eqn:En; [|done].
  destruct (_ || _) eqn:Eb; [done|]. rewrite Z.gtb_ltb in Eb. bool_hyps.
  apply input_length_inv in En as (s & pad0 & -> & Hs & ->); [|done].
  rewrite Z.add_0_l in *. rewrite sub_here in H by done. apply bytes_ok_app in Hok as [Hok _].
  pose proof (canonical_text_good malloc_ok s max_out Hok ltac:(lia)) as Hg.
  destruct (canonical_text malloc_ok s max_out) as [o|e|]; [|done|done].
  destruct Hg as (v & Hv & -> & Hl & _). injection H as <-.
  pose proof (text_no_nul 0 v Hv). pose proof (text_pos 0 v Hv). pose proof (len_nonneg (0 :: pad0)).
  exists (text v). split; [done|]. split; [done|]. split; [rewrite len_app; lia|].
  intros pad max_out' Hm. rewrite canonicalize_eq by (done || lia).
  by rewrite canonical_text_fixed by (done || lia).
Qed.

Lemma canonicalize_idempotent_witness :
  exists text, sample_canonical ++ [0] = text ++ [0] /\ no_nul text /\
    len text <= len (sample_manifest ++ [0]) /\
    forall pad max_out', len text < max_out' <= SIZE_MAX ->
      alrios_manifest_canonicalize (fun _ => true) (Some (text ++ 0 :: pad)) true max_out'
      = Ok (JSON_OK, Some (sample_canonical ++ [0])).
Proof.
  apply (canonicalize_idempotent (fun _ => true) (sample_manifest ++ [0]) 64).
  - done.
  - apply bytes_okb_ok. vm_compute. reflexivity.
  - vm_compute. split; discriminate.
  - vm_compute. reflexivity.
Defined.

(** The octet strings the canonicalizer leaves unchanged are exactly the
    texts of canonical values: no insignificant white space, minimal escapes,
    integers without leading zeros or negative zero, valid UTF-8, members
    strictly ascending in UTF-16 order, nesting within the limit. *)
Theorem canonicalize_fixed_points malloc_ok s pad max_out :
  (forall n, malloc_ok n = true) -> bytes_ok s -> no_nul s ->
  1 <= len s <= ALRIOS_JSON_MAX_INPUT -> len s < max_out <= SIZE_MAX ->
  alrios_manifest_canonicalize malloc_ok (Some (s ++ 0 :: pad)) true max_out
    = Ok (JSON_OK, Some (s ++ [0]))
  <-> exists v, canonical 0 v /\ s = text v.
Proof.
  intros Hmem Hok Hs Hl Hm. rewrite canonicalize_eq by (done || lia). split.
  - pose proof (canonical_text_good malloc_ok s max_out Hok ltac:(lia)) as Hg.
    destruct (canonical_text malloc_ok s max_out) as [o|e|]; [|done|done].
    destruct Hg as (v & Hv & -> & _). intros [= E]. exists v. split; [done|].
    by apply app_inj_tail in E as [-> _].
  - intros (v & Hv & ->). by rewrite canonical_text_fixed by (done || lia).
Qed.

Lemma canonicalize_fixed_points_witness :
  exists v, canonical 0 v /\ sample_canonical = text v.
Proof.
  apply (canonicalize_fixed_points (fun _ => true) sample_canonical [] 64).
  - done.
  - apply bytes_okb_ok. vm_compute. reflexivity.
  - apply no_nul_check. vm_compute. reflexivity.
  - vm_compute. split; discriminate.
  - vm_compute. split; [reflexivity|discriminate].
  - vm_compute. reflexivity.
Defined.

(** C34: On any terminated string, or storage that exceeds the limit, and
    whichever calls of the allocator fail, [alrios_manifest_canonicalize] ends without
    reading outside the storage. It stores at [out_canon] exactly when it
    reports success, then a NUL-terminated text of a canonical value that fits
    [max_out]. *)
Theorem canonicalize_total malloc_ok storage out_present max_out :
  bytes_ok storage -> In 0 storage \/ ALRIOS_JSON_MAX_INPUT < len storage ->
  0 <= max_out <= SIZE_MAX ->
  exists status out,
    alrios_manifest_canonicalize malloc_ok (Some storage) out_present max_out = Ok (status, out) /\
    (status = JSON_OK -> exists v, out = Some (text v ++ [0]) /\ canonical 0 v /\
       len (text v ++ [0]) <= max_out) /\
    (status <> JSON_OK -> out = None).
Proof. apply canonicalize_result. Qed.

(** An allocator that serves the root and refuses the value inside it. *)
Example nested_refusal :
  alrios_manifest_canonicalize late_refusal (Some (sample_manifest ++ [0])) true 64 = Ok (JSON_ERR_MEMORY, None) /\
  late_refusal (mk_request Json_value (len sample_manifest) VALUE_SIZEOF) = true.
Proof. split; vm_compute; reflexivity. Qed.

Lemma canonicalize_total_witness :
  exists status out,
    alrios_manifest_canonicalize late_refusal (Some (sample_manifest ++ [0])) true 64
      = Ok (status, out) /\
    (status = JSON_OK -> exists v, out = Some (text v ++ [0]) /\ canonical 0 v /\
       len (text v ++ [0]) <= 64) /\
    (status <> JSON_OK -> out = None).
Proof.
  apply (canonicalize_total late_refusal (sample_manifest ++ [0]) true 64).
  - apply bytes_okb_ok. vm_compute. reflexivity.
  - left. apply in_or_app. right. by left.
  - vm_compute. split; discriminate.
Defined.

(** A manifest that is an unterminated string literal, with at least one
    character, is not a syntax error: it is canonicalized to the empty string. *)
Theorem unclosed_literal_accepted malloc_ok s max_out :
  (forall n, malloc_ok n = true) -> utf8_valid s -> s <> [] ->
  1 + len (esc_text s) <= ALRIOS_JSON_MAX_INPUT -> 2 < max_out <= SIZE_MAX ->
  alrios_manifest_canonicalize malloc_ok (Some (QUOTE :: esc_text s ++ [0])) true max_out
  = Ok (JSON_OK, Some [QUOTE; QUOTE; 0]).
Proof.
  intros Hmem Hs Hne Hl Hm. pose proof (esc_text_len s) as He.
  assert (len s <= len (esc_text s)) by (unfold len; lia).
  change (QUOTE :: esc_text s ++ [0]) with ((QUOTE :: esc_text s) ++ 0 :: []).
  pose proof (len_nonneg (esc_text s)). unfold ALRIOS_JSON_MAX_INPUT in Hl.
  rewrite canonicalize_eq; [| |rewrite len_cons; unfold ALRIOS_JSON_MAX_INPUT; lia|lia].
  2: { constructor; [unfold QUOTE; lia|by apply esc_text_no_nul]. }
  unfold canonical_text. rewrite (parse_value_solid malloc_ok Hmem)
    by (unfold solid, QUOTE, ALRIOS_JSON_MAX_DEPTH; lia).
  change (QUOTE =? 123) with false. change (QUOTE =? 91) with false. rewrite Z.eqb_refl.
  rewrite (parse_string_unclosed malloc_ok Hmem) by (done || lia). cbn [obind].
  change (skip_whitespace []) with (@nil Z). rewrite len_nil. cbn [negb Z.eqb]. rewrite Hmem.
  cbn [negb]. rewrite write_value_fits by (rewrite ?len_nil; lia).
  unfold fits. change (len []) with 0. change (len (text (JSON_STRING []))) with 2. by decide_if.
Qed.

Lemma unclosed_literal_accepted_witness :
  alrios_manifest_canonicalize (fun _ => true) (Some (QUOTE :: esc_text (lit "abc") ++ [0])) true 8
  = Ok (JSON_OK, Some [QUOTE; QUOTE; 0]).
Proof.
  apply (unclosed_literal_accepted (fun _ => true) (lit "abc") 8).
  - done.
  - exists [97; 98; 99]. split; [|done]. repeat constructor; lia.
  - done.
  - vm_compute. discriminate.
  - vm_compute. split; [reflexivity|discriminate].
Defined.
