(* ===== verification/ArappV2.v ===== *)
(** The package container, format version 2: its validation
    (src/libraries/package/arapp_v2_reader.c).

    The specification is the encoder [encode] of a package [package_v2]: magic,
    fixed header fields in network order, three digests and two signature slots,
    the canonical manifest and the ciphertext. The validator accepts the
    encodings of well-formed packages and nothing else. *)

From S2P Require Import Prelude Bytes JsonText ManifestCanon.

Definition ARAPP_MAGIC_SIZE : Z := 16.

Definition ARAPP_VERSION : Z := 2.

Definition PREFIX_SIZE : Z := 144.

Definition SIGNATURES_SIZE : Z := 3392.

Definition HEADER_SIZE : Z := PREFIX_SIZE + SIGNATURES_SIZE.

Definition MAX_MANIFEST_SIZE : Z := 1024 * 1024.

Definition ARCH_X86_64 : Z := 1.

Definition ARCH_AARCH64 : Z := 2.

Definition ARCH_RISCV64 : Z := 3.

Definition FLAG_PROFILE_SOVEREIGN : Z := Z.shiftl 1 0.

Definition FLAG_PROFILE_ENTERPRISE : Z := Z.shiftl 1 1.

Definition FLAG_PROFILE_PERFORMANCE : Z := Z.shiftl 1 2.

Definition FLAG_RING_SOVEREIGN : Z := Z.shiftl 1 3.

Definition FLAG_RING_DEVMODE : Z := Z.shiftl 1 4.

Definition FLAG_PQC_HYBRID_SIG : Z := Z.shiftl 1 6.

Definition FLAGS_MASK : Z := 255.

Definition GCM_IV_SIZE : Z := 12.

Definition GCM_TAG_SIZE : Z := 16.

Definition SHA512_SIZE : Z := 64.

Definition ED25519_SIGNATURE_SIZE : Z := 64.

Definition ML_DSA_65_SIGNATURE_SIZE : Z := 3309.

Definition ML_DSA_65_ALIGNED_SIZE : Z := 3328.

Definition SIGNATURE_PADDING_SIZE : Z := ML_DSA_65_ALIGNED_SIZE - ML_DSA_65_SIGNATURE_SIZE.

Definition ARAPP_OK : Z := 0.

Definition ARAPP_ERR_ARGUMENT : Z := -3001.

Definition ARAPP_ERR_TRUNCATED : Z := -3002.

Definition ARAPP_ERR_MAGIC : Z := -3003.

Definition ARAPP_ERR_VERSION : Z := -3004.

Definition ARAPP_ERR_ARCH : Z := -3005.

Definition ARAPP_ERR_FLAGS : Z := -3006.

Definition ARAPP_ERR_LAYOUT : Z := -3007.

Definition ARAPP_ERR_MANIFEST : Z := -3008.

Definition ARAPP_ERR_TIME : Z := -3009.

Definition ARAPP_ERR_PADDING : Z := -3010.

Definition ARAPP_ERR_MEMORY : Z := -3011.

(** [{ 'A', 'L', ..., 'P', 0U }] *)
Definition arapp_v2_magic : bytes := lit "ALRIGROUP@ARAPP" ++ [0].

(** ** The view: fields, and offsets of the borrowed regions ([None]: NULL) *)

Record view := mk_view {
  v_target_arch : Z;
  v_flags : Z;
  v_issued_at : Z;
  v_expires_at : Z;
  v_prefix : option Z;
  v_prefix_len : Z;
  v_header_len : Z;
  v_ed25519_signature : option Z;
  v_ml_dsa_65_signature : option Z;
  v_manifest : option Z;
  v_manifest_len : Z;
  v_ciphertext : option Z;
  v_ciphertext_len : Z;
  v_gcm_iv : option Z;
  v_gcm_tag : option Z;
  v_cleartext_sha512 : option Z;
}.

(** [memset(out_view, 0, sizeof( *out_view))] *)
Definition zero_view : view := mk_view 0 0 0 0 None 0 0 None None None 0 None 0 None None None.

(** ** Helpers of the reader *)

Definition read_u16_be (value : bytes) : Z := load_u16_be value.

Definition read_u32_be (value : bytes) : Z := load_u32_be value.

Definition read_u64_be (value : bytes) : Z := load_u64_be value.

Definition checked_add_size (left right : Z) : option Z :=
  if right >? SIZE_MAX - left then None else Some (left + right).

(** [for (...) accumulator |= data\[index\]; return accumulator == 0U;] *)
Definition bytes_all_zero (data : bytes) : bool :=
  fold_left (fun accumulator byte => Z.lor accumulator byte) data 0 =? 0.

Definition valid_architecture (architecture : Z) : bool :=
  (architecture =? ARCH_X86_64) || (architecture =? ARCH_AARCH64) || (architecture =? ARCH_RISCV64).

(** [flags & bits != 0U] *)
Definition flag_set (flags bits : Z) : bool := negb (Z.land flags bits =? 0).

Definition valid_flags (flags : Z) : bool :=
  let profiles := Z.land flags
    (Z.lor (Z.lor FLAG_PROFILE_SOVEREIGN FLAG_PROFILE_ENTERPRISE) FLAG_PROFILE_PERFORMANCE) in
  let rings := Z.land flags (Z.lor FLAG_RING_SOVEREIGN FLAG_RING_DEVMODE) in
  if flag_set flags (u32 (Z.lnot FLAGS_MASK)) then false
  else if (profiles =? 0) || flag_set profiles (u32 (profiles - 1)) then false
  else if (rings =? 0) || flag_set rings (u32 (rings - 1)) then false
  else if flag_set flags FLAG_PROFILE_SOVEREIGN && negb (flag_set flags FLAG_RING_SOVEREIGN)
  then false
  else if flag_set flags FLAG_RING_SOVEREIGN && negb (flag_set flags FLAG_PQC_HYBRID_SIG)
  then false
  else true.

Definition valid_time_window (issued_at expires_at now max_clock_skew : Z) : bool :=
  if (issued_at =? 0) || (expires_at =? 0) || (issued_at >=? expires_at) then false
  else
    let latest_acceptable_issue := now in
    let latest_acceptable_issue :=
      if max_clock_skew >? UINT64_MAX - latest_acceptable_issue then UINT64_MAX
      else latest_acceptable_issue + max_clock_skew in
    if (issued_at >? latest_acceptable_issue) || (now >? expires_at) then false else true.

Section Reader.
(** Does [malloc] serve this request? *)
Context (malloc_ok : request -> bool).

(** [manifest] is what lies behind the pointer from there on. *)
Definition validate_canonical_manifest (manifest : bytes) (manifest_len : Z) : res Z :=
  if (manifest_len =? 0) || (manifest_len >? MAX_MANIFEST_SIZE) then Ok ARAPP_ERR_MANIFEST
  else
    let! content := rd 0 manifest_len manifest in
    if existsb (fun byte => byte =? 0) content || negb (at_ content 0 =? 123)
    then Ok ARAPP_ERR_MANIFEST
    else
      match checked_add_size manifest_len 1 with
      | None => Ok ARAPP_ERR_MANIFEST
      | Some capacity =>
          if negb (malloc_ok (mk_request Canon_input 0 capacity)) || negb (malloc_ok (mk_request Canon_output 0 capacity)) then Ok ARAPP_ERR_MEMORY
          else
            let input := content ++ [0] in
            let! result := alrios_manifest_canonicalize malloc_ok (Some input) true capacity in
            match result with
            | (canonical_status, Some canonical) =>
                if (canonical_status =? 0) && (len (cstr canonical) =? manifest_len)
                   && bytes_eqb (sub 0 manifest_len canonical) content
                then Ok ARAPP_OK else Ok ARAPP_ERR_MANIFEST
            | (_, None) => Ok ARAPP_ERR_MANIFEST
            end
      end.

Definition input_range_fits (start data_len : Z) : bool := data_len <=? UINT64_MAX - start.

(** The checks of [alrios_arapp_v2_validate] after the argument checks, on the
    bytes behind [data]: the view, or the status. *)
Definition validate_container (data : bytes) (data_len now max_clock_skew : Z) : res view :=
  fail_if data_len <? HEADER_SIZE with ARAPP_ERR_TRUNCATED;;
  let! magic := rd 0 ARAPP_MAGIC_SIZE data in
  fail_if negb (bytes_eqb magic arapp_v2_magic) with ARAPP_ERR_MAGIC;;
  let! b_version := rd 16 2 data in
  let! b_architecture := rd 18 2 data in
  let! b_flags := rd 20 4 data in
  let! b_issued_at := rd 24 8 data in
  let! b_expires_at := rd 32 8 data in
  let! b_header_size := rd 40 4 data in
  let! b_manifest_len := rd 44 4 data in
  let! b_ciphertext_len := rd 48 4 data in
  let version := read_u16_be b_version in
  let architecture := read_u16_be b_architecture in
  let flags := read_u32_be b_flags in
  let issued_at := read_u64_be b_issued_at in
  let expires_at := read_u64_be b_expires_at in
  let header_size := read_u32_be b_header_size in
  let manifest_len := read_u32_be b_manifest_len in
  let ciphertext_len := read_u32_be b_ciphertext_len in
  fail_if negb (version =? ARAPP_VERSION) with ARAPP_ERR_VERSION;;
  fail_if negb (valid_architecture architecture) with ARAPP_ERR_ARCH;;
  fail_if negb (valid_flags flags) with ARAPP_ERR_FLAGS;;
  fail_if negb (header_size =? HEADER_SIZE) || (manifest_len =? 0)
          || (manifest_len >? MAX_MANIFEST_SIZE) with ARAPP_ERR_LAYOUT;;
  match checked_add_size header_size manifest_len with
  | None => Err ARAPP_ERR_LAYOUT
  | Some manifest_end =>
      match checked_add_size manifest_end ciphertext_len with
      | None => Err ARAPP_ERR_LAYOUT
      | Some expected_size =>
          fail_if negb (expected_size =? data_len) with ARAPP_ERR_LAYOUT;;
          fail_if negb (valid_time_window issued_at expires_at now max_clock_skew)
            with ARAPP_ERR_TIME;;
          let! padding := rd (PREFIX_SIZE + ED25519_SIGNATURE_SIZE + ML_DSA_65_SIGNATURE_SIZE)
                            SIGNATURE_PADDING_SIZE data in
          fail_if negb (bytes_all_zero padding) with ARAPP_ERR_PADDING;;
          let! result := validate_canonical_manifest (drop (Z.to_nat header_size) data) manifest_len in
          fail_if negb (result =? ARAPP_OK) with result;;
          Ok (mk_view architecture flags issued_at expires_at
                (Some 0) PREFIX_SIZE header_size
                (Some PREFIX_SIZE) (Some (PREFIX_SIZE + ED25519_SIGNATURE_SIZE))
                (Some header_size) manifest_len
                (Some manifest_end) ciphertext_len
                (Some 52) (Some 64) (Some 80))
      end
  end.

(** Status and the view stored, if [out_view] is there. *)
Definition alrios_arapp_v2_validate (data : ptr bytes) (data_len now max_clock_skew : Z)
    (out_view : bool) : res (Z * option view) :=
  if negb out_view then Ok (ARAPP_ERR_ARGUMENT, None)
  else
    match data with
    | NULL => Ok (ARAPP_ERR_ARGUMENT, Some zero_view)
    | At start content =>
        if negb (input_range_fits start data_len) then Ok (ARAPP_ERR_LAYOUT, Some zero_view)
        else
          match validate_container content data_len now max_clock_skew with
          | Ok v => Ok (ARAPP_OK, Some v)
          | Err status => Ok (status, Some zero_view)
          | Fault => Fault
          end
    end.
End Reader.

#[export] Hint Unfold ARAPP_MAGIC_SIZE ARAPP_VERSION PREFIX_SIZE SIGNATURES_SIZE HEADER_SIZE
  MAX_MANIFEST_SIZE GCM_IV_SIZE GCM_TAG_SIZE SHA512_SIZE ED25519_SIGNATURE_SIZE
  ML_DSA_65_SIGNATURE_SIZE ML_DSA_65_ALIGNED_SIZE SIGNATURE_PADDING_SIZE
  ALRIOS_JSON_MAX_INPUT SIZE_MAX UINT64_MAX : consts.

(** ** Specification *)

Record package_v2 := mk_package {
  p_arch : Z;
  p_flags : Z;
  p_issued : Z;
  p_expires : Z;
  p_iv : bytes;
  p_tag : bytes;
  p_sha : bytes;
  p_ed : bytes;
  p_ml : bytes;
  p_manifest : list (bytes * json);
  p_ciphertext : bytes;
}.

(** The manifest is the text of an object. *)
Definition manifest_text (p : package_v2) : bytes := text (JSON_OBJECT (p_manifest p)).

Definition encode_prefix (p : package_v2) : bytes :=
  arapp_v2_magic ++ store_u16_be ARAPP_VERSION ++ store_u16_be (p_arch p)
  ++ store_u32_be (p_flags p) ++ store_u64_be (p_issued p) ++ store_u64_be (p_expires p)
  ++ store_u32_be HEADER_SIZE ++ store_u32_be (len (manifest_text p))
  ++ store_u32_be (len (p_ciphertext p)) ++ p_iv p ++ p_tag p ++ p_sha p.

Definition encode (p : package_v2) : bytes :=
  encode_prefix p ++ p_ed p ++ p_ml p ++ zeros SIGNATURE_PADDING_SIZE
  ++ manifest_text p ++ p_ciphertext p.

(** The fields have the sizes of the format. *)
Record sized (p : package_v2) : Prop := {
  sz_arch : 0 <= p_arch p < 2 ^ 16;
  sz_flags : 0 <= p_flags p < 2 ^ 32;
  sz_issued : 0 <= p_issued p < 2 ^ 64;
  sz_expires : 0 <= p_expires p < 2 ^ 64;
  sz_iv : len (p_iv p) = GCM_IV_SIZE /\ bytes_ok (p_iv p);
  sz_tag : len (p_tag p) = GCM_TAG_SIZE /\ bytes_ok (p_tag p);
  sz_sha : len (p_sha p) = SHA512_SIZE /\ bytes_ok (p_sha p);
  sz_ed : len (p_ed p) = ED25519_SIGNATURE_SIZE /\ bytes_ok (p_ed p);
  sz_ml : len (p_ml p) = ML_DSA_65_SIGNATURE_SIZE /\ bytes_ok (p_ml p);
  sz_manifest : len (manifest_text p) <= MAX_MANIFEST_SIZE;
  sz_ciphertext : len (p_ciphertext p) < 2 ^ 32 /\ bytes_ok (p_ciphertext p);
}.

(** Exactly one of the bits [bits] is set. *)
Definition exactly_one (flags : Z) (bits : list Z) : Prop :=
  exists b, b ∈ bits /\ forall c, c ∈ bits -> (Z.testbit flags c = true <-> c = b).

(** One profile (bits 0 to 2), one ring (3, 4), no unknown bit; the sovereign
    profile implies its ring, which implies hybrid signatures (bit 6). *)
Record flags_ok (flags : Z) : Prop := {
  fl_known : flags < 256;
  fl_profile : exactly_one flags [0; 1; 2];
  fl_ring : exactly_one flags [3; 4];
  fl_sovereign : Z.testbit flags 0 = true -> Z.testbit flags 3 = true;
  fl_hybrid : Z.testbit flags 3 = true -> Z.testbit flags 6 = true;
}.

Record well_formed (now skew : Z) (p : package_v2) : Prop := {
  wf_sized : sized p;
  wf_arch : 1 <= p_arch p <= 3;
  wf_flags : flags_ok (p_flags p);
  wf_issued : 0 < p_issued p < p_expires p;
  wf_window : p_issued p <= now + skew /\ now <= p_expires p;
  wf_manifest : canonical 0 (JSON_OBJECT (p_manifest p));
}.

(** What the view tells of a package. *)
Definition view_of (p : package_v2) : view :=
  mk_view (p_arch p) (p_flags p) (p_issued p) (p_expires p)
    (Some 0) 144 3536 (Some 144) (Some 208) (Some 3536) (len (manifest_text p))
    (Some (3536 + len (manifest_text p))) (len (p_ciphertext p)) (Some 52) (Some 64) (Some 80).

(** The specification of flag words below 256, as a program. *)
Definition count_bits (f : Z) (bits : list Z) : Z :=
  fold_right (fun b n => (if Z.testbit f b then 1 else 0) + n) 0 bits.

Definition flags_okb (f : Z) : bool :=
  (count_bits f [0; 1; 2] =? 1) && (count_bits f [3; 4] =? 1)
  && implb (Z.testbit f 0) (Z.testbit f 3) && implb (Z.testbit f 3) (Z.testbit f 6).

(** The text of a package's manifest, when its length is within the format. *)
Definition manifest_of (content : bytes) : Prop :=
  exists ms, content = text (JSON_OBJECT ms) /\ canonical 0 (JSON_OBJECT ms).

(** The package the fields of a container denote. *)
Definition package_of (d : bytes) (ms : list (bytes * json)) : package_v2 :=
  mk_package (load_u16_be (sub 18 2 d)) (load_u32_be (sub 20 4 d)) (load_u64_be (sub 24 8 d))
    (load_u64_be (sub 32 8 d)) (sub 52 12 d) (sub 64 16 d) (sub 80 64 d) (sub 144 64 d)
    (sub 208 3309 d) ms (sub (3536 + load_u32_be (sub 44 4 d)) (load_u32_be (sub 48 4 d)) d).

Definition sample_members : list (bytes * json) := [(lit "id", JSON_STRING (lit "a"))].

Definition sample_package : package_v2 :=
  mk_package 1 18 1000 2000 (zeros 12) (zeros 16) (zeros 64) (zeros 64) (zeros 3309)
    sample_members [1; 2; 3].

(** ** The scalar checks *)

Lemma bytes_all_zero_loop data acc :
  fold_left (fun a b => Z.lor a b) data acc = 0 <-> acc = 0 /\ Forall (fun b => b = 0) data.
Proof.
  revert acc. induction data as [|x data IH]; intros acc; cbn [fold_left].
  - split; [intros ->; split; [done|constructor]|tauto].
  - rewrite IH, Z.lor_eq_0_iff, Forall_cons_iff. tauto.
Qed.

Lemma bytes_all_zero_iff data : bytes_all_zero data = true <-> data = zeros (len data).
Proof.
  unfold bytes_all_zero. rewrite Z.eqb_eq, bytes_all_zero_loop. unfold zeros, len.
  rewrite Nat2Z.id. split.
  - intros [_ H]. induction H as [|x data -> _ IH]; [done|]. simpl. by f_equal.
  - intros ->. split; [done|]. by apply Forall_replicate.
Qed.

(** A flag word without unknown bits is a byte. *)
Lemma flags_known f : 0 <= f < 2 ^ 32 -> flag_set f (u32 (Z.lnot FLAGS_MASK)) = false <-> f < 256.
Proof.
  intros Hf. unfold flag_set. rewrite negb_false_iff, Z.eqb_eq.
  change (u32 (Z.lnot FLAGS_MASK)) with (Z.shiftl (Z.ones 24) 8). split; intros H.
  - assert (E : f = f mod 2 ^ 8); [|rewrite E; apply Z.mod_pos_bound; lia].
    apply Z.bits_inj'. intros i Hi. rewrite Z.testbit_mod_pow2 by lia.
    destruct (i <? 8) eqn:E8; bool_hyps; [done|]. cbn [andb].
    destruct (Z.lt_ge_cases i 32) as [E32|E32].
    + assert (Hb : Z.testbit (Z.land f (Z.shiftl (Z.ones 24) 8)) i = false) by (rewrite H; apply Z.bits_0).
      rewrite Z.land_spec, Z.shiftl_spec, Z.ones_spec_low, andb_true_r in Hb by lia. done.
    + rewrite <- (Z.mod_small f (2 ^ 32)) by done. by apply Z.mod_pow2_bits_high.
  - rewrite <- (Z.mod_small f (2 ^ 8)) by lia. apply Z.bits_inj'. intros i Hi.
    rewrite Z.land_spec, Z.bits_0, Z.testbit_mod_pow2 by lia.
    destruct (i <? 8) eqn:E8; bool_hyps; [|done].
    rewrite (Z.shiftl_spec_low _ 8) by done. apply andb_false_r.
Qed.

Lemma exactly_one_3 f a b c : a <> b -> a <> c -> b <> c ->
  count_bits f [a; b; c] = 1 <-> exactly_one f [a; b; c].
Proof.
  intros Hab Hac Hbc. unfold count_bits, exactly_one. cbn [fold_right].
  setoid_rewrite elem_of_cons. setoid_rewrite elem_of_cons. setoid_rewrite list_elem_of_singleton.
  split.
  - destruct (Z.testbit f a) eqn:Ea, (Z.testbit f b) eqn:Eb, (Z.testbit f c) eqn:Ec; try done; intros _;
      [exists a|exists b|exists c]; (split; [tauto|]);
      intros i [->|[->| ->]]; split; congruence.
  - intros (i & Hi & H).
    pose proof (H a ltac:(tauto)). pose proof (H b ltac:(tauto)). pose proof (H c ltac:(tauto)).
    destruct (Z.testbit f a), (Z.testbit f b), (Z.testbit f c);
      destruct Hi as [->|[->| ->]]; intuition congruence.
Qed.

Lemma exactly_one_2 f a b : a <> b -> count_bits f [a; b] = 1 <-> exactly_one f [a; b].
Proof.
  intros Hab. unfold count_bits, exactly_one. cbn [fold_right].
  setoid_rewrite elem_of_cons. setoid_rewrite list_elem_of_singleton. split.
  - destruct (Z.testbit f a) eqn:Ea, (Z.testbit f b) eqn:Eb; try done; intros _;
      [exists a|exists b]; (split; [tauto|]); intros i [->| ->]; split; congruence.
  - intros (i & Hi & H).
    pose proof (H a ltac:(tauto)). pose proof (H b ltac:(tauto)).
    destruct (Z.testbit f a), (Z.testbit f b);
      destruct Hi as [->| ->]; intuition congruence.
Qed.

Lemma valid_flags_iff f : 0 <= f < 2 ^ 32 -> valid_flags f = true <-> flags_ok f.
Proof.
  intros Hf. assert (Hb : f < 256 -> valid_flags f = flags_okb f).
  { intros ?. use_range 256%nat (fun f => Bool.eqb (valid_flags f) (flags_okb f)) f Hx.
    by apply eqb_prop. }
  transitivity (f < 256 /\ flags_okb f = true).
  - split.
    + intros H. assert (f < 256).
      { apply flags_known; [done|]. unfold valid_flags in H. by destruct (flag_set f _). }
      by rewrite <- Hb.
    + intros [H E]. by rewrite Hb.
  - unfold flags_okb. rewrite !andb_true_iff, !implb_true_iff, !Z.eqb_eq, exactly_one_3, exactly_one_2 by lia.
    split; [intros (? & ((? & ?) & ?) & ?); by constructor|intros []; tauto].
Qed.

Lemma valid_time_window_iff issued expires now skew :
  0 <= issued < 2 ^ 64 -> 0 <= expires -> 0 <= now < 2 ^ 64 -> 0 <= skew < 2 ^ 64 ->
  valid_time_window issued expires now skew = true
  <-> 0 < issued < expires /\ issued <= now + skew /\ now <= expires.
Proof.
  intros. unfold valid_time_window, UINT64_MAX. rewrite !Z.gtb_ltb, !Z.geb_leb.
  destruct (_ <? skew) eqn:Es; bool_hyps; split.
  all: try (intros E; repeat split_if_in E; bool_hyps; try done; lia).
  all: intros E; by repeat decide_if.
Qed.

Lemma checked_add_some left right sum :
  checked_add_size left right = Some sum <-> sum = left + right /\ left + right <= SIZE_MAX.
Proof.
  unfold checked_add_size. rewrite Z.gtb_ltb. destruct (_ <? right) eqn:E; bool_hyps.
  - split; [done|lia].
  - split; [intros [= <-]; lia|by intros [-> _]].
Qed.

(** ** The manifest *)

(** A canonical text that opens with a brace is that of an object. *)
Lemma text_object v t : canonical 0 v -> text v = 123 :: t -> exists ms, v = JSON_OBJECT ms.
Proof.
  destruct 1 as [d|d b Hd [-> | ->]|d t' Hd [->|(m & y & ds & -> & ? & _)]|d s|d l|d l];
    cbn [text]; intros E; try discriminate E.
  - destruct m; injection E; lia.
  - by eexists.
Qed.

Lemma existsb_no_nul s : existsb (fun byte => byte =? 0) s = false <-> no_nul s.
Proof.
  unfold no_nul. induction s as [|x s IH]; cbn [existsb]; [by split|].
  rewrite orb_false_iff, IH, Z.eqb_neq, Forall_cons_iff. done.
Qed.

Section Manifest.
Context (malloc_ok : request -> bool) (Hmem : forall n, malloc_ok n = true).

(** Canonicalizing a manifest gives it back exactly when it is canonical. *)
Lemma canonical_text_object content :
  bytes_ok content -> no_nul content -> at_ content 0 = 123 ->
  1 <= len content <= MAX_MANIFEST_SIZE ->
  canonical_text malloc_ok content (len content + 1) = Done content <-> manifest_of content.
Proof.
  intros Hok Hn H0 Hl. unfold MAX_MANIFEST_SIZE in Hl. split.
  - pose proof (canonical_text_good malloc_ok content (len content + 1) Hok ltac:(clia)) as Hg.
    intros E. rewrite E in Hg. destruct Hg as (v & Hv & Ev & _).
    destruct content as [|x t]; [rewrite len_nil in Hl; lia|].
    change (x = 123) in H0. subst x. destruct (text_object v t Hv (eq_sym Ev)) as (ms & ->).
    by exists ms.
  - intros (ms & -> & Hv). apply canonical_text_fixed; [done|done|clia|clia].
Qed.

Lemma validate_canonical_manifest_spec manifest n :
  bytes_ok manifest -> 1 <= n <= MAX_MANIFEST_SIZE -> n <= len manifest ->
  exists status, validate_canonical_manifest malloc_ok manifest n = Ok status /\
    (status = ARAPP_OK \/ status = ARAPP_ERR_MANIFEST) /\
    (status = ARAPP_OK <-> manifest_of (sub 0 n manifest)).
Proof.
  intros Hok Hn Hl. unfold validate_canonical_manifest. rewrite !Z.gtb_ltb. decide_if.
  rewrite rd_ok by lia. cbn [rbind].
  assert (Hc : len (sub 0 n manifest) = n) by (apply len_sub; lia).
  assert (Hco : bytes_ok (sub 0 n manifest)) by auto with buf.
  revert Hc Hco. generalize (sub 0 n manifest). intros content Hc Hco.
  assert (Hno : forall P : Prop, ~ P -> exists status : Z, Ok ARAPP_ERR_MANIFEST = Ok status /\
    (status = ARAPP_OK \/ status = ARAPP_ERR_MANIFEST) /\ (status = ARAPP_OK <-> P)).
  { intros P HP. exists ARAPP_ERR_MANIFEST. split; [done|]. split; [by right|]. by split. }
  destruct (existsb _ content) eqn:Ee; cbn [orb].
  { apply Hno. intros (ms & -> & Hv). apply text_no_nul, existsb_no_nul in Hv. congruence. }
  apply existsb_no_nul in Ee.
  destruct (at_ content 0 =? 123) eqn:E0; cbn [negb orb]; bool_hyps.
  2: { apply Hno. intros (ms & -> & Hv). by cbn in E0. }
  rewrite (proj2 (checked_add_some n 1 (n + 1))) by clia. rewrite !Hmem. cbn [negb orb].
  pose proof (canonical_text_object content Hco Ee E0 ltac:(lia)) as Hiff. rewrite Hc in Hiff.
  pose proof (canonical_text_good malloc_ok content (n + 1) Hco ltac:(clia)) as Hg.
  rewrite (canonicalize_eq malloc_ok content []) by (done || clia).
  destruct (canonical_text malloc_ok content (n + 1)) as [o|e|]; cbn [rbind]; [| |done].
  2: { apply Hno. intros Hm. apply Hiff in Hm. done. }
  destruct Hg as (v & Hv & Eo & _). subst o. change (JSON_OK =? 0) with true. cbn [andb].
  rewrite (cstr_terminated (text v) []) by (by apply (text_no_nul 0)).
  destruct (len (text v) =? n) eqn:El; cbn [andb]; bool_hyps.
  2: { apply Hno. intros Hm. apply Hiff in Hm. injection Hm as Hm. rewrite Hm in El. lia. }
  rewrite sub_here by done. destruct (bytes_eqb (text v) content) eqn:Eb.
  - apply bytes_eqb_eq in Eb. exists ARAPP_OK. split; [done|]. split; [by left|].
    split; [|done]. intros _. apply Hiff. by rewrite Eb.
  - apply bytes_eqb_neq in Eb. apply Hno. intros Hm. apply Hiff in Hm. by injection Hm.
Qed.
End Manifest.

(** ** The codec *)

Lemma len_magic : len arapp_v2_magic = 16.
Proof. reflexivity. Qed.

Lemma len_encode_prefix p : sized p -> len (encode_prefix p) = 144.
Proof.
  intros []. unfold encode_prefix. autounfold with consts in *.
  rewrite !len_app, len_magic. autorewrite with buf. lia.
Qed.

Lemma len_manifest_text p : canonical 0 (JSON_OBJECT (p_manifest p)) -> 1 <= len (manifest_text p).
Proof. intros H. by apply text_pos in H. Qed.

Lemma len_encode p : sized p ->
  len (encode p) = 3536 + len (manifest_text p) + len (p_ciphertext p).
Proof.
  intros Hs. unfold encode. rewrite !len_app, len_encode_prefix by done. destruct Hs.
  autounfold with consts in *. rewrite len_zeros by lia. lia.
Qed.

Lemma manifest_text_ok p : canonical 0 (JSON_OBJECT (p_manifest p)) -> bytes_ok (manifest_text p).
Proof. apply text_ok. Qed.

Lemma encode_bytes_ok now skew p : well_formed now skew p -> bytes_ok (encode p).
Proof.
  intros [[] ? ? ? ? Hm]. apply manifest_text_ok in Hm. unfold encode, encode_prefix.
  rewrite !bytes_ok_app. repeat (split; [|try (auto with buf; tauto)]); try (auto with buf; tauto).
  apply bytes_okb_ok. reflexivity.
Qed.

Lemma valid_arch_iff a : valid_architecture a = true <-> 1 <= a <= 3.
Proof.
  unfold valid_architecture, ARCH_X86_64, ARCH_AARCH64, ARCH_RISCV64.
  rewrite !orb_true_iff, !Z.eqb_eq. lia.
Qed.

Section Codec.
Context (malloc_ok : request -> bool) (Hmem : forall n, malloc_ok n = true).
Context (now skew : Z) (Hnow : 0 <= now < 2 ^ 64) (Hskew : 0 <= skew < 2 ^ 64).

(** What the manifest check reads in an encoded package. *)
Lemma encode_rest p : sized p ->
  drop (Z.to_nat HEADER_SIZE) (encode p) = manifest_text p ++ p_ciphertext p.
Proof.
  intros Hs. pose proof (len_encode_prefix p Hs). destruct Hs. unfold encode.
  rewrite !app_assoc. rewrite <- (app_assoc _ (manifest_text p)).
  apply drop_app_length'. autounfold with consts in *.
  rewrite !length_app. unfold zeros. rewrite length_replicate. unfold len in *. lia.
Qed.

(** A well-formed package is accepted, with its view. *)
Lemma validate_encode p : well_formed now skew p ->
  validate_container malloc_ok (encode p) (len (encode p)) now skew = Ok (view_of p).
Proof.
  intros Hwf. pose proof (encode_bytes_ok _ _ _ Hwf) as Hok. destruct Hwf as [Hs Ha Hf Hi Hw Hm].
  pose proof (len_encode p Hs) as Hl. pose proof (encode_rest p Hs) as Hrest.
  pose proof (len_manifest_text p Hm) as Hml. pose proof (len_nonneg (p_ciphertext p)).
  assert (Hok' : bytes_ok (manifest_text p ++ p_ciphertext p)) by (rewrite <- Hrest; by apply Forall_drop).
  unfold validate_container. rewrite Hl. clear Hl Hok.
  destruct Hs as [? ? ? ? [? _] [? _] [? _] [? _] [? _] ? [? _]].
  unfold encode, encode_prefix in *. rewrite <- !app_assoc in *. pose proof len_magic.
  autounfold with consts in *. rewrite reject_false by clia.
  next_field. rewrite bytes_eqb_refl. rewrite (reject_false _ ARAPP_ERR_MAGIC) by done.
  do 8 next_field. unfold read_u16_be, read_u32_be, read_u64_be.
  rewrite !load_store_u16, !load_store_u32, !load_store_u64 by clia.
  rewrite (reject_false _ ARAPP_ERR_VERSION) by done.
  rewrite (proj2 (valid_arch_iff _)), (reject_false _ ARAPP_ERR_ARCH) by done.
  rewrite (proj2 (valid_flags_iff (p_flags p) ltac:(done))), (reject_false _ ARAPP_ERR_FLAGS) by done.
  rewrite (reject_false _ ARAPP_ERR_LAYOUT) by (rewrite Z.gtb_ltb; clia).
  rewrite (proj2 (checked_add_some _ _ (3536 + len (manifest_text p)))) by clia.
  rewrite (proj2 (checked_add_some _ _ (3536 + len (manifest_text p) + len (p_ciphertext p)))) by clia.
  rewrite Z.eqb_refl, (reject_false _ ARAPP_ERR_LAYOUT) by done.
  rewrite (proj2 (valid_time_window_iff (p_issued p) (p_expires p) now skew ltac:(lia) ltac:(lia) Hnow Hskew)) by lia.
  rewrite (reject_false _ ARAPP_ERR_TIME) by done.
  next_field. rewrite (proj2 (bytes_all_zero_iff _)) by (by rewrite len_zeros by lia).
  rewrite (reject_false _ ARAPP_ERR_PADDING) by done.
  rewrite Hrest. destruct (validate_canonical_manifest_spec malloc_ok Hmem
    (manifest_text p ++ p_ciphertext p) (len (manifest_text p))) as (st & -> & _ & Hst).
  - done.
  - clia.
  - rewrite len_app. lia.
  - cbn [rbind]. rewrite sub_here in Hst by done.
    rewrite (proj2 Hst) by (by exists (p_manifest p)). done.
Qed.

(** The tests an accepted container passes. *)
Record container_accepted (d : bytes) (v : view) : Prop := {
  ac_size : 3536 <= len d;
  ac_magic : sub 0 16 d = arapp_v2_magic;
  ac_version : load_u16_be (sub 16 2 d) = ARAPP_VERSION;
  ac_arch : 1 <= load_u16_be (sub 18 2 d) <= 3;
  ac_flags : flags_ok (load_u32_be (sub 20 4 d));
  ac_window : 0 < load_u64_be (sub 24 8 d) < load_u64_be (sub 32 8 d) /\
    load_u64_be (sub 24 8 d) <= now + skew /\ now <= load_u64_be (sub 32 8 d);
  ac_header : load_u32_be (sub 40 4 d) = HEADER_SIZE;
  ac_manifest_len : 1 <= load_u32_be (sub 44 4 d) <= MAX_MANIFEST_SIZE;
  ac_total : HEADER_SIZE + load_u32_be (sub 44 4 d) + load_u32_be (sub 48 4 d) = len d;
  ac_padding : sub 3517 19 d = zeros 19;
  ac_manifest : manifest_of (sub 3536 (load_u32_be (sub 44 4 d)) d);
  ac_view : v = mk_view (load_u16_be (sub 18 2 d)) (load_u32_be (sub 20 4 d))
    (load_u64_be (sub 24 8 d)) (load_u64_be (sub 32 8 d)) (Some 0) 144 3536 (Some 144) (Some 208)
    (Some 3536) (load_u32_be (sub 44 4 d)) (Some (3536 + load_u32_be (sub 44 4 d)))
    (load_u32_be (sub 48 4 d)) (Some 52) (Some 64) (Some 80);
}.

Lemma container_accepted_inv d v :
  bytes_ok d -> validate_container malloc_ok d (len d) now skew = Ok v -> container_accepted d v.
Proof.
  intros Hok H. unfold validate_container in H. res_inv H. unfold read_u16_be, read_u32_be, read_u64_be in *.
  autounfold with consts in *.
  destruct (checked_add_size _ _) as [me|] eqn:E1; [|done]. apply checked_add_some in E1 as [-> _].
  destruct (checked_add_size _ _) as [es|] eqn:E2; [|done]. apply checked_add_some in E2 as [-> _].
  res_inv H. injection H as <-. rewrite !Z.gtb_ltb in *. bool_hyps.
  assert (Hr : forall off n, 0 <= off -> 0 <= n -> off + n <= len d -> bytes_ok (sub off n d) /\ len (sub off n d) = n).
  { intros. split; [auto with buf|by apply len_sub]. }
  pose proof (load_u32_bound (sub 20 4 d) ltac:(apply Hr; lia) ltac:(apply Hr; lia)).
  pose proof (load_u32_bound (sub 48 4 d) ltac:(apply Hr; lia) ltac:(apply Hr; lia)).
  pose proof (load_u32_bound (sub 44 4 d) ltac:(apply Hr; lia) ltac:(apply Hr; lia)).
  pose proof (load_u64_bound (sub 24 8 d) ltac:(apply Hr; lia) ltac:(apply Hr; lia)).
  pose proof (load_u64_bound (sub 32 8 d) ltac:(apply Hr; lia) ltac:(apply Hr; lia)).
  repeat match goal with
  | H : bytes_eqb _ _ = true |- _ => apply bytes_eqb_eq in H
  | H : valid_architecture _ = true |- _ => apply valid_arch_iff in H
  | H : valid_flags _ = true |- _ => apply valid_flags_iff in H; [|done]
  | H : valid_time_window _ _ _ _ = true |- _ => apply valid_time_window_iff in H; [|lia..]
  | H : bytes_all_zero _ = true |- _ => apply bytes_all_zero_iff in H; rewrite len_sub in H by lia
  end.
  match goal with Hv : validate_canonical_manifest _ ?m ?n = Ok ?st |- _ =>
    destruct (validate_canonical_manifest_spec malloc_ok Hmem m n) as (st' & Est & _ & Hst) end.
  - by apply Forall_drop.
  - autounfold with consts. lia.
  - rewrite len_drop. lia.
  - assert (Hman : manifest_of (sub 3536 (load_u32_be (sub 44 4 d)) d)).
    { match goal with Hd : load_u32_be (sub 40 4 d) = _ |- _ => rewrite Hd in * end.
      rewrite sub_drop in Hst by lia. apply Hst. congruence. }
    match goal with Hd : load_u32_be (sub 40 4 d) = _ |- _ => rewrite Hd in * end.
    constructor; try done; autounfold with consts; lia.
Qed.

(** An accepted container is the encoding of a well-formed package. *)
Lemma container_accepted_encode d v :
  bytes_ok d -> container_accepted d v ->
  exists p, well_formed now skew p /\ d = encode p /\ v = view_of p.
Proof.
  intros Hok [Hsz Hm Hver Ha Hf Hw Hh Hml Ht Hp (ms & Ems & Hms) ->].
  exists (package_of d ms). autounfold with consts in *.
  assert (Hr : forall off n, 0 <= off -> 0 <= n -> off + n <= len d -> bytes_ok (sub off n d) /\ len (sub off n d) = n).
  { intros. split; [auto with buf|by apply len_sub]. }
  pose proof (load_u16_bound (sub 18 2 d) ltac:(apply Hr; lia) ltac:(apply Hr; lia)).
  pose proof (load_u32_bound (sub 20 4 d) ltac:(apply Hr; lia) ltac:(apply Hr; lia)).
  pose proof (load_u32_bound (sub 48 4 d) ltac:(apply Hr; lia) ltac:(apply Hr; lia)).
  pose proof (load_u64_bound (sub 24 8 d) ltac:(apply Hr; lia) ltac:(apply Hr; lia)).
  pose proof (load_u64_bound (sub 32 8 d) ltac:(apply Hr; lia) ltac:(apply Hr; lia)).
  assert (Emt : manifest_text (package_of d ms) = sub 3536 (load_u32_be (sub 44 4 d)) d) by by rewrite Ems.
  assert (Hlm : len (manifest_text (package_of d ms)) = load_u32_be (sub 44 4 d)) by (rewrite Emt; apply Hr; lia).
  assert (Hlc : len (p_ciphertext (package_of d ms)) = load_u32_be (sub 48 4 d)) by (apply Hr; lia).
  split; [|split].
  - constructor; [|done|done|cbn; lia|cbn; lia|done].
    constructor; autounfold with consts; cbn [package_of p_arch p_flags p_issued p_expires p_iv p_tag p_sha p_ed p_ml]; try lia;
      try (split; apply Hr; lia). split; [lia|apply Hr; lia].
  - assert (E16 : store_u16_be 2 = sub 16 2 d)
      by (rewrite <- Hver at 1; apply store_load_u16; apply Hr; lia).
    assert (E40 : store_u32_be (144 + 3392) = sub 40 4 d)
      by (rewrite <- Hh; apply store_load_u32; apply Hr; lia).
    unfold encode, encode_prefix. rewrite Hlm, Hlc, Emt.
    cbn [package_of p_arch p_flags p_issued p_expires p_iv p_tag p_sha p_ed p_ml p_ciphertext].
    autounfold with consts. rewrite E16, E40, <- Hm.
    change (zeros (3328 - 3309)) with (zeros 19). rewrite <- Hp.
    rewrite !store_load_u16, !store_load_u32, !store_load_u64 by (apply Hr; lia).
    rewrite <- !app_assoc, !sub_join by lia. symmetry. apply sub_all. lia.
  - unfold view_of. by rewrite Hlm, Hlc.
Qed.
End Codec.

(** A package is determined by its encoding. *)
Lemma encode_inj now skew now' skew' p q :
  well_formed now skew p -> well_formed now' skew' q -> encode p = encode q -> p = q.
Proof.
  intros [Hp _ _ _ _ Cp] [Hq _ _ _ _ Cq] E. unfold encode, encode_prefix in E.
  rewrite <- !app_assoc in E. pose proof (len_nonneg (manifest_text p)). pose proof (len_nonneg (p_ciphertext p)).
  pose proof (len_nonneg (manifest_text q)). pose proof (len_nonneg (p_ciphertext q)).
  destruct Hp as [? ? ? ? [? _] [? _] [? _] [? _] [? _] ? [? _]],
    Hq as [? ? ? ? [? _] [? _] [? _] [? _] [? _] ? [? _]]. autounfold with consts in *.
  do 9 (apply app_split in E as [? E]; [|done]).
  do 6 (apply app_split in E as [? E]; [|lia]).
  repeat match goal with
  | H : store_u16_be (p_arch _) = _ |- _ => apply store16_inj in H; [|lia..]
  | H : store_u32_be (p_flags _) = _ |- _ => apply store32_inj in H; [|lia..]
  | H : store_u32_be (len _) = _ |- _ => apply store32_inj in H; [|lia..]
  | H : store_u64_be _ = _ |- _ => apply store64_inj in H; [|lia..]
  end.
  apply app_split in E as [Em Ec]; [|done].
  apply text_inj in Em; [|done|done|unfold manifest_text in *; lia]. injection Em as Em.
  destruct p, q. cbn in *. by subst.
Qed.

(** ** Memory safety *)

Lemma canonical_manifest_safe malloc_ok manifest n :
  bytes_ok manifest -> 0 <= n <= len manifest ->
  exists status, validate_canonical_manifest malloc_ok manifest n = Ok status.
Proof.
  intros Hok Hn. unfold validate_canonical_manifest. rewrite Z.gtb_ltb.
  destruct (n =? 0) eqn:E0, (MAX_MANIFEST_SIZE <? n) eqn:E1; cbn [orb]; try by eexists.
  bool_hyps. rewrite rd_ok by lia. cbn [rbind].
  assert (Hc : len (sub 0 n manifest) = n) by (apply len_sub; lia).
  assert (Hco : bytes_ok (sub 0 n manifest)) by auto with buf.
  revert Hc Hco. generalize (sub 0 n manifest). intros content Hc Hco.
  destruct (existsb _ content) eqn:Ee; cbn [orb]; [by eexists|]. apply existsb_no_nul in Ee.
  destruct (negb _); [by eexists|].
  rewrite (proj2 (checked_add_some n 1 (n + 1))) by clia.
  destruct (_ || _); [by eexists|].
  pose proof (canonical_text_good malloc_ok content (n + 1) Hco ltac:(clia)) as Hg.
  rewrite (canonicalize_eq malloc_ok content []) by (done || clia).
  destruct (canonical_text malloc_ok content (n + 1)); cbn [rbind]; [|by eexists|done].
  destruct (_ && _); by eexists.
Qed.

Lemma validate_container_safe malloc_ok d n now skew :
  bytes_ok d -> n <= len d -> validate_container malloc_ok d n now skew <> Fault.
Proof.
  intros Hok Hn. unfold validate_container. autounfold with consts.
  apply reject_no_fault. intros Hs. bool_hyps.
  repeat first [apply rbind_no_fault; [apply rd_no_fault; lia|intros ? Hx; apply rd_inv in Hx as (-> & _)]
               | apply reject_no_fault; intros ?].
  unfold read_u32_be in *.
  assert (Hr : forall off k, 0 <= off -> 0 <= k -> off + k <= len d -> bytes_ok (sub off k d) /\ len (sub off k d) = k).
  { intros. split; [auto with buf|by apply len_sub]. }
  pose proof (load_u32_bound (sub 48 4 d) ltac:(apply Hr; lia) ltac:(apply Hr; lia)).
  pose proof (load_u32_bound (sub 44 4 d) ltac:(apply Hr; lia) ltac:(apply Hr; lia)).
  destruct (checked_add_size _ _) as [me|] eqn:E1; [|done]. apply checked_add_some in E1 as [-> _].
  destruct (checked_add_size _ _) as [es|] eqn:E2; [|done]. apply checked_add_some in E2 as [-> _].
  rewrite ?Z.gtb_ltb in *. bool_hyps.
  repeat first [apply rbind_no_fault; [apply rd_no_fault; lia|intros ? Hx; apply rd_inv in Hx as (-> & _)]
               | apply reject_no_fault; intros ?].
  bool_hyps. apply rbind_no_fault; [|intros ? _; by apply reject_no_fault].
  match goal with |- validate_canonical_manifest _ ?m ?k <> _ =>
    destruct (canonical_manifest_safe malloc_ok m k) as (st & ->); [by apply Forall_drop| |done] end.
  rewrite len_drop. lia.
Qed.

Lemma validate_container_proper malloc_ok d n now skew :
  proper_err (validate_container malloc_ok d n now skew).
Proof.
  assert (Hm : forall m k, proper_err (validate_canonical_manifest malloc_ok m k)).
  { intros m k. unfold validate_canonical_manifest. split_if; [apply ok_proper|].
    apply rbind_proper; [apply rd_proper|intros c]. split_if; [apply ok_proper|].
    destruct (checked_add_size _ _); [|apply ok_proper]. split_if; [apply ok_proper|].
    apply rbind_proper.
    - intros e. unfold alrios_manifest_canonicalize. split_if; [done|].
      destruct (input_length_loop _ _); [|done]. split_if; [done|]. by destruct (canonical_text _ _ _).
    - intros [st [c'|]]; [split_if|]; apply ok_proper. }
  unfold validate_container. cbv zeta.
  repeat first [apply reject_status_proper | apply reject_proper; [done|] | apply rbind_proper; [|intros ?]
    | apply rd_proper | apply Hm | apply ok_proper
    | match goal with |- context [checked_add_size ?a ?b] => destruct (checked_add_size a b) end
    | by intros ? [= <-]].
Qed.

(** The whole call, on a container that lies within the address space. *)
Lemma validate_accepts_iff malloc_ok addr d now skew v :
  (forall n, malloc_ok n = true) -> bytes_ok d -> addr + len d <= UINT64_MAX ->
  0 <= now < 2 ^ 64 -> 0 <= skew < 2 ^ 64 ->
  alrios_arapp_v2_validate malloc_ok (At addr d) (len d) now skew true = Ok (ARAPP_OK, Some v)
  <-> exists p, well_formed now skew p /\ d = encode p /\ v = view_of p.
Proof.
  intros Hmem Hok Ha Hn Hs. unfold alrios_arapp_v2_validate, input_range_fits. cbn [negb].
  decide_if. cbn [negb]. pose proof (validate_container_proper malloc_ok d (len d) now skew) as Hp.
  split.
  - destruct (validate_container _ _ _ _ _) as [v'|e|] eqn:E; [|intros [= ->]; by destruct (Hp 0)|done].
    intros [= ->]. eapply container_accepted_encode; [done|]. by eapply container_accepted_inv.
  - intros (p & Hwf & -> & ->). by rewrite validate_encode.
Qed.

(** ** An enterprise package in the developer ring *)

Lemma ascii_utf8 s : forallb (fun x => (0 <=? x) && (x <? 128)) s = true -> utf8_valid s.
Proof.
  intros H. exists s. assert (Hs : Forall (fun x => 0 <= x < 128) s).
  { apply List.Forall_forall. intros x Hx. apply (proj1 (forallb_forall _ _) H) in Hx. bool_hyps. lia. }
  clear H. split.
  - eapply Forall_impl; [|exact Hs]. intros x ?. cbv beta in *. unfold scalar. lia.
  - induction Hs as [|x s Hx _ IH]; [done|]. rewrite utf8_cons, octets_ascii by lia.
    cbn [app]. by rewrite <- IH.
Qed.

Lemma sample_canonical_object : canonical 0 (JSON_OBJECT sample_members).
Proof.
  constructor; [by vm_compute| |repeat constructor]. constructor; [|constructor]. split.
  - by apply ascii_utf8.
  - constructor; [by vm_compute|by apply ascii_utf8].
Qed.

Lemma sized_okb p :
  (0 <=? p_arch p) && (p_arch p <? 2 ^ 16) && (0 <=? p_flags p) && (p_flags p <? 2 ^ 32)
  && (0 <=? p_issued p) && (p_issued p <? 2 ^ 64) && (0 <=? p_expires p) && (p_expires p <? 2 ^ 64)
  && (len (p_iv p) =? 12) && bytes_okb (p_iv p) && (len (p_tag p) =? 16) && bytes_okb (p_tag p)
  && (len (p_sha p) =? 64) && bytes_okb (p_sha p) && (len (p_ed p) =? 64) && bytes_okb (p_ed p)
  && (len (p_ml p) =? 3309) && bytes_okb (p_ml p) && (len (manifest_text p) <=? 1024 * 1024)
  && (len (p_ciphertext p) <? 2 ^ 32) && bytes_okb (p_ciphertext p) = true -> sized p.
Proof.
  intros H. rewrite !andb_true_iff in H.
  repeat match goal with
  | H : _ /\ _ |- _ => destruct H
  | H : bytes_okb _ = true |- _ => apply bytes_okb_ok in H
  end. bool_hyps. by constructor.
Qed.

Lemma sample_package_wf now : 1000 <= now <= 2000 -> well_formed now 300 sample_package.
Proof.
  intros Hn. constructor; cbn [sample_package p_arch p_flags p_issued p_expires p_manifest]; try lia.
  - apply sized_okb. vm_compute. reflexivity.
  - apply valid_flags_iff; [lia|]. vm_compute. reflexivity.
  - apply sample_canonical_object.
Qed.

(** ** Properties *)

(** C3: the validator accepts a container, at a time [now] and with a clock
    skew [skew], exactly when it is the encoding of a well-formed package: known
    architecture, one profile and one ring that agree with each other and with the
    signature flag, the time window open, the padding zero, a canonical
    manifest object and no byte besides. The view describes that package. *)
Theorem arapp_validate_correct malloc_ok addr d now skew v :
  (forall n, malloc_ok n = true) -> bytes_ok d -> addr + len d <= UINT64_MAX ->
  0 <= now < 2 ^ 64 -> 0 <= skew < 2 ^ 64 ->
  alrios_arapp_v2_validate malloc_ok (At addr d) (len d) now skew true = Ok (ARAPP_OK, Some v)
  <-> exists p, well_formed now skew p /\ d = encode p /\ v = view_of p.
Proof. apply validate_accepts_iff. Qed.

Lemma arapp_validate_correct_witness :
  exists p, well_formed 1500 300 p /\ encode sample_package = encode p /\
    view_of sample_package = view_of p.
Proof.
  apply (arapp_validate_correct (fun _ => true) 4096 (encode sample_package) 1500 300).
  - done.
  - apply bytes_okb_ok. vm_compute. reflexivity.
  - vm_compute. discriminate.
  - lia.
  - lia.
  - vm_compute. reflexivity.
Defined.

(** Whichever allocations fail, and whatever the bytes, the validator reads
    nothing outside the [data_len] bytes it was given, and on every failure it
    leaves the view zeroed; a status of success comes with a view whose regions lie
    inside the container. *)
Theorem arapp_validate_safe malloc_ok addr d data_len now skew :
  bytes_ok d -> 0 <= data_len <= len d ->
  exists status v, alrios_arapp_v2_validate malloc_ok (At addr d) data_len now skew true = Ok (status, Some v) /\
    (status <> ARAPP_OK -> v = zero_view) /\
    (status = ARAPP_OK -> v_header_len v = HEADER_SIZE /\
       v_header_len v + v_manifest_len v + v_ciphertext_len v = data_len /\
       v_manifest v = Some (v_header_len v) /\ v_ciphertext v = Some (v_header_len v + v_manifest_len v)).
Proof.
  intros Hok Hn. unfold alrios_arapp_v2_validate. cbn [negb].
  destruct (input_range_fits addr data_len); cbn [negb]; [|by eexists _, _].
  pose proof (validate_container_proper malloc_ok d data_len now skew) as Hp.
  pose proof (validate_container_safe malloc_ok d data_len now skew Hok ltac:(lia)) as Hs.
  destruct (validate_container _ _ _ _ _) as [v|e|] eqn:E; [| |done].
  - exists ARAPP_OK, v. split; [done|]. split; [done|]. intros _.
    unfold validate_container in E. res_inv E.
    destruct (checked_add_size _ _) as [me|] eqn:E1; [|done]. apply checked_add_some in E1 as [-> _].
    destruct (checked_add_size _ _) as [es|] eqn:E2; [|done]. apply checked_add_some in E2 as [-> _].
    res_inv E. bool_hyps. injection E as <-. cbn. split_and!; [done|lia|done|done].
  - exists e, zero_view. split; [done|]. split; [done|]. intros ->. by destruct (Hp 0).
Qed.

(** A container whose declared sizes exceed it, and an allocator that fails. *)
Lemma arapp_validate_safe_witness :
  exists status v, alrios_arapp_v2_validate (fun _ => false) (At 0 (encode sample_package)) 3540 1500 300 true
      = Ok (status, Some v) /\
    (status <> ARAPP_OK -> v = zero_view) /\
    (status = ARAPP_OK -> v_header_len v = HEADER_SIZE /\
       v_header_len v + v_manifest_len v + v_ciphertext_len v = 3540 /\
       v_manifest v = Some (v_header_len v) /\ v_ciphertext v = Some (v_header_len v + v_manifest_len v)).
Proof.
  apply (arapp_validate_safe (fun _ => false) 0 (encode sample_package) 3540 1500 300).
  - apply bytes_okb_ok. vm_compute. reflexivity.
  - vm_compute. split; discriminate.
Defined.
