(* ===== verification/ArappSign.v ===== *)
(** Signatures of version 2 packages (src/libraries/package/arapp_v2_signatures.c).

    Both signatures cover the SHA-512 digest of the container less its signature
    area; each has its own slot there. Keys and primitives come from EvpApi.v. *)

From S2P Require Import Prelude Bytes CryptoUtils EvpApi JsonText ManifestCanon ArappV2.

Definition SIG_OK : Z := 0.

Definition SIG_ERR_ARGUMENT : Z := -3101.

Definition SIG_ERR_SIGN : Z := -3103.

Definition SIG_ERR_VERIFY : Z := -3104.

Definition SIG_ERR_POLICY : Z := -3105.

Definition SIG_ERR_TAMPERED : Z := -3106.

Definition SIG_ERR_UNAVAILABLE : Z := -3107.

(** [OSSL_PARAM_construct_octet_string("context-string", "ALRIOS-ARAPP-V2", 15U)] *)
Definition arapp_context : bytes := lit "ALRIOS-ARAPP-V2".

Section Signatures.
Context {evp : EvpApi} (cfg : build_config).

(** The digest, or the status. The reads of the package are bounds-checked. *)
Definition compute_tbs_digest (package : bytes) (package_len : Z) : res bytes :=
  fail_if package_len <? HEADER_SIZE with SIG_ERR_ARGUMENT;;
  fail_if negb evp_md_ctx_new with SIG_ERR_SIGN;;
  let! prefix := rd 0 PREFIX_SIZE package in
  let! rest :=
    if package_len >? HEADER_SIZE then
      let! r := rd HEADER_SIZE (package_len - HEADER_SIZE) package in Ok [r]
    else Ok [] in
  match evp_sha512 (prefix :: rest) with
  | None => Err SIG_ERR_SIGN
  | Some digest => if len digest =? 64 then Ok digest else Err SIG_ERR_SIGN
  end.

(** One signing call: the digest, the signature into the slot at [slot], and the
    check of its length. Status and the package afterwards. *)
Definition sign_slot (package : bytes) (package_len : Z) (key : pkey) (context : bytes)
    (slot size : Z) : res (Z * bytes) :=
  match compute_tbs_digest package package_len with
  | Fault => Fault
  | Err status => Ok (status, package)
  | Ok tbs_digest =>
      if negb evp_md_ctx_new then Ok (SIG_ERR_SIGN, package)
      else
        match evp_sign key context size tbs_digest with
        | None => Ok (SIG_ERR_SIGN, package)
        | Some sig =>
            let package := upd slot sig package in
            if len sig =? size then Ok (SIG_OK, package) else Ok (SIG_ERR_SIGN, package)
        end
  end.

Definition verify_slot (package : bytes) (package_len : Z) (key : pkey) (context : bytes)
    (slot size : Z) : res Z :=
  match compute_tbs_digest package package_len with
  | Fault => Fault
  | Err status => Ok status
  | Ok tbs_digest =>
      if negb evp_md_ctx_new then Ok SIG_ERR_VERIFY
      else if negb (evp_verify_init key context) then Ok SIG_ERR_VERIFY
      else
        let! sig := rd slot size package in
        if negb (evp_verify key context sig tbs_digest) then Ok SIG_ERR_TAMPERED else Ok SIG_OK
  end.

Definition alrios_arapp_v2_sign_ed25519 (package : option bytes) (package_len : Z)
    (ed25519_key : option pkey) : res (Z * option bytes) :=
  match package, ed25519_key with
  | Some p, Some key =>
      if package_len <? HEADER_SIZE then Ok (SIG_ERR_ARGUMENT, package)
      else
        let! (status, p) :=
          sign_slot p package_len key [] PREFIX_SIZE ED25519_SIGNATURE_SIZE in
        Ok (status, Some p)
  | _, _ => Ok (SIG_ERR_ARGUMENT, package)
  end.

Definition alrios_arapp_v2_verify_ed25519 (package : option bytes) (package_len : Z)
    (ed25519_pubkey : option pkey) : res Z :=
  match package, ed25519_pubkey with
  | Some p, Some key =>
      if package_len <? HEADER_SIZE then Ok SIG_ERR_ARGUMENT
      else verify_slot p package_len key [] PREFIX_SIZE ED25519_SIGNATURE_SIZE
  | _, _ => Ok SIG_ERR_ARGUMENT
  end.

(** Without [ALRIOS_HAVE_ML_DSA_65] the two functions answer UNAVAILABLE. *)
Definition alrios_arapp_v2_sign_ml_dsa_65 (package : option bytes) (package_len : Z)
    (ml_dsa_key : option pkey) : res (Z * option bytes) :=
  if negb (have_ml_dsa_65 cfg) then Ok (SIG_ERR_UNAVAILABLE, package)
  else
    match package, ml_dsa_key with
    | Some p, Some key =>
        if package_len <? HEADER_SIZE then Ok (SIG_ERR_ARGUMENT, package)
        else
          let! (status, p) :=
            sign_slot p package_len key arapp_context
              (PREFIX_SIZE + ED25519_SIGNATURE_SIZE) ML_DSA_65_SIGNATURE_SIZE in
          Ok (status, Some p)
    | _, _ => Ok (SIG_ERR_ARGUMENT, package)
    end.

Definition alrios_arapp_v2_verify_ml_dsa_65 (package : option bytes) (package_len : Z)
    (ml_dsa_pubkey : option pkey) : res Z :=
  if negb (have_ml_dsa_65 cfg) then Ok SIG_ERR_UNAVAILABLE
  else
    match package, ml_dsa_pubkey with
    | Some p, Some key =>
        if package_len <? HEADER_SIZE then Ok SIG_ERR_ARGUMENT
        else verify_slot p package_len key arapp_context
               (PREFIX_SIZE + ED25519_SIGNATURE_SIZE) ML_DSA_65_SIGNATURE_SIZE
    | _, _ => Ok SIG_ERR_ARGUMENT
    end.

Definition alrios_arapp_v2_verify_hybrid (package : option bytes) (package_len : Z)
    (ed25519_pubkey ml_dsa_pubkey : option pkey) (require_pqc : Z) : res Z :=
  match package, ed25519_pubkey with
  | Some _, Some _ =>
      if package_len <? HEADER_SIZE then Ok SIG_ERR_ARGUMENT
      else
        let! ed_status := alrios_arapp_v2_verify_ed25519 package package_len ed25519_pubkey in
        if negb (ed_status =? SIG_OK) then Ok ed_status
        else
          match ml_dsa_pubkey with
          | None => if negb (require_pqc =? 0) then Ok SIG_ERR_POLICY else Ok SIG_OK
          | Some _ =>
              let! ml_status := alrios_arapp_v2_verify_ml_dsa_65 package package_len ml_dsa_pubkey in
              if (ml_status =? SIG_ERR_UNAVAILABLE) && (require_pqc =? 0) then Ok SIG_OK
              else Ok ml_status
          end
  | _, _ => Ok SIG_ERR_ARGUMENT
  end.

(** ** Specification *)

(** The octets both signatures cover. *)
Definition tbs_parts (p : package_v2) : list bytes := [encode_prefix p; manifest_text p ++ p_ciphertext p].

Definition with_ed (p : package_v2) (sig : bytes) : package_v2 :=
  mk_package (p_arch p) (p_flags p) (p_issued p) (p_expires p) (p_iv p) (p_tag p) (p_sha p)
    sig (p_ml p) (p_manifest p) (p_ciphertext p).

Definition with_ml (p : package_v2) (sig : bytes) : package_v2 :=
  mk_package (p_arch p) (p_flags p) (p_issued p) (p_expires p) (p_iv p) (p_tag p) (p_sha p)
    (p_ed p) sig (p_manifest p) (p_ciphertext p).

(** The signature [sig] of a package's covered octets verifies. *)
Definition signature_good (p : package_v2) (key : pkey) (context sig : bytes) : Prop :=
  evp_md_ctx_new = true /\
  exists digest, evp_sha512 (tbs_parts p) = Some digest /\
    evp_verify_init key context = true /\ evp_verify key context sig digest = true.
End Signatures.

(** ** Signing and verifying an encoded package *)

Section Proofs.
Context {evp : EvpApi} {laws : EvpLaws evp} (cfg : build_config).

(** A package whose container can be signed: the format's sizes, a manifest. *)
Definition signable (p : package_v2) : Prop := sized p /\ 1 <= len (manifest_text p).

Lemma wf_signable now skew p : well_formed now skew p -> signable p.
Proof. intros []. split; [done|by apply len_manifest_text]. Qed.

Lemma signable_len p : signable p -> 3537 <= len (encode p).
Proof.
  intros [Hs Hm]. rewrite len_encode by done. pose proof (len_nonneg (p_ciphertext p)). lia.
Qed.

Lemma encode_head p : signable p -> sub 0 PREFIX_SIZE (encode p) = encode_prefix p.
Proof.
  intros [Hs _]. unfold encode. apply sub_here; [done|]. by rewrite len_encode_prefix.
Qed.

Lemma encode_tail p : signable p ->
  sub HEADER_SIZE (len (encode p) - HEADER_SIZE) (encode p) = manifest_text p ++ p_ciphertext p.
Proof.
  intros [Hs Hm]. rewrite <- drop_sub, encode_rest; [done|done|].
  pose proof (signable_len p (conj Hs Hm)). autounfold with consts. lia.
Qed.

Lemma compute_tbs_encode p : signable p -> evp_md_ctx_new = true ->
  compute_tbs_digest (encode p) (len (encode p)) =
    match evp_sha512 (tbs_parts p) with Some digest => Ok digest | None => Err SIG_ERR_SIGN end.
Proof.
  intros Hp Hctx. pose proof (signable_len p Hp) as Hl. unfold compute_tbs_digest.
  rewrite reject_false by (autounfold with consts; lia). rewrite Hctx, reject_false by done.
  rewrite rd_ok by (autounfold with consts; lia). rewrite Z.gtb_ltb. cbn [rbind].
  rewrite (proj2 (Z.ltb_lt _ _)) by (autounfold with consts; lia).
  rewrite rd_ok by (autounfold with consts; lia). cbn [rbind].
  rewrite encode_head, encode_tail by done. unfold tbs_parts.
  destruct (evp_sha512 _) as [digest|] eqn:E; [|done].
  apply evp_sha512_len in E as [-> _]. done.
Qed.

(** A slot of the signature area is replaced by a signature of its size. *)
Lemma upd_ed p sig : signable p -> len sig = ED25519_SIGNATURE_SIZE ->
  upd PREFIX_SIZE sig (encode p) = encode (with_ed p sig).
Proof.
  intros [Hs _] Hl. pose proof (len_encode_prefix p Hs). destruct Hs as [? ? ? ? ? ? ? [He _] ? ? ?].
  unfold encode. rewrite upd_app_at by (autounfold with consts; lia). do 2 f_equal.
  apply drop_app_length'. unfold len in *. lia.
Qed.

Lemma upd_ml p sig : signable p -> len sig = ML_DSA_65_SIGNATURE_SIZE ->
  upd (PREFIX_SIZE + ED25519_SIGNATURE_SIZE) sig (encode p) = encode (with_ml p sig).
Proof.
  intros [Hs _] Hl. pose proof (len_encode_prefix p Hs). destruct Hs as [? ? ? ? ? ? ? [He _] [Hg _] ? ?].
  unfold encode. rewrite app_assoc, upd_app_at by (autounfold with consts in *; rewrite len_app; lia).
  rewrite <- app_assoc. do 3 f_equal. apply drop_app_length'. unfold len in *. lia.
Qed.

Lemma signable_ed p sig : signable p -> len sig = ED25519_SIGNATURE_SIZE -> bytes_ok sig ->
  signable (with_ed p sig).
Proof. intros [[] Hm] ? ?. split; [by constructor|done]. Qed.

Lemma signable_ml p sig : signable p -> len sig = ML_DSA_65_SIGNATURE_SIZE -> bytes_ok sig ->
  signable (with_ml p sig).
Proof. intros [[] Hm] ? ?. split; [by constructor|done]. Qed.

(** What a slot of an encoded package holds. *)
Lemma slot_ed p : signable p -> sub PREFIX_SIZE ED25519_SIGNATURE_SIZE (encode p) = p_ed p.
Proof.
  intros [Hs _]. pose proof (len_encode_prefix p Hs). destruct Hs as [? ? ? ? ? ? ? [He _] ? ? ?].
  unfold encode. autounfold with consts in *. rewrite sub_app_r by lia. apply sub_here; lia.
Qed.

Lemma slot_ml p : signable p ->
  sub (PREFIX_SIZE + ED25519_SIGNATURE_SIZE) ML_DSA_65_SIGNATURE_SIZE (encode p) = p_ml p.
Proof.
  intros [Hs _]. pose proof (len_encode_prefix p Hs). destruct Hs as [? ? ? ? ? ? ? [He _] [Hg _] ? ?].
  unfold encode. autounfold with consts in *. rewrite !sub_app_r by lia. apply sub_here; lia.
Qed.

(** A successful signing call stored a signature of the covered octets. *)
Lemma sign_slot_inv p key context slot size d :
  signable p -> 0 <= size ->
  sign_slot (encode p) (len (encode p)) key context slot size = Ok (SIG_OK, d) ->
  exists digest sig, evp_md_ctx_new = true /\ evp_sha512 (tbs_parts p) = Some digest /\
    evp_sign key context size digest = Some sig /\ len sig = size /\ bytes_ok sig /\
    d = upd slot sig (encode p).
Proof.
  intros Hp Hsz H. pose proof (signable_len p Hp). unfold sign_slot in H.
  destruct evp_md_ctx_new eqn:Hctx.
  2: { unfold compute_tbs_digest in H. rewrite Hctx in H. unfold reject in H.
       destruct (_ <? _) in H; by cbn in H. }
  rewrite compute_tbs_encode in H by done.
  destruct (evp_sha512 _) as [digest|]; cbn [negb] in H; [|done].
  destruct (evp_sign _ _ _ _) as [sig|] eqn:Es; [|done].
  destruct (len sig =? size) eqn:El; [|done]. bool_hyps. injection H as <-.
  exists digest, sig. pose proof (evp_sign_len key context size digest sig Hsz Es) as [_ ?]. done.
Qed.

Lemma sign_slot_ok p key context slot size digest sig :
  signable p -> evp_md_ctx_new = true -> evp_sha512 (tbs_parts p) = Some digest ->
  evp_sign key context size digest = Some sig -> len sig = size ->
  sign_slot (encode p) (len (encode p)) key context slot size = Ok (SIG_OK, upd slot sig (encode p)).
Proof.
  intros Hp Hctx Hd Hs Hl. unfold sign_slot. rewrite compute_tbs_encode by done.
  by rewrite Hd, Hctx, Hs, Hl, Z.eqb_refl.
Qed.

(** A slot verifies exactly when its signature is good. *)
Lemma verify_slot_iff p key context slot size :
  signable p -> 0 <= slot -> 0 <= size -> slot + size <= 3536 ->
  exists status, verify_slot (encode p) (len (encode p)) key context slot size = Ok status /\
    (status = SIG_OK <-> signature_good p key context (sub slot size (encode p))) /\
    status <> SIG_ERR_UNAVAILABLE.
Proof.
  intros Hp ? ? ?. pose proof (signable_len p Hp). unfold verify_slot, signature_good.
  destruct evp_md_ctx_new eqn:Hctx.
  2: { unfold compute_tbs_digest. rewrite Hctx, reject_false by (autounfold with consts; lia).
       cbn. exists SIG_ERR_SIGN. split; [done|]. split; [|done]. split; [done|by intros []]. }
  rewrite compute_tbs_encode by done.
  destruct (evp_sha512 (tbs_parts p)) as [digest|]; cbn [negb].
  2: { exists SIG_ERR_SIGN. split; [done|]. split; [|done]. split; [done|]. by intros (_ & ? & ? & _). }
  rewrite rd_ok by lia. cbn [rbind].
  destruct (evp_verify_init key context) eqn:Ei; cbn [negb].
  2: { exists SIG_ERR_VERIFY. split; [done|]. split; [|done]. split; [done|].
       intros (_ & ? & [= <-] & ? & _). done. }
  destruct (evp_verify key context _ digest) eqn:Ev; cbn [negb].
  - exists SIG_OK. split; [done|]. split; [|done]. split; [|done]. intros _. split; [done|]. by exists digest.
  - exists SIG_ERR_TAMPERED. split; [done|]. split; [|done]. split; [done|].
    intros (_ & ? & [= <-] & _ & ?). congruence.
Qed.

Lemma verify_ed_iff p key : signable p ->
  exists status, alrios_arapp_v2_verify_ed25519 (Some (encode p)) (len (encode p)) (Some key) = Ok status /\
    (status = SIG_OK <-> signature_good p key [] (p_ed p)).
Proof.
  intros Hp. pose proof (signable_len p Hp). unfold alrios_arapp_v2_verify_ed25519.
  rewrite (proj2 (Z.ltb_ge _ _)) by (autounfold with consts; lia).
  destruct (verify_slot_iff p key [] PREFIX_SIZE ED25519_SIGNATURE_SIZE) as (st & E & Hiff & _);
    [done|by autounfold with consts..|]. rewrite slot_ed in Hiff by done. by exists st.
Qed.

Lemma verify_ml_iff p key : signable p -> have_ml_dsa_65 cfg = true ->
  exists status, alrios_arapp_v2_verify_ml_dsa_65 cfg (Some (encode p)) (len (encode p)) (Some key) = Ok status /\
    (status = SIG_OK <-> signature_good p key arapp_context (p_ml p)) /\ status <> SIG_ERR_UNAVAILABLE.
Proof.
  intros Hp Hcfg. pose proof (signable_len p Hp). unfold alrios_arapp_v2_verify_ml_dsa_65.
  rewrite Hcfg. cbn [negb]. rewrite (proj2 (Z.ltb_ge _ _)) by (autounfold with consts; lia).
  destruct (verify_slot_iff p key arapp_context (PREFIX_SIZE + ED25519_SIGNATURE_SIZE)
    ML_DSA_65_SIGNATURE_SIZE) as (st & E & Hiff & Hu);
    [done|by autounfold with consts..|]. rewrite slot_ml in Hiff by done. by exists st.
Qed.

(** The acceptance condition of the hybrid check. *)
Definition hybrid_good (p : package_v2) (ed : pkey) (ml : option pkey) (require_pqc : Z) : Prop :=
  signature_good p ed [] (p_ed p) /\
  match ml with
  | None => require_pqc = 0
  | Some ml =>
      if have_ml_dsa_65 cfg then signature_good p ml arapp_context (p_ml p) else require_pqc = 0
  end.

Lemma verify_hybrid_iff p ed ml require_pqc : signable p ->
  alrios_arapp_v2_verify_hybrid cfg (Some (encode p)) (len (encode p)) (Some ed) ml require_pqc = Ok SIG_OK
  <-> hybrid_good p ed ml require_pqc.
Proof.
  intros Hp. pose proof (signable_len p Hp). unfold alrios_arapp_v2_verify_hybrid, hybrid_good.
  rewrite (proj2 (Z.ltb_ge _ _)) by (autounfold with consts; lia).
  destruct (verify_ed_iff p ed Hp) as (st & -> & Hed). cbn [rbind]. rewrite <- Hed.
  destruct (st =? SIG_OK) eqn:E; cbn [negb]; bool_hyps.
  2: { split; [intros [= ->]; done|by intros []]. }
  destruct ml as [ml|].
  - destruct (have_ml_dsa_65 cfg) eqn:Hc.
    + destruct (verify_ml_iff p ml Hp Hc) as (st' & -> & Hml & Hu). cbn [rbind].
      rewrite (proj2 (Z.eqb_neq _ _) Hu). cbn [andb]. rewrite <- Hml. split; [by intros [= ->]|by intros [_ ->]].
    + unfold alrios_arapp_v2_verify_ml_dsa_65. rewrite Hc. cbn [negb rbind]. rewrite Z.eqb_refl. cbn [andb].
      destruct (require_pqc =? 0) eqn:Er; bool_hyps; split; try done. by intros [_ ?].
  - destruct (require_pqc =? 0) eqn:Er; cbn [negb]; bool_hyps; split; try done. by intros [_ ?].
Qed.

Lemma good_of_sign p key context size digest sig :
  evp_md_ctx_new = true -> evp_sha512 (tbs_parts p) = Some digest ->
  evp_sign key context size digest = Some sig -> signature_good p key context sig.
Proof. intros ? ? Hs. split; [done|]. exists digest. split; [done|]. by eapply evp_sign_verify. Qed.

(** ** Properties *)

(** C31: signing a well-formed package with Ed25519 and then with ML-DSA-65 gives the
    encoding of the same package with both slots filled, still well-formed, which
    the hybrid check accepts under the two keys with post-quantum signatures
    required. The order of the two calls does not matter. *)
Theorem hybrid_sign_verify now skew p ed ml d1 d2 :
  have_ml_dsa_65 cfg = true -> well_formed now skew p ->
  alrios_arapp_v2_sign_ed25519 (Some (encode p)) (len (encode p)) (Some ed) = Ok (SIG_OK, Some d1) ->
  alrios_arapp_v2_sign_ml_dsa_65 cfg (Some d1) (len d1) (Some ml) = Ok (SIG_OK, Some d2) ->
  exists s1 s2, let q := with_ml (with_ed p s1) s2 in
    d2 = encode q /\ len d2 = len (encode p) /\ well_formed now skew q /\
    alrios_arapp_v2_verify_hybrid cfg (Some d2) (len d2) (Some ed) (Some ml) 1 = Ok SIG_OK /\
    exists d1', alrios_arapp_v2_sign_ml_dsa_65 cfg (Some (encode p)) (len (encode p)) (Some ml)
        = Ok (SIG_OK, Some d1') /\
      alrios_arapp_v2_sign_ed25519 (Some d1') (len d1') (Some ed) = Ok (SIG_OK, Some d2).
Proof.
  intros Hcfg Hwf H1 H2. pose proof (wf_signable _ _ _ Hwf) as Hp. pose proof (signable_len p Hp).
  assert (Hn : forall q, signable q -> (len (encode q) <? HEADER_SIZE) = false).
  { intros q Hq. pose proof (signable_len q Hq). apply Z.ltb_ge. autounfold with consts. lia. }
  unfold alrios_arapp_v2_sign_ed25519, alrios_arapp_v2_sign_ml_dsa_65 in *. rewrite Hcfg in *. cbn [negb] in *.
  rewrite Hn in * by done. apply rbind_ok_inv in H1 as ([st1 e1] & H1 & E). injection E as -> ->.
  destruct (sign_slot_inv p ed [] _ ED25519_SIGNATURE_SIZE _ Hp ltac:(by autounfold with consts) H1)
    as (digest & s1 & Hctx & Hd & Hs1 & Hl1 & Hb1 & ->).
  rewrite upd_ed in * by done. pose proof (signable_ed p s1 Hp Hl1 Hb1) as Hp1.
  rewrite Hn in H2 by done. apply rbind_ok_inv in H2 as ([st2 e2] & H2 & E). injection E as -> ->.
  destruct (sign_slot_inv (with_ed p s1) ml arapp_context _ ML_DSA_65_SIGNATURE_SIZE _ Hp1 ltac:(by autounfold with consts) H2)
    as (digest' & s2 & _ & Hd' & Hs2 & Hl2 & Hb2 & ->).
  change (tbs_parts (with_ed p s1)) with (tbs_parts p) in Hd'. rewrite Hd in Hd'. injection Hd' as <-.
  rewrite upd_ml in * by done. pose proof (signable_ml _ s2 Hp1 Hl2 Hb2) as Hp2.
  pose proof (signable_ml p s2 Hp Hl2 Hb2) as Hp2'.
  exists s1, s2. split; [done|]. split; [|split; [|split]].
  - rewrite !len_encode by (by apply Hp || by apply Hp2). done.
  - destruct Hwf. constructor; [by apply Hp2|done..].
  - apply verify_hybrid_iff; [done|]. unfold hybrid_good. rewrite Hcfg.
    split; by eapply good_of_sign.
  - rewrite (sign_slot_ok p ml _ _ _ digest s2) by done. cbn [rbind]. rewrite upd_ml by done.
    eexists. split; [done|]. rewrite Hn by done.
    rewrite (sign_slot_ok (with_ml p s2) ed _ _ _ digest s1) by done. cbn [rbind]. by rewrite upd_ed.
Qed.

(** The hybrid check accepts a package exactly when its Ed25519 signature is
    good and, with an ML-DSA-65 key, that signature is good too; a missing key, or a
    build without ML-DSA-65, is let through only when the policy does not
    require post-quantum signatures. *)
Theorem hybrid_verify_correct now skew p ed ml require_pqc :
  well_formed now skew p ->
  alrios_arapp_v2_verify_hybrid cfg (Some (encode p)) (len (encode p)) (Some ed) ml require_pqc = Ok SIG_OK
  <-> signature_good p ed [] (p_ed p) /\
      match ml with
      | None => require_pqc = 0
      | Some ml =>
          if have_ml_dsa_65 cfg then signature_good p ml arapp_context (p_ml p) else require_pqc = 0
      end.
Proof. intros Hwf. apply verify_hybrid_iff. by eapply wf_signable. Qed.
End Proofs.

(** ** A package signed with two keys of the checksum instance *)

Definition signed_with (p : package_v2) (ed ml : bytes) : bytes :=
  let digest := toy_sign [] [] 64 (concat (tbs_parts p)) in
  encode (with_ml (with_ed p (toy_sign ed [] 64 digest)) (toy_sign ml arapp_context 3309 digest)).

Definition pqc_build : build_config := {| have_ml_dsa_65 := true; have_ml_kem_768 := false |}.

Lemma hybrid_sign_verify_witness :
  exists s1 s2, let q := with_ml (with_ed sample_package s1) s2 in
    signed_with sample_package [1] [2] = encode q /\
    len (signed_with sample_package [1] [2]) = len (encode sample_package) /\
    well_formed 1500 300 q /\
    @alrios_arapp_v2_verify_hybrid toy_evp pqc_build (Some (signed_with sample_package [1] [2]))
      (len (signed_with sample_package [1] [2])) (Some [1]) (Some [2]) 1 = Ok SIG_OK /\
    exists d1', @alrios_arapp_v2_sign_ml_dsa_65 toy_evp pqc_build (Some (encode sample_package))
        (len (encode sample_package)) (Some [2]) = Ok (SIG_OK, Some d1') /\
      @alrios_arapp_v2_sign_ed25519 toy_evp (Some d1') (len d1') (Some [1])
        = Ok (SIG_OK, Some (signed_with sample_package [1] [2])).
Proof.
  apply (@hybrid_sign_verify toy_evp toy_evp_laws pqc_build 1500 300 sample_package [1] [2]
    (encode (with_ed sample_package
       (toy_sign [1] [] 64 (toy_sign [] [] 64 (concat (tbs_parts sample_package))))))).
  - reflexivity.
  - apply sample_package_wf. lia.
  - vm_refl.
  - vm_refl.
Defined.

(** Unsigned, the sample is rejected. *)
Lemma hybrid_verify_correct_witness :
  @alrios_arapp_v2_verify_hybrid toy_evp pqc_build (Some (encode sample_package))
    (len (encode sample_package)) (Some [1]) None 0 = Ok SIG_OK
  <-> @signature_good toy_evp sample_package [1] [] (p_ed sample_package) /\ 0 = 0.
Proof.
  apply (@hybrid_verify_correct toy_evp toy_evp_laws pqc_build 1500 300 sample_package [1] None 0).
  apply sample_package_wf. lia.
Defined.
