(* ===== verification/SupervisorPolicy.v ===== *)
(** The supervisor's boot-time policy (src/libraries/supervisor/policy.c): start-up
    with a trust directory, the admission rules of the three profiles, and the
    evaluation of a package file.

    The component composes Profiles.v, Certificate.v, TrustStore.v, Issuer.v,
    ArappV2.v and ArappSign.v. Files, the environment variable, allocation and
    the places of objects are the [machine] of a call. *)

From stdpp Require Import gmap.
From S2P Require Import Prelude Bytes CryptoUtils HashApi Sha512 Certificate TrustStore EvpApi Issuer Profiles JsonText ManifestCanon ArappV2 ArappSign.
#[local] Open Scope Z_scope.

Definition POLICY_OK : Z := 0.

Definition POLICY_ERR_ARGUMENT : Z := -3501.

Definition POLICY_ERR_REJECTED : Z := -3502.

Definition POLICY_ERR_DOWNGRADE : Z := -3503.

Definition POLICY_ERR_CAPABILITY : Z := -3504.

Definition POLICY_ERR_SIGNATURE : Z := -3505.

Definition POLICY_ERR_CERTIFICATE : Z := -3506.

Definition POLICY_ERR_IMMUTABLE : Z := -3507.

Definition POLICY_ERR_STATE : Z := -3508.

Definition POLICY_ERR_MEMORY : Z := -3509.

Definition POLICY_ERR_IO : Z := -3510.

Definition POLICY_ERR_FORMAT : Z := -3511.

Definition SUPERVISOR_POLICY_MAGIC : Z := 1095913548.

Definition POLICY_MAX_PACKAGE_SIZE : Z := 64 * 1024 * 1024.

Definition LEGACY_MAGIC : bytes := lit "ALRIGROUP@APP".

Definition LEGACY_MAGIC_SIZE : Z := 13.

Definition MAX_CLOCK_SKEW_SECONDS : Z := 300.

(** [alrios_app_requirements_t] *)
Record requirements := mk_req {
  container_flags : Z;
  required_capabilities : Z;
  req_pqc : Z;
  package_signed : Z;
  certificate_chain_valid : Z;
  ed25519_signature_present : Z;
  ed25519_signature_valid : Z;
  ml_dsa_signature_present : Z;
  ml_dsa_signature_valid : Z;
  developer_mode_verified : Z;
}.

(** An open file: what it holds, and which of the stdio calls succeed on it. *)
Record stream := {
  contents : bytes;
  seek_end_ok : bool;
  seek_set_ok : bool;
  read_ok : bool;
  close_ok : bool;
}.

(** What a call finds outside the component. *)
Record machine := {
  cfg : build_config;
  fopen : bytes -> option stream;
  malloc_ok : request -> bool;
  calloc_ok : bool;
  getenv_trust_level : option bytes;
  (** Addresses: file buffers, the certificates of the policy, the local [tbs]. *)
  buffer_at : Z;
  certificate_at : Z;
  leaf_at : Z;
  intermediate_at : Z;
  tbs_at_ : ptr bytes;
}.

Definition is_boolean (value : Z) : bool := (value =? 0) || (value =? 1).

Definition is_valid_profile (profile_ : Z) : bool :=
  (profile_ =? PROFILE_SOVEREIGN_MAX) || (profile_ =? PROFILE_ENTERPRISE_BAL)
  || (profile_ =? PROFILE_EDGE_PERF).

(** [value != 0] as a C [int]. *)
Definition int_of (b : bool) : Z := if b then 1 else 0.

Definition on (value : Z) : bool := negb (value =? 0).

(** [snprintf(buf, size, "%s", s)] with [buf] and [size] usable. *)
Definition snprintf_to (buf : option bytes) (size : Z) (s : bytes) : option bytes :=
  match buf with
  | None => None
  | Some b => if size >? 0 then Some (upd 0 (sub 0 (size - 1) s ++ [0]) b) else buf
  end.

(** [if (buf && size > 0U) buf\[0\] = '\0';] *)
Definition clear_text (buf : option bytes) (size : Z) : option bytes :=
  match buf with
  | None => None
  | Some b => if size >? 0 then Some (upd 0 [0] b) else buf
  end.

Definition hex_digit (d : Z) : Z := if d <? 10 then 48 + d else 87 + d.

(** ["%08x"] of a 32-bit value. *)
Definition hex8 (v : Z) : bytes :=
  map (fun i => hex_digit (Z.land (Z.shiftr v (4 * i)) 15)) [7; 6; 5; 4; 3; 2; 1; 0].

Definition set_reason (reason_buf : option bytes) (reason_len : Z) (reason : bytes) : option bytes :=
  snprintf_to reason_buf reason_len reason.

Definition validate_requirements (app_req : option requirements) : Z :=
  match app_req with
  | None => POLICY_ERR_ARGUMENT
  | Some r =>
      if flag_set (container_flags r) (u32 (Z.lnot FLAGS_MASK))
         || negb (is_boolean (req_pqc r)) || negb (is_boolean (package_signed r))
         || negb (is_boolean (certificate_chain_valid r))
         || negb (is_boolean (ed25519_signature_present r))
         || negb (is_boolean (ed25519_signature_valid r))
         || negb (is_boolean (ml_dsa_signature_present r))
         || negb (is_boolean (ml_dsa_signature_valid r))
         || negb (is_boolean (developer_mode_verified r))
      then POLICY_ERR_ARGUMENT
      else if on (ed25519_signature_valid r) && negb (on (ed25519_signature_present r))
         || on (ml_dsa_signature_valid r) && negb (on (ml_dsa_signature_present r))
         || on (certificate_chain_valid r) && negb (on (package_signed r))
         || negb (on (package_signed r))
            && (on (ed25519_signature_present r) || on (ml_dsa_signature_present r))
      then POLICY_ERR_ARGUMENT
      else POLICY_OK
  end.

Definition require_classical_signature (r : requirements) : Z :=
  if negb (on (package_signed r)) || negb (on (ed25519_signature_present r))
     || negb (on (ed25519_signature_valid r)) then POLICY_ERR_SIGNATURE
  else if negb (on (certificate_chain_valid r)) then POLICY_ERR_CERTIFICATE
  else POLICY_OK.

Definition require_hybrid_signature (r : requirements) : Z :=
  let result := require_classical_signature r in
  if negb (result =? POLICY_OK) then result
  else if negb (on (ml_dsa_signature_present r)) || negb (on (ml_dsa_signature_valid r))
     || negb (flag_set (container_flags r) FLAG_PQC_HYBRID_SIG) then POLICY_ERR_SIGNATURE
  else POLICY_OK.

(** "%s/%s" into a buffer of [capacity] bytes. *)
Definition make_trust_path (capacity : Z) (directory name : bytes) : Z * bytes :=
  if (capacity =? 0) || (len directory =? 0) then (POLICY_ERR_ARGUMENT, [])
  else
    let path := directory ++ [47] ++ name in
    let written := len path in
    if (written >? 0) && (written <? capacity) then (POLICY_OK, path) else (POLICY_ERR_ARGUMENT, []).

Section Supervisor.
Context `{api : Sha512Api} {evp : EvpApi} (m : machine).

(** [struct alrios_supervisor_policy] *)
Record policy := mk_sup {
  magic : Z;
  node_policy_ : node_policy;
  trust_store_ : trust_store;
  root_certificate : certificate;
  leaf_certificate : certificate;
  intermediate_certificate : certificate;
  ed25519_public_key : option pkey;
  ml_dsa_public_key : option pkey;
  trust_level : Z;
  trust_ready : Z;
  policy_sealed : Z;
}.

(** [calloc(1U, sizeof( *policy))] *)
Definition zero_sup : policy :=
  mk_sup 0 zero_policy empty_store zero_cert zero_cert zero_cert None None 0 0 0.

Definition canonical_policy_matches (policy_ : option node_policy) : bool :=
  match policy_ with
  | None => false
  | Some p =>
      if negb (is_valid_profile (profile p)) then false
      else
        match alrios_profile_init (cfg m) (Some zero_policy) (profile p) with
        | (0, Some expected) =>
            (require_pqc p =? require_pqc expected)
            && (require_zero_disk p =? require_zero_disk expected)
            && (seccomp_strict p =? seccomp_strict expected)
            && (log_hashchain p =? log_hashchain expected)
            && (guard_pages_enabled p =? guard_pages_enabled expected)
            && (net_timeout_sec p =? net_timeout_sec expected)
            && (ipc_mode p =? ipc_mode expected)
            && (envelope_crypto p =? envelope_crypto expected)
            && (sig_enforcement p =? sig_enforcement expected)
            && (exec_mode p =? exec_mode expected)
            && (isolation_mode p =? isolation_mode expected)
        | _ => false
        end
  end.

(** The required capabilities that are unknown or, if none is, unavailable. *)
Definition missing_capabilities (r : requirements) : Z :=
  let known_capabilities :=
    Z.lor (Z.lor (Z.lor ALRIOS_CRYPTO_CAP_ED25519 ALRIOS_CRYPTO_CAP_AES_256_GCM)
      ALRIOS_CRYPTO_CAP_ML_DSA_65) ALRIOS_CRYPTO_CAP_ML_KEM_768 in
  let unknown := Z.land (required_capabilities r) (u32 (Z.lnot known_capabilities)) in
  if negb (unknown =? 0) then unknown
  else Z.land (required_capabilities r) (u32 (Z.lnot (alrios_crypto_capabilities (cfg m)))).

(** Status and the message buffer. *)
Definition check_capabilities (r : requirements) (missing_caps_buf : option bytes)
    (missing_caps_len : Z) : Z * option bytes :=
  let missing := missing_capabilities r in
  if missing =? 0 then (POLICY_OK, missing_caps_buf)
  else
    (POLICY_ERR_CAPABILITY,
     snprintf_to missing_caps_buf missing_caps_len
       (lit "missing hardware/crypto capabilities mask: 0x" ++ hex8 missing)).

(** Status and, on success, the bytes of the file. *)
Definition read_bounded_file (path : bytes) (max_size : Z) : Z * option bytes :=
  match fopen m path with
  | None => (POLICY_ERR_IO, None)
  | Some file =>
      let length := len (contents file) in
      if negb (seek_end_ok file) || (length <=? 0) || (length >? max_size)
         || negb (seek_set_ok file) then (POLICY_ERR_IO, None)
      else if negb (malloc_ok m (mk_request Whole_file 0 length)) then (POLICY_ERR_MEMORY, None)
      else if negb (read_ok file) || negb (close_ok file) then (POLICY_ERR_IO, None)
      else (POLICY_OK, Some (contents file))
  end.

(** Status and the certificate behind the pointer afterwards. *)
Definition load_certificate_file (path : bytes) (certificate_ : certificate) : res (Z * certificate) :=
  match read_bounded_file path WIRE_MAX with
  | (_, Some wire) =>
      let! (result, out) :=
        alrios_certificate_decode (At (buffer_at m) wire) (len wire) (At (certificate_at m) certificate_) in
      let certificate_ := default certificate_ out in
      if result =? CERT_OK then Ok (POLICY_OK, certificate_) else Ok (POLICY_ERR_CERTIFICATE, certificate_)
  | (result, None) => Ok (result, certificate_)
  end.

(** Updates of the structure. *)
Definition with_root (p : policy) (c : certificate) : policy :=
  mk_sup (magic p) (node_policy_ p) (trust_store_ p) c (leaf_certificate p)
    (intermediate_certificate p) (ed25519_public_key p) (ml_dsa_public_key p) (trust_level p)
    (trust_ready p) (policy_sealed p).

Definition with_store (p : policy) (s : trust_store) : policy :=
  mk_sup (magic p) (node_policy_ p) s (root_certificate p) (leaf_certificate p)
    (intermediate_certificate p) (ed25519_public_key p) (ml_dsa_public_key p) (trust_level p)
    (trust_ready p) (policy_sealed p).

Definition with_chain (p : policy) (inter leaf : certificate) (level : Z) : policy :=
  mk_sup (magic p) (node_policy_ p) (trust_store_ p) (root_certificate p) leaf inter
    (ed25519_public_key p) (ml_dsa_public_key p) level (trust_ready p) (policy_sealed p).

Definition with_keys (p : policy) (ed ml : option pkey) (ready : Z) : policy :=
  mk_sup (magic p) (node_policy_ p) (trust_store_ p) (root_certificate p) (leaf_certificate p)
    (intermediate_certificate p) ed ml (trust_level p) ready (policy_sealed p).

(** A certificate file of the trust directory that may be absent: is it there,
    and the certificate afterwards. *)
Definition load_optional (trust_directory name : bytes) (c : certificate) : res (bool * certificate) :=
  match make_trust_path 1024 trust_directory name with
  | (0, path) =>
      let! (result, c) := load_certificate_file path c in
      Ok (result =? POLICY_OK, c)
  | _ => Ok (false, c)
  end.

Definition choose_trust_level (has_inter has_leaf : bool) : Z :=
  match getenv_trust_level m with
  | Some level =>
      if bytes_eqb level (lit "root") then 1
      else if bytes_eqb level (lit "intermediate") then 2
      else if bytes_eqb level (lit "leaf") then 3
      else 3
  | None => if has_leaf && has_inter then 3 else if has_inter then 2 else 1
  end.

(** The Ed25519 key of a certificate, if it is one. *)
Definition certificate_key (c : certificate) : option pkey :=
  if negb (public_key_algorithm c =? 1) || negb (public_key_len c =? ED25519_KEY_SIZE) then None
  else evp_new_raw_public_key KEY_ED25519 (sub 0 (public_key_len c) (public_key c)).

Definition trust_level_key (p : policy) (has_inter has_leaf : bool) : option pkey :=
  if trust_level p =? 1 then certificate_key (root_certificate p)
  else if trust_level p =? 2 then
    if negb has_inter then None else certificate_key (intermediate_certificate p)
  else if negb has_inter || negb has_leaf then None else certificate_key (leaf_certificate p).

(** From the choice of the level to [trust_ready]. *)
Definition load_keys (p : policy) (trust_directory : bytes) (has_inter has_leaf : bool) : res (Z * policy) :=
  match trust_level_key p has_inter has_leaf with
  | None => Ok (POLICY_ERR_CERTIFICATE, p)
  | Some key =>
      let p := with_keys p (Some key) (ml_dsa_public_key p) (trust_ready p) in
      match make_trust_path 1024 trust_directory (lit "ml-dsa-65.pub") with
      | (0, path) =>
          match read_bounded_file path ML_DSA_65_KEY_SIZE with
          | (_, Some wire) =>
              if negb (len wire =? ML_DSA_65_KEY_SIZE) then Ok (POLICY_ERR_CERTIFICATE, p)
              else
                match evp_new_raw_public_key KEY_ML_DSA_65 wire with
                | None => Ok (POLICY_ERR_CERTIFICATE, with_keys p (Some key) None (trust_ready p))
                | Some ml => Ok (POLICY_OK, with_keys p (Some key) (Some ml) 1)
                end
          | (result, None) =>
              if profile (node_policy_ p) =? PROFILE_SOVEREIGN_MAX then Ok (result, p)
              else Ok (POLICY_OK, with_keys p (Some key) (ml_dsa_public_key p) 1)
          end
      | _ => Ok (POLICY_ERR_ARGUMENT, p)
      end
  end.

Definition load_trust_configuration (p : policy) (trust_directory : option bytes) : res (Z * policy) :=
  match trust_directory with
  | None => Ok (POLICY_ERR_ARGUMENT, p)
  | Some directory =>
      match make_trust_path 1024 directory (lit "root.cert") with
      | (0, root_path) =>
          let! (result, root) := load_certificate_file root_path (root_certificate p) in
          let p := with_root p root in
          if negb (result =? POLICY_OK) then Ok (result, p)
          else
            let store := alrios_trust_store_init (Some (trust_store_ p)) in
            match alrios_trust_store_add_anchor store (Some (root_certificate p)) with
            | (added, store) =>
                let '(sealed_, store) :=
                  if added =? CERT_OK then alrios_trust_store_seal store else (added, store) in
                if negb (sealed_ =? CERT_OK)
                then Ok (POLICY_ERR_CERTIFICATE,
                         with_store p (default empty_store (alrios_trust_store_clear store)))
                else
                  let p := with_store p (default empty_store store) in
                  let! (has_inter, inter) :=
                    load_optional directory (lit "intermediate.cert") (intermediate_certificate p) in
                  let! (has_leaf, leaf) := load_optional directory (lit "leaf.cert") (leaf_certificate p) in
                  let p := with_chain p inter leaf (choose_trust_level has_inter has_leaf) in
                  load_keys p directory has_inter has_leaf
            end
      | _ => Ok (POLICY_ERR_ARGUMENT, p)
      end
  end.

(** Status and [*out_policy]. *)
Definition alrios_supervisor_policy_startup (out_policy : bool) (profile_ : Z) : Z * option policy :=
  if negb out_policy then (POLICY_ERR_ARGUMENT, None)
  else if negb (is_valid_profile profile_) then (POLICY_ERR_ARGUMENT, None)
  else if negb (calloc_ok m) then (POLICY_ERR_MEMORY, None)
  else
    match alrios_profile_init (cfg m) (Some (node_policy_ zero_sup)) profile_ with
    | (result, node) =>
        if negb (result =? 0) then
          (if result =? ALRIOS_PROFILE_ERR_UNAVAILABLE then POLICY_ERR_CAPABILITY
           else POLICY_ERR_ARGUMENT, None)
        else
          (POLICY_OK,
           Some (mk_sup SUPERVISOR_POLICY_MAGIC (default zero_policy node) (trust_store_ zero_sup)
                   (root_certificate zero_sup) (leaf_certificate zero_sup)
                   (intermediate_certificate zero_sup) None None 0 0 1))
    end.

(** Status and what is stored at [out_policy], if anything. A call that stores is
    given a valid pointer. *)
Definition alrios_supervisor_policy_startup_with_trust (profile_ : Z)
    (trust_directory : option bytes) : res (Z * option policy) :=
  match alrios_supervisor_policy_startup true profile_ with
  | (result, Some p) =>
      let! (result, p) := load_trust_configuration p trust_directory in
      if negb (result =? POLICY_OK) then
        if profile_ =? PROFILE_EDGE_PERF then Ok (POLICY_OK, Some p) else Ok (result, None)
      else Ok (POLICY_OK, Some p)
  | (result, None) => Ok (result, None)
  end.

(** [memset(policy, 0, sizeof( *policy))] before [free]. *)
Definition alrios_supervisor_policy_shutdown (p : option policy) : option policy :=
  match p with None => None | Some _ => Some zero_sup end.

Definition alrios_supervisor_policy_set_profile (p : option policy) (profile_ : Z) : Z :=
  match p with
  | None => POLICY_ERR_ARGUMENT
  | Some p =>
      if negb (magic p =? SUPERVISOR_POLICY_MAGIC) || negb (is_valid_profile profile_)
      then POLICY_ERR_ARGUMENT
      else if on (policy_sealed p) then
        if profile_ =? profile (node_policy_ p) then POLICY_ERR_IMMUTABLE else POLICY_ERR_DOWNGRADE
      else POLICY_ERR_STATE
  end.

Definition alrios_supervisor_policy_get_profile (p : option policy) (out_profile : bool) : Z * option Z :=
  match p with
  | None => (POLICY_ERR_STATE, None)
  | Some p =>
      if negb out_profile || negb (magic p =? SUPERVISOR_POLICY_MAGIC) || (policy_sealed p =? 0)
         || negb (canonical_policy_matches (Some (node_policy_ p)))
      then (POLICY_ERR_STATE, None)
      else (POLICY_OK, Some (profile (node_policy_ p)))
  end.

(** The rules of the three profiles, after the capability check. *)
Definition profile_rules (profile_ : Z) (r : requirements) : Z :=
  let is_devmode := flag_set (container_flags r) FLAG_RING_DEVMODE in
  let signed_rules :=
    let result := require_classical_signature r in
    if negb (result =? POLICY_OK) then result
    else if on (req_pqc r) || flag_set (container_flags r) FLAG_PQC_HYBRID_SIG
    then require_hybrid_signature r
    else POLICY_OK in
  if profile_ =? PROFILE_SOVEREIGN_MAX then
    let result := require_hybrid_signature r in
    if negb (result =? POLICY_OK) then result
    else if is_devmode then POLICY_ERR_REJECTED else POLICY_OK
  else if profile_ =? PROFILE_ENTERPRISE_BAL then
    if on (package_signed r) then signed_rules
    else if is_devmode then
      if on (developer_mode_verified r) then POLICY_OK else POLICY_ERR_REJECTED
    else POLICY_ERR_SIGNATURE
  else if is_devmode && negb (on (developer_mode_verified r)) then POLICY_ERR_REJECTED
  else if on (package_signed r) then signed_rules
  else POLICY_OK.

(** Status and the message buffer. *)
Definition alrios_supervisor_evaluate_policy (node : option node_policy)
    (app_req : option requirements) (missing_caps_buf : option bytes) (missing_caps_len : Z)
    : Z * option bytes :=
  let missing_caps_buf := clear_text missing_caps_buf missing_caps_len in
  match node, app_req with
  | Some np, Some r =>
      if negb (validate_requirements app_req =? POLICY_OK) then (POLICY_ERR_ARGUMENT, missing_caps_buf)
      else if negb (canonical_policy_matches node) then (POLICY_ERR_STATE, missing_caps_buf)
      else
        match check_capabilities r missing_caps_buf missing_caps_len with
        | (result, missing_caps_buf) =>
            if negb (result =? POLICY_OK) then (result, missing_caps_buf)
            else (profile_rules (profile np) r, missing_caps_buf)
        end
  | _, _ => (POLICY_ERR_ARGUMENT, missing_caps_buf)
  end.

Definition alrios_supervisor_policy_evaluate_launch (p : option policy)
    (app_req : option requirements) (missing_caps_buf : option bytes) (missing_caps_len : Z)
    : Z * option bytes :=
  match p with
  | None => (POLICY_ERR_STATE, missing_caps_buf)
  | Some q =>
      if negb (magic q =? SUPERVISOR_POLICY_MAGIC) || (policy_sealed q =? 0)
      then (POLICY_ERR_STATE, missing_caps_buf)
      else alrios_supervisor_evaluate_policy (Some (node_policy_ q)) app_req missing_caps_buf missing_caps_len
  end.

(** ** Packages *)

(** The legacy magic, and not that of version 2. *)
Definition is_legacy (package_data : bytes) : bool :=
  let package_length := len package_data in
  (package_length >=? LEGACY_MAGIC_SIZE)
  && bytes_eqb (sub 0 LEGACY_MAGIC_SIZE package_data) LEGACY_MAGIC
  && ((package_length <? ARAPP_MAGIC_SIZE)
      || negb (bytes_eqb (sub 0 ARAPP_MAGIC_SIZE package_data) arapp_v2_magic)).

Definition legacy_requirements (q : policy) : requirements :=
  mk_req FLAG_RING_DEVMODE 0 0 0 0 0 0 0 0
    (int_of (negb (profile (node_policy_ q) =? PROFILE_SOVEREIGN_MAX))).

(** [certificate_chain_valid], once the Ed25519 signature verifies. *)
Definition chain_valid (q : policy) (now : Z) : bool :=
  if trust_level q =? 1 then true
  else if trust_level q =? 2 then
    match alrios_trust_store_lookup (Some (trust_store_ q))
            (Some (issuer_key_id (intermediate_certificate q))) true with
    | (status, Some _) => status =? CERT_OK
    | (_, None) => false
    end
  else
    alrios_pki_verify_chain (tbs_at_ m) (Some (trust_store_ q))
      (At (leaf_at m) (leaf_certificate q)) (At (intermediate_at m) (intermediate_certificate q)) now
    =? ALRIOS_ISSUER_OK.

(** The region of a package a pointer of its view refers to. *)
Definition region (data : bytes) (pointer : option Z) (n : Z) : res bytes :=
  match pointer with
  | None => Fault
  | Some off => rd off n data
  end.

(** What the verification of a validated package establishes. *)
Definition package_requirements (q : policy) (data : bytes) (v : view) (now : Z) : res requirements :=
  let flags := v_flags v in
  let pqc := flag_set flags FLAG_PQC_HYBRID_SIG in
  let! ed_slot := region data (v_ed25519_signature v) ED25519_SIGNATURE_SIZE in
  let! ml_slot := region data (v_ml_dsa_65_signature v) ML_DSA_65_SIGNATURE_SIZE in
  let ed_present := negb (bytes_all_zero ed_slot) in
  let ml_present := negb (bytes_all_zero ml_slot) in
  let package_signed_ := ed_present in
  let required :=
    if pqc then Z.lor ALRIOS_CRYPTO_CAP_ED25519 ALRIOS_CRYPTO_CAP_ML_DSA_65
    else ALRIOS_CRYPTO_CAP_ED25519 in
  let! ed_valid :=
    if package_signed_ && on (trust_ready q) && bool_decide (is_Some (ed25519_public_key q)) then
      let! status := alrios_arapp_v2_verify_ed25519 (Some data) (len data) (ed25519_public_key q) in
      Ok (status =? SIG_OK)
    else Ok false in
  let chain := ed_valid && chain_valid q now in
  let! ml_valid :=
    if ml_present && bool_decide (is_Some (ml_dsa_public_key q)) then
      let! status := alrios_arapp_v2_verify_ml_dsa_65 (cfg m) (Some data) (len data) (ml_dsa_public_key q) in
      Ok (status =? SIG_OK)
    else Ok false in
  let dev :=
    flag_set flags FLAG_RING_DEVMODE
    && negb (profile (node_policy_ q) =? PROFILE_SOVEREIGN_MAX)
    && negb package_signed_ && negb ed_present && negb ml_present in
  Ok (mk_req flags required (int_of pqc) (int_of package_signed_) (int_of chain)
        (int_of ed_present) (int_of ed_valid) (int_of ml_present) (int_of ml_valid) (int_of dev)).

(** [!reason_buf || reason_len == 0U || reason_buf\[0\] == '\0'] *)
Definition no_reason (reason_buf : option bytes) (reason_len : Z) : bool :=
  match reason_buf with
  | None => true
  | Some b => (reason_len =? 0) || (at_ b 0 =? 0)
  end.

(** Status and the reason buffer. *)
Definition alrios_supervisor_policy_evaluate_package (p : option policy)
    (package_path : option bytes) (now : Z) (reason_buf : option bytes) (reason_len : Z)
    : res (Z * option bytes) :=
  let reason_buf := clear_text reason_buf reason_len in
  match p, package_path with
  | Some q, Some path =>
      if negb (magic q =? SUPERVISOR_POLICY_MAGIC) || (policy_sealed q =? 0)
      then Ok (POLICY_ERR_STATE, reason_buf)
      else
        match read_bounded_file path POLICY_MAX_PACKAGE_SIZE with
        | (result, None) => Ok (result, set_reason reason_buf reason_len (lit "package read failed"))
        | (_, Some data) =>
            if is_legacy data then
              match alrios_supervisor_policy_evaluate_launch p (Some (legacy_requirements q))
                      reason_buf reason_len with
              | (result, reason_buf) =>
                  if negb (result =? POLICY_OK)
                  then Ok (result, set_reason reason_buf reason_len
                                     (lit "legacy unsigned package rejected by profile"))
                  else Ok (result, reason_buf)
              end
            else
              let! (result, v) :=
                alrios_arapp_v2_validate (malloc_ok m) (At (buffer_at m) data) (len data) now
                  MAX_CLOCK_SKEW_SECONDS true in
              if negb (result =? ARAPP_OK)
              then Ok (POLICY_ERR_FORMAT, set_reason reason_buf reason_len (lit "invalid arapp v2 envelope"))
              else
                let! r := package_requirements q data (default zero_view v) now in
                match alrios_supervisor_policy_evaluate_launch p (Some r) reason_buf reason_len with
                | (result, reason_buf) =>
                    if negb (result =? POLICY_OK) && no_reason reason_buf reason_len
                    then Ok (result, set_reason reason_buf reason_len
                                       (lit "package rejected by node profile"))
                    else Ok (result, reason_buf)
                end
        end
  | _, _ => Ok (POLICY_ERR_STATE, reason_buf)
  end.
End Supervisor.

(** ** Specification *)

(** Requirements that a caller may state. *)
Definition consistent (r : requirements) : Prop := validate_requirements (Some r) = POLICY_OK.

(** Both classical conditions hold: the signature is valid and so is the chain. *)
Definition trusted (r : requirements) : bool :=
  on (ed25519_signature_valid r) && on (certificate_chain_valid r).

(** The hybrid condition in addition. *)
Definition hybrid_trusted (r : requirements) : bool :=
  trusted r && on (ml_dsa_signature_valid r) && flag_set (container_flags r) FLAG_PQC_HYBRID_SIG.

Definition wants_hybrid (r : requirements) : bool :=
  on (req_pqc r) || flag_set (container_flags r) FLAG_PQC_HYBRID_SIG.

Definition devmode (r : requirements) : bool := flag_set (container_flags r) FLAG_RING_DEVMODE.

(** A signed application: trusted, and hybrid if that is wanted. *)
Definition signed_good (r : requirements) : bool :=
  if wants_hybrid r then hybrid_trusted r else trusted r.

(** Whom each profile admits. *)
Definition admits (profile_ : Z) (r : requirements) : bool :=
  if profile_ =? PROFILE_SOVEREIGN_MAX then hybrid_trusted r && negb (devmode r)
  else if profile_ =? PROFILE_ENTERPRISE_BAL then
    if on (package_signed r) then signed_good r else devmode r && on (developer_mode_verified r)
  else
    implb (devmode r) (on (developer_mode_verified r)) && implb (on (package_signed r)) (signed_good r).

(** ** Admission *)

(** What consistency says of the flags that are set. *)
Lemma consistent_inv r : consistent r ->
  flag_set (container_flags r) (u32 (Z.lnot FLAGS_MASK)) = false /\
  (on (ed25519_signature_valid r) = true -> on (ed25519_signature_present r) = true) /\
  (on (ml_dsa_signature_valid r) = true -> on (ml_dsa_signature_present r) = true) /\
  (on (ed25519_signature_present r) = true -> on (package_signed r) = true) /\
  (on (certificate_chain_valid r) = true -> on (package_signed r) = true).
Proof.
  unfold consistent, validate_requirements. destruct (flag_set _ _); [done|].
  destruct (_ || _); [done|].
  destruct (on (ed25519_signature_valid r)), (on (ed25519_signature_present r)),
    (on (ml_dsa_signature_valid r)), (on (ml_dsa_signature_present r)),
    (on (certificate_chain_valid r)), (on (package_signed r)); by cbn.
Qed.

Lemma rules_iff profile_ r :
  consistent r -> profile_rules profile_ r = POLICY_OK <-> admits profile_ r = true.
Proof.
  intros Hc. apply consistent_inv in Hc as (_ & H1 & H2 & H3 & H4).
  unfold profile_rules, admits, signed_good, wants_hybrid, hybrid_trusted, trusted, devmode,
    require_hybrid_signature, require_classical_signature.
  destruct (on (ed25519_signature_valid r)), (on (ml_dsa_signature_valid r)),
    (on (certificate_chain_valid r)), (on (package_signed r)), (on (ed25519_signature_present r)),
    (on (ml_dsa_signature_present r));
    try discriminate (H1 eq_refl); try discriminate (H2 eq_refl); try discriminate (H3 eq_refl);
    try discriminate (H4 eq_refl); clear H1 H2 H3 H4;
    destruct (on (req_pqc r)), (flag_set (container_flags r) FLAG_PQC_HYBRID_SIG),
      (flag_set (container_flags r) FLAG_RING_DEVMODE), (on (developer_mode_verified r)),
      (profile_ =? PROFILE_SOVEREIGN_MAX), (profile_ =? PROFILE_ENTERPRISE_BAL); by cbn.
Qed.

(** Sovereign admission implies the others; enterprise implies edge but for
    signed applications that ask for the developer ring. *)
Lemma admits_order r :
  consistent r ->
  (admits PROFILE_SOVEREIGN_MAX r = true -> admits PROFILE_ENTERPRISE_BAL r = true) /\
  (admits PROFILE_SOVEREIGN_MAX r = true -> admits PROFILE_EDGE_PERF r = true) /\
  (admits PROFILE_ENTERPRISE_BAL r = true ->
   admits PROFILE_EDGE_PERF r = negb (on (package_signed r) && devmode r)
     || on (developer_mode_verified r)).
Proof.
  intros Hc. apply consistent_inv in Hc as (_ & H1 & _ & _ & H4).
  unfold admits, signed_good, hybrid_trusted, trusted.
  change (PROFILE_ENTERPRISE_BAL =? PROFILE_SOVEREIGN_MAX) with false.
  change (PROFILE_EDGE_PERF =? PROFILE_SOVEREIGN_MAX) with false.
  change (PROFILE_EDGE_PERF =? PROFILE_ENTERPRISE_BAL) with false. rewrite !Z.eqb_refl.
  destruct (on (ed25519_signature_valid r)), (on (ml_dsa_signature_valid r)),
    (on (certificate_chain_valid r)), (on (package_signed r));
    try discriminate (H4 eq_refl); clear H1 H4;
    destruct (wants_hybrid r), (flag_set (container_flags r) FLAG_PQC_HYBRID_SIG), (devmode r),
      (on (developer_mode_verified r)); by cbn.
Qed.

(** ** The evaluation of a launch *)

Section Evaluation.
Context {evp : EvpApi} (m : machine).

(** [np] is the canonical policy of a profile on this build. *)
Definition canonical_policy (np : node_policy) : Prop :=
  is_valid_profile (profile np) = true /\
  alrios_profile_init (cfg m) (Some zero_policy) (profile np) = (0, Some np).

Lemma canonical_matches_iff np : canonical_policy_matches m (Some np) = true <-> canonical_policy np.
Proof.
  unfold canonical_policy_matches, canonical_policy.
  destruct (is_valid_profile (profile np)) eqn:Ev; cbn [negb]; [|by split; [|intros []]].
  destruct (alrios_profile_init _ _ _) as [st [e|]] eqn:E; [|by destruct st; split; try done; intros []].
  destruct st; [|by split; [|intros []]..].
  assert (Hp : profile e = profile np).
  { apply profile_init_cases in E as [_ E]. destruct E as [(E & -> & _)|[[E ->]|[E ->]]]; by rewrite E. }
  destruct np, e. cbn in *. subst. rewrite !andb_true_iff, !Z.eqb_eq. split.
  - intros. split; [done|]. do 2 f_equal. intuition congruence.
  - intros [_ [= -> -> -> -> -> -> -> -> -> -> ->]]. tauto.
Qed.

(** The status of an evaluation, whatever the message buffer. *)
Lemma evaluate_status np r buf n :
  canonical_policy np -> consistent r ->
  fst (alrios_supervisor_evaluate_policy m (Some np) (Some r) buf n) =
    if missing_capabilities m r =? 0 then profile_rules (profile np) r else POLICY_ERR_CAPABILITY.
Proof.
  intros Hn Hr. unfold alrios_supervisor_evaluate_policy. rewrite Hr. cbn [negb Z.eqb].
  change (POLICY_OK =? POLICY_OK) with true. cbn [negb].
  rewrite (proj2 (canonical_matches_iff np) Hn). cbn [negb]. unfold check_capabilities.
  by destruct (missing_capabilities m r =? 0).
Qed.

(** Evaluation succeeds exactly when the capabilities are there and the profile
    admits the requirements. *)
Lemma evaluate_iff np r buf n :
  canonical_policy np -> consistent r ->
  fst (alrios_supervisor_evaluate_policy m (Some np) (Some r) buf n) = POLICY_OK
  <-> missing_capabilities m r = 0 /\ admits (profile np) r = true.
Proof.
  intros Hn Hr. rewrite evaluate_status, <- rules_iff by done.
  destruct (missing_capabilities m r =? 0) eqn:E; bool_hyps; [tauto|]. split; [done|tauto].
Qed.

(** Inconsistent requirements are never admitted. *)
Lemma evaluate_inconsistent np r buf n :
  ~ consistent r -> fst (alrios_supervisor_evaluate_policy m (Some np) (Some r) buf n) = POLICY_ERR_ARGUMENT.
Proof.
  intros Hr. unfold alrios_supervisor_evaluate_policy, consistent in *.
  destruct (validate_requirements (Some r) =? POLICY_OK) eqn:E; [|done]. by apply Z.eqb_eq in E.
Qed.

(** ** The policy object *)

(** A policy as start-up leaves it. *)
Record policy_ok (q : policy) : Prop := {
  ok_magic : magic q = SUPERVISOR_POLICY_MAGIC;
  ok_sealed : policy_sealed q = 1;
  ok_node : canonical_policy (node_policy_ q);
}.

Definition node_profile (q : policy) : Z := profile (node_policy_ q).

Lemma evaluate_launch_iff q r buf n :
  policy_ok q -> consistent r ->
  fst (alrios_supervisor_policy_evaluate_launch m (Some q) (Some r) buf n) = POLICY_OK
  <-> missing_capabilities m r = 0 /\ admits (node_profile q) r = true.
Proof.
  intros [Hm Hs Hn] Hr. unfold alrios_supervisor_policy_evaluate_launch. rewrite Hm, Hs, Z.eqb_refl.
  cbn [negb orb Z.eqb]. by apply evaluate_iff.
Qed.

Lemma evaluate_launch_inconsistent q r buf n :
  policy_ok q -> ~ consistent r ->
  fst (alrios_supervisor_policy_evaluate_launch m (Some q) (Some r) buf n) <> POLICY_OK.
Proof.
  intros [Hm Hs Hn] Hr. unfold alrios_supervisor_policy_evaluate_launch. rewrite Hm, Hs, Z.eqb_refl.
  cbn [negb orb Z.eqb]. by rewrite evaluate_inconsistent.
Qed.

(** ** The requirements of a package *)

Definition blank_slot (sig : bytes) : Prop := sig = zeros (len sig).

(** The Ed25519 signature of [p] verifies under the node's key. *)
Definition ed_good (q : policy) (p : package_v2) : Prop :=
  ~ blank_slot (p_ed p) /\ trust_ready q <> 0 /\
  exists key, ed25519_public_key q = Some key /\ signature_good p key [] (p_ed p).

(** The same of the ML-DSA-65 signature. *)
Definition ml_good (q : policy) (p : package_v2) : Prop :=
  ~ blank_slot (p_ml p) /\ have_ml_dsa_65 (cfg m) = true /\
  exists key, ml_dsa_public_key q = Some key /\ signature_good p key arapp_context (p_ml p).

Lemma on_int b : on (int_of b) = b.
Proof. by destruct b. Qed.

Lemma is_boolean_int b : is_boolean (int_of b) = true.
Proof. by destruct b. Qed.

Lemma all_zero_blank sig : bytes_all_zero sig = true <-> blank_slot sig.
Proof. apply bytes_all_zero_iff. Qed.

Context {laws : EvpLaws evp} `{api : Sha512Api}.

(** What the verification of an encoded package establishes. *)
Lemma package_requirements_spec q p now :
  signable p ->
  exists ev mv,
    (ev = true <-> ed_good q p) /\ (mv = true <-> ml_good q p) /\
    let pqc := flag_set (p_flags p) FLAG_PQC_HYBRID_SIG in
    let e := negb (bytes_all_zero (p_ed p)) in
    let g := negb (bytes_all_zero (p_ml p)) in
    package_requirements m q (encode p) (view_of p) now =
      Ok (mk_req (p_flags p) (if pqc then 5 else 1) (int_of pqc) (int_of e)
            (int_of (ev && chain_valid m q now)) (int_of e) (int_of ev) (int_of g) (int_of mv)
            (int_of (flag_set (p_flags p) FLAG_RING_DEVMODE
                     && negb (node_profile q =? PROFILE_SOVEREIGN_MAX) && negb e && negb e && negb g))).
Proof.
  intros Hp. pose proof (signable_len p Hp). unfold package_requirements, region, view_of.
  cbn [v_flags v_ed25519_signature v_ml_dsa_65_signature].
  rewrite !rd_ok by (autounfold with consts; lia). cbn [rbind].
  change 144 with PREFIX_SIZE. rewrite slot_ed by done.
  change 208 with (PREFIX_SIZE + ED25519_SIGNATURE_SIZE). rewrite slot_ml by done.
  assert (Hev : exists ev, (if negb (bytes_all_zero (p_ed p)) && on (trust_ready q)
        && bool_decide (is_Some (ed25519_public_key q))
      then let! status := alrios_arapp_v2_verify_ed25519 (Some (encode p)) (len (encode p)) (ed25519_public_key q) in
           Ok (status =? SIG_OK) else Ok false) = Ok ev /\ (ev = true <-> ed_good q p)).
  { unfold ed_good. pose proof (all_zero_blank (p_ed p)) as Hb.
    destruct (bytes_all_zero (p_ed p)); cbn [negb andb]; [exists false; split; [done|split; [done|tauto]]|].
    assert (~ blank_slot (p_ed p)) by by rewrite <- Hb.
    unfold on. destruct (trust_ready q =? 0) eqn:Et; bool_hyps; cbn [negb andb];
      [exists false; split; [done|split; [done|tauto]]|].
    destruct (ed25519_public_key q) as [key|]; cbn [is_Some].
    2: { rewrite bool_decide_false by by intros [? [=]]. exists false. split; [done|].
         split; [done|by intros (_ & _ & ? & [=] & _)]. }
    rewrite bool_decide_true by done. destruct (verify_ed_iff p key Hp) as (st & -> & Hst).
    cbn [rbind]. exists (st =? SIG_OK). split; [done|]. rewrite Z.eqb_eq, Hst. split.
    - intros Hg. split; [done|]. split; [done|]. by exists key.
    - by intros (_ & _ & ? & [= <-] & Hg). }
  assert (Hmv : exists mv, (if negb (bytes_all_zero (p_ml p)) && bool_decide (is_Some (ml_dsa_public_key q))
      then let! status := alrios_arapp_v2_verify_ml_dsa_65 (cfg m) (Some (encode p)) (len (encode p)) (ml_dsa_public_key q) in
           Ok (status =? SIG_OK) else Ok false) = Ok mv /\ (mv = true <-> ml_good q p)).
  { unfold ml_good. pose proof (all_zero_blank (p_ml p)) as Hb.
    destruct (bytes_all_zero (p_ml p)); cbn [negb andb]; [exists false; split; [done|split; [done|tauto]]|].
    assert (~ blank_slot (p_ml p)) by by rewrite <- Hb.
    destruct (ml_dsa_public_key q) as [key|]; cbn [is_Some].
    2: { rewrite bool_decide_false by by intros [? [=]]. exists false. split; [done|].
         split; [done|by intros (_ & _ & ? & [=] & _)]. }
    rewrite bool_decide_true by done. destruct (have_ml_dsa_65 (cfg m)) eqn:Hc.
    - destruct (verify_ml_iff (cfg m) p key Hp Hc) as (st & -> & Hst & _). cbn [rbind].
      exists (st =? SIG_OK). split; [done|]. rewrite Z.eqb_eq, Hst. split.
      + intros Hg. split; [done|]. split; [done|]. by exists key.
      + by intros (_ & _ & ? & [= <-] & Hg).
    - unfold alrios_arapp_v2_verify_ml_dsa_65. rewrite Hc. cbn. exists false. split; [done|].
      split; [done|by intros (_ & [=] & _)]. }
  destruct Hev as (ev & -> & Hev), Hmv as (mv & -> & Hmv). cbn [rbind].
  exists ev, mv. split; [done|]. split; [done|]. cbv zeta. by repeat f_equal.
Qed.

(** The condition under which a version 2 package is launched. *)
Definition package_trusted (q : policy) (p : package_v2) (now : Z) : Prop :=
  ed_good q p /\ chain_valid m q now = true /\
  (flag_set (p_flags p) FLAG_PQC_HYBRID_SIG = true -> ml_good q p).

Definition package_unsigned (p : package_v2) : Prop := blank_slot (p_ed p) /\ blank_slot (p_ml p).

Definition package_admitted (q : policy) (p : package_v2) (now : Z) : Prop :=
  let hybrid := flag_set (p_flags p) FLAG_PQC_HYBRID_SIG in
  let dev := flag_set (p_flags p) FLAG_RING_DEVMODE in
  (hybrid = true -> have_ml_dsa_65 (cfg m) = true) /\
  if node_profile q =? PROFILE_SOVEREIGN_MAX then package_trusted q p now /\ hybrid = true /\ dev = false
  else if node_profile q =? PROFILE_ENTERPRISE_BAL then
    package_trusted q p now \/ package_unsigned p /\ dev = true
  else package_trusted q p now /\ dev = false \/ package_unsigned p.

Lemma missing_zero r pqc : required_capabilities r = (if pqc : bool then 5 else 1) ->
  missing_capabilities m r = 0 <-> (pqc = true -> have_ml_dsa_65 (cfg m) = true).
Proof.
  intros Hr. unfold missing_capabilities. rewrite Hr.
  destruct pqc, (cfg m) as [[] []]; vm_compute; intuition congruence.
Qed.

(** Consistency of the requirements that [package_requirements] states. *)
Lemma package_consistent flags required pqc e chain ev g mv dev :
  0 <= flags < 256 -> (ev = true -> e = true) -> (mv = true -> g = true) -> (chain = true -> ev = true) ->
  consistent (mk_req flags required (int_of pqc) (int_of e) (int_of chain) (int_of e) (int_of ev)
                (int_of g) (int_of mv) (int_of dev))
  <-> (e = true \/ g = false).
Proof.
  intros Hf He Hg Hc. unfold consistent, validate_requirements.
  cbn [container_flags req_pqc package_signed certificate_chain_valid ed25519_signature_present
    ed25519_signature_valid ml_dsa_signature_present ml_dsa_signature_valid developer_mode_verified].
  rewrite (proj2 (flags_known flags ltac:(lia))), !is_boolean_int, !on_int by lia. cbn [negb orb].
  destruct ev, e, mv, g, chain; try discriminate (He eq_refl); try discriminate (Hg eq_refl);
    try discriminate (Hc eq_refl); cbn; split; intros Hx; try done; try tauto; by destruct Hx.
Qed.

(** The same, as a program on the outcome of the checks. *)
Definition admitted_b (profile_ : Z) (hybrid dev have chain ev mv e g : bool) : bool :=
  let trusted_ := ev && chain && implb hybrid mv in
  let unsigned := negb e && negb g in
  implb hybrid have &&
  (if profile_ =? PROFILE_SOVEREIGN_MAX then trusted_ && hybrid && negb dev
   else if profile_ =? PROFILE_ENTERPRISE_BAL then trusted_ || unsigned && dev
   else trusted_ && negb dev || unsigned).

Lemma package_admitted_b q p now ev mv :
  (ev = true <-> ed_good q p) -> (mv = true <-> ml_good q p) ->
  package_admitted q p now <->
  admitted_b (node_profile q) (flag_set (p_flags p) FLAG_PQC_HYBRID_SIG)
    (flag_set (p_flags p) FLAG_RING_DEVMODE) (have_ml_dsa_65 (cfg m)) (chain_valid m q now) ev mv
    (negb (bytes_all_zero (p_ed p))) (negb (bytes_all_zero (p_ml p))) = true.
Proof.
  intros Hev Hmv. unfold package_admitted, package_trusted, package_unsigned, admitted_b.
  pose proof (all_zero_blank (p_ed p)) as Be. pose proof (all_zero_blank (p_ml p)) as Bg.
  destruct (node_profile q =? PROFILE_SOVEREIGN_MAX), (node_profile q =? PROFILE_ENTERPRISE_BAL);
    rewrite <- Hev, <- Hmv, <- ?Be, <- ?Bg; clear;
    destruct (bytes_all_zero (p_ed p)), (bytes_all_zero (p_ml p)), ev, mv, (chain_valid m q now),
      (flag_set (p_flags p) FLAG_PQC_HYBRID_SIG), (flag_set (p_flags p) FLAG_RING_DEVMODE),
      (have_ml_dsa_65 (cfg m)); cbn; intuition congruence.
Qed.

Lemma admits_b profile_ flags required pqc e chain ev g mv dev :
  (ev = true -> e = true) -> (mv = true -> g = true) -> e = true \/ g = false ->
  pqc = flag_set flags FLAG_PQC_HYBRID_SIG ->
  dev = flag_set flags FLAG_RING_DEVMODE && negb (profile_ =? PROFILE_SOVEREIGN_MAX)
        && negb e && negb e && negb g ->
  (pqc = true -> have_ml_dsa_65 (cfg m) = true) /\
  admits profile_ (mk_req flags required (int_of pqc) (int_of e) (int_of (ev && chain)) (int_of e)
                     (int_of ev) (int_of g) (int_of mv) (int_of dev)) = true
  <-> admitted_b profile_ pqc (flag_set flags FLAG_RING_DEVMODE) (have_ml_dsa_65 (cfg m)) chain ev mv e g = true.
Proof.
  intros He Hg Hc Hp Hd. unfold admits, signed_good, wants_hybrid, hybrid_trusted, trusted, devmode, admitted_b.
  cbn [container_flags req_pqc package_signed certificate_chain_valid ed25519_signature_present
    ed25519_signature_valid ml_dsa_signature_present ml_dsa_signature_valid developer_mode_verified].
  rewrite !on_int, <- Hp. subst dev. clear Hp.
  destruct ev, e, mv, g; try discriminate (He eq_refl); try discriminate (Hg eq_refl);
    try (destruct Hc; discriminate); clear He Hg Hc;
    destruct (profile_ =? PROFILE_SOVEREIGN_MAX), (profile_ =? PROFILE_ENTERPRISE_BAL), pqc, chain,
      (flag_set flags FLAG_RING_DEVMODE), (have_ml_dsa_65 (cfg m)); cbn; intuition congruence.
Qed.

(** The requirements of a package are admitted exactly when the package is. *)
Lemma package_launch_iff q p now :
  signable p -> policy_ok q -> p_flags p < 256 -> exists r,
  package_requirements m q (encode p) (view_of p) now = Ok r /\
  forall buf n,
    fst (alrios_supervisor_policy_evaluate_launch m (Some q) (Some r) buf n) = POLICY_OK
    <-> package_admitted q p now.
Proof.
  intros Hp Hq Hf. destruct (package_requirements_spec q p now Hp) as (ev & mv & Hev & Hmv & E).
  cbv zeta in E. eexists. split; [exact E|]. clear E. intros buf n.
  assert (Hfl : 0 <= p_flags p < 256) by (destruct Hp as [[] _]; lia).
  pose proof (all_zero_blank (p_ed p)) as Be. pose proof (all_zero_blank (p_ml p)) as Bg.
  assert (Hne : ev = true -> negb (bytes_all_zero (p_ed p)) = true).
  { intros Hg. apply Hev in Hg as [Hb _]. rewrite <- Be in Hb. by destruct (bytes_all_zero (p_ed p)). }
  assert (Hng : mv = true -> negb (bytes_all_zero (p_ml p)) = true).
  { intros Hg. apply Hmv in Hg as [Hb _]. rewrite <- Bg in Hb. by destruct (bytes_all_zero (p_ml p)). }
  rewrite (package_admitted_b q p now ev mv Hev Hmv). clear Be Bg Hev Hmv.
  pose proof (fun required pqc dev => package_consistent (p_flags p) required pqc _ (ev && chain_valid m q now) ev
    _ mv dev Hfl Hne Hng (fun Hx => proj1 (proj1 (andb_true_iff _ _) Hx))) as Hcon.
  match goal with |- context [Some (mk_req ?a ?b ?c ?d ?e ?f ?g ?h ?i (int_of ?j))] =>
    specialize (Hcon b (flag_set (p_flags p) FLAG_PQC_HYBRID_SIG) j);
    set (r0 := mk_req a b c d e f g h i (int_of j)) in * end.
  destruct (decide (consistent r0)) as [Hc|Hc].
  - rewrite evaluate_launch_iff by done.
    rewrite (missing_zero r0 (flag_set (p_flags p) FLAG_PQC_HYBRID_SIG)) by done.
    apply admits_b; [done|done|by apply Hcon|done|done].
  - pose proof (evaluate_launch_inconsistent q r0 buf n Hq Hc) as Hno. split; [done|]. intros Ha.
    exfalso. apply Hc, Hcon. clear Hcon Hc Hno. unfold admitted_b in Ha.
    destruct (bytes_all_zero (p_ed p)); cbn [negb] in *; [|by left].
    destruct ev; [discriminate (Hne eq_refl)|]. right. cbn [andb negb] in Ha.
    destruct (bytes_all_zero (p_ml p)); [done|]. apply andb_true_iff in Ha as [_ Ha].
    by repeat split_if_in Ha.
Qed.

(** ** Packages and files *)

(** A file that can be read whole. *)
Record readable (path : bytes) (max_size : Z) (d : bytes) : Prop := {
  rd_file : exists file, fopen m path = Some file /\ contents file = d /\ seek_end_ok file = true /\
    seek_set_ok file = true /\ read_ok file = true /\ close_ok file = true;
  rd_size : 1 <= len d <= max_size;
  rd_malloc : malloc_ok m (mk_request Whole_file 0 (len d)) = true;
}.

Lemma read_bounded_iff path max_size d :
  read_bounded_file m path max_size = (POLICY_OK, Some d) <-> readable path max_size d.
Proof.
  unfold read_bounded_file. split.
  - intros H. destruct (fopen m path) as [file|] eqn:Ef; [|done].
    destruct (_ || _) eqn:E1 in H; [done|]. destruct (negb (malloc_ok m _)) eqn:E2; [done|].
    destruct (_ || _) eqn:E3 in H; [done|]. injection H as <-. rewrite Z.gtb_ltb in E1. bool_hyps.
    constructor; [|lia|done]. by exists file.
  - intros [(file & -> & <- & -> & -> & -> & ->) Hs Hm]. rewrite Hm, Z.gtb_ltb. cbn [negb orb].
    by repeat decide_if.
Qed.

(** A read gives a file or a status, which is no success. *)
Lemma read_bounded_cases path max_size :
  (exists d, read_bounded_file m path max_size = (POLICY_OK, Some d) /\ readable path max_size d) \/
  (exists e, read_bounded_file m path max_size = (e, None) /\ e <> POLICY_OK).
Proof.
  destruct (read_bounded_file m path max_size) as [e [d|]] eqn:E.
  - left. exists d. assert (e = POLICY_OK) as ->; [|split; [done|by apply read_bounded_iff]].
    unfold read_bounded_file in E. destruct (fopen m path); [|done].
    by repeat split_if_in E; injection E.
  - right. exists e. split; [done|]. unfold read_bounded_file in E. destruct (fopen m path); [|by injection E as <-].
    repeat split_if_in E; by injection E as <-.
Qed.

Lemma legacy_iff q buf n :
  policy_ok q ->
  fst (alrios_supervisor_policy_evaluate_launch m (Some q) (Some (legacy_requirements q)) buf n) = POLICY_OK
  <-> node_profile q <> PROFILE_SOVEREIGN_MAX.
Proof.
  intros Hq. assert (Hc : consistent (legacy_requirements q)).
  { unfold legacy_requirements. by destruct (profile (node_policy_ q) =? PROFILE_SOVEREIGN_MAX). }
  rewrite evaluate_launch_iff by done. rewrite <- Z.eqb_neq.
  assert (Hm : missing_capabilities m (legacy_requirements q) = 0) by done.
  unfold admits, legacy_requirements, node_profile. cbn [container_flags package_signed developer_mode_verified].
  destruct (profile (node_policy_ q) =? PROFILE_SOVEREIGN_MAX), (profile (node_policy_ q) =? PROFILE_ENTERPRISE_BAL);
    cbn; intuition congruence.
Qed.

Lemma encode_not_legacy p : is_legacy (encode p) = false.
Proof.
  unfold is_legacy. apply andb_false_iff. right. apply orb_false_iff. split.
  - apply Z.ltb_ge. unfold encode, encode_prefix. rewrite !len_app, len_magic.
    autorewrite with buf. unfold ARAPP_MAGIC_SIZE.
    pose proof (len_nonneg (p_iv p)). pose proof (len_nonneg (p_tag p)). pose proof (len_nonneg (p_sha p)).
    pose proof (len_nonneg (p_ed p)). pose proof (len_nonneg (p_ml p)).
    pose proof (len_nonneg (manifest_text p)). pose proof (len_nonneg (p_ciphertext p)).
    pose proof (len_nonneg (zeros SIGNATURE_PADDING_SIZE)). lia.
  - apply negb_false_iff, bytes_eqb_eq. unfold encode, encode_prefix. rewrite <- !app_assoc.
    by apply sub_here.
Qed.

Context (Hmem : forall k, malloc_ok m k = true).

(** The evaluation of a package file succeeds exactly when the file is a legacy
    package and the profile is not sovereign, or the encoding of a well-formed
    package that is admitted. *)
Lemma evaluate_package_iff q path d now buf n :
  policy_ok q -> readable path POLICY_MAX_PACKAGE_SIZE d -> bytes_ok d ->
  buffer_at m + len d <= UINT64_MAX -> 0 <= now < 2 ^ 64 ->
  (exists buf', alrios_supervisor_policy_evaluate_package m (Some q) (Some path) now buf n = Ok (POLICY_OK, buf'))
  <-> is_legacy d = true /\ node_profile q <> PROFILE_SOVEREIGN_MAX \/
      exists p, well_formed now MAX_CLOCK_SKEW_SECONDS p /\ d = encode p /\ package_admitted q p now.
Proof.
  intros Hq Hr Hok Ha Hnow. unfold alrios_supervisor_policy_evaluate_package.
  rewrite (ok_magic _ Hq), (ok_sealed _ Hq), Z.eqb_refl. cbn [negb orb Z.eqb].
  apply read_bounded_iff in Hr as ->. generalize (clear_text buf n) as buf0. intros buf0.
  destruct (is_legacy d) eqn:El.
  - rewrite <- (legacy_iff q buf0 n Hq).
    destruct (alrios_supervisor_policy_evaluate_launch _ _ _ _ _) as [st b]. cbn [fst].
    destruct (st =? POLICY_OK) eqn:E; cbn [negb]; bool_hyps.
    + subst st. split; [tauto|]. intros _. by eexists.
    + split; [by intros (? & [= ->])|]. intros [[_ ?]|(p & _ & -> & _)]; [done|].
      by rewrite encode_not_legacy in El.
  - pose proof (fun v => validate_accepts_iff (malloc_ok m) (buffer_at m) d now MAX_CLOCK_SKEW_SECONDS v
      Hmem Hok Ha Hnow ltac:(done)) as Hv.
    pose proof (validate_container_safe (malloc_ok m) d (len d) now MAX_CLOCK_SKEW_SECONDS Hok ltac:(lia)) as Hs.
    destruct (alrios_arapp_v2_validate _ _ _ _ _ _) as [[st o]|e|] eqn:Ev; cbn [rbind].
    2: { exfalso. revert Ev. unfold alrios_arapp_v2_validate. cbn [negb]. split_if; [done|].
         by destruct (validate_container _ _ _ _ _). }
    2: { exfalso. revert Ev. unfold alrios_arapp_v2_validate. cbn [negb]. split_if; [done|].
         by destruct (validate_container _ _ _ _ _). }
    destruct (st =? ARAPP_OK) eqn:Est; cbn [negb]; bool_hyps.
    2: { split; [by intros (? & ?)|]. intros [[? _]|(p & Hwf & -> & _)]; [done|]. exfalso. apply Est.
         assert (E : Ok (st, o) = Ok (ARAPP_OK, Some (view_of p))); [|by injection E].
         apply Hv. by exists p. }
    subst st. destruct o as [v|].
    2: { exfalso. revert Ev. unfold alrios_arapp_v2_validate. cbn [negb]. split_if; [done|].
         by destruct (validate_container _ _ _ _ _). }
    destruct (proj1 (Hv v) eq_refl) as (p & Hwf & -> & ->).
    change (default zero_view (Some (view_of p))) with (view_of p).
    destruct (package_launch_iff q p now (wf_signable _ _ _ Hwf) Hq (fl_known _ (wf_flags _ _ _ Hwf)))
      as (r & Er & Hl). rewrite Er. cbn [rbind]. specialize (Hl buf0 n).
    destruct (alrios_supervisor_policy_evaluate_launch _ _ _ _ _) as [st b]. cbn [fst] in Hl.
    split.
    + intros (buf' & E). right. exists p. split; [done|]. split; [done|]. apply Hl.
      destruct (_ && _) in E; by injection E.
    + intros [[? _]|(p' & Hwf' & E & Had)]; [done|]. apply (encode_inj _ _ _ _ _ _ Hwf Hwf') in E as <-.
      apply Hl in Had as ->. by eexists.
Qed.
End Evaluation.

(** ** Start-up *)

Section Startup.
Context `{laws : Sha512Laws} {evp : EvpApi} {elaws : EvpLaws evp} (m : machine).
Context (Hfiles : forall path file, fopen m path = Some file -> bytes_ok (contents file)).

Lemma zero_cert_typed : cert_typed zero_cert.
Proof.
  assert (Hz : forall n, 0 <= n -> len (zeros n) = n /\ bytes_ok (zeros n)).
  { intros. split; [by apply len_zeros|auto with buf]. }
  constructor; cbn; try (apply Hz; autounfold with consts; lia); unfold byte_ok; lia.
Qed.

(** Loading a certificate: the object stays typed, and is valid on success. *)
Lemma load_certificate_spec path c :
  cert_typed c -> exists result c', load_certificate_file m path c = Ok (result, c') /\
    cert_typed c' /\ (result = POLICY_OK -> cert_valid c').
Proof.
  intros Ht. unfold load_certificate_file.
  destruct (read_bounded_cases m path WIRE_MAX) as [(d & -> & Hr)|(e & -> & He)].
  2: { exists e, c. split; [done|]. by split. }
  assert (Hd : bytes_ok d) by (destruct Hr as [(f & Hf & <- & _) _ _]; by eapply Hfiles).
  unfold alrios_certificate_decode. cbn [is_null]. split_if.
  { cbn [rbind default]. eexists _, _. split; [done|]. split; [apply zero_cert_typed|done]. }
  pose proof (decode_fields_no_fault d (len d) Hd ltac:(lia)) as Hnf.
  destruct (decode_fields d (len d)) as [c'|e|] eqn:E; [| |done]; cbn [rbind default].
  - apply decode_accepted in E as [-> Ha]. eexists _, _. split; [done|].
    split; [by eapply cert_of_wire_typed|]. intros _. by destruct Ha.
  - pose proof (decode_fields_proper d (len d) e E). rewrite (proj2 (Z.eqb_neq e CERT_OK)) by done.
    eexists _, _. split; [done|]. split; [apply zero_cert_typed|done].
Qed.

Lemma load_optional_spec directory name c :
  cert_typed c -> exists present c', load_optional m directory name c = Ok (present, c') /\
    cert_typed c' /\ (present = true -> cert_valid c').
Proof.
  intros Ht. unfold load_optional. destruct (make_trust_path 1024 directory name) as [st path].
  destruct (decide (st = 0)) as [->|Hst].
  - destruct (load_certificate_spec path c Ht) as (result & c' & -> & Ht' & Hv). cbn [rbind].
    eexists _, _. split; [done|]. split; [done|]. intros E. apply Hv. by apply Z.eqb_eq.
  - exists false, c. split; [by destruct st|]. by split.
Qed.

(** A store made of one root. *)
Lemma one_root_store c s1 s2 :
  cert_typed c ->
  alrios_trust_store_add_anchor (Some empty_store) (Some c) = (CERT_OK, s1) ->
  alrios_trust_store_seal s1 = (CERT_OK, s2) ->
  exists s, s2 = Some s /\ store_wf H s /\ sealed s = 1 /\ anchor_ok c /\
    abs H s = {[ key_id_of H c := c ]}.
Proof.
  intros Ht E1 E2. destruct (add_refines empty_store c wf_empty Ht) as (s & E & Hw & Habs & Hs & _).
  rewrite E1 in E. injection E as Hst ->. symmetry in Hst.
  change (negb (sealed empty_store =? 0)) with false in *.
  assert (Ha : abs H empty_store = ∅) by reflexivity. rewrite Ha in *.
  unfold spec_add in Hst, Habs. destruct (negb (role c =? ROLE_ROOT)) eqn:Er; [done|]. bool_hyps.
  destruct (validate_certificate c) as [wl|e|] eqn:Ev; [| |by destruct (validate_no_fault c)].
  2: { cbn in Hst. by destruct (validate_proper c e Ev). }
  apply validate_iff in Ev as [Hv _]; [|by destruct Ht as [_ _ _ _ _ _ _ _ [? _]]].
  rewrite map_size_empty, lookup_empty in Habs. cbn in Habs.
  rewrite seal_spec in E2 by done. destruct (anchor_count s =? 0); [done|]. injection E2 as <-.
  eexists. split; [done|]. split; [by apply wf_seal|]. split; [done|]. split; [done|]. exact Habs.
Qed.

(** The certificate whose key signs packages at the configured level. *)
Definition signer (q : policy) : certificate :=
  if trust_level q =? 1 then root_certificate q
  else if trust_level q =? 2 then intermediate_certificate q
  else leaf_certificate q.

(** A trust configuration that was loaded. *)
Record trust_loaded (q : policy) : Prop := {
  tl_store : store_wf H (trust_store_ q) /\ sealed (trust_store_ q) = 1;
  tl_root : anchor_ok (root_certificate q) /\
    abs H (trust_store_ q) = {[ key_id_of H (root_certificate q) := root_certificate q ]};
  tl_inter : cert_typed (intermediate_certificate q) /\
    (trust_level q <> 1 -> cert_valid (intermediate_certificate q));
  tl_leaf : cert_typed (leaf_certificate q) /\ (trust_level q = 3 -> cert_valid (leaf_certificate q));
  tl_level : 1 <= trust_level q <= 3;
  tl_key : exists key, ed25519_public_key q = Some key /\ certificate_key (signer q) = Some key;
  tl_hybrid : node_profile q = PROFILE_SOVEREIGN_MAX -> is_Some (ml_dsa_public_key q);
  tl_ready : trust_ready q = 1;
}.

(** The fields that loading leaves as they are. *)
Definition same_seal (p q : policy) : Prop :=
  magic q = magic p /\ policy_sealed q = policy_sealed p /\ node_policy_ q = node_policy_ p.

Lemma choose_level_range a b : 1 <= choose_trust_level m a b <= 3.
Proof. unfold choose_trust_level. destruct (getenv_trust_level m); repeat split_if; lia. Qed.

Lemma load_keys_spec p directory has_inter has_leaf :
  exists result q, load_keys m p directory has_inter has_leaf = Ok (result, q) /\ same_seal p q /\
    (result <> POLICY_OK -> trust_ready q = trust_ready p) /\
    (result = POLICY_OK -> trust_ready q = 1 /\
       trust_store_ q = trust_store_ p /\ root_certificate q = root_certificate p /\
       intermediate_certificate q = intermediate_certificate p /\
       leaf_certificate q = leaf_certificate p /\ trust_level q = trust_level p /\
       (exists key, trust_level_key p has_inter has_leaf = Some key /\ ed25519_public_key q = Some key) /\
       (node_profile q = PROFILE_SOVEREIGN_MAX -> is_Some (ml_dsa_public_key q))).
Proof.
  unfold load_keys, same_seal. destruct (trust_level_key p has_inter has_leaf) as [key|] eqn:Ek.
  2: { eexists _, _. split; [done|]. split; [done|]. by split. }
  destruct (make_trust_path _ _ _) as [st path].
  destruct (decide (st = 0)) as [->|Hst].
  2: { exists POLICY_ERR_ARGUMENT. eexists. split; [by destruct st|]. split; [done|]. by split. }
  destruct (read_bounded_cases m path ML_DSA_65_KEY_SIZE) as [(d & -> & Hr)|(e & -> & He)].
  - destruct (negb _); [eexists _, _; split; [done|]; split; [done|]; by split|].
    destruct (evp_new_raw_public_key _ d) as [ml|]; eexists _, _; (split; [done|]); (split; [done|]);
      (split; [done|]); [|done]. intros _. do 6 (split; [done|]). split; [by exists key|by eexists].
  - cbn [node_policy_ with_keys]. destruct (profile (node_policy_ p) =? PROFILE_SOVEREIGN_MAX) eqn:Ep; bool_hyps.
    + eexists _, _. split; [done|]. split; [done|]. by split.
    + eexists _, _. split; [done|]. split; [done|]. split; [done|]. intros _. do 6 (split; [done|]).
      split; [by exists key|]. done.
Qed.

Lemma load_trust_spec p directory :
  cert_typed (root_certificate p) -> cert_typed (intermediate_certificate p) ->
  cert_typed (leaf_certificate p) -> trust_ready p = 0 ->
  exists result q, load_trust_configuration m p directory = Ok (result, q) /\ same_seal p q /\
    (result <> POLICY_OK -> trust_ready q = 0) /\ (result = POLICY_OK -> trust_loaded q).
Proof.
  intros Tr Ti Tl H0. unfold load_trust_configuration.
  destruct directory as [directory|]; [|by exists POLICY_ERR_ARGUMENT, p].
  destruct (make_trust_path _ _ _) as [st path].
  destruct (decide (st = 0)) as [->|Hst].
  2: { exists POLICY_ERR_ARGUMENT, p. split; [by destruct st|]. by split. }
  destruct (load_certificate_spec path _ Tr) as (result & root & -> & Tr' & Vr). cbn [rbind].
  destruct (result =? POLICY_OK) eqn:Er; cbn [negb]; bool_hyps.
  2: { exists result, (with_root p root). split; [done|]. split; [done|]. by split. }
  cbn [alrios_trust_store_init with_root root_certificate trust_store_ intermediate_certificate leaf_certificate].
  destruct (alrios_trust_store_add_anchor _ _) as [added store] eqn:Ea.
  destruct (if added =? CERT_OK then alrios_trust_store_seal store else (added, store)) as [sl store'] eqn:Es.
  destruct (sl =? CERT_OK) eqn:El; cbn [negb]; bool_hyps.
  2: { eexists _, _. split; [done|]. split; [done|]. by split. }
  subst sl. destruct (added =? CERT_OK) eqn:Ead; bool_hyps; [subst added|by injection Es as ->].
  destruct (one_root_store root store store' Tr' Ea Es) as (s & -> & Hw & Hs & Ha & Habs).
  cbn [default with_root with_store intermediate_certificate leaf_certificate].
  destruct (load_optional_spec directory (lit "intermediate.cert") _ Ti) as (hi & inter & -> & Ti' & Vi).
  cbn [rbind].
  destruct (load_optional_spec directory (lit "leaf.cert") _ Tl) as (hl & leaf & -> & Tl' & Vl). cbn [rbind].
  set (q0 := with_chain _ inter leaf _).
  destruct (load_keys_spec q0 directory hi hl) as (res & q & -> & Hseal & Hbad & Hgood).
  exists res, q. split; [done|]. split; [done|].
  split; [intros ?; by rewrite Hbad|]. intros Hok.
  destruct (Hgood Hok) as (Hr & Est & Ert & Ein & Elf & Elv & (key & Hk & Ek) & Hml).
  pose proof (choose_level_range hi hl) as Hlv. fold (trust_level q0) in Hlv.
  change (choose_trust_level m hi hl) with (trust_level q0) in Hlv.
  assert (Hkey : (trust_level q0 <> 1 -> hi = true) /\ (trust_level q0 = 3 -> hl = true) /\
    certificate_key (signer q0) = Some key).
  { unfold trust_level_key, signer in *.
    destruct (trust_level q0 =? 1) eqn:E1; bool_hyps; [split; [done|]; split; [lia|done]|].
    destruct (trust_level q0 =? 2) eqn:E2; bool_hyps.
    - destruct hi; [|done]. split; [done|]. split; [lia|done].
    - destruct hi, hl; done. }
  destruct Hkey as (Hhi & Hhl & Hkey).
  constructor; rewrite ?Est, ?Ert, ?Ein, ?Elf, ?Elv; try done.
  - split; [done|]. intros Hn. apply Vi. by apply Hhi.
  - split; [done|]. intros Hn. apply Vl. by apply Hhl.
  - exists key. split; [done|]. unfold signer in *. by rewrite Elv, Ert, Ein, Elf.
Qed.

(** What start-up with a trust directory establishes. *)
Lemma startup_trust_spec profile_ directory :
  exists result o, alrios_supervisor_policy_startup_with_trust m profile_ directory = Ok (result, o) /\
    (result <> POLICY_OK -> o = None) /\
    (result = POLICY_OK -> exists q, o = Some q /\ policy_ok m q /\ node_profile q = profile_ /\
       (trust_loaded q \/ profile_ = PROFILE_EDGE_PERF /\ trust_ready q = 0)).
Proof.
  unfold alrios_supervisor_policy_startup_with_trust, alrios_supervisor_policy_startup. cbn [negb].
  destruct (is_valid_profile profile_) eqn:Ev; cbn [negb]; [|by eexists _, _].
  destruct (calloc_ok m); cbn [negb]; [|by eexists _, _].
  destruct (alrios_profile_init _ _ _) as [st node] eqn:Ei.
  destruct (st =? 0) eqn:Est; cbn [negb]; bool_hyps.
  2: { destruct (st =? _); by eexists _, _. }
  subst st. destruct node as [node|].
  2: { exfalso. revert Ei. unfold alrios_profile_init. by repeat split_if. }
  change (default zero_policy (Some node)) with node.
  assert (Hp : profile node = profile_) by (by apply profile_init_cases in Ei as [? _]).
  match goal with |- context [load_trust_configuration m ?p directory] => set (p0 := p) end.
  destruct (load_trust_spec p0 directory zero_cert_typed zero_cert_typed zero_cert_typed eq_refl)
    as (result & q & -> & (Hm & Hs & Hn) & Hbad & Hgood). cbn [rbind].
  assert (Hq : policy_ok m q /\ node_profile q = profile_).
  { split; [|unfold node_profile; by rewrite Hn]. constructor; [done|done|]. rewrite Hn.
    split; cbn [node_policy_ p0]; by rewrite Hp. }
  destruct (result =? POLICY_OK) eqn:Er; cbn [negb]; bool_hyps.
  - eexists _, _. split; [done|]. split; [done|]. intros _. exists q. split; [done|].
    split; [apply Hq|]. split; [apply Hq|]. left. by apply Hgood.
  - destruct (profile_ =? PROFILE_EDGE_PERF) eqn:Ep; bool_hyps.
    + eexists _, _. split; [done|]. split; [done|]. intros _. exists q. split; [done|].
      split; [apply Hq|]. split; [apply Hq|]. right. split; [done|by apply Hbad].
    + by eexists _, _.
Qed.

(** Whose key signs packages, and what ties it to the root, at each trust level:
    at level 1 the root's own key; at level 2 the intermediate's, a certificate of
    valid format that names the root as its issuer, neither signed nor dated as far
    as the code looks; at level 3 the leaf's, under a verified chain. *)
Definition anchored (q : policy) (now : Z) : Prop :=
  anchor_ok (root_certificate q) /\
  (trust_level q = 1 /\ signer q = root_certificate q \/
   trust_level q = 2 /\ signer q = intermediate_certificate q /\
     cert_valid (intermediate_certificate q) /\
     issuer_key_id (intermediate_certificate q) = key_id_of H (root_certificate q) \/
   trust_level q = 3 /\ signer q = leaf_certificate q /\
     chain_ok H {[ key_id_of H (root_certificate q) := root_certificate q ]}
       (leaf_certificate q) (intermediate_certificate q) now).

Lemma level2_lookup q :
  trust_loaded q ->
  alrios_trust_store_lookup (Some (trust_store_ q)) (Some (issuer_key_id (intermediate_certificate q))) true
  = if decide (issuer_key_id (intermediate_certificate q) = key_id_of H (root_certificate q))
    then (CERT_OK, Some (root_certificate q)) else (ERR_NOT_FOUND, None).
Proof.
  intros [[Hw Hs] [_ Ha] [Ti _] _ _ _ _ _]. destruct (ty_issuer _ Ti) as [Hl Hb].
  rewrite lookup_spec, Hs, Ha by done. change (1 =? 0) with false. cbv iota.
  destruct (decide _) as [E|E]; [by rewrite E, lookup_singleton_eq|by rewrite lookup_singleton_ne].
Qed.

Lemma chain_valid_anchored q now : trust_loaded q -> chain_valid m q now = true -> anchored q now.
Proof.
  intros Hq Hc. unfold chain_valid in Hc. pose proof (level2_lookup q Hq) as Hl.
  destruct Hq as [[Hw Hs] [Hroot Ha] [Ti Vi] [Tl _] Hlv _ _ _]. split; [done|].
  assert (trust_level q = 1 \/ trust_level q = 2 \/ trust_level q = 3) as [E|[E|E]] by lia;
    unfold signer; rewrite E in *; cbn [Z.eqb Pos.eqb] in *; [by left|right; left|right; right].
  - rewrite Hl in Hc. do 2 (split; [done|]). split; [by apply Vi|]. by destruct (decide _).
  - do 2 (split; [done|]). apply Z.eqb_eq, verify_chain_sound in Hc; [|done..]. by rewrite Ha in Hc.
Qed.

(** At level 2 the intermediate is neither verified nor dated: naming the root
    suffices, at any time. *)
Lemma level2_unverified q now :
  trust_loaded q -> trust_level q = 2 ->
  issuer_key_id (intermediate_certificate q) = key_id_of H (root_certificate q) ->
  chain_valid m q now = true.
Proof.
  intros Hq Hl E. unfold chain_valid. rewrite Hl. cbn [Z.eqb Pos.eqb]. rewrite level2_lookup by done. by rewrite decide_True.
Qed.

Context (Hmem : forall k, malloc_ok m k = true).

(** The sovereign case of a launch. *)
Lemma sovereign_launch_spec q path d now buf n buf' :
  policy_ok m q -> trust_loaded q -> node_profile q = PROFILE_SOVEREIGN_MAX ->
  readable m path POLICY_MAX_PACKAGE_SIZE d -> bytes_ok d ->
  buffer_at m + len d <= UINT64_MAX -> 0 <= now < 2 ^ 64 ->
  alrios_supervisor_policy_evaluate_package m (Some q) (Some path) now buf n = Ok (POLICY_OK, buf') ->
  exists p ed ml,
    well_formed now MAX_CLOCK_SKEW_SECONDS p /\ d = encode p /\
    flag_set (p_flags p) FLAG_PQC_HYBRID_SIG = true /\ flag_set (p_flags p) FLAG_RING_DEVMODE = false /\
    certificate_key (signer q) = Some ed /\ signature_good p ed [] (p_ed p) /\
    ml_dsa_public_key q = Some ml /\ signature_good p ml arapp_context (p_ml p) /\
    anchored q now.
Proof.
  intros Hq Hl Hp Hr Hok Ha Hnow E.
  destruct (proj1 (evaluate_package_iff m Hmem q path d now buf n Hq Hr Hok Ha Hnow)
    (ex_intro _ buf' E)) as [[_ Hne]|(p & Hwf & -> & _ & Had)]; [done|].
  rewrite Hp in Had. change (PROFILE_SOVEREIGN_MAX =? PROFILE_SOVEREIGN_MAX) with true in Had. cbv iota in Had.
  destruct Had as ((Hed & Hch & Hml) & Hh & Hdev).
  destruct Hed as (_ & _ & ed & Eed & Ged), (Hml Hh) as (_ & _ & ml & Eml & Gml).
  destruct (tl_key _ Hl) as (key & Ek & Ck). rewrite Eed in Ek. injection Ek as <-.
  pose proof (chain_valid_anchored q now Hl Hch). by exists p, ed, ml.
Qed.
End Startup.

(** ** A machine with a sovereign trust directory *)

Definition ml_key : bytes := upd 0 [7] (zeros 1952).

Definition sovereign_package : package_v2 :=
  mk_package 1 73 1000 2000 (zeros 12) (zeros 16) (zeros 64) (zeros 64) (zeros 3309)
    sample_members [1; 2; 3].

Definition sovereign_file : bytes :=
  Eval vm_compute in signed_with sovereign_package (upd 0 [3] (zeros 32)) ml_key.

Definition good_file (d : bytes) : stream :=
  {| contents := d; seek_end_ok := true; seek_set_ok := true; read_ok := true; close_ok := true |}.

Definition sample_files : list (bytes * bytes) :=
  [(lit "t/root.cert", cert_wire sample_root); (lit "t/intermediate.cert", cert_wire sample_inter);
   (lit "t/leaf.cert", cert_wire sample_leaf); (lit "t/ml-dsa-65.pub", ml_key);
   (lit "app", sovereign_file); (lit "dev", encode sample_package)].

Definition sample_machine : machine := {|
  cfg := pqc_build;
  fopen path := good_file ∘ snd <$> List.find (fun f => bytes_eqb (fst f) path) sample_files;
  malloc_ok _ := true;
  calloc_ok := true;
  getenv_trust_level := None;
  buffer_at := 1000000;
  certificate_at := 10000;
  leaf_at := 50000;
  intermediate_at := 30000;
  tbs_at_ := At 500000 [];
|}.

Definition sample_node (profile_ : Z) : @policy toy_evp :=
  match @alrios_supervisor_policy_startup_with_trust _ toy_evp sample_machine profile_ (Some (lit "t")) with
  | Ok (_, Some q) => q
  | _ => zero_sup
  end.

Lemma sample_files_ok path file : fopen sample_machine path = Some file -> bytes_ok (contents file).
Proof.
  cbn [sample_machine fopen]. destruct (List.find _ _) as [f|] eqn:E; [|done]. intros [= <-].
  apply List.find_some in E as [E _]. cbn [good_file contents].
  assert (Hall : forallb (fun f => bytes_okb (snd f)) sample_files = true) by (vm_compute; reflexivity).
  apply bytes_okb_ok. by apply (proj1 (forallb_forall _ _) Hall f).
Qed.

Lemma sample_startup profile_ :
  is_valid_profile profile_ = true ->
  @alrios_supervisor_policy_startup_with_trust _ toy_evp sample_machine profile_ (Some (lit "t"))
  = Ok (POLICY_OK, Some (sample_node profile_)).
Proof.
  intros Hv. assert (profile_ = 1 \/ profile_ = 2 \/ profile_ = 3) as [->|[->| ->]].
  { unfold is_valid_profile in Hv. rewrite !orb_true_iff, !Z.eqb_eq in Hv. tauto. }
  all: vm_refl.
Qed.

Lemma sample_policy_ok profile_ :
  is_valid_profile profile_ = true ->
  policy_ok sample_machine (sample_node profile_) /\ node_profile (sample_node profile_) = profile_.
Proof.
  intros Hv. destruct (startup_trust_spec (evp := toy_evp) sample_machine sample_files_ok profile_ (Some (lit "t")))
    as (st & o & E & _ & Hok).
  rewrite sample_startup in E by done. injection E as <- <-.
  by destruct (Hok eq_refl) as (q & [= <-] & Hq & Hp & _).
Qed.

Lemma sample_readable path d :
  fopen sample_machine path = Some (good_file d) ->
  (1 <=? len d) && (len d <=? POLICY_MAX_PACKAGE_SIZE) = true ->
  readable sample_machine path POLICY_MAX_PACKAGE_SIZE d.
Proof. intros E H. bool_hyps. constructor; [by exists (good_file d)|lia|done]. Qed.

(** ** Properties *)

Section Properties.
Context `{laws : Sha512Laws} {evp : EvpApi} {elaws : EvpLaws evp} (m : machine).

(** The admission rules. A launch is granted exactly when the required
    capabilities are there and the profile admits the requirements; what
    sovereign admits the other profiles admit, and what enterprise admits edge
    admits too, but for signed applications of the developer ring. *)
Theorem admission_correct np r buf n :
  canonical_policy m np -> consistent r ->
  (fst (alrios_supervisor_evaluate_policy m (Some np) (Some r) buf n) = POLICY_OK
   <-> missing_capabilities m r = 0 /\ admits (profile np) r = true) /\
  (admits PROFILE_SOVEREIGN_MAX r = true ->
   admits PROFILE_ENTERPRISE_BAL r = true /\ admits PROFILE_EDGE_PERF r = true) /\
  (admits PROFILE_ENTERPRISE_BAL r = true ->
   admits PROFILE_EDGE_PERF r = negb (on (package_signed r) && devmode r) || on (developer_mode_verified r)).
Proof.
  intros Hn Hr. split; [by apply evaluate_iff|].
  pose proof (admits_order r Hr) as (H1 & H2 & H3). auto.
Qed.

(** C25: the verdict on a package file. On a node as start-up leaves it, the
    evaluation of a readable file succeeds exactly when the file is a legacy package
    and the profile is not sovereign, or the encoding of a well-formed version 2
    package whose signatures, chain and ring satisfy the profile. *)
Theorem evaluate_package_correct q path d now buf n :
  (forall k, malloc_ok m k = true) ->
  policy_ok m q -> readable m path POLICY_MAX_PACKAGE_SIZE d -> bytes_ok d ->
  buffer_at m + len d <= UINT64_MAX -> 0 <= now < 2 ^ 64 ->
  (exists buf', alrios_supervisor_policy_evaluate_package m (Some q) (Some path) now buf n = Ok (POLICY_OK, buf'))
  <-> is_legacy d = true /\ node_profile q <> PROFILE_SOVEREIGN_MAX \/
      exists p, well_formed now MAX_CLOCK_SKEW_SECONDS p /\ d = encode p /\ package_admitted m q p now.
Proof. intros. by apply evaluate_package_iff. Qed.

(** C1: from start-up to launch on a sovereign node. If start-up with a trust
    directory succeeds and a package file is then accepted, the file is the
    encoding of a well-formed package that asks for hybrid signatures and not for
    the developer ring; its Ed25519 signature is good under the key of the
    certificate in use, its ML-DSA-65 signature under the node's key. The
    certificate in use depends on the trust level: the root of the directory
    (level 1), an intermediate that names this root as its issuer (level 2: the
    code checks neither the root's signature on it nor its dates), or a leaf below
    an intermediate below the root with every link signed, dated and in its role
    (level 3). *)
Theorem sovereign_launch directory q path d now buf n buf' :
  (forall path file, fopen m path = Some file -> bytes_ok (contents file)) ->
  (forall k, malloc_ok m k = true) ->
  alrios_supervisor_policy_startup_with_trust m PROFILE_SOVEREIGN_MAX directory = Ok (POLICY_OK, Some q) ->
  readable m path POLICY_MAX_PACKAGE_SIZE d ->
  buffer_at m + len d <= UINT64_MAX -> 0 <= now < 2 ^ 64 ->
  alrios_supervisor_policy_evaluate_package m (Some q) (Some path) now buf n = Ok (POLICY_OK, buf') ->
  exists p ed ml,
    well_formed now MAX_CLOCK_SKEW_SECONDS p /\ d = encode p /\
    flag_set (p_flags p) FLAG_PQC_HYBRID_SIG = true /\ flag_set (p_flags p) FLAG_RING_DEVMODE = false /\
    certificate_key (signer q) = Some ed /\ signature_good p ed [] (p_ed p) /\
    ml_dsa_public_key q = Some ml /\ signature_good p ml arapp_context (p_ml p) /\
    anchored (H := H) q now.
Proof.
  intros Hf Hm Hs Hr Ha Hn He.
  destruct (startup_trust_spec m Hf PROFILE_SOVEREIGN_MAX directory) as (st & o & E & _ & Hok).
  rewrite Hs in E. injection E as <- <-.
  destruct (Hok eq_refl) as (q' & [= <-] & Hq & Hp & [Hl|[Hx _]]); [|done].
  eapply sovereign_launch_spec; try done.
  destruct Hr as [(f & Hff & <- & _) _ _]. by eapply Hf.
Qed.
End Properties.

(** A signed enterprise application in the developer ring. *)
Lemma admission_correct_witness :
  (fst (alrios_supervisor_evaluate_policy sample_machine (Some (mk_policy 2 0 1 0 0 1 15 2 2 2 2 2))
     (Some (mk_req 18 1 0 1 1 1 1 0 0 0)) None 0) = POLICY_OK
   <-> missing_capabilities sample_machine (mk_req 18 1 0 1 1 1 1 0 0 0) = 0 /\
       admits 2 (mk_req 18 1 0 1 1 1 1 0 0 0) = true) /\
  (admits PROFILE_SOVEREIGN_MAX (mk_req 18 1 0 1 1 1 1 0 0 0) = true ->
   admits PROFILE_ENTERPRISE_BAL (mk_req 18 1 0 1 1 1 1 0 0 0) = true /\
   admits PROFILE_EDGE_PERF (mk_req 18 1 0 1 1 1 1 0 0 0) = true) /\
  (admits PROFILE_ENTERPRISE_BAL (mk_req 18 1 0 1 1 1 1 0 0 0) = true ->
   admits PROFILE_EDGE_PERF (mk_req 18 1 0 1 1 1 1 0 0 0) = negb (true && true) || false).
Proof.
  apply (admission_correct sample_machine (mk_policy 2 0 1 0 0 1 15 2 2 2 2 2)
    (mk_req 18 1 0 1 1 1 1 0 0 0) None 0).
  - by split.
  - reflexivity.
Defined.

(** The developer package on an enterprise node. *)
Lemma evaluate_package_correct_witness :
  exists buf', alrios_supervisor_policy_evaluate_package sample_machine (Some (sample_node 2))
    (Some (lit "dev")) 1500 (Some (zeros 64)) 64 = Ok (POLICY_OK, buf').
Proof.
  apply (evaluate_package_correct (evp := toy_evp) (elaws := toy_evp_laws) sample_machine (sample_node 2)
    (lit "dev") (encode sample_package) 1500 (Some (zeros 64)) 64).
  - done.
  - by apply sample_policy_ok.
  - apply sample_readable; vm_refl.
  - apply bytes_okb_ok. vm_refl.
  - vm_compute. discriminate.
  - lia.
  - right. exists sample_package. split; [apply sample_package_wf; unfold MAX_CLOCK_SKEW_SECONDS; lia|].
    split; [done|].
    unfold package_admitted. rewrite (proj2 (sample_policy_ok 2 eq_refl)). split; [done|].
    right. split; [by split|vm_refl].
Defined.

(** The signed package on the sample node. *)
Lemma sovereign_launch_witness :
  exists p ed ml,
    well_formed 1500 MAX_CLOCK_SKEW_SECONDS p /\ sovereign_file = encode p /\
    flag_set (p_flags p) FLAG_PQC_HYBRID_SIG = true /\ flag_set (p_flags p) FLAG_RING_DEVMODE = false /\
    certificate_key (signer (sample_node 1)) = Some ed /\ @signature_good toy_evp p ed [] (p_ed p) /\
    ml_dsa_public_key (sample_node 1) = Some ml /\ @signature_good toy_evp p ml arapp_context (p_ml p) /\
    anchored (H := sha512_spec) (sample_node 1) 1500.
Proof.
  apply (sovereign_launch (evp := toy_evp) (elaws := toy_evp_laws) sample_machine (Some (lit "t")) (sample_node 1)
    (lit "app") sovereign_file 1500 None 0 None).
  - apply sample_files_ok.
  - done.
  - by apply sample_startup.
  - apply sample_readable; vm_refl.
  - vm_compute. discriminate.
  - lia.
  - vm_refl.
Defined.
