(* ===== verification/Ring.v ===== *)
(** Ring buffers: an array of [cap] slots of which [count] from [head] on, wrapping
    around, hold the elements of a queue. The event broker and the router of guests keep
    their queues so. *)

From S2P Require Import Prelude.
#[local] Open Scope Z_scope.

(** The [n] elements of the queue, oldest first; [d] stands for a slot that is not there. *)
Definition ring {A} (d : A) (q : list A) (cap head : Z) (n : nat) : list A :=
  map (fun i => nth (Z.to_nat ((head + Z.of_nat i) mod cap)) q d) (seq 0 n).

Record ring_shape {A} (q : list A) (cap head count : Z) : Prop := {
  rg_cap : 0 < cap;
  rg_slots : len q = cap;
  rg_head : 0 <= head < cap;
  rg_count : 0 <= count <= cap;
}.

Section Ring.
Context {A : Type} (d : A).

Lemma len_ring q cap head n : len (ring d q cap head n) = Z.of_nat n.
Proof. unfold ring, len. by rewrite length_map, length_seq. Qed.

Lemma ring_snoc q cap head n :
  ring d q cap head (S n) = ring d q cap head n ++ [nth (Z.to_nat ((head + Z.of_nat n) mod cap)) q d].
Proof. unfold ring. by rewrite seq_S, map_app. Qed.

(** Advancing the head drops the first element. *)
Lemma ring_cons q cap head n :
  0 <= head < cap ->
  ring d q cap head (S n) = nth (Z.to_nat head) q d :: ring d q cap ((head + 1) mod cap) n.
Proof.
  intros Hh. unfold ring. rewrite <- cons_seq, <- seq_shift. simpl map. rewrite map_map. f_equal.
  - by rewrite Z.add_0_r, Z.mod_small.
  - apply map_ext. intros i. rewrite Zplus_mod_idemp_l. do 3 f_equal. lia.
Qed.

(** Two places of the ring that are less than [cap] apart. *)
Lemma ring_slot_ne cap head i j :
  0 < cap -> 0 <= i < j -> j < i + cap -> Z.to_nat ((head + i) mod cap) <> Z.to_nat ((head + j) mod cap).
Proof.
  intros Hc Hij Hj E.
  apply Z2Nat.inj in E; try (apply Z.mod_pos_bound; done).
  apply (f_equal (fun z => (z - (head + i)) mod cap)) in E.
  rewrite !Zminus_mod_idemp_l, Z.sub_diag, Zmod_0_l in E.
  replace (head + j - (head + i)) with (j - i) in E by lia. rewrite Z.mod_small in E by lia. lia.
Qed.

(** A write outside the places of the ring does not change it. *)
Lemma ring_insert_other q cap head n k m :
  (forall i, 0 <= i < Z.of_nat n -> k <> Z.to_nat ((head + i) mod cap)) ->
  ring d (<[k := m]> q) cap head n = ring d q cap head n.
Proof.
  intros Hk. unfold ring. apply map_ext_in. intros i Hi%in_seq.
  rewrite !nth_lookup, list_lookup_insert_ne; [done|]. apply Hk. lia.
Qed.

Lemma nth_insert_same (q : list A) k m : (k < length q)%nat -> nth k (<[k := m]> q) d = m.
Proof. intros. rewrite nth_lookup, list_lookup_insert_eq by done. done. Qed.

(** Writing the slot after the queue: the queue is the same, ... *)
Lemma ring_write_tail q cap head count m :
  ring_shape q cap head count -> count < cap ->
  let q' := <[Z.to_nat ((head + count) mod cap) := m]> q in
  ring d q' cap head (Z.to_nat count) = ring d q cap head (Z.to_nat count) /\ ring_shape q' cap head count.
Proof.
  intros [Hc Hq Hh Hn] Hlt. cbn zeta. split.
  - apply ring_insert_other. intros i Hi E. symmetry in E. revert E. apply ring_slot_ne; lia.
  - split; try done. unfold len in *. rewrite length_insert. lia.
Qed.

(** ... and has a new last element when the slot is counted. *)
Lemma ring_push q cap head count m :
  ring_shape q cap head count -> count < cap ->
  let q' := <[Z.to_nat ((head + count) mod cap) := m]> q in
  ring d q' cap head (Z.to_nat (count + 1)) = ring d q cap head (Z.to_nat count) ++ [m]
  /\ ring_shape q' cap head (count + 1).
Proof.
  intros Hr Hlt. destruct (ring_write_tail q cap head count m Hr Hlt) as [E Hr']. destruct Hr as [Hc Hq Hh Hn].
  cbn zeta in *. split.
  - replace (Z.to_nat (count + 1)) with (S (Z.to_nat count)) by lia. rewrite ring_snoc, Z2Nat.id by lia.
    f_equal; [exact E|f_equal]. apply nth_insert_same. unfold len in Hq.
    pose proof (Z.mod_pos_bound (head + count) cap ltac:(lia)). lia.
  - destruct Hr'. split; lia || done.
Qed.

(** Releasing the first slot of a queue that is not empty. *)
Lemma ring_pop q cap head count m :
  ring_shape q cap head count -> 0 < count ->
  let q' := <[Z.to_nat head := m]> q in
  ring d q cap head (Z.to_nat count)
    = nth (Z.to_nat head) q d :: ring d q' cap ((head + 1) mod cap) (Z.to_nat (count - 1))
  /\ ring_shape q' cap ((head + 1) mod cap) (count - 1).
Proof.
  intros [Hc Hq Hh Hn] Hlt. cbn zeta. split.
  - replace (Z.to_nat count) with (S (Z.to_nat (count - 1))) by lia.
    rewrite ring_cons by lia. f_equal. symmetry. apply ring_insert_other. intros i Hi.
    rewrite Zplus_mod_idemp_l, <- Z.add_assoc. replace head with ((head + 0) mod cap) at 1.
    + apply ring_slot_ne; lia.
    + rewrite Z.add_0_r. apply Z.mod_small. lia.
  - split; try lia.
    + unfold len in *. rewrite length_insert. lia.
    + apply Z.mod_pos_bound. lia.
Qed.
End Ring.
