(* ===== verification/EventBroker.v ===== *)
(** The event broker (src/libraries/events/broker.c, include/alrios/events/broker.h):
    subscriptions with bounded queues, authorization, sequence numbers, and the
    codec of the wire header.

    Subscriptions are heap objects: the broker's array holds their handles and
    [heap] maps the live handles to objects; a handle that is not live is a
    dangling pointer. There is one broker, so every live handle is a subscription of
    it and the test [subscription->broker != broker] of a live one never holds; handing
    a subscription to another broker is not modelled. The specification gives each
    subscription a list of pending messages ([pending]) in the place of its ring buffer. *)

From Stdlib Require Import Sorting.Sorted.
From S2P Require Import Prelude Bytes Ring.
From stdpp Require Import gmap.
#[local] Open Scope Z_scope.

Definition MAX_PRINCIPAL_LEN : Z := 64.

Definition HARD_MAX_TOPICS : Z := 4096.

Definition HARD_MAX_PAYLOAD : Z := 65524.

Definition HARD_MAX_SUBSCRIBERS : Z := 4096.

Definition HARD_MAX_QUEUE_DEPTH : Z := 1024.

Definition EVENT_WIRE_MAGIC : Z := 1095910742.

Definition EVENT_WIRE_VERSION : Z := 1.

Definition EVENT_WIRE_SIZE : Z := 116.

Definition EVENT_OK : Z := 0.

Definition EVENT_PARTIAL : Z := 1.

Definition EVENT_EMPTY : Z := 2.

Definition EVENT_ERR_INVALID : Z := -4001.

Definition EVENT_ERR_DENIED : Z := -4002.

Definition EVENT_ERR_LIMIT : Z := -4003.

Definition EVENT_ERR_EXISTS : Z := -4004.

Definition EVENT_ERR_NOT_FOUND : Z := -4005.

Definition EVENT_ERR_BUFFER_TOO_SMALL : Z := -4006.

Definition EVENT_ERR_NOMEM : Z := -4007.

Definition DROP_NEWEST : Z := 1.

Definition DROP_OLDEST : Z := 2.

(** ** Data *)

Inductive action := AUTHORIZE_SUBSCRIBE | AUTHORIZE_UNSUBSCRIBE | AUTHORIZE_EMIT.

Record identity := mk_identity {
  pid : Z;
  uid : Z;
  gid : Z;
  principal : bytes;
}.

Record broker_config := mk_config {
  max_topics : Z;
  max_payload_size : Z;
  max_subscribers : Z;
  subscriber_queue_depth : Z;
}.

Record metadata := mk_metadata {
  ev_topic : Z;
  ev_sequence : Z;
  ev_transaction_id : Z;
  ev_timestamp_nanos : Z;
  ev_producer : identity;
  ev_payload_len : Z;
}.

Record message := mk_message {
  m_metadata : metadata;
  m_payload : option bytes;
}.

Record emit_result := mk_result {
  delivered : Z;
  dropped_oldest : Z;
  rejected_newest : Z;
}.

Record subscription := mk_sub {
  owner : identity;
  topic : Z;
  overflow_policy : Z;
  queue : list message;
  queue_capacity : Z;
  queue_head : Z;
  queue_count : Z;
}.

Record broker := mk_broker {
  config : broker_config;
  subscriptions : list Z;
  topic_count : Z;
  next_sequence : Z;
  heap : gmap Z subscription;
}.

Definition zero_identity : identity := mk_identity 0 0 0 (zeros MAX_PRINCIPAL_LEN).

Definition zero_metadata : metadata := mk_metadata 0 0 0 0 zero_identity 0.

Definition zero_message : message := mk_message zero_metadata None.

Definition zero_subscription : subscription := mk_sub zero_identity 0 0 [] 0 0 0.

(** ** Operations *)

Section Broker.
(** The callback, with its context. *)
Context (authorize : action -> identity -> option identity -> Z -> Z).

(** [while (length < MAX && principal\[length\] != '\0') length++;] *)
Definition valid_identity (i : option identity) : bool :=
  match i with
  | None => false
  | Some i =>
      let length := len (cstr (sub 0 MAX_PRINCIPAL_LEN (principal i))) in
      (length >? 0) && (length <? MAX_PRINCIPAL_LEN)
  end.

(** [strncmp] of two arrays of 64 characters compares their strings. *)
Definition identity_equal (left right : identity) : bool :=
  (pid left =? pid right) && (uid left =? uid right) && (gid left =? gid right)
  && bytes_eqb (cstr (sub 0 MAX_PRINCIPAL_LEN (principal left)))
       (cstr (sub 0 MAX_PRINCIPAL_LEN (principal right))).

Definition authorize_action (act : action) (actor : identity) (own : option identity) (topic_ : Z) : Z :=
  if authorize act actor own topic_ =? 1 then EVENT_OK else EVENT_ERR_DENIED.

(** The object behind a handle of the array. *)
Definition sub_at (b : broker) (h : Z) : subscription := default zero_subscription (heap b !! h).

(** [excluded] is a handle, 0 for NULL. *)
Definition topic_present_except (b : broker) (topic_ excluded : Z) : bool :=
  existsb (fun h => negb (h =? excluded) && (topic (sub_at b h) =? topic_)) (subscriptions b).

(** Status and [*out_broker]; the two flags are the outcomes of [calloc]. *)
Definition ar_event_broker_create (cfg : option broker_config) (authorize_present out_present : bool)
    (calloc_broker calloc_array : bool) : Z * option broker :=
  if negb out_present then (EVENT_ERR_INVALID, None)
  else
    match cfg with
    | None => (EVENT_ERR_INVALID, None)
    | Some c =>
        if negb authorize_present
           || (max_topics c =? 0) || (max_topics c >? HARD_MAX_TOPICS)
           || (max_payload_size c =? 0) || (max_payload_size c >? HARD_MAX_PAYLOAD)
           || (max_subscribers c =? 0) || (max_subscribers c >? HARD_MAX_SUBSCRIBERS)
           || (subscriber_queue_depth c =? 0) || (subscriber_queue_depth c >? HARD_MAX_QUEUE_DEPTH)
        then (EVENT_ERR_INVALID, None)
        else if negb calloc_broker then (EVENT_ERR_NOMEM, None)
        else if negb calloc_array then (EVENT_ERR_NOMEM, None)
        else (EVENT_OK, Some (mk_broker c [] 0 1 ∅))
    end.

(** The objects that are live after it: it releases those of the array. *)
Definition ar_event_broker_destroy (b : option broker) : gmap Z subscription :=
  match b with
  | None => ∅
  | Some b => foldr delete (heap b) (subscriptions b)
  end.

(** Status, the broker afterwards and [*out_subscription] (0: NULL). [fresh] is
    the address [calloc] gives, [queue_ok] the outcome of the second call. *)
Definition ar_event_broker_subscribe (bo : option broker) (consumer : option identity)
    (topic_ policy : Z) (out_present : bool) (fresh : option Z) (queue_ok : bool)
    : Z * option broker * Z :=
  if negb out_present then (EVENT_ERR_INVALID, bo, 0)
  else
    match bo, consumer with
    | Some b, Some c =>
        if negb (valid_identity consumer) || (topic_ =? 0)
           || negb (policy =? DROP_NEWEST) && negb (policy =? DROP_OLDEST)
        then (EVENT_ERR_INVALID, bo, 0)
        else if negb (authorize_action AUTHORIZE_SUBSCRIBE c (Some c) topic_ =? EVENT_OK)
        then (EVENT_ERR_DENIED, bo, 0)
        else if len (subscriptions b) >=? max_subscribers (config b) then (EVENT_ERR_LIMIT, bo, 0)
        else if existsb (fun h => (topic (sub_at b h) =? topic_) && identity_equal (owner (sub_at b h)) c)
                  (subscriptions b)
        then (EVENT_ERR_EXISTS, bo, 0)
        else if negb (topic_present_except b topic_ 0) && (topic_count b >=? max_topics (config b))
        then (EVENT_ERR_LIMIT, bo, 0)
        else
          match fresh with
          | None => (EVENT_ERR_NOMEM, bo, 0)
          | Some h =>
              if negb queue_ok then (EVENT_ERR_NOMEM, bo, 0)
              else
                let depth := subscriber_queue_depth (config b) in
                let s := mk_sub c topic_ policy (replicate (Z.to_nat depth) zero_message) depth 0 0 in
                let b := mk_broker (config b) (subscriptions b ++ [h]) (topic_count b)
                           (next_sequence b) (<[h := s]> (heap b)) in
                let b := if negb (topic_present_except b topic_ h)
                         then mk_broker (config b) (subscriptions b) (topic_count b + 1)
                                (next_sequence b) (heap b)
                         else b in
                (EVENT_OK, Some b, h)
          end
    | _, _ => (EVENT_ERR_INVALID, bo, 0)
    end.

(** [subscriptions\[index\] = subscriptions\[count - 1\]] with one element less. *)
Definition remove_swap (l : list Z) (index : nat) : list Z :=
  take (length l - 1) (<[index := nth (length l - 1) l 0]> l).

(** The index of a handle in the array. *)
Fixpoint index_of (h : Z) (l : list Z) : option nat :=
  match l with
  | [] => None
  | x :: l => if x =? h then Some O else S <$> index_of h l
  end.

(** Status and the broker; [Fault]: the handle is dangling. *)
Definition ar_event_broker_unsubscribe (bo : option broker) (actor : option identity) (h : Z)
    : res (Z * option broker) :=
  match bo with
  | None => Ok (EVENT_ERR_INVALID, bo)
  | Some b =>
      if h =? 0 then Ok (EVENT_ERR_INVALID, bo)
      else
        match heap b !! h, actor with
        | None, _ => Fault
        | Some _, None => Ok (EVENT_ERR_INVALID, bo)
        | Some s, Some a =>
            if negb (valid_identity actor) then Ok (EVENT_ERR_INVALID, bo)
            else if negb (authorize_action AUTHORIZE_UNSUBSCRIBE a (Some (owner s)) (topic s) =? EVENT_OK)
            then Ok (EVENT_ERR_DENIED, bo)
            else
              match index_of h (subscriptions b) with
              | None => Ok (EVENT_ERR_NOT_FOUND, bo)
              | Some index =>
                  let topic_will_be_removed := negb (topic_present_except b (topic s) h) in
                  Ok (EVENT_OK,
                      Some (mk_broker (config b) (remove_swap (subscriptions b) index)
                              (if topic_will_be_removed then topic_count b - 1 else topic_count b)
                              (next_sequence b) (delete h (heap b))))
              end
        end
  end.

(** Slot [i] of a queue. *)
Definition slot (s : subscription) (i : Z) : message := nth (Z.to_nat i) (queue s) zero_message.

Definition with_queue (s : subscription) (q : list message) (head count : Z) : subscription :=
  mk_sub (owner s) (topic s) (overflow_policy s) q (queue_capacity s) head count.

(** [payload] is what is behind the pointer, [malloc_ok] the outcome of [malloc];
    status, subscription, counters. *)
Definition enqueue_message (malloc_ok : bool) (s : subscription) (md : metadata) (payload : bytes)
    (payload_len : Z) (result : emit_result) : Z * subscription * emit_result :=
  if (queue_count s =? queue_capacity s) && (overflow_policy s =? DROP_NEWEST)
  then (EVENT_PARTIAL, s, mk_result (delivered result) (dropped_oldest result) (rejected_newest result + 1))
  else if (payload_len >? 0) && negb malloc_ok
  then (EVENT_ERR_NOMEM, s, mk_result (delivered result) (dropped_oldest result) (rejected_newest result + 1))
  else
    let payload_copy := if payload_len >? 0 then Some (sub 0 payload_len payload) else None in
    let '(s, result) :=
      if queue_count s =? queue_capacity s then
        (with_queue s (<[Z.to_nat (queue_head s) := zero_message]> (queue s))
           ((queue_head s + 1) mod queue_capacity s) (queue_count s - 1),
         mk_result (delivered result) (dropped_oldest result + 1) (rejected_newest result))
      else (s, result) in
    let tail := (queue_head s + queue_count s) mod queue_capacity s in
    (EVENT_OK,
     with_queue s (<[Z.to_nat tail := mk_message md payload_copy]> (queue s)) (queue_head s) (queue_count s + 1),
     mk_result (delivered result + 1) (dropped_oldest result) (rejected_newest result)).

(** The loop over the array; [malloc_ok h] is the outcome of the [malloc] for the
    queue of [h]. *)
Fixpoint emit_loop (malloc_ok : Z -> bool) (md : metadata) (payload : bytes) (payload_len : Z)
    (handles : list Z) (hp : gmap Z subscription) (result : emit_result) (status : Z)
    : gmap Z subscription * emit_result * Z :=
  match handles with
  | [] => (hp, result, status)
  | h :: handles =>
      let s := default zero_subscription (hp !! h) in
      if negb (topic s =? ev_topic md)
      then emit_loop malloc_ok md payload payload_len handles hp result status
      else
        let '(enqueue_status, s, result) := enqueue_message (malloc_ok h) s md payload payload_len result in
        emit_loop malloc_ok md payload payload_len handles (<[h := s]> hp) result
          (if negb (enqueue_status =? EVENT_OK) then EVENT_PARTIAL else status)
  end.

(** Status, the broker and [*out_result]. *)
Definition ar_event_broker_emit (malloc_ok : Z -> bool) (bo : option broker) (producer : option identity)
    (topic_ transaction_id timestamp_nanos : Z) (payload : option bytes) (payload_len : Z)
    : Z * option broker * emit_result :=
  let zero := mk_result 0 0 0 in
  match bo, producer with
  | Some b, Some p =>
      if negb (valid_identity producer) || (topic_ =? 0) || (payload_len >? max_payload_size (config b))
         || (payload_len >? 0) && bool_decide (payload = None)
      then (EVENT_ERR_INVALID, bo, zero)
      else if negb (authorize_action AUTHORIZE_EMIT p None topic_ =? EVENT_OK)
      then (EVENT_ERR_DENIED, bo, zero)
      else if next_sequence b =? UINT64_MAX then (EVENT_ERR_LIMIT, bo, zero)
      else
        let md := mk_metadata topic_ (next_sequence b) transaction_id timestamp_nanos p payload_len in
        let '(hp, result, status) :=
          emit_loop malloc_ok md (default [] payload) payload_len (subscriptions b) (heap b) zero EVENT_OK in
        (status, Some (mk_broker (config b) (subscriptions b) (topic_count b) (next_sequence b + 1) hp),
         result)
  | _, _ => (EVENT_ERR_INVALID, bo, zero)
  end.

(** What a receive stores: the metadata, the payload bytes and the length. *)
Record received := mk_received {
  r_metadata : option metadata;
  r_payload : option bytes;
  r_len : Z;
}.

(** Status, the broker and the outputs; [outputs] says that the three output
    pointers are there as the call needs them. *)
Definition ar_event_subscription_receive (b : broker) (h : Z) (outputs : bool) (payload_capacity : Z)
    : res (Z * broker * received) :=
  let nothing := mk_received None None 0 in
  if h =? 0 then Ok (EVENT_ERR_INVALID, b, nothing)
  else
    match heap b !! h with
    | None => Fault
    | Some s =>
        if negb outputs then Ok (EVENT_ERR_INVALID, b, nothing)
        else if queue_count s =? 0 then Ok (EVENT_EMPTY, b, nothing)
        else
          let message := slot s (queue_head s) in
          let payload_len := ev_payload_len (m_metadata message) in
          if payload_capacity <? payload_len
          then Ok (EVENT_ERR_BUFFER_TOO_SMALL, b, mk_received None None payload_len)
          else
            let out := mk_received (Some (m_metadata message))
                         (if payload_len >? 0 then m_payload message else None) payload_len in
            let s := with_queue s (<[Z.to_nat (queue_head s) := zero_message]> (queue s))
                       ((queue_head s + 1) mod queue_capacity s) (queue_count s - 1) in
            Ok (EVENT_OK,
                mk_broker (config b) (subscriptions b) (topic_count b) (next_sequence b) (<[h := s]> (heap b)),
                out)
    end.

Definition ar_event_broker_subscription_count (bo : option broker) : Z :=
  match bo with None => 0 | Some b => len (subscriptions b) end.

Definition ar_event_broker_topic_count (bo : option broker) : Z :=
  match bo with None => 0 | Some b => topic_count b end.

Definition ar_event_subscription_pending (b : broker) (h : Z) : res Z :=
  if h =? 0 then Ok 0
  else match heap b !! h with None => Fault | Some s => Ok (queue_count s) end.
End Broker.

(** ** The wire header *)

Record wire_header := mk_header {
  wh_magic : Z;
  wh_version : Z;
  wh_opcode : Z;
  wh_topic : Z;
  wh_flags : Z;
  wh_sequence : Z;
  wh_transaction_id : Z;
  wh_timestamp_nanos : Z;
  wh_producer_pid : Z;
  wh_producer_uid : Z;
  wh_producer_gid : Z;
  wh_payload_len : Z;
  wh_producer_principal : bytes;
}.

Definition zero_header : wire_header := mk_header 0 0 0 0 0 0 0 0 0 0 0 0 (zeros MAX_PRINCIPAL_LEN).

(** Status and the 116 bytes of [out_wire], if written. *)
Definition ar_event_wire_header_encode (header : option wire_header) (out_wire : option bytes)
    : Z * option bytes :=
  match header, out_wire with
  | Some h, Some w =>
      let w := upd 0 (store_u32_be (wh_magic h)) w in
      let w := upd 4 (store_u16_be (wh_version h)) w in
      let w := upd 6 (store_u16_be (wh_opcode h)) w in
      let w := upd 8 (store_u16_be (wh_topic h)) w in
      let w := upd 10 (store_u16_be (wh_flags h)) w in
      let w := upd 12 (store_u64_be (wh_sequence h)) w in
      let w := upd 20 (store_u64_be (wh_transaction_id h)) w in
      let w := upd 28 (store_u64_be (wh_timestamp_nanos h)) w in
      let w := upd 36 (store_u32_be (wh_producer_pid h)) w in
      let w := upd 40 (store_u32_be (wh_producer_uid h)) w in
      let w := upd 44 (store_u32_be (wh_producer_gid h)) w in
      let w := upd 48 (store_u32_be (wh_payload_len h)) w in
      let w := upd 52 (zeros MAX_PRINCIPAL_LEN) w in
      let w := upd 52 (cstr (sub 0 (MAX_PRINCIPAL_LEN - 1) (wh_producer_principal h))) w in
      (EVENT_OK, Some w)
  | _, _ => (EVENT_ERR_INVALID, out_wire)
  end.

(** Status and [*out_header]. *)
Definition ar_event_wire_header_decode (in_wire : option bytes) (out_present : bool)
    : res (Z * option wire_header) :=
  match in_wire with
  | None => Ok (EVENT_ERR_INVALID, None)
  | Some w =>
      if negb out_present then Ok (EVENT_ERR_INVALID, None)
      else
        let z := zero_header in
        let! b := rd 0 4 w in
        let magic := load_u32_be b in
        if negb (magic =? EVENT_WIRE_MAGIC)
        then Ok (EVENT_ERR_INVALID, Some (mk_header magic 0 0 0 0 0 0 0 0 0 0 0 (wh_producer_principal z)))
        else
          let! b := rd 4 2 w in
          let version := load_u16_be b in
          if negb (version =? EVENT_WIRE_VERSION)
          then Ok (EVENT_ERR_INVALID,
                   Some (mk_header magic version 0 0 0 0 0 0 0 0 0 0 (wh_producer_principal z)))
          else
            let! b_opcode := rd 6 2 w in
            let! b_topic := rd 8 2 w in
            let! b_flags := rd 10 2 w in
            let! b_sequence := rd 12 8 w in
            let! b_transaction := rd 20 8 w in
            let! b_timestamp := rd 28 8 w in
            let! b_pid := rd 36 4 w in
            let! b_uid := rd 40 4 w in
            let! b_gid := rd 44 4 w in
            let! b_payload_len := rd 48 4 w in
            let! b_principal := rd 52 MAX_PRINCIPAL_LEN w in
            Ok (EVENT_OK,
                Some (mk_header magic version (load_u16_be b_opcode) (load_u16_be b_topic)
                  (load_u16_be b_flags) (load_u64_be b_sequence) (load_u64_be b_transaction)
                  (load_u64_be b_timestamp) (load_u32_be b_pid) (load_u32_be b_uid)
                  (load_u32_be b_gid) (load_u32_be b_payload_len)
                  (upd (MAX_PRINCIPAL_LEN - 1) [0] b_principal)))
  end.

(** ** Specification *)

(** The pending messages of a ring, oldest first. *)
Definition pending (s : subscription) : list message :=
  ring zero_message (queue s) (queue_capacity s) (queue_head s) (Z.to_nat (queue_count s)).

(** The ring of a queue. *)
Record ring_ok (depth : Z) (s : subscription) : Prop := {
  ri_capacity : queue_capacity s = depth;
  ri_depth : 1 <= depth <= HARD_MAX_QUEUE_DEPTH;
  ri_slots : len (queue s) = depth;
  ri_head : 0 <= queue_head s < depth;
  ri_count : 0 <= queue_count s <= depth;
}.

(** What becomes of a bounded queue of [depth] places when a message comes in;
    [copied] says whether the payload could be copied. *)
Definition offer (depth policy : Z) (copied : bool) (q : list message) (m : message) : list message :=
  let full := len q =? depth in
  if full && (policy =? DROP_NEWEST) then q
  else if negb copied then q
  else (if full then tail q else q) ++ [m].

(** A message as [emit] makes it. *)
Definition message_of (md : metadata) (payload : bytes) : message :=
  mk_message md (if ev_payload_len md >? 0 then Some (sub 0 (ev_payload_len md) payload) else None).

Definition seq_lt (a b : message) : Prop := ev_sequence (m_metadata a) < ev_sequence (m_metadata b).

(** A pending message of a topic, on a broker that has numbered up to [next]. *)
Record message_ok (c : broker_config) (next topic_ : Z) (m : message) : Prop := {
  ms_topic : ev_topic (m_metadata m) = topic_;
  ms_sequence : 1 <= ev_sequence (m_metadata m) < next;
  ms_len : 0 <= ev_payload_len (m_metadata m) <= max_payload_size c;
  ms_payload : match m_payload m with
               | Some d => len d = ev_payload_len (m_metadata m) /\ 0 < len d
               | None => ev_payload_len (m_metadata m) = 0
               end;
}.

(** ** Specification: a broker is a map of mailboxes *)

Record mailbox := mk_box {
  box_owner : identity;
  box_topic : Z;
  box_policy : Z;
  box_messages : list message;
}.

Definition mailbox_of (s : subscription) : mailbox :=
  mk_box (owner s) (topic s) (overflow_policy s) (pending s).

Definition boxes_of (b : broker) : gmap Z mailbox := mailbox_of <$> heap b.

Definition topics_of (bx : gmap Z mailbox) : gset Z := map_to_set (fun _ x => box_topic x) bx.

Record box_ok (c : broker_config) (next : Z) (x : mailbox) : Prop := {
  bx_owner : valid_identity (Some (box_owner x)) = true;
  bx_topic : box_topic x <> 0;
  bx_policy : box_policy x = DROP_NEWEST \/ box_policy x = DROP_OLDEST;
  bx_depth : len (box_messages x) <= subscriber_queue_depth c;
  bx_messages : Forall (message_ok c next (box_topic x)) (box_messages x);
  bx_sorted : StronglySorted seq_lt (box_messages x);
}.

Record config_ok (c : broker_config) : Prop := {
  co_topics : 1 <= max_topics c <= HARD_MAX_TOPICS;
  co_payload : 1 <= max_payload_size c <= HARD_MAX_PAYLOAD;
  co_subscribers : 1 <= max_subscribers c <= HARD_MAX_SUBSCRIBERS;
  co_depth : 1 <= subscriber_queue_depth c <= HARD_MAX_QUEUE_DEPTH;
}.

(** The fields are of type [size_t]. *)
Definition config_typed (c : broker_config) : Prop :=
  0 <= max_topics c /\ 0 <= max_payload_size c /\ 0 <= max_subscribers c /\ 0 <= subscriber_queue_depth c.

(** The mailboxes of a configuration; nobody holds a topic twice. *)
Record boxes_ok (c : broker_config) (next : Z) (bx : gmap Z mailbox) : Prop := {
  bk_config : config_ok c;
  bk_next : 1 <= next <= UINT64_MAX;
  bk_size : Z.of_nat (size bx) <= max_subscribers c;
  bk_topics : Z.of_nat (size (topics_of bx)) <= max_topics c;
  bk_distinct : forall h h' x x', bx !! h = Some x -> bx !! h' = Some x' ->
    box_topic x = box_topic x' -> identity_equal (box_owner x) (box_owner x') = true -> h = h';
  bk_boxes : map_Forall (fun _ x => box_ok c next x) bx;
}.

(** The array has the live handles, each once. *)
Record indexed (b : broker) : Prop := {
  bo_handles : NoDup (subscriptions b);
  bo_live : forall h, h ∈ subscriptions b <-> is_Some (heap b !! h);
  bo_null : heap b !! 0 = None;
}.

(** The topic counter counts the topics that have a subscription; every queue is a
    ring. *)
Record linked (b : broker) : Prop := {
  bo_indexed : indexed b;
  bo_topic_count : topic_count b = Z.of_nat (size (topics_of (boxes_of b)));
  bo_rings : map_Forall (fun _ s => ring_ok (subscriber_queue_depth (config b)) s) (heap b);
}.

Record broker_ok (b : broker) : Prop := {
  bo_linked : linked b;
  bo_boxes : boxes_ok (config b) (next_sequence b) (boxes_of b);
}.

Section Mailboxes.
Context (cfg : broker_config).

(** Somebody's mailbox for a topic. *)
Definition held (bx : gmap Z mailbox) (topic_ : Z) (who : identity) : bool :=
  bool_decide (map_Exists (fun _ x => box_topic x = topic_ /\ identity_equal (box_owner x) who = true) bx).

(** A mailbox that does not take the message: full with DROP_NEWEST, or no
    memory for the copy of the payload. *)
Definition refuses (md : metadata) (copy_ok : Z -> bool) (h : Z) (x : mailbox) : bool :=
  (box_topic x =? ev_topic md) &&
  ((len (box_messages x) =? subscriber_queue_depth cfg) && (box_policy x =? DROP_NEWEST)
   || negb ((ev_payload_len md <=? 0) || copy_ok h)).

Definition takes (md : metadata) (copy_ok : Z -> bool) (h : Z) (x : mailbox) : bool :=
  (box_topic x =? ev_topic md) && negb (refuses md copy_ok h x).

(** A mailbox that loses its oldest message to make room. *)
Definition evicts (md : metadata) (copy_ok : Z -> bool) (h : Z) (x : mailbox) : bool :=
  takes md copy_ok h x && (len (box_messages x) =? subscriber_queue_depth cfg).

Definition deliver (md : metadata) (payload : bytes) (copy_ok : Z -> bool) (h : Z) (x : mailbox) : mailbox :=
  if box_topic x =? ev_topic md
  then mk_box (box_owner x) (box_topic x) (box_policy x)
         (offer (subscriber_queue_depth cfg) (box_policy x) ((ev_payload_len md <=? 0) || copy_ok h)
            (box_messages x) (message_of md payload))
  else x.

(** The number of mailboxes with a property. *)
Definition tally (f : Z -> mailbox -> bool) (bx : gmap Z mailbox) : Z :=
  Z.of_nat (size (filter (fun hx : Z * mailbox => f hx.1 hx.2 = true) bx)).
End Mailboxes.

(** ** The interface as one step *)

Inductive op :=
  | Subscribe (consumer : option identity) (topic_ policy : Z) (out_present : bool)
      (fresh : option Z) (queue_ok : bool)
  | Unsubscribe (actor : option identity) (h : Z)
  | Emit (malloc_ok : Z -> bool) (producer : option identity) (topic_ transaction_id timestamp : Z)
      (payload : option bytes) (payload_len : Z)
  | Receive (h : Z) (outputs : bool) (capacity : Z).

Inductive outcome :=
  | Subscribed (status h : Z)
  | Unsubscribed (status : Z)
  | Emitted (status : Z) (result : emit_result)
  | Received (status : Z) (r : received).

Definition auth_fn := action -> identity -> option identity -> Z -> Z.

(** A call on a broker that is there. *)
Definition run_op (auth : auth_fn) (o : op) (b : broker) : res (outcome * broker) :=
  match o with
  | Subscribe c t p out fresh ok =>
      let '(st, b', h) := ar_event_broker_subscribe auth (Some b) c t p out fresh ok in
      Ok (Subscribed st h, default b b')
  | Unsubscribe a h =>
      let! (st, b') := ar_event_broker_unsubscribe auth (Some b) a h in
      Ok (Unsubscribed st, default b b')
  | Emit m p t x ts d n =>
      let '(st, b', r) := ar_event_broker_emit auth m (Some b) p t x ts d n in
      Ok (Emitted st r, default b b')
  | Receive h out cap =>
      let! (st, b', r) := ar_event_subscription_receive b h out cap in
      Ok (Received st r, b')
  end.

(** What the callers and the allocator owe: handles are live, a new object has a
    new address, a payload is as long as it is said to be. *)
Definition allowed (o : op) (b : broker) : Prop :=
  match o with
  | Subscribe _ _ _ _ (Some h) _ => h <> 0 /\ heap b !! h = None
  | Subscribe _ _ _ _ None _ => True
  | Unsubscribe _ h | Receive h _ _ => h <> 0 -> is_Some (heap b !! h)
  | Emit _ _ _ _ _ d n => 0 <= n /\ match d with Some d => n <= len d | None => True end
  end.

(** The calls of the interface on mailboxes; [next] is the number of the next
    message. *)
Definition spec_op (auth : auth_fn) (cfg : broker_config) (o : op) (bx : gmap Z mailbox) (next : Z)
    : outcome * gmap Z mailbox * Z :=
  match o with
  | Subscribe c t p out fresh ok =>
      let no st := (Subscribed st 0, bx, next) in
      match c with
      | None => no EVENT_ERR_INVALID
      | Some i =>
          if negb (out && valid_identity c && negb (t =? 0) && ((p =? DROP_NEWEST) || (p =? DROP_OLDEST)))
          then no EVENT_ERR_INVALID
          else if negb (auth AUTHORIZE_SUBSCRIBE i (Some i) t =? 1) then no EVENT_ERR_DENIED
          else if max_subscribers cfg <=? Z.of_nat (size bx) then no EVENT_ERR_LIMIT
          else if held bx t i then no EVENT_ERR_EXISTS
          else if bool_decide (t ∉ topics_of bx) && (max_topics cfg <=? Z.of_nat (size (topics_of bx)))
          then no EVENT_ERR_LIMIT
          else
            match fresh with
            | Some h => if ok then (Subscribed EVENT_OK h, <[h := mk_box i t p []]> bx, next)
                        else no EVENT_ERR_NOMEM
            | None => no EVENT_ERR_NOMEM
            end
      end
  | Unsubscribe a h =>
      let no st := (Unsubscribed st, bx, next) in
      match bx !! h, a with
      | Some x, Some i =>
          if negb (valid_identity a) then no EVENT_ERR_INVALID
          else if negb (auth AUTHORIZE_UNSUBSCRIBE i (Some (box_owner x)) (box_topic x) =? 1)
          then no EVENT_ERR_DENIED
          else (Unsubscribed EVENT_OK, delete h bx, next)
      | _, _ => no EVENT_ERR_INVALID
      end
  | Emit m p t x ts d n =>
      let no st := (Emitted st (mk_result 0 0 0), bx, next) in
      match p with
      | None => no EVENT_ERR_INVALID
      | Some i =>
          if negb (valid_identity p && negb (t =? 0) && (n <=? max_payload_size cfg)
                   && ((n <=? 0) || bool_decide (d <> None)))
          then no EVENT_ERR_INVALID
          else if negb (auth AUTHORIZE_EMIT i None t =? 1) then no EVENT_ERR_DENIED
          else if next =? UINT64_MAX then no EVENT_ERR_LIMIT
          else
            let md := mk_metadata t next x ts i n in
            let refused := tally (refuses cfg md m) bx in
            (Emitted (if refused =? 0 then EVENT_OK else EVENT_PARTIAL)
               (mk_result (tally (takes cfg md m) bx) (tally (evicts cfg md m) bx) refused),
             map_imap (fun h x => Some (deliver cfg md (default [] d) m h x)) bx, next + 1)
      end
  | Receive h out cap =>
      let no st n := (Received st (mk_received None None n), bx, next) in
      match bx !! h with
      | None => no EVENT_ERR_INVALID 0
      | Some x =>
          if negb out then no EVENT_ERR_INVALID 0
          else
            match box_messages x with
            | [] => no EVENT_EMPTY 0
            | m :: rest =>
                let n := ev_payload_len (m_metadata m) in
                if cap <? n then no EVENT_ERR_BUFFER_TOO_SMALL n
                else (Received EVENT_OK (mk_received (Some (m_metadata m)) (m_payload m) n),
                      <[h := mk_box (box_owner x) (box_topic x) (box_policy x) rest]> bx, next)
            end
      end
  end.

(** ** Histories of calls *)

(** A call with the sequence number before it and its outcome. *)
Definition entry : Type := Z * op * outcome.

(** A sequence of calls; the authorization callback may answer differently each
    time. *)
Inductive run : broker -> list entry -> broker -> Prop :=
  | run_nil b : run b [] b
  | run_step auth o out b b1 b2 tr :
      allowed o b -> run_op auth o b = Ok (out, b1) -> run b1 tr b2 ->
      run b ((next_sequence b, o, out) :: tr) b2.

(** The message a call has accepted for a topic. *)
Definition emitted (topic_ : Z) (e : entry) : list message :=
  match e with
  | (next, Emit _ (Some i) t x ts d n, Emitted st _) =>
      if (t =? topic_) && (0 <=? st)
      then [message_of (mk_metadata t next x ts i n) (default [] d)] else []
  | _ => []
  end.

(** The message a call has handed to the holder of [h]. *)
Definition handed (h : Z) (e : entry) : list message :=
  match e with
  | (_, Receive k _ _, Received st (mk_received (Some md) d _)) =>
      if (k =? h) && (st =? EVENT_OK) then [mk_message md d] else []
  | _ => []
  end.

Definition unsubscribed (h : Z) (e : entry) : bool :=
  match e with
  | (_, Unsubscribe _ k, Unsubscribed st) => (k =? h) && (st =? EVENT_OK)
  | _ => false
  end.

(** An emit that reports no loss. *)
Definition lossless (e : entry) : bool :=
  match e with
  | (_, Emit _ _ _ _ _ _ _, Emitted _ r) => (dropped_oldest r =? 0) && (rejected_newest r =? 0)
  | _ => true
  end.

(** ** An example: two subscribers of one topic, one with room for one message *)

Definition all_allowed : auth_fn := fun _ _ _ _ => 1.

Definition somebody (n : Z) : identity := mk_identity n 1000 1000 (lit "svc" ++ zeros 61).

Definition small_config : broker_config := mk_config 2 100 4 1.

Definition small_broker : broker := mk_broker small_config [] 0 1 ∅.

(** [allowed], decided. *)
Definition allowedb (o : op) (b : broker) : bool :=
  match o with
  | Subscribe _ _ _ _ (Some h) _ => negb (h =? 0) && bool_decide (heap b !! h = None)
  | Subscribe _ _ _ _ None _ => true
  | Unsubscribe _ h | Receive h _ _ => (h =? 0) || bool_decide (is_Some (heap b !! h))
  | Emit _ _ _ _ _ d n => (0 <=? n) && match d with Some d => n <=? len d | None => true end
  end.

Fixpoint play (auth : auth_fn) (os : list op) (b : broker) : option (list entry * broker) :=
  match os with
  | [] => Some ([], b)
  | o :: os =>
      match run_op auth o b with
      | Ok (out, b1) =>
          if allowedb o b
          then match play auth os b1 with
               | Some (tr, b2) => Some ((next_sequence b, o, out) :: tr, b2)
               | None => None
               end
          else None
      | _ => None
      end
  end.

Definition opening : list op := [
  Subscribe (Some (somebody 1)) 7 DROP_OLDEST true (Some 100) true;
  Subscribe (Some (somebody 2)) 7 DROP_NEWEST true (Some 200) true].

Definition traffic : list op := [
  Emit (fun _ => true) (Some (somebody 3)) 7 1 1 (Some [10; 11]) 2;
  Receive 200 true 8;
  Emit (fun _ => true) (Some (somebody 3)) 7 2 2 (Some [20]) 1;
  Receive 100 true 8].

(** The state after some calls. *)
Definition after (os : list op) (b : broker) : broker :=
  match play all_allowed os b with Some (_, b') => b' | None => b end.

Definition history (os : list op) (b : broker) : list entry :=
  match play all_allowed os b with Some (tr, _) => tr | None => [] end.

(** The field of a principal: a string of at most 63 bytes, then zeros. *)
Definition principal_field (p : bytes) : bytes :=
  let s := cstr (sub 0 (MAX_PRINCIPAL_LEN - 1) p) in s ++ zeros (MAX_PRINCIPAL_LEN - len s).

Definition wire_bytes (h : wire_header) : bytes :=
  store_u32_be (wh_magic h) ++ store_u16_be (wh_version h) ++ store_u16_be (wh_opcode h) ++
  store_u16_be (wh_topic h) ++ store_u16_be (wh_flags h) ++ store_u64_be (wh_sequence h) ++
  store_u64_be (wh_transaction_id h) ++ store_u64_be (wh_timestamp_nanos h) ++
  store_u32_be (wh_producer_pid h) ++ store_u32_be (wh_producer_uid h) ++ store_u32_be (wh_producer_gid h) ++
  store_u32_be (wh_payload_len h) ++ principal_field (wh_producer_principal h).

(** A header as the C type holds it. *)
Record header_typed (h : wire_header) : Prop := {
  ht_magic : wh_magic h = EVENT_WIRE_MAGIC;
  ht_version : wh_version h = EVENT_WIRE_VERSION;
  ht_opcode : 0 <= wh_opcode h < 2 ^ 16;
  ht_topic : 0 <= wh_topic h < 2 ^ 16;
  ht_flags : 0 <= wh_flags h < 2 ^ 16;
  ht_sequence : 0 <= wh_sequence h < 2 ^ 64;
  ht_transaction : 0 <= wh_transaction_id h < 2 ^ 64;
  ht_timestamp : 0 <= wh_timestamp_nanos h < 2 ^ 64;
  ht_pid : 0 <= wh_producer_pid h < 2 ^ 32;
  ht_uid : 0 <= wh_producer_uid h < 2 ^ 32;
  ht_gid : 0 <= wh_producer_gid h < 2 ^ 32;
  ht_payload : 0 <= wh_payload_len h < 2 ^ 32;
}.

Definition small_header : wire_header :=
  mk_header EVENT_WIRE_MAGIC EVENT_WIRE_VERSION 771 7 0 1 2 3 4 1000 1000 2 (lit "svc" ++ zeros 61).

(** ** The ring buffer *)

Section Queue.
Context (depth : Z).
Implicit Types s : subscription.

(** The shape of the ring. *)
Lemma ring_ok_shape s : ring_ok depth s -> ring_shape (queue s) (queue_capacity s) (queue_head s) (queue_count s).
Proof. intros [Hc Hd Hq Hh Hn]. split; lia. Qed.

(** Storing at the tail of a queue that is not full. *)
Lemma pending_push s m :
  ring_ok depth s -> queue_count s < depth ->
  let tail := (queue_head s + queue_count s) mod queue_capacity s in
  let s' := with_queue s (<[Z.to_nat tail := m]> (queue s)) (queue_head s) (queue_count s + 1) in
  pending s' = pending s ++ [m] /\ ring_ok depth s'.
Proof.
  intros Hs Hlt. pose proof (ring_ok_shape s Hs) as Hr. destruct Hs as [Hc Hd Hq Hh Hn].
  destruct (ring_push zero_message _ _ _ _ m Hr) as [E [? ? ? ?]]; [lia|]. split; [exact E|]. split; cbn; done || lia.
Qed.

(** Releasing the head of a queue that is not empty. *)
Lemma pending_pop s :
  ring_ok depth s -> 0 < queue_count s ->
  let s' := with_queue s (<[Z.to_nat (queue_head s) := zero_message]> (queue s))
              ((queue_head s + 1) mod queue_capacity s) (queue_count s - 1) in
  pending s = slot s (queue_head s) :: pending s' /\ ring_ok depth s'.
Proof.
  intros Hs Hlt. pose proof (ring_ok_shape s Hs) as Hr. destruct Hs as [Hc Hd Hq Hh Hn].
  destruct (ring_pop zero_message _ _ _ _ zero_message Hr Hlt) as [E [? ? ? ?]]. split; [exact E|]. split; cbn; done || lia.
Qed.

Lemma len_pending s : ring_ok depth s -> len (pending s) = queue_count s.
Proof. intros [Hc Hd Hq Hh Hn]. unfold pending. rewrite len_ring. lia. Qed.

(** Making room in a full queue. *)
Lemma pending_room s :
  ring_ok depth s -> queue_count s = depth ->
  let s' := with_queue s (<[Z.to_nat (queue_head s) := zero_message]> (queue s))
              ((queue_head s + 1) mod depth) (queue_count s - 1) in
  ring_ok depth s' /\ pending s' = tail (pending s).
Proof.
  intros Hs Hfull. cbn zeta. destruct (pending_pop s Hs) as [Hp Hs'].
  { destruct Hs. lia. }
  replace (queue_capacity s) with depth in * by (symmetry; apply Hs).
  split; [done|]. by rewrite Hp.
Qed.

(** What [enqueue_message] reports and does is what [offer] does. *)
Lemma enqueue_offer ok s md payload r :
  ring_ok depth s ->
  let '(st, s', r') := enqueue_message ok s md payload (ev_payload_len md) r in
  let copied := (ev_payload_len md <=? 0) || ok in
  let full := len (pending s) =? depth in
  let rejected := full && (overflow_policy s =? DROP_NEWEST) || negb copied in
  ring_ok depth s' /\
  pending s' = offer depth (overflow_policy s) copied (pending s) (message_of md payload) /\
  (owner s', topic s', overflow_policy s') = (owner s, topic s, overflow_policy s) /\
  (st =? EVENT_OK) = negb rejected /\
  r' = mk_result (delivered r + Z.b2z (negb rejected)) (dropped_oldest r + Z.b2z (negb rejected && full))
         (rejected_newest r + Z.b2z rejected).
Proof.
  intros Hs. unfold enqueue_message, offer. rewrite (len_pending s Hs).
  rewrite (ri_capacity _ _ Hs).
  replace (ev_payload_len md >? 0) with (negb (ev_payload_len md <=? 0)) by (rewrite Z.gtb_ltb; lia).
  destruct ((queue_count s =? depth) && (overflow_policy s =? DROP_NEWEST)) eqn:Hrej.
  { destruct r. cbn. rewrite !Z.add_0_r. done. }
  replace (negb (ev_payload_len md <=? 0) && negb ok) with (negb ((ev_payload_len md <=? 0) || ok))
    by apply negb_orb.
  destruct ((ev_payload_len md <=? 0) || ok); cbn [negb orb]; [|destruct r; cbn; by rewrite !Z.add_0_r].
  pose (m := message_of md payload).
  replace (mk_message md _) with m.
  2: { unfold m, message_of. by rewrite Z.gtb_ltb, Z.ltb_antisym. }
  destruct (queue_count s =? depth) eqn:Hfull; bool_hyps.
  - destruct (pending_room s Hs Hfull) as [Hs1 Hp1].
    destruct (pending_push _ m Hs1) as [Hp2 Hs2]; [cbn; lia|].
    cbn [queue_capacity with_queue] in Hp2, Hs2. rewrite (ri_capacity _ _ Hs) in Hp2, Hs2.
    rewrite Hp1 in Hp2. cbn. rewrite (ri_capacity _ _ Hs), ?Z.add_0_r. done.
  - destruct (pending_push s m Hs) as [Hp2 Hs2].
    { destruct Hs. lia. }
    rewrite (ri_capacity _ _ Hs) in Hp2, Hs2. cbn. rewrite (ri_capacity _ _ Hs), ?Z.add_0_r. done.
Qed.

End Queue.

(** ** The loop of an emit *)

(** What a test says of the mailbox of a handle. *)
Definition hit (f : Z -> mailbox -> bool) (bx : gmap Z mailbox) (h : Z) : bool :=
  match bx !! h with Some x => f h x | None => false end.

Definition count (f : Z -> mailbox -> bool) (bx : gmap Z mailbox) (l : list Z) : Z :=
  foldr (fun h n => Z.b2z (hit f bx h) + n) 0 l.

Lemma count_cons f bx h l : count f bx (h :: l) = Z.b2z (hit f bx h) + count f bx l.
Proof. done. Qed.

Lemma count_insert_other f bx h x l : h ∉ l -> count f (<[h := x]> bx) l = count f bx l.
Proof.
  induction l as [|k l IH]; intros Hh; [done|]. rewrite !count_cons.
  apply not_elem_of_cons in Hh as [Hk Hl]. rewrite IH by done.
  unfold hit. by rewrite lookup_insert_ne.
Qed.

Lemma count_filter f bx l : count f bx l = len (filter (fun h => hit f bx h = true) l).
Proof.
  induction l as [|k l IH]; [done|]. rewrite count_cons, filter_cons, IH.
  case_decide as Hk; [rewrite Hk, len_cons; cbn; lia|].
  apply not_true_is_false in Hk. rewrite Hk. cbn. lia.
Qed.

(** Counting along the array is counting mailboxes. *)
Lemma count_tally f bx l :
  NoDup l -> (forall h, h ∈ l <-> is_Some (bx !! h)) -> count f bx l = tally f bx.
Proof.
  intros Hl Hin. rewrite count_filter. unfold tally, len. f_equal.
  rewrite <- (size_dom (D := gset Z)).
  rewrite <- (size_list_to_set (C := gset Z)) by by apply NoDup_filter.
  f_equal. apply set_eq. intros h.
  rewrite elem_of_list_to_set, list_elem_of_filter, elem_of_dom. unfold hit. split.
  - intros [Hf [x Hx]%Hin]. rewrite Hx in Hf. exists x. by apply map_lookup_filter_Some.
  - intros [x [Hx Hf]%map_lookup_filter_Some]. rewrite Hx. split; [done|]. apply Hin. eauto.
Qed.

Lemma count_zero f bx l : (count f bx l =? 0) = forallb (fun h => negb (hit f bx h)) l.
Proof.
  induction l as [|k l IH]; [done|]. rewrite count_cons. cbn [forallb]. rewrite <- IH.
  assert (0 <= count f bx l) by (rewrite count_filter; apply len_nonneg).
  destruct (hit f bx k); cbn; lia.
Qed.

Section Loop.
Context (cfg : broker_config) (md : metadata) (payload : bytes) (ok : Z -> bool).
#[local] Abbreviation depth := (subscriber_queue_depth cfg).
#[local] Abbreviation deliver := (deliver cfg md payload ok).

(** One subscription of the topic. *)
Lemma enqueue_deliver h s r :
  ring_ok depth s -> (topic s =? ev_topic md) = true ->
  let '(st, s', r') := enqueue_message (ok h) s md payload (ev_payload_len md) r in
  let x := mailbox_of s in
  ring_ok depth s' /\ mailbox_of s' = deliver h x /\
  (st =? EVENT_OK) = negb (refuses cfg md ok h x) /\
  r' = mk_result (delivered r + Z.b2z (takes cfg md ok h x)) (dropped_oldest r + Z.b2z (evicts cfg md ok h x))
         (rejected_newest r + Z.b2z (refuses cfg md ok h x)).
Proof.
  intros Hs Ht. pose proof (enqueue_offer depth (ok h) s md payload r Hs) as E.
  destruct enqueue_message as [[st s'] r']. destruct E as (Hs' & Hp & Ho & Hst & Hr).
  unfold evicts, takes, refuses, EventBroker.deliver. cbn [box_topic box_messages box_policy box_owner mailbox_of].
  rewrite Ht. cbn [andb]. split; [done|]. split; [|done].
  unfold mailbox_of. rewrite Hp. injection Ho as -> -> ->. done.
Qed.

(** Subscriptions of other topics. *)
Lemma deliver_other h x : (box_topic x =? ev_topic md) = false ->
  deliver h x = x /\ takes cfg md ok h x = false /\ evicts cfg md ok h x = false /\ refuses cfg md ok h x = false.
Proof. intros H. unfold EventBroker.deliver, evicts, takes, refuses. by rewrite H. Qed.

Lemma elem_of_cons_ne (k h : Z) l : k <> h -> k ∈ l <-> k ∈ h :: l.
Proof. rewrite elem_of_cons. intros ?. split; [by right|by intros [|]]. Qed.

(** What the loop has done to a heap: [P] says which handles it came to. *)
Definition delivered_to (P : Z -> Prop) `{forall h, Decision (P h)} (hp hp' : gmap Z subscription) : Prop :=
  forall h, (hp' !! h = hp !! h \/ exists s s', hp !! h = Some s /\ hp' !! h = Some s' /\ ring_ok depth s') /\
    mailbox_of <$> hp' !! h = (if decide (P h) then deliver h else id) ∘ mailbox_of <$> hp !! h.

Lemma emit_loop_spec handles hp r st :
  NoDup handles -> (forall h, h ∈ handles -> exists s, hp !! h = Some s /\ ring_ok depth s) ->
  let '(hp', r', st') := emit_loop ok md payload (ev_payload_len md) handles hp r st in
  let bx := mailbox_of <$> hp in
  delivered_to (.∈ handles) hp hp' /\
  r' = mk_result (delivered r + count (takes cfg md ok) bx handles)
         (dropped_oldest r + count (evicts cfg md ok) bx handles)
         (rejected_newest r + count (refuses cfg md ok) bx handles) /\
  st' = if count (refuses cfg md ok) bx handles =? 0 then st else EVENT_PARTIAL.
Proof.
  intros Hnd. revert hp r st. induction Hnd as [|h l Hh Hnd IH]; intros hp r st Hl; cbn [emit_loop].
  { split_and!; [|by destruct r; cbn; rewrite !Z.add_0_r|done].
    intros h. split; [by left|]. by destruct (hp !! h). }
  destruct (Hl h) as (s & Hs & Hring); [by left|]. rewrite Hs. cbn [default from_option id].
  assert (Hx : (mailbox_of <$> hp) !! h = Some (mailbox_of s)) by by rewrite lookup_fmap, Hs.
  cbn zeta. rewrite !count_cons. unfold hit. rewrite Hx.
  destruct (topic s =? ev_topic md) eqn:Ht; cbn [negb delivered dropped_oldest rejected_newest].
  - pose proof (enqueue_deliver h s r Hring Ht) as E.
    destruct enqueue_message as [[e s'] r']. destruct E as (Hs' & Hd & He & ->).
    specialize (IH (<[h := s']> hp) (mk_result (delivered r + Z.b2z (takes cfg md ok h (mailbox_of s)))
      (dropped_oldest r + Z.b2z (evicts cfg md ok h (mailbox_of s)))
      (rejected_newest r + Z.b2z (refuses cfg md ok h (mailbox_of s))))
      (if negb (e =? EVENT_OK) then EVENT_PARTIAL else st)).
    destruct emit_loop as [[hp' r'] st'].
    destruct IH as (IH1 & -> & ->).
    { intros k Hk. rewrite lookup_insert_ne by congruence. apply Hl. by right. }
    rewrite fmap_insert, !count_insert_other by done. split_and!.
    + intros k. destruct (IH1 k) as [H1 H2]. destruct (decide (k = h)) as [->|Hk].
      * rewrite lookup_insert_eq in H1, H2. rewrite decide_False in H2 by done.
        rewrite decide_True by by left. rewrite H2, Hs. cbn. split; [right; exists s|by rewrite <- Hd].
        destruct H1 as [H1|(s0 & s1 & _ & H1 & H3)]; eauto.
      * rewrite lookup_insert_ne in H1, H2 by done. split; [done|]. rewrite H2.
        by rewrite (decide_ext _ _ _ _ (elem_of_cons_ne k h l Hk)).
    + cbn. f_equal; lia.
    + rewrite He, negb_involutive. destruct (refuses cfg md ok h (mailbox_of s)); cbn [Z.b2z].
      * assert (0 <= count (refuses cfg md ok) (mailbox_of <$> hp) l) by (rewrite count_filter; apply len_nonneg).
        by repeat (destruct (_ =? 0) eqn:?; bool_hyps; try lia).
      * by rewrite Z.add_0_l.
  - destruct (deliver_other h (mailbox_of s) Ht) as (Hd & -> & -> & ->).
    specialize (IH hp r st). destruct emit_loop as [[hp' r'] st'].
    destruct IH as (IH1 & -> & ->); [intros k Hk; apply Hl; by right|].
    cbn [Z.b2z]. rewrite !Z.add_0_l. split; [|done]. intros k. destruct (IH1 k) as [H1 H2]. split; [done|].
    rewrite H2. destruct (decide (k = h)) as [->|Hk].
    + rewrite decide_False by done. rewrite decide_True by by left. rewrite Hs. cbn. by rewrite Hd.
    + by rewrite (decide_ext _ _ _ _ (elem_of_cons_ne k h l Hk)).
Qed.
End Loop.

(** ** The array and the map of mailboxes *)

Lemma elem_of_topics bx t : t ∈ topics_of bx <-> exists h x, bx !! h = Some x /\ box_topic x = t.
Proof. unfold topics_of. by rewrite elem_of_map_to_set. Qed.

Lemma topics_insert bx h x :
  bx !! h = None -> topics_of (<[h := x]> bx) = {[box_topic x]} ∪ topics_of bx.
Proof. intros. unfold topics_of. by rewrite map_to_set_insert_L. Qed.

(** A map whose mailboxes have the same topics. *)
Lemma topics_same bx bx' :
  (forall h, box_topic <$> bx' !! h = box_topic <$> bx !! h) -> topics_of bx' = topics_of bx.
Proof.
  intros H. apply set_eq. intros t. rewrite !elem_of_topics. split; intros (h & x & Hx & Ht); specialize (H h);
    rewrite Hx in H; [destruct (bx !! h) eqn:E|destruct (bx' !! h) eqn:E]; simplify_eq/=; eauto.
Qed.

(** The tag of a deleted mailbox stays exactly when somebody else has it. *)
Lemma topics_delete bx h x :
  bx !! h = Some x ->
  size (topics_of bx) =
  ((if bool_decide (box_topic x ∈ topics_of (delete h bx)) then 0 else 1) + size (topics_of (delete h bx)))%nat.
Proof.
  intros Hx. rewrite <- (insert_delete_id bx h x Hx) at 1.
  rewrite topics_insert by apply lookup_delete_eq. case_bool_decide as Hin.
  - by rewrite subseteq_union_1_L by by apply singleton_subseteq_l.
  - rewrite size_union by by apply disjoint_singleton_l. by rewrite size_singleton.
Qed.

Lemma index_of_Some h l i : index_of h l = Some i -> exists a b, l = a ++ h :: b /\ i = length a.
Proof.
  revert i. induction l as [|x l IH]; intros i; [done|]. cbn [index_of].
  destruct (x =? h) eqn:E; [intros [= <-]; bool_hyps; subst; by exists [], l|].
  intros (j & Hj & ->)%fmap_Some. destruct (IH j Hj) as (a & b & -> & ->). by exists (x :: a), b.
Qed.

Lemma index_of_None h l : index_of h l = None -> h ∉ l.
Proof.
  induction l as [|x l IH]; cbn [index_of]; [intros _; apply not_elem_of_nil|].
  destruct (x =? h) eqn:E; [done|]. intros Hj%fmap_None. bool_hyps. apply not_elem_of_cons; auto.
Qed.

(** Moving the last handle into the hole removes one handle. *)
Lemma remove_swap_perm h l i : index_of h l = Some i -> h :: remove_swap l i ≡ₚ l.
Proof.
  intros (a & b & -> & ->)%index_of_Some. unfold remove_swap. rewrite length_app. cbn [length].
  destruct b as [|z b _] using rev_ind.
  - rewrite insert_app_r_alt, Nat.sub_diag by done. cbn [length].
    rewrite take_app_length' by lia. by rewrite Permutation_cons_append.
  - rewrite length_app. cbn [length].
    replace (length a + S (length b + 1) - 1)%nat with (length (a ++ h :: b))
      by (rewrite length_app; cbn [length]; lia).
    rewrite app_comm_cons, app_assoc, nth_middle.
    rewrite <- app_assoc, insert_app_r_alt, Nat.sub_diag by done. cbn [insert list_insert app].
    rewrite app_comm_cons, app_assoc, take_app_length' by (rewrite !length_app; cbn [length]; lia).
    solve_Permutation.
Qed.

Section Indexed.
Context (b : broker) (Hb : indexed b).

Lemma size_handles : len (subscriptions b) = Z.of_nat (size (boxes_of b)).
Proof.
  unfold len, boxes_of. rewrite map_size_fmap, <- (size_dom (D := gset Z)).
  rewrite <- (size_list_to_set (C := gset Z)) by apply Hb. do 2 f_equal. apply set_eq. intros h.
  rewrite elem_of_list_to_set, elem_of_dom. apply Hb.
Qed.

Lemma live_box h x : boxes_of b !! h = Some x <-> exists s, heap b !! h = Some s /\ x = mailbox_of s.
Proof. unfold boxes_of. rewrite lookup_fmap, fmap_Some. naive_solver. Qed.

Lemma live_handle h s : heap b !! h = Some s -> h ∈ subscriptions b.
Proof. intros H. apply Hb. by exists s. Qed.

Lemma handle_live h : h ∈ subscriptions b -> exists s, heap b !! h = Some s /\ sub_at b h = s.
Proof. intros [s Hs]%(bo_live _ Hb). exists s. unfold sub_at. by rewrite Hs. Qed.

(** Searching the array is searching the mailboxes. *)
Lemma search_array (f : subscription -> bool) (g : Z -> bool) :
  existsb (fun h => g h && f (sub_at b h)) (subscriptions b) = true <->
  exists h s, heap b !! h = Some s /\ g h = true /\ f s = true.
Proof.
  rewrite existsb_exists. split.
  - intros (h & Hh%list_elem_of_In & [Hg Hf]%andb_true_iff).
    destruct (handle_live h Hh) as (s & Hs & E). rewrite E in Hf. eauto.
  - intros (h & s & Hs & Hg & Hf). exists h. split; [by apply list_elem_of_In, (live_handle h s)|].
    unfold sub_at. rewrite Hs. cbn. by rewrite Hg, Hf.
Qed.

Lemma present_except t e :
  topic_present_except b t e = bool_decide (t ∈ topics_of (delete e (boxes_of b))).
Proof.
  apply eq_bool_prop_intro. rewrite bool_decide_spec, elem_of_topics, Is_true_true.
  unfold topic_present_except. rewrite (search_array (fun s => topic s =? t) (fun h => negb (h =? e))). split.
  - intros (h & s & Hs & Hg & Hf). bool_hyps. exists h, (mailbox_of s).
    rewrite lookup_delete_ne by done. split; [|done]. apply live_box. eauto.
  - intros (h & x & [Hne Hx]%lookup_delete_Some & Ht). apply live_box in Hx as (s & Hs & ->).
    exists h, s. split_and!; [done| |by apply Z.eqb_eq]. apply negb_true_iff, Z.eqb_neq. done.
Qed.

Lemma null_delete : delete 0 (boxes_of b) = boxes_of b.
Proof. apply delete_id. unfold boxes_of. by rewrite lookup_fmap, (bo_null _ Hb). Qed.

Lemma held_array t c :
  existsb (fun h => (topic (sub_at b h) =? t) && identity_equal (owner (sub_at b h)) c) (subscriptions b)
  = held (boxes_of b) t c.
Proof.
  apply eq_bool_prop_intro. unfold held. rewrite bool_decide_spec, Is_true_true.
  rewrite (search_array (fun s => (topic s =? t) && identity_equal (owner s) c) (fun _ => true)). split.
  - intros (h & s & Hs & _ & Hf). bool_hyps. exists h, (mailbox_of s). split; [apply live_box; eauto|done].
  - intros (h & x & Hx & Ht & Ho). apply live_box in Hx as (s & Hs & ->). exists h, s.
    split_and!; [done..|]. apply andb_true_iff. split; [by apply Z.eqb_eq|done].
Qed.
End Indexed.

(** ** Each call is its specification *)

(** Refute or take the branch of a guard on both sides. *)
Ltac both c := destruct c eqn:?; [by eexists _, _; split_and!|].

Section Refine.
Context (auth : auth_fn).

(** A call neither faults nor leaves the ring buffers broken, and does to the
    mailboxes what the specification says. *)
Definition refines (o : op) (b : broker) : Prop :=
  exists out b', run_op auth o b = Ok (out, b') /\ config b' = config b /\ linked b' /\
    spec_op auth (config b) o (boxes_of b) (next_sequence b) = (out, boxes_of b', next_sequence b').

(** A call that changes nothing. *)
Lemma refines_no o b out :
  linked b -> run_op auth o b = Ok (out, b) ->
  spec_op auth (config b) o (boxes_of b) (next_sequence b) = (out, boxes_of b, next_sequence b) -> refines o b.
Proof. intros. by exists out, b. Qed.

Lemma authorize_spec act a own t :
  (authorize_action auth act a own t =? EVENT_OK) = (auth act a own t =? 1).
Proof. unfold authorize_action. by destruct (auth act a own t =? 1). Qed.

Lemma policy_test p :
  negb (p =? DROP_NEWEST) && negb (p =? DROP_OLDEST) = negb ((p =? DROP_NEWEST) || (p =? DROP_OLDEST)).
Proof. by rewrite negb_orb. Qed.

(** A new subscription with an empty queue. *)
Lemma pending_empty c t p q d : pending (mk_sub c t p q d 0 0) = [].
Proof. done. Qed.

Lemma subscribe_links b h s :
  linked b -> heap b !! h = None -> h <> 0 -> ring_ok (subscriber_queue_depth (config b)) s ->
  let b1 := mk_broker (config b) (subscriptions b ++ [h]) (topic_count b) (next_sequence b) (<[h := s]> (heap b)) in
  let new := negb (topic_present_except b1 (topic s) h) in
  linked (mk_broker (config b) (subscriptions b ++ [h]) (if new then topic_count b + 1 else topic_count b)
            (next_sequence b) (<[h := s]> (heap b))).
Proof.
  intros Hb Hh H0 Hs b1 new. pose proof (bo_indexed _ Hb) as Hi.
  assert (Hi1 : indexed b1).
  { split; cbn.
    - apply NoDup_app. split_and!; [apply Hi| |apply NoDup_singleton].
      intros k Hk%(bo_live _ Hi). rewrite list_elem_of_singleton. intros ->. rewrite Hh in Hk. by destruct Hk.
    - intros k. rewrite elem_of_app, list_elem_of_singleton, (bo_live _ Hi).
      destruct (decide (k = h)) as [->|Hk]; [rewrite lookup_insert_eq, Hh|rewrite lookup_insert_ne by done].
      + split; [by eexists|by right].
      + split; [by intros [|]|by left].
    - rewrite lookup_insert_ne by done. apply Hi. }
  assert (Hbx : boxes_of b !! h = None) by (unfold boxes_of; by rewrite lookup_fmap, Hh).
  split; [destruct Hi1; by split| |by apply map_Forall_insert_2; [|apply Hb]].
  assert (Hb1 : boxes_of b1 = <[h := mailbox_of s]> (boxes_of b)) by apply fmap_insert.
  subst new. rewrite (present_except b1 Hi1), (bo_topic_count _ Hb).
  change (boxes_of (mk_broker _ _ _ _ _)) with (boxes_of b1). rewrite Hb1.
  rewrite delete_insert_id, topics_insert by done. cbn. case_bool_decide as Hin; cbn [negb].
  - by rewrite subseteq_union_1_L by by apply singleton_subseteq_l.
  - rewrite size_union by by apply disjoint_singleton_l. rewrite size_singleton. lia.
Qed.

Lemma subscribe_refines b c t p out fresh ok :
  linked b -> config_ok (config b) -> allowed (Subscribe c t p out fresh ok) b ->
  refines (Subscribe c t p out fresh ok) b.
Proof.
  intros Hb Hc Ha. pose proof (bo_indexed _ Hb) as Hi.
  unfold refines. cbn [spec_op run_op]. unfold ar_event_broker_subscribe.
  destruct c as [i|]; [|destruct out; by eexists _, _; split_and!].
  rewrite authorize_spec, policy_test, (held_array b Hi), (present_except b Hi), (null_delete b Hi),
    (size_handles b Hi), (bo_topic_count _ Hb), !Z.geb_leb.
  rewrite <- bool_decide_not.
  replace (negb (out && _ && _ && _)) with
    (negb out || (negb (valid_identity (Some i)) || (t =? 0) || negb ((p =? DROP_NEWEST) || (p =? DROP_OLDEST))))
    by by rewrite !negb_andb, negb_involutive, !orb_assoc.
  both (negb out). cbn [orb].
  both (negb (valid_identity (Some i)) || (t =? 0) || negb ((p =? DROP_NEWEST) || (p =? DROP_OLDEST))).
  both (negb (auth AUTHORIZE_SUBSCRIBE i (Some i) t =? 1)).
  both (max_subscribers (config b) <=? Z.of_nat (size (boxes_of b))).
  both (held (boxes_of b) t i).
  both (bool_decide (t ∉ topics_of (boxes_of b)) && (max_topics (config b) <=? Z.of_nat (size (topics_of (boxes_of b))))).
  destruct fresh as [h|]; [|by eexists _, _; split_and!].
  destruct ok; [|by eexists _, _; split_and!]. cbn [negb]. destruct Ha as [H0 Hh].
  pose (s := mk_sub i t p (replicate (Z.to_nat (subscriber_queue_depth (config b))) zero_message)
    (subscriber_queue_depth (config b)) 0 0).
  assert (Hs : ring_ok (subscriber_queue_depth (config b)) s).
  { destruct Hc as [? ? ? Hd]. split; cbn; rewrite ?len_replicate; lia. }
  pose proof (subscribe_links b h s Hb Hh H0 Hs) as Hl. cbn zeta in Hl. cbn [topic s] in Hl.
  rewrite (bo_topic_count _ Hb) in Hl.
  eexists _, _. split; [reflexivity|].
  destruct (negb (topic_present_except _ t h)); cbn [default from_option id config]; (split_and!; [done|exact Hl|]);
    cbn; unfold boxes_of; cbn; by rewrite fmap_insert.
Qed.
(** The array and the counter after a removal. *)
Lemma unsubscribe_links b h s index :
  linked b -> heap b !! h = Some s -> index_of h (subscriptions b) = Some index ->
  linked (mk_broker (config b) (remove_swap (subscriptions b) index)
            (if negb (topic_present_except b (topic s) h) then topic_count b - 1 else topic_count b)
            (next_sequence b) (delete h (heap b))).
Proof.
  intros Hb Hs Hp%remove_swap_perm. pose proof (bo_indexed _ Hb) as Hi.
  assert (Hnd : NoDup (h :: remove_swap (subscriptions b) index)) by (rewrite Hp; apply Hi).
  apply NoDup_cons in Hnd as [Hh Hnd].
  assert (Hx : boxes_of b !! h = Some (mailbox_of s)) by (unfold boxes_of; by rewrite lookup_fmap, Hs).
  split.
  - split; cbn; [done| |by rewrite lookup_delete_None; right; apply Hi].
    intros k. pose proof (bo_live _ Hi k) as Hk. rewrite <- Hp, elem_of_cons in Hk.
    destruct (decide (k = h)) as [->|Hne].
    + rewrite lookup_delete_eq. split; [done|by intros [? ?]].
    + rewrite lookup_delete_ne by done. rewrite <- Hk. split; [by right|by intros [|]].
  - rewrite (present_except b Hi), (bo_topic_count _ Hb), (topics_delete _ _ _ Hx).
    unfold boxes_of at 3 4. cbn. rewrite fmap_delete. fold (boxes_of b).
    case_bool_decide; cbn [negb]; lia.
  - by apply map_Forall_delete, Hb.
Qed.

Lemma unsubscribe_refines b a h :
  linked b -> allowed (Unsubscribe a h) b -> refines (Unsubscribe a h) b.
Proof.
  intros Hb Ha. pose proof (bo_indexed _ Hb) as Hi. unfold refines. cbn [spec_op run_op].
  unfold ar_event_broker_unsubscribe. destruct (h =? 0) eqn:E; bool_hyps.
  { subst. rewrite <- (null_delete b Hi), lookup_delete_eq, (null_delete b Hi). by eexists _, _. }
  destruct (Ha E) as [s Hs]. rewrite Hs.
  assert (Hx : boxes_of b !! h = Some (mailbox_of s)) by (unfold boxes_of; by rewrite lookup_fmap, Hs).
  rewrite Hx. destruct a as [i|]; [|by eexists _, _].
  rewrite authorize_spec. cbn [box_owner box_topic mailbox_of].
  both (negb (valid_identity (Some i))).
  both (negb (auth AUTHORIZE_UNSUBSCRIBE i (Some (owner s)) (topic s) =? 1)).
  destruct (index_of h (subscriptions b)) as [index|] eqn:Ei.
  - eexists _, _. split; [reflexivity|]. split; [done|]. split; [by apply (unsubscribe_links b h s)|].
    unfold boxes_of. cbn. by rewrite fmap_delete.
  - apply index_of_None in Ei. by destruct Ei; apply (live_handle b Hi h s).
Qed.
End Refine.

Section Refine2.
Context (auth : auth_fn).

(** The heap after the loop over the array is the map of the deliveries. *)
Lemma delivered_boxes b md payload ok hp' :
  indexed b -> delivered_to (config b) md payload ok (.∈ subscriptions b) (heap b) hp' ->
  mailbox_of <$> hp' = map_imap (fun h x => Some (deliver (config b) md payload ok h x)) (boxes_of b).
Proof.
  intros Hi Hd. apply map_eq. intros h. destruct (Hd h) as [_ H].
  rewrite lookup_fmap, H, map_lookup_imap. unfold boxes_of. rewrite lookup_fmap.
  destruct (heap b !! h) as [s|] eqn:Hs; [|done].
  rewrite decide_True by apply (live_handle b Hi h s Hs). done.
Qed.

Lemma deliver_topic cfg md payload ok h x : box_topic (deliver cfg md payload ok h x) = box_topic x.
Proof. unfold deliver. by destruct (box_topic x =? ev_topic md). Qed.

Lemma deliver_owner cfg md payload ok h x : box_owner (deliver cfg md payload ok h x) = box_owner x.
Proof. unfold deliver. by destruct (box_topic x =? ev_topic md). Qed.

Lemma topics_deliver cfg md payload ok bx :
  topics_of (map_imap (fun h x => Some (deliver cfg md payload ok h x)) bx) = topics_of bx.
Proof.
  apply topics_same. intros h. rewrite map_lookup_imap. destruct (bx !! h); [|done]. cbn.
  by rewrite deliver_topic.
Qed.

Lemma emit_links b md payload ok hp' n :
  linked b -> delivered_to (config b) md payload ok (.∈ subscriptions b) (heap b) hp' ->
  linked (mk_broker (config b) (subscriptions b) (topic_count b) n hp').
Proof.
  intros Hb Hd. pose proof (bo_indexed _ Hb) as Hi.
  assert (Hl : forall h, is_Some (hp' !! h) <-> is_Some (heap b !! h)).
  { intros h. destruct (Hd h) as [[->|(s & s' & -> & -> & _)] _]; [done|by split; intros; eexists]. }
  split.
  - split; cbn; [apply Hi|intros h; rewrite Hl; apply Hi|].
    apply eq_None_not_Some. rewrite Hl, (bo_null _ Hi). by intros [? ?].
  - unfold boxes_of. cbn. rewrite (delivered_boxes b md payload ok hp' Hi Hd), topics_deliver. apply Hb.
  - intros h s Hs. cbn in *. destruct (Hd h) as [[E|(s0 & s' & E & E' & Hr)] _].
    + rewrite E in Hs. by apply (bo_rings _ Hb h s).
    + by simplify_eq.
Qed.

Lemma emit_refines b m p t x ts d n :
  linked b -> allowed (Emit m p t x ts d n) b -> refines auth (Emit m p t x ts d n) b.
Proof.
  intros Hb [Hn _]. pose proof (bo_indexed _ Hb) as Hi.
  unfold refines. cbn [spec_op run_op]. unfold ar_event_broker_emit.
  destruct p as [i|]; [|by eexists _, _].
  rewrite authorize_spec.
  replace (negb (valid_identity (Some i) && _ && _ && _)) with
    (negb (valid_identity (Some i)) || (t =? 0) || (n >? max_payload_size (config b))
     || (n >? 0) && bool_decide (d = None)).
  2: { rewrite !negb_andb, negb_involutive, negb_orb, bool_decide_not, negb_involutive.
       by rewrite !Z.gtb_ltb, !Z.ltb_antisym. }
  both (negb (valid_identity (Some i)) || (t =? 0) || (n >? max_payload_size (config b))
     || (n >? 0) && bool_decide (d = None)).
  both (negb (auth AUTHORIZE_EMIT i None t =? 1)).
  both (next_sequence b =? UINT64_MAX).
  set (md := mk_metadata t (next_sequence b) x ts i n).
  pose proof (emit_loop_spec (config b) md (default [] d) m (subscriptions b) (heap b) (mk_result 0 0 0) EVENT_OK
    (bo_handles _ Hi)) as E.
  change (ev_payload_len md) with n in E.
  destruct emit_loop as [[hp' r'] st']. destruct E as (Hd & -> & ->).
  { intros h Hh. destruct (handle_live b Hi h Hh) as (s & Hs & _). exists s. split; [done|].
    by apply (bo_rings _ Hb h s). }
  eexists _, _. split; [reflexivity|]. split; [done|]. cbn [default from_option id].
  split; [by apply (emit_links b md (default [] d) m)|].
  cbn [delivered dropped_oldest rejected_newest next_sequence]. rewrite !Z.add_0_l.
  change (mailbox_of <$> heap b) with (boxes_of b).
  assert (Hin : forall h, h ∈ subscriptions b <-> is_Some (boxes_of b !! h)).
  { intros h. unfold boxes_of. rewrite lookup_fmap, fmap_is_Some. apply Hi. }
  rewrite !(count_tally _ (boxes_of b) _ (bo_handles _ Hi) Hin).
  do 2 f_equal. symmetry. by apply delivered_boxes.
Qed.

Lemma receive_refines b h out cap :
  broker_ok b -> allowed (Receive h out cap) b -> refines auth (Receive h out cap) b.
Proof.
  intros [Hb Hbx] Ha. pose proof (bo_indexed _ Hb) as Hi.
  unfold refines. cbn [spec_op run_op]. unfold ar_event_subscription_receive.
  destruct (h =? 0) eqn:E; bool_hyps.
  { subst. rewrite <- (null_delete b Hi), lookup_delete_eq, (null_delete b Hi). by eexists _, _. }
  destruct (Ha E) as [s Hs]. rewrite Hs.
  assert (Hx : boxes_of b !! h = Some (mailbox_of s)) by (unfold boxes_of; by rewrite lookup_fmap, Hs).
  rewrite Hx. both (negb out). cbn [box_messages mailbox_of].
  pose proof (bo_rings _ Hb h s Hs) as Hr. pose proof (len_pending _ s Hr) as Hlen.
  destruct (queue_count s =? 0) eqn:Ec; bool_hyps.
  { destruct (pending s) as [|m l]; [|rewrite len_cons in Hlen; pose proof (len_nonneg l); lia]. by eexists _, _. }
  destruct (pending_pop _ s Hr) as [Hp Hr']; [destruct Hr; lia|].
  pose proof (bk_boxes _ _ _ Hbx h _ Hx) as Hm%bx_messages. cbn in Hm. rewrite Hp in Hm. rewrite Hp.
  apply Forall_cons_1 in Hm as [Hm _].
  both (cap <? ev_payload_len (m_metadata (slot s (queue_head s)))).
  eexists _, _. split; [reflexivity|]. split; [done|]. cbn [next_sequence config].
  split.
  - split; cbn; [|rewrite (bo_topic_count _ Hb)|by apply map_Forall_insert_2; [|apply Hb]].
    + split; cbn; [apply Hi| |rewrite lookup_insert_ne by done; apply Hi].
      intros k. rewrite (bo_live _ Hi). destruct (decide (k = h)) as [->|Hk].
      * rewrite lookup_insert_eq, Hs. by split; intros; eexists.
      * by rewrite lookup_insert_ne.
    + do 2 f_equal. symmetry. apply topics_same. intros k. unfold boxes_of. cbn. rewrite !lookup_fmap.
      destruct (decide (k = h)) as [->|Hk]; [by rewrite lookup_insert_eq, Hs|by rewrite lookup_insert_ne].
  - unfold boxes_of. cbn. rewrite fmap_insert. do 4 f_equal. destruct Hm as [_ _ Hl Hd].
    destruct (ev_payload_len _ >? 0) eqn:Hz; [done|]. rewrite Z.gtb_ltb in Hz. bool_hyps.
    destruct (m_payload _); [lia|done].
Qed.
End Refine2.

(** ** The specification keeps its invariant *)

Lemma message_ok_mono c n n' t m : n <= n' -> message_ok c n t m -> message_ok c n' t m.
Proof. intros Hn [? ? ? ?]. split; [done|lia|done|done]. Qed.

Lemma box_ok_mono c n n' x : n <= n' -> box_ok c n x -> box_ok c n' x.
Proof.
  intros Hn [? ? ? ? Hm ?]. split; try done. eapply Forall_impl; [exact Hm|].
  intros m. by apply message_ok_mono.
Qed.

Lemma sorted_snoc (q : list message) m :
  StronglySorted seq_lt q -> Forall (fun x => seq_lt x m) q -> StronglySorted seq_lt (q ++ [m]).
Proof.
  induction 1 as [|x q Hq IH Hx]; intros Hm; cbn; [repeat constructor|].
  apply Forall_cons in Hm as [Hxm Hm]. constructor; [by apply IH|].
  apply Forall_app. auto.
Qed.

Section Offer.
Context (depth policy : Z) (copied : bool) (q : list message) (m : message).
#[local] Abbreviation q' := (offer depth policy copied q m).

(** What is kept of the queue: all of it or all but the oldest. *)
Lemma offer_cases : q' = q \/ q' = q ++ [m] /\ len q <> depth \/ q' = tail q ++ [m] /\ len q = depth.
Proof.
  unfold offer. destruct (len q =? depth) eqn:E, (policy =? DROP_NEWEST), copied; cbn; bool_hyps; auto.
Qed.

Lemma offer_len : 1 <= depth -> len q <= depth -> len q' <= depth.
Proof.
  intros Hd Hq. destruct offer_cases as [->|[[-> ?]|[-> ?]]]; [done| |]; rewrite len_app, len_cons, len_nil; [lia|].
  destruct q; cbn [tail]; rewrite ?len_cons, ?len_nil in *; lia.
Qed.

Lemma offer_Forall (P : message -> Prop) : P m -> Forall P q -> Forall P q'.
Proof.
  intros Hm Hq. destruct offer_cases as [->|[[-> ?]|[-> ?]]]; [done|apply Forall_app; auto|].
  apply Forall_app. split; [|auto]. destruct q; [done|by apply Forall_cons in Hq as [_ ?]].
Qed.

Lemma offer_sorted :
  StronglySorted seq_lt q -> Forall (fun x => seq_lt x m) q -> StronglySorted seq_lt q'.
Proof.
  intros Hs Hm. destruct offer_cases as [->|[[-> ?]|[-> ?]]]; [done|by apply sorted_snoc|].
  destruct q; [by repeat constructor|]. apply Forall_cons in Hm as [_ Hm].
  apply StronglySorted_inv in Hs as [Hs _]. by apply sorted_snoc.
Qed.

Lemma offer_sublist : q' `sublist_of` q ++ [m].
Proof.
  destruct offer_cases as [->|[[-> ?]|[-> ?]]]; [by apply sublist_inserts_r|done|].
  apply sublist_app; [|done]. destruct q; [done|]. by constructor.
Qed.
End Offer.

(** A message that [emit] has made. *)
Lemma message_of_ok c next t x ts i n d :
  1 <= next -> 0 <= n <= max_payload_size c -> n <= len d ->
  message_ok c (next + 1) t (message_of (mk_metadata t next x ts i n) d).
Proof.
  intros. split; cbn; [done|lia|done|]. rewrite Z.gtb_ltb. destruct (0 <? n) eqn:E; bool_hyps; [|lia].
  by rewrite len_sub by lia.
Qed.

Lemma deliver_box_ok c next md d ok h x :
  config_ok c -> ev_sequence md = next -> message_ok c (next + 1) (ev_topic md) (message_of md d) ->
  box_ok c next x -> box_ok c (next + 1) (deliver c md d ok h x).
Proof.
  intros Hc Hs Hm Hx. unfold deliver. destruct (box_topic x =? ev_topic md) eqn:Ht; bool_hyps.
  2: { by apply (box_ok_mono c next); [lia|]. }
  pose proof (box_ok_mono c next (next + 1) x ltac:(lia) Hx) as [Ho Htp Hp Hl Hms Hst].
  split; cbn; [done..| | |].
  - apply offer_len; [apply Hc|done].
  - apply offer_Forall; [by rewrite Ht|done].
  - apply offer_sorted; [done|]. eapply Forall_impl; [apply Hx|].
    intros m' [_ Hm' _ _]. unfold seq_lt. cbn. lia.
Qed.

Lemma identity_equal_iff a b :
  identity_equal a b = true <->
  (pid a, uid a, gid a, cstr (sub 0 MAX_PRINCIPAL_LEN (principal a))) =
  (pid b, uid b, gid b, cstr (sub 0 MAX_PRINCIPAL_LEN (principal b))).
Proof.
  unfold identity_equal. rewrite !andb_true_iff, !Z.eqb_eq, bytes_eqb_eq. split.
  - by intros [[[-> ->] ->] ->].
  - by intros [= -> -> -> ->].
Qed.

Lemma identity_equal_sym a b : identity_equal a b = true -> identity_equal b a = true.
Proof. rewrite !identity_equal_iff. by intros ->. Qed.

Lemma boxes_ok_next c n n' bx :
  n <= n' -> n' <= UINT64_MAX -> boxes_ok c n bx -> boxes_ok c n' bx.
Proof.
  intros ? ? [? ? ? ? ? Hb]. split; try done; [lia|]. intros h x Hx.
  apply (box_ok_mono c n); [done|by apply (Hb h)].
Qed.

(** Removing a mailbox. *)
Lemma boxes_ok_delete c n bx h x : bx !! h = Some x -> boxes_ok c n bx -> boxes_ok c n (delete h bx).
Proof.
  intros Hx [Hc Hn Hs Ht Hd Hb]. split; [done|done| | | |by apply map_Forall_delete].
  - pose proof (map_size_delete_Some (M := gmap Z) h bx (mk_is_Some _ _ Hx)). lia.
  - pose proof (topics_delete bx h x Hx). destruct (bool_decide _) in *; lia.
  - intros k k' y y' [_ Hy]%lookup_delete_Some [_ Hy']%lookup_delete_Some. by apply (Hd k k' y y').
Qed.

(** Adding one. *)
Lemma boxes_ok_insert c n bx h i t p :
  boxes_ok c n bx -> bx !! h = None -> Z.of_nat (size bx) < max_subscribers c ->
  held bx t i = false -> t ∈ topics_of bx \/ Z.of_nat (size (topics_of bx)) < max_topics c ->
  valid_identity (Some i) = true -> t <> 0 -> p = DROP_NEWEST \/ p = DROP_OLDEST ->
  boxes_ok c n (<[h := mk_box i t p []]> bx).
Proof.
  intros [Hc Hn Hs Ht Hd Hb] Hh Hsz Hheld Htop Hi H0 Hp. unfold held in Hheld. apply bool_decide_eq_false in Hheld.
  assert (Hno : forall k y, bx !! k = Some y -> box_topic y = t -> identity_equal (box_owner y) i = true -> False).
  { intros k y Hy Hyt Hyo. apply Hheld. by exists k, y. }
  split; [done|done| | | |].
  - rewrite map_size_insert_None by done. lia.
  - rewrite topics_insert by done. cbn [box_topic]. destruct (decide (t ∈ topics_of bx)) as [Hin|Hin].
    + by rewrite subseteq_union_1_L by by apply singleton_subseteq_l.
    + rewrite size_union by by apply disjoint_singleton_l. rewrite size_singleton. destruct Htop; [done|lia].
  - intros k k' y y' Hy Hy' Hty Hown.
    apply lookup_insert_Some in Hy as [[<- <-]|[Hk Hy]]; apply lookup_insert_Some in Hy' as [[<- <-]|[Hk' Hy']];
      cbn in *; [done| | |by apply (Hd k k' y y')].
    + destruct (Hno k' y' Hy' (eq_sym Hty)). by apply identity_equal_sym.
    + by destruct (Hno k y Hy Hty).
  - apply map_Forall_insert_2; [|done]. split; cbn; try done; [|constructor].
    destruct Hc. rewrite len_nil. lia.
Qed.

(** Taking a message. *)
Lemma boxes_ok_receive c n bx h x m l :
  boxes_ok c n bx -> bx !! h = Some x -> box_messages x = m :: l ->
  boxes_ok c n (<[h := mk_box (box_owner x) (box_topic x) (box_policy x) l]> bx).
Proof.
  intros [Hc Hn Hs Ht Hd Hb] Hx Hm.
  assert (Hk : forall k y, <[h := mk_box (box_owner x) (box_topic x) (box_policy x) l]> bx !! k = Some y ->
    exists y', bx !! k = Some y' /\ box_topic y = box_topic y' /\ box_owner y = box_owner y').
  { intros k y [[<- <-]|[_ Hy]]%lookup_insert_Some; eauto. }
  split; [done|done| | | |].
  - by rewrite map_size_insert_Some by by eexists.
  - replace (topics_of _) with (topics_of bx); [done|]. symmetry. apply topics_same. intros k.
    destruct (decide (k = h)) as [->|]; [by rewrite lookup_insert_eq, Hx|by rewrite lookup_insert_ne].
  - intros k k' y y' (z & Hz & -> & ->)%Hk (z' & Hz' & -> & ->)%Hk. by apply (Hd k k' z z').
  - apply map_Forall_insert_2; [|done]. destruct (Hb h x Hx) as [? ? ? Hl Hms Hst].
    rewrite Hm in Hl, Hms, Hst. rewrite len_cons in Hl. apply Forall_cons in Hms as [_ Hms].
    apply StronglySorted_inv in Hst as [Hst _]. split; cbn; try done. lia.
Qed.

Lemma boxes_ok_deliver c n bx md d ok :
  boxes_ok c n bx -> n + 1 <= UINT64_MAX -> ev_sequence md = n ->
  message_ok c (n + 1) (ev_topic md) (message_of md d) ->
  boxes_ok c (n + 1) (map_imap (fun h x => Some (deliver c md d ok h x)) bx).
Proof.
  intros [Hc Hn Hs Ht Hd Hb] Hmax Hseq Hm.
  assert (Hk : forall h x, map_imap (fun h x => Some (deliver c md d ok h x)) bx !! h = Some x ->
    exists y, bx !! h = Some y /\ x = deliver c md d ok h y).
  { intros h x. rewrite map_lookup_imap. destruct (bx !! h); cbn; [|done]. intros [= <-]. eauto. }
  split; [done|lia| |by rewrite topics_deliver| |].
  - replace (size (map_imap _ bx)) with (size bx); [done|].
    rewrite <- !(size_dom (D := gset Z)). f_equal. apply set_eq. intros h.
    rewrite !elem_of_dom, map_lookup_imap. destruct (bx !! h); cbn; [by split; intros; eexists|done].
  - intros h h' x x' (y & Hy & ->)%Hk (y' & Hy' & ->)%Hk. rewrite !deliver_topic, !deliver_owner.
    by apply (Hd h h' y y').
  - intros h x (y & Hy & ->)%Hk. apply deliver_box_ok; [done..|]. by apply (Hb h).
Qed.

Lemma guards_passed (a b c d : bool) :
  negb (a && b && c && d) = false -> a = true /\ b = true /\ c = true /\ d = true.
Proof. by destruct a, b, c, d. Qed.

(** Every call keeps the invariant of the mailboxes. *)
Lemma spec_op_ok auth o b out bx next :
  broker_ok b -> allowed o b ->
  spec_op auth (config b) o (boxes_of b) (next_sequence b) = (out, bx, next) ->
  boxes_ok (config b) next bx.
Proof.
  intros [Hl Hb] Ha. destruct o as [i t p o fresh ok|i h|m i t x ts d n|h o cap]; cbn [spec_op].
  - destruct i as [i|]; [|by intros [= <- <- <-]].
    destruct (negb (o && valid_identity (Some i) && _ && _)) eqn:E1; [by intros [= <- <- <-]|].
    split_if; [by intros [= <- <- <-]|]. split_if; [by intros [= <- <- <-]|].
    split_if; [by intros [= <- <- <-]|]. destruct (bool_decide _ && _) eqn:E2; [by intros [= <- <- <-]|].
    destruct fresh as [h|]; [|by intros [= <- <- <-]]. destruct ok; [|by intros [= <- <- <-]].
    intros [= <- <- <-]. destruct Ha as [H0 Hh].
    apply guards_passed in E1 as (_ & Hv & Ht & Hp). apply orb_true_iff in Hp. bool_hyps.
    apply boxes_ok_insert; try done; [unfold boxes_of; by rewrite lookup_fmap, Hh| |].
    + apply andb_false_iff in E2 as [E2|E2]; bool_hyps; [left; apply bool_decide_eq_false in E2|by right].
      by destruct (decide (t ∈ topics_of (boxes_of b))).
    + destruct Hp; bool_hyps; auto.
  - destruct (boxes_of b !! h) as [x|] eqn:Hx; [|by intros [= <- <- <-]].
    destruct i as [i|]; [|by intros [= <- <- <-]].
    split_if; [by intros [= <- <- <-]|]. split_if; [by intros [= <- <- <-]|]. intros [= <- <- <-].
    by apply (boxes_ok_delete _ _ _ _ x).
  - destruct i as [i|]; [|by intros [= <- <- <-]]. destruct Ha as [Hn Hd].
    destruct (negb (valid_identity (Some i) && _ && _ && _)) eqn:E1; [by intros [= <- <- <-]|].
    split_if; [by intros [= <- <- <-]|]. split_if; [by intros [= <- <- <-]|]. intros [= <- <- <-].
    apply guards_passed in E1 as (_ & _ & Hm & Hp). apply orb_true_iff in Hp. bool_hyps.
    pose proof (bk_next _ _ _ Hb). apply boxes_ok_deliver; [done|lia|done|].
    apply message_of_ok; [lia|lia|]. destruct d as [d|]; cbn; [done|].
    destruct Hp as [Hp|Hp]; [bool_hyps; unfold len; cbn; lia|by apply bool_decide_eq_true in Hp].
  - destruct (boxes_of b !! h) as [x|] eqn:Hx; [|by intros [= <- <- <-]].
    split_if; [by intros [= <- <- <-]|]. destruct (box_messages x) as [|m l] eqn:Hm; [by intros [= <- <- <-]|].
    split_if; [by intros [= <- <- <-]|]. intros [= <- <- <-].
    by apply (boxes_ok_receive _ _ _ _ _ m).
Qed.

(** ** One call, and a history of calls *)

(** A call on a good broker: it does not fault, the broker stays good, and the
    mailboxes change as specified. *)
Lemma op_step auth o b :
  broker_ok b -> allowed o b ->
  exists out b', run_op auth o b = Ok (out, b') /\ broker_ok b' /\ config b' = config b /\
    spec_op auth (config b) o (boxes_of b) (next_sequence b) = (out, boxes_of b', next_sequence b').
Proof.
  intros Hb Ha. pose proof Hb as [Hl Hx].
  assert (refines auth o b) as (out & b' & Hr & Hc & Hl' & Hs).
  { destruct o.
    - by apply subscribe_refines; [|apply Hx|].
    - by apply unsubscribe_refines.
    - by apply emit_refines.
    - by apply receive_refines. }
  exists out, b'. split; [done|]. split; [|done]. split; [done|]. rewrite Hc. by apply (spec_op_ok auth o b out).
Qed.

Lemma created_ok c b0 :
  config_typed c -> ar_event_broker_create (Some c) true true true true = (EVENT_OK, Some b0) -> broker_ok b0.
Proof.
  intros Hty. unfold ar_event_broker_create. cbn [negb orb]. split_if; [done|]. intros [= <-].
  unfold config_typed in Hty. bool_hyps. split; split; cbn.
  - split; cbn; [constructor|intros h|done].
    rewrite lookup_empty, elem_of_nil. split; [done|by intros [? ?]].
  - unfold boxes_of, topics_of. cbn. by rewrite fmap_empty, map_to_set_empty.
  - apply map_Forall_empty.
  - split; lia.
  - unfold UINT64_MAX. lia.
  - unfold boxes_of. cbn. rewrite fmap_empty, map_size_empty. lia.
  - unfold boxes_of, topics_of. cbn. rewrite fmap_empty, map_to_set_empty, size_empty. lia.
  - intros h h' x x'. unfold boxes_of. cbn. by rewrite fmap_empty, lookup_empty.
  - unfold boxes_of. cbn. rewrite fmap_empty. apply map_Forall_empty.
Qed.

Lemma run_ok b tr b' : run b tr b' -> broker_ok b -> broker_ok b' /\ config b' = config b.
Proof.
  induction 1 as [|auth o out b b1 b2 tr Ha Hr _ IH]; intros Hb; [done|].
  destruct (op_step auth o b Hb Ha) as (out' & b1' & Hr' & Hb1 & Hc & _).
  rewrite Hr in Hr'. simplify_eq. destruct (IH Hb1) as [? ->]. done.
Qed.

Lemma foldr_delete_lookup (l : list Z) (m : gmap Z subscription) h :
  foldr delete m l !! h = if decide (h ∈ l) then None else m !! h.
Proof.
  induction l as [|k l IH]; cbn; [done|]. destruct (decide (k = h)) as [->|Hk].
  - rewrite lookup_delete_eq. by rewrite decide_True by by left.
  - rewrite lookup_delete_ne, IH by done. by rewrite (decide_ext _ _ _ _ (elem_of_cons_ne h k l (not_eq_sym Hk))).
Qed.

Lemma destroy_frees b : indexed b -> ar_event_broker_destroy (Some b) = ∅.
Proof.
  intros Hi. apply map_eq. intros h. cbn. rewrite foldr_delete_lookup, lookup_empty.
  case_decide as Hh; [done|]. apply eq_None_not_Some. by rewrite <- (bo_live _ Hi).
Qed.

(** ** Delivery *)

(** A message offered to a mailbox that neither refuses nor evicts is appended. *)
Lemma deliver_messages cfg md d ok h x :
  box_messages (deliver cfg md d ok h x) `sublist_of`
    box_messages x ++ (if box_topic x =? ev_topic md then [message_of md d] else []) /\
  (refuses cfg md ok h x = false -> evicts cfg md ok h x = false ->
   box_messages (deliver cfg md d ok h x) =
     box_messages x ++ (if box_topic x =? ev_topic md then [message_of md d] else [])).
Proof.
  unfold deliver, evicts, takes, refuses. destruct (box_topic x =? ev_topic md); cbn [box_messages].
  - split; [apply offer_sublist|]. intros H. rewrite H. cbn [negb andb]. intros Hd.
    unfold offer. cbn zeta. rewrite Hd in *. cbn [andb orb] in *. by rewrite H.
  - by rewrite app_nil_r.
Qed.

Lemma tally_0 f bx h x : tally f bx = 0 -> bx !! h = Some x -> f h x = false.
Proof.
  unfold tally. intros H Hx. apply not_true_is_false. intros Hf.
  assert (Hs : filter (fun hx : Z * mailbox => f hx.1 hx.2 = true) bx = ∅) by (apply map_size_empty_iff; lia).
  by apply (map_filter_empty_not_lookup _ _ h x Hs Hf).
Qed.

(** What a call does for the holder of one mailbox. *)
Definition accounts (h : Z) (x x1 : mailbox) (es : list entry) : Prop :=
  box_topic x1 = box_topic x /\ box_owner x1 = box_owner x /\
  concat (map (handed h) es) ++ box_messages x1 `sublist_of`
    box_messages x ++ concat (map (emitted (box_topic x)) es) /\
  (forallb lossless es = true ->
   concat (map (handed h) es) ++ box_messages x1 = box_messages x ++ concat (map (emitted (box_topic x)) es)).

Lemma accounts_app h x x1 x2 es es' :
  accounts h x x1 es -> accounts h x1 x2 es' -> accounts h x x2 (es ++ es').
Proof.
  intros (Ht & Ho & Hs & He) (Ht' & Ho' & Hs' & He'). unfold accounts.
  rewrite !map_app, !concat_app, forallb_app, Ht', Ho', <- Ht. rewrite <- !app_assoc. split_and!; [done..| |].
  - etrans; [by apply sublist_app; [reflexivity|exact Hs']|].
    rewrite !app_assoc, Ht. by apply sublist_app.
  - intros [H H']%andb_true_iff. rewrite (He' H'), app_assoc, (He H), Ht. by rewrite app_assoc.
Qed.

(** A call that neither hands out nor accepts anything for the mailbox. *)
Lemma accounts_idle h x e :
  handed h e = [] -> emitted (box_topic x) e = [] -> accounts h x x [e].
Proof. intros H1 H2. unfold accounts. cbn. by rewrite H1, H2, !app_nil_r. Qed.

(** The specification accounts for every message. *)
Lemma spec_accounts auth cfg o bx next out bx1 next1 h x :
  spec_op auth cfg o bx next = (out, bx1, next1) -> bx !! h = Some x ->
  (match o with Subscribe _ _ _ _ (Some k) _ => k <> h | _ => True end) ->
  unsubscribed h (next, o, out) = false ->
  exists x1, bx1 !! h = Some x1 /\ accounts h x x1 [(next, o, out)].
Proof.
  intros Hs Hx Hf Hu. destruct o as [i t p o fresh ok|i k|m i t tr ts d n|k o cap]; cbn [spec_op] in Hs.
  - assert (bx1 = bx \/ exists k y, fresh = Some k /\ bx1 = <[k := y]> bx) as Hb.
    { destruct i as [i|]; [|simplify_eq; by left]. do 5 (split_if_in Hs; [simplify_eq; by left|]).
      destruct fresh as [k|]; [destruct ok|]; simplify_eq; eauto 6. }
    exists x. split.
    + destruct Hb as [->|(k & y & -> & ->)]; [done|]. by rewrite lookup_insert_ne.
    + apply accounts_idle; [by destruct out|by destruct out].
  - assert (bx1 = bx \/ bx1 = delete k bx /\ out = Unsubscribed EVENT_OK) as Hb.
    { destruct (bx !! k), i; try (simplify_eq; by left). do 2 (split_if_in Hs; [simplify_eq; by left|]).
      simplify_eq. by right. }
    exists x. split; [|by apply accounts_idle; destruct out].
    destruct Hb as [->|[-> ->]]; [done|]. cbn in Hu. rewrite andb_true_r in Hu. bool_hyps.
    by rewrite lookup_delete_ne.
  - destruct i as [i|]; [|simplify_eq; exists x; split; [done|by apply accounts_idle]].
    do 3 (split_if_in Hs; [simplify_eq; exists x; split; [done|apply accounts_idle; [done|cbn; by rewrite andb_false_r]]|]).
    injection Hs as <- <- <-. set (md := mk_metadata t next tr ts i n).
    exists (deliver cfg md (default [] d) m h x). split; [by rewrite map_lookup_imap, Hx|].
    unfold accounts. rewrite deliver_topic, deliver_owner. split; [done|]. split; [done|].
    destruct (deliver_messages cfg md (default [] d) m h x) as [Hsub Heq].
    assert (E : concat (map (emitted (box_topic x)) [(next, Emit m (Some i) t tr ts d n,
        Emitted (if tally (refuses cfg md m) bx =? 0 then EVENT_OK else EVENT_PARTIAL)
          (mk_result (tally (takes cfg md m) bx) (tally (evicts cfg md m) bx) (tally (refuses cfg md m) bx)))])
      = if box_topic x =? ev_topic md then [message_of md (default [] d)] else []).
    { cbn. rewrite (Z.eqb_sym (box_topic x)). by destruct (t =? box_topic x), (tally (refuses cfg md m) bx =? 0). }
    rewrite E. cbn. rewrite andb_true_r. split; [done|]. intros [He Hr]%andb_true_iff. bool_hyps.
    by apply Heq; eapply tally_0.
  - destruct (bx !! k) as [y|] eqn:Hy; [|simplify_eq; exists x; split; [done|by apply accounts_idle]].
    split_if_in Hs; [simplify_eq; exists x; split; [done|by apply accounts_idle]|].
    destruct (box_messages y) as [|ms l] eqn:Hm; [simplify_eq; exists x; split; [done|by apply accounts_idle]|].
    split_if_in Hs; [simplify_eq; exists x; split; [done|by apply accounts_idle]|].
    injection Hs as <- <- <-. destruct (decide (k = h)) as [->|Hk].
    + rewrite Hx in Hy. injection Hy as <-. rewrite lookup_insert_eq. eexists. split; [done|].
      unfold accounts. cbn. rewrite Z.eqb_refl. cbn. rewrite Hm, app_nil_r. by destruct ms.
    + rewrite lookup_insert_ne by done. exists x. split; [done|]. apply accounts_idle; [|done].
      cbn. by rewrite (proj2 (Z.eqb_neq k h) Hk).
Qed.

Lemma run_accounts b tr b' h x :
  run b tr b' -> broker_ok b -> boxes_of b !! h = Some x ->
  forallb (fun e => negb (unsubscribed h e)) tr = true ->
  exists x', boxes_of b' !! h = Some x' /\ accounts h x x' tr.
Proof.
  intros Hrun. revert x. induction Hrun as [b|auth o out b b1 b2 tr Ha Hr _ IH]; intros x Hb Hx Hu.
  { exists x. split; [done|]. unfold accounts. cbn. by rewrite app_nil_r. }
  cbn [forallb] in Hu. bool_hyps.
  destruct (op_step auth o b Hb Ha) as (out' & b1' & Hr' & Hb1 & Hc & Hs).
  rewrite Hr in Hr'. injection Hr' as <- <-.
  destruct (spec_accounts _ _ _ _ _ _ _ _ h x Hs Hx) as (x1 & Hx1 & Hacc); [|done|].
  { destruct o as [? ? ? ? [k|] ?| | |]; try done. destruct Ha as [_ Hk]. intros ->.
    unfold boxes_of in Hx. by rewrite lookup_fmap, Hk in Hx. }
  destruct (IH x1 Hb1 Hx1) as (x2 & Hx2 & Hacc2); [done|]. exists x2. split; [done|].
  exact (accounts_app h x x1 x2 [_] tr Hacc Hacc2).
Qed.

(** Numbers are given in order. *)
Lemma spec_emitted auth cfg o bx next out bx1 next1 t :
  spec_op auth cfg o bx next = (out, bx1, next1) ->
  emitted t (next, o, out) = [] /\ next <= next1 \/
  next1 = next + 1 /\ exists m, emitted t (next, o, out) = [m] /\ ev_sequence (m_metadata m) = next.
Proof.
  destruct o as [i t' p o fresh ok|i k|m i t' tr ts d n|k o cap]; cbn [spec_op]; intros Hs.
  - left. split; [by destruct out|]. destruct i as [i|]; [|simplify_eq; lia].
    do 5 (split_if_in Hs; [simplify_eq; lia|]). destruct fresh as [k|]; [destruct ok|]; simplify_eq; lia.
  - left. split; [by destruct out|]. destruct (bx !! k), i; try (simplify_eq; lia).
    do 2 (split_if_in Hs; [simplify_eq; lia|]). simplify_eq. lia.
  - destruct i as [i|]; [|simplify_eq; left; split; [done|lia]].
    do 3 (split_if_in Hs; [simplify_eq; left; split; [cbn; by rewrite andb_false_r|lia]|]).
    injection Hs as <- <- <-. cbn. destruct (t' =? t); cbn; [|left; split; [done|lia]].
    destruct (tally (refuses cfg _ m) bx =? 0); cbn; right; split; eauto.
  - left. split; [done|]. destruct (bx !! k) as [y|]; [|simplify_eq; lia].
    split_if_in Hs; [simplify_eq; lia|]. destruct (box_messages y); [simplify_eq; lia|].
    split_if_in Hs; simplify_eq; lia.
Qed.

Lemma run_emitted b tr b' t :
  run b tr b' -> broker_ok b ->
  Forall (fun m => next_sequence b <= ev_sequence (m_metadata m)) (concat (map (emitted t) tr)) /\
  StronglySorted seq_lt (concat (map (emitted t) tr)).
Proof.
  induction 1 as [b|auth o out b b1 b2 tr Ha Hr _ IH]; intros Hb; [by repeat constructor|].
  destruct (op_step auth o b Hb Ha) as (out' & b1' & Hr' & Hb1 & Hc & Hs).
  rewrite Hr in Hr'. injection Hr' as <- <-. destruct (IH Hb1) as [Hge Hst]. cbn [map concat].
  destruct (spec_emitted _ _ _ _ _ _ _ _ t Hs) as [[-> Hn]|[Hn (m & -> & Hm)]]; cbn [app].
  - split; [|done]. eapply Forall_impl; [exact Hge|]. cbn. lia.
  - split; constructor; try done; [lia| |]; (eapply Forall_impl; [exact Hge|]); unfold seq_lt; cbn; lia.
Qed.

Lemma sorted_sublist (l k : list message) : l `sublist_of` k -> StronglySorted seq_lt k -> StronglySorted seq_lt l.
Proof.
  induction 1 as [|x l k Hlk IH|x l k Hlk IH]; [done| |]; intros [Hk Hx]%StronglySorted_inv; [|by apply IH].
  constructor; [by apply IH|]. rewrite Forall_forall in Hx. apply Forall_forall. intros z Hz.
  apply Hx. by eapply elem_of_sublist.
Qed.

Lemma sorted_app_iff (l k : list message) :
  StronglySorted seq_lt l -> StronglySorted seq_lt k -> (forall x y, x ∈ l -> y ∈ k -> seq_lt x y) ->
  StronglySorted seq_lt (l ++ k).
Proof.
  induction 1 as [|x l Hl IH Hx]; intros Hk Hlt; [done|]. cbn. constructor.
  - apply IH; [done|]. intros y z Hy Hz. apply Hlt; [by right|done].
  - apply Forall_app. split; [done|]. apply Forall_forall. intros z Hz. apply Hlt; [by left|done].
Qed.

Lemma run_sorted b tr b' h x :
  run b tr b' -> broker_ok b -> boxes_of b !! h = Some x ->
  StronglySorted seq_lt (box_messages x ++ concat (map (emitted (box_topic x)) tr)).
Proof.
  intros Hrun Hb Hx. destruct (run_emitted b tr b' (box_topic x) Hrun Hb) as [Hge Hst].
  destruct Hb as [_ Hb]. pose proof (bk_boxes _ _ _ Hb h x Hx) as [? ? ? ? Hms Hsx].
  apply sorted_app_iff; [done|done|]. rewrite Forall_forall in Hge. rewrite Forall_forall in Hms.
  intros y z [_ Hy _ _]%Hms Hz%Hge. unfold seq_lt. lia.
Qed.

(** ** The wire header *)

Lemma len_cstr_principal p : 0 <= len (cstr (sub 0 (MAX_PRINCIPAL_LEN - 1) p)) <= MAX_PRINCIPAL_LEN - 1.
Proof.
  split; [apply len_nonneg|]. etrans; [apply cstr_len|]. etrans; [apply len_sub_le|]. done.
Qed.

(** Writing the fields one after the other over a buffer of the right size. *)
Lemma encode_header h w :
  len w = EVENT_WIRE_SIZE -> ar_event_wire_header_encode (Some h) (Some w) = (EVENT_OK, Some (wire_bytes h)).
Proof.
  intros Hw. unfold ar_event_wire_header_encode. cbv zeta. f_equal. f_equal.
  pose proof (len_cstr_principal (wh_producer_principal h)) as Hp.
  change w with ([] ++ w) at 1.
  do 13 rewrite upd_next by (rewrite ?len_app, ?len_store_u16, ?len_store_u32, ?len_store_u64; reflexivity).
  rewrite !drop_drop.
  rewrite (drop_ge w) by (unfold len in Hw; apply Nat2Z.inj_le; rewrite Hw; reflexivity).
  rewrite app_nil_r, upd_next
    by (rewrite ?len_app, ?len_store_u16, ?len_store_u32, ?len_store_u64; reflexivity).
  unfold wire_bytes, principal_field, zeros. cbn [app]. rewrite drop_replicate, <- !app_assoc. 
  do 14 f_equal. unfold len in *. lia.
Qed.

Lemma len_principal_field p : len (principal_field p) = MAX_PRINCIPAL_LEN.
Proof.
  unfold principal_field. pose proof (len_cstr_principal p). cbv zeta. rewrite len_app, len_zeros; lia.
Qed.

(** The last byte of the field is a NUL already. *)
Lemma principal_field_closed p : upd (MAX_PRINCIPAL_LEN - 1) [0] (principal_field p) = principal_field p.
Proof.
  unfold principal_field. pose proof (len_cstr_principal p) as Hs. set (s := cstr _) in *. cbv zeta.
  set (k := MAX_PRINCIPAL_LEN - 1 - len s).
  assert (E : zeros (MAX_PRINCIPAL_LEN - len s) = zeros k ++ [0]).
  { unfold zeros. replace (Z.to_nat (MAX_PRINCIPAL_LEN - len s)) with (Z.to_nat k + 1)%nat by lia.
    by rewrite replicate_add. }
  rewrite E, app_assoc, upd_next; [cbn; by rewrite app_nil_r|].
  rewrite len_app, len_zeros; lia.
Qed.

Lemma principal_field_string p :
  cstr (principal_field p) = cstr (sub 0 (MAX_PRINCIPAL_LEN - 1) p).
Proof.
  unfold principal_field. pose proof (len_cstr_principal p) as Hs.
  replace (zeros _) with (0 :: zeros (MAX_PRINCIPAL_LEN - 1 - len (cstr (sub 0 (MAX_PRINCIPAL_LEN - 1) p)))).
  - apply cstr_terminated, cstr_no_nul.
  - unfold zeros. rewrite <- replicate_S. f_equal. lia.
Qed.

(** ** Example histories *)

Lemma allowedb_spec o b : allowedb o b = true -> allowed o b.
Proof.
  destruct o as [? ? ? ? [h|] ?|? h|? ? ? ? ? [d|] n|h ? ?]; cbn; intros H; bool_hyps; try done.
  1: by case_bool_decide.
  all: apply orb_true_iff in H as [H|H]; bool_hyps; [done|by case_bool_decide].
Qed.

Lemma play_run auth os b tr b' : play auth os b = Some (tr, b') -> run b tr b'.
Proof.
  revert b tr. induction os as [|o os IH]; intros b tr; cbn; [intros [= <- <-]; constructor|].
  destruct (run_op auth o b) as [[out b1]| |] eqn:E; try done.
  destruct (allowedb o b) eqn:Ha; [|done]. destruct (play auth os b1) as [[tr1 b2]|] eqn:Ep; [|done].
  intros [= <- <-]. by eapply run_step; [apply allowedb_spec|exact E|apply IH].
Qed.

Lemma history_run os b : run b (history os b) (after os b).
Proof.
  unfold history, after. destruct (play all_allowed os b) as [[tr b']|] eqn:E; [|constructor].
  by apply play_run in E.
Qed.

Lemma small_broker_ok : broker_ok small_broker.
Proof. apply (created_ok small_config); [done|reflexivity]. Qed.

Lemma after_opening_ok : broker_ok (after opening small_broker).
Proof. exact (proj1 (run_ok _ _ _ (history_run opening small_broker) small_broker_ok)). Qed.

(** ** Properties *)

(** C7: a broker refines its mailboxes. A call that meets the caller's obligations
    does not fault; its status, the delivery counters and what it hands out are
    those of the specification on the map of mailboxes (one bounded queue per
    subscription, no array, ring buffer, or counter), the mailboxes afterwards are
    the specification's, and the broker stays good. *)
Theorem broker_refines_mailboxes auth o b :
  broker_ok b -> allowed o b ->
  exists out b', run_op auth o b = Ok (out, b') /\
    spec_op auth (config b) o (boxes_of b) (next_sequence b) = (out, boxes_of b', next_sequence b') /\
    broker_ok b' /\ config b' = config b.
Proof.
  intros Hb Ha. destruct (op_step auth o b Hb Ha) as (out & b' & ? & ? & ? & ?). by exists out, b'.
Qed.

Lemma broker_refines_mailboxes_witness :
  exists out b', run_op all_allowed (Emit (fun _ => false) (Some (somebody 3)) 7 1 1 (Some [10; 11]) 2)
      (after opening small_broker) = Ok (out, b') /\
    spec_op all_allowed (config (after opening small_broker))
      (Emit (fun _ => false) (Some (somebody 3)) 7 1 1 (Some [10; 11]) 2)
      (boxes_of (after opening small_broker)) (next_sequence (after opening small_broker))
    = (out, boxes_of b', next_sequence b') /\
    broker_ok b' /\ config b' = config (after opening small_broker).
Proof. apply broker_refines_mailboxes; [exact after_opening_ok|by apply allowedb_spec]. Defined.

(** After any history of calls from its creation a broker is within its limits:
    subscriptions, topics and queues; nobody holds a topic twice; the two counters
    report the mailboxes and the topics; a live handle's queue is as long as
    reported; and destroying the broker frees every subscription. *)
Theorem broker_history_safe c b0 tr b :
  config_typed c -> ar_event_broker_create (Some c) true true true true = (EVENT_OK, Some b0) -> run b0 tr b ->
  boxes_ok c (next_sequence b) (boxes_of b) /\
  ar_event_broker_subscription_count (Some b) = Z.of_nat (size (boxes_of b)) /\
  ar_event_broker_topic_count (Some b) = Z.of_nat (size (topics_of (boxes_of b))) /\
  (forall h x, boxes_of b !! h = Some x -> ar_event_subscription_pending b h = Ok (len (box_messages x))) /\
  ar_event_broker_destroy (Some b) = ∅.
Proof.
  intros Ht Hc Hr. destruct (run_ok b0 tr b Hr (created_ok c b0 Ht Hc)) as [[Hl Hb] E].
  pose proof (bo_indexed _ Hl) as Hi. split_and!.
  - rewrite E in Hb. replace (config b0) with c in Hb; [done|].
    revert Hc. unfold ar_event_broker_create. cbn [negb orb]. split_if; [done|]. by intros [= <-].
  - by apply size_handles.
  - apply Hl.
  - intros h x (s & Hs & ->)%live_box. unfold ar_event_subscription_pending. destruct (h =? 0) eqn:E0; bool_hyps.
    + subst. by rewrite (bo_null _ Hi) in Hs.
    + rewrite Hs. cbn [mailbox_of box_messages]. by rewrite (len_pending _ s (bo_rings _ Hl h s Hs)).
  - by apply destroy_frees.
Qed.

Lemma broker_history_safe_witness :
  ar_event_broker_topic_count (Some (after opening small_broker)) = 1 /\
  ar_event_broker_destroy (Some (after opening small_broker)) = ∅.
Proof.
  destruct (broker_history_safe small_config small_broker (history opening small_broker)
    (after opening small_broker)) as (_ & _ & Ht & _ & Hd); [done|reflexivity|apply history_run|].
  split; [rewrite Ht; by vm_compute|exact Hd].
Defined.

(** C24: delivery. Over a history in which a mailbox is not given up, what its holder
    has received, followed by what is still queued, is what was queued at the start
    followed by what emits have accepted for its topic, in that order and with
    possible gaps, each message with its bytes, at most once and by increasing
    numbers; without gaps when no emit reported a loss. *)
Theorem delivery_in_order b tr b' h x :
  broker_ok b -> run b tr b' -> boxes_of b !! h = Some x ->
  forallb (fun e => negb (unsubscribed h e)) tr = true ->
  let got := concat (map (handed h) tr) in
  let sent := concat (map (emitted (box_topic x)) tr) in
  exists x', boxes_of b' !! h = Some x' /\ box_owner x' = box_owner x /\ box_topic x' = box_topic x /\
    got ++ box_messages x' `sublist_of` box_messages x ++ sent /\
    StronglySorted seq_lt (got ++ box_messages x') /\
    (forallb lossless tr = true -> got ++ box_messages x' = box_messages x ++ sent).
Proof.
  intros Hb Hr Hx Hu. destruct (run_accounts b tr b' h x Hr Hb Hx Hu) as (x' & Hx' & Ht & Ho & Hs & He).
  exists x'. split_and!; try done.
  apply (sorted_sublist _ _ Hs). exact (run_sorted b tr b' h x Hr Hb Hx).
Qed.

Lemma delivery_in_order_witness :
  exists x x', boxes_of (after opening small_broker) !! 100 = Some x /\ box_messages x = [] /\
    boxes_of (after traffic (after opening small_broker)) !! 100 = Some x' /\
    concat (map (handed 100) (history traffic (after opening small_broker))) ++ box_messages x' `sublist_of`
    box_messages x ++ concat (map (emitted 7) (history traffic (after opening small_broker))).
Proof.
  assert (Ht : box_topic <$> boxes_of (after opening small_broker) !! 100 = Some 7) by vm_refl.
  assert (Hm : box_messages <$> boxes_of (after opening small_broker) !! 100 = Some []) by vm_refl.
  assert (Hu : forallb (fun e => negb (unsubscribed 100 e)) (history traffic (after opening small_broker)) = true)
    by vm_refl.
  apply fmap_Some in Ht as (x & Hx & Ht). rewrite Hx in Hm. apply (inj Some) in Hm.
  destruct (delivery_in_order (after opening small_broker) (history traffic (after opening small_broker))
    (after traffic (after opening small_broker)) 100 x after_opening_ok (history_run _ _) Hx Hu)
    as (x' & Hx' & _ & _ & Hs & _).
  rewrite <- Ht in Hs. exists x, x'. exact (conj Hx (conj Hm (conj Hx' Hs))).
Defined.

(** A wire header is read back from its 116 bytes: every field, and the principal
    as the string of its first 63 bytes, closed by zeros. *)
Theorem wire_header_roundtrip h w :
  header_typed h -> len w = EVENT_WIRE_SIZE ->
  exists wire p, ar_event_wire_header_encode (Some h) (Some w) = (EVENT_OK, Some wire) /\
    len wire = EVENT_WIRE_SIZE /\
    ar_event_wire_header_decode (Some wire) true =
      Ok (EVENT_OK, Some (mk_header (wh_magic h) (wh_version h) (wh_opcode h) (wh_topic h) (wh_flags h)
        (wh_sequence h) (wh_transaction_id h) (wh_timestamp_nanos h) (wh_producer_pid h) (wh_producer_uid h)
        (wh_producer_gid h) (wh_payload_len h) p)) /\
    len p = MAX_PRINCIPAL_LEN /\ cstr p = cstr (sub 0 (MAX_PRINCIPAL_LEN - 1) (wh_producer_principal h)).
Proof.
  intros [Hm Hv ? ? ? ? ? ? ? ? ? ?] Hw. exists (wire_bytes h), (principal_field (wh_producer_principal h)).
  pose proof (len_principal_field (wh_producer_principal h)) as Hp.
  split_and!; [by apply encode_header| | |done|apply principal_field_string].
  - unfold wire_bytes. rewrite !len_app, Hp, !len_store_u16, !len_store_u32, !len_store_u64. reflexivity.
  - unfold ar_event_wire_header_decode, wire_bytes. cbn [negb].
    next_field. rewrite load_store_u32 by (rewrite Hm; done). rewrite Hm. cbn [Z.eqb Pos.eqb EVENT_WIRE_MAGIC negb].
    next_field. rewrite load_store_u16 by (rewrite Hv; done). rewrite Hv. cbn [Z.eqb Pos.eqb EVENT_WIRE_VERSION negb].
    do 11 next_field. rewrite !load_store_u16, !load_store_u64, !load_store_u32 by done.
    by rewrite principal_field_closed.
Qed.

Lemma wire_header_roundtrip_witness :
  exists wire p, ar_event_wire_header_encode (Some small_header) (Some (zeros EVENT_WIRE_SIZE)) = (EVENT_OK, Some wire) /\
    len wire = EVENT_WIRE_SIZE /\
    ar_event_wire_header_decode (Some wire) true =
      Ok (EVENT_OK, Some (mk_header EVENT_WIRE_MAGIC EVENT_WIRE_VERSION 771 7 0 1 2 3 4 1000 1000 2 p)) /\
    len p = MAX_PRINCIPAL_LEN /\ cstr p = cstr (sub 0 (MAX_PRINCIPAL_LEN - 1) (wh_producer_principal small_header)).
Proof. apply (wire_header_roundtrip small_header); [by split|reflexivity]. Defined.
