(* ===== verification/PackageBuilder.v ===== *)
(** The builder of version 2 packages (src/libraries/package/package_v2.c).

    A run takes place on a [host]: the regular files, what the calls of stdio report
    about them, the offset at which reading a file fails, and the room there is for
    the output. The container it writes is the [encode] of ArappV2.v with empty
    signature slots. *)

From stdpp Require Import gmap.
From S2P Require Import Prelude Bytes JsonText ManifestCanon ArappV2.
#[local] Open Scope Z_scope.

Definition ARMAKE_OK : Z := 0.

Definition ARMAKE_ERR_ARGUMENT : Z := -3201.

Definition ARMAKE_ERR_IO : Z := -3202.

Definition ARMAKE_ERR_MANIFEST : Z := -3203.

Definition ARMAKE_ERR_MUTABLE_FILE : Z := -3204.

Definition ARMAKE_ERR_POLICY : Z := -3205.

Definition ARMAKE_ERR_CAPACITY : Z := -3206.

Definition ARMAKE_ERR_OUTPUT_EXISTS : Z := -3207.

Definition IO_BUFFER_SIZE : Z := 65536.

Definition FLAG_ENCRYPTED_GCM : Z := Z.shiftl 1 5.

Record options := mk_options {
  target_arch : Z;
  container_flags : Z;
  issued_at : Z;
  expires_at : Z;
}.

Record host := mk_host {
  files : gmap bytes bytes;
  can_open : bytes -> bool;
  tell : bytes -> option Z;
  read_error : bytes -> option Z;
  can_close : bytes -> bool;
  creation : Z;
  room : Z;
  can_flush : bool;
  can_unlink : bool;
}.

(** [errno] of a file that is there already. *)
Definition EEXIST : Z := 17.

(** ** The checks on the request *)

Definition valid_unsigned_flags (flags : Z) : bool :=
  let profiles := Z.land flags
    (Z.lor (Z.lor FLAG_PROFILE_SOVEREIGN FLAG_PROFILE_ENTERPRISE) FLAG_PROFILE_PERFORMANCE) in
  let rings := Z.land flags (Z.lor FLAG_RING_SOVEREIGN FLAG_RING_DEVMODE) in
  if flag_set flags (u32 (Z.lnot FLAGS_MASK))
     || flag_set flags (Z.lor FLAG_ENCRYPTED_GCM FLAG_PQC_HYBRID_SIG)
  then false
  else if (profiles =? 0) || negb (Z.land profiles (u32 (profiles - 1)) =? 0) then false
  else if negb (rings =? FLAG_RING_DEVMODE) then false
  else if flag_set flags FLAG_PROFILE_SOVEREIGN then false
  else true.

Definition mutable_suffixes : list bytes :=
  [lit ".db"; lit ".sqlite"; lit ".session"; lit ".lock"; lit ".wal"; lit ".shm"; lit ".log"; lit ".tmp"].

(** [strrchr(s, c) + 1], if there is one. *)
Fixpoint after_last (c : Z) (s : bytes) : option bytes :=
  match s with
  | [] => None
  | x :: s =>
      match after_last c s with
      | Some r => Some r
      | None => if x =? c then Some s else None
      end
  end.

Definition lower (x : Z) : Z := if (x >=? 65) && (x <=? 90) then x - 65 + 97 else x.

(** The inner loop: the last bytes of [name], in lower case, are [suffix]. *)
Definition suffix_matches (name suffix : bytes) : bool :=
  if len name <? len suffix then false
  else bytes_eqb (map lower (drop (Z.to_nat (len name - len suffix)) name)) suffix.

Definition has_forbidden_mutable_suffix (path : bytes) : bool :=
  if len path =? 0 then false
  else
    let name :=
      match after_last 47 path with
      | Some name => name
      | None => match after_last 92 path with Some name => name | None => path end
      end in
    existsb (suffix_matches name) mutable_suffixes.

(** ** Files *)

(** [fread] of [n] bytes from offset [off] of an open file, when all of them come. *)
Definition fread (h : host) (path : bytes) (off n : Z) : option bytes :=
  match files h !! path with
  | None => None
  | Some content =>
      if (off + n <=? len content)
         && match read_error h path with Some e => off + n <=? e | None => true end
      then Some (sub off n content) else None
  end.

(** [fgetc(f) == EOF && !ferror(f)] at offset [off]. *)
Definition at_end (h : host) (path : bytes) (off : Z) : bool :=
  match files h !! path with
  | None => false
  | Some content =>
      (len content <=? off) && match read_error h path with Some e => off <? e | None => true end
  end.

(** [fopen(path, "rb")]. *)
Definition opens (h : host) (path : bytes) : bool :=
  can_open h path && bool_decide (is_Some (files h !! path)).

Definition get_file_size (h : host) (path : bytes) : Z * Z :=
  match tell h path with
  | None => (ARMAKE_ERR_IO, 0)
  | Some size => if size <? 0 then (ARMAKE_ERR_IO, 0) else (ARMAKE_OK, size)
  end.

Section Builder.
(** Does [malloc] serve this request? *)
Context (malloc_ok : request -> bool).

(** Status and the manifest. *)
Definition read_canonical_manifest (h : host) (path : bytes) : res (Z * bytes) :=
  if negb (opens h path) then Ok (ARMAKE_ERR_IO, [])
  else
    let '(status, input_size) := get_file_size h path in
    if negb (status =? ARMAKE_OK) || (input_size =? 0) || (input_size >? MAX_MANIFEST_SIZE)
    then Ok (ARMAKE_ERR_MANIFEST, [])
    else if negb (malloc_ok (mk_request Canon_input 0 (input_size + 1)))
            || negb (malloc_ok (mk_request Canon_output 0 (MAX_MANIFEST_SIZE + 1)))
    then Ok (ARMAKE_ERR_CAPACITY, [])
    else
      match fread h path 0 input_size with
      | None => Ok (ARMAKE_ERR_IO, [])
      | Some input =>
          if negb (can_close h path) then Ok (ARMAKE_ERR_IO, [])
          else if existsb (fun byte => byte =? 0) input then Ok (ARMAKE_ERR_MANIFEST, [])
          else
            let! result := alrios_manifest_canonicalize malloc_ok (Some (input ++ [0])) true
                             (MAX_MANIFEST_SIZE + 1) in
            match result with
            | (0, Some canonical) =>
                let canonical_length := len (cstr canonical) in
                if (canonical_length =? 0) || (canonical_length >? MAX_MANIFEST_SIZE)
                   || (canonical_length >? UINT32_MAX)
                then Ok (ARMAKE_ERR_MANIFEST, [])
                else Ok (ARMAKE_OK, sub 0 canonical_length canonical)
            | _ => Ok (ARMAKE_ERR_MANIFEST, [])
            end
      end.

(** [output] is what the file holds; the write is short where the room ends. *)
Definition write_all (h : host) (output data : bytes) : Z * bytes :=
  if len data =? 0 then (ARMAKE_OK, output)
  else if len output + len data <=? room h then (ARMAKE_OK, output ++ data)
  else (ARMAKE_ERR_IO, output ++ sub 0 (room h - len output) data).

(** The loop of [copy_payload], from offset [off] of the payload; out of fuel is
    [None]. *)
Fixpoint copy_loop (fuel : nat) (h : host) (path : bytes) (off remaining : Z) (output : bytes)
    : option (Z * bytes) :=
  if negb (remaining >? 0) then Some (ARMAKE_OK, output)
  else
    match fuel with
    | O => None
    | S fuel =>
        let chunk := if remaining >? IO_BUFFER_SIZE then IO_BUFFER_SIZE else remaining in
        match fread h path off chunk with
        | None => Some (ARMAKE_ERR_IO, output)
        | Some buffer =>
            let '(status, output) := write_all h output buffer in
            if negb (status =? ARMAKE_OK) then Some (ARMAKE_ERR_IO, output)
            else copy_loop fuel h path (off + chunk) (remaining - chunk) output
        end
    end.

(** One turn of the loop moves at least a byte. *)
Definition copy_payload (h : host) (path : bytes) (output : bytes) (length : Z) : option (Z * bytes) :=
  match copy_loop (Z.to_nat length) h path 0 length output with
  | Some (status, output) =>
      if negb (status =? ARMAKE_OK) then Some (status, output)
      else if negb (at_end h path length) then Some (ARMAKE_ERR_IO, output)
      else Some (ARMAKE_OK, output)
  | None => None
  end.

(** The 3536 bytes written first. *)
Definition build_header (o : options) (manifest_length payload_length : Z) : bytes :=
  let header := zeros HEADER_SIZE in
  let header := upd 0 arapp_v2_magic header in
  let header := upd 16 (store_u16_be ARAPP_VERSION) header in
  let header := upd 18 (store_u16_be (target_arch o)) header in
  let header := upd 20 (store_u32_be (container_flags o)) header in
  let header := upd 24 (store_u64_be (issued_at o)) header in
  let header := upd 32 (store_u64_be (expires_at o)) header in
  let header := upd 40 (store_u32_be HEADER_SIZE) header in
  let header := upd 44 (store_u32_be manifest_length) header in
  upd 48 (store_u32_be payload_length) header.

(** The three writes; the status and what the output holds. *)
Definition write_container (h : host) (payload_path header manifest : bytes) (payload_length : Z)
    : option (Z * bytes) :=
  let '(status, output) := write_all h [] header in
  let '(status, output) :=
    if status =? ARMAKE_OK then write_all h output manifest else (status, output) in
  if status =? ARMAKE_OK then copy_payload h payload_path output payload_length
  else Some (status, output).

(** [status] unless it is a success and the call failed. *)
Definition unless_ok (status : Z) (call : bool) : Z :=
  if negb call && (status =? ARMAKE_OK) then ARMAKE_ERR_IO else status.

(** The files after [unlink_file] of an output that holds [output]. *)
Definition unlinked (h : host) (path output : bytes) : gmap bytes bytes :=
  if can_unlink h then files h else <[path := output]> (files h).

(** Status and the files. *)
Definition alrios_armake_package_v2 (h : host) (manifest_path payload_path output_path : option bytes)
    (opts : option options) : res (Z * gmap bytes bytes) :=
  match manifest_path, payload_path, output_path, opts with
  | Some mp, Some pp, Some op, Some o =>
      if (len mp =? 0) || (len pp =? 0) || (len op =? 0) then Ok (ARMAKE_ERR_ARGUMENT, files h)
      else if negb (valid_architecture (target_arch o)) || negb (valid_unsigned_flags (container_flags o))
              || (issued_at o =? 0) || (expires_at o <=? issued_at o)
      then Ok (ARMAKE_ERR_POLICY, files h)
      else if has_forbidden_mutable_suffix pp then Ok (ARMAKE_ERR_MUTABLE_FILE, files h)
      else if bytes_eqb mp op || bytes_eqb pp op then Ok (ARMAKE_ERR_ARGUMENT, files h)
      else
        let! (status, manifest) := read_canonical_manifest h mp in
        if negb (status =? ARMAKE_OK) then Ok (status, files h)
        else if negb (opens h pp) then Ok (ARMAKE_ERR_IO, files h)
        else
          let '(status, payload_length) := get_file_size h pp in
          if negb (status =? ARMAKE_OK) then Ok (status, files h)
          else
            let open_error := if bool_decide (is_Some (files h !! op)) then EEXIST else creation h in
            if negb (open_error =? 0)
            then Ok (if open_error =? EEXIST then ARMAKE_ERR_OUTPUT_EXISTS else ARMAKE_ERR_IO, files h)
            else if payload_length >? UINT32_MAX then Ok (ARMAKE_ERR_CAPACITY, unlinked h op [])
            else
              let header := build_header o (len manifest) payload_length in
              match write_container h pp header manifest payload_length with
              | None => Fault
              | Some (status, output) =>
                  let status := unless_ok status (can_close h pp) in
                  let status := unless_ok status (can_flush h) in
                  let status := unless_ok status (can_close h op) in
                  if negb (status =? ARMAKE_OK) then Ok (status, unlinked h op output)
                  else Ok (status, <[op := output]> (files h))
              end
  | _, _, _, _ => Ok (ARMAKE_ERR_ARGUMENT, files h)
  end.
End Builder.

(** ** Specification *)

(** The package of a request: nothing signed, nothing encrypted. *)
Definition unsigned_package (o : options) (ms : list (bytes * json)) (payload : bytes) : package_v2 :=
  mk_package (target_arch o) (container_flags o) (issued_at o) (expires_at o)
    (zeros 12) (zeros 16) (zeros 64) (zeros 64) (zeros 3309) ms payload.

(** The fields are of their C types. *)
Record options_typed (o : options) : Prop := {
  ot_arch : 0 <= target_arch o < 2 ^ 16;
  ot_flags : 0 <= container_flags o < 2 ^ 32;
  ot_issued : 0 <= issued_at o < 2 ^ 64;
  ot_expires : 0 <= expires_at o < 2 ^ 64;
}.

(** ** An example: a manifest, a payload and room for the container *)

Definition good_host (manifest payload : bytes) : host :=
  mk_host (<[lit "m.json" := manifest]> (<[lit "app.bin" := payload]> ∅)) (fun _ => true)
    (fun path => len <$> (<[lit "m.json" := manifest]> (<[lit "app.bin" := payload]> ∅) : gmap bytes bytes) !! path)
    (fun _ => None) (fun _ => true) 0 100000 true true.

Definition dev_options : options := mk_options 1 18 1000 2000.

Definition object_manifest : bytes := lit "{ " ++ [34] ++ lit "id" ++ [34] ++ lit " : " ++ [34] ++ lit "a" ++ [34] ++ lit "}".

Definition array_manifest : bytes := lit "[ ]".

Definition built_from (manifest : bytes) : res (Z * gmap bytes bytes) :=
  alrios_armake_package_v2 (fun _ => true) (good_host manifest [1; 2; 3])
    (Some (lit "m.json")) (Some (lit "app.bin")) (Some (lit "app.arapp")) (Some dev_options).

(** ** The header *)

(** The header is the prefix and the empty slots of the format. *)
Lemma header_encode o ms payload :
  build_header o (len (manifest_text (unsigned_package o ms payload))) (len payload)
    ++ manifest_text (unsigned_package o ms payload) ++ payload
  = encode (unsigned_package o ms payload).
Proof.
  unfold encode. rewrite !app_assoc. do 2 f_equal.
Qed.

(** ** Copying the payload *)

Section Copy.
Context (h : host).

Lemma write_all_spec output data :
  let '(st, output') := write_all h output data in
  (st = ARMAKE_OK /\ output' = output ++ data) \/
  (st = ARMAKE_ERR_IO /\ exists part, output' = output ++ part /\ room h < len output + len data).
Proof.
  unfold write_all. destruct (len data =? 0) eqn:E; bool_hyps.
  - left. destruct data; [by rewrite app_nil_r|]. rewrite len_cons in E. pose proof (len_nonneg data). lia.
  - destruct (_ <=? room h) eqn:Er; bool_hyps; [by left|]. right. split; [done|]. by eexists.
Qed.

Lemma fread_spec path off n b :
  fread h path off n = Some b ->
  exists content, files h !! path = Some content /\ off + n <= len content /\ b = sub off n content.
Proof.
  unfold fread. destruct (files h !! path) as [content|]; [|done].
  destruct (_ && _) eqn:E; [|done]. intros [= <-]. bool_hyps. by exists content.
Qed.

(** The loop ends, and a success has copied the region. *)
Lemma copy_loop_spec path fuel off remaining output :
  remaining <= Z.of_nat fuel -> 0 <= off -> 0 <= remaining ->
  exists st output', copy_loop fuel h path off remaining output = Some (st, output') /\
    ((st = ARMAKE_OK /\ forall content, files h !! path = Some content ->
        output' = output ++ sub off remaining content /\ (off + remaining <= len content \/ remaining = 0)) \/
     st = ARMAKE_ERR_IO).
Proof.
  revert off remaining output. induction fuel as [|fuel IH]; intros off remaining output Hf Ho Hr; cbn [copy_loop];
    rewrite Z.gtb_ltb; destruct (0 <? remaining) eqn:E; bool_hyps; cbn [negb]; try lia.
  1,3: exists ARMAKE_OK, output; split; [done|]; left; split; [done|]; intros content _;
    replace remaining with 0 by lia; split; [by rewrite app_nil_r|by right].
  set (chunk := if remaining >? IO_BUFFER_SIZE then IO_BUFFER_SIZE else remaining).
  assert (Hc : 1 <= chunk <= remaining).
  { unfold chunk, IO_BUFFER_SIZE. rewrite Z.gtb_ltb. destruct (65536 <? remaining) eqn:?; bool_hyps; lia. }
  destruct (fread h path off chunk) as [b|] eqn:Eb; [|by exists ARMAKE_ERR_IO, output; auto].
  apply fread_spec in Eb as (content & Hp & Hl & ->).
  pose proof (write_all_spec output (sub off chunk content)) as Hw. destruct write_all as [st output'].
  destruct Hw as [[-> ->]|[-> _]]; cbn [ARMAKE_OK ARMAKE_ERR_IO Z.eqb negb]; [|by eexists _, _; auto].
  destruct (IH (off + chunk) (remaining - chunk) (output ++ sub off chunk content)) as (st & out & -> & H); try lia.
  exists st, out. split; [done|]. destruct H as [[-> H]| ->]; [|by right]. left. split; [done|].
  intros content' Hp'. rewrite Hp in Hp'. injection Hp' as <-. destruct (H content Hp) as [-> Hle].
  rewrite <- app_assoc, sub_sub by lia. split; [do 2 f_equal; lia|]. lia.
Qed.

(** The whole file and nothing else. *)
Lemma copy_payload_spec path output n :
  0 <= n ->
  exists st output', copy_payload h path output n = Some (st, output') /\
    ((st = ARMAKE_OK /\ exists content, files h !! path = Some content /\ len content = n /\
        output' = output ++ content) \/ st = ARMAKE_ERR_IO).
Proof.
  intros Hn. unfold copy_payload.
  destruct (copy_loop_spec path (Z.to_nat n) 0 n output) as (st & out & -> & H); try lia.
  destruct H as [[-> H]| ->]; cbn [ARMAKE_OK ARMAKE_ERR_IO Z.eqb negb]; [|by eexists _, _; auto].
  unfold at_end. destruct (files h !! path) as [content|] eqn:Hp; [|by eexists _, _; auto].
  destruct (_ && _) eqn:E; cbn [negb]; [|by eexists _, _; auto]. bool_hyps.
  destruct (H content eq_refl) as [-> Hle]. eexists _, _. split; [done|]. left. split; [done|].
  pose proof (len_nonneg content). assert (Hlen : len content = n) by lia.
  exists content. split; [done|]. split; [done|]. by rewrite sub_all.
Qed.
End Copy.

(** ** The request *)

(** An unsigned package of the developer ring, for a profile below sovereign. *)
Lemma valid_unsigned_flags_iff f :
  0 <= f < 2 ^ 32 ->
  valid_unsigned_flags f = true <->
  flags_ok f /\ Z.testbit f 4 = true /\ Z.testbit f 0 = false /\ Z.testbit f 5 = false /\ Z.testbit f 6 = false.
Proof.
  intros Hf. rewrite <- valid_flags_iff by done.
  assert (Hu : valid_unsigned_flags f = true -> f < 256).
  { intros H. apply flags_known; [done|]. unfold valid_unsigned_flags in H. by destruct (flag_set f _). }
  assert (Hv : valid_flags f = true -> f < 256) by (intros H; by apply valid_flags_iff, fl_known in H).
  assert (Hb : f < 256 -> valid_unsigned_flags f =
    valid_flags f && Z.testbit f 4 && negb (Z.testbit f 0) && negb (Z.testbit f 5) && negb (Z.testbit f 6)).
  { intros ?. use_range 256%nat (fun f => Bool.eqb (valid_unsigned_flags f)
      (valid_flags f && Z.testbit f 4 && negb (Z.testbit f 0) && negb (Z.testbit f 5) && negb (Z.testbit f 6))) f Hx.
    by apply eqb_prop. }
  split.
  - intros H. rewrite (Hb (Hu H)), !andb_true_iff, !negb_true_iff in H. tauto.
  - intros (H & H4 & H0 & H5 & H6). by rewrite (Hb (Hv H)), H, H4, H0, H5, H6.
Qed.

Lemma after_last_spec c s r : after_last c s = Some r -> exists d, s = d ++ c :: r /\ c ∉ r.
Proof.
  revert r. induction s as [|x s IH]; intros r; cbn [after_last]; [done|].
  destruct (after_last c s) as [r'|] eqn:E.
  - intros [= <-]. destruct (IH r' eq_refl) as (d & -> & Hr). by exists (x :: d).
  - destruct (x =? c) eqn:Ex; [|done]. intros [= <-]. bool_hyps. subst. exists [].
    split; [done|]. clear IH. induction s as [|y s IH]; [by apply not_elem_of_nil|]. cbn [after_last] in E.
    destruct (after_last c s); [done|]. destruct (y =? c) eqn:Ey; [done|]. bool_hyps.
    apply not_elem_of_cons. auto.
Qed.

Section Manifest.
Context (malloc_ok : request -> bool) (h : host).

(** A manifest that was read is the text of a canonical value. *)
Lemma manifest_read path :
  (forall c, files h !! path = Some c -> bytes_ok c) ->
  exists st m, read_canonical_manifest malloc_ok h path = Ok (st, m) /\
    (st = ARMAKE_OK -> exists v content size, files h !! path = Some content /\ tell h path = Some size /\
       alrios_manifest_canonicalize malloc_ok (Some (sub 0 size content ++ [0])) true (MAX_MANIFEST_SIZE + 1)
         = Ok (JSON_OK, Some (text v ++ [0])) /\
       canonical 0 v /\ m = text v /\ len m <= MAX_MANIFEST_SIZE /\ size <= len content).
Proof.
  intros Hok. unfold read_canonical_manifest.
  destruct (opens h path); cbn [negb]; [|by eexists _, _].
  unfold get_file_size. destruct (tell h path) as [size|]; [|by eexists _, _].
  destruct (size <? 0) eqn:E0; bool_hyps; [by eexists _, _|].
  destruct (_ || (size >? MAX_MANIFEST_SIZE)); [by eexists _, _|].
  destruct (_ || negb (malloc_ok (mk_request Canon_output _ _))); [by eexists _, _|].
  destruct (fread h path 0 size) as [input|] eqn:Er; [|by eexists _, _].
  apply fread_spec in Er as (content & Hp & Hl & ->).
  destruct (can_close h path); cbn [negb]; [|by eexists _, _].
  destruct (existsb _ _); [by eexists _, _|].
  destruct (canonicalize_result malloc_ok (sub 0 size content ++ [0]) true (MAX_MANIFEST_SIZE + 1))
    as (st & out & E & Hst & Hst').
  { apply bytes_ok_app. split; [apply bytes_ok_sub; auto|by repeat constructor]. }
  { left. apply in_or_app. right. by left. }
  { by autounfold with consts. }
  rewrite E. cbn [rbind]. destruct (decide (st = JSON_OK)) as [->|Hne].
  - destruct (Hst eq_refl) as (v & -> & Hv & Hmax). rewrite len_app in Hmax. change (len [0]) with 1 in Hmax.
    cbn [JSON_OK]. rewrite cstr_terminated by by eapply text_no_nul. cbv zeta.
    destruct (_ || _); [by eexists _, _|]. eexists _, _. split; [done|]. intros _. exists v, content, size.
    split_and!; try done; [by apply sub_here|]. rewrite len_sub; [lia|lia|apply len_nonneg|].
    rewrite len_app. change (len [0]) with 1. lia.
  - rewrite (Hst' Hne). destruct st; [done| |]; by eexists _, _.
Qed.
End Manifest.

(** ** A run *)

Section Run.
Context (malloc_ok : request -> bool) (h : host) (mp pp op : bytes) (o : options).
Context (Hok : forall path c, files h !! path = Some c -> bytes_ok c).
#[local] Abbreviation run := (alrios_armake_package_v2 malloc_ok h (Some mp) (Some pp) (Some op) (Some o)).

(** The files of a run that failed. *)
Definition failed (fs : gmap bytes bytes) : Prop :=
  fs = files h \/ files h !! op = None /\ can_unlink h = false /\ exists part, fs = <[op := part]> (files h).

(** The request passed the checks of the builder. *)
Record request_ok : Prop := {
  rq_paths : len mp <> 0 /\ len pp <> 0 /\ len op <> 0 /\ mp <> op /\ pp <> op;
  rq_suffix : has_forbidden_mutable_suffix pp = false;
  rq_arch : valid_architecture (target_arch o) = true;
  rq_flags : valid_unsigned_flags (container_flags o) = true;
  rq_times : issued_at o <> 0 /\ issued_at o < expires_at o;
}.

(** What a run that succeeded has found and written. *)
Record built (fs : gmap bytes bytes) (v : json) (payload : bytes) : Prop := {
  bu_request : request_ok;
  bu_manifest : exists content size, files h !! mp = Some content /\ tell h mp = Some size /\
    size <= len content /\
    alrios_manifest_canonicalize malloc_ok (Some (sub 0 size content ++ [0])) true (MAX_MANIFEST_SIZE + 1)
      = Ok (JSON_OK, Some (text v ++ [0]));
  bu_canonical : canonical 0 v;
  bu_size : len (text v) <= MAX_MANIFEST_SIZE;
  bu_payload : files h !! pp = Some payload /\ len payload <= UINT32_MAX;
  bu_new : files h !! op = None;
  bu_files : fs = <[op := build_header o (len (text v)) (len payload) ++ text v ++ payload]> (files h);
}.

Lemma unlinked_failed output : files h !! op = None -> failed (unlinked h op output).
Proof. intros H. unfold unlinked, failed. destruct (can_unlink h) eqn:E; [by left|right]. eauto. Qed.

Lemma unless_ok_ok st c : unless_ok st c = ARMAKE_OK -> st = ARMAKE_OK.
Proof. unfold unless_ok. destruct (negb c && _); done. Qed.

(** How a run may end. *)
Definition ends_well (r : res (Z * gmap bytes bytes)) : Prop :=
  exists st fs, r = Ok (st, fs) /\
    (st <> ARMAKE_OK -> failed fs) /\ (st = ARMAKE_OK -> exists v payload, built fs v payload).

Lemma ends_early st : st <> ARMAKE_OK -> ends_well (Ok (st, files h)).
Proof. intros Hst. exists st, (files h). split; [done|]. split; [by left|done]. Qed.

Lemma ends_unlinked st out : files h !! op = None -> st <> ARMAKE_OK -> ends_well (Ok (st, unlinked h op out)).
Proof.
  intros Hop Hst. exists st, (unlinked h op out). split; [done|].
  split; [intros _; by apply unlinked_failed|done].
Qed.

Lemma write_container_spec header manifest n :
  0 <= n ->
  exists st out, write_container h pp header manifest n = Some (st, out) /\
    (st = ARMAKE_OK -> exists payload, files h !! pp = Some payload /\ len payload = n /\
       out = header ++ manifest ++ payload).
Proof.
  intros Hn. unfold write_container.
  pose proof (write_all_spec h [] header) as Hw1. destruct write_all as [s1 out1].
  destruct Hw1 as [[-> ->]|[-> _]]; [|by eexists _, _]. cbn [ARMAKE_OK Z.eqb app].
  pose proof (write_all_spec h header manifest) as Hw2. destruct write_all as [s2 out2].
  destruct Hw2 as [[-> ->]|[-> _]]; [|by eexists _, _]. cbn [ARMAKE_OK Z.eqb].
  destruct (copy_payload_spec h pp (header ++ manifest) n Hn) as (st & out & -> & H).
  exists st, out. split; [done|]. destruct H as [[-> (content & Hp & Hl & ->)]| ->]; [|done].
  intros _. exists content. by rewrite app_assoc.
Qed.

Lemma run_spec : ends_well run.
Proof.
  unfold alrios_armake_package_v2.
  destruct (_ || (len op =? 0)) eqn:E1; [by apply ends_early|].
  destruct (_ || (expires_at o <=? issued_at o)) eqn:E2; [by apply ends_early|].
  destruct (has_forbidden_mutable_suffix pp) eqn:E3; [by apply ends_early|].
  destruct (_ || bytes_eqb pp op) eqn:E4; [by apply ends_early|].
  destruct (manifest_read malloc_ok h mp (Hok mp)) as (st & m & -> & Hm). cbn [rbind].
  destruct (st =? ARMAKE_OK) eqn:Est; cbn [negb]; [|apply ends_early; by bool_hyps]. bool_hyps.
  destruct (Hm Est) as (v & content & size & Hmp & Ht & Hcanon & Hv & -> & Hlen & Hsz).
  destruct (opens h pp); cbn [negb]; [|by apply ends_early]. unfold get_file_size.
  destruct (tell h pp) as [n|]; [|by apply ends_early]. destruct (n <? 0) eqn:En; bool_hyps; [by apply ends_early|].
  cbn [ARMAKE_OK Z.eqb negb]. destruct (files h !! op) as [c|] eqn:Hop.
  { rewrite bool_decide_true by by eexists. by apply ends_early. }
  rewrite bool_decide_false by by intros [? ?].
  destruct (creation h =? 0) eqn:Ec; cbn [negb].
  2: { apply ends_early. by destruct (creation h =? EEXIST). }
  destruct (n >? UINT32_MAX) eqn:Emax; [by apply ends_unlinked|]. rewrite Z.gtb_ltb in Emax. bool_hyps. cbv zeta.
  destruct (write_container_spec (build_header o (len (text v)) n) (text v) n) as (s & out & -> & Hs); [done|].
  destruct (_ =? ARMAKE_OK) eqn:Es; cbn [negb]; [|bool_hyps; by apply ends_unlinked]. bool_hyps.
  eexists _, _. split; [done|]. split; [done|]. intros _.
  do 3 apply unless_ok_ok in Es. destruct (Hs Es) as (payload & Hp & Hl & ->). subst n.
  exists v, payload. split; try done; [|by exists content, size].
  split; try done. split_and!; try done; intros ->; by rewrite bytes_eqb_refl in *.
Qed.
End Run.

(** ** What the reader says of a built container *)

Lemma length_header o m n : length (build_header o m n) = 3536%nat.
Proof. reflexivity. Qed.

Lemma request_well_formed o ms payload now skew :
  options_typed o -> valid_architecture (target_arch o) = true -> valid_unsigned_flags (container_flags o) = true ->
  issued_at o <> 0 -> issued_at o < expires_at o -> canonical 0 (JSON_OBJECT ms) ->
  len (text (JSON_OBJECT ms)) <= MAX_MANIFEST_SIZE -> len payload <= UINT32_MAX -> bytes_ok payload ->
  issued_at o <= now + skew /\ now <= expires_at o -> well_formed now skew (unsigned_package o ms payload).
Proof.
  intros [Ha Hf Hi He] Hva Hvf H0 Hlt Hc Hl Hp Hok Hw.
  assert (Hz : forall n, 0 <= n -> len (zeros n) = n /\ bytes_ok (zeros n)).
  { intros n Hn. split; [by apply len_zeros|apply bytes_ok_zeros]. }
  split; cbn; try done; [|by apply valid_arch_iff|by apply valid_unsigned_flags_iff|lia].
  split; cbn; try done; try (by apply Hz). unfold UINT32_MAX in Hp. split; [lia|done].
Qed.

Lemma built_accepted o v payload addr now skew :
  options_typed o -> valid_architecture (target_arch o) = true -> valid_unsigned_flags (container_flags o) = true ->
  issued_at o <> 0 -> issued_at o < expires_at o -> canonical 0 v ->
  len (text v) <= MAX_MANIFEST_SIZE -> len payload <= UINT32_MAX -> bytes_ok payload ->
  let d := build_header o (len (text v)) (len payload) ++ text v ++ payload in
  addr + len d <= UINT64_MAX -> 0 <= now < 2 ^ 64 -> 0 <= skew < 2 ^ 64 ->
  (exists view, alrios_arapp_v2_validate (fun _ => true) (At addr d) (len d) now skew true = Ok (ARAPP_OK, Some view))
  <-> (issued_at o <= now + skew /\ now <= expires_at o) /\ exists ms, v = JSON_OBJECT ms.
Proof.
  intros Ho Hva Hvf H0 Hlt Hc Hl Hp Hok d Ha Hn Hs.
  assert (Hdok : bytes_ok d).
  { apply bytes_ok_app. split; [|apply bytes_ok_app; split; [by eapply text_ok|done]].
    unfold build_header. cbv zeta. repeat (apply bytes_ok_upd; [first [apply store_u16_ok|apply store_u32_ok
      |apply store_u64_ok|by apply bytes_okb_ok; vm_compute]|]). apply bytes_ok_zeros. }
  split.
  - intros (view & Hv). apply validate_accepts_iff in Hv; [|done..].
    destruct Hv as (p & Hwf & Hd & _).
    assert (Hobj : exists ms, v = JSON_OBJECT ms).
    { pose proof (encode_rest p (wf_sized _ _ _ Hwf)) as Hr. rewrite <- Hd in Hr. unfold d in Hr.
      rewrite drop_app_length' in Hr by by rewrite length_header.
      destruct (text v) as [|x t] eqn:Ev; [by pose proof (text_pos 0 v Hc) as Hpos; rewrite Ev in Hpos|].
      unfold manifest_text in Hr. change (text (JSON_OBJECT (p_manifest p))) with
        (123 :: tail (text (JSON_OBJECT (p_manifest p)))) in Hr.
      injection Hr as -> _. by apply (text_object v t). }
    split; [|done]. destruct Hobj as [ms ->].
    assert (E : d = encode (unsigned_package o ms payload)) by apply header_encode.
    assert (Hq : well_formed (issued_at o) 0 (unsigned_package o ms payload)).
    { apply request_well_formed; try done. lia. }
    rewrite E in Hd. apply (encode_inj _ _ _ _ _ _ Hq Hwf) in Hd. subst p. apply Hwf.
  - intros (Hw & ms & ->). exists (view_of (unsigned_package o ms payload)).
    apply validate_accepts_iff; [done..|]. exists (unsigned_package o ms payload).
    split; [by apply request_well_formed|]. split; [apply header_encode|done].
Qed.

(** ** A run on a host where nothing fails *)

Section Success.
Context (h : host).

Lemma fread_all path content off n :
  files h !! path = Some content -> read_error h path = None -> off + n <= len content ->
  fread h path off n = Some (sub off n content).
Proof. intros Hp He Hn. unfold fread. rewrite Hp, He, andb_true_r. by decide_if. Qed.

Lemma write_all_fits output data : len output + len data <= room h -> write_all h output data = (ARMAKE_OK, output ++ data).
Proof.
  intros Hr. unfold write_all. destruct (len data =? 0) eqn:E; bool_hyps; [|by decide_if].
  destruct data; [by rewrite app_nil_r|]. rewrite len_cons in E. pose proof (len_nonneg data). lia.
Qed.

Lemma copy_loop_done path content fuel off remaining output :
  files h !! path = Some content -> read_error h path = None ->
  0 <= off -> 0 <= remaining <= Z.of_nat fuel -> off + remaining <= len content ->
  len output + remaining <= room h ->
  copy_loop fuel h path off remaining output = Some (ARMAKE_OK, output ++ sub off remaining content).
Proof.
  intros Hp He. revert off remaining output. induction fuel as [|fuel IH]; intros off remaining output Ho Hr Hl Hroom;
    cbn [copy_loop]; rewrite Z.gtb_ltb; destruct (0 <? remaining) eqn:E; bool_hyps; cbn [negb]; try lia.
  1,3: by replace remaining with 0 by lia; rewrite app_nil_r.
  set (chunk := if remaining >? IO_BUFFER_SIZE then IO_BUFFER_SIZE else remaining).
  assert (Hc : 1 <= chunk <= remaining).
  { unfold chunk, IO_BUFFER_SIZE. rewrite Z.gtb_ltb. destruct (65536 <? remaining) eqn:?; bool_hyps; lia. }
  rewrite (fread_all path content) by (done || lia).
  pose proof (len_sub off chunk content ltac:(lia) ltac:(lia) ltac:(lia)) as Hs.
  rewrite write_all_fits by lia. cbn [ARMAKE_OK Z.eqb negb].
  rewrite IH by (rewrite ?len_app; lia). rewrite <- app_assoc, sub_sub by lia. do 4 f_equal. lia.
Qed.

(** Nothing fails on the way to the output [op] of [n] octets. *)
Record host_fine (mp pp op : bytes) (manifest payload : bytes) (n : Z) : Prop := {
  hf_manifest : files h !! mp = Some manifest /\ tell h mp = Some (len manifest) /\ read_error h mp = None;
  hf_payload : files h !! pp = Some payload /\ tell h pp = Some (len payload) /\ read_error h pp = None;
  hf_open : can_open h mp = true /\ can_open h pp = true;
  hf_close : can_close h mp = true /\ can_close h pp = true /\ can_close h op = true;
  hf_output : files h !! op = None /\ creation h = 0 /\ n <= room h /\ can_flush h = true;
}.

Lemma opens_fine path content : files h !! path = Some content -> can_open h path = true -> opens h path = true.
Proof. intros Hp Hc. unfold opens. rewrite Hc, Hp. done. Qed.

Lemma manifest_succeeds mp manifest v :
  files h !! mp = Some manifest -> tell h mp = Some (len manifest) -> read_error h mp = None ->
  can_open h mp = true -> can_close h mp = true ->
  1 <= len manifest <= MAX_MANIFEST_SIZE -> no_nul manifest ->
  alrios_manifest_canonicalize (fun _ => true) (Some (manifest ++ [0])) true (MAX_MANIFEST_SIZE + 1)
    = Ok (JSON_OK, Some (text v ++ [0])) ->
  canonical 0 v -> len (text v) <= MAX_MANIFEST_SIZE ->
  read_canonical_manifest (fun _ => true) h mp = Ok (ARMAKE_OK, text v).
Proof.
  intros Hm Ht He Ho Hc Hl Hnn Hcan Hv Hlv. pose proof (text_pos 0 v Hv).
  unfold read_canonical_manifest. rewrite (opens_fine mp manifest) by done. unfold get_file_size. rewrite Ht.
  cbn [negb]. decide_if. cbn [negb ARMAKE_OK Z.eqb orb]. rewrite Z.gtb_ltb. decide_if. cbn [orb].
  rewrite (fread_all mp manifest), sub_full, Hc by (done || lia). cbn [negb].
  rewrite (proj2 (existsb_no_nul manifest) Hnn), Hcan. cbn [rbind].
  change JSON_OK with 0. cbv iota beta zeta. rewrite cstr_terminated by by eapply text_no_nul.
  rewrite !Z.gtb_ltb. unfold UINT32_MAX, MAX_MANIFEST_SIZE in *. decide_if. by rewrite sub_here.
Qed.

Lemma write_container_done path o t payload :
  files h !! path = Some payload -> read_error h path = None -> HEADER_SIZE + len t + len payload <= room h ->
  write_container h path (build_header o (len t) (len payload)) t (len payload)
  = Some (ARMAKE_OK, build_header o (len t) (len payload) ++ t ++ payload).
Proof.
  intros Hp He Hr. pose proof (len_nonneg t). pose proof (len_nonneg payload). unfold write_container.
  assert (Hh : len (build_header o (len t) (len payload)) = HEADER_SIZE) by (unfold len at 1; by rewrite length_header).
  rewrite write_all_fits by (rewrite Hh, len_nil; lia). cbn [ARMAKE_OK Z.eqb app].
  rewrite write_all_fits by (rewrite Hh; lia). cbn [ARMAKE_OK Z.eqb].
  unfold copy_payload. rewrite (copy_loop_done path payload) by (rewrite ?len_app, ?Hh; done || lia).
  cbn [ARMAKE_OK Z.eqb negb]. unfold at_end. rewrite Hp, He, Z.leb_refl. cbn [andb negb].
  by rewrite sub_full, app_assoc.
Qed.

Lemma run_succeeds mp pp op o manifest payload v :
  request_ok mp pp op o ->
  host_fine mp pp op manifest payload (HEADER_SIZE + len (text v) + len payload) ->
  1 <= len manifest <= MAX_MANIFEST_SIZE -> no_nul manifest ->
  alrios_manifest_canonicalize (fun _ => true) (Some (manifest ++ [0])) true (MAX_MANIFEST_SIZE + 1)
    = Ok (JSON_OK, Some (text v ++ [0])) ->
  canonical 0 v -> len (text v) <= MAX_MANIFEST_SIZE -> len payload <= UINT32_MAX ->
  alrios_armake_package_v2 (fun _ => true) h (Some mp) (Some pp) (Some op) (Some o) =
    Ok (ARMAKE_OK, <[op := build_header o (len (text v)) (len payload) ++ text v ++ payload]> (files h)).
Proof.
  intros [(? & ? & ? & Hmo & Hpo) Hsuf Harch Hfl [Hi Hlt]] [(Hm & Htm & Hem) (Hp & Htp & Hep) [Hom Hop] (Hcm & Hcp & Hco) (Hnew & Hcr & Hroom & Hflush)]
    Hlm Hnn Hcan Hv Hlv Hlp.
  pose proof (text_pos 0 v Hv). pose proof (len_nonneg payload).
  unfold alrios_armake_package_v2. decide_if. rewrite Harch, Hfl. cbn [negb orb]. decide_if.
  rewrite Hsuf, (proj2 (bytes_eqb_neq mp op) Hmo), (proj2 (bytes_eqb_neq pp op) Hpo). cbn [orb].
  rewrite (manifest_succeeds mp manifest v) by done. cbn [rbind negb ARMAKE_OK Z.eqb].
  rewrite (opens_fine pp payload) by done. unfold get_file_size. rewrite Htp. cbn [negb]. decide_if.
  cbn [negb ARMAKE_OK Z.eqb]. rewrite Hnew, bool_decide_false by by intros [? ?]. rewrite Hcr. cbn [negb Z.eqb].
  rewrite Z.gtb_ltb. decide_if. cbv zeta.
  rewrite write_container_done by done. rewrite Hcp, Hflush, Hco. done.
Qed.
End Success.


(** ** The example *)

Lemma dev_options_typed : options_typed dev_options.
Proof. by split. Qed.

Lemma good_host_ok manifest payload path c :
  bytes_okb manifest = true -> bytes_okb payload = true ->
  files (good_host manifest payload) !! path = Some c -> bytes_ok c.
Proof.
  intros Hm Hp. cbn. rewrite !lookup_insert_Some, lookup_empty.
  intros [[_ <-]|[_ [[_ <-]|[_ ?]]]]; [by apply bytes_okb_ok..|done].
Qed.

(** The files a build leaves, for a computed status. *)
Lemma built_files (r : res (Z * gmap bytes bytes)) : (match r with Ok (st, _) => st =? ARMAKE_OK | _ => false end) = true ->
  exists fs, r = Ok (ARMAKE_OK, fs).
Proof. destruct r as [[st fs]| |]; [|done|done]. intros ?. bool_hyps. subst. by exists fs. Qed.

(** A manifest that is an array is packaged, and the package is rejected. *)
Lemma array_manifest_rejected :
  (match built_from array_manifest with
   | Ok (st, fs) => (st, match fs !! lit "app.arapp" with
                         | Some d => match alrios_arapp_v2_validate (fun _ => true) (At 0 d) (len d) 1500 300 true with
                                     | Ok (st, _) => st
                                     | _ => 1
                                     end
                         | None => 1
                         end)
   | _ => (1, 1)
   end) = (ARMAKE_OK, ARAPP_ERR_MANIFEST).
Proof. by vm_compute. Qed.

(** ** Properties *)

(** C27: what a successful run has written, under a name that was free, is a header, the
    canonical form of what it read from the manifest file (as many octets as
    [ftell] gave) and the content of the payload file: for a manifest that is an
    object, the encoding of an unsigned package made of both. The reader accepts it
    exactly inside its time window and when the manifest is an object. *)
Theorem built_container_validates malloc_ok h mp pp op o fs :
  options_typed o -> (forall path c, files h !! path = Some c -> bytes_ok c) ->
  alrios_armake_package_v2 malloc_ok h (Some mp) (Some pp) (Some op) (Some o) = Ok (ARMAKE_OK, fs) ->
  exists content size v payload d,
    files h !! mp = Some content /\ tell h mp = Some size /\ size <= len content /\
    alrios_manifest_canonicalize malloc_ok (Some (sub 0 size content ++ [0])) true (MAX_MANIFEST_SIZE + 1)
      = Ok (JSON_OK, Some (text v ++ [0])) /\ canonical 0 v /\
    files h !! pp = Some payload /\ files h !! op = None /\
    fs = <[op := d]> (files h) /\ drop (Z.to_nat HEADER_SIZE) d = text v ++ payload /\
    (forall ms, v = JSON_OBJECT ms -> d = encode (unsigned_package o ms payload)) /\
    forall addr now skew, addr + len d <= UINT64_MAX -> 0 <= now < 2 ^ 64 -> 0 <= skew < 2 ^ 64 ->
      (exists view, alrios_arapp_v2_validate (fun _ => true) (At addr d) (len d) now skew true = Ok (ARAPP_OK, Some view))
      <-> (issued_at o <= now + skew /\ now <= expires_at o) /\ exists ms, v = JSON_OBJECT ms.
Proof.
  intros Ho Hok Hr. destruct (run_spec malloc_ok h mp pp op o Hok) as (st & fs' & E & _ & Hb).
  rewrite Hr in E. injection E as <- <-. destruct (Hb eq_refl) as (v & payload & [[? ? ? ? [? ?]] (content & size & ? & ? & ? & ?) Hv Hl [Hp Hpl] Hn Hfs]).
  exists content, size, v, payload, (build_header o (len (text v)) (len payload) ++ text v ++ payload).
  split_and!; try done.
  - intros ms ->. apply header_encode.
  - intros addr now skew Ha Hnow Hskew. apply built_accepted; try done. by apply (Hok pp).
Qed.

Lemma built_container_validates_witness :
  exists fs d v, built_from object_manifest = Ok (ARMAKE_OK, fs) /\
    fs = <[lit "app.arapp" := d]> (files (good_host object_manifest [1; 2; 3])) /\
    alrios_manifest_canonicalize (fun _ => true) (Some (object_manifest ++ [0])) true (MAX_MANIFEST_SIZE + 1)
      = Ok (JSON_OK, Some (text v ++ [0])) /\
    drop (Z.to_nat HEADER_SIZE) d = text v ++ [1; 2; 3].
Proof.
  destruct (built_files (built_from object_manifest)) as (fs & E); [by vm_compute|].
  destruct (built_container_validates (fun _ => true) (good_host object_manifest [1; 2; 3]) (lit "m.json") (lit "app.bin")
    (lit "app.arapp") dev_options fs dev_options_typed) as (content & size & v & payload & d & Hm & Ht & _ & Hc & _ & Hp & _ & Hfs & Hd & _).
  - intros path c. by apply good_host_ok.
  - exact E.
  - exists fs, d, v. injection Hm as <-. injection Ht as <-. injection Hp as <-.
    exact (conj E (conj Hfs (conj Hc Hd))).
Defined.

(** A run ends, whatever fails on the way, and is all or nothing: on any failure
    the files are as they were, unless the output cannot be unlinked; the output's
    name was free then, so no file is ever overwritten. *)
Theorem build_all_or_nothing malloc_ok h mp pp op o :
  (forall path c, files h !! path = Some c -> bytes_ok c) ->
  exists st fs, alrios_armake_package_v2 malloc_ok h (Some mp) (Some pp) (Some op) (Some o) = Ok (st, fs) /\
    (forall path, path <> op \/ is_Some (files h !! op) -> fs !! path = files h !! path) /\
    (st <> ARMAKE_OK -> can_unlink h = true -> fs = files h).
Proof.
  intros Hok. destruct (run_spec malloc_ok h mp pp op o Hok) as (st & fs & E & Hf & Hb).
  exists st, fs. split; [done|]. destruct (decide (st = ARMAKE_OK)) as [->|Hne].
  - destruct (Hb eq_refl) as (v & payload & [_ _ _ _ _ Hn ->]). split; [|done].
    intros path [Hp|[? Hs]]; [by apply lookup_insert_ne|by rewrite Hn in Hs].
  - destruct (Hf Hne) as [->|(Hn & Hu & part & ->)]; [done|]. split; [|by rewrite Hu].
    intros path [Hp|[? Hs]]; [by apply lookup_insert_ne|by rewrite Hn in Hs].
Qed.

Lemma build_all_or_nothing_witness :
  exists st fs, built_from array_manifest = Ok (st, fs) /\
    (forall path, path <> lit "app.arapp" \/ is_Some (files (good_host array_manifest [1; 2; 3]) !! lit "app.arapp") ->
       fs !! path = files (good_host array_manifest [1; 2; 3]) !! path) /\
    (st <> ARMAKE_OK -> can_unlink (good_host array_manifest [1; 2; 3]) = true ->
       fs = files (good_host array_manifest [1; 2; 3])).
Proof.
  apply (build_all_or_nothing (fun _ => true) (good_host array_manifest [1; 2; 3]) (lit "m.json") (lit "app.bin")
    (lit "app.arapp") dev_options). intros path c. by apply good_host_ok.
Defined.

(** A request that passes the checks succeeds on a host where nothing fails. *)
Theorem build_succeeds h mp pp op o manifest payload v :
  request_ok mp pp op o ->
  host_fine h mp pp op manifest payload (HEADER_SIZE + len (text v) + len payload) ->
  1 <= len manifest <= MAX_MANIFEST_SIZE -> no_nul manifest ->
  alrios_manifest_canonicalize (fun _ => true) (Some (manifest ++ [0])) true (MAX_MANIFEST_SIZE + 1)
    = Ok (JSON_OK, Some (text v ++ [0])) ->
  canonical 0 v -> len (text v) <= MAX_MANIFEST_SIZE -> len payload <= UINT32_MAX ->
  exists d, alrios_armake_package_v2 (fun _ => true) h (Some mp) (Some pp) (Some op) (Some o) =
    Ok (ARMAKE_OK, <[op := d]> (files h)) /\
    len d = HEADER_SIZE + len (text v) + len payload /\
    (forall ms, v = JSON_OBJECT ms -> d = encode (unsigned_package o ms payload)).
Proof.
  intros Hr Hh Hl Hn Hc Hv Hlv Hlp. eexists. split; [by apply (run_succeeds h mp pp op o manifest payload v)|].
  split; [|intros ms ->; apply header_encode].
  rewrite !len_app. unfold len at 1. rewrite length_header. unfold HEADER_SIZE, PREFIX_SIZE, SIGNATURES_SIZE. lia.
Qed.

Lemma build_succeeds_witness :
  exists d, built_from array_manifest =
    Ok (ARMAKE_OK, <[lit "app.arapp" := d]> (files (good_host array_manifest [1; 2; 3]))) /\
    len d = HEADER_SIZE + len (text (JSON_ARRAY [])) + 3.
Proof.
  destruct (build_succeeds (good_host array_manifest [1; 2; 3]) (lit "m.json") (lit "app.bin") (lit "app.arapp")
    dev_options array_manifest [1; 2; 3] (JSON_ARRAY [])) as (d & E & Hl & _).
  - split; try done; by vm_compute.
  - split; try done; by vm_compute.
  - by vm_compute.
  - by apply no_nul_check.
  - by vm_compute.
  - by constructor.
  - by vm_compute.
  - by vm_compute.
  - exists d. exact (conj E Hl).
Defined.
