(* ===== verification/PackageIndex.v ===== *)
(** The signed file index of a package (src/libraries/package/index.c and the
    directory builder of index_writer.c).

    A directory is a tree [node] that does not change during a call; [io_ok] says of
    which relative paths the system calls succeed, [opened] and [same] whether [openat] finds
    the file that [fstatat] saw, and [reads] what the calls of [read] answer.
    SHA-256 and Ed25519 are the library's (EVP): [IndexCrypto] and its laws. The
    specification of a wire image is the encoder [index_wire]. *)

From stdpp Require Import sorting.
From S2P Require Import Prelude Bytes EvpApi.
#[local] Open Scope Z_scope.

Definition INDEX_VERSION : Z := 1.

Definition INDEX_HEADER_SIZE : Z := 144.

Definition ENTRY_PREFIX_SIZE : Z := 52.

Definition INDEX_MAX_PATH_SIZE : Z := 1024.

Definition INDEX_MAX_FILES : Z := 100000.

Definition INDEX_MAX_WIRE_SIZE : Z := 64 * 1024 * 1024.

Definition INDEX_FLAG_ED25519 : Z := Z.shiftl 1 0.

Definition INDEX_SIGNED_HEADER_SIZE : Z := 80.

Definition INDEX_OK : Z := 0.

Definition INDEX_ERR_ARGUMENT : Z := -4001.

Definition INDEX_ERR_IO : Z := -4002.

Definition INDEX_ERR_MEMORY : Z := -4003.

Definition INDEX_ERR_LIMIT : Z := -4004.

Definition INDEX_ERR_PATH : Z := -4005.

Definition INDEX_ERR_MUTABLE : Z := -4006.

Definition INDEX_ERR_SYMLINK : Z := -4007.

Definition INDEX_ERR_FILE_TYPE : Z := -4008.

Definition INDEX_ERR_CRYPTO : Z := -4009.

Definition INDEX_ERR_FORMAT : Z := -4010.

Definition INDEX_ERR_SIGNATURE : Z := -4011.

Definition INDEX_ERR_HASH : Z := -4012.

Definition INDEX_ERR_UNSUPPORTED : Z := -4013.

Definition INDEX_ERR_CHANGED : Z := -4014.

Definition index_magic : bytes := lit "ARAPPINDEXv1" ++ zeros 4.

(** ** What the code uses of OpenSSL *)

Class IndexCrypto := {
  (** Does [EVP_MD_CTX_new] return a context? *)
  md_ctx : bool;
  (** [EVP_DigestInit_ex(EVP_sha256)], one update per element, [EVP_DigestFinal_ex]. *)
  sha256 : list bytes -> option bytes;
  (** [EVP_PKEY_new_raw_private_key], [EVP_DigestSignInit], [EVP_DigestSign] into 64 octets. *)
  ed25519_sign : bytes -> bytes -> option bytes;
  (** [EVP_PKEY_new_raw_public_key], [EVP_DigestVerifyInit], [EVP_DigestVerify] on a
      key, a signature and a message. *)
  ed25519_verify : bytes -> bytes -> bytes -> bool;
}.

Class IndexLaws (c : IndexCrypto) (public_key : bytes -> bytes) := {
  sha256_len parts digest : sha256 parts = Some digest -> len digest = 32 /\ bytes_ok digest;
  sha256_concat parts parts' : concat parts = concat parts' -> sha256 parts = sha256 parts';
  sign_ok k m s : ed25519_sign k m = Some s -> bytes_ok s;
  sign_verify k m s : ed25519_sign k m = Some s -> ed25519_verify (public_key k) s m = true;
}.

(** ** Data *)

Record index_entry := mk_entry {
  e_path : bytes;
  e_size : Z;
  e_mode : Z;
  e_sha256 : bytes;
}.

Record package_index := mk_index {
  file_count : Z;
  total_uncompressed_size : Z;
  entries : list index_entry;
}.

Definition empty_index : package_index := mk_index 0 0 [].

Record build_entries := mk_build {
  items : list index_entry;
  capacity : Z;
  total_size : Z;
}.

(** A directory and what its names stand for, in the order [readdir] gives them. *)
Inductive node :=
  | Regular (mode : Z) (content : bytes)
  | Directory (d : dir)
  | Symlink
  | Special
with dir :=
  | dir_end
  | dir_item (name : bytes) (n : node) (d : dir).

(** What one [read] of a file answers before its end: octets, EINTR, or another error. *)
Inductive reading := Received (piece : bytes) | Interrupted | ReadError.

Definition SLASH : Z := 47.

Definition BACKSLASH : Z := 92.

(** ** Paths *)

Definition checked_add_size (left right : Z) : option Z :=
  if right >? SIZE_MAX - left then None else Some (left + right).

(** The loop of [valid_path]: [rest] is the path from [index] on, [segment] the bytes
    from [segment_start] to [index]. *)
Fixpoint valid_path_loop (rest segment : bytes) : bool :=
  let bad_segment :=
    (len segment =? 0) || bytes_eqb segment (lit ".") || bytes_eqb segment (lit "..") in
  match rest with
  | [] => negb bad_segment
  | value :: rest =>
      if (value =? BACKSLASH) || (value <? 32) || (value =? 127) then false
      else if value =? SLASH then (if bad_segment then false else valid_path_loop rest [])
      else valid_path_loop rest (segment ++ [value])
  end.

Definition valid_path (path : bytes) : bool :=
  let path_size := len path in
  if (path_size =? 0) || (path_size >=? INDEX_MAX_PATH_SIZE)
     || (at_ path 0 =? SLASH) || (at_ path 0 =? BACKSLASH)
     || (at_ path (path_size - 1) =? SLASH) || (at_ path (path_size - 1) =? BACKSLASH)
     || existsb (fun c => c =? 0) path
  then false
  else valid_path_loop path [].

Definition ascii_lower (x : Z) : Z := if (x >=? 65) && (x <=? 90) then x + (97 - 65) else x.

Definition ascii_equal_case_insensitive (left right : bytes) : bool :=
  bytes_eqb (map ascii_lower left) (map ascii_lower right).

Definition mutable_extensions : list bytes :=
  [lit ".db"; lit ".sqlite"; lit ".session"; lit ".lock"; lit ".wal"; lit ".shm"; lit ".log"; lit ".tmp"].

Definition alrios_package_index_path_is_mutable (normalized_path : option bytes) : bool :=
  match normalized_path with
  | None => true
  | Some path =>
      if negb (valid_path path) then true
      else
        existsb (fun extension =>
          (len path >=? len extension)
          && ascii_equal_case_insensitive (drop (Z.to_nat (len path - len extension)) path) extension)
          mutable_extensions
  end.

(** [strcmp(a, b) < 0]. *)
Fixpoint strcmp_lt (a b : bytes) : bool :=
  match a, b with
  | [], [] => false
  | [], _ :: _ => true
  | _ :: _, [] => false
  | x :: a, y :: b => if x =? y then strcmp_lt a b else x <? y
  end.

Section Index.
Context {crypto : IndexCrypto}.
(** Does [malloc], [calloc] or [realloc] serve a request of this size? *)
Context (malloc_ok : Z -> bool).
(** The calls of [read] on the file with this relative path and content, up to its end. *)
Context (reads : bytes -> bytes -> list reading).
(** [openat] of an item of a directory succeeds. *)
Context (opened : bytes -> bool).
(** What is opened at this relative path is the file that [fstatat] saw: [fstat] succeeds,
    and it is regular with the same device, inode and size. *)
Context (same : bytes -> bool).
(** The system calls on this relative path succeed. *)
Context (io_ok : bytes -> bool).
(** [errno] of a failed opening is ELOOP. *)
Context (eloop : bytes -> bool).

(** ** Digests and signatures *)

(** Status and digest. *)
Definition sha256_memory (data : bytes) : Z * bytes :=
  if negb md_ctx then (INDEX_ERR_MEMORY, [])
  else
    match sha256 (if len data =? 0 then [] else [data]) with
    | Some digest => if len digest =? 32 then (INDEX_OK, digest) else (INDEX_ERR_CRYPTO, [])
    | None => (INDEX_ERR_CRYPTO, [])
    end.

(** The loop of [sha256_fd]: the pieces taken, or the status. *)
Fixpoint sha256_fd_loop (rest : list reading) (total expected_size : Z) (taken : list bytes) : Z + list bytes :=
  match rest with
  | [] => if negb (total =? expected_size) then inl INDEX_ERR_CHANGED else inr taken
  | Interrupted :: rest => sha256_fd_loop rest total expected_size taken
  | ReadError :: _ => inl INDEX_ERR_IO
  | Received piece :: rest =>
      if len piece >? UINT64_MAX - total then inl INDEX_ERR_LIMIT
      else
        let total := total + len piece in
        if total >? expected_size then inl INDEX_ERR_CHANGED
        else sha256_fd_loop rest total expected_size (taken ++ [piece])
  end.

(** [path] and [content] say what file the descriptor is open on. *)
Definition sha256_fd (path content : bytes) (expected_size : Z) : Z * bytes :=
  if negb md_ctx then (INDEX_ERR_CRYPTO, [])
  else
    match sha256_fd_loop (reads path content) 0 expected_size [] with
    | inl status => (status, [])
    | inr taken =>
        match sha256 taken with
        | Some digest => if len digest =? 32 then (INDEX_OK, digest) else (INDEX_ERR_CRYPTO, [])
        | None => (INDEX_ERR_CRYPTO, [])
        end
    end.

(** The octets the signature covers. *)
Definition signed_message (wire : bytes) (wire_size : Z) : res bytes :=
  let! header := rd 0 INDEX_SIGNED_HEADER_SIZE wire in
  let! stream := rd INDEX_HEADER_SIZE (wire_size - INDEX_HEADER_SIZE) wire in
  Ok (header ++ stream).

Definition verify_signature (public_key wire : bytes) (wire_size : Z) : res Z :=
  match checked_add_size INDEX_SIGNED_HEADER_SIZE (wire_size - INDEX_HEADER_SIZE) with
  | None => Ok INDEX_ERR_LIMIT
  | Some message_size =>
      if negb (malloc_ok (if message_size =? 0 then 1 else message_size)) then Ok INDEX_ERR_MEMORY
      else
        let! message := signed_message wire wire_size in
        let! signature := rd 80 64 wire in
        if md_ctx && ed25519_verify public_key signature message then Ok INDEX_OK else Ok INDEX_ERR_SIGNATURE
  end.

(** ** Reading an index *)

(** The entry at [cursor], after [previous]: the entry and the size of its path, or
    the status. *)
Definition parse_entry (cursor : bytes) (previous : option bytes) : res (index_entry * Z) :=
  fail_if len cursor <? ENTRY_PREFIX_SIZE with INDEX_ERR_FORMAT;;
  let! b_path_size := rd 0 2 cursor in
  let! b_zero := rd 2 2 cursor in
  let! b_mode := rd 4 4 cursor in
  let! b_size := rd 8 8 cursor in
  let! b_sha := rd 16 32 cursor in
  let! b_reserved := rd 48 4 cursor in
  let path_size := load_u16_be b_path_size in
  let unix_mode := load_u32_be b_mode in
  fail_if negb (load_u16_be b_zero =? 0) || negb (load_u32_be b_reserved =? 0)
          || (path_size =? 0) || (path_size >=? INDEX_MAX_PATH_SIZE)
          || (len cursor - ENTRY_PREFIX_SIZE <? path_size) with INDEX_ERR_FORMAT;;
  fail_if negb (Z.land unix_mode (u32 (Z.lnot 511)) =? 0) with INDEX_ERR_FORMAT;;
  let! path := rd ENTRY_PREFIX_SIZE path_size cursor in
  fail_if negb (valid_path path) with INDEX_ERR_PATH;;
  fail_if negb (malloc_ok (path_size + 1)) with INDEX_ERR_MEMORY;;
  fail_if alrios_package_index_path_is_mutable (Some path) with INDEX_ERR_MUTABLE;;
  fail_if match previous with Some p => negb (strcmp_lt p path) | None => false end with INDEX_ERR_FORMAT;;
  Ok (mk_entry path (load_u64_be b_size) unix_mode b_sha, path_size).

(** The loop over the entries: what it read, the rest and the total. *)
Fixpoint parse_entries (n : nat) (cursor : bytes) (computed_total : Z) (previous : option bytes)
    : res (list index_entry * bytes * Z) :=
  match n with
  | O => Ok ([], cursor, computed_total)
  | S n =>
      let! (entry, path_size) := parse_entry cursor previous in
      fail_if e_size entry >? UINT64_MAX - computed_total with INDEX_ERR_LIMIT;;
      let! (es, rest, total) :=
        parse_entries n (drop (Z.to_nat (ENTRY_PREFIX_SIZE + path_size)) cursor)
          (computed_total + e_size entry) (Some (e_path entry)) in
      Ok (entry :: es, rest, total)
  end.

(** From the entries on: the index. *)
Definition parse_index (wire : bytes) (wire_size file_count_ total_size : Z) : res package_index :=
  fail_if (file_count_ >? 0) && negb (malloc_ok (file_count_ * 56)) with INDEX_ERR_MEMORY;;
  let! stream := rd INDEX_HEADER_SIZE (wire_size - INDEX_HEADER_SIZE) wire in
  let! (es, rest, computed_total) := parse_entries (Z.to_nat file_count_) stream 0 None in
  fail_if negb (len rest =? 0) || negb (computed_total =? total_size) with INDEX_ERR_FORMAT;;
  Ok (mk_index file_count_ total_size es).

(** The checks of the header, the digest and the signature, then the entries. *)
Definition parse_and_verify (wire : bytes) (wire_size : Z) (expected_public_key : bytes) : res package_index :=
  fail_if (wire_size <? INDEX_HEADER_SIZE) || (wire_size >? INDEX_MAX_WIRE_SIZE) with INDEX_ERR_FORMAT;;
  let! magic := rd 0 16 wire in
  fail_if negb (bytes_eqb magic index_magic) with INDEX_ERR_FORMAT;;
  let! b_version := rd 16 2 wire in
  let! b_header_size := rd 18 2 wire in
  let! b_flags := rd 20 4 wire in
  let! b_file_count := rd 24 4 wire in
  let! b_total := rd 32 8 wire in
  let! b_pad1 := rd 28 4 wire in
  let! b_pad2 := rd 72 8 wire in
  let file_count_ := load_u32_be b_file_count in
  fail_if negb (load_u16_be b_version =? INDEX_VERSION)
          || negb (load_u16_be b_header_size =? INDEX_HEADER_SIZE)
          || negb (load_u32_be b_flags =? INDEX_FLAG_ED25519)
          || (file_count_ >? INDEX_MAX_FILES)
          || existsb (fun c => negb (c =? 0)) b_pad1 || existsb (fun c => negb (c =? 0)) b_pad2
    with INDEX_ERR_UNSUPPORTED;;
  let! stream := rd INDEX_HEADER_SIZE (wire_size - INDEX_HEADER_SIZE) wire in
  let '(result, entry_digest) := sha256_memory stream in
  let! b_digest := rd 40 32 wire in
  fail_if negb (result =? INDEX_OK) with result;;
  fail_if negb (bytes_eqb entry_digest b_digest) with INDEX_ERR_HASH;;
  let! result := verify_signature expected_public_key wire wire_size in
  fail_if negb (result =? INDEX_OK) with result;;
  parse_index wire wire_size file_count_ (load_u64_be b_total).

(** Status and [*out_index]: zeroed on every failure after the argument checks. *)
Definition alrios_package_index_parse_and_verify (wire : option bytes) (wire_size : Z)
    (expected_public_key : option bytes) (out_index : option package_index) : res (Z * option package_index) :=
  match wire, expected_public_key, out_index with
  | Some wire, Some key, Some _ =>
      match parse_and_verify wire wire_size key with
      | Ok index => Ok (INDEX_OK, Some index)
      | Err status => Ok (status, Some empty_index)
      | Fault => Fault
      end
  | _, _, _ => Ok (INDEX_ERR_ARGUMENT, out_index)
  end.

(** ** Building an index *)

(** The growth of the array: the new capacity, if it is enough. *)
Definition grown_capacity (capacity_ : Z) : option Z :=
  let new_capacity := if capacity_ =? 0 then 32 else u64 (capacity_ * 2) in
  let new_capacity :=
    if (new_capacity <? capacity_) || (new_capacity >? INDEX_MAX_FILES)
       || (new_capacity >? SIZE_MAX / 56)
    then INDEX_MAX_FILES else new_capacity in
  if new_capacity <=? capacity_ then None else Some new_capacity.

(** The room for one more entry, or the status. *)
Definition make_room (es : build_entries) : Z + Z :=
  if len (items es) =? capacity es then
    match grown_capacity (capacity es) with
    | None => inl INDEX_ERR_LIMIT
    | Some new_capacity => if malloc_ok (new_capacity * 56) then inr new_capacity else inl INDEX_ERR_MEMORY
    end
  else inr (capacity es).

(** [mode] and [content] are what [fstat] and [read] tell of the open file. *)
Definition append_entry (es : build_entries) (path : bytes) (mode : Z) (content : bytes) : Z * build_entries :=
  let path_size := len path in
  if (path_size =? 0) || (path_size >=? INDEX_MAX_PATH_SIZE) then (INDEX_ERR_PATH, es)
  else if alrios_package_index_path_is_mutable (Some path) then (INDEX_ERR_MUTABLE, es)
  else if len (items es) >=? INDEX_MAX_FILES then (INDEX_ERR_LIMIT, es)
  else if len content >? UINT64_MAX - total_size es then (INDEX_ERR_LIMIT, es)
  else
    match make_room es with
    | inl status => (status, es)
    | inr room =>
        let es := mk_build (items es) room (total_size es) in
        if negb (malloc_ok (path_size + 1)) then (INDEX_ERR_MEMORY, es)
        else
          let '(result, digest) := sha256_fd path content (len content) in
          if negb (result =? INDEX_OK) then (result, es)
          else
            let entry := mk_entry path (len content) (Z.land mode 511) digest in
            (INDEX_OK, mk_build (items es ++ [entry]) room (total_size es + len content))
    end.

(** Status and path. *)
Definition join_relative_path (prefix name : bytes) : Z * bytes :=
  let prefix_size := len prefix in
  let name_size := len name in
  if (name_size =? 0) || existsb (fun c => c =? SLASH) name || existsb (fun c => c =? BACKSLASH) name
     || bytes_eqb name (lit ".") || bytes_eqb name (lit "..")
  then (INDEX_ERR_PATH, [])
  else
    match checked_add_size prefix_size (if prefix_size =? 0 then 0 else 1) with
    | None => (INDEX_ERR_PATH, [])
    | Some path_size =>
        match checked_add_size path_size name_size with
        | None => (INDEX_ERR_PATH, [])
        | Some path_size =>
            if path_size >=? INDEX_MAX_PATH_SIZE then (INDEX_ERR_PATH, [])
            else if negb (malloc_ok (path_size + 1)) then (INDEX_ERR_MEMORY, [])
            else (INDEX_OK, if prefix_size =? 0 then name else prefix ++ [SLASH] ++ name)
        end
    end.

(** The names the walk passes over. *)
Definition skipped_name (name : bytes) : bool :=
  bytes_eqb name (lit ".") || bytes_eqb name (lit "..") || bytes_eqb name (lit ".arapp.index").

(** The loop over the items of a directory, and what it does with one of them. *)
Fixpoint collect_directory (d : dir) (prefix : bytes) (es : build_entries) : Z * build_entries :=
  match d with
  | dir_end => (INDEX_OK, es)
  | dir_item name n d =>
      if skipped_name name then collect_directory d prefix es
      else
        let '(result, relative_path) := join_relative_path prefix name in
        if negb (result =? INDEX_OK) then (result, es)
        else if negb (io_ok relative_path) then (INDEX_ERR_IO, es)
        else
          let '(result, es) := collect_item n relative_path es in
          if negb (result =? INDEX_OK) then (result, es) else collect_directory d prefix es
  end
with collect_item (n : node) (relative_path : bytes) (es : build_entries) : Z * build_entries :=
  match n with
  | Symlink => (INDEX_ERR_SYMLINK, es)
  | Directory d =>
      if negb (opened relative_path) then (if eloop relative_path then INDEX_ERR_SYMLINK else INDEX_ERR_IO, es)
      else collect_directory d relative_path es
  | Special => (INDEX_ERR_FILE_TYPE, es)
  | Regular mode content =>
      if negb (opened relative_path) then (if eloop relative_path then INDEX_ERR_SYMLINK else INDEX_ERR_IO, es)
      else if negb (same relative_path) then (INDEX_ERR_CHANGED, es) else append_entry es relative_path mode content
  end.

(** [qsort] by [compare_entries]. *)
Definition entry_le (a b : index_entry) : Prop := strcmp_lt (e_path b) (e_path a) = false.

#[global] Instance entry_le_dec : RelDecision entry_le.
Proof. intros a b. unfold entry_le. apply _. Defined.

Definition sort_entries (es : list index_entry) : list index_entry := merge_sort entry_le es.

(** The sum of the sizes of the entries and the test of their order; the size, or
    the status. *)
Fixpoint entries_size_loop (es : list index_entry) (previous : option bytes) (entries_size : Z) : Z + Z :=
  match es with
  | [] => inr entries_size
  | e :: es =>
      match checked_add_size ENTRY_PREFIX_SIZE (len (e_path e)) with
      | None => inl INDEX_ERR_LIMIT
      | Some entry_size =>
          match checked_add_size entries_size entry_size with
          | None => inl INDEX_ERR_LIMIT
          | Some entries_size =>
              if match previous with Some p => negb (strcmp_lt p (e_path e)) | None => false end
              then inl INDEX_ERR_PATH
              else entries_size_loop es (Some (e_path e)) entries_size
          end
      end
  end.

(** One entry, written over [ENTRY_PREFIX_SIZE] zeros. *)
Definition encode_entry (e : index_entry) : bytes :=
  let cursor := zeros ENTRY_PREFIX_SIZE in
  let cursor := upd 0 (store_u16_be (len (e_path e))) cursor in
  let cursor := upd 4 (store_u32_be (e_mode e)) cursor in
  let cursor := upd 8 (store_u64_be (e_size e)) cursor in
  let cursor := upd 16 (e_sha256 e) cursor in
  upd 48 (store_u32_be 0) cursor ++ e_path e.

(** The stream of the entries in a buffer of [output_size] octets, or the status. *)
Fixpoint encode_entries (es : list index_entry) (output_size offset : Z) : Z + bytes :=
  match es with
  | [] => if offset =? output_size then inr [] else inl INDEX_ERR_FORMAT
  | e :: es =>
      let path_size := len (e_path e) in
      if path_size >? UINT16_MAX then inl INDEX_ERR_LIMIT
      else
        match checked_add_size ENTRY_PREFIX_SIZE path_size with
        | None => inl INDEX_ERR_LIMIT
        | Some entry_size =>
            if entry_size >? output_size - offset then inl INDEX_ERR_LIMIT
            else
              match encode_entries es output_size (offset + entry_size) with
              | inl status => inl status
              | inr rest => inr (encode_entry e ++ rest)
              end
        end
  end.

(** The 144 octets before the entries, with digest and signature still empty. *)
Definition index_header (count total : Z) : bytes :=
  let wire := zeros INDEX_HEADER_SIZE in
  let wire := upd 0 index_magic wire in
  let wire := upd 16 (store_u16_be INDEX_VERSION) wire in
  let wire := upd 18 (store_u16_be INDEX_HEADER_SIZE) wire in
  let wire := upd 20 (store_u32_be INDEX_FLAG_ED25519) wire in
  let wire := upd 24 (store_u32_be count) wire in
  upd 32 (store_u64_be total) wire.

(** Status and the signed image. *)
Definition sign_wire (wire : bytes) (wire_size : Z) (private_key : bytes) : res (Z * bytes) :=
  match checked_add_size INDEX_SIGNED_HEADER_SIZE (wire_size - INDEX_HEADER_SIZE) with
  | None => Ok (INDEX_ERR_LIMIT, wire)
  | Some message_size =>
      if negb (malloc_ok (if message_size =? 0 then 1 else message_size)) then Ok (INDEX_ERR_MEMORY, wire)
      else
        let! message := signed_message wire wire_size in
        if negb md_ctx then Ok (INDEX_ERR_CRYPTO, wire)
        else
          match ed25519_sign private_key message with
          | None => Ok (INDEX_ERR_CRYPTO, wire)
          | Some signature =>
              let wire := upd 80 signature wire in
              if len signature =? 64 then Ok (INDEX_OK, wire) else Ok (INDEX_ERR_CRYPTO, wire)
          end
  end.

(** The image of a sorted list of entries. *)
Definition build_wire (es : list index_entry) (entries_size total : Z) (private_key : bytes) : res (Z * bytes) :=
  match checked_add_size INDEX_HEADER_SIZE entries_size with
  | None => Ok (INDEX_ERR_LIMIT, [])
  | Some wire_size =>
      if (wire_size >? INDEX_MAX_WIRE_SIZE) || (len es >? UINT32_MAX) then Ok (INDEX_ERR_LIMIT, [])
      else if negb (malloc_ok wire_size) then Ok (INDEX_ERR_MEMORY, [])
      else
        match encode_entries es entries_size 0 with
        | inl status => Ok (status, [])
        | inr stream =>
            let '(result, digest) := sha256_memory stream in
            if negb (result =? INDEX_OK) then Ok (result, [])
            else
              let wire := upd 40 digest (index_header (len es) total ++ stream) in
              let! (result, wire) := sign_wire wire wire_size private_key in
              if negb (result =? INDEX_OK) then Ok (result, []) else Ok (INDEX_OK, wire)
        end
  end.

(** [root] is what [root_directory] names; status and the image. *)
Definition alrios_package_index_build_directory (root_directory : option bytes) (root : option node)
    (private_key : option bytes) : res (Z * bytes) :=
  match root_directory, private_key with
  | Some name, Some key =>
      if len name =? 0 then Ok (INDEX_ERR_ARGUMENT, [])
      else
        match root with
        | Some (Directory d) =>
            let '(result, es) := if io_ok [] then collect_directory d [] (mk_build [] 0 0) else (INDEX_ERR_IO, mk_build [] 0 0) in
            if negb (result =? INDEX_OK) then Ok (result, [])
            else
              let sorted := sort_entries (items es) in
              match entries_size_loop sorted None 0 with
              | inl status => Ok (status, [])
              | inr entries_size => build_wire sorted entries_size (total_size es) key
              end
        | _ => Ok (if eloop [] then INDEX_ERR_SYMLINK else INDEX_ERR_IO, [])
        end
  | _, _ => Ok (INDEX_ERR_ARGUMENT, [])
  end.

(** ** Comparing a directory with an index *)

(** The path cut at its slashes. *)
Fixpoint segments (path : bytes) : list bytes :=
  match path with
  | [] => [[]]
  | c :: path =>
      if c =? SLASH then [] :: segments path
      else match segments path with s :: l => (c :: s) :: l | [] => [[c]] end
  end.

(** [openat] by name. *)
Fixpoint find (d : dir) (name : bytes) : option node :=
  match d with
  | dir_end => None
  | dir_item x n d => if bytes_eqb x name then Some n else find d name
  end.

(** The directories are opened one after the other; no symbolic link is followed. *)
Fixpoint open_segments (n : node) (segs : list bytes) : option (Z * bytes) :=
  match segs, n with
  | [name], Directory d =>
      match find d name with Some (Regular mode content) => Some (mode, content) | _ => None end
  | name :: segs, Directory d =>
      match find d name with Some child => open_segments child segs | None => None end
  | _, _ => None
  end.

(** Mode and content of the regular file. *)
Definition open_relative_regular_file (root : node) (path : bytes) : option (Z * bytes) :=
  if negb (malloc_ok (len path + 1)) || negb (io_ok path) then None else open_segments root (segments path).

Definition verify_entry (root : node) (entry : index_entry) : Z :=
  if alrios_package_index_path_is_mutable (Some (e_path entry)) then INDEX_ERR_MUTABLE
  else
    match open_relative_regular_file root (e_path entry) with
    | None => if eloop (e_path entry) then INDEX_ERR_SYMLINK else INDEX_ERR_IO
    | Some (mode, content) =>
        if negb (len content =? e_size entry) || negb (Z.land mode 511 =? e_mode entry) then INDEX_ERR_CHANGED
        else
          let '(result, digest) := sha256_fd (e_path entry) content (e_size entry) in
          if negb (result =? INDEX_OK) then result
          else if negb (bytes_eqb digest (e_sha256 entry)) then INDEX_ERR_HASH
          else INDEX_OK
    end.

(** The loop over the entries. *)
Fixpoint verify_entries (root : node) (es : list index_entry) : Z :=
  match es with
  | [] => INDEX_OK
  | e :: es =>
      let result := verify_entry root e in
      if negb (result =? INDEX_OK) then result else verify_entries root es
  end.

Definition alrios_package_index_verify_directory (index : option package_index) (root_directory : option bytes)
    (root : option node) : Z :=
  match index, root_directory with
  | Some index, Some name =>
      if len name =? 0 then INDEX_ERR_ARGUMENT
      else
        match root with
        | Some (Directory d) => if io_ok [] then verify_entries (Directory d) (entries index) else INDEX_ERR_IO
        | _ => if eloop [] then INDEX_ERR_SYMLINK else INDEX_ERR_IO
        end
  | _, _ => INDEX_ERR_ARGUMENT
  end.
End Index.

(** ** Specification *)

(** The octets of an entry and of an index. *)
Definition entry_wire (e : index_entry) : bytes :=
  store_u16_be (len (e_path e)) ++ zeros 2 ++ store_u32_be (e_mode e) ++ store_u64_be (e_size e)
  ++ e_sha256 e ++ zeros 4 ++ e_path e.

Definition stream (es : list index_entry) : bytes := concat (map entry_wire es).

Definition signed_header (idx : package_index) (digest : bytes) : bytes :=
  index_magic ++ store_u16_be INDEX_VERSION ++ store_u16_be INDEX_HEADER_SIZE ++ store_u32_be INDEX_FLAG_ED25519
  ++ store_u32_be (file_count idx) ++ zeros 4 ++ store_u64_be (total_uncompressed_size idx)
  ++ digest ++ zeros 8.

Definition index_wire (idx : package_index) (digest signature : bytes) : bytes :=
  signed_header idx digest ++ signature ++ stream (entries idx).

Record entry_ok (e : index_entry) : Prop := {
  en_path : alrios_package_index_path_is_mutable (Some (e_path e)) = false /\ bytes_ok (e_path e);
  en_size : 0 <= e_size e < 2 ^ 64;
  en_mode : 0 <= e_mode e <= 511;
  en_sha : len (e_sha256 e) = 32 /\ bytes_ok (e_sha256 e);
}.

(** The paths ascend strictly, from [previous] on. *)
Fixpoint ascending (previous : option bytes) (es : list index_entry) : Prop :=
  match es with
  | [] => True
  | e :: es =>
      match previous with Some p => strcmp_lt p (e_path e) = true | None => True end
      /\ ascending (Some (e_path e)) es
  end.

Definition sum_sizes (es : list index_entry) : Z := foldr (fun e n => e_size e + n) 0 es.

Record index_ok (idx : package_index) : Prop := {
  ix_count : file_count idx = len (entries idx) /\ len (entries idx) <= INDEX_MAX_FILES;
  ix_entries : Forall entry_ok (entries idx);
  ix_order : ascending None (entries idx);
  ix_total : total_uncompressed_size idx = sum_sizes (entries idx) /\ sum_sizes (entries idx) <= UINT64_MAX;
}.

(** An image of an index, with a digest of its entries and a good signature. *)
Record signed_by `{IndexCrypto} (key : bytes) (idx : package_index) (wire : bytes) : Prop := {
  sg_index : index_ok idx;
  sg_size : len wire <= INDEX_MAX_WIRE_SIZE;
  sg_wire : exists digest signature,
    wire = index_wire idx digest signature /\ len digest = 32 /\ len signature = 64 /\
    sha256 [stream (entries idx)] = Some digest /\
    ed25519_verify key signature (signed_header idx digest ++ stream (entries idx)) = true;
}.

(** A name of a directory entry; the names of a directory are different. *)
Definition name_ok (name : bytes) : Prop :=
  name <> [] /\ bytes_ok name /\ Forall (fun c => c <> 0 /\ c <> SLASH) name.

Fixpoint tree_ok (n : node) : Prop :=
  match n with
  | Regular mode content => 0 <= mode < 2 ^ 32 /\ bytes_ok content
  | Directory d => dir_ok d
  | Symlink | Special => True
  end
with dir_ok (d : dir) : Prop :=
  match d with
  | dir_end => True
  | dir_item name n d => name_ok name /\ tree_ok n /\ find d name = None /\ dir_ok d
  end.

(** The paths of the regular files below a directory, without the names the walk
    passes over. *)
Definition under (prefix name : bytes) : bytes := if len prefix =? 0 then name else prefix ++ [SLASH] ++ name.

Fixpoint files_of (d : dir) (prefix : bytes) : list (bytes * Z * bytes) :=
  match d with
  | dir_end => []
  | dir_item name n d =>
      (if skipped_name name then [] else files_at n (under prefix name)) ++ files_of d prefix
  end
with files_at (n : node) (path : bytes) : list (bytes * Z * bytes) :=
  match n with
  | Regular mode content => [(path, mode, content)]
  | Directory d => files_of d path
  | Symlink | Special => []
  end.

(** Files that do not change while they are read: what comes is the content, ... *)
Definition received (rs : list reading) : list bytes := omap (fun r => match r with Received piece => Some piece | _ => None end) rs.

Definition failing (rs : list reading) : bool := existsb (fun r => match r with ReadError => true | _ => false end) rs.

(** ... if no call fails. *)
Definition faithful (reads : bytes -> bytes -> list reading) : Prop :=
  forall path c, failing (reads path c) = false -> concat (received (reads path c)) = c.

(** ... and no call fails. *)
Definition undisturbed (reads : bytes -> bytes -> list reading) : Prop :=
  forall path c, failing (reads path c) = false /\ concat (received (reads path c)) = c.

(** ** A toy library and an example *)

#[export] Instance toy_crypto : IndexCrypto := {|
  md_ctx := true;
  sha256 parts := Some (toy_sign [] [] 32 (concat parts));
  ed25519_sign k m := Some (toy_sign k [] 64 m);
  ed25519_verify k s m := bytes_eqb s (toy_sign k [] 64 m);
|}.

Definition all_served (n : Z) : bool := true.

Definition all_calls (path : bytes) : bool := true.

Definition no_loop (path : bytes) : bool := false.

(** Every octet comes by itself, and every call is interrupted once. *)
Definition octets (path content : bytes) : list reading := concat (map (fun c => [Interrupted; Received [c]]) content).

Definition sample_tree : dir :=
  dir_item (lit "readme") (Regular 33188 (lit "text"))
    (dir_item (lit ".arapp.index") (Regular 33188 [1])
      (dir_item (lit "bin") (Directory (dir_item (lit "app") (Regular 33261 [0; 255; 7]) dir_end)) dir_end)).

Definition build_from (d : dir) : res (Z * bytes) :=
  alrios_package_index_build_directory all_served octets all_calls all_calls all_calls no_loop (Some (lit "app")) (Some (Directory d)) (Some [7]).

Definition read_back (wire : bytes) : res (Z * option package_index) :=
  alrios_package_index_parse_and_verify all_served (Some wire) (len wire) (Some [7]) (Some empty_index).

#[export] Hint Unfold INDEX_HEADER_SIZE ENTRY_PREFIX_SIZE INDEX_MAX_PATH_SIZE INDEX_MAX_FILES INDEX_MAX_WIRE_SIZE
  INDEX_SIGNED_HEADER_SIZE UINT64_MAX UINT32_MAX UINT16_MAX SIZE_MAX : consts.

(** ** Modes and the sums *)

Lemma mode_test m : 0 <= m < 2 ^ 32 -> Z.land m (u32 (Z.lnot 511)) = 0 <-> m <= 511.
Proof.
  intros Hm. change (u32 (Z.lnot 511)) with (Z.ldiff (Z.ones 32) 511).
  assert (E : Z.land m (Z.ldiff (Z.ones 32) 511) = Z.shiftl (Z.shiftr m 9) 9).
  { apply Z.bits_inj'. intros i Hi. rewrite Z.land_spec, Z.ldiff_spec, Z.shiftl_spec by done.
    change 511 with (Z.ones 9). destruct (Z.lt_ge_cases i 9).
    - rewrite (Z.ones_spec_low 9) by lia. rewrite (Z.testbit_neg_r _ (i - 9)) by lia. by rewrite !andb_false_r.
    - rewrite (Z.ones_spec_high 9) by lia. rewrite Z.shiftr_spec by lia. replace (i - 9 + 9) with i by lia.
      destruct (Z.lt_ge_cases i 32).
      + rewrite Z.ones_spec_low by lia. by rewrite !andb_true_r.
      + rewrite <- (Z.mod_small m (2 ^ 32)) at 1 2 by done. by rewrite Z.mod_pow2_bits_high. }
  rewrite E, Z.shiftl_mul_pow2, Z.shiftr_div_pow2 by lia. split; intros H.
  - pose proof (Z.div_mod m (2 ^ 9) ltac:(lia)). pose proof (Z.mod_pos_bound m (2 ^ 9) ltac:(lia)). lia.
  - rewrite Z.div_small by lia. done.
Qed.

Lemma len_entry_wire e : len (e_sha256 e) = 32 -> len (entry_wire e) = 52 + len (e_path e).
Proof. intros H. unfold entry_wire. autorewrite with buf. rewrite H. lia. Qed.

Lemma stream_cons e es : stream (e :: es) = entry_wire e ++ stream es.
Proof. done. Qed.

Lemma sum_sizes_cons e es : sum_sizes (e :: es) = e_size e + sum_sizes es.
Proof. done. Qed.

Lemma sum_sizes_nonneg es : Forall entry_ok es -> 0 <= sum_sizes es.
Proof. induction 1 as [|e es [_ ? _ _] _ IH]; [done|]. rewrite sum_sizes_cons. lia. Qed.

Lemma path_size e : entry_ok e -> 1 <= len (e_path e) < 1024.
Proof.
  intros [[H _] _ _ _]. cbn in H. destruct (valid_path (e_path e)) eqn:E; [|done].
  unfold valid_path in E. destruct (_ || _) eqn:E2 in E; [done|]. bool_hyps.
  pose proof (len_nonneg (e_path e)). unfold INDEX_MAX_PATH_SIZE in *. lia.
Qed.

Lemma load_u16_zero b : bytes_ok b -> len b = 2 -> load_u16_be b = 0 -> b = zeros 2.
Proof. intros Hok Hl H. rewrite <- (store_load_u16 b Hok Hl), H. done. Qed.

Lemma load_u32_zero b : bytes_ok b -> len b = 4 -> load_u32_be b = 0 -> b = zeros 4.
Proof. intros Hok Hl H. rewrite <- (store_load_u32 b Hok Hl), H. done. Qed.

Section Parse.
Context {crypto : IndexCrypto} (malloc_ok : Z -> bool) (Hmem : forall n, malloc_ok n = true).

(** What comes after [previous]. *)
Definition follows (previous : option bytes) (path : bytes) : Prop :=
  match previous with Some p => strcmp_lt p path = true | None => True end.

Lemma follows_test previous path :
  match previous with Some p => negb (strcmp_lt p path) | None => false end = false <-> follows previous path.
Proof. destruct previous; cbn; [by rewrite negb_false_iff|done]. Qed.

(** Reading an entry undoes writing it. *)
Lemma parse_entry_wire e rest previous :
  entry_ok e -> follows previous (e_path e) ->
  parse_entry malloc_ok (entry_wire e ++ rest) previous = Ok (e, len (e_path e)).
Proof.
  intros He Hf. pose proof (path_size e He) as Hps. destruct He as [[Hmut Hpb] Hsz Hmd [Hsl Hsb]].
  assert (Hvp : valid_path (e_path e) = true) by (cbn in Hmut; by destruct (valid_path (e_path e))).
  pose proof (len_nonneg rest). unfold parse_entry.
  rewrite len_app, len_entry_wire by done. autounfold with consts. rewrite reject_false by lia.
  unfold entry_wire. rewrite <- !app_assoc.
  do 6 next_field. rewrite !load_store_u16, load_store_u32, load_store_u64 by lia.
  rewrite (reject_false _ INDEX_ERR_FORMAT) by (rewrite Z.geb_leb; vm_compute (load_u16_be (zeros 2)); vm_compute (load_u32_be (zeros 4)); lia).
  rewrite (proj2 (mode_test (e_mode e) ltac:(lia))), (reject_false _ INDEX_ERR_FORMAT) by (lia || done).
  next_field. rewrite Hvp, Hmem, Hmut. cbn [negb].
  rewrite !reject_false by (done || by apply follows_test).
  by destruct e.
Qed.

(** What is accepted at a cursor is an entry. *)
Lemma parse_entry_inv cursor previous e k :
  bytes_ok cursor -> parse_entry malloc_ok cursor previous = Ok (e, k) ->
  entry_ok e /\ follows previous (e_path e) /\ k = len (e_path e) /\
  cursor = entry_wire e ++ drop (Z.to_nat (ENTRY_PREFIX_SIZE + k)) cursor.
Proof.
  intros Hok E. unfold parse_entry in E. res_inv E. bool_hyps. injection E as <- <-.
  match goal with H : match previous with _ => _ end = false |- _ => apply follows_test in H; rename H into Hf end.
  rewrite ?Z.geb_leb in *. bool_hyps. autounfold with consts in *.
  set (k := load_u16_be (sub 0 2 cursor)) in *.
  assert (Hs : forall off n, 0 <= off -> 0 <= n -> off + n <= len cursor -> bytes_ok (sub off n cursor) /\ len (sub off n cursor) = n).
  { intros. split; [auto with buf|by apply len_sub]. }
  assert (Hz2 : sub 2 2 cursor = zeros 2) by by apply load_u16_zero; [apply Hs; lia..|].
  assert (Hz4 : sub 48 4 cursor = zeros 4) by by apply load_u32_zero; [apply Hs; lia..|].
  split_and!; cbn [e_path]; [|done|by rewrite (proj2 (Hs 52 k ltac:(lia) ltac:(lia) ltac:(lia)))|].
  - split; cbn [e_path e_size e_mode e_sha256].
    + split; [done|apply Hs; lia].
    + apply load_u64_bound; apply Hs; lia.
    + pose proof (load_u32_bound (sub 4 4 cursor) ltac:(apply Hs; lia) ltac:(apply Hs; lia)).
      split; [lia|]. by apply mode_test.
    + apply and_comm, Hs; lia.
  - unfold entry_wire. cbn [e_path e_size e_mode e_sha256].
    rewrite (proj2 (Hs 52 k ltac:(lia) ltac:(lia) ltac:(lia))).
    unfold k at 1. rewrite store_load_u16, store_load_u32, store_load_u64 by (apply Hs; lia).
    rewrite <- Hz2, <- Hz4, <- !app_assoc.
    rewrite (drop_sub (52 + k)) by lia.
    do 7 (rewrite sub_join by lia || reflexivity).
    symmetry. apply sub_all. lia.
Qed.
Lemma drop_entry e rest :
  entry_ok e -> drop (Z.to_nat (ENTRY_PREFIX_SIZE + len (e_path e))) (entry_wire e ++ rest) = rest.
Proof.
  intros He. apply drop_app_length'. pose proof (path_size e He).
  pose proof (len_entry_wire e (proj1 (en_sha e He))) as Hl. unfold len in *. unfold ENTRY_PREFIX_SIZE. lia.
Qed.

Lemma parse_entries_stream es rest total previous :
  Forall entry_ok es -> ascending previous es -> 0 <= total -> total + sum_sizes es <= UINT64_MAX ->
  parse_entries malloc_ok (length es) (stream es ++ rest) total previous = Ok (es, rest, total + sum_sizes es).
Proof.
  intros He. revert total previous. induction He as [|e es He Hes IH]; intros total previous Ha Ht Hm.
  { cbn. by rewrite Z.add_0_r. }
  destruct Ha as [Hf Ha]. rewrite stream_cons, <- app_assoc. cbn [length parse_entries].
  rewrite sum_sizes_cons in *. pose proof (sum_sizes_nonneg es Hes). pose proof (en_size e He).
  rewrite parse_entry_wire by done. cbn [rbind]. rewrite reject_false by (rewrite Z.gtb_ltb; lia).
  rewrite drop_entry, IH by (done || lia). cbn [rbind]. do 2 f_equal. lia.
Qed.

Lemma parse_entries_inv n cursor total previous es rest total' :
  bytes_ok cursor -> 0 <= total -> parse_entries malloc_ok n cursor total previous = Ok (es, rest, total') ->
  Forall entry_ok es /\ ascending previous es /\ length es = n /\ cursor = stream es ++ rest /\
  total' = total + sum_sizes es /\ (es <> [] -> total' <= UINT64_MAX).
Proof.
  revert cursor total previous es. induction n as [|n IH]; intros cursor total previous es Hok Ht; cbn [parse_entries].
  { intros [= <- <- <-]. cbn. split_and!; try done. lia. }
  intros E. apply rbind_ok_inv in E as ([e k] & He & E). apply reject_ok_inv in E as [Hlim E].
  apply rbind_ok_inv in E as ([[es' rest'] t'] & Hr & E). injection E as <- <- <-.
  apply parse_entry_inv in He as (He & Hf & -> & Hc); [|done]. rewrite Z.gtb_ltb in Hlim. bool_hyps.
  pose proof (en_size e He). apply IH in Hr as (Hes & Ha & Hl & Hc' & -> & Hmax); [|by apply Forall_drop|lia].
  rewrite stream_cons, sum_sizes_cons, <- app_assoc, <- Hc'. pose proof (sum_sizes_nonneg es' Hes).
  split_and!; [by constructor|done|cbn; by f_equal|done|lia|]. intros _.
  destruct es' as [|e' es']; [cbn; lia|]. specialize (Hmax ltac:(done)). lia.
Qed.
End Parse.

Section Verify.
Context {crypto : IndexCrypto} {public_key : bytes -> bytes} {laws : IndexLaws crypto public_key}.
Context (malloc_ok : Z -> bool) (Hmem : forall n, malloc_ok n = true) (Hctx : md_ctx = true).

Lemma len_index_magic : len index_magic = 16.
Proof. reflexivity. Qed.

Lemma len_signed_header idx digest : len digest = 32 -> len (signed_header idx digest) = 80.
Proof. intros H. unfold signed_header. autorewrite with buf. rewrite H, len_index_magic. done. Qed.

Lemma len_stream_nonneg es : 0 <= len (stream es).
Proof. apply len_nonneg. Qed.

Lemma sha256_memory_spec data digest :
  sha256 [data] = Some digest -> sha256_memory data = (INDEX_OK, digest).
Proof.
  intros H. unfold sha256_memory. rewrite Hctx. cbn [negb].
  rewrite (sha256_concat (if len data =? 0 then [] else [data]) [data]), H.
  - by rewrite (proj1 (sha256_len _ _ H)).
  - destruct (len data =? 0) eqn:E; [|done]. bool_hyps. destruct data; [done|]. rewrite len_cons in E.
    pose proof (len_nonneg data). lia.
Qed.

Lemma sha256_memory_inv data digest :
  sha256_memory data = (INDEX_OK, digest) -> sha256 [data] = Some digest /\ len digest = 32.
Proof.
  unfold sha256_memory. rewrite Hctx. cbn [negb].
  rewrite (sha256_concat (if len data =? 0 then [] else [data]) [data]).
  - destruct (sha256 [data]) as [d|]; [|done]. destruct (len d =? 32) eqn:E; [|done]. intros [= <-]. by bool_hyps.
  - destruct (len data =? 0) eqn:E; [|done]. bool_hyps. destruct data; [done|]. rewrite len_cons in E.
    pose proof (len_nonneg data). lia.
Qed.

Section Image.
Context (idx : package_index) (digest signature : bytes) (Hd : len digest = 32) (Hs : len signature = 64).
#[local] Abbreviation wire := (index_wire idx digest signature).

Lemma len_index_wire : len wire = 144 + len (stream (entries idx)).
Proof. unfold index_wire. rewrite !len_app, len_signed_header, Hs by done. lia. Qed.

Lemma wire_message : signed_message wire (len wire) = Ok (signed_header idx digest ++ stream (entries idx)).
Proof.
  pose proof (len_stream_nonneg (entries idx)). pose proof (len_signed_header idx digest Hd) as Hh.
  unfold signed_message. rewrite len_index_wire. autounfold with consts. unfold index_wire.
  rewrite (rd_here 0 80) by lia. cbn [rbind].
  rewrite rd_skip, rd_skip, rd_last by lia. done.
Qed.

Lemma wire_signature : rd 80 64 wire = Ok signature.
Proof.
  pose proof (len_signed_header idx digest Hd) as Hh. unfold index_wire.
  rewrite rd_skip, rd_here by lia. done.
Qed.

Lemma wire_stream : rd INDEX_HEADER_SIZE (len wire - INDEX_HEADER_SIZE) wire = Ok (stream (entries idx)).
Proof.
  pose proof (len_stream_nonneg (entries idx)). pose proof (len_signed_header idx digest Hd) as Hh.
  rewrite len_index_wire. autounfold with consts. unfold index_wire.
  rewrite rd_skip, rd_skip, rd_last by lia. done.
Qed.

Lemma verify_signature_wire key :
  len wire <= INDEX_MAX_WIRE_SIZE ->
  verify_signature malloc_ok key wire (len wire) =
  Ok (if ed25519_verify key signature (signed_header idx digest ++ stream (entries idx))
      then INDEX_OK else INDEX_ERR_SIGNATURE).
Proof.
  intros Hl. pose proof (len_stream_nonneg (entries idx)). pose proof len_index_wire as Hw.
  unfold verify_signature, checked_add_size. rewrite Z.gtb_ltb.
  replace (SIZE_MAX - INDEX_SIGNED_HEADER_SIZE <? len wire - INDEX_HEADER_SIZE) with false
    by (autounfold with consts in *; lia).
  rewrite Hmem, wire_message, wire_signature, Hctx. cbn [negb rbind andb]. by destruct (ed25519_verify _ _ _).
Qed.
End Image.

(** A signed image is accepted. *)
Lemma parse_signed key idx wire :
  signed_by key idx wire -> parse_and_verify malloc_ok wire (len wire) key = Ok idx.
Proof.
  intros [[[Hc Hcm] He Ho [Ht Htm]] Hsize (digest & signature & -> & Hd & Hs & Hsha & Hv)].
  pose proof (len_index_wire idx digest signature Hd Hs) as Hl.
  pose proof (len_stream_nonneg (entries idx)). pose proof (len_nonneg (entries idx)).
  pose proof (sum_sizes_nonneg _ He).
  unfold parse_and_verify. rewrite reject_false by (rewrite Hl, Z.gtb_ltb in *; autounfold with consts in *; lia).
  pose proof (wire_stream idx digest signature Hd Hs) as Hstream.
  pose proof (verify_signature_wire idx digest signature Hd Hs key Hsize) as Hver. rewrite Hv in Hver.
  rewrite Hstream, Hver.
  assert (Hl2 : 144 <= len (index_wire idx digest signature)) by lia.
  assert (Hq : forall off n, 0 <= off -> 0 <= n -> off + n <= 80 ->
    rd off n (index_wire idx digest signature) = rd off n (signed_header idx digest)).
  { intros off n ? ? ?. rewrite !rd_ok by (rewrite ?len_signed_header; lia). f_equal. unfold index_wire.
    by rewrite sub_app_l by (rewrite ?len_signed_header; lia). }
  rewrite !Hq by lia. unfold signed_header. pose proof len_index_magic.
  next_field. rewrite bytes_eqb_refl. rewrite (reject_false _ INDEX_ERR_FORMAT) by done.
  do 8 next_field. rewrite !load_store_u16, !load_store_u32, load_store_u64 by first [done|autounfold with consts in *; lia].
  rewrite (reject_false _ INDEX_ERR_UNSUPPORTED).
  2: { rewrite Z.gtb_ltb, Hc. by replace (INDEX_MAX_FILES <? len (entries idx)) with false by lia. }
  rewrite (sha256_memory_spec _ digest) by done. rewrite bytes_eqb_refl.
  rewrite !reject_false by done. unfold parse_index. rewrite Hmem, andb_false_r.
  rewrite (reject_false _ INDEX_ERR_MEMORY) by done. rewrite Hstream. cbn [rbind].
  rewrite Hc. replace (Z.to_nat (len (entries idx))) with (length (entries idx)) by (unfold len; lia).
  rewrite <- (app_nil_r (stream (entries idx))).
  rewrite parse_entries_stream by (done || lia). cbn [rbind]. rewrite Z.add_0_l, Ht, !Z.eqb_refl.
  rewrite reject_false by done. rewrite <- Ht, <- Hc. by destruct idx.
Qed.

(** The fields of an accepted header. *)
Lemma index_header_fields wire :
  bytes_ok wire -> 144 <= len wire ->
  sub 0 16 wire = index_magic -> load_u16_be (sub 16 2 wire) = INDEX_VERSION ->
  load_u16_be (sub 18 2 wire) = INDEX_HEADER_SIZE -> load_u32_be (sub 20 4 wire) = INDEX_FLAG_ED25519 ->
  sub 28 4 wire = zeros 4 -> sub 72 8 wire = zeros 8 ->
  signed_header (mk_index (load_u32_be (sub 24 4 wire)) (load_u64_be (sub 32 8 wire)) []) (sub 40 32 wire)
  = sub 0 80 wire.
Proof.
  intros Hok Hl Hm Hv Hh Hf Hz4 Hz8.
  assert (Hsub : forall off n, 0 <= off -> 0 <= n -> off + n <= len wire -> bytes_ok (sub off n wire) /\ len (sub off n wire) = n).
  { intros. split; [auto with buf|by apply len_sub]. }
  unfold signed_header. cbn [file_count total_uncompressed_size]. rewrite <- Hm, <- Hv, <- Hh, <- Hf, <- Hz4, <- Hz8.
  rewrite !store_load_u16, !store_load_u32, !store_load_u64 by (apply Hsub; lia).
  by do 8 (rewrite sub_join by lia || reflexivity).
Qed.

Lemma zero_test b : existsb (fun c => negb (c =? 0)) b = false -> b = zeros (len b).
Proof.
  intros H. unfold zeros, len. rewrite Nat2Z.id. induction b as [|x b IH]; [done|].
  cbn in H. bool_hyps. cbn. subst. f_equal. by apply IH.
Qed.

(** What is accepted is a signed image. *)
Lemma parse_inv key wire idx :
  bytes_ok wire -> parse_and_verify malloc_ok wire (len wire) key = Ok idx -> signed_by key idx wire.
Proof.
  intros Hok E. unfold parse_and_verify in E. res_inv E.
  destruct (sha256_memory _) as [st dg] eqn:Esha. res_inv E. bool_hyps.
  subst. match goal with H : bytes_eqb dg _ = true |- _ => apply bytes_eqb_eq in H as -> end.
  match goal with H : bytes_eqb _ index_magic = true |- _ => apply bytes_eqb_eq in H; rename H into Hmagic end.
  apply sha256_memory_inv in Esha as [Hsha Hdl]. autounfold with consts in *.
  assert (Hsub : forall off n, 0 <= off -> 0 <= n -> off + n <= len wire -> bytes_ok (sub off n wire) /\ len (sub off n wire) = n).
  { intros. split; [auto with buf|by apply len_sub]. }
  unfold parse_index in E. autounfold with consts in *. res_inv E.
  match goal with H : parse_entries _ _ _ _ _ = Ok ?p |- _ => destruct p as [[es rest] total]; rename H into Hpe end.
  apply parse_entries_inv in Hpe as (Hes & Hasc & Hlen & Hstr & -> & Hmax); [|apply Hsub; lia|done].
  res_inv E. injection E as <-. bool_hyps.
  assert (rest = []) as -> by (destruct rest; [done|rewrite len_cons in *; pose proof (len_nonneg rest); lia]).
  rewrite app_nil_r in Hstr. rewrite Z.add_0_l in *.
  pose proof (load_u32_bound (sub 24 4 wire) ltac:(apply Hsub; lia) ltac:(apply Hsub; lia)) as Hcount.
  assert (Hn : load_u32_be (sub 24 4 wire) = len es) by (unfold len; lia).
  pose proof (index_header_fields wire Hok ltac:(lia) Hmagic ltac:(assumption) ltac:(assumption) ltac:(assumption)) as Hhead.
  assert (Hz : forall off n, 0 <= off -> 0 <= n -> off + n <= len wire ->
    existsb (fun c => negb (c =? 0)) (sub off n wire) = false -> sub off n wire = zeros n).
  { intros off n ? ? ? Hx'. rewrite <- (proj2 (Hsub off n ltac:(lia) ltac:(lia) ltac:(lia))) at 2. by apply zero_test. }
  specialize (Hhead ltac:(apply Hz; [lia..|done]) ltac:(apply Hz; [lia..|done])).
  set (idx := mk_index (load_u32_be (sub 24 4 wire)) (load_u64_be (sub 32 8 wire)) es).
  assert (Hw : wire = index_wire idx (sub 40 32 wire) (sub 80 64 wire)).
  { unfold index_wire. change (signed_header idx (sub 40 32 wire)) with
      (signed_header (mk_index (load_u32_be (sub 24 4 wire)) (load_u64_be (sub 32 8 wire)) []) (sub 40 32 wire)).
    rewrite Hhead. cbn [entries idx]. rewrite <- Hstr. do 2 (rewrite sub_join by lia || reflexivity).
    symmetry. apply sub_all. lia. }
  pose proof (Hsub 80 64 ltac:(lia) ltac:(lia) ltac:(lia)) as [_ Hsl].
  split; [|unfold INDEX_MAX_WIRE_SIZE; lia|].
  - split; cbn [file_count total_uncompressed_size entries idx]; try done.
    + split; [done|]. unfold INDEX_MAX_FILES. lia.
    + split; [done|]. destruct es; [done|]. by apply Hmax.
  - exists (sub 40 32 wire), (sub 80 64 wire). split_and!; [done..| |].
    + cbn [entries idx]. by rewrite <- Hstr.
    + rewrite Hw in Hx at 1 2. rewrite verify_signature_wire in Hx by (rewrite <- ?Hw; done || (unfold INDEX_MAX_WIRE_SIZE; lia)).
      destruct (ed25519_verify _ _ _); [done|by injection Hx].
Qed.
End Verify.

(** ** Building *)

Scheme dir_mind := Induction for dir Sort Prop
  with node_mind := Induction for node Sort Prop.

Combined Scheme dir_node_ind from dir_mind, node_mind.

Section Build.
Context {crypto : IndexCrypto} {public_key : bytes -> bytes} {laws : IndexLaws crypto public_key}.
Context (malloc_ok : Z -> bool) (reads : bytes -> bytes -> list reading) (opened same io_ok : bytes -> bool) (eloop : bytes -> bool).
Context (Hreads : faithful reads).

Lemma fd_loop_spec rest total n taken t :
  sha256_fd_loop rest total n taken = inr t ->
  t = taken ++ received rest /\ total + len (concat (received rest)) = n /\ failing rest = false.
Proof.
  revert total taken. induction rest as [|[p| |] rest IH]; intros total taken; cbn [sha256_fd_loop]; [| |by apply IH|done].
  - destruct (total =? n) eqn:E; cbn [negb]; [|done]. intros [= <-]. bool_hyps.
    rewrite app_nil_r. split_and!; [done| |done]. change (len (concat (received []))) with 0. lia.
  - destruct (_ >? _); [done|]. destruct (_ >? n); [done|]. intros (-> & Hn & Hf)%IH.
    rewrite <- app_assoc. change (received (Received p :: rest)) with (p :: received rest). split_and!; [done| |done].
    cbn [concat]. rewrite len_app. lia.
Qed.

Lemma fd_loop_status rest total n taken : sha256_fd_loop rest total n taken <> inl INDEX_OK.
Proof.
  revert total taken. induction rest as [|[p| |] rest IH]; intros total taken; cbn [sha256_fd_loop]; [by destruct (negb _)| |by apply IH|done].
  destruct (_ >? _); [done|]. destruct (_ >? n); [done|]. apply IH.
Qed.

(** A digest of a file is the digest of its content, and the size was right. *)
Lemma sha256_fd_inv path content n digest :
  sha256_fd reads path content n = (INDEX_OK, digest) ->
  sha256 [content] = Some digest /\ len content = n /\ len digest = 32 /\ bytes_ok digest.
Proof.
  unfold sha256_fd. destruct (negb md_ctx); [done|].
  destruct (sha256_fd_loop _ _ _ _) as [st|t] eqn:E; [by intros [= -> _]; exfalso; revert E; apply fd_loop_status|].
  apply fd_loop_spec in E as (-> & Hn & Hf). apply Hreads in Hf. rewrite Hf in Hn. cbn [app].
  rewrite (sha256_concat (received (reads path content)) [content]) by (by rewrite Hf; cbn; rewrite app_nil_r).
  destruct (sha256 [content]) as [d|] eqn:Es; [|done]. destruct (len d =? 32) eqn:El; [|done].
  intros [= <-]. bool_hyps. split_and!; [done|lia|done|]. by apply (sha256_len [content]).
Qed.

(** An entry tells the truth about a file. *)
Definition entry_of (f : bytes * Z * bytes) (e : index_entry) : Prop :=
  e_path e = f.1.1 /\ e_mode e = Z.land f.1.2 511 /\ e_size e = len f.2 /\ sha256 [f.2] = Some (e_sha256 e).

Lemma append_entry_spec es path mode content es' :
  0 <= total_size es -> 0 <= mode -> bytes_ok path ->
  append_entry malloc_ok reads es path mode content = (INDEX_OK, es') ->
  exists e, items es' = items es ++ [e] /\ entry_of (path, mode, content) e /\ entry_ok e /\
    total_size es' = total_size es + e_size e /\ total_size es' <= UINT64_MAX /\
    len (items es') <= INDEX_MAX_FILES.
Proof.
  intros Ht Hm Hp. unfold append_entry. destruct (_ || _) eqn:E1; [done|].
  destruct (alrios_package_index_path_is_mutable _) eqn:E2; [done|].
  destruct (_ >=? INDEX_MAX_FILES) eqn:E3; [done|]. destruct (_ >? UINT64_MAX - _) eqn:E4; [done|].
  destruct (make_room malloc_ok es) as [st|room] eqn:E5.
  { intros [= -> _]. exfalso. revert E5. unfold make_room. destruct (len (items es) =? capacity es); [|discriminate].
    destruct (grown_capacity _); [|discriminate]. destruct (malloc_ok _); discriminate. }
  destruct (negb _); [done|]. destruct (sha256_fd _ _ _) as [st digest] eqn:E6.
  destruct (st =? INDEX_OK) eqn:E7; cbn [negb]; [|by intros [= -> _]]. bool_hyps. subst st.
  intros [= <-]. apply sha256_fd_inv in E6 as (Hsha & _ & Hl & Hok).
  bool_hyps. pose proof (len_nonneg content).
  assert (Hland : 0 <= Z.land mode 511 <= 511).
  { change (Z.land mode 511) with (Z.land mode (Z.ones 9)). rewrite Z.land_ones by lia. pose proof (Z.mod_pos_bound mode (2 ^ 9) ltac:(lia)). lia. }
  eexists. cbn [items total_size e_size e_path e_mode e_sha256]. split; [done|]. split; [done|].
  autounfold with consts in *.
  split; [split; cbn; [done|lia|lia|done]|]. split; [done|]. split; [lia|].
  rewrite len_app, len_cons, len_nil. lia.
Qed.

Lemma join_spec prefix name rel :
  join_relative_path malloc_ok prefix name = (INDEX_OK, rel) -> rel = under prefix name.
Proof.
  unfold join_relative_path, under. destruct (_ || _); [done|].
  destruct (checked_add_size _ _) as [n|]; [|done]. destruct (checked_add_size _ _) as [n'|]; [|done].
  destruct (_ >=? _); [done|]. destruct (negb _); [done|]. by intros [= <-].
Qed.

Lemma under_ok prefix name : bytes_ok prefix -> bytes_ok name -> bytes_ok (under prefix name).
Proof.
  intros. unfold under. destruct (_ =? 0); [done|]. rewrite !bytes_ok_app. split_and!; [done| |done].
  by repeat constructor.
Qed.

(** What a successful walk has added. *)
Definition collected (fs : list (bytes * Z * bytes)) (es es' : build_entries) : Prop :=
  exists new, items es' = items es ++ new /\ Forall2 entry_of fs new /\ Forall entry_ok new /\
    total_size es' = total_size es + sum_sizes new /\ 0 <= total_size es' /\
    (new <> [] -> total_size es' <= UINT64_MAX /\ len (items es') <= INDEX_MAX_FILES).

Lemma sum_sizes_app a b : sum_sizes (a ++ b) = sum_sizes a + sum_sizes b.
Proof. induction a as [|e a IH]; [done|]. cbn [app]. rewrite !sum_sizes_cons, IH. lia. Qed.

Lemma collected_nil es : 0 <= total_size es -> collected [] es es.
Proof. intros. exists []. rewrite app_nil_r. split_and!; try done. cbn. lia. Qed.

Lemma collected_app fs fs' es es' es'' :
  collected fs es es' -> collected fs' es' es'' -> collected (fs ++ fs') es es''.
Proof.
  intros (n & H1 & H2 & H3 & H4 & H5 & H6) (n' & H1' & H2' & H3' & H4' & H5' & H6'). exists (n ++ n').
  split_and!.
  - by rewrite H1', H1, app_assoc.
  - by apply Forall2_app.
  - by apply Forall_app.
  - rewrite sum_sizes_app. lia.
  - done.
  - intros Hn. destruct n' as [|e n']; [|by apply H6'].
    rewrite app_nil_r in Hn. rewrite H1', app_nil_r. change (sum_sizes []) with 0 in H4'.
    destruct (H6 Hn). split; [lia|done].
Qed.

Lemma collect_cons name n d prefix es :
  collect_directory malloc_ok reads opened same io_ok eloop (dir_item name n d) prefix es =
  if skipped_name name then collect_directory malloc_ok reads opened same io_ok eloop d prefix es
  else
    let '(result, relative_path) := join_relative_path malloc_ok prefix name in
    if negb (result =? INDEX_OK) then (result, es)
    else if negb (io_ok relative_path) then (INDEX_ERR_IO, es)
    else
      let '(result, es) := collect_item malloc_ok reads opened same io_ok eloop n relative_path es in
      if negb (result =? INDEX_OK) then (result, es) else collect_directory malloc_ok reads opened same io_ok eloop d prefix es.
Proof. reflexivity. Qed.

Lemma collect_spec :
  (forall d, dir_ok d -> forall prefix es es', bytes_ok prefix -> 0 <= total_size es ->
     collect_directory malloc_ok reads opened same io_ok eloop d prefix es = (INDEX_OK, es') -> collected (files_of d prefix) es es') /\
  (forall n, tree_ok n -> forall path es es', bytes_ok path -> 0 <= total_size es ->
     collect_item malloc_ok reads opened same io_ok eloop n path es = (INDEX_OK, es') -> collected (files_at n path) es es').
Proof.
  apply dir_node_ind.
  - intros _ prefix es es' _ Ht [= <-]. by apply collected_nil.
  - intros name n IHn d IHd (Hname & Hn & _ & Hd) prefix es es' Hp Ht. rewrite collect_cons. cbn [files_of].
    destruct (skipped_name name); [by apply IHd|].
    destruct (join_relative_path malloc_ok prefix name) as [st rel] eqn:Ej.
    destruct (st =? INDEX_OK) eqn:Est; cbn [negb]; [|by intros ?; simplify_eq]. bool_hyps. subst st.
    apply join_spec in Ej as ->. destruct (io_ok _); cbn [negb]; [|done].
    destruct (collect_item malloc_ok reads opened same io_ok eloop n (under prefix name) es) as [st es1] eqn:Ec.
    destruct (st =? INDEX_OK) eqn:Est; cbn [negb]; [|by intros ?; simplify_eq]. bool_hyps. subst st. intros Hrest.
    pose proof (IHn Hn (under prefix name) es es1 (under_ok _ _ Hp (proj1 (proj2 Hname))) Ht Ec) as H1.
    apply (collected_app _ _ es es1 es' H1). apply IHd; [done|done| |done].
    by destruct H1 as (? & _ & _ & _ & _ & ? & _).
  - intros mode content [Hm _] path es es' Hp Ht Hc. cbn [collect_item] in Hc. destruct (opened path); cbn [negb] in Hc; [|by destruct (eloop path)].
    destruct (same path); cbn [negb] in Hc; [|done].
    apply append_entry_spec in Hc as (e & H1 & H2 & H3 & H4 & H5 & H6); [|done|lia|done].
    exists [e]. pose proof (en_size e H3). split_and!; [done|by apply Forall2_cons; [|constructor]|by constructor| |lia|done].
    rewrite sum_sizes_cons. change (sum_sizes []) with 0. lia.
  - intros d IH Hd path es es' Hp Ht Hc. cbn [collect_item] in Hc. destruct (opened path); cbn [negb] in Hc; [|by destruct (eloop path)].
    by apply IH.
  - intros _ path es es' _ _ Hc. discriminate Hc.
  - intros _ path es es' _ _ Hc. discriminate Hc.
Qed.
End Build.


(** ** The image of a list of entries *)

(** What [append_entry] guarantees is enough to write an entry. *)
Lemma encode_entry_wire e : len (e_sha256 e) = 32 -> encode_entry e = entry_wire e.
Proof.
  intros Hl. unfold encode_entry, entry_wire. autounfold with consts.
  change (zeros 52) with (([] : bytes) ++ zeros 52).
  rewrite upd_fill0 by (rewrite ?len_store_u16; done). rewrite len_store_u16.
  rewrite (upd_fill _ 4 _ _ 2) by (rewrite ?len_app, ?len_store_u16, ?len_store_u32; done).
  rewrite len_store_u32. rewrite upd_fill0 by (autorewrite with buf; rewrite ?len_store_u64; done).
  rewrite len_store_u64. rewrite upd_fill0 by (autorewrite with buf; lia). rewrite Hl.
  rewrite upd_fill0 by (autorewrite with buf; rewrite ?Hl; lia). rewrite len_store_u32.
  rewrite <- !app_assoc. reflexivity.
Qed.

Lemma size_loop_spec es previous n m :
  Forall (fun e => len (e_sha256 e) = 32) es -> entries_size_loop es previous n = inr m ->
  m = n + len (stream es) /\ ascending previous es.
Proof.
  intros Hs. revert previous n. induction Hs as [|e es He _ IH]; intros previous n; cbn [entries_size_loop].
  { intros [= <-]. change (len (stream [])) with 0. split; [lia|done]. }
  unfold checked_add_size. destruct (_ >? _); [done|]. destruct (_ >? _); [done|].
  destruct (match previous with Some _ => _ | None => _ end) eqn:Ef; [done|]. apply follows_test in Ef.
  intros [-> Ha]%IH. rewrite stream_cons, len_app, len_entry_wire by done. unfold ENTRY_PREFIX_SIZE. split; [lia|done].
Qed.

Lemma size_loop_status es previous n : entries_size_loop es previous n <> inl INDEX_OK.
Proof.
  revert previous n. induction es as [|e es IH]; intros previous n; cbn [entries_size_loop]; [done|].
  destruct (checked_add_size _ _); [|done]. destruct (checked_add_size _ _); [|done].
  destruct (match previous with Some _ => _ | None => _ end); [done|apply IH].
Qed.

Lemma encode_entries_spec es output_size offset t :
  Forall (fun e => len (e_sha256 e) = 32) es -> encode_entries es output_size offset = inr t -> t = stream es.
Proof.
  intros Hs. revert offset t. induction Hs as [|e es He _ IH]; intros offset t; cbn [encode_entries].
  { destruct (_ =? _); [|done]. by intros [= <-]. }
  destruct (_ >? _); [done|]. destruct (checked_add_size _ _); [|done]. destruct (_ >? _); [done|].
  destruct (encode_entries es _ _) as [|t'] eqn:E; [done|]. apply IH in E as ->. intros [= <-].
  by rewrite encode_entry_wire.
Qed.

Lemma encode_entries_status es output_size offset : encode_entries es output_size offset <> inl INDEX_OK.
Proof.
  revert offset. induction es as [|e es IH]; intros offset; cbn [encode_entries]; [by destruct (_ =? _)|].
  destruct (_ >? _); [done|]. destruct (checked_add_size _ _); [|done]. destruct (_ >? _); [done|].
  destruct (encode_entries es _ _) as [st|] eqn:E; [|done]. intros [= ->]. by apply (IH _ E).
Qed.

Lemma zeros_split a b : 0 <= a -> 0 <= b -> zeros (a + b) = zeros a ++ zeros b.
Proof. intros. unfold zeros. rewrite <- replicate_add. f_equal. lia. Qed.

(** The header with the digest is [signed_header], with zeros for the signature. *)
Lemma header_with_digest count total es digest rest :
  len digest = 32 ->
  upd 40 digest (index_header count total ++ rest) =
  signed_header (mk_index count total es) digest ++ zeros 64 ++ rest.
Proof.
  intros Hl. unfold index_header, signed_header. autounfold with consts. pose proof len_index_magic as Hm.
  change (zeros 144) with (([] : bytes) ++ zeros 144).
  rewrite upd_fill0 by (rewrite ?Hm; done). rewrite Hm.
  do 3 (rewrite upd_fill0 by (autorewrite with buf; rewrite ?Hm; lia)). 
  rewrite !len_store_u16, len_store_u32.
  rewrite upd_fill0 by (autorewrite with buf; rewrite ?Hm; lia). rewrite len_store_u32.
  rewrite (upd_fill _ 32 _ _ 4) by (autorewrite with buf; rewrite ?Hm; lia). rewrite len_store_u64.
  replace (144 - 16 - 2 - 2 - 4 - 4 - 4 - 8) with (32 + (8 + 64)) by lia.
  rewrite !zeros_split by lia. rewrite <- app_assoc, upd_app_at by (autorewrite with buf; rewrite ?Hm; lia).
  rewrite <- (app_assoc (zeros 32)), drop_app_length' by (pose proof (len_zeros 32); unfold len in *; lia).
  cbn [file_count total_uncompressed_size]. rewrite <- !app_assoc. reflexivity.
Qed.

Section Sign.
Context {crypto : IndexCrypto} {public_key : bytes -> bytes} {laws : IndexLaws crypto public_key}.
Context (malloc_ok : Z -> bool).

Lemma sha256_memory_ctx data digest : sha256_memory data = (INDEX_OK, digest) -> md_ctx = true.
Proof. unfold sha256_memory. by destruct md_ctx. Qed.

(** Signing fills the empty signature. *)
Lemma sign_wire_spec idx digest key :
  len digest = 32 -> len (index_wire idx digest (zeros 64)) <= INDEX_MAX_WIRE_SIZE ->
  exists st w, sign_wire malloc_ok (index_wire idx digest (zeros 64)) (len (index_wire idx digest (zeros 64))) key = Ok (st, w) /\
    (st = INDEX_OK -> exists signature, w = index_wire idx digest signature /\ len signature = 64 /\
      ed25519_verify (public_key key) signature (signed_header idx digest ++ stream (entries idx)) = true).
Proof.
  intros Hd Hl. unfold sign_wire. destruct (checked_add_size _ _) as [m|]; [|by eexists _, _].
  destruct (negb (malloc_ok _)); [by eexists _, _|].
  rewrite (wire_message idx digest (zeros 64) Hd (len_zeros 64 ltac:(lia))). cbn [rbind].
  destruct (negb md_ctx); [by eexists _, _|].
  destruct (ed25519_sign key _) as [s|] eqn:Es; [|by eexists _, _].
  destruct (len s =? 64) eqn:E64; [|by eexists _, _]. bool_hyps. eexists _, _. split; [done|]. intros _.
  exists s. split_and!; [|done|by apply sign_verify].
  unfold index_wire. rewrite upd_app_at by (by rewrite len_signed_header). do 2 f_equal.
  rewrite drop_app_length'; [done|]. pose proof (len_zeros 64). unfold len in *. lia.
Qed.

(** The image of a good list of entries, and its signature. *)
Lemma build_wire_spec es total key :
  index_ok (mk_index (len es) total es) ->
  exists st w, build_wire malloc_ok es (len (stream es)) total key = Ok (st, w) /\
    (st = INDEX_OK -> md_ctx = true /\ signed_by (public_key key) (mk_index (len es) total es) w).
Proof.
  intros Hidx. set (idx := mk_index (len es) total es) in *. unfold build_wire, checked_add_size.
  destruct (_ >? SIZE_MAX - _) eqn:E1; [by eexists _, _|].
  destruct (_ || _) eqn:E2; [by eexists _, _|]. destruct (negb _); [by eexists _, _|].
  assert (Hsha : Forall (fun e => len (e_sha256 e) = 32) es).
  { eapply Forall_impl; [|exact (ix_entries idx Hidx)]. by intros e [_ _ _ [? _]]. }
  destruct (encode_entries es _ 0) as [st|t] eqn:Ee.
  { eexists _, _. split; [done|]. intros ->. by apply encode_entries_status in Ee. }
  apply encode_entries_spec in Ee as ->; [|done]. destruct (sha256_memory (stream es)) as [st digest] eqn:Eh.
  destruct (st =? INDEX_OK) eqn:Est; cbn [negb]; [|eexists _, _; split; [done|intros ->; done]]. bool_hyps. subst st.
  pose proof (sha256_memory_ctx _ _ Eh) as Hctx. apply (sha256_memory_inv Hctx) in Eh as [Hsh Hdl].
  rewrite (header_with_digest _ _ es) by done.
  assert (Hz : len (zeros 64) = 64) by by apply len_zeros.
  pose proof (len_index_wire idx digest (zeros 64) Hdl Hz) as Hlen. cbn [entries idx] in Hlen.
  change 144 with INDEX_HEADER_SIZE in Hlen.
  rewrite <- Hlen in *.
  destruct (sign_wire_spec idx digest key Hdl) as (st & w & Es & Hs); [lia|].
  unfold index_wire in Es at 1. cbn [entries idx] in Es. fold idx. rewrite Es. cbn [rbind].
  destruct (st =? INDEX_OK) eqn:Est; cbn [negb]; [|eexists _, _; split; [done|intros ->; done]]. bool_hyps. subst st.
  eexists _, _. split; [done|]. intros _. destruct (Hs eq_refl) as (s & -> & Hsl & Hv).
  split; [done|]. split; [done| |by exists digest, s]. rewrite (len_index_wire idx digest s), <- (len_index_wire idx digest (zeros 64)) by done. lia.
Qed.
End Sign.

Lemma sum_sizes_perm es es' : es ≡ₚ es' -> sum_sizes es = sum_sizes es'.
Proof.
  induction 1 as [|e l l' _ IH|e e' l|]; [done| |rewrite !sum_sizes_cons; lia|congruence].
  by rewrite !sum_sizes_cons, IH.
Qed.

Section BuildDirectory.
Context {crypto : IndexCrypto} {public_key : bytes -> bytes} {laws : IndexLaws crypto public_key}.
Context (malloc_ok : Z -> bool) (reads : bytes -> bytes -> list reading) (opened same io_ok : bytes -> bool) (eloop : bytes -> bool).
Context (Hreads : faithful reads).

(** The walk's entries, sorted, are an index when their paths differ. *)
Lemma sorted_index_ok fs es m :
  collected fs (mk_build [] 0 0) es -> entries_size_loop (sort_entries (items es)) None 0 = inr m ->
  let sorted := sort_entries (items es) in
  index_ok (mk_index (len sorted) (total_size es) sorted) /\ m = len (stream sorted) /\
  exists listed, sorted ≡ₚ listed /\ Forall2 entry_of fs listed.
Proof.
  intros (new & Hit & Hof & Hok & Htot & Hpos & Hlim) Hm. cbn [items total_size app] in *. subst new.
  pose proof (merge_sort_Permutation entry_le (items es)) as Hp. fold (sort_entries (items es)) in Hp.
  assert (Hok' : Forall entry_ok (sort_entries (items es))) by by rewrite Hp.
  apply size_loop_spec in Hm as [-> Ha]; [|by eapply Forall_impl; [|exact Hok']; intros e [_ _ _ [? _]]].
  assert (Hlen : len (sort_entries (items es)) = len (items es)) by (unfold len; by rewrite Hp).
  split; [|split; [lia|by eexists]].
  assert (Hl : len (items es) <= INDEX_MAX_FILES /\ total_size es <= UINT64_MAX).
  { destruct (items es) as [|e l] eqn:E; [|by destruct (Hlim ltac:(done))]. cbn in Htot. rewrite Htot. by vm_compute. }
  split; cbn [file_count total_uncompressed_size entries]; [split; [done|lia]|done|done|].
  rewrite (sum_sizes_perm _ _ Hp). split; lia.
Qed.

(** A build ends; a successful one has a signed image of the files of the tree. *)
Lemma build_spec name d key :
  dir_ok d ->
  exists st wire, alrios_package_index_build_directory malloc_ok reads opened same io_ok eloop (Some name) (Some (Directory d)) (Some key)
      = Ok (st, wire) /\
    (st = INDEX_OK -> name <> [] /\ md_ctx = true /\ exists idx listed,
      signed_by (public_key key) idx wire /\
      entries idx ≡ₚ listed /\ Forall2 entry_of (files_of d []) listed).
Proof.
  intros Hd. unfold alrios_package_index_build_directory. destruct (len name =? 0) eqn:En; [by eexists _, _|].
  destruct (io_ok []); [|by eexists _, _].
  destruct (collect_directory _ _ _ _ _ _ _ _ _) as [st es] eqn:Ec.
  destruct (st =? INDEX_OK) eqn:Est; cbn [negb]; [|eexists _, _; split; [done|intros ->; done]]. bool_hyps. subst st.
  pose proof (proj1 (collect_spec malloc_ok reads opened same io_ok eloop Hreads) d Hd [] (mk_build [] 0 0) es
    ltac:(constructor) ltac:(cbn; lia) Ec) as Hcol.
  destruct (entries_size_loop _ None 0) as [st|m] eqn:Es.
  { eexists _, _. split; [done|]. intros ->. by apply size_loop_status in Es. }
  destruct (sorted_index_ok _ _ _ Hcol Es) as (Hidx & -> & listed & Hperm & Hof).
  destruct (build_wire_spec malloc_ok _ (total_size es) key Hidx) as (st & wire & Hw & Hsig).
  rewrite Hw. exists st, wire. split; [done|]. intros ->. destruct (Hsig eq_refl) as [Hctx Hs].
  split; [by intros ->|]. split; [done|].
  by exists (mk_index (len (sort_entries (items es))) (total_size es) (sort_entries (items es))), listed.
Qed.
End BuildDirectory.

(** ** Looking up what a walk has found *)

Lemma segments_name name rest :
  Forall (fun c => c <> 0 /\ c <> SLASH) name -> segments (name ++ SLASH :: rest) = name :: segments rest.
Proof.
  induction 1 as [|c name [_ Hc] _ IH]; cbn [app segments]; [by rewrite Z.eqb_refl|].
  rewrite (proj2 (Z.eqb_neq c SLASH) Hc), IH. done.
Qed.

Lemma segments_last name : Forall (fun c => c <> 0 /\ c <> SLASH) name -> segments name = [name].
Proof.
  induction 1 as [|c name [_ Hc] _ IH]; cbn [segments]; [done|].
  rewrite (proj2 (Z.eqb_neq c SLASH) Hc), IH. done.
Qed.

Lemma segments_cons path : exists s l, segments path = s :: l.
Proof.
  induction path as [|c path (s & l & IH)]; cbn [segments]; [by eexists _, _|].
  rewrite IH. destruct (c =? SLASH); by eexists _, _.
Qed.

Lemma len_nonempty (b : bytes) : b <> [] -> (len b =? 0) = false.
Proof. destruct b; [done|]. intros _. rewrite len_cons. pose proof (len_nonneg b). lia. Qed.

Lemma under_under prefix name rest :
  name <> [] -> under (under prefix name) rest = under prefix (name ++ [SLASH] ++ rest).
Proof.
  intros Hn. unfold under. destruct (len prefix =? 0) eqn:E.
  - by rewrite len_nonempty.
  - bool_hyps. rewrite !len_app. pose proof (len_nonneg prefix). pose proof (len_nonneg name).
    change (len [SLASH]) with 1. replace (_ =? 0) with false by lia. by rewrite <- !app_assoc.
Qed.

(** One step of an opening. *)
Definition open_child (n : node) (segs : list bytes) : option (Z * bytes) :=
  match segs, n with
  | [], Regular mode content => Some (mode, content)
  | [], _ => None
  | _, _ => open_segments n segs
  end.

Lemma open_segments_dir d s segs :
  open_segments (Directory d) (s :: segs) = match find d s with Some n => open_child n segs | None => None end.
Proof. destruct segs; cbn; by destruct (find d s) as [[]|]. Qed.

(** A file that the walk finds can be opened by its path. *)
Lemma walk_opens :
  (forall d, dir_ok d -> forall prefix f, In f (files_of d prefix) ->
     exists rest, f.1.1 = under prefix rest /\ open_segments (Directory d) (segments rest) = Some (f.1.2, f.2)) /\
  (forall n, tree_ok n -> forall name f, In f (files_at n name) -> name <> [] ->
     (f.1.1 = name /\ open_child n [] = Some (f.1.2, f.2)) \/
     exists rest, f.1.1 = name ++ [SLASH] ++ rest /\ open_child n (segments rest) = Some (f.1.2, f.2)).
Proof.
  apply dir_node_ind.
  - intros _ prefix f [].
  - intros name n IHn d IHd (Hname & Hn & Hfind & Hd) prefix f. cbn [files_of]. rewrite in_app_iff.
    destruct Hname as (Hne & _ & Hsl). intros [Hf|Hf].
    + destruct (skipped_name name); [destruct Hf|].
      assert (Hu : under prefix name <> []).
      { unfold under. destruct (_ =? 0); [done|]. by destruct prefix. }
      destruct (IHn Hn _ f Hf Hu) as [[E Ho]|(rest & E & Ho)].
      * exists name. split; [done|]. rewrite segments_last, open_segments_dir by done. cbn [find].
        by rewrite bytes_eqb_refl.
      * exists (name ++ [SLASH] ++ rest). split.
        { rewrite E, <- under_under by done. unfold under at 2.
          by rewrite len_nonempty. }
        cbn [app]. rewrite segments_name, open_segments_dir by done. cbn [find]. by rewrite bytes_eqb_refl.
    + destruct (IHd Hd prefix f Hf) as (rest & E & Ho). exists rest. split; [done|].
      destruct (segments_cons rest) as (s & l & Es). rewrite Es, open_segments_dir in *. cbn [find].
      destruct (bytes_eqb name s) eqn:En; [|done]. apply bytes_eqb_eq in En as <-. by rewrite Hfind in Ho.
  - intros mode content _ name f [<-|[]] _. by left.
  - intros d IH Hd name f Hf Hn. right. destruct (IH Hd name f Hf) as (rest & E & Ho). exists rest. split.
    + rewrite E. unfold under. by rewrite len_nonempty.
    + destruct (segments_cons rest) as (s & l & Es). by rewrite Es in *.
  - intros _ name f [].
  - intros _ name f [].
Qed.

(** ** Comparing a tree with an index *)

Section VerifyDirectory.
Context {crypto : IndexCrypto} {public_key : bytes -> bytes} {laws : IndexLaws crypto public_key}.
Context (malloc_ok : Z -> bool) (reads : bytes -> bytes -> list reading) (io_ok : bytes -> bool) (eloop : bytes -> bool).
Context (Hreads : faithful reads).

Lemma fd_loop_done rest total n taken :
  failing rest = false -> 0 <= total -> total + len (concat (received rest)) = n -> n <= UINT64_MAX ->
  sha256_fd_loop rest total n taken = inr (taken ++ received rest).
Proof.
  revert total taken. induction rest as [|[p| |] rest IH]; intros total taken Hf Ht Hn Hm; cbn [sha256_fd_loop]; [| |by apply IH|done].
  { change (len (concat (received []))) with 0 in Hn. rewrite (proj2 (Z.eqb_eq total n)) by lia. cbn. by rewrite app_nil_r. }
  change (received (Received p :: rest)) with (p :: received rest) in *.
  cbn [concat] in Hn. rewrite len_app in Hn. pose proof (len_nonneg p). pose proof (len_nonneg (concat (received rest))).
  rewrite !Z.gtb_ltb. replace (UINT64_MAX - total <? len p) with false by lia.
  replace (n <? total + len p) with false by lia. rewrite IH by (done || lia). by rewrite <- app_assoc.
Qed.

Lemma sha256_fd_done path content digest :
  failing (reads path content) = false -> md_ctx = true -> len content <= UINT64_MAX -> sha256 [content] = Some digest ->
  sha256_fd reads path content (len content) = (INDEX_OK, digest).
Proof.
  intros Hf Hctx Hl Hs. pose proof (Hreads _ _ Hf) as Hc. unfold sha256_fd. rewrite Hctx. cbn [negb].
  rewrite fd_loop_done by (rewrite ?Hc; done || lia). cbn [app].
  rewrite (sha256_concat (received (reads path content)) [content]), Hs by (by rewrite Hc; cbn; rewrite app_nil_r).
  by rewrite (proj1 (sha256_len _ _ Hs)).
Qed.

(** What a tree has at the path of an entry. *)
Definition present (root : node) (e : index_entry) : Prop :=
  exists mode content, open_segments root (segments (e_path e)) = Some (mode, content) /\
    entry_of (e_path e, mode, content) e.

Lemma verify_entry_sound root e :
  verify_entry malloc_ok reads io_ok eloop root e = INDEX_OK -> present root e.
Proof.
  unfold verify_entry. destruct (alrios_package_index_path_is_mutable _); [done|].
  destruct (open_relative_regular_file _ _ _ _) as [[mode content]|] eqn:Eo; [|by destruct (eloop _)].
  unfold open_relative_regular_file in Eo. destruct (_ || _); [done|].
  destruct (_ || _) eqn:Ec; [done|]. destruct (sha256_fd _ _ _) as [st digest] eqn:Eh.
  destruct (st =? INDEX_OK) eqn:Est; cbn [negb]; [|intros ->; done]. bool_hyps. subst st.
  destruct (bytes_eqb digest (e_sha256 e)) eqn:Ed; cbn [negb]; [|done]. apply bytes_eqb_eq in Ed as ->. intros _.
  apply (sha256_fd_inv reads Hreads) in Eh as (Hsha & _). exists mode, content. split; [done|].
  by split_and!; cbn [fst snd].
Qed.

Lemma verify_entries_sound root es :
  verify_entries malloc_ok reads io_ok eloop root es = INDEX_OK -> Forall (present root) es.
Proof.
  induction es as [|e es IH]; cbn [verify_entries]; [by constructor|].
  destruct (_ =? INDEX_OK) eqn:E; cbn [negb]; [|intros E'; by rewrite E' in E]. bool_hyps. intros Hr.
  constructor; [by apply verify_entry_sound|by apply IH].
Qed.

Context (Hmem : forall n, malloc_ok n = true) (Hio : forall p, io_ok p = true) (Hall : forall p c, failing (reads p c) = false) (Hctx : md_ctx = true).

Lemma verify_entry_complete root e :
  entry_ok e -> present root e -> verify_entry malloc_ok reads io_ok eloop root e = INDEX_OK.
Proof.
  intros [[Hmut _] Hsz _ _] (mode & content & Ho & (_ & Hm & Hs & Hsha)). cbn [fst snd] in *.
  unfold verify_entry, open_relative_regular_file. rewrite Hmut, Hmem, Hio. cbn [negb orb]. rewrite Ho, Hs, Hm.
  rewrite !Z.eqb_refl. cbn [negb orb]. rewrite (sha256_fd_done (e_path e) content (e_sha256 e) (Hall _ _) Hctx ltac:(unfold UINT64_MAX; lia) Hsha).
  cbn [negb Z.eqb INDEX_OK]. by rewrite bytes_eqb_refl.
Qed.

Lemma verify_entries_complete root es :
  Forall entry_ok es -> Forall (present root) es ->
  verify_entries malloc_ok reads io_ok eloop root es = INDEX_OK.
Proof.
  induction 1 as [|e es He _ IH]; intros Hp; [done|]. apply Forall_cons_1 in Hp as [Hpe Hp]. cbn [verify_entries].
  rewrite verify_entry_complete by done. by apply IH.
Qed.
End VerifyDirectory.

Lemma Forall2_in {A B} (R : A -> B -> Prop) la lb :
  Forall2 R la lb -> (forall b, In b lb -> exists a, In a la /\ R a b) /\ (forall a, In a la -> exists b, In b lb /\ R a b).
Proof.
  induction 1 as [|a b la lb Hr _ [IH1 IH2]]; [done|]. split; intros x [<-|Hx].
  - exists a. split; [by left|done].
  - destruct (IH1 x Hx) as (y & ? & ?). exists y. split; [by right|done].
  - exists b. split; [by left|done].
  - destruct (IH2 x Hx) as (y & ? & ?). exists y. split; [by right|done].
Qed.

(** The entries made of a walk tell the truth about the tree. *)
Lemma walk_present `{IndexCrypto} d listed :
  dir_ok d -> Forall2 entry_of (files_of d []) listed -> Forall (present (Directory d)) listed.
Proof.
  intros Hd Hl. apply List.Forall_forall. intros e He. destruct (proj1 (Forall2_in _ _ _ Hl) e He) as (f & Hf & Hof).
  destruct (proj1 walk_opens d Hd [] f Hf) as (rest & E & Ho). cbn in E.
  assert (Hp : e_path e = rest) by by rewrite (proj1 Hof).
  exists f.1.2, f.2. rewrite Hp. split; [done|]. destruct Hof as (_ & ? & ? & ?). by split_and!.
Qed.

(** ** Memory safety *)

Lemma entry_no_fault malloc_ok cursor previous : bytes_ok cursor -> parse_entry malloc_ok cursor previous <> Fault.
Proof.
  intros Hok. unfold parse_entry. apply reject_no_fault. intros Hl. bool_hyps. autounfold with consts in *.
  do 5 (apply rbind_no_fault; [apply rd_no_fault; lia|intros ? Hx; apply rd_inv in Hx as (-> & _)]).
  apply rbind_no_fault; [apply rd_no_fault; lia|intros ? Hx; apply rd_inv in Hx as (-> & _)].
  apply reject_no_fault. intros Hk. bool_hyps.
  pose proof (load_u16_bound (sub 0 2 cursor) ltac:(auto with buf) ltac:(apply len_sub; lia)).
  apply reject_no_fault. intros _.
  apply rbind_no_fault; [apply rd_no_fault; lia|intros ? _].
  do 4 (apply reject_no_fault; intros _). done.
Qed.

Lemma entries_no_fault malloc_ok n cursor total previous :
  bytes_ok cursor -> parse_entries malloc_ok n cursor total previous <> Fault.
Proof.
  revert cursor total previous. induction n as [|n IH]; intros cursor total previous Hok; cbn [parse_entries]; [done|].
  apply rbind_no_fault; [by apply entry_no_fault|]. intros [e k] _. apply reject_no_fault. intros _.
  apply rbind_no_fault; [by apply IH, Forall_drop|]. by intros [[es rest] t] _.
Qed.

Lemma parse_no_fault `{IndexCrypto} malloc_ok wire wire_size key :
  bytes_ok wire -> 0 <= wire_size <= len wire -> parse_and_verify malloc_ok wire wire_size key <> Fault.
Proof.
  intros Hok Hl. unfold parse_and_verify. apply reject_no_fault. intros Hs. bool_hyps. autounfold with consts in *.
  assert (Hw : 144 <= wire_size) by lia.
  repeat first [apply rbind_no_fault; [apply rd_no_fault; lia|intros ? Hx; apply rd_inv in Hx as (-> & _)]
               | apply reject_no_fault; intros ?].
  destruct (sha256_memory _) as [st digest].
  repeat first [apply rbind_no_fault; [apply rd_no_fault; lia|intros ? Hx; apply rd_inv in Hx as (-> & _)]
               | apply reject_no_fault; intros ?].
  apply rbind_no_fault.
  - unfold verify_signature, signed_message. destruct (checked_add_size _ _) as [z|]; [|done]. destruct (malloc_ok (if z =? 0 then 1 else z)); cbn [negb]; [|done].
    autounfold with consts.
    apply rbind_no_fault; [|intros ? _; apply rbind_no_fault; [apply rd_no_fault; lia|intros ? _; by destruct (_ && _)]].
    apply rbind_no_fault; [apply rd_no_fault; lia|intros ? _]. apply rbind_no_fault; [apply rd_no_fault; lia|done].
  - intros st' _. apply reject_no_fault. intros _. unfold parse_index. apply reject_no_fault. intros _.
    autounfold with consts. apply rbind_no_fault; [apply rd_no_fault; lia|].
    intros ? Hx. apply rd_inv in Hx as (-> & _).
    apply rbind_no_fault; [apply entries_no_fault; auto with buf|]. intros [[es rest] t] _.
    by apply reject_no_fault.
Qed.

(** ** The statuses of errors *)

Lemma entry_proper malloc_ok cursor previous : proper_err (parse_entry malloc_ok cursor previous).
Proof.
  unfold parse_entry.
  repeat first [apply rbind_proper; [apply rd_proper|intros ?] | apply reject_proper; [done|] | apply ok_proper].
Qed.

Lemma entries_proper malloc_ok n cursor total previous : proper_err (parse_entries malloc_ok n cursor total previous).
Proof.
  revert cursor total previous. induction n as [|n IH]; intros cursor total previous; cbn [parse_entries]; [apply ok_proper|].
  apply rbind_proper; [apply entry_proper|intros [e k]]. apply reject_proper; [done|].
  apply rbind_proper; [apply IH|intros [[es rest] t]]. apply ok_proper.
Qed.

Lemma parse_proper `{IndexCrypto} malloc_ok wire wire_size key : proper_err (parse_and_verify malloc_ok wire wire_size key).
Proof.
  unfold parse_and_verify.
  repeat first [apply rbind_proper; [apply rd_proper|intros ?] | apply reject_proper; [done|]].
  destruct (sha256_memory _) as [st digest]. apply rbind_proper; [apply rd_proper|intros b]. apply reject_status_proper.
  apply reject_proper; [done|]. apply rbind_proper.
  - unfold verify_signature, signed_message. intros e. destruct (checked_add_size _ _) as [z|]; [|done].
    destruct (malloc_ok (if z =? 0 then 1 else z)); cbn [negb]; [|done]. revert e.
    apply rbind_proper; [|intros ?; apply rbind_proper; [apply rd_proper|intros ?; by destruct (_ && _); apply ok_proper]].
    repeat first [apply rbind_proper; [apply rd_proper|intros ?] | apply ok_proper].
  - intros st'. apply reject_status_proper. unfold parse_index. apply reject_proper; [done|].
    apply rbind_proper; [apply rd_proper|intros ?]. apply rbind_proper; [apply entries_proper|intros [[es rest] t]].
    apply reject_proper; [done|apply ok_proper].
Qed.

#[export] Instance toy_index_laws : IndexLaws toy_crypto (fun k => k).
Proof.
  constructor.
  - intros parts digest [= <-]. split; [by apply len_toy_sign|apply toy_sign_ok].
  - intros parts parts' E. cbn. by rewrite E.
  - intros k m s [= <-]. apply toy_sign_ok.
  - intros k m s [= <-]. apply bytes_eqb_refl.
Qed.

Lemma octets_undisturbed : undisturbed octets.
Proof. intros path c. induction c as [|x c [IH1 IH2]]; [done|]. unfold octets in *. cbn. split; [done|]. by f_equal. Qed.

Lemma undisturbed_faithful reads : undisturbed reads -> faithful reads.
Proof. intros H path c _. apply H. Qed.

Lemma name_check name :
  negb (len name =? 0) && bytes_okb name && negb (existsb (fun c => (c =? 0) || (c =? SLASH)) name) = true -> name_ok name.
Proof.
  intros H. bool_hyps. split; [by intros ->|]. split; [by apply bytes_okb_ok|].
  match goal with H : existsb _ _ = false |- _ => revert H end. clear.
  induction name as [|c b IH]; cbn; intros H; constructor; bool_hyps; [done|by apply IH].
Qed.

Lemma sample_tree_ok : dir_ok sample_tree.
Proof.
  cbn [dir_ok tree_ok sample_tree].
  repeat match goal with
         | |- name_ok _ => by apply name_check
         | |- _ /\ _ => split
         | |- bytes_ok _ => by apply bytes_okb_ok
         end; done.
Qed.

(** A path need be neither UTF-8 nor normalized: the reader and the builder take any octets. *)
Lemma non_utf8_path_accepted :
  alrios_package_index_path_is_mutable (Some [255]) = false /\
  match build_from (dir_item [255] (Regular 33188 [1]) dir_end) with
  | Ok (st, wire) =>
      match read_back wire with
      | Ok (st', Some idx) => (st, st', map e_path (entries idx)) = (INDEX_OK, INDEX_OK, [[255]])
      | _ => False
      end
  | _ => False
  end.
Proof. split; [reflexivity|]. vm_compute. reflexivity. Qed.

(** ** Properties *)

Section Properties.
Context {crypto : IndexCrypto} {public_key : bytes -> bytes} {laws : IndexLaws crypto public_key}.

(** C28: a wire image is accepted exactly when it is the encoding of a well-formed
    index (paths valid, immutable and strictly ascending, modes within 0777, the
    total the sum of the sizes) with the digest of its entries and a signature that
    verifies under the expected key; any other input is refused with an error, the
    output emptied, whatever its octets, and no byte outside the input is read. *)
Theorem index_parse_correct malloc_ok key wire out :
  (forall n, malloc_ok n = true) -> md_ctx = true -> bytes_ok wire ->
  (forall idx, alrios_package_index_parse_and_verify malloc_ok (Some wire) (len wire) (Some key) (Some out)
     = Ok (INDEX_OK, Some idx) <-> signed_by key idx wire) /\
  ((forall idx, ~ signed_by key idx wire) -> exists st, st <> INDEX_OK /\
     alrios_package_index_parse_and_verify malloc_ok (Some wire) (len wire) (Some key) (Some out)
     = Ok (st, Some empty_index)).
Proof.
  intros Hmem Hctx Hok. cbn [alrios_package_index_parse_and_verify].
  pose proof (parse_proper malloc_ok wire (len wire) key) as Hp.
  pose proof (parse_no_fault malloc_ok wire (len wire) key Hok ltac:(pose proof (len_nonneg wire); lia)) as Hf.
  split.
  - intros idx. split; [|intros Hs; by rewrite (parse_signed malloc_ok Hmem Hctx _ idx)].
    destruct (parse_and_verify _ _ _ _) as [i|e|] eqn:E; [|intros [= -> _]; by destruct (Hp 0)|done].
    intros [= <-]. by apply (parse_inv malloc_ok Hmem Hctx).
  - intros Hno. destruct (parse_and_verify _ _ _ _) as [i|e|] eqn:E; [| |done].
    + exfalso. apply (Hno i). by apply (parse_inv malloc_ok Hmem Hctx).
    + exists e. split; [by apply Hp|done].
Qed.

(** C33: a build ends; when it succeeds, the image is accepted under the public key, it
    lists exactly the regular files of the tree (except the names passed over), with
    their modes, sizes and digests, and the same tree verifies against it, however
    [read] cuts the files and whenever it is interrupted. Whatever calls fail during the
    build, reads and a file replaced behind [fstatat] included, it ends with a status. *)
Theorem built_index_verifies malloc_ok reads opened same io_ok eloop name d key :
  faithful reads -> dir_ok d ->
  exists st wire, alrios_package_index_build_directory malloc_ok reads opened same io_ok eloop (Some name) (Some (Directory d)) (Some key)
      = Ok (st, wire) /\
    (st = INDEX_OK -> exists idx listed,
      alrios_package_index_parse_and_verify all_served (Some wire) (len wire) (Some (public_key key)) (Some empty_index)
        = Ok (INDEX_OK, Some idx) /\
      entries idx ≡ₚ listed /\ Forall2 entry_of (files_of d []) listed /\
      forall reads', undisturbed reads' ->
        alrios_package_index_verify_directory all_served reads' all_calls eloop (Some idx) (Some name) (Some (Directory d))
        = INDEX_OK).
Proof.
  intros Hreads Hd. destruct (build_spec malloc_ok reads opened same io_ok eloop Hreads name d key Hd) as (st & wire & E & Hs).
  exists st, wire. split; [done|]. intros ->. destruct (Hs eq_refl) as (Hn & Hctx & idx & listed & Hsig & Hperm & Hof).
  exists idx, listed. split_and!; [|done|done|].
  - cbn [alrios_package_index_parse_and_verify]. by rewrite (parse_signed _ (fun _ => eq_refl) Hctx _ idx).
  - intros reads' Hr'. cbn [alrios_package_index_verify_directory]. rewrite len_nonempty by done.
    apply verify_entries_complete; try done; [by apply undisturbed_faithful|intros; apply Hr'|by destruct Hsig as [[]]|].
    rewrite Hperm. by apply walk_present.
Qed.

(** A later tree that verifies against the index built from [d] has every regular
    file of [d] at the same path, with the same permission bits, the same size and the
    same content, unless the content is a second preimage under SHA-256. *)
Theorem verify_detects_changes malloc_ok reads opened same io_ok eloop malloc_ok' reads' io_ok' eloop' name name' d d' key wire idx :
  faithful reads -> faithful reads' -> dir_ok d ->
  alrios_package_index_build_directory malloc_ok reads opened same io_ok eloop (Some name) (Some (Directory d)) (Some key)
    = Ok (INDEX_OK, wire) ->
  alrios_package_index_parse_and_verify all_served (Some wire) (len wire) (Some (public_key key)) (Some empty_index)
    = Ok (INDEX_OK, Some idx) ->
  alrios_package_index_verify_directory malloc_ok' reads' io_ok' eloop' (Some idx) (Some name') (Some (Directory d'))
    = INDEX_OK ->
  forall path mode content, In (path, mode, content) (files_of d []) ->
  exists mode' content', open_segments (Directory d') (segments path) = Some (mode', content') /\
    Z.land mode' 511 = Z.land mode 511 /\ len content' = len content /\
    (content' = content \/ (content' <> content /\ is_Some (sha256 [content]) /\ sha256 [content'] = sha256 [content])).
Proof.
  intros Hp Hp' Hd Hb Hread Hv path mode content Hin.
  destruct (build_spec malloc_ok reads opened same io_ok eloop Hp name d key Hd) as (st & w & E & Hs).
  rewrite Hb in E. injection E as <- <-. destruct (Hs eq_refl) as (_ & Hctx & idx0 & listed & Hsig & Hperm & Hof).
  cbn [alrios_package_index_parse_and_verify] in Hread.
  rewrite (parse_signed all_served (fun _ => eq_refl) Hctx _ idx0 _ Hsig) in Hread. injection Hread as ->.
  cbn [alrios_package_index_verify_directory] in Hv. destruct (len name' =? 0); [done|].
  destruct (io_ok' []); [|done]. apply verify_entries_sound in Hv; [|done].
  destruct (proj2 (Forall2_in _ _ _ Hof) _ Hin) as (e & He & Hpath & Hmode & Hsize & Hsha). cbn [fst snd] in *.
  rewrite Hperm in Hv. apply (proj1 (List.Forall_forall _ _)) with (x := e) in Hv; [|done].
  destruct Hv as (mode' & content' & Ho & (_ & Hm & Hl & Hs')). cbn [fst snd] in *. rewrite Hpath in Ho.
  exists mode', content'. split_and!; [done|congruence|congruence|].
  destruct (decide (content' = content)) as [|Hne]; [by left|right]. split; [done|]. rewrite Hsha, Hs'. by split; [eexists|].
Qed.
End Properties.

Lemma sample_built : exists wire idx,
  build_from sample_tree = Ok (INDEX_OK, wire) /\ read_back wire = Ok (INDEX_OK, Some idx) /\ bytes_okb wire = true /\
  map e_path (entries idx) = [lit "bin/app"; lit "readme"].
Proof.
  assert (H : match build_from sample_tree with
              | Ok (0, wire) => match read_back wire with
                                | Ok (0, Some idx) => bytes_okb wire = true /\ map e_path (entries idx) = [lit "bin/app"; lit "readme"]
                                | _ => False
                                end
              | _ => False
              end) by (vm_compute; by split).
  destruct (build_from sample_tree) as [[[] wire]| |]; try done.
  destruct (read_back wire) as [[[] [idx|]]| |] eqn:E; try done. destruct H. by exists wire, idx.
Qed.

Lemma index_parse_correct_witness :
  exists wire idx, build_from sample_tree = Ok (INDEX_OK, wire) /\ signed_by [7] idx wire.
Proof.
  destruct sample_built as (wire & idx & Hb & Hr & Hok & _). exists wire, idx. split; [exact Hb|].
  apply (proj1 (@index_parse_correct toy_crypto (fun k => k) toy_index_laws all_served [7] wire empty_index (fun _ => eq_refl) eq_refl (bytes_okb_ok _ Hok)) idx).
  exact Hr.
Defined.

Lemma built_index_verifies_witness :
  exists wire idx, build_from sample_tree = Ok (INDEX_OK, wire) /\ read_back wire = Ok (INDEX_OK, Some idx) /\
    alrios_package_index_verify_directory all_served octets all_calls no_loop (Some idx) (Some (lit "app"))
      (Some (Directory sample_tree)) = INDEX_OK.
Proof.
  destruct (@built_index_verifies toy_crypto (fun k => k) toy_index_laws all_served octets all_calls all_calls all_calls no_loop (lit "app") sample_tree [7]
    (undisturbed_faithful _ octets_undisturbed) sample_tree_ok)
    as (st & wire & E & Hs).
  destruct sample_built as (wire' & idx' & Hb & _ & _ & _). unfold build_from in Hb.
  rewrite Hb in E. injection E as <- <-. destruct (Hs eq_refl) as (idx & listed & Hr & _ & _ & Hv).
  exists wire', idx. split; [exact Hb|]. split; [exact Hr|]. exact (Hv octets octets_undisturbed).
Defined.

(** Verified against the tree itself. *)
Lemma verify_detects_changes_witness :
  exists mode content, open_segments (Directory sample_tree) (segments (lit "bin/app")) = Some (mode, content) /\
    Z.land mode 511 = 493.
Proof.
  destruct sample_built as (wire & idx & Hb & Hr & _ & _).
  destruct (@verify_detects_changes toy_crypto (fun k => k) toy_index_laws all_served octets all_calls all_calls all_calls no_loop all_served octets all_calls no_loop
    (lit "app") (lit "app") sample_tree sample_tree [7] wire idx
    (undisturbed_faithful _ octets_undisturbed) (undisturbed_faithful _ octets_undisturbed) sample_tree_ok Hb Hr)
    with (path := lit "bin/app") (mode := 33261) (content := [0; 255; 7]) as (mode & content & Ho & Hm & _).
  - revert Hr. revert Hb. assert (H : match build_from sample_tree with
      | Ok (0, w) => match read_back w with
                     | Ok (0, Some i) => alrios_package_index_verify_directory all_served octets all_calls no_loop (Some i) (Some (lit "app"))
                                          (Some (Directory sample_tree)) = INDEX_OK
                     | _ => False end
      | _ => False end) by (vm_compute; reflexivity).
    intros Hb Hr. rewrite Hb in H. rewrite Hr in H. exact H.
  - vm_compute. by right; left.
  - exists mode, content. split; [exact Ho|]. exact Hm.
Defined.
