(* ===== verification/Drain.v ===== *)
(** The drain of a node's streams (src/libraries/deploy/drain.c).

    The tracker is shared by threads. A function of the library is a program [prog] over
    the actions that other threads can observe: the atomic loads and stores of [state],
    the spin lock, the accesses to the other fields, the clock. [run] interleaves the
    programs of any number of threads, one action at a time, as a schedule says.
    [config] is not written after the initialisation, so it is a parameter.

    [alrios_drain_process_await], which shares no memory, is in a section of its own. *)

From stdpp Require Import gmap.
From S2P Require Import Prelude.
#[local] Open Scope Z_scope.

Definition DRAIN_OK : Z := 0.

Definition DRAIN_ERR_INVALID : Z := -1.

Definition DRAIN_ERR_STATE : Z := -2.

Definition DRAIN_ERR_TIMEOUT : Z := -3.

Definition DRAIN_ERR_LIMIT : Z := -4.

Definition DRAIN_ERR_NOT_FOUND : Z := -5.

Definition DRAIN_DEFAULT_TIMEOUT_MS : Z := 5000.

Definition DRAIN_DEFAULT_GRACE_MS : Z := 1000.

Definition DRAIN_MAX_STREAMS : Z := 1024.

(** ** Data *)

Inductive drain_state :=
  | STATE_IDLE
  | STATE_ACTIVE
  | STATE_DRAINING
  | STATE_COMPLETED
  | STATE_TIMED_OUT.

#[export] Instance drain_state_eq_dec : EqDecision drain_state.
Proof. solve_decision. Defined.

(** [STREAM_UNUSED] is the zero of [calloc]. *)
Inductive stream_state :=
  | STREAM_UNUSED
  | STREAM_STATE_OPEN
  | STREAM_STATE_CLOSING
  | STREAM_STATE_CLOSED.

#[export] Instance stream_state_eq_dec : EqDecision stream_state.
Proof. solve_decision. Defined.

Record drain_stream := mk_stream {
  stream_id : Z;
  fd : Z;
  s_state : stream_state;
  connected_at_ms : Z;
  user_data : Z;
}.

Definition zero_stream : drain_stream := mk_stream 0 0 STREAM_UNUSED 0 0.

Record drain_config := mk_config {
  drain_timeout_ms : Z;
  grace_period_ms : Z;
  max_streams : Z;
}.

Record drain_stats := mk_stats {
  st_accepted : Z;
  st_completed : Z;
  st_timed_out : Z;
  st_active : Z;
}.

(** The fields of the tracker that the lock protects; [woken] counts the calls of
    [write] on the pipe. *)
Record fields := mk_fields {
  streams : list drain_stream;
  stream_capacity : Z;
  active_count : Z;
  drain_start_ms : Z;
  total_accepted : Z;
  total_completed : Z;
  total_timed_out : Z;
  notify_pipe : bool;
  woken : Z;
}.

(** The tracker in memory; [owner] is the thread that has set the lock flag. *)
Record shared := mk_shared {
  state : drain_state;
  data : fields;
  owner : option nat;
}.

(** ** Programs *)

Inductive prog (A : Type) : Type :=
  | Ret (v : A)
  | Load (k : drain_state -> prog A)
  | Store (st : drain_state) (k : prog A)
  | Acquire (k : prog A)
  | Release (k : prog A)
  | Read (k : fields -> prog A)
  | Write (f : fields -> fields) (k : prog A)
  | Clock (k : Z -> prog A)
  | Sleep (ms : Z) (k : prog A).

Arguments Ret {A} v.
Arguments Load {A} k.
Arguments Store {A} st k.
Arguments Acquire {A} k.
Arguments Release {A} k.
Arguments Read {A} k.
Arguments Write {A} f k.
Arguments Clock {A} k.
Arguments Sleep {A} ms k.

Fixpoint pbind {A B} (p : prog A) (f : A -> prog B) : prog B :=
  match p with
  | Ret v => f v
  | Load k => Load (fun st => pbind (k st) f)
  | Store st k => Store st (pbind k f)
  | Acquire k => Acquire (pbind k f)
  | Release k => Release (pbind k f)
  | Read k => Read (fun x => pbind (k x) f)
  | Write g k => Write g (pbind k f)
  | Clock k => Clock (fun t => pbind (k t) f)
  | Sleep ms k => Sleep ms (pbind k f)
  end.

(** ** The functions of the library *)

(** A stream that counts: not closed, with an identifier. *)
Definition in_use (s : drain_stream) : bool :=
  negb (stream_id s =? 0) && negb (bool_decide (s_state s = STREAM_STATE_CLOSED)).

(** The loop of the registration from index [i] on: [None] when the identifier is
    taken, otherwise the first free index, or the capacity. *)
Fixpoint find_free (l : list drain_stream) (i capacity id free_idx : Z) : option Z :=
  match l with
  | [] => Some free_idx
  | s :: l =>
      if (stream_id s =? id) && negb (bool_decide (s_state s = STREAM_STATE_CLOSED)) then None
      else
        find_free l (i + 1) capacity id
          (if (free_idx =? capacity)
              && ((stream_id s =? 0) || bool_decide (s_state s = STREAM_STATE_CLOSED))
           then i else free_idx)
  end.

(** The stream at [i] and the counters after a registration. *)
Definition register_at (i fd_ id now user : Z) (f : fields) : fields :=
  mk_fields (<[Z.to_nat i := mk_stream id fd_ STREAM_STATE_OPEN now user]> (streams f)) (stream_capacity f)
    (active_count f + 1) (drain_start_ms f) (u64 (total_accepted f + 1)) (total_completed f) (total_timed_out f)
    (notify_pipe f) (woken f).

Definition alrios_drain_stream_register (fd_ id user : Z) : prog Z :=
  if id =? 0 then Ret DRAIN_ERR_INVALID
  else
    Load (fun st =>
    if negb (bool_decide (st = STATE_ACTIVE)) then Ret DRAIN_ERR_STATE
    else
      Acquire (Load (fun st =>
      if negb (bool_decide (st = STATE_ACTIVE)) then Release (Ret DRAIN_ERR_STATE)
      else
        Read (fun f =>
        match find_free (streams f) 0 (stream_capacity f) id (stream_capacity f) with
        | None => Release (Ret DRAIN_ERR_INVALID)
        | Some free_idx =>
            if free_idx >=? stream_capacity f then Release (Ret DRAIN_ERR_LIMIT)
            else Clock (fun now => Write (register_at free_idx fd_ id now user) (Release (Ret DRAIN_OK)))
        end)))).

(** The index of the open stream with the identifier, or the capacity. *)
Fixpoint find_open (l : list drain_stream) (i capacity id : Z) : Z :=
  match l with
  | [] => capacity
  | s :: l =>
      if (stream_id s =? id) && negb (bool_decide (s_state s = STREAM_STATE_CLOSED)) then i
      else find_open l (i + 1) capacity id
  end.

Definition close_stream (s : drain_stream) : drain_stream :=
  mk_stream 0 (fd s) STREAM_STATE_CLOSED (connected_at_ms s) (user_data s).

Definition complete_at (i : Z) (f : fields) : fields :=
  mk_fields (alter close_stream (Z.to_nat i) (streams f)) (stream_capacity f)
    (if active_count f >? 0 then active_count f - 1 else active_count f) (drain_start_ms f)
    (total_accepted f) (u64 (total_completed f + 1)) (total_timed_out f) (notify_pipe f) (woken f).

Definition alrios_drain_stream_complete (id : Z) : prog Z :=
  if id =? 0 then Ret DRAIN_ERR_INVALID
  else
    Acquire (Read (fun f =>
    let found_idx := find_open (streams f) 0 (stream_capacity f) id in
    if found_idx >=? stream_capacity f then Release (Ret DRAIN_ERR_NOT_FOUND)
    else
      Write (complete_at found_idx) (Load (fun st => Read (fun f =>
      if bool_decide (st = STATE_DRAINING) && (active_count f =? 0)
      then Store STATE_COMPLETED (Release (Ret DRAIN_OK))
      else Release (Ret DRAIN_OK)))))).

Definition alrios_drain_is_draining : prog bool :=
  Load (fun st => Ret (bool_decide (st = STATE_DRAINING))).

Definition alrios_drain_active_count : prog Z :=
  Acquire (Read (fun f => Release (Ret (active_count f)))).

Definition start_at (now : Z) (f : fields) : fields :=
  mk_fields (streams f) (stream_capacity f) (active_count f) now (total_accepted f) (total_completed f)
    (total_timed_out f) (notify_pipe f) (woken f).

Definition wake (f : fields) : fields :=
  mk_fields (streams f) (stream_capacity f) (active_count f) (drain_start_ms f) (total_accepted f)
    (total_completed f) (total_timed_out f) (notify_pipe f) (if notify_pipe f then woken f + 1 else woken f).

Definition alrios_drain_begin : prog Z :=
  Acquire (Clock (fun now => Write (start_at now) (Read (fun f =>
  Store (if active_count f =? 0 then STATE_COMPLETED else STATE_DRAINING)
    (Write wake (Release (Ret DRAIN_OK))))))).

(** The streams that are left count as timed out. *)
Definition time_out (f : fields) : fields :=
  mk_fields (streams f) (stream_capacity f) (active_count f) (drain_start_ms f) (total_accepted f)
    (total_completed f) (u64 (total_timed_out f + active_count f)) (notify_pipe f) (woken f).

Definition alrios_drain_get_stats : prog drain_stats :=
  Acquire (Read (fun f =>
  Release (Ret (mk_stats (total_accepted f) (total_completed f) (total_timed_out f) (active_count f))))).

Section Config.
Context (config : drain_config).

Definition alrios_drain_poll : prog Z :=
  Load (fun st =>
  match st with
  | STATE_COMPLETED => Ret DRAIN_OK
  | STATE_TIMED_OUT => Ret DRAIN_ERR_TIMEOUT
  | STATE_DRAINING =>
      Acquire (Read (fun f =>
      if active_count f =? 0 then Store STATE_COMPLETED (Release (Ret DRAIN_OK))
      else
        Clock (fun now =>
        if now >=? u64 (drain_start_ms f + drain_timeout_ms config)
        then Store STATE_TIMED_OUT (Write time_out (Release (Ret DRAIN_ERR_TIMEOUT)))
        else Release (Ret 1))))
  | _ => Ret 1
  end).

(** One turn of the loop of the wait: its result, or none to go on. *)
Definition wait_turn (deadline : Z) : prog (option Z) :=
  pbind alrios_drain_poll (fun pr =>
  if pr =? DRAIN_OK then Ret (Some DRAIN_OK)
  else if pr =? DRAIN_ERR_TIMEOUT then Ret (Some DRAIN_ERR_TIMEOUT)
  else
    Clock (fun now =>
    if now >=? deadline
    then Acquire (Store STATE_TIMED_OUT (Write time_out (Release (Ret (Some DRAIN_ERR_TIMEOUT)))))
    else Sleep 5 (Ret None))).

(** What comes before the loop: the deadline. *)
Definition alrios_drain_wait_complete (timeout_ms : Z) : prog Z :=
  let limit_ms := if timeout_ms >? 0 then timeout_ms else drain_timeout_ms config in
  let limit_ms := if limit_ms =? 0 then DRAIN_DEFAULT_TIMEOUT_MS else limit_ms in
  Clock (fun now => Ret (u64 (now + limit_ms))).

(** ** Threads *)

Inductive call :=
  | Register (fd_ id user : Z)
  | Complete (id : Z)
  | Begin
  | Poll
  | Wait (timeout_ms : Z)
  | IsDraining
  | ActiveCount
  | Stats.

Inductive value :=
  | Int (z : Z)
  | Snapshot (s : drain_stats).

(** A call that runs, with the turn of the loop of a wait. *)
Inductive running :=
  | Ready
  | Run (p : prog value)
  | Enter (p : prog Z)
  | Turn (deadline : Z) (p : prog (option Z)).

Record thread := mk_thread {
  calls : list call;
  current : call;
  cur : running;
  results : list (call * value);
}.

Definition start (c : call) : running :=
  match c with
  | Register fd_ id user => Run (pbind (alrios_drain_stream_register fd_ id user) (fun r => Ret (Int r)))
  | Complete id => Run (pbind (alrios_drain_stream_complete id) (fun r => Ret (Int r)))
  | Begin => Run (pbind alrios_drain_begin (fun r => Ret (Int r)))
  | Poll => Run (pbind alrios_drain_poll (fun r => Ret (Int r)))
  | Wait timeout_ms => Enter (alrios_drain_wait_complete timeout_ms)
  | IsDraining => Run (pbind alrios_drain_is_draining (fun b => Ret (Int (if b : bool then 1 else 0))))
  | ActiveCount => Run (pbind alrios_drain_active_count (fun n => Ret (Int n)))
  | Stats => Run (pbind alrios_drain_get_stats (fun s => Ret (Snapshot s)))
  end.

(** One action of thread [t]; [now] is what the clock would say. A turn of the spin
    loop changes nothing. *)
Definition advance {A} (t : nat) (now : Z) (p : prog A) (s : shared) : prog A * shared :=
  match p with
  | Ret v => (Ret v, s)
  | Load k => (k (state s), s)
  | Store st k => (k, mk_shared st (data s) (owner s))
  | Acquire k =>
      match owner s with
      | None => (k, mk_shared (state s) (data s) (Some t))
      | Some _ => (Acquire k, s)
      end
  | Release k => (k, mk_shared (state s) (data s) None)
  | Read k => (k (data s), s)
  | Write f k => (k, mk_shared (state s) (f (data s)) (owner s))
  | Clock k => (k now, s)
  | Sleep _ k => (k, s)
  end.

Definition finish (th : thread) (v : value) : thread :=
  mk_thread (calls th) (current th) Ready (results th ++ [(current th, v)]).

Definition go_on (th : thread) (r : running) : thread := mk_thread (calls th) (current th) r (results th).

Definition step_thread (t : nat) (now : Z) (th : thread) (s : shared) : thread * shared :=
  match cur th with
  | Ready =>
      match calls th with
      | [] => (th, s)
      | c :: cs => (mk_thread cs c (start c) (results th), s)
      end
  | Run (Ret v) => (finish th v, s)
  | Run p => let '(p, s) := advance t now p s in (go_on th (Run p), s)
  | Enter (Ret deadline) => (go_on th (Turn deadline (wait_turn deadline)), s)
  | Enter p => let '(p, s) := advance t now p s in (go_on th (Enter p), s)
  | Turn deadline (Ret (Some v)) => (finish th (Int v), s)
  | Turn deadline (Ret None) => (go_on th (Turn deadline (wait_turn deadline)), s)
  | Turn deadline p => let '(p, s) := advance t now p s in (go_on th (Turn deadline p), s)
  end.

(** A schedule says which thread acts next, and the clock. *)
Fixpoint run (schedule : list (nat * Z)) (threads : list thread) (s : shared) : list thread * shared :=
  match schedule with
  | [] => (threads, s)
  | (t, now) :: schedule =>
      match threads !! t with
      | None => run schedule threads s
      | Some th => let '(th, s) := step_thread t now th s in run schedule (<[t := th]> threads) s
      end
  end.

Definition spawn (cs : list call) : thread := mk_thread cs Stats Ready [].

End Config.

(** ** Initialisation and destruction *)

Definition effective_config (config : option drain_config) : drain_config :=
  let c := match config with
           | Some c => c
           | None => mk_config DRAIN_DEFAULT_TIMEOUT_MS DRAIN_DEFAULT_GRACE_MS DRAIN_MAX_STREAMS
           end in
  mk_config (if drain_timeout_ms c =? 0 then DRAIN_DEFAULT_TIMEOUT_MS else drain_timeout_ms c) (grace_period_ms c)
    (if max_streams c =? 0 then DRAIN_MAX_STREAMS else max_streams c).

(** [calloc_ok] and [pipe_ok] are the answers of the system. *)
Definition alrios_drain_tracker_init (config : option drain_config) (calloc_ok pipe_ok : bool)
    : Z * option (drain_config * shared) :=
  let config := effective_config config in
  if negb calloc_ok then (DRAIN_ERR_INVALID, None)
  else
    (DRAIN_OK,
     Some (config, mk_shared STATE_ACTIVE
       (mk_fields (replicate (Z.to_nat (max_streams config)) zero_stream) (max_streams config) 0 0 0 0 0 pipe_ok 0) None)).

(** The caller sees to it that no other call is under way. *)
Definition alrios_drain_tracker_destroy : prog unit :=
  Acquire (Write (fun f => mk_fields [] 0 0 (drain_start_ms f) (total_accepted f) (total_completed f)
                             (total_timed_out f) false (woken f))
    (Release (Store STATE_IDLE (Ret tt)))).

(** ** Waiting for a process

    The environment answers the [i]-th system call; a call takes [delay i]
    milliseconds, and a sleep at least what was asked. *)
Inductive signal := SIGNAL_TERM | SIGNAL_KILL.

Record environment := mk_env {
  delay : nat -> Z;
  (** [clock_gettime] succeeds. *)
  clock_ok : nat -> bool;
  (** [ar_process_wait_raw_nohang]: the result and the status. *)
  wait_nohang : nat -> Z * Z;
  (** Signal 0 fails: there is no such process. *)
  gone : nat -> bool;
}.

(** The number of calls so far, the time, and the signals sent with their times. *)
Record progress := mk_progress {
  at_call : nat;
  time : Z;
  sent : list (signal * Z);
}.

Section Await.
Context (env : environment).

Definition after (ms : Z) (w : progress) : progress :=
  mk_progress (S (at_call w)) (time w + delay env (at_call w) + ms) (sent w).

Definition drain_monotonic_ms (w : progress) : Z * progress :=
  (if clock_ok env (at_call w) then time w else 0, after 0 w).

Definition send (g : signal) (w : progress) : progress :=
  mk_progress (S (at_call w)) (time w + delay env (at_call w)) (sent w ++ [(g, time w)]).

(** [WIFEXITED], [WEXITSTATUS], [WIFSIGNALED], [WTERMSIG]; otherwise [out_exit_status]
    keeps its zero. *)
Definition exit_status (status : Z) : Z :=
  let signal := Z.land status 127 in
  if signal =? 0 then Z.land (Z.shiftr status 8) 255
  else if signal =? 127 then 0 else - signal.

(** One turn of a waiting loop: the exit status if the process is over. *)
Definition check (w : progress) : option Z * progress :=
  let '(wait_result, status) := wait_nohang env (at_call w) in
  let w := after 0 w in
  if wait_result >? 0 then (Some (exit_status status), w)
  else if wait_result <? 0 then
    let g := gone env (at_call w) in
    let w := after 0 w in
    (if g then Some 0 else None, w)
  else (None, w).

(** The loop up to the deadline: the exit status, or none when it has passed. *)
Fixpoint await_until (fuel : nat) (deadline : Z) (w : progress) : option (option Z * progress) :=
  match fuel with
  | O => None
  | S fuel =>
      let '(exit, w) := check w in
      match exit with
      | Some status => Some (Some status, w)
      | None =>
          let '(now, w) := drain_monotonic_ms w in
          if now >=? deadline then Some (None, w) else await_until fuel deadline (after 10 w)
      end
  end.

(** The twenty turns after the last signal; the exit status is that of a process
    that was reaped. *)
Fixpoint await_killed (turns : nat) (w : progress) : Z * progress :=
  match turns with
  | O => (0, w)
  | S turns =>
      let '(wait_result, status) := wait_nohang env (at_call w) in
      let w := after 0 w in
      if negb (wait_result =? 0) then (if wait_result >? 0 then exit_status status else 0, w)
      else await_killed turns (after 10 w)
  end.

(** The status, [*out_exit_status] and what was done. *)
Definition alrios_drain_process_await (fuel : nat) (pid timeout_ms grace_period_ms start : Z) : option (Z * Z * progress) :=
  let w := mk_progress 0 start [] in
  if pid <=? 1 then Some (DRAIN_ERR_INVALID, 0, w)
  else
    let wait_limit_ms := if timeout_ms >? 0 then timeout_ms else DRAIN_DEFAULT_TIMEOUT_MS in
    let grace_limit_ms := if grace_period_ms >? 0 then grace_period_ms else DRAIN_DEFAULT_GRACE_MS in
    let '(now, w) := drain_monotonic_ms w in
    match await_until fuel (u64 (now + wait_limit_ms)) w with
    | None => None
    | Some (Some status, w) => Some (DRAIN_OK, status, w)
    | Some (None, w) =>
        let w := send SIGNAL_TERM w in
        let '(now, w) := drain_monotonic_ms w in
        match await_until fuel (u64 (now + grace_limit_ms)) w with
        | None => None
        | Some (Some status, w) => Some (DRAIN_OK, status, w)
        | Some (None, w) =>
            let '(status, w) := await_killed 20 (send SIGNAL_KILL w) in
            Some (DRAIN_ERR_TIMEOUT, status, w)
        end
    end.
End Await.

(** ** Specification *)

(** The identifiers of the streams in use. *)
Definition open_ids (f : fields) : list Z := map stream_id (filter (fun s => in_use s = true) (streams f)).

(** What holds of the tracker whenever nobody has the lock. *)
Record consistent (st : drain_state) (f : fields) : Prop := {
  cs_capacity : len (streams f) = stream_capacity f;
  cs_ids : NoDup (open_ids f);
  cs_active : active_count f = len (open_ids f);
  cs_total : total_accepted f = u64 (total_completed f + active_count f);
  cs_completed : st = STATE_COMPLETED -> active_count f = 0;
  cs_state : st <> STATE_IDLE;
}.

(** Nothing is left, and nothing new will come. *)
Definition drained (st : drain_state) (f : fields) : Prop := st <> STATE_ACTIVE /\ active_count f = 0.

(** How the tracker may change: once it has left the active state, it does not go
    back, no stream is added, and what is drained stays so. *)
Definition evolves (st : drain_state) (f : fields) (st' : drain_state) (f' : fields) : Prop :=
  (st' = STATE_COMPLETED -> active_count f' = 0) /\
  (st <> STATE_ACTIVE -> st' <> STATE_ACTIVE /\ incl (open_ids f') (open_ids f) /\ (active_count f = 0 -> active_count f' = 0)).

(** The actions that the lock protects. *)
Definition protected {A} (p : prog A) : bool :=
  match p with Store _ _ | Release _ | Read _ | Write _ _ => true | _ => false end.

Definition next_protected (r : running) : bool :=
  match r with Ready => false | Run p => protected p | Enter p => protected p | Turn _ p => protected p end.

(** The answer of a call that says the drain is over. *)
Definition says_drained (c : call) (v : value) : bool :=
  match c, v with
  | Poll, Int z | Wait _, Int z => z =? DRAIN_OK
  | _, _ => false
  end.

(** ** A logic for programs with a lock

    [outside] is a program of a thread that does not hold the lock, [inside] one of the
    holder, who knows the tracker. [known] is what has been observed of a drain that is
    over; a result [v] with [claim v] promises it. *)

Section Logic.
Context {A : Type} (claim : A -> bool).

Fixpoint outside (known : Prop) (p : prog A) {struct p} : Prop :=
  match p with
  | Ret v => claim v = true -> known
  | Load k => forall st, outside (known \/ st = STATE_COMPLETED) (k st)
  | Acquire k => forall st f, consistent st f -> (known -> drained st f) -> inside known st f k
  | Clock k => forall now, outside known (k now)
  | Sleep _ k => outside known k
  | Store _ _ | Release _ | Read _ | Write _ _ => False
  end
with inside (known : Prop) (st : drain_state) (f : fields) (p : prog A) {struct p} : Prop :=
  match p with
  | Ret _ | Acquire _ => False
  | Load k => inside known st f (k st)
  | Store st' k => evolves st f st' f /\ inside known st' f k
  | Release k => consistent st f /\ outside (known \/ drained st f) k
  | Read k => inside known st f (k f)
  | Write g k => evolves st f st (g f) /\ inside known st (g f) k
  | Clock k => forall now, inside known st f (k now)
  | Sleep _ k => inside known st f k
  end.
End Logic.

(** ** The streams *)

Lemma open_ids_in f id : In id (open_ids f) <-> exists s, In s (streams f) /\ stream_id s = id /\ in_use s = true.
Proof.
  unfold open_ids. rewrite in_map_iff. setoid_rewrite <- list_elem_of_In. setoid_rewrite list_elem_of_filter. firstorder.
Qed.

Lemma in_use_test s id :
  id <> 0 -> (stream_id s =? id) && negb (bool_decide (s_state s = STREAM_STATE_CLOSED)) = true <->
  stream_id s = id /\ in_use s = true.
Proof.
  intros Hid. unfold in_use. destruct (stream_id s =? id) eqn:E; cbn [andb].
  - bool_hyps. replace (stream_id s =? 0) with false by lia. cbn [negb andb]. tauto.
  - bool_hyps. split; [done|]. by intros [? _].
Qed.

Lemma free_test s : (stream_id s =? 0) || bool_decide (s_state s = STREAM_STATE_CLOSED) = negb (in_use s).
Proof. unfold in_use. destruct (_ =? 0), (bool_decide _); done. Qed.

Lemma find_free_None l i capacity id fr :
  id <> 0 -> find_free l i capacity id fr = None <-> exists s, In s l /\ stream_id s = id /\ in_use s = true.
Proof.
  intros Hid. revert i fr. induction l as [|s l IH]; intros i fr; cbn [find_free].
  { split; [done|]. by intros (? & [] & _). }
  destruct (_ && _) eqn:E.
  - apply (in_use_test s id Hid) in E. split; [|done]. intros _. exists s. split; [by left|done].
  - rewrite IH. split.
    + intros (s' & ? & ?). exists s'. split; [by right|done].
    + intros (s' & [<-|?] & Hs); [|by exists s']. apply (in_use_test s id Hid) in Hs. by rewrite Hs in E.
Qed.

Lemma find_free_Some l i capacity id fr j :
  i + len l <= capacity -> find_free l i capacity id fr = Some j ->
  j = fr \/ exists s, i <= j /\ l !! Z.to_nat (j - i) = Some s /\ in_use s = false.
Proof.
  revert i fr. induction l as [|s l IH]; intros i fr Hi; cbn [find_free].
  { intros [= <-]. by left. }
  rewrite len_cons in Hi. destruct (_ && negb _); [done|]. intros H. apply IH in H; [|lia].
  assert (Hnext : (exists s', i + 1 <= j /\ l !! Z.to_nat (j - (i + 1)) = Some s' /\ in_use s' = false) ->
    exists s', i <= j /\ (s :: l) !! Z.to_nat (j - i) = Some s' /\ in_use s' = false).
  { intros (s' & Hj & Hl & Hu). exists s'. split; [lia|]. split; [|done].
    replace (Z.to_nat (j - i)) with (S (Z.to_nat (j - (i + 1)))) by lia. done. }
  destruct H as [->|H]; [|right; by apply Hnext].
  rewrite free_test. destruct (_ && negb (in_use s)) eqn:E; [|by left]. bool_hyps. right. exists s. split; [lia|].
  rewrite Z.sub_diag. by split.
Qed.

Lemma find_open_spec l i capacity id :
  id <> 0 -> i + len l <= capacity ->
  (find_open l i capacity id = capacity /\ forall s, In s l -> stream_id s = id -> in_use s = false) \/
  exists s, i <= find_open l i capacity id < capacity /\ l !! Z.to_nat (find_open l i capacity id - i) = Some s /\
    stream_id s = id /\ in_use s = true.
Proof.
  intros Hid. revert i. induction l as [|s l IH]; intros i Hi; cbn [find_open]; [by left; split|].
  rewrite len_cons in Hi. pose proof (len_nonneg l). destruct (_ && negb _) eqn:E.
  - apply (in_use_test s id Hid) in E. right. exists s. rewrite Z.sub_diag. split; [lia|]. by split.
  - destruct (IH (i + 1) ltac:(lia)) as [[-> Hno]|(s' & Hr & Hl & Hs)].
    + left. split; [done|]. intros s' [<-|?] Hs; [|by apply Hno].
      destruct (in_use s) eqn:Eu; [|done]. rewrite (proj2 (in_use_test s id Hid)) in E by done. done.
    + right. exists s'. split; [lia|]. split; [|done].
      by replace (Z.to_nat (find_open l (i + 1) capacity id - i)) with (S (Z.to_nat (find_open l (i + 1) capacity id - (i + 1)))) by lia.
Qed.

(** Putting a stream in a free place adds its identifier. *)
Lemma open_ids_insert l i s s' :
  l !! i = Some s -> in_use s = false -> in_use s' = true ->
  map stream_id (filter (fun s => in_use s = true) (<[i := s']> l))
  ≡ₚ stream_id s' :: map stream_id (filter (fun s => in_use s = true) l).
Proof.
  intros Hi Hs Hs'. rewrite insert_take_drop by by eapply lookup_lt_Some.
  rewrite <- (take_drop_middle l i s Hi) at 3. rewrite !list.filter_app, !list.filter_cons.
  rewrite decide_True, decide_False by (done || by rewrite Hs). rewrite !map_app. cbn [map].
  by rewrite Permutation_middle.
Qed.

Lemma alter_split {A} (g : A -> A) l i x : l !! i = Some x -> alter g i l = take i l ++ g x :: drop (S i) l.
Proof.
  revert i. induction l as [|y l IH]; intros [|i]; cbn; try done; [by intros [= ->]|]. intros H. f_equal. by apply IH.
Qed.

(** Closing a stream takes its identifier away. *)
Lemma open_ids_alter l i s :
  l !! i = Some s -> in_use s = true ->
  map stream_id (filter (fun s => in_use s = true) l)
  ≡ₚ stream_id s :: map stream_id (filter (fun s => in_use s = true) (alter close_stream i l)).
Proof.
  intros Hi Hs. rewrite (alter_split _ _ _ s Hi). rewrite <- (take_drop_middle l i s Hi) at 1.
  rewrite !list.filter_app, !list.filter_cons.
  rewrite decide_True, decide_False by done. rewrite !map_app. cbn [map].
  by rewrite Permutation_middle.
Qed.

(** ** What the functions do to the tracker *)

Lemma consistent_register f i fd_ id now user s :
  consistent STATE_ACTIVE f -> 0 <= i -> streams f !! Z.to_nat i = Some s -> in_use s = false -> id <> 0 ->
  ~ In id (open_ids f) -> consistent STATE_ACTIVE (register_at i fd_ id now user f).
Proof.
  intros [Hcap Hids Hact Htot Hc Hs] Hi Hl Hu Hid Hno.
  assert (Hp : open_ids (register_at i fd_ id now user f) ≡ₚ id :: open_ids f).
  { apply (open_ids_insert _ _ s (mk_stream id fd_ STREAM_STATE_OPEN now user)); [done..|].
    unfold in_use. cbn. by rewrite (proj2 (Z.eqb_neq id 0)). }
  assert (Hl' : len (open_ids (register_at i fd_ id now user f)) = len (open_ids f) + 1).
  { unfold len. rewrite (Permutation_length Hp). cbn [length]. lia. }
  split; cbn [streams stream_capacity active_count total_accepted total_completed register_at]; try done.
  - unfold len. by rewrite length_insert.
  - rewrite Hp. apply list.NoDup_cons. split; [by rewrite list_elem_of_In|done].
  - lia.
  - rewrite Htot. unfold u64. rewrite Zplus_mod_idemp_l. f_equal. lia.
Qed.

Lemma consistent_complete st f i s :
  consistent st f -> 0 <= i -> streams f !! Z.to_nat i = Some s -> in_use s = true ->
  incl (open_ids (complete_at i f)) (open_ids f) /\ active_count (complete_at i f) = active_count f - 1 /\
  0 < active_count f /\
  forall st', st' <> STATE_IDLE -> (st' = STATE_COMPLETED -> active_count f = 1) -> consistent st' (complete_at i f).
Proof.
  intros [Hcap Hids Hact Htot Hc Hs] Hi Hl Hu.
  assert (Hp : open_ids f ≡ₚ stream_id s :: open_ids (complete_at i f)) by by apply open_ids_alter.
  assert (Hl' : len (open_ids f) = len (open_ids (complete_at i f)) + 1).
  { unfold len. rewrite (Permutation_length Hp). cbn [length]. lia. }
  pose proof (len_nonneg (open_ids (complete_at i f))).
  assert (Ha : active_count (complete_at i f) = active_count f - 1).
  { cbn. rewrite Z.gtb_ltb. by replace (0 <? active_count f) with true by lia. }
  split_and!; [|done|lia|].
  - intros x Hx. apply list_elem_of_In. rewrite Hp. right. by apply list_elem_of_In.
  - intros st' Hst Hst'. split; rewrite ?Ha; try done.
    + cbn [streams stream_capacity complete_at]. unfold len. by rewrite length_alter.
    + rewrite Hp in Hids. by apply list.NoDup_cons in Hids as [_ ?].
    + lia.
    + cbn [total_accepted total_completed complete_at]. rewrite Htot. unfold u64. rewrite Zplus_mod_idemp_l. f_equal. lia.
    + intros E. specialize (Hst' E). lia.
Qed.

Lemma evolves_refl st f : (st = STATE_COMPLETED -> active_count f = 0) -> evolves st f st f.
Proof. intros H. split; [done|]. intros Hs. split; [done|]. split; [apply incl_refl|done]. Qed.

(** The fields that the drain itself reads may change freely. *)
Lemma consistent_same st f f' :
  consistent st f -> streams f' = streams f -> stream_capacity f' = stream_capacity f ->
  active_count f' = active_count f -> total_accepted f' = total_accepted f -> total_completed f' = total_completed f ->
  consistent st f'.
Proof.
  intros [H1 H2 H3 H4 H5 H6] Es Ec Ea Et Etc. split; unfold open_ids in *; rewrite ?Es, ?Ec, ?Ea, ?Et, ?Etc; done.
Qed.

Lemma evolves_same st f f' :
  consistent st f -> streams f' = streams f -> active_count f' = active_count f -> evolves st f st f'.
Proof.
  intros [_ _ _ _ Hc _] Es Ea. split; rewrite Ea; [done|]. intros Hs. split; [done|]. split; [|done].
  unfold open_ids. rewrite Es. apply incl_refl.
Qed.

Lemma consistent_state st st' f :
  consistent st f -> st' <> STATE_IDLE -> (st' = STATE_COMPLETED -> active_count f = 0) -> consistent st' f.
Proof. intros [H1 H2 H3 H4 H5 H6] ? ?. by split. Qed.

Lemma evolves_state st st' f :
  st' <> STATE_ACTIVE -> (st' = STATE_COMPLETED -> active_count f = 0) -> evolves st f st' f.
Proof. intros H1 H2. split; [done|]. intros _. split; [done|]. split; [apply incl_refl|done]. Qed.

(** ** The functions keep the rules *)

Lemma register_outside {A} (claim : A -> bool) known k fd_ id user :
  (forall kn z, outside claim kn (k z)) -> outside claim known (pbind (alrios_drain_stream_register fd_ id user) k).
Proof.
  intros Hret.
  unfold alrios_drain_stream_register. destruct (id =? 0) eqn:Eid; [apply Hret|]. bool_hyps.
  cbn [pbind outside]. intros st0. destruct (negb _); [apply Hret|]. cbn [pbind outside].
  intros st f Hc _. cbn [inside]. destruct (negb (bool_decide (st = STATE_ACTIVE))) eqn:Est.
  { cbn [pbind inside]. split; [done|apply Hret]. }
  bool_hyps. apply bool_decide_eq_true in Est as ->. cbn [pbind inside].
  destruct (find_free _ _ _ _ _) as [i|] eqn:Ef.
  2: { cbn [pbind inside]. split; [done|apply Hret]. }
  destruct (i >=? stream_capacity f) eqn:Ei.
  { cbn [pbind inside]. split; [done|apply Hret]. }
  rewrite Z.geb_leb in Ei. bool_hyps. cbn [pbind inside]. intros now. split; [by split; [discriminate|done]|].
  split; [|apply Hret]. pose proof Ef as Ef'.
  apply find_free_Some in Ef' as [->|(s & Hj & Hl & Hu)]; [lia| |rewrite (cs_capacity _ _ Hc); lia].
  rewrite Z.sub_0_r in Hl. apply (consistent_register f i fd_ id now user s); try done.
  intros Hin. apply open_ids_in in Hin. rewrite <- (find_free_None _ 0 (stream_capacity f) id (stream_capacity f)) in Hin by done.
  congruence.
Qed.

Lemma complete_outside {A} (claim : A -> bool) known k id :
  (forall kn z, outside claim kn (k z)) -> outside claim known (pbind (alrios_drain_stream_complete id) k).
Proof.
  intros Hret.
  unfold alrios_drain_stream_complete. destruct (id =? 0) eqn:Eid; [apply Hret|]. bool_hyps.
  cbn [pbind outside]. intros st f Hc _. cbn [inside].
  destruct (find_open_spec (streams f) 0 (stream_capacity f) id Eid ltac:(rewrite (cs_capacity _ _ Hc); lia))
    as [[-> _]|(s & Hr & Hl & Hs & Hu)].
  { rewrite Z.geb_leb, Z.leb_refl. cbn [pbind inside]. split; [done|apply Hret]. }
  rewrite Z.geb_leb. replace (stream_capacity f <=? _) with false by lia. cbn [pbind inside].
  set (i := find_open _ _ _ _) in *. rewrite Z.sub_0_r in Hl.
  destruct (consistent_complete st f i s Hc ltac:(lia) Hl Hu) as (Hincl & Ha & Hpos & Hcons).
  pose proof (cs_completed _ _ Hc) as Hcomp. pose proof (cs_state _ _ Hc).
  split. { split; [intros E; specialize (Hcomp E); lia|]. intros Hst. split; [done|]. split; [done|lia]. }
  destruct (bool_decide (st = STATE_DRAINING) && (active_count (complete_at i f) =? 0)) eqn:E.
  - apply andb_true_iff in E as [->%bool_decide_eq_true E%Z.eqb_eq]. cbn [pbind inside]. split; [by apply evolves_state|].
    split; [|apply Hret]. apply Hcons; [done|lia].
  - cbn [pbind inside]. split; [|apply Hret]. apply Hcons; [done|]. intros E'. specialize (Hcomp E'). lia.
Qed.

Lemma begin_outside claim known :
  (forall z, claim (Int z) = false) -> outside claim known (pbind alrios_drain_begin (fun r => Ret (Int r))).
Proof.
  intros Hcl. assert (Hret : forall kn z, outside claim kn (Ret (Int z))) by (intros kn z; cbn; by rewrite Hcl).
  unfold alrios_drain_begin. cbn [pbind outside]. intros st f Hc _. cbn [inside]. intros now.
  split; [by apply evolves_same|]. cbn [active_count start_at].
  set (st' := if active_count f =? 0 then STATE_COMPLETED else STATE_DRAINING).
  assert (Hst : st' <> STATE_ACTIVE /\ st' <> STATE_IDLE /\ (st' = STATE_COMPLETED -> active_count f = 0)).
  { unfold st'. destruct (active_count f =? 0) eqn:E; bool_hyps; split_and!; done. }
  destruct Hst as (Hs1 & Hs2 & Hs3). split; [by apply evolves_state|].
  assert (Hc' : consistent st' (start_at now f)).
  { apply (consistent_state st); [by eapply consistent_same|done|done]. }
  split; [by apply evolves_same|]. split; [by apply (consistent_same st' (start_at now f))|apply Hret].
Qed.

Lemma draining_outside claim known :
  (forall z, claim (Int z) = false) ->
  outside claim known (pbind alrios_drain_is_draining (fun b => Ret (Int (if b : bool then 1 else 0)))).
Proof. intros Hcl st. cbn. by rewrite Hcl. Qed.

Lemma count_outside claim known :
  (forall z, claim (Int z) = false) -> outside claim known (pbind alrios_drain_active_count (fun n => Ret (Int n))).
Proof. intros Hcl st f Hc _. cbn. by rewrite Hcl. Qed.

Lemma stats_outside claim known :
  (forall z, claim (Snapshot z) = false) -> outside claim known (pbind alrios_drain_get_stats (fun n => Ret (Snapshot n))).
Proof. intros Hcl st f Hc _. cbn. by rewrite Hcl. Qed.

(** A poll, whatever follows: the answer [DRAIN_OK] comes with the knowledge that the
    drain is over. *)
Lemma poll_outside {A} config claim known (k : Z -> prog A) :
  (forall (kn : Prop) z, (z = DRAIN_OK -> kn) -> outside claim kn (k z)) ->
  outside claim known (pbind (alrios_drain_poll config) k).
Proof.
  intros Hk. cbn [pbind alrios_drain_poll outside]. intros st0.
  destruct st0; cbn [pbind outside]; try (apply Hk; first [discriminate|by intros _; right]).
  intros st f Hc Hkn. cbn [inside]. pose proof (cs_completed _ _ Hc) as Hcomp.
  destruct (active_count f =? 0) eqn:Ea; bool_hyps; cbn [pbind inside].
  - split; [by apply evolves_state|]. split; [by apply (consistent_state st)|]. apply Hk. intros _. right. by split.
  - intros now. destruct (now >=? _); cbn [pbind inside]; [|split; [done|by apply Hk]].
    split; [by apply evolves_state|].
    assert (Hc' : consistent STATE_TIMED_OUT f) by by apply (consistent_state st).
    split; [by apply evolves_same|]. split; [by apply (consistent_same _ f)|]. by apply Hk.
Qed.

Definition wait_claim (r : option Z) : bool := match r with Some z => z =? DRAIN_OK | None => false end.

Lemma turn_outside config known deadline : outside wait_claim known (wait_turn config deadline).
Proof.
  apply poll_outside. intros kn z Hz. destruct (z =? DRAIN_OK) eqn:E; bool_hyps; [cbn; by auto|].
  destruct (z =? DRAIN_ERR_TIMEOUT); [done|]. intros now. destruct (now >=? deadline); [|done].
  cbn [outside]. intros st f Hc _. cbn [inside].
  assert (Hc' : consistent STATE_TIMED_OUT f) by by apply (consistent_state st).
  split; [by apply evolves_state|]. split; [by apply evolves_same|]. split; [by apply (consistent_same _ f)|done].
Qed.

(** ** Interleavings *)

Lemma evolves_trans st f st1 f1 st2 f2 : evolves st f st1 f1 -> evolves st1 f1 st2 f2 -> evolves st f st2 f2.
Proof.
  intros [_ H1] [Hc2 H2]. split; [done|]. intros Hs. destruct (H1 Hs) as (Hs1 & Hi1 & Ha1).
  destruct (H2 Hs1) as (? & Hi2 & Ha2). split; [done|]. split; [by eapply incl_tran|]. by auto.
Qed.

Lemma evolves_drained st f st' f' : evolves st f st' f' -> drained st f -> drained st' f'.
Proof. intros [_ H] [Hs Ha]. destruct (H Hs) as (? & _ & Ha'). by split; auto. Qed.

(** The program of thread [t] keeps the rules from here on. *)
Definition sound_prog {A} (claim : A -> bool) (t : nat) (s : shared) (p : prog A) : Prop :=
  exists known : Prop, (known -> drained (state s) (data s)) /\
    (owner s = Some t -> inside claim known (state s) (data s) p) /\
    (owner s <> Some t -> outside claim known p).

(** What an action of thread [t] does. *)
Record good_step (t : nat) (s s' : shared) : Prop := {
  gs_consistent : owner s' = None -> consistent (state s') (data s');
  gs_evolves : evolves (state s) (data s) (state s') (data s');
  gs_other : owner s <> Some t -> state s' = state s /\ data s' = data s /\
    (owner s' = owner s \/ (owner s = None /\ owner s' = Some t));
  gs_holder : owner s = Some t -> owner s' = Some t \/ owner s' = None;
}.

Record sound_shared (s : shared) : Prop := {
  ss_consistent : owner s = None -> consistent (state s) (data s);
  ss_completed : state s = STATE_COMPLETED -> active_count (data s) = 0;
}.

Lemma good_step_refl t s : sound_shared s -> good_step t s s.
Proof. intros [H1 H2]. split; [done|by apply evolves_refl|by auto|by auto]. Qed.

Lemma good_step_sound t s s' : good_step t s s' -> sound_shared s'.
Proof. intros [H1 [H2 _] _ _]. by split. Qed.

Lemma advance_sound {A} (claim : A -> bool) t now p s p' s' :
  sound_shared s -> sound_prog claim t s p -> (forall v, p <> Ret v) -> advance t now p s = (p', s') ->
  sound_prog claim t s' p' /\ good_step t s s'.
Proof.
  intros Hs (known & Hk & Hin & Hout) Hret Hadv.
  pose proof (good_step_refl t s Hs) as Hrefl.
  destruct (decide (owner s = Some t)) as [Ho|Ho]; [specialize (Hin Ho); clear Hout|specialize (Hout Ho); clear Hin].
  - destruct p as [v|k|st k|k|k|k|g k|k|ms k]; cbn [inside] in Hin; cbn [advance] in Hadv; try (injection Hadv as <- <-); try done.
    + split; [|done]. by exists known.
    + destruct Hin as [Hev Hin]. split.
      * exists known. cbn. split; [intros H; by eapply evolves_drained, Hk|]. by split.
      * split; cbn; try done; [by rewrite Ho|by left].
    + destruct Hin as [Hc Hin]. split.
      * exists (known \/ drained (state s) (data s)). cbn. split; [intros [H|H]; [by apply Hk|done]|]. by split.
      * split; cbn; try done; [apply evolves_refl, Hc|by right].
    + split; [|done]. by exists known.
    + destruct Hin as [Hev Hin]. split.
      * exists known. cbn. split; [intros H; by eapply evolves_drained, Hk|]. by split.
      * split; cbn; try done; [by rewrite Ho|by left].
    + split; [|done]. exists known. split; [done|]. by split.
    + split; [|done]. by exists known.
  - destruct p as [v|k|st k|k|k|k|g k|k|ms k]; [by destruct (Hret v)|..]; cbn [outside] in Hout; cbn [advance] in Hadv; try (injection Hadv as <- <-); try done.
    + split; [|done]. exists (known \/ state s = STATE_COMPLETED). split; [|split; [done|intros _; apply Hout]].
      intros [H|H]; [by apply Hk|]. split; [by rewrite H|by apply (ss_completed s Hs)].
    + destruct (owner s) as [u|] eqn:Eo; injection Hadv as <- <-.
      * split; [|done]. exists known. split; [done|]. rewrite Eo. by split; [intros [= ->]|].
      * pose proof (ss_consistent s Hs Eo) as Hc. split.
        { exists known. cbn. split; [done|]. split; [|done]. intros _. by apply Hout. }
        split; cbn; rewrite ?Eo; try done; [apply evolves_refl, Hc|]. intros _. split_and!; [done..|by right].
    + split; [|done]. exists known. split; [done|]. split; [done|intros _; apply Hout].
    + split; [|done]. by exists known.
Qed.

(** An action of a thread disturbs no other. *)
Lemma sound_prog_other {A} (claim : A -> bool) t u s s' p :
  u <> t -> good_step t s s' -> sound_prog claim u s p -> sound_prog claim u s' p.
Proof.
  intros Hut [_ Hev Hot Hh] (known & Hk & Hin & Hout). exists known.
  split; [intros H; by eapply evolves_drained, Hk|]. destruct (decide (owner s = Some u)) as [Ho|Ho].
  - destruct Hot as (-> & -> & [->|[E _]]); [by rewrite Ho; intros [= ->]|by split|by rewrite Ho in E].
  - split; [|by auto]. intros Ho'. exfalso. destruct (decide (owner s = Some t)) as [Et|Et].
    + destruct (Hh Et) as [E|E]; rewrite E in Ho'; by simplify_eq.
    + destruct (Hot Et) as (_ & _ & [E|[_ E]]); rewrite E in Ho'; by simplify_eq.
Qed.

Section Threads.
Context (config : drain_config).

Definition sound_running (t : nat) (s : shared) (c : call) (r : running) : Prop :=
  match r with
  | Ready => owner s <> Some t
  | Run p => sound_prog (says_drained c) t s p
  | Enter p => (exists ms, c = Wait ms) /\ sound_prog (fun _ => false) t s p
  | Turn _ p => (exists ms, c = Wait ms) /\ sound_prog wait_claim t s p
  end.

Record sound_thread (t : nat) (s : shared) (th : thread) : Prop := {
  so_running : sound_running t s (current th) (cur th);
  so_results : forall c v, In (c, v) (results th) -> says_drained c v = true -> drained (state s) (data s);
}.

Record sound (threads : list thread) (s : shared) : Prop := {
  sn_shared : sound_shared s;
  sn_threads : forall t th, threads !! t = Some th -> sound_thread t s th;
  sn_owner : forall t, owner s = Some t -> is_Some (threads !! t);
}.

Lemma sound_thread_other t u s s' th : u <> t -> good_step t s s' -> sound_thread u s th -> sound_thread u s' th.
Proof.
  intros Hut Hg [Hr Hres]. split.
  - destruct (cur th) as [|p|p|d p]; cbn [sound_running] in *.
    + intros Ho'. destruct Hg as [_ _ Hot Hh]. destruct (decide (owner s = Some t)) as [Et|Et].
      * destruct (Hh Et) as [E|E]; rewrite E in Ho'; by simplify_eq.
      * destruct (Hot Et) as (_ & _ & [E|[_ E]]); rewrite E in Ho'; by simplify_eq.
    + by eapply sound_prog_other.
    + destruct Hr. split; [done|]. by eapply sound_prog_other.
    + destruct Hr. split; [done|]. by eapply sound_prog_other.
  - intros c v Hin Hv. eapply evolves_drained; [apply Hg|by eapply Hres].
Qed.

Lemma sound_outside {A} (claim : A -> bool) t s p : owner s <> Some t -> (forall known, outside claim known p) -> sound_prog claim t s p.
Proof. intros Ho Hp. exists False. by split_and!. Qed.

Lemma start_sound t s c : owner s <> Some t -> sound_running t s c (start config c).
Proof.
  intros Ho. destruct c; cbn [start sound_running].
  - apply sound_outside; [done|]. intros known. by apply register_outside; intros kn z.
  - apply sound_outside; [done|]. intros known. by apply complete_outside; intros kn z.
  - apply sound_outside; [done|]. intros known. by apply begin_outside.
  - apply sound_outside; [done|]. intros known. apply poll_outside. intros kn z Hz. cbn. intros E. bool_hyps. by apply Hz.
  - split; [by eexists|]. by apply sound_outside.
  - apply sound_outside; [done|]. intros known. by apply draining_outside.
  - apply sound_outside; [done|]. intros known. by apply count_outside.
  - apply sound_outside; [done|]. intros known. by apply stats_outside.
Qed.

(** A thread whose program has returned does not hold the lock. *)
Lemma returned {A} (claim : A -> bool) t s v :
  sound_prog claim t s (Ret v) -> owner s <> Some t /\ (claim v = true -> drained (state s) (data s)).
Proof.
  intros (known & Hk & Hin & Hout). destruct (decide (owner s = Some t)) as [Ho|Ho]; [by specialize (Hin Ho)|].
  split; [done|]. intros Hv. by apply Hk, Hout.
Qed.

Lemma finish_sound t s th v :
  owner s <> Some t -> (forall c v, In (c, v) (results th) -> says_drained c v = true -> drained (state s) (data s)) ->
  (says_drained (current th) v = true -> drained (state s) (data s)) -> sound_thread t s (finish th v).
Proof.
  intros Ho Hr Hv. split; [done|]. cbn [results finish]. intros c v'. rewrite in_app_iff.
  intros [Hin|[[= <- <-]|[]]]; [by eapply Hr|done].
Qed.

Lemma step_sound t now th s th' s' :
  sound_shared s -> sound_thread t s th -> step_thread config t now th s = (th', s') ->
  sound_thread t s' th' /\ good_step t s s'.
Proof.
  intros Hs [Hr Hres] Hstep. pose proof (good_step_refl t s Hs) as Hrefl. unfold step_thread in Hstep.
  assert (Hmove : forall {A} (claim : A -> bool) p p' s', sound_prog claim t s p -> (forall v, p <> Ret v) ->
    advance t now p s = (p', s') ->
    sound_prog claim t s' p' /\ good_step t s s' /\
    (forall c v, In (c, v) (results th) -> says_drained c v = true -> drained (state s') (data s'))).
  { intros A claim p p' s1 Hp Hret E. destruct (advance_sound claim t now p s p' s1 Hs Hp Hret E) as [? Hg].
    split_and!; [done|done|]. intros c v Hin Hv. eapply evolves_drained; [apply Hg|by eapply Hres]. }
  destruct (cur th) as [|p|p|d p] eqn:Ec; cbn [sound_running] in Hr.
  - destruct (calls th) as [|c cs]; simplify_eq; (split; [|done]); split; cbn; try done; [by rewrite Ec|by apply start_sound].
  - destruct p as [v| | | | | | | |].
    { simplify_eq. destruct (returned _ _ _ _ Hr). split; [|done]. by apply finish_sound. }
    all: destruct (advance _ _ _ _) as [p' s1] eqn:E; simplify_eq;
      destruct (Hmove _ _ _ _ _ Hr ltac:(done) E) as (? & ? & ?); split; [by split|done].
  - destruct Hr as [Hw Hr]. destruct p as [v| | | | | | | |].
    { simplify_eq. destruct (returned _ _ _ _ Hr). split; [|done]. split; [|done]. split; [done|].
      apply sound_outside; [done|]. intros known. apply turn_outside. }
    all: destruct (advance _ _ _ _) as [p' s1] eqn:E; simplify_eq;
      destruct (Hmove _ _ _ _ _ Hr ltac:(done) E) as (? & ? & ?); split; [by split|done].
  - destruct Hr as [Hw Hr]. destruct p as [[v|]| | | | | | | |].
    { simplify_eq. destruct (returned _ _ _ _ Hr) as [? Hv]. split; [|done]. apply finish_sound; [done..|].
      destruct Hw as [ms ->]. done. }
    { simplify_eq. destruct (returned _ _ _ _ Hr). split; [|done]. split; [|done]. split; [done|].
      apply sound_outside; [done|]. intros known. apply turn_outside. }
    all: destruct (advance _ _ _ _) as [p' s1] eqn:E; simplify_eq;
      destruct (Hmove _ _ _ _ _ Hr ltac:(done) E) as (? & ? & ?); split; [by split|done].
Qed.

Lemma run_sound schedule threads s threads' s' :
  sound threads s -> run config schedule threads s = (threads', s') ->
  sound threads' s' /\ evolves (state s) (data s) (state s') (data s').
Proof.
  revert threads s. induction schedule as [|[t now] schedule IH]; intros threads s Hs; cbn [run].
  { intros [= <- <-]. split; [done|]. apply evolves_refl, (ss_completed s (sn_shared _ _ Hs)). }
  destruct (threads !! t) as [th|] eqn:Et; [|by apply IH].
  destruct (step_thread config t now th s) as [th1 s1] eqn:E. intros Hrun.
  destruct Hs as [Hsh Hth Hown]. destruct (step_sound t now th s th1 s1 Hsh (Hth t th Et) E) as [Hth1 Hg].
  apply IH in Hrun as [? ?]; [split; [done|]; eapply evolves_trans; [apply Hg|done]|].
  split; [by eapply good_step_sound| |].
  - intros u th' Hu. destruct (decide (u = t)) as [->|Hne].
    + rewrite list_lookup_insert_eq in Hu by by eapply lookup_lt_Some. by simplify_eq.
    + rewrite list_lookup_insert_ne in Hu by done. eapply sound_thread_other; [done..|by apply Hth].
  - intros u Hu. destruct (decide (u = t)) as [->|Hne].
    { rewrite list_lookup_insert_eq by by eapply lookup_lt_Some. by eexists. }
    rewrite list_lookup_insert_ne by done. apply Hown. destruct Hg as [_ _ Hot Hh].
    destruct (decide (owner s = Some t)) as [Ho|Ho].
    + destruct (Hh Ho) as [E'|E']; rewrite E' in Hu; by simplify_eq.
    + destruct (Hot Ho) as (_ & _ & [E'|[_ E']]); rewrite E' in Hu; by simplify_eq.
Qed.

Lemma spawned_sound css s :
  owner s = None -> consistent (state s) (data s) -> sound (map spawn css) s.
Proof.
  intros Ho Hc. split.
  - split; [done|apply Hc].
  - intros t th Ht. rewrite list_lookup_fmap in Ht. destruct (css !! t); [|done]. injection Ht as <-.
    split; [cbn; by rewrite Ho|]. intros c v [].
  - intros t E. by rewrite Ho in E.
Qed.
End Threads.

(** The initial tracker is consistent. *)
Lemma empty_consistent n pipe_ok :
  0 <= n -> consistent STATE_ACTIVE (mk_fields (replicate (Z.to_nat n) zero_stream) n 0 0 0 0 0 pipe_ok 0).
Proof.
  intros Hn. assert (Hids : open_ids (mk_fields (replicate (Z.to_nat n) zero_stream) n 0 0 0 0 0 pipe_ok 0) = []).
  { unfold open_ids. cbn [streams]. induction (Z.to_nat n) as [|k IH]; [done|]. exact IH. }
  split; cbn [streams stream_capacity active_count total_accepted total_completed]; rewrite ?Hids; try done.
  - rewrite len_replicate. lia.
  - constructor.
Qed.

Lemma effective_streams config : (forall c, config = Some c -> 0 <= max_streams c) -> 0 <= max_streams (effective_config config).
Proof.
  intros Hm. unfold effective_config. cbn [max_streams]. destruct config as [c0|]; [|by vm_compute].
  specialize (Hm c0 eq_refl). by destruct (max_streams c0 =? 0).
Qed.

Lemma init_consistent config calloc_ok pipe_ok st c s :
  (forall c, config = Some c -> 0 <= max_streams c) ->
  alrios_drain_tracker_init config calloc_ok pipe_ok = (st, Some (c, s)) ->
  st = DRAIN_OK /\ owner s = None /\ state s = STATE_ACTIVE /\ consistent (state s) (data s).
Proof.
  intros Hm%effective_streams. unfold alrios_drain_tracker_init. destruct calloc_ok; cbn [negb]; [|done]. intros [= <- <- <-].
  split_and!; try done. by apply (empty_consistent (max_streams (effective_config config))).
Qed.

(** ** Every call can finish *)

Definition finished (th : thread) : bool := match cur th, calls th with Ready, [] => true | _, _ => false end.

Section Finish.
Context (config : drain_config).

(** The actions of one thread in a row. *)
Fixpoint solo (t : nat) (nows : list Z) (th : thread) (s : shared) : thread * shared :=
  match nows with
  | [] => (th, s)
  | now :: nows => let '(th, s) := step_thread config t now th s in solo t nows th s
  end.

Lemma solo_app t nows nows' th s : solo t (nows ++ nows') th s = let '(th', s') := solo t nows th s in solo t nows' th' s'.
Proof.
  revert th s. induction nows as [|now nows IH]; intros th s; cbn [app solo]; [done|].
  destruct (step_thread config t now th s). apply IH.
Qed.

Lemma run_solo t nows threads s th :
  threads !! t = Some th ->
  run config (map (pair t) nows) threads s = let '(th', s') := solo t nows th s in (<[t := th']> threads, s').
Proof.
  revert threads th s. induction nows as [|now nows IH]; intros threads th s Ht; cbn [map run solo].
  { by rewrite list_insert_id. }
  rewrite Ht. destruct (step_thread config t now th s) as [th1 s1].
  rewrite (IH _ th1) by by apply list_lookup_insert_eq, (lookup_lt_Some _ _ _ Ht).
  destruct (solo t nows th1 s1). by rewrite list_insert_insert_eq.
Qed.

Lemma run_app sched sched' threads s :
  run config (sched ++ sched') threads s = let '(ths, s1) := run config sched threads s in run config sched' ths s1.
Proof.
  revert threads s. induction sched as [|[t now] sched IH]; intros threads s; cbn [app run]; [done|].
  destruct (threads !! t); [|apply IH]. destruct (step_thread _ _ _ _ _). apply IH.
Qed.

(** Whatever the state, with the clock at [now] the program ends in a result that is good. *)
Fixpoint ends {A} (good : A -> Prop) (now : Z) (p : prog A) : Prop :=
  match p with
  | Ret v => good v
  | Load k => forall st, ends good now (k st)
  | Store _ k | Acquire k | Release k | Write _ k | Sleep _ k => ends good now k
  | Read k => forall f, ends good now (k f)
  | Clock k => ends good now (k now)
  end.

Lemma ends_any {A} (p : prog A) now : ends (fun _ => True) now p.
Proof. induction p; cbn; auto. Qed.

Lemma turn_ends deadline : ends (fun r => r <> None) deadline (wait_turn config deadline).
Proof.
  assert (Hk : forall z, ends (fun r => r <> None) deadline
    (if z =? DRAIN_OK then Ret (Some DRAIN_OK)
     else if z =? DRAIN_ERR_TIMEOUT then Ret (Some DRAIN_ERR_TIMEOUT)
     else Clock (fun now => if now >=? deadline
       then Acquire (Store STATE_TIMED_OUT (Write time_out (Release (Ret (Some DRAIN_ERR_TIMEOUT)))))
       else Sleep 5 (Ret None)))).
  { intros z. destruct (z =? DRAIN_OK); [done|]. destruct (z =? DRAIN_ERR_TIMEOUT); [done|]. cbn.
    by rewrite Z.geb_leb, Z.leb_refl. }
  unfold wait_turn. cbn [alrios_drain_poll pbind ends]. intros st. destruct st; cbn [pbind ends]; try apply Hk.
  intros f. destruct (active_count f =? 0); cbn [pbind ends]; [apply Hk|].
  destruct (_ >=? u64 _); cbn [pbind ends]; apply Hk.
Qed.

(** The lock is free, or the thread has it. *)
Definition may_run {A} (claim : A -> bool) (t : nat) (s : shared) (p : prog A) : Prop :=
  sound_shared s /\ sound_prog claim t s p /\ (owner s = None \/ owner s = Some t).

Lemma solo_prog {A} (claim : A -> bool) (good : A -> Prop) (lift : prog A -> running) t now th (p : prog A) s :
  (forall th p s, cur th = lift p -> (forall v, p <> Ret v) ->
     step_thread config t now th s = let '(p', s') := advance t now p s in (go_on th (lift p'), s')) ->
  may_run claim t s p -> ends good now p -> cur th = lift p ->
  exists nows v s', solo t nows th s = (go_on th (lift (Ret v)), s') /\ good v /\
    may_run claim t s' (Ret v).
Proof.
  intros Hlift. revert th s.
  assert (Hnext : forall (p p' : prog A) th s s', cur th = lift p -> (forall v, p <> Ret v) -> may_run claim t s p ->
    advance t now p s = (p', s') ->
    (forall th, may_run claim t s' p' -> cur th = lift p' -> exists nows v s'', solo t nows th s' = (go_on th (lift (Ret v)), s'') /\ good v /\
       may_run claim t s'' (Ret v)) ->
    exists nows v s'', solo t nows th s = (go_on th (lift (Ret v)), s'') /\ good v /\ may_run claim t s'' (Ret v)).
  { intros q q' th s s' Hc Hq (Hs & Hp & Ho) Hadv IH.
    destruct (advance_sound claim t now q s q' s' Hs Hp Hq Hadv) as [Hp' Hg].
    assert (Hm : may_run claim t s' q').
    { split; [by eapply good_step_sound|]. split; [done|]. destruct Hg as [_ _ Hot Hh].
      destruct (decide (owner s = Some t)) as [E|E]; [destruct (Hh E); auto|].
      destruct Ho as [Ho|Ho]; [|done]. destruct (Hot E) as (_ & _ & [E'|[_ E']]); rewrite E'; auto. }
    destruct (IH (go_on th (lift q')) Hm eq_refl) as (nows & v & s'' & E & ? & ?).
    exists (now :: nows), v, s''. cbn [solo]. rewrite (Hlift th q s) by done. rewrite Hadv. by rewrite E. }
  induction p as [v|k IH|st k IH|k IH|k IH|k IH|g k IH|k IH|ms k IH]; intros th s Hm He Hc; cbn [ends] in He.
  - exists [], v, s. cbn. split; [|done]. rewrite <- Hc. by destruct th.
  - eapply Hnext; [done..|cbn; reflexivity|]. intros th' ? ?. by eapply IH; [done|apply He|done].
  - eapply Hnext; [done..|cbn; reflexivity|]. intros th' ? ?. by eapply IH; [done|apply He|done].
  - destruct (owner s) as [u|] eqn:Eo.
    + destruct Hm as (_ & (kn & _ & Hin & _) & [E|E]); rewrite Eo in E; [done|]. specialize (Hin (eq_trans Eo E)). done.
    + eapply Hnext; [done..|cbn; by rewrite Eo|]. intros th' ? ?. by eapply IH; [done|apply He|done].
  - eapply Hnext; [done..|cbn; reflexivity|]. intros th' ? ?. by eapply IH; [done|apply He|done].
  - eapply Hnext; [done..|cbn; reflexivity|]. intros th' ? ?. by eapply IH; [done|apply He|done].
  - eapply Hnext; [done..|cbn; reflexivity|]. intros th' ? ?. by eapply IH; [done|apply He|done].
  - eapply Hnext; [done..|cbn; reflexivity|]. intros th' ? ?. by eapply IH; [done|apply He|done].
  - eapply Hnext; [done..|cbn; reflexivity|]. intros th' ? ?. by eapply IH; [done|apply He|done].
Qed.

Lemma returned_free {A} (claim : A -> bool) t s v : may_run claim t s (Ret v) -> sound_shared s /\ owner s = None.
Proof. intros (? & Hp & Ho). destruct (returned _ _ _ _ Hp). split; [done|]. by destruct Ho. Qed.

Ltac solve_lift :=
  intros th p s E Hne; unfold step_thread; rewrite E; destruct p as [v| | | | | | | |]; [by destruct (Hne v)|done..].

Lemma lift_run t now th p s :
  cur th = Run p -> (forall v, p <> Ret v) ->
  step_thread config t now th s = let '(p', s') := advance t now p s in (go_on th (Run p'), s').
Proof. revert th p s. solve_lift. Qed.

Lemma lift_enter t now th p s :
  cur th = Enter p -> (forall v, p <> Ret v) ->
  step_thread config t now th s = let '(p', s') := advance t now p s in (go_on th (Enter p'), s').
Proof. revert th p s. solve_lift. Qed.

Lemma lift_turn t now deadline th p s :
  cur th = Turn deadline p -> (forall v, p <> Ret v) ->
  step_thread config t now th s = let '(p', s') := advance t now p s in (go_on th (Turn deadline p'), s').
Proof. revert th p s. solve_lift. Qed.

(** The call under way of a thread can finish. *)
Lemma solo_turn t th s deadline :
  sound_shared s -> owner s = None -> cur th = Turn deadline (wait_turn config deadline) ->
  exists nows th' s', solo t nows th s = (th', s') /\ cur th' = Ready /\ calls th' = calls th /\
    sound_shared s' /\ owner s' = None.
Proof.
  intros Hs Ho Hc.
  assert (Hm : may_run wait_claim t s (wait_turn config deadline)).
  { split; [done|]. split; [|by left]. apply sound_outside; [by rewrite Ho|]. intros known. apply turn_outside. }
  destruct (solo_prog wait_claim (fun r => r <> None) (Turn deadline) t deadline th (wait_turn config deadline) s
    (lift_turn t deadline deadline) Hm (turn_ends deadline) Hc) as (nows & [v|] & s' & E & Hv & Hm'); [|done].
  destruct (returned_free _ _ _ _ Hm') as [Hs' Ho'].
  exists (nows ++ [0]). rewrite solo_app, E. cbn. by eexists _, _.
Qed.

Lemma solo_call t th s :
  sound_shared s -> sound_running t s (current th) (cur th) -> owner s = None \/ owner s = Some t ->
  exists nows th' s', solo t nows th s = (th', s') /\ cur th' = Ready /\ calls th' = calls th /\
    sound_shared s' /\ owner s' = None.
Proof.
  intros Hs Hr Ho. destruct (cur th) as [|p|p|deadline p] eqn:Ec; cbn [sound_running] in Hr.
  - exists [], th, s. destruct Ho as [Ho|Ho]; [|done]. by rewrite Ec.
  - destruct (solo_prog (says_drained (current th)) (fun _ => True) Run t 0 th p s (lift_run t 0)
      (conj Hs (conj Hr Ho)) (ends_any p 0) Ec) as (nows & v & s' & E & _ & Hm).
    destruct (returned_free _ _ _ _ Hm) as [Hs' Ho']. exists (nows ++ [0]). rewrite solo_app, E. cbn. by eexists _, _.
  - destruct Hr as [_ Hr]. destruct (solo_prog (fun _ => false) (fun _ => True) Enter t 0 th p s (lift_enter t 0)
      (conj Hs (conj Hr Ho)) (ends_any p 0) Ec) as (nows & v & s' & E & _ & Hm).
    destruct (returned_free _ _ _ _ Hm) as [Hs' Ho'].
    destruct (solo_turn t (go_on th (Turn v (wait_turn config v))) s' v Hs' Ho' eq_refl) as (nows' & th' & s'' & E' & ? & ? & ? & ?).
    exists (nows ++ [0] ++ nows'), th', s''. rewrite solo_app, E, solo_app. by cbn -[wait_turn].
  - destruct Hr as [_ Hr]. destruct (solo_prog wait_claim (fun _ => True) (Turn deadline) t 0 th p s (lift_turn t 0 deadline)
      (conj Hs (conj Hr Ho)) (ends_any p 0) Ec) as (nows & v & s' & E & _ & Hm).
    destruct (returned_free _ _ _ _ Hm) as [Hs' Ho']. destruct v as [v|].
    { exists (nows ++ [0]). rewrite solo_app, E. cbn. by eexists _, _. }
    destruct (solo_turn t (go_on th (Turn deadline (wait_turn config deadline))) s' deadline Hs' Ho' eq_refl)
      as (nows' & th' & s'' & E' & ? & ? & ? & ?).
    exists (nows ++ [0] ++ nows'), th', s''. rewrite solo_app, E, solo_app. by cbn -[wait_turn].
Qed.

Lemma solo_all t th s :
  sound_shared s -> sound_running t s (current th) (cur th) -> owner s = None \/ owner s = Some t ->
  exists nows th' s', solo t nows th s = (th', s') /\ finished th' = true /\ owner s' = None.
Proof.
  remember (calls th) as cs eqn:Ecs. revert th s Ecs. induction cs as [|c cs IH]; intros th s Ecs Hs Hr Ho;
    destruct (solo_call t th s Hs Hr Ho) as (nows & th' & s' & E & Hc & Hcs & Hs' & Ho').
  - exists nows, th', s'. split; [done|]. split; [|done]. unfold finished. by rewrite Hc, Hcs, <- Ecs.
  - destruct (IH (mk_thread cs c (start config c) (results th')) s' eq_refl Hs') as (nows' & th'' & s'' & E' & Hf & Ho'').
    + apply start_sound. by rewrite Ho'.
    + by left.
    + exists (nows ++ [0] ++ nows'), th'', s''. rewrite solo_app, E, solo_app. cbn [solo]. unfold step_thread at 1.
      rewrite Hc, Hcs, <- Ecs. by rewrite E'.
Qed.

(** One thread after the other. *)
Lemma finish_one threads s t :
  sound threads s -> (t < length threads)%nat -> owner s = None \/ owner s = Some t ->
  exists schedule threads' s', run config schedule threads s = (threads', s') /\ owner s' = None /\
    length threads' = length threads /\ (exists th, threads' !! t = Some th /\ finished th = true) /\
    forall u, u <> t -> threads' !! u = threads !! u.
Proof.
  intros [Hs Hth _] Ht Ho. destruct (threads !! t) as [th|] eqn:Et; [|by apply lookup_ge_None in Et; lia].
  destruct (solo_all t th s Hs (so_running _ _ _ (Hth t th Et)) Ho) as (nows & th' & s' & E & Hf & Ho').
  exists (map (pair t) nows), (<[t := th']> threads), s'. rewrite (run_solo t nows threads s th Et), E.
  split_and!; [done|done|by rewrite length_insert| |].
  - exists th'. by rewrite list_lookup_insert_eq.
  - intros u Hu. by rewrite list_lookup_insert_ne.
Qed.

Lemma finish_all threads s n :
  sound threads s -> owner s = None -> (n <= length threads)%nat ->
  exists schedule threads' s', run config schedule threads s = (threads', s') /\ sound threads' s' /\ owner s' = None /\
    length threads' = length threads /\ forall t th, (t < n)%nat -> threads' !! t = Some th -> finished th = true.
Proof.
  intros Hs Ho. induction n as [|n IH]; intros Hn.
  { exists [], threads, s. split_and!; try done. intros. lia. }
  destruct (IH ltac:(lia)) as (sched & ths & s1 & E & Hs1 & Ho1 & Hl & Hf).
  destruct (finish_one ths s1 n Hs1 ltac:(lia) (or_introl Ho1)) as (sched' & ths' & s2 & E' & Ho2 & Hl' & (th & Hth & Hfin) & Hrest).
  exists (sched ++ sched'), ths', s2. rewrite run_app, E. split; [done|].
  split; [by eapply run_sound|]. split; [done|]. split; [lia|].
  intros t th' Ht Hth'. destruct (decide (t = n)) as [->|Hne]; [by simplify_eq|].
  rewrite Hrest in Hth' by done. apply (Hf t); [lia|done].
Qed.

Lemma can_finish threads s :
  sound threads s ->
  exists schedule threads' s', run config schedule threads s = (threads', s') /\ owner s' = None /\
    length threads' = length threads /\ Forall (fun th => finished th = true) threads'.
Proof.
  intros Hs.
  assert (H : exists sched ths s1, run config sched threads s = (ths, s1) /\ sound ths s1 /\ owner s1 = None /\ length ths = length threads).
  { destruct (owner s) as [t|] eqn:Eo; [|by exists [], threads, s].
    destruct (sn_owner _ _ Hs t Eo) as [th Ht]. apply lookup_lt_Some in Ht.
    destruct (finish_one threads s t Hs Ht (or_intror Eo)) as (sched & ths & s1 & E & Ho & Hl & _).
    exists sched, ths, s1. split; [done|]. split; [by eapply run_sound|]. by split. }
  destruct H as (sched & ths & s1 & E & Hs1 & Ho1 & Hl).
  destruct (finish_all ths s1 (length ths) Hs1 Ho1 ltac:(lia)) as (sched' & ths' & s2 & E' & _ & Ho2 & Hl' & Hf).
  exists (sched ++ sched'), ths', s2. rewrite run_app, E. split_and!; [done|done|lia|].
  apply list.Forall_lookup. intros t th Ht. apply (Hf t); [|done]. apply lookup_lt_Some in Ht. lia.
Qed.
End Finish.

(** ** Waiting for a process *)

Section AwaitFacts.
Context (env : environment) (Hdelay : forall i, 0 <= delay env i) (Hclock : forall i, clock_ok env i = true).

Lemma check_spec w r w' : check env w = (r, w') -> sent w' = sent w /\ time w <= time w'.
Proof.
  unfold check. destruct (wait_nohang env (at_call w)) as [x status]. pose proof (Hdelay (at_call w)). pose proof (Hdelay (S (at_call w))).
  destruct (x >? 0); [|destruct (x <? 0)]; intros [= <- <-]; cbn; (split; [done|lia]).
Qed.

Lemma await_until_spec fuel deadline w r w' :
  await_until env fuel deadline w = Some (r, w') ->
  sent w' = sent w /\ time w <= time w' /\ (r = None -> deadline <= time w').
Proof.
  revert w. induction fuel as [|fuel IH]; intros w; cbn [await_until]; [done|].
  destruct (check env w) as [[status|] w1] eqn:E; apply check_spec in E as [Hs Ht].
  { intros [= <- <-]. by split_and!. }
  unfold drain_monotonic_ms. rewrite Hclock. pose proof (Hdelay (at_call w1)). pose proof (Hdelay (S (at_call w1))).
  rewrite Z.geb_leb. destruct (deadline <=? time w1) eqn:Ed.
  - bool_hyps. intros [= <- <-]. cbn [after sent time]. split_and!; [done|lia|lia].
  - intros (Hs' & Ht' & Hd)%IH. cbn [after sent time at_call] in *. split_and!; [congruence|lia|done].
Qed.

Lemma await_until_ends fuel deadline w :
  deadline - time w <= 10 * (Z.of_nat fuel - 1) -> (1 <= fuel)%nat -> is_Some (await_until env fuel deadline w).
Proof.
  revert w. induction fuel as [|fuel IH]; intros w Hd Hf; [lia|]. cbn [await_until].
  destruct (check env w) as [[status|] w1] eqn:E; apply check_spec in E as [Hs Ht]; [by eexists|].
  unfold drain_monotonic_ms. rewrite Hclock. pose proof (Hdelay (at_call w1)). pose proof (Hdelay (S (at_call w1))).
  rewrite Z.geb_leb. destruct (deadline <=? time w1) eqn:Ed; [by eexists|]. bool_hyps.
  apply IH; cbn [after time at_call]; [lia|]. destruct fuel; [lia|lia].
Qed.

Lemma await_killed_spec turns w status w' :
  await_killed env turns w = (status, w') -> sent w' = sent w /\ time w <= time w'.
Proof.
  revert w. induction turns as [|turns IH]; intros w; cbn [await_killed]; [by intros [= _ <-]|].
  destruct (wait_nohang env (at_call w)) as [x st]. pose proof (Hdelay (at_call w)). pose proof (Hdelay (S (at_call w))).
  destruct (negb _); [intros [= _ <-]; cbn; split; [done|lia]|].
  intros [Hs Ht]%IH. cbn [after sent time at_call] in *. split; [done|lia].
Qed.
End AwaitFacts.

Definition effective_ms (ms default : Z) : Z := if ms >? 0 then ms else default.

(** Turns that are enough for both waits. *)
Definition await_fuel (timeout_ms grace_period_ms : Z) : nat :=
  Z.to_nat (Z.max (effective_ms timeout_ms DRAIN_DEFAULT_TIMEOUT_MS) (effective_ms grace_period_ms DRAIN_DEFAULT_GRACE_MS) / 10 + 3).

Lemma effective_pos ms default : 0 < default -> 0 < effective_ms ms default.
Proof. intros. unfold effective_ms. rewrite Z.gtb_ltb. destruct (0 <? ms) eqn:E; bool_hyps; lia. Qed.

Lemma u64_le z : 0 <= z -> u64 z <= z.
Proof. intros. unfold u64. by apply Z.mod_le. Qed.

Lemma fuel_enough timeout_ms grace_period_ms ms now w :
  ms = effective_ms timeout_ms DRAIN_DEFAULT_TIMEOUT_MS \/ ms = effective_ms grace_period_ms DRAIN_DEFAULT_GRACE_MS ->
  0 <= now <= time w -> 0 <= ms ->
  u64 (now + ms) - time w <= 10 * (Z.of_nat (await_fuel timeout_ms grace_period_ms) - 1) /\
  (1 <= await_fuel timeout_ms grace_period_ms)%nat.
Proof.
  intros Hms Hn Hp. unfold await_fuel. set (m := Z.max _ _).
  assert (Hm : ms <= m /\ 0 <= m) by (unfold m; destruct Hms as [->| ->]; lia).
  pose proof (u64_le (now + ms) ltac:(lia)). pose proof (Z.div_mod m 10 ltac:(lia)). pose proof (Z.mod_pos_bound m 10 ltac:(lia)).
  pose proof (Z.div_pos m 10 ltac:(lia) ltac:(lia)). lia.
Qed.

Lemma run_length config sched ths s : length (run config sched ths s).1 = length ths.
Proof.
  revert ths s. induction sched as [|[t now] sched IH]; intros ths s; cbn [run]; [done|].
  destruct (ths !! t); [|apply IH]. destruct (step_thread _ _ _ _ _). by rewrite IH, length_insert.
Qed.

(** ** Examples *)

Definition example_config : drain_config := mk_config 100 10 4.

Definition example_tracker : shared :=
  mk_shared STATE_ACTIVE (mk_fields (replicate 4 zero_stream) 4 0 0 0 0 0 true 0) None.

(** One thread opens a stream, begins the drain and waits; the other closes the stream. *)
Definition example_threads : list thread := map spawn [[Register 3 7 0; Begin; Wait 50]; [Complete 7]].

(** The stream is closed between the poll and the test of the deadline. *)
Definition late_close : list (nat * Z) :=
  repeat (0%nat, 1000) 26 ++ repeat (1%nat, 1000) 12 ++ repeat (0%nat, 1050) 8.

Definition int_results (ths : list thread) : list (list value) := map (fun th => map snd (results th)) ths.

(** A drain that is over is reported as timed out: the close has made the state
    completed, then the wait, whose poll came before the close, finds its deadline
    passed, overwrites the state and answers [DRAIN_ERR_TIMEOUT] with no stream left. *)
Lemma completed_drain_times_out :
  (let '(ths, s) := run example_config (firstn 38 late_close) example_threads example_tracker in
   (int_results ths, state s, active_count (data s)))
  = ([[Int DRAIN_OK; Int DRAIN_OK]; [Int DRAIN_OK]], STATE_COMPLETED, 0) /\
  (let '(ths, s) := run example_config late_close example_threads example_tracker in
   (int_results ths, state s, active_count (data s), total_timed_out (data s)))
  = ([[Int DRAIN_OK; Int DRAIN_OK; Int DRAIN_ERR_TIMEOUT]; [Int DRAIN_OK]], STATE_TIMED_OUT, 0, 0).
Proof. by vm_compute. Qed.

(** A second drain counts the streams that timed out in the first once more. *)
Lemma timed_out_twice :
  (let '(ths, s) := run example_config (map (fun i => (0%nat, 1000 + 30 * Z.of_nat i)) (seq 0 60))
                        (map spawn [[Register 3 7 0; Begin; Poll; Begin; Poll]]) example_tracker in
   (int_results ths, total_accepted (data s), total_timed_out (data s)))
  = ([[Int DRAIN_OK; Int DRAIN_OK; Int DRAIN_ERR_TIMEOUT; Int DRAIN_OK; Int DRAIN_ERR_TIMEOUT]], 1, 2).
Proof. by vm_compute. Qed.

Definition example_calls : list (list call) := [[Register 3 7 0; Begin; Wait 50; Poll]; [Complete 7; Register 4 8 0]].

Lemma example_consistent : consistent (state example_tracker) (data example_tracker).
Proof. by apply (empty_consistent 4 true). Qed.

(** A process that ignores the first signal and dies of the second. *)
Definition stubborn : environment := {|
  delay _ := 1;
  clock_ok _ := true;
  wait_nohang i := (0, 0);
  gone _ := false;
|}.

(** ** Properties *)

(** C23: whatever the calls of any number of threads and however they interleave, from a
    tracker that is consistent and unlocked: a thread that accesses the protected fields,
    writes the state or clears the lock flag is the one that has set it; whenever the
    lock is free the tracker is consistent: identifiers in use are distinct, the active
    count is their number, accepted streams are the completed and the active ones, and a
    completed drain has no stream. *)
Theorem drain_race_free config css s schedule threads s' :
  owner s = None -> consistent (state s) (data s) ->
  run config schedule (map spawn css) s = (threads, s') ->
  (forall t th, threads !! t = Some th -> next_protected (cur th) = true -> owner s' = Some t) /\
  (owner s' = None -> consistent (state s') (data s')) /\
  (state s' = STATE_COMPLETED -> active_count (data s') = 0).
Proof.
  intros Ho Hc Hrun. destruct (run_sound config _ _ _ _ _ (spawned_sound css s Ho Hc) Hrun) as [[[H1 H2] Hth _] _].
  split_and!; [|done|done]. intros t th Ht. pose proof (so_running _ _ _ (Hth t th Ht)) as Hr.
  assert (Hp : forall A (claim : A -> bool) (p : prog A), sound_prog claim t s' p -> protected p = true -> owner s' = Some t).
  { intros A claim p (known & _ & _ & Hout) Hp. destruct (decide (owner s' = Some t)) as [|Hne]; [done|].
    specialize (Hout Hne). by destruct p. }
  destruct (cur th) as [|p|p|d p]; cbn [sound_running next_protected] in *; [done|..].
  - by eapply Hp.
  - destruct Hr. by eapply Hp.
  - destruct Hr. by eapply Hp.
Qed.

(** C29: from any moment on which the tracker is no longer active, whatever the threads
    still do: it does not become active again and no stream is added; and once a poll or
    a wait has answered [DRAIN_OK], the drain is over and no stream is ever in use again. *)
Theorem drain_no_new_work config css s schedule schedule' threads s1 threads' s2 :
  owner s = None -> consistent (state s) (data s) ->
  run config schedule (map spawn css) s = (threads, s1) -> run config schedule' threads s1 = (threads', s2) ->
  (state s1 <> STATE_ACTIVE -> state s2 <> STATE_ACTIVE /\ incl (open_ids (data s2)) (open_ids (data s1))) /\
  (forall t th c v, threads !! t = Some th -> In (c, v) (results th) -> says_drained c v = true ->
     drained (state s1) (data s1) /\ drained (state s2) (data s2)).
Proof.
  intros Ho Hc Hrun Hrun'. destruct (run_sound config _ _ _ _ _ (spawned_sound css s Ho Hc) Hrun) as [Hs1 _].
  destruct (run_sound config _ _ _ _ _ Hs1 Hrun') as [_ Hev]. split.
  - intros Hst. destruct (proj2 Hev Hst) as (? & ? & _). by split.
  - intros t th c v Ht Hin Hv. pose proof (so_results _ _ _ (sn_threads _ _ Hs1 t th Ht) c v Hin Hv) as Hd.
    split; [done|]. by eapply evolves_drained.
Qed.

(** No call is ever stuck: from every configuration that threads can reach, there is
    a continuation in which every call of every thread returns and the lock is free. *)
Theorem drain_calls_finish config css s schedule threads s1 :
  owner s = None -> consistent (state s) (data s) ->
  run config schedule (map spawn css) s = (threads, s1) ->
  exists schedule' threads' s2, run config schedule' threads s1 = (threads', s2) /\ owner s2 = None /\
    length threads' = length css /\ Forall (fun th => finished th = true) threads'.
Proof.
  intros Ho Hc Hrun. destruct (run_sound config _ _ _ _ _ (spawned_sound css s Ho Hc) Hrun) as [Hs1 _].
  destruct (can_finish config threads s1 Hs1) as (sched & ths & s2 & E & Ho2 & Hl & Hf).
  exists sched, ths, s2. split_and!; try done.
  pose proof (run_length config schedule (map spawn css) s) as Hlen. rewrite Hrun in Hlen. cbn [fst] in Hlen.
  by rewrite Hl, Hlen, length_map.
Qed.

(** Waiting for a process ends within the given number of turns; SIGTERM is sent
    only when the timeout has passed, SIGKILL only when the grace period has passed
    after it, each at most once, and the answer is [DRAIN_ERR_TIMEOUT] exactly when
    SIGKILL was sent. *)
Theorem process_await_patient env fuel pid timeout_ms grace_period_ms start :
  (forall i, 0 <= delay env i) -> (forall i, clock_ok env i = true) -> 0 <= start -> 1 < pid ->
  (await_fuel timeout_ms grace_period_ms <= fuel)%nat ->
  exists st status w, alrios_drain_process_await env fuel pid timeout_ms grace_period_ms start = Some (st, status, w) /\
    (time w + effective_ms timeout_ms DRAIN_DEFAULT_TIMEOUT_MS + effective_ms grace_period_ms DRAIN_DEFAULT_GRACE_MS < 2 ^ 64 ->
     match sent w with
     | [] => st = DRAIN_OK
     | [(SIGNAL_TERM, t1)] => st = DRAIN_OK /\ start + effective_ms timeout_ms DRAIN_DEFAULT_TIMEOUT_MS <= t1
     | [(SIGNAL_TERM, t1); (SIGNAL_KILL, t2)] =>
         st = DRAIN_ERR_TIMEOUT /\ start + effective_ms timeout_ms DRAIN_DEFAULT_TIMEOUT_MS <= t1 /\
         t1 + effective_ms grace_period_ms DRAIN_DEFAULT_GRACE_MS <= t2
     | _ => False
     end).
Proof.
  intros Hd Hck Hst Hpid Hfuel. unfold alrios_drain_process_await.
  fold (effective_ms timeout_ms DRAIN_DEFAULT_TIMEOUT_MS). fold (effective_ms grace_period_ms DRAIN_DEFAULT_GRACE_MS).
  set (T := effective_ms timeout_ms _). set (G := effective_ms grace_period_ms _).
  assert (HT : 0 < T) by by apply effective_pos. assert (HG : 0 < G) by by apply effective_pos.
  replace (pid <=? 1) with false by lia. unfold drain_monotonic_ms at 1. rewrite Hck. cbn [time].
  set (w1 := after env 0 (mk_progress 0 start [])).
  assert (Ht1 : start <= time w1) by (cbn; specialize (Hd 0%nat); lia).
  destruct (fuel_enough timeout_ms grace_period_ms T start w1 (or_introl eq_refl) ltac:(lia) ltac:(lia)) as [Hf Hf1].
  destruct (await_until_ends env Hd Hck fuel (u64 (start + T)) w1 ltac:(lia) ltac:(lia)) as [[r w2] E2].
  rewrite E2. apply await_until_spec in E2 as (Hs2 & Ht2 & Hd2); [|done..]. change (sent w1) with (@nil (signal * Z)) in Hs2.
  destruct r as [status|]; [by eexists _, _, _; split; [done|]; rewrite Hs2|]. specialize (Hd2 eq_refl).
  unfold drain_monotonic_ms. rewrite Hck. set (w3 := send env SIGNAL_TERM w2). set (w4 := after env 0 w3).
  assert (Ht3 : time w2 <= time w3 /\ time w3 <= time w4).
  { cbn. pose proof (Hd (at_call w2)). pose proof (Hd (S (at_call w2))). lia. }
  destruct (fuel_enough timeout_ms grace_period_ms G (time w3) w4 (or_intror eq_refl) ltac:(lia) ltac:(lia)) as [Hg _].
  destruct (await_until_ends env Hd Hck fuel (u64 (time w3 + G)) w4 ltac:(lia) ltac:(lia)) as [[r w5] E5].
  rewrite E5. apply await_until_spec in E5 as (Hs5 & Ht5 & Hd5); [|done..].
  assert (Hs4 : sent w4 = [(SIGNAL_TERM, time w2)]) by (cbn; by rewrite Hs2).
  assert (Hu : forall z, 0 <= z < 2 ^ 64 -> u64 z = z) by (intros; by apply Z.mod_small).
  destruct r as [status|].
  { eexists _, _, _. split; [done|]. rewrite Hs5, Hs4. intros Hb. split; [done|]. rewrite Hu in Hd2 by lia. lia. }
  specialize (Hd5 eq_refl). destruct (await_killed env 20 (send env SIGNAL_KILL w5)) as [status w6] eqn:E6.
  apply await_killed_spec in E6 as [Hs6 Ht6]; [|done..]. eexists _, _, _. split; [done|].
  cbn [send sent time] in Hs6, Ht6. rewrite Hs6, Hs5, Hs4. intros Hb. cbn [app].
  pose proof (Hd (at_call w5)). rewrite Hu in Hd2, Hd5 by lia. split_and!; [done|lia|lia].
Qed.

Lemma drain_race_free_witness :
  let r := run example_config late_close (map spawn example_calls) example_tracker in
  (forall t th, r.1 !! t = Some th -> next_protected (cur th) = true -> owner r.2 = Some t) /\
  (owner r.2 = None -> consistent (state r.2) (data r.2)) /\
  (state r.2 = STATE_COMPLETED -> active_count (data r.2) = 0).
Proof.
  apply (drain_race_free example_config example_calls example_tracker late_close _ _ eq_refl example_consistent).
  apply surjective_pairing.
Defined.

Lemma drain_no_new_work_witness :
  let r1 := run example_config (firstn 38 late_close) (map spawn example_calls) example_tracker in
  let r2 := run example_config (skipn 38 late_close) r1.1 r1.2 in
  state r1.2 = STATE_COMPLETED /\ state r2.2 <> STATE_ACTIVE /\ incl (open_ids (data r2.2)) (open_ids (data r1.2)).
Proof.
  intros r1 r2.
  assert (H : state r1.2 = STATE_COMPLETED) by by vm_compute. split; [exact H|].
  apply (drain_no_new_work example_config example_calls example_tracker (firstn 38 late_close) (skipn 38 late_close)
    r1.1 r1.2 r2.1 r2.2 eq_refl example_consistent (surjective_pairing _) (surjective_pairing _)).
  rewrite H. discriminate.
Defined.

Lemma drain_calls_finish_witness :
  let r := run example_config (firstn 25 late_close) (map spawn example_calls) example_tracker in
  exists schedule' threads' s2, run example_config schedule' r.1 r.2 = (threads', s2) /\ owner s2 = None /\
    length threads' = 2%nat /\ Forall (fun th => finished th = true) threads'.
Proof.
  apply (drain_calls_finish example_config example_calls example_tracker (firstn 25 late_close) _ _ eq_refl example_consistent).
  apply surjective_pairing.
Defined.

Lemma process_await_patient_witness :
  exists st status w, alrios_drain_process_await stubborn 60 77 300 200 1000 = Some (st, status, w) /\ st = DRAIN_ERR_TIMEOUT /\
    map fst (sent w) = [SIGNAL_TERM; SIGNAL_KILL].
Proof.
  destruct (process_await_patient stubborn 60 77 300 200 1000) as (st & status & w & E & _).
  - done.
  - done.
  - done.
  - done.
  - apply Nat.leb_le. reflexivity.
  - exists st, status, w. split; [exact E|]. revert E. vm_compute. intros [= <- <- <-]. by split.
Defined.

(** ** A call on its own *)

(** The result of a program that is not interrupted, with the clock at [now]; none if it
    would wait for the lock. *)
Fixpoint alone {A} (t : nat) (now : Z) (p : prog A) (s : shared) : option (A * shared) :=
  match p with
  | Ret v => Some (v, s)
  | Load k => alone t now (k (state s)) s
  | Store st k => alone t now k (mk_shared st (data s) (owner s))
  | Acquire k => match owner s with None => alone t now k (mk_shared (state s) (data s) (Some t)) | Some _ => None end
  | Release k => alone t now k (mk_shared (state s) (data s) None)
  | Read k => alone t now (k (data s)) s
  | Write f k => alone t now k (mk_shared (state s) (f (data s)) (owner s))
  | Clock k => alone t now (k now) s
  | Sleep _ k => alone t now k s
  end.

(** What a registration and a completion should answer. *)
Definition register_answer (s : shared) (id : Z) : Z :=
  if id =? 0 then DRAIN_ERR_INVALID
  else if negb (bool_decide (state s = STATE_ACTIVE)) then DRAIN_ERR_STATE
  else if existsb (fun x => x =? id) (open_ids (data s)) then DRAIN_ERR_INVALID
  else if len (open_ids (data s)) >=? stream_capacity (data s) then DRAIN_ERR_LIMIT
  else DRAIN_OK.

Definition complete_answer (s : shared) (id : Z) : Z :=
  if id =? 0 then DRAIN_ERR_INVALID
  else if existsb (fun x => x =? id) (open_ids (data s)) then DRAIN_OK
  else DRAIN_ERR_NOT_FOUND.

Lemma existsb_id ids id : existsb (fun x => x =? id) ids = true <-> In id ids.
Proof.
  rewrite existsb_exists. split; [intros (x & Hx & E); bool_hyps; by subst|].
  intros Hx. exists id. by rewrite Z.eqb_refl.
Qed.

(** The first free place is the capacity exactly when every place is in use. *)
Lemma find_free_kept l i capacity id fr j : fr <> capacity -> find_free l i capacity id fr = Some j -> j = fr.
Proof.
  intros Hfr. revert i. induction l as [|s l IH]; intros i; cbn [find_free]; [by intros [= <-]|].
  destruct (_ && negb _); [done|]. replace (fr =? capacity) with false by lia. cbn [andb]. apply IH.
Qed.

Lemma find_free_full l i capacity id j :
  i + len l <= capacity -> find_free l i capacity id capacity = Some j ->
  (j = capacity <-> length (filter (fun s => in_use s = true) l) = length l).
Proof.
  revert i. induction l as [|s l IH]; intros i Hi; cbn [find_free].
  { by intros [= <-]. }
  rewrite len_cons in Hi. pose proof (len_nonneg l). destruct (_ && negb _); [done|].
  rewrite Z.eqb_refl, free_test, list.filter_cons. cbn [andb].
  destruct (in_use s) eqn:Eu; cbn [negb].
  - intros Hf. rewrite decide_True by done. cbn [length]. rewrite (IH (i + 1) ltac:(lia) Hf). lia.
  - intros Hf. rewrite decide_False by done. apply find_free_kept in Hf as ->; [|lia].
    pose proof (list.length_filter (fun s => in_use s = true) l). cbn [length]. lia.
Qed.

Lemma register_alone t now s fd_ id user :
  owner s = None -> consistent (state s) (data s) ->
  exists s', alone t now (alrios_drain_stream_register fd_ id user) s = Some (register_answer s id, s') /\
    owner s' = None /\ state s' = state s /\
    open_ids (data s') ≡ₚ (if register_answer s id =? DRAIN_OK then id :: open_ids (data s) else open_ids (data s)).
Proof.
  intros Ho Hc. unfold alrios_drain_stream_register, register_answer. destruct (id =? 0) eqn:Eid; [by exists s|]. bool_hyps.
  cbn [alone]. destruct (negb (bool_decide (state s = STATE_ACTIVE))) eqn:Est; [by exists s|].
  cbn [alone]. rewrite Ho. cbn [alone state data owner]. rewrite Est. cbn [alone data].
  pose proof (find_free_None (streams (data s)) 0 (stream_capacity (data s)) id (stream_capacity (data s)) Eid) as Hnone.
  rewrite <- open_ids_in, <- existsb_id in Hnone.
  destruct (find_free _ _ _ _ _) as [i|] eqn:Ef.
  2: { rewrite (proj1 Hnone eq_refl). by eexists. }
  destruct (existsb _ _) eqn:Ex; [by discriminate (proj2 Hnone eq_refl)|].
  pose proof (cs_capacity _ _ Hc) as Hcap.
  pose proof (find_free_full (streams (data s)) 0 (stream_capacity (data s)) id i ltac:(lia) Ef) as Hfull.
  assert (Hlen : length (filter (fun s => in_use s = true) (streams (data s))) = length (open_ids (data s))).
  { unfold open_ids. by rewrite length_map. }
  rewrite Hlen in Hfull. rewrite !Z.geb_leb.
  destruct (find_free_Some (streams (data s)) 0 (stream_capacity (data s)) id _ i ltac:(lia) Ef) as [->|(st & Hj & Hl & Hu)].
  - rewrite Z.leb_refl. cbn [alone]. replace (stream_capacity (data s) <=? len (open_ids (data s))) with true; [by eexists|].
    symmetry. apply Z.leb_le. unfold len in *. lia.
  - rewrite Z.sub_0_r in Hl. pose proof (lookup_lt_Some _ _ _ Hl).
    assert (Hi : i < stream_capacity (data s)) by (unfold len in Hcap; lia).
    pose proof (list.length_filter (fun s => in_use s = true) (streams (data s))).
    replace (stream_capacity (data s) <=? i) with false by lia.
    replace (stream_capacity (data s) <=? len (open_ids (data s))) with false by (unfold len in *; lia).
    cbn [alone]. eexists. split; [done|]. split; [done|]. split; [done|].
    apply (open_ids_insert _ _ st (mk_stream id fd_ STREAM_STATE_OPEN now user)); [done..|].
    unfold in_use. cbn. by rewrite (proj2 (Z.eqb_neq id 0)).
Qed.

Lemma complete_alone t now s id :
  owner s = None -> consistent (state s) (data s) ->
  exists s', alone t now (alrios_drain_stream_complete id) s = Some (complete_answer s id, s') /\ owner s' = None /\
    (if complete_answer s id =? DRAIN_OK
     then open_ids (data s) ≡ₚ id :: open_ids (data s') /\
          state s' = (if bool_decide (state s = STATE_DRAINING) && bool_decide (open_ids (data s') = [])
                      then STATE_COMPLETED else state s)
     else open_ids (data s') = open_ids (data s) /\ state s' = state s).
Proof.
  intros Ho Hc. unfold alrios_drain_stream_complete, complete_answer. destruct (id =? 0) eqn:Eid; [by exists s|]. bool_hyps.
  cbn [alone]. rewrite Ho. cbn [alone state data owner].
  destruct (find_open_spec (streams (data s)) 0 (stream_capacity (data s)) id Eid ltac:(rewrite (cs_capacity _ _ Hc); lia))
    as [[-> Hno]|(st & Hr & Hl & Hs & Hu)].
  - rewrite Z.geb_leb, Z.leb_refl. cbn [alone].
    destruct (existsb _ _) eqn:Ex; [|by eexists]. apply existsb_id, open_ids_in in Ex as (st & Hin & Hid & Hu).
    rewrite (Hno st) in Hu by done. done.
  - set (i := find_open _ _ _ _) in *. rewrite Z.sub_0_r in Hl. rewrite Z.geb_leb.
    replace (stream_capacity (data s) <=? i) with false by lia.
    rewrite (proj2 (existsb_id (open_ids (data s)) id)).
    2: { apply open_ids_in. exists st. split; [|done]. apply list_elem_of_In. by eapply list_elem_of_lookup_2. }
    destruct (consistent_complete (state s) (data s) i st Hc ltac:(lia) Hl Hu) as (_ & Ha & Hpos & Hcons).
    assert (Hids : open_ids (data s) ≡ₚ stream_id st :: open_ids (complete_at i (data s))) by by apply open_ids_alter.
    assert (Hz : (active_count (complete_at i (data s)) =? 0) = bool_decide (open_ids (complete_at i (data s)) = [])).
    { rewrite Ha, (cs_active _ _ Hc). pose proof (Permutation_length Hids) as Hp. cbn [length] in Hp. unfold len.
      destruct (open_ids (complete_at i (data s))) as [|x l].
      - rewrite bool_decide_true by done. cbn [length] in Hp. lia.
      - rewrite bool_decide_false by done. cbn [length] in Hp. lia. }
    cbn [alone data state]. rewrite Hz, <- Hs.
    destruct (bool_decide (state s = STATE_DRAINING) && bool_decide _) eqn:Eb; cbn [alone]; eexists;
      (split; [done|]); (split; [done|]); cbn [data state Z.eqb DRAIN_OK]; by rewrite Eb.
Qed.

Lemma alone_sound {A} (claim : A -> bool) t now p s v s' :
  sound_shared s -> sound_prog claim t s p -> alone t now p s = Some (v, s') ->
  sound_shared s' /\ owner s' <> Some t.
Proof.
  revert s. induction p as [v1|k IH|st k IH|k IH|k IH|k IH|g k IH|k IH|ms k IH]; intros s Hs Hp; cbn [alone].
  { intros [= _ <-]. split; [done|]. by destruct (returned _ _ _ _ Hp). }
  all: intros E; try (destruct (owner s) eqn:Eo; [done|]);
    match goal with Hp : sound_prog _ _ _ ?p |- _ =>
      destruct (advance_sound claim t now p s _ _ Hs Hp ltac:(done) (surjective_pairing _)) as [Hp' Hg] end;
    cbn [advance fst snd] in Hp', Hg; rewrite ?Eo in *; eapply IH; try exact E; try done; by eapply good_step_sound.
Qed.

Lemma alone_ret {A} t now (p : prog A) s : alone t now (pbind p Ret) s = alone t now p s.
Proof. revert s. induction p; intros s0; cbn; try done. by destruct (owner s0). Qed.

(** A registration and a completion that are not interrupted implement a set of
    identifiers of bounded size: a registration adds a fresh identifier while the
    tracker is active and has room, a completion removes one, the completion of the
    last one ends a drain, and every other call is refused and changes nothing. *)
Theorem streams_refine_set t now s fd_ id user :
  owner s = None -> consistent (state s) (data s) ->
  (exists s', alone t now (alrios_drain_stream_register fd_ id user) s = Some (register_answer s id, s') /\
    consistent (state s') (data s') /\ state s' = state s /\
    open_ids (data s') ≡ₚ (if register_answer s id =? DRAIN_OK then id :: open_ids (data s) else open_ids (data s))) /\
  (exists s', alone t now (alrios_drain_stream_complete id) s = Some (complete_answer s id, s') /\
    consistent (state s') (data s') /\
    (if complete_answer s id =? DRAIN_OK
     then open_ids (data s) ≡ₚ id :: open_ids (data s') /\
          state s' = (if bool_decide (state s = STATE_DRAINING) && bool_decide (open_ids (data s') = [])
                      then STATE_COMPLETED else state s)
     else open_ids (data s') = open_ids (data s) /\ state s' = state s)).
Proof.
  intros Ho Hc. assert (Hs : sound_shared s) by by split; [|apply Hc].
  assert (Hcons : forall (p : prog Z) v s', outside (fun _ : Z => false) False (pbind p Ret) -> alone t now p s = Some (v, s') ->
    owner s' = None -> consistent (state s') (data s')).
  { intros p v s' Hp E Ho'. rewrite <- alone_ret in E. apply (alone_sound (fun _ => false)) in E as [[H _] _]; [by apply H|done|].
    exists False. split; [done|]. split; [by rewrite Ho|done]. }
  split.
  - destruct (register_alone t now s fd_ id user Ho Hc) as (s' & E & Ho' & Hst & Hids). exists s'. split_and!; try done.
    apply (Hcons _ _ _ (register_outside (fun _ => false) False Ret fd_ id user ltac:(done)) E Ho').
  - destruct (complete_alone t now s id Ho Hc) as (s' & E & Ho' & Hr). exists s'. split_and!; try done.
    by apply (Hcons _ _ _ (complete_outside (fun _ => false) False Ret id ltac:(done)) E).
Qed.

Lemma streams_refine_set_witness :
  exists s', alone 0 1000 (alrios_drain_stream_register 3 7 0) example_tracker = Some (DRAIN_OK, s') /\
    consistent (state s') (data s') /\ open_ids (data s') ≡ₚ [7].
Proof.
  destruct (streams_refine_set 0 1000 example_tracker 3 7 0 eq_refl example_consistent) as [(s' & E & Hc & _ & Hids) _].
  exists s'. split; [exact E|]. split; [exact Hc|exact Hids].
Defined.
