(* ===== verification/HttpCodec.v ===== *)
(** HTTP messages between the router and the guests (src/libraries/ipc/http_serializer.c).

    Two codecs: the text form of a first line, and the binary form that carries headers
    and body. A character array of a structure is the list of the octets stored in it
    before its terminator; the code reads it as a C string, [cstr]. The binary form uses
    [htonl] and [htons], that is, big-endian stores. *)

From S2P Require Import Prelude Bytes.
#[local] Open Scope Z_scope.

Definition IPC_MAX_PAYLOAD : Z := 65524.

Definition HTTP_MAX_METHOD_LEN : Z := 16.

Definition HTTP_MAX_PATH_LEN : Z := 4096.

Definition HTTP_MAX_STATUS_LEN : Z := 64.

Definition HTTP_MAX_HEADERS : Z := 32.

Definition HTTP_MAX_HEADER_KEY : Z := 128.

Definition HTTP_MAX_HEADER_VAL : Z := 1024.

Definition HTTP_REQ_MAGIC : Z := 1095913813.

Definition HTTP_RESP_MAGIC : Z := 1095914320.

(** The sizes of the packed headers on the wire. *)
Definition REQ_HDR_SIZE : Z := 16.

Definition RESP_HDR_SIZE : Z := 16.

Definition HDR_PAIR_SIZE : Z := 4.

(** ** Data *)

Record http_header := mk_header {
  key : bytes;
  value : bytes;
}.

Definition zero_header : http_header := mk_header [] [].

(** The first elements of the array of headers; the others are zero. *)
Record http_request := mk_request {
  method : bytes;
  path : bytes;
  headers : list http_header;
  header_count : Z;
  body : option bytes;
  body_len : Z;
}.

Record http_response := mk_response {
  status_code : Z;
  status_text : bytes;
  resp_headers : list http_header;
  resp_header_count : Z;
  resp_body : option bytes;
  resp_body_len : Z;
}.

(** ** Validation *)

Definition valid_methods : list bytes :=
  [lit "GET"; lit "POST"; lit "PUT"; lit "DELETE"; lit "HEAD"; lit "OPTIONS"; lit "PATCH"; lit "CONNECT"; lit "TRACE"].

Definition is_valid_http_method (method : bytes) : bool :=
  let method := cstr method in
  if len method =? 0 then false else existsb (fun m => bytes_eqb method m) valid_methods.

(** A character that the paths and the reason phrases may hold. *)
Definition printable (c : Z) : bool := negb ((c <? 32) || (c =? 127)).

Definition is_valid_http_path (path : bytes) : bool :=
  let path := cstr path in
  if negb (at_ path 0 =? 47) then false else forallb printable path.

(** ** The text form *)

Definition CRLF : bytes := [13; 10].

(** [snprintf] into [max] octets: the length of the text, and what the buffer holds. *)
Definition snprintf (max : Z) (text : bytes) : Z * bytes :=
  (len text, sub 0 (max - 1) text ++ [0]).

(** The result, and the buffer when it was written. *)
Definition alrios_ipc_serialize_http_req (buf : bool) (max : Z) (method path : option bytes) : Z * option bytes :=
  match method, path with
  | Some method, Some path =>
      if negb buf || (max =? 0) then (-1, None)
      else if negb (is_valid_http_method method) || negb (is_valid_http_path path) then (-1, None)
      else
        let '(written, content) := snprintf max (cstr method ++ lit " " ++ cstr path ++ lit " HTTP/1.1" ++ CRLF ++ CRLF) in
        if written >=? max then (-2, Some content) else (written, Some content)
  | _, _ => (-1, None)
  end.

Definition status_line (status_code : Z) (reason : bytes) (body_len : Z) : bytes :=
  lit "HTTP/1.1 " ++ decimal status_code ++ lit " " ++ reason ++ CRLF
  ++ lit "Content-Length: " ++ decimal body_len ++ CRLF ++ CRLF.

(** The conversion of a [size_t] to [int]. *)
Definition to_int (n : Z) : Z := (n + 2 ^ 31) mod 2 ^ 32 - 2 ^ 31.

(** The result, and the octets of the buffer up to its terminator. *)
Definition alrios_ipc_serialize_http_resp (buf : bool) (max status_code : Z) (reason_phrase body : option bytes)
    (body_len : Z) : res (Z * option bytes) :=
  if negb buf || (max =? 0) || (status_code <? 100) || (status_code >? 599) then Ok (-1, None)
  else
    let reason := match reason_phrase with
                  | Some phrase => if len (cstr phrase) =? 0 then lit "OK" else cstr phrase
                  | None => lit "OK"
                  end in
    if negb (forallb printable reason) then Ok (-1, None)
    else
      let text := status_line status_code reason body_len in
      let '(header_len, content) := snprintf max text in
      if header_len >=? max then Ok (-2, Some content)
      else
        match body with
        | Some body =>
            if body_len >? 0 then
              if u64 (header_len + body_len) >=? max then Ok (-2, Some content)
              else
                let! b := rd 0 body_len body in
                if header_len + body_len + 1 >? max then Fault
                else Ok (header_len + to_int body_len, Some (text ++ b ++ [0]))
            else Ok (header_len, Some content)
        | None => Ok (header_len, Some content)
        end.

(** [memmem(text, "\r\n")] and [memchr]: the offset. *)
Fixpoint find_crlf (text : bytes) : option Z :=
  match text with
  | c :: (d :: _) as rest => if (c =? 13) && (d =? 10) then Some 0 else option_map Z.succ (find_crlf rest)
  | _ => None
  end.

Fixpoint memchr (c : Z) (text : bytes) : option Z :=
  match text with
  | [] => None
  | x :: text => if x =? c then Some 0 else option_map Z.succ (memchr c text)
  end.

Definition or_fail {A} (m : option A) (e : Z) : res A := match m with Some x => Ok x | None => Err e end.

(** The method and the path. *)
Definition parse_http_req (raw : bytes) (raw_len max_method max_path : Z) : res (bytes * bytes) :=
  fail_if (raw_len =? 0) || (max_method =? 0) || (max_path =? 0) with -1;;
  let! text := rd 0 raw_len raw in
  let! line_len := or_fail (find_crlf text) (-1) in
  let line := sub 0 line_len text in
  let! m_len := or_fail (memchr 32 line) (-1) in
  fail_if (m_len =? 0) || (m_len >=? max_method) with -1;;
  let rest := drop (Z.to_nat (m_len + 1)) line in
  let! p_len := or_fail (memchr 32 rest) (-1) in
  fail_if (p_len =? 0) || (p_len >=? max_path) with -1;;
  let version := drop (Z.to_nat (p_len + 1)) rest in
  fail_if negb (bytes_eqb version (lit "HTTP/1.1")) with -1;;
  let method := sub 0 m_len line in
  let path := sub 0 p_len rest in
  fail_if negb (is_valid_http_method method) || negb (is_valid_http_path path) with -1;;
  Ok (method, path).

Definition alrios_ipc_parse_http_req (raw : option bytes) (raw_len : Z) (method : bool) (max_method : Z) (path : bool)
    (max_path : Z) : res (bytes * bytes) :=
  match raw with
  | Some raw => if negb method || negb path then Err (-1) else parse_http_req raw raw_len max_method max_path
  | None => Err (-1)
  end.

Definition is_digit (low high c : Z) : bool := (low <=? c) && (c <=? high).

(** The status code, and the reason phrase if it is asked for ([max_reason] not zero). *)
Definition alrios_ipc_parse_http_resp (raw : option bytes) (raw_len max_reason : Z) : res (Z * bytes) :=
  match raw with
  | Some raw =>
      fail_if raw_len <? 12 with -1;;
      let! version := rd 0 9 raw in
      fail_if negb (bytes_eqb version (lit "HTTP/1.1 ")) with -1;;
      let! code := rd 9 3 raw in
      fail_if negb (is_digit 49 53 (at_ code 0)) || negb (is_digit 48 57 (at_ code 1)) || negb (is_digit 48 57 (at_ code 2)) with -1;;
      let status := (at_ code 0 - 48) * 100 + (at_ code 1 - 48) * 10 + (at_ code 2 - 48) in
      if (max_reason >? 0) && (raw_len >? 12) then
        let! space := rd 12 1 raw in
        if at_ space 0 =? 32 then
          let! rest := rd 13 (raw_len - 13) raw in
          match find_crlf rest with
          | Some r_len => Ok (status, sub 0 (if r_len >=? max_reason then max_reason - 1 else r_len) rest)
          | None => Ok (status, [])
          end
        else Ok (status, [])
      else Ok (status, [])
  | None => Err (-1)
  end.

(** ** The binary form *)

(** The headers that count. *)
Definition first_headers (headers : list http_header) (count : Z) : list http_header :=
  take (Z.to_nat count) (headers ++ replicate (Z.to_nat HTTP_MAX_HEADERS) zero_header).

Fixpoint headers_size (hs : list http_header) (total_size : Z) : res Z :=
  match hs with
  | [] => Ok total_size
  | h :: hs =>
      let k_len := len (cstr (key h)) in
      let v_len := len (cstr (value h)) in
      fail_if (k_len >? UINT16_MAX) || (v_len >? UINT16_MAX) with -1;;
      headers_size hs (u64 (total_size + HDR_PAIR_SIZE + k_len + v_len))
  end.

Definition pack_header (h : http_header) : bytes :=
  store_u16_be (u16 (len (cstr (key h)))) ++ store_u16_be (u16 (len (cstr (value h)))) ++ cstr (key h) ++ cstr (value h).

Definition pack_headers (hs : list http_header) : bytes := concat (map pack_header hs).

(** [memcpy(cursor, body, body_len)] if there is a body. *)
Definition copy_body (body : option bytes) (body_len : Z) : res bytes :=
  match body with
  | Some b => if body_len >? 0 then rd 0 body_len b else Ok []
  | None => Ok []
  end.

(** The octets are written to a buffer of [max_len]. *)
Definition write_out (max_len : Z) (wire : bytes) : res bytes := if len wire <=? max_len then Ok wire else Fault.

(** The six fields of either header. *)
Definition bin_header (a b c d e f : Z) : bytes :=
  store_u32_be a ++ store_u16_be b ++ store_u16_be c ++ store_u16_be d ++ store_u16_be e ++ store_u32_be f.

(** The octets written, whose number is [*out_len]. *)
Definition pack_http_req (req : http_request) (max_len : Z) : res bytes :=
  fail_if max_len <? REQ_HDR_SIZE with -1;;
  fail_if negb (is_valid_http_method (method req)) || negb (is_valid_http_path (path req)) with -1;;
  let m := cstr (method req) in
  let p := cstr (path req) in
  fail_if (len m >? UINT16_MAX) || (len p >? UINT16_MAX) || (header_count req >? HTTP_MAX_HEADERS) with -1;;
  let hs := first_headers (headers req) (header_count req) in
  let! total_size := headers_size hs (REQ_HDR_SIZE + len m + len p) in
  let total_size := u64 (total_size + body_len req) in
  fail_if (total_size >? max_len) || (total_size >? IPC_MAX_PAYLOAD) with -2;;
  let hdr := bin_header HTTP_REQ_MAGIC (u16 (len m)) (u16 (len p)) (u16 (header_count req)) 0 (u32 (body_len req)) in
  let! b := copy_body (body req) (body_len req) in
  write_out max_len (hdr ++ m ++ p ++ pack_headers hs ++ b).

Definition alrios_ipc_pack_http_req (req : option http_request) (out_buf : bool) (max_len : Z) (out_len : bool) : res bytes :=
  match req with
  | Some req => if negb out_buf || negb out_len then Err (-1) else pack_http_req req max_len
  | None => Err (-1)
  end.

Definition pack_http_resp (resp : http_response) (max_len : Z) : res bytes :=
  fail_if max_len <? RESP_HDR_SIZE with -1;;
  fail_if (status_code resp <? 100) || (status_code resp >? 599) with -1;;
  let st := cstr (status_text resp) in
  fail_if (len st >? UINT16_MAX) || (resp_header_count resp >? HTTP_MAX_HEADERS) with -1;;
  let hs := first_headers (resp_headers resp) (resp_header_count resp) in
  let! total_size := headers_size hs (RESP_HDR_SIZE + len st) in
  let total_size := u64 (total_size + resp_body_len resp) in
  fail_if (total_size >? max_len) || (total_size >? IPC_MAX_PAYLOAD) with -2;;
  let hdr := bin_header HTTP_RESP_MAGIC (u16 (status_code resp)) (u16 (len st)) (u16 (resp_header_count resp)) 0
               (u32 (resp_body_len resp)) in
  let! b := copy_body (resp_body resp) (resp_body_len resp) in
  write_out max_len (hdr ++ st ++ pack_headers hs ++ b).

Definition alrios_ipc_pack_http_resp (resp : option http_response) (out_buf : bool) (max_len : Z) (out_len : bool) : res bytes :=
  match resp with
  | Some resp => if negb out_buf || negb out_len then Err (-1) else pack_http_resp resp max_len
  | None => Err (-1)
  end.

(** The headers at [cursor], of which [remaining] octets are input: the headers, and
    what is left. *)
Fixpoint unpack_headers (n : nat) (cursor : bytes) (remaining : Z) : res (list http_header * bytes * Z) :=
  match n with
  | O => Ok ([], cursor, remaining)
  | S n =>
      fail_if remaining <? HDR_PAIR_SIZE with -1;;
      let! b_key := rd 0 2 cursor in
      let! b_val := rd 2 2 cursor in
      let k_len := load_u16_be b_key in
      let v_len := load_u16_be b_val in
      let cursor := drop (Z.to_nat HDR_PAIR_SIZE) cursor in
      let remaining := remaining - HDR_PAIR_SIZE in
      fail_if (k_len >=? HTTP_MAX_HEADER_KEY) || (v_len >=? HTTP_MAX_HEADER_VAL) with -1;;
      fail_if remaining <? k_len + v_len with -1;;
      let! k := rd 0 k_len cursor in
      let! v := rd k_len v_len cursor in
      let! (hs, cursor, remaining) :=
        unpack_headers n (drop (Z.to_nat (k_len + v_len)) cursor) (remaining - k_len - v_len) in
      Ok (mk_header k v :: hs, cursor, remaining)
  end.

(** Where the body is: in the caller's buffer, or still in the input. *)
Inductive place := NoBody | Copied | InInput.

(** The body, of [b_len] octets, and its place; [body_buf] is the size of the buffer. *)
Definition unpack_body (cursor : bytes) (remaining b_len : Z) (body_buf : option Z) : res (option bytes * place) :=
  if b_len >? 0 then
    fail_if remaining <? b_len with -1;;
    let! b := rd 0 b_len cursor in
    Ok (Some b, match body_buf with Some max => if max >=? b_len then Copied else InInput | None => InInput end)
  else Ok (None, NoBody).

Definition unpack_http_req (in_buf : bytes) (in_len : Z) (body_buf : option Z) : res (http_request * place) :=
  fail_if in_len <? REQ_HDR_SIZE with -1;;
  let! b_magic := rd 0 4 in_buf in
  fail_if negb (load_u32_be b_magic =? HTTP_REQ_MAGIC) with -1;;
  let! b_method := rd 4 2 in_buf in
  let! b_path := rd 6 2 in_buf in
  let! b_count := rd 8 2 in_buf in
  let! b_body := rd 12 4 in_buf in
  let m_len := load_u16_be b_method in
  let p_len := load_u16_be b_path in
  let h_count := load_u16_be b_count in
  fail_if (m_len =? 0) || (m_len >=? HTTP_MAX_METHOD_LEN) || (p_len =? 0) || (p_len >=? HTTP_MAX_PATH_LEN)
          || (h_count >? HTTP_MAX_HEADERS) with -1;;
  let cursor := drop (Z.to_nat REQ_HDR_SIZE) in_buf in
  let remaining := in_len - REQ_HDR_SIZE in
  fail_if remaining <? m_len + p_len with -1;;
  let! m := rd 0 m_len cursor in
  let! p := rd m_len p_len cursor in
  fail_if negb (is_valid_http_method m) || negb (is_valid_http_path p) with -1;;
  let! (hs, cursor, remaining) :=
    unpack_headers (Z.to_nat h_count) (drop (Z.to_nat (m_len + p_len)) cursor) (remaining - m_len - p_len) in
  let b_len := load_u32_be b_body in
  let! (b, at_place) := unpack_body cursor remaining b_len body_buf in
  Ok (mk_request m p hs h_count b b_len, at_place).

Definition alrios_ipc_unpack_http_req (in_buf : option bytes) (in_len : Z) (req : bool) (body_buf : option Z)
    : res (http_request * place) :=
  match in_buf with
  | Some in_buf => if negb req then Err (-1) else unpack_http_req in_buf in_len body_buf
  | None => Err (-1)
  end.

Definition unpack_http_resp (in_buf : bytes) (in_len : Z) (body_buf : option Z) : res (http_response * place) :=
  fail_if in_len <? RESP_HDR_SIZE with -1;;
  let! b_magic := rd 0 4 in_buf in
  fail_if negb (load_u32_be b_magic =? HTTP_RESP_MAGIC) with -1;;
  let! b_code := rd 4 2 in_buf in
  let code := load_u16_be b_code in
  fail_if (code <? 100) || (code >? 599) with -1;;
  let! b_text := rd 6 2 in_buf in
  let! b_count := rd 8 2 in_buf in
  let! b_body := rd 12 4 in_buf in
  let st_len := load_u16_be b_text in
  let h_count := load_u16_be b_count in
  fail_if (st_len >=? HTTP_MAX_STATUS_LEN) || (h_count >? HTTP_MAX_HEADERS) with -1;;
  let cursor := drop (Z.to_nat RESP_HDR_SIZE) in_buf in
  let remaining := in_len - RESP_HDR_SIZE in
  fail_if remaining <? st_len with -1;;
  let! st := rd 0 st_len cursor in
  let! (hs, cursor, remaining) :=
    unpack_headers (Z.to_nat h_count) (drop (Z.to_nat st_len) cursor) (remaining - st_len) in
  let b_len := load_u32_be b_body in
  let! (b, at_place) := unpack_body cursor remaining b_len body_buf in
  Ok (mk_response code st hs h_count b b_len, at_place).

Definition alrios_ipc_unpack_http_resp (in_buf : option bytes) (in_len : Z) (resp : bool) (body_buf : option Z)
    : res (http_response * place) :=
  match in_buf with
  | Some in_buf => if negb resp then Err (-1) else unpack_http_resp in_buf in_len body_buf
  | None => Err (-1)
  end.

(** ** Specification *)

Definition nul_free (b : bytes) : Prop := Forall (fun c => c <> 0) b.

(** A C string that fits an array of [n] octets. *)
Definition cstring (n : Z) (b : bytes) : Prop := nul_free b /\ len b < n.

Definition header_ok (h : http_header) : Prop :=
  cstring HTTP_MAX_HEADER_KEY (key h) /\ cstring HTTP_MAX_HEADER_VAL (value h).

(** A body is there exactly when its length is not zero. *)
Definition body_ok (b : option bytes) (n : Z) : Prop :=
  match b with Some b => 0 < n /\ len b = n | None => n = 0 end.

Record request_ok (req : http_request) : Prop := {
  rq_method : cstring HTTP_MAX_METHOD_LEN (method req) /\ is_valid_http_method (method req) = true;
  rq_path : cstring HTTP_MAX_PATH_LEN (path req) /\ is_valid_http_path (path req) = true;
  rq_headers : Forall header_ok (headers req) /\ header_count req = len (headers req) /\ len (headers req) <= HTTP_MAX_HEADERS;
  rq_body : body_ok (body req) (body_len req);
}.

Record response_ok (resp : http_response) : Prop := {
  rs_code : 100 <= status_code resp <= 599;
  rs_text : cstring HTTP_MAX_STATUS_LEN (status_text resp);
  rs_headers : Forall header_ok (resp_headers resp) /\ resp_header_count resp = len (resp_headers resp)
               /\ len (resp_headers resp) <= HTTP_MAX_HEADERS;
  rs_body : body_ok (resp_body resp) (resp_body_len resp);
}.

Definition body_octets (b : option bytes) : bytes := match b with Some b => b | None => [] end.

(** The place of a body that is read. *)
Definition place_of (b_len : Z) (body_buf : option Z) : place :=
  if b_len =? 0 then NoBody
  else match body_buf with Some max => if max >=? b_len then Copied else InInput | None => InInput end.

Definition request_wire (req : http_request) : bytes :=
  bin_header HTTP_REQ_MAGIC (len (method req)) (len (path req)) (header_count req) 0 (body_len req)
  ++ method req ++ path req ++ pack_headers (headers req) ++ body_octets (body req).

Definition response_wire (resp : http_response) : bytes :=
  bin_header HTTP_RESP_MAGIC (status_code resp) (len (status_text resp)) (resp_header_count resp) 0 (resp_body_len resp)
  ++ status_text resp ++ pack_headers (resp_headers resp) ++ body_octets (resp_body resp).

#[export] Hint Unfold HTTP_MAX_METHOD_LEN HTTP_MAX_PATH_LEN HTTP_MAX_STATUS_LEN HTTP_MAX_HEADERS HTTP_MAX_HEADER_KEY
  HTTP_MAX_HEADER_VAL IPC_MAX_PAYLOAD REQ_HDR_SIZE RESP_HDR_SIZE HDR_PAIR_SIZE UINT16_MAX : consts.

(** ** Strings and headers *)

Lemma u16_small n : 0 <= n < 2 ^ 16 -> u16 n = n.
Proof. intros. by apply Z.mod_small. Qed.

Lemma u32_small n : 0 <= n < 2 ^ 32 -> u32 n = n.
Proof. intros. by apply Z.mod_small. Qed.

Lemma u64_small n : 0 <= n < 2 ^ 64 -> u64 n = n.
Proof. intros. by apply Z.mod_small. Qed.

Lemma first_headers_all hs : first_headers hs (len hs) = hs.
Proof. unfold first_headers, len. rewrite Nat2Z.id. by apply take_app_length. Qed.

Lemma len_bin_header a b c d e f : len (bin_header a b c d e f) = 16.
Proof. unfold bin_header. autorewrite with buf. lia. Qed.

Lemma pack_header_ok h :
  header_ok h ->
  pack_header h = store_u16_be (len (key h)) ++ store_u16_be (len (value h)) ++ key h ++ value h.
Proof.
  intros [[Hk Hkl] [Hv Hvl]]. unfold pack_header. rewrite !cstr_id by done.
  pose proof (len_nonneg (key h)). pose proof (len_nonneg (value h)). autounfold with consts in *.
  by rewrite !u16_small by lia.
Qed.

Lemma len_pack_header h : header_ok h -> len (pack_header h) = 4 + len (key h) + len (value h) /\ len (pack_header h) <= 1154.
Proof.
  intros Hh. rewrite pack_header_ok by done. destruct Hh as [[_ Hk] [_ Hv]]. autorewrite with buf.
  autounfold with consts in *. split; lia.
Qed.

Lemma pack_headers_cons h hs : pack_headers (h :: hs) = pack_header h ++ pack_headers hs.
Proof. done. Qed.

Lemma len_pack_headers hs : Forall header_ok hs -> 0 <= len (pack_headers hs) <= 1154 * len hs.
Proof.
  intros H. split; [apply len_nonneg|]. induction H as [|h hs Hh _ IH]; [done|].
  rewrite pack_headers_cons, len_app, len_cons. destruct (len_pack_header h Hh). lia.
Qed.

Lemma headers_size_ok hs total :
  Forall header_ok hs -> 0 <= total -> total + 1154 * len hs < 2 ^ 64 ->
  headers_size hs total = Ok (total + len (pack_headers hs)).
Proof.
  intros H. revert total. induction H as [|h hs Hh _ IH]; intros total Ht Hl; cbn [headers_size].
  { change (len (pack_headers [])) with 0. f_equal. lia. }
  rewrite len_cons in Hl. destruct (len_pack_header h Hh) as [Hlen Hb]. pose proof (len_nonneg hs).
  destruct Hh as [[Hk Hkl] [Hv Hvl]]. rewrite !cstr_id by done.
  pose proof (len_nonneg (key h)). pose proof (len_nonneg (value h)). autounfold with consts in *.
  rewrite reject_false by (rewrite !Z.gtb_ltb; lia). rewrite u64_small by lia. rewrite IH by lia.
  f_equal. rewrite pack_headers_cons, len_app. lia.
Qed.

(** Reading headers undoes writing them. *)
Lemma unpack_headers_pack hs rest remaining :
  Forall header_ok hs -> len (pack_headers hs) <= remaining ->
  unpack_headers (length hs) (pack_headers hs ++ rest) remaining = Ok (hs, rest, remaining - len (pack_headers hs)).
Proof.
  intros H. revert remaining. induction H as [|h hs Hh _ IH]; intros remaining Hr; cbn [unpack_headers length].
  { change (pack_headers []) with (@nil Z). rewrite len_nil. cbn [app]. do 2 f_equal. lia. }
  rewrite pack_headers_cons, len_app in *. destruct (len_pack_header h Hh) as [Hlen _].
  pose proof (len_nonneg (pack_headers hs)). rewrite Hlen, pack_header_ok by done. destruct Hh as [[_ Hkl] [_ Hvl]].
  pose proof (len_nonneg (key h)). pose proof (len_nonneg (value h)). autounfold with consts in *.
  rewrite reject_false by lia. rewrite <- !app_assoc. do 2 next_field.
  rewrite !load_store_u16 by lia. rewrite !reject_false by (rewrite ?Z.geb_leb; lia).
  rewrite app_assoc, drop_app_length' by (rewrite length_app; pose proof (len_store_u16 (len (key h))); pose proof (len_store_u16 (len (value h))); unfold len in *; lia).
  do 2 next_field. rewrite app_assoc, drop_app_length' by (rewrite length_app; unfold len; lia).
  rewrite IH by lia. cbn [rbind]. destruct h as [k v]. do 2 f_equal. lia.
Qed.

Lemma copy_body_ok b n : body_ok b n -> copy_body b n = Ok (body_octets b).
Proof.
  destruct b as [b|]; cbn; [|done]. intros [Hn <-]. rewrite Z.gtb_ltb. replace (0 <? len b) with true by lia.
  by rewrite rd_last.
Qed.

Lemma unpack_body_ok b n rest body_buf :
  body_ok b n -> unpack_body (body_octets b ++ rest) n n body_buf = Ok (b, place_of n body_buf).
Proof.
  unfold unpack_body, place_of. destruct b as [b|]; cbn [body_octets body_ok].
  - intros [Hn Hl]. rewrite Z.gtb_ltb. replace (0 <? n) with true by lia. rewrite reject_false by lia.
    rewrite rd_here by lia. cbn [rbind]. by replace (n =? 0) with false by lia.
  - intros ->. done.
Qed.

Lemma body_len_nonneg b n : body_ok b n -> 0 <= n /\ len (body_octets b) = n.
Proof. destruct b; cbn; [lia|]. by intros ->. Qed.

(** ** The binary form *)

(** The octets after a prefix. *)
Lemma drop_prefix (n : nat) (a b : bytes) : len a = Z.of_nat n -> drop n (a ++ b) = b.
Proof. intros H. apply drop_app_length'. unfold len in H. lia. Qed.

Section Pack.
Context (body_buf : option Z).

Lemma len_request_wire req :
  request_ok req ->
  len (request_wire req) = 16 + len (method req) + len (path req) + len (pack_headers (headers req)) + body_len req.
Proof.
  intros [_ _ _ Hb]. destruct (body_len_nonneg _ _ Hb). unfold request_wire. rewrite !len_app, len_bin_header. lia.
Qed.

(** A message is packed if it fits, and else refused. *)

Lemma pack_request_total req max_len :
  request_ok req -> 16 <= max_len -> body_len req < 2 ^ 63 ->
  pack_http_req req max_len
  = if (len (request_wire req) <=? max_len) && (len (request_wire req) <=? IPC_MAX_PAYLOAD) then Ok (request_wire req) else Err (-2).
Proof.
  intros Hok Hmax Hb63. pose proof (len_request_wire req Hok) as Hlen.
  destruct Hok as [[[Hm Hml] Hmv] [[Hp Hpl] Hpv] (Hh & Hc & Hhl) Hb].
  pose proof (len_nonneg (method req)). pose proof (len_nonneg (path req)).
  pose proof (len_pack_headers (headers req) Hh). pose proof (body_len_nonneg _ _ Hb) as [Hb0 Hbl].
  pose proof (len_nonneg (headers req)).
  unfold pack_http_req. rewrite Hmv, Hpv, Hc, !cstr_id, first_headers_all by done. autounfold with consts in *.
  rewrite reject_false by lia. rewrite (reject_false _ (-1)) by done.
  rewrite reject_false by (rewrite !Z.gtb_ltb; lia).
  rewrite headers_size_ok by (done || lia). cbn [rbind]. rewrite u64_small by lia.
  destruct (_ && _) eqn:Hfit; bool_hyps.
  - rewrite reject_false by (rewrite !Z.gtb_ltb; lia). rewrite copy_body_ok by done. cbn [rbind].
    rewrite !u16_small, u32_small by lia. unfold write_out. rewrite <- Hc. fold (request_wire req).
    by replace (len (request_wire req) <=? max_len) with true by lia.
  - apply andb_false_iff in Hfit. rewrite !Z.leb_gt in Hfit. rewrite reject_true; [done|]. rewrite !Z.gtb_ltb. lia.
Qed.

Lemma unpack_request req rest :
  request_ok req -> len (request_wire req) <= IPC_MAX_PAYLOAD ->
  unpack_http_req (request_wire req ++ rest) (len (request_wire req)) body_buf = Ok (req, place_of (body_len req) body_buf).
Proof.
  intros Hok Hpay. pose proof (len_request_wire req Hok) as Hlen.
  destruct Hok as [[[Hm Hml] Hmv] [[Hp Hpl] Hpv] (Hh & Hc & Hhl) Hb].
  pose proof (len_nonneg (method req)). pose proof (len_nonneg (path req)).
  pose proof (len_pack_headers (headers req) Hh). pose proof (body_len_nonneg _ _ Hb) as [Hb0 Hbl].
  pose proof (len_nonneg (headers req)).
  assert (Hmne : 0 < len (method req)).
  { unfold is_valid_http_method in Hmv. rewrite cstr_id in Hmv by done. destruct (len (method req) =? 0) eqn:E; [done|]. bool_hyps. lia. }
  assert (Hpne : 0 < len (path req)).
  { unfold is_valid_http_path in Hpv. rewrite cstr_id in Hpv by done. destruct (path req) as [|c b]; [done|]. rewrite len_cons. pose proof (len_nonneg b). lia. }
  unfold unpack_http_req. rewrite Hlen. autounfold with consts in *. rewrite reject_false by lia.
  unfold request_wire, bin_header at 1 2 3 4 5. rewrite <- !app_assoc. next_field.
  rewrite load_store_u32, (reject_false _ (-1)) by done. do 4 next_field.
  rewrite !load_store_u16, load_store_u32 by lia. rewrite reject_false by (rewrite !Z.gtb_ltb, !Z.geb_leb; lia).
  rewrite reject_false by lia.
  rewrite (drop_prefix (Z.to_nat 16)) by (by rewrite len_bin_header). do 2 next_field. rewrite Hmv, Hpv, (reject_false _ (-1)) by done.
  rewrite app_assoc, (drop_prefix (Z.to_nat (len (method req) + len (path req)))) by (rewrite len_app; lia).
  replace (Z.to_nat (header_count req)) with (length (headers req)) by (unfold len in Hc; lia).
  rewrite unpack_headers_pack by (done || lia). cbn [rbind].
  match goal with |- context [unpack_body _ ?r _ _] => replace r with (body_len req) by lia end.
  rewrite unpack_body_ok by done. cbn [rbind]. by destruct req.
Qed.

Lemma len_response_wire resp :
  response_ok resp ->
  len (response_wire resp) = 16 + len (status_text resp) + len (pack_headers (resp_headers resp)) + resp_body_len resp.
Proof.
  intros [_ _ _ Hb]. destruct (body_len_nonneg _ _ Hb). unfold response_wire. rewrite !len_app, len_bin_header. lia.
Qed.

Lemma pack_response_total resp max_len :
  response_ok resp -> 16 <= max_len -> resp_body_len resp < 2 ^ 63 ->
  pack_http_resp resp max_len
  = if (len (response_wire resp) <=? max_len) && (len (response_wire resp) <=? IPC_MAX_PAYLOAD) then Ok (response_wire resp) else Err (-2).
Proof.
  intros Hok Hmax Hb63. pose proof (len_response_wire resp Hok) as Hlen.
  destruct Hok as [Hs [Ht Htl] (Hh & Hc & Hhl) Hb].
  pose proof (len_nonneg (status_text resp)). pose proof (len_nonneg (resp_headers resp)).
  pose proof (len_pack_headers (resp_headers resp) Hh). pose proof (body_len_nonneg _ _ Hb) as [Hb0 _].
  unfold pack_http_resp. rewrite Hc, !cstr_id, first_headers_all by done. autounfold with consts in *.
  rewrite reject_false by lia. do 2 rewrite (reject_false _ (-1)) by (rewrite !Z.gtb_ltb; lia).
  rewrite headers_size_ok by (done || lia). cbn [rbind]. rewrite u64_small by lia.
  destruct (_ && _) eqn:Hfit; bool_hyps.
  - rewrite reject_false by (rewrite !Z.gtb_ltb; lia). rewrite copy_body_ok by done. cbn [rbind].
    rewrite !u16_small, u32_small by lia. unfold write_out. rewrite <- Hc. fold (response_wire resp).
    by replace (len (response_wire resp) <=? max_len) with true by lia.
  - apply andb_false_iff in Hfit. rewrite !Z.leb_gt in Hfit. rewrite reject_true; [done|]. rewrite !Z.gtb_ltb. lia.
Qed.

Lemma unpack_response resp rest :
  response_ok resp -> len (response_wire resp) <= IPC_MAX_PAYLOAD ->
  unpack_http_resp (response_wire resp ++ rest) (len (response_wire resp)) body_buf
  = Ok (resp, place_of (resp_body_len resp) body_buf).
Proof.
  intros Hok Hpay. pose proof (len_response_wire resp Hok) as Hlen.
  destruct Hok as [Hs [Ht Htl] (Hh & Hc & Hhl) Hb].
  pose proof (len_nonneg (status_text resp)). pose proof (len_nonneg (resp_headers resp)).
  pose proof (len_pack_headers (resp_headers resp) Hh). pose proof (body_len_nonneg _ _ Hb) as [Hb0 _].
  unfold unpack_http_resp. rewrite Hlen. autounfold with consts in *. rewrite reject_false by lia.
  unfold response_wire, bin_header at 1 2 3 4 5. rewrite <- !app_assoc. next_field.
  rewrite load_store_u32, (reject_false _ (-1)) by done. next_field.
  rewrite !load_store_u16, (reject_false _ (-1)) by (rewrite ?Z.gtb_ltb; lia). do 3 next_field.
  rewrite !load_store_u16, load_store_u32 by lia. rewrite !reject_false by (rewrite ?Z.gtb_ltb, ?Z.geb_leb; lia).
  rewrite (drop_prefix (Z.to_nat 16)) by (by rewrite len_bin_header). next_field.
  rewrite (drop_prefix (Z.to_nat (len (status_text resp)))) by (rewrite Z2Nat.id; lia).
  replace (Z.to_nat (resp_header_count resp)) with (length (resp_headers resp)) by (unfold len in Hc; lia).
  rewrite unpack_headers_pack by (done || lia). cbn [rbind].
  match goal with |- context [unpack_body _ ?r _ _] => replace r with (resp_body_len resp) by lia end.
  rewrite unpack_body_ok by done. cbn [rbind]. by destruct resp.
Qed.
End Pack.

(** ** What is read stays inside the input and the arrays *)

(** What the code guarantees of a header that was read. *)
Definition header_fits (h : http_header) : Prop := len (key h) < HTTP_MAX_HEADER_KEY /\ len (value h) < HTTP_MAX_HEADER_VAL.

(** A body is the octets of the input from some offset past the header on. *)
Definition body_in (in_buf : bytes) (in_len : Z) (b : option bytes) (b_len : Z) : Prop :=
  match b with
  | Some b => exists off, 16 <= off /\ off + b_len <= in_len /\ b = sub off b_len in_buf /\ len b = b_len
  | None => b_len <= 0
  end.

(** The body is in the caller's buffer only where it fits. *)
Definition place_fits (at_place : place) (b_len : Z) (body_buf : option Z) : Prop :=
  match at_place with
  | Copied => exists max, body_buf = Some max /\ b_len <= max
  | _ => True
  end.

(** The outcome of a reader: one error status, and what holds of a result. *)
Definition reads {A} (P : A -> Prop) (m : res A) : Prop :=
  match m with Ok x => P x | Err e => e = -1 | Fault => False end.

Lemma reads_reject {A} (P : A -> Prop) c k : (c = false -> reads P k) -> reads P (reject c (-1) k).
Proof. destruct c; cbn; auto. Qed.

Lemma reads_bind {A B} (Q : A -> Prop) (P : B -> Prop) m k :
  reads Q m -> (forall x, Q x -> reads P (k x)) -> reads P (rbind m k).
Proof. destruct m; cbn; auto. Qed.

Lemma reads_rd {B} (P : B -> Prop) off n b k :
  0 <= off -> 0 <= n -> off + n <= len b -> reads P (k (sub off n b)) -> reads P (rbind (rd off n b) k).
Proof. intros. by rewrite rd_ok by lia. Qed.

(** Where [cursor] is in the input. *)
Definition cursor_at (in_buf : bytes) (in_len : Z) (cursor : bytes) (remaining : Z) : Prop :=
  exists off, 16 <= off /\ 0 <= remaining /\ off + remaining = in_len /\ cursor = drop (Z.to_nat off) in_buf.

Section Read.
Context (in_buf : bytes) (in_len : Z) (body_buf : option Z) (Hin : 0 <= in_len <= len in_buf) (Hok : bytes_ok in_buf).

Lemma load_u16_nonneg off b : bytes_ok b -> 0 <= off -> off + 2 <= len b -> 0 <= load_u16_be (sub off 2 b).
Proof. intros. apply load_u16_bound; [by apply bytes_ok_sub|]. rewrite len_sub; lia. Qed.

Lemma load_u32_nonneg off b : bytes_ok b -> 0 <= off -> off + 4 <= len b -> 0 <= load_u32_be (sub off 4 b).
Proof. intros. apply load_u32_bound; [by apply bytes_ok_sub|]. rewrite len_sub; lia. Qed.

Lemma cursor_len cursor remaining : cursor_at in_buf in_len cursor remaining -> 0 <= remaining <= len cursor.
Proof. intros (off & ? & ? & ? & ->). rewrite len_drop. lia. Qed.

Lemma cursor_move cursor remaining n :
  cursor_at in_buf in_len cursor remaining -> 0 <= n <= remaining ->
  cursor_at in_buf in_len (drop (Z.to_nat n) cursor) (remaining - n).
Proof.
  intros (off & ? & ? & ? & ->) ?. exists (off + n). rewrite drop_drop. repeat split; try lia. f_equal. lia.
Qed.

Lemma cursor_bytes cursor remaining : cursor_at in_buf in_len cursor remaining -> bytes_ok cursor.
Proof. intros (off & _ & _ & _ & ->). by apply Forall_drop. Qed.

Lemma unpack_headers_reads n cursor remaining :
  cursor_at in_buf in_len cursor remaining ->
  reads (fun '(hs, cursor', remaining') => length hs = n /\ Forall header_fits hs /\ cursor_at in_buf in_len cursor' remaining')
    (unpack_headers n cursor remaining).
Proof.
  revert cursor remaining. induction n as [|n IH]; intros cursor remaining Hat; [by cbn|]. cbn [unpack_headers].
  apply reads_reject. intros H4. pose proof (cursor_len _ _ Hat). pose proof (cursor_bytes _ _ Hat).
  unfold HDR_PAIR_SIZE in *. bool_hyps. do 2 (apply reads_rd; [lia..|]).
  pose proof (load_u16_nonneg 0 cursor ltac:(done) ltac:(lia) ltac:(lia)) as Hk.
  pose proof (load_u16_nonneg 2 cursor ltac:(done) ltac:(lia) ltac:(lia)) as Hv.
  set (k_len := load_u16_be (sub 0 2 cursor)) in *. set (v_len := load_u16_be (sub 2 2 cursor)) in *.
  apply reads_reject. intros Hkv. apply reads_reject. intros Hr. bool_hyps.
  assert (Hat' := cursor_move _ _ 4 Hat ltac:(lia)). pose proof (cursor_len _ _ Hat').
  do 2 (apply reads_rd; [lia..|]).
  pose proof (cursor_move _ _ (k_len + v_len) Hat' ltac:(lia)) as Hat''.
  replace (remaining - 4 - (k_len + v_len)) with (remaining - 4 - k_len - v_len) in Hat'' by lia.
  apply (reads_bind _ _ _ _ (IH _ _ Hat'')).
  intros [[hs c'] r'] (<- & Hhs & Hc'). cbn. split; [done|]. split; [|done]. constructor; [|done].
  unfold header_fits. cbn [key value]. rewrite !len_sub by lia. lia.
Qed.

Lemma unpack_body_reads cursor remaining b_len :
  cursor_at in_buf in_len cursor remaining ->
  reads (fun '(b, at_place) => body_in in_buf in_len b b_len /\ place_fits at_place b_len body_buf) (unpack_body cursor remaining b_len body_buf).
Proof.
  intros Hat. pose proof (cursor_len _ _ Hat). unfold unpack_body. destruct (b_len >? 0) eqn:Hb; bool_hyps.
  - apply reads_reject. intros Hr. bool_hyps. apply reads_rd; [lia..|]. cbn. split.
    + destruct Hat as (off & ? & ? & ? & ->). exists off. rewrite sub_drop by lia.
      replace (off + 0) with off by lia. rewrite len_sub; repeat split; try lia.
    + destruct body_buf as [max|]; [|done]. destruct (max >=? b_len) eqn:E; [|done]. bool_hyps. exists max. split; [done|lia].
  - cbn. done.
Qed.

(** What the code guarantees of a request that it accepts. *)
Definition request_fits (req : http_request) : Prop :=
  (0 < len (method req) < HTTP_MAX_METHOD_LEN /\ is_valid_http_method (method req) = true)
  /\ (0 < len (path req) < HTTP_MAX_PATH_LEN /\ is_valid_http_path (path req) = true)
  /\ header_count req = len (headers req) /\ len (headers req) <= HTTP_MAX_HEADERS /\ Forall header_fits (headers req)
  /\ body_in in_buf in_len (body req) (body_len req).

Definition response_fits (resp : http_response) : Prop :=
  100 <= status_code resp <= 599 /\ len (status_text resp) < HTTP_MAX_STATUS_LEN
  /\ resp_header_count resp = len (resp_headers resp) /\ len (resp_headers resp) <= HTTP_MAX_HEADERS
  /\ Forall header_fits (resp_headers resp) /\ body_in in_buf in_len (resp_body resp) (resp_body_len resp).

Lemma cursor_start n : 16 <= in_len -> 0 <= n <= in_len - 16 ->
  cursor_at in_buf in_len (drop (Z.to_nat n) (drop (Z.to_nat 16) in_buf)) (in_len - 16 - n).
Proof. intros. apply cursor_move; [|lia]. exists 16. repeat split; lia. Qed.

Lemma unpack_request_reads :
  reads (fun '(req, at_place) => request_fits req /\ place_fits at_place (body_len req) body_buf) (unpack_http_req in_buf in_len body_buf).
Proof.
  unfold unpack_http_req. apply reads_reject. intros H16. unfold REQ_HDR_SIZE in *. bool_hyps.
  apply reads_rd; [lia..|]. apply reads_reject. intros _. do 4 (apply reads_rd; [lia..|]). cbv zeta.
  pose proof (load_u16_nonneg 4 in_buf Hok ltac:(lia) ltac:(lia)). pose proof (load_u16_nonneg 6 in_buf Hok ltac:(lia) ltac:(lia)).
  pose proof (load_u16_nonneg 8 in_buf Hok ltac:(lia) ltac:(lia)).
  set (m_len := load_u16_be (sub 4 2 in_buf)) in *. set (p_len := load_u16_be (sub 6 2 in_buf)) in *.
  set (h_count := load_u16_be (sub 8 2 in_buf)) in *.
  apply reads_reject. intros Hlens. apply reads_reject. intros Hr. bool_hyps.
  pose proof (cursor_start (m_len + p_len) ltac:(lia) ltac:(lia)) as Hat.
  replace (in_len - 16 - (m_len + p_len)) with (in_len - 16 - m_len - p_len) in Hat by lia.
  assert (Hd : len (drop (Z.to_nat 16) in_buf) = len in_buf - 16) by (rewrite len_drop; lia).
  do 2 (apply reads_rd; [lia..|]). apply reads_reject. intros Hv. bool_hyps.
  apply (reads_bind _ _ _ _ (unpack_headers_reads (Z.to_nat h_count) _ _ Hat)).
  intros [[hs c'] r'] (Hn & Hhs & Hc'). apply (reads_bind _ _ _ _ (unpack_body_reads _ _ _ Hc')).
  intros [b at_place] [Hb Hp]. cbn. split; [|done]. unfold request_fits.
  cbn [method path headers header_count body body_len]. rewrite !len_sub by lia. unfold len. rewrite Hn.
  autounfold with consts in *. repeat split; done || lia.
Qed.

Lemma unpack_response_reads :
  reads (fun '(resp, at_place) => response_fits resp /\ place_fits at_place (resp_body_len resp) body_buf)
    (unpack_http_resp in_buf in_len body_buf).
Proof.
  unfold unpack_http_resp. apply reads_reject. intros H16. unfold RESP_HDR_SIZE in *. bool_hyps.
  apply reads_rd; [lia..|]. apply reads_reject. intros _. apply reads_rd; [lia..|]. apply reads_reject. intros Hcode.
  do 3 (apply reads_rd; [lia..|]). cbv zeta.
  pose proof (load_u16_nonneg 6 in_buf Hok ltac:(lia) ltac:(lia)). pose proof (load_u16_nonneg 8 in_buf Hok ltac:(lia) ltac:(lia)).
  set (st_len := load_u16_be (sub 6 2 in_buf)) in *. set (h_count := load_u16_be (sub 8 2 in_buf)) in *.
  apply reads_reject. intros Hlens. apply reads_reject. intros Hr. bool_hyps.
  pose proof (cursor_start st_len ltac:(lia) ltac:(lia)) as Hat.
  assert (Hd : len (drop (Z.to_nat 16) in_buf) = len in_buf - 16) by (rewrite len_drop; lia).
  apply reads_rd; [lia..|].
  apply (reads_bind _ _ _ _ (unpack_headers_reads (Z.to_nat h_count) _ _ Hat)).
  intros [[hs c'] r'] (Hn & Hhs & Hc'). apply (reads_bind _ _ _ _ (unpack_body_reads _ _ _ Hc')).
  intros [b at_place] [Hb Hp]. cbn. split; [|done]. unfold response_fits.
  cbn [status_code status_text resp_headers resp_header_count resp_body resp_body_len]. rewrite !len_sub by lia.
  unfold len. rewrite Hn. autounfold with consts in *. repeat split; done || lia.
Qed.
End Read.

(** ** The text form *)

Lemma memchr_here c a b : Forall (fun x => x <> c) a -> memchr c (a ++ c :: b) = Some (len a).
Proof.
  induction 1 as [|x a Hx _ IH]; cbn [memchr app]; [by rewrite Z.eqb_refl|].
  rewrite (proj2 (Z.eqb_neq x c)), IH by done. cbn. f_equal. rewrite len_cons. lia.
Qed.

Lemma memchr_none c a : Forall (fun x => x <> c) a -> memchr c a = None.
Proof. induction 1 as [|x a Hx _ IH]; cbn; [done|]. by rewrite (proj2 (Z.eqb_neq x c)), IH by done. Qed.

(** The first occurrence, if there is one. *)
Lemma memchr_split c a :
  match memchr c a with
  | Some n => exists b d, a = b ++ c :: d /\ len b = n /\ Forall (fun x => x <> c) b
  | None => Forall (fun x => x <> c) a
  end.
Proof.
  induction a as [|x a IH]; cbn [memchr]; [done|]. destruct (x =? c) eqn:E; bool_hyps; [subst x; by exists [], a|].
  destruct (memchr c a) as [n|]; cbn [option_map]; [|by constructor].
  destruct IH as (b & d & -> & <- & Hb). exists (x :: b), d. rewrite len_cons. split; [done|]. split; [lia|by constructor].
Qed.

Lemma find_crlf_here a b : Forall (fun x => x <> 13) a -> find_crlf (a ++ 13 :: 10 :: b) = Some (len a).
Proof.
  induction 1 as [|x a Hx _ IH]; [done|]. cbn [app]. rewrite len_cons.
  transitivity (option_map Z.succ (find_crlf (a ++ 13 :: 10 :: b))).
  - destruct (a ++ 13 :: 10 :: b) eqn:E; [by destruct a|]. cbn [find_crlf]. by rewrite (proj2 (Z.eqb_neq x 13)) by done.
  - rewrite IH. cbn. f_equal. lia.
Qed.

Lemma printable_no_crlf a : forallb printable a = true -> Forall (fun x => x <> 13) a.
Proof.
  rewrite forallb_forall, List.Forall_forall. intros H x Hx ->. by apply H in Hx.
Qed.

Lemma printable_nul_free a : forallb printable a = true -> nul_free a.
Proof. unfold nul_free. rewrite forallb_forall, List.Forall_forall. intros H x Hx ->. by apply H in Hx. Qed.

Definition method_of_code (m : bytes) : Prop := is_valid_http_method m = true /\ nul_free m.

Lemma valid_method_letters m :
  method_of_code m -> Forall (fun x => x <> 32) m /\ forallb printable m = true /\ 0 < len m < HTTP_MAX_METHOD_LEN.
Proof.
  intros [Hv Hn]. unfold is_valid_http_method in Hv. rewrite cstr_id in Hv by done.
  destruct (len m =? 0); [done|]. apply existsb_exists in Hv as (v & Hin & Heq). apply bytes_eqb_eq in Heq as ->.
  cbn in Hin. repeat destruct Hin as [<-|Hin]; try done; (split; [repeat constructor; lia|done]).
Qed.

Lemma valid_path_chars p :
  is_valid_http_path p = true -> nul_free p -> exists q, p = 47 :: q /\ forallb printable p = true.
Proof.
  unfold is_valid_http_path. intros Hv Hn. rewrite cstr_id in Hv by done.
  destruct (negb (at_ p 0 =? 47)) eqn:E; [done|]. bool_hyps. destruct p as [|c q]; [done|]. change (c = 47) in E. subst c. eauto.
Qed.

(** The text of a request. *)
Definition request_text (m p : bytes) : bytes := m ++ lit " " ++ p ++ lit " HTTP/1.1" ++ CRLF ++ CRLF.

Lemma len_request_text m p : len (request_text m p) = len m + len p + 14.
Proof.
  unfold request_text. rewrite !len_app. change (len (lit " ")) with 1. change (len (lit " HTTP/1.1")) with 9.
  change (len CRLF) with 2. lia.
Qed.

Lemma drop_word (a b : bytes) c : drop (Z.to_nat (len a + 1)) (a ++ c :: b) = b.
Proof. change (c :: b) with ([c] ++ b). rewrite app_assoc. apply drop_prefix. rewrite len_app, len_cons, len_nil. pose proof (len_nonneg a). lia. Qed.

(** The first line ends at the first CR LF, and its first blank ends the method. *)
Lemma parse_request_text m p max_method max_path rest :
  method_of_code m -> is_valid_http_path p = true -> nul_free p ->
  len m < max_method -> len p < max_path ->
  parse_http_req (request_text m p ++ rest) (len (request_text m p)) max_method max_path
  = if memchr 32 p is Some _ then Err (-1) else Ok (m, p).
Proof.
  intros Hm Hp Hpn Hml Hpl. destruct (valid_method_letters m Hm) as (Hm32 & Hmp & Hm0).
  destruct (valid_path_chars p Hp Hpn) as (q & Hq & Hpp).
  assert (Hp0 : 0 < len p) by (subst p; rewrite len_cons; pose proof (len_nonneg q); lia).
  assert (Hlen : len (request_text m p) = len m + len p + 14) by apply len_request_text.
  unfold parse_http_req. rewrite Hlen. rewrite reject_false by lia. rewrite rd_here by lia. cbn [rbind].
  replace (request_text m p) with ((m ++ 32 :: p ++ lit " HTTP/1.1") ++ 13 :: 10 :: CRLF)
    by (unfold request_text; rewrite <- !app_assoc; cbn; by rewrite <- !app_assoc).
  rewrite find_crlf_here by (apply printable_no_crlf; rewrite forallb_app; cbn; rewrite forallb_app, Hmp, Hpp; done).
  cbn [or_fail rbind]. rewrite sub_here by done. rewrite memchr_here by done. cbn [or_fail rbind].
  rewrite reject_false by (rewrite Z.geb_leb; lia).
  rewrite drop_word.
  pose proof (memchr_split 32 p) as Hs. destruct (memchr 32 p) as [n|].
  - destruct Hs as (b & d & Hbd & <- & Hb). rewrite Hbd, <- app_assoc. cbn [app]. rewrite memchr_here by done. cbn [or_fail rbind].
    assert (Hpb : len p = len b + 1 + len d) by (rewrite Hbd, len_app, len_cons; lia). pose proof (len_nonneg d). pose proof (len_nonneg b).
    destruct ((len b =? 0) || _) eqn:E; [done|]. rewrite (reject_false _ (-1)) by done.
    rewrite drop_word.
    replace (bytes_eqb _ _) with false; [done|]. symmetry. apply bytes_eqb_neq. intros He.
    apply (f_equal len) in He. rewrite len_app in He. change (len (lit " HTTP/1.1")) with 9 in He. change (len (lit "HTTP/1.1")) with 8 in He. lia.
  - change (lit " HTTP/1.1") with (32 :: lit "HTTP/1.1"). rewrite memchr_here by done. cbn [or_fail rbind].
    rewrite reject_false by (rewrite Z.geb_leb; lia).
    rewrite drop_word.
    rewrite bytes_eqb_refl, !sub_here by done. destruct Hm as [-> _]. by rewrite Hp.
Qed.

Lemma snprintf_fits max text : len text < max -> snprintf max text = (len text, text ++ [0]).
Proof. intros H. unfold snprintf. do 2 f_equal. unfold sub. apply take_ge. unfold len in H. cbn [drop]. lia. Qed.

Lemma serialize_request_total m p max :
  method_of_code m -> is_valid_http_path p = true -> nul_free p -> 0 < max ->
  exists held, alrios_ipc_serialize_http_req true max (Some m) (Some p)
    = if len (request_text m p) <? max then (len (request_text m p), Some (request_text m p ++ [0])) else (-2, Some held).
Proof.
  intros [Hm Hmn] Hp Hpn Hmax. unfold alrios_ipc_serialize_http_req. cbn [negb orb]. replace (max =? 0) with false by lia.
  rewrite Hm, Hp, !cstr_id by done. cbn [negb orb]. fold (request_text m p).
  destruct (len (request_text m p) <? max) eqn:E; bool_hyps.
  - rewrite snprintf_fits, Z.geb_leb by done. exists []. by replace (max <=? len (request_text m p)) with false by lia.
  - unfold snprintf. rewrite Z.geb_leb. replace (max <=? len (request_text m p)) with true by lia. by eexists.
Qed.

(** The three digits of a status. *)
Lemma decimal_status code :
  100 <= code <= 599 ->
  exists a b c, decimal code = [a; b; c] /\ is_digit 49 53 a = true /\ is_digit 48 57 b = true /\ is_digit 48 57 c = true
                /\ (a - 48) * 100 + (b - 48) * 10 + (c - 48) = code.
Proof.
  intros H. exists (48 + code / 100), (48 + code / 10 mod 10), (48 + code mod 10).
  unfold decimal. cbn [digits].
  assert ((code / 10 =? 0) = false) as -> by (apply Z.eqb_neq; intros E; apply Z.div_small_iff in E; lia).
  rewrite Z.div_div by lia. change (10 * 10) with 100.
  assert ((code / 100 =? 0) = false) as -> by (apply Z.eqb_neq; intros E; apply Z.div_small_iff in E; lia).
  rewrite Z.div_div by lia. change (100 * 10) with 1000. rewrite (Z.div_small code 1000) by lia. cbn [Z.eqb].
  unfold is_digit. pose proof (Z.mod_small (code / 100) 10 ltac:(split; [apply Z.div_pos; lia|apply Z.div_lt_upper_bound; lia])) as ->.
  split; [done|]. split_and!; try (apply andb_true_iff; rewrite !Z.leb_le).
  all: Z.to_euclidean_division_equations; lia.
Qed.

(** The reason phrase that is written. *)
Definition reason_of (reason_phrase : option bytes) : bytes :=
  match reason_phrase with Some r => if len r =? 0 then lit "OK" else r | None => lit "OK" end.

Lemma parse_response_text code reason body_len max_reason rest :
  100 <= code <= 599 -> forallb printable reason = true -> 0 < max_reason ->
  alrios_ipc_parse_http_resp (Some (status_line code reason body_len ++ rest)) (len (status_line code reason body_len ++ rest)) max_reason
  = Ok (code, sub 0 (max_reason - 1) reason).
Proof.
  intros Hc Hr Hm. destruct (decimal_status code Hc) as (a & b & c & Hd & Ha & Hb & Hcc & Hcode).
  set (tail := lit "Content-Length: " ++ decimal body_len ++ CRLF ++ CRLF ++ rest).
  assert (Htext : status_line code reason body_len ++ rest = lit "HTTP/1.1 " ++ [a; b; c] ++ [32] ++ (reason ++ 13 :: 10 :: tail)).
  { unfold status_line, tail. rewrite Hd, <- !app_assoc. done. }
  rewrite Htext. unfold alrios_ipc_parse_http_resp.
  assert (Hlen : 13 <= len (lit "HTTP/1.1 " ++ [a; b; c] ++ [32] ++ reason ++ 13 :: 10 :: tail)).
  { rewrite !len_app, !len_cons, len_nil. change (len (lit "HTTP/1.1 ")) with 9. pose proof (len_nonneg reason). pose proof (len_nonneg tail). lia. }
  rewrite reject_false by lia. rewrite rd_here by done. cbn [rbind]. rewrite bytes_eqb_refl. rewrite (reject_false _ (-1)) by done.
  change (lit "HTTP/1.1 ") with ([72; 84; 84; 80; 47; 49; 46; 49; 32]) in *. set (text := reason ++ 13 :: 10 :: tail) in *.
  next_field. change (at_ [a; b; c] 0) with a. change (at_ [a; b; c] 1) with b. change (at_ [a; b; c] 2) with c. rewrite Ha, Hb, Hcc. cbn [negb orb]. unfold reject at 1.
  assert (H12 : len ([72; 84; 84; 80; 47; 49; 46; 49; 32] ++ [a; b; c] ++ [32] ++ text) = 13 + len text)
    by (rewrite !len_app, !len_cons, !len_nil; lia).
  rewrite !H12 in *. rewrite !Z.gtb_ltb. replace (0 <? max_reason) with true by lia. replace (12 <? 13 + len text) with true by lia.
  cbn [andb]. next_field. change (at_ [32] 0 =? 32) with true. cbv iota. repeat rewrite rd_skip by done.
  rewrite rd_last by (autorewrite with buf; cbn; lia). cbn [rbind]. unfold text.
  rewrite find_crlf_here by (by apply printable_no_crlf). do 2 f_equal.
  - exact Hcode.
  - pose proof (len_nonneg reason). rewrite Z.geb_leb. destruct (max_reason <=? len reason) eqn:E; bool_hyps.
    + rewrite sub_app_l; [done|lia..].
    + rewrite sub_here by done. symmetry. unfold sub. apply take_ge. unfold len in *. cbn [drop]. lia.
Qed.

Lemma to_int_small n : 0 <= n < 2 ^ 31 -> to_int n = n.
Proof. intros. unfold to_int. rewrite Z.mod_small; lia. Qed.

Lemma serialize_response_text code reason_phrase b body_len max :
  100 <= code <= 599 -> from_option nul_free True reason_phrase -> forallb printable (reason_of reason_phrase) = true ->
  body_ok b body_len -> body_len < 2 ^ 31 -> max < 2 ^ 31 ->
  0 < max ->
  let text := status_line code (reason_of reason_phrase) body_len in
  alrios_ipc_serialize_http_resp true max code reason_phrase b body_len
  = Ok (if len text + body_len <? max then (len text + body_len, Some (text ++ body_octets b ++ [0]))
        else (-2, Some (if len text <? max then text ++ [0] else sub 0 (max - 1) text ++ [0]))).
Proof.
  intros Hc Hn Hr Hb Hb31 Hm31 Hm text. destruct (body_len_nonneg _ _ Hb) as [Hb0 Hbl]. pose proof (len_nonneg text).
  unfold alrios_ipc_serialize_http_resp.
  replace (negb true || (max =? 0) || (code <? 100) || (code >? 599)) with false
    by (symmetry; rewrite !orb_false_iff, Z.gtb_ltb; cbn; lia).
  assert (Hre : match reason_phrase with Some phrase => if len (cstr phrase) =? 0 then lit "OK" else cstr phrase | None => lit "OK" end
                = reason_of reason_phrase).
  { destruct reason_phrase as [r|]; [|done]. cbn in Hn. by rewrite cstr_id. }
  rewrite Hre, Hr. cbn [negb]. fold text. unfold snprintf. rewrite Z.geb_leb.
  destruct (len text <? max) eqn:E; bool_hyps.
  - replace (max <=? len text) with false by lia.
    assert (Hsub : sub 0 (max - 1) text = text) by (unfold sub; apply take_ge; unfold len in *; cbn [drop]; lia).
    rewrite Hsub. destruct b as [b|]; cbn [body_octets body_ok] in *.
    + rewrite Z.gtb_ltb. replace (0 <? body_len) with true by lia. rewrite u64_small, Z.geb_leb by lia.
      destruct (len text + body_len <? max) eqn:F; bool_hyps.
      * replace (max <=? len text + body_len) with false by lia. rewrite rd_last by lia. cbn [rbind].
        rewrite Z.gtb_ltb. replace (max <? len text + body_len + 1) with false by lia. by rewrite to_int_small by lia.
      * by replace (max <=? len text + body_len) with true by lia.
    + subst body_len. rewrite Z.add_0_r. by replace (len text <? max) with true by lia.
  - replace (max <=? len text) with true by lia. by replace (len text + body_len <? max) with false by lia.
Qed.

(** ** Properties *)

(** The binary codec is exact: a well-formed request or response packs to its wire
    form when that fits the caller's buffer and the payload limit, and otherwise fails
    with -2, without a write; and what was packed, read from a buffer that holds other
    octets after it, is the same message, with its body in the caller's buffer exactly
    when it fits there. *)
Theorem message_roundtrip req resp max_len body_buf rest :
  request_ok req -> response_ok resp -> 16 <= max_len -> body_len req < 2 ^ 63 -> resp_body_len resp < 2 ^ 63 ->
  alrios_ipc_pack_http_req (Some req) true max_len true
    = (if (len (request_wire req) <=? max_len) && (len (request_wire req) <=? IPC_MAX_PAYLOAD) then Ok (request_wire req) else Err (-2))
  /\ alrios_ipc_pack_http_resp (Some resp) true max_len true
    = (if (len (response_wire resp) <=? max_len) && (len (response_wire resp) <=? IPC_MAX_PAYLOAD) then Ok (response_wire resp) else Err (-2))
  /\ (len (request_wire req) <= IPC_MAX_PAYLOAD ->
      alrios_ipc_unpack_http_req (Some (request_wire req ++ rest)) (len (request_wire req)) true body_buf
      = Ok (req, place_of (body_len req) body_buf))
  /\ (len (response_wire resp) <= IPC_MAX_PAYLOAD ->
      alrios_ipc_unpack_http_resp (Some (response_wire resp ++ rest)) (len (response_wire resp)) true body_buf
      = Ok (resp, place_of (resp_body_len resp) body_buf)).
Proof.
  intros Hreq Hresp Hmax Hb Hb'. cbn [alrios_ipc_pack_http_req alrios_ipc_pack_http_resp negb orb].
  split_and!; [by apply pack_request_total|by apply pack_response_total|intros; by apply unpack_request|intros; by apply unpack_response].
Qed.

(** C35: A reader of binary messages never leaves the octets that it was given, whatever
    they are: it returns -1, or a message whose strings fit their arrays, with a known
    method and a printable absolute path, with at most 32 headers, and whose body is
    octets of the input after the header; the caller's buffer is used only if the body
    fits it. *)
Theorem unpack_in_bounds in_buf in_len body_buf :
  0 <= in_len <= len in_buf -> bytes_ok in_buf ->
  reads (fun '(req, at_place) => request_fits in_buf in_len req /\ place_fits at_place (body_len req) body_buf)
    (alrios_ipc_unpack_http_req (Some in_buf) in_len true body_buf)
  /\ reads (fun '(resp, at_place) => response_fits in_buf in_len resp /\ place_fits at_place (resp_body_len resp) body_buf)
    (alrios_ipc_unpack_http_resp (Some in_buf) in_len true body_buf).
Proof. intros Hin Hok. split; [by apply unpack_request_reads|by apply unpack_response_reads]. Qed.

(** The text form. A request line is written in full or refused with -2, and the
    parser gives the method and the path back, except that a path with a blank, which
    the writer accepts, is refused. A response is written in full, headers, body and
    terminator, only when all of it fits, and the parser gives back the status and as
    much of the reason phrase as its buffer holds. *)
Theorem text_roundtrip m p code reason_phrase b b_len max max_method max_path max_reason rest :
  method_of_code m -> is_valid_http_path p = true -> nul_free p -> len m < max_method -> len p < max_path ->
  100 <= code <= 599 -> from_option nul_free True reason_phrase -> forallb printable (reason_of reason_phrase) = true ->
  body_ok b b_len -> b_len < 2 ^ 31 -> 0 < max < 2 ^ 31 -> 0 < max_reason ->
  let text := request_text m p in
  let line := status_line code (reason_of reason_phrase) b_len in
  (exists held, alrios_ipc_serialize_http_req true max (Some m) (Some p)
                = if len text <? max then (len text, Some (text ++ [0])) else (-2, Some held))
  /\ alrios_ipc_parse_http_req (Some (text ++ rest)) (len text) true max_method true max_path
     = (if memchr 32 p is Some _ then Err (-1) else Ok (m, p))
  /\ alrios_ipc_serialize_http_resp true max code reason_phrase b b_len
     = Ok (if len line + b_len <? max then (len line + b_len, Some (line ++ body_octets b ++ [0]))
           else (-2, Some (if len line <? max then line ++ [0] else sub 0 (max - 1) line ++ [0])))
  /\ alrios_ipc_parse_http_resp (Some (line ++ rest)) (len (line ++ rest)) max_reason
     = Ok (code, sub 0 (max_reason - 1) (reason_of reason_phrase)).
Proof.
  intros Hm Hp Hpn Hml Hpl Hc Hn Hr Hb Hb31 Hmax Hmr text line. split_and!.
  - apply serialize_request_total; done || lia.
  - apply parse_request_text; done || lia.
  - apply serialize_response_text; done || lia.
  - apply parse_response_text; done || lia.
Qed.

(** ** Witnesses *)

Definition sample_request : http_request :=
  mk_request (lit "POST") (lit "/apps/1") [mk_header (lit "Host") (lit "local"); mk_header (lit "X") []] 2 (Some (lit "hi")) 2.

Definition sample_response : http_response := mk_response 404 (lit "Not Found") [mk_header (lit "A") (lit "b")] 1 None 0.

Ltac string_ok := repeat (split; try done); repeat (constructor; try done).

Lemma sample_request_ok : request_ok sample_request.
Proof. constructor; string_ok. Qed.

Lemma sample_response_ok : response_ok sample_response.
Proof. constructor; string_ok. Qed.

Lemma message_roundtrip_witness :
  alrios_ipc_pack_http_req (Some sample_request) true 100 true = Ok (request_wire sample_request)
  /\ alrios_ipc_unpack_http_req (Some (request_wire sample_request ++ [1; 2])) (len (request_wire sample_request)) true (Some 10)
     = Ok (sample_request, Copied).
Proof.
  destruct (message_roundtrip sample_request sample_response 100 (Some 10) [1; 2]
    sample_request_ok sample_response_ok ltac:(lia) ltac:(done) ltac:(done)) as (Hp & _ & Hu & _).
  split; [exact Hp|]. apply Hu. done.
Defined.

Lemma unpack_in_bounds_witness :
  request_fits (request_wire sample_request) 47 sample_request.
Proof.
  destruct (unpack_in_bounds (request_wire sample_request) 47 None ltac:(split; vm_compute; done)
    ltac:(apply bytes_okb_ok; vm_compute; done)) as [Hr _].
  replace (alrios_ipc_unpack_http_req _ _ _ _) with (@Ok (http_request * place) (sample_request, InInput)) in Hr
    by (symmetry; vm_compute; reflexivity).
  apply Hr.
Defined.

Lemma text_roundtrip_witness :
  alrios_ipc_parse_http_req (Some (request_text (lit "GET") (lit "/a b"))) (len (request_text (lit "GET") (lit "/a b"))) true 16 true 64
    = Err (-1)
  /\ fst (alrios_ipc_serialize_http_req true 64 (Some (lit "GET")) (Some (lit "/a b"))) = 21.
Proof.
  destruct (text_roundtrip (lit "GET") (lit "/a b") 200 None None 0 64 16 64 8 []
    ltac:(string_ok) ltac:(done) ltac:(string_ok) ltac:(done) ltac:(done) ltac:(lia) I ltac:(done) ltac:(done)
    ltac:(lia) ltac:(lia) ltac:(lia)) as ([held Hs] & Hp & _).
  split; [exact Hp|]. by rewrite Hs.
Defined.
