(* ===== verification/GuestChannel.v ===== *)
(** The channel between the supervisor and a guest (src/libraries/ipc/guest_channel.c):
    frames over a SOCK_SEQPACKET socket, with the sender's credentials.

    The kernel's side is a [world]: for every open descriptor what has arrived at its
    socket and what was sent on it, and a script of what happens at each call. An event
    of the script carries the datagrams that arrive before the call returns and what the
    call answers; a script that ends is a process that is stopped there. The integers of
    a frame are in the order of the machine, which is little endian on the platforms of
    the repository. *)

From stdpp Require Import gmap.
From S2P Require Import Prelude Bytes.
#[local] Open Scope Z_scope.

Definition GUEST_WIRE_MAGIC : Z := 1095911235.

Definition GUEST_WIRE_VERSION : Z := 1.

Definition GUEST_WIRE_HEADER_SIZE : Z := 24.

Definition GUEST_HARD_MAX_FRAME_SIZE : Z := 65536.

Definition GUEST_HARD_MAX_PAYLOAD_SIZE : Z := GUEST_HARD_MAX_FRAME_SIZE - GUEST_WIRE_HEADER_SIZE.

Definition GUEST_FLAG_RESPONSE : Z := 1.

Definition GUEST_FLAG_CONTROL : Z := 2.

Definition GUEST_FLAGS_ALLOWED : Z := Z.lor GUEST_FLAG_RESPONSE GUEST_FLAG_CONTROL.

Definition GUEST_MATCH_PID : Z := 1.

Definition GUEST_MATCH_UID : Z := 2.

Definition GUEST_MATCH_GID : Z := 4.

Definition GUEST_DEFAULT_IO_TIMEOUT_MS : Z := 1000.

Definition GUEST_OK : Z := 0.

Definition GUEST_ERR_INVALID : Z := -5001.

Definition GUEST_ERR_SYSTEM : Z := -5003.

Definition GUEST_ERR_AUTH : Z := -5004.

Definition GUEST_ERR_PROTOCOL : Z := -5005.

Definition GUEST_ERR_LIMIT : Z := -5006.

Definition GUEST_ERR_TIMEOUT : Z := -5007.

Definition GUEST_ERR_WOULD_BLOCK : Z := -5008.

Definition GUEST_ERR_CLOSED : Z := -5009.

Definition GUEST_ERR_BUFFER_TOO_SMALL : Z := -5010.

Definition GUEST_ERR_BACKPRESSURE : Z := -5011.

Definition GUEST_ERR_NOT_FOUND : Z := -5012.

Definition GUEST_ERR_EXISTS : Z := -5013.

Definition GUEST_ERR_NOMEM : Z := -5014.

(** ** The kernel *)

(** The credentials of a process, [struct ucred]. *)
Record ucred := mk_cred {
  c_pid : Z;
  c_uid : Z;
  c_gid : Z;
}.

(** A datagram, with the SCM_CREDENTIALS that the kernel attached to it, if any. *)
Record dgram := mk_dgram {
  octets : bytes;
  creds : option ucred;
}.

(** A connected socket: SO_PEERCRED, and the datagrams, oldest first, that can be read
    and that were sent. *)
Record sock := mk_sock {
  peer_cred : ucred;
  incoming : list dgram;
  outgoing : list dgram;
}.

(** What a call answers: success, with the numbers it returns; or errno, which is EINTR,
    EAGAIN, one of EPIPE and ECONNRESET, or another one. *)
Inductive answer := Go (rs : list Z) | Intr | Again | Gone | Deny.

Record event := mk_event {
  arrivals : list (Z * dgram);
  says : answer;
}.

(** [bad_closes] lists the calls of [close] on a descriptor that was not open: where
    another thread has opened a file since, such a call closes that file. *)
Record world := mk_world {
  socks : gmap Z sock;
  bad_closes : list Z;
  script : list event;
}.

(** The result is [None] when the script has ended. *)
Definition io (A : Type) : Type := world -> option A * world.

Definition ret {A} (a : A) : io A := fun w => (Some a, w).

Definition bind {A B} (m : io A) (k : A -> io B) : io B :=
  fun w => match m w with (Some a, w') => k a w' | (None, w') => (None, w') end.

Declare Scope guest_scope.
Notation "'let*' x ':=' m 'in' k" := (bind m (fun x => k))
  (at level 10, x pattern, m at level 100, k at level 200) : guest_scope.
#[global] Open Scope guest_scope.

Definition arrive (s : gmap Z sock) (a : Z * dgram) : gmap Z sock :=
  alter (fun k => mk_sock (peer_cred k) (incoming k ++ [a.2]) (outgoing k)) a.1 s.

Definition deliver (l : list (Z * dgram)) (s : gmap Z sock) : gmap Z sock := fold_left arrive l s.

(** A call that is made once. *)
Definition call : io answer :=
  fun w =>
    match script w with
    | [] => (None, w)
    | e :: rest => (Some (says e), mk_world (deliver (arrivals e) (socks w)) (bad_closes w) rest)
    end.

(** A call that is made again while it is interrupted. *)
Fixpoint retry_from (events : list event) (s : gmap Z sock) (bad : list Z) : option answer * world :=
  match events with
  | [] => (None, mk_world s bad [])
  | e :: rest =>
      let s := deliver (arrivals e) s in
      match says e with
      | Intr => retry_from rest s bad
      | a => (Some a, mk_world s bad rest)
      end
  end.

Definition retry : io answer := fun w => retry_from (script w) (socks w) (bad_closes w).

(** [malloc] and [calloc]. *)
Definition alloc : io bool := let* a := call in ret (match a with Go _ => true | _ => false end).

Inductive errno := EAGAIN | EPIPE | EOTHER.

Inductive sysret (A : Type) : Type :=
  | Val (a : A)
  | Errno (e : errno).
Arguments Val {A} _.
Arguments Errno {A} _.

Definition errno_of (a : answer) : errno := match a with Again => EAGAIN | Gone => EPIPE | _ => EOTHER end.

(** An answer, on a descriptor. *)
Definition on_sock {A} (a : answer) (fd : Z) (f : sock -> sysret A * sock) : io (sysret A) :=
  fun w =>
    match a with
    | Go _ =>
        match socks w !! fd with
        | Some s => let '(r, s') := f s in (Some (r), mk_world (<[fd := s']> (socks w)) (bad_closes w) (script w))
        | None => (Some (Errno EOTHER), w)
        end
    | a => (Some (Errno (errno_of a)), w)
    end.

(** [sendmsg] of one datagram, which is sent as a whole. *)
Definition sendmsg (fd : Z) (d : dgram) : io (sysret Z) :=
  let* a := retry in
  on_sock a fd (fun s => (Val (len (octets d)), mk_sock (peer_cred s) (incoming s) (outgoing s ++ [d]))).

(** [recvmsg] with MSG_PEEK; [None] is the end of the stream. *)
Definition peek (fd : Z) : io (sysret (option dgram)) :=
  let* a := retry in on_sock a fd (fun s => (Val (head (incoming s)), s)).

Definition take_first (s : sock) : sysret (option dgram) * sock :=
  (Val (head (incoming s)), mk_sock (peer_cred s) (tail (incoming s)) (outgoing s)).

Definition recvmsg (fd : Z) : io (sysret (option dgram)) := let* a := retry in on_sock a fd take_first.

(** [poll] on one descriptor: the number of ready descriptors, and [revents]. *)
Definition poll1 : io (option (Z * Z)) :=
  let* a := retry in
  ret (match a with Go (r :: _) => Some (1, r) | Go [] => Some (0, 0) | _ => None end).

Definition close (fd : Z) : io unit :=
  fun w =>
    (Some tt, match socks w !! fd with
              | Some _ => mk_world (delete fd (socks w)) (bad_closes w) (script w)
              | None => mk_world (socks w) (bad_closes w ++ [fd]) (script w)
              end).

Definition POLLIN : Z := 1.

Definition POLLOUT : Z := 4.

(** [POLLERR | POLLHUP | POLLNVAL] *)
Definition POLL_BROKEN : Z := 56.

(** ** Channels *)

Record identity_policy := mk_policy {
  match_flags : Z;
  expected : ucred;
}.

Definition zero_cred : ucred := mk_cred 0 0 0.

Definition zero_policy : identity_policy := mk_policy 0 zero_cred.

Record channel_config := mk_config {
  max_payload_size : Z;
  io_timeout_ms : Z;
  peer_policy : identity_policy;
}.

Record channel := mk_channel {
  ch_fd : Z;
  ch_peer : ucred;
  ch_config : channel_config;
}.

Record frame_header := mk_header {
  message_type : Z;
  flags : Z;
  request_id : Z;
  payload_length : Z;
}.

(** An unsigned integer of [n] octets, the low one first. *)
Definition le_bytes (n : nat) (v : Z) : bytes := rev (be_bytes n v).

Definition le_val (b : bytes) : Z := be_val (rev b).

Definition wire_header (h : frame_header) : bytes :=
  le_bytes 4 GUEST_WIRE_MAGIC ++ le_bytes 2 GUEST_WIRE_VERSION ++ le_bytes 2 (message_type h)
  ++ le_bytes 4 (flags h) ++ le_bytes 8 (request_id h) ++ le_bytes 4 (payload_length h).

(** The fields of the header that [b] starts with. *)
Definition read_header (b : bytes) : frame_header :=
  mk_header (le_val (sub 6 2 b)) (le_val (sub 8 4 b)) (le_val (sub 12 8 b)) (le_val (sub 20 4 b)).

Definition magic_of (b : bytes) : Z := le_val (sub 0 4 b).

Definition version_of (b : bytes) : Z := le_val (sub 4 2 b).

Definition ar_guest_channel_socketpair (out_fds : bool) (me : ucred) : io (Z * option (Z * Z)) :=
  if negb out_fds then ret (GUEST_ERR_INVALID, None)
  else
    let* a := call in
    fun w =>
      match a with
      | Go [first; second] =>
          if (first <? 0) || (second <? 0) || (first =? second)
             || bool_decide (is_Some (socks w !! first)) || bool_decide (is_Some (socks w !! second))
          then (Some (GUEST_ERR_SYSTEM, None), w)
          else
            (Some (GUEST_OK, Some (first, second)),
             mk_world (<[first := mk_sock me [] []]> (<[second := mk_sock me [] []]> (socks w))) (bad_closes w) (script w))
      | _ => (Some (GUEST_ERR_SYSTEM, None), w)
      end.

(** An identity that the policy does not accept. *)
Definition differs (policy : identity_policy) (c : ucred) : bool :=
  (negb (Z.land (match_flags policy) GUEST_MATCH_PID =? 0) && negb (u32 (c_pid c) =? c_pid (expected policy)))
  || (negb (Z.land (match_flags policy) GUEST_MATCH_UID =? 0) && negb (u32 (c_uid c) =? c_uid (expected policy)))
  || (negb (Z.land (match_flags policy) GUEST_MATCH_GID =? 0) && negb (u32 (c_gid c) =? c_gid (expected policy))).

(** The configuration that a channel is given. *)
Definition channel_config_of (config : option channel_config) : channel_config :=
  let c := match config with
           | Some c => c
           | None => mk_config GUEST_HARD_MAX_PAYLOAD_SIZE GUEST_DEFAULT_IO_TIMEOUT_MS zero_policy
           end in
  if max_payload_size c =? 0 then mk_config GUEST_HARD_MAX_PAYLOAD_SIZE (io_timeout_ms c) (peer_policy c) else c.

(** The flags that [fcntl] sets are not part of the model: every later call is made with
    MSG_DONTWAIT. *)
Definition ar_guest_channel_attach (fd : Z) (config : option channel_config) (out_channel : bool)
    : io (Z * option channel) :=
  if (fd <? 0) || negb out_channel then ret (GUEST_ERR_INVALID, None)
  else if match config with Some c => max_payload_size c >? GUEST_HARD_MAX_PAYLOAD_SIZE | None => false end
  then ret (GUEST_ERR_LIMIT, None)
  else
    let* a := call in
    let* peer := on_sock a fd (fun s => (Val (peer_cred s), s)) in
    match peer with
    | Errno _ => ret (GUEST_ERR_AUTH, None)
    | Val cred =>
        if match config with
           | Some c => negb (match_flags (peer_policy c) =? 0) && differs (peer_policy c) cred
           | None => false
           end
        then ret (GUEST_ERR_AUTH, None)
        else
          let* passcred := alloc in
          if negb passcred then ret (GUEST_ERR_SYSTEM, None)
          else
            let* ch := alloc in
            if negb ch then ret (GUEST_ERR_NOMEM, None)
            else
              let peer := mk_cred (u32 (c_pid cred)) (u32 (c_uid cred)) (u32 (c_gid cred)) in
              ret (GUEST_OK, Some (mk_channel fd peer (channel_config_of config)))
    end.

Definition ar_guest_channel_close (channel : option channel) : io unit :=
  match channel with
  | Some ch => if ch_fd ch >=? 0 then close (ch_fd ch) else ret tt
  | None => ret tt
  end.

Definition ar_guest_channel_fd (channel : option channel) : Z := match channel with Some ch => ch_fd ch | None => -1 end.

Definition ar_guest_channel_peer (channel : option channel) (out_peer : bool) : Z * option ucred :=
  match channel with
  | Some ch => if out_peer then (GUEST_OK, Some (ch_peer ch)) else (GUEST_ERR_INVALID, None)
  | None => (GUEST_ERR_INVALID, None)
  end.

(** The checks of a message before anything is sent. *)
Definition send_status (channel : option channel) (flags payload_length : Z) (payload : option bytes) : Z :=
  match channel with
  | None => GUEST_ERR_INVALID
  | Some ch =>
      if ch_fd ch <? 0 then GUEST_ERR_INVALID
      else if (payload_length >? 0) && bool_decide (payload = None) then GUEST_ERR_INVALID
      else if negb (Z.land flags (Z.lxor GUEST_FLAGS_ALLOWED UINT32_MAX) =? 0) then GUEST_ERR_INVALID
      else if (payload_length >? max_payload_size (ch_config ch)) || (payload_length >? GUEST_HARD_MAX_PAYLOAD_SIZE)
      then GUEST_ERR_LIMIT
      else GUEST_OK
  end.

(** Before a message is sent ([POLLOUT]). *)
Definition send_poll (timeout : Z) : io Z :=
  if timeout >? 0 then
    let* p := poll1 in
    ret (match p with
         | Some (prc, revents) =>
             if prc =? 0 then GUEST_ERR_TIMEOUT
             else if negb (Z.land revents POLL_BROKEN =? 0) then GUEST_ERR_CLOSED else GUEST_OK
         | None => GUEST_ERR_SYSTEM
         end)
  else ret GUEST_OK.

(** Before a message is read ([POLLIN]). *)
Definition receive_poll (timeout : Z) : io Z :=
  if negb (timeout =? 0) then
    let* p := poll1 in
    ret (match p with
         | Some (prc, revents) =>
             if prc =? 0 then GUEST_ERR_TIMEOUT
             else if negb (Z.land revents POLL_BROKEN =? 0) && (Z.land revents POLLIN =? 0) then GUEST_ERR_CLOSED
             else GUEST_OK
         | None => GUEST_ERR_SYSTEM
         end)
  else ret GUEST_OK.

(** The octets of a message: [payload_length] octets of the payload are read. *)
Definition frame (h : frame_header) (payload : option bytes) : bytes :=
  wire_header h ++ match payload with Some p => sub 0 (payload_length h) p | None => [] end.

Section Channel.

(** The credentials of this process. *)
Context (me : ucred).

(** [payload] holds at least [payload_length] octets if it is not NULL. *)
Definition ar_guest_channel_send (channel : option channel) (message_type flags request_id : Z)
    (payload : option bytes) (payload_length : Z) : io Z :=
  let status := send_status channel flags payload_length payload in
  if negb (status =? GUEST_OK) then ret status
  else
    match channel with
    | None => ret GUEST_ERR_INVALID
    | Some ch =>
        let wire := frame (mk_header message_type flags request_id payload_length) payload in
        let total_expected := GUEST_WIRE_HEADER_SIZE + payload_length in
        let* polled := send_poll (io_timeout_ms (ch_config ch)) in
        if negb (polled =? GUEST_OK) then ret polled
        else
          let* sent := sendmsg (ch_fd ch) (mk_dgram wire (Some me)) in
          ret (match sent with
               | Errno EAGAIN => GUEST_ERR_WOULD_BLOCK
               | Errno EPIPE => GUEST_ERR_CLOSED
               | Errno EOTHER => GUEST_ERR_SYSTEM
               | Val n => if negb (n =? total_expected) then GUEST_ERR_PROTOCOL else GUEST_OK
               end)
    end.
End Channel.

(** [drain_datagram]: the first datagram is thrown away, if the call succeeds. *)
Definition drain_datagram (fd : Z) : io unit :=
  let* a := call in let* _ := on_sock a fd take_first in ret tt.

(** The status of a datagram that was peeked at: the credentials, then the header. *)
Definition check_datagram (ch : channel) (d : dgram) : Z :=
  let policy := peer_policy (ch_config ch) in
  let wire_hdr := octets d in
  let h := read_header wire_hdr in
  if len (octets d) <? GUEST_WIRE_HEADER_SIZE then GUEST_ERR_PROTOCOL
  else
    match creds d with
    | None => GUEST_ERR_AUTH
    | Some cred =>
        if differs policy cred then GUEST_ERR_AUTH
        else if (match_flags policy =? 0)
                && (negb (u32 (c_uid cred) =? c_uid (ch_peer ch)) || negb (u32 (c_pid cred) =? c_pid (ch_peer ch)))
        then GUEST_ERR_AUTH
        else if negb (magic_of wire_hdr =? GUEST_WIRE_MAGIC) || negb (version_of wire_hdr =? GUEST_WIRE_VERSION)
        then GUEST_ERR_PROTOCOL
        else if negb (Z.land (flags h) (Z.lxor GUEST_FLAGS_ALLOWED UINT32_MAX) =? 0) then GUEST_ERR_PROTOCOL
        else if (payload_length h >? max_payload_size (ch_config ch)) || (payload_length h >? GUEST_HARD_MAX_PAYLOAD_SIZE)
        then GUEST_ERR_LIMIT
        else if negb (len (octets d) =? GUEST_WIRE_HEADER_SIZE + payload_length h) then GUEST_ERR_PROTOCOL
        else GUEST_OK
    end.

(** What a call of receive leaves: the header, and the payload. *)
Record message := mk_message {
  m_header : frame_header;
  m_payload : bytes;
}.

(** The second [recvmsg]: the datagram is read into the header and [expected] octets. *)
Definition receive_full (ch : channel) (expected : Z) : io (Z * option frame_header * bytes) :=
  let* r := recvmsg (ch_fd ch) in
  ret (match r with
       | Errno _ => (GUEST_ERR_SYSTEM, None, [])
       | Val d =>
           let b := match d with Some d => octets d | None => [] end in
           if negb (Z.min (len b) (GUEST_WIRE_HEADER_SIZE + expected) =? GUEST_WIRE_HEADER_SIZE + expected)
           then (GUEST_ERR_PROTOCOL, None, [])
           else (GUEST_OK, Some (read_header b), sub GUEST_WIRE_HEADER_SIZE expected b)
       end).

(** The status, the header when it is written, and the payload when the status is OK. *)
Definition ar_guest_channel_receive (channel : option channel) (out_header out_payload : bool) (payload_capacity : Z)
    : io (Z * option frame_header * bytes) :=
  match channel with
  | None => ret (GUEST_ERR_INVALID, None, [])
  | Some ch =>
      if (ch_fd ch <? 0) || negb out_header || ((payload_capacity >? 0) && negb out_payload)
      then ret (GUEST_ERR_INVALID, None, [])
      else
        let* polled := receive_poll (io_timeout_ms (ch_config ch)) in
        if negb (polled =? GUEST_OK) then ret (polled, None, [])
        else
          let* peeked := peek (ch_fd ch) in
          match peeked with
          | Errno EAGAIN => ret (GUEST_ERR_WOULD_BLOCK, None, [])
          | Errno EPIPE => ret (GUEST_ERR_CLOSED, None, [])
          | Errno EOTHER => ret (GUEST_ERR_SYSTEM, None, [])
          | Val None => ret (GUEST_ERR_CLOSED, None, [])
          | Val (Some d) =>
              if len (octets d) =? 0 then ret (GUEST_ERR_CLOSED, None, [])
              else
                let status := check_datagram ch d in
                let h := read_header (octets d) in
                if negb (status =? GUEST_OK) then
                  let* _ := drain_datagram (ch_fd ch) in ret (status, None, [])
                else if payload_capacity <? payload_length h then ret (GUEST_ERR_BUFFER_TOO_SMALL, Some h, [])
                else receive_full ch (payload_length h)
          end
  end.

(** ** Computations and what they leave *)

(** [m] run from [w] ends with a result and a world in [Q], or is stopped in a world in [C]. *)
Definition wp {A} (m : io A) (C : world -> Prop) (Q : A -> world -> Prop) (w : world) : Prop :=
  match m w with (Some a, w') => Q a w' | (None, w') => C w' end.

(** What was sent on every open descriptor. *)
Definition outs (w : world) : gmap Z (list dgram) := outgoing <$> socks w.

(** The datagrams that arrive at a descriptor. *)
Definition arrived (fd : Z) (l : list (Z * dgram)) : list dgram := map snd (List.filter (fun a => a.1 =? fd) l).

(** [w'] is [w] after the events [evs], which only brought datagrams. *)
Definition passes (evs : list event) (w w' : world) : Prop :=
  script w = evs ++ script w' /\ socks w' = deliver (flat_map arrivals evs) (socks w) /\ bad_closes w' = bad_closes w.

Lemma outs_deliver l s : outgoing <$> deliver l s = outgoing <$> s.
Proof.
  revert s. induction l as [|[fd d] l IH]; intros s; [done|]. cbn. rewrite IH. unfold arrive. cbn [fst snd].
  rewrite (fmap_alter outgoing _ id) by done. by apply alter_id.
Qed.

(** A socket after arrivals. *)
Lemma deliver_lookup l s fd :
  deliver l s !! fd = (fun k => mk_sock (peer_cred k) (incoming k ++ arrived fd l) (outgoing k)) <$> s !! fd.
Proof.
  revert s. induction l as [|[fd' d] l IH]; intros s.
  { unfold arrived. cbn. destruct (s !! fd) as [k|]; [|done]. cbn. rewrite app_nil_r. by destruct k. }
  cbn [deliver fold_left]. fold (deliver l). rewrite IH. unfold arrive, arrived. cbn [fst snd List.filter].
  destruct (fd' =? fd) eqn:E; bool_hyps.
  - subst fd'. rewrite lookup_alter_eq. destruct (s !! fd); [|done]. cbn. by rewrite <- app_assoc.
  - by rewrite lookup_alter_ne by done.
Qed.

Lemma passes_nil w : passes [] w w.
Proof. done. Qed.

Lemma passes_trans e1 e2 w1 w2 w3 : passes e1 w1 w2 -> passes e2 w2 w3 -> passes (e1 ++ e2) w1 w3.
Proof.
  intros (S1 & K1 & B1) (S2 & K2 & B2). split; [by rewrite S1, S2, app_assoc|]. split; [|congruence].
  rewrite K2, K1, flat_map_app. unfold deliver. by rewrite fold_left_app.
Qed.

Lemma passes_outs evs w w' : passes evs w w' -> outs w' = outs w.
Proof. intros (_ & E & _). unfold outs. rewrite E. apply outs_deliver. Qed.

Lemma passes_bad evs w w' : passes evs w w' -> bad_closes w' = bad_closes w.
Proof. by intros (_ & _ & E). Qed.

Lemma outs_open w fd l : outs w !! fd = Some l <-> exists k, socks w !! fd = Some k /\ outgoing k = l.
Proof. unfold outs. rewrite lookup_fmap, fmap_Some. split; intros (k & ? & ?); exists k; by split. Qed.

Section Rules.
Context (C : world -> Prop).

Lemma chan_wp_ret {A} (a : A) Q w : Q a w -> wp (ret a) C Q w.
Proof. done. Qed.

Lemma chan_wp_bind {A B} (m : io A) (k : A -> io B) Q w : wp m C (fun a => wp (k a) C Q) w -> wp (bind m k) C Q w.
Proof. unfold wp, bind. by destruct (m w) as [[a|] w']. Qed.

Lemma chan_wp_mono {A} (m : io A) (Q Q' : A -> world -> Prop) w :
  wp m C Q w -> (forall a w', Q a w' -> Q' a w') -> wp m C Q' w.
Proof. unfold wp. destruct (m w) as [[a|] w']; auto. Qed.

Lemma wp_call Q w :
  (script w = [] -> C w) -> (forall evs a w', passes evs w w' -> Q a w') -> wp call C Q w.
Proof.
  intros Hc HQ. unfold wp, call. destruct (script w) as [|e rest] eqn:E; [by apply Hc|].
  apply (HQ [e]). split; [by rewrite E|]. cbn. by rewrite app_nil_r.
Qed.

Lemma chan_wp_retry Q w :
  (forall evs w', passes evs w w' -> script w' = [] -> C w') -> (forall evs a w', passes evs w w' -> Q a w') -> wp retry C Q w.
Proof.
  intros Hc HQ. unfold wp, retry.
  enough (H : forall events s evs, script w = evs ++ events -> s = deliver (flat_map arrivals evs) (socks w) ->
    match retry_from events s (bad_closes w) with (Some a, w') => Q a w' | (None, w') => C w' end)
    by (by apply (H _ _ [])).
  induction events as [|e rest IH]; intros s evs Hs ->; cbn [retry_from].
  { apply (Hc evs); [by split|done]. }
  specialize (IH (deliver (arrivals e) (deliver (flat_map arrivals evs) (socks w))) (evs ++ [e])).
  assert (Hd : deliver (arrivals e) (deliver (flat_map arrivals evs) (socks w)) = deliver (flat_map arrivals (evs ++ [e])) (socks w)).
  { rewrite flat_map_app. cbn. rewrite app_nil_r. unfold deliver. by rewrite fold_left_app. }
  assert (Hq : forall a, Q a (mk_world (deliver (arrivals e) (deliver (flat_map arrivals evs) (socks w))) (bad_closes w) rest)).
  { intros a. apply (HQ (evs ++ [e])). split; [cbn; by rewrite <- app_assoc|]. by split. }
  destruct (says e); try apply Hq. apply IH; [by rewrite <- app_assoc|exact Hd].
Qed.

Lemma wp_alloc Q w : (script w = [] -> C w) -> (forall evs b w', passes evs w w' -> Q b w') -> wp alloc C Q w.
Proof. intros Hc HQ. apply chan_wp_bind, wp_call; [done|]. intros. by eapply chan_wp_ret, HQ. Qed.

(** An answer that changes nothing but one socket. *)
Lemma wp_on_sock {A} a fd (f : sock -> sysret A * sock) Q w :
  (forall e, Q (Errno e) w) ->
  (forall s, socks w !! fd = Some s -> Q (f s).1 (mk_world (<[fd := (f s).2]> (socks w)) (bad_closes w) (script w))) ->
  wp (on_sock a fd f) C Q w.
Proof.
  intros He Hs. unfold wp, on_sock. destruct a; try apply He. destruct (socks w !! fd) as [s|]; [|apply He].
  specialize (Hs s eq_refl). by destruct (f s).
Qed.

Lemma wp_sendmsg fd d Q w :
  (forall evs w', passes evs w w' -> script w' = [] -> C w') ->
  (forall e w', outs w' = outs w -> bad_closes w' = bad_closes w -> Q (Errno e) w') ->
  (forall l w', outs w !! fd = Some l -> outs w' = <[fd := l ++ [d]]> (outs w) -> bad_closes w' = bad_closes w ->
     Q (Val (len (octets d))) w') ->
  wp (sendmsg fd d) C Q w.
Proof.
  intros Hc He HQ. apply chan_wp_bind, chan_wp_retry; [done|]. intros evs a w' Hw.
  pose proof (passes_outs _ _ _ Hw) as Ho. pose proof (passes_bad _ _ _ Hw) as Hb.
  apply wp_on_sock; [by intros e; apply He|]. intros s Hs. cbn [fst snd].
  apply (HQ (outgoing s)); [|unfold outs; cbn [socks]; rewrite fmap_insert; cbn [outgoing]; fold (outs w'); by rewrite Ho|done].
  rewrite <- Ho. apply outs_open. by exists s.
Qed.

Lemma wp_poll1 Q w :
  (forall evs w', passes evs w w' -> script w' = [] -> C w') -> (forall evs r w', passes evs w w' -> Q r w') -> wp poll1 C Q w.
Proof. intros Hc HQ. apply chan_wp_bind, chan_wp_retry; [done|]. intros. by eapply chan_wp_ret, HQ. Qed.
End Rules.

(** Step through a straight-line computation. *)
Ltac wp_step :=
  match goal with
  | |- wp (bind _ _) _ _ _ => apply chan_wp_bind
  | |- wp (ret _) _ _ _ => apply chan_wp_ret
  | |- wp (if ?c then _ else _) _ _ _ => destruct c eqn:?
  | |- wp (let _ := _ in _) _ _ _ => cbv zeta
  end.

(** ** Sending *)

(** A payload holds the octets that its length promises. *)
Definition wf_message (h : frame_header) (payload : option bytes) : Prop :=
  0 <= payload_length h /\ match payload with Some p => payload_length h <= len p | None => True end.

Lemma len_le_bytes n v : len (le_bytes n v) = Z.of_nat n.
Proof. unfold le_bytes, len. rewrite length_rev. by rewrite length_be_bytes. Qed.

Lemma len_wire_header h : len (wire_header h) = GUEST_WIRE_HEADER_SIZE.
Proof. unfold wire_header. rewrite !len_app, !len_le_bytes. done. Qed.

Lemma len_frame h payload :
  wf_message h payload -> (0 < payload_length h -> payload <> None) ->
  len (frame h payload) = GUEST_WIRE_HEADER_SIZE + payload_length h.
Proof.
  intros [H0 Hp] Hn. unfold frame. rewrite len_app, len_wire_header. f_equal. destruct payload as [p|].
  - rewrite len_sub; lia.
  - rewrite len_nil. destruct (Z.eq_dec (payload_length h) 0); [done|]. exfalso. by apply Hn; [lia|].
Qed.

Section Send.
Context (me : ucred) (C : world -> Prop).

(** The datagram of a message. *)
Definition dgram_of (h : frame_header) (payload : option bytes) : dgram := mk_dgram (frame h payload) (Some me).

(** A message is sent as a whole, or not at all. *)
Lemma wp_send ch h payload Q w :
  wf_message h payload ->
  (forall evs w', passes evs w w' -> script w' = [] -> C w') ->
  (forall rc w', rc <> GUEST_OK -> outs w' = outs w -> bad_closes w' = bad_closes w ->
     (rc = GUEST_ERR_WOULD_BLOCK -> send_status (Some ch) (flags h) (payload_length h) payload = GUEST_OK) -> Q rc w') ->
  (forall l w', send_status (Some ch) (flags h) (payload_length h) payload = GUEST_OK -> outs w !! ch_fd ch = Some l ->
     outs w' = <[ch_fd ch := l ++ [dgram_of h payload]]> (outs w) -> bad_closes w' = bad_closes w -> Q GUEST_OK w') ->
  wp (ar_guest_channel_send me (Some ch) (message_type h) (flags h) (request_id h) payload (payload_length h)) C Q w.
Proof.
  intros Hwf Hc He HQ. unfold ar_guest_channel_send. destruct h as [t f i n]. cbn [message_type flags request_id payload_length] in *.
  destruct (negb (send_status _ _ _ _ =? _)) eqn:Hs; bool_hyps.
  { apply chan_wp_ret, He; [done..|]. unfold send_status. intros E. repeat case_match; by try discriminate E. }
  apply chan_wp_bind.
  enough (H : wp (send_poll (io_timeout_ms (ch_config ch))) C
    (fun rc w' => rc <> GUEST_ERR_WOULD_BLOCK /\ exists evs, passes evs w w') w).
  { eapply chan_wp_mono; [exact H|]. intros rc w1 [Hrc [evs Hw]]. pose proof (passes_outs _ _ _ Hw) as Ho. pose proof (passes_bad _ _ _ Hw) as Hb.
    wp_step; bool_hyps; [by apply chan_wp_ret, He|]. apply chan_wp_bind, wp_sendmsg.
    - intros evs' w' Hw'. eapply Hc, passes_trans; eassumption.
    - intros e w' Ho' Hb'. apply chan_wp_ret, He; [by destruct e|congruence..].
    - intros l w' Hl Ho' Hb'. apply chan_wp_ret. rewrite Ho in Hl, Ho'. cbn [octets].
      rewrite len_frame; [|done|].
      + cbn [payload_length]. rewrite Z.eqb_refl. cbn [negb]. apply (HQ l); [done..|congruence].
      + cbn [payload_length]. intros Hn E. subst payload. unfold send_status in Hs. destruct (ch_fd ch <? 0); [done|].
        rewrite bool_decide_true, andb_true_r in Hs by done. rewrite Z.gtb_ltb in Hs. by replace (0 <? n) with true in Hs by lia. }
  unfold send_poll. wp_step; [|apply chan_wp_ret; split; [done|]; exists []; apply passes_nil].
  apply chan_wp_bind, wp_poll1; [done|]. intros evs r w' Hw. apply chan_wp_ret. split; [|by exists evs].
  destruct r as [[prc rev]|]; [|done]. by repeat case_match.
Qed.
End Send.

Lemma outs_close fd w : outs (mk_world (delete fd (socks w)) (bad_closes w) (script w)) = delete fd (outs w).
Proof. unfold outs. cbn. apply fmap_delete. Qed.

(** An open descriptor is closed. *)
Lemma wp_close C Q fd w :
  (forall w', outs w' = delete fd (outs w) -> bad_closes w' = bad_closes w -> Q tt w') ->
  is_Some (outs w !! fd) -> wp (close fd) C Q w.
Proof.
  intros HQ [l Hl]. apply outs_open in Hl as (k & Hk & _). unfold wp, close. rewrite Hk. apply HQ; [apply outs_close|done].
Qed.

(** ** Receiving *)

(** Between [w] and [w'] the datagrams [consumed] were read from [fd], nothing was sent
    and nothing else was read. *)
Definition reads (fd : Z) (consumed : list dgram) (w w' : world) : Prop :=
  exists evs s rest,
    script w = evs ++ script w' /\ bad_closes w' = bad_closes w
    /\ socks w !! fd = Some s /\ incoming s ++ arrived fd (flat_map arrivals evs) = consumed ++ rest
    /\ socks w' = <[fd := mk_sock (peer_cred s) rest (outgoing s)]> (deliver (flat_map arrivals evs) (socks w)).

Lemma reads_outs fd l w w' : reads fd l w w' -> outs w' = outs w /\ bad_closes w' = bad_closes w.
Proof.
  intros (evs & s & rest & _ & Hb & Hs & _ & Hw). split; [|done]. unfold outs. rewrite Hw, fmap_insert, outs_deliver. cbn.
  apply insert_id. rewrite lookup_fmap, Hs. done.
Qed.

Lemma passes_lookup evs w w' fd s :
  passes evs w w' -> socks w !! fd = Some s ->
  socks w' !! fd = Some (mk_sock (peer_cred s) (incoming s ++ arrived fd (flat_map arrivals evs)) (outgoing s)).
Proof. intros (_ & -> & _) Hs. by rewrite deliver_lookup, Hs. Qed.

(** Nothing is read while datagrams arrive. *)
Lemma passes_reads evs w w' fd s : passes evs w w' -> socks w !! fd = Some s -> reads fd [] w w'.
Proof.
  intros Hp Hs. pose proof (passes_lookup _ _ _ _ _ Hp Hs) as Hl. destruct Hp as (Hscr & Hw & Hb).
  exists evs, s, (incoming s ++ arrived fd (flat_map arrivals evs)). split_and!; try done.
  rewrite Hw in *. symmetry. by apply insert_id.
Qed.

(** A datagram that was at the head of the queue is taken from it. *)
Lemma take_reads evs w w' fd s d :
  passes evs w w' -> socks w !! fd = Some s -> head (incoming s ++ arrived fd (flat_map arrivals evs)) = Some d ->
  forall s', socks w' !! fd = Some s' ->
  (take_first s').1 = Val (Some d) /\
  reads fd [d] w (mk_world (<[fd := (take_first s').2]> (socks w')) (bad_closes w') (script w')).
Proof.
  intros Hp Hs Hd s' Hs'. rewrite (passes_lookup _ _ _ _ _ Hp Hs) in Hs'. injection Hs' as <-.
  unfold take_first. cbn [fst snd incoming peer_cred outgoing]. split; [by rewrite Hd|].
  destruct Hp as (Hscr & Hw & Hb). exists evs, s, (tail (incoming s ++ arrived fd (flat_map arrivals evs))).
  split_and!; try done.
  - destruct (incoming s ++ arrived fd (flat_map arrivals evs)); [done|]. by injection Hd as ->.
  - cbn [socks]. by rewrite Hw.
Qed.

(** The outcome of a reading: what was consumed, and what is returned. *)
Definition received (ch : channel) (capacity : Z) (w : world) (r : Z * option frame_header * bytes) (w' : world) : Prop :=
  let '(rc, hdr, payload) := r in
  (rc = GUEST_OK /\ exists d, reads (ch_fd ch) [d] w w' /\ check_datagram ch d = GUEST_OK
     /\ hdr = Some (read_header (octets d)) /\ payload = drop (Z.to_nat GUEST_WIRE_HEADER_SIZE) (octets d)
     /\ (bytes_ok (octets d) -> len payload = payload_length (read_header (octets d)) /\ len payload <= capacity))
  \/ (rc <> GUEST_OK /\ payload = [] /\ exists l, reads (ch_fd ch) l w w'
      /\ (l = [] \/ exists d, l = [d] /\ rc = check_datagram ch d)).

Lemma le_val_nonneg b : bytes_ok b -> 0 <= le_val b.
Proof. intros Hb. apply be_val_bound. by apply Forall_rev. Qed.

Section Receive.
Context (ch : channel) (capacity : Z) (w : world) (s : sock).
Context (Hfd : 0 <= ch_fd ch) (Hs : socks w !! ch_fd ch = Some s).

(** A call that does not return has taken nothing. *)
Context (C : world -> Prop) (HC : forall evs w', passes evs w w' -> script w' = [] -> C w').

Lemma refused evs w' rc hdr : rc <> GUEST_OK -> passes evs w w' -> received ch capacity w (rc, hdr, []) w'.
Proof. intros Hrc Hp. right. split_and!; [done..|]. exists []. split; [by eapply passes_reads|by left]. Qed.

Lemma check_ok_len d :
  check_datagram ch d = GUEST_OK -> len (octets d) = GUEST_WIRE_HEADER_SIZE + payload_length (read_header (octets d)).
Proof. unfold check_datagram. intros H. repeat case_match; try discriminate H. bool_hyps. done. Qed.

(** What follows the peek. *)
Lemma wp_taken evs1 w1 d :
  passes evs1 w w1 -> head (incoming s ++ arrived (ch_fd ch) (flat_map arrivals evs1)) = Some d ->
  check_datagram ch d <> GUEST_OK -> wp (drain_datagram (ch_fd ch)) C (fun _ => received ch capacity w (check_datagram ch d, None, [])) w1.
Proof.
  intros Hp Hd Hne. apply chan_wp_bind, wp_call; [by eapply HC|]. intros evs a w2 Hp2.
  pose proof (passes_trans _ _ _ _ _ Hp Hp2) as Hp12. apply chan_wp_bind, wp_on_sock.
  - intros e. by eapply chan_wp_ret, refused.
  - intros s2 Hs2. apply chan_wp_ret. right. split_and!; [done..|]. exists [d]. split; [|right; by exists d].
    eapply take_reads; try eassumption. rewrite flat_map_app. unfold arrived in *. rewrite filter_app, map_app, app_assoc.
    destruct (incoming s ++ _); [done|]. exact Hd.
Qed.

Lemma wp_receive_full evs1 w1 d :
  passes evs1 w w1 -> head (incoming s ++ arrived (ch_fd ch) (flat_map arrivals evs1)) = Some d ->
  check_datagram ch d = GUEST_OK -> payload_length (read_header (octets d)) <= capacity ->
  wp (receive_full ch (payload_length (read_header (octets d)))) C (received ch capacity w) w1.
Proof.
  intros Hp Hd Hok Hcap. apply chan_wp_bind, chan_wp_bind, chan_wp_retry.
  { intros evs w2 Hp2. eapply HC. by eapply passes_trans. }
  intros evs a w2 Hp2. pose proof (passes_trans _ _ _ _ _ Hp Hp2) as Hp12. apply wp_on_sock.
  - intros e. eapply chan_wp_ret, refused; done.
  - intros s2 Hs2. apply chan_wp_ret. destruct (take_reads _ _ _ _ _ d Hp12 Hs) with (s' := s2) as [-> Hr]; [|done|].
    { rewrite flat_map_app. unfold arrived in *. rewrite filter_app, map_app, app_assoc. destruct (incoming s ++ _); [done|]. exact Hd. }
    pose proof (check_ok_len d Hok) as Hl. set (n := payload_length (read_header (octets d))) in *.
    cbv beta iota zeta. rewrite Hl, Z.min_id, Z.eqb_refl. cbn [negb]. left. split; [done|]. exists d.
    assert (Hsub : sub GUEST_WIRE_HEADER_SIZE n (octets d) = drop (Z.to_nat GUEST_WIRE_HEADER_SIZE) (octets d)).
    { unfold sub. apply take_ge. rewrite length_drop. unfold GUEST_WIRE_HEADER_SIZE, len in *. lia. }
    split_and!; try done. intros Hb. pose proof (le_val_nonneg (sub 20 4 (octets d)) (bytes_ok_sub 20 4 _ Hb)) as Hn.
    change (0 <= n) in Hn. rewrite Hsub, len_drop. unfold GUEST_WIRE_HEADER_SIZE in *. lia.
Qed.

(** Every outcome of a reading. *)
Lemma wp_receive : wp (ar_guest_channel_receive (Some ch) true true capacity) C (received ch capacity w) w.
Proof.
  unfold ar_guest_channel_receive. replace (ch_fd ch <? 0) with false by lia. rewrite andb_false_r. cbn [orb negb].
  apply chan_wp_bind.
  enough (H : wp (receive_poll (io_timeout_ms (ch_config ch))) C (fun rc w' => exists evs, passes evs w w') w).
  { eapply chan_wp_mono; [exact H|]. intros rc w1 [evs1 Hp1]. wp_step; [bool_hyps; by eapply chan_wp_ret, refused|].
    apply chan_wp_bind, chan_wp_bind, chan_wp_retry.
    { intros evs w2 Hp2. eapply HC. by eapply passes_trans. }
    intros evs a w2 Hp2. pose proof (passes_trans _ _ _ _ _ Hp1 Hp2) as Hp. apply wp_on_sock.
    { intros []; by eapply chan_wp_ret, refused. }
    intros s2 Hs2. cbn [fst snd]. rewrite insert_id by done. rewrite (passes_lookup _ _ _ _ _ Hp Hs) in Hs2.
    injection Hs2 as <-. cbn [incoming]. replace (mk_world (socks w2) (bad_closes w2) (script w2)) with w2 by (by destruct w2).
    destruct (head (incoming s ++ _)) as [d|] eqn:Hd; [|by eapply chan_wp_ret, refused].
    wp_step; [by eapply chan_wp_ret, refused|]. cbv zeta. wp_step; bool_hyps.
    - apply chan_wp_bind. eapply chan_wp_mono; [by eapply wp_taken|]. intros [] w' H'. by apply chan_wp_ret.
    - wp_step; bool_hyps; [by eapply chan_wp_ret, refused|]. by eapply wp_receive_full. }
  unfold receive_poll. wp_step; [|apply chan_wp_ret; exists []; apply passes_nil].
  apply chan_wp_bind, wp_poll1; [done|]. intros evs r w' Hw. apply chan_wp_ret. by exists evs.
Qed.
End Receive.

(** ** What is accepted *)

(** A header as the C type holds it. *)
Definition header_typed (h : frame_header) : Prop :=
  0 <= message_type h < 2 ^ 16 /\ 0 <= flags h < 2 ^ 32 /\ 0 <= request_id h < 2 ^ 64 /\ 0 <= payload_length h < 2 ^ 32.

(** The sender is who the channel's policy expects; without a policy, the process at
    the other end. *)
Definition accepts (ch : channel) (c : ucred) : bool :=
  let policy := peer_policy (ch_config ch) in
  if match_flags policy =? 0 then (u32 (c_uid c) =? c_uid (ch_peer ch)) && (u32 (c_pid c) =? c_pid (ch_peer ch))
  else negb (differs policy c).

(** A message of an accepted sender within the limits of the channel. *)
Definition genuine (ch : channel) (h : frame_header) (p : bytes) (c : ucred) : Prop :=
  accepts ch c = true /\ header_typed h /\ Z.land (flags h) (Z.lxor GUEST_FLAGS_ALLOWED UINT32_MAX) = 0
  /\ payload_length h = len p /\ len p <= max_payload_size (ch_config ch) /\ len p <= GUEST_HARD_MAX_PAYLOAD_SIZE.

Definition genuine_dgram (ch : channel) (d : dgram) : Prop :=
  exists h p c, d = dgram_of c h (Some p) /\ genuine ch h p c.

Lemma le_val_bytes n v : 0 <= v < 256 ^ Z.of_nat n -> le_val (le_bytes n v) = v.
Proof. intros. unfold le_val, le_bytes. by rewrite rev_involutive, be_val_bytes. Qed.

Lemma le_bytes_val n b : bytes_ok b -> length b = n -> le_bytes n (le_val b) = b.
Proof.
  intros Hb Hn. unfold le_val, le_bytes. rewrite store_load_gen; [apply rev_involutive|by apply Forall_rev|by rewrite length_rev].
Qed.

Lemma le_val_bound b : bytes_ok b -> 0 <= le_val b < 256 ^ len b.
Proof.
  intros Hb. unfold le_val. replace (len b) with (len (rev b)) by (unfold len; by rewrite length_rev).
  apply be_val_bound. by apply Forall_rev.
Qed.

Lemma frame_some h p : payload_length h = len p -> frame h (Some p) = wire_header h ++ p.
Proof. intros H. unfold frame. by rewrite H, sub_full. Qed.

#[local] Hint Rewrite len_le_bytes : buf.

(** Reading the fields of a header that was written. *)
Lemma read_wire_header h b :
  header_typed h ->
  magic_of (wire_header h ++ b) = GUEST_WIRE_MAGIC /\ version_of (wire_header h ++ b) = GUEST_WIRE_VERSION
  /\ read_header (wire_header h ++ b) = h.
Proof.
  intros (Ht & Hf & Hi & Hl). unfold magic_of, version_of, read_header, wire_header. rewrite <- !app_assoc.
  set (tail := le_bytes 4 (payload_length h) ++ b).
  assert (E : forall off n x y, sub off n x = y -> le_val (sub off n x) = le_val y) by (by intros * ->).
  rewrite (E 0 4 _ (le_bytes 4 GUEST_WIRE_MAGIC)) by read_field. rewrite (E 4 2 _ (le_bytes 2 GUEST_WIRE_VERSION)) by read_field.
  rewrite (E 6 2 _ (le_bytes 2 (message_type h))) by read_field. rewrite (E 8 4 _ (le_bytes 4 (flags h))) by read_field.
  rewrite (E 12 8 _ (le_bytes 8 (request_id h))) by read_field. subst tail.
  rewrite (E 20 4 _ (le_bytes 4 (payload_length h))) by read_field.
  rewrite !le_val_bytes by done. by destruct h.
Qed.

(** A datagram whose header has the right magic and version is its fields written down. *)
Lemma wire_header_read b :
  bytes_ok b -> GUEST_WIRE_HEADER_SIZE <= len b -> magic_of b = GUEST_WIRE_MAGIC -> version_of b = GUEST_WIRE_VERSION ->
  wire_header (read_header b) = sub 0 24 b /\ header_typed (read_header b).
Proof.
  unfold GUEST_WIRE_HEADER_SIZE. intros Hb Hl Hm Hv.
  assert (Hle : forall off n, 0 <= off -> 0 <= n -> off + n <= 24 -> le_bytes (Z.to_nat n) (le_val (sub off n b)) = sub off n b).
  { intros off n ? ? ?. apply le_bytes_val; [by apply bytes_ok_sub|]. pose proof (len_sub off n b ltac:(lia) ltac:(lia) ltac:(lia)).
    unfold len in *. lia. }
  assert (Hbd : forall off n, 0 <= off -> 0 <= n -> off + n <= 24 -> 0 <= le_val (sub off n b) < 256 ^ n).
  { intros off n ? ? ?. pose proof (le_val_bound (sub off n b) (bytes_ok_sub off n b Hb)) as HH. by rewrite len_sub in HH by lia. }
  split.
  - unfold wire_header, read_header. rewrite <- Hm, <- Hv at 1. unfold magic_of, version_of. cbn [message_type flags request_id payload_length].
    pose proof (fun off => Hle off 2) as H2. pose proof (fun off => Hle off 4) as H4. pose proof (fun off => Hle off 8) as H8.
    change (Z.to_nat 2) with 2%nat in H2. change (Z.to_nat 4) with 4%nat in H4. change (Z.to_nat 8) with 8%nat in H8.
    rewrite (H4 0), (H2 4), (H2 6), (H4 8), (H8 12), (H4 20) by lia.
    rewrite (sub_join 12 8 20 4) by lia. rewrite (sub_join 8 4 12) by lia. rewrite (sub_join 6 2 8) by lia.
    rewrite (sub_join 4 2 6) by lia. by rewrite (sub_join 0 4 4) by lia.
  - unfold header_typed, read_header. cbn [message_type flags request_id payload_length].
    pose proof (Hbd 6 2 ltac:(lia) ltac:(lia) ltac:(lia)). pose proof (Hbd 8 4 ltac:(lia) ltac:(lia) ltac:(lia)).
    pose proof (Hbd 12 8 ltac:(lia) ltac:(lia) ltac:(lia)). pose proof (Hbd 20 4 ltac:(lia) ltac:(lia) ltac:(lia)). done.
Qed.

(** The checks of the code accept the genuine messages only. *)
Lemma check_genuine ch d :
  bytes_ok (octets d) ->
  check_datagram ch d = GUEST_OK <->
  exists h p c, d = dgram_of c h (Some p) /\ genuine ch h p c /\ read_header (octets d) = h
    /\ drop (Z.to_nat GUEST_WIRE_HEADER_SIZE) (octets d) = p.
Proof.
  intros Hb. split.
  - intros H. pose proof (check_ok_len ch d H) as Hl. unfold check_datagram in H.
    destruct (len (octets d) <? GUEST_WIRE_HEADER_SIZE) eqn:H24; [done|]. bool_hyps.
    destruct (creds d) as [c|] eqn:Hc; [|done].
    destruct (differs _ c) eqn:Hd; [done|]. destruct ((match_flags _ =? 0) && _) eqn:Hp; [done|].
    destruct (negb (magic_of _ =? _) || _) eqn:Hm; [done|]. destruct (negb (Z.land _ _ =? 0)) eqn:Hf; [done|].
    destruct ((payload_length _ >? _) || _) eqn:Hlim; [done|]. clear H. bool_hyps.
    destruct (wire_header_read (octets d) Hb) as [Hw Ht]; [done..|].
    set (h := read_header (octets d)) in *. set (p := drop (Z.to_nat GUEST_WIRE_HEADER_SIZE) (octets d)) in *.
    assert (Hp' : payload_length h = len p).
    { unfold p. rewrite len_drop. unfold GUEST_WIRE_HEADER_SIZE in *. lia. }
    exists h, p, c. split_and!; [|split_and!|done|done]; try done; try lia.
    + unfold dgram_of. rewrite frame_some, Hw, <- Hc by done. unfold p, sub.
      change (take (Z.to_nat 24) (drop (Z.to_nat 0) (octets d))) with (take (Z.to_nat 24) (octets d)).
      unfold GUEST_WIRE_HEADER_SIZE. rewrite take_drop. by destruct d.
    + unfold accepts. rewrite Hd. apply andb_false_iff in Hp. destruct (match_flags _ =? 0); [|done].
      destruct Hp as [Hp|Hp]; [done|]. bool_hyps. apply andb_true_iff. by split; apply Z.eqb_eq.
  - intros (h & p & c & -> & (Ha & Ht & Hf & Hl & Hm & Hh) & _ & _). unfold check_datagram, dgram_of. cbn [octets creds].
    rewrite frame_some by done. destruct (read_wire_header h p Ht) as (-> & -> & ->).
    pose proof (len_nonneg p). rewrite len_app, len_wire_header, Hl, Hf, !Z.eqb_refl.
    replace (GUEST_WIRE_HEADER_SIZE + len p <? GUEST_WIRE_HEADER_SIZE) with false by lia. cbn [negb orb].
    replace ((len p >? max_payload_size (ch_config ch)) || (len p >? GUEST_HARD_MAX_PAYLOAD_SIZE)) with false
      by (symmetry; apply orb_false_iff; rewrite !Z.gtb_ltb; lia).
    unfold accepts in Ha. destruct (match_flags (peer_policy (ch_config ch)) =? 0) eqn:Hm0; bool_hyps.
    + assert (differs (peer_policy (ch_config ch)) c = false) as -> by (unfold differs; by rewrite Hm0).
      cbn [andb]. rewrite H0, H1, !Z.eqb_refl. done.
    + by rewrite Ha.
Qed.

(** ** Properties *)

(** Every datagram that is there or arrives consists of octets. *)
Definition octets_ok (w : world) (s : sock) : Prop :=
  (forall d, d ∈ incoming s -> bytes_ok (octets d))
  /\ (forall a, a ∈ flat_map arrivals (script w) -> bytes_ok (octets a.2)).

Lemma reads_octets fd d w w' s :
  octets_ok w s -> socks w !! fd = Some s -> reads fd [d] w w' -> bytes_ok (octets d).
Proof.
  intros [Hi Ha] Hs (evs & s' & rest & Hscr & _ & Hs' & Happ & _). rewrite Hs in Hs'. injection Hs' as <-.
  assert (Hd : d ∈ incoming s ++ arrived fd (flat_map arrivals evs)) by (rewrite Happ; left).
  apply elem_of_app in Hd as [Hd|Hd]; [by apply Hi|]. unfold arrived in Hd.
  apply list_elem_of_In, in_map_iff in Hd as (a & <- & Hin). apply filter_In in Hin as [Hin _]. apply Ha.
  rewrite Hscr, flat_map_app. apply elem_of_app. left. by apply list_elem_of_In.
Qed.

(** C38: Only genuine messages are received. Whatever arrives at the socket, and whatever
    the calls of the kernel answer, a reading that succeeds takes exactly the oldest
    datagram, which is the frame of a message of an accepted sender within the limits,
    and returns its header and its payload, which fit the buffer; a reading that fails
    returns no payload and takes no datagram, or one that is not genuine. A process that
    is stopped in the call has taken nothing. *)
Theorem receive_genuine ch capacity w s :
  0 <= ch_fd ch -> socks w !! ch_fd ch = Some s -> octets_ok w s ->
  wp (ar_guest_channel_receive (Some ch) true true capacity)
    (fun w' => exists evs, passes evs w w')
    (fun '(rc, hdr, payload) w' =>
       (rc = GUEST_OK /\ exists h c, genuine ch h payload c /\ hdr = Some h /\ len payload <= capacity
          /\ reads (ch_fd ch) [dgram_of c h (Some payload)] w w')
       \/ (rc <> GUEST_OK /\ payload = [] /\ exists l, reads (ch_fd ch) l w w'
          /\ (l = [] \/ exists d, l = [d] /\ ~ genuine_dgram ch d))) w.
Proof.
  intros Hfd Hs Hb. eapply chan_wp_mono; [eapply wp_receive; [done|done|]; intros evs w' Hp _; by exists evs|].
  intros [[rc hdr] payload] w' [(-> & d & Hr & Hc & -> & -> & Hl)|(Hrc & -> & l & Hr & Hl)].
  - left. split; [done|]. pose proof (reads_octets _ _ _ _ _ Hb Hs Hr) as Hd. destruct (Hl Hd) as [_ Hcap].
    apply check_genuine in Hc as (h & p & c & Ed & Hg & -> & Ep); [|done]. rewrite Ep in *. subst d. by exists h, c.
  - right. split_and!; [done..|]. exists l. split; [done|]. destruct Hl as [->|(d & -> & ->)]; [by left|right].
    exists d. split; [done|]. intros (h & p & c & -> & Hg). apply Hrc. apply check_genuine; [by eapply reads_octets|].
    pose proof Hg as (Ha & Ht & Hf & Hlen & Hlim). destruct (read_wire_header h p Ht) as (_ & _ & Hrd).
    exists h, p, c. split_and!; [done|done| |]; unfold dgram_of; cbn [octets]; rewrite frame_some by done; [exact Hrd|].
    apply drop_app_length'. pose proof (len_wire_header h) as HH. unfold len in HH. lia.
Qed.

(** ** Witnesses *)

Definition sample_cred : ucred := mk_cred 41 1000 1000.

Definition sample_channel : channel := mk_channel 5 sample_cred (mk_config 100 0 zero_policy).

Definition sample_header : frame_header := mk_header 16 1 7 3.

(** A forged datagram arrives before a genuine one. *)
Definition sample_world : world :=
  mk_world {[ 5 := mk_sock sample_cred [] [] ]} []
    [mk_event [(5, dgram_of (mk_cred 42 0 0) sample_header (Some [1; 2; 3]))] (Go []);
     mk_event [(5, dgram_of sample_cred sample_header (Some [1; 2; 3]))] (Go []); mk_event [] Intr; mk_event [] (Go []);
     mk_event [] (Go [])].

Lemma receive_genuine_witness :
  wp (ar_guest_channel_receive (Some sample_channel) true true 64)
    (fun w' => exists evs, passes evs sample_world w')
    (fun '(rc, hdr, payload) w' =>
       (rc = GUEST_OK /\ exists h c, genuine sample_channel h payload c /\ hdr = Some h /\ len payload <= 64
          /\ reads 5 [dgram_of c h (Some payload)] sample_world w')
       \/ (rc <> GUEST_OK /\ payload = [] /\ exists l, reads 5 l sample_world w'
          /\ (l = [] \/ exists d, l = [d] /\ ~ genuine_dgram sample_channel d))) sample_world
  /\ fst (ar_guest_channel_receive (Some sample_channel) true true 64 sample_world) = Some (GUEST_ERR_AUTH, None, []).
Proof.
  split; [|vm_compute; reflexivity].
  apply (receive_genuine sample_channel 64 sample_world (mk_sock sample_cred [] [])); [done|reflexivity|].
  split; [intros d Hd; by apply not_elem_of_nil in Hd|]. intros a Ha. apply list_elem_of_In in Ha. cbn in Ha.
  destruct Ha as [<-|[<-|[]]]; apply bytes_okb_ok; vm_compute; done.
Defined.

(** The next reading returns the genuine message. *)
Lemma sample_second_reading :
  fst (ar_guest_channel_receive (Some sample_channel) true true 64
         (snd (ar_guest_channel_receive (Some sample_channel) true true 64 sample_world)))
  = Some (GUEST_OK, Some sample_header, [1; 2; 3]).
Proof. vm_compute. reflexivity. Qed.
