(* ===== verification/GuestRouter.v ===== *)
(** The router of guest messages (src/libraries/supervisor/guest_router.c): a table of
    guests, each with its channel and a bounded queue of messages that the channel did
    not take yet.

    The handler of [ar_guest_router_dispatch] gets the router and may call it: it is a
    computation on the router, and every access of a loop after such a call reads the
    table again. *)

From stdpp Require Import gmap.
From S2P Require Import Prelude Bytes Ring GuestChannel.
#[local] Open Scope Z_scope.

Definition ROUTER_MAX_GUESTS : Z := 64.

Definition ROUTER_DEFAULT_QUEUE_DEPTH : Z := 64.

Definition APP_ID_MAX_LEN : Z := 64.

Inductive flood_policy_t := FLOOD_DROP | FLOOD_BACKPRESSURE | FLOOD_DISCONNECT.

(** ** Data *)

Record route_stats := mk_stats {
  messages_sent : Z;
  messages_received : Z;
  messages_dropped : Z;
  auth_failures : Z;
  protocol_errors : Z;
}.

Definition zero_stats : route_stats := mk_stats 0 0 0 0 0.

Record router_config := mk_rconfig {
  max_guests : Z;
  max_queue_depth : Z;
  r_max_payload_size : Z;
  r_io_timeout_ms : Z;
  flood_policy : flood_policy_t;
}.

Record queue_entry := mk_qentry {
  q_header : frame_header;
  q_payload : option bytes;
}.

Definition zero_qentry : queue_entry := mk_qentry (mk_header 0 0 0 0) None.

(** [queue] has the length [queue_capacity]; it is empty where the pointer is NULL. *)
Record route_entry := mk_entry {
  app_id : bytes;
  active : bool;
  quarantined : bool;
  e_channel : option channel;
  e_policy : identity_policy;
  stats : route_stats;
  queue : list queue_entry;
  queue_capacity : Z;
  queue_head : Z;
  queue_count : Z;
}.

Definition zero_entry : route_entry := mk_entry [] false false None zero_policy zero_stats [] 0 0 0.

Record router := mk_router {
  config : router_config;
  entries : list route_entry;
  guest_count : Z;
}.

Definition with_queue (e : route_entry) (queue : list queue_entry) (head count : Z) : route_entry :=
  mk_entry (app_id e) (active e) (quarantined e) (e_channel e) (e_policy e) (stats e) queue (queue_capacity e) head count.

Definition with_stats (e : route_entry) (stats : route_stats) : route_entry :=
  mk_entry (app_id e) (active e) (quarantined e) (e_channel e) (e_policy e) stats (queue e) (queue_capacity e)
    (queue_head e) (queue_count e).

Definition quarantine (e : route_entry) : route_entry :=
  mk_entry (app_id e) (active e) true (e_channel e) (e_policy e) (stats e) (queue e) (queue_capacity e)
    (queue_head e) (queue_count e).

Definition count_sent (e : route_entry) : route_entry :=
  let s := stats e in
  with_stats e (mk_stats (u64 (messages_sent s + 1)) (messages_received s) (messages_dropped s) (auth_failures s) (protocol_errors s)).

Definition count_received (e : route_entry) : route_entry :=
  let s := stats e in
  with_stats e (mk_stats (messages_sent s) (u64 (messages_received s + 1)) (messages_dropped s) (auth_failures s) (protocol_errors s)).

Definition count_dropped (e : route_entry) : route_entry :=
  let s := stats e in
  with_stats e (mk_stats (messages_sent s) (messages_received s) (u64 (messages_dropped s + 1)) (auth_failures s) (protocol_errors s)).

Definition count_auth_failure (e : route_entry) : route_entry :=
  let s := stats e in
  with_stats e (mk_stats (messages_sent s) (messages_received s) (messages_dropped s) (u64 (auth_failures s + 1)) (protocol_errors s)).

Definition count_protocol_error (e : route_entry) : route_entry :=
  let s := stats e in
  with_stats e (mk_stats (messages_sent s) (messages_received s) (messages_dropped s) (auth_failures s) (u64 (protocol_errors s + 1))).

Definition set_entry (r : router) (i : nat) (e : route_entry) : router :=
  mk_router (config r) (<[i := e]> (entries r)) (guest_count r).

(** The entry [i], which exists where the code reads it. *)
Definition entry_at (r : router) (i : nat) : route_entry := default zero_entry (entries r !! i).

(** ** Lookup *)

(** [strncmp(a, b, AR_GUEST_APP_ID_MAX_LEN) == 0] *)
Definition same_id (a b : bytes) : bool :=
  bytes_eqb (sub 0 APP_ID_MAX_LEN (cstr a)) (sub 0 APP_ID_MAX_LEN (cstr b)).

(** The index of the first entry that satisfies [p]. *)
Fixpoint find_index (p : route_entry -> bool) (es : list route_entry) : option nat :=
  match es with
  | [] => None
  | e :: es => if p e then Some O else option_map S (find_index p es)
  end.

Definition find_entry (r : router) (id : bytes) : option nat :=
  find_index (fun e => active e && same_id (app_id e) id) (entries r).

(** ** Queues *)

Definition queue_at (e : route_entry) (i : Z) : queue_entry := nth (Z.to_nat i) (queue e) zero_qentry.

(** The first message leaves the queue; its payload is freed. *)
Definition pop (e : route_entry) : route_entry :=
  let q := queue_at e (queue_head e) in
  with_queue e (<[Z.to_nat (queue_head e) := mk_qentry (q_header q) None]> (queue e))
    ((queue_head e + 1) mod queue_capacity e) (queue_count e - 1).

(** A message is stored after the queue, with a copy of its payload, and counted unless
    there is no memory for the copy. *)
Definition push (e : route_entry) (h : frame_header) (payload : option bytes) : io (bool * route_entry) :=
  let tail := Z.to_nat ((queue_head e + queue_count e) mod queue_capacity e) in
  let store copy count := with_queue e (<[tail := mk_qentry h copy]> (queue e)) (queue_head e) count in
  match payload with
  | Some p =>
      if payload_length h >? 0 then
        let* ok := alloc in
        ret (if ok then (true, store (Some (sub 0 (payload_length h) p)) (queue_count e + 1)) else (false, store None (queue_count e)))
      else ret (true, store None (queue_count e + 1))
  | None => ret (true, store None (queue_count e + 1))
  end.

Section Router.
Context (me : ucred).

Definition send_message (e : route_entry) (h : frame_header) (payload : option bytes) : io Z :=
  ar_guest_channel_send me (e_channel e) (message_type h) (flags h) (request_id h) payload (payload_length h).

(** Every message that is sent leaves the queue, so [queue_count] turns are enough. *)
Fixpoint flush_loop (turns : nat) (e : route_entry) : io (Z * route_entry) :=
  match turns with
  | O => ret (GUEST_OK, e)
  | S turns =>
      let q := queue_at e (queue_head e) in
      let* rc := send_message e (q_header q) (q_payload q) in
      if rc =? GUEST_OK then flush_loop turns (pop e) else ret (rc, e)
  end.

Definition flush_entry_queue (e : route_entry) : io (Z * route_entry) := flush_loop (Z.to_nat (queue_count e)) e.

(** ** The router *)

Definition default_config : router_config :=
  mk_rconfig ROUTER_MAX_GUESTS ROUTER_DEFAULT_QUEUE_DEPTH GUEST_HARD_MAX_PAYLOAD_SIZE 0 FLOOD_DROP.

Definition effective_config (config : option router_config) : router_config :=
  let c := match config with Some c => c | None => default_config end in
  mk_rconfig
    (if max_guests c =? 0 then ROUTER_MAX_GUESTS else max_guests c)
    (if max_queue_depth c =? 0 then ROUTER_DEFAULT_QUEUE_DEPTH else max_queue_depth c)
    (if (r_max_payload_size c =? 0) || (r_max_payload_size c >? GUEST_HARD_MAX_PAYLOAD_SIZE)
     then GUEST_HARD_MAX_PAYLOAD_SIZE else r_max_payload_size c)
    (r_io_timeout_ms c) (flood_policy c).

Definition ar_guest_router_create (config : option router_config) (out_router : bool) : io (Z * option router) :=
  if negb out_router then ret (GUEST_ERR_INVALID, None)
  else
    let* ok := alloc in
    if negb ok then ret (GUEST_ERR_NOMEM, None)
    else
      let c := effective_config config in
      let* ok := alloc in
      if negb ok then ret (GUEST_ERR_NOMEM, None)
      else ret (GUEST_OK, Some (mk_router c (replicate (Z.to_nat (max_guests c)) zero_entry) 0)).

(** The channels of the active entries are closed. *)
Fixpoint close_all (es : list route_entry) : io unit :=
  match es with
  | [] => ret tt
  | e :: es =>
      let* _ := if active e then ar_guest_channel_close (e_channel e) else ret tt in
      close_all es
  end.

Definition ar_guest_router_destroy (r : option router) : io unit :=
  match r with Some r => close_all (entries r) | None => ret tt end.

(** The checks of a registration. *)
Definition register_status (r : router) (id : bytes) : Z :=
  if at_ id 0 =? 0 then GUEST_ERR_INVALID
  else if len (cstr id) >=? APP_ID_MAX_LEN then GUEST_ERR_INVALID
  else match find_entry r id with
       | Some _ => GUEST_ERR_EXISTS
       | None => if guest_count r >=? max_guests (config r) then GUEST_ERR_LIMIT else GUEST_OK
       end.

(** The entry of a new guest; [strncpy] copies the identifier. *)
Definition new_entry (r : router) (id : bytes) (ch : channel) (policy : option identity_policy) : route_entry :=
  mk_entry (sub 0 (APP_ID_MAX_LEN - 1) (cstr id)) true false (Some ch)
    (match policy with Some p => p | None => zero_policy end) zero_stats
    (replicate (Z.to_nat (max_queue_depth (config r))) zero_qentry) (max_queue_depth (config r)) 0 0.

Definition attach (r : router) (id : bytes) (host_fd : Z) (policy : option identity_policy) : io (Z * router) :=
  let status := register_status r id in
  if negb (status =? GUEST_OK) then ret (status, r)
  else
    let chan_cfg := mk_config (r_max_payload_size (config r)) 0 (match policy with Some p => p | None => zero_policy end) in
    let* (rc, ch) := ar_guest_channel_attach host_fd (Some chan_cfg) true in
    match ch with
    | None => ret (rc, r)
    | Some ch =>
        match find_index (fun e => negb (active e)) (entries r) with
        | None => let* _ := ar_guest_channel_close (Some ch) in ret (GUEST_ERR_LIMIT, r)
        | Some i =>
            let* ok := alloc in
            if negb ok then
              let* _ := ar_guest_channel_close (Some ch) in ret (GUEST_ERR_NOMEM, set_entry r i zero_entry)
            else
              ret (GUEST_OK, mk_router (config r) (<[i := new_entry r id ch policy]> (entries r)) (guest_count r + 1))
        end
    end.

Definition ar_guest_router_attach (r : option router) (id : option bytes) (host_fd : Z) (policy : option identity_policy)
    : io (Z * option router) :=
  match r, id with
  | Some r, Some id =>
      if host_fd <? 0 then ret (GUEST_ERR_INVALID, Some r)
      else let* (rc, r) := attach r id host_fd policy in ret (rc, Some r)
  | _, _ => ret (GUEST_ERR_INVALID, r)
  end.

(** The status, the guest's descriptor if there is one, and the router. *)
Definition register (r : router) (id : bytes) (policy : option identity_policy) : io (Z * option Z * router) :=
  let status := register_status r id in
  if negb (status =? GUEST_OK) then ret (status, None, r)
  else
    let* (rc, sv) := ar_guest_channel_socketpair true me in
    match sv with
    | None => ret (rc, None, r)
    | Some (host, guest) =>
        let* (rc, r) := attach r id host policy in
        if negb (rc =? GUEST_OK) then
          let* _ := close host in
          let* _ := close guest in
          ret (rc, None, r)
        else ret (GUEST_OK, Some guest, r)
    end.

Definition ar_guest_router_register (r : option router) (id : option bytes) (policy : option identity_policy) (out_guest_fd : bool)
    : io (Z * option Z * option router) :=
  match r, id with
  | Some r, Some id =>
      if negb out_guest_fd then ret (GUEST_ERR_INVALID, None, Some r)
      else let* (rc, fd, r) := register r id policy in ret (rc, fd, Some r)
  | _, _ => ret (GUEST_ERR_INVALID, None, r)
  end.

Definition unregister (r : router) (id : bytes) : io (Z * router) :=
  match find_entry r id with
  | None => ret (GUEST_ERR_NOT_FOUND, r)
  | Some i =>
      let* _ := ar_guest_channel_close (e_channel (entry_at r i)) in
      let r := set_entry r i zero_entry in
      ret (GUEST_OK, mk_router (config r) (entries r) (if guest_count r >? 0 then guest_count r - 1 else guest_count r))
  end.

Definition ar_guest_router_unregister (r : option router) (id : option bytes) : io (Z * option router) :=
  match r, id with
  | Some r, Some id => let* (rc, r) := unregister r id in ret (rc, Some r)
  | _, _ => ret (GUEST_ERR_NOT_FOUND, r)
  end.

Definition ar_guest_router_has_guest (r : option router) (id : option bytes) : bool :=
  match r, id with
  | Some r, Some id => existsb (fun e => active e && negb (quarantined e) && same_id (app_id e) id) (entries r)
  | _, _ => false
  end.

(** A message for a full queue. *)
Definition flood (policy : flood_policy_t) (e : route_entry) : Z * route_entry :=
  let e := count_dropped e in
  match policy with
  | FLOOD_DISCONNECT => (GUEST_ERR_CLOSED, quarantine e)
  | FLOOD_BACKPRESSURE => (GUEST_ERR_BACKPRESSURE, e)
  | FLOOD_DROP => (GUEST_ERR_WOULD_BLOCK, e)
  end.

(** A message that the channel did not take. *)
Definition enqueue (policy : flood_policy_t) (e : route_entry) (h : frame_header) (payload : option bytes)
    : io (Z * route_entry) :=
  if queue_count e <? queue_capacity e then
    let* (ok, e) := push e h payload in
    ret (if ok then (GUEST_OK, count_sent e) else (GUEST_ERR_NOMEM, e))
  else ret (flood policy e).

(** The entry of a guest takes a message. *)
Definition send_entry (policy : flood_policy_t) (e : route_entry) (h : frame_header) (payload : option bytes)
    : io (Z * route_entry) :=
  if quarantined e then ret (GUEST_ERR_CLOSED, e)
  else
    let* (_, e) := if queue_count e >? 0 then flush_entry_queue e else ret (GUEST_OK, e) in
    if queue_count e =? 0 then
      let* rc := send_message e h payload in
      if rc =? GUEST_OK then ret (GUEST_OK, count_sent e)
      else if rc =? GUEST_ERR_CLOSED then ret (GUEST_ERR_CLOSED, quarantine e)
      else if negb (rc =? GUEST_ERR_WOULD_BLOCK) then ret (rc, e)
      else enqueue policy e h payload
    else enqueue policy e h payload.

Definition send (r : router) (id : bytes) (h : frame_header) (payload : option bytes) : io (Z * router) :=
  match find_entry r id with
  | None => ret (GUEST_ERR_NOT_FOUND, r)
  | Some i =>
      let* (rc, e) := send_entry (flood_policy (config r)) (entry_at r i) h payload in
      ret (rc, set_entry r i e)
  end.

Definition ar_guest_router_send (r : option router) (id : option bytes) (message_type flags request_id : Z)
    (payload : option bytes) (payload_length : Z) : io (Z * option router) :=
  match r, id with
  | Some r, Some id =>
      let* (rc, r) := send r id (mk_header message_type flags request_id payload_length) payload in ret (rc, Some r)
  | _, _ => ret (GUEST_ERR_INVALID, r)
  end.

(** The entries [i], [i + 1], ... of the table, [n] of them. *)
Fixpoint broadcast_from (n i : nat) (r : router) (any_sent : bool) (h : frame_header) (payload : option bytes)
    : io (bool * router) :=
  match n with
  | O => ret (any_sent, r)
  | S n =>
      let e := entry_at r i in
      if active e && negb (quarantined e) then
        let* (rc, r) := send r (app_id e) h payload in
        broadcast_from n (S i) r (any_sent || (rc =? GUEST_OK)) h payload
      else broadcast_from n (S i) r any_sent h payload
  end.

Definition broadcast (r : router) (h : frame_header) (payload : option bytes) : io (Z * router) :=
  let* (any_sent, r) := broadcast_from (Z.to_nat (max_guests (config r))) 0 r false h payload in
  ret (if any_sent then GUEST_OK else GUEST_ERR_NOT_FOUND, r).

Definition ar_guest_router_broadcast (r : option router) (message_type flags request_id : Z)
    (payload : option bytes) (payload_length : Z) : io (Z * option router) :=
  match r with
  | Some r =>
      let* (rc, r) := broadcast r (mk_header message_type flags request_id payload_length) payload in ret (rc, Some r)
  | None => ret (GUEST_ERR_INVALID, None)
  end.

Definition flush (r : router) (id : bytes) : io (Z * router) :=
  match find_entry r id with
  | None => ret (GUEST_ERR_NOT_FOUND, r)
  | Some i => let* (rc, e) := flush_entry_queue (entry_at r i) in ret (rc, set_entry r i e)
  end.

Definition ar_guest_router_flush (r : option router) (id : option bytes) : io (Z * option router) :=
  match r, id with
  | Some r, Some id => let* (rc, r) := flush r id in ret (rc, Some r)
  | _, _ => ret (GUEST_ERR_INVALID, r)
  end.

Definition ar_guest_router_get_stats (r : option router) (id : option bytes) (out_stats : bool) : Z * option route_stats :=
  match r, id with
  | Some r, Some id =>
      if negb out_stats then (GUEST_ERR_INVALID, None)
      else match find_entry r id with
           | Some i => (GUEST_OK, Some (stats (entry_at r i)))
           | None => (GUEST_ERR_NOT_FOUND, None)
           end
  | _, _ => (GUEST_ERR_INVALID, None)
  end.

(** ** Dispatch *)

Section Dispatch.
Context (handler : option (router -> bytes -> frame_header -> bytes -> io router)).

(** The entries that are polled: their indices, at most [ROUTER_MAX_GUESTS]. *)
Definition polled (r : router) : list nat :=
  take (Z.to_nat ROUTER_MAX_GUESTS)
    (List.filter (fun i => let e := entry_at r i in
               active e && negb (quarantined e) && negb (bool_decide (e_channel e = None))
               && (ar_guest_channel_fd (e_channel e) >=? 0))
       (seq 0 (Z.to_nat (max_guests (config r))))).

(** The messages of the entry [i], at most [quota]; [processed] counts them. *)
Fixpoint receive_loop (quota : nat) (r : router) (i : nat) (processed : Z) : io (Z * router) :=
  match quota with
  | O => ret (processed, r)
  | S quota =>
      let* (rc, hdr, payload) := ar_guest_channel_receive (e_channel (entry_at r i)) true true GUEST_HARD_MAX_PAYLOAD_SIZE in
      let e := entry_at r i in
      if rc =? GUEST_OK then
        let r := set_entry r i (count_received e) in
        let* r := match handler, hdr with
                  | Some f, Some h => f r (app_id e) h payload
                  | _, _ => ret r
                  end in
        receive_loop quota r i (processed + 1)
      else if rc =? GUEST_ERR_WOULD_BLOCK then ret (processed, r)
      else if rc =? GUEST_ERR_CLOSED then ret (processed, set_entry r i (quarantine e))
      else if rc =? GUEST_ERR_AUTH then ret (processed, set_entry r i (count_auth_failure e))
      else if (rc =? GUEST_ERR_PROTOCOL) || (rc =? GUEST_ERR_LIMIT)
      then ret (processed, set_entry r i (count_protocol_error e))
      else ret (processed, r)
  end.

Definition QUOTA : nat := 16.

(** What [poll] said of the entry [i] is acted on. *)
Definition serve (r : router) (i : nat) (revents processed : Z) : io (Z * router) :=
  if negb (Z.land revents POLL_BROKEN =? 0) && (Z.land revents POLLIN =? 0)
  then ret (processed, set_entry r i (quarantine (entry_at r i)))
  else
    let e := entry_at r i in
    let* (_, e) := if negb (Z.land revents POLLOUT =? 0) && (queue_count e >? 0) then flush_entry_queue e else ret (GUEST_OK, e) in
    let r := set_entry r i e in
    if negb (Z.land revents POLLIN =? 0) then receive_loop QUOTA r i processed else ret (processed, r).

Fixpoint serve_all (idx : list nat) (revents : list Z) (r : router) (processed : Z) : io (Z * router) :=
  match idx with
  | [] => ret (processed, r)
  | i :: idx =>
      let* (processed, r) := serve r i (default 0 (head revents)) processed in
      serve_all idx (tail revents) r processed
  end.

(** [poll] on several descriptors: [revents] of each, if it does not fail. *)
Definition poll_all (n : nat) : io (option (list Z)) :=
  let* a := retry in ret (match a with Go rs => Some (take n rs) | _ => None end).

Definition dispatch (r : router) : io (Z * router) :=
  let idx := polled r in
  if (length idx =? 0)%nat then ret (0, r)
  else
    let* p := poll_all (length idx) in
    match p with
    | Some revents => if forallb (Z.eqb 0) revents then ret (0, r) else serve_all idx revents r 0
    | None => ret (0, r)
    end.

Definition ar_guest_router_dispatch (r : option router) : io (Z * option router) :=
  match r with
  | Some r => let* (n, r) := dispatch r in ret (n, Some r)
  | None => ret (GUEST_ERR_INVALID, None)
  end.
End Dispatch.
End Router.

(** ** Specification *)

(** A guest as its clients see it: the datagrams sent to it, those that wait, and
    whether it is cut off. *)
Record guest := mk_guest {
  g_wire : list dgram;
  g_queued : list dgram;
  g_dead : bool;
}.

(** The messages that were accepted for a guest, in order. *)
Definition accepted (g : guest) : list dgram := g_wire g ++ g_queued g.

(** Between [g] and [g'] the messages [new] were accepted, nothing was lost, repeated or
    overtaken, and nothing that was sent is undone. *)
Definition accepts_more (new : list dgram) (g g' : guest) : Prop :=
  accepted g' = accepted g ++ new /\ prefix (g_wire g) (g_wire g').

(** What happens to a guest that no message is accepted for. *)
Definition idle (g g' : guest) : Prop := accepts_more [] g g' /\ (g_dead g = true -> g' = g).

Section Spec.
Context (me : ucred).

(** The messages that wait, oldest first. *)
Definition pending (e : route_entry) : list queue_entry :=
  ring zero_qentry (queue e) (queue_capacity e) (queue_head e) (Z.to_nat (queue_count e)).

Definition queued (e : route_entry) : list dgram := map (fun q => dgram_of me (q_header q) (q_payload q)) (pending e).

Definition fd_of (e : route_entry) : Z := ar_guest_channel_fd (e_channel e).

(** The guest of an entry; [m] is what was sent on every descriptor. *)
Definition guest_of (m : gmap Z (list dgram)) (e : route_entry) : guest :=
  mk_guest (default [] (m !! fd_of e)) (queued e) (quarantined e).

(** The identifier that an entry is found by. *)
Definition id_of (id : bytes) : bytes := sub 0 APP_ID_MAX_LEN (cstr id).

Definition id_ok (id : bytes) : Prop := Forall (fun c => c <> 0) id /\ 0 < len id < APP_ID_MAX_LEN.

(** The guests of a router, by their identifiers. *)
Definition guests (m : gmap Z (list dgram)) (r : router) (id : bytes) : option guest :=
  match find_index (fun e => active e && bytes_eqb (app_id e) id) (entries r) with
  | Some i => Some (guest_of m (entry_at r i))
  | None => None
  end.

(** An entry in use. *)
Record entry_ok (m : gmap Z (list dgram)) (e : route_entry) : Prop := {
  en_id : id_ok (app_id e);
  en_fd : 0 <= fd_of e;
  en_open : is_Some (m !! fd_of e);
  en_ring : ring_shape (queue e) (queue_capacity e) (queue_head e) (queue_count e);
  en_wf : Forall (fun q => wf_message (q_header q) (q_payload q)) (pending e);
}.

(** An entry that is not in use. *)
Definition free_entry (e : route_entry) : Prop := e_channel e = None /\ queue_count e = 0.

Definition count_active (es : list route_entry) : Z := len (List.filter active es).

Record router_ok (m : gmap Z (list dgram)) (r : router) : Prop := {
  ro_size : len (entries r) = max_guests (config r);
  ro_depth : 0 < max_queue_depth (config r);
  ro_count : guest_count r = count_active (entries r);
  ro_entries : forall i e, entries r !! i = Some e -> if active e then entry_ok m e else free_entry e;
  ro_ids : forall i j e e', entries r !! i = Some e -> entries r !! j = Some e' -> active e = true -> active e' = true ->
             app_id e = app_id e' -> i = j;
  ro_fds : forall i j e e', entries r !! i = Some e -> entries r !! j = Some e' -> active e = true -> active e' = true ->
             fd_of e = fd_of e' -> i = j;
}.
End Spec.

(** ** Entries *)

Lemma find_index_some p es i : find_index p es = Some i -> exists e, es !! i = Some e /\ p e = true.
Proof.
  revert i. induction es as [|e es IH]; intros i; cbn; [done|]. destruct (p e) eqn:E; [intros [= <-]; by exists e|].
  destruct (find_index p es) as [j|]; [|done]. intros [= <-]. by apply IH.
Qed.

Lemma find_index_none p es : find_index p es = None -> forall i e, es !! i = Some e -> p e = false.
Proof.
  induction es as [|e es IH]; intros H i e' Hi; [by rewrite lookup_nil in Hi|]. cbn in H. destruct (p e) eqn:E; [done|].
  destruct (find_index p es); [done|]. destruct i as [|i]; [by injection Hi as <-|]. by eapply IH.
Qed.

(** The only entry that satisfies [p]. *)
Lemma find_index_unique p es i e :
  es !! i = Some e -> p e = true -> (forall j e', es !! j = Some e' -> p e' = true -> j = i) -> find_index p es = Some i.
Proof.
  intros Hi He Hu. destruct (find_index p es) as [j|] eqn:E.
  - apply find_index_some in E as (e' & Hj & He'). f_equal. by eapply Hu.
  - rewrite (find_index_none _ _ E i e Hi) in He. done.
Qed.

Lemma find_index_ext p q es : (forall e, e ∈ es -> p e = q e) -> find_index p es = find_index q es.
Proof.
  induction es as [|e es IH]; intros H; [done|]. cbn. rewrite (H e) by left. rewrite IH; [done|]. intros e' He'. apply H. by right.
Qed.

Lemma entry_at_lookup r i e : entries r !! i = Some e -> entry_at r i = e.
Proof. unfold entry_at. by intros ->. Qed.

Section Entries.
Context (me : ucred).

(** [strncmp] of a stored identifier compares whole strings. *)
Lemma same_id_stored a id : id_ok a -> same_id a id = bytes_eqb a (id_of id).
Proof.
  intros [Hn Hl]. unfold same_id, id_of. do 2 f_equal.
  rewrite (cstr_id a) by done. unfold sub. apply take_ge. unfold APP_ID_MAX_LEN, len in *. cbn [drop Z.to_nat]. lia.
Qed.

Lemma find_entry_guests m r id :
  router_ok m r -> find_entry r id = find_index (fun e => active e && bytes_eqb (app_id e) (id_of id)) (entries r).
Proof.
  intros Hr. apply find_index_ext. intros e [i Hi]%list_elem_of_lookup_1. pose proof (ro_entries _ _ Hr i e Hi) as He.
  destruct (active e); [|done]. cbn [andb]. by apply same_id_stored, (en_id _ _ He).
Qed.
End Entries.

Section Steps.
Context (me : ucred).

Lemma accepts_more_refl g : accepts_more [] g g.
Proof. split; [by rewrite app_nil_r|done]. Qed.

Lemma accepts_more_trans n1 n2 g1 g2 g3 :
  accepts_more n1 g1 g2 -> accepts_more n2 g2 g3 -> accepts_more (n1 ++ n2) g1 g3.
Proof. intros [E1 P1] [E2 P2]. split; [by rewrite E2, E1, app_assoc|by etrans]. Qed.

(** The same guest in the same place. *)
Definition same_place (e e' : route_entry) : Prop :=
  active e' = active e /\ app_id e' = app_id e /\ e_channel e' = e_channel e.

(** What a part of an operation does with an entry in use. *)
Definition entry_step (new : list dgram) (e e' : route_entry) (w w' : world) : Prop :=
  same_place e e' /\ entry_ok (outs w') e' /\ (forall fd, fd <> fd_of e -> outs w' !! fd = outs w !! fd)
  /\ bad_closes w' = bad_closes w /\ accepts_more new (guest_of me (outs w) e) (guest_of me (outs w') e').

Lemma same_place_fd e e' : same_place e e' -> fd_of e' = fd_of e.
Proof. intros (_ & _ & E). unfold fd_of. by rewrite E. Qed.

Lemma entry_step_trans n1 n2 e1 e2 e3 w1 w2 w3 :
  entry_step n1 e1 e2 w1 w2 -> entry_step n2 e2 e3 w2 w3 -> entry_step (n1 ++ n2) e1 e3 w1 w3.
Proof.
  intros (S1 & _ & F1 & B1 & A1) (S2 & K2 & F2 & B2 & A2). pose proof (same_place_fd _ _ S1) as Ef. split_and!.
  - destruct S1 as (? & ? & ?), S2 as (? & ? & ?). unfold same_place. split_and!; congruence.
  - done.
  - intros fd Hfd. rewrite F2, F1; congruence.
  - congruence.
  - by eapply accepts_more_trans.
Qed.

Lemma entry_step_same e w w' :
  entry_ok (outs w) e -> outs w' = outs w -> bad_closes w' = bad_closes w -> entry_step [] e e w w'.
Proof. intros He Ho Hb. split_and!; [done|by rewrite Ho|by rewrite Ho|done|rewrite Ho; apply accepts_more_refl]. Qed.

(** A change of the counters or of the quarantine. *)
Lemma entry_step_mark e e' w w' :
  same_place e e' -> queue e' = queue e -> queue_capacity e' = queue_capacity e -> queue_head e' = queue_head e ->
  queue_count e' = queue_count e -> entry_ok (outs w) e -> outs w' = outs w -> bad_closes w' = bad_closes w ->
  entry_step [] e e' w w'.
Proof.
  intros Hp Eq Ec Eh En [Hid Hfd Hop Hring Hwf] Ho Hb. pose proof (same_place_fd _ _ Hp) as Ef.
  assert (Epend : pending e' = pending e) by (unfold pending; by rewrite Eq, Ec, Eh, En).
  unfold entry_step. rewrite Ho. destruct Hp as (? & Ei & ?). split_and!; [by split_and!| |done|done|].
  - split; rewrite ?Ei, ?Ef, ?Eq, ?Ec, ?Eh, ?En, ?Epend; done.
  - split; unfold accepted, guest_of, queued; cbn [g_wire g_queued]; rewrite ?Epend, Ef; [by rewrite app_nil_r|done].
Qed.

Lemma pending_nil e : queue_count e = 0 -> pending e = [].
Proof. intros H. unfold pending. by rewrite H. Qed.

(** The first message of a queue. *)
Lemma pending_pop_entry e m :
  entry_ok m e -> 0 < queue_count e ->
  pending e = queue_at e (queue_head e) :: pending (pop e)
  /\ ring_shape (queue (pop e)) (queue_capacity (pop e)) (queue_head (pop e)) (queue_count (pop e)).
Proof.
  intros He Hn. unfold pop. destruct (ring_pop zero_qentry _ _ _ _ (mk_qentry (q_header (queue_at e (queue_head e))) None) (en_ring _ _ He) Hn) as [E R].
  by split.
Qed.

(** A message is sent, at the end of what was sent. *)
Lemma entry_step_sent e e' w w' l d :
  entry_ok (outs w) e -> same_place e e' -> ring_shape (queue e') (queue_capacity e') (queue_head e') (queue_count e') ->
  Forall (fun q => wf_message (q_header q) (q_payload q)) (pending e') ->
  outs w !! fd_of e = Some l -> outs w' = <[fd_of e := l ++ [d]]> (outs w) -> bad_closes w' = bad_closes w ->
  forall new, queued me e ++ new = d :: queued me e' -> entry_step new e e' w w'.
Proof.
  intros He Hp Hr Hwf Hl Ho Hb new Hq. pose proof (same_place_fd _ _ Hp) as Ef. split_and!; [done| | |done|].
  - destruct He as [Hid Hfd _ _ _]. destruct Hp as (_ & Ei & _). split; rewrite ?Ei, ?Ef; try done. rewrite Ho, lookup_insert_eq. done.
  - intros fd Hfd. rewrite Ho, lookup_insert_ne; done.
  - unfold guest_of. rewrite Ef, Ho, lookup_insert_eq, Hl. split; cbn; [|by apply prefix_app_r].
    unfold accepted. cbn. rewrite <- !app_assoc. cbn. by rewrite Hq.
Qed.

Let stopped (w : world) : Prop := script w = [].

Lemma send_message_eq e ch h payload :
  e_channel e = Some ch -> send_message me e h payload
  = ar_guest_channel_send me (Some ch) (message_type h) (flags h) (request_id h) payload (payload_length h).
Proof. unfold send_message. by intros ->. Qed.

Lemma entry_channel m e : entry_ok m e -> exists ch, e_channel e = Some ch /\ fd_of e = ch_fd ch.
Proof.
  intros He. pose proof (en_fd _ _ He) as Hfd. unfold fd_of, ar_guest_channel_fd in *. destruct (e_channel e) as [ch|]; [by exists ch|lia].
Qed.

Lemma wp_flush_loop turns e w :
  entry_ok (outs w) e -> Z.of_nat turns = queue_count e ->
  wp (flush_loop me turns e) stopped (fun '(rc, e') w' =>
    entry_step [] e e' w w' /\ quarantined e' = quarantined e /\ stats e' = stats e
    /\ (rc = GUEST_OK -> queue_count e' = 0)) w.
Proof.
  revert e w. induction turns as [|turns IH]; intros e w He Hn; cbn [flush_loop].
  { apply chan_wp_ret. split_and!; [by apply entry_step_same|done..|lia]. }
  destruct (pending_pop_entry e _ He ltac:(lia)) as [Hp Hr]. set (q := queue_at e (queue_head e)) in *.
  assert (Hq : wf_message (q_header q) (q_payload q)) by (pose proof (en_wf _ _ He) as HH; rewrite Hp in HH; by inversion HH).
  destruct (entry_channel _ _ He) as (ch & Hch & Hfd). apply chan_wp_bind. rewrite (send_message_eq _ ch) by done. apply wp_send; [done..| |].
  - intros rc w' Hrc Ho Hb _. wp_step; bool_hyps; [done|]. apply chan_wp_ret. split_and!; [by apply entry_step_same|done..].
  - intros l w' _ Hl Ho Hb. rewrite <- Hfd in *. cbn [Z.eqb]. change (GUEST_OK =? GUEST_OK) with true. cbv iota.
    assert (Hstep : entry_step [] e (pop e) w w').
    { eapply entry_step_sent; [done|done|done| |done|done|done|].
      - pose proof (en_wf _ _ He) as HH. rewrite Hp in HH. by inversion HH.
      - unfold queued. rewrite Hp. cbn. by rewrite app_nil_r. }
    eapply chan_wp_mono; [apply IH; [by destruct Hstep as (_ & ? & _)|cbn; lia]|].
    intros [rc e'] w'' (Hs & Hqr & Hst & Hok). split_and!; [|done..]. by apply (entry_step_trans [] [] _ (pop e) _ _ w').
Qed.
End Steps.

(** ** Sending *)

Section Sends.
Context (me : ucred).

Let stopped (w : world) : Prop := script w = [].

(** The copy that is queued makes the same datagram. *)
Lemma stored_dgram h p :
  wf_message h (Some p) -> dgram_of me h (Some (sub 0 (payload_length h) p)) = dgram_of me h (Some p)
  /\ wf_message h (Some (sub 0 (payload_length h) p)).
Proof.
  intros [H0 Hl]. unfold dgram_of, frame, wf_message. rewrite sub_prefix by lia. split; [done|]. rewrite len_sub; lia.
Qed.

Lemma stored_empty h p : wf_message h (Some p) -> payload_length h <= 0 -> dgram_of me h None = dgram_of me h (Some p).
Proof. intros [H0 _] Hl. unfold dgram_of, frame. by replace (payload_length h) with 0 by lia. Qed.

(** The entry after a message is stored, counted or not. *)
Lemma entry_step_push e w w' h copy (counted : bool) :
  entry_ok (outs w) e -> queue_count e < queue_capacity e -> wf_message h copy ->
  outs w' = outs w -> bad_closes w' = bad_closes w ->
  entry_step me (if counted then [dgram_of me h copy] else []) e
    (with_queue e (<[Z.to_nat ((queue_head e + queue_count e) mod queue_capacity e) := mk_qentry h copy]> (queue e))
       (queue_head e) (if counted then queue_count e + 1 else queue_count e)) w w'.
Proof.
  intros He Hn Hwf Ho Hb. unfold entry_step. rewrite Ho.
  destruct (ring_push zero_qentry _ _ _ _ (mk_qentry h copy) (en_ring _ _ He) Hn) as [Ep Rp].
  destruct (ring_write_tail zero_qentry _ _ _ _ (mk_qentry h copy) (en_ring _ _ He) Hn) as [Ew Rw].
  destruct He as [Hid Hfd Hop Hring Hq].
  split_and!; [done| |done|done|].
  - destruct counted; split; try done; unfold pending; cbn [queue queue_capacity queue_head queue_count with_queue].
    + rewrite Ep. apply Forall_app. split; [done|]. by apply list.Forall_singleton.
    + by rewrite Ew.
  - unfold accepts_more, accepted, guest_of, queued, pending. cbn [g_wire g_queued queue queue_capacity queue_head queue_count with_queue].
    split; [|done]. destruct counted.
    + rewrite Ep, map_app, app_assoc. done.
    + by rewrite Ew, app_nil_r.
Qed.

(** The counters of an entry that took a message, or not. *)
Definition counted (rc : Z) (e e' : route_entry) : Prop :=
  messages_sent (stats e') = (if rc =? GUEST_OK then u64 (messages_sent (stats e) + 1) else messages_sent (stats e)).

Definition send_result (h : frame_header) (payload : option bytes) (e : route_entry) (w : world) (x : Z * route_entry) (w' : world) : Prop :=
  let '(rc, e') := x in
  entry_step me (if rc =? GUEST_OK then [dgram_of me h payload] else []) e e' w w' /\ counted rc e e'
  /\ (quarantined e' = true -> quarantined e = true \/ rc = GUEST_ERR_CLOSED).

Lemma wp_enqueue policy e h payload w :
  entry_ok (outs w) e -> wf_message h payload ->
  wp (enqueue policy e h payload) stopped (send_result h payload e w) w.
Proof.
  intros He Hwf. unfold enqueue. wp_step; bool_hyps.
  - apply chan_wp_bind.
    assert (Hpush : forall copy ok w', wf_message h copy -> (ok = true -> dgram_of me h copy = dgram_of me h payload) ->
      outs w' = outs w -> bad_closes w' = bad_closes w ->
      let e' := with_queue e (<[Z.to_nat ((queue_head e + queue_count e) mod queue_capacity e) := mk_qentry h copy]> (queue e))
       (queue_head e) (if ok then queue_count e + 1 else queue_count e) in
      send_result h payload e w (if ok then (GUEST_OK, count_sent e') else (GUEST_ERR_NOMEM, e')) w').
    { intros copy ok w' Hc Hd Ho Hb e'. pose proof (entry_step_push e w w' h copy ok He Heqb Hc Ho Hb) as Hs. fold e' in Hs.
      destruct ok; cbn [send_result].
      - split_and!; [|done|by left]. change (GUEST_OK =? GUEST_OK) with true. cbv iota. rewrite <- Hd by done.
        eapply (entry_step_trans me [dgram_of me h copy] [] _ e' _ _ w'); [exact Hs|]. apply entry_step_mark; try done. apply Hs.
      - split_and!; [exact Hs|done|by left]. }
    unfold push. cbv zeta. destruct payload as [p|].
    + wp_step; bool_hyps.
      * apply chan_wp_bind, wp_alloc; [done|]. intros evs ok w' Hp. apply chan_wp_ret.
        destruct (stored_dgram h p Hwf) as [Ed Hwf'].
        destruct ok; apply chan_wp_ret.
        -- apply (Hpush (Some (sub 0 (payload_length h) p)) true); [done|done|by eapply passes_outs|by eapply passes_bad].
        -- apply (Hpush None false); [split; [apply Hwf|done]|done|by eapply passes_outs|by eapply passes_bad].
      * apply chan_wp_ret, chan_wp_ret. apply (Hpush None true); [split; [apply Hwf|done]|intros _; by apply stored_empty|done..].
    + apply chan_wp_ret, chan_wp_ret. apply (Hpush None true); done.
  - apply chan_wp_ret. unfold flood. destruct policy; cbn [send_result];
      (split_and!; [apply entry_step_mark; done|done|intros Hq; try (by right); by left]).
Qed.

Lemma wp_send_entry policy e h payload w :
  entry_ok (outs w) e -> wf_message h payload ->
  wp (send_entry me policy e h payload) stopped (fun '(rc, e') w' =>
    send_result h payload e w (rc, e') w'
    /\ (quarantined e = true -> rc = GUEST_ERR_CLOSED /\ e' = e /\ w' = w)) w.
Proof.
  intros He Hwf. unfold send_entry. wp_step.
  { apply chan_wp_ret. split; [|done]. split_and!; [by apply entry_step_same|done|by left]. }
  apply chan_wp_bind.
  enough (Hfl : wp (if queue_count e >? 0 then flush_entry_queue me e else ret (GUEST_OK, e)) stopped
    (fun '(_, e1) w1 => entry_step me [] e e1 w w1 /\ quarantined e1 = quarantined e /\ stats e1 = stats e) w).
  { eapply chan_wp_mono; [exact Hfl|]. intros [rc0 e1] w1 (Hs1 & Hq1 & Hst1). pose proof Hs1 as (Hp1 & He1 & _).
    assert (Hgo : forall x w', send_result h payload e1 w1 x w' -> let '(rc, e') := x in
              send_result h payload e w (rc, e') w' /\ (false = true -> rc = GUEST_ERR_CLOSED /\ e' = e /\ w' = w)).
    { intros [rc e'] w' (Hs & Hc & Hq). split; [|done]. split_and!.
      - by eapply (entry_step_trans me []).
      - unfold counted in *. by rewrite Hst1 in Hc.
      - by rewrite Hq1 in Hq. }
    wp_step; [|eapply chan_wp_mono; [by apply wp_enqueue|]; intros [rc e'] w'; exact (Hgo (rc, e') w')]. bool_hyps.
    destruct (entry_channel _ _ He1) as (ch & Hch & Hfd). apply chan_wp_bind. rewrite (send_message_eq me _ ch) by done.
    apply wp_send; [done..| |].
    - intros rc w' Hrc Ho Hb _. rewrite (proj2 (Z.eqb_neq rc GUEST_OK) Hrc).
      wp_step; bool_hyps.
      + apply chan_wp_ret. apply (Hgo (GUEST_ERR_CLOSED, quarantine e1)). split_and!; [apply entry_step_mark; done|done|by right].
      + wp_step; bool_hyps.
        * apply chan_wp_ret. apply (Hgo (rc, e1)). cbn [send_result]. unfold counted. rewrite (proj2 (Z.eqb_neq rc GUEST_OK) Hrc).
          split_and!; [by apply entry_step_same|done|by left].
        * eapply chan_wp_mono; [apply wp_enqueue; [by rewrite Ho|done]|]. intros [rc' e'] w'' (Hs & Hc & Hq). apply (Hgo (rc', e')).
          split_and!; [|done..]. eapply (entry_step_trans me [] _ _ e1 _ _ w'); [by apply entry_step_same|done].
    - intros l w' _ Hl Ho Hb. change (GUEST_OK =? GUEST_OK) with true. cbv iota. apply chan_wp_ret.
      apply (Hgo (GUEST_OK, count_sent e1)). split_and!; [|done|by left]. rewrite <- Hfd in *.
      pose proof (pending_nil e1 Heqb0) as Hnil.
      assert (Hpend : pending (count_sent e1) = pending e1) by done.
      eapply (entry_step_sent me e1 (count_sent e1) w1 w' l); [done|done|apply He1|rewrite Hpend; apply He1|done..|].
      unfold queued. rewrite Hpend, Hnil. done. }
  wp_step; bool_hyps; [|apply chan_wp_ret; split_and!; [by apply entry_step_same|done..]].
  eapply chan_wp_mono; [apply wp_flush_loop; [done|lia]|]. intros [rc e1] w1 (? & ? & ? & _). done.
Qed.
End Sends.

(** ** The table *)

Section Table.
Context (me : ucred).

Lemma find_index_insert p es i e e' :
  es !! i = Some e -> p e' = p e -> find_index p (<[i := e']> es) = find_index p es.
Proof.
  revert i. induction es as [|x es IH]; intros i Hi Hp; [done|]. destruct i as [|i]; cbn.
  - injection Hi as ->. by rewrite Hp.
  - by rewrite IH.
Qed.

Lemma count_active_insert es i e e' :
  es !! i = Some e ->
  count_active (<[i := e']> es) = count_active es - Z.b2z (active e) + Z.b2z (active e').
Proof.
  unfold count_active. revert i. induction es as [|x es IH]; intros i Hi; [done|]. destruct i as [|i].
  - injection Hi as ->. change (<[O := e']> (e :: es)) with (e' :: es). cbn [List.filter].
    destruct (active e), (active e'); cbn [Z.b2z]; rewrite ?len_cons; lia.
  - specialize (IH i Hi). change (<[S i := e']> (x :: es)) with (x :: <[i := e']> es). cbn [List.filter].
    destruct (active x); rewrite ?len_cons; lia.
Qed.

Lemma set_entry_none r i e : entries r !! i = None -> set_entry r i e = r.
Proof. intros H. unfold set_entry. rewrite list_insert_ge by (by apply lookup_ge_None). by destruct r. Qed.

(** The guest of an identifier is the one of the entry in use that has it. *)
Lemma guests_some m r i e :
  router_ok m r -> entries r !! i = Some e -> active e = true -> guests me m r (app_id e) = Some (guest_of me m e).
Proof.
  intros Hr Hi Ha. unfold guests. rewrite (find_index_unique _ _ i e Hi).
  - by rewrite (entry_at_lookup _ _ _ Hi).
  - by rewrite Ha, bytes_eqb_refl.
  - intros j e' Hj [Ha' Hid]%andb_true_iff. apply bytes_eqb_eq in Hid. by eapply (ro_ids _ _ Hr j i e' e).
Qed.

Lemma guests_inv m r id g :
  router_ok m r -> guests me m r id = Some g ->
  exists i e, entries r !! i = Some e /\ active e = true /\ app_id e = id /\ g = guest_of me m e.
Proof.
  intros Hr. unfold guests. destruct (find_index _ _) as [i|] eqn:E; [|done]. intros [= <-].
  apply find_index_some in E as (e & Hi & [Ha Hid]%andb_true_iff). apply bytes_eqb_eq in Hid. exists i, e.
  by rewrite (entry_at_lookup _ _ _ Hi).
Qed.

(** Entries and descriptors other than those of an entry are not touched. *)
Lemma guest_of_other m m' e : m' !! fd_of e = m !! fd_of e -> guest_of me m' e = guest_of me m e.
Proof. unfold guest_of. by intros ->. Qed.

(** An entry changes, in its place. *)
Lemma router_update m m' r i e e' :
  router_ok m r -> entries r !! i = Some e -> same_place e e' ->
  (if active e then entry_ok m' e' else free_entry e') ->
  (forall fd, (active e = true -> fd <> fd_of e) -> m' !! fd = m !! fd) ->
  router_ok m' (set_entry r i e')
  /\ forall id, guests me m' (set_entry r i e') id
       = if active e && bytes_eqb (app_id e) id then Some (guest_of me m' e') else guests me m r id.
Proof.
  intros Hr Hi Hsp He' Hm. pose proof (same_place_fd _ _ Hsp) as Hfd. pose proof Hsp as (Ha & Hid & _).
  assert (Hother : forall j x, entries r !! j = Some x -> active x = true -> j <> i -> m' !! fd_of x = m !! fd_of x).
  { intros j x Hj Hx Hne. apply Hm. intros Hae E. apply Hne. by eapply (ro_fds _ _ Hr j i x e). }
  assert (Hlook : forall j x, <[i := e']> (entries r) !! j = Some x -> exists y, entries r !! j = Some y /\ same_place y x
     /\ (if active x then entry_ok m' x else free_entry x)).
  { intros j x Hj. destruct (decide (j = i)) as [->|Hne].
    - rewrite list_lookup_insert_eq in Hj by (by eapply lookup_lt_Some). injection Hj as <-. exists e. rewrite Ha. done.
    - rewrite list_lookup_insert_ne in Hj by done. exists x. split_and!; [done|done|].
      pose proof (ro_entries _ _ Hr j x Hj) as Hx. destruct (active x) eqn:Hax; [|done]. destruct Hx as [? ? Hop ? ?].
      split; try done. by rewrite (Hother j x). }
  split.
  - destruct Hr as [Hsz Hd Hc Hes Hids Hfds]. split; cbn [entries config guest_count set_entry].
    + unfold len in *. by rewrite length_insert.
    + done.
    + rewrite (count_active_insert _ _ e) by done. rewrite Ha. lia.
    + intros j x Hj. by destruct (Hlook j x Hj) as (y & _ & _ & ?).
    + intros j k x y Hj Hk Hx Hy Hxy. destruct (Hlook j x Hj) as (x' & Hj' & (? & ? & ?) & _).
      destruct (Hlook k y Hk) as (y' & Hk' & (? & ? & ?) & _). eapply (Hids j k x' y'); congruence.
    + intros j k x y Hj Hk Hx Hy Hxy. destruct (Hlook j x Hj) as (x' & Hj' & Hsx & _).
      destruct (Hlook k y Hk) as (y' & Hk' & Hsy & _).
      rewrite (same_place_fd _ _ Hsx), (same_place_fd _ _ Hsy) in Hxy. destruct Hsx as (? & _), Hsy as (? & _).
      eapply (Hfds j k x' y'); congruence.
  - intros id. unfold guests at 1. cbn [entries set_entry]. rewrite (find_index_insert _ _ i e) by (done || by rewrite Ha, Hid).
    destruct (active e && bytes_eqb (app_id e) id) eqn:Hp.
    + rewrite (find_index_unique _ _ i e Hi Hp).
      * do 2 f_equal. unfold entry_at, set_entry. cbn [entries]. by rewrite list_lookup_insert_eq by (by eapply lookup_lt_Some).
      * intros j x Hj [Hax Hix]%andb_true_iff. apply andb_true_iff in Hp as [Hae Hie]. apply bytes_eqb_eq in Hix, Hie.
        eapply (ro_ids _ _ Hr j i x e); congruence.
    + unfold guests. destruct (find_index _ (entries r)) as [j|] eqn:E; [|done].
      apply find_index_some in E as (x & Hj & Hpx). destruct (decide (j = i)) as [->|Hne]; [congruence|].
      f_equal. unfold entry_at, set_entry. cbn [entries]. rewrite list_lookup_insert_ne, Hj by done. cbn.
      apply guest_of_other. apply andb_true_iff in Hpx as [Hax _]. by eapply Hother.
Qed.

(** A step of an entry in use, seen from the table. *)
Lemma router_step r i e e' new w w' :
  router_ok (outs w) r -> entries r !! i = Some e -> active e = true -> entry_step me new e e' w w' ->
  router_ok (outs w') (set_entry r i e')
  /\ (forall id, id <> app_id e -> guests me (outs w') (set_entry r i e') id = guests me (outs w) r id)
  /\ guests me (outs w') (set_entry r i e') (app_id e) = Some (guest_of me (outs w') e')
  /\ guests me (outs w) r (app_id e) = Some (guest_of me (outs w) e).
Proof.
  intros Hr Hi Ha (Hsp & He' & Hm & _ & _). destruct (router_update (outs w) (outs w') r i e e' Hr Hi Hsp) as [Hr' Hg].
  - by rewrite Ha.
  - intros fd Hfd. by apply Hm, Hfd.
  - split_and!; [done| | |by eapply guests_some].
    + intros id Hid. rewrite Hg, Ha. cbn [andb]. destruct (bytes_eqb (app_id e) id) eqn:E; [|done].
      by apply bytes_eqb_eq in E.
    + by rewrite Hg, Ha, bytes_eqb_refl.
Qed.

(** A mark on any entry changes no guest but for the mark. *)
Lemma router_mark m r i e e' :
  router_ok m r -> entries r !! i = Some e -> same_place e e' -> queue e' = queue e -> queue_capacity e' = queue_capacity e ->
  queue_head e' = queue_head e -> queue_count e' = queue_count e ->
  router_ok m (set_entry r i e')
  /\ forall id, guests me m (set_entry r i e') id
       = if active e && bytes_eqb (app_id e) id then Some (guest_of me m e') else guests me m r id.
Proof.
  intros Hr Hi Hsp Eq Ec Eh En. apply router_update; [done..| |done].
  pose proof (ro_entries _ _ Hr i e Hi) as He. pose proof (same_place_fd _ _ Hsp) as Hfd. destruct Hsp as (_ & Eid & Ech).
  destruct (active e).
  - destruct He as [? ? ? ? ?]. assert (Ep : pending e' = pending e) by (unfold pending; by rewrite Eq, Ec, Eh, En).
    split; rewrite ?Eid, ?Hfd, ?Eq, ?Ec, ?Eh, ?En, ?Ep; done.
  - destruct He as [? ?]. split; congruence.
Qed.

(** What an identifier leads to. *)
Lemma find_entry_spec m r id :
  router_ok m r ->
  match find_entry r id with
  | Some i => exists e, entries r !! i = Some e /\ active e = true /\ app_id e = id_of id /\ entry_ok m e /\ entry_at r i = e
  | None => guests me m r (id_of id) = None
  end.
Proof.
  intros Hr. rewrite (find_entry_guests m r id Hr). destruct (find_index _ _) as [i|] eqn:E.
  - apply find_index_some in E as (e & Hi & [Ha Hid]%andb_true_iff). apply bytes_eqb_eq in Hid. exists e.
    pose proof (ro_entries _ _ Hr i e Hi) as He. rewrite Ha in He. split_and!; try done. by apply entry_at_lookup.
  - unfold guests. by rewrite E.
Qed.
End Table.

(** ** Operations *)

Section Operations.
Context (me : ucred).

Let stopped (w : world) : Prop := script w = [].

Abbreviation view := (bytes -> option guest).

(** One guest changes by [P]; the others do not change. *)
Definition changes (a a' : view) (id : bytes) (P : guest -> guest -> Prop) : Prop :=
  (forall x, x <> id -> a' x = a x) /\ exists g g', a id = Some g /\ a' id = Some g' /\ P g g'.

Definition unchanged (a a' : view) : Prop := forall x, a' x = a x.

(** A guest is offered a message: it is accepted exactly when the answer is OK; a guest
    that is cut off takes nothing. *)
Definition offered (d : dgram) (rc : Z) (g g' : guest) : Prop :=
  accepts_more (if rc =? GUEST_OK then [d] else []) g g'
  /\ (g_dead g = true -> g' = g /\ rc = GUEST_ERR_CLOSED) /\ (g_dead g' = true -> g_dead g = true \/ rc = GUEST_ERR_CLOSED).

Definition sends (id : bytes) (d : dgram) (rc : Z) (a a' : view) : Prop :=
  (rc = GUEST_ERR_NOT_FOUND /\ a (id_of id) = None /\ unchanged a a') \/ changes a a' (id_of id) (offered d rc).

Definition flushes (id : bytes) (rc : Z) (a a' : view) : Prop :=
  (rc = GUEST_ERR_NOT_FOUND /\ a (id_of id) = None /\ unchanged a a')
  \/ changes a a' (id_of id) (fun g g' => accepts_more [] g g' /\ g_dead g' = g_dead g /\ (rc = GUEST_OK -> g_queued g' = [])).

(** Every guest that is not cut off is offered the message; the answer is OK if one of
    them accepted it. *)
Definition broadcasts (d : dgram) (rc : Z) (a a' : view) : Prop :=
  (rc = GUEST_OK \/ rc = GUEST_ERR_NOT_FOUND)
  /\ exists answer : bytes -> Z,
       (forall x, match a x with
                  | None => a' x = None
                  | Some g => exists g', a' x = Some g' /\ if g_dead g then g' = g else offered d (answer x) g g'
                  end)
       /\ (rc = GUEST_OK <-> exists x g, a x = Some g /\ g_dead g = false /\ answer x = GUEST_OK).

Definition unregisters (id : bytes) (rc : Z) (a a' : view) : Prop :=
  (rc = GUEST_ERR_NOT_FOUND /\ a (id_of id) = None /\ unchanged a a')
  \/ (rc = GUEST_OK /\ is_Some (a (id_of id)) /\ a' (id_of id) = None /\ forall x, x <> id_of id -> a' x = a x).

Definition registers (id : bytes) (rc : Z) (a a' : view) : Prop :=
  (rc <> GUEST_OK /\ unchanged a a')
  \/ (rc = GUEST_OK /\ a (id_of id) = None /\ a' (id_of id) = Some (mk_guest [] [] false) /\ forall x, x <> id_of id -> a' x = a x).

Lemma changes_impl a a' id (P Q : guest -> guest -> Prop) : (forall g g', P g g' -> Q g g') -> changes a a' id P -> changes a a' id Q.
Proof. intros H (Ho & g & g' & ? & ? & ?). split; [done|]. exists g, g'. auto. Qed.

(** The outcome of an operation on a well-formed router. *)
Definition outcome (P : Z -> view -> view -> Prop) (r : router) (w : world) (x : Z * router) (w' : world) : Prop :=
  let '(rc, r') := x in
  router_ok (outs w') r' /\ config r' = config r /\ bad_closes w' = bad_closes w
  /\ P rc (guests me (outs w) r) (guests me (outs w') r').

Lemma outcome_step (P : Z -> view -> view -> Prop) (R : guest -> guest -> Prop) r i e e' new rc w w' :
  router_ok (outs w) r -> entries r !! i = Some e -> active e = true -> entry_step me new e e' w w' ->
  R (guest_of me (outs w) e) (guest_of me (outs w') e') ->
  (forall a a', changes a a' (app_id e) R -> P rc a a') ->
  outcome P r w (rc, set_entry r i e') w'.
Proof.
  intros Hr Hi Ha Hs HR HP. destruct (router_step me r i e e' new w w' Hr Hi Ha Hs) as (Hr' & Ho & Hg' & Hg).
  unfold outcome. split_and!; [done|done|by destruct Hs as (_ & _ & _ & ? & _)|]. apply HP. split; [done|]. by do 2 eexists.
Qed.

Lemma outcome_none (P : Z -> view -> view -> Prop) r rc w :
  router_ok (outs w) r -> P rc (guests me (outs w) r) (guests me (outs w) r) -> outcome P r w (rc, r) w.
Proof. intros. unfold outcome. by split_and!. Qed.

(** A message that an entry is offered. *)
Lemma offered_result h payload e rc e' w w' :
  send_result me h payload e w (rc, e') w' -> (quarantined e = true -> rc = GUEST_ERR_CLOSED /\ e' = e /\ w' = w) ->
  offered (dgram_of me h payload) rc (guest_of me (outs w) e) (guest_of me (outs w') e').
Proof.
  intros (Hs & _ & Hq) Hd. split_and!; [by destruct Hs as (_ & _ & _ & _ & ?)| |exact Hq].
  intros Hg. destruct (Hd Hg) as (-> & -> & ->). done.
Qed.

Lemma wp_router_send r id h payload w :
  router_ok (outs w) r -> wf_message h payload ->
  wp (send me r id h payload) stopped (outcome (sends id (dgram_of me h payload)) r w) w.
Proof.
  intros Hr Hwf. unfold send. pose proof (find_entry_spec me (outs w) r id Hr) as Hf.
  destruct (find_entry r id) as [i|]; [|by apply chan_wp_ret, outcome_none; [|left]].
  destruct Hf as (e & Hi & Ha & Hid & He & ->). apply chan_wp_bind. eapply chan_wp_mono; [by apply wp_send_entry|].
  intros [rc e'] w' [Hs Hd]. apply chan_wp_ret. pose proof (offered_result _ _ _ _ _ _ _ Hs Hd) as Ho. destruct Hs as (Hs & _).
  eapply outcome_step; [done..|exact Ho|]. intros a a' Hc. right. by rewrite <- Hid.
Qed.

Lemma wp_router_flush r id w :
  router_ok (outs w) r -> wp (flush me r id) stopped (outcome (flushes id) r w) w.
Proof.
  intros Hr. unfold flush. pose proof (find_entry_spec me (outs w) r id Hr) as Hf.
  destruct (find_entry r id) as [i|]; [|by apply chan_wp_ret, outcome_none; [|left]].
  destruct Hf as (e & Hi & Ha & Hid & He & ->). apply chan_wp_bind.
  eapply chan_wp_mono; [apply wp_flush_loop; [done|pose proof (rg_count _ _ _ _ (en_ring _ _ He)); lia]|].
  intros [rc e'] w' (Hs & Hq & _ & Hok). apply chan_wp_ret.
  eapply (outcome_step _ (fun g g' => accepts_more [] g g' /\ g_dead g' = g_dead g /\ (rc = GUEST_OK -> g_queued g' = []))); [done..| |].
  - split_and!; [by destruct Hs as (_ & _ & _ & _ & ?)|done|]. intros E. cbn. unfold queued. by rewrite pending_nil by auto.
  - intros a a' Hc. right. by rewrite <- Hid.
Qed.

(** An entry that a broadcast addresses. *)
Definition addressed (e : route_entry) : bool := active e && negb (quarantined e).

(** The entries [i], [i + 1], ... take a message; [answer j] is what the entry [j] says. *)
Definition broadcast_result (n i : nat) (any : bool) (d : dgram) (r : router) (w : world) (x : bool * router) (w' : world) : Prop :=
  let '(sent, r') := x in
  router_ok (outs w') r' /\ config r' = config r /\ bad_closes w' = bad_closes w
  /\ exists answer : nat -> Z,
    (forall j e, entries r !! j = Some e -> exists e', entries r' !! j = Some e' /\ same_place e e'
       /\ (active e = true ->
             if addressed e && bool_decide (i <= j < i + n)%nat then offered d (answer j) (guest_of me (outs w) e) (guest_of me (outs w') e')
             else guest_of me (outs w') e' = guest_of me (outs w) e))
    /\ (sent = true <-> any = true \/ exists j e, entries r !! j = Some e /\ (i <= j < i + n)%nat /\ addressed e = true /\ answer j = GUEST_OK).

Lemma find_entry_self m r i e :
  router_ok m r -> entries r !! i = Some e -> active e = true -> find_entry r (app_id e) = Some i.
Proof.
  intros Hr Hi Ha. pose proof (ro_entries _ _ Hr i e Hi) as He. rewrite Ha in He. apply find_index_unique with e; [done| |].
  - rewrite Ha. cbn [andb]. unfold same_id. apply bytes_eqb_refl.
  - intros j x Hj [Hax Hs]%andb_true_iff. pose proof (ro_entries _ _ Hr j x Hj) as Hx. rewrite Hax in Hx.
    rewrite same_id_stored in Hs by apply (en_id _ _ Hx). apply bytes_eqb_eq in Hs.
    eapply (ro_ids _ _ Hr j i x e); try done. rewrite Hs.
    pose proof (same_id_stored (app_id e) (app_id e) (en_id _ _ He)) as E. unfold same_id in E at 1. rewrite bytes_eqb_refl in E.
    symmetry in E. by apply bytes_eqb_eq in E.
Qed.

(** A part that leaves everything as it is. *)
Lemma broadcast_skip n i any d r w :
  router_ok (outs w) r -> (forall e, entries r !! i = Some e -> n = O \/ addressed e = false) ->
  forall x w', broadcast_result (pred n) (S i) any d r w x w' -> broadcast_result n i any d r w x w'.
Proof.
  intros Hr Hno [sent r'] w' (Hr' & Hc & Hb & answer & Hj & Hs). unfold broadcast_result. split_and!; [done..|]. exists answer. split.
  - intros j e Hje. destruct (Hj j e Hje) as (e' & ? & ? & He'). exists e'. split_and!; [done..|]. intros Ha. specialize (He' Ha).
    destruct (addressed e) eqn:Had; [|done]. cbn [andb] in *.
    destruct (decide (j = i)) as [->|Hne].
    + rewrite bool_decide_false in He' by lia. destruct (Hno e Hje) as [->|?]; [|congruence]. by rewrite bool_decide_false by lia.
    + replace (bool_decide (i <= j < i + n)%nat) with (bool_decide (S i <= j < S i + pred n)%nat); [done|]. apply bool_decide_ext. lia.
  - rewrite Hs. split; (intros [?|(j & e & ? & ? & ? & ?)]; [by left|right; exists j, e; split_and!; try done; try lia]).
    destruct (decide (j = i)) as [->|]; [|lia]. destruct (Hno e) as [->|?]; [done|lia|congruence].
Qed.

Lemma broadcast_one n i any d r e e' rc w w1 new :
  router_ok (outs w) r -> entries r !! i = Some e -> addressed e = true -> entry_step me new e e' w w1 ->
  offered d rc (guest_of me (outs w) e) (guest_of me (outs w1) e') ->
  forall x w', broadcast_result n (S i) (any || (rc =? GUEST_OK)) d (set_entry r i e') w1 x w' ->
  broadcast_result (S n) i any d r w x w'.
Proof.
  intros Hr Hi Had Hs Ho [sent r'] w' (Hr' & Hc & Hb & answer & Hj & Hsent).
  pose proof Had as [Ha _]%andb_true_iff. pose proof Hs as (Hsp & _ & Hm & Hb1 & _).
  unfold broadcast_result. split_and!; [done|done|congruence|].
  exists (fun j => if decide (j = i) then rc else answer j).
  assert (Hlook : forall j, j <> i -> entries (set_entry r i e') !! j = entries r !! j).
  { intros j Hne. cbn. by rewrite list_lookup_insert_ne. }
  assert (Hi' : entries (set_entry r i e') !! i = Some e').
  { cbn. apply list_lookup_insert_eq. by eapply lookup_lt_Some. }
  split.
  - intros j x Hjx. destruct (decide (j = i)) as [->|Hne].
    + rewrite Hi in Hjx. injection Hjx as <-. destruct (Hj i e' Hi') as (e2 & ? & Hsp2 & He2). exists e2. split_and!; [done| |].
      * destruct Hsp as (? & ? & ?), Hsp2 as (? & ? & ?). unfold same_place. split_and!; congruence.
      * intros _. rewrite Had. cbn [andb]. rewrite bool_decide_true by lia. specialize (He2 ltac:(destruct Hsp; congruence)).
        rewrite bool_decide_false, andb_false_r in He2 by lia. by rewrite He2.
    + rewrite <- (Hlook j) in Hjx by done. destruct (Hj j x Hjx) as (e2 & ? & ? & He2). exists e2. split_and!; [done..|].
      intros Hax. specialize (He2 Hax). rewrite (Hlook j) in Hjx by done.
      rewrite (guest_of_other me (outs w) (outs w1) x) in He2
        by (apply Hm; intros E; apply Hne; by eapply (ro_fds _ _ Hr j i x e)).
      replace (bool_decide (i <= j < i + S n)%nat) with (bool_decide (S i <= j < S i + n)%nat); [done|]. apply bool_decide_ext. lia.
  - rewrite Hsent, orb_true_iff, Z.eqb_eq. split.
    + intros [[?|?]|(j & x & Hjx & ? & ? & ?)]; [by left| |].
      * right. exists i, e. rewrite decide_True by done. split_and!; try done; lia.
      * right. exists j, x. rewrite decide_False by lia. rewrite <- (Hlook j) by lia. split_and!; try done; lia.
    + intros [?|(j & x & Hjx & ? & ? & Hok)]; [by left; left|]. destruct (decide (j = i)) as [->|Hne]; [by left; right|].
      right. exists j, x. rewrite (Hlook j) by done. split_and!; try done; lia.
Qed.

Lemma wp_broadcast_from n i r any h payload w :
  router_ok (outs w) r -> wf_message h payload ->
  wp (broadcast_from me n i r any h payload) stopped (broadcast_result n i any (dgram_of me h payload) r w) w.
Proof.
  intros Hr Hwf. revert i r any w Hr. induction n as [|n IH]; intros i r any w Hr; cbn [broadcast_from].
  { apply chan_wp_ret. unfold broadcast_result. split_and!; [done..|]. exists (fun _ => 0). split.
    - intros j e Hj. exists e. split_and!; [done..|]. intros _. by rewrite bool_decide_false, andb_false_r by lia.
    - split; [by left|]. intros [?|(j & e & _ & ? & _)]; [done|lia]. }
  cbv zeta. unfold entry_at at 1 2. destruct (entries r !! i) as [e|] eqn:Hi; cbn [default].
  - cbn [from_option id]. fold (addressed e). destruct (addressed e) eqn:Had.
    + pose proof Had as [Ha Hq]%andb_true_iff. unfold send. unfold entry_at at 1. rewrite Hi. cbn [default from_option id].
      rewrite (find_entry_self _ _ _ _ Hr Hi Ha). rewrite (entry_at_lookup _ _ _ Hi).
      pose proof (ro_entries _ _ Hr i e Hi) as He. rewrite Ha in He.
      apply chan_wp_bind, chan_wp_bind. eapply chan_wp_mono; [by apply wp_send_entry|]. intros [rc e'] w1 [Hs Hd]. apply chan_wp_ret.
      pose proof (offered_result _ _ _ _ _ _ _ Hs Hd) as Ho. destruct Hs as (Hs & _).
      destruct (router_step me r i e e' _ w w1 Hr Hi Ha Hs) as (Hr1 & _).
      eapply chan_wp_mono; [by apply IH|]. intros x w'. by eapply broadcast_one.
    + eapply chan_wp_mono; [by apply IH|]. intros x w'. apply (broadcast_skip (S n)); [done|]. intros e0 He0. right. congruence.
  - cbn. eapply chan_wp_mono; [by apply IH|]. intros x w'. apply (broadcast_skip (S n)); [done|]. intros e0 He0. congruence.
Qed.

Lemma wp_router_broadcast r h payload w :
  router_ok (outs w) r -> wf_message h payload ->
  wp (broadcast me r h payload) stopped (outcome (broadcasts (dgram_of me h payload)) r w) w.
Proof.
  intros Hr Hwf. apply chan_wp_bind. eapply chan_wp_mono; [by apply wp_broadcast_from|].
  intros [sent r'] w' (Hr' & Hc & Hb & answer & Hj & Hsent). apply chan_wp_ret. unfold outcome. split_and!; [done..|].
  assert (Hall : forall j e, entries r !! j = Some e -> (0 <= j < 0 + Z.to_nat (max_guests (config r)))%nat).
  { intros j e He. apply lookup_lt_Some in He. pose proof (ro_size _ _ Hr). unfold len in *. lia. }
  split; [destruct sent; [by left|by right]|].
  exists (fun x => match find_index (fun e => active e && bytes_eqb (app_id e) x) (entries r) with Some j => answer j | None => 0 end).
  assert (Hfind : forall j e, entries r !! j = Some e -> active e = true ->
            find_index (fun x => active x && bytes_eqb (app_id x) (app_id e)) (entries r) = Some j).
  { intros j e He Ha. apply find_index_unique with e; [done|by rewrite Ha, bytes_eqb_refl|].
    intros k y Hk [Hay Hy]%andb_true_iff. apply bytes_eqb_eq in Hy. by eapply (ro_ids _ _ Hr k j y e). }
  split.
  - intros x. destruct (guests me (outs w) r x) as [g|] eqn:Hg.
    + apply guests_inv in Hg as (j & e & He & Ha & <- & ->); [|done]. destruct (Hj j e He) as (e' & He' & Hsp & Hoff).
      specialize (Hoff Ha). exists (guest_of me (outs w') e'). split.
      * destruct Hsp as (Ha' & <- & _). apply (guests_some me _ _ j); [done|done|congruence].
      * rewrite (Hfind j e He Ha). cbn [g_dead guest_of]. unfold addressed in Hoff. rewrite Ha in Hoff.
        rewrite (bool_decide_true _ (Hall j e He)), andb_true_r in Hoff. cbn [andb] in Hoff. by destruct (quarantined e).
    + destruct (guests me (outs w') r' x) as [g|] eqn:Hg'; [|done]. apply guests_inv in Hg' as (j & e' & He' & Ha' & <- & _); [|done].
      assert (Hlen : (j < length (entries r))%nat).
      { apply lookup_lt_Some in He'. pose proof (ro_size _ _ Hr) as E1. pose proof (ro_size _ _ Hr') as E2. rewrite Hc, <- E1 in E2. unfold len in E2. lia. }
      apply lookup_lt_is_Some in Hlen as [e He]. destruct (Hj j e He) as (e2 & He2 & (Hs1 & Hs2 & _) & _).
      rewrite He' in He2. injection He2 as <-. rewrite Hs2, (guests_some me (outs w) r j e) in Hg; congruence.
  - transitivity (sent = true); [by destruct sent|]. rewrite Hsent. split.
    + intros [?|(j & e & He & _ & [Ha Hq]%andb_true_iff & Hok)]; [done|]. apply negb_true_iff in Hq.
      exists (app_id e), (guest_of me (outs w) e). rewrite (Hfind j e He Ha). split_and!; [by eapply guests_some|done|done].
    + intros (x & g & Hg & Hd & Hok). right. apply guests_inv in Hg as (j & e & He & Ha & <- & ->); [|done].
      rewrite (Hfind j e He Ha) in Hok. exists j, e. split_and!; try done; [by eapply Hall..|]. unfold addressed. rewrite Ha. cbn in Hd. by rewrite Hd.
Qed.
End Operations.

(** ** Guests come and go *)

Section Registration.
Context (me : ucred).

Let stopped (w : world) : Prop := script w = [].

(** An entry is cleared, and its descriptor closed. *)
Lemma router_remove m r i e :
  router_ok m r -> entries r !! i = Some e -> active e = true ->
  let r' := mk_router (config r) (<[i := zero_entry]> (entries r)) (guest_count r - 1) in
  router_ok (delete (fd_of e) m) r' /\ guests me (delete (fd_of e) m) r' (app_id e) = None
  /\ forall id, id <> app_id e -> guests me (delete (fd_of e) m) r' id = guests me m r id.
Proof.
  intros Hr Hi Ha r'.
  assert (Hlook : forall j x, entries r' !! j = Some x -> active x = true -> j <> i /\ entries r !! j = Some x).
  { intros j x Hj Hx. cbn in Hj. destruct (decide (j = i)) as [->|Hne]; [|by rewrite list_lookup_insert_ne in Hj].
    rewrite list_lookup_insert_eq in Hj by (by eapply lookup_lt_Some). injection Hj as <-. done. }
  assert (Hfd : forall j x, entries r' !! j = Some x -> active x = true -> fd_of x <> fd_of e).
  { intros j x Hj Hx E. destruct (Hlook j x Hj Hx) as [Hne Hj']. apply Hne. by eapply (ro_fds _ _ Hr j i x e). }
  split_and!.
  - destruct Hr as [Hsz Hd Hc Hes Hids Hfds]. split; cbn [config guest_count r'].
    + unfold len in *. cbn. by rewrite length_insert.
    + done.
    + cbn [entries r']. rewrite (count_active_insert _ _ e) by done. rewrite Ha. cbn. lia.
    + intros j x Hj. destruct (active x) eqn:Hx.
      * destruct (Hlook j x Hj Hx) as [Hne Hj']. specialize (Hes j x Hj'). rewrite Hx in Hes. destruct Hes. split; try done.
        rewrite lookup_delete_ne; [done|]. intros E. by apply (Hfd j x Hj Hx).
      * cbn in Hj. destruct (decide (j = i)) as [->|Hne].
        -- rewrite list_lookup_insert_eq in Hj by (by eapply lookup_lt_Some). by injection Hj as <-.
        -- rewrite list_lookup_insert_ne in Hj by done. specialize (Hes j x Hj). by rewrite Hx in Hes.
    + intros j k x y Hj Hk Hx Hy. destruct (Hlook j x Hj Hx), (Hlook k y Hk Hy). by eapply Hids.
    + intros j k x y Hj Hk Hx Hy. destruct (Hlook j x Hj Hx), (Hlook k y Hk Hy). by eapply Hfds.
  - unfold guests. destruct (find_index _ _) as [j|] eqn:E; [|done]. apply find_index_some in E as (x & Hj & [Hx Hid]%andb_true_iff).
    destruct (Hlook j x Hj Hx) as [Hne Hj']. apply bytes_eqb_eq in Hid. exfalso. apply Hne. by eapply (ro_ids _ _ Hr j i x e).
  - intros id Hid. unfold guests. cbn [entries r']. rewrite (find_index_insert _ _ i e).
    + destruct (find_index _ (entries r)) as [j|] eqn:E; [|done]. apply find_index_some in E as (x & Hj & [Hx Hidx]%andb_true_iff).
      apply bytes_eqb_eq in Hidx. assert (Hne : j <> i) by (intros ->; congruence).
      assert (Hj' : entries r' !! j = Some x) by (cbn; by rewrite list_lookup_insert_ne).
      rewrite (entry_at_lookup _ _ _ Hj), (entry_at_lookup _ _ _ Hj'). f_equal. apply guest_of_other.
      apply lookup_delete_ne. intros E. by apply (Hfd j x Hj' Hx).
    + done.
    + rewrite Ha. cbn. symmetry. apply bytes_eqb_neq. congruence.
Qed.

(** A free entry becomes that of a new guest. *)
Lemma router_add m m' r i x e :
  router_ok m r -> entries r !! i = Some x -> active x = false -> active e = true -> entry_ok m' e ->
  guests me m r (app_id e) = None ->
  (forall j y, entries r !! j = Some y -> active y = true -> fd_of y <> fd_of e /\ m' !! fd_of y = m !! fd_of y) ->
  let r' := mk_router (config r) (<[i := e]> (entries r)) (guest_count r + 1) in
  router_ok m' r' /\ guests me m' r' (app_id e) = Some (guest_of me m' e)
  /\ forall id, id <> app_id e -> guests me m' r' id = guests me m r id.
Proof.
  intros Hr Hi Hx Ha He Hnone Hoth r'.
  assert (Hi' : entries r' !! i = Some e) by (cbn; apply list_lookup_insert_eq; by eapply lookup_lt_Some).
  assert (Hlook : forall j y, entries r' !! j = Some y -> active y = true -> (j = i /\ y = e) \/ (j <> i /\ entries r !! j = Some y)).
  { intros j y Hj Hy. destruct (decide (j = i)) as [->|Hne]; [left; split; congruence|right]. cbn in Hj. by rewrite list_lookup_insert_ne in Hj. }
  assert (Hid : forall j y, entries r !! j = Some y -> active y = true -> app_id y <> app_id e).
  { intros j y Hj Hy E. rewrite <- E, (guests_some me _ _ j y) in Hnone by done. done. }
  assert (Hr' : router_ok m' r').
  { destruct Hr as [Hsz Hd Hc Hes Hids Hfds]. split; cbn [config guest_count r'].
    - unfold len in *. cbn. by rewrite length_insert.
    - done.
    - cbn [entries r']. rewrite (count_active_insert _ _ x) by done. rewrite Ha, Hx. cbn. lia.
    - intros j y Hj. destruct (active y) eqn:Hy.
      + destruct (Hlook j y Hj Hy) as [[-> ->]|[Hne Hj']]; [done|]. specialize (Hes j y Hj'). rewrite Hy in Hes. destruct Hes.
        split; try done. by destruct (Hoth j y Hj' Hy) as [_ ->].
      + destruct (decide (j = i)) as [->|Hne]; [congruence|]. cbn in Hj. rewrite list_lookup_insert_ne in Hj by done.
        specialize (Hes j y Hj). by rewrite Hy in Hes.
    - intros j k y z Hj Hk Hy Hz E. destruct (Hlook j y Hj Hy) as [[-> ->]|[? Hj']], (Hlook k z Hk Hz) as [[-> ->]|[? Hk']]; [done| | |by eapply Hids].
      + by destruct (Hid k z Hk' Hz).
      + by destruct (Hid j y Hj' Hy).
    - intros j k y z Hj Hk Hy Hz E. destruct (Hlook j y Hj Hy) as [[-> ->]|[? Hj']], (Hlook k z Hk Hz) as [[-> ->]|[? Hk']]; [done| | |by eapply Hfds].
      + by destruct (Hoth k z Hk' Hz) as [[] _].
      + by destruct (Hoth j y Hj' Hy) as [[] _]. }
  split_and!; [done|by eapply guests_some|]. intros id Hne.
  unfold guests. cbn [entries r']. rewrite (find_index_insert _ _ i x).
  - destruct (find_index _ (entries r)) as [j|] eqn:E; [|done]. apply find_index_some in E as (y & Hj & [Hy Hidy]%andb_true_iff).
    assert (Hji : j <> i) by (intros ->; congruence).
    assert (Hj' : entries r' !! j = Some y) by (cbn; by rewrite list_lookup_insert_ne).
    rewrite (entry_at_lookup _ _ _ Hj), (entry_at_lookup _ _ _ Hj'). f_equal. by apply guest_of_other, (Hoth j).
  - done.
  - rewrite Ha, Hx. cbn. apply bytes_eqb_neq. congruence.
Qed.

Lemma wp_router_unregister r id w :
  router_ok (outs w) r -> wp (unregister r id) stopped (outcome me (unregisters id) r w) w.
Proof.
  intros Hr. unfold unregister. pose proof (find_entry_spec me (outs w) r id Hr) as Hf.
  destruct (find_entry r id) as [i|]; [|by apply chan_wp_ret, outcome_none; [|left]].
  destruct Hf as (e & Hi & Ha & Hid & He & ->). destruct (entry_channel _ _ He) as (ch & Hch & Hfd).
  destruct (router_remove (outs w) r i e Hr Hi Ha) as (Hr' & Hg & Ho).
  assert (Hc : (guest_count r >? 0) = true).
  { rewrite (ro_count _ _ Hr), Z.gtb_ltb. apply Z.ltb_lt. unfold count_active.
    assert (Hin : e ∈ List.filter active (entries r)) by (apply list_elem_of_In, filter_In; split; [apply list_elem_of_In; by eapply list_elem_of_lookup_2|done]).
    destruct (List.filter active (entries r)); [by apply not_elem_of_nil in Hin|]. rewrite len_cons. pose proof (len_nonneg l). lia. }
  apply chan_wp_bind. rewrite Hch. cbn [ar_guest_channel_close]. pose proof (en_fd _ _ He). rewrite Hfd in *.
  replace (ch_fd ch >=? 0) with true by lia. apply wp_close; [|rewrite <- Hfd; apply (en_open _ _ He)].
  intros w' Hw Hb. apply chan_wp_ret. cbn [config entries guest_count set_entry]. rewrite Hc. unfold outcome. rewrite Hw.
  split_and!; [done..|]. right. rewrite <- Hid. split_and!; [done| |done|done]. rewrite (guests_some me _ _ i e) by done. by eexists.
Qed.

(** Descriptors that no guest has do not matter. *)
Lemma router_frame m m' r :
  router_ok m r -> (forall i e, entries r !! i = Some e -> active e = true -> m' !! fd_of e = m !! fd_of e) ->
  router_ok m' r /\ forall id, guests me m' r id = guests me m r id.
Proof.
  intros Hr Hm. split.
  - destruct Hr as [Hsz Hd Hc Hes Hids Hfds]. split; try done. intros i e Hi. specialize (Hes i e Hi). destruct (active e) eqn:Ha; [|done].
    destruct Hes. split; try done. by rewrite (Hm i e).
  - intros id. unfold guests. destruct (find_index _ _) as [i|] eqn:E; [|done]. apply find_index_some in E as (e & Hi & [Ha _]%andb_true_iff).
    rewrite (entry_at_lookup _ _ _ Hi). f_equal. by apply guest_of_other, (Hm i).
Qed.

(** An entry that is not in use is cleared. *)
Lemma router_clear m r i x :
  router_ok m r -> entries r !! i = Some x -> active x = false ->
  router_ok m (set_entry r i zero_entry) /\ forall id, guests me m (set_entry r i zero_entry) id = guests me m r id.
Proof.
  intros Hr Hi Hx.
  assert (Hlook : forall j y, <[i := zero_entry]> (entries r) !! j = Some y -> active y = true -> entries r !! j = Some y /\ j <> i).
  { intros j y Hj Hy. destruct (decide (j = i)) as [->|Hne]; [|by rewrite list_lookup_insert_ne in Hj].
    rewrite list_lookup_insert_eq in Hj by (by eapply lookup_lt_Some). by injection Hj as <-. }
  split.
  - destruct Hr as [Hsz Hd Hc Hes Hids Hfds]. split; cbn [entries config guest_count set_entry].
    + unfold len in *. by rewrite length_insert.
    + done.
    + rewrite (count_active_insert _ _ x) by done. rewrite Hx. cbn. lia.
    + intros j y Hj. destruct (active y) eqn:Hy.
      * destruct (Hlook j y Hj Hy) as [Hj' _]. specialize (Hes j y Hj'). by rewrite Hy in Hes.
      * destruct (decide (j = i)) as [->|Hne].
        -- rewrite list_lookup_insert_eq in Hj by (by eapply lookup_lt_Some). by injection Hj as <-.
        -- rewrite list_lookup_insert_ne in Hj by done. specialize (Hes j y Hj). by rewrite Hy in Hes.
    + intros j k y z Hj Hk Hy Hz. destruct (Hlook j y Hj Hy), (Hlook k z Hk Hz). by eapply Hids.
    + intros j k y z Hj Hk Hy Hz. destruct (Hlook j y Hj Hy), (Hlook k z Hk Hz). by eapply Hfds.
  - intros id. unfold guests. cbn [entries set_entry]. rewrite (find_index_insert _ _ i x) by (done || by rewrite Hx).
    destruct (find_index _ (entries r)) as [j|] eqn:E; [|done]. apply find_index_some in E as (y & Hj & [Hy _]%andb_true_iff).
    assert (Hji : j <> i) by (intros ->; congruence). rewrite (entry_at_lookup _ _ _ Hj). unfold entry_at, set_entry. cbn [entries].
    by rewrite list_lookup_insert_ne, Hj.
Qed.

(** An attached channel is that of the descriptor. *)
Lemma wp_channel_attach fd cfg w :
  wp (ar_guest_channel_attach fd (Some cfg) true) stopped (fun '(rc, ch) w' =>
    outs w' = outs w /\ bad_closes w' = bad_closes w
    /\ match ch with Some ch => rc = GUEST_OK /\ ch_fd ch = fd | None => rc <> GUEST_OK end) w.
Proof.
  unfold ar_guest_channel_attach. wp_step; [by apply chan_wp_ret|]. wp_step; [by apply chan_wp_ret|].
  apply chan_wp_bind, wp_call; [done|]. intros evs a w1 H1. pose proof (passes_outs _ _ _ H1) as Ho. pose proof (passes_bad _ _ _ H1) as Hb.
  apply chan_wp_bind, wp_on_sock; [intros e; by apply chan_wp_ret|]. intros s Hs. cbn [fst snd]. rewrite insert_id by done.
  replace (mk_world (socks w1) (bad_closes w1) (script w1)) with w1 by (by destruct w1).
  wp_step; [by apply chan_wp_ret|]. apply chan_wp_bind, wp_alloc; [done|]. intros evs2 b w2 H2.
  pose proof (passes_outs _ _ _ H2) as Ho2. pose proof (passes_bad _ _ _ H2) as Hb2.
  wp_step; [apply chan_wp_ret; split_and!; congruence || done|]. apply chan_wp_bind, wp_alloc; [done|]. intros evs3 b3 w3 H3.
  pose proof (passes_outs _ _ _ H3) as Ho3. pose proof (passes_bad _ _ _ H3) as Hb3.
  wp_step; apply chan_wp_ret; split_and!; congruence || done.
Qed.

(** An identifier that can be registered is stored as it is. *)
Lemma register_id r id :
  register_status r id = GUEST_OK ->
  id_ok (id_of id) /\ sub 0 (APP_ID_MAX_LEN - 1) (cstr id) = id_of id /\ find_entry r id = None.
Proof.
  unfold register_status. intros H. destruct (at_ id 0 =? 0) eqn:H0; [done|]. destruct (len (cstr id) >=? APP_ID_MAX_LEN) eqn:Hl; [done|].
  destruct (find_entry r id); [done|]. bool_hyps. unfold APP_ID_MAX_LEN in *.
  assert (Hid : forall n, 63 <= n -> sub 0 n (cstr id) = cstr id).
  { intros n Hn. unfold sub. apply take_ge. unfold len in Hl. cbn [drop Z.to_nat]. lia. }
  unfold id_of. rewrite !Hid by (unfold APP_ID_MAX_LEN; lia). split_and!; [|done|done]. split; [apply cstr_no_nul|].
  split; [|unfold APP_ID_MAX_LEN; lia]. destruct id as [|c id]; [done|]. change (at_ (c :: id) 0) with c in H0. cbn [cstr].
  rewrite (proj2 (Z.eqb_neq c 0) H0), len_cons. pose proof (len_nonneg (cstr id)). lia.
Qed.

Lemma new_entry_ok m r id ch policy :
  router_ok m r -> register_status r id = GUEST_OK -> 0 <= ch_fd ch -> m !! ch_fd ch = Some [] ->
  entry_ok m (new_entry r id ch policy) /\ app_id (new_entry r id ch policy) = id_of id
  /\ guest_of me m (new_entry r id ch policy) = mk_guest [] [] false.
Proof.
  intros Hr Hs Hfd Hm. destruct (register_id r id Hs) as (Hid & Hsub & _). pose proof (ro_depth _ _ Hr).
  unfold new_entry. rewrite Hsub. split_and!; [|done|].
  - split; [done|done|by eexists| |by unfold pending].
    cbn [queue queue_capacity queue_head queue_count]. split; try lia. unfold len. rewrite length_replicate. lia.
  - unfold guest_of, fd_of. cbn [e_channel ar_guest_channel_fd]. by rewrite Hm.
Qed.

(** Attaching a descriptor that no guest has. *)
Lemma wp_attach r id host policy w :
  router_ok (outs w) r -> 0 <= host -> outs w !! host = Some [] ->
  (forall i e, entries r !! i = Some e -> active e = true -> fd_of e <> host) ->
  wp (attach r id host policy) stopped (fun '(rc, r') w' =>
    config r' = config r /\ bad_closes w' = bad_closes w
    /\ registers id rc (guests me (outs w) r) (guests me (outs w) r')
    /\ router_ok (outs w) r'
    /\ (outs w' = outs w \/ rc <> GUEST_OK /\ outs w' = delete host (outs w))
    /\ (rc <> GUEST_OK -> forall i e, entries r' !! i = Some e -> active e = true -> entries r !! i = Some e)) w.
Proof.
  intros Hr Hh Hm Hfree. unfold attach. wp_step; bool_hyps; [apply chan_wp_ret; split_and!; by auto; by left|].
  apply chan_wp_bind. eapply chan_wp_mono; [apply wp_channel_attach|]. intros [rc [ch|]] w1 (Ho & Hb & Hch).
  2: { apply chan_wp_ret. split_and!; [done|done|by left|done|by left|done]. }
  destruct Hch as [-> Hfd]. destruct (find_index _ (entries r)) as [i|] eqn:Hfi.
  2: { apply chan_wp_bind. cbn [ar_guest_channel_close]. rewrite Hfd. replace (host >=? 0) with true by lia.
       apply wp_close; [|rewrite Ho, Hm; by eexists]. intros w2 Ho2 Hb2. apply chan_wp_ret.
       split_and!; [done|congruence|by left|done|right; split; [done|congruence]|done]. }
  apply find_index_some in Hfi as (x & Hi & Hx%negb_true_iff).
  apply chan_wp_bind, wp_alloc; [done|]. intros evs ok w2 H2. pose proof (passes_outs _ _ _ H2) as Ho2. pose proof (passes_bad _ _ _ H2) as Hb2.
  wp_step; bool_hyps.
  - apply chan_wp_bind. cbn [ar_guest_channel_close]. rewrite Hfd. replace (host >=? 0) with true by lia.
    apply wp_close; [|rewrite Ho2, Ho, Hm; by eexists]. intros w3 Ho3 Hb3. apply chan_wp_ret.
    destruct (router_clear (outs w) r i x Hr Hi Hx) as [Hr' Hg].
    split_and!; [done|congruence|left; by split|done|right; split; [done|congruence]|].
    intros _ j y Hj Hy. cbn in Hj. destruct (decide (j = i)) as [->|Hne].
    + rewrite list_lookup_insert_eq in Hj by (by eapply lookup_lt_Some). by injection Hj as <-.
    + by rewrite list_lookup_insert_ne in Hj by done.
  - apply chan_wp_ret. rewrite <- Hfd in Hh, Hm, Hfree.
    destruct (new_entry_ok (outs w) r id ch policy Hr Heqb Hh Hm) as (He & Hid & Hg).
    destruct (register_id r id Heqb) as (_ & _ & Hnone).
    pose proof (find_entry_spec me (outs w) r id Hr) as Hf. rewrite Hnone in Hf.
    destruct (router_add (outs w) (outs w) r i x (new_entry r id ch policy) Hr Hi Hx eq_refl He) as (Hr' & Hnew & Hoth).
    + by rewrite Hid.
    + intros j y Hj Hy. split; [|done]. by eapply Hfree.
    + split_and!; [done|congruence| |done|left; congruence|done]. right. rewrite Hid in Hnew, Hoth. split_and!; [done|done|by rewrite Hnew, Hg|done].
Qed.

(** A pair of descriptors that were not open, with a guest at one end. *)
Definition registered (r : router) (id : bytes) (w : world) (x : Z * option Z * router) (w' : world) : Prop :=
  let '(rc, fd, r') := x in
  router_ok (outs w') r' /\ config r' = config r
  /\ registers id rc (guests me (outs w) r) (guests me (outs w') r')
  /\ (rc = GUEST_OK -> bad_closes w' = bad_closes w /\ exists g, fd = Some g /\ outs w !! g = None /\ outs w' !! g = Some [])
  /\ (rc <> GUEST_OK -> fd = None /\ outs w' = outs w
       /\ (bad_closes w' = bad_closes w \/ exists host, bad_closes w' = bad_closes w ++ [host] /\ outs w !! host = None)).

Lemma wp_register r id policy w : router_ok (outs w) r -> wp (register me r id policy) stopped (registered r id w) w.
Proof.
  intros Hr. unfold register. wp_step; bool_hyps.
  { apply chan_wp_ret. unfold registered. split_and!; [done|done|by left|done|]. intros _. split_and!; [done|done|by left]. }
  apply chan_wp_bind.
  enough (Hpair : wp (ar_guest_channel_socketpair true me) stopped (fun '(rc, sv) w1 => bad_closes w1 = bad_closes w /\
    match sv with
    | None => rc <> GUEST_OK /\ outs w1 = outs w
    | Some (a, b) => 0 <= a /\ a <> b /\ outs w !! a = None /\ outs w !! b = None /\ outs w1 = <[a := []]> (<[b := []]> (outs w))
    end) w).
  { eapply chan_wp_mono; [exact Hpair|]. intros [rc [[a b]|]] w1 [Hb1 Hsv].
    2: { destruct Hsv as [Hrc Ho1]. apply chan_wp_ret. unfold registered. rewrite Ho1. split_and!; [done|done|by left|done|]. intros _. split_and!; [done|done|by left]. }
    destruct Hsv as (Ha0 & Hab & Ha & Hbn & Ho1).
    assert (Hne : forall i e, entries r !! i = Some e -> active e = true -> fd_of e <> a /\ fd_of e <> b).
    { intros i e Hi He. pose proof (ro_entries _ _ Hr i e Hi) as Hok. rewrite He in Hok. destruct (en_open _ _ Hok) as [l Hl].
      split; intros E; congruence. }
    destruct (router_frame (outs w) (outs w1) r Hr) as [Hr1 Hg1].
    { intros i e Hi He. destruct (Hne i e Hi He). by rewrite Ho1, !lookup_insert_ne by done. }
    assert (Hm : outs w1 !! a = Some []) by (by rewrite Ho1, lookup_insert_eq).
    apply chan_wp_bind. eapply chan_wp_mono; [apply (wp_attach r id a policy w1 Hr1 Ha0 Hm); intros i e Hi He; by apply (Hne i e)|].
    intros [rc' r'] w2 (Hc & Hb2 & Hreg & Hr' & Ho2 & Hfree).
    assert (Hreg' : registers id rc' (guests me (outs w) r) (guests me (outs w1) r')).
    { destruct Hreg as [[? H1]|(? & H1 & H2 & H3)]; [left; split; [done|]; intros x; by rewrite H1, Hg1|].
      right. split_and!; [done|by rewrite <- Hg1|done|]. intros x Hx. by rewrite H3, Hg1. }
    wp_step; bool_hyps.
    - apply chan_wp_bind.
      assert (Hlook : outs w2 !! b = Some []).
      { destruct Ho2 as [->|[_ ->]]; rewrite ?lookup_delete_ne by done; by rewrite Ho1, lookup_insert_ne, lookup_insert_eq by done. }
      assert (Hend : forall w3, outs w3 = delete a (outs w2) -> wp (close b) stopped (fun _ w4 => outs w4 = outs w /\ bad_closes w4 = bad_closes w3) w3).
      { intros w3 Ho3. apply wp_close; [|rewrite Ho3, lookup_delete_ne, Hlook by done; by eexists].
        intros w4 Ho4 Hb4. split; [|done]. rewrite Ho4, Ho3. apply map_eq. intros x. rewrite !lookup_delete.
        repeat case_decide; subst; try done. destruct Ho2 as [->|[_ ->]]; rewrite ?lookup_delete_ne by done; by rewrite Ho1, !lookup_insert_ne by done. }
      assert (Hgo : forall w4, outs w4 = outs w -> (bad_closes w4 = bad_closes w \/ bad_closes w4 = bad_closes w ++ [a]) ->
        registered r id w (rc', None, r') w4).
      { intros w4 Ho4 Hb4. destruct (router_frame (outs w1) (outs w4) r' Hr') as [Hr4 Hg4].
        { intros i e Hi He. destruct (Hne i e) as [? ?]; [by eapply Hfree|done|]. by rewrite Ho4, Ho1, !lookup_insert_ne by done. }
        unfold registered. split_and!; [done|congruence| |done|].
        - destruct Hreg' as [[? H1]|[? _]]; [|done]. left. split; [done|]. intros x. by rewrite Hg4, H1.
        - intros _. split_and!; [done|done|]. destruct Hb4 as [?|?]; [by left|right]. by exists a. }
      destruct Ho2 as [Ho2|[_ Ho2]].
      + apply wp_close; [|rewrite Ho2, Hm; by eexists]. intros w3 Ho3 Hb3. apply chan_wp_bind.
        eapply chan_wp_mono; [apply Hend; congruence|]. intros _ w4 [Ho4 Hb4]. apply chan_wp_ret, Hgo; [done|left; congruence].
      + assert (Hcl : socks w2 !! a = None).
        { destruct (socks w2 !! a) as [k|] eqn:E; [|done]. assert (Hk : outs w2 !! a = Some (outgoing k)) by (apply outs_open; by exists k).
          rewrite Ho2, lookup_delete_eq in Hk. done. }
        unfold wp at 1, close. rewrite Hcl. apply chan_wp_bind. eapply chan_wp_mono; [apply Hend|].
        * unfold outs. cbn [socks]. fold (outs w2). rewrite Ho2. symmetry. apply delete_id. apply lookup_delete_eq.
        * intros _ w4 [Ho4 Hb4]. apply chan_wp_ret, Hgo; [done|right]. rewrite Hb4. cbn. congruence.
    - apply chan_wp_ret. destruct Ho2 as [Ho2|[? _]]; [|done]. unfold registered. rewrite Ho2. split_and!; [done|done| | |done].
      + destruct Hreg' as [[? _]|(? & ? & ? & ?)]; [done|]. right. by split_and!.
      + intros _. split; [congruence|]. exists b. split_and!; [done|done|]. by rewrite Ho1, lookup_insert_ne, lookup_insert_eq by done. }
  unfold ar_guest_channel_socketpair. cbn [negb]. apply chan_wp_bind, wp_call; [done|]. intros evs a w1 H1.
  pose proof (passes_outs _ _ _ H1) as Ho. pose proof (passes_bad _ _ _ H1) as Hb. unfold wp.
  destruct a as [[|x [|y [|]]]| | | |]; try (split; [done|by split]).
  destruct (_ || _) eqn:Hc; [split; [done|by split]|]. bool_hyps.
  repeat match goal with H : bool_decide _ = false |- _ => apply bool_decide_eq_false in H end. split; [done|].
  assert (Hn : forall z, ~ is_Some (socks w1 !! z) -> outs w !! z = None).
  { intros z Hz. rewrite <- Ho. unfold outs. rewrite lookup_fmap. destruct (socks w1 !! z); [destruct Hz; by eexists|done]. }
  split_and!; [lia|done|by apply Hn|by apply Hn|]. unfold outs at 1. cbn [socks]. rewrite !fmap_insert. cbn [outgoing].
  by rewrite <- Ho.
Qed.
End Registration.

(** ** Runs *)

(** The calls of a client or of a message handler. *)
Inductive op :=
  | Register (id : bytes) (policy : option identity_policy)
  | Unregister (id : bytes)
  | Send (id : bytes) (h : frame_header) (payload : option bytes)
  | Broadcast (h : frame_header) (payload : option bytes)
  | Flush (id : bytes).

Definition op_ok (o : op) : Prop :=
  match o with Send _ h payload | Broadcast h payload => wf_message h payload | _ => True end.

Section Runs.
Context (me : ucred).

Let stopped (w : world) : Prop := script w = [].

Definition run_op (o : op) (r : router) : io (Z * router) :=
  match o with
  | Register id policy => let* (rc, _, r) := register me r id policy in ret (rc, r)
  | Unregister id => unregister r id
  | Send id h payload => send me r id h payload
  | Broadcast h payload => broadcast me r h payload
  | Flush id => flush me r id
  end.

Fixpoint run_ops (os : list op) (r : router) : io router :=
  match os with
  | [] => ret r
  | o :: os => let* (_, r) := run_op o r in run_ops os r
  end.

(** A handler that answers every message with calls of the router. *)
Definition handler_of (react : bytes -> frame_header -> bytes -> list op) (r : router) (id : bytes) (h : frame_header) (payload : bytes)
  : io router := run_ops (react id h payload) r.

(** What a call means for the guests. *)
Definition op_step (o : op) (rc : Z) : (bytes -> option guest) -> (bytes -> option guest) -> Prop :=
  match o with
  | Register id _ => registers id rc
  | Unregister id => unregisters id rc
  | Send id h payload => sends id (dgram_of me h payload) rc
  | Broadcast h payload => broadcasts (dgram_of me h payload) rc
  | Flush id => flushes id rc
  end.

(** Between calls nobody comes or goes and no message is accepted; messages that wait
    may be sent, and a guest may be cut off. *)
Definition silent (a a' : bytes -> option guest) : Prop :=
  forall x, match a x with
            | None => a' x = None
            | Some g => exists g', a' x = Some g' /\ accepts_more [] g g' /\ (g_dead g = true -> g_dead g' = true)
            end.

(** The calls of a run with their answers, silent steps between them. *)
Fixpoint trace_of (a : bytes -> option guest) (t : list (op * Z)) (a' : bytes -> option guest) : Prop :=
  match t with
  | [] => silent a a'
  | (o, rc) :: t => exists b c, silent a b /\ op_ok o /\ op_step o rc b c /\ trace_of c t a'
  end.

Lemma silent_trans a b c : silent a b -> silent b c -> silent a c.
Proof.
  intros H1 H2 x. specialize (H1 x). specialize (H2 x). destruct (a x) as [g|].
  - destruct H1 as (g1 & E1 & A1 & D1). rewrite E1 in H2. destruct H2 as (g2 & E2 & A2 & D2). exists g2.
    split_and!; [done| |auto]. by apply (accepts_more_trans [] [] _ g1).
  - by rewrite H1 in H2.
Qed.

Lemma unchanged_silent a a' : unchanged a a' -> silent a a'.
Proof. intros H x. rewrite H. destruct (a x) as [g|]; [|done]. exists g. split_and!; [done|apply accepts_more_refl|done]. Qed.

Lemma changes_silent a a' id P :
  changes a a' id P -> (forall g g', P g g' -> accepts_more [] g g' /\ (g_dead g = true -> g_dead g' = true)) -> silent a a'.
Proof.
  intros (Ho & g & g' & Hg & Hg' & HP) Himp x. destruct (decide (x = id)) as [->|Hne].
  - rewrite Hg. exists g'. destruct (Himp g g' HP). done.
  - rewrite Ho by done. destruct (a x) as [y|]; [|done]. exists y. split_and!; [done|apply accepts_more_refl|done].
Qed.

Lemma trace_silent a b t c : silent a b -> trace_of b t c -> trace_of a t c.
Proof.
  intros Hs. destruct t as [|[o rc] t]; cbn; [by apply silent_trans|]. intros (d & e & Hd & ? & ? & ?). exists d, e.
  split_and!; [by eapply silent_trans|done..].
Qed.

Lemma trace_app a t1 b t2 c : trace_of a t1 b -> trace_of b t2 c -> trace_of a (t1 ++ t2) c.
Proof.
  revert a. induction t1 as [|[o rc] t1 IH]; intros a H1 H2; cbn [app]; [by eapply trace_silent|].
  destruct H1 as (d & e & ? & ? & ? & Ht). exists d, e. split_and!; [done..|]. by apply IH.
Qed.

(** The result of a computation on the router: a well-formed router, and a trace. *)
Definition evolved (r : router) (w : world) (r' : router) (w' : world) : Prop :=
  router_ok (outs w') r' /\ config r' = config r /\ exists t, trace_of (guests me (outs w) r) t (guests me (outs w') r').

Lemma evolved_refl r w w' : router_ok (outs w) r -> outs w' = outs w -> evolved r w r w'.
Proof. intros Hr Ho. unfold evolved. rewrite Ho. split_and!; [done..|]. exists []. by apply unchanged_silent. Qed.

Lemma evolved_trans r1 r2 r3 w1 w2 w3 : evolved r1 w1 r2 w2 -> evolved r2 w2 r3 w3 -> evolved r1 w1 r3 w3.
Proof.
  intros (_ & C1 & t1 & T1) (R2 & C2 & t2 & T2). split_and!; [done|congruence|]. exists (t1 ++ t2). by eapply trace_app.
Qed.

(** A silent change of the table. *)
Lemma evolved_silent r r' w w' :
  router_ok (outs w') r' -> config r' = config r -> silent (guests me (outs w) r) (guests me (outs w') r') -> evolved r w r' w'.
Proof. intros. split_and!; [done..|]. by exists []. Qed.

Lemma wp_run_op o r w :
  router_ok (outs w) r -> op_ok o ->
  wp (run_op o r) stopped (fun '(rc, r') w' => router_ok (outs w') r' /\ config r' = config r
    /\ op_step o rc (guests me (outs w) r) (guests me (outs w') r')) w.
Proof.
  intros Hr Ho. destruct o as [id policy|id|id h payload|h payload|id]; cbn [run_op op_step].
  - apply chan_wp_bind. eapply chan_wp_mono; [by apply wp_register|]. intros [[rc fd] r'] w' (? & ? & ? & _). by apply chan_wp_ret.
  - eapply chan_wp_mono; [by apply wp_router_unregister|]. by intros [rc r'] w' (? & ? & _ & ?).
  - eapply chan_wp_mono; [by apply wp_router_send|]. by intros [rc r'] w' (? & ? & _ & ?).
  - eapply chan_wp_mono; [by apply wp_router_broadcast|]. by intros [rc r'] w' (? & ? & _ & ?).
  - eapply chan_wp_mono; [by apply wp_router_flush|]. by intros [rc r'] w' (? & ? & _ & ?).
Qed.

Lemma wp_run_ops os r w : router_ok (outs w) r -> Forall op_ok os -> wp (run_ops os r) stopped (evolved r w) w.
Proof.
  revert r w. induction os as [|o os IH]; intros r w Hr Hos; cbn [run_ops]; [by apply chan_wp_ret, evolved_refl|].
  apply list.Forall_cons in Hos as [Ho Hos]. apply chan_wp_bind. eapply chan_wp_mono; [by apply wp_run_op|].
  intros [rc r1] w1 (Hr1 & Hc1 & Hs1). eapply chan_wp_mono; [by apply IH|]. intros r2 w2 H2. eapply evolved_trans; [|done].
  split_and!; [done..|]. exists [(o, rc)]. cbn. eexists _, _. split_and!; [by apply unchanged_silent|done..|by apply unchanged_silent].
Qed.

(** ** Dispatch *)

Section Dispatching.
Context (handler : option (router -> bytes -> frame_header -> bytes -> io router)).
Context (Hhandler : forall f r id h payload w, handler = Some f -> router_ok (outs w) r -> wp (f r id h payload) stopped (evolved r w) w).

(** A mark on the entry [i]. *)
Lemma evolved_mark r i e' w w' :
  router_ok (outs w) r -> outs w' = outs w ->
  (let e := entry_at r i in same_place e e' /\ queue e' = queue e /\ queue_capacity e' = queue_capacity e
     /\ queue_head e' = queue_head e /\ queue_count e' = queue_count e /\ (quarantined e = true -> quarantined e' = true)) ->
  evolved r w (set_entry r i e') w'.
Proof.
  intros Hr Ho He. destruct (entries r !! i) as [e|] eqn:Hi; [|rewrite set_entry_none by done; by apply evolved_refl].
  rewrite (entry_at_lookup _ _ _ Hi) in He. destruct He as (Hsp & ? & ? & ? & ? & Hq).
  destruct (router_mark me (outs w) r i e e' Hr Hi Hsp) as [Hr' Hg]; [done..|].
  apply evolved_silent; rewrite ?Ho; [done|done|]. intros x. rewrite Hg.
  destruct (active e && bytes_eqb (app_id e) x) eqn:Hx.
  - apply andb_true_iff in Hx as [Ha <-%bytes_eqb_eq]. rewrite (guests_some me _ _ i e) by done.
    assert (Ep : pending e' = pending e) by (unfold pending; congruence).
    eexists. split_and!; [done| |done]. unfold accepts_more, accepted, guest_of, queued. cbn [g_wire g_queued].
    rewrite (same_place_fd _ _ Hsp), Ep. by rewrite app_nil_r.
  - destruct (guests me (outs w) r x) as [g|]; [|done]. exists g. split_and!; [done|apply accepts_more_refl|done].
Qed.

Lemma wp_entry_receive r i w :
  router_ok (outs w) r ->
  wp (ar_guest_channel_receive (e_channel (entry_at r i)) true true GUEST_HARD_MAX_PAYLOAD_SIZE) stopped (fun _ w' => outs w' = outs w) w.
Proof.
  intros Hr. unfold entry_at. destruct (entries r !! i) as [e|] eqn:Hi; [|by apply chan_wp_ret]. cbn [default from_option id].
  pose proof (ro_entries _ _ Hr i e Hi) as He. destruct (active e).
  - destruct (entry_channel _ _ He) as (ch & Hch & Hfd). rewrite Hch. destruct (en_open _ _ He) as [l Hl].
    rewrite Hfd in Hl. apply outs_open in Hl as (s & Hs & _). pose proof (en_fd _ _ He) as H0. rewrite Hfd in H0.
    eapply chan_wp_mono; [eapply wp_receive; done|]. intros [[rc hdr] payload] w' [(_ & d & Hrd & _)|(_ & _ & l' & Hrd & _)]; by eapply reads_outs.
  - destruct He as [-> _]. by apply chan_wp_ret.
Qed.

Lemma wp_receive_loop quota r i processed w :
  router_ok (outs w) r ->
  wp (receive_loop handler quota r i processed) stopped (fun '(n, r') w' =>
    evolved r w r' w' /\ processed <= n <= processed + Z.of_nat quota) w.
Proof.
  revert r processed w. induction quota as [|quota IH]; intros r processed w Hr; cbn [receive_loop].
  { apply chan_wp_ret. split; [by apply evolved_refl|lia]. }
  apply chan_wp_bind. eapply chan_wp_mono; [by apply wp_entry_receive|]. intros [[rc hdr] payload] w1 Ho. cbv zeta.
  assert (Hmark : forall e', (let e := entry_at r i in same_place e e' /\ queue e' = queue e /\ queue_capacity e' = queue_capacity e
     /\ queue_head e' = queue_head e /\ queue_count e' = queue_count e /\ (quarantined e = true -> quarantined e' = true)) ->
     evolved r w (set_entry r i e') w1).
  { intros e' He'. by apply evolved_mark. }
  wp_step.
  - specialize (Hmark (count_received (entry_at r i)) ltac:(by split_and!)). set (r1 := set_entry r i _) in *.
    assert (Hr1 : router_ok (outs w1) r1) by apply Hmark. apply chan_wp_bind.
    enough (Hf : wp (match handler, hdr with Some f, Some h => f r1 (app_id (entry_at r i)) h payload | _, _ => ret r1 end)
                   stopped (evolved r1 w1) w1).
    { eapply chan_wp_mono; [exact Hf|]. intros r2 w2 H2. assert (Hr2 : router_ok (outs w2) r2) by apply H2.
      eapply chan_wp_mono; [by apply IH|]. intros [n r3] w3 [H3 Hn]. split; [|lia].
      eapply evolved_trans; [exact Hmark|]. by eapply evolved_trans. }
    destruct handler as [f|] eqn:Hh; [|by apply chan_wp_ret, evolved_refl]. destruct hdr as [h|]; [|by apply chan_wp_ret, evolved_refl].
    by apply (Hhandler f).
  - repeat (wp_step; [apply chan_wp_ret; split; [|lia]; first [by apply evolved_refl|by apply Hmark]|]).
    apply chan_wp_ret. split; [by apply evolved_refl|lia].
Qed.

Lemma wp_serve r i revents processed w :
  router_ok (outs w) r ->
  wp (serve me handler r i revents processed) stopped (fun '(n, r') w' =>
    evolved r w r' w' /\ processed <= n <= processed + Z.of_nat QUOTA) w.
Proof.
  intros Hr. unfold serve. wp_step.
  { apply chan_wp_ret. split; [|lia]. by apply evolved_mark. }
  apply chan_wp_bind.
  enough (Hfl : wp (if negb (Z.land revents POLLOUT =? 0) && (queue_count (entry_at r i) >? 0) then flush_entry_queue me (entry_at r i)
                    else ret (GUEST_OK, entry_at r i)) stopped
            (fun '(_, e) w1 => evolved r w (set_entry r i e) w1) w).
  { eapply chan_wp_mono; [exact Hfl|]. intros [rc e] w1 H1. assert (Hr1 : router_ok (outs w1) (set_entry r i e)) by apply H1. cbv zeta.
    wp_step; [|apply chan_wp_ret; split; [done|lia]]. eapply chan_wp_mono; [by apply wp_receive_loop|].
    intros [n r2] w2 [H2 Hn]. split; [by eapply evolved_trans|done]. }
  wp_step; [|apply chan_wp_ret; by apply evolved_mark]. apply andb_true_iff in Heqb0 as [_ Hc]. bool_hyps.
  unfold entry_at in *. destruct (entries r !! i) as [e|] eqn:Hi; cbn [default from_option id] in *; [|done].
  pose proof (ro_entries _ _ Hr i e Hi) as He. destruct (active e) eqn:Ha; [|destruct He; lia].
  eapply chan_wp_mono; [apply wp_flush_loop; [done|lia]|]. intros [rc e'] w1 (Hs & Hq & _).
  destruct (router_step me r i e e' [] w w1 Hr Hi Ha Hs) as (Hr' & Ho & Hg' & Hg).
  apply evolved_silent; [done|done|]. apply (changes_silent _ _ (app_id e) (fun g g' => accepts_more [] g g' /\ g_dead g' = g_dead g)).
  - split; [done|]. do 2 eexists. split_and!; [done|done| |done]. by destruct Hs as (_ & _ & _ & _ & ?).
  - intros g g' [? ->]. done.
Qed.

Lemma wp_serve_all idx revents r processed w :
  router_ok (outs w) r ->
  wp (serve_all me handler idx revents r processed) stopped (fun '(n, r') w' =>
    evolved r w r' w' /\ processed <= n <= processed + Z.of_nat QUOTA * len idx) w.
Proof.
  revert revents r processed w. induction idx as [|i idx IH]; intros revents r processed w Hr; cbn [serve_all].
  { apply chan_wp_ret. split; [by apply evolved_refl|]. change (len (@nil nat)) with 0. lia. }
  apply chan_wp_bind. eapply chan_wp_mono; [by apply wp_serve|]. intros [n r1] w1 [H1 Hn]. assert (Hr1 : router_ok (outs w1) r1) by apply H1.
  eapply chan_wp_mono; [by apply IH|]. intros [n' r2] w2 [H2 Hn']. split; [by eapply evolved_trans|]. rewrite len_cons. lia.
Qed.

Lemma wp_dispatch r w :
  router_ok (outs w) r ->
  wp (dispatch me handler r) stopped (fun '(n, r') w' => evolved r w r' w' /\ 0 <= n <= Z.of_nat QUOTA * ROUTER_MAX_GUESTS) w.
Proof.
  intros Hr. unfold dispatch. cbv zeta. set (idx := polled r).
  assert (Hlen : len idx <= ROUTER_MAX_GUESTS) by (unfold idx, polled; rewrite len_take; unfold ROUTER_MAX_GUESTS; lia).
  wp_step; [apply chan_wp_ret; split; [by apply evolved_refl|done]|].
  apply chan_wp_bind, chan_wp_bind, chan_wp_retry; [done|]. intros evs a w1 H1. pose proof (passes_outs _ _ _ H1) as Ho. apply chan_wp_ret.
  assert (Hidle : wp (ret (0, r)) stopped (fun '(n, r') w' => evolved r w r' w' /\ 0 <= n <= Z.of_nat QUOTA * ROUTER_MAX_GUESTS) w1)
    by (apply chan_wp_ret; split; [by apply evolved_refl|done]).
  destruct a as [rs| | | |]; try exact Hidle. wp_step; [exact Hidle|].
  eapply chan_wp_mono; [apply wp_serve_all; by rewrite Ho|]. intros [n r'] w2 [H2 Hn].
  split; [eapply evolved_trans; [by apply evolved_refl|done]|]. unfold QUOTA in *. pose proof (len_nonneg idx). lia.
Qed.
End Dispatching.
End Runs.

(** ** Properties *)

Section History.
Context (me : ucred).

(** The messages of a trace that the guest [id] took: those that were sent to it and
    accepted, and some of those that were broadcast. *)
Inductive took (id : bytes) : list (op * Z) -> list dgram -> Prop :=
  | took_nil : took id [] []
  | took_send id' h payload t ds : id_of id' = id -> took id t ds ->
      took id ((Send id' h payload, GUEST_OK) :: t) (dgram_of me h payload :: ds)
  | took_broadcast h payload t ds : took id t ds ->
      took id ((Broadcast h payload, GUEST_OK) :: t) (dgram_of me h payload :: ds)
  | took_other o rc t ds : took id t ds ->
      (forall id' h payload, o = Send id' h payload -> id_of id' = id -> rc <> GUEST_OK) -> took id ((o, rc) :: t) ds.

Definition leaves (id : bytes) (x : op * Z) : Prop := exists id', x.1 = Unregister id' /\ id_of id' = id.

(** One call, for a guest that it does not remove. *)
Lemma op_step_took o rc a a' id g :
  op_step me o rc a a' -> ~ leaves id (o, rc) -> a id = Some g ->
  exists g' ds, a' id = Some g' /\ accepts_more ds g g' /\ (g_dead g = true -> g_dead g' = true /\ ds = [])
    /\ forall t ds', took id t ds' -> took id ((o, rc) :: t) (ds ++ ds').
Proof.
  intros Hs Hl Hg.
  assert (Hsame : a' id = a id -> (forall id' h payload, o = Send id' h payload -> id_of id' = id -> rc <> GUEST_OK) ->
    exists g' ds, a' id = Some g' /\ accepts_more ds g g' /\ (g_dead g = true -> g_dead g' = true /\ ds = [])
    /\ forall t ds', took id t ds' -> took id ((o, rc) :: t) (ds ++ ds')).
  { intros E Hno. exists g, []. split_and!; [congruence|apply accepts_more_refl|done|]. intros t ds' Ht. by apply took_other. }
  destruct o as [id' policy|id'|id' h payload|h payload|id']; cbn [op_step] in Hs.
  - destruct Hs as [[_ Hu]|(_ & Hn & _ & Ho)]; (apply Hsame; [|done]); [done|]. apply Ho. congruence.
  - destruct Hs as [(_ & _ & Hu)|(_ & _ & _ & Ho)]; (apply Hsame; [|done]); [done|]. apply Ho. intros ->. apply Hl. by exists id'.
  - destruct Hs as [(-> & Hn & Hu)|(Ho & g0 & g' & Hg0 & Hg' & Hoff)].
    { apply Hsame; [done|]. by intros ? ? ? [= <- <- <-]. }
    destruct (decide (id = id_of id')) as [E|Hne].
    2: { apply Hsame; [by apply Ho|]. intros ? ? ? [= <- <- <-] <-. done. }
    subst id. rewrite Hg in Hg0. injection Hg0 as <-. destruct Hoff as (Hacc & Hd & _). exists g', (if rc =? GUEST_OK then [dgram_of me h payload] else []).
    split_and!; [done|done| |].
    + intros Hdead. destruct (Hd Hdead) as [-> ->]. done.
    + intros t ds' Ht. destruct (rc =? GUEST_OK) eqn:E; bool_hyps; [subst rc; by apply took_send|]. apply took_other; [done|by intros].
  - destruct Hs as (Hrc & answer & Hall & Hok). specialize (Hall id) as Hid. rewrite Hg in Hid. destruct Hid as (g' & Hg' & Hoff).
    destruct (g_dead g) eqn:Hd.
    + subst g'. apply Hsame; [congruence|done].
    + destruct Hoff as (Hacc & _ & _). exists g', (if answer id =? GUEST_OK then [dgram_of me h payload] else []).
      split_and!; [done|done|done|]. intros t ds' Ht. destruct (answer id =? GUEST_OK) eqn:E; bool_hyps.
      * assert (rc = GUEST_OK) as -> by (apply Hok; by exists id, g). by apply took_broadcast.
      * by apply took_other.
  - destruct Hs as [(_ & _ & Hu)|(Ho & g0 & g' & Hg0 & Hg' & Hacc & Hd & _)]; [by apply Hsame|].
    destruct (decide (id = id_of id')) as [E|Hne]; [|by apply Hsame; [apply Ho|]]. subst id. rewrite Hg in Hg0. injection Hg0 as <-.
    exists g', []. split_and!; [done|done|by rewrite Hd|]. intros t ds' Ht. by apply took_other.
Qed.

Lemma trace_took t a a' id g :
  trace_of me a t a' -> Forall (fun x => ~ leaves id x) t -> a id = Some g ->
  exists g' ds, a' id = Some g' /\ took id t ds /\ accepts_more ds g g' /\ (g_dead g = true -> g_dead g' = true /\ ds = []).
Proof.
  revert a g. induction t as [|[o rc] t IH]; intros a g Ht Hl Hg.
  - specialize (Ht id). rewrite Hg in Ht. destruct Ht as (g' & ? & ? & ?). exists g', []. split_and!; try done; [apply took_nil|auto].
  - destruct Ht as (b & c & Hs & _ & Hop & Ht). apply list.Forall_cons in Hl as [Hl1 Hl2]. specialize (Hs id). rewrite Hg in Hs.
    destruct Hs as (g1 & Hg1 & A1 & D1). destruct (op_step_took _ _ _ _ _ _ Hop Hl1 Hg1) as (g2 & d1 & Hg2 & A2 & D2 & Htook).
    destruct (IH c g2 Ht Hl2 Hg2) as (g3 & d2 & Hg3 & T3 & A3 & D3). exists g3, (d1 ++ d2). split_and!; [done|by apply Htook| |].
    + apply (accepts_more_trans [] _ _ g1); [done|]. by eapply accepts_more_trans.
    + intros Hd. destruct (D2 (D1 Hd)) as [Hd2 ->]. destruct (D3 Hd2) as [? ->]. done.
Qed.

(** The calls of the owner of a router. *)
Inductive command := Call (o : op) | Dispatch.

Definition run_command (react : bytes -> frame_header -> bytes -> list op) (c : command) (r : router) : io router :=
  match c with
  | Call o => let* (_, r) := run_op me o r in ret r
  | Dispatch => let* (_, r) := dispatch me (Some (handler_of me react)) r in ret r
  end.

Fixpoint run (react : bytes -> frame_header -> bytes -> list op) (cs : list command) (r : router) : io router :=
  match cs with
  | [] => ret r
  | c :: cs => let* r := run_command react c r in run react cs r
  end.

Definition command_ok (c : command) : Prop := match c with Call o => op_ok o | Dispatch => True end.

Lemma router_wp react cs r w :
  (forall id h payload, Forall op_ok (react id h payload)) -> Forall command_ok cs -> router_ok (outs w) r ->
  wp (run react cs r) (fun w' => script w' = []) (evolved me r w) w.
Proof.
  intros Hre. revert r w. induction cs as [|c cs IH]; intros r w Hcs Hr; cbn [run]; [by apply chan_wp_ret, evolved_refl|].
  apply list.Forall_cons in Hcs as [Hc Hcs]. apply chan_wp_bind.
  enough (H : wp (run_command react c r) (fun w' => script w' = []) (evolved me r w) w).
  { eapply chan_wp_mono; [exact H|]. intros r1 w1 H1. assert (Hr1 : router_ok (outs w1) r1) by apply H1.
    eapply chan_wp_mono; [by apply IH|]. intros r2 w2 H2. by eapply evolved_trans. }
  destruct c as [o|]; cbn [run_command].
  - apply chan_wp_bind. eapply chan_wp_mono; [by apply wp_run_op|]. intros [rc r1] w1 (Hr1 & Hc1 & Hs). apply chan_wp_ret. split_and!; [done..|].
    exists [(o, rc)]. cbn. eexists _, _. split_and!; [by apply unchanged_silent|done..|by apply unchanged_silent].
  - apply chan_wp_bind. eapply chan_wp_mono; [apply wp_dispatch; [|done]|].
    + intros f r0 id h payload w0 [= <-] Hr0. by apply wp_run_ops.
    + intros [n r1] w1 [H1 _]. by apply chan_wp_ret.
Qed.

(** C14: Every guest gets what was accepted for it, once and in order. From a well-formed
    router, whatever the owner and the message handler call (the handler may send,
    register and unregister while messages are dispatched), whatever the kernel answers
    to each call and whatever arrives: the router stays well formed; and while a guest is
    not unregistered, the datagrams sent on its socket, followed by those in its queue,
    are those of before followed by exactly the messages that were accepted for it, in
    the order of the calls; what was sent only grows; and a guest that is cut off stays
    so and accepts nothing more. *)
Theorem guests_served_in_order react cs r w :
  (forall id h payload, Forall op_ok (react id h payload)) -> Forall command_ok cs -> router_ok (outs w) r ->
  wp (run react cs r) (fun w' => script w' = [])
    (fun r' w' => router_ok (outs w') r' /\ exists t, trace_of me (guests me (outs w) r) t (guests me (outs w') r')
       /\ forall id g, guests me (outs w) r id = Some g -> Forall (fun x => ~ leaves id x) t ->
          exists g' ds, guests me (outs w') r' id = Some g' /\ took id t ds
            /\ g_wire g' ++ g_queued g' = g_wire g ++ g_queued g ++ ds /\ prefix (g_wire g) (g_wire g')
            /\ (g_dead g = true -> g_dead g' = true /\ ds = [])) w.
Proof.
  intros Hre Hcs Hr. eapply chan_wp_mono; [by apply router_wp|]. intros r' w' (Hr' & _ & t & Ht). split; [done|]. exists t. split; [done|].
  intros id g Hg Hl. destruct (trace_took _ _ _ _ _ Ht Hl Hg) as (g' & ds & Hg' & Htk & [Ha Hp] & Hd). exists g', ds.
  split_and!; [done|done| |done|done]. rewrite app_assoc. exact Ha.
Qed.

(** A router that was just created has no guest. *)
Lemma router_created_ok c m : 0 <= max_guests c -> 0 <= max_queue_depth c ->
  let r := mk_router (effective_config (Some c)) (replicate (Z.to_nat (max_guests (effective_config (Some c)))) zero_entry) 0 in
  router_ok m r /\ forall id, guests me m r id = None.
Proof.
  intros Hg Hd r. assert (Hes : forall i e, entries r !! i = Some e -> e = zero_entry) by (intros i e [-> _]%lookup_replicate; done).
  split.
  - split; cbn [config entries guest_count r].
    + unfold len. rewrite length_replicate. unfold effective_config. cbn. destruct (max_guests c =? 0); [done|lia].
    + unfold effective_config. cbn. destruct (max_queue_depth c =? 0) eqn:E; bool_hyps; [done|lia].
    + unfold count_active. clear. induction (Z.to_nat _) as [|n IH]; [done|]. exact IH.
    + intros i e He. by rewrite (Hes i e He).
    + intros i j e e' He _ Ha. by rewrite (Hes i e He) in Ha.
    + intros i j e e' He _ Ha. by rewrite (Hes i e He) in Ha.
  - intros id. unfold guests. destruct (find_index _ _) as [i|] eqn:E; [|done]. apply find_index_some in E as (e & He & Ha).
    by rewrite (Hes i e He) in Ha.
Qed.
End History.

(** ** Witnesses and findings *)

Definition host : ucred := mk_cred 41 0 0.

Definition two_guests : router_config := mk_rconfig 2 2 0 0 FLOOD_DROP.

Definition empty_router : router :=
  mk_router (effective_config (Some two_guests)) (replicate 2 zero_entry) 0.

Definition note (n : Z) : frame_header := mk_header 16 0 n 1.

(** A guest is registered; the kernel takes the second message, but not the first. *)
Definition busy_script : list event :=
  map (mk_event []) [Go [3; 4]; Go []; Go []; Go []; Go []; Again; Go []; Go []; Go []].

Definition busy_commands : list command :=
  [Call (Register (lit "app") None); Call (Send (lit "app") (note 1) (Some [1])); Call (Send (lit "app") (note 2) (Some [2]))].

Definition no_reaction : bytes -> frame_header -> bytes -> list op := fun _ _ _ => [].

Lemma guests_served_in_order_witness :
  wp (run host no_reaction busy_commands empty_router) (fun w' => script w' = [])
    (fun r' w' => router_ok (outs w') r' /\ exists t, trace_of host (guests host (outs (mk_world ∅ [] busy_script)) empty_router) t (guests host (outs w') r')
       /\ forall id g, guests host (outs (mk_world ∅ [] busy_script)) empty_router id = Some g -> Forall (fun x => ~ leaves id x) t ->
          exists g' ds, guests host (outs w') r' id = Some g' /\ took host id t ds
            /\ g_wire g' ++ g_queued g' = g_wire g ++ g_queued g ++ ds /\ prefix (g_wire g) (g_wire g')
            /\ (g_dead g = true -> g_dead g' = true /\ ds = [])) (mk_world ∅ [] busy_script)
  /\ (let w' := snd (run host no_reaction busy_commands empty_router (mk_world ∅ [] busy_script)) in
      outs w' !! 3 = Some [dgram_of host (note 1) (Some [1]); dgram_of host (note 2) (Some [2])]).
Proof.
  split; [|vm_compute; reflexivity].
  apply (guests_served_in_order host no_reaction busy_commands empty_router (mk_world ∅ [] busy_script)).
  - intros. constructor.
  - repeat (apply List.Forall_cons; [done || (split; vm_compute; done)|]). apply List.Forall_nil.
  - by destruct (router_created_ok host two_guests (outs (mk_world ∅ [] busy_script)) ltac:(done) ltac:(done)).
Defined.

(** A message that the channel refuses, once it is first in the queue, is never removed
    from it: every attempt to send the queue fails at it, and nothing is sent. *)
Definition stuck (m : gmap Z (list dgram)) (e : route_entry) : Prop :=
  entry_ok m e /\ exists q rest, pending e = q :: rest
    /\ send_status (e_channel e) (flags (q_header q)) (payload_length (q_header q)) (q_payload q) <> GUEST_OK.

Section Stuck.
Context (me : ucred).

Lemma stuck_flush e w : stuck (outs w) e -> exists rc, rc <> GUEST_OK /\ flush_entry_queue me e w = (Some (rc, e), w).
Proof.
  intros (He & q & rest & Hp & Hs). unfold flush_entry_queue.
  assert (Hn : 0 < queue_count e).
  { pose proof (rg_count _ _ _ _ (en_ring _ _ He)). destruct (Z.eq_dec (queue_count e) 0) as [E|]; [|lia]. by rewrite pending_nil in Hp. }
  destruct (pending_pop_entry e _ He Hn) as [Hp' _]. rewrite Hp in Hp'. injection Hp' as Hq _.
  destruct (Z.to_nat (queue_count e)) as [|n] eqn:En; [lia|]. cbn [flush_loop]. rewrite <- Hq.
  exists (send_status (e_channel e) (flags (q_header q)) (payload_length (q_header q)) (q_payload q)). split; [done|].
  unfold bind, send_message, ar_guest_channel_send. rewrite (proj2 (Z.eqb_neq _ GUEST_OK) Hs). cbn [negb ret].
  by rewrite (proj2 (Z.eqb_neq _ GUEST_OK) Hs).
Qed.

End Stuck.

(** Such a message is accepted while another one waits: its flags are not allowed. *)
Definition blocking_commands : list command :=
  [Call (Register (lit "app") None); Call (Send (lit "app") (note 1) (Some [1]));
   Call (Send (lit "app") (mk_header 16 4 2 1) (Some [2])); Call (Send (lit "app") (note 3) (Some [3]))].

Definition blocking_script : list event :=
  map (mk_event []) [Go [3; 4]; Go []; Go []; Go []; Go []; Again; Go []; Again; Go []; Go []; Go []].

Lemma bad_flags_accepted :
  let '(r, w) := run host no_reaction blocking_commands empty_router (mk_world ∅ [] blocking_script) in
  option_map (fun r => map (fun q => flags (q_header q)) (pending (entry_at r 0))) r = Some [4; 0]
  /\ outs w !! 3 = Some [dgram_of host (note 1) (Some [1])].
Proof. vm_compute. split; reflexivity. Qed.

(** The peer has gone while a message waits: the next message is accepted nevertheless. *)
Lemma sent_to_the_gone :
  let '(r, w) := run host no_reaction busy_commands empty_router
    (mk_world ∅ [] (map (mk_event []) [Go [3; 4]; Go []; Go []; Go []; Go []; Again; Go []; Gone; Go []])) in
  option_map (fun r => (messages_sent (stats (entry_at r 0)), quarantined (entry_at r 0))) r = Some (2, false)
  /\ outs w !! 3 = Some [].
Proof. vm_compute. split; reflexivity. Qed.

(** A registration that finds no memory for the queue closes its descriptor twice. *)
Lemma closed_twice :
  bad_closes (snd (register host empty_router (lit "app") None (mk_world ∅ [] (map (mk_event []) [Go [3; 4]; Go []; Go []; Go []; Deny])))) = [3].
Proof. vm_compute. reflexivity. Qed.

(** Without a policy a registered guest is heard only if it runs in the process that
    registered it: the credentials of a pair of sockets are those of its creator. *)
Lemma child_not_heard :
  let '(r, w) := run host no_reaction [Call (Register (lit "app") None); Dispatch] empty_router
    (mk_world ∅ [] (map (mk_event []) [Go [3; 4]; Go []; Go []; Go []; Go []]
       ++ [mk_event [(3, dgram_of (mk_cred 42 0 0) (note 1) (Some [1]))] (Go [POLLIN])] ++ map (mk_event []) [Go []; Go []; Go []])) in
  option_map (fun r => (messages_received (stats (entry_at r 0)), auth_failures (stats (entry_at r 0)))) r = Some (0, 1).
Proof. vm_compute. reflexivity. Qed.
