(* ===== verification/Forwarder.v ===== *)
(** The forwarder of audit checkpoints (src/libraries/audit/forwarder.c): authenticated
    checkpoints of the local log are sent to a collector one at a time, and the last one
    it acknowledged is kept in a file.

    HMAC-SHA-256 is the library's (EVP_MAC): the parameter [hmac]. Calls of the library
    and of the file run in the worlds of Posix.v. The transport is the caller's: a
    function on a state of its own, which answers with the status, the octets stored in
    the receipt buffer and the length it reports, or with [None] when the process dies in
    it. [alrios_forwarder_socket_send] is the one the file provides. *)

From Stdlib Require Import Sorting.Sorted.
From S2P Require Import Prelude Bytes Posix Ring AuditChain.
#[local] Open Scope Z_scope.

(** ** Constants (include/alrios/audit/forwarder.h) *)

Definition FORWARDER_OK : Z := 0.

Definition FORWARDER_ERR_INVALID_ARGUMENT : Z := -8001.

Definition FORWARDER_ERR_QUEUE_FULL : Z := -8002.

Definition FORWARDER_ERR_TRANSPORT : Z := -8003.

Definition FORWARDER_ERR_AUTH : Z := -8004.

Definition FORWARDER_ERR_ROLLBACK_DETECTED : Z := -8005.

Definition FORWARDER_ERR_IO : Z := -8006.

Definition FORWARDER_ERR_OVERFLOW : Z := -8007.

Definition FORWARDER_ERR_STATE_CORRUPT : Z := -8008.

Definition FORWARDER_KEY_SIZE : Z := 32.

Definition FORWARDER_MAC_SIZE : Z := 32.

Definition RECEIPT_NONCE_SIZE : Z := 16.

Definition MAX_QUEUE_ENTRIES : Z := 1024.

Definition CHECKPOINT_WIRE_SIZE : Z := 92.

Definition RECEIPT_WIRE_SIZE : Z := 100.

Definition STATE_WIRE_SIZE : Z := 84.

Definition CHECKPOINT_VERSION : Z := 1.

Definition STATE_VERSION : Z := 1.

Definition CHECKPOINT_BODY_SIZE : Z := 60.

Definition RECEIPT_BODY_SIZE : Z := 68.

Definition STATE_BODY_SIZE : Z := 52.

Definition checkpoint_magic : bytes := lit "ALRICHKP".

Definition receipt_magic : bytes := lit "ALRIRCPT".

Definition state_magic : bytes := lit "ALRIACKS".

Definition checkpoint_domain : bytes := lit "ALRIOS-AUDIT-CHECKPOINT-V1".

Definition receipt_domain : bytes := lit "ALRIOS-AUDIT-RECEIPT-V1".

Definition state_domain : bytes := lit "ALRIOS-AUDIT-STATE-V1".

(** ** Data *)

Record checkpoint := mk_ckpt {
  cp_sequence : Z;
  cp_timestamp_ns : Z;
  cp_block_hash : bytes;
  cp_mac : bytes;
}.

Definition zero_ckpt : checkpoint := mk_ckpt 0 0 (zeros 32) (zeros 32).

Record receipt := mk_receipt {
  rc_ack_sequence : Z;
  rc_ack_hash : bytes;
  rc_nonce : bytes;
  rc_mac : bytes;
}.

Definition zero_receipt : receipt := mk_receipt 0 (zeros 32) (zeros 16) (zeros 32).

Record fstate := mk_fstate {
  st_ack_sequence : Z;
  st_ack_hash : bytes;
}.

Definition zero_fstate : fstate := mk_fstate 0 (zeros 32).

(** What a transport answers: status, receipt buffer, receipt length. *)
Definition send_answer : Type := option (Z * bytes * Z).

Record forwarder (T : Type) := mk_fwd {
  fw_queue : option (list checkpoint);
  fw_capacity : Z;
  fw_head : Z;
  fw_tail : Z;
  fw_count : Z;
  fw_key : bytes;
  fw_persisted : fstate;
  fw_state_fd : Z;
  fw_send : option (T -> bytes -> send_answer * T);
}.
Arguments forwarder T : clear implicits.
Arguments mk_fwd {T}.
Arguments fw_queue {T}.
Arguments fw_capacity {T}.
Arguments fw_head {T}.
Arguments fw_tail {T}.
Arguments fw_count {T}.
Arguments fw_key {T}.
Arguments fw_persisted {T}.
Arguments fw_state_fd {T}.
Arguments fw_send {T}.

Section Forwarder.
(** The transport's states. *)
Context {T : Type}.
Context (hmac : bytes -> bytes -> bytes).

(** ** Messages *)

(** Status and tag; six calls of the library: fetch, context, init, two updates, final. *)
Definition hmac_sha256 (key domain body : bytes) : io (Z * bytes) :=
  let* ok := all_calls 6 in
  if ok then ret (FORWARDER_OK, hmac key (domain ++ body))
  else ret (FORWARDER_ERR_AUTH, zeros FORWARDER_MAC_SIZE).

(** The first 60 octets of a checkpoint, in its buffer. *)
Definition checkpoint_body (sequence timestamp_ns : Z) (block_hash : bytes) : bytes :=
  let wire := zeros CHECKPOINT_WIRE_SIZE in
  let wire := upd 0 checkpoint_magic wire in
  let wire := upd 8 (store_u16_be CHECKPOINT_VERSION) wire in
  let wire := upd 10 (store_u16_be 0) wire in
  let wire := upd 12 (store_u64_be sequence) wire in
  let wire := upd 20 (store_u64_be timestamp_ns) wire in
  sub 0 CHECKPOINT_BODY_SIZE (upd 28 (sub 0 AUDIT_HASH_SIZE block_hash) wire).

(** Status and the contents of [out_wire] ([None]: untouched). *)
Definition alrios_checkpoint_encode (sequence timestamp_ns : Z) (block_hash key : option bytes)
    (out_present : bool) : io (Z * option bytes) :=
  match block_hash, key with
  | Some block_hash, Some key =>
      if (sequence =? 0) || negb out_present then ret (FORWARDER_ERR_INVALID_ARGUMENT, None)
      else
        let body := checkpoint_body sequence timestamp_ns block_hash in
        let* (status, mac) := hmac_sha256 key checkpoint_domain body in
        if negb (status =? FORWARDER_OK) then ret (status, Some (zeros CHECKPOINT_WIRE_SIZE))
        else ret (status, Some (body ++ mac))
  | _, _ => ret (FORWARDER_ERR_INVALID_ARGUMENT, None)
  end.

Definition alrios_checkpoint_decode_and_verify (in_wire key : option bytes) (out_present : bool)
    : io (Z * option checkpoint) :=
  match in_wire, key with
  | Some w, Some key =>
      if negb out_present then ret (FORWARDER_ERR_INVALID_ARGUMENT, None)
      else if negb (bytes_eqb (sub 0 8 w) checkpoint_magic)
              || negb (load_u16_be (sub 8 2 w) =? CHECKPOINT_VERSION)
              || negb (load_u16_be (sub 10 2 w) =? 0)
              || (load_u64_be (sub 12 8 w) =? 0)
      then ret (FORWARDER_ERR_AUTH, Some zero_ckpt)
      else
        let* (status, expected) := hmac_sha256 key checkpoint_domain (sub 0 CHECKPOINT_BODY_SIZE w) in
        if negb (status =? FORWARDER_OK)
           || negb (bytes_eqb expected (sub CHECKPOINT_BODY_SIZE FORWARDER_MAC_SIZE w))
        then ret (FORWARDER_ERR_AUTH, Some zero_ckpt)
        else
          ret (FORWARDER_OK,
               Some (mk_ckpt (load_u64_be (sub 12 8 w)) (load_u64_be (sub 20 8 w)) (sub 28 32 w)
                       (sub CHECKPOINT_BODY_SIZE FORWARDER_MAC_SIZE w)))
  | _, _ => ret (FORWARDER_ERR_INVALID_ARGUMENT, None)
  end.

Definition receipt_body (ack_sequence : Z) (ack_hash nonce : bytes) : bytes :=
  let wire := zeros RECEIPT_WIRE_SIZE in
  let wire := upd 0 receipt_magic wire in
  let wire := upd 8 (store_u16_be CHECKPOINT_VERSION) wire in
  let wire := upd 10 (store_u16_be 0) wire in
  let wire := upd 12 (store_u64_be ack_sequence) wire in
  let wire := upd 20 (sub 0 AUDIT_HASH_SIZE ack_hash) wire in
  sub 0 RECEIPT_BODY_SIZE (upd 52 (sub 0 RECEIPT_NONCE_SIZE nonce) wire).

Definition alrios_receipt_encode (ack_sequence : Z) (ack_hash nonce key : option bytes)
    (out_present : bool) : io (Z * option bytes) :=
  match ack_hash, nonce, key with
  | Some ack_hash, Some nonce, Some key =>
      if (ack_sequence =? 0) || negb out_present then ret (FORWARDER_ERR_INVALID_ARGUMENT, None)
      else
        let body := receipt_body ack_sequence ack_hash nonce in
        let* (status, mac) := hmac_sha256 key receipt_domain body in
        if negb (status =? FORWARDER_OK) then ret (status, Some (zeros RECEIPT_WIRE_SIZE))
        else ret (status, Some (body ++ mac))
  | _, _, _ => ret (FORWARDER_ERR_INVALID_ARGUMENT, None)
  end.

Definition alrios_receipt_decode_and_verify (in_wire key : option bytes) (out_present : bool)
    : io (Z * option receipt) :=
  match in_wire, key with
  | Some w, Some key =>
      if negb out_present then ret (FORWARDER_ERR_INVALID_ARGUMENT, None)
      else if negb (bytes_eqb (sub 0 8 w) receipt_magic)
              || negb (load_u16_be (sub 8 2 w) =? CHECKPOINT_VERSION)
              || negb (load_u16_be (sub 10 2 w) =? 0)
              || (load_u64_be (sub 12 8 w) =? 0)
      then ret (FORWARDER_ERR_AUTH, Some zero_receipt)
      else
        let* (status, expected) := hmac_sha256 key receipt_domain (sub 0 RECEIPT_BODY_SIZE w) in
        if negb (status =? FORWARDER_OK)
           || negb (bytes_eqb expected (sub RECEIPT_BODY_SIZE FORWARDER_MAC_SIZE w))
        then ret (FORWARDER_ERR_AUTH, Some zero_receipt)
        else
          ret (FORWARDER_OK,
               Some (mk_receipt (load_u64_be (sub 12 8 w)) (sub 20 32 w) (sub 52 16 w)
                       (sub RECEIPT_BODY_SIZE FORWARDER_MAC_SIZE w)))
  | _, _ => ret (FORWARDER_ERR_INVALID_ARGUMENT, None)
  end.

(** ** The state file *)

Definition read_state_at (length_ offset : Z) : io (Z * bytes) :=
  io_loop (fun buffer =>
    let consumed := len buffer in
    if negb (consumed <? length_) then ret (inr (FORWARDER_OK, buffer))
    else if offset >? UINT64_MAX - consumed then ret (inr (FORWARDER_ERR_OVERFLOW, buffer))
    else
      let current_offset := offset + consumed in
      if current_offset >? INT64_MAX then ret (inr (FORWARDER_ERR_OVERFLOW, buffer))
      else
        let* result := pread (length_ - consumed) current_offset in
        ret (match result with
             | Res data =>
                 if len data >? 0 then inl (buffer ++ data)
                 else inr (FORWARDER_ERR_STATE_CORRUPT, buffer)
             | SysIntr => inl buffer
             | SysFail => inr (FORWARDER_ERR_IO, buffer)
             end)) [].

Definition write_state_at (buffer : bytes) (length_ offset : Z) : io Z :=
  io_loop (fun consumed =>
    if negb (consumed <? length_) then ret (inr FORWARDER_OK)
    else if offset >? UINT64_MAX - consumed then ret (inr FORWARDER_ERR_OVERFLOW)
    else
      let current_offset := offset + consumed in
      if current_offset >? INT64_MAX then ret (inr FORWARDER_ERR_OVERFLOW)
      else
        let* result := pwrite (drop (Z.to_nat consumed) buffer) (length_ - consumed) current_offset in
        ret (match result with
             | Res n => if n >? 0 then inl (consumed + n) else inr FORWARDER_ERR_IO
             | SysIntr => inl consumed
             | SysFail => inr FORWARDER_ERR_IO
             end)) 0.

(** Status and the contents of [*out_state] ([None]: untouched). *)
Definition alrios_forwarder_state_read (fd : Z) (key : option bytes) (out_present : bool)
    : io (Z * option fstate) :=
  match key with
  | None => ret (FORWARDER_ERR_INVALID_ARGUMENT, None)
  | Some key =>
      if (fd <? 0) || negb out_present then ret (FORWARDER_ERR_INVALID_ARGUMENT, None)
      else
        let* ok := sys_ok in
        if negb ok then ret (FORWARDER_ERR_IO, Some zero_fstate)
        else
          let* f := get_file in
          if len f =? 0 then ret (FORWARDER_OK, Some zero_fstate)
          else if negb (len f =? STATE_WIRE_SIZE) then ret (FORWARDER_ERR_STATE_CORRUPT, Some zero_fstate)
          else
            let* (status, w) := read_state_at STATE_WIRE_SIZE 0 in
            if negb (status =? FORWARDER_OK) then ret (status, Some zero_fstate)
            else if negb (bytes_eqb (sub 0 8 w) state_magic)
                    || negb (load_u16_be (sub 8 2 w) =? STATE_VERSION)
                    || negb (load_u16_be (sub 10 2 w) =? 0)
                    || (load_u64_be (sub 12 8 w) =? 0)
            then ret (FORWARDER_ERR_STATE_CORRUPT, Some zero_fstate)
            else
              let* (status, expected) := hmac_sha256 key state_domain (sub 0 STATE_BODY_SIZE w) in
              if negb (status =? FORWARDER_OK)
                 || negb (bytes_eqb expected (sub STATE_BODY_SIZE FORWARDER_MAC_SIZE w))
              then ret (FORWARDER_ERR_STATE_CORRUPT, Some zero_fstate)
              else ret (FORWARDER_OK, Some (mk_fstate (load_u64_be (sub 12 8 w)) (sub 20 32 w)))
  end.

Definition state_body (state : fstate) : bytes :=
  let wire := zeros STATE_WIRE_SIZE in
  let wire := upd 0 state_magic wire in
  let wire := upd 8 (store_u16_be STATE_VERSION) wire in
  let wire := upd 10 (store_u16_be 0) wire in
  let wire := upd 12 (store_u64_be (st_ack_sequence state)) wire in
  sub 0 STATE_BODY_SIZE (upd 20 (sub 0 AUDIT_HASH_SIZE (st_ack_hash state)) wire).

Definition sys_status (r : sysres unit) : Z := match r with Res _ => FORWARDER_OK | _ => FORWARDER_ERR_IO end.

Definition alrios_forwarder_state_write (fd : Z) (key : option bytes) (state : option fstate) : io Z :=
  match key, state with
  | Some key, Some state =>
      if (fd <? 0) || (st_ack_sequence state =? 0) then ret FORWARDER_ERR_INVALID_ARGUMENT
      else
        let body := state_body state in
        let* (status, mac) := hmac_sha256 key state_domain body in
        let* status := if status =? FORWARDER_OK then write_state_at (body ++ mac) STATE_WIRE_SIZE 0 else ret status in
        let* status :=
          if status =? FORWARDER_OK then let* r := ftruncate STATE_WIRE_SIZE in ret (sys_status r) else ret status in
        if status =? FORWARDER_OK then let* r := fsync in ret (sys_status r) else ret status
  | _, _ => ret FORWARDER_ERR_INVALID_ARGUMENT
  end.

Context (sha256 : bytes -> bytes).

(** ** The local log *)

(** [audit_fd] is the file of the world. *)
Definition alrios_forwarder_verify_chain_not_rolled_back (audit_fd : descriptor)
    (persisted_state : option fstate) : io Z :=
  match persisted_state with
  | None => ret FORWARDER_ERR_INVALID_ARGUMENT
  | Some s =>
      if fd_number audit_fd <? 0 then ret FORWARDER_ERR_INVALID_ARGUMENT
      else
        let* (status, result) := alrios_audit_chain_verify_fd sha256 audit_fd true in
        if negb (status =? AUDIT_OK) then ret FORWARDER_ERR_ROLLBACK_DETECTED
        else if st_ack_sequence s =? 0 then ret FORWARDER_OK
        else if negb (last_sequence result =? st_ack_sequence s)
                || negb (bytes_eqb (last_hash result) (st_ack_hash s))
        then ret FORWARDER_ERR_ROLLBACK_DETECTED
        else ret FORWARDER_OK
  end.

(** ** The forwarder *)

Definition destroyed : forwarder T := mk_fwd None 0 0 0 0 (zeros FORWARDER_KEY_SIZE) zero_fstate (-1) None.

(** The structure and, where it is reached, the queue's buffer. *)
Definition alrios_forwarder_destroy (fwd : option (forwarder T)) : option (forwarder T * option (list checkpoint)) :=
  match fwd with
  | None => None
  | Some f =>
      let queue :=
        match fw_queue f with
        | Some q => if fw_capacity f <=? MAX_QUEUE_ENTRIES
                    then Some (replicate (Z.to_nat (fw_capacity f)) zero_ckpt) else Some q
        | None => None
        end in
      Some (destroyed, queue)
  end.

(** Status and the contents of [*fwd] ([None]: untouched). *)
Definition alrios_forwarder_init (fwd_present queue_present : bool) (queue_capacity : Z) (key : option bytes)
    (state_fd : Z) (send_fn : option (T -> bytes -> send_answer * T)) : io (Z * option (forwarder T)) :=
  match key, send_fn with
  | Some key, Some send =>
      if negb fwd_present || negb queue_present || (queue_capacity =? 0)
         || (queue_capacity >? MAX_QUEUE_ENTRIES) || (state_fd <? -1)
      then ret (FORWARDER_ERR_INVALID_ARGUMENT, None)
      else
        let fwd state :=
          mk_fwd (Some (replicate (Z.to_nat queue_capacity) zero_ckpt)) queue_capacity 0 0 0
            (sub 0 FORWARDER_KEY_SIZE key) state state_fd (Some send) in
        if state_fd >=? 0 then
          let* (status, state) := alrios_forwarder_state_read state_fd (Some key) true in
          if negb (status =? FORWARDER_OK) then ret (status, Some destroyed)
          else ret (FORWARDER_OK, Some (fwd (default zero_fstate state)))
        else ret (FORWARDER_OK, Some (fwd zero_fstate))
  | _, _ => ret (FORWARDER_ERR_INVALID_ARGUMENT, None)
  end.

Definition alrios_forwarder_enqueue (fwd : option (forwarder T)) (sequence timestamp_ns : Z)
    (block_hash : option bytes) : Z * option (forwarder T) :=
  match fwd, block_hash with
  | Some f, Some hash =>
      match fw_queue f, fw_send f with
      | Some q, Some send =>
          if (sequence =? 0) || (fw_capacity f =? 0) then (FORWARDER_ERR_INVALID_ARGUMENT, fwd)
          else if fw_count f =? fw_capacity f then (FORWARDER_ERR_QUEUE_FULL, fwd)
          else
            let entry := mk_ckpt sequence timestamp_ns (sub 0 AUDIT_HASH_SIZE hash) (zeros FORWARDER_MAC_SIZE) in
            (FORWARDER_OK,
             Some (mk_fwd (Some (<[Z.to_nat (fw_tail f) := entry]> q)) (fw_capacity f) (fw_head f)
                     ((fw_tail f + 1) mod fw_capacity f) (fw_count f + 1) (fw_key f) (fw_persisted f)
                     (fw_state_fd f) (Some send)))
      | _, _ => (FORWARDER_ERR_INVALID_ARGUMENT, fwd)
      end
  | _, _ => (FORWARDER_ERR_INVALID_ARGUMENT, fwd)
  end.

(** The process dies. *)
Definition stopped {A} : io A := fun w => (Crash, w).

(** The acknowledged checkpoint leaves the queue. *)
Definition acknowledge (f : forwarder T) (q : list checkpoint) (new_state : fstate) : forwarder T :=
  mk_fwd (Some (<[Z.to_nat (fw_head f) := zero_ckpt]> q)) (fw_capacity f)
    ((fw_head f + 1) mod fw_capacity f) (fw_tail f) (fw_count f - 1) (fw_key f) new_state
    (fw_state_fd f) (fw_send f).

Definition alrios_forwarder_flush (fwd : option (forwarder T)) (t : T) : io (Z * option (forwarder T) * T) :=
  match fwd with
  | None => ret (FORWARDER_ERR_INVALID_ARGUMENT, fwd, t)
  | Some f =>
      match fw_queue f, fw_send f with
      | Some q, Some send =>
          if fw_capacity f =? 0 then ret (FORWARDER_ERR_INVALID_ARGUMENT, fwd, t)
          else if fw_count f =? 0 then ret (FORWARDER_OK, fwd, t)
          else
            let entry := nth (Z.to_nat (fw_head f)) q zero_ckpt in
            let* (status, wire) :=
              alrios_checkpoint_encode (cp_sequence entry) (cp_timestamp_ns entry)
                (Some (cp_block_hash entry)) (Some (fw_key f)) true in
            if negb (status =? FORWARDER_OK) then ret (status, fwd, t)
            else
              let (answer, t) := send t (default [] wire) in
              match answer with
              | None => stopped
              | Some (status, receipt_wire, receipt_len) =>
                  if negb (status =? FORWARDER_OK) || negb (receipt_len =? RECEIPT_WIRE_SIZE)
                  then ret (FORWARDER_ERR_TRANSPORT, fwd, t)
                  else
                    let* (status, receipt) :=
                      alrios_receipt_decode_and_verify (Some receipt_wire) (Some (fw_key f)) true in
                    let receipt := default zero_receipt receipt in
                    if negb (status =? FORWARDER_OK)
                       || negb (rc_ack_sequence receipt =? cp_sequence entry)
                       || negb (bytes_eqb (rc_ack_hash receipt) (cp_block_hash entry))
                    then ret (FORWARDER_ERR_AUTH, fwd, t)
                    else if st_ack_sequence (fw_persisted f) >? rc_ack_sequence receipt
                    then ret (FORWARDER_ERR_ROLLBACK_DETECTED, fwd, t)
                    else
                      let new_state := mk_fstate (rc_ack_sequence receipt) (rc_ack_hash receipt) in
                      let* status :=
                        if fw_state_fd f >=? 0
                        then alrios_forwarder_state_write (fw_state_fd f) (Some (fw_key f)) (Some new_state)
                        else ret FORWARDER_OK in
                      if negb (status =? FORWARDER_OK) then ret (status, fwd, t)
                      else ret (FORWARDER_OK, Some (acknowledge f q new_state), t)
              end
      | _, _ => ret (FORWARDER_ERR_INVALID_ARGUMENT, fwd, t)
      end
  end.
End Forwarder.

(** ** The transport over a socket *)

Definition EINTR : Z := 4.

Definition EAGAIN : Z := 11.

Definition EWOULDBLOCK : Z := 11.

Definition AR_EVENT_ERROR : Z := 4.

(** One turn of a loop: the clock, what [ar_poll_wait] returns, what the collector sent
    in the meantime, and how many octets the socket takes or gives (0: it is closed; a
    negative errno: nothing). *)
Record round := mk_round {
  r_now : Z;
  r_count : Z;
  r_events : Z;
  r_arrived : bytes;
  r_result : Z;
}.

(** The answers to one call of the transport. *)
Record attempt := mk_attempt {
  at_nonblock : Z;
  at_poll : bool;
  at_add : Z;
  at_now : Z;
  at_sending : list round;
  at_mod : Z;
  at_receiving : list round;
}.

(** The connection: octets that came and are not read, octets sent, and the attempts to
    come. A list of rounds that ends is a process that dies in that loop. *)
Record conn := mk_conn {
  inbox : bytes;
  outbox : bytes;
  attempts : list attempt;
}.

(** How a loop ends: done, given up, or with the process. *)
Inductive loop_end := Done | GaveUp | Died.

(** [ar_poll_wait] reports anything but one event without error. *)
Definition poll_failed (r : round) : bool :=
  negb (r_count r =? 1) || negb (Z.land (r_events r) AR_EVENT_ERROR =? 0).

Definition retryable (result : Z) : bool :=
  (result =? - EAGAIN) || (result =? - EWOULDBLOCK) || (result =? - EINTR).

(** [while (sent < sizeof(frame))]: how it ends, and [sent]. *)
Fixpoint send_loop (frame_len deadline : Z) (rounds : list round) (sent : Z) : loop_end * Z :=
  if negb (sent <? frame_len) then (Done, sent)
  else
    match rounds with
    | [] => (Died, sent)
    | r :: rounds =>
        if r_now r >=? deadline then (GaveUp, sent)
        else if poll_failed r then (GaveUp, sent)
        else
          let result := Z.min (r_result r) (frame_len - sent) in
          if result >? 0 then send_loop frame_len deadline rounds (sent + result)
          else if negb (retryable result) then (GaveUp, sent)
          else send_loop frame_len deadline rounds sent
    end.

(** What [recv] returns and takes from the octets that are there. *)
Definition recv (r : round) (request : Z) (inbox : bytes) : Z * bytes * bytes :=
  if r_result r >? 0 then
    let n := Z.min (r_result r) (Z.min request (len inbox)) in
    if n =? 0 then (- EAGAIN, [], inbox) else (n, sub 0 n inbox, drop (Z.to_nat n) inbox)
  else (r_result r, [], inbox).

(** [while (received < expected)]: how it ends, the response and what is left to read. *)
Fixpoint recv_loop (deadline : Z) (rounds : list round) (expected : Z) (response inbox : bytes)
    : loop_end * bytes * bytes :=
  let received := len response in
  if negb (received <? expected) then (Done, response, inbox)
  else
    match rounds with
    | [] => (Died, response, inbox)
    | r :: rounds =>
        let inbox := inbox ++ r_arrived r in
        if r_now r >=? deadline then (GaveUp, response, inbox)
        else if poll_failed r then (GaveUp, response, inbox)
        else
          let '(result, data, inbox) := recv r (expected - received) inbox in
          if result >? 0 then
            let response := response ++ data in
            if len response =? 4 then
              if negb (load_u32_be response =? RECEIPT_WIRE_SIZE) then (GaveUp, response, inbox)
              else recv_loop deadline rounds (4 + RECEIPT_WIRE_SIZE) response inbox
            else recv_loop deadline rounds expected response inbox
          else if negb (retryable result) then (GaveUp, response, inbox)
          else recv_loop deadline rounds expected response inbox
    end.

(** The transport gives up: the receipt buffer is not written. *)
Definition gave_up : send_answer := Some (FORWARDER_ERR_TRANSPORT, zeros RECEIPT_WIRE_SIZE, 0).

(** [transport]: descriptor and timeout. The buffer of the caller has [receipt_buf]
    octets; an argument that is refused leaves the length as the caller set it, 0. *)
Definition alrios_forwarder_socket_send (transport : option (Z * Z)) (checkpoint_wire : option bytes)
    (receipt_buf : option Z) (len_present : bool) (c : conn) : send_answer * conn :=
  let invalid := (Some (FORWARDER_ERR_INVALID_ARGUMENT, zeros RECEIPT_WIRE_SIZE, 0), c) in
  match checkpoint_wire, receipt_buf, transport with
  | Some wire, Some capacity, Some (socket_fd, timeout_ms) =>
      if negb (len wire =? CHECKPOINT_WIRE_SIZE) || (capacity <? RECEIPT_WIRE_SIZE) || negb len_present
         || (socket_fd <? 0) || (timeout_ms <=? 0)
      then invalid
      else
        match attempts c with
        | [] => (None, c)
        | a :: rest =>
            let after i o := mk_conn i o rest in
            if negb (at_nonblock a =? 0) then (gave_up, after (inbox c) (outbox c))
            else if negb (at_poll a) || negb (at_add a =? 0) then (gave_up, after (inbox c) (outbox c))
            else
              let frame := store_u32_be (u32 (len wire)) ++ wire in
              let deadline := u64 (at_now a + timeout_ms) in
              let (ended, sent) := send_loop (len frame) deadline (at_sending a) 0 in
              let out := outbox c ++ sub 0 sent frame in
              match ended with
              | Died => (None, after (inbox c) out)
              | GaveUp => (gave_up, after (inbox c) out)
              | Done =>
                  if negb (at_mod a =? 0) then (gave_up, after (inbox c) out)
                  else
                    let '(ended, response, i) := recv_loop deadline (at_receiving a) 4 [] (inbox c) in
                    match ended with
                    | Died => (None, after i out)
                    | GaveUp => (gave_up, after i out)
                    | Done => (Some (FORWARDER_OK, sub 4 RECEIPT_WIRE_SIZE response, RECEIPT_WIRE_SIZE), after i out)
                    end
              end
        end
  | _, _, _ => invalid
  end.

(** The transport of a forwarder with a connected socket. *)
Definition socket_transport (socket_fd timeout_ms : Z) : conn -> bytes -> send_answer * conn :=
  fun c wire => alrios_forwarder_socket_send (Some (socket_fd, timeout_ms)) (Some wire) (Some RECEIPT_WIRE_SIZE) true c.

(** ** Specification *)

Section Spec.
Context (hmac : bytes -> bytes -> bytes).

(** The layout the three records share. *)
Definition framed (magic : bytes) (seq : Z) (rest : bytes) : bytes :=
  magic ++ store_u16_be 1 ++ store_u16_be 0 ++ store_u64_be seq ++ rest.

Definition tagged (key domain body : bytes) : bytes := body ++ hmac key (domain ++ body).

Definition checkpoint_wire (key : bytes) (seq ts : Z) (hash : bytes) : bytes :=
  tagged key checkpoint_domain (framed checkpoint_magic seq (store_u64_be ts ++ hash)).

Definition receipt_wire (key : bytes) (seq : Z) (hash nonce : bytes) : bytes :=
  tagged key receipt_domain (framed receipt_magic seq (hash ++ nonce)).

Definition state_wire (key : bytes) (s : fstate) : bytes :=
  tagged key state_domain (framed state_magic (st_ack_sequence s) (st_ack_hash s)).

(** The file of an acknowledged state: empty before the first. *)
Definition state_file (key : bytes) (s : fstate) : bytes :=
  if st_ack_sequence s =? 0 then [] else state_wire key s.

Definition hash_ok (h : bytes) : Prop := len h = 32 /\ bytes_ok h.

Definition sequence_ok (seq : Z) : Prop := 0 < seq < 2 ^ 64.

Definition state_ok (s : fstate) : Prop :=
  s = zero_fstate \/ sequence_ok (st_ack_sequence s) /\ hash_ok (st_ack_hash s).

(** A checkpoint that waits. *)
Record item := mk_item { it_seq : Z; it_ts : Z; it_hash : bytes }.

Definition item_ok (x : item) : Prop := sequence_ok (it_seq x) /\ 0 <= it_ts x < 2 ^ 64 /\ hash_ok (it_hash x).

Definition item_of (c : checkpoint) : item := mk_item (cp_sequence c) (cp_timestamp_ns c) (cp_block_hash c).

Definition item_wire (key : bytes) (x : item) : bytes := checkpoint_wire key (it_seq x) (it_ts x) (it_hash x).

Definition ack_of (x : item) : fstate := mk_fstate (it_seq x) (it_hash x).
End Spec.

#[export] Hint Unfold CHECKPOINT_WIRE_SIZE RECEIPT_WIRE_SIZE STATE_WIRE_SIZE CHECKPOINT_BODY_SIZE RECEIPT_BODY_SIZE
  STATE_BODY_SIZE FORWARDER_MAC_SIZE RECEIPT_NONCE_SIZE AUDIT_HASH_SIZE FORWARDER_KEY_SIZE : consts.

(** ** Records *)

Section Records.
Context {C : bytes -> Prop} (hmac : bytes -> bytes -> bytes).
Context (hmac_len : forall k m, len (hmac k m) = 32) (hmac_ok : forall k m, bytes_ok (hmac k m)).

Lemma len_framed magic seq rest : len magic = 8 -> len (framed magic seq rest) = 20 + len rest.
Proof. intros H. unfold framed. rewrite !len_app, !len_store_u16, len_store_u64, H. lia. Qed.

Lemma framed_ok magic seq rest : bytes_ok magic -> bytes_ok rest -> bytes_ok (framed magic seq rest).
Proof.
  intros. unfold framed. rewrite !bytes_ok_app. split_and!; try done; apply store_u16_ok || apply store_u64_ok.
Qed.

Lemma framed_app magic seq a b : framed magic seq a ++ b = framed magic seq (a ++ b).
Proof. unfold framed. by rewrite <- !app_assoc. Qed.

(** The tests of the readers, and the fields. *)
Lemma framed_fields magic seq rest :
  len magic = 8 -> sequence_ok seq ->
  let w := framed magic seq rest in
  sub 0 8 w = magic /\ load_u16_be (sub 8 2 w) = 1 /\ load_u16_be (sub 10 2 w) = 0 /\
  load_u64_be (sub 12 8 w) = seq /\ forall off n, 20 <= off -> sub off n w = sub (off - 20) n rest.
Proof.
  intros Hm Hs. unfold framed. cbv zeta. split_and!.
  - by apply sub_here.
  - rewrite sub_app_r by lia. rewrite sub_here; [done|lia|done].
  - rewrite sub_app_r by lia. rewrite sub_app_r by (rewrite len_store_u16; lia). rewrite sub_here; [done|rewrite len_store_u16; lia|done].
  - rewrite 3!sub_app_r by (rewrite ?len_store_u16; lia). rewrite sub_here by (rewrite ?len_store_u16, ?len_store_u64; lia).
    apply load_store_u64. unfold sequence_ok in Hs. lia.
  - intros off n Ho. rewrite 4!sub_app_r by (rewrite ?len_store_u16, ?len_store_u64; lia).
    rewrite !len_store_u16, len_store_u64, Hm. f_equal. lia.
Qed.

(** What passes the tests has the layout. *)
Lemma framed_inv magic w :
  len magic = 8 -> 20 <= len w -> bytes_ok w ->
  negb (bytes_eqb (sub 0 8 w) magic) || negb (load_u16_be (sub 8 2 w) =? 1)
    || negb (load_u16_be (sub 10 2 w) =? 0) || (load_u64_be (sub 12 8 w) =? 0) = false ->
  w = framed magic (load_u64_be (sub 12 8 w)) (drop 20 w) /\ sequence_ok (load_u64_be (sub 12 8 w)).
Proof.
  intros Hm Hl Hok H. bool_hyps.
  match goal with H : bytes_eqb _ _ = true |- _ => apply bytes_eqb_eq in H; rename H into Emagic end.
  assert (Hb : forall off n, bytes_ok (sub off n w)) by (intros; by apply bytes_ok_sub).
  split.
  - unfold framed. rewrite <- Emagic at 1.
    assert (E8 : store_u16_be 1 = sub 8 2 w) by (rewrite <- (store_load_u16 (sub 8 2 w)) by (apply Hb || (rewrite len_sub; lia)); congruence).
    assert (E10 : store_u16_be 0 = sub 10 2 w) by (rewrite <- (store_load_u16 (sub 10 2 w)) by (apply Hb || (rewrite len_sub; lia)); congruence).
    rewrite E8, E10, store_load_u64 by (apply Hb || (rewrite len_sub; lia)).
    change 20%nat with (Z.to_nat 20). rewrite drop_sub by lia. rewrite !sub_join by lia. symmetry. apply sub_all. lia.
  - pose proof (load_u64_bound (sub 12 8 w) (Hb _ _)) as Hr. rewrite len_sub in Hr by lia. unfold sequence_ok. lia.
Qed.

Lemma framed_sub magic seq w n :
  len magic = 8 -> w = framed magic seq (drop 20 w) -> 20 <= n <= len w ->
  sub 0 n w = framed magic seq (sub 20 (n - 20) w).
Proof.
  intros Hm E Hn. assert (E20 : sub 0 20 w = framed magic seq []).
  { rewrite E. unfold framed. rewrite !app_assoc, app_nil_r. apply sub_here; [done|].
    by rewrite !len_app, !len_store_u16, len_store_u64, Hm. }
  transitivity (sub 0 20 w ++ sub 20 (n - 20) w).
  - rewrite sub_join by lia. f_equal. lia.
  - by rewrite E20, framed_app.
Qed.

Lemma tagged_inv key domain w n :
  0 <= n -> len w = n + 32 -> bytes_eqb (hmac key (domain ++ sub 0 n w)) (sub n 32 w) = true ->
  w = tagged hmac key domain (sub 0 n w).
Proof.
  intros Hn Hl Hm%bytes_eqb_eq. unfold tagged. rewrite Hm, sub_join by lia. symmetry. apply sub_all. lia.
Qed.

Lemma len_tagged key domain body : len (tagged hmac key domain body) = len body + 32.
Proof. unfold tagged. by rewrite len_app, hmac_len. Qed.

Lemma checkpoint_body_eq seq ts hash :
  len hash = 32 -> checkpoint_body seq ts hash = framed checkpoint_magic seq (store_u64_be ts ++ hash).
Proof.
  intros Hh. unfold checkpoint_body. cbv zeta. rewrite (sub_all AUDIT_HASH_SIZE) by done.
  change (zeros CHECKPOINT_WIRE_SIZE) with ([] ++ zeros 92). assert (Hm : len checkpoint_magic = 8) by done.
  do 6 (rewrite upd_fill0 by (autorewrite with buf; rewrite ?len_store_u16, ?len_store_u64; lia)).
  rewrite app_nil_l, sub_here; [unfold framed; by rewrite <- !app_assoc|done|].
  rewrite !len_app, !len_store_u16, !len_store_u64, Hh, Hm. done.
Qed.

Lemma receipt_body_eq seq hash nonce :
  len hash = 32 -> len nonce = 16 -> receipt_body seq hash nonce = framed receipt_magic seq (hash ++ nonce).
Proof.
  intros Hh Hn. unfold receipt_body. cbv zeta. rewrite (sub_all AUDIT_HASH_SIZE), (sub_all RECEIPT_NONCE_SIZE) by done.
  change (zeros RECEIPT_WIRE_SIZE) with ([] ++ zeros 100). assert (Hm : len receipt_magic = 8) by done.
  do 6 (rewrite upd_fill0 by (autorewrite with buf; rewrite ?len_store_u16, ?len_store_u64; lia)).
  rewrite app_nil_l, sub_here; [unfold framed; by rewrite <- !app_assoc|done|].
  rewrite !len_app, !len_store_u16, !len_store_u64, Hh, Hn, Hm. done.
Qed.

Lemma state_body_eq s :
  len (st_ack_hash s) = 32 -> state_body s = framed state_magic (st_ack_sequence s) (st_ack_hash s).
Proof.
  intros Hh. unfold state_body. cbv zeta. rewrite (sub_all AUDIT_HASH_SIZE) by done.
  change (zeros STATE_WIRE_SIZE) with ([] ++ zeros 84). assert (Hm : len state_magic = 8) by done.
  do 5 (rewrite upd_fill0 by (autorewrite with buf; rewrite ?len_store_u16, ?len_store_u64; lia)).
  rewrite app_nil_l, sub_here; [unfold framed; by rewrite <- !app_assoc|done|].
  rewrite !len_app, !len_store_u16, !len_store_u64, Hh, Hm. done.
Qed.

Lemma wp_hmac key domain body w :
  C (file w) ->
  wp (hmac_sha256 hmac key domain body) C (fun r w' => later w w' /\
    (r = (FORWARDER_OK, hmac key (domain ++ body)) \/ r.1 = FORWARDER_ERR_AUTH)) w.
Proof.
  intros Hc. unfold hmac_sha256. apply wp_bind. eapply wp_mono; [by apply wp_all_calls|]. intros b w1 W1.
  destruct b; apply wp_ret; (split; [done|]); [by left|by right].
Qed.

Lemma wp_checkpoint_encode key x w :
  C (file w) -> item_ok x ->
  wp (alrios_checkpoint_encode hmac (it_seq x) (it_ts x) (Some (it_hash x)) (Some key) true) C (fun r w' =>
    later w w' /\ (r = (FORWARDER_OK, Some (item_wire hmac key x)) \/ r.1 = FORWARDER_ERR_AUTH)) w.
Proof.
  intros Hc (Hs & _ & Hh & _). unfold alrios_checkpoint_encode. unfold sequence_ok in Hs.
  rewrite (proj2 (Z.eqb_neq _ 0)) by lia. cbn [orb negb]. rewrite checkpoint_body_eq by done.
  apply wp_bind. eapply wp_mono; [by apply wp_hmac|]. intros r w1 [W1 [->|E]].
  - apply wp_ret. split; [done|by left].
  - destruct r as [st mac]. cbn [fst] in E. subst st. apply wp_ret. split; [done|by right].
Qed.

(** A receipt is accepted only if it is one, with the tag of the key. *)
Lemma wp_receipt_decode key b w :
  C (file w) -> len b = 100 -> bytes_ok b ->
  wp (alrios_receipt_decode_and_verify hmac (Some b) (Some key) true) C (fun r w' => later w w' /\
    ((exists seq hash nonce mac, b = receipt_wire hmac key seq hash nonce /\ sequence_ok seq /\ hash_ok hash /\
        len nonce = 16 /\ r = (FORWARDER_OK, Some (mk_receipt seq hash nonce mac)))
     \/ r = (FORWARDER_ERR_AUTH, Some zero_receipt))) w.
Proof.
  intros Hc Hl Hok. unfold alrios_receipt_decode_and_verify. cbn [negb].
  destruct (_ || _) eqn:E; [apply wp_ret; split; [apply later_refl|by right]|].
  apply (framed_inv receipt_magic b) in E as [Ew Hs]; [|done|lia|done].
  apply wp_bind. eapply wp_mono; [by apply wp_hmac|]. intros r w1 [W1 [->|E]].
  2: { destruct r as [st mac]. cbn [fst] in E. subst st. apply wp_ret. split; [done|by right]. }
  cbn [orb negb Z.eqb FORWARDER_OK]. destruct (bytes_eqb _ _) eqn:Em; apply wp_ret; (split; [done|]); [|by right].
  left. apply tagged_inv in Em; [|done|done]. eexists _, (sub 20 32 b), (sub 52 16 b), _. split_and!; [|done|..].
  - rewrite Em at 1. unfold receipt_wire. f_equal. unfold RECEIPT_BODY_SIZE.
    rewrite (framed_sub receipt_magic _ b 68 eq_refl Ew) by lia. f_equal. by rewrite sub_join by lia.
  - split; [rewrite len_sub; lia|by apply bytes_ok_sub].
  - rewrite len_sub; lia.
  - done.
Qed.

(** ** The state file *)

(** The files a write of [s] over [f] can leave. *)
Definition written (key : bytes) (s : fstate) (f f' : bytes) : Prop :=
  (exists k, 0 <= k <= STATE_WIRE_SIZE /\ f' = overlay k (state_wire hmac key s) f) \/ f' = state_wire hmac key s.

Lemma written_same key s f : written key s f f.
Proof. left. exists 0. rewrite overlay_0. split; [by vm_compute|done]. Qed.

Lemma len_state_wire key s : len (st_ack_hash s) = 32 -> len (state_wire hmac key s) = STATE_WIRE_SIZE.
Proof. intros Hh. unfold state_wire. rewrite len_tagged, len_framed, Hh by done. done. Qed.

Lemma wp_read_state_at n w :
  C (file w) -> 0 <= n ->
  wp (read_state_at n 0) C (fun r w' => later w w' /\ (r.1 = FORWARDER_OK -> r.2 = sub 0 n (file w))) w.
Proof.
  intros Hc Hn. unfold read_state_at.
  apply wp_io_loop with (I := fun acc w' => later w w' /\ acc = sub 0 (len acc) (file w) /\ len acc <= n).
  2: { split; [apply later_refl|]. by split. }
  intros acc w0 ([F L] & Ha & Hle). pose proof (len_nonneg acc). cbv zeta.
  destruct (negb (len acc <? n)) eqn:E1; bool_hyps.
  { apply wp_ret. split; [by split|]. intros _. by replace n with (len acc) by lia. }
  wp_step; [by apply wp_ret|]. wp_step; [by apply wp_ret|].
  apply wp_bind, (wp_pread_prefix C (file w) 0 n acc); [done..|]. intros r w' [F' L'] Hr. apply wp_ret.
  assert (Hw : later w w') by (split; [congruence|lia]).
  destruct r as [data| |]; [|by split; [split|]|by split].
  destruct (len data >? 0) eqn:E2; bool_hyps; [|by split].
  destruct (Hr data eq_refl) as (? & ? & _); [lia|]. by split; [split_and!|].
Qed.

Lemma wp_write_state_at new f w :
  file w = f -> len new <= INT64_MAX -> (forall k, 0 <= k <= len new -> C (overlay k new f)) ->
  wp (write_state_at new (len new) 0) C (fun st w' => exists k, 0 <= k <= len new /\
    file w' = overlay k new f /\ (st = FORWARDER_OK -> k = len new)) w.
Proof.
  intros F Hl Hc. unfold write_state_at.
  apply wp_io_loop with (I := fun k w' => 0 <= k <= len new /\ file w' = overlay k new f).
  2: { pose proof (len_nonneg new). by rewrite overlay_0. }
  intros k w0 [Hk F0].
  destruct (negb (k <? len new)) eqn:E1; bool_hyps.
  { apply wp_ret. exists k. split_and!; try done; lia. }
  wp_step; [apply wp_ret; exists k; split_and!; try done; lia|]. cbv zeta.
  wp_step; [apply wp_ret; exists k; split_and!; try done; lia|].
  apply wp_bind, (wp_pwrite_overlay C new f); [done..|by apply Hc|]. intros r w' L' Hw. apply wp_ret.
  destruct r as [n| |]; [|by split; [split|]|exists k; split_and!; try done; lia].
  destruct Hw as (? & ? & Hf). destruct (n >? 0) eqn:E2; bool_hyps.
  - split; [|done]. split; [lia|done].
  - exists (k + n). split_and!; [lia|lia|done|done].
Qed.

Lemma wp_state_write fd key s f w :
  file w = f -> sequence_ok (st_ack_sequence s) -> hash_ok (st_ack_hash s) -> (forall f', written key s f f' -> C f') ->
  wp (alrios_forwarder_state_write hmac fd (Some key) (Some s)) C (fun st w' =>
    written key s f (file w') /\ (st = FORWARDER_OK -> file w' = state_wire hmac key s)) w.
Proof.
  intros F Hs [Hh _] HC. pose proof (written_same key s f) as Hsame. pose proof (HC f Hsame) as Hc.
  unfold alrios_forwarder_state_write. unfold sequence_ok in Hs.
  wp_step; [apply wp_ret; by rewrite F|]. cbv zeta.
  rewrite state_body_eq by done.
  apply wp_bind. eapply wp_mono; [apply wp_hmac; by rewrite F|]. intros [st1 mac] w1 [[F1 _] Hr]. rewrite F in F1.
  set (wire := state_wire hmac key s) in *. set (body := framed _ _ _) in *.
  pose proof (len_state_wire key s Hh) as Hwl. fold wire in Hwl.
  assert (Hov : forall k, 0 <= k <= len wire -> written key s f (overlay k wire f)).
  { intros k Hk. left. exists k. by rewrite <- Hwl. }
  apply wp_bind. eapply (wp_mono _ _ (fun st w' => written key s f (file w') /\
    (st = FORWARDER_OK -> file w' = overlay (len wire) wire f))).
  { wp_step; bool_hyps; [|apply wp_ret; by rewrite F1].
    replace (body ++ mac) with wire by (destruct Hr as [[= -> ->]|Hr]; [done|cbn in Hr; subst; done]). rewrite <- Hwl.
    eapply wp_mono; [apply wp_write_state_at; [done|by rewrite Hwl|]; intros; by apply HC, Hov|].
    intros st w' (k & Hk & F' & HK). rewrite F'. split; [by apply Hov|]. by intros ->%HK. }
  intros st2 w2 [H2 F2]. apply wp_bind. eapply (wp_mono _ _ (fun st w' => written key s f (file w') /\
    (st = FORWARDER_OK -> file w' = wire))).
  { wp_step; bool_hyps; [|by apply wp_ret]. specialize (F2 ltac:(done)).
    apply wp_bind, wp_ftruncate; [by apply HC|]. intros r w3 _ Hr3. apply wp_ret.
    destruct r as [[]| |]; [|by rewrite Hr3..]. assert (F3 : file w3 = wire).
    { rewrite Hr3, F2. unfold overlay at 1 2. rewrite sub_full. by apply truncate_prefix. }
    rewrite F3. split; [by right|done]. }
  intros st3 w3 [H3 F3]. wp_step; bool_hyps; [|by apply wp_ret]. specialize (F3 ltac:(done)).
  apply wp_bind, wp_fsync; [by apply HC|]. intros r w4 [F4 _]. apply wp_ret. rewrite F4. split; [done|]. by intros _.
Qed.

Lemma wp_state_read fd key w :
  C (file w) -> bytes_ok (file w) ->
  wp (alrios_forwarder_state_read hmac fd (Some key) true) C (fun r w' => later w w' /\
    ((exists s, r = (FORWARDER_OK, Some s) /\ state_ok s /\ file w = state_file hmac key s)
     \/ r.1 <> FORWARDER_OK)) w.
Proof.
  intros Hc Hok. unfold alrios_forwarder_state_read.
  wp_step; [apply wp_ret; split; [apply later_refl|by right]|].
  apply wp_bind, wp_sys_ok; [done|]. intros b w1 [F1 L1]. assert (W1 : later w w1) by (split; [done|lia]).
  wp_step; [apply wp_ret; split; [done|by right]|]. apply wp_bind. unfold wp at 1, get_file. rewrite F1.
  wp_step; bool_hyps.
  { apply wp_ret. split; [done|]. left. exists zero_fstate. split_and!; [done|by left|].
    destruct (file w); [done|]. rewrite len_cons in *. pose proof (len_nonneg l). lia. }
  wp_step; bool_hyps; [apply wp_ret; split; [done|by right]|].
  apply wp_bind. eapply wp_mono; [apply wp_read_state_at; [by rewrite F1|done]|].
  intros [st b2] w2 [W2 D2]. assert (W02 : later w w2) by (by eapply later_trans). cbn [fst snd] in D2.
  wp_step; bool_hyps; [apply wp_ret; split; [done|by right]|]. rewrite F1 in D2. rewrite D2, (sub_all STATE_WIRE_SIZE) by done.
  destruct (_ || _) eqn:E; [apply wp_ret; split; [done|by right]|].
  apply (framed_inv state_magic (file w)) in E as [Ew Hs]; [|done|unfold STATE_WIRE_SIZE in *; lia|done].
  apply wp_bind. eapply wp_mono; [apply wp_hmac; by rewrite (proj1 W02)|]. intros r w3 [W3 Hr].
  assert (W03 : later w w3) by (by eapply later_trans).
  destruct Hr as [->|Er]; [|destruct r as [s3 m3]; cbn [fst] in Er; subst s3; apply wp_ret; split; [done|by right]].
  cbn [orb negb Z.eqb FORWARDER_OK]. unfold STATE_WIRE_SIZE, STATE_BODY_SIZE in *.
  destruct (bytes_eqb _ _) eqn:Em; apply wp_ret; (split; [done|]); [|by right].
  apply tagged_inv in Em; [|done|lia]. left. eexists. split; [done|]. split.
  - right. split; [done|]. split; [cbn; rewrite len_sub; lia|by apply bytes_ok_sub].
  - unfold state_file, state_wire. cbn [st_ack_sequence st_ack_hash]. unfold sequence_ok in Hs.
    rewrite (proj2 (Z.eqb_neq _ 0)) by lia. rewrite Em at 1. f_equal.
    by rewrite (framed_sub state_magic _ (file w) 52 eq_refl Ew) by lia.
Qed.
End Records.

(** ** The queue and its histories *)

Section Histories.
Context {T : Type} (hmac : bytes -> bytes -> bytes).
Context (send : T -> bytes -> send_answer * T) (key : bytes) (fd : Z).

(** A call of the client: what it passes, and what it gets. *)
Inductive call := Enqueue (sequence timestamp_ns : Z) (block_hash : option bytes) | Flush.

Definition do_call (c : call) (f : forwarder T) (t : T) : io (Z * forwarder T * T) :=
  match c with
  | Enqueue seq ts hash =>
      let (status, f') := alrios_forwarder_enqueue (Some f) seq ts hash in ret (status, default f f', t)
  | Flush =>
      let* (status, f', t) := alrios_forwarder_flush hmac (Some f) t in ret (status, default f f', t)
  end.

(** The statuses of a history of calls, and where it ends. *)
Fixpoint run (calls : list call) (f : forwarder T) (t : T) : io (list Z * forwarder T * T) :=
  match calls with
  | [] => ret ([], f, t)
  | c :: calls =>
      let* (status, f, t) := do_call c f t in
      let* (statuses, f, t) := run calls f t in
      ret (status :: statuses, f, t)
  end.

(** A forwarder from its start: the status of the start, and the history. *)
Definition session (queue_capacity : Z) (calls : list call) (t : T) : io (Z * list Z * option (forwarder T) * T) :=
  let* (status, f) := alrios_forwarder_init hmac true true queue_capacity (Some key) fd (Some send) in
  match f with
  | Some f' =>
      if negb (status =? FORWARDER_OK) then ret (status, [], f, t)
      else let* (statuses, f', t) := run calls f' t in ret (status, statuses, Some f', t)
  | None => ret (status, [], f, t)
  end.

(** What a client knows: the checkpoints that wait and those that were acknowledged. *)
Record view := mk_view { v_waiting : list item; v_done : list item }.

Definition step_view (c : call) (status : Z) (v : view) : view :=
  if negb (status =? FORWARDER_OK) then v
  else
    match c, v_waiting v with
    | Enqueue seq ts hash, waiting => mk_view (waiting ++ [mk_item seq ts (default [] hash)]) (v_done v)
    | Flush, x :: waiting => mk_view waiting (v_done v ++ [x])
    | Flush, [] => v
    end.

Fixpoint replay (calls : list call) (statuses : list Z) (v : view) : view :=
  match calls, statuses with
  | c :: calls, st :: statuses => replay calls statuses (step_view c st v)
  | _, _ => v
  end.

(** The checkpoints the queue took, in order. *)
Fixpoint accepted (calls : list call) (statuses : list Z) : list item :=
  match calls, statuses with
  | Enqueue seq ts hash :: calls, st :: statuses =>
      (if st =? FORWARDER_OK then [mk_item seq ts (default [] hash)] else []) ++ accepted calls statuses
  | Flush :: calls, _ :: statuses => accepted calls statuses
  | _, _ => []
  end.

Definition start_view : view := mk_view [] [].

Definition call_ok (c : call) : Prop :=
  match c with
  | Enqueue seq ts hash =>
      0 <= seq < 2 ^ 64 /\ 0 <= ts < 2 ^ 64 /\ match hash with Some h => hash_ok h | None => True end
  | Flush => True
  end.

(** The acknowledged state after the deliveries of [done]. *)
Definition ack_after (s0 : fstate) (done : list item) : fstate :=
  fold_left (fun _ x => ack_of x) done s0.

(** The transport's states of a history that starts in [t]. *)
Inductive reaches (t : T) : T -> Prop :=
  | Reach_here : reaches t t
  | Reach_send t1 m a t2 : reaches t t1 -> send t1 m = (a, t2) -> reaches t t2.

(** The transport was given the checkpoint and brought a receipt for it, tagged with the
    key. *)
Definition acknowledged (t0 : T) (x : item) : Prop :=
  exists t nonce t', reaches t0 t /\ len nonce = 16 /\
    send t (item_wire hmac key x)
      = (Some (FORWARDER_OK, receipt_wire hmac key (it_seq x) (it_hash x) nonce, RECEIPT_WIRE_SIZE), t').

(** The deliveries: each with its receipt, none older than the one before. *)
Definition delivered (t0 : T) (s0 : fstate) (done : list item) : Prop :=
  Forall (acknowledged t0) done /\ Forall item_ok done /\ Sorted Z.le (st_ack_sequence s0 :: map it_seq done).

(** The state file: of the last delivery, or being overwritten with the next one, whose
    receipt is there. A forwarder without a state file does not touch it. *)
Definition file_of (t0 : T) (s0 : fstate) (f0 : bytes) (v : view) (f : bytes) : Prop :=
  if fd <? 0 then f = f0
  else
    let old := state_file hmac key (ack_after s0 (v_done v)) in
    f = old \/
    exists x rest k, v_waiting v = x :: rest /\ item_ok x /\ acknowledged t0 x /\
      st_ack_sequence (ack_after s0 (v_done v)) <= it_seq x /\
      0 <= k <= STATE_WIRE_SIZE /\ f = overlay k (state_wire hmac key (ack_of x)) old.

Definition queue_items (f : forwarder T) : list item :=
  match fw_queue f with
  | Some q => map item_of (ring zero_ckpt q (fw_capacity f) (fw_head f) (Z.to_nat (fw_count f)))
  | None => []
  end.

(** The structure holds [v]. *)
Record represents (s0 : fstate) (v : view) (f : forwarder T) : Prop := {
  rp_queue : exists q, fw_queue f = Some q /\ ring_shape q (fw_capacity f) (fw_head f) (fw_count f);
  rp_tail : fw_tail f = (fw_head f + fw_count f) mod fw_capacity f;
  rp_items : queue_items f = v_waiting v;
  rp_ok : Forall item_ok (v_waiting v);
  rp_ack : fw_persisted f = ack_after s0 (v_done v);
  rp_key : fw_key f = key;
  rp_fd : fw_state_fd f = fd;
  rp_send : fw_send f = Some send;
}.

(** A view of a history from [t0] and the file [f0]. *)
Record history (t0 : T) (s0 : fstate) (f0 : bytes) (v : view) (f : forwarder T) (t : T) (fl : bytes) : Prop := {
  hi_rep : represents s0 v f;
  hi_done : delivered t0 s0 (v_done v);
  hi_reach : reaches t0 t;
  hi_file : file_of t0 s0 f0 v fl;
}.

(** The state a session starts with: the one in the file [f0], if there is a file. *)
Definition starts_with (f0 : bytes) (s0 : fstate) : Prop :=
  state_ok s0 /\ if fd <? 0 then s0 = zero_fstate else f0 = state_file hmac key s0.

(** The receipt buffer has 100 octets, whatever the transport stores there. *)
Definition buffers_ok (t0 : T) : Prop :=
  forall t m st buf n t', reaches t0 t -> send t m = (Some (st, buf, n), t') -> len buf = RECEIPT_WIRE_SIZE /\ bytes_ok buf.
End Histories.

(** Overwriting twice with the same octets. *)
Lemma overlay_overlay j k new f :
  0 <= j <= len new -> 0 <= k <= len new -> overlay j new (overlay k new f) = overlay (Z.max j k) new f.
Proof.
  intros Hj Hk. unfold overlay at 1 2. assert (Hl : len (sub 0 k new) = k) by (rewrite len_sub; lia).
  destruct (Z.le_gt_cases k j) as [Hle|Hgt].
  - rewrite drop_app_ge by (unfold len in *; lia). unfold overlay. rewrite Z.max_l by lia. f_equal.
    rewrite drop_drop. f_equal. unfold len in *. lia.
  - rewrite drop_app_le by (unfold len in *; lia). unfold overlay. rewrite Z.max_r by lia.
    rewrite app_assoc. f_equal. rewrite drop_sub by lia. rewrite Hl.
    rewrite sub_of_sub, Z.add_0_l, sub_join by lia. f_equal. lia.
Qed.

Lemma sorted_le_snoc a l x :
  Sorted Z.le (a :: l) -> fold_left (fun _ y => y) l a <= x -> Sorted Z.le (a :: l ++ [x]).
Proof.
  revert a. induction l as [|b l IH]; intros a Hs Hx; cbn in *; [by repeat constructor|].
  inversion Hs as [|? ? Hs' Hr]; subst. constructor; [by apply IH|]. inversion Hr; subst. by constructor.
Qed.

Section HistoryProofs.
Context {T : Type} (hmac : bytes -> bytes -> bytes).
Context (hmac_len : forall k m, len (hmac k m) = 32) (hmac_ok : forall k m, bytes_ok (hmac k m)).
Context (send : T -> bytes -> send_answer * T) (key : bytes) (fd : Z).
Context (t0 : T) (buffers : buffers_ok send t0) (s0 : fstate) (f0 : bytes) (s0_ok : state_ok s0).

Abbreviation represents_ := (represents send key fd s0).
Abbreviation history_ := (history hmac send key fd t0 s0 f0).
Abbreviation file_of_ := (file_of hmac send key fd t0 s0 f0).

Lemma ack_after_snoc done x : ack_after s0 (done ++ [x]) = ack_of x.
Proof. unfold ack_after. by rewrite fold_left_app. Qed.

Lemma ack_after_seq done :
  st_ack_sequence (ack_after s0 done) = fold_left (fun _ y => y) (map it_seq done) (st_ack_sequence s0).
Proof. unfold ack_after. clear. revert s0. induction done as [|x d IH]; intros s; cbn; [done|]. by rewrite IH. Qed.

Lemma ack_after_ok done : Forall item_ok done -> state_ok (ack_after s0 done).
Proof.
  intros H. destruct done as [|x d _] using rev_ind; [done|]. rewrite ack_after_snoc.
  apply Forall_app in H as [_ H]. apply list.Forall_singleton in H as (? & _ & ?). by right.
Qed.

Lemma delivered_snoc done x :
  delivered hmac send key t0 s0 done -> acknowledged hmac send key t0 x -> item_ok x ->
  st_ack_sequence (ack_after s0 done) <= it_seq x -> delivered hmac send key t0 s0 (done ++ [x]).
Proof.
  intros (Ha & Hi & Hs) Hx Hxi Hle. split_and!.
  - apply Forall_app. split; [done|by apply list.Forall_singleton].
  - apply Forall_app. split; [done|by apply list.Forall_singleton].
  - rewrite map_app. apply sorted_le_snoc; [done|]. by rewrite <- ack_after_seq.
Qed.

Lemma len_state_file s : state_ok s -> len (state_file hmac key s) <= STATE_WIRE_SIZE.
Proof.
  intros Hs. unfold state_file. destruct (_ =? _) eqn:E; [done|]. destruct Hs as [->|[_ [Hh _]]]; [done|].
  by rewrite len_state_wire.
Qed.

Lemma state_file_ack x : item_ok x -> state_file hmac key (ack_of x) = state_wire hmac key (ack_of x).
Proof.
  intros (Hs & _). unfold state_file. cbn [st_ack_sequence ack_of]. unfold sequence_ok in Hs.
  by rewrite (proj2 (Z.eqb_neq _ 0)) by lia.
Qed.

Lemma enqueue_view v f seq ts hash :
  represents_ v f -> call_ok (Enqueue seq ts hash) ->
  let (st, f') := alrios_forwarder_enqueue (Some f) seq ts hash in
  represents_ (step_view (Enqueue seq ts hash) st v) (default f f').
Proof.
  intros Hr (Hs & Ht & Hh). unfold alrios_forwarder_enqueue. destruct hash as [h|]; [|done].
  destruct (rp_queue _ _ _ _ _ _ Hr) as (q & Hq & Hring). rewrite Hq, (rp_send _ _ _ _ _ _ Hr).
  pose proof (rg_cap _ _ _ _ Hring). pose proof (rg_count _ _ _ _ Hring).
  destruct ((seq =? 0) || (fw_capacity f =? 0)) eqn:E1; [done|]. destruct (fw_count f =? fw_capacity f) eqn:E2; [done|]. bool_hyps.
  unfold step_view. cbn [negb Z.eqb FORWARDER_OK default]. cbn [from_option id].
  rewrite (sub_all AUDIT_HASH_SIZE) by (symmetry; apply Hh).
  rewrite (rp_tail _ _ _ _ _ _ Hr).
  assert (Hlt : fw_count f < fw_capacity f) by lia.
  match goal with |- context [<[_ := ?e]> q] => destruct (ring_push zero_ckpt q _ _ _ e Hring Hlt) as [Hp Hring'] end.
  split; cbn; try apply Hr.
  - eauto.
  - rewrite Zplus_mod_idemp_l. f_equal. lia.
  - unfold queue_items. cbn. rewrite Hp, map_app. f_equal. rewrite <- (rp_items _ _ _ _ _ _ Hr). unfold queue_items. by rewrite Hq.
  - apply Forall_app. split; [apply Hr|]. apply list.Forall_singleton. split_and!; cbn; try apply Hh; unfold sequence_ok; lia.
  - done.
Qed.

(** The head of the queue is the first checkpoint that waits. *)
Lemma queue_head v f q :
  represents_ v f -> fw_queue f = Some q -> fw_count f <> 0 ->
  exists x rest, v_waiting v = x :: rest /\ item_ok x /\ item_of (nth (Z.to_nat (fw_head f)) q zero_ckpt) = x /\
    forall s done, s = ack_after s0 done -> represents_ (mk_view rest done) (acknowledge f q s).
Proof.
  intros Hr Hq Hn. destruct (rp_queue _ _ _ _ _ _ Hr) as (q' & Hq' & Hring). assert (q' = q) as -> by congruence.
  pose proof (rg_count _ _ _ _ Hring). pose proof (rg_cap _ _ _ _ Hring). assert (Hlt : 0 < fw_count f) by lia.
  destruct (ring_pop zero_ckpt q _ _ _ zero_ckpt Hring Hlt) as [E Hring'].
  pose proof (rp_items _ _ _ _ _ _ Hr) as Hi. unfold queue_items in Hi. rewrite Hq, E in Hi. cbn [map] in Hi.
  pose proof (rp_ok _ _ _ _ _ _ Hr) as Hok. rewrite <- Hi in Hok. apply list.Forall_cons in Hok as [Hx Hrest].
  eexists _, _. split; [by symmetry|]. split; [done|]. split; [done|]. intros s done Hs.
  split; cbn; try apply Hr; try done; [eauto|]. rewrite (rp_tail _ _ _ _ _ _ Hr), Zplus_mod_idemp_l. f_equal. lia.
Qed.

(** What a write of the next acknowledgement leaves. *)
Lemma file_written v x rest f f' :
  0 <= fd -> file_of_ v f -> delivered hmac send key t0 s0 (v_done v) -> v_waiting v = x :: rest -> item_ok x ->
  acknowledged hmac send key t0 x -> st_ack_sequence (ack_after s0 (v_done v)) <= it_seq x ->
  written hmac key (ack_of x) f f' -> file_of_ v f'.
Proof.
  intros Hfd Hf Hd Hw Hx Ha Hle Hwr. unfold file_of in *. rewrite (proj2 (Z.ltb_ge _ _)) in * by lia. cbv zeta in *.
  set (old := state_file _ _ _) in *. set (new := state_wire hmac key (ack_of x)) in *.
  assert (Hnl : len new = STATE_WIRE_SIZE) by (apply len_state_wire; [done|apply Hx]).
  assert (Hol : len old <= STATE_WIRE_SIZE) by (apply len_state_file, ack_after_ok, Hd).
  assert (Hk : exists k, 0 <= k <= STATE_WIRE_SIZE /\ f = overlay k new old).
  { destruct Hf as [->|(y & r & k & Hy & _ & _ & _ & Hk & ->)].
    - exists 0. rewrite overlay_0. split; [by vm_compute|done].
    - rewrite Hw in Hy. injection Hy as <- _. by exists k. }
  destruct Hk as (k & Hk & ->). right. destruct Hwr as [(j & Hj & ->)| ->].
  - exists x, rest, (Z.max j k). split_and!; try done; try lia. fold new. apply overlay_overlay; by rewrite Hnl.
  - exists x, rest, STATE_WIRE_SIZE. split_and!; try done; try lia. fold new. rewrite <- Hnl. symmetry. apply overlay_full. lia.
Qed.

Lemma file_delivered v x rest f :
  0 <= fd -> item_ok x -> f = state_wire hmac key (ack_of x) -> file_of_ (mk_view rest (v_done v ++ [x])) f.
Proof.
  intros Hfd Hx ->. unfold file_of. rewrite (proj2 (Z.ltb_ge _ _)) by lia. left. cbn [v_done].
  by rewrite ack_after_snoc, state_file_ack.
Qed.

Lemma wp_flush v f t w :
  history_ v f t (file w) ->
  wp (alrios_forwarder_flush hmac (Some f) t) (file_of_ v) (fun r w' =>
    history_ (step_view Flush r.1.1 v) (default f r.1.2) r.2 (file w')) w.
Proof.
  intros [Hr Hd Hreach Hf]. unfold alrios_forwarder_flush.
  destruct (rp_queue _ _ _ _ _ _ Hr) as (q & Hq & Hring). rewrite Hq, (rp_send _ _ _ _ _ _ Hr).
  pose proof (rg_cap _ _ _ _ Hring) as Hcap. rewrite (proj2 (Z.eqb_neq (fw_capacity f) 0)) by lia.
  assert (Hsame : forall st t' w', st <> FORWARDER_OK -> file_of_ v (file w') -> reaches send t0 t' ->
    history_ (step_view Flush st v) f t' (file w')).
  { intros st t' w' Hst Hf' Ht'. unfold step_view. by rewrite (proj2 (Z.eqb_neq _ _) Hst). }
  destruct (fw_count f =? 0) eqn:En; bool_hyps.
  { apply wp_ret. cbn [fst snd default from_option]. unfold step_view. cbn [negb Z.eqb FORWARDER_OK].
    pose proof (rp_items _ _ _ _ _ _ Hr) as Hi. unfold queue_items in Hi. rewrite Hq, En in Hi. cbn in Hi.
    rewrite <- Hi. done. }
  destruct (queue_head v f q Hr Hq En) as (x & rest & Hw & Hx & Hnth & Hack).
  assert (Hc : file_of_ v (file w)) by done.
  set (entry := nth _ _ _) in *. cbv zeta.
  assert (Es : cp_sequence entry = it_seq x) by (by rewrite <- Hnth). assert (Et : cp_timestamp_ns entry = it_ts x) by (by rewrite <- Hnth).
  assert (Eh : cp_block_hash entry = it_hash x) by (by rewrite <- Hnth). rewrite Es, Et, Eh, (rp_key _ _ _ _ _ _ Hr).
  apply wp_bind. eapply wp_mono; [by apply wp_checkpoint_encode|]. intros r w1 [[F1 _] He].
  destruct He as [->|He].
  2: { destruct r as [st wire]. cbn [fst] in He. subst st. apply wp_ret. apply Hsame; [done|by rewrite F1|done]. }
  cbn [negb Z.eqb FORWARDER_OK default from_option]. rewrite <- F1 in Hf, Hc. clear w F1. rename w1 into w.
  destruct (send t _) as [answer t'] eqn:Esend. cbn [id] in Esend.
  assert (Hreach' : reaches send t0 t') by (by eapply Reach_send).
  destruct answer as [[[st buf] n]|]; [|done].
  destruct (_ || _) eqn:E1; [apply wp_ret; by apply Hsame|]. bool_hyps.
  destruct (buffers _ _ _ _ _ _ Hreach Esend) as [Hbl Hbok].
  apply wp_bind. eapply wp_mono; [by apply wp_receipt_decode|]. intros r w1 [[F1 _] Hrd]. rewrite <- F1 in Hf, Hc. clear w F1. rename w1 into w.
  destruct Hrd as [(seq & hash & nonce & mac & Hb & Hsq & Hhk & Hnl & ->)| ->]; [|apply wp_ret; by apply Hsame].
  cbn [default from_option id rc_ack_sequence rc_ack_hash].
  destruct (_ || _) eqn:E2; [apply wp_ret; by apply Hsame|]. bool_hyps.
  match goal with H : bytes_eqb _ _ = true |- _ => apply bytes_eqb_eq in H end. subst seq hash.
  rewrite (rp_ack _ _ _ _ _ _ Hr), (rp_fd _ _ _ _ _ _ Hr).
  destruct (_ >? _) eqn:E3; [apply wp_ret; by apply Hsame|]. bool_hyps.
  assert (Ha : acknowledged hmac send key t0 x).
  { exists t, nonce, t'. split_and!; [done..|]. rewrite Esend. by repeat f_equal. }
  change (mk_fstate (it_seq x) (it_hash x)) with (ack_of x).
  assert (Hstep : step_view Flush FORWARDER_OK v = mk_view rest (v_done v ++ [x])) by (unfold step_view; by rewrite Hw).
  assert (Hdone : forall w', file_of_ (mk_view rest (v_done v ++ [x])) (file w') ->
    history_ (step_view Flush FORWARDER_OK v) (acknowledge f q (ack_of x)) t' (file w')).
  { intros w' Hf'. rewrite Hstep. split; [|by apply delivered_snoc|done|done].
    apply Hack. cbn [v_done]. by rewrite ack_after_snoc. }
  apply wp_bind. destruct (fd >=? 0) eqn:E4; bool_hyps.
  - eapply wp_mono; [apply wp_state_write with (f := file w); try done; try apply Hx; intros f' Hf'; by eapply file_written|].
    intros st' w' [Hwr Hok]. wp_step; bool_hyps; apply wp_ret; cbn [fst snd default from_option id].
    + apply Hsame; [done| |done]. eapply file_written; try done.
    + apply Hdone. by apply file_delivered, Hok.
  - apply wp_ret. cbn [negb Z.eqb FORWARDER_OK]. apply wp_ret. apply Hdone.
    unfold file_of in *. rewrite (proj2 (Z.ltb_lt _ _)) in * by lia. done.
Qed.

Lemma wp_do_call c v f t w :
  call_ok c -> history_ v f t (file w) ->
  wp (do_call hmac c f t) (file_of_ v) (fun r w' => history_ (step_view c r.1.1 v) r.1.2 r.2 (file w')) w.
Proof.
  intros Hc Hh. destruct c as [seq ts hash|]; cbn [do_call].
  - pose proof (enqueue_view v f seq ts hash (hi_rep _ _ _ _ _ _ _ _ _ _ _ Hh) Hc) as He.
    destruct (alrios_forwarder_enqueue _ _ _ _) as [st f']. apply wp_ret. cbn [fst snd].
    destruct Hh as [_ Hd Hreach Hf].
    assert (Hsd : v_done (step_view (Enqueue seq ts hash) st v) = v_done v) by (unfold step_view; by destruct (negb _)).
    split; [done|by rewrite Hsd|done|]. unfold file_of in *. rewrite Hsd. destruct (fd <? 0); [done|]. cbv zeta in *.
    destruct Hf as [->|(x & rest & k & Hw & Hr)]; [by left|]. right. unfold step_view. destruct (negb _); [by exists x, rest, k|].
    rewrite Hw. cbn [v_waiting]. by eexists x, _, k.
  - apply wp_bind. eapply wp_mono; [by apply wp_flush|]. intros [[st f'] t'] w' Hh'. apply wp_ret. exact Hh'.
Qed.

(** Wherever the process dies, the file is that of the calls it has finished. *)
Definition stopped_in (calls : list call) (v : view) (fl : bytes) : Prop :=
  exists n sts, let v' := replay (take n calls) sts v in
    delivered hmac send key t0 s0 (v_done v') /\ file_of_ v' fl.

Lemma session_wp calls v f t w :
  Forall call_ok calls -> history_ v f t (file w) ->
  wp (run hmac calls f t) (stopped_in calls v) (fun r w' =>
    length r.1.1 = length calls /\ history_ (replay calls r.1.1 v) r.1.2 r.2 (file w')) w.
Proof.
  revert v f t w. induction calls as [|c calls IH]; intros v f t w Hok Hh; cbn [run].
  { by apply wp_ret. }
  apply list.Forall_cons in Hok as [Hc Hok]. apply wp_bind.
  eapply wp_weaken; [eapply wp_mono; [by apply wp_do_call|]|].
  - intros [[st f1] t1] w1 H1. cbn [fst snd] in H1. apply wp_bind.
    eapply wp_weaken; [eapply wp_mono; [by apply IH|]|].
    + intros [[sts f2] t2] w2 [Hl H2]. apply wp_ret. cbn [fst snd length replay] in *. split; [lia|done].
    + intros fl (n & sts & Hd & Hf). by exists (S n), (st :: sts).
  - intros fl Hf. exists 0%nat, []. split; [apply Hh|done].
Qed.

Lemma replay_accepted calls sts v :
  v_done (replay calls sts v) ++ v_waiting (replay calls sts v) = v_done v ++ v_waiting v ++ accepted calls sts.
Proof.
  revert sts v. induction calls as [|c calls IH]; intros [|st sts] v; cbn [replay accepted];
    try (by rewrite app_nil_r); [destruct c; by rewrite app_nil_r|].
  rewrite IH. unfold step_view. destruct c as [seq ts hash|]; destruct (st =? _); cbn [negb]; try done.
  - cbn [v_done v_waiting]. by rewrite <- !app_assoc.
  - destruct (v_waiting v) as [|x rest] eqn:E; [by rewrite E|]. cbn [v_done v_waiting]. by rewrite <- !app_assoc.
Qed.

(** Every session starts with the state in the file, or does not start. *)
Lemma wp_init cap f w :
  len key = 32 -> 0 <= cap -> bytes_ok f -> file w = f ->
  wp (alrios_forwarder_init hmac true true cap (Some key) fd (Some send)) (fun fl => fl = f) (fun r w' => file w' = f /\
    (r.1 <> FORWARDER_OK \/ exists s1 f', r = (FORWARDER_OK, Some f') /\ starts_with hmac key fd f s1 /\
       0 < cap <= MAX_QUEUE_ENTRIES /\ fw_capacity f' = cap /\ represents send key fd s1 start_view f')) w.
Proof.
  intros Hk Hcap Hok F. unfold alrios_forwarder_init.
  destruct (negb true || negb true || (cap =? 0) || (cap >? MAX_QUEUE_ENTRIES) || (fd <? -1)) eqn:E1.
  { apply wp_ret. split; [done|by left]. }
  cbn [negb orb] in E1. bool_hyps. rewrite (sub_all FORWARDER_KEY_SIZE) by done. cbv zeta.
  assert (Hrep : forall s1, represents send key fd s1 start_view
    (mk_fwd (Some (replicate (Z.to_nat cap) zero_ckpt)) cap 0 0 0 key s1 fd (Some send))).
  { intros s1. split; try done; cbn.
    eexists. split; [done|]. split; try lia. rewrite len_replicate. lia. }
  destruct (fd >=? 0) eqn:E2; bool_hyps.
  - apply wp_bind. eapply wp_mono; [apply (wp_state_read hmac); by rewrite F|].
    intros [st s] w1 [[F1 _] Hs]. rewrite F in *. destruct Hs as [(s1 & [= -> ->] & Hs1 & Hf)|Hst]; cbn [fst] in *.
    + apply wp_ret. split; [done|]. right. exists s1. eexists. split_and!; [done| |lia|lia|done|apply Hrep].
      split; [done|]. by rewrite (proj2 (Z.ltb_ge _ _)) by lia.
    + rewrite (proj2 (Z.eqb_neq _ _) Hst). apply wp_ret. split; [done|by left].
  - apply wp_ret. split; [done|]. right. exists zero_fstate. eexists. split_and!; [done| |lia|lia|done|apply Hrep].
    split; [by left|]. by rewrite (proj2 (Z.ltb_lt _ _)) by lia.
Qed.
End HistoryProofs.

(** ** Reading the file back *)

Section Torn.
Context (hmac : bytes -> bytes -> bytes) (hmac_len : forall k m, len (hmac k m) = 32) (hmac_ok : forall k m, bytes_ok (hmac k m)).
Context (key : bytes).

(** The octets whose tag a state file has. *)
Definition state_message (s : fstate) : bytes := state_domain ++ framed state_magic (st_ack_sequence s) (st_ack_hash s).

(** The write of [new] over [old] was cut in the middle of the body, and the mixture is the
    authentic file of [s], which is neither: the tag of [old], which is still in the file, is
    also that of [s]. *)
Definition torn_forgery (old new s : fstate) : Prop :=
  exists k, 0 <= k < STATE_BODY_SIZE /\
    state_file hmac key s = overlay k (state_wire hmac key new) (state_file hmac key old) /\
    state_message s <> state_message old /\ hmac key (state_message s) = hmac key (state_message old).

Lemma framed_inj magic s1 r1 s2 r2 :
  sequence_ok s1 -> sequence_ok s2 -> framed magic s1 r1 = framed magic s2 r2 -> s1 = s2 /\ r1 = r2.
Proof.
  unfold framed, sequence_ok. intros H1 H2 E. apply app_split in E as [_ E]; [|done]. apply app_split in E as [_ E]; [|done].
  apply app_split in E as [_ E]; [|done]. apply app_split in E as [E ->]; [|by rewrite !len_store_u64].
  split; [|done]. apply store64_inj in E; [done|lia|lia].
Qed.

Lemma state_body_inj s1 s2 :
  sequence_ok (st_ack_sequence s1) -> sequence_ok (st_ack_sequence s2) ->
  framed state_magic (st_ack_sequence s1) (st_ack_hash s1) = framed state_magic (st_ack_sequence s2) (st_ack_hash s2) ->
  s1 = s2.
Proof. intros H1 H2 E. apply framed_inj in E as [E1 E2]; [|done..]. destruct s1, s2; cbn in *; by subst. Qed.

Lemma state_file_nonzero s :
  sequence_ok (st_ack_sequence s) -> state_file hmac key s = state_wire hmac key s.
Proof. unfold sequence_ok, state_file. intros. by rewrite (proj2 (Z.eqb_neq _ 0)) by lia. Qed.

Lemma state_wire_body s : len (st_ack_hash s) = 32 ->
  sub 0 52 (state_wire hmac key s) = framed state_magic (st_ack_sequence s) (st_ack_hash s).
Proof. intros Hh. unfold state_wire, tagged. apply sub_here; [done|]. by rewrite len_framed, Hh. Qed.

Lemma state_wire_mac s : len (st_ack_hash s) = 32 ->
  drop 52 (state_wire hmac key s) = hmac key (state_domain ++ framed state_magic (st_ack_sequence s) (st_ack_hash s)).
Proof.
  intros Hh. unfold state_wire, tagged. apply drop_app_length'.
  assert (H : len (framed state_magic (st_ack_sequence s) (st_ack_hash s)) = 52) by (by rewrite len_framed, Hh).
  unfold len in H. lia.
Qed.

Lemma state_file_inj s1 s2 :
  state_ok s1 -> state_ok s2 -> state_file hmac key s1 = state_file hmac key s2 -> s1 = s2.
Proof.
  intros [->|[H1 [L1 _]]] [->|[H2 [L2 _]]] E; [done|..].
  - rewrite (state_file_nonzero s2) in E by done. apply (f_equal len) in E.
    rewrite (len_state_wire hmac hmac_len) in E by done. done.
  - rewrite (state_file_nonzero s1) in E by done. apply (f_equal len) in E.
    rewrite (len_state_wire hmac hmac_len) in E by done. done.
  - rewrite !state_file_nonzero in E by done. apply (f_equal (sub 0 52)) in E.
    rewrite !state_wire_body in E by done. by apply state_body_inj.
Qed.

(** A file that was being overwritten reads back as one of the two states, or as a mixture with
    the tag of the old one. *)
Lemma torn_state k old new s :
  state_ok old -> sequence_ok (st_ack_sequence new) -> hash_ok (st_ack_hash new) -> state_ok s -> 0 <= k <= STATE_WIRE_SIZE ->
  overlay k (state_wire hmac key new) (state_file hmac key old) = state_file hmac key s ->
  s = old \/ s = new \/ torn_forgery old new s.
Proof.
  intros Ho Hn [Hnl _] Hs Hk E. pose proof E as Efile. unfold STATE_WIRE_SIZE in *. pose proof (len_state_wire hmac hmac_len key new Hnl) as Hwn.
  unfold STATE_WIRE_SIZE in Hwn. destruct Ho as [->|[Ho [Hol Hob]]].
  - change (state_file hmac key zero_fstate) with (@nil Z) in E. unfold overlay in E. rewrite drop_nil, app_nil_r in E.
    destruct Hs as [->|[Hs [Hsl _]]]; [by left|]. right; left. rewrite state_file_nonzero in E by done.
    assert (k = 84) as ->.
    { apply (f_equal len) in E. rewrite (len_state_wire hmac hmac_len), len_sub in E by (done || lia). done. }
    rewrite sub_all in E by done. apply (f_equal (sub 0 52)) in E. rewrite !state_wire_body in E by done.
    symmetry. by apply state_body_inj.
  - rewrite (state_file_nonzero old) in E by done. pose proof (len_state_wire hmac hmac_len key old Hol) as Hwo.
    unfold STATE_WIRE_SIZE in Hwo.
    assert (Hs' : sequence_ok (st_ack_sequence s) /\ hash_ok (st_ack_hash s)).
    { destruct Hs as [->|?]; [|done]. exfalso. apply (f_equal len) in E. rewrite len_overlay in E by lia.
      change (state_file hmac key zero_fstate) with (@nil Z) in E. rewrite len_nil in E. lia. }
    destruct Hs' as [Hsq [Hsl _]]. rewrite state_file_nonzero in E by done.
    destruct (Z.le_gt_cases 52 k) as [Hge|Hlt].
    + right; left. apply (f_equal (sub 0 52)) in E. unfold overlay in E.
      rewrite sub_app_l in E by (rewrite ?len_sub; lia). rewrite sub_prefix, !state_wire_body in E by (done || lia).
      symmetry. by apply state_body_inj.
    + assert (Em : drop 52 (state_wire hmac key old) = drop 52 (state_wire hmac key s)).
      { rewrite <- E. unfold overlay. assert (len (sub 0 k (state_wire hmac key new)) = k) by (rewrite len_sub; lia).
        rewrite drop_app_ge by (unfold len in *; lia). rewrite drop_drop. f_equal. unfold len in *. lia. }
      rewrite !state_wire_mac in Em by done.
      destruct (decide (state_domain ++ framed state_magic (st_ack_sequence old) (st_ack_hash old)
                        = state_domain ++ framed state_magic (st_ack_sequence s) (st_ack_hash s))) as [Eb|Hne].
      * left. apply app_split in Eb as [_ Eb]; [|done]. symmetry. by apply state_body_inj.
      * right; right. exists k. unfold STATE_BODY_SIZE, state_message. split_and!; [lia|lia|by rewrite Efile|congruence|congruence].
Qed.

Lemma state_file_ok s : state_ok s -> bytes_ok (state_file hmac key s).
Proof.
  intros Hs. unfold state_file. destruct (_ =? _) eqn:E; [by apply Forall_nil_2|]. destruct Hs as [->|(_ & _ & Hb)]; [done|].
  unfold state_wire, tagged. rewrite bytes_ok_app. split; [|done]. apply framed_ok; [by apply bytes_okb_ok|done].
Qed.
End Torn.

(** ** Undisturbed runs *)

Section Smooth.
Context {T : Type} (hmac : bytes -> bytes -> bytes).
Context (hmac_len : forall k m, len (hmac k m) = 32) (hmac_ok : forall k m, bytes_ok (hmac k m)).
Context (send : T -> bytes -> send_answer * T) (key : bytes) (fd : Z).

#[local] Abbreviation nocrash := (fun _ : bytes => False).

Lemma smooth_hmac m domain body Q w :
  smooth (6 + m) w ->
  (forall w', file w' = file w -> smooth m w' -> Q (FORWARDER_OK, hmac key (domain ++ body)) w') ->
  wp (hmac_sha256 hmac key domain body) nocrash Q w.
Proof.
  intros Hs HQ. unfold hmac_sha256. apply wp_bind. eapply (smooth_all_calls 6 m); [done|]. intros. by apply wp_ret, HQ.
Qed.

Lemma smooth_checkpoint_encode m x Q w :
  smooth (6 + m) w -> item_ok x ->
  (forall w', file w' = file w -> smooth m w' -> Q (FORWARDER_OK, Some (item_wire hmac key x)) w') ->
  wp (alrios_checkpoint_encode hmac (it_seq x) (it_ts x) (Some (it_hash x)) (Some key) true) nocrash Q w.
Proof.
  intros Hs (Hsq & _ & Hh & _) HQ. unfold alrios_checkpoint_encode. unfold sequence_ok in Hsq.
  rewrite (proj2 (Z.eqb_neq _ 0)) by lia. cbn [orb negb]. rewrite checkpoint_body_eq by done.
  apply wp_bind, (smooth_hmac m); [done|]. intros. by apply wp_ret, HQ.
Qed.

Lemma smooth_receipt_decode m seq hash nonce Q w :
  smooth (6 + m) w -> sequence_ok seq -> len hash = 32 -> len nonce = 16 ->
  (forall w' mac, file w' = file w -> smooth m w' -> Q (FORWARDER_OK, Some (mk_receipt seq hash nonce mac)) w') ->
  wp (alrios_receipt_decode_and_verify hmac (Some (receipt_wire hmac key seq hash nonce)) (Some key) true) nocrash Q w.
Proof.
  intros Hs Hsq Hh Hn HQ. unfold alrios_receipt_decode_and_verify, receipt_wire, tagged. cbn [negb].
  set (mac := hmac key _). rewrite framed_app.
  destruct (framed_fields receipt_magic seq ((hash ++ nonce) ++ mac) eq_refl Hsq) as (E1 & E2 & E3 & E4 & E5).
  rewrite E1, E2, E3, E4, bytes_eqb_refl, (E5 RECEIPT_BODY_SIZE), (E5 20), (E5 52) by done. unfold sequence_ok in Hsq.
  replace (seq =? 0) with false by (symmetry; lia). cbn [negb orb Z.eqb CHECKPOINT_VERSION].
  rewrite <- framed_app, sub_here by (done || rewrite len_framed, len_app, Hh, Hn; done).
  apply wp_bind, (smooth_hmac m); [done|]. intros w' F S'. cbn [negb orb Z.eqb FORWARDER_OK].
  rewrite (sub_app_r (RECEIPT_BODY_SIZE - 20)) by (rewrite len_app, Hh, Hn; done). rewrite len_app, Hh, Hn.
  rewrite sub_all by (unfold mac; by rewrite hmac_len). fold mac. rewrite bytes_eqb_refl. apply wp_ret.
  replace (sub (20 - 20) 32 ((hash ++ nonce) ++ mac)) with hash by (rewrite <- app_assoc; symmetry; by apply sub_here).
  replace (sub (52 - 20) 16 ((hash ++ nonce) ++ mac)) with nonce; [by apply HQ|].
  rewrite <- app_assoc, sub_app_r, Hh by (rewrite Hh; done). symmetry. by apply sub_here.
Qed.

Lemma smooth_state_write m s Q w :
  smooth (9 + m) w -> 0 <= fd -> sequence_ok (st_ack_sequence s) -> len (st_ack_hash s) = 32 ->
  (forall w', smooth m w' -> Q FORWARDER_OK w') ->
  wp (alrios_forwarder_state_write hmac fd (Some key) (Some s)) nocrash Q w.
Proof.
  intros Hs Hfd Hsq Hh HQ. unfold alrios_forwarder_state_write. unfold sequence_ok in Hsq.
  replace ((fd <? 0) || (st_ack_sequence s =? 0)) with false by (symmetry; lia). cbv zeta. rewrite state_body_eq by done.
  apply wp_bind, (smooth_hmac (3 + m)); [done|]. intros w1 _ S1. cbn [Z.eqb FORWARDER_OK].
  change (framed _ _ _ ++ hmac _ _) with (state_wire hmac key s). set (wire := state_wire hmac key s).
  assert (Hwl : len wire = 84) by (by apply len_state_wire).
  apply wp_bind. eapply smooth_loop2; [exact (smooth_le _ (S 0) _ S1 ltac:(lia))|]. intros k.
  cbv zeta. change (negb (0 <? STATE_WIRE_SIZE)) with false. change (0 >? UINT64_MAX - 0) with false.
  change (0 + 0 >? INT64_MAX) with false. change (drop (Z.to_nat 0) wire) with wire. cbv iota.
  apply wp_bind, (smooth_pwrite (2 + m)); [done|by rewrite Hwl|rewrite Hwl; by vm_compute|]. intros w2 _ S2. rewrite Hwl.
  apply wp_ret. change (84 >? 0) with true. cbv iota.
  replace (negb (0 + 84 <? STATE_WIRE_SIZE)) with true by done. apply wp_ret. change (FORWARDER_OK =? FORWARDER_OK) with true. cbv iota.
  apply wp_bind, wp_bind. eapply (smooth_sys_unit (1 + m)); [done|done|]. intros w3 _ S3. apply wp_ret, wp_bind.
  eapply (smooth_sys_unit m) with (f := fun f => f); [done|by intros []|]. intros w4 _ S4. by apply wp_ret, HQ.
Qed.
End Smooth.

(** ** Theorems *)

Section Theorems.
Context {T : Type} (hmac : bytes -> bytes -> bytes).
Context (hmac_len : forall k m, len (hmac k m) = 32) (hmac_ok : forall k m, bytes_ok (hmac k m)).
Context (send : T -> bytes -> send_answer * T) (key : bytes) (fd : Z).

(** The state file at the point where a session was stopped: as it was found, or that of
    the calls that were finished. *)
Definition crash_file (calls : list call) (t : T) (f0 fl : bytes) : Prop :=
  fl = f0 \/
  exists s0, starts_with hmac key fd f0 s0 /\ stopped_in hmac send key fd t s0 f0 calls start_view fl.

Lemma wp_session cap calls t w :
  buffers_ok send t -> len key = 32 -> 0 <= cap -> bytes_ok (file w) -> Forall call_ok calls ->
  wp (session hmac send key fd cap calls t) (crash_file calls t (file w)) (fun r w' =>
    let '(status, statuses, fwd, t') := r in
    if status =? FORWARDER_OK then
      exists s0 f, fwd = Some f /\ starts_with hmac key fd (file w) s0 /\ length statuses = length calls /\
        let v := replay calls statuses start_view in
        history hmac send key fd t s0 (file w) v f t' (file w') /\
        v_done v ++ v_waiting v = accepted calls statuses
    else file w' = file w) w.
Proof.
  intros Hb Hk Hcap Hok Hcalls. unfold session. apply wp_bind.
  eapply wp_weaken; [eapply wp_mono; [apply (wp_init hmac send key fd cap (file w)); done|]|].
  - intros [st f] w1 [F1 Hi]. destruct Hi as [Hst|(s0 & f1 & [= -> ->] & Hs0 & _ & _ & Hrep)]; cbn [fst] in *.
    + destruct f as [f|]; [|by apply wp_ret; rewrite (proj2 (Z.eqb_neq _ _) Hst)].
      rewrite (proj2 (Z.eqb_neq _ _) Hst). by apply wp_ret; rewrite (proj2 (Z.eqb_neq _ _) Hst).
    + cbn [negb Z.eqb FORWARDER_OK]. apply wp_bind.
      assert (Hh : history hmac send key fd t s0 (file w) start_view f1 t (file w1)).
      { split; [done|by repeat constructor|constructor|]. rewrite F1. unfold file_of. destruct Hs0 as [_ Hs0].
        destruct (fd <? 0); [done|by left]. }
      eapply wp_weaken; [eapply wp_mono; [apply (session_wp hmac hmac_len send key fd t Hb s0 (file w) (proj1 Hs0)); done|]|].
      * intros [[sts f2] t2] w2 [Hl H2]. apply wp_ret. cbn [fst snd Z.eqb FORWARDER_OK] in *. exists s0, f2.
        split_and!; [done|apply Hs0..|done|done|]. by rewrite replay_accepted.
      * intros fl Hfl. right. by exists s0.
  - intros fl ->. by left.
Qed.

Lemma file_resumed t s0 f0 v fl s :
  0 <= fd -> state_ok s0 -> delivered hmac send key t s0 (v_done v) -> file_of hmac send key fd t s0 f0 v fl ->
  bytes_ok fl /\
  (state_ok s -> fl = state_file hmac key s ->
   s = ack_after s0 (v_done v) \/
   (exists x rest, v_waiting v = x :: rest /\ acknowledged hmac send key t x /\
      (s = ack_of x \/ torn_forgery hmac key (ack_after s0 (v_done v)) (ack_of x) s))).
Proof.
  intros Hfd Hs0 Hd Hf. pose proof (ack_after_ok s0 Hs0 _ (proj1 (proj2 Hd))) as Ha.
  pose proof (state_file_ok hmac hmac_ok key _ Ha) as Hao.
  unfold file_of in Hf. rewrite (proj2 (Z.ltb_ge _ _)) in Hf by lia. cbv zeta in Hf.
  destruct Hf as [->|(x & rest & k & Hw & Hx & Hax & _ & Hk & ->)].
  - split; [done|]. intros Hs E. left. symmetry. by apply (state_file_inj hmac hmac_len key).
  - destruct Hx as (Hsq & _ & Hh). pose proof (state_file_ok hmac hmac_ok key (ack_of x) ltac:(by right)) as Hxo.
    rewrite (state_file_nonzero hmac key) in Hxo by done. split.
    { unfold overlay. rewrite bytes_ok_app. split; [by apply bytes_ok_sub|by apply Forall_drop]. }
    intros Hs E. eapply torn_state in E; try done. destruct E as [?|[?|?]]; [by left|right..].
    + exists x, rest. split_and!; [done|done|by left].
    + exists x, rest. split_and!; [done|done|by right].
Qed.

(** C13: a session of the forwarder delivers the checkpoints in the order they were taken,
    each once: what the queue took is what was delivered followed by what waits; each
    delivery has a receipt of its sequence number and hash with the tag of the key, and
    none is older than the one before or than the state the session started with. The
    file holds the last delivery, or is being overwritten with the next; so it is when
    the process dies, at any call. A session that does not start leaves the file alone. *)
Theorem forwarder_history cap calls t w :
  buffers_ok send t -> len key = 32 -> 0 <= cap -> bytes_ok (file w) -> Forall call_ok calls ->
  wp (session hmac send key fd cap calls t) (crash_file calls t (file w)) (fun r w' =>
    let '(status, statuses, fwd, t') := r in
    if status =? FORWARDER_OK then
      exists s0 f, fwd = Some f /\ starts_with hmac key fd (file w) s0 /\ length statuses = length calls /\
        let v := replay calls statuses start_view in
        history hmac send key fd t s0 (file w) v f t' (file w') /\
        v_done v ++ v_waiting v = accepted calls statuses
    else file w' = file w) w.
Proof. apply wp_session. Qed.

(** What the calls of a session reported that started and was not stopped. *)
Definition reports (r : out (Z * list Z * option (forwarder T) * T)) : option (list Z) :=
  match r with
  | Ret (status, statuses, _, _) => if status =? FORWARDER_OK then Some statuses else None
  | _ => None
  end.

(** [s] is the last delivery of the calls that were finished, all of them when the session
    was not stopped, or the checkpoint that waits next, which has its receipt; or the write
    of that checkpoint's state was cut and left a mixture that is authentic with the tag of
    the last delivery. *)
Definition resumes_from (calls : list call) (reported : option (list Z)) (t : T) (f0 : bytes) (s : fstate) : Prop :=
  exists s0 n statuses, starts_with hmac key fd f0 s0 /\
    match reported with Some sts => n = length calls /\ statuses = sts | None => True end /\
    let v := replay (take n calls) statuses start_view in
    delivered hmac send key t s0 (v_done v) /\
    (s = ack_after s0 (v_done v) \/
     exists x rest, v_waiting v = x :: rest /\ acknowledged hmac send key t x /\
       (s = ack_of x \/ torn_forgery hmac key (ack_after s0 (v_done v)) (ack_of x) s)).

(** C26: however a session ended, in whatever call the process died, a later session that
    accepts the state file goes on from the last delivery, or from the next checkpoint,
    whose receipt had been verified, or from the state the file was found with; the last
    delivery of all its calls, as they reported, if the session was not stopped; unless the
    write of the next checkpoint's state was cut in its body and the octets it left are
    authentic with the tag of the state before. *)
Theorem restart_resumes cap calls t w w1 r w2 w2' s :
  buffers_ok send t -> len key = 32 -> 0 <= cap -> bytes_ok (file w) -> Forall call_ok calls -> 0 <= fd ->
  session hmac send key fd cap calls t w = (r, w1) -> file w2 = file w1 ->
  alrios_forwarder_state_read hmac fd (Some key) true w2 = (Ret (FORWARDER_OK, Some s), w2') ->
  resumes_from calls (reports r) t (file w) s.
Proof.
  intros Hb Hk Hcap Hok Hcalls Hfd E1 F2 E2. pose proof (wp_session cap calls t w Hb Hk Hcap Hok Hcalls) as Hw.
  unfold wp in Hw. rewrite E1 in Hw.
  assert (Hread : bytes_ok (file w1) -> state_ok s /\ file w1 = state_file hmac key s).
  { intros Hok1. rewrite <- F2 in *. pose proof (wp_state_read (C := fun _ => True) hmac fd key w2 I Hok1) as Hr. unfold wp in Hr.
    rewrite E2 in Hr. destruct Hr as [_ [(s' & [= ->] & ? & ?)|Hr]]; [done|by destruct Hr]. }
  assert (Hfound : file w1 = file w -> resumes_from calls None t (file w) s).
  { intros F. rewrite F in Hread. destruct (Hread Hok) as [Hs Hf]. exists s, 0%nat, [].
    split; [split; [done|by rewrite (proj2 (Z.ltb_ge _ _)) by lia]|]. split; [done|]. split; [by repeat constructor|by left]. }
  assert (Hstop : forall s0 n statuses reported,
    match reported with Some sts => n = length calls /\ statuses = sts | None => True end -> starts_with hmac key fd (file w) s0 ->
    delivered hmac send key t s0 (v_done (replay (take n calls) statuses start_view)) ->
    file_of hmac send key fd t s0 (file w) (replay (take n calls) statuses start_view) (file w1) ->
    resumes_from calls reported t (file w) s).
  { intros s0 n sts reported Hrep Hs0 Hd Hf. destruct (file_resumed t s0 (file w) _ _ s Hfd (proj1 Hs0) Hd Hf) as [Hok1 Hres].
    destruct (Hread Hok1) as [Hs Hfs]. exists s0, n, sts. split; [done|]. split; [done|]. split; [done|by apply Hres]. }
  destruct r as [[[[st sts] fwd] t']| |]; [|destruct Hw as [?|(s0 & Hs0 & n & sts & Hd & Hf)]; [by apply Hfound|by apply (Hstop s0 n sts None)]|done].
  cbn [reports]. destruct (st =? FORWARDER_OK); [|by apply Hfound]. destruct Hw as (s0 & f & _ & Hs0 & Hl & [_ Hd _ Hf] & _).
  rewrite <- (take_ge calls (length calls)) in Hd, Hf by lia. by apply (Hstop s0 (length calls) sts (Some sts)).
Qed.

(** A collector that answers every checkpoint with a receipt for it. *)
Definition collects : Prop :=
  forall t x, item_ok x -> exists nonce t', len nonce = 16 /\
    send t (item_wire hmac key x)
      = (Some (FORWARDER_OK, receipt_wire hmac key (it_seq x) (it_hash x) nonce, RECEIPT_WIRE_SIZE), t').

Lemma smooth_flush m s0 v f t x rest w :
  smooth (21 + m) w -> collects -> represents send key fd s0 v f -> v_waiting v = x :: rest ->
  st_ack_sequence (ack_after s0 (v_done v)) <= it_seq x ->
  wp (alrios_forwarder_flush hmac (Some f) t) (fun _ => False) (fun r w' => r.1.1 = FORWARDER_OK /\ smooth m w') w.
Proof.
  intros Hs Hcol Hr Hw Hle. unfold alrios_forwarder_flush.
  destruct (rp_queue _ _ _ _ _ _ Hr) as (q & Hq & Hring). rewrite Hq, (rp_send _ _ _ _ _ _ Hr).
  pose proof (rg_cap _ _ _ _ Hring) as Hcap. rewrite (proj2 (Z.eqb_neq (fw_capacity f) 0)) by lia.
  assert (En : fw_count f <> 0).
  { intros En. pose proof (rp_items _ _ _ _ _ _ Hr) as Hi. unfold queue_items in Hi. rewrite Hq, En, Hw in Hi. done. }
  destruct (queue_head send key fd s0 v f q Hr Hq En) as (x' & rest' & Hw' & Hx & Hnth & _).
  rewrite Hw in Hw'. injection Hw' as <- <-. rewrite (proj2 (Z.eqb_neq (fw_count f) 0)) by done.
  set (entry := nth _ _ _) in *. cbv zeta.
  assert (Es : cp_sequence entry = it_seq x) by (by rewrite <- Hnth). assert (Et : cp_timestamp_ns entry = it_ts x) by (by rewrite <- Hnth).
  assert (Eh : cp_block_hash entry = it_hash x) by (by rewrite <- Hnth). rewrite Es, Et, Eh, (rp_key _ _ _ _ _ _ Hr).
  apply wp_bind, (smooth_checkpoint_encode hmac key (15 + m)); [done..|]. intros w1 _ S1.
  cbn [negb Z.eqb FORWARDER_OK default from_option id].
  destruct (Hcol t x Hx) as (nonce & t' & Hn & ->). destruct Hx as (Hsq & _ & Hh & _).
  change (FORWARDER_OK =? FORWARDER_OK) with true. change (RECEIPT_WIRE_SIZE =? RECEIPT_WIRE_SIZE) with true. cbn [negb orb].
  apply wp_bind, (smooth_receipt_decode hmac hmac_len key (9 + m)); [done..|]. intros w2 mac _ S2.
  cbn [default from_option id rc_ack_sequence rc_ack_hash]. rewrite !Z.eqb_refl, bytes_eqb_refl. cbn [negb orb Z.eqb FORWARDER_OK].
  rewrite (rp_ack _ _ _ _ _ _ Hr), (rp_fd _ _ _ _ _ _ Hr).
  replace (_ >? it_seq x) with false by (symmetry; rewrite Z.gtb_ltb; lia).
  apply wp_bind. destruct (fd >=? 0) eqn:E4; bool_hyps.
  - apply (smooth_state_write hmac hmac_len key fd m); [done|lia|done..|]. intros w3 S3. cbn [negb Z.eqb FORWARDER_OK]. by apply wp_ret.
  - apply wp_ret. cbn [negb Z.eqb FORWARDER_OK]. apply wp_ret. split; [done|]. by apply (smooth_le (9 + m)); [|lia].
Qed.

(** With a collector that answers and calls that succeed, as many flushes as
    checkpoints wait deliver them all: each returns success, the queue is empty, and what
    is kept, in memory and in the file, is the last of them. *)
Theorem flush_delivers t0 s0 f0 v f t w :
  buffers_ok send t0 -> collects -> state_ok s0 -> history hmac send key fd t0 s0 f0 v f t (file w) ->
  Sorted Z.le (st_ack_sequence (ack_after s0 (v_done v)) :: map it_seq (v_waiting v)) ->
  smooth (21 * length (v_waiting v)) w ->
  let n := length (v_waiting v) in
  exists f' t' w',
    run hmac (replicate n Flush) f t w = (Ret (replicate n FORWARDER_OK, f', t'), w') /\
    queue_items f' = [] /\ fw_persisted f' = ack_after s0 (v_done v ++ v_waiting v) /\
    (0 <= fd -> file w' = state_file hmac key (fw_persisted f')).
Proof.
  intros Hb Hcol Hs0 Hh Hsort Hsm. cbv zeta. remember (v_waiting v) as waiting eqn:Ew. revert v f t w Ew Hh Hsort Hsm.
  induction waiting as [|x rest IH]; intros v f t w Ew Hh Hsort Hsm; cbn [length replicate run].
  - exists f, t, w. pose proof (hi_rep _ _ _ _ _ _ _ _ _ _ _ Hh) as Hr. split_and!; [done|..].
    + by rewrite (rp_items _ _ _ _ _ _ Hr).
    + rewrite app_nil_r. apply Hr.
    + intros Hfd. pose proof (hi_file _ _ _ _ _ _ _ _ _ _ _ Hh) as Hf. unfold file_of in Hf.
      rewrite (proj2 (Z.ltb_ge _ _)) in Hf by lia. destruct Hf as [->|(y & r & k & Hy & _)]; [|by rewrite <- Ew in Hy].
      by rewrite (rp_ack _ _ _ _ _ _ Hr).
  - cbn [map] in Hsort. inversion Hsort as [|? ? Hsort' Hle]; subst. inversion Hle as [|? ? Hle']; subst. symmetry in Ew.
    assert (Hsm' : smooth (21 + 21 * length rest) w) by (apply (smooth_le _ _ _ Hsm); cbn [length]; lia).
    pose proof (smooth_flush _ s0 v f t x rest w Hsm' Hcol (hi_rep _ _ _ _ _ _ _ _ _ _ _ Hh) Ew Hle') as Hok.
    pose proof (wp_flush hmac hmac_len send key fd t0 Hb s0 f0 Hs0 v f t w Hh) as Hst.
    pose proof (wp_and _ _ _ _ _ _ Hst Hok) as Hboth. clear Hok Hst. cbn [do_call].
    unfold bind, wp in *. destruct (alrios_forwarder_flush hmac (Some f) t w) as [[[[st f1] t1]| |] w1]; [|done..].
    cbn [fst snd] in Hboth. destruct Hboth as (Hh1 & -> & S1). unfold ret. cbv beta iota.
    unfold step_view in Hh1. rewrite Ew in Hh1. cbn [negb Z.eqb FORWARDER_OK] in Hh1.
    destruct (IH (mk_view rest (v_done v ++ [x])) (default f f1) t1 w1) as (f' & t' & w' & -> & Hi & Hp & Hf); [done|done|..].
    + cbn [v_done]. by rewrite ack_after_snoc.
    + done.
    + cbv beta iota. exists f', t', w'. cbn [v_done] in Hp. rewrite <- app_assoc in Hp. by split_and!.
Qed.

(** A checkpoint older than the last acknowledged one is queued, but no flush delivers it. *)
Lemma older_checkpoint_stuck t0 s0 f0 v f t w x rest :
  buffers_ok send t0 -> state_ok s0 -> history hmac send key fd t0 s0 f0 v f t (file w) -> v_waiting v = x :: rest ->
  it_seq x < st_ack_sequence (ack_after s0 (v_done v)) ->
  wp (alrios_forwarder_flush hmac (Some f) t) (fun _ => True) (fun r w' => r.1.1 <> FORWARDER_OK /\
    history hmac send key fd t0 s0 f0 v (default f r.1.2) r.2 (file w')) w.
Proof.
  intros Hb Hs0 Hh Hw Hlt. eapply wp_weaken; [eapply wp_mono; [by apply (wp_flush hmac hmac_len send key fd t0 Hb s0 f0 Hs0)|]|done].
  intros [[st f'] t'] w' Hh'. cbn [fst snd] in *. unfold step_view in Hh'. destruct (st =? FORWARDER_OK) eqn:E; cbn [negb] in Hh'; bool_hyps; [|done].
  rewrite Hw in Hh'. exfalso. destruct (hi_done _ _ _ _ _ _ _ _ _ _ _ Hh') as (_ & _ & Hsort). cbn [v_done] in Hsort.
  rewrite map_app in Hsort. cbn [map] in Hsort. clear -Hsort Hlt. rewrite ack_after_seq in Hlt.
  revert Hsort Hlt. generalize (map it_seq (v_done v)) (st_ack_sequence s0). intros l. induction l as [|a l IH]; intros b Hs Hlt; cbn in *.
  - inversion Hs as [|? ? _ Hr]; subst. inversion Hr; subst. lia.
  - inversion Hs; subst. by eapply IH.
Qed.
End Theorems.

(** ** The check of the log at start-up *)

Section Rollback.
Context (sha256 : bytes -> bytes).
Context (sha_len : forall m, len (sha256 m) = 32).

(** The state that acknowledges the whole log [es]. *)
Definition ack_of_log (es : list entry) : fstate := mk_fstate (len es) (end_hash sha256 genesis 1 es).

Lemma wp_rollback_check audit_fd s w :
  bytes_ok (file w) ->
  wp (alrios_forwarder_verify_chain_not_rolled_back sha256 audit_fd (Some s)) (fun f' => f' = file w) (fun st w' =>
    file w' = file w /\
    (st = FORWARDER_OK -> exists es, Forall entry_ok es /\ file w = chain_wire sha256 es /\ len (file w) <= INT64_MAX /\
       (st_ack_sequence s <> 0 -> s = ack_of_log es))) w.
Proof.
  intros Hok. unfold alrios_forwarder_verify_chain_not_rolled_back. wp_step; [by apply wp_ret|].
  apply wp_bind. eapply wp_mono; [by apply (wp_verify_fd sha256 sha_len)|]. intros [st res] w1 [F1 H1]. cbn [fst snd] in H1.
  wp_step; bool_hyps; [by apply wp_ret|]. destruct H1 as (es & Hes & Hf & Hl & ->); [done|].
  wp_step; bool_hyps; [apply wp_ret; split; [done|]; intros _; by exists es|].
  destruct (_ || _) eqn:E; apply wp_ret; (split; [done|]); [done|]. intros _. exists es. split_and!; [done..|]. intros _.
  bool_hyps. match goal with H : bytes_eqb _ _ = true |- _ => apply bytes_eqb_eq in H; rename H into Eh end.
  cbn [last_sequence last_hash summary] in *. destruct s; cbn in *. unfold ack_of_log. by subst.
Qed.

Lemma log_length es : len (chain_wire sha256 es) <= INT64_MAX -> len es < 2 ^ 63.
Proof.
  intros H. pose proof (len_chain sha256 sha_len genesis 1 es genesis_len) as Hl. fold (chain_wire sha256 es) in Hl.
  unfold AUDIT_WIRE_MIN, INT64_MAX in *. pose proof (len_nonneg es). lia.
Qed.

(** The start-up check passes a log only if it is the very log whose last record was
    acknowledged, entry for entry, unless two blocks at the same position of the logs have
    different octets and the same SHA-256; it never changes the log. *)
Theorem rollback_check_sound audit_fd es w w' :
  bytes_ok (file w) -> Forall entry_ok es -> es <> [] ->
  alrios_forwarder_verify_chain_not_rolled_back sha256 audit_fd (Some (ack_of_log es)) w = (Ret FORWARDER_OK, w') ->
  file w' = file w /\ (file w = chain_wire sha256 es \/ exists es', file w = chain_wire sha256 es' /\ blocks_collide sha256 es es').
Proof.
  intros Hok Hes Hne E. pose proof (wp_rollback_check audit_fd (ack_of_log es) w Hok) as Hw. unfold wp in Hw. rewrite E in Hw.
  destruct Hw as [F H]. split; [done|]. destruct (H eq_refl) as (es' & Hes' & Hf & Hl & Hs). rewrite Hf in *.
  pose proof (log_length es' Hl) as Hb.
  assert (Hn : len es <> 0) by (destruct es; [done|rewrite len_cons; pose proof (len_nonneg es); lia]).
  specialize (Hs Hn). unfold ack_of_log in Hs. injection Hs as Hlen Hhash.
  destruct (end_hash_binds sha256 sha_len es es' Hes Hes' Hlen) as [->|?]; [by rewrite Hlen|done|by left|right; by exists es'].
Qed.

(** The check refuses a log that has grown since its last acknowledgement. *)
Lemma grown_log_refused audit_fd es e more w :
  bytes_ok (file w) -> Forall entry_ok (es ++ e :: more) -> es <> [] ->
  file w = chain_wire sha256 (es ++ e :: more) -> len (file w) <= INT64_MAX ->
  wp (alrios_forwarder_verify_chain_not_rolled_back sha256 audit_fd (Some (ack_of_log es))) (fun f' => f' = file w)
    (fun st _ => st <> FORWARDER_OK) w.
Proof.
  intros Hok Hes Hne F Hl. eapply wp_mono; [by apply wp_rollback_check|]. intros st w' [_ H] Hst.
  destruct (H Hst) as (es' & Hes' & Hf & _ & Hs). rewrite F in *.
  assert (Hn : len es <> 0) by (destruct es; [done|rewrite len_cons; pose proof (len_nonneg es); lia]). specialize (Hs Hn).
  destruct (log_unique sha256 sha_len (es ++ e :: more) es' [] Hes Hl) as [-> _].
  { split; [done|]. split; [by rewrite app_nil_r|by left]. }
  unfold ack_of_log in Hs. injection Hs as Hlen _. rewrite len_app, len_cons in Hlen. pose proof (len_nonneg more). lia.
Qed.
End Rollback.

(** ** The transport over a socket *)

Lemma send_loop_exact frame_len deadline rounds sent e n :
  0 <= sent <= frame_len -> send_loop frame_len deadline rounds sent = (e, n) ->
  sent <= n <= frame_len /\ (e = Done -> n = frame_len).
Proof.
  revert sent. induction rounds as [|r rounds IH]; intros sent Hs; cbn [send_loop];
    destruct (negb (sent <? frame_len)) eqn:E1; bool_hyps; try (intros [= <- <-]; split; [lia|]; done || lia).
  destruct (r_now r >=? deadline); [intros [= <- <-]; split; [lia|done]|].
  destruct (poll_failed r); [intros [= <- <-]; split; [lia|done]|]. cbv zeta.
  destruct (_ >? 0) eqn:E2; bool_hyps.
  - intros [H1 H2]%IH; [|lia]. split; [lia|done].
  - destruct (negb (retryable _)); [intros [= <- <-]; split; [lia|done]|]. intros [H1 H2]%IH; [|lia]. by split.
Qed.

Lemma recv_exact r request i n data i' :
  0 < request -> recv r request i = (n, data, i') ->
  i = data ++ i' /\ (0 < n -> len data = n /\ n <= request) /\ (n <= 0 -> data = []).
Proof.
  intros Hq. unfold recv. pose proof (len_nonneg i). destruct (r_result r >? 0) eqn:E; bool_hyps.
  - cbv zeta. destruct (_ =? 0) eqn:E2; bool_hyps; intros [= <- <- <-].
    + split_and!; [done|unfold EAGAIN; lia|done].
    + split_and!; [by apply sub_0_split; lia|intros _; rewrite len_sub; lia|lia].
  - intros [= <- <- <-]. split_and!; [done|lia|done].
Qed.

(** Where the loop stands: reading the length, or the receipt it announced. *)
Definition reading (expected : Z) (response : bytes) : Prop :=
  expected = 4 /\ len response < 4 \/
  expected = 104 /\ 4 <= len response <= 104 /\ load_u32_be (sub 0 4 response) = RECEIPT_WIRE_SIZE.

Lemma recv_loop_exact deadline rounds expected response i e response' i' :
  reading expected response -> recv_loop deadline rounds expected response i = (e, response', i') ->
  exists k, response ++ i ++ concat (map r_arrived (take k rounds)) = response' ++ i' /\ len response' <= 104 /\
    (e = Done -> len response' = 104 /\ load_u32_be (sub 0 4 response') = RECEIPT_WIRE_SIZE).
Proof.
  assert (Hle : forall ex re, reading ex re -> len re <= 104) by (intros ? ? [[_ ?]|(_ & ? & _)]; lia).
  revert expected response i. induction rounds as [|r rounds IH]; intros expected response i Hr; cbn [recv_loop].
  - destruct (negb (len response <? expected)) eqn:E1; intros [= <- <- <-]; exists 0%nat; cbn [take map concat]; rewrite app_nil_r;
      (split; [done|]); (split; [by eapply Hle|]); [|done]. intros _. bool_hyps.
    destruct Hr as [[-> ?]|(-> & ? & ?)]; [lia|]. split; [lia|done].
  - destruct (negb (len response <? expected)) eqn:E1; bool_hyps.
    { intros [= <- <- <-]. exists 0%nat. cbn [take map concat]. rewrite app_nil_r. split; [done|].
      destruct Hr as [[-> ?]|(-> & ? & ?)]; [lia|]. split; [lia|]. intros _. split; [lia|done]. }
    assert (Hstop : forall e', e' <> Done -> (e', response, i ++ r_arrived r) = (e, response', i') -> exists k,
      response ++ i ++ concat (map r_arrived (take k (r :: rounds))) = response' ++ i' /\ len response' <= 104 /\
      (e = Done -> len response' = 104 /\ load_u32_be (sub 0 4 response') = RECEIPT_WIRE_SIZE)).
    { intros e' He [= <- <- <-]. exists 1%nat. cbn [take map concat]. rewrite app_nil_r. split; [done|]. split; [by eapply Hle|done]. }
    destruct (r_now r >=? deadline); [by apply Hstop|]. destruct (poll_failed r); [by apply Hstop|]. cbv zeta.
    destruct (recv r _ _) as [[n data] i1] eqn:Er. apply recv_exact in Er as (Ei & Hpos & Hneg); [|lia].
    assert (Hgo : forall ex re, re = response ++ data -> reading ex re -> recv_loop deadline rounds ex re i1 = (e, response', i') ->
      exists k, response ++ i ++ concat (map r_arrived (take k (r :: rounds))) = response' ++ i' /\ len response' <= 104 /\
      (e = Done -> len response' = 104 /\ load_u32_be (sub 0 4 response') = RECEIPT_WIRE_SIZE)).
    { intros ex re -> Hre (k & Ek & Hk)%IH; [|done]. exists (S k). split; [|done]. cbn [take map concat].
      rewrite <- Ek, <- app_assoc. f_equal. rewrite !app_assoc, Ei. done. }
    destruct (n >? 0) eqn:E2; bool_hyps.
    + destruct Hpos as [Hdl Hdn]; [lia|]. assert (Hl : len (response ++ data) = len response + n) by (rewrite len_app; lia).
      destruct (len (response ++ data) =? 4) eqn:E4; bool_hyps.
      * destruct (load_u32_be _ =? _) eqn:E5; bool_hyps; cbn [negb].
        -- apply (Hgo _ _ eq_refl). right. split; [done|]. split; [lia|]. by rewrite sub_all by done.
        -- intros [= <- <- <-]. exists 1%nat. cbn [take map concat]. rewrite app_nil_r, <- app_assoc, Ei. split; [done|]. split; [lia|done].
      * apply (Hgo _ _ eq_refl). destruct Hr as [[-> ?]|(-> & ? & Hld)]; [left; lia|]. right. split; [done|]. split; [lia|].
        by rewrite sub_app_l by lia.
    + rewrite (Hneg ltac:(lia)) in *. cbn [app] in Ei. subst i1. destruct (negb (retryable n)); [by apply Hstop|].
      apply (Hgo expected response); [by rewrite app_nil_r|done].
Qed.

(** What the collector sends during the next attempt. *)
Definition receiving (c : conn) : list round := match attempts c with a :: _ => at_receiving a | [] => [] end.

Definition answer_exact (sent : Z) (consumed : bytes) (ans : send_answer) : Prop :=
  match ans with
  | Some (st, buf, n) =>
      len buf = RECEIPT_WIRE_SIZE /\
      if st =? FORWARDER_OK then
        sent = 4 + CHECKPOINT_WIRE_SIZE /\ n = RECEIPT_WIRE_SIZE /\
        exists header, consumed = header ++ buf /\ len header = 4 /\ load_u32_be header = RECEIPT_WIRE_SIZE
      else n = 0
  | None => True
  end.

(** The socket transport reports success only if it has sent the whole frame, the
    length and the checkpoint, and has read exactly one frame whose length is that of a
    receipt, of which it returns the content. Whatever happens, it sends a prefix of the
    frame, takes at most one frame from the stream and loses nothing of the rest. *)
Theorem socket_send_exact socket_fd timeout_ms c wire ans c' :
  len wire = CHECKPOINT_WIRE_SIZE ->
  socket_transport socket_fd timeout_ms c wire = (ans, c') ->
  exists sent k consumed,
    0 <= sent <= 4 + CHECKPOINT_WIRE_SIZE /\
    outbox c' = outbox c ++ sub 0 sent (store_u32_be CHECKPOINT_WIRE_SIZE ++ wire) /\
    inbox c ++ concat (map r_arrived (take k (receiving c))) = consumed ++ inbox c' /\
    len consumed <= 4 + RECEIPT_WIRE_SIZE /\ answer_exact sent consumed ans.
Proof.
  intros Hw. unfold socket_transport, alrios_forwarder_socket_send.
  set (frame := store_u32_be CHECKPOINT_WIRE_SIZE ++ wire).
  assert (Hfl : len frame = 96) by (unfold frame; rewrite len_app, len_store_u32, Hw; done).
  assert (Hnone : forall a rest, inbox rest = inbox c -> outbox rest = outbox c ->
    match a with Some (st, buf, n) => len buf = RECEIPT_WIRE_SIZE /\ st <> FORWARDER_OK /\ n = 0 | None => True end ->
    exists sent k consumed, 0 <= sent <= 4 + CHECKPOINT_WIRE_SIZE /\ outbox rest = outbox c ++ sub 0 sent frame /\
      inbox c ++ concat (map r_arrived (take k (receiving c))) = consumed ++ inbox rest /\
      len consumed <= 4 + RECEIPT_WIRE_SIZE /\ answer_exact sent consumed a).
  { intros a rest -> -> Ha. exists 0, 0%nat, []. cbn [take map concat app]. unfold sub. cbn [Z.to_nat take drop].
    rewrite !app_nil_r. split_and!; [done|by vm_compute|done|done|by vm_compute|].
    destruct a as [[[st buf] n]|]; [|done]. destruct Ha as (? & Hst & ->). cbn. split; [done|].
    by rewrite (proj2 (Z.eqb_neq _ _) Hst). }
  destruct (_ || _); [intros [= <- <-]; by apply Hnone|].
  destruct (attempts c) as [|a rest] eqn:Ea; [intros [= <- <-]; by apply Hnone|]. cbv zeta.
  destruct (negb (at_nonblock a =? 0)); [intros [= <- <-]; by apply Hnone|].
  destruct (negb (at_poll a) || _); [intros [= <- <-]; by apply Hnone|].
  rewrite Hw. change (store_u32_be (u32 CHECKPOINT_WIRE_SIZE) ++ wire) with frame. rewrite Hfl.
  destruct (send_loop _ _ _ _) as [ended sent] eqn:Es. apply send_loop_exact in Es as [Hsr Hsd]; [|lia].
  assert (Hmid : forall a' i', i' = inbox c ->
    match a' with Some (st, buf, n) => len buf = RECEIPT_WIRE_SIZE /\ st <> FORWARDER_OK /\ n = 0 | None => True end ->
    exists s k consumed, 0 <= s <= 4 + CHECKPOINT_WIRE_SIZE /\ outbox c ++ sub 0 sent frame = outbox c ++ sub 0 s frame /\
      inbox c ++ concat (map r_arrived (take k (receiving c))) = consumed ++ i' /\
      len consumed <= 4 + RECEIPT_WIRE_SIZE /\ answer_exact s consumed a').
  { intros a' i' -> Ha. exists sent, 0%nat, []. cbn [take map concat app]. rewrite app_nil_r.
    split_and!; [lia|unfold CHECKPOINT_WIRE_SIZE; lia|done|done|by vm_compute|].
    destruct a' as [[[st buf] n]|]; [|done]. destruct Ha as (? & Hst & ->). cbn. split; [done|].
    by rewrite (proj2 (Z.eqb_neq _ _) Hst). }
  destruct ended; [|intros [= <- <-]; by apply Hmid..]. rewrite (Hsd eq_refl) in *.
  destruct (negb (at_mod a =? 0)); [intros [= <- <-]; by apply Hmid|].
  destruct (recv_loop _ _ _ _ _) as [[ended response] i] eqn:Er.
  apply recv_loop_exact in Er as (k & Ek & Hrl & Hrd); [|left; split; [done|by vm_compute]]. cbn [app] in Ek.
  intros E. exists 96, k, response. unfold receiving. rewrite Ea.
  assert (H : outbox c' = outbox c ++ sub 0 96 frame /\ inbox c' = i) by (by destruct ended; injection E as _ <-).
  destruct H as [-> ->]. split_and!; [done|by vm_compute|done|done|done|].
  destruct ended; injection E as <- _; [|done|done]. cbn. destruct (Hrd eq_refl) as [Hl Hld].
  split; [rewrite len_sub; unfold RECEIPT_WIRE_SIZE; lia|]. split; [done|]. split; [done|].
  exists (sub 0 4 response). split; [|split; [rewrite len_sub; lia|done]]. unfold RECEIPT_WIRE_SIZE.
  rewrite sub_join by lia. symmetry. apply sub_all. lia.
Qed.

Definition conn_ok (c : conn) : Prop :=
  bytes_ok (inbox c) /\ Forall (fun a => Forall (fun r => bytes_ok (r_arrived r)) (at_receiving a)) (attempts c).

Lemma arrivals_ok rs : Forall (fun r => bytes_ok (r_arrived r)) rs -> bytes_ok (concat (map r_arrived rs)).
Proof. induction 1; cbn; [by apply Forall_nil_2|]. by apply bytes_ok_app. Qed.

Lemma socket_conn_ok socket_fd timeout_ms c wire ans c' :
  conn_ok c -> socket_transport socket_fd timeout_ms c wire = (ans, c') ->
  conn_ok c' /\ match ans with Some (_, buf, _) => len buf = RECEIPT_WIRE_SIZE /\ bytes_ok buf | None => True end.
Proof.
  intros [Hi Ha]. unfold socket_transport, alrios_forwarder_socket_send.
  pose proof (bytes_ok_zeros RECEIPT_WIRE_SIZE) as Hz.
  destruct (_ || _); [by intros [= <- <-]|]. destruct (attempts c) as [|a rest] eqn:Ea.
  { intros [= <- <-]. split; [|done]. split; [done|by rewrite Ea]. }
  apply list.Forall_cons in Ha as [Har Hrest]. cbv zeta.
  assert (Hmid : forall (a' : send_answer) i o, bytes_ok i -> match a' with Some (_, buf, _) => len buf = RECEIPT_WIRE_SIZE /\ bytes_ok buf | None => True end ->
    conn_ok (mk_conn i o rest) /\ match a' with Some (_, buf, _) => len buf = RECEIPT_WIRE_SIZE /\ bytes_ok buf | None => True end).
  { intros. split; [by split|done]. }
  destruct (negb (at_nonblock a =? 0)); [intros [= <- <-]; by apply Hmid|].
  destruct (negb (at_poll a) || _); [intros [= <- <-]; by apply Hmid|].
  destruct (send_loop _ _ _ _) as [ended sent]. destruct ended; [|intros [= <- <-]; by apply (Hmid gave_up)|intros [= <- <-]; by apply (Hmid None)].
  destruct (negb (at_mod a =? 0)); [intros [= <- <-]; by apply Hmid|].
  destruct (recv_loop _ _ _ _ _) as [[ended response] i] eqn:Er.
  apply recv_loop_exact in Er as (k & Ek & Hrl & Hrd); [|left; split; [done|by vm_compute]]. cbn [app] in Ek.
  assert (Hok : bytes_ok (response ++ i)).
  { rewrite <- Ek, bytes_ok_app. split; [done|]. apply arrivals_ok. by apply Forall_take. }
  rewrite bytes_ok_app in Hok. destruct Hok as [Hresp Hi'].
  destruct ended; intros [= <- <-]; [|by apply (Hmid gave_up)|by apply (Hmid None)]. destruct (Hrd eq_refl) as [Hl _].
  refine (Hmid (Some (FORWARDER_OK, sub 4 RECEIPT_WIRE_SIZE response, RECEIPT_WIRE_SIZE)) _ _ Hi' _). cbv iota. split; [|by apply bytes_ok_sub]. rewrite len_sub; unfold RECEIPT_WIRE_SIZE; lia.
Qed.

Lemma socket_buffers socket_fd timeout_ms c : conn_ok c -> buffers_ok (socket_transport socket_fd timeout_ms) c.
Proof.
  intros Hc t m st buf n t' Hr E. assert (Ht : conn_ok t).
  { clear -Hc Hr. induction Hr; [done|]. by eapply socket_conn_ok. }
  by apply (socket_conn_ok _ _ _ _ _ _ Ht) in E as [_ E].
Qed.

(** ** Examples *)

Definition sample_mac (k m : bytes) : bytes := sample_hash (k ++ m).

Definition sample_fwd_key : bytes := replicate 32 7.

(** A collector in memory, which counts its receipts. *)
Definition collector (n : Z) (m : bytes) : send_answer * Z :=
  (if (len m =? CHECKPOINT_WIRE_SIZE) && bytes_okb m
   then Some (FORWARDER_OK,
              receipt_wire sample_mac sample_fwd_key (load_u64_be (sub 12 8 m)) (sub 28 32 m) (zeros 16),
              RECEIPT_WIRE_SIZE)
   else gave_up, n + 1).

Definition sample_hash_1 : bytes := replicate 32 1.

Definition sample_calls : list call := [Enqueue 5 100 (Some sample_hash_1); Flush].

(** A collector at the other end of a socket: the frame goes in two parts, the receipt
    comes behind the length in two parts. *)
Definition sample_conn : conn :=
  let reply := store_u32_be 100 ++ receipt_wire sample_mac sample_fwd_key 5 sample_hash_1 (zeros 16) in
  mk_conn [] [] [mk_attempt 0 true 0 1000
    [mk_round 1001 1 2 [] 50; mk_round 1002 1 2 [] (- EAGAIN); mk_round 1003 1 2 [] 99] 0
    [mk_round 1004 1 1 (sub 0 40 reply) 99; mk_round 1005 1 1 (sub 40 64 reply) 99; mk_round 1006 1 1 [] 99]].

Example session_over_socket :
  match session sample_mac (socket_transport 7 500) sample_fwd_key 3 4 sample_calls sample_conn (calm [] 40) with
  | (Ret (st, sts, Some f, c), w) =>
      (st, sts) = (0, [0; 0]) /\ fw_count f = 0 /\ fw_persisted f = mk_fstate 5 sample_hash_1 /\ len (outbox c) = 96 /\
      file w = state_wire sample_mac sample_fwd_key (mk_fstate 5 sample_hash_1)
  | _ => False
  end.
Proof. vm_compute. repeat split. Qed.

Lemma sample_mac_len k m : len (sample_mac k m) = 32.
Proof. apply sample_hash_len. Qed.

Lemma sample_mac_ok k m : bytes_ok (sample_mac k m).
Proof. apply sample_hash_ok. Qed.

Lemma sample_hash_1_ok : hash_ok sample_hash_1.
Proof. split; [reflexivity|by apply bytes_okb_ok]. Qed.

Lemma sample_calls_ok : Forall call_ok sample_calls.
Proof.
  apply list.Forall_cons. split; [|by apply list.Forall_singleton]. split; [lia|]. split; [lia|]. apply sample_hash_1_ok.
Qed.

Lemma sample_conn_ok : conn_ok sample_conn.
Proof.
  split; [by apply Forall_nil_2|]. apply list.Forall_singleton. cbn [sample_conn attempts at_receiving].
  assert (H : forall r, bytes_okb (r_arrived r) = true -> bytes_ok (r_arrived r)) by (intros; by apply bytes_okb_ok).
  do 3 (apply List.Forall_cons; [apply H; vm_compute; reflexivity|]). apply List.Forall_nil.
Qed.

Lemma forwarder_history_witness :
  wp (session sample_mac (socket_transport 7 500) sample_fwd_key 3 4 sample_calls sample_conn)
    (crash_file sample_mac (socket_transport 7 500) sample_fwd_key 3 sample_calls sample_conn [])
    (fun r w' =>
      let '(status, statuses, fwd, t') := r in
      if status =? FORWARDER_OK then
        exists s0 f, fwd = Some f /\ starts_with sample_mac sample_fwd_key 3 [] s0 /\ length statuses = 2%nat /\
          let v := replay sample_calls statuses start_view in
          history sample_mac (socket_transport 7 500) sample_fwd_key 3 sample_conn s0 [] v f t' (file w') /\
          v_done v ++ v_waiting v = accepted sample_calls statuses
      else file w' = []) (calm [] 40).
Proof.
  apply (forwarder_history sample_mac sample_mac_len (socket_transport 7 500) sample_fwd_key 3 4 sample_calls
           sample_conn (calm [] 40)).
  - apply socket_buffers, sample_conn_ok.
  - reflexivity.
  - lia.
  - apply Forall_nil_2.
  - apply sample_calls_ok.
Defined.

(** The process dies after the receipt, in the write of the state file; the file reads
    back as the checkpoint's. *)
Definition dying : world := mk_world [] F_UNLCK (replicate 20 (Go SIZE_MAX)).

Lemma restart_resumes_witness :
  resumes_from sample_mac (socket_transport 7 500) sample_fwd_key 3 sample_calls None sample_conn [] (mk_fstate 5 sample_hash_1).
Proof.
  apply (restart_resumes sample_mac sample_mac_len sample_mac_ok (socket_transport 7 500) sample_fwd_key 3 4 sample_calls
           sample_conn dying
           (snd (session sample_mac (socket_transport 7 500) sample_fwd_key 3 4 sample_calls sample_conn dying))
           (fst (session sample_mac (socket_transport 7 500) sample_fwd_key 3 4 sample_calls sample_conn dying))
           (calm (state_wire sample_mac sample_fwd_key (mk_fstate 5 sample_hash_1)) 20)
           (calm (state_wire sample_mac sample_fwd_key (mk_fstate 5 sample_hash_1)) 12)).
  - apply socket_buffers, sample_conn_ok.
  - reflexivity.
  - lia.
  - apply Forall_nil_2.
  - apply sample_calls_ok.
  - lia.
  - apply surjective_pairing.
  - vm_compute. reflexivity.
  - vm_compute. reflexivity.
Defined.

(** One checkpoint waits. *)
Definition sample_item : item := mk_item 5 100 sample_hash_1.

Definition sample_view : view := mk_view [sample_item] [].

Definition sample_fwd : forwarder Z :=
  mk_fwd (Some [mk_ckpt 5 100 sample_hash_1 (zeros 32); zero_ckpt]) 2 0 1 1 sample_fwd_key zero_fstate 3 (Some collector).

Lemma sample_item_ok : item_ok sample_item.
Proof. split; [|split; [|apply sample_hash_1_ok]]; cbn; [split|]; lia. Qed.

Lemma sample_checkpoint_ok x : item_ok x ->
  len (item_wire sample_mac sample_fwd_key x) = CHECKPOINT_WIRE_SIZE /\ bytes_ok (item_wire sample_mac sample_fwd_key x).
Proof.
  intros (Hs & Ht & Hh & Hb). unfold item_wire, checkpoint_wire. split.
  - by rewrite (len_tagged sample_mac sample_mac_len), len_framed, len_app, len_store_u64, Hh.
  - unfold tagged. rewrite bytes_ok_app. split; [|apply sample_mac_ok]. apply framed_ok; [by apply bytes_okb_ok|].
    rewrite bytes_ok_app. split; [apply store_u64_ok|done].
Qed.

Lemma bytes_okb_complete b : bytes_ok b -> bytes_okb b = true.
Proof. intros H. apply forallb_forall. intros x Hx. pose proof (proj1 (List.Forall_forall _ _) H x Hx) as Hb. unfold byte_ok in Hb. lia. Qed.

Lemma collector_collects : collects sample_mac collector sample_fwd_key.
Proof.
  intros t x Hx. destruct (sample_checkpoint_ok x Hx) as [Hl Hok]. destruct Hx as (Hs & Ht & Hh). exists (zeros 16), (t + 1).
  split; [reflexivity|]. unfold collector. rewrite Hl, bytes_okb_complete by done. cbn [andb Z.eqb].
  change (CHECKPOINT_WIRE_SIZE =? CHECKPOINT_WIRE_SIZE) with true. cbv iota. clear Hl Hok.
  unfold item_wire, checkpoint_wire, tagged. rewrite framed_app, <- app_assoc.
  destruct (framed_fields checkpoint_magic (it_seq x) (store_u64_be (it_ts x) ++ it_hash x ++
    sample_mac sample_fwd_key (checkpoint_domain ++ framed checkpoint_magic (it_seq x) (store_u64_be (it_ts x) ++ it_hash x)))
    eq_refl Hs) as (_ & _ & _ & E4 & E5).
  rewrite E4, E5 by done. rewrite sub_app_r, len_store_u64 by (rewrite len_store_u64; done). rewrite sub_here; [done|done|].
  symmetry. apply Hh.
Qed.

Lemma collector_buffers t : buffers_ok collector t.
Proof.
  intros t1 m st buf n t' _. unfold collector. destruct (_ && _) eqn:E; bool_hyps; intros [= <- <- <- <-].
  - match goal with H : bytes_okb m = true |- _ => apply bytes_okb_ok in H; rename H into Hok end. unfold CHECKPOINT_WIRE_SIZE in *.
    assert (Hh : len (sub 28 32 m) = 32) by (rewrite len_sub; lia). unfold receipt_wire. split.
    + by rewrite (len_tagged sample_mac sample_mac_len), len_framed, len_app, Hh.
    + unfold tagged. rewrite bytes_ok_app. split; [|apply sample_mac_ok]. apply framed_ok; [by apply bytes_okb_ok|].
      rewrite bytes_ok_app. split; [by apply bytes_ok_sub|apply bytes_ok_zeros].
  - split; [done|apply bytes_ok_zeros].
Qed.

Lemma sample_history : history sample_mac collector sample_fwd_key 3 0 zero_fstate [] sample_view sample_fwd 0 [].
Proof.
  split; [|by repeat constructor|constructor|].
  - split; try reflexivity; [|by apply list.Forall_singleton, sample_item_ok]. eexists. split; [reflexivity|].
    split; cbn; lia || reflexivity.
  - by left.
Qed.

Lemma flush_delivers_witness :
  exists f' t' w',
    run sample_mac [Flush] sample_fwd 0 (calm [] 21) = (Ret ([FORWARDER_OK], f', t'), w') /\
    queue_items f' = [] /\ fw_persisted f' = mk_fstate 5 sample_hash_1 /\
    (0 <= 3 -> file w' = state_file sample_mac sample_fwd_key (fw_persisted f')).
Proof.
  apply (flush_delivers sample_mac sample_mac_len collector sample_fwd_key 3 0 zero_fstate [] sample_view sample_fwd 0
           (calm [] 21)).
  - apply collector_buffers.
  - apply collector_collects.
  - by left.
  - apply sample_history.
  - repeat constructor. cbn. lia.
  - apply calm_smooth. cbn. lia.
Defined.

Lemma rollback_check_sound_witness :
  let f := chain_wire sample_hash [sample_entry] in
  file (calm f 12) = f /\ (f = f \/ exists es', f = chain_wire sample_hash es' /\ blocks_collide sample_hash [sample_entry] es').
Proof.
  apply (rollback_check_sound sample_hash sample_hash_len rw_fd [sample_entry]
           (calm (chain_wire sample_hash [sample_entry]) 30) (calm (chain_wire sample_hash [sample_entry]) 12)).
  - apply bytes_okb_ok. vm_compute. reflexivity.
  - apply list.Forall_singleton, sample_entry_ok.
  - discriminate.
  - vm_compute. reflexivity.
Defined.

Lemma socket_send_exact_witness :
  exists sent k consumed,
    0 <= sent <= 96 /\
    sub 0 96 (store_u32_be 92 ++ item_wire sample_mac sample_fwd_key sample_item)
      = [] ++ sub 0 sent (store_u32_be CHECKPOINT_WIRE_SIZE ++ item_wire sample_mac sample_fwd_key sample_item) /\
    [] ++ concat (map r_arrived (take k (receiving sample_conn))) = consumed ++ [] /\
    len consumed <= 4 + RECEIPT_WIRE_SIZE /\
    answer_exact sent consumed
      (Some (0, receipt_wire sample_mac sample_fwd_key 5 sample_hash_1 (zeros 16), 100)).
Proof.
  apply (socket_send_exact 7 500 sample_conn (item_wire sample_mac sample_fwd_key sample_item)
           (Some (0, receipt_wire sample_mac sample_fwd_key 5 sample_hash_1 (zeros 16), 100))
           (mk_conn [] (sub 0 96 (store_u32_be 92 ++ item_wire sample_mac sample_fwd_key sample_item)) [])).
  - apply sample_checkpoint_ok, sample_item_ok.
  - vm_compute. reflexivity.
Defined.

(** The process dies after 40 octets of its first state file: the next start refuses the
    file, and so does every later one. *)
Lemma torn_state_refused :
  let torn := file (snd (session sample_mac (socket_transport 7 500) sample_fwd_key 3 4 sample_calls sample_conn
                           (mk_world [] F_UNLCK (replicate 19 (Go SIZE_MAX) ++ [Go 40])))) in
  len torn = 40 /\
  fst (alrios_forwarder_state_read sample_mac 3 (Some sample_fwd_key) true (calm torn 20))
    = Ret (FORWARDER_ERR_STATE_CORRUPT, Some zero_fstate).
Proof. split; vm_compute; reflexivity. Qed.
