(* ===== verification/Lifecycle.v ===== *)
(** Hooks of a deployment and the swap they guard (src/libraries/hooks/lifecycle.c,
    src/libraries/hooks/hooks_executor.c and src/libraries/deploy/atomic_swap.c).

    The environment answers the [i]-th system call; a call takes [delay i] nanoseconds
    and a sleep at least what was asked. The world is what the functions change or look
    at: the symbolic links, the hook directories as [scandir] lists them, the processes
    started. A hook may change the links when it runs, and does not change the hook
    directories. A string is the octets before its terminator. *)

From stdpp Require Import gmap.
From S2P Require Import Prelude.
#[local] Open Scope Z_scope.

(** ** Constants and data (include/alrios/hooks/lifecycle.h, include/alrios/hooks.h) *)

Definition HOOK_DEFAULT_TIMEOUT_MS : Z := 5000.

Definition HOOK_MAX_PATH_LEN : Z := 1024.

Definition HOOK_MAX_ENV_COUNT : Z := 64.

Definition PATH_MAX : Z := 4096.

Definition HOOK_OK : Z := 0.

Definition HOOK_ERR_INVALID : Z := -3001.

Definition HOOK_ERR_TIMEOUT : Z := -3002.

Definition HOOK_ERR_EXEC : Z := -3004.

Definition HOOK_ERR_ABORT : Z := -3005.

Definition HOOK_ERR_SWAP : Z := -3008.

(** [HOOK_OTHER] is any other value of the C enumeration. *)
Inductive hook_phase :=
  | HOOK_PRE_BUILD
  | HOOK_POST_BUILD
  | HOOK_PRE_SWAP
  | HOOK_POST_SWAP
  | HOOK_PRE_DRAIN
  | HOOK_POST_DRAIN
  | HOOK_OTHER.

Record hook_entry := mk_hook {
  hk_name : bytes;
  hk_path : bytes;
  hk_timeout_ms : Z;
  hk_optional : bool;
}.

(** A pointer that may be NULL is an option. *)
Record hook_context := mk_ctx {
  cx_phase : hook_phase;
  cx_app_id : option bytes;
  cx_slot_path : option bytes;
  cx_old_slot_path : option bytes;
  cx_new_slot_path : option bytes;
  cx_working_directory : option bytes;
  cx_timeout_ms : Z;
  cx_custom_env : option (list (option bytes));
  cx_run_as_uid : Z;
  cx_run_as_gid : Z;
  cx_drop_privileges : bool;
}.

Record hook_result := mk_result {
  hr_exit_code : Z;
  hr_error_code : Z;
  hr_elapsed_ms : Z;
  hr_failed_hook : bytes;
  hr_timed_out : bool;
  hr_aborted : bool;
}.

Definition zero_result : hook_result := mk_result 0 0 0 [] false false.

(** ** The world *)

(** An entry of a hook directory: what [stat] and [access] say of it. *)
Record dentry := mk_dentry {
  d_name : bytes;
  d_regular : bool;
  d_executable : bool;
}.

(** A process to be: its identifier (negative: it cannot be started), what waiting for it
    at a system call answers, and what it does to the symbolic links. *)
Record child := mk_child {
  ch_pid : Z;
  ch_wait : nat -> Z * Z;
  ch_links : gmap bytes bytes -> gmap bytes bytes;
}.

Inductive signal := SIGNAL_TERM | SIGNAL_KILL.

(** What a hook is started with. *)
Record launch := mk_launch {
  ln_path : bytes;
  ln_env : list bytes;
  ln_directory : option bytes;
  ln_uid : Z;
  ln_gid : Z;
}.

Inductive action :=
  | Started (l : launch) (pid : Z)
  | Signalled (pid : Z) (to_group : bool) (s : signal) (at_time : Z)
  | Hangup (pid : Z).

Record world := mk_world {
  calls : nat;
  time : Z;
  links : gmap bytes bytes;
  dirs : gmap bytes (option (list dentry));
  started : nat;
  log : list action;
}.

Record environment := mk_env {
  delay : nat -> Z;
  (** [clock_gettime] succeeds. *)
  clock_ok : nat -> bool;
  (** [unlink], [symlink], [rename], [readlink] or [kill] succeeds. *)
  call_ok : nat -> bool;
  (** [renameat2] is there. *)
  renameat2_there : nat -> bool;
  children : nat -> child;
  euid : Z;
  self : Z;
}.

(** A computation; it has no result when a loop's fuel is too small. *)
Definition io (A : Type) : Type := world -> option (A * world).

Definition ret {A} (a : A) : io A := fun w => Some (a, w).

Definition bind {A B} (m : io A) (k : A -> io B) : io B :=
  fun w => match m w with Some (a, w') => k a w' | None => None end.

Declare Scope hook_scope.
Delimit Scope hook_scope with hook.
Notation "'let!' x ':=' m 'in' k" := (bind m (fun x => k))
  (at level 10, x pattern, m at level 100, k at level 200) : hook_scope.
#[local] Open Scope hook_scope.

(** ** Strings *)

(** What [snprintf] stores in a buffer of [size] octets. *)
Definition fmt (size : Z) (s : bytes) : bytes := sub 0 (size - 1) s.

Definition is_empty (s : bytes) : bool := match s with [] => true | _ => false end.

Definition alrios_hook_phase_name (phase : hook_phase) : bytes :=
  match phase with
  | HOOK_PRE_BUILD => lit "pre-build"
  | HOOK_POST_BUILD => lit "post-build"
  | HOOK_PRE_SWAP => lit "pre-swap"
  | HOOK_POST_SWAP => lit "post-swap"
  | HOOK_PRE_DRAIN => lit "pre-drain"
  | HOOK_POST_DRAIN => lit "post-drain"
  | HOOK_OTHER => lit "unknown"
  end.

(** Status and [*out_phase] ([None]: untouched). *)
Definition alrios_hook_phase_from_name (name : option bytes) (out_present : bool) : Z * option hook_phase :=
  match name with
  | None => (HOOK_ERR_INVALID, None)
  | Some name =>
      if negb out_present then (HOOK_ERR_INVALID, None)
      else if bytes_eqb name (lit "pre-build") then (HOOK_OK, Some HOOK_PRE_BUILD)
      else if bytes_eqb name (lit "post-build") then (HOOK_OK, Some HOOK_POST_BUILD)
      else if bytes_eqb name (lit "pre-swap") then (HOOK_OK, Some HOOK_PRE_SWAP)
      else if bytes_eqb name (lit "post-swap") then (HOOK_OK, Some HOOK_POST_SWAP)
      else if bytes_eqb name (lit "pre-drain") then (HOOK_OK, Some HOOK_PRE_DRAIN)
      else if bytes_eqb name (lit "post-drain") then (HOOK_OK, Some HOOK_POST_DRAIN)
      else (HOOK_ERR_INVALID, None)
  end.

Definition alrios_hook_phase_aborts_on_fail (phase : hook_phase) : bool :=
  match phase with
  | HOOK_POST_SWAP | HOOK_POST_DRAIN => false
  | _ => true
  end.

(** ** System calls *)

Section Hooks.
Context (env : environment).

(** A call and [ns] nanoseconds of sleep. *)
Definition pass (ns : Z) (w : world) : world :=
  mk_world (S (calls w)) (time w + delay env (calls w) + ns) (links w) (dirs w) (started w) (log w).

Definition record (a : action) (w : world) : world :=
  mk_world (calls w) (time w) (links w) (dirs w) (started w) (log w ++ [a]).

Definition set_links (f : gmap bytes bytes -> gmap bytes bytes) (w : world) : world :=
  mk_world (calls w) (time w) (f (links w)) (dirs w) (started w) (log w).

Definition sleep_5ms : io unit := fun w => Some (tt, pass 5000000 w).

(** [clock_gettime]: seconds and nanoseconds. *)
Definition clock_gettime : io (option (Z * Z)) :=
  fun w => Some (if clock_ok env (calls w) then Some (time w / 1000000000, time w mod 1000000000) else None, pass 0 w).

Definition monotonic_time_ms : io Z :=
  let! ts := clock_gettime in
  ret (match ts with
       | Some (tv_sec, tv_nsec) => u64 (u64 (u64 tv_sec * 1000) + u64 tv_nsec / 1000000)
       | None => 0
       end).

(** [ar_process_spawn_as]: the process and its identifier. An attempt that fails is in
    the log too. *)
Definition ar_process_spawn_as (l : launch) : io (child * Z) :=
  fun w =>
    let c := children env (started w) in
    let w := pass 0 w in
    let w := mk_world (calls w) (time w) (links w) (dirs w) (S (started w)) (log w) in
    let w := record (Started l (ch_pid c)) w in
    Some ((c, ch_pid c), if ch_pid c <? 0 then w else set_links (ch_links c) w).

(** The result and, when it is positive, the status. *)
Definition ar_process_wait_raw_nohang (c : child) : io (Z * Z) :=
  fun w => Some (ch_wait c (calls w), pass 0 w).

(** The wait for a process that was killed; the status is not looked at. *)
Definition ar_process_wait_raw (c : child) : io unit := fun w => Some (tt, pass 0 w).

(** [ar_process_signal]; its result is ignored. *)
Definition ar_process_signal (pid : Z) (s : signal) (process_group : bool) : io unit :=
  fun w => Some (tt, record (Signalled pid process_group s (time w)) (pass 0 w)).

(** ** One hook *)

(** [WIFEXITED], [WEXITSTATUS], [WIFSIGNALED], [WTERMSIG]: the exit code and whether the
    hook failed. *)
Definition verdict (status : Z) : Z * bool :=
  let signal := Z.land status 127 in
  if signal =? 0 then
    let exit_code := Z.land (Z.shiftr status 8) 255 in (exit_code, negb (exit_code =? 0))
  else if signal =? 127 then (0, false) else (128 + signal, true).

(** How the loop ends: the child is over, with its status; waiting failed; the deadline
    has passed. *)
Inductive wait_end := ChildDone (status : Z) | WaitFailed | TimedOut.

Fixpoint wait_loop (fuel : nat) (c : child) (deadline_ms : Z) : io wait_end :=
  match fuel with
  | O => fun _ => None
  | S fuel =>
      let! (wait_result, status) := ar_process_wait_raw_nohang c in
      if wait_result >? 0 then ret (ChildDone status)
      else if wait_result <? 0 then ret WaitFailed
      else
        let! now_ms := monotonic_time_ms in
        if now_ms >=? deadline_ms then ret TimedOut
        else
          let! _ := sleep_5ms in
          wait_loop fuel c deadline_ms
  end.

(** [while (monotonic_time_ms() < term_deadline)]: is the child over? *)
Fixpoint term_loop (fuel : nat) (c : child) (term_deadline : Z) : io bool :=
  match fuel with
  | O => fun _ => None
  | S fuel =>
      let! now := monotonic_time_ms in
      if negb (now <? term_deadline) then ret false
      else
        let! (wait_result, _) := ar_process_wait_raw_nohang c in
        if negb (wait_result =? 0) then ret true
        else
          let! _ := sleep_5ms in
          term_loop fuel c term_deadline
  end.

(** Turns of five milliseconds that reach a deadline [ms] away. *)
Definition turns (ms : Z) : nat := Z.to_nat (ms / 5 + 2).

Definition or_empty (s : option bytes) : bytes := default [] s.

Definition fixed_env (ctx : hook_context) : list bytes :=
  let phase_str := alrios_hook_phase_name (cx_phase ctx) in
  [fmt 128 (lit "ALRIOS_HOOK_PHASE=" ++ phase_str);
   fmt 128 (lit "ALRIOS_HOOK_STAGE=" ++ phase_str);
   fmt 512 (lit "ALRIOS_APP_ID=" ++ or_empty (cx_app_id ctx));
   fmt HOOK_MAX_PATH_LEN (lit "ALRIOS_SLOT_PATH=" ++ or_empty (cx_slot_path ctx));
   fmt HOOK_MAX_PATH_LEN (lit "ALRIOS_OLD_SLOT_PATH=" ++ or_empty (cx_old_slot_path ctx));
   fmt HOOK_MAX_PATH_LEN (lit "ALRIOS_NEW_SLOT_PATH=" ++ or_empty (cx_new_slot_path ctx));
   lit "PATH=/usr/bin:/bin:/usr/sbin:/sbin"].

(** The entries of [child_env], an array of [HOOK_MAX_ENV_COUNT + 16] with a terminator. *)
Fixpoint add_custom_env (custom : list (option bytes)) (child_env : list bytes) : list bytes :=
  match custom with
  | [] => child_env
  | e :: custom =>
      if negb (len child_env <? HOOK_MAX_ENV_COUNT + 16 - 1) then child_env
      else
        match e with
        | Some s => add_custom_env custom (child_env ++ [s])
        | None => add_custom_env custom child_env
        end
  end.

Definition hook_launch (ctx : hook_context) (hook_path : bytes) : launch :=
  let root := cx_drop_privileges ctx && (euid env =? 0) in
  let nobody id := if root && (id =? 0) then 65534 else id in
  mk_launch hook_path
    (match cx_custom_env ctx with Some custom => add_custom_env custom (fixed_env ctx) | None => fixed_env ctx end)
    (match cx_working_directory ctx with
     | Some d => if is_empty d then cx_slot_path ctx else Some d
     | None => cx_slot_path ctx
     end)
    (nobody (cx_run_as_uid ctx)) (nobody (cx_run_as_gid ctx)).

Definition effective_timeout (ctx : hook_context) (timeout_ms : Z) : Z :=
  if timeout_ms >? 0 then timeout_ms
  else if cx_timeout_ms ctx >? 0 then cx_timeout_ms ctx else HOOK_DEFAULT_TIMEOUT_MS.

(** [memset(out_result, 0, ...); out_result->error_code = code;] where it is not NULL. *)
Definition only_code (out_present : bool) (code : Z) : option hook_result :=
  if out_present then Some (mk_result 0 code 0 [] false false) else None.

(** SIGTERM to the group of a hook that is too slow, and SIGKILL after 100 milliseconds. *)
Definition escalate (c : child) (pid : Z) : io unit :=
  let! _ := ar_process_signal pid SIGNAL_TERM true in
  let! now := monotonic_time_ms in
  let! child_done := term_loop (turns 100) c (u64 (now + 100)) in
  if child_done then ret tt
  else
    let! _ := ar_process_signal pid SIGNAL_KILL true in
    ar_process_wait_raw c.

(** Status and [*out_result]. *)
Definition alrios_hook_run_single (ctx : option hook_context) (hook_path : option bytes) (timeout_ms : Z)
    (out_present : bool) : io (Z * option hook_result) :=
  match ctx, hook_path with
  | Some ctx, Some hook_path =>
      if is_empty hook_path then ret (HOOK_ERR_INVALID, only_code out_present HOOK_ERR_INVALID)
      else
        let failed := fmt HOOK_MAX_PATH_LEN hook_path in
        let out r := if out_present then Some r else None in
        let timeout := effective_timeout ctx timeout_ms in
        let! start_ms := monotonic_time_ms in
        let deadline_ms := u64 (start_ms + timeout) in
        let! (c, pid) := ar_process_spawn_as (hook_launch ctx hook_path) in
        if pid <? 0 then ret (HOOK_ERR_EXEC, out (mk_result 0 HOOK_ERR_EXEC 0 failed false false))
        else
          let! ended := wait_loop (turns timeout) c deadline_ms in
          match ended with
          | TimedOut =>
              let! _ := escalate c pid in
              if out_present then
                let! now := monotonic_time_ms in
                ret (HOOK_ERR_TIMEOUT, Some (mk_result 0 HOOK_ERR_TIMEOUT (u64 (now - start_ms)) failed true false))
              else ret (HOOK_ERR_TIMEOUT, None)
          | _ =>
              let! now := monotonic_time_ms in
              let elapsed := u64 (now - start_ms) in
              match ended with
              | ChildDone status =>
                  let (exit_code, bad) := verdict status in
                  if bad then ret (HOOK_ERR_EXEC, out (mk_result exit_code HOOK_ERR_EXEC elapsed failed false false))
                  else ret (HOOK_OK, out (mk_result exit_code HOOK_OK elapsed [] false false))
              | _ => ret (HOOK_OK, out (mk_result 0 HOOK_OK elapsed [] false false))
              end
          end
  | _, _ => ret (HOOK_ERR_INVALID, only_code out_present HOOK_ERR_INVALID)
  end.

(** ** Several hooks *)

(** The elapsed time of one hook is added to [*out_result]; ... *)
Definition add_elapsed (out : option hook_result) (single : hook_result) : option hook_result :=
  match out with
  | Some r => Some (mk_result (hr_exit_code r) (hr_error_code r) (u64 (hr_elapsed_ms r + hr_elapsed_ms single))
                      (hr_failed_hook r) (hr_timed_out r) (hr_aborted r))
  | None => None
  end.

(** ... its failure is noted, ... *)
Definition note_failure (out : option hook_result) (single : hook_result) (name : bytes) : option hook_result :=
  match out with
  | Some r => Some (mk_result (hr_exit_code single) (hr_error_code single) (hr_elapsed_ms r)
                      (fmt HOOK_MAX_PATH_LEN name) (hr_timed_out single) (hr_aborted r))
  | None => None
  end.

(** ... and so is an abort. *)
Definition set_aborted (out : option hook_result) : option hook_result :=
  match out with
  | Some r => Some (mk_result (hr_exit_code r) (hr_error_code r) (hr_elapsed_ms r) (hr_failed_hook r) (hr_timed_out r) true)
  | None => None
  end.

Definition set_code (code : Z) (out : option hook_result) : option hook_result :=
  match out with
  | Some r => Some (mk_result (hr_exit_code r) code (hr_elapsed_ms r) (hr_failed_hook r) (hr_timed_out r) (hr_aborted r))
  | None => None
  end.

Definition clear (out : option hook_result) : option hook_result :=
  match out with Some _ => Some zero_result | None => None end.

Definition present {A} (o : option A) : bool := match o with Some _ => true | None => false end.

Fixpoint list_loop (ctx : hook_context) (hooks : list hook_entry) (out : option hook_result)
    : io (Z * option hook_result) :=
  match hooks with
  | [] => ret (HOOK_OK, set_code HOOK_OK out)
  | entry :: hooks =>
      if is_empty (hk_path entry) then list_loop ctx hooks out
      else
        let t := if hk_timeout_ms entry >? 0 then hk_timeout_ms entry else cx_timeout_ms ctx in
        let! (rc, single_res) := alrios_hook_run_single (Some ctx) (Some (hk_path entry)) t true in
        let single_res := default zero_result single_res in
        let out := add_elapsed out single_res in
        if negb (rc =? HOOK_OK) then
          let out := note_failure out single_res (if is_empty (hk_name entry) then hk_path entry else hk_name entry) in
          if negb (hk_optional entry) then ret (rc, set_aborted out) else list_loop ctx hooks out
        else list_loop ctx hooks out
  end.

(** [hooks] is NULL or an array of [hook_count] entries. *)
Definition alrios_hook_run_list (ctx : option hook_context) (hooks : option (list hook_entry)) (hook_count : Z)
    (out : option hook_result) : io (Z * option hook_result) :=
  match ctx, hooks with
  | None, _ => ret (HOOK_ERR_INVALID, only_code (present out) HOOK_ERR_INVALID)
  | Some _, None =>
      if hook_count >? 0 then ret (HOOK_ERR_INVALID, only_code (present out) HOOK_ERR_INVALID)
      else ret (HOOK_OK, set_code HOOK_OK (clear out))
  | Some ctx, Some hooks => list_loop ctx (take (Z.to_nat hook_count) hooks) (clear out)
  end.

(** The path of an entry that is to be run, if it is. *)
Definition hook_of_entry (dir_path : bytes) (e : dentry) : option bytes :=
  let name := d_name e in
  if at_ name 0 =? 46 then None
  else if (len name >? 0) && (at_ name (len name - 1) =? 126) then None
  else
    let hook_path := dir_path ++ [47] ++ name in
    if len hook_path >=? HOOK_MAX_PATH_LEN then None
    else if negb (d_regular e) then None
    else if negb (d_executable e) then None
    else Some hook_path.

Fixpoint directory_loop (ctx : hook_context) (dir_path : bytes) (abort_on_fail : bool) (namelist : list dentry)
    (out : option hook_result) : io (Z * option hook_result) :=
  match namelist with
  | [] => ret (HOOK_OK, set_code HOOK_OK out)
  | e :: namelist =>
      match hook_of_entry dir_path e with
      | None => directory_loop ctx dir_path abort_on_fail namelist out
      | Some hook_path =>
          let! (rc, single_res) := alrios_hook_run_single (Some ctx) (Some hook_path) (cx_timeout_ms ctx) true in
          let single_res := default zero_result single_res in
          let out := add_elapsed out single_res in
          if negb (rc =? HOOK_OK) then
            let out := note_failure out single_res hook_path in
            if abort_on_fail then ret (rc, set_aborted out)
            else directory_loop ctx dir_path abort_on_fail namelist out
          else directory_loop ctx dir_path abort_on_fail namelist out
      end
  end.

(** [stat] and [scandir]: no directory, one that cannot be read, or its entries, sorted. *)
Definition list_directory (dir_path : bytes) : io (option (option (list dentry))) :=
  fun w => Some (dirs w !! dir_path, pass 0 w).

Definition alrios_hook_run_directory (ctx : option hook_context) (dir_path : option bytes)
    (out : option hook_result) : io (Z * option hook_result) :=
  match ctx, dir_path with
  | Some ctx, Some dir_path =>
      if is_empty dir_path then ret (HOOK_ERR_INVALID, only_code (present out) HOOK_ERR_INVALID)
      else
        let! listing := list_directory dir_path in
        match listing with
        | Some (Some namelist) =>
            directory_loop ctx dir_path (alrios_hook_phase_aborts_on_fail (cx_phase ctx)) namelist out
        | _ => ret (HOOK_OK, only_code (present out) HOOK_OK)
        end
  | _, _ => ret (HOOK_ERR_INVALID, only_code (present out) HOOK_ERR_INVALID)
  end.

Definition slot_hooks_dir (slot_path : bytes) (phase_str : bytes) : bytes :=
  slot_path ++ lit "/hooks.d/" ++ phase_str.

Definition sys_hooks_dir (phase_str : bytes) : bytes := lit "/etc/alrios/hooks.d/" ++ phase_str.

(** The hooks of one directory of a phase, if its path fits. *)
Definition phase_directory (ctx : hook_context) (dir : bytes) (out : option hook_result) : io (Z * option hook_result) :=
  if (len dir >? 0) && (len dir <? HOOK_MAX_PATH_LEN)
  then alrios_hook_run_directory (Some ctx) (Some dir) out else ret (HOOK_OK, out).

Definition alrios_hook_run_phase (ctx : option hook_context) (out : option hook_result) : io (Z * option hook_result) :=
  match ctx with
  | None => ret (HOOK_ERR_INVALID, only_code (present out) HOOK_ERR_INVALID)
  | Some ctx =>
      let phase_str := alrios_hook_phase_name (cx_phase ctx) in
      let abort_on_fail := alrios_hook_phase_aborts_on_fail (cx_phase ctx) in
      let out := clear out in
      let! (status, out) :=
        match cx_slot_path ctx with
        | Some slot => if is_empty slot then ret (HOOK_OK, out) else phase_directory ctx (slot_hooks_dir slot phase_str) out
        | None => ret (HOOK_OK, out)
        end in
      if negb (status =? HOOK_OK) && abort_on_fail then ret (status, out)
      else
        let! (status, out) := phase_directory ctx (sys_hooks_dir phase_str) out in
        if negb (status =? HOOK_OK) && abort_on_fail then ret (status, out)
        else ret (HOOK_OK, set_code HOOK_OK out)
  end.

(** ** The swap of a symbolic link (src/libraries/deploy/atomic_swap.c) *)

(** A call that changes the links, if it succeeds. *)
Definition link_call (can : gmap bytes bytes -> bool) (f : gmap bytes bytes -> gmap bytes bytes) : io bool :=
  fun w =>
    let ok := call_ok env (calls w) && can (links w) in
    let w := pass 0 w in
    Some (ok, if ok then set_links f w else w).

Definition unlink (path : bytes) : io bool := link_call (fun l => present (l !! path)) (delete path).

Definition symlink (target path : bytes) : io bool := link_call (fun l => negb (present (l !! path))) <[path := target]>.

Definition move (from to : bytes) (l : gmap bytes bytes) : gmap bytes bytes :=
  match l !! from with Some target => <[to := target]> (delete from l) | None => l end.

Definition rename (from to : bytes) : io bool := link_call (fun l => present (l !! from)) (move from to).

(** Done, and is the error ENOSYS? *)
Definition renameat2 (from to : bytes) : io (bool * bool) :=
  fun w => if renameat2_there env (calls w)
           then match rename from to w with Some (ok, w) => Some ((ok, false), w) | None => None end
           else Some ((false, true), pass 0 w).

Definition readlink (path : bytes) : io (option bytes) :=
  fun w => Some (if call_ok env (calls w) then links w !! path else None, pass 0 w).

Definition signal_hangup (pid : Z) : io bool :=
  fun w => let ok := call_ok env (calls w) in
           let w := pass 0 w in Some (ok, if ok then record (Hangup pid) w else w).

Definition tmp_name (symlink_current : bytes) : bytes := symlink_current ++ lit ".tmp." ++ decimal (self env).

Definition alrios_atomic_symlink_swap (target_dir symlink_current : option bytes) (master_pid : Z) : io Z :=
  match target_dir, symlink_current with
  | Some target, Some current =>
      if is_empty target || is_empty current || (master_pid <? 0) then ret (-1)
      else
        let tmp := tmp_name current in
        if len tmp >=? PATH_MAX then ret (-1)
        else
          let! _ := unlink tmp in
          let! ok := symlink target tmp in
          if negb ok then ret (-2)
          else
            let! (ok, enosys) := renameat2 tmp current in
            let! ok := if negb ok && enosys then rename tmp current else ret ok in
            if negb ok then let! _ := unlink tmp in ret (-3)
            else if master_pid >? 1 then let! ok := signal_hangup master_pid in ret (if ok then 0 else -4)
            else ret 0
  | _, _ => ret (-1)
  end.

(** ** The guarded swap *)

Definition zero_ctx : hook_context := mk_ctx HOOK_OTHER None None None None None 0 None 0 0 false.

Definition with_phase (ph : hook_phase) (c : hook_context) : hook_context :=
  mk_ctx ph (cx_app_id c) (cx_slot_path c) (cx_old_slot_path c) (cx_new_slot_path c) (cx_working_directory c)
    (cx_timeout_ms c) (cx_custom_env c) (cx_run_as_uid c) (cx_run_as_gid c) (cx_drop_privileges c).

Definition swap_context (ctx : option hook_context) (target previous_target : bytes) : hook_context :=
  let c := default zero_ctx ctx in
  mk_ctx HOOK_PRE_SWAP (cx_app_id c)
    (match cx_slot_path c with Some s => Some s | None => Some target end)
    (match cx_old_slot_path c with
     | Some s => Some s
     | None => if is_empty previous_target then None else Some previous_target
     end)
    (Some target) (cx_working_directory c) (cx_timeout_ms c) (cx_custom_env c) (cx_run_as_uid c) (cx_run_as_gid c)
    (cx_drop_privileges c).

Definition alrios_lifecycle_atomic_swap (ctx : option hook_context) (target_dir symlink_current : option bytes)
    (master_pid : Z) (out : option hook_result) : io (Z * option hook_result) :=
  match target_dir, symlink_current with
  | Some target, Some current =>
      if is_empty target || is_empty current then ret (HOOK_ERR_INVALID, only_code (present out) HOOK_ERR_INVALID)
      else
        let out := clear out in
        let! link := readlink current in
        let previous_target := sub 0 (PATH_MAX - 1) (or_empty link) in
        let pre_ctx := swap_context ctx target previous_target in
        let! (pre_status, out) := alrios_hook_run_phase (Some pre_ctx) out in
        if negb (pre_status =? HOOK_OK) then ret (HOOK_ERR_ABORT, set_code pre_status (set_aborted out))
        else
          let! swap_rc := alrios_atomic_symlink_swap (Some target) (Some current) master_pid in
          if negb (swap_rc =? 0) then
            let! _ := if is_empty previous_target then ret 0
                      else alrios_atomic_symlink_swap (Some previous_target) (Some current) 0 in
            ret (HOOK_ERR_SWAP, set_code HOOK_ERR_SWAP (set_aborted out))
          else
            let! (_, out) := alrios_hook_run_phase (Some (with_phase HOOK_POST_SWAP pre_ctx)) out in
            ret (HOOK_OK, set_code HOOK_OK out)
  | _, _ => ret (HOOK_ERR_INVALID, only_code (present out) HOOK_ERR_INVALID)
  end.

(** ** The older executor (src/libraries/hooks/hooks_executor.c) *)

Record hook_inv := mk_inv {
  iv_stage : hook_phase;
  iv_app_id : option bytes;
  iv_slot_path : option bytes;
  iv_timeout_ms : Z;
}.

Definition EXEC_ERR_TIMEOUT : Z := -301.

Definition EXEC_ERR_FAIL : Z := -302.

Definition EXEC_MAX_PATH : Z := 1024.

Definition hook_stage_to_string (stage : hook_phase) : option bytes :=
  match stage with HOOK_OTHER => None | _ => Some (alrios_hook_phase_name stage) end.

Definition hook_stage_aborts_on_fail (stage : hook_phase) : bool :=
  match stage with
  | HOOK_POST_SWAP | HOOK_POST_DRAIN => false
  | _ => true
  end.

Definition app_id_char (c : Z) : bool :=
  ((97 <=? c) && (c <=? 122)) || ((65 <=? c) && (c <=? 90)) || ((48 <=? c) && (c <=? 57))
  || (c =? 46) || (c =? 45) || (c =? 95).

Definition is_valid_app_id (app_id : option bytes) : bool :=
  match app_id with
  | None => false
  | Some s => if is_empty s then false else if len s >? 255 then false else forallb app_id_char s
  end.

(** [strstr(s, "..") != NULL] *)
Fixpoint has_dots (s : bytes) : bool :=
  match s with
  | [] => false
  | c :: s' => ((c =? 46) && (at_ s' 0 =? 46)) || has_dots s'
  end.

Definition is_valid_slot_path (slot_path : option bytes) : bool :=
  match slot_path with
  | None => true
  | Some s => if (len s =? 0) || (len s >=? 512) then false else negb (has_dots s)
  end.

(** The milliseconds since the start: the differences of seconds and of nanoseconds are
    converted to an unsigned type one by one. *)
Definition elapsed_ms (start now : Z * Z) : Z :=
  u64 (u64 (u64 (now.1 - start.1) * 1000) + u64 (now.2 - start.2) / 1000000).

Fixpoint exec_wait_loop (fuel : nat) (c : child) (start : Z * Z) (timeout_ms : Z) : io wait_end :=
  match fuel with
  | O => fun _ => None
  | S fuel =>
      let! (wait_result, status) := ar_process_wait_raw_nohang c in
      if wait_result >? 0 then ret (ChildDone status)
      else if wait_result <? 0 then ret WaitFailed
      else
        let! now := clock_gettime in
        let late := match now with Some now => elapsed_ms start now >=? timeout_ms | None => false end in
        if late then ret TimedOut
        else
          let! _ := sleep_5ms in
          exec_wait_loop fuel c start timeout_ms
  end.

Definition exec_launch (inv : hook_inv) (hook_path : bytes) : launch :=
  mk_launch hook_path
    [fmt 128 (lit "ALRIOS_HOOK_STAGE=" ++ default (lit "unknown") (hook_stage_to_string (iv_stage inv)));
     fmt 512 (lit "ALRIOS_APP_ID=" ++ or_empty (iv_app_id inv));
     fmt EXEC_MAX_PATH (lit "ALRIOS_SLOT_PATH=" ++ or_empty (iv_slot_path inv));
     lit "PATH=/usr/bin:/bin:/usr/sbin:/sbin"] None 0 0.

Definition execute_single_hook (hook_path : bytes) (inv : hook_inv) (abort_on_fail : bool) : io Z :=
  let timeout_ms := if iv_timeout_ms inv >? 0 then iv_timeout_ms inv else HOOK_DEFAULT_TIMEOUT_MS in
  let! (c, pid) := ar_process_spawn_as (exec_launch inv hook_path) in
  if pid <? 0 then ret (if abort_on_fail then EXEC_ERR_FAIL else HOOK_OK)
  else
    let! start := clock_gettime in
    let! ended := exec_wait_loop (turns timeout_ms) c (default (0, 0) start) timeout_ms in
    match ended with
    | TimedOut =>
        let! _ := ar_process_signal pid SIGNAL_KILL true in
        let! _ := ar_process_signal pid SIGNAL_KILL false in
        let! _ := ar_process_wait_raw c in
        ret EXEC_ERR_TIMEOUT
    | ChildDone status => ret (if snd (verdict status) && abort_on_fail then EXEC_ERR_FAIL else HOOK_OK)
    | WaitFailed => ret HOOK_OK
    end.

Definition exec_hook_of_entry (dir_path : bytes) (e : dentry) : option bytes :=
  let name := d_name e in
  if at_ name 0 =? 46 then None
  else
    let hook_path := dir_path ++ [47] ++ name in
    if len hook_path >=? EXEC_MAX_PATH then None
    else if negb (d_regular e) then None
    else if negb (d_executable e) then None
    else Some hook_path.

Fixpoint exec_directory_loop (dir_path : bytes) (inv : hook_inv) (abort_on_fail : bool) (namelist : list dentry) : io Z :=
  match namelist with
  | [] => ret HOOK_OK
  | e :: namelist =>
      match exec_hook_of_entry dir_path e with
      | None => exec_directory_loop dir_path inv abort_on_fail namelist
      | Some hook_path =>
          let! hook_res := execute_single_hook hook_path inv abort_on_fail in
          if negb (hook_res =? HOOK_OK) then ret hook_res
          else exec_directory_loop dir_path inv abort_on_fail namelist
      end
  end.

Definition execute_hooks_in_dir (dir_path : bytes) (inv : hook_inv) (abort_on_fail : bool) : io Z :=
  let! listing := list_directory dir_path in
  match listing with
  | Some (Some namelist) => exec_directory_loop dir_path inv abort_on_fail namelist
  | _ => ret HOOK_OK
  end.

Definition exec_directory (dir : bytes) (inv : hook_inv) (abort_on_fail : bool) : io Z :=
  if (len dir >? 0) && (len dir <? EXEC_MAX_PATH) then execute_hooks_in_dir dir inv abort_on_fail else ret HOOK_OK.

Definition alrios_hook_execute (inv : option hook_inv) : io Z :=
  match inv with
  | None => ret EXEC_ERR_FAIL
  | Some inv =>
      if negb (is_valid_app_id (iv_app_id inv)) then ret EXEC_ERR_FAIL
      else
        match hook_stage_to_string (iv_stage inv) with
        | None => ret EXEC_ERR_FAIL
        | Some stage_name =>
            if negb (is_valid_slot_path (iv_slot_path inv)) then ret EXEC_ERR_FAIL
            else
              let abort_on_fail := hook_stage_aborts_on_fail (iv_stage inv) in
              let! r :=
                match iv_slot_path inv with
                | Some slot => if is_empty slot then ret HOOK_OK
                               else exec_directory (slot_hooks_dir slot stage_name) inv abort_on_fail
                | None => ret HOOK_OK
                end in
              if negb (r =? HOOK_OK) then ret r
              else exec_directory (sys_hooks_dir stage_name) inv abort_on_fail
        end
  end.
End Hooks.

(** ** Lemmas *)

Section Facts.
Context (env : environment).

(** Delays are not negative and below twenty minutes, the clock works. *)
Record steady : Prop := {
  sy_delay : forall i, 0 <= delay env i <= 2 ^ 40;
  sy_clock : forall i, clock_ok env i = true;
}.

Definition ms (w : world) : Z := time w / 1000000.

(** Nothing but time and calls passed. *)
Record waited (w w' : world) : Prop := {
  wt_calls : (calls w <= calls w')%nat;
  wt_time : time w <= time w';
  wt_links : links w' = links w;
  wt_dirs : dirs w' = dirs w;
  wt_started : started w' = started w;
  wt_log : log w' = log w;
}.

Lemma waited_refl w : waited w w.
Proof. by split. Qed.

Lemma waited_trans w1 w2 w3 : waited w1 w2 -> waited w2 w3 -> waited w1 w3.
Proof. intros [] []. split; congruence || lia. Qed.

Lemma waited_pass ns w : steady -> 0 <= ns -> waited w (pass env ns w).
Proof. intros [Hd _] Hn. specialize (Hd (calls w)). split; cbn; lia || done. Qed.

Definition clock_range (w : world) : Prop := 0 <= time w < 2 ^ 83.

Lemma clock_reads w : steady -> clock_range w -> monotonic_time_ms env w = Some (ms w, pass env 0 w).
Proof.
  intros [_ Hc] [H0 H1]. unfold monotonic_time_ms, bind, clock_gettime, ret. rewrite Hc. do 2 f_equal. unfold ms.
  pose proof (Z.div_mod (time w) 1000000000 ltac:(lia)) as E. pose proof (Z.mod_pos_bound (time w) 1000000000 ltac:(lia)).
  set (s := time w / 1000000000) in *. set (n := time w mod 1000000000) in *.
  assert (0 <= s < 2 ^ 54) by lia. assert (0 <= n / 1000000 < 1000).
  { split; [apply Z.div_pos; lia|apply Z.div_lt_upper_bound; lia]. }
  unfold u64. rewrite (Z.mod_small s), (Z.mod_small n), (Z.mod_small (s * 1000)) by lia. rewrite Z.mod_small by lia.
  rewrite E. replace (1000000000 * s + n) with (n + (s * 1000) * 1000000) by lia. rewrite Z.div_add by lia. lia.
Qed.

(** The loop ends within its turns: the child is over, waiting failed, or the deadline
    has passed. *)
Lemma wait_loop_spec fuel c dl w :
  steady -> 0 <= time w -> time w + Z.of_nat fuel * 2 ^ 42 < 2 ^ 83 ->
  dl * 1000000 - time w <= 5000000 * (Z.of_nat fuel - 1) -> (1 <= fuel)%nat ->
  exists e w', wait_loop env fuel c dl w = Some (e, w') /\ waited w w' /\ time w' <= time w + Z.of_nat fuel * 2 ^ 42 /\
    match e with
    | ChildDone st => exists i r, ch_wait c i = (r, st) /\ 0 < r
    | WaitFailed => exists i r st, ch_wait c i = (r, st) /\ r < 0
    | TimedOut => dl <= ms w'
    end.
Proof.
  intros Hs. revert w. induction fuel as [|fuel IH]; intros w H0 Hb Hd Hf; [lia|]. cbn [wait_loop]. unfold bind at 1, ar_process_wait_raw_nohang.
  pose proof (sy_delay Hs (calls w)) as D1. pose proof (waited_pass 0 w Hs ltac:(lia)) as W1. set (w1 := pass env 0 w) in *.
  assert (T1 : time w1 = time w + delay env (calls w)) by (cbn; lia).
  destruct (ch_wait c (calls w)) as [r st] eqn:Ec.
  destruct (r >? 0) eqn:E1; bool_hyps; [exists (ChildDone st), w1; split_and!; [done|done|lia|by exists (calls w), r]|].
  destruct (r <? 0) eqn:E2; bool_hyps; [exists WaitFailed, w1; split_and!; [done|done|lia|by exists (calls w), r, st]|].
  unfold bind at 1. rewrite clock_reads by (done || split; lia).
  pose proof (sy_delay Hs (calls w1)) as D2. pose proof (waited_pass 0 w1 Hs ltac:(lia)) as W2. set (w2 := pass env 0 w1) in *.
  assert (T2 : time w2 = time w1 + delay env (calls w1)) by (cbn; lia).
  destruct (ms w1 >=? dl) eqn:E3; bool_hyps.
  { exists TimedOut, w2. split_and!; [done|by eapply waited_trans|lia|]. unfold ms in *. 
    transitivity (time w1 / 1000000); [lia|]. apply Z.div_le_mono; lia. }
  unfold bind at 1, sleep_5ms. pose proof (sy_delay Hs (calls w2)) as D3. pose proof (waited_pass 5000000 w2 Hs ltac:(lia)) as W3.
  set (w3 := pass env 5000000 w2) in *. assert (T3 : time w3 = time w2 + delay env (calls w2) + 5000000) by (cbn; lia).
  assert (Hlt : time w1 < dl * 1000000).
  { unfold ms in E3. pose proof (Z.div_mod (time w1) 1000000 ltac:(lia)). pose proof (Z.mod_pos_bound (time w1) 1000000 ltac:(lia)). lia. }
  destruct (IH w3) as (e & w' & E & W & T & He); [lia|lia|lia|lia|].
  exists e, w'. split_and!; [done| |lia|done]. by do 3 (eapply waited_trans; [eassumption|]).
Qed.

Lemma term_loop_spec fuel c dl w :
  steady -> 0 <= time w -> time w + Z.of_nat fuel * 2 ^ 42 < 2 ^ 83 ->
  dl * 1000000 - time w <= 5000000 * (Z.of_nat fuel - 1) -> (1 <= fuel)%nat ->
  exists b w', term_loop env fuel c dl w = Some (b, w') /\ waited w w' /\ time w' <= time w + Z.of_nat fuel * 2 ^ 42 /\
    if b : bool then exists i r st, ch_wait c i = (r, st) /\ r <> 0 else dl <= ms w'.
Proof.
  intros Hs. revert w. induction fuel as [|fuel IH]; intros w H0 Hb Hd Hf; [lia|]. cbn [term_loop]. unfold bind at 1.
  rewrite clock_reads by (done || split; lia).
  pose proof (sy_delay Hs (calls w)) as D1. pose proof (waited_pass 0 w Hs ltac:(lia)) as W1. set (w1 := pass env 0 w) in *.
  assert (T1 : time w1 = time w + delay env (calls w)) by (cbn; lia).
  destruct (negb (ms w <? dl)) eqn:E3; bool_hyps.
  { exists false, w1. split_and!; [done|done|lia|]. unfold ms in *. transitivity (time w / 1000000); [lia|]. apply Z.div_le_mono; lia. }
  assert (Hlt : time w < dl * 1000000).
  { unfold ms in E3. pose proof (Z.div_mod (time w) 1000000 ltac:(lia)). pose proof (Z.mod_pos_bound (time w) 1000000 ltac:(lia)). lia. }
  unfold bind at 1, ar_process_wait_raw_nohang.
  pose proof (sy_delay Hs (calls w1)) as D2. pose proof (waited_pass 0 w1 Hs ltac:(lia)) as W2. set (w2 := pass env 0 w1) in *.
  assert (T2 : time w2 = time w1 + delay env (calls w1)) by (cbn; lia).
  destruct (ch_wait c (calls w1)) as [r st] eqn:Ec.
  destruct (negb (r =? 0)) eqn:E1; bool_hyps.
  { exists true, w2. split_and!; [done|by eapply waited_trans|lia|by exists (calls w1), r, st]. }
  unfold bind at 1, sleep_5ms. pose proof (sy_delay Hs (calls w2)) as D3. pose proof (waited_pass 5000000 w2 Hs ltac:(lia)) as W3.
  set (w3 := pass env 5000000 w2) in *. assert (T3 : time w3 = time w2 + delay env (calls w2) + 5000000) by (cbn; lia).
  destruct (IH w3) as (b & w' & E & W & T & He); [lia|lia|lia|lia|].
  exists b, w'. split_and!; [done| |lia|done]. by do 3 (eapply waited_trans; [eassumption|]).
Qed.

Lemma ms_bound w x : 0 <= x -> x * 1000000 <= time w -> x <= ms w.
Proof. intros. unfold ms. apply Z.div_le_lower_bound; lia. Qed.

Lemma ms_lt w : (ms w + 1) * 1000000 > time w.
Proof. unfold ms. pose proof (Z.div_mod (time w) 1000000 ltac:(lia)). pose proof (Z.mod_pos_bound (time w) 1000000 ltac:(lia)). lia. Qed.

Lemma ms_le w : ms w * 1000000 <= time w.
Proof. unfold ms. pose proof (Z.div_mod (time w) 1000000 ltac:(lia)). pose proof (Z.mod_pos_bound (time w) 1000000 ltac:(lia)). lia. Qed.

Lemma turns_enough T w : 0 < T ->
  (ms w + T) * 1000000 - time w <= 5000000 * (Z.of_nat (turns T) - 1) /\ (1 <= turns T)%nat /\ Z.of_nat (turns T) <= T + 2.
Proof.
  intros HT. unfold turns. pose proof (Z.div_mod T 5 ltac:(lia)). pose proof (Z.mod_pos_bound T 5 ltac:(lia)).
  pose proof (ms_le w). assert (0 <= T / 5) by (apply Z.div_pos; lia). rewrite Z2Nat.id by lia. lia.
Qed.

(** What the hook said, or that nothing could be learned of it. *)
Definition said (c : child) (bad : bool) : Prop := exists i r st, ch_wait c i = (r, st) /\ 0 < r /\ snd (verdict st) = bad.

Definition unknown (c : child) : Prop := exists i r st, ch_wait c i = (r, st) /\ r < 0.

(** The signals of a run that started waiting at [from] with the timeout [T]. *)
Definition escalation (pid from T : Z) (sigs : list action) : Prop :=
  exists t1, from + T <= t1 / 1000000 /\
    (sigs = [Signalled pid true SIGNAL_TERM t1] \/
     exists t2, t1 / 1000000 + 100 <= t2 / 1000000 /\
       sigs = [Signalled pid true SIGNAL_TERM t1; Signalled pid true SIGNAL_KILL t2]).

(** The outcome of one hook. *)
Definition hook_outcome (c : child) (from T st : Z) (sigs : list action) : Prop :=
  st = HOOK_OK /\ sigs = [] /\ 0 <= ch_pid c /\ (said c false \/ unknown c) \/
  st = HOOK_ERR_EXEC /\ sigs = [] /\ (ch_pid c < 0 \/ said c true) \/
  st = HOOK_ERR_TIMEOUT /\ 0 <= ch_pid c /\ escalation (ch_pid c) from T sigs.

Definition run_links (c : child) (l : gmap bytes bytes) : gmap bytes bytes := if ch_pid c <? 0 then l else ch_links c l.

Definition timeout_ok (T : Z) : Prop := 0 <= T < 2 ^ 32.

Lemma bind_some {A B} (m : io A) (k : A -> io B) w a w' : m w = Some (a, w') -> bind m k w = k a w'.
Proof. intros E. unfold bind. by rewrite E. Qed.

(** Reading the clock, as a step. *)
Lemma clock_step {B} (k : Z -> io B) w : steady -> clock_range w -> bind (monotonic_time_ms env) k w = k (ms w) (pass env 0 w).
Proof. intros Hs Hr. by rewrite (bind_some _ _ _ _ _ (clock_reads w Hs Hr)). Qed.

Lemma u64_ms x : 0 <= x < 2 ^ 64 -> u64 x = x.
Proof. intros. by apply Z.mod_small. Qed.

Lemma ms_range w : 0 <= time w < 2 ^ 83 -> 0 <= ms w < 2 ^ 64 - 2 ^ 33.
Proof. intros. unfold ms. split; [apply Z.div_pos; lia|]. apply Z.div_lt_upper_bound; lia. Qed.

(** The end of a hook that was too slow. *)
Lemma escalate_spec c pid from T w :
  steady -> 0 <= time w < 2 ^ 82 -> from + T <= ms w ->
  exists w', escalate env c pid w = Some (tt, w') /\
    (exists sigs, log w' = log w ++ sigs /\ escalation pid from T sigs) /\
    links w' = links w /\ dirs w' = dirs w /\ started w' = started w /\ time w <= time w' <= time w + 2 ^ 50.
Proof.
  intros Hs Ht Hd. unfold escalate. erewrite bind_some by done.
  pose proof (sy_delay Hs (calls w)) as D1. set (w1 := record _ _).
  assert (T1 : time w1 = time w + delay env (calls w)) by (cbn; lia).
  assert (M1 : time w / 1000000 <= ms w1) by (apply Z.div_le_mono; lia).
  rewrite clock_step by (done || split; lia).
  pose proof (sy_delay Hs (calls w1)) as D2. set (w2 := pass env 0 w1). assert (T2 : time w2 = time w1 + delay env (calls w1)) by (cbn; lia).
  pose proof (ms_range w1 ltac:(lia)) as R1. rewrite u64_ms by lia.
  destruct (turns_enough 100 w1 ltac:(lia)) as (Hf & Hf1 & Hf2).
  destruct (term_loop_spec (turns 100) c (ms w1 + 100) w2 Hs) as (b & w3 & E & W & T3 & Hb); [lia|lia|lia|lia|].
  erewrite bind_some by exact E. destruct W as [Wc Wt Wl Wd Wst Wlog].
  assert (Hfrom : from + T <= time w / 1000000) by done.
  destruct b.
  - exists w3. split; [done|]. rewrite Wl, Wd, Wst, Wlog. split_and!; try done; [|lia|lia].
    eexists. split; [done|]. exists (time w). split; [done|by left].
  - erewrite bind_some by done. set (w4 := record _ _). pose proof (sy_delay Hs (calls w3)) as D4.
    assert (T4 : time w4 = time w3 + delay env (calls w3)) by (cbn; lia).
    pose proof (sy_delay Hs (calls w4)) as D5. exists (pass env 0 w4). split; [done|].
    cbn [pass links dirs started log time w4 record w2 w1] in *. rewrite Wl, Wd, Wst, Wlog. split_and!; try done; [|lia|lia].
    eexists. split; [by rewrite <- app_assoc|]. exists (time w). split; [done|]. right. exists (time w3).
    split; [|done]. change (time w3 / 1000000) with (ms w3). lia.
Qed.

(** A hook ends, says what it is that it said, and is stopped if it is too slow. *)
Lemma run_single_spec ctx path timeout w :
  steady -> 0 <= time w < 2 ^ 81 -> path <> [] -> timeout_ok timeout -> timeout_ok (cx_timeout_ms ctx) ->
  let c := children env (started w) in
  exists st r w' sigs,
    alrios_hook_run_single env (Some ctx) (Some path) timeout true w = Some ((st, Some r), w') /\
    hr_error_code r = st /\ hook_outcome c (ms w) (effective_timeout ctx timeout) st sigs /\
    log w' = log w ++ Started (hook_launch env ctx path) (ch_pid c) :: sigs /\
    links w' = run_links c (links w) /\ dirs w' = dirs w /\ started w' = S (started w) /\
    time w <= time w' <= time w + 2 ^ 75.
Proof.
  intros Hs Ht Hp Hto Hct. cbv zeta. set (c := children env (started w)). set (T := effective_timeout ctx timeout).
  assert (HT : 0 < T < 2 ^ 32).
  { unfold T, effective_timeout, HOOK_DEFAULT_TIMEOUT_MS, timeout_ok in *. destruct (timeout >? 0) eqn:E; bool_hyps; [lia|].
    destruct (cx_timeout_ms ctx >? 0) eqn:E2; bool_hyps; lia. }
  unfold alrios_hook_run_single. destruct path as [|p0 path]; [done|]. cbn [is_empty].
  fold T. rewrite clock_step by (done || split; lia).
  pose proof (ms_range w ltac:(lia)) as R0. rewrite (u64_ms (ms w + T)) by lia.
  pose proof (sy_delay Hs (calls w)) as D1. set (w1 := pass env 0 w). assert (T1 : time w1 = time w + delay env (calls w)) by (cbn; lia).
  unfold bind at 1, ar_process_spawn_as. change (children env (started w1)) with c. set (l := hook_launch _ _ _).
  set (w2 := record _ _). pose proof (sy_delay Hs (calls w1)) as D2. assert (T2 : time w2 = time w1 + delay env (calls w1)) by (cbn; lia).
  unfold hook_outcome, run_links.
  destruct (ch_pid c <? 0) eqn:Epid; bool_hyps.
  { eexists _, _, w2, []. split; [done|]. split; [done|]. split; [right; left; split_and!; [done..|by left]|].
    split_and!; try done; lia. }
  set (w3 := set_links _ w2). assert (T3 : time w3 = time w2) by done.
  assert (H3 : log w3 = log w ++ [Started l (ch_pid c)] /\ links w3 = ch_links c (links w) /\ dirs w3 = dirs w /\ started w3 = S (started w)) by done.
  destruct H3 as (L3 & K3 & Di3 & St3).
  destruct (turns_enough T w ltac:(lia)) as (Hf & Hf1 & Hf2).
  destruct (wait_loop_spec (turns T) c (ms w + T) w3 Hs) as (e & w4 & E & W & T4 & He); [lia|lia|lia|lia|].
  erewrite bind_some by exact E. destruct W as [_ Wt Wl Wd Wst Wlog]. rewrite L3 in Wlog. rewrite K3 in Wl. rewrite Di3 in Wd. rewrite St3 in Wst.
  pose proof (sy_delay Hs (calls w4)) as D4.
  destruct e as [status| |].
  - rewrite clock_step by (done || split; lia). destruct (verdict status) as [exit_code bad] eqn:Ev.
    assert (Hsaid : said c bad).
    { destruct He as (i & r & Ei & Hr). exists i, r, status. by rewrite Ev. }
    destruct bad.
    + eexists _, _, (pass env 0 w4), []. split; [done|]. split; [done|]. split; [right; left; split_and!; [done..|by right]|].
      cbn [pass log links dirs started time]. split_and!; try done; lia.
    + eexists _, _, (pass env 0 w4), []. split; [done|]. split; [done|]. split; [left; split_and!; [done..|by left]|].
      cbn [pass log links dirs started time]. split_and!; try done; lia.
  - rewrite clock_step by (done || split; lia).
    eexists _, _, (pass env 0 w4), []. split; [done|]. split; [done|]. split; [left; split_and!; [done..|by right]|].
    cbn [pass log links dirs started time]. split_and!; try done; lia.
  - destruct (escalate_spec c (ch_pid c) (ms w) T w4 Hs) as (w5 & E5 & (sigs & L5 & Hesc) & K5 & Di5 & St5 & T5); [lia|done|].
    erewrite bind_some by exact E5. rewrite clock_step by (done || split; lia). pose proof (sy_delay Hs (calls w5)) as D5.
    eexists _, _, (pass env 0 w5), sigs. split; [done|]. split; [done|]. split; [right; right; by split_and!|].
    cbn [pass log links dirs started time]. rewrite L5, Wlog, <- app_assoc, K5, Di5, St5. split_and!; try done; lia.
Qed.

(** ** The hooks of a phase *)

Definition dir_hooks (d : gmap bytes (option (list dentry))) (dir : bytes) : list bytes :=
  if (len dir >? 0) && (len dir <? HOOK_MAX_PATH_LEN) then
    match d !! dir with Some (Some l) => omap (hook_of_entry dir) l | _ => [] end
  else [].

(** Those of the slot and those of the system, in the order of the listings. *)
Definition phase_hooks (ctx : hook_context) (d : gmap bytes (option (list dentry))) : list bytes :=
  let name := alrios_hook_phase_name (cx_phase ctx) in
  match cx_slot_path ctx with
  | Some slot => if is_empty slot then [] else dir_hooks d (slot_hooks_dir slot name)
  | None => []
  end ++ dir_hooks d (sys_hooks_dir name).

(** What the hooks [ps], the first of them the [n]-th process, left in the log. *)
Inductive runs (ctx : hook_context) : nat -> list bytes -> list Z -> list action -> Prop :=
  | runs_nil n : runs ctx n [] [] []
  | runs_cons n p ps st sts from sigs acts :
      hook_outcome (children env n) from (effective_timeout ctx (cx_timeout_ms ctx)) st sigs ->
      runs ctx (S n) ps sts acts ->
      runs ctx n (p :: ps) (st :: sts) (Started (hook_launch env ctx p) (ch_pid (children env n)) :: sigs ++ acts).

(** The links after [k] processes from the [n]-th on. *)
Fixpoint links_after (n k : nat) (l : gmap bytes bytes) : gmap bytes bytes :=
  match k with
  | O => l
  | S k => links_after (S n) k (run_links (children env n) l)
  end.

(** The status of [n] hooks with the statuses [sts]: a gate stops at the first failure and
    reports it; a notification runs them all. *)
Definition gate (abort : bool) (n : nat) (sts : list Z) (st : Z) : Prop :=
  if abort then
    st = HOOK_OK /\ sts = replicate n HOOK_OK \/
    st <> HOOK_OK /\ exists k, (k < n)%nat /\ sts = replicate k HOOK_OK ++ [st]
  else st = HOOK_OK /\ length sts = n.

(** What became of the world when the [hooks] were to be run, the calls between them taking
    at most [k] nanoseconds. *)
Record ran (k : Z) (ctx : hook_context) (abort : bool) (hooks : list bytes) (st : Z) (sts : list Z) (w w' : world) : Prop := {
  rn_acts : exists acts, log w' = log w ++ acts /\ runs ctx (started w) (take (length sts) hooks) sts acts;
  rn_links : links w' = links_after (started w) (length sts) (links w);
  rn_started : started w' = (started w + length sts)%nat;
  rn_dirs : dirs w' = dirs w;
  rn_time : time w <= time w' <= time w + Z.of_nat (length hooks) * 2 ^ 76 + k;
  rn_gate : gate abort (length hooks) sts st;
}.

Lemma ran_nil k ctx abort w w' : waited w w' -> time w' <= time w + k -> ran k ctx abort [] HOOK_OK [] w w'.
Proof.
  intros [] Ht. split; cbn; try congruence; try lia.
  - exists []. rewrite app_nil_r. split; [done|constructor].
  - destruct abort; [by left|done].
Qed.

Lemma gate_cons abort n st sts : gate abort n sts st -> gate abort (S n) (HOOK_OK :: sts) st.
Proof.
  unfold gate. destruct abort; [|intros [-> Hl]; split; [done|cbn; lia]].
  intros [[-> ->]|(Hne & k & Hk & ->)]; [by left|right]. split; [done|]. exists (S k). split; [lia|done].
Qed.

(** One more hook in front. *)
Lemma ran_cons k ctx abort p hooks st0 st sts from sigs w w1 w' :
  hook_outcome (children env (started w)) from (effective_timeout ctx (cx_timeout_ms ctx)) st0 sigs ->
  log w1 = log w ++ Started (hook_launch env ctx p) (ch_pid (children env (started w))) :: sigs ->
  links w1 = run_links (children env (started w)) (links w) -> dirs w1 = dirs w -> started w1 = S (started w) ->
  time w <= time w1 <= time w + 2 ^ 75 ->
  st0 = HOOK_OK \/ abort = false -> ran k ctx abort hooks st sts w1 w' -> ran k ctx abort (p :: hooks) st (st0 :: sts) w w'.
Proof.
  intros Ho Hl Hk Hd Hs Ht Hst [(acts & La & Hr) Lk Sk Dk Tk Gk]. split; cbn [length].
  - eexists. split; [rewrite La, Hl, <- app_assoc; cbn [app]; done|]. cbn [take]. econstructor; [exact Ho|]. by rewrite <- Hs.
  - cbn [links_after]. by rewrite Lk, Hk, Hs.
  - rewrite Sk, Hs. lia.
  - congruence.
  - lia.
  - destruct Hst as [-> | ->]; [by apply gate_cons|]. destruct Gk as [-> Hlen]. split; [done|cbn; lia].
Qed.

(** The hook that stops a gate. *)
Lemma ran_stop ctx p hooks st0 from sigs w w1 :
  hook_outcome (children env (started w)) from (effective_timeout ctx (cx_timeout_ms ctx)) st0 sigs ->
  log w1 = log w ++ Started (hook_launch env ctx p) (ch_pid (children env (started w))) :: sigs ->
  links w1 = run_links (children env (started w)) (links w) -> dirs w1 = dirs w -> started w1 = S (started w) ->
  time w <= time w1 <= time w + 2 ^ 75 ->
  st0 <> HOOK_OK -> ran 0 ctx true (p :: hooks) st0 [st0] w w1.
Proof.
  intros Ho Hl Hk Hd Hs Ht Hst. split; cbn [length]; try done; try lia.
  - eexists. split; [exact Hl|]. cbn [take]. rewrite <- (app_nil_r sigs). econstructor; [exact Ho|constructor].
  - right. split; [done|]. exists 0%nat. split; [lia|done].
Qed.

(** The result structure says what the status says. *)
Definition says (st : Z) (out out' : option hook_result) : Prop :=
  match out, out' with
  | Some _, Some r => hr_error_code r = st
  | None, None => True
  | _, _ => False
  end.

Lemma omap_hook dir e entries :
  omap (hook_of_entry dir) (e :: entries) =
  match hook_of_entry dir e with Some p => p :: omap (hook_of_entry dir) entries | None => omap (hook_of_entry dir) entries end.
Proof. done. Qed.

Lemma directory_loop_spec ctx dir abort entries out w :
  steady -> timeout_ok (cx_timeout_ms ctx) ->
  let hooks := omap (hook_of_entry dir) entries in
  0 <= time w -> time w + Z.of_nat (length hooks) * 2 ^ 76 < 2 ^ 81 ->
  exists st out' sts w', directory_loop env ctx dir abort entries out w = Some ((st, out'), w') /\
    ran 0 ctx abort hooks st sts w w' /\ says st out out'.
Proof.
  intros Hs Hto. cbv zeta. revert out w. induction entries as [|e entries IH]; intros out w H0 Ht.
  { exists HOOK_OK, (set_code HOOK_OK out), [], w. split; [done|]. split; [apply ran_nil; [apply waited_refl|lia]|]. by destruct out. }
  rewrite omap_hook in *. cbn [directory_loop].
  destruct (hook_of_entry dir e) as [p|] eqn:Ep; [|by apply IH]. cbn [length] in Ht.
  assert (Hp : p <> []).
  { unfold hook_of_entry in Ep. repeat (destruct (_ : bool) in Ep; [done|]). injection Ep as <-. destruct dir; discriminate. }
  destruct (run_single_spec ctx p (cx_timeout_ms ctx) w Hs) as (st0 & r & w1 & sigs & E & Hr & Ho & Hl & Hk & Hd & Hst & Ht1);
    [lia|done|done|done|].
  erewrite bind_some by exact E. cbn [default from_option id].
  destruct (st0 =? HOOK_OK) eqn:E0; cbn [negb]; bool_hyps.
  - destruct (IH (add_elapsed out r) w1) as (st & out' & sts & w' & E' & Hran & Hout); [lia|lia|].
    exists st, out', (st0 :: sts), w'. split; [done|]. split; [|by destruct out].
    eapply ran_cons; try done. by left.
  - destruct abort.
    + eexists _, _, [st0], w1. split; [done|]. split; [by eapply ran_stop|]. destruct out; [|done]. by cbn.
    + destruct (IH (note_failure (add_elapsed out r) r p) w1) as (st & out' & sts & w' & E' & Hran & Hout); [lia|lia|].
      exists st, out', (st0 :: sts), w'. split; [done|]. split; [|by destruct out].
      eapply ran_cons; try done. by right.
Qed.

(** Calls that change nothing before and after. *)
Lemma ran_pass k j ctx abort hooks st sts w w1 w' :
  waited w w1 -> time w1 <= time w + j -> ran k ctx abort hooks st sts w1 w' -> ran (k + j) ctx abort hooks st sts w w'.
Proof.
  intros [Wc Wt Wl Wd Ws Wg] Hj [(acts & La & Hr) Lk Sk Dk Tk Gk]. rewrite Ws in *. split; try done; try congruence; try lia.
  exists acts. split; [congruence|done].
Qed.

Lemma directory_spec ctx dir out w :
  steady -> timeout_ok (cx_timeout_ms ctx) ->
  let abort := alrios_hook_phase_aborts_on_fail (cx_phase ctx) in
  let hooks := dir_hooks (dirs w) dir in
  0 <= time w -> time w + (Z.of_nat (length hooks) + 1) * 2 ^ 76 < 2 ^ 81 ->
  exists st out' sts w', phase_directory env ctx dir out w = Some ((st, out'), w') /\
    ran (2 ^ 40) ctx abort hooks st sts w w' /\ present out' = present out.
Proof.
  intros Hs Hto. cbv zeta. intros H0 Ht. unfold phase_directory, dir_hooks in *.
  destruct (_ && _) eqn:El; [|exists HOOK_OK, out, [], w; split_and!; [done|apply ran_nil; [apply waited_refl|lia]|done]].
  unfold alrios_hook_run_directory. destruct dir as [|d dir]; [done|]. cbn [is_empty]. unfold bind, list_directory.
  pose proof (sy_delay Hs (calls w)) as D. pose proof (waited_pass 0 w Hs ltac:(lia)) as W. set (w1 := pass env 0 w) in *.
  assert (T1 : time w1 = time w + delay env (calls w)) by (cbn; lia).
  assert (Hnone : exists st out' sts w', ret (HOOK_OK, only_code (present out) HOOK_OK) w1 = Some ((st, out'), w') /\
    ran (2 ^ 40) ctx (alrios_hook_phase_aborts_on_fail (cx_phase ctx)) [] st sts w w' /\ present out' = present out).
  { exists HOOK_OK, (only_code (present out) HOOK_OK), [], w1. split_and!; [done|apply ran_nil; [done|lia]|by destruct out]. }
  destruct (dirs w !! (d :: dir)) as [[l|]|]; [|done|done].
  destruct (directory_loop_spec ctx (d :: dir) (alrios_hook_phase_aborts_on_fail (cx_phase ctx)) l out w1 Hs Hto)
    as (st & out' & sts & w' & E & Hr & Hsay); [lia|lia|].
  exists st, out', sts, w'. split_and!; [done| |by destruct out, out'].
  replace (2 ^ 40) with (0 + 2 ^ 40) by lia. eapply ran_pass; [done|lia|done].
Qed.

Lemma links_after_app n k j l : links_after n (k + j) l = links_after (n + k) j (links_after n k l).
Proof.
  revert n l. induction k as [|k IH]; intros n l; cbn [Nat.add links_after]; [by rewrite Nat.add_0_r|].
  by rewrite IH, Nat.add_succ_r.
Qed.

Lemma runs_app ctx n ps sts acts qs sts' acts' :
  runs ctx n ps sts acts -> runs ctx (n + length sts) qs sts' acts' -> runs ctx n (ps ++ qs) (sts ++ sts') (acts ++ acts').
Proof.
  intros H. revert qs sts' acts'. induction H as [n|n p ps st sts from sigs acts Ho Hr IH]; intros qs sts' acts' H'; cbn [length app] in *.
  - by rewrite Nat.add_0_r in H'.
  - rewrite <- app_assoc. econstructor; [done|]. apply IH. by rewrite Nat.add_succ_l, <- Nat.add_succ_r.
Qed.

Lemma gate_ok_length abort n sts : gate abort n sts HOOK_OK -> length sts = n.
Proof. unfold gate. destruct abort; [|by intros []]. intros [[_ ->]|[? _]]; [apply length_replicate|done]. Qed.

Lemma gate_length abort n sts st : gate abort n sts st -> (length sts <= n)%nat.
Proof.
  unfold gate. destruct abort; [|intros []; lia]. intros [[_ ->]|(_ & k & Hk & ->)].
  - rewrite length_replicate. lia.
  - rewrite length_app, length_replicate. cbn. lia.
Qed.

Lemma gate_app abort n m sts sts' st :
  gate abort n sts HOOK_OK -> gate abort m sts' st -> gate abort (n + m) (sts ++ sts') st.
Proof.
  unfold gate. destruct abort.
  - intros [[_ ->]|[? _]]; [|done]. rewrite replicate_add. intros [[-> ->]|(Hne & k & Hk & ->)]; [by left|right].
    split; [done|]. exists (n + k)%nat. split; [lia|]. by rewrite replicate_add, <- app_assoc.
  - intros [_ Hl] [-> Hl']. split; [done|]. rewrite length_app. lia.
Qed.

Lemma ran_app k j ctx abort hooks more st sts sts' w w1 w' :
  ran k ctx abort hooks HOOK_OK sts w w1 -> ran j ctx abort more st sts' w1 w' ->
  ran (k + j) ctx abort (hooks ++ more) st (sts ++ sts') w w'.
Proof.
  intros [(acts & La & Hr) Lk Sk Dk Tk Gk] [(acts' & La' & Hr') Lk' Sk' Dk' Tk' Gk'].
  pose proof (gate_ok_length _ _ _ Gk) as Hlen. split.
  - exists (acts ++ acts'). rewrite La', La, app_assoc. split; [done|].
    rewrite length_app, Hlen, take_app_add. rewrite Hlen, firstn_all in Hr. apply runs_app; [done|]. by rewrite <- Sk.
  - by rewrite length_app, links_after_app, Lk', Lk, Sk.
  - rewrite length_app. lia.
  - congruence.
  - rewrite length_app. lia.
  - rewrite length_app. by apply gate_app.
Qed.

(** A gate that stopped does not look at more hooks. *)
Lemma ran_more k ctx hooks more st sts w w' : 0 <= k ->
  ran k ctx true hooks st sts w w' -> st <> HOOK_OK -> ran k ctx true (hooks ++ more) st sts w w'.
Proof.
  intros Hk [(acts & La & Hr) Lk Sk Dk Tk Gk] Hne. pose proof (gate_length _ _ _ _ Gk). split; try done.
  - exists acts. split; [done|]. by rewrite take_app_le by done.
  - rewrite length_app. lia.
  - destruct Gk as [[? _]|(_ & j & Hj & ->)]; [done|]. right. split; [done|]. exists j. rewrite length_app. split; [lia|done].
Qed.

Lemma present_says st out out' : present out' = present out -> says st out (set_code st out').
Proof. by destruct out, out'. Qed.

Lemma phase_spec ctx out w :
  steady -> timeout_ok (cx_timeout_ms ctx) ->
  let hooks := phase_hooks ctx (dirs w) in
  0 <= time w -> time w + (Z.of_nat (length hooks) + 2) * 2 ^ 76 < 2 ^ 81 ->
  exists st out' sts w', alrios_hook_run_phase env (Some ctx) out w = Some ((st, out'), w') /\
    ran (2 ^ 41) ctx (alrios_hook_phase_aborts_on_fail (cx_phase ctx)) hooks st sts w w' /\ present out' = present out.
Proof.
  intros Hs Hto. cbv zeta. intros H0 Ht. unfold alrios_hook_run_phase, phase_hooks in *.
  set (name := alrios_hook_phase_name _) in *. set (abort := alrios_hook_phase_aborts_on_fail _).
  set (mine := match cx_slot_path ctx with Some _ => _ | None => [] end) in *. rewrite length_app in Ht.
  assert (Hfirst : exists st out' sts w1,
    match cx_slot_path ctx with
    | Some slot => if is_empty slot then ret (HOOK_OK, clear out) else phase_directory env ctx (slot_hooks_dir slot name) (clear out)
    | None => ret (HOOK_OK, clear out)
    end w = Some ((st, out'), w1) /\ ran (2 ^ 40) ctx abort mine st sts w w1 /\ present out' = present out).
  { assert (Hskip : exists st out' sts w1, ret (HOOK_OK, clear out) w = Some ((st, out'), w1) /\
      ran (2 ^ 40) ctx abort [] st sts w w1 /\ present out' = present out).
    { exists HOOK_OK, (clear out), [], w. split_and!; [done|apply ran_nil; [apply waited_refl|lia]|by destruct out]. }
    unfold mine in *. destruct (cx_slot_path ctx) as [slot|]; [|done]. destruct (is_empty slot); [done|].
    destruct (directory_spec ctx (slot_hooks_dir slot name) (clear out) w Hs Hto) as (st & out' & sts & w1 & E & Hr & Hp); [lia|lia|].
    exists st, out', sts, w1. split_and!; [done|done|]. rewrite Hp. by destruct out. }
  destruct Hfirst as (st & out1 & sts & w1 & E & Hr & Hp). erewrite bind_some by exact E. cbn [negb].
  pose proof (rn_dirs _ _ _ _ _ _ _ _ Hr) as Hd. pose proof (rn_time _ _ _ _ _ _ _ _ Hr) as Ht1.
  destruct (negb (st =? HOOK_OK) && abort) eqn:E1; bool_hyps.
  { exists st, out1, sts, w1. split_and!; [done| |done]. destruct abort; [|done].
    apply ran_more; [lia| |done]. replace (2 ^ 41) with (2 ^ 40 + 2 ^ 40) by lia. eapply ran_pass; [apply waited_refl|lia|done]. }
  assert (st = HOOK_OK) as ->.
  { destruct (Z.eq_dec st HOOK_OK); [done|]. pose proof (rn_gate _ _ _ _ _ _ _ _ Hr) as Hg. destruct abort; bool_hyps; [|by destruct Hg].
    apply andb_false_iff in E1 as [E1|E1]; [|done]. bool_hyps. lia. }
  destruct (directory_spec ctx (sys_hooks_dir name) out1 w1 Hs Hto) as (st2 & out2 & sts2 & w2 & E2 & Hr2 & Hp2);
    [lia|rewrite Hd; lia|].
  erewrite bind_some by exact E2. cbn [negb]. rewrite Hd in Hr2.
  pose proof (ran_app _ _ _ _ _ _ _ _ _ _ _ _ Hr Hr2) as Hall. replace (2 ^ 40 + 2 ^ 40) with (2 ^ 41) in Hall by lia.
  fold abort. destruct (negb (st2 =? HOOK_OK) && abort) eqn:E3; bool_hyps.
  - exists st2, out2, (sts ++ sts2), w2. split_and!; [done|done|congruence].
  - exists HOOK_OK, (set_code HOOK_OK out2), (sts ++ sts2), w2. split_and!; [done| |].
    + assert (st2 = HOOK_OK) as ->; [|done]. destruct (Z.eq_dec st2 HOOK_OK); [done|].
      pose proof (rn_gate _ _ _ _ _ _ _ _ Hr2) as Hg. fold abort in Hg. destruct abort; [|by destruct Hg].
      apply andb_false_iff in E3 as [E3|E3]; [|done]. bool_hyps. lia.
    + transitivity (present out2); [by destruct out2|congruence].
Qed.

(** ** The links *)

(** No hook changes where [path] points to. *)
Definition harmless (path : bytes) : Prop := forall n l, ch_links (children env n) l !! path = l !! path.

Lemma links_after_harmless path n k l : harmless path -> links_after n k l !! path = l !! path.
Proof.
  intros H. revert n l. induction k as [|k IH]; intros n l; [done|]. cbn [links_after]. rewrite IH. unfold run_links.
  by destruct (ch_pid _ <? 0).
Qed.

Lemma tmp_other current : tmp_name env current <> current.
Proof.
  unfold tmp_name. intros E. assert (len (current ++ lit ".tmp." ++ decimal (self env)) = len current) as El by (f_equal; exact E).
  rewrite !len_app in El. pose proof (len_nonneg (decimal (self env))). assert (len (lit ".tmp.") = 5) by done. lia.
Qed.

#[local] Arguments tmp_name : simpl never.

(** The swap of the link, from what it says of the outcome. *)
Record swapped (target current : bytes) (pid rc : Z) (w w' : world) : Prop := {
  sw_code : rc = 0 \/ rc = -1 \/ rc = -2 \/ rc = -3 \/ rc = -4 /\ 1 < pid;
  sw_link : links w' !! current = if (rc =? 0) || (rc =? -4) then Some target else links w !! current;
  sw_others : forall p, p <> current -> p <> tmp_name env current -> links w' !! p = links w !! p;
  sw_log : log w' = log w ++ (if (rc =? 0) && (pid >? 1) then [Hangup pid] else []);
  sw_dirs : dirs w' = dirs w;
  sw_started : started w' = started w;
  sw_time : time w <= time w' <= time w + 2 ^ 50;
  sw_calls : (calls w <= calls w')%nat;
  sw_fits : rc <> -1 -> len (tmp_name env current) < PATH_MAX;
  sw_refused : rc <> 0 -> rc <> -4 -> 0 <= pid -> len (tmp_name env current) < PATH_MAX ->
    exists i, (calls w <= i)%nat /\ call_ok env i = false;
  sw_unheard : rc = -4 -> exists i, (calls w <= i < calls w')%nat /\ call_ok env i = false;
}.

Lemma link_call_spec can f w : steady ->
  exists ok w', link_call env can f w = Some (ok, w') /\ dirs w' = dirs w /\ started w' = started w /\ log w' = log w /\
    time w <= time w' <= time w + 2 ^ 40 /\ links w' = (if ok then f (links w) else links w) /\
    ok = call_ok env (calls w) && can (links w) /\ calls w' = S (calls w).
Proof.
  intros Hs. unfold link_call. pose proof (sy_delay Hs (calls w)). eexists _, _. split; [done|].
  destruct (_ && _) eqn:E; cbn; rewrite ?E; split_and!; done || lia.
Qed.

(** The file is moved to the link by one call or the other, and stays only when that call
    is refused. *)
Lemma moved_spec tmp current w : steady -> present (links w !! tmp) = true ->
  exists ok w', (forall B (k : bool -> io B),
      (let! (ok, enosys) := renameat2 env tmp current in
       let! ok := if negb ok && enosys then rename env tmp current else ret ok in k ok) w = k ok w') /\
    dirs w' = dirs w /\ started w' = started w /\ log w' = log w /\ time w <= time w' <= time w + 2 ^ 42 /\
    (calls w <= calls w')%nat /\ links w' = (if ok : bool then move tmp current (links w) else links w) /\
    (ok = false -> exists i, (calls w <= i)%nat /\ call_ok env i = false).
Proof.
  intros Hs Hp. unfold renameat2, bind, rename. destruct (renameat2_there env (calls w)).
  - destruct (link_call_spec (fun l => present (l !! tmp)) (move tmp current) w Hs) as (ok & w' & E & D & S' & G & T & L & Eo & C).
    rewrite E. exists ok, w'. split; [intros B k; by rewrite andb_false_r|]. split_and!; try (done || lia).
    intros ->. exists (calls w). rewrite Hp, andb_true_r in Eo. by split.
  - pose proof (sy_delay Hs (calls w)) as Dl. set (w1 := pass env 0 w). assert (time w1 = time w + delay env (calls w)) by (cbn; lia).
    destruct (link_call_spec (fun l => present (l !! tmp)) (move tmp current) w1 Hs) as (ok & w' & E & D & S' & G & T & L & Eo & C).
    exists ok, w'. split; [intros B k; cbn [negb andb]; fold w1; by rewrite E|]. assert (calls w1 = S (calls w)) by done.
    split_and!; try (done || lia). intros ->. exists (calls w1). change (links w1) with (links w) in Eo. rewrite Hp, andb_true_r in Eo. split; [lia|done].
Qed.

(** The temporary link is made anew; only a refused call keeps it from being made. *)
Lemma tmp_link_spec tmp target w : steady ->
  exists ok w', (forall B (k : bool -> io B), (let! _ := unlink env tmp in let! ok := symlink env target tmp in k ok) w = k ok w') /\
    dirs w' = dirs w /\ started w' = started w /\ log w' = log w /\ time w <= time w' <= time w + 2 ^ 41 /\
    (calls w <= calls w')%nat /\ (forall p, p <> tmp -> links w' !! p = links w !! p) /\
    (ok = true -> links w' !! tmp = Some target) /\
    (ok = false -> exists i, (calls w <= i)%nat /\ call_ok env i = false).
Proof.
  intros Hs. unfold bind, unlink, symlink.
  destruct (link_call_spec (fun l => present (l !! tmp)) (delete tmp) w Hs) as (ok1 & w1 & E1 & D1 & S1 & G1 & T1 & L1 & O1 & C1).
  destruct (link_call_spec (fun l => negb (present (l !! tmp))) <[tmp := target]> w1 Hs) as (ok & w2 & E2 & D2 & S2 & G2 & T2 & L2 & O2 & C2).
  exists ok, w2. split; [intros B k; by rewrite E1, E2|]. split_and!; try (congruence || lia).
  - intros p Hp. rewrite L2. transitivity (links w1 !! p); [destruct ok; [by rewrite lookup_insert_ne|done]|].
    rewrite L1. destruct ok1; [by rewrite lookup_delete_ne|done].
  - intros ->. rewrite L2. by rewrite lookup_insert_eq.
  - intros ->. symmetry in O1, O2. apply andb_false_iff in O2 as [O2|O2]; [exists (calls w1); split; [lia|done]|].
    exists (calls w). split; [done|]. rewrite L1 in O2. destruct ok1; [by rewrite lookup_delete_eq in O2|].
    apply andb_false_iff in O1 as [O1|O1]; [done|]. by rewrite O1 in O2.
Qed.

Lemma swap_spec target current pid w : steady -> target <> [] -> current <> [] ->
  exists rc w', alrios_atomic_symlink_swap env (Some target) (Some current) pid w = Some (rc, w') /\
    swapped target current pid rc w w'.
Proof.
  intros Hs Hta Hcu. unfold alrios_atomic_symlink_swap.
  assert (Hinv : (pid < 0 \/ PATH_MAX <= len (tmp_name env current)) -> swapped target current pid (-1) w w).
  { intros Hbad. split; cbn; try done; try lia. by rewrite app_nil_r. }
  assert (Ene : is_empty target || is_empty current = false) by (by destruct target, current). rewrite Ene. cbn [orb].
  destruct (pid <? 0) eqn:Ep; [by exists (-1), w; split; [done|apply Hinv; bool_hyps; lia]|]. bool_hyps.
  pose proof (tmp_other current) as Hne. set (tmp := tmp_name env current) in *.
  destruct (len tmp >=? PATH_MAX) eqn:Efit; bool_hyps; [exists (-1), w; split; [done|apply Hinv; lia]|]. clear Hinv.
  destruct (tmp_link_spec tmp target w Hs) as (ok2 & w2 & E2 & D2 & S2 & G2 & T2 & C2 & K2 & I2 & R2). rewrite E2. clear E2.
  destruct ok2; cbn [negb].
  2:{ exists (-2), w2. split; [done|]. split; cbn; try congruence; try lia; [by apply K2|by intros; apply K2|by rewrite app_nil_r|done|by intros _ _ _ _; apply R2]. }
  specialize (I2 eq_refl).
  destruct (moved_spec tmp current w2 Hs) as (ok3 & w3 & E3 & D3 & S3 & G3 & T3 & C3 & L3 & R3); [by rewrite I2|]. rewrite E3. clear E3.
  destruct ok3; cbn [negb].
  2:{ destruct (link_call_spec (fun l => present (l !! tmp)) (delete tmp) w3 Hs) as (ok4 & w4 & E4 & D4 & S4 & G4 & T4 & L4 & _ & C4).
      unfold bind at 1, unlink. rewrite E4. exists (-3), w4. split; [done|].
      assert (K4 : forall p, p <> tmp -> links w4 !! p = links w !! p).
      { intros p Hp. rewrite L4. destruct ok4; [rewrite lookup_delete_ne by done|]; by rewrite L3, K2. }
      split; cbn; try congruence; try lia; [by rewrite K4|by intros; rewrite K4|rewrite app_nil_r; congruence|done|].
      intros _ _ _ _. destruct (R3 eq_refl) as (i & Hi & Ei). exists i. split; [lia|done]. }
  assert (K3 : links w3 !! current = Some target /\ forall p, p <> current -> p <> tmp -> links w3 !! p = links w !! p).
  { rewrite L3. unfold move. rewrite I2. split; [by rewrite lookup_insert_eq|].
    intros p Hp Hp'. rewrite lookup_insert_ne, lookup_delete_ne by done. by rewrite K2. }
  destruct K3 as [Kc Ko].
  destruct (pid >? 1) eqn:Epid; bool_hyps.
  - unfold bind at 1, signal_hangup. pose proof (sy_delay Hs (calls w3)) as Dl. destruct (call_ok env (calls w3)) eqn:Ec.
    + eexists 0, _. split; [done|]. split; cbn; try done; try congruence; try lia.
      rewrite (proj2 (Z.gtb_lt _ _)) by lia. cbn. congruence.
    + eexists (-4), _. split; [done|]. split; cbn; try done; try congruence; try lia; [rewrite app_nil_r; congruence|].
      intros _. exists (calls w3). split; [lia|done].
  - exists 0, w3. split; [done|]. split; cbn; try done; try congruence; try lia.
    destruct (pid >? 1) eqn:E; bool_hyps; [lia|]. cbn. rewrite app_nil_r. congruence.
Qed.

(** What is left of a swap that failed when the old target is put back: the link is as it
    was, unless the master could not be told and the way back was cut off as well. *)
Lemma rollback_spec target current prev pid rc w w1 : steady -> current <> [] -> rc <> 0 ->
  (prev <> [] -> links w !! current = Some prev) -> swapped target current pid rc w w1 ->
  exists rc2 w2, (if is_empty prev then ret 0 else alrios_atomic_symlink_swap env (Some prev) (Some current) 0) w1 = Some (rc2, w2) /\
    log w2 = log w /\
    (links w2 !! current = links w !! current \/
     1 < pid /\ links w2 !! current = Some target /\
       exists i, (calls w <= i)%nat /\ call_ok env i = false /\ (prev = [] \/ exists j, (i < j)%nat /\ call_ok env j = false)).
Proof.
  intros Hs Hcu Hrc Hold [Hc Hk Ho Hg _ _ _ _ Hfit _ Hun]. rewrite (proj2 (Z.eqb_neq rc 0)) in * by done. cbn [orb andb] in *.
  rewrite app_nil_r in Hg. destruct prev as [|p0 prev].
  { exists 0, w1. split; [done|]. split; [done|]. rewrite Hk. destruct (rc =? -4) eqn:E4; bool_hyps; [|by left]. right.
    destruct (Hun E4) as (i & Hi & Ei). split; [lia|]. split; [done|]. exists i. split_and!; [lia|done|by left]. }
  cbn [is_empty]. set (prev' := p0 :: prev) in *. specialize (Hold ltac:(discriminate)).
  destruct (swap_spec prev' current 0 w1 Hs ltac:(discriminate) Hcu) as (rc2 & w2 & E & [Hc2 Hk2 _ Hg2 _ _ _ _ _ Hre _]).
  exists rc2, w2. split; [done|]. split; [rewrite Hg2, Hg; by rewrite andb_false_r, app_nil_r|].
  rewrite Hk2. destruct (rc2 =? 0) eqn:E0; bool_hyps; [left; by rewrite Hold|].
  rewrite (proj2 (Z.eqb_neq rc2 (-4))) by lia. cbn [orb]. rewrite Hk. destruct (rc =? -4) eqn:E4; bool_hyps; [|by left]. right.
  destruct (Hun E4) as (i & Hi & Ei). destruct Hre as (j & Hj & Ej); [lia|lia|lia|apply Hfit; lia|].
  split; [lia|]. split; [done|]. exists i. split_and!; [lia|done|right; exists j; split; [lia|done]].
Qed.

(** ** System calls are numbered in their order *)

Definition advances {A} (m : io A) : Prop := forall w a w', m w = Some (a, w') -> (calls w <= calls w')%nat.

Lemma advances_ret {A} (a : A) : advances (ret a).
Proof. by intros w ? ? [= _ <-]. Qed.

Lemma advances_bind {A B} (m : io A) (k : A -> io B) : advances m -> (forall a, advances (k a)) -> advances (bind m k).
Proof.
  intros Hm Hk w b w'. unfold bind. destruct (m w) as [[a w1]|] eqn:E; [|done]. intros E'. specialize (Hm _ _ _ E). specialize (Hk _ _ _ _ E'). lia.
Qed.

Create HintDb advances.

Ltac one_call := intros w ? ? E; injection E as <- <-; cbn; repeat case_match; cbn; lia.

Ltac advance :=
  repeat first [solve [auto with advances nocore] | apply advances_ret | apply advances_bind; intros | progress case_match | one_call].

Lemma advances_wait fuel c dl : advances (wait_loop env fuel c dl).
Proof. induction fuel as [|fuel IH]; [done|]. cbn [wait_loop]. advance. Qed.
#[local] Hint Resolve advances_wait : advances.

Lemma advances_term fuel c dl : advances (term_loop env fuel c dl).
Proof. induction fuel as [|fuel IH]; [done|]. cbn [term_loop]. advance. Qed.
#[local] Hint Resolve advances_term : advances.

Lemma advances_single ctx path timeout out : advances (alrios_hook_run_single env ctx path timeout out).
Proof. unfold alrios_hook_run_single, escalate. advance. Qed.
#[local] Hint Resolve advances_single : advances.

Lemma advances_directory_loop ctx dir abort l out : advances (directory_loop env ctx dir abort l out).
Proof.
  revert out. induction l as [|e l IH]; intros out; [apply advances_ret|]. cbn [directory_loop].
  advance.
Qed.
#[local] Hint Resolve advances_directory_loop : advances.

Lemma advances_phase_directory ctx dir out : advances (phase_directory env ctx dir out).
Proof. unfold phase_directory, alrios_hook_run_directory. advance. Qed.
#[local] Hint Resolve advances_phase_directory : advances.

Lemma advances_phase ctx out : advances (alrios_hook_run_phase env ctx out).
Proof. unfold alrios_hook_run_phase. advance. Qed.
End Facts.

(** ** Theorems *)

(** A single hook always comes to an end, within its timeout, the hundred milliseconds
    it is given after SIGTERM and the time the system calls take, and its status is what it
    deserves: it is started once with the environment, the directory and the user of its
    context; HOOK_ERR_EXEC if it cannot be started or exits with a code other than 0 or by
    a signal; HOOK_ERR_TIMEOUT if it is not over at its deadline, and then, and only then,
    its process group gets SIGTERM and, if it is still there 100 ms later, SIGKILL; HOOK_OK
    otherwise. *)
Theorem hook_verdict env ctx path timeout w :
  steady env -> 0 <= time w < 2 ^ 81 -> path <> [] -> timeout_ok timeout -> timeout_ok (cx_timeout_ms ctx) ->
  let c := children env (started w) in
  exists st r w' sigs,
    alrios_hook_run_single env (Some ctx) (Some path) timeout true w = Some ((st, Some r), w') /\
    hr_error_code r = st /\ hook_outcome c (ms w) (effective_timeout ctx timeout) st sigs /\
    log w' = log w ++ Started (hook_launch env ctx path) (ch_pid c) :: sigs /\
    links w' = run_links c (links w) /\ started w' = S (started w) /\ time w' <= time w + 2 ^ 75.
Proof.
  intros Hs Ht Hp Hto Hct. destruct (run_single_spec env ctx path timeout w Hs Ht Hp Hto Hct) as
    (st & r & w' & sigs & E & Hr & Ho & Hl & Hk & _ & Hst & _ & Ht'). exists st, r, w', sigs. by split_and!.
Qed.

(** C30: a phase runs exactly the hooks of its two directories, those of the slot before
    those of the system and each directory in the order of its listing, no file that is
    hidden, a backup, not regular or not executable; each is started once and judged by
    itself. In a phase that is a gate (pre-build, post-build, pre-swap, pre-drain) the first
    hook that fails is the last one started, and its status is the phase's; in a
    notification phase (post-swap, post-drain) all hooks are started and the phase
    succeeds. The phase always comes to an end. *)
Theorem phase_runs_hooks env ctx out w :
  steady env -> timeout_ok (cx_timeout_ms ctx) ->
  let hooks := phase_hooks ctx (dirs w) in
  let abort := alrios_hook_phase_aborts_on_fail (cx_phase ctx) in
  0 <= time w -> time w + (Z.of_nat (length hooks) + 2) * 2 ^ 76 < 2 ^ 81 ->
  exists st out' sts acts w', alrios_hook_run_phase env (Some ctx) out w = Some ((st, out'), w') /\
    log w' = log w ++ acts /\ runs env ctx (started w) (take (length sts) hooks) sts acts /\
    gate abort (length hooks) sts st /\ (abort = false -> st = HOOK_OK /\ length sts = length hooks) /\
    links w' = links_after env (started w) (length sts) (links w).
Proof.
  intros Hs Hto. cbv zeta. intros H0 Ht.
  destruct (phase_spec env ctx out w Hs Hto H0 Ht) as (st & out' & sts & w' & E & [(acts & La & Hr) Lk _ _ _ Gk] & _).
  exists st, out', sts, acts, w'. split_and!; try done. intros Ha. by rewrite Ha in Gk.
Qed.

(** What the swap's context says of a link that [readlink] reads. *)
Definition read_target (env : environment) (current : bytes) (w : world) : bytes :=
  sub 0 (PATH_MAX - 1) (or_empty (if call_ok env (calls w) then links w !! current else None)).

Lemma read_target_inv env current w :
  (forall old, links w !! current = Some old -> len old < PATH_MAX) -> read_target env current w <> [] ->
  links w !! current = Some (read_target env current w).
Proof.
  intros Hlen. unfold read_target. destruct (call_ok env (calls w)); [|done].
  destruct (links w !! current) as [old|]; [|done]. intros _. cbn. f_equal. symmetry. specialize (Hlen old eq_refl).
  unfold sub, len in *. cbn [Z.to_nat drop]. apply firstn_all2. lia.
Qed.

(** The log of [hooks] all of which succeeded. *)
Definition all_ran_well (env : environment) (ctx : hook_context) (n : nat) (hooks : list bytes) (acts : list action) : Prop :=
  runs env ctx n hooks (replicate (length hooks) HOOK_OK) acts.

(** C17: the guarded swap is a transaction. It always comes to an end with one of three
    results, when the hooks leave the link alone: HOOK_OK, and the link points to the new
    target, every pre-swap hook succeeded before that, the master was told if there is
    one, and every post-swap hook was started after that; HOOK_ERR_ABORT, and the link is
    what it was, the first hook that failed was the last one started and nobody was
    told; HOOK_ERR_SWAP, and every pre-swap hook succeeded, nobody was told, no post-swap
    hook was started and the link is what it was. In that last case, and only when there is
    a master and telling it was refused, the link may stay on the new target: when no old
    target could be read before, or when another call, on the way back, is refused too. *)
Theorem swap_transaction env ctx target current pid out w :
  steady env -> harmless env current -> target <> [] -> current <> [] ->
  (forall old, links w !! current = Some old -> len old < PATH_MAX) ->
  let pre := swap_context ctx target (read_target env current w) in
  let post := with_phase HOOK_POST_SWAP pre in
  let hooks := phase_hooks pre (dirs w) in
  let after := phase_hooks post (dirs w) in
  timeout_ok (cx_timeout_ms pre) ->
  0 <= time w -> time w + (Z.of_nat (length hooks + length after) + 5) * 2 ^ 76 < 2 ^ 81 ->
  exists st out' acts w',
    alrios_lifecycle_atomic_swap env ctx (Some target) (Some current) pid out w = Some ((st, out'), w') /\
    log w' = log w ++ acts /\
    ((st = HOOK_OK /\ links w' !! current = Some target /\
       exists acts1 acts2 sts, acts = acts1 ++ (if pid >? 1 then [Hangup pid] else []) ++ acts2 /\
         all_ran_well env pre (started w) hooks acts1 /\
         length sts = length after /\ runs env post (started w + length hooks) after sts acts2) \/
     (st = HOOK_ERR_ABORT /\ links w' !! current = links w !! current /\
       exists k bad, (k < length hooks)%nat /\ bad <> HOOK_OK /\
         runs env pre (started w) (take (S k) hooks) (replicate k HOOK_OK ++ [bad]) acts) \/
     (st = HOOK_ERR_SWAP /\ all_ran_well env pre (started w) hooks acts /\
       (links w' !! current = links w !! current \/
        1 < pid /\ links w' !! current = Some target /\
          exists i, (calls w < i)%nat /\ call_ok env i = false /\
            (read_target env current w = [] \/ exists j, (i < j)%nat /\ call_ok env j = false)))).
Proof.
  intros Hs Hh Hta Hcu Hlen. cbv zeta. intros Hto H0 Ht. set (prev := read_target env current w) in *.
  set (pre := swap_context ctx target prev) in *. set (hooks := phase_hooks pre (dirs w)) in *.
  set (after := phase_hooks (with_phase HOOK_POST_SWAP pre) (dirs w)) in *. rewrite Nat2Z.inj_add in Ht.
  assert (Epre : cx_phase pre = HOOK_PRE_SWAP) by done.
  unfold alrios_lifecycle_atomic_swap.
  assert (Ene : is_empty target || is_empty current = false) by (by destruct target, current). rewrite Ene.
  unfold bind at 1, readlink. fold prev. change (sub 0 (PATH_MAX - 1) _) with prev. fold pre.
  pose proof (sy_delay _ Hs (calls w)) as D. set (w1 := pass env 0 w). assert (T1 : time w1 = time w + delay env (calls w)) by (cbn; lia).
  destruct (phase_spec env pre (clear out) w1 Hs Hto) as (st & out1 & sts & w2 & E & Hr & _); [lia|fold hooks; change (dirs w1) with (dirs w); fold hooks; lia|].
  erewrite bind_some by exact E. rewrite Epre in Hr. cbn [alrios_hook_phase_aborts_on_fail] in Hr.
  change (dirs w1) with (dirs w) in Hr. fold hooks in Hr. destruct Hr as [(acts & La & Hr) Lk Sk Dk Tk Gk].
  change (log w1) with (log w) in La. change (dirs w1) with (dirs w) in Dk. change (started w1) with (started w) in *. change (links w1) with (links w) in *.
  assert (Hlk : links w2 !! current = links w !! current) by (rewrite Lk; by apply links_after_harmless).
  destruct (st =? HOOK_OK) eqn:Est; cbn [negb]; bool_hyps.
  2:{ eexists _, _, acts, w2. split; [done|]. split; [done|]. right; left. split_and!; [done|done|].
      destruct Gk as [[? _]|(Hne & k & Hk & Es)]; [done|]. exists k, st. split_and!; [done|done|]. rewrite Es in Hr.
      rewrite length_app, length_replicate, Nat.add_1_r in Hr. exact Hr. }
  assert (Hsts : sts = replicate (length hooks) HOOK_OK) by (destruct Gk as [[_ ?]|[? _]]; done).
  rewrite Hsts, length_replicate in Hr, Sk. rewrite firstn_all in Hr.
  destruct (swap_spec env target current pid w2 Hs Hta Hcu) as (rc & w3 & E3 & Hsw).
  erewrite bind_some by exact E3.
  destruct (rc =? 0) eqn:Erc; cbn [negb]; bool_hyps.
  - subst rc. destruct Hsw as [Hc Hk3 Ho3 Hg3 Hd3 Hs3 Ht3 _ _ _ _]. cbn [Z.eqb orb andb] in *.
    change (cx_timeout_ms pre) with (cx_timeout_ms (with_phase HOOK_POST_SWAP pre)) in Hto.
    assert (Ed : dirs w3 = dirs w) by congruence.
    destruct (phase_spec env (with_phase HOOK_POST_SWAP pre) out1 w3 Hs Hto) as (st4 & out4 & sts4 & w4 & E4 & [(acts4 & La4 & Hr4) Lk4 Sk4 Dk4 Tk4 Gk4] & _);
      [lia|rewrite Ed; fold after; lia|].
    rewrite Ed in *. fold after in Hr4, Gk4. destruct Gk4 as [-> Hl4].
    erewrite bind_some by exact E4. eexists _, _, _, w4. split; [done|]. split; [by rewrite La4, Hg3, La, <- !app_assoc|].
    left. split; [done|]. split; [rewrite Lk4, links_after_harmless by done; rewrite Hk3; done|].
    exists acts, acts4, sts4. split_and!; [done|done|done|]. rewrite Hl4, firstn_all in Hr4. rewrite Hs3, Sk in Hr4. exact Hr4.
  - destruct (rollback_spec env target current prev pid rc w2 w3 Hs Hcu Erc) as (rc5 & w5 & E5 & L5 & K5); [|exact Hsw|].
    { intros Hp. rewrite Hlk. by apply read_target_inv. }
    erewrite bind_some by exact E5. eexists _, _, acts, w5. split; [done|]. split; [congruence|]. right; right. split; [done|]. split; [done|].
    rewrite Hlk in K5. destruct K5 as [K5|(Hpid & K5 & i & Hi & Ei & Hj)]; [by left|right]. split_and!; [done|done|].
    exists i. split_and!; [|done|done]. pose proof (advances_phase env _ _ _ _ _ E). change (calls w1) with (S (calls w)) in *. lia.
Qed.

(** ** Examples *)

(** Children by their number: identifier and what waiting answers. *)
Definition sample_child (n : nat) (answer : nat -> Z * Z) : child := mk_child (100 + Z.of_nat n) answer id.

Definition exits (code : Z) : nat -> Z * Z := fun _ => (1, code * 256).

(** An environment where system calls take a millisecond and succeed, except those of
    [refused]. *)
Definition sample_env (answers : list (nat -> Z * Z)) (refused : list nat) : environment :=
  mk_env (fun _ => 1000000) (fun _ => true) (fun i => negb (bool_decide (i ∈ refused))) (fun _ => true)
    (fun n => sample_child n (nth n answers (exits 0))) 1000 42.

Lemma sample_steady answers refused : steady (sample_env answers refused).
Proof. split; cbn; intros; [lia|done]. Qed.

Lemma sample_harmless answers refused path : harmless (sample_env answers refused) path.
Proof. by intros n l. Qed.

Definition sample_entry (name : bytes) : dentry := mk_dentry name true true.

Definition sample_dirs : gmap bytes (option (list dentry)) :=
  list_to_map
    [(lit "/new/hooks.d/pre-swap", Some [sample_entry (lit ".hidden"); sample_entry (lit "10-check"); sample_entry (lit "20-migrate"); sample_entry (lit "old~")]);
     (lit "/etc/alrios/hooks.d/pre-swap", Some [sample_entry (lit "audit"); mk_dentry (lit "README") true false]);
     (lit "/etc/alrios/hooks.d/post-swap", Some [sample_entry (lit "tell"); sample_entry (lit "tell-more")])].

Definition sample_world (links : gmap bytes bytes) (now : Z) : world := mk_world 0 now links sample_dirs 0 [].

Definition sample_ctx : hook_context := mk_ctx HOOK_PRE_SWAP (Some (lit "app")) (Some (lit "/new")) None None None 50 None 0 0 true.

Definition sample_links : gmap bytes bytes := {[ lit "/cur" := lit "/old" ]}.

(** The numbers of the processes that were started. *)
Definition starts (l : list action) : list Z :=
  omap (fun a => match a with Started _ pid => Some pid | _ => None end) l.

Lemma hook_verdict_witness :
  let env := sample_env [exits 3] [] in
  exists st r w' sigs,
    alrios_hook_run_single env (Some sample_ctx) (Some (lit "/h")) 10 true (sample_world sample_links 0) = Some ((st, Some r), w') /\
    hr_error_code r = st /\ hook_outcome (children env 0) 0 10 st sigs /\
    log w' = Started (hook_launch env sample_ctx (lit "/h")) 100 :: sigs /\
    links w' = run_links (children env 0) sample_links /\ started w' = 1%nat /\ time w' <= 2 ^ 75.
Proof.
  apply (hook_verdict (sample_env [exits 3] []) sample_ctx (lit "/h") 10 (sample_world sample_links 0)).
  - apply sample_steady.
  - cbn. lia.
  - discriminate.
  - unfold timeout_ok. lia.
  - unfold timeout_ok. cbn. lia.
Defined.

(** The second of three hooks fails. *)
Lemma phase_runs_hooks_witness :
  let env := sample_env [exits 0; exits 3] [] in
  phase_hooks sample_ctx sample_dirs = [lit "/new/hooks.d/pre-swap/10-check"; lit "/new/hooks.d/pre-swap/20-migrate";
                                        lit "/etc/alrios/hooks.d/pre-swap/audit"] /\
  exists st out' sts acts w', alrios_hook_run_phase env (Some sample_ctx) None (sample_world sample_links 0) = Some ((st, out'), w') /\
    log w' = [] ++ acts /\ runs env sample_ctx 0 (take (length sts) (phase_hooks sample_ctx sample_dirs)) sts acts /\
    gate true (length (phase_hooks sample_ctx sample_dirs)) sts st /\
    (true = false -> st = HOOK_OK /\ length sts = length (phase_hooks sample_ctx sample_dirs)) /\
    links w' = links_after env 0 (length sts) sample_links.
Proof.
  split; [vm_compute; reflexivity|].
  apply (phase_runs_hooks (sample_env [exits 0; exits 3] []) sample_ctx None (sample_world sample_links 0)).
  - apply sample_steady.
  - unfold timeout_ok. cbn. lia.
  - cbn. lia.
  - assert (E : length (phase_hooks sample_ctx sample_dirs) = 3%nat) by (vm_compute; reflexivity). cbn [time sample_world dirs]. rewrite E. lia.
Defined.

Lemma swap_transaction_witness :
  let env := sample_env [] [] in
  let pre := swap_context (Some sample_ctx) (lit "/new") (lit "/old") in
  let post := with_phase HOOK_POST_SWAP pre in
  let w := sample_world sample_links 0 in
  exists st out' acts w',
    alrios_lifecycle_atomic_swap env (Some sample_ctx) (Some (lit "/new")) (Some (lit "/cur")) 7 None w = Some ((st, out'), w') /\
    log w' = [] ++ acts /\
    ((st = HOOK_OK /\ links w' !! lit "/cur" = Some (lit "/new") /\
       exists acts1 acts2 sts, acts = acts1 ++ (if 7 >? 1 then [Hangup 7] else []) ++ acts2 /\
         all_ran_well env pre 0 (phase_hooks pre sample_dirs) acts1 /\
         length sts = length (phase_hooks post sample_dirs) /\
         runs env post (0 + length (phase_hooks pre sample_dirs)) (phase_hooks post sample_dirs) sts acts2) \/
     (st = HOOK_ERR_ABORT /\ links w' !! lit "/cur" = sample_links !! lit "/cur" /\
       exists k bad, (k < length (phase_hooks pre sample_dirs))%nat /\ bad <> HOOK_OK /\
         runs env pre 0 (take (S k) (phase_hooks pre sample_dirs)) (replicate k HOOK_OK ++ [bad]) acts) \/
     (st = HOOK_ERR_SWAP /\ all_ran_well env pre 0 (phase_hooks pre sample_dirs) acts /\
       (links w' !! lit "/cur" = sample_links !! lit "/cur" \/
        1 < 7 /\ links w' !! lit "/cur" = Some (lit "/new") /\
          exists i, (0 < i)%nat /\ call_ok env i = false /\
            (read_target env (lit "/cur") w = [] \/ exists j, (i < j)%nat /\ call_ok env j = false)))).
Proof.
  assert (E : read_target (sample_env [] []) (lit "/cur") (sample_world sample_links 0) = lit "/old") by (vm_compute; reflexivity).
  cbv zeta. rewrite <- E.
  apply (swap_transaction (sample_env [] []) (Some sample_ctx) (lit "/new") (lit "/cur") 7 None (sample_world sample_links 0)).
  - apply sample_steady.
  - apply sample_harmless.
  - discriminate.
  - discriminate.
  - intros old Eo. assert (Some old = Some (lit "/old")) as [= ->] by (rewrite <- Eo; vm_compute; reflexivity). vm_compute. reflexivity.
  - vm_compute. split; [discriminate|reflexivity].
  - cbn. lia.
  - vm_compute. reflexivity.
Defined.

(** What each of the outcomes looks like: done, stopped by the second hook, and the link
    cannot be renamed. *)
Lemma swap_examples :
  let swap answers refused := alrios_lifecycle_atomic_swap (sample_env answers refused) (Some sample_ctx)
    (Some (lit "/new")) (Some (lit "/cur")) 7 (Some zero_result) (sample_world sample_links 0) in
  let see r := match r : option ((Z * option hook_result) * world) with
               | Some ((st, Some out), w) => Some (st, hr_error_code out, hr_aborted out, links w !! lit "/cur", starts (log w))
               | _ => None end in
  see (swap [] []) = Some (HOOK_OK, HOOK_OK, false, Some (lit "/new"), [100; 101; 102; 103; 104]) /\
  see (swap [exits 0; exits 3] []) = Some (HOOK_ERR_ABORT, HOOK_ERR_EXEC, true, Some (lit "/old"), [100; 101]) /\
  see (swap [] [17%nat]) = Some (HOOK_ERR_SWAP, HOOK_ERR_SWAP, true, Some (lit "/old"), [100; 101; 102]).
Proof. vm_compute. split_and!; reflexivity. Qed.

(** ** Findings *)

(** When the nanoseconds of the clock are below those at the start, the older executor's
    elapsed time is above every timeout. *)
Lemma elapsed_wraps start now timeout_ms :
  0 <= now.1 - start.1 < 2 ^ 40 -> 0 <= now.2 < start.2 -> start.2 < 1000000000 -> timeout_ok timeout_ms ->
  timeout_ms <= elapsed_ms start now.
Proof.
  unfold timeout_ok, elapsed_ms. intros Hs Hn Hb Ht. rewrite (u64_ms (now.1 - start.1)) by lia. rewrite (u64_ms (_ * 1000)) by lia.
  assert (En : u64 (now.2 - start.2) = 2 ^ 64 + (now.2 - start.2)).
  { unfold u64. rewrite <- (Z.mod_add _ 1) by lia. rewrite Z.mod_small; lia. }
  rewrite En. assert (18446744072709 <= (2 ^ 64 + (now.2 - start.2)) / 1000000 <= 18446744073710).
  { split; [apply Z.div_le_lower_bound; lia|]. apply Z.lt_succ_r, Z.div_lt_upper_bound; lia. }
  rewrite u64_ms by lia. lia.
Qed.

Definition sample_inv (stage : hook_phase) : hook_inv := mk_inv stage (Some (lit "app")) (Some (lit "/new")) 5000.

(** A hook that would end after a hundred calls is killed after 111 milliseconds of its five
    seconds, since a second of the clock began. *)
Lemma early_kill :
  match execute_single_hook (sample_env [fun i => if (i <? 100)%nat then (0, 0) else (1, 0)] [])
          (lit "/h") (sample_inv HOOK_PRE_SWAP) true (sample_world sample_links 900000000) with
  | Some (st, w) => st = EXEC_ERR_TIMEOUT /\ time w - 900000000 = 111000000
  | None => False
  end.
Proof. vm_compute. split; reflexivity. Qed.

(** The status of the pre-swap hooks cannot be had, and the link is swapped. *)
Lemma lost_hook_passes :
  match alrios_lifecycle_atomic_swap (sample_env [fun _ => (-1, 0); fun _ => (-1, 0); fun _ => (-1, 0)] []) (Some sample_ctx)
          (Some (lit "/new")) (Some (lit "/cur")) 7 None (sample_world sample_links 0) with
  | Some ((st, _), w) => st = HOOK_OK /\ links w !! lit "/cur" = Some (lit "/new")
  | None => False
  end.
Proof. vm_compute. split; reflexivity. Qed.

(** The first release cannot be announced to the master: the swap reports an aborted swap
    and the link points to the release. *)
Lemma failed_swap_stays :
  match alrios_lifecycle_atomic_swap (sample_env [] [18%nat]) (Some sample_ctx)
          (Some (lit "/new")) (Some (lit "/cur")) 7 (Some zero_result) (sample_world ∅ 0) with
  | Some ((st, Some out), w) => st = HOOK_ERR_SWAP /\ hr_aborted out = true /\ links w !! lit "/cur" = Some (lit "/new")
  | _ => False
  end.
Proof. vm_compute. split_and!; reflexivity. Qed.

(** In the older executor a notification hook that is too slow keeps the next one from
    being started; the newer one starts both. *)
Lemma slow_notification_stops :
  let env := sample_env [fun _ => (0, 0)] [] in
  match alrios_hook_execute env (Some (mk_inv HOOK_POST_SWAP (Some (lit "app")) None 20)) (sample_world sample_links 0),
        alrios_hook_run_phase env (Some (with_phase HOOK_POST_SWAP sample_ctx)) None (sample_world sample_links 0) with
  | Some (st, w), Some ((st', _), w') =>
      st = EXEC_ERR_TIMEOUT /\ starts (log w) = [100] /\ st' = HOOK_OK /\ starts (log w') = [100; 101]
  | _, _ => False
  end.
Proof. vm_compute. split_and!; reflexivity. Qed.
