(* ===== verification/VaultText.v ===== *)
(** The text of a vault (src/libraries/vault/store.c up to [record_belongs_to_app], and
    [render_records]): records of an application's secrets, written as lines or as JSON,
    and what is put in the environment of a process.

    A computation of [io] takes an event of the script per allocation; its result is a
    [res]: a value, the status the function returns, or an access outside a buffer. The
    cursor of the JSON reader is the list of octets from it to the end of the buffer, the
    terminator and what follows it included. *)

From S2P Require Import Prelude Bytes Posix.

(** ** Constants and data (include/alrios/vault/store.h) *)

Definition VAULT_OK : Z := 0.

Definition VAULT_ERR_ARGUMENT : Z := -3601.

Definition VAULT_ERR_CRYPTO : Z := -3602.

Definition VAULT_ERR_SCHEMA : Z := -3603.

Definition VAULT_ERR_IO : Z := -3604.

Definition VAULT_ERR_NOT_FOUND : Z := -3605.

Definition VAULT_ERR_MEMFD : Z := -3607.

Definition VAULT_ERR_FORMAT : Z := -3608.

Definition VAULT_MAX_BLOB_LEN : Z := 16 * 1024 * 1024.

Definition VAULT_MAX_APP_ID_LEN : Z := 255.

Definition VAULT_MAX_KEY_LEN : Z := 255.

(** [sizeof(vault_record_t)] *)
Definition RECORD_SIZE : Z := 24.

Record record := mk_record {
  r_app_id : option bytes;
  r_key : bytes;
  r_value : bytes;
}.

(** [count] is the length of the list. *)
Record records_t := mk_records {
  records : list record;
  capacity : Z;
}.

Definition no_records : records_t := mk_records [] 0.

(** ** Computations *)

Definition may (A : Type) : Type := io (res A).

Definition done_ {A} (a : A) : may A := ret (Ok a).

Definition fail {A} (e : Z) : may A := ret (Err e).

Definition fault {A} : may A := ret Fault.

Definition out_of_fuel {A} : may A := fun w => (OutOfFuel, w).

Definition mbind {A B} (m : may A) (k : A -> may B) : may B :=
  let* r := m in
  match r with
  | Ok a => k a
  | Err e => fail e
  | Fault => fault
  end.

Declare Scope may_scope.
Delimit Scope may_scope with may.
Notation "'let+' x ':=' m 'in' k" := (mbind m (fun x => k))
  (at level 10, x pattern, m at level 100, k at level 200) : may_scope.
#[global] Open Scope may_scope.

(** [*cursor] *)
Definition peek (cursor : bytes) : may Z := match cursor with c :: _ => done_ c | [] => fault end.

(** An allocation the function cannot do without. *)
Definition allocate : may unit := let* ok := sys_ok in if ok then done_ tt else fail VAULT_ERR_IO.

(** ** Names *)

Definition isspace (c : Z) : bool := ((9 <=? c) && (c <=? 13)) || (c =? 32).

Definition isalpha (c : Z) : bool := ((65 <=? c) && (c <=? 90)) || ((97 <=? c) && (c <=? 122)).

Definition isalnum (c : Z) : bool := isalpha c || ((48 <=? c) && (c <=? 57)).

Definition is_valid_app_id (app_id : option bytes) : bool :=
  match app_id with
  | None => false
  | Some s =>
      if (len s =? 0) || (len s >? VAULT_MAX_APP_ID_LEN) then false
      else forallb (fun c => isalnum c || (c =? 46) || (c =? 45) || (c =? 95)) s
  end.

Definition is_valid_secret_key (key : option bytes) : bool :=
  match key with
  | None => false
  | Some s =>
      if (len s =? 0) || (len s >? VAULT_MAX_KEY_LEN) then false
      else if negb (isalpha (at_ s 0) || (at_ s 0 =? 95)) then false
      else forallb (fun c => isalnum c || (c =? 95)) (drop 1 s)
  end.

(** ** Records *)

Definition records_add (rs : records_t) (app_id : option bytes) (key value : bytes) : may records_t :=
  if negb (is_valid_secret_key (Some key)) || match app_id with Some _ => negb (is_valid_app_id app_id) | None => false end
  then fail VAULT_ERR_SCHEMA
  else
    let+ cap :=
      if len (records rs) =? capacity rs then
        let new_capacity := if capacity rs =? 0 then 8 else u64 (capacity rs * 2) in
        if (new_capacity <? capacity rs) || (new_capacity >? SIZE_MAX / RECORD_SIZE) then fail VAULT_ERR_IO
        else let+ _ := allocate in done_ new_capacity
      else done_ (capacity rs) in
    let+ _ := match app_id with Some _ => allocate | None => done_ tt end in
    let* key_ok := sys_ok in
    let* value_ok := sys_ok in
    if negb key_ok || negb value_ok then fail VAULT_ERR_IO
    else done_ (mk_records (records rs ++ [mk_record app_id key value]) cap).

(** ** Lines *)

Fixpoint skip_space (text : bytes) : bytes :=
  match text with
  | c :: rest => if isspace c then skip_space rest else text
  | [] => []
  end.

(** Without the white space at its end. *)
Fixpoint drop_space (text : bytes) : bytes :=
  match text with
  | [] => []
  | c :: rest => match drop_space rest with [] => if isspace c then [] else [c] | r => c :: r end
  end.

(** Of a string without its terminator. *)
Definition trim_ascii (text : bytes) : bytes := drop_space (skip_space text).

(** The tokens of [strtok_r]: the longest parts without a delimiter, none of them empty. *)
Fixpoint tokens (delim : Z -> bool) (text token : bytes) : list bytes :=
  let close := match token with [] => [] | _ => [token] end in
  match text with
  | [] => close
  | c :: text => if delim c then close ++ tokens delim text [] else tokens delim text (token ++ [c])
  end.

(** [strchr]: the parts before and after the first [c]. *)
Fixpoint split_at (c : Z) (text : bytes) : option (bytes * bytes) :=
  match text with
  | [] => None
  | x :: text =>
      if x =? c then Some ([], text)
      else match split_at c text with Some (a, b) => Some (x :: a, b) | None => None end
  end.

(** One line: [None] for an empty one and a comment, else the application, the key and the
    value. *)
Definition line_record (line : bytes) : res (option (option bytes * bytes * bytes)) :=
  let entry := trim_ascii line in
  if (at_ entry 0 =? 0) || (at_ entry 0 =? 35) then Ok None
  else
    match split_at 61 entry with
    | None => Err VAULT_ERR_FORMAT
    | Some (before, value) =>
        let key := trim_ascii before in
        match split_at 58 key with
        | Some (app_id, key) => Ok (Some (Some (trim_ascii app_id), trim_ascii key, value))
        | None => Ok (Some (None, key, value))
        end
    end.

Fixpoint add_lines (lines : list bytes) (rs : records_t) : may records_t :=
  match lines with
  | [] => done_ rs
  | line :: lines =>
      let+ r := ret (line_record line) in
      match r with
      | None => add_lines lines rs
      | Some (app_id, key, value) => let+ rs := records_add rs app_id key value in add_lines lines rs
      end
  end.

Definition is_newline (c : Z) : bool := (c =? 13) || (c =? 10).

Definition parse_line_records (plaintext : bytes) (rs : records_t) : may records_t :=
  let+ rs := add_lines (tokens is_newline plaintext []) rs in
  if len (records rs) >? 0 then done_ rs else fail VAULT_ERR_SCHEMA.

(** ** JSON *)

Fixpoint json_skip_ws (cursor : bytes) : may bytes :=
  match cursor with
  | [] => fault
  | c :: rest => if negb (c =? 0) && isspace c then json_skip_ws rest else done_ cursor
  end.

Definition json_hex_value (c : Z) : Z :=
  if (48 <=? c) && (c <=? 57) then c - 48
  else if (97 <=? c) && (c <=? 102) then 10 + (c - 97)
  else if (65 <=? c) && (c <=? 70) then 10 + (c - 65)
  else -1.

(** Status and the string so far. *)
Definition json_append_utf8 (out : bytes) (capacity codepoint : Z) : Z * bytes :=
  if (codepoint =? 0) || (codepoint >? 1114111) || ((codepoint >=? 55296) && (codepoint <=? 57343))
  then (VAULT_ERR_FORMAT, out)
  else
    let append l := if len out + len l >=? capacity then (VAULT_ERR_SCHEMA, out) else (VAULT_OK, out ++ l) in
    let low n := Z.lor 128 (Z.land (Z.shiftr codepoint n) 63) in
    if codepoint <=? 127 then append [codepoint]
    else if codepoint <=? 2047 then append [Z.lor 192 (Z.shiftr codepoint 6); low 0]
    else if codepoint <=? 65535 then append [Z.lor 224 (Z.shiftr codepoint 12); low 6; low 0]
    else append [Z.lor 240 (Z.shiftr codepoint 18); low 12; low 6; low 0].

(** What a character after a backslash stands for, [u] apart. *)
Definition unescape (c : Z) : option Z :=
  if (c =? 34) || (c =? 92) || (c =? 47) then Some c
  else if c =? 98 then Some 8
  else if c =? 102 then Some 12
  else if c =? 110 then Some 10
  else if c =? 114 then Some 13
  else if c =? 116 then Some 9
  else None.

(** The loop: [result], the string and the cursor when it is left. *)
Fixpoint string_loop (max_length : Z) (input out : bytes) (result : Z) : res (Z * bytes * bytes) :=
  match input with
  | [] => Fault
  | c :: input' =>
      if (c =? 0) || (c =? 34) then Ok (result, out, input)
      else if c <? 32 then Ok (VAULT_ERR_FORMAT, out, input')
      else if c =? 92 then
        match input' with
        | [] => Fault
        | e :: input'' =>
            if e =? 117 then
              match input'' with
              | c0 :: c1 :: c2 :: c3 :: rest =>
                  let h0 := json_hex_value c0 in
                  let h1 := json_hex_value c1 in
                  let h2 := json_hex_value c2 in
                  let h3 := json_hex_value c3 in
                  if (h0 <? 0) || (h1 <? 0) || (h2 <? 0) || (h3 <? 0) then Ok (VAULT_ERR_FORMAT, out, input'')
                  else
                    let codepoint := Z.lor (Z.lor (Z.lor (Z.shiftl h0 12) (Z.shiftl h1 8)) (Z.shiftl h2 4)) h3 in
                    let (result, out) := json_append_utf8 out (max_length + 1) codepoint in
                    string_loop max_length rest out result
              | _ => Fault
              end
            else
              match unescape e with
              | None => Ok (VAULT_ERR_FORMAT, out, input'')
              | Some c =>
                  if negb (result =? VAULT_OK) then Ok (result, out, input'')
                  else if len out >=? max_length then Ok (VAULT_ERR_SCHEMA, out, input'')
                  else string_loop max_length input'' (out ++ [c]) result
              end
        end
      else if len out >=? max_length then Ok (VAULT_ERR_SCHEMA, out, input')
      else string_loop max_length input' (out ++ [c]) result
  end.

(** The string and the cursor after it. *)
Definition json_parse_string (cursor : bytes) (max_length : Z) : may (bytes * bytes) :=
  let+ c := peek cursor in
  if negb (c =? 34) then fail VAULT_ERR_FORMAT
  else
    let+ _ := allocate in
    let+ (result, out, input) := ret (string_loop max_length (drop 1 cursor) [] VAULT_OK) in
    if negb (result =? VAULT_OK) then fail result
    else
      let+ c := peek input in
      if c =? 34 then done_ (out, drop 1 input) else fail VAULT_ERR_FORMAT.

Definition json_expect (cursor : bytes) (expected : Z) : may bytes :=
  let+ input := json_skip_ws cursor in
  let+ c := peek input in
  if negb (c =? expected) then fail VAULT_ERR_FORMAT else done_ (drop 1 input).

(** The turns of [parse_json_secret_object]. *)
Fixpoint secrets_loop (fuel : nat) (cursor : bytes) (app_id : bytes) (rs : records_t) : may (bytes * records_t) :=
  match fuel with
  | O => out_of_fuel
  | S fuel =>
      let+ cursor := json_skip_ws cursor in
      let+ (key, cursor) := json_parse_string cursor VAULT_MAX_KEY_LEN in
      let+ cursor := json_expect cursor 58 in
      let+ cursor := json_skip_ws cursor in
      let+ (value, cursor) := json_parse_string cursor VAULT_MAX_BLOB_LEN in
      let+ rs := records_add rs (Some app_id) key value in
      let+ cursor := json_skip_ws cursor in
      let+ c := peek cursor in
      if c =? 125 then done_ (drop 1 cursor, rs)
      else
        let+ cursor := json_expect cursor 44 in
        secrets_loop fuel cursor app_id rs
  end.

Definition parse_json_secret_object (cursor : bytes) (app_id : bytes) (rs : records_t) : may (bytes * records_t) :=
  let+ cursor := json_expect cursor 123 in
  let+ cursor := json_skip_ws cursor in
  let+ c := peek cursor in
  if c =? 125 then fail VAULT_ERR_SCHEMA else secrets_loop (length cursor) cursor app_id rs.

(** The turns of [parse_json_records]. *)
Fixpoint outer_loop (fuel : nat) (cursor : bytes) (rs : records_t) : may records_t :=
  match fuel with
  | O => out_of_fuel
  | S fuel =>
      let+ cursor := json_skip_ws cursor in
      let+ (outer_key, cursor) := json_parse_string cursor VAULT_MAX_APP_ID_LEN in
      let+ cursor := json_expect cursor 58 in
      let+ cursor := json_skip_ws cursor in
      let+ c := peek cursor in
      let+ (cursor, rs) :=
        if c =? 123 then
          if negb (is_valid_app_id (Some outer_key)) then fail VAULT_ERR_SCHEMA
          else parse_json_secret_object cursor outer_key rs
        else if c =? 34 then
          let+ (value, cursor) := json_parse_string cursor VAULT_MAX_BLOB_LEN in
          let+ rs := records_add rs None outer_key value in
          done_ (cursor, rs)
        else fail VAULT_ERR_FORMAT in
      let+ cursor := json_skip_ws cursor in
      let+ c := peek cursor in
      if c =? 125 then
        let+ cursor := json_skip_ws (drop 1 cursor) in
        let+ c := peek cursor in
        if c =? 0 then done_ rs else fail VAULT_ERR_FORMAT
      else
        let+ cursor := json_expect cursor 44 in
        outer_loop fuel cursor rs
  end.

Definition parse_json_records (plaintext : bytes) (rs : records_t) : may records_t :=
  let+ cursor := json_expect plaintext 123 in
  let+ cursor := json_skip_ws cursor in
  let+ c := peek cursor in
  if c =? 125 then fail VAULT_ERR_SCHEMA else outer_loop (length cursor) cursor rs.

(** [trim_ascii] of a buffer: the octets from the first character that is left on. The
    terminator is moved and what was behind it stays. *)
Definition trimmed (plaintext : bytes) : bytes :=
  let start := len (cstr plaintext) - len (skip_space (cstr plaintext)) in
  let text := trim_ascii (cstr plaintext) in
  text ++ 0 :: drop (Z.to_nat (start + len text + 1)) plaintext.

Definition parse_records (plaintext : bytes) : may records_t :=
  let cursor := trimmed plaintext in
  if at_ cursor 0 =? 123 then parse_json_records cursor no_records
  else parse_line_records (cstr cursor) no_records.

(** ** The environment of a process *)

(** An array of strings, of which [num_authorized] are looked at. *)
Definition is_authorized_key (key : bytes) (authorized_keys : option (list (option bytes))) (num_authorized : Z) : bool :=
  if num_authorized =? 0 then true
  else
    match authorized_keys with
    | None => false
    | Some keys =>
        existsb (fun k => match k with Some k => bytes_eqb key k | None => false end) (take (Z.to_nat num_authorized) keys)
    end.

Definition record_belongs_to_app (r : record) (app_id : option bytes) : bool :=
  match app_id, r_app_id r with
  | None, None => true
  | Some a, Some b => bytes_eqb b a
  | _, _ => false
  end.

(** A store to [buffer], which may be beyond its end. *)
Definition store (offset : Z) (data buffer : bytes) : res bytes :=
  if offset + len data <=? len buffer then Ok (upd offset data buffer) else Fault.

(** The loop over the records: status, [offset], [count] and the buffer. *)
Fixpoint render_loop (rs : list record) (app_id : option bytes) (authorized_keys : option (list (option bytes)))
    (num_authorized offset count : Z) (buf : bytes) : res (Z * Z * Z * bytes) :=
  match rs with
  | [] => Ok (VAULT_OK, offset, count, buf)
  | r :: rs =>
      if negb (record_belongs_to_app r app_id) || negb (is_authorized_key (r_key r) authorized_keys num_authorized)
      then render_loop rs app_id authorized_keys num_authorized offset count buf
      else
        let key_len := len (r_key r) in
        let value_len := len (r_value r) in
        let required := key_len + value_len + 2 in
        if (key_len >? SIZE_MAX - value_len - 3) || (required >? len buf - offset)
        then Ok (VAULT_ERR_IO, offset, count, zeros (len buf))
        else
          let! buf := store offset (r_key r ++ [61] ++ r_value r ++ [10]) buf in
          let offset := offset + required in
          let! buf := store offset [0] buf in
          render_loop rs app_id authorized_keys num_authorized offset (count + 1) buf
  end.

(** Status and the buffer, [env_buf_len] octets. *)
Definition render_records (rs : list record) (app_id : option bytes) (authorized_keys : option (list (option bytes)))
    (num_authorized : Z) (out_env_buf : bytes) : res (Z * bytes) :=
  if len out_env_buf =? 0 then Ok (VAULT_ERR_ARGUMENT, out_env_buf)
  else
    let! buf := store 0 [0] out_env_buf in
    let! (status, _, count, buf) := render_loop rs app_id authorized_keys num_authorized 0 0 buf in
    if negb (status =? VAULT_OK) then Ok (status, buf)
    else if match app_id with Some _ => count =? 0 | None => false end then Ok (VAULT_ERR_NOT_FOUND, zeros (len buf))
    else Ok (VAULT_OK, buf).

(** ** What a computation does *)

(** Whatever the script: [m] leaves the file alone, and is stopped, or ends with a value in
    [Q], with a status in [E] or, if [F], outside a buffer. *)
Definition mwp {A} (m : may A) (Q : A -> Prop) (E : Z -> Prop) (F : Prop) : Prop :=
  forall w, wp m (eq (file w)) (fun r w' => file w' = file w /\
    match r with Ok a => Q a | Err e => E e | Fault => F end) w.

Section Rules.
Context {E : Z -> Prop} {F : Prop}.

Lemma mwp_done {A} (a : A) (Q : A -> Prop) : Q a -> mwp (done_ a) Q E F.
Proof. intros H w. by apply wp_ret. Qed.

Lemma mwp_fail {A} e (Q : A -> Prop) : E e -> mwp (fail e) Q E F.
Proof. intros H w. by apply wp_ret. Qed.

Lemma mwp_res {A} (r : res A) (Q : A -> Prop) :
  match r with Ok a => Q a | Err e => E e | Fault => F end -> mwp (ret r) Q E F.
Proof. intros H w. by apply wp_ret. Qed.

Lemma mwp_mono {A} (m : may A) (Q Q' : A -> Prop) : mwp m Q E F -> (forall a, Q a -> Q' a) -> mwp m Q' E F.
Proof. intros Hm HQ w. eapply wp_mono; [apply Hm|]. intros [a|e|] w' [? ?]; auto. Qed.

Lemma mwp_bind {A B} (m : may A) (k : A -> may B) (P : A -> Prop) (Q : B -> Prop) :
  mwp m P E F -> (forall a, P a -> mwp (k a) Q E F) -> mwp (mbind m k) Q E F.
Proof.
  intros Hm Hk w. apply wp_bind. eapply wp_mono; [apply Hm|]. intros [a|e|] w' [Hf Hr].
  - eapply wp_mono; [eapply wp_weaken; [by apply Hk|]; intros f <-; congruence|]. intros r w'' [Hf' Hr']. split; [congruence|done].
  - by apply wp_ret.
  - by apply wp_ret.
Qed.

Lemma mwp_sys_ok {A} (k : bool -> may A) (Q : A -> Prop) :
  (forall b, mwp (k b) Q E F) -> mwp (let* ok := sys_ok in k ok) Q E F.
Proof.
  intros Hk w. apply wp_bind, wp_sys_ok; [done|]. intros b w' [Hf _].
  eapply wp_mono; [eapply wp_weaken; [by apply Hk|]; intros f <-; congruence|]. intros r w'' [Hf' Hr']. split; [congruence|done].
Qed.

Lemma mwp_allocate (Q : unit -> Prop) : E VAULT_ERR_IO -> Q tt -> mwp allocate Q E F.
Proof. intros HE HQ. apply mwp_sys_ok. intros []; [by apply mwp_done|by apply mwp_fail]. Qed.
End Rules.

(** [m] gives [a] if [n] events are undisturbed; otherwise it may be stopped or fail
    instead. *)
Definition exact {A} (m : may A) (n : nat) (a : A) : Prop :=
  forall w, let (r, w') := m w in
    file w' = file w /\ (r = Ret (Ok a) \/ (exists e, r = Ret (Err e)) \/ r = Crash) /\
    forall k, smooth (n + k) w -> r = Ret (Ok a) /\ smooth k w'.

Lemma exact_done {A} (a : A) : exact (done_ a) 0 a.
Proof. intros w. cbn. split_and!; [done|by left|]. intros k Hk. by split. Qed.

Lemma exact_more {A} (m : may A) n n' a : exact m n a -> (n <= n')%nat -> exact m n' a.
Proof.
  intros H Hn w. specialize (H w). destruct (m w) as [r w']. destruct H as (Hf & Hr & Hs). split_and!; [done|done|].
  intros k Hk. destruct (Hs (n' - n + k)%nat) as [-> Hs']; [eapply smooth_le; [done|lia]|]. split; [done|]. eapply smooth_le; [done|lia].
Qed.

Lemma exact_bind {A B} (m : may A) (k : A -> may B) n p a b :
  exact m n a -> exact (k a) p b -> exact (mbind m k) (n + p) b.
Proof.
  intros Hm Hk w. specialize (Hm w). unfold mbind, bind. destruct (m w) as [r w1]. destruct Hm as (Hf & Hr & Hs).
  destruct Hr as [-> | [[e ->] | ->]].
  - specialize (Hk w1). destruct (k a w1) as [r2 w2]. destruct Hk as (Hf2 & Hr2 & Hs2). split_and!; [congruence|done|].
    intros j Hj. rewrite <- Nat.add_assoc in Hj. destruct (Hs _ Hj) as [_ Hs1]. by apply Hs2.
  - cbn. split_and!; [done|right; left; by exists e|]. intros j Hj. rewrite <- Nat.add_assoc in Hj. destruct (Hs _ Hj) as [? _]. done.
  - split_and!; [done|by right; right|]. intros j Hj. rewrite <- Nat.add_assoc in Hj. destruct (Hs _ Hj) as [? _]. done.
Qed.

(** Running one event of the script. *)
Lemma smooth_cons n w : smooth (S n) w -> exists rest, script w = Go SIZE_MAX :: rest /\ smooth n (mk_world (file w) (lock w) rest).
Proof.
  intros (k & Hk & ->). destruct k as [|k]; [lia|]. exists (replicate k (Go SIZE_MAX)). split; [done|]. exists k. split; [lia|done].
Qed.

Lemma exact_allocate : exact allocate 1 tt.
Proof.
  intros w. unfold allocate, sys_ok, bind, next_event. destruct (script w) as [|e rest] eqn:Es; cbn.
  - split_and!; [done|by right; right|]. intros k Hk. apply smooth_cons in Hk as (? & Hr & _). congruence.
  - destruct e; cbn; (split_and!; [done|first [by left|right; left; by eexists]|]); intros k Hk; apply smooth_cons in Hk as (rest' & Hr & Hs);
      rewrite Es in Hr; injection Hr as ? <-; done.
Qed.

(** Two copies that are looked at together. *)
Lemma exact_copies {A} (a : A) :
  exact (let* k := sys_ok in let* v := sys_ok in if negb k || negb v then fail VAULT_ERR_IO else done_ a) 2 a.
Proof.
  intros w. unfold bind, sys_ok, bind, next_event. destruct (script w) as [|e rest] eqn:Es; cbn.
  - split_and!; [done|by right; right|]. intros k Hk. apply smooth_cons in Hk as (? & Hr & _). congruence.
  - destruct rest as [|e' rest].
    + cbn. destruct e; cbn; (split_and!; [done|by right; right|]);
      (intros k Hk; apply smooth_cons in Hk as (rest' & Hr & Hs); rewrite Es in Hr; injection Hr as ? <-;
       apply smooth_cons in Hs as (? & Hr & _); discriminate).
    + cbn. destruct e, e'; cbn; (split_and!; [done|first [by left|right; left; by eexists]|]);
      (intros k Hk; apply smooth_cons in Hk as (rest' & Hr & Hs); rewrite Es in Hr; injection Hr as ? <-;
       apply smooth_cons in Hs as (? & Hr & Hs); cbn in Hr; injection Hr as ? <-; try discriminate; done).
Qed.

(** ** Records *)

Definition char_ok (c : Z) : Prop := 0 < c < 256.

Definition record_ok (r : record) : Prop :=
  is_valid_secret_key (Some (r_key r)) = true /\
  match r_app_id r with Some a => is_valid_app_id (Some a) = true | None => True end /\ Forall char_ok (r_value r).

(** The octets of its line in the environment. *)
Definition cost (r : record) : Z := len (r_key r) + len (r_value r) + 2.

Definition costs (rs : list record) : Z := foldr (fun r n => cost r + n) 0 rs.

Lemma costs_app rs rs' : costs (rs ++ rs') = costs rs + costs rs'.
Proof. induction rs as [|r rs IH]; cbn [app costs foldr]; [done|]. fold (costs (rs ++ rs')) (costs rs). lia. Qed.

Definition statuses (e : Z) : Prop := e = VAULT_ERR_FORMAT \/ e = VAULT_ERR_SCHEMA \/ e = VAULT_ERR_IO.

Definition records_ok (rs : records_t) : Prop := Forall record_ok (records rs).

Lemma records_add_safe rs app_id key value F :
  records_ok rs -> Forall char_ok value ->
  mwp (records_add rs app_id key value)
    (fun rs' => records rs' = records rs ++ [mk_record app_id key value] /\ records_ok rs') statuses F.
Proof.
  intros Hrs Hv. unfold records_add. set (bad := match app_id with Some _ => _ | None => false end).
  destruct (negb (is_valid_secret_key (Some key)) || bad) eqn:Ec; [apply mwp_fail; by right; left|].
  assert (HIO : statuses VAULT_ERR_IO) by (by right; right).
  apply (mwp_bind _ _ (fun _ => True)).
  { destruct (len (records rs) =? capacity rs); [|by apply mwp_done]. cbv zeta. set (nc := if capacity rs =? 0 then 8 else _).
    destruct ((nc <? capacity rs) || (nc >? SIZE_MAX / RECORD_SIZE)); [by apply mwp_fail|].
    apply (mwp_bind _ _ (fun _ => True)); [by apply mwp_allocate|]. intros _ _. by apply mwp_done. }
  intros cap _. apply (mwp_bind _ _ (fun _ => True)); [destruct app_id; [by apply mwp_allocate|by apply mwp_done]|].
  intros _ _. apply mwp_sys_ok. intros k. apply mwp_sys_ok. intros v. destruct (negb k || negb v); [by apply mwp_fail|].
  apply mwp_done. split; [done|]. unfold records_ok. cbn [records]. apply Forall_app. split; [done|].
  apply list.Forall_singleton. bool_hyps. split_and!; cbn [r_key r_app_id r_value]; [done|unfold bad in *; by destruct app_id; bool_hyps|done].
Qed.

Lemma records_add_exact rs app_id key value :
  is_valid_secret_key (Some key) = true -> match app_id with Some a => is_valid_app_id (Some a) = true | None => True end ->
  0 <= capacity rs -> capacity rs <= 2 * len (records rs) + 8 -> len (records rs) < 2 ^ 40 ->
  exists cap, 0 <= cap <= 2 * (len (records rs) + 1) + 8 /\
    exact (records_add rs app_id key value) 4 (mk_records (records rs ++ [mk_record app_id key value]) cap).
Proof.
  intros Hk Ha Hc0 Hc Hn. unfold records_add. pose proof (len_nonneg (records rs)).
  replace (negb _ || _) with false by (rewrite Hk; destruct app_id; [by rewrite Ha|done]).
  assert (Hcap : exists cap, 0 <= cap <= 2 * (len (records rs) + 1) + 8 /\
    exact (if len (records rs) =? capacity rs
      then let new_capacity := if capacity rs =? 0 then 8 else u64 (capacity rs * 2) in
           if (new_capacity <? capacity rs) || (new_capacity >? SIZE_MAX / RECORD_SIZE) then fail VAULT_ERR_IO
           else let+ _ := allocate in done_ new_capacity
      else done_ (capacity rs)) 1 cap).
  { destruct (len (records rs) =? capacity rs) eqn:E; bool_hyps.
    2:{ exists (capacity rs). split; [lia|]. eapply exact_more; [apply exact_done|lia]. }
    cbv zeta. set (nc := if capacity rs =? 0 then 8 else u64 (capacity rs * 2)).
    assert (Hnc : capacity rs <= nc <= 2 * capacity rs + 8 /\ nc < 2 ^ 42).
    { unfold nc, u64. destruct (capacity rs =? 0) eqn:E0; bool_hyps; [lia|]. rewrite Z.mod_small by lia. lia. }
    exists nc. split; [lia|]. replace (_ || _) with false.
    2:{ symmetry. apply orb_false_iff. split; [lia|]. rewrite Z.gtb_ltb. apply Z.ltb_ge.
        apply Z.div_le_lower_bound; unfold RECORD_SIZE, SIZE_MAX, UINT64_MAX; lia. }
    change 1%nat with (1 + 0)%nat. eapply exact_bind; [apply exact_allocate|apply exact_done]. }
  destruct Hcap as (cap & Hcap & He). exists cap. split; [done|].
  change 4%nat with (1 + (1 + 2))%nat. eapply exact_bind; [exact He|]. eapply (exact_bind _ _ _ _ tt).
  - destruct app_id; [apply exact_allocate|]. eapply exact_more; [apply exact_done|lia].
  - apply exact_copies.
Qed.

(** ** Lines *)

Lemma skip_space_suffix text : exists a, text = a ++ skip_space text.
Proof.
  induction text as [|c text [a IH]]; [by exists []|]. cbn [skip_space]. destruct (isspace c); [|by exists []].
  exists (c :: a). cbn. by f_equal.
Qed.

Lemma drop_space_prefix text : exists b, text = drop_space text ++ b.
Proof.
  induction text as [|c text [b IH]]; [by exists []|]. cbn [drop_space]. destruct (drop_space text) as [|x r] eqn:Er.
  - destruct (isspace c); [by exists (c :: text)|]. exists b. cbn. by f_equal.
  - exists b. cbn in *. by f_equal.
Qed.

Lemma trim_part text : exists a b, text = a ++ trim_ascii text ++ b.
Proof.
  destruct (skip_space_suffix text) as [a Ha]. destruct (drop_space_prefix (skip_space text)) as [b Hb].
  exists a, b. unfold trim_ascii. by rewrite <- Hb.
Qed.

Lemma trim_len text : len (trim_ascii text) <= len text.
Proof.
  destruct (trim_part text) as (a & b & E). rewrite E at 2. rewrite !len_app. pose proof (len_nonneg a). pose proof (len_nonneg b). lia.
Qed.

Lemma trim_chars text : Forall char_ok text -> Forall char_ok (trim_ascii text).
Proof. destruct (trim_part text) as (a & b & E). rewrite E at 1. by intros [_ [? _]%Forall_app]%Forall_app. Qed.

Lemma split_at_parts c text a b : split_at c text = Some (a, b) -> text = a ++ c :: b.
Proof.
  revert a b. induction text as [|x text IH]; intros a b E; [done|]. cbn [split_at] in E. destruct (x =? c) eqn:Ex; bool_hyps.
  - injection E as <- <-. by rewrite Ex.
  - destruct (split_at c text) as [[a' b']|]; [|done]. injection E as <- <-. by rewrite (IH a' b' eq_refl).
Qed.

Lemma line_record_spec line :
  Forall char_ok line ->
  match line_record line with
  | Ok (Some (app_id, key, value)) => Forall char_ok value /\ len key + 1 + len value <= len line
  | Ok None => True
  | Err e => e = VAULT_ERR_FORMAT
  | Fault => False
  end.
Proof.
  intros Hl. unfold line_record. cbv zeta. destruct (_ || _); [done|]. pose proof (trim_len line). apply trim_chars in Hl.
  destruct (split_at 61 (trim_ascii line)) as [[before value]|] eqn:Es; [|done]. apply split_at_parts in Es. rewrite Es in *.
  rewrite len_app, len_cons in *. pose proof (trim_len before).
  apply Forall_app in Hl as [_ Hl]. apply list.Forall_cons in Hl as [_ Hv].
  destruct (split_at 58 (trim_ascii before)) as [[app key]|] eqn:Ek.
  - apply split_at_parts in Ek. split; [done|]. apply (f_equal len) in Ek. rewrite len_app, len_cons in Ek.
    pose proof (trim_len key). pose proof (len_nonneg app). lia.
  - split; [done|lia].
Qed.

Definition line_costs (lines : list bytes) : Z := foldr (fun l n => len l + 1 + n) 0 lines.

Lemma line_costs_app a b : line_costs (a ++ b) = line_costs a + line_costs b.
Proof. induction a as [|l a IH]; cbn [app line_costs foldr]; [done|]. fold (line_costs (a ++ b)) (line_costs a). lia. Qed.

Lemma add_lines_safe lines rs F :
  Forall (Forall char_ok) lines -> records_ok rs ->
  mwp (add_lines lines rs)
    (fun rs' => records_ok rs' /\ costs (records rs') <= costs (records rs) + line_costs lines) statuses F.
Proof.
  revert rs. induction lines as [|line lines IH]; intros rs Hl Hrs; cbn [add_lines line_costs foldr].
  { apply mwp_done. split; [done|lia]. }
  fold (line_costs lines). apply list.Forall_cons in Hl as [Hl Hls]. pose proof (len_nonneg line).
  eapply (mwp_bind _ _ (fun r => match r with Some (_, key, value) => Forall char_ok value /\ len key + 1 + len value <= len line | None => True end)).
  { apply mwp_res. pose proof (line_record_spec line Hl). destruct (line_record line) as [[[[app key] value]|]|e|]; [done|done|by left|done]. }
  intros [[[app key] value]|] Hr.
  - destruct Hr as [Hv Hlen]. eapply mwp_bind; [by apply records_add_safe|]. intros rs' [E Hrs'].
    eapply mwp_mono; [by apply IH|]. intros rs'' [Hok Hc]. split; [done|]. rewrite E, costs_app in Hc. cbn [costs foldr cost r_key r_value] in Hc.
    unfold cost in Hc. cbn in Hc. lia.
  - eapply mwp_mono; [by apply IH|]. intros rs' [Hok Hc]. split; [done|lia].
Qed.

Lemma tokens_spec delim text token :
  Forall char_ok text -> Forall char_ok token ->
  Forall (Forall char_ok) (tokens delim text token) /\ line_costs (tokens delim text token) <= len text + len token + 1.
Proof.
  revert token. induction text as [|c text IH]; intros token Ht Hk; cbn [tokens].
  { pose proof (len_nonneg token). destruct token; cbn [line_costs foldr]; [split; [by apply Forall_nil_2|change (len (@nil Z)) with 0 in *; lia]|].
    split; [by apply list.Forall_singleton|]. change (len []) with 0. lia. }
  apply list.Forall_cons in Ht as [Hc Ht]. rewrite len_cons. destruct (delim c).
  - destruct (IH [] Ht (Forall_nil_2 _)) as [H1 H2]. rewrite line_costs_app. change (len []) with 0 in H2. pose proof (len_nonneg token).
    destruct token; cbn [line_costs foldr app] in *; [split; [done|lia]|]. split; [by apply list.Forall_cons|]. lia.
  - destruct (IH (token ++ [c]) Ht) as [H1 H2]; [apply Forall_app; split; [done|by apply list.Forall_singleton]|].
    rewrite len_app, len_cons, len_nil in H2. split; [done|lia].
Qed.

Lemma parse_line_safe text F :
  Forall char_ok text ->
  mwp (parse_line_records text no_records)
    (fun rs => records_ok rs /\ records rs <> [] /\ costs (records rs) <= len text + 1) statuses F.
Proof.
  intros Ht. unfold parse_line_records. destruct (tokens_spec is_newline text [] Ht (Forall_nil_2 _)) as [Hc Hl].
  change (len []) with 0 in Hl. eapply mwp_bind; [apply add_lines_safe; [done|by apply Forall_nil_2]|]. intros rs [Hok Hcost]. cbn [records no_records costs foldr] in Hcost.
  destruct (len (records rs) >? 0) eqn:E; bool_hyps; [|apply mwp_fail; by right; left].
  apply mwp_done. split_and!; [done|intros E0; rewrite E0 in E; done|lia].
Qed.

Lemma lor_below a b n : 0 <= a < 2 ^ n -> 0 <= b < 2 ^ n -> 0 <= Z.lor a b < 2 ^ n.
Proof.
  intros Ha Hb. assert (0 <= Z.lor a b) by (apply Z.lor_nonneg; lia). split; [done|].
  destruct (Z.eq_dec (Z.lor a b) 0) as [->|Hne]; [lia|]. destruct (Z.eq_dec a 0) as [->|Ha0]; [rewrite Z.lor_0_l; lia|].
  destruct (Z.eq_dec b 0) as [->|Hb0]; [rewrite Z.lor_0_r; lia|].
  apply Z.log2_lt_pow2; [lia|]. rewrite Z.log2_lor by lia. apply Z.max_lub_lt; apply Z.log2_lt_pow2; lia.
Qed.

(** ** JSON: where the reader may be *)

(** A [\u] with fewer than four octets behind it in the buffer. *)
Definition unfinished (l : bytes) : Prop := exists a e, l = a ++ 92 :: 117 :: e /\ (length e < 4)%nat.

(** A place in the buffer [l0] with the terminator ahead. *)
Record place (l0 l : bytes) : Prop := {
  pl_suffix : l `suffix_of` l0;
  pl_end : In 0 l;
  pl_bytes : bytes_ok l;
}.

Lemma place_unfinished l0 l : l `suffix_of` l0 -> unfinished l -> unfinished l0.
Proof. intros [b ->] (a & e & -> & Hl). exists (b ++ a), e. by rewrite <- app_assoc. Qed.

Lemma place_step l0 c l : place l0 (c :: l) -> c <> 0 -> place l0 l.
Proof.
  intros [Hs [He|He] Hb] Hc; [done|]. split; [|done|by apply list.Forall_cons in Hb as [_ ?]].
  etransitivity; [|exact Hs]. by exists [c].
Qed.

Lemma place_cons l0 l : place l0 l -> exists c l', l = c :: l'.
Proof. intros [_ He _]. destruct l as [|c l]; [done|by exists c, l]. Qed.

Section Json.
Context (l0 : bytes).
Abbreviation mwp' m Q := (mwp m Q statuses (unfinished l0)).

Lemma peek_safe l (Q : Z -> Prop) : place l0 l -> (forall c l', l = c :: l' -> Q c) -> mwp' (peek l) Q.
Proof. intros Hp HQ. destruct (place_cons _ _ Hp) as (c & l' & ->). apply mwp_done. by eapply HQ. Qed.

Lemma skip_ws_safe l : place l0 l -> mwp' (json_skip_ws l) (fun l' => place l0 l' /\ l' `suffix_of` l).
Proof.
  induction l as [|c l IH]; intros Hp; [by destruct Hp|]. cbn [json_skip_ws]. destruct (negb (c =? 0) && isspace c) eqn:E; bool_hyps.
  - eapply mwp_mono; [by apply IH, (place_step _ c)|]. intros l' [? Hs]. split; [done|]. etransitivity; [done|]. by exists [c].
  - by apply mwp_done.
Qed.

Lemma len_suffix (l l' : bytes) : l' `suffix_of` l -> len l' <= len l.
Proof. intros [b ->]. rewrite len_app. pose proof (len_nonneg b). lia. Qed.

(** Past a character other than the terminator. *)
Lemma next_place c l : place l0 (c :: l) -> c <> 0 -> place l0 (drop 1 (c :: l)) /\ len (drop 1 (c :: l)) = len (c :: l) - 1.
Proof. intros Hp Hc. change (drop 1 (c :: l)) with l. rewrite len_cons. split; [by eapply place_step|lia]. Qed.

Lemma expect_safe l c : place l0 l -> c <> 0 -> mwp' (json_expect l c) (fun l' => place l0 l' /\ len l' <= len l - 1).
Proof.
  intros Hp Hc. unfold json_expect. eapply mwp_bind; [by apply skip_ws_safe|]. intros l1 [Hp1 Hs1]. apply len_suffix in Hs1.
  eapply mwp_bind; [by apply (peek_safe l1 (fun x => exists l', l1 = x :: l')); [done|eauto]|]. intros x [l' ->].
  destruct (x =? c) eqn:E; bool_hyps; [|apply mwp_fail; by left]. subst x. destruct (next_place c l' Hp1 Hc) as [Hn Hl].
  apply mwp_done. split; [done|lia].
Qed.

Lemma hex_range c : (json_hex_value c <? 0) = false -> 0 <= json_hex_value c <= 15 /\ c <> 0.
Proof.
  unfold json_hex_value. intros H. destruct ((48 <=? c) && (c <=? 57)) eqn:E1; [bool_hyps; lia|].
  destruct ((97 <=? c) && (c <=? 102)) eqn:E2; [bool_hyps; lia|]. destruct ((65 <=? c) && (c <=? 70)) eqn:E3; [bool_hyps; lia|done].
Qed.

Lemma small_lor (lead x : Z) (bound : nat) :
  forallb (fun x => (0 <? Z.lor lead x) && (Z.lor lead x <? 256)) (map Z.of_nat (seq 0 bound)) = true ->
  0 <= x < Z.of_nat bound -> char_ok (Z.lor lead x).
Proof. intros H Hx. pose proof (range_check _ _ H x Hx) as Hr. cbn beta in Hr. bool_hyps. done. Qed.

Lemma append_utf8_spec out cap cp :
  0 <= cp < 65536 ->
  let (st, out') := json_append_utf8 out cap cp in
  (st = VAULT_OK /\ exists l, out' = out ++ l /\ Forall char_ok l /\ 1 <= len l <= 3 /\ len out' < cap) \/
  ((st = VAULT_ERR_FORMAT \/ st = VAULT_ERR_SCHEMA) /\ out' = out).
Proof.
  intros Hcp. unfold json_append_utf8. destruct ((cp =? 0) || _ || _) eqn:E; [right; split; [by left|done]|]. bool_hyps.
  assert (Hpos : 0 < cp) by lia.
  assert (Hlow : forall n, char_ok (Z.lor 128 (Z.land (Z.shiftr cp n) 63))).
  { intros n. apply small_lor with (bound := 64%nat); [done|]. change 63 with (Z.ones 6). rewrite Z.land_ones by lia.
    apply Z.mod_pos_bound. lia. }
  assert (Happ : forall l, Forall char_ok l -> 1 <= len l <= 3 ->
    let (st, out') := (if len out + len l >=? cap then (VAULT_ERR_SCHEMA, out) else (VAULT_OK, out ++ l)) in
    (st = VAULT_OK /\ exists l, out' = out ++ l /\ Forall char_ok l /\ 1 <= len l <= 3 /\ len out' < cap) \/
    ((st = VAULT_ERR_FORMAT \/ st = VAULT_ERR_SCHEMA) /\ out' = out)).
  { intros l Hl Hn. destruct (len out + len l >=? cap) eqn:Ec; bool_hyps; [right; split; [by right|done]|].
    left. split; [done|]. exists l. rewrite len_app. split_and!; [done|done|lia|lia|lia]. }
  cbv beta zeta. destruct (cp <=? 127) eqn:E1; bool_hyps.
  { apply (Happ [cp]); [apply list.Forall_singleton; split; lia|by cbn]. }
  destruct (cp <=? 2047) eqn:E2; bool_hyps.
  { apply (Happ [_; _]); [|by cbn]. apply list.Forall_cons; split; [|apply list.Forall_singleton; apply (Hlow 0)].
    apply small_lor with (bound := 32%nat); [done|]. rewrite Z.shiftr_div_pow2 by lia.
    split; [apply Z.div_pos; lia|apply Z.div_lt_upper_bound; lia]. }
  destruct (cp <=? 65535) eqn:E3; bool_hyps; [|lia].
  apply (Happ [_; _; _]); [|by cbn].
  apply list.Forall_cons; split; [|apply list.Forall_cons; split; [apply Hlow|apply list.Forall_singleton; apply (Hlow 0)]].
  apply small_lor with (bound := 16%nat); [done|]. rewrite Z.shiftr_div_pow2 by lia.
  split; [apply Z.div_pos; lia|apply Z.div_lt_upper_bound; lia].
Qed.

Definition string_status (r : Z) : Prop := r = VAULT_OK \/ r = VAULT_ERR_FORMAT \/ r = VAULT_ERR_SCHEMA.

(** What holds when the loop is left. *)
Definition string_end (n : Z) (x : res (Z * bytes * bytes)) : Prop :=
  match x with
  | Ok (r, out, l) => string_status r /\
      (r = VAULT_OK -> place l0 l /\ (exists c l', l = c :: l' /\ (c = 0 \/ c = 34)) /\ Forall char_ok out /\ len out + len l <= n)
  | Err _ => False
  | Fault => unfinished l0
  end.

Lemma string_left r out l n : r = VAULT_ERR_FORMAT \/ r = VAULT_ERR_SCHEMA -> string_end n (Ok (r, out, l)).
Proof. intros Hr. split; [by right|]. intros ->. by destruct Hr. Qed.

Lemma unescape_char c e : unescape c = Some e -> char_ok e.
Proof.
  unfold unescape. intros H. destruct ((c =? 34) || (c =? 92) || (c =? 47)) eqn:E.
  - injection H as <-. rewrite !orb_true_iff, !Z.eqb_eq in E. unfold char_ok. lia.
  - clear E. repeat (destruct (c =? _); [injection H as <-; unfold char_ok; lia|]). done.
Qed.

Lemma string_loop_spec max n l out r :
  (length l < n)%nat -> place l0 l -> Forall char_ok out -> string_status r ->
  string_end (len out + len l) (string_loop max l out r).
Proof.
  revert l out r. induction n as [|n IH]; intros l out r Hn Hp Ho Hr; [lia|].
  destruct (place_cons _ _ Hp) as (c & l1 & ->). cbn [string_loop].
  destruct ((c =? 0) || (c =? 34)) eqn:E0.
  { split; [done|]. intros _. split_and!; [done| |done|lia]. exists c, l1. split; [done|]. rewrite orb_true_iff, !Z.eqb_eq in E0. done. }
  bool_hyps. destruct (c <? 32) eqn:E1; [apply string_left; by left|]. bool_hyps. rewrite len_cons in *. cbn [length] in Hn.
  assert (Hp1 : place l0 l1) by (by eapply place_step).
  assert (Hstore : forall (c : Z) rest, char_ok c -> place l0 rest -> (length rest < n)%nat -> len rest <= len l1 ->
    string_end (len out + (1 + len l1)) (if len out >=? max then Ok (VAULT_ERR_SCHEMA, out, rest) else string_loop max rest (out ++ [c]) r)).
  { intros c' rest Hc' Hrest Hlen Hle. destruct (_ >=? max); [apply string_left; by right|].
    specialize (IH rest (out ++ [c']) r Hlen Hrest ltac:(apply Forall_app; split; [done|by apply list.Forall_singleton]) Hr).
    destruct (string_loop max rest (out ++ [c']) r) as [[[r' out'] l']|e|]; [|done|done]. destruct IH as [H1 H2]. split; [done|].
    intros Hok. destruct (H2 Hok) as (? & ? & ? & Hl). split_and!; [done|done|done|]. rewrite len_app, len_cons, len_nil in Hl. lia. }
  assert (Hc : char_ok c).
  { split; [lia|]. destruct Hp as [_ _ Hb]. apply list.Forall_cons in Hb as [[_ ?] _]. done. }
  destruct (c =? 92) eqn:E2; bool_hyps; [|apply Hstore; [done|done|lia|lia]].
  destruct (place_cons _ _ Hp1) as (e & l2 & ->). rewrite len_cons in *. cbn [length] in Hn.
  destruct (e =? 117) eqn:E3; bool_hyps.
  - assert (Hp2 : place l0 l2) by (eapply place_step; [done|lia]). subst c e.
    destruct l2 as [|c0 [|c1 [|c2 [|c3 rest]]]];
      [eapply place_unfinished; [exact (pl_suffix _ _ Hp)|]; eexists [], _; split; [done|cbn; lia] ..|].
    destruct (_ || _ || _ || _) eqn:Eh; [apply string_left; by left|]. cbv zeta.
    repeat match type of Eh with (_ || _ = false) => apply orb_false_iff in Eh as [Eh ?] end.
    destruct (hex_range c0 Eh) as [R0 N0]. destruct (hex_range c1 ltac:(done)) as [R1 N1].
    destruct (hex_range c2 ltac:(done)) as [R2 N2]. destruct (hex_range c3 ltac:(done)) as [R3 N3].
    set (cp := Z.lor _ (json_hex_value c3)).
    assert (Hcp : 0 <= cp < 65536).
    { unfold cp. change 65536 with (2 ^ 16). rewrite !Z.shiftl_mul_pow2 by lia. repeat apply lor_below; lia. }
    pose proof (append_utf8_spec out (max + 1) cp Hcp) as Ha. destruct (json_append_utf8 out (max + 1) cp) as [st out'].
    assert (Hrest : place l0 rest).
    { eapply place_step; [eapply place_step; [eapply place_step; [eapply place_step; [exact Hp2|done]|done]|done]|done]. }
    cbn [length] in Hn. rewrite !len_cons in *.
    assert (Hend : forall out1 r1, Forall char_ok out1 -> string_status r1 -> len out1 <= len out + 3 ->
      string_end (len out + (1 + (1 + (1 + (1 + (1 + (1 + len rest))))))) (string_loop max rest out1 r1)).
    { intros out1 r1 Hc1 Hs1 Hl1. specialize (IH rest out1 r1 ltac:(lia) Hrest Hc1 Hs1).
      destruct (string_loop max rest out1 r1) as [[[r' out2] l']|e|]; [|done|done]. destruct IH as [? Hi]. split; [done|].
      intros Hok. destruct (Hi Hok) as (? & ? & ? & ?). split_and!; [done|done|done|lia]. }
    destruct Ha as [[-> (l & -> & Hl & Hll & _)]|[Hst ->]].
    + apply Hend; [by apply Forall_app|by left|rewrite len_app; lia].
    + apply Hend; [done|by right|lia].
  - destruct (Z.eq_dec e 0) as [->|He]; [by apply string_left; left|]. assert (Hp2 : place l0 l2) by (by eapply place_step).
    destruct (unescape e) as [e'|] eqn:Eu; [|apply string_left; by left]. apply unescape_char in Eu.
    destruct (negb (r =? VAULT_OK)) eqn:Er; bool_hyps; [apply string_left; by destruct Hr|].
    apply Hstore; [done|done|lia|lia].
Qed.

Lemma parse_string_safe l max :
  place l0 l ->
  mwp' (json_parse_string l max) (fun r => place l0 r.2 /\ Forall char_ok r.1 /\ len r.1 + len r.2 + 2 <= len l).
Proof.
  intros Hp. unfold json_parse_string. eapply mwp_bind; [by apply (peek_safe l (fun x => exists l', l = x :: l')); [done|eauto]|].
  intros c [l' ->]. destruct (c =? 34) eqn:Ec; bool_hyps; [|apply mwp_fail; by left]. subst c. cbn [negb].
  apply (mwp_bind _ _ (fun _ => True)); [apply mwp_allocate; [by right; right|done]|]. intros _ _.
  destruct (next_place 34 l' Hp ltac:(done)) as [Hp' Hl']. change (drop 1 (34 :: l')) with l' in *.
  pose proof (string_loop_spec max (S (length l')) l' [] VAULT_OK ltac:(lia) Hp' (Forall_nil_2 _) ltac:(by left)) as Hs.
  change (len [] + len l') with (len l') in Hs.
  apply (mwp_bind _ _ (fun x => string_end (len l') (Ok x))).
  { apply mwp_res. destruct (string_loop max l' [] VAULT_OK) as [x|e|]; done. }
  intros [[r out] l] [Hr Hok]. destruct (negb (r =? VAULT_OK)) eqn:Er; bool_hyps.
  { apply mwp_fail. destruct Hr as [?|[->| ->]]; [done|by left|by right; left]. }
  destruct (Hok Er) as (Hpl & (c & l'' & -> & Hc) & Ho & Hlen).
  eapply mwp_bind; [by apply (peek_safe _ (fun x => x = c)); [done|intros ? ? [=]]|]. intros ? ->.
  destruct (c =? 34) eqn:Ec; bool_hyps; [|apply mwp_fail; by left]. subst c.
  destruct (next_place 34 l'' Hpl ltac:(done)) as [Hn Hln]. apply mwp_done. cbn [fst snd]. rewrite len_cons in *.
  split_and!; [done|done|]. rewrite Hln. lia.
Qed.

(** The reader has gone on from [l] with the records [rs] to [l'] with the records [rs']. *)
Definition advanced (l l' : bytes) (rs rs' : records_t) : Prop :=
  place l0 l' /\ records_ok rs' /\ (length (records rs) < length (records rs'))%nat /\ len l' < len l /\
  costs (records rs') + len l' <= costs (records rs) + len l.

Lemma add_step rs app_id key value (Q : records_t -> Prop) :
  records_ok rs -> Forall char_ok value ->
  (forall rs', records_ok rs' -> length (records rs') = S (length (records rs)) ->
     costs (records rs') = costs (records rs) + (len key + len value + 2) -> Q rs') ->
  mwp' (records_add rs app_id key value) Q.
Proof.
  intros Hrs Hv HQ. eapply mwp_mono; [by apply records_add_safe|]. intros rs' [E Hok]. apply HQ; [done| |].
  - rewrite E, length_app. cbn. lia.
  - rewrite E, costs_app. cbn [costs foldr]. unfold cost. cbn [r_key r_value]. lia.
Qed.

Lemma peek_step l : place l0 l -> mwp' (peek l) (fun c => exists l', l = c :: l').
Proof. intros Hp. apply peek_safe; [done|eauto]. Qed.

Ltac reader lem := eapply mwp_bind; [by apply lem|].

Lemma shorter (l l' : bytes) fuel : len l' <= len l - 1 -> (length l <= S fuel)%nat -> (length l' <= fuel)%nat.
Proof. unfold len. lia. Qed.

Lemma secrets_loop_safe fuel l app_id rs :
  (length l <= fuel)%nat -> place l0 l -> records_ok rs ->
  mwp' (secrets_loop fuel l app_id rs) (fun x => advanced l x.1 rs x.2).
Proof.
  revert l rs. induction fuel as [|fuel IH]; intros l rs Hf Hp Hrs; [destruct (place_cons _ _ Hp) as (c & l' & ->); cbn in Hf; lia|].
  cbn [secrets_loop]. reader skip_ws_safe. intros l1 [Hp1 Hs1]. apply len_suffix in Hs1.
  reader parse_string_safe. intros [key l2] (Hp2 & _ & Hl2). cbn [fst snd] in *.
  reader expect_safe. intros l3 [Hp3 Hl3]. reader skip_ws_safe. intros l4 [Hp4 Hs4]. apply len_suffix in Hs4.
  reader parse_string_safe. intros [value l5] (Hp5 & Hv & Hl5). cbn [fst snd] in *. pose proof (len_nonneg key). pose proof (len_nonneg value).
  eapply mwp_bind; [apply (add_step rs (Some app_id) key value (fun rs' => records_ok rs' /\ length (records rs') = S (length (records rs)) /\
    costs (records rs') = costs (records rs) + (len key + len value + 2))); done|]. intros rs1 (Hok1 & Hn1 & Hc1).
  reader skip_ws_safe. intros l6 [Hp6 Hs6]. apply len_suffix in Hs6. reader peek_step. intros c [l7 ->].
  destruct (c =? 125) eqn:Ec; bool_hyps.
  - subst c. destruct (next_place 125 l7 Hp6 ltac:(done)) as [Hp7 Hl7]. apply mwp_done. cbn [fst snd].
    split_and!; [done|done|lia|lia|lia].
  - reader expect_safe. intros l8 [Hp8 Hl8]. eapply mwp_mono; [apply IH; [apply (shorter l); [lia|done]|done|done]|].
    intros [l9 rs9] (Hp9 & Hok9 & Hn9 & Hlt9 & Hc9). cbn [fst snd] in *. split_and!; [done|done|lia|lia|lia].
Qed.

Lemma secret_object_safe l app_id rs :
  place l0 l -> records_ok rs ->
  mwp' (parse_json_secret_object l app_id rs) (fun x => advanced l x.1 rs x.2).
Proof.
  intros Hp Hrs. unfold parse_json_secret_object. reader expect_safe. intros l1 [Hp1 Hl1].
  reader skip_ws_safe. intros l2 [Hp2 Hs2]. apply len_suffix in Hs2. reader peek_step. intros c [l3 ->].
  destruct (c =? 125); [apply mwp_fail; by right; left|]. eapply mwp_mono; [by apply secrets_loop_safe|].
  intros x (? & ? & ? & ? & ?). split_and!; [done|done|lia|lia|lia].
Qed.

Lemma outer_loop_safe fuel l rs :
  (length l <= fuel)%nat -> place l0 l -> records_ok rs ->
  mwp' (outer_loop fuel l rs) (fun rs' => records_ok rs' /\ records rs' <> [] /\ costs (records rs') <= costs (records rs) + len l).
Proof.
  revert l rs. induction fuel as [|fuel IH]; intros l rs Hf Hp Hrs; [destruct (place_cons _ _ Hp) as (c & l' & ->); cbn in Hf; lia|].
  cbn [outer_loop]. reader skip_ws_safe. intros l1 [Hp1 Hs1]. apply len_suffix in Hs1.
  reader parse_string_safe. intros [key l2] (Hp2 & _ & Hl2). cbn [fst snd] in *. pose proof (len_nonneg key).
  reader expect_safe. intros l3 [Hp3 Hl3]. reader skip_ws_safe. intros l4 [Hp4 Hs4]. apply len_suffix in Hs4.
  reader peek_step. intros c [l5 E5].
  apply (mwp_bind _ _ (fun x => place l0 x.1 /\ records_ok x.2 /\ (length (records rs) < length (records x.2))%nat /\ len x.1 < len l /\
    costs (records x.2) + len x.1 <= costs (records rs) + len l)).
  { destruct (c =? 123).
    - destruct (negb _); [apply mwp_fail; by right; left|]. eapply mwp_mono; [by apply secret_object_safe|].
      intros x (? & ? & ? & ? & ?). split_and!; [done|done|done|lia|lia].
    - destruct (c =? 34); [|apply mwp_fail; by left]. reader parse_string_safe. intros [value l6] (Hp6 & Hv & Hl6). cbn [fst snd] in *. pose proof (len_nonneg value).
      eapply mwp_bind; [apply (add_step rs None key value (fun rs' => records_ok rs' /\ length (records rs') = S (length (records rs)) /\
        costs (records rs') = costs (records rs) + (len key + len value + 2))); done|]. intros rs1 (Hok1 & Hn1 & Hc1).
      apply mwp_done. cbn [fst snd]. split_and!; [done|done|lia|lia|lia]. }
  clear c l5 E5. intros [l5 rs1] (Hp5 & Hok5 & Hn5 & Hlt5 & Hc5). cbn [fst snd] in *.
  reader skip_ws_safe. intros l6 [Hp6 Hs6]. apply len_suffix in Hs6. reader peek_step. intros c [l7 ->]. pose proof (len_nonneg l7).
  rewrite len_cons in *. destruct (c =? 125) eqn:Ec; bool_hyps.
  - subst c. destruct (next_place 125 l7 Hp6 ltac:(done)) as [Hp7 Hl7]. reader skip_ws_safe. intros l8 [Hp8 _].
    reader peek_step. intros c _. destruct (c =? 0); [|apply mwp_fail; by left]. apply mwp_done.
    split_and!; [done|intros E; rewrite E in Hn5; cbn in Hn5; lia|lia].
  - reader expect_safe. intros l8 [Hp8 Hl8]. rewrite len_cons in *.
    eapply mwp_mono; [apply IH; [apply (shorter l); [lia|done]|done|done]|]. intros rs9 (Hok9 & Hn9 & Hc9). split_and!; [done|done|lia].
Qed.

Lemma parse_json_safe l :
  place l0 l ->
  mwp' (parse_json_records l no_records) (fun rs => records_ok rs /\ records rs <> [] /\ costs (records rs) <= len l).
Proof.
  intros Hp. unfold parse_json_records. reader expect_safe. intros l1 [Hp1 Hl1].
  reader skip_ws_safe. intros l2 [Hp2 Hs2]. apply len_suffix in Hs2. reader peek_step. intros c [l3 ->].
  destruct (c =? 125); [apply mwp_fail; by right; left|]. eapply mwp_mono; [apply outer_loop_safe; [done|done|by apply Forall_nil_2]|].
  intros x (? & ? & Hc). cbn [records no_records costs foldr] in Hc. split_and!; [done|done|lia].
Qed.
End Json.

(** ** The buffer *)

Lemma cstr_chars b : bytes_ok b -> Forall char_ok (cstr b).
Proof.
  induction b as [|c b IH]; intros Hb; [apply Forall_nil_2|]. apply list.Forall_cons in Hb as [Hc Hb]. cbn [cstr].
  destruct (c =? 0) eqn:E; bool_hyps; [apply Forall_nil_2|]. apply list.Forall_cons. split; [|by apply IH]. unfold char_ok. unfold byte_ok in Hc. lia.
Qed.

Lemma cstr_of_text text rest : Forall char_ok text -> cstr (text ++ 0 :: rest) = text.
Proof. intros Ht. apply cstr_terminated. eapply list.Forall_impl; [exact Ht|]. unfold char_ok. lia. Qed.

Lemma cstr_split b : In 0 b -> exists rest, b = cstr b ++ 0 :: rest.
Proof.
  induction b as [|c b IH]; intros Hi; [done|]. cbn [cstr]. destruct (c =? 0) eqn:E; bool_hyps; [subst; by exists b|].
  destruct Hi as [->|Hi]; [done|]. destruct (IH Hi) as [rest Hr]. exists rest. cbn. by f_equal.
Qed.

Lemma trimmed_place pt :
  bytes_ok pt -> In 0 pt ->
  place (trimmed pt) (trimmed pt) /\ Forall char_ok (cstr (trimmed pt)) /\ len (trimmed pt) <= len pt /\
  len (cstr (trimmed pt)) + 1 <= len (trimmed pt).
Proof.
  intros Hb Hi. pose proof (cstr_chars pt Hb) as Hc. pose proof (trim_chars _ Hc) as Ht. destruct (cstr_split pt Hi) as [rest Hr].
  unfold trimmed. cbv zeta. set (text := trim_ascii (cstr pt)) in *. rewrite cstr_of_text by done.
  destruct (skip_space_suffix (cstr pt)) as [a Ha]. destruct (drop_space_prefix (skip_space (cstr pt))) as [b Hbb].
  assert (Hle : len (cstr pt) - len (skip_space (cstr pt)) = len a) by (rewrite Ha at 1; rewrite len_app; lia).
  rewrite Hle. pose proof (len_nonneg a). pose proof (len_nonneg text). pose proof (len_nonneg b). pose proof (len_nonneg rest).
  assert (Hpt : len pt = len a + len text + len b + 1 + len rest).
  { apply (f_equal len) in Hr, Ha, Hbb. rewrite ?len_app, ?len_cons in *. unfold text, trim_ascii. lia. }
  assert (Hd : len (drop (Z.to_nat (len a + len text + 1)) pt) = len pt - (len a + len text + 1)) by (rewrite len_drop; lia).
  split_and!; [|done|rewrite len_app, len_cons; lia|rewrite len_app, len_cons; pose proof (len_nonneg (drop (Z.to_nat (len a + len text + 1)) pt)); lia].
  split; [done|apply in_or_app; right; by left|]. apply Forall_app. split.
  - eapply list.Forall_impl; [exact Ht|]. unfold char_ok, byte_ok. lia.
  - apply list.Forall_cons. split; [unfold byte_ok; lia|]. by apply Forall_drop.
Qed.

Lemma parse_records_safe pt :
  bytes_ok pt -> In 0 pt ->
  mwp (parse_records pt) (fun rs => records_ok rs /\ records rs <> [] /\ costs (records rs) <= len pt) statuses (unfinished (trimmed pt)).
Proof.
  intros Hb Hi. destruct (trimmed_place pt Hb Hi) as (Hp & Hc & Hl & Hl'). unfold parse_records. cbv zeta. destruct (_ =? 123).
  - eapply mwp_mono; [by apply parse_json_safe|]. intros rs (? & ? & ?). split_and!; [done|done|lia].
  - eapply mwp_mono; [by apply parse_line_safe|]. intros rs (? & ? & ?). split_and!; [done|done|lia].
Qed.

(** ** Writing JSON *)

Definition hex_digit (n : Z) : Z := if n <=? 9 then 48 + n else 87 + n.

(** A character of a string. *)
Definition escape (c : Z) : bytes :=
  if c <? 32 then [92; 117; 48; 48; hex_digit (c / 16); hex_digit (c mod 16)]
  else if (c =? 34) || (c =? 92) then [92; c]
  else [c].

Definition print_string (s : bytes) : bytes := 34 :: concat (map escape s) ++ [34].

(** What stands at the top: the secrets of an application, or a secret of none. *)
Inductive entry :=
  | AppSecrets (app_id : bytes) (secrets : list (bytes * bytes))
  | Secret (key value : bytes).

Definition print_secret (s : bytes * bytes) : bytes := print_string s.1 ++ [58] ++ print_string s.2.

(** Items with commas between them. *)
Fixpoint commas (items : list bytes) : bytes :=
  match items with
  | [] => []
  | [i] => i
  | i :: items => i ++ 44 :: commas items
  end.

Definition print_secrets (l : list (bytes * bytes)) : bytes := 123 :: commas (map print_secret l) ++ [125].

Definition print_entry (e : entry) : bytes :=
  match e with
  | AppSecrets app_id secrets => print_string app_id ++ [58] ++ print_secrets secrets
  | Secret key value => print_secret (key, value)
  end.

Definition print_json (es : list entry) : bytes := 123 :: commas (map print_entry es) ++ [125].

Definition entry_records (e : entry) : list record :=
  match e with
  | AppSecrets app_id secrets => map (fun s => mk_record (Some app_id) s.1 s.2) secrets
  | Secret key value => [mk_record None key value]
  end.

Definition secret_ok (s : bytes * bytes) : Prop :=
  is_valid_secret_key (Some s.1) = true /\ Forall char_ok s.2 /\ len s.2 <= VAULT_MAX_BLOB_LEN.

Definition entry_ok (e : entry) : Prop :=
  match e with
  | AppSecrets app_id secrets => is_valid_app_id (Some app_id) = true /\ secrets <> [] /\ Forall secret_ok secrets
  | Secret key value => secret_ok (key, value)
  end.

(** ** Reading it back *)

(** The four digits of a control character. *)
Lemma hex_back c : 0 <= c < 32 ->
  let h2 := json_hex_value (hex_digit (c / 16)) in
  let h3 := json_hex_value (hex_digit (c mod 16)) in
  (h2 <? 0) = false /\ (h3 <? 0) = false /\
  Z.lor (Z.lor (Z.lor (Z.shiftl 0 12) (Z.shiftl 0 8)) (Z.shiftl h2 4)) h3 = c.
Proof.
  intros Hc. pose proof (range_check 32 (fun c =>
    let h2 := json_hex_value (hex_digit (c / 16)) in let h3 := json_hex_value (hex_digit (c mod 16)) in
    negb (h2 <? 0) && negb (h3 <? 0) && (Z.lor (Z.lor (Z.lor (Z.shiftl 0 12) (Z.shiftl 0 8)) (Z.shiftl h2 4)) h3 =? c))
    ltac:(vm_compute; reflexivity) c Hc) as H. cbv beta zeta in H. apply andb_true_iff in H as [[H2 H3]%andb_true_iff H].
  apply negb_true_iff in H2, H3. apply Z.eqb_eq in H. done.
Qed.

Lemma append_ascii out max c : 0 < c <= 127 -> len out < max -> json_append_utf8 out (max + 1) c = (VAULT_OK, out ++ [c]).
Proof.
  intros Hc Ho. unfold json_append_utf8. replace ((c =? 0) || (c >? 1114111) || ((c >=? 55296) && (c <=? 57343))) with false by (clear -Hc; lia).
  cbv beta zeta. replace (c <=? 127) with true by (clear -Hc; lia). change (len [c]) with 1.
  replace (len out + 1 >=? max + 1) with false by (clear -Ho; lia). done.
Qed.

Lemma read_escape max c rest out :
  char_ok c -> len out < max ->
  string_loop max (escape c ++ rest) out VAULT_OK = string_loop max rest (out ++ [c]) VAULT_OK.
Proof.
  intros [Hc Hc'] Ho. unfold escape. destruct (c <? 32) eqn:E; bool_hyps.
  - destruct (hex_back c ltac:(lia)) as (H2 & H3 & Hv). cbn [app string_loop]. cbv beta iota zeta.
    change (json_hex_value 48) with 0. change ((92 =? 0) || (92 =? 34)) with false. change (92 <? 32) with false.
    change (92 =? 92) with true. change (117 =? 117) with true. cbv iota. change (0 <? 0) with false.
    rewrite H2, H3, Hv. cbn [orb]. by rewrite append_ascii by lia.
  - destruct ((c =? 34) || (c =? 92)) eqn:Eq.
    + cbn [app string_loop]. change ((92 =? 0) || (92 =? 34)) with false. change (92 <? 32) with false. change (92 =? 92) with true. cbv iota.
      rewrite orb_true_iff, !Z.eqb_eq in Eq. replace (c =? 117) with false by (clear -Eq; lia).
      assert (unescape c = Some c) as -> by (by destruct Eq as [->| ->]). cbn [negb]. change (negb (VAULT_OK =? VAULT_OK)) with false. cbv iota.
      by replace (len out >=? max) with false by (clear -Ho; lia).
    + rewrite orb_false_iff, !Z.eqb_neq in Eq. cbn [app string_loop]. replace ((c =? 0) || (c =? 34)) with false by (clear -Hc Eq; lia).
      replace (c <? 32) with false by lia. replace (c =? 92) with false by lia.
      by replace (len out >=? max) with false by (clear -Ho; lia).
Qed.

Lemma read_escapes max s rest out :
  Forall char_ok s -> len out + len s <= max ->
  string_loop max (concat (map escape s) ++ 34 :: rest) out VAULT_OK = Ok (VAULT_OK, out ++ s, 34 :: rest).
Proof.
  revert out. induction s as [|c s IH]; intros out Hs Hl; [cbn; by rewrite app_nil_r|].
  apply list.Forall_cons in Hs as [Hc Hs]. rewrite len_cons in Hl. pose proof (len_nonneg s). cbn [map concat]. rewrite <- app_assoc.
  rewrite read_escape by (done || lia). rewrite IH; [by rewrite <- app_assoc|done|rewrite len_app, len_cons, len_nil; lia].
Qed.

Lemma exact_res {A} (a : A) r : r = Ok a -> exact (ret r) 0 a.
Proof. intros ->. apply exact_done. Qed.

Lemma exact_string s rest max :
  Forall char_ok s -> len s <= max -> exact (json_parse_string (print_string s ++ rest) max) 1 (s, rest).
Proof.
  intros Hs Hl. unfold json_parse_string, print_string. cbn [app peek]. rewrite <- app_assoc. cbn [app].
  change 1%nat with (0 + (1 + (0 + (0 + 0))))%nat. eapply exact_bind; [apply exact_done|]. change (negb (34 =? 34)) with false. cbv iota.
  eapply exact_bind; [apply exact_allocate|]. cbn [drop].
  eapply exact_bind; [apply exact_res, (read_escapes max s rest []); [done|change (len []) with 0; lia]|]. cbn [app].
  change (negb (VAULT_OK =? VAULT_OK)) with false. cbv iota. eapply exact_bind; [apply exact_done|]. apply exact_done.
Qed.

(** No white space is skipped where there is none. *)
Lemma exact_skip c rest : isspace c = false -> exact (json_skip_ws (c :: rest)) 0 (c :: rest).
Proof. intros Hc. cbn [json_skip_ws]. rewrite Hc, andb_false_r. apply exact_done. Qed.

Lemma exact_expect c rest : isspace c = false -> exact (json_expect (c :: rest) c) 0 rest.
Proof.
  intros Hc. unfold json_expect. change 0%nat with (0 + (0 + 0))%nat. eapply exact_bind; [by apply exact_skip|].
  eapply exact_bind; [apply exact_done|]. rewrite Z.eqb_refl. apply exact_done.
Qed.

Lemma valid_app_chars s : is_valid_app_id (Some s) = true -> Forall char_ok s /\ len s <= VAULT_MAX_APP_ID_LEN.
Proof.
  cbn [is_valid_app_id]. destruct (_ || _) eqn:E; [done|]. bool_hyps. intros Hall. split; [|lia].
  apply Forall_forall. intros c Hc. rewrite forallb_forall in Hall. specialize (Hall c Hc). cbn beta in Hall.
  unfold isalnum, isalpha in Hall. unfold char_ok. lia.
Qed.

Lemma valid_key_chars s : is_valid_secret_key (Some s) = true -> Forall char_ok s /\ len s <= VAULT_MAX_KEY_LEN.
Proof.
  cbn [is_valid_secret_key]. destruct (_ || _) eqn:E; [done|]. bool_hyps. destruct s as [|c s]; [done|].
  change (at_ (c :: s) 0) with c. change (drop 1 (c :: s)) with s. destruct (negb _) eqn:E1; [done|]. bool_hyps. intros Hall. split; [|lia].
  unfold isalnum, isalpha in *. apply list.Forall_cons. split; [unfold char_ok; lia|].
  apply Forall_forall. intros x Hx. rewrite forallb_forall in Hall. specialize (Hall x Hx). cbn beta in Hall.
  unfold char_ok. lia.
Qed.

Definition cap_ok (rs : records_t) : Prop := 0 <= capacity rs <= 2 * len (records rs) + 8.

Definition app_record (app_id : bytes) (s : bytes * bytes) : record := mk_record (Some app_id) s.1 s.2.

Lemma records_add_cap rs app_id key value :
  is_valid_secret_key (Some key) = true -> match app_id with Some a => is_valid_app_id (Some a) = true | None => True end ->
  cap_ok rs -> len (records rs) < 2 ^ 40 ->
  exists rs', cap_ok rs' /\ records rs' = records rs ++ [mk_record app_id key value] /\ exact (records_add rs app_id key value) 4 rs'.
Proof.
  intros Hk Ha [Hc0 Hc] Hn. destruct (records_add_exact rs app_id key value Hk Ha Hc0 Hc Hn) as (cap & Hcap & He).
  eexists. split; [|split; [|exact He]]; [|done]. split; cbn [capacity records]; rewrite ?len_app, ?len_cons, ?len_nil; lia.
Qed.

(** A pair of strings and the record that is made of it. *)
Lemma exact_pair {A} s rest rs rs' app_id (k : bytes -> records_t -> may A) n a :
  secret_ok s -> exact (records_add rs app_id s.1 s.2) 4 rs' -> exact (k rest rs') n a ->
  exact (let+ (key, cursor) := json_parse_string (print_secret s ++ rest) VAULT_MAX_KEY_LEN in
         let+ cursor := json_expect cursor 58 in
         let+ cursor := json_skip_ws cursor in
         let+ (value, cursor) := json_parse_string cursor VAULT_MAX_BLOB_LEN in
         let+ rs := records_add rs app_id key value in k cursor rs) (6 + n) a.
Proof.
  intros (Hk & Hv & Hl) He Hn. destruct (valid_key_chars _ Hk) as [Hkc Hkl]. unfold print_secret. rewrite <- !app_assoc.
  change (6 + n)%nat with (1 + (0 + (0 + (1 + (4 + n)))))%nat.
  eapply exact_bind; [by apply exact_string|]. cbv beta iota. cbn [app]. eapply exact_bind; [by apply exact_expect|].
  eapply exact_bind; [by apply (exact_skip 34)|]. change (34 :: (concat (map escape s.2) ++ [34]) ++ rest) with (print_string s.2 ++ rest).
  eapply exact_bind; [by apply exact_string|]. cbv beta iota. by eapply exact_bind.
Qed.

Lemma exact_secrets fuel secrets rest app_id rs :
  secrets <> [] -> Forall secret_ok secrets -> is_valid_app_id (Some app_id) = true -> (length secrets <= fuel)%nat ->
  cap_ok rs -> len (records rs) + len secrets < 2 ^ 40 ->
  exists rs', cap_ok rs' /\ records rs' = records rs ++ map (app_record app_id) secrets /\
    exact (secrets_loop fuel (commas (map print_secret secrets) ++ 125 :: rest) app_id rs) (6 * length secrets) (rest, rs').
Proof.
  revert fuel rs. induction secrets as [|s secrets IH]; intros fuel rs Hne Hok Happ Hf Hcap Hn; [done|].
  apply list.Forall_cons in Hok as [Hs Hok]. rewrite len_cons in Hn. pose proof (len_nonneg secrets). destruct fuel as [|fuel]; [cbn in Hf; lia|].
  destruct (records_add_cap rs (Some app_id) s.1 s.2 (proj1 Hs) Happ Hcap ltac:(lia)) as (rs1 & Hcap1 & Hr1 & He1).
  assert (Hlen1 : len (records rs1) = len (records rs) + 1) by (rewrite Hr1, len_app, len_cons, len_nil; lia).
  destruct secrets as [|s' secrets].
  - exists rs1. split; [done|]. split; [by rewrite Hr1|]. cbn [map commas secrets_loop].
    change (6 * length [s])%nat with (0 + (6 + (0 + (0 + 0))))%nat.
    eapply exact_bind; [by apply (exact_skip 34)|].
    change (34 :: ((concat (map escape s.1) ++ [34]) ++ 58 :: print_string s.2) ++ 125 :: rest) with (print_secret s ++ 125 :: rest).
    eapply (exact_pair s); [done|exact He1|]. eapply exact_bind; [by apply exact_skip|]. eapply exact_bind; [apply exact_done|].
    change (125 =? 125) with true. cbv iota. apply exact_done.
  - destruct (IH fuel rs1) as (rs' & Hcap' & Hr' & He'); [done|done|done|cbn in *; lia|done|lia|].
    exists rs'. split; [done|]. split; [by rewrite Hr', Hr1, <- app_assoc|]. cbn [map] in *. 
    change (commas (print_secret s :: print_secret s' :: map print_secret secrets)) with
      (print_secret s ++ 44 :: commas (print_secret s' :: map print_secret secrets)). rewrite <- app_assoc. cbn [secrets_loop].
    replace (6 * length (s :: s' :: secrets))%nat with (0 + (6 + (0 + (0 + (0 + 6 * length (s' :: secrets))))))%nat by (cbn [length]; lia).
    eapply exact_bind; [by apply (exact_skip 34)|].
    change (34 :: ((concat (map escape s.1) ++ [34]) ++ 58 :: print_string s.2) ++ ?r) with (print_secret s ++ r).
    eapply (exact_pair s); [done|exact He1|]. cbn [app]. eapply exact_bind; [by apply exact_skip|]. eapply exact_bind; [apply exact_done|].
    change (44 =? 125) with false. cbv iota. eapply exact_bind; [by apply exact_expect|]. exact He'.
Qed.

Lemma commas_cons i j items : commas (i :: j :: items) = i ++ 44 :: commas (j :: items).
Proof. done. Qed.

(** There is an octet at least per item. *)
Lemma commas_length items : Forall (fun i => i <> []) items -> (length items <= length (commas items))%nat.
Proof.
  induction items as [|i items IH]; intros H; [done|]. apply list.Forall_cons in H as [Hi H]. specialize (IH H).
  destruct items as [|j items]; [destruct i; [done|cbn; lia]|]. rewrite commas_cons, length_app. destruct i; [done|]. cbn [length] in *. lia.
Qed.

Lemma secrets_length secrets : (length secrets <= length (commas (map print_secret secrets)))%nat.
Proof.
  rewrite <- (length_map print_secret secrets) at 1. apply commas_length. apply Forall_map. by apply Forall_true.
Qed.

Lemma exact_object secrets rest app_id rs :
  secrets <> [] -> Forall secret_ok secrets -> is_valid_app_id (Some app_id) = true ->
  cap_ok rs -> len (records rs) + len secrets < 2 ^ 40 ->
  exists rs', cap_ok rs' /\ records rs' = records rs ++ map (app_record app_id) secrets /\
    exact (parse_json_secret_object (print_secrets secrets ++ rest) app_id rs) (6 * length secrets) (rest, rs').
Proof.
  intros Hne Hok Happ Hcap Hn. unfold parse_json_secret_object, print_secrets. cbn [app]. rewrite <- app_assoc. cbn [app].
  destruct (exact_secrets (length (commas (map print_secret secrets) ++ 125 :: rest)) secrets rest app_id rs Hne Hok Happ) as (rs' & ? & ? & He);
    [rewrite length_app; pose proof (secrets_length secrets); lia|done|done|].
  exists rs'. split_and!; [done|done|]. change (6 * length secrets)%nat with (0 + (0 + (0 + 6 * length secrets)))%nat.
  eapply exact_bind; [by apply exact_expect|].
  assert (exists r, commas (map print_secret secrets) ++ 125 :: rest = 34 :: r) as [r Er].
  { destruct secrets as [|s [|s' secrets]]; [done|by eexists|by eexists]. }
  rewrite Er in *. eapply exact_bind; [by apply exact_skip|]. eapply exact_bind; [apply exact_done|].
  change (34 =? 125) with false. cbv iota. exact He.
Qed.

Definition entry_cost (e : entry) : nat := match e with AppSecrets _ secrets => 1 + 6 * length secrets | Secret _ _ => 6 end.

Definition entry_costs (es : list entry) : nat := list_sum (map entry_cost es).

(** One entry and what is read after it. *)
Lemma exact_entry e rest rs :
  entry_ok e -> cap_ok rs -> len (records rs) + len (entry_records e) < 2 ^ 40 ->
  exists rs', cap_ok rs' /\ records rs' = records rs ++ entry_records e /\
  forall A (k : bytes -> records_t -> may A) n a, exact (k rest rs') n a ->
  exact (let+ (outer_key, cursor) := json_parse_string (print_entry e ++ rest) VAULT_MAX_APP_ID_LEN in
         let+ cursor := json_expect cursor 58 in
         let+ cursor := json_skip_ws cursor in
         let+ c := peek cursor in
         let+ (cursor, rs) :=
           if c =? 123 then
             if negb (is_valid_app_id (Some outer_key)) then fail VAULT_ERR_SCHEMA
             else parse_json_secret_object cursor outer_key rs
           else if c =? 34 then
             let+ (value, cursor) := json_parse_string cursor VAULT_MAX_BLOB_LEN in
             let+ rs := records_add rs None outer_key value in
             done_ (cursor, rs)
           else fail VAULT_ERR_FORMAT in k cursor rs) (entry_cost e + n) a.
Proof.
  intros He Hcap Hn. destruct e as [app_id secrets|key value]; cbn [print_entry entry_cost entry_ok entry_records] in *.
  - destruct He as (Happ & Hne & Hok). destruct (valid_app_chars _ Happ) as [Hc Hl]. rewrite <- !app_assoc.
    destruct (exact_object secrets rest app_id rs Hne Hok Happ Hcap) as (rs' & Hcap' & Hr' & He'); [unfold len in *; rewrite length_map in Hn; lia|].
    exists rs'. split_and!; [done|done|]. intros A k n a Hk.
    replace (1 + 6 * length secrets + n)%nat with (1 + (0 + (0 + (0 + (6 * length secrets + n)))))%nat by lia.
    eapply exact_bind; [by apply exact_string|]. cbv beta iota. cbn [app]. eapply exact_bind; [by apply exact_expect|].
    eapply exact_bind; [by apply (exact_skip 123)|]. eapply exact_bind; [apply exact_done|]. change (123 =? 123) with true. cbv iota.
    rewrite Happ. cbn [negb]. eapply exact_bind; [exact He'|]. by apply Hk.
  - destruct (records_add_cap rs None key value (proj1 He) I Hcap) as (rs' & Hcap' & Hr' & He').
    { change (len [mk_record None key value]) with 1 in Hn. lia. }
    destruct He as (Hkey & Hv & Hl). destruct (valid_key_chars _ Hkey) as [Hkc Hkl]. unfold print_secret. cbn [fst snd] in *. rewrite <- !app_assoc.
    exists rs'. split_and!; [done|done|]. intros A k n a Hk. change (6 + n)%nat with (1 + (0 + (0 + (0 + ((1 + (4 + 0)) + n)))))%nat.
    eapply exact_bind; [by apply exact_string|]. cbv beta iota. cbn [app]. eapply exact_bind; [by apply exact_expect|].
    eapply exact_bind; [by apply (exact_skip 34)|]. eapply exact_bind; [apply exact_done|]. change (34 =? 123) with false. change (34 =? 34) with true. cbv iota.
    eapply (exact_bind _ _ _ _ (rest, rs')); [|by apply Hk]. change (34 :: (concat (map escape value) ++ [34]) ++ rest) with (print_string value ++ rest).
    eapply exact_bind; [by apply exact_string|]. cbv beta iota. eapply exact_bind; [exact He'|]. apply exact_done.
Qed.

Definition all_records (es : list entry) : list record := concat (map entry_records es).

Lemma exact_outer fuel es tail rs :
  es <> [] -> Forall entry_ok es -> (length es <= fuel)%nat -> cap_ok rs -> len (records rs) + len (all_records es) < 2 ^ 40 ->
  exists rs', records rs' = records rs ++ all_records es /\
    exact (outer_loop fuel (commas (map print_entry es) ++ 125 :: 0 :: tail) rs) (entry_costs es) rs'.
Proof.
  revert fuel rs. induction es as [|e es IH]; intros fuel rs Hne Hok Hf Hcap Hn; [done|].
  apply list.Forall_cons in Hok as [He Hok]. unfold all_records in *. cbn [map concat] in *. rewrite len_app in Hn.
  pose proof (len_nonneg (concat (map entry_records es))). destruct fuel as [|fuel]; [cbn in Hf; lia|].
  assert (Hhead : forall r, exists r', print_entry e ++ r = 34 :: r') by (intros r; destruct e; by eexists).
  cbn [outer_loop]. unfold entry_costs. cbn [map list_sum fold_right].
  destruct (exact_entry e (match es with [] => 125 :: 0 :: tail | _ => 44 :: commas (map print_entry es) ++ 125 :: 0 :: tail end) rs He Hcap ltac:(lia))
    as (rs1 & Hcap1 & Hr1 & Hk1).
  assert (Hlen1 : len (records rs1) = len (records rs) + len (entry_records e)) by (rewrite Hr1, len_app; done).
  destruct es as [|e' es].
  - exists rs1. split; [by rewrite Hr1; cbn; rewrite app_nil_r|]. cbn [commas map]. rewrite Nat.add_0_r. change (entry_cost e) with (0 + entry_cost e)%nat.
    destruct (Hhead (125 :: 0 :: tail)) as [r Er]. eapply exact_bind; [rewrite Er; by apply exact_skip|]. rewrite <- Er.
    rewrite <- (Nat.add_0_r (entry_cost e)). apply Hk1. change 0%nat with (0 + (0 + (0 + (0 + 0))))%nat.
    eapply exact_bind; [by apply exact_skip|]. eapply exact_bind; [apply exact_done|]. change (125 =? 125) with true. cbv iota. cbn [drop].
    eapply exact_bind; [by apply exact_skip|]. eapply exact_bind; [apply exact_done|]. apply exact_done.
  - destruct (IH fuel rs1) as (rs' & Hr' & He'); [done|done|cbn in *; lia|done|lia|].
    exists rs'. split; [by rewrite Hr', Hr1, <- app_assoc|]. cbn [map] in *. rewrite commas_cons, <- app_assoc. cbn [app].
    destruct (Hhead (44 :: commas (print_entry e' :: map print_entry es) ++ 125 :: 0 :: tail)) as [r Er].
    match goal with |- exact _ ?n _ => change n with (0 + n)%nat end.
    eapply exact_bind; [rewrite Er; by apply exact_skip|]. rewrite <- Er.
    apply Hk1. match goal with |- exact _ ?n _ => change n with (0 + (0 + (0 + n)))%nat end.
    eapply exact_bind; [by apply exact_skip|]. eapply exact_bind; [apply exact_done|]. change (44 =? 125) with false. cbv iota.
    eapply exact_bind; [by apply exact_expect|]. exact He'.
Qed.

Lemma entries_length es : (length es <= length (commas (map print_entry es)))%nat.
Proof.
  rewrite <- (length_map print_entry es) at 1. apply commas_length. apply Forall_map. apply Forall_true. by intros [].
Qed.

Lemma print_string_chars s : Forall char_ok s -> Forall char_ok (print_string s).
Proof.
  intros Hs. apply list.Forall_cons. split; [by unfold char_ok|]. apply Forall_app. split; [|apply list.Forall_singleton; by unfold char_ok].
  induction Hs as [|c s Hc Hs IH]; [apply Forall_nil_2|]. cbn [map concat]. apply Forall_app. split; [|done].
  unfold escape. destruct (c <? 32) eqn:E; bool_hyps.
  - assert (Hh : forall n, 0 <= n < 16 -> char_ok (hex_digit n)) by (intros n Hn; unfold hex_digit, char_ok; destruct (n <=? 9) eqn:En; bool_hyps; lia).
    repeat (apply list.Forall_cons; split); try apply Forall_nil_2; try (by unfold char_ok); apply Hh.
    + unfold char_ok in Hc. split; [apply Z.div_pos; lia|apply Z.div_lt_upper_bound; lia].
    + apply Z.mod_pos_bound. lia.
  - destruct ((c =? 34) || (c =? 92)); repeat (apply list.Forall_cons; split); try apply Forall_nil_2; done.
Qed.

Lemma commas_chars items : Forall (Forall char_ok) items -> Forall char_ok (commas items).
Proof.
  induction items as [|i items IH]; intros H; [apply Forall_nil_2|]. apply list.Forall_cons in H as [Hi H].
  destruct items; [done|]. rewrite commas_cons. apply Forall_app. split; [done|]. apply list.Forall_cons. split; [by unfold char_ok|by apply IH].
Qed.

Lemma braces_chars items : Forall (Forall char_ok) items -> Forall char_ok (123 :: commas items ++ [125]).
Proof.
  intros H. apply list.Forall_cons. split; [by unfold char_ok|]. apply Forall_app. split; [by apply commas_chars|].
  apply list.Forall_singleton. by unfold char_ok.
Qed.

Lemma print_secret_chars s : secret_ok s -> Forall char_ok (print_secret s).
Proof.
  intros (Hk & Hv & _). apply valid_key_chars in Hk as [Hk _]. unfold print_secret.
  apply Forall_app. split; [by apply print_string_chars|]. apply list.Forall_cons. split; [by unfold char_ok|by apply print_string_chars].
Qed.

Lemma print_json_chars es : Forall entry_ok es -> Forall char_ok (print_json es).
Proof.
  intros Hes. apply braces_chars, Forall_map. eapply list.Forall_impl; [exact Hes|]. intros [app_id secrets|key value] He; cbn [print_entry entry_ok] in *.
  - destruct He as (Ha & _ & Hs). apply valid_app_chars in Ha as [Ha _]. apply Forall_app. split; [by apply print_string_chars|].
    apply list.Forall_cons. split; [by unfold char_ok|]. apply braces_chars, Forall_map. eapply list.Forall_impl; [exact Hs|apply print_secret_chars].
  - by apply print_secret_chars.
Qed.

Lemma drop_space_last text c : isspace c = false -> drop_space (text ++ [c]) = text ++ [c].
Proof.
  intros Hc. induction text as [|x text IH]; cbn [app drop_space]; [by rewrite Hc|]. rewrite IH. by destruct text.
Qed.

Lemma trimmed_json es tail : Forall entry_ok es -> trimmed (print_json es ++ 0 :: tail) = print_json es ++ 0 :: tail.
Proof.
  intros Hes. unfold trimmed. rewrite cstr_of_text by (by apply print_json_chars). cbv zeta. unfold trim_ascii.
  assert (Hsk : skip_space (print_json es) = print_json es) by done. rewrite Hsk.
  assert (Hd : drop_space (print_json es) = print_json es) by (unfold print_json; rewrite app_comm_cons; by apply drop_space_last). rewrite Hd.
  f_equal. f_equal. rewrite Z.sub_diag, Z.add_0_l. unfold len. replace (Z.to_nat (Z.of_nat (length (print_json es)) + 1)) with (length (print_json es) + 1)%nat by lia.
  by rewrite drop_app_add.
Qed.

Lemma exact_json es tail :
  es <> [] -> Forall entry_ok es -> len (all_records es) < 2 ^ 40 ->
  exists rs, records rs = all_records es /\ exact (parse_records (print_json es ++ 0 :: tail)) (entry_costs es) rs.
Proof.
  intros Hne Hok Hn. unfold parse_records. rewrite trimmed_json by done. cbv zeta.
  assert (exists r, print_json es ++ 0 :: tail = 123 :: r /\ r = commas (map print_entry es) ++ 125 :: 0 :: tail) as (r & Er & ->).
  { eexists. split; [|done]. unfold print_json. cbn [app]. by rewrite <- app_assoc. }
  rewrite Er. change (at_ (123 :: ?x) 0) with 123. change (123 =? 123) with true. cbv iota. unfold parse_json_records.
  destruct (exact_outer (length (commas (map print_entry es) ++ 125 :: 0 :: tail)) es tail no_records) as (rs & Hr & He);
    [done|done|rewrite length_app; pose proof (entries_length es); lia|done|change (len (records no_records)) with 0; lia|].
  exists rs. split; [done|]. match goal with |- exact _ ?n _ => change n with (0 + (0 + (0 + n)))%nat end.
  eapply exact_bind; [by apply exact_expect|].
  assert (exists r, commas (map print_entry es) ++ 125 :: 0 :: tail = 34 :: r) as [r Er'].
  { destruct es as [|[] [|e' es]]; [done|by eexists..]. }
  rewrite Er' in *. eapply exact_bind; [by apply exact_skip|]. eapply exact_bind; [apply exact_done|].
  change (34 =? 125) with false. cbv iota. exact He.
Qed.

(** ** What is put in the environment *)

Definition line_of (r : record) : bytes := r_key r ++ [61] ++ r_value r ++ [10].

(** The records an application is given. *)
Definition chosen (app_id : option bytes) (authorized_keys : option (list (option bytes))) (num_authorized : Z)
    (rs : list record) : list record :=
  List.filter (fun r => record_belongs_to_app r app_id && is_authorized_key (r_key r) authorized_keys num_authorized) rs.

Definition env_text (rs : list record) : bytes := concat (map line_of rs).

(** The first lines of [rs], one at least, are exactly [size] octets. *)
Definition fills (rs : list record) (size : Z) : Prop :=
  exists mine rest, rs = mine ++ rest /\ mine <> [] /\ len (env_text mine) = size.

Lemma len_line r : len (line_of r) = cost r.
Proof. unfold line_of, cost. rewrite !len_app, !len_cons, !len_nil. lia. Qed.

Lemma len_env_text rs : len (env_text rs) = costs rs.
Proof.
  induction rs as [|r rs IH]; [done|]. unfold env_text in *. cbn [map concat costs foldr]. rewrite len_app, len_line, IH. done.
Qed.

Lemma cost_pos r : 2 <= cost r.
Proof. unfold cost. pose proof (len_nonneg (r_key r)). pose proof (len_nonneg (r_value r)). lia. Qed.

Lemma costs_nonneg rs : 0 <= costs rs.
Proof. rewrite <- len_env_text. apply len_nonneg. Qed.

Lemma chosen_costs app_id keys n rs : costs (chosen app_id keys n rs) <= costs rs.
Proof.
  induction rs as [|r rs IH]; [done|]. cbn [chosen List.filter]. fold (chosen app_id keys n rs). pose proof (cost_pos r).
  destruct (_ && _); cbn [costs foldr]; fold (costs rs) (costs (chosen app_id keys n rs)); lia.
Qed.

(** A store over what is in the buffer from the terminator on. *)
Lemma store_at pre data post :
  len data <= 1 + len post -> store (len pre) data (pre ++ 0 :: post) = Ok (pre ++ data ++ drop (length data) (0 :: post)).
Proof.
  intros Hl. unfold store. rewrite len_app, len_cons. replace (_ <=? _) with true by lia. f_equal. unfold upd, len.
  rewrite Nat2Z.id, take_app_length. by rewrite drop_app_add.
Qed.

Section Render.
Context (app_id : option bytes) (keys : option (list (option bytes))) (n : Z).

Abbreviation pick rs := (chosen app_id keys n rs).

(** What is left of the buffer behind [data] and its terminator. *)
Definition behind (data post : bytes) : bytes := drop (length data) post.

Lemma behind_step data post :
  len data <= len post -> exists x, drop (length data) (0 :: post) = x :: behind data post.
Proof.
  intros Hl. assert (Hlt : (length data < length (0%Z :: post))%nat) by (unfold len in *; cbn [length]; lia).
  destruct (drop (length data) (0 :: post)) as [|x l] eqn:Ed.
  - apply (f_equal length) in Ed. rewrite length_drop in Ed. cbn [length] in *. lia.
  - exists x. f_equal. unfold behind. transitivity (drop 1 (drop (length data) (0 :: post))); [by rewrite Ed|]. by rewrite drop_drop, Nat.add_comm.
Qed.

Lemma len_behind data post : len data <= len post -> len (behind data post) = len post - len data.
Proof. unfold behind, len. rewrite length_drop. lia. Qed.

Definition picked (r : record) : bool := record_belongs_to_app r app_id && is_authorized_key (r_key r) keys n.

Lemma render_skip r rs offset count buf :
  picked r = false -> render_loop (r :: rs) app_id keys n offset count buf = render_loop rs app_id keys n offset count buf.
Proof. intros Hp. cbn [render_loop]. by replace (negb _ || negb _) with true by (rewrite <- negb_andb; unfold picked in Hp; by rewrite Hp). Qed.

(** The tests of a record that is picked and the store of its line. *)
Lemma render_line r rs pre post count :
  picked r = true -> cost r <= 1 + len post -> len pre + len post < 2 ^ 62 ->
  render_loop (r :: rs) app_id keys n (len pre) count (pre ++ 0 :: post) =
  (let! buf := store (len pre + cost r) [0] (pre ++ line_of r ++ drop (length (line_of r)) (0 :: post)) in
   render_loop rs app_id keys n (len pre + cost r) (count + 1) buf).
Proof.
  intros Hp Hc Hb. cbn [render_loop]. replace (negb _ || negb _) with false by (rewrite <- negb_andb; unfold picked in Hp; by rewrite Hp).
  pose proof (len_nonneg pre). pose proof (len_nonneg (r_key r)). pose proof (len_nonneg (r_value r)).
  change (len (r_key r) + len (r_value r) + 2) with (cost r). assert (Hcost : cost r = len (r_key r) + len (r_value r) + 2) by done.
  replace (_ || _) with false by (symmetry; rewrite len_app, len_cons; unfold SIZE_MAX, UINT64_MAX; lia).
  change (r_key r ++ [61] ++ r_value r ++ [10]) with (line_of r). rewrite store_at by (rewrite len_line; lia). done.
Qed.

Lemma render_step r rs pre post count :
  picked r = true -> cost r <= len post -> len pre + len post < 2 ^ 62 ->
  render_loop (r :: rs) app_id keys n (len pre) count (pre ++ 0 :: post) =
  render_loop rs app_id keys n (len (pre ++ line_of r)) (count + 1) ((pre ++ line_of r) ++ 0 :: behind (line_of r) post).
Proof.
  intros Hp Hc Hb. rewrite render_line by (done || lia). rewrite <- len_line in *.
  destruct (behind_step (line_of r) post Hc) as [x ->]. pose proof (len_behind _ _ Hc).
  unfold store. rewrite !len_app, !len_cons, len_nil. replace (_ <=? _) with true by (pose proof (len_nonneg (behind (line_of r) post)); lia). cbn [rbind].
  rewrite app_assoc, upd_app_at by (rewrite len_app; lia). done.
Qed.

Lemma render_loop_fits rs pre post count :
  costs (pick rs) <= len post -> len pre + len post < 2 ^ 62 ->
  render_loop rs app_id keys n (len pre) count (pre ++ 0 :: post) =
  Ok (VAULT_OK, len pre + costs (pick rs), count + len (pick rs), pre ++ env_text (pick rs) ++ 0 :: behind (env_text (pick rs)) post).
Proof.
  revert pre post count. induction rs as [|r rs IH]; intros pre post count Hc Hb.
  { cbn. by rewrite !Z.add_0_r. }
  cbn [chosen List.filter] in *. fold (pick rs) in *. destruct (picked r) eqn:Ep; unfold picked in Ep; rewrite Ep in *.
  2:{ rewrite render_skip by done. by apply IH. }
  cbn [costs foldr] in *. fold (costs (pick rs)) in *. pose proof (cost_pos r). pose proof (costs_nonneg (pick rs)). pose proof (len_line r).
  rewrite render_step by (done || lia). pose proof (len_behind (line_of r) post ltac:(lia)).
  rewrite IH by (rewrite ?len_app; lia). rewrite len_app, len_cons, len_line. cbn [env_text map concat]. fold (env_text (pick rs)). do 2 f_equal.
  - f_equal; [f_equal; lia|lia].
  - rewrite <- !app_assoc. do 4 f_equal. unfold behind. rewrite drop_drop, length_app. done.
Qed.

(** Lines that fill the buffer to the last octet: the terminator is stored behind it. *)
Lemma render_loop_full rs pre post count :
  pick rs <> [] -> costs (pick rs) = 1 + len post -> len pre + len post < 2 ^ 62 ->
  render_loop rs app_id keys n (len pre) count (pre ++ 0 :: post) = Fault.
Proof.
  revert pre post count. induction rs as [|r rs IH]; intros pre post count Hne Hc Hb; [done|].
  cbn [chosen List.filter] in *. fold (pick rs) in *. destruct (picked r) eqn:Ep; unfold picked in Ep; rewrite Ep in *.
  2:{ rewrite render_skip by done. by apply IH. }
  cbn [costs foldr] in *. fold (costs (pick rs)) in *. pose proof (cost_pos r). pose proof (costs_nonneg (pick rs)). pose proof (len_line r).
  destruct (Z.eq_dec (cost r) (1 + len post)) as [E|E].
  - rewrite render_line by (done || lia). unfold store. rewrite !len_app, len_drop, len_cons, len_cons, len_nil.
    replace (_ <=? _) with false; [done|]. symmetry. unfold len in *. lia.
  - rewrite render_step by (done || lia). pose proof (len_behind (line_of r) post ltac:(lia)).
    apply IH; [|lia|rewrite len_app; lia]. intros Ei. rewrite Ei in Hc. cbn [costs foldr] in Hc. lia.
Qed.

(** Lines that do not all fit, with their terminators: some of the first ones fill the buffer
    to the last octet, and the terminator of the last of these is stored behind it, or the
    buffer is wiped. *)
Lemma render_loop_over rs pre post count :
  1 + len post <= costs (pick rs) -> len pre + len post < 2 ^ 62 ->
  (render_loop rs app_id keys n (len pre) count (pre ++ 0 :: post) = Fault /\ fills (pick rs) (1 + len post)) \/
  exists o c, render_loop rs app_id keys n (len pre) count (pre ++ 0 :: post) = Ok (VAULT_ERR_IO, o, c, zeros (len pre + (1 + len post))).
Proof.
  revert pre post count. induction rs as [|r rs IH]; intros pre post count Hc Hb.
  { exfalso. pose proof (len_nonneg post). change (costs (pick [])) with 0 in Hc. lia. }
  cbn [chosen List.filter] in *. fold (pick rs) in *. destruct (picked r) eqn:Ep; pose proof Ep as Ep'; unfold picked in Ep'; rewrite Ep' in *.
  2:{ rewrite render_skip by done. by apply IH. }
  cbn [costs foldr] in *. fold (costs (pick rs)) in *. pose proof (cost_pos r). pose proof (len_line r).
  destruct (Z_lt_ge_dec (1 + len post) (cost r)) as [Hgt|Hle]; [right|destruct (Z.eq_dec (cost r) (1 + len post)) as [E|E]; [left|]].
  - cbn [render_loop]. rewrite <- negb_andb. unfold picked in Ep. rewrite Ep. cbn [negb]. change (len (r_key r) + len (r_value r) + 2) with (cost r).
    rewrite len_app, len_cons. replace (cost r >? _) with true by (symmetry; apply Z.gtb_lt; lia). rewrite orb_true_r. by eexists _, _.
  - split.
    + rewrite render_line by (done || lia). unfold store. rewrite !len_app, len_drop, len_cons, len_cons, len_nil.
      replace (_ <=? _) with false; [done|]. symmetry. unfold len in *. lia.
    + exists [r], (pick rs). split_and!; [done|done|]. rewrite len_env_text. cbn. lia.
  - rewrite render_step by (done || lia). pose proof (len_behind (line_of r) post ltac:(lia)).
    destruct (IH (pre ++ line_of r) (behind (line_of r) post) (count + 1)) as [[-> (mine & rest & Em & Hne & Hm)]|(o & c & ->)];
      [lia|rewrite len_app; lia|left|right].
    + split; [done|]. exists (r :: mine), rest. split_and!; [by rewrite Em|done|]. rewrite len_env_text in *. cbn [costs foldr]. fold (costs mine). lia.
    + exists o, c. do 2 f_equal. rewrite len_app. f_equal. lia.
Qed.

Lemma render_over rs buf :
  0 < len buf <= costs (pick rs) -> len buf < 2 ^ 62 ->
  (render_records rs app_id keys n buf = Fault /\ fills (pick rs) (len buf)) \/
  render_records rs app_id keys n buf = Ok (VAULT_ERR_IO, zeros (len buf)).
Proof.
  intros [H0 Hc] Hb. destruct buf as [|b buf]; [done|]. rewrite len_cons in *.
  unfold render_records. rewrite len_cons. pose proof (len_nonneg buf). replace (1 + len buf =? 0) with false by lia.
  assert (Hst : store 0 [0] (b :: buf) = Ok (0 :: buf)).
  { unfold store. change (len [0]) with 1. rewrite len_cons. by replace (0 + 1 <=? 1 + len buf) with true by lia. }
  rewrite Hst. cbn [rbind].
  destruct (render_loop_over rs [] buf 0 Hc) as [[E Hf]|(o & c & E)]; [by change (len (@nil Z)) with 0; lia| |];
    cbn [app] in E; change (len (@nil Z)) with 0 in E; rewrite E; [by left|by right].
Qed.

Lemma render_fits rs buf :
  costs (pick rs) < len buf -> len buf < 2 ^ 62 ->
  render_records rs app_id keys n buf =
  Ok (if match app_id with Some _ => len (pick rs) =? 0 | None => false end then (VAULT_ERR_NOT_FOUND, zeros (len buf))
      else (VAULT_OK, env_text (pick rs) ++ 0 :: drop (length (env_text (pick rs)) + 1) buf)).
Proof.
  intros Hc Hb. pose proof (costs_nonneg (pick rs)). destruct buf as [|b buf]; [rewrite len_nil in Hc; lia|]. rewrite len_cons in *.
  unfold render_records. rewrite len_cons. pose proof (len_nonneg buf). replace (1 + len buf =? 0) with false by lia.
  assert (Hst : store 0 [0] (b :: buf) = Ok (0 :: buf)).
  { unfold store. change (len [0]) with 1. rewrite len_cons. by replace (0 + 1 <=? 1 + len buf) with true by lia. }
  rewrite Hst. cbn [rbind].
  pose proof (render_loop_fits rs [] buf 0 ltac:(lia) ltac:(change (len (@nil Z)) with 0; lia)) as Hl. cbn [app] in Hl. change (len (@nil Z)) with 0 in Hl. rewrite Hl. cbn [rbind].
  change (negb (VAULT_OK =? VAULT_OK)) with false. cbv iota. rewrite !Z.add_0_l. rewrite len_app, len_cons, len_env_text.
  rewrite len_behind by (rewrite len_env_text; lia). rewrite len_env_text. replace (costs (pick rs) + (1 + (len buf - costs (pick rs)))) with (1 + len buf) by lia.
  unfold behind. rewrite Nat.add_1_r. cbn [drop]. by destruct (match app_id with Some _ => _ | None => false end).
Qed.
End Render.
