(* ===== verification/Vault.v ===== *)
(** The vault (src/libraries/vault/store.c from [decrypt_store] on): secrets are sealed with
    a key, kept in a file and given to the process of an application, in its environment
    or in a sealed memory file.

    AES-GCM, PBKDF2 and HKDF are OpenSSL's and a parameter. The world's file is the one the
    function works on: the vault's, or the memory file. *)

From S2P Require Import Prelude Bytes Posix VaultText.

(** ** The primitives *)

Class VaultCrypto := {
  (** AES-256-GCM with a key, an IV and a text: the ciphertext and the tag. *)
  gcm_seal : bytes -> bytes -> bytes -> bytes * bytes;
  (** With a key, an IV, a ciphertext and a tag: the text, if the tag is right. *)
  gcm_open : bytes -> bytes -> bytes -> bytes -> option bytes;
  (** PBKDF2-HMAC-SHA256 of a passphrase with a salt and a number of iterations. *)
  pbkdf2 : bytes -> bytes -> Z -> bytes;
  (** HKDF-SHA256 of a key with a salt and an info string. *)
  hkdf : bytes -> bytes -> bytes -> bytes;
}.

Class VaultLaws (c : VaultCrypto) := {
  gcm_open_seal key iv text : len key = 32 -> len iv = 12 -> bytes_ok text ->
    let (ciphertext, tag) := gcm_seal key iv text in gcm_open key iv ciphertext tag = Some text;
  gcm_seal_len key iv text : len (gcm_seal key iv text).1 = len text /\ len (gcm_seal key iv text).2 = 16;
  gcm_open_ok key iv ciphertext tag text : gcm_open key iv ciphertext tag = Some text -> len text = len ciphertext /\ bytes_ok text;
  pbkdf2_len passphrase salt iterations : len (pbkdf2 passphrase salt iterations) = 32;
  hkdf_len key salt info : len (hkdf key salt info) = 32;
}.

Section Vault.
Context {crypto : VaultCrypto}.

(** ** Constants and data *)

Definition VAULT_SALT_LEN : Z := 16.

Definition VAULT_IV_LEN : Z := 12.

Definition VAULT_TAG_LEN : Z := 16.

Definition VAULT_KEY_LEN : Z := 32.

Definition VAULT_DEFAULT_PBKDF2_ITERS : Z := 100000.

Definition VAULT_FILE_MAGIC : bytes := lit "ALRVLT01".

Definition VAULT_FILE_HEADER_LEN : Z := 60.

Definition INT_MAX : Z := 2 ^ 31 - 1.

Record vault_store := mk_store {
  encrypted_blob : option bytes;
  blob_len : Z;
  salt : bytes;
  iv : bytes;
  tag : bytes;
}.

Definition zero_store : vault_store := mk_store None 0 (zeros 16) (zeros 12) (zeros 16).

(** What the store is after it is freed; its blob is zeroed first. *)
Definition alrios_vault_store_free (store : option vault_store) : option vault_store :=
  match store with
  | None => None
  | Some _ => Some zero_store
  end.

(** The status of a computation that fails is a value. *)
Definition attempt {A} (m : may A) : may (Z + A) :=
  let* r := m in
  match r with
  | Ok a => done_ (inr a)
  | Err e => done_ (inl e)
  | Fault => fault
  end.

Definition checked_size_to_int (value : Z) : bool := negb (value >? INT_MAX).

(** ** Keys *)

Definition alrios_vault_derive_key_pbkdf2 (passphrase : option bytes) (salt : option bytes) (iterations : Z) : may bytes :=
  match passphrase, salt with
  | Some passphrase, Some salt =>
      if (len passphrase =? 0) || (iterations =? 0) || negb (checked_size_to_int (len passphrase)) || (iterations >? INT_MAX)
      then fail VAULT_ERR_ARGUMENT
      else
        let* ok := sys_ok in
        if ok then done_ (pbkdf2 passphrase salt iterations) else fail VAULT_ERR_CRYPTO
  | _, _ => fail VAULT_ERR_ARGUMENT
  end.

Definition alrios_vault_derive_key_hkdf (master_key : option bytes) (salt : option bytes) (info : option bytes) : may bytes :=
  match master_key, salt, info with
  | Some master_key, Some salt, Some info =>
      if (len master_key =? 0) || (len master_key >? INT_MAX) || (len info >? INT_MAX) then fail VAULT_ERR_ARGUMENT
      else
        let* ctx := sys_ok in
        if negb ctx then fail VAULT_ERR_CRYPTO
        else
          let* ok := all_calls 7 in
          let out_key := hkdf master_key salt info in
          if negb ok || negb (len out_key =? VAULT_KEY_LEN) then fail VAULT_ERR_CRYPTO else done_ out_key
  | _, _, _ => fail VAULT_ERR_ARGUMENT
  end.

Definition derive_store_key (store : vault_store) (key_material : bytes) (iterations : Z) : may bytes :=
  if len key_material =? 0 then fail VAULT_ERR_ARGUMENT
  else if (len key_material =? VAULT_KEY_LEN) && (iterations =? 0) then done_ key_material
  else
    alrios_vault_derive_key_pbkdf2 (Some key_material) (Some (salt store))
      (if iterations =? 0 then VAULT_DEFAULT_PBKDF2_ITERS else iterations).

(** ** Sealing and opening *)

(** The text with its terminator. *)
Definition decrypt_store (store : vault_store) (key : bytes) : may bytes :=
  match encrypted_blob store with
  | None => fail VAULT_ERR_ARGUMENT
  | Some blob =>
      if (blob_len store =? 0) || (blob_len store >? VAULT_MAX_BLOB_LEN) || negb (len key =? VAULT_KEY_LEN)
         || negb (checked_size_to_int (blob_len store))
      then fail VAULT_ERR_ARGUMENT
      else
        let+ _ := allocate in
        let* ctx := sys_ok in
        if negb ctx then fail VAULT_ERR_CRYPTO
        else
          let* ok := all_calls 5 in
          if negb ok then fail VAULT_ERR_CRYPTO
          else
            let+ ciphertext := ret (rd 0 (blob_len store) blob) in
            match gcm_open key (iv store) ciphertext (tag store) with
            | None => fail VAULT_ERR_CRYPTO
            | Some plaintext =>
                if negb (len plaintext =? blob_len store) then fail VAULT_ERR_FORMAT else done_ (plaintext ++ [0])
            end
  end.

(** The store with its ciphertext. [secrets] is a string. *)
Definition encrypt_store_with_key (secrets : bytes) (key : bytes) (out_store : vault_store) : may vault_store :=
  let secrets_len := len secrets in
  if (secrets_len =? 0) || (secrets_len >? VAULT_MAX_BLOB_LEN) || negb (checked_size_to_int secrets_len)
  then fail VAULT_ERR_SCHEMA
  else
    let+ _ := allocate in
    let* ctx := sys_ok in
    if negb ctx then fail VAULT_ERR_CRYPTO
    else
      let* ok := all_calls 6 in
      if negb ok then fail VAULT_ERR_CRYPTO
      else
        let (ciphertext, tag) := gcm_seal key (iv out_store) secrets in
        if negb (len ciphertext =? secrets_len) then fail VAULT_ERR_CRYPTO
        else done_ (mk_store (Some ciphertext) secrets_len (salt out_store) (iv out_store) tag).

(** [random_salt] and [random_iv] are what [RAND_bytes] writes; an error leaves the store
    empty. *)
Definition seal (json_secrets key_material : bytes) (iterations : Z) (random_salt random_iv : bytes) : may vault_store :=
  let* ok := all_calls 2 in
  if negb ok then fail VAULT_ERR_CRYPTO
  else
    let out_store := mk_store None 0 random_salt random_iv (zeros 16) in
    let+ derived_key := derive_store_key out_store key_material iterations in
    encrypt_store_with_key json_secrets derived_key out_store.

Definition alrios_vault_encrypt_store (json_secrets master_key : option bytes) (random_salt random_iv : bytes) : may vault_store :=
  match json_secrets, master_key with
  | Some json_secrets, Some master_key =>
      if len master_key =? 0 then fail VAULT_ERR_ARGUMENT
      else seal json_secrets master_key 0 random_salt random_iv
  | _, _ => fail VAULT_ERR_ARGUMENT
  end.

Definition alrios_vault_seal_with_passphrase (json_secrets passphrase : option bytes) (iterations : Z)
    (random_salt random_iv : bytes) : may vault_store :=
  match json_secrets, passphrase with
  | Some json_secrets, Some passphrase =>
      if (len passphrase =? 0) || (iterations =? 0) then fail VAULT_ERR_ARGUMENT
      else seal json_secrets passphrase iterations random_salt random_iv
  | _, _ => fail VAULT_ERR_ARGUMENT
  end.

(** ** Injection *)

(** Status and the buffer. *)
Definition alrios_vault_decrypt_and_inject_for_app (store : option vault_store) (master_key : option bytes)
    (app_id : option bytes) (authorized_keys : option (list (option bytes))) (num_authorized : Z)
    (out_env_buf : bytes) : may (Z * bytes) :=
  match store, master_key with
  | Some store, Some master_key =>
      if (len master_key =? 0) || match app_id with Some _ => negb (is_valid_app_id app_id) | None => false end
         || (num_authorized >? 0) && match authorized_keys with None => true | Some _ => false end || (len out_env_buf =? 0)
      then done_ (VAULT_ERR_ARGUMENT, out_env_buf)
      else
        let+ buf := ret (VaultText.store 0 [0] out_env_buf) in
        let+ opened := attempt (let+ derived_key := derive_store_key store master_key 0 in decrypt_store store derived_key) in
        match opened with
        | inl status => done_ (status, buf)
        | inr plaintext =>
            let+ parsed := attempt (parse_records plaintext) in
            match parsed with
            | inl status => done_ (status, zeros (len buf))
            | inr rs =>
                let+ (status, buf) := ret (render_records (records rs) app_id authorized_keys num_authorized buf) in
                if negb (status =? VAULT_OK) then done_ (status, zeros (len buf)) else done_ (VAULT_OK, buf)
            end
        end
  | _, _ => done_ (VAULT_ERR_ARGUMENT, out_env_buf)
  end.

Definition alrios_vault_decrypt_and_inject (store : option vault_store) (master_key : option bytes)
    (authorized_keys : option (list (option bytes))) (num_authorized : Z) (out_env_buf : bytes) : may (Z * bytes) :=
  alrios_vault_decrypt_and_inject_for_app store master_key None authorized_keys num_authorized out_env_buf.

(** The size of the buffer the secrets of a store are rendered to. *)
Definition buffer_size (store : vault_store) : Z := blob_len store * 2 + 2.

(** The argument tests of the two functions below. *)
Definition blob_len_bad (store : vault_store) : bool :=
  (blob_len store =? 0) || (blob_len store >? VAULT_MAX_BLOB_LEN) || (blob_len store >? (SIZE_MAX - 2) / 2).

Definition newline (c : Z) : bool := c =? 10.

(** The copies of the lines, stored in an array of [count + 1] pointers. *)
Fixpoint envp_loop (lines : list bytes) (count : Z) (envp : list bytes) : may (list bytes) :=
  match lines with
  | [] => if len envp <? count + 1 then done_ envp else fault
  | line :: lines =>
      if negb (len envp <? count + 1) then fault
      else let+ _ := allocate in envp_loop lines count (envp ++ [line])
  end.

(** The strings of the environment. *)
Definition alrios_vault_inject_envp_for_app (store : option vault_store) (master_key : option bytes) (app_id : option bytes)
    (authorized_keys : option (list (option bytes))) (num_authorized : Z) : may (list bytes) :=
  match store with
  | None => fail VAULT_ERR_ARGUMENT
  | Some s =>
      if blob_len_bad s then fail VAULT_ERR_ARGUMENT
      else
        let+ _ := allocate in
        let+ (status, buffer) :=
          alrios_vault_decrypt_and_inject_for_app store master_key app_id authorized_keys num_authorized (zeros (buffer_size s)) in
        if negb (status =? VAULT_OK) then fail status
        else
          let text := cstr buffer in
          let count := len (List.filter newline text) in
          let+ _ := allocate in
          envp_loop (tokens newline text []) count []
  end.

(** [write(fd, buffer + offset, length - offset)] until all is written. *)
Definition write_all (buffer : bytes) : io Z :=
  io_loop (fun offset =>
    if negb (offset <? len buffer) then ret (inr VAULT_OK)
    else
      let* written := pwrite (drop (Z.to_nat offset) buffer) (len buffer - offset) offset in
      match written with
      | SysIntr => ret (inl offset)
      | SysFail => ret (inr VAULT_ERR_MEMFD)
      | Res written => if written =? 0 then ret (inr VAULT_ERR_MEMFD) else ret (inl (offset + written))
      end) 0.

(** The memory file, sealed and rewound, is the world's file when this succeeds. *)
Definition alrios_vault_inject_memfd_for_app (store : option vault_store) (master_key : option bytes) (app_id : option bytes)
    (authorized_keys : option (list (option bytes))) (num_authorized : Z) : may unit :=
  match store with
  | None => fail VAULT_ERR_ARGUMENT
  | Some s =>
      if blob_len_bad s then fail VAULT_ERR_ARGUMENT
      else
        let+ _ := allocate in
        let+ (status, buffer) :=
          alrios_vault_decrypt_and_inject_for_app store master_key app_id authorized_keys num_authorized (zeros (buffer_size s)) in
        if negb (status =? VAULT_OK) then fail status
        else
          let text := cstr buffer in
          let* created := sys_unit (set_file (fun _ => [])) in
          match created with
          | Res _ =>
              let* result := write_all text in
              if negb (result =? VAULT_OK) then fail VAULT_ERR_MEMFD
              else
                (* lseek, F_ADD_SEALS, F_GET_SEALS *)
                let* ok := all_calls 3 in
                if ok then done_ tt else fail VAULT_ERR_MEMFD
          | _ => fail VAULT_ERR_MEMFD
          end
  end.

(** ** The file *)

Definition write_u64_be (value : Z) : bytes :=
  map (fun index => u8 (Z.shiftr value (56 - index * 8))) [0; 1; 2; 3; 4; 5; 6; 7].

Definition read_u64_be (octets : bytes) : Z :=
  fold_left (fun value index => Z.lor (u64 (Z.shiftl value 8)) (at_ octets index)) [0; 1; 2; 3; 4; 5; 6; 7] 0.

Definition store_header (store : vault_store) : bytes :=
  VAULT_FILE_MAGIC ++ write_u64_be (blob_len store) ++ salt store ++ iv store ++ tag store.

(** [fwrite] until all is written; [position] is where the file ends. *)
Definition file_write_all (position : Z) (buffer : bytes) : io Z :=
  io_loop (fun offset =>
    if negb (offset <? len buffer) then ret (inr VAULT_OK)
    else
      let* written := pwrite (drop (Z.to_nat offset) buffer) (len buffer - offset) (position + offset) in
      match written with
      | Res written => if written =? 0 then ret (inr VAULT_ERR_IO) else ret (inl (offset + written))
      | _ => ret (inr VAULT_ERR_IO)
      end) 0.

(** [fflush] and [fclose]; the file is closed in any case. *)
Definition close_file (result : Z) : io Z :=
  let* closed := sys_ok in
  ret (if closed then result else VAULT_ERR_IO).

Definition alrios_vault_store_save_file (path : option bytes) (store : option vault_store) : io (res Z) :=
  match path, store with
  | Some _, Some store =>
      match encrypted_blob store with
      | None => done_ VAULT_ERR_ARGUMENT
      | Some blob =>
          if (blob_len store =? 0) || (blob_len store >? VAULT_MAX_BLOB_LEN) then done_ VAULT_ERR_ARGUMENT
          else
            (* open(path, O_WRONLY | O_CREAT | O_TRUNC | O_CLOEXEC, 0600) and fdopen *)
            let* opened := sys_unit (set_file (fun _ => [])) in
            match opened with
            | Res _ =>
                let* stream := sys_ok in
                if negb stream then done_ VAULT_ERR_IO
                else
                  let header := store_header store in
                  let* result := file_write_all 0 header in
                  if negb (result =? VAULT_OK) then let* r := close_file VAULT_ERR_IO in done_ r
                  else
                    let+ ciphertext := ret (rd 0 (blob_len store) blob) in
                    let* result := file_write_all (len header) ciphertext in
                    if negb (result =? VAULT_OK) then let* r := close_file VAULT_ERR_IO in done_ r
                    else
                      let* flushed := sys_ok in
                      let* r := close_file (if flushed then VAULT_OK else VAULT_ERR_IO) in done_ r
            | _ => done_ VAULT_ERR_IO
            end
      end
  | _, _ => done_ VAULT_ERR_ARGUMENT
  end.

(** [fread] of [n] octets at [offset]: fewer at the end of the file and after an error. *)
Definition fread (offset n : Z) : io bytes :=
  let* r := pread n offset in
  ret (match r with Res data => data | _ => [] end).

(** [fgetc(file) != EOF] at [offset]. *)
Definition more (offset : Z) : io bool :=
  let* ok := sys_ok in
  let* f := get_file in
  ret (ok && (offset <? len f)).

(** Status and the store, which is empty after an error. *)
Definition alrios_vault_store_load_file (path : option bytes) : may vault_store :=
  match path with
  | None => fail VAULT_ERR_ARGUMENT
  | Some _ =>
      let* opened := sys_ok in
      if negb opened then fail VAULT_ERR_IO
      else
        let* header := fread 0 VAULT_FILE_HEADER_LEN in
        if negb (len header =? VAULT_FILE_HEADER_LEN) || negb (bytes_eqb (sub 0 8 header) VAULT_FILE_MAGIC)
        then fail VAULT_ERR_FORMAT
        else
          let encoded_len := read_u64_be (sub 8 8 header) in
          if (encoded_len =? 0) || (encoded_len >? VAULT_MAX_BLOB_LEN) then fail VAULT_ERR_FORMAT
          else
            let+ _ := allocate in
            let* ciphertext := fread VAULT_FILE_HEADER_LEN encoded_len in
            if negb (len ciphertext =? encoded_len) then fail VAULT_ERR_FORMAT
            else
              let* trailing := more (VAULT_FILE_HEADER_LEN + encoded_len) in
              if trailing then fail VAULT_ERR_FORMAT
              else done_ (mk_store (Some ciphertext) encoded_len (sub 16 16 header) (sub 32 12 header) (sub 44 16 header))
  end.

(** ** Files that are written from their end on *)

(** [offset] octets of [buffer] are behind [f]. *)
Definition appended (f buffer : bytes) (offset : Z) (w : world) : Prop :=
  file w = f ++ sub 0 offset buffer /\ 0 <= offset <= len buffer.

Lemma wp_append_turn (C : bytes -> Prop) f buffer offset w :
  appended f buffer offset w -> C (f ++ sub 0 offset buffer) ->
  wp (pwrite (drop (Z.to_nat offset) buffer) (len buffer - offset) (len f + offset)) C
    (fun r w' => (length (script w') < length (script w))%nat /\
       match r with Res n => 0 <= n /\ appended f buffer (offset + n) w' | _ => appended f buffer offset w' end) w.
Proof.
  intros [Hf Ho] Hc. apply wp_pwrite; [by rewrite Hf|]. intros r w' Hl Hr. split; [done|].
  destruct r as [n| |]; [|by split; [rewrite Hr|]..]. destruct Hr as (part & rest & Hd & -> & Hf'). pose proof (len_nonneg part). split; [done|].
  assert (Hb : sub 0 offset buffer ++ part = sub 0 (offset + len part) buffer /\ offset + len part <= len buffer).
  { pose proof (sub_0_split offset buffer ltac:(lia)) as Hsp. rewrite Hd in Hsp.
    assert (Hls : len (sub 0 offset buffer) = offset) by (rewrite len_sub; lia).
    split.
    - rewrite Hsp at 2. rewrite app_assoc. rewrite sub_app_l by (rewrite ?len_app; lia). symmetry. apply sub_all. rewrite len_app. lia.
    - apply (f_equal len) in Hsp. rewrite !len_app in Hsp. pose proof (len_nonneg rest). lia. }
  destruct Hb as [Hb Hle]. split; [|lia]. rewrite Hf'. destruct (len part =? 0) eqn:E; bool_hyps.
  - rewrite Hf, E, Z.add_0_r. done.
  - rewrite Hf. rewrite splice_end; [by rewrite <- app_assoc, Hb|]. rewrite len_app, len_sub by lia. lia.
Qed.

(** However the calls go, a prefix is written; a result of 0 says that it is everything. *)
Lemma wp_write_all (C : bytes -> Prop) buffer w :
  file w = [] -> (forall n, C (sub 0 n buffer)) ->
  wp (write_all buffer) C (fun r w' => r = VAULT_OK -> file w' = buffer) w.
Proof.
  intros Hf Hc. unfold write_all. apply (wp_io_loop _ _ (fun offset w => appended [] buffer offset w)).
  2:{ split; [by rewrite Hf|]. pose proof (len_nonneg buffer). lia. }
  intros offset w' [Hf' Ho]. cbn [app] in Hf'. destruct (negb (offset <? len buffer)) eqn:E; bool_hyps.
  { apply wp_ret. intros _. rewrite Hf'. apply sub_all. lia. }
  apply wp_bind. eapply wp_mono; [apply (wp_append_turn _ [] buffer offset); [by split|by apply Hc]|].
  intros r w2 [Hs Hr]. destruct r as [n| |]; [|by apply wp_ret|by apply wp_ret]. destruct (n =? 0); [by apply wp_ret|].
  apply wp_ret. destruct Hr as [_ Hr]. split; [exact Hr|done].
Qed.

Lemma wp_file_write_all (C : bytes -> Prop) f buffer w :
  file w = f -> (forall n, C (f ++ sub 0 n buffer)) ->
  wp (file_write_all (len f) buffer) C (fun r w' => (r = VAULT_OK -> file w' = f ++ buffer) /\ exists n, file w' = f ++ sub 0 n buffer) w.
Proof.
  intros Hf Hc. unfold file_write_all. apply (wp_io_loop _ _ (fun offset w => appended f buffer offset w)).
  2:{ split; [by rewrite Hf, app_nil_r|]. pose proof (len_nonneg buffer). lia. }
  intros offset w' [Hf' Ho]. destruct (negb (offset <? len buffer)) eqn:E; bool_hyps.
  { apply wp_ret. split; [intros _; rewrite Hf'; by rewrite (sub_all offset) by lia|by exists offset]. }
  apply wp_bind. eapply wp_mono; [apply (wp_append_turn _ f buffer offset); [by split|by apply Hc]|].
  assert (Hfail : forall o w2, appended f buffer o w2 -> (VAULT_ERR_IO = VAULT_OK -> file w2 = f ++ buffer) /\ exists n, file w2 = f ++ sub 0 n buffer).
  { intros o w2 [H2 _]. split; [done|by exists o]. }
  intros r w2 [Hs Hr]. destruct r as [n| |]; [|by apply wp_ret; eapply Hfail|by apply wp_ret; eapply Hfail]. destruct Hr as [Hn Hr].
  destruct (n =? 0); apply wp_ret; [by eapply Hfail|by split].
Qed.

(** ** Undisturbed and disturbed runs *)

Lemma exact_wp {A} (m : may A) n a (C : bytes -> Prop) w :
  exact m n a -> C (file w) ->
  wp m C (fun r w' => file w' = file w /\ (r = Ok a \/ exists e, r = Err e)) w.
Proof.
  intros He Hc. specialize (He w). unfold wp. destruct (m w) as [r w']. destruct He as (Hf & Hr & _).
  destruct Hr as [-> | [[e ->] | ->]]; [by split; [|left]|by split; [|right; exists e]|by rewrite Hf].
Qed.

Lemma exact_mwp {A} (m : may A) n a : exact m n a -> mwp m (eq a) (fun _ => True) False.
Proof.
  intros He w. eapply wp_mono; [by eapply exact_wp|]. intros r w' [Hf [-> | [e ->]]]; by split.
Qed.

Lemma exact_smooth {A} (m : may A) n k a (C : bytes -> Prop) w (Q : res A -> world -> Prop) :
  exact m n a -> smooth (n + k) w -> (forall w', file w' = file w -> smooth k w' -> Q (Ok a) w') -> wp m C Q w.
Proof.
  intros He Hs HQ. specialize (He w). unfold wp. destruct (m w) as [r w']. destruct He as (Hf & _ & Hk).
  destruct (Hk k Hs) as [-> Hs']. by apply HQ.
Qed.

Definition fails {A} (m : may A) : Prop := forall w, exists e, m w = (Ret (Err e), w).

Lemma fails_fail {A} e : fails (A := A) (fail e).
Proof. intros w. by exists e. Qed.

Lemma exact_all_calls {A} j (k : bool -> may A) n a :
  exact (k true) n a -> fails (k false) -> exact (let* ok := all_calls j in k ok) (j + n) a.
Proof.
  intros Hk Hf. induction j as [|j IH]; [exact Hk|]. intros w. cbn [all_calls]. unfold bind at 1, bind at 1, sys_ok, bind at 1, next_event.
  destruct (script w) as [|e rest] eqn:Es; cbn.
  - split_and!; [done|by right; right|]. intros i Hi. apply smooth_cons in Hi as (? & Hr & _). congruence.
  - set (w1 := mk_world (file w) (lock w) rest). destruct e; cbn.
    + specialize (IH w1). unfold bind in IH. destruct (match all_calls j w1 with (Ret a0, w') => k a0 w' | (Crash, w') => (Crash, w') | (OutOfFuel, w') => (OutOfFuel, w') end)
        as [r w'] eqn:Er. destruct IH as (Hfile & Hr & Hs). split_and!; [exact Hfile|exact Hr|].
      intros i Hi. apply smooth_cons in Hi as (rest' & E & Hi). rewrite Es in E. injection E as _ ->. by apply Hs.
    + destruct (Hf w1) as [e He]. rewrite He. split_and!; [done|right; left; by exists e|].
      intros i Hi. apply smooth_cons in Hi as (rest' & E & Hi). rewrite Es in E. discriminate.
    + destruct (Hf w1) as [e He]. rewrite He. split_and!; [done|right; left; by exists e|].
      intros i Hi. apply smooth_cons in Hi as (rest' & E & Hi). rewrite Es in E. discriminate.
Qed.

Lemma exact_sys_ok {A} (k : bool -> may A) n a :
  exact (k true) n a -> fails (k false) -> exact (let* ok := sys_ok in k ok) (1 + n) a.
Proof.
  intros Hk Hf. pose proof (exact_all_calls 1 k n a Hk Hf) as H. intros w. specialize (H w). revert H. unfold bind.
  cbn [all_calls]. unfold bind. destruct (sys_ok w) as [[[]| |] w']; done.
Qed.

(** ** Keys, sealing and opening *)

Section Laws.
Context (laws : VaultLaws crypto).

(** The key that a key material gives with the default number of iterations. *)
Definition store_key (salt key_material : bytes) : bytes :=
  if len key_material =? VAULT_KEY_LEN then key_material else pbkdf2 key_material salt VAULT_DEFAULT_PBKDF2_ITERS.

Definition material_ok (key_material : bytes) : Prop := 0 < len key_material <= INT_MAX.

Lemma derive_exact store key_material :
  material_ok key_material -> exact (derive_store_key store key_material 0) 1 (store_key (salt store) key_material).
Proof.
  intros [H0 H1]. unfold derive_store_key, store_key. replace (len key_material =? 0) with false by lia.
  destruct (len key_material =? VAULT_KEY_LEN) eqn:E; cbn [andb].
  - change (0 =? 0) with true. cbv iota. eapply exact_more; [apply exact_done|lia].
  - change (0 =? 0) with true. cbv iota. unfold alrios_vault_derive_key_pbkdf2, checked_size_to_int.
    replace (len key_material =? 0) with false by lia. replace (len key_material >? INT_MAX) with false by lia. cbn [orb negb].
    change (VAULT_DEFAULT_PBKDF2_ITERS =? 0) with false. change (VAULT_DEFAULT_PBKDF2_ITERS >? INT_MAX) with false. cbn [orb].
    change 1%nat with (1 + 0)%nat. apply exact_sys_ok; [apply exact_done|apply fails_fail].
Qed.

Lemma store_key_len salt key_material : len (store_key salt key_material) = 32.
Proof. unfold store_key. destruct (len key_material =? VAULT_KEY_LEN) eqn:E; bool_hyps; [done|apply (pbkdf2_len (c := crypto))]. Qed.

(** A store as the vault makes it. *)
Record store_ok (st : vault_store) (blob : bytes) : Prop := {
  so_blob : encrypted_blob st = Some blob;
  so_len : len blob = blob_len st;
  so_max : 0 < blob_len st <= VAULT_MAX_BLOB_LEN;
  so_salt : len (salt st) = 16;
  so_iv : len (iv st) = 12;
  so_tag : len (tag st) = 16;
}.

(** The store a text is sealed to. *)
Definition sealed (text key_material random_salt random_iv : bytes) : vault_store :=
  let (ciphertext, tag) := gcm_seal (store_key random_salt key_material) random_iv text in
  mk_store (Some ciphertext) (len text) random_salt random_iv tag.

(** A text that can be sealed. *)
Definition text_ok (text : bytes) : Prop := 0 < len text <= VAULT_MAX_BLOB_LEN /\ bytes_ok text.

Lemma seal_exact text key_material random_salt random_iv :
  material_ok key_material -> text_ok text ->
  exact (alrios_vault_encrypt_store (Some text) (Some key_material) random_salt random_iv) 11
    (sealed text key_material random_salt random_iv).
Proof.
  intros Hm [[Ht Ht'] _]. pose proof Hm as [Hm0 _]. unfold alrios_vault_encrypt_store, seal. replace (len key_material =? 0) with false by lia.
  change 11%nat with (2 + (1 + (1 + (1 + (6 + 0)))))%nat. apply exact_all_calls; [|apply fails_fail]. cbn [negb].
  eapply exact_bind; [by apply derive_exact|]. unfold encrypt_store_with_key, checked_size_to_int. cbv zeta.
  replace (len text =? 0) with false by lia. replace (len text >? VAULT_MAX_BLOB_LEN) with false by lia.
  replace (len text >? INT_MAX) with false by (unfold VAULT_MAX_BLOB_LEN, INT_MAX in *; lia). cbn [orb negb].
  eapply exact_bind; [apply exact_allocate|]. apply exact_sys_ok; [|apply fails_fail]. cbn [negb].
  apply exact_all_calls; [|apply fails_fail]. cbn [negb]. unfold sealed. cbn [iv salt].
  destruct (gcm_seal_len (c := crypto) (store_key random_salt key_material) random_iv text) as [Hl _].
  destruct (gcm_seal _ _ text) as [ciphertext tag']. cbn [fst] in Hl. rewrite Hl, Z.eqb_refl. apply exact_done.
Qed.

Lemma sealed_ok text key_material random_salt random_iv :
  text_ok text -> len random_salt = 16 -> len random_iv = 12 ->
  exists blob, store_ok (sealed text key_material random_salt random_iv) blob.
Proof.
  intros [[Ht Ht'] _] Hs Hi. unfold sealed. pose proof (gcm_seal_len (c := crypto) (store_key random_salt key_material) random_iv text) as [H1 H2].
  destruct (gcm_seal _ _ text) as [ciphertext tag']. exists ciphertext. by split.
Qed.

Lemma open_exact text key_material random_salt random_iv :
  text_ok text -> len random_iv = 12 ->
  exact (decrypt_store (sealed text key_material random_salt random_iv) (store_key random_salt key_material)) 7 (text ++ [0]).
Proof.
  intros [[Ht Ht'] Hb] Hiv. unfold decrypt_store, sealed.
  pose proof (gcm_open_seal (c := crypto) (store_key random_salt key_material) random_iv text (store_key_len _ _) Hiv Hb) as Ho.
  destruct (gcm_seal_len (c := crypto) (store_key random_salt key_material) random_iv text) as [Hl _].
  destruct (gcm_seal _ _ text) as [ciphertext tag']. cbn [fst] in Hl. cbn [encrypted_blob blob_len iv tag salt].
  rewrite store_key_len. unfold checked_size_to_int.
  replace (len text =? 0) with false by lia. replace (len text >? VAULT_MAX_BLOB_LEN) with false by lia.
  replace (len text >? INT_MAX) with false by (unfold VAULT_MAX_BLOB_LEN, INT_MAX in *; lia). change (32 =? VAULT_KEY_LEN) with true. cbn [orb negb].
  change 7%nat with (1 + (1 + (5 + (0 + 0))))%nat. eapply exact_bind; [apply exact_allocate|].
  apply exact_sys_ok; [|apply fails_fail]. cbn [negb]. apply exact_all_calls; [|apply fails_fail]. cbn [negb].
  eapply exact_bind; [apply exact_res, rd_ok; lia|]. rewrite sub_all by done. rewrite Ho, Z.eqb_refl. apply exact_done.
Qed.

(** ** Injection *)

Lemma mwp_all_calls {A} j (k : bool -> may A) (Q : A -> Prop) E F :
  (forall b, mwp (k b) Q E F) -> mwp (let* ok := all_calls j in k ok) Q E F.
Proof.
  intros Hk w. apply wp_bind. eapply wp_mono; [by apply wp_all_calls|]. intros b w' [Hf _].
  eapply wp_mono; [eapply wp_weaken; [by apply Hk|]; intros f <-; congruence|]. intros r w'' [Hf' Hr']. split; [congruence|done].
Qed.

Lemma mwp_weaken {A} (m : may A) (Q Q' : A -> Prop) (E E' : Z -> Prop) (F F' : Prop) :
  mwp m Q E F -> (forall a, Q a -> Q' a) -> (forall e, E e -> E' e) -> (F -> F') -> mwp m Q' E' F'.
Proof. intros Hm HQ HE HF w. eapply wp_mono; [apply Hm|]. intros [a|e|] w' [? ?]; auto. Qed.

Lemma mwp_attempt {A} (m : may A) (Q : A -> Prop) E E' F : mwp m Q E F ->
  mwp (attempt m) (fun r => match r with inr a => Q a | inl e => E e end) E' F.
Proof.
  intros Hm w. unfold attempt. apply wp_bind. eapply wp_mono; [apply Hm|]. intros [a|e|] w' [Hf Hr]; by apply wp_ret.
Qed.

(** A status other than success. *)
Definition bad (e : Z) : Prop := e <> VAULT_OK.

Lemma derive_safe store key_material F : mwp (derive_store_key store key_material 0) (eq (store_key (salt store) key_material)) bad F.
Proof.
  unfold derive_store_key, store_key. destruct (len key_material =? 0); [by apply mwp_fail|].
  destruct (len key_material =? VAULT_KEY_LEN); [by apply mwp_done|]. cbn [andb]. change (0 =? 0) with true. cbv iota.
  unfold alrios_vault_derive_key_pbkdf2. destruct (_ || _); [by apply mwp_fail|]. apply mwp_sys_ok. intros []; [by apply mwp_done|by apply mwp_fail].
Qed.

(** What a store opens to with a key material. *)
Definition opens (st : vault_store) (key_material text : bytes) : Prop :=
  exists blob, encrypted_blob st = Some blob /\
    gcm_open (store_key (salt st) key_material) (iv st) (sub 0 (blob_len st) blob) (tag st) = Some text.

(** There are as many octets as the store says. *)
Definition store_sound (st : vault_store) : Prop :=
  0 <= blob_len st /\ forall blob, encrypted_blob st = Some blob -> blob_len st <= len blob.

Lemma open_safe st key_material F :
  store_sound st ->
  mwp (let+ derived_key := derive_store_key st key_material 0 in decrypt_store st derived_key)
    (fun plaintext => exists text, plaintext = text ++ [0] /\ opens st key_material text /\ len text = blob_len st /\ bytes_ok text)
    bad F.
Proof.
  intros [H0 Hb]. eapply mwp_bind; [apply derive_safe|]. intros key <-. unfold decrypt_store.
  destruct (encrypted_blob st) as [blob|] eqn:Eb; [|by apply mwp_fail]. specialize (Hb blob eq_refl).
  destruct ((blob_len st =? 0) || _ || _ || _) eqn:Ea; [by apply mwp_fail|].
  apply (mwp_bind _ _ (fun _ => True)); [by apply mwp_allocate|]. intros _ _. apply mwp_sys_ok. intros []; [|by apply mwp_fail]. cbn [negb].
  apply mwp_all_calls. intros []; [|by apply mwp_fail]. cbn [negb].
  apply (mwp_bind _ _ (eq (sub 0 (blob_len st) blob))).
  { apply mwp_res. by rewrite rd_ok by lia. }
  intros ciphertext <-. destruct (gcm_open _ _ _ _) as [text|] eqn:Eo; [|by apply mwp_fail].
  destruct (len text =? blob_len st) eqn:El; bool_hyps; [|by apply mwp_fail]. cbn [negb]. apply mwp_done.
  exists text. split_and!; [done|by exists blob|done|]. by apply (gcm_open_ok (c := crypto)) in Eo as [_ ?].
Qed.

(** The secrets of [rs] for an application are in the buffer, or none are. *)
Definition injected (app_id : option bytes) (keys : option (list (option bytes))) (n : Z) (R : list record -> Prop)
    (buf : bytes) (r : Z * bytes) : Prop :=
  len r.2 = len buf /\
  ((r.1 = VAULT_OK /\ exists rs rest, R rs /\ r.2 = env_text (chosen app_id keys n rs) ++ 0 :: rest /\
      (is_Some app_id -> chosen app_id keys n rs <> [])) \/
   (r.1 <> VAULT_OK /\ (r.2 = zeros (len buf) \/ r.2 = buf \/ r.2 = 0 :: drop 1 buf))).

Lemma opens_len st key_material text : store_sound st -> opens st key_material text -> len text = blob_len st.
Proof.
  intros [H0 Hb] (blob & E & Ho). apply (gcm_open_ok (c := crypto)) in Ho as [-> _]. specialize (Hb _ E).
  rewrite len_sub; lia.
Qed.

(** What rendering puts into a buffer [0 :: drop 1 buf] of any size. *)
Lemma render_safe app_id keys n rs buf (R : list record -> Prop) F :
  buf <> [] -> len buf < 2 ^ 62 -> R rs ->
  mwp (let+ (status, b) := ret (render_records rs app_id keys n (0 :: drop 1 buf)) in
       if negb (status =? VAULT_OK) then done_ (status, zeros (len b)) else done_ (VAULT_OK, b))
    (injected app_id keys n R buf) (fun _ => False) (F \/ exists rs, R rs /\ fills (chosen app_id keys n rs) (len buf)).
Proof.
  intros Hne Hb HR. destruct buf as [|b0 buf]; [done|]. change (drop 1 (b0 :: buf)) with buf. set (sel := chosen app_id keys n rs).
  assert (Hlen : len (b0 :: buf) = len (0 :: buf)) by (by rewrite !len_cons). unfold injected. rewrite Hlen in *.
  assert (Hz : len (zeros (len (0 :: buf))) = len (0 :: buf)) by (rewrite len_zeros; [done|apply len_nonneg]).
  destruct (Z_lt_ge_dec (costs sel) (len (0 :: buf))) as [Hc|Hc].
  2:{ pose proof (len_nonneg buf). destruct (render_over app_id keys n rs (0 :: buf)) as [[-> Hf]| ->]; [rewrite len_cons in *; fold sel; lia|done| |].
      - eapply (mwp_bind _ _ (fun _ => False)); [apply mwp_res; right; by exists rs|done].
      - eapply (mwp_bind _ _ (eq _)); [by apply mwp_res|]. intros [? ?] [= <- <-]. change (negb (VAULT_ERR_IO =? VAULT_OK)) with true. cbv iota.
        apply mwp_done. cbn [fst snd]. rewrite Hz. split; [done|right; split; [done|by left]]. }
  rewrite render_fits by (done || lia). fold sel.
  destruct (match app_id with Some _ => len sel =? 0 | None => false end) eqn:Es.
  - eapply (mwp_bind _ _ (eq _)); [by apply mwp_res|]. intros [? ?] [= <- <-]. change (negb (VAULT_ERR_NOT_FOUND =? VAULT_OK)) with true. cbv iota.
    apply mwp_done. cbn [fst snd]. rewrite Hz. split; [done|right; split; [done|by left]].
  - eapply (mwp_bind _ _ (eq _)); [by apply mwp_res|]. intros [? ?] [= <- <-]. change (negb (VAULT_OK =? VAULT_OK)) with false. cbv iota.
    apply mwp_done. split; cbn [fst snd].
    + rewrite len_app, len_cons. unfold len at 2. rewrite length_drop. pose proof (len_env_text sel) as He. pose proof (costs_nonneg sel).
      unfold sel, len in *. lia.
    + left. split; [done|]. eexists _, _. split; [exact HR|]. split; [done|]. intros [a ->]. fold sel. intros E. by rewrite E in Es.
Qed.

(** A buffer of any size: at worst the lines that fit fill it, and a terminator is stored
    behind them. *)
Lemma inject_any st key_material app_id keys n buf R F :
  store_sound st -> len buf < 2 ^ 62 ->
  (forall text, opens st key_material text -> mwp (parse_records (text ++ [0])) (fun rs => R (records rs)) bad F) ->
  mwp (alrios_vault_decrypt_and_inject_for_app (Some st) (Some key_material) app_id keys n buf)
    (injected app_id keys n R buf) (fun _ => False) (F \/ exists rs, R rs /\ fills (chosen app_id keys n rs) (len buf)).
Proof.
  intros Hst Hb' Hp. unfold alrios_vault_decrypt_and_inject_for_app. destruct (_ || _ || _ || _) eqn:Ea.
  { apply mwp_done. split; [done|]. right. split; [done|]. by right; left. }
  destruct buf as [|b0 buf]; [cbn in Ea; bool_hyps; done|].
  assert (Hst0 : VaultText.store 0 [0] (b0 :: buf) = Ok (0 :: buf)).
  { unfold VaultText.store. change (len [0]) with 1. rewrite len_cons. pose proof (len_nonneg buf). by replace (0 + 1 <=? 1 + len buf) with true by lia. }
  apply (mwp_bind _ _ (eq (0 :: buf))); [apply mwp_res; by rewrite Hst0|]. intros ? <-.
  assert (Hlen : len (0 :: buf) = len (b0 :: buf)) by (by rewrite !len_cons).
  eapply mwp_bind; [by apply mwp_attempt, open_safe|].
  intros [e|plaintext] Ho; [apply mwp_done; split; [done|right; split; [exact Ho|by right; right]]|].
  destruct Ho as (text & -> & Ho & Hl & _). eapply mwp_bind; [apply mwp_attempt; eapply mwp_weaken; [by apply Hp|done|done|by left]|].
  intros [e|rs] Hr; [apply mwp_done; split; cbn [fst snd]; [by rewrite len_zeros, Hlen by apply len_nonneg|right; split; [exact Hr|left; by rewrite Hlen]]|].
  by apply (render_safe app_id keys n (records rs) (b0 :: buf)).
Qed.

Lemma fills_cost rs size : fills rs size -> size <= costs rs.
Proof.
  intros (mine & rest & -> & _ & <-). rewrite <- len_env_text. unfold env_text. rewrite map_app, concat_app, len_app.
  pose proof (len_nonneg (concat (map line_of rest))). lia.
Qed.

(** A buffer with room for the whole text. *)
Lemma inject_safe st key_material app_id keys n buf R F :
  store_sound st -> blob_len st + 1 < len buf < 2 ^ 62 ->
  (forall text, opens st key_material text ->
     mwp (parse_records (text ++ [0])) (fun rs => R (records rs) /\ costs (records rs) <= len text + 1) bad F) ->
  mwp (alrios_vault_decrypt_and_inject_for_app (Some st) (Some key_material) app_id keys n buf)
    (injected app_id keys n R buf) (fun _ => False) F.
Proof.
  intros Hst [Hb Hb'] Hp.
  eapply mwp_weaken; [apply (inject_any st key_material app_id keys n buf (fun rs => R rs /\ costs rs < len buf) F Hst Hb')| | |].
  - intros text Ho. eapply mwp_mono; [by apply Hp|]. intros rs [HR Hc]. split; [done|]. pose proof (opens_len _ _ _ Hst Ho). lia.
  - intros [st' env] [Hl Hr]. split; [done|]. destruct Hr as [(? & rs & rest & [] & ? & ?)|?]; [left|by right]. split; [done|]. by exists rs, rest.
  - done.
  - intros [?|(rs & [_ Hc] & Hf)]; [done|]. apply fills_cost in Hf. pose proof (chosen_costs app_id keys n rs). lia.
Qed.

(** The parse of what a store opens to. *)
Definition parses (text : bytes) (rs : list record) : Prop :=
  Forall record_ok rs /\ exists w w' rs', parse_records (text ++ [0]) w = (Ret (Ok rs'), w') /\ records rs' = rs.

Lemma mwp_and {A} (m : may A) Q E F : mwp m Q E F -> mwp m (fun a => Q a /\ exists w w', m w = (Ret (Ok a), w')) E F.
Proof.
  intros Hm w. specialize (Hm w). unfold wp in *. destruct (m w) as [[r| |] w'] eqn:Em; [|done|done]. destruct Hm as [Hf Hr]. split; [done|].
  destruct r; [|done|done]. split; [done|by eexists _, _].
Qed.

(** A [\u] at the end of what the store opens to. *)
Definition cut_short (st : vault_store) (key_material : bytes) : Prop :=
  exists text, opens st key_material text /\ unfinished (trimmed (text ++ [0])).

Lemma parse_safe st key_material text :
  opens st key_material text ->
  mwp (parse_records (text ++ [0])) (fun rs => parses text (records rs) /\ costs (records rs) <= len text + 1) bad (cut_short st key_material).
Proof.
  intros Ho. assert (Hb : bytes_ok text) by (destruct Ho as (blob & _ & E); by apply (gcm_open_ok (c := crypto)) in E as [_ ?]).
  eapply mwp_weaken; [apply mwp_and, parse_records_safe| | |].
  - apply Forall_app. split; [done|]. by apply list.Forall_singleton.
  - apply in_or_app. right. by left.
  - intros rs [(Hok & _ & Hc) (w & w' & E)]. rewrite len_app in Hc. change (len [0]) with 1 in Hc. split; [|lia]. split; [done|]. by exists w, w', rs.
  - intros e [-> | [-> | ->]]; done.
  - intros Hu. by exists text.
Qed.

(** What an application is to be given of a store: its records of what the store opens to. *)
Definition secrets_of (st : vault_store) (key_material : bytes) (rs : list record) : Prop :=
  exists text, opens st key_material text /\ parses text rs.

Lemma inject_of st key_material app_id keys n buf :
  store_sound st -> blob_len st + 1 < len buf < 2 ^ 62 ->
  mwp (alrios_vault_decrypt_and_inject_for_app (Some st) (Some key_material) app_id keys n buf)
    (injected app_id keys n (secrets_of st key_material) buf) (fun _ => False) (cut_short st key_material).
Proof.
  intros Hst Hb. apply inject_safe; [done|done|]. intros text Ho.
  eapply mwp_mono; [by apply parse_safe|]. intros rs [Hp Hc]. split; [by exists text|done].
Qed.

Lemma secrets_ok st key_material rs : secrets_of st key_material rs -> Forall record_ok rs.
Proof. by intros (text & _ & H & _). Qed.

Lemma line_chars r : record_ok r -> Forall char_ok (line_of r).
Proof.
  intros (Hk & _ & Hv). apply valid_key_chars in Hk as [Hk _]. unfold line_of.
  repeat (apply Forall_app; split); try done; apply list.Forall_singleton; by unfold char_ok.
Qed.

Lemma env_chars rs : Forall record_ok rs -> Forall char_ok (env_text rs).
Proof.
  induction rs as [|r rs IH]; intros H; [apply Forall_nil_2|]. apply list.Forall_cons in H as [Hr H].
  unfold env_text in *. cbn [map concat]. apply Forall_app. split; [by apply line_chars|by apply IH].
Qed.

Lemma chosen_ok app_id keys n rs : Forall record_ok rs -> Forall record_ok (chosen app_id keys n rs).
Proof.
  rewrite !Forall_forall. intros H r Hr. apply H. unfold chosen in Hr. apply filter_In in Hr. by destruct Hr.
Qed.

(** The text of an environment ends every line, and there are no more tokens than ends. *)
Lemma tokens_count delim text token c :
  delim c = true -> len (tokens delim (text ++ [c]) token) <= len (List.filter delim (text ++ [c])).
Proof.
  intros Hc. revert token. induction text as [|x text IH]; intros token; cbn [app tokens List.filter].
  - rewrite Hc. destruct token; unfold len; cbn; lia.
  - destruct (delim x) eqn:E; [|apply IH]. rewrite len_app, len_cons. specialize (IH []).
    destruct token; rewrite ?len_cons; change (len (@nil bytes)) with 0; lia.
Qed.

Lemma env_ends rs : rs <> [] -> exists text, env_text rs = text ++ [10].
Proof.
  intros H. destruct (exists_last H) as (rs' & r & ->). unfold env_text. rewrite map_app, concat_app. cbn [map concat].
  exists (concat (map line_of rs') ++ r_key r ++ [61] ++ r_value r). unfold line_of. by rewrite app_nil_r, <- !app_assoc.
Qed.

Lemma env_tokens_count rs : len (tokens newline (env_text rs) []) <= len (List.filter newline (env_text rs)).
Proof.
  destruct rs as [|r rs]; [unfold len; cbn; lia|]. destruct (env_ends (r :: rs)) as [text ->]; [done|]. by apply tokens_count.
Qed.

Lemma envp_loop_safe lines count envp F :
  len envp + len lines <= count -> mwp (envp_loop lines count envp) (eq (envp ++ lines)) bad F.
Proof.
  revert envp. induction lines as [|line lines IH]; intros envp Hl; cbn [envp_loop].
  - change (len (@nil bytes)) with 0 in Hl. replace (len envp <? count + 1) with true by lia. apply mwp_done. by rewrite app_nil_r.
  - rewrite len_cons in Hl. pose proof (len_nonneg lines). replace (len envp <? count + 1) with true by lia. cbn [negb].
    apply (mwp_bind _ _ (fun _ => True)); [by apply mwp_allocate|]. intros _ _.
    eapply mwp_mono; [apply IH; rewrite len_app, len_cons; change (len (@nil bytes)) with 0; lia|]. intros ? <-. by rewrite <- app_assoc.
Qed.

(** The buffer of a store is big enough. *)
Lemma buffer_size_ok st : blob_len_bad st = false -> 0 <= blob_len st ->
  blob_len st + 1 < len (zeros (buffer_size st)) < 2 ^ 62.
Proof.
  unfold blob_len_bad, buffer_size. intros H H0. bool_hyps. unfold VAULT_MAX_BLOB_LEN in *. rewrite len_zeros by lia. lia.
Qed.

Lemma envp_safe st key_material app_id keys n :
  store_sound st ->
  mwp (alrios_vault_inject_envp_for_app (Some st) (Some key_material) app_id keys n)
    (fun envp => exists rs, secrets_of st key_material rs /\ envp = tokens newline (env_text (chosen app_id keys n rs)) [])
    bad (cut_short st key_material).
Proof.
  intros Hst. unfold alrios_vault_inject_envp_for_app. destruct (blob_len_bad st) eqn:Eb; [by apply mwp_fail|].
  pose proof (buffer_size_ok st Eb (proj1 Hst)) as Hsize.
  apply (mwp_bind _ _ (fun _ => True)); [by apply mwp_allocate|]. intros _ _.
  eapply mwp_bind; [eapply mwp_weaken; [by apply inject_of|intros r Hr; exact Hr|done|done]|].
  intros [status buffer] [Hl Hr]. cbn [fst snd] in *. destruct (status =? VAULT_OK) eqn:Es; bool_hyps; cbn [negb]; [|by apply mwp_fail].
  destruct Hr as [(_ & rs & rest & Hrs & -> & _)|[? _]]; [|done]. pose proof (secrets_ok _ _ _ Hrs) as Hok.
  rewrite cstr_of_text by (by apply env_chars, chosen_ok). apply (mwp_bind _ _ (fun _ => True)); [by apply mwp_allocate|]. intros _ _.
  eapply mwp_mono; [apply envp_loop_safe|].
  - pose proof (env_tokens_count (chosen app_id keys n rs)). change (len (@nil bytes)) with 0. lia.
  - intros ? <-. by exists rs.
Qed.

(** Lines without line feeds in them are the tokens. *)
Definition setting (r : record) : bytes := r_key r ++ [61] ++ r_value r.

Lemma tokens_word delim word rest token :
  Forall (fun c => delim c = false) word -> tokens delim (word ++ rest) token = tokens delim rest (token ++ word).
Proof.
  revert token. induction word as [|c word IH]; intros token H; [cbn; by rewrite app_nil_r|].
  apply list.Forall_cons in H as [Hc H]. cbn [app tokens]. rewrite Hc, IH by done. by rewrite <- app_assoc.
Qed.

Lemma tokens_settings rs :
  Forall (fun r => is_valid_secret_key (Some (r_key r)) = true /\ Forall (fun c => newline c = false) (r_value r)) rs ->
  tokens newline (env_text rs) [] = map setting rs.
Proof.
  induction rs as [|r rs IH]; intros H; [done|]. apply list.Forall_cons in H as [[Hk Hv] H]. specialize (IH H).
  unfold env_text in *. cbn [map concat].
  assert (El : line_of r ++ concat (map line_of rs) = setting r ++ 10 :: concat (map line_of rs)) by (unfold line_of, setting; by rewrite <- !app_assoc).
  rewrite El, tokens_word.
  - cbn [app tokens]. change (newline 10) with true. cbv iota. rewrite IH. cbn [map].
    assert (setting r <> []) by (unfold setting; by destruct (r_key r)). by destruct (setting r).
  - unfold setting. repeat (apply Forall_app; split); [|by apply list.Forall_singleton|done].
    cbn [is_valid_secret_key] in Hk. destruct ((len (r_key r) =? 0) || _) eqn:E1; [done|]. destruct (negb _) eqn:E2; [done|].
    destruct (r_key r) as [|c k]; [done|]. change (at_ (c :: k) 0) with c in E2. change (drop 1 (c :: k)) with k in Hk.
    clear E1 H IH El Hv. unfold newline. bool_hyps. apply list.Forall_cons. split.
    + unfold isalpha in E2. lia.
    + apply Forall_forall. intros x Hx. rewrite forallb_forall in Hk. specialize (Hk x Hx). cbn beta in Hk. unfold isalnum, isalpha in Hk. lia.
Qed.

(** What the memory file holds when it is handed out. *)
Lemma memfd_wp st key_material app_id keys n w :
  store_sound st ->
  wp (alrios_vault_inject_memfd_for_app (Some st) (Some key_material) app_id keys n) (fun _ => True)
    (fun r w' => match r with
                 | Ok _ => exists rs, secrets_of st key_material rs /\ file w' = env_text (chosen app_id keys n rs) /\
                             (is_Some app_id -> chosen app_id keys n rs <> [])
                 | Err e => bad e
                 | Fault => cut_short st key_material
                 end) w.
Proof.
  intros Hst. unfold alrios_vault_inject_memfd_for_app. destruct (blob_len_bad st) eqn:Eb; [by apply wp_ret|].
  pose proof (buffer_size_ok st Eb (proj1 Hst)) as Hsize.
  unfold mbind at 1. apply wp_bind. eapply wp_mono; [eapply wp_weaken; [apply (mwp_allocate (E := bad) (F := False) (fun _ => True)); done|done]|].
  intros [[]|e|] w1 [Hf Hr]; [|by apply wp_ret|done]. unfold mbind. apply wp_bind.
  eapply wp_mono; [eapply wp_weaken; [by apply inject_of|done]|]. intros [[status buffer]|e|] w2 [Hf2 Hi]; [|done|by apply wp_ret].
  destruct Hi as [Hl Hi]. cbn [fst snd] in *. destruct (status =? VAULT_OK) eqn:Es; bool_hyps; cbn [negb]; [|by apply wp_ret].
  destruct Hi as [(_ & rs & rest & Hrs & -> & Hne)|[? _]]; [|done]. pose proof (secrets_ok _ _ _ Hrs) as Hok.
  rewrite cstr_of_text by (by apply env_chars, chosen_ok). unfold sys_unit. apply wp_bind, wp_bind, wp_event; [done|].
  intros ev w3 _. destruct ev; [|by apply wp_ret, wp_ret|by apply wp_ret, wp_ret].
  apply wp_bind. unfold wp at 1, set_file. apply wp_ret. apply wp_bind. eapply wp_mono; [by apply wp_write_all|].
  intros result w4 Hw. destruct (result =? VAULT_OK) eqn:Er; bool_hyps; cbn [negb]; [|by apply wp_ret].
  apply wp_bind. eapply wp_mono; [by apply (wp_all_calls (fun _ => True))|]. intros [] w5 [Hf5 _]; [|by apply wp_ret].
  apply wp_ret. exists rs. split_and!; [done|by rewrite Hf5, Hw|done].
Qed.

(** ** The file *)

Lemma read_u64_load b : read_u64_be b = load_u64_be b.
Proof. symmetry. apply load_u64_be_unfold. Qed.

Lemma u64_octets_back v : 0 <= v < 2 ^ 64 -> read_u64_be (write_u64_be v) = v /\ len (write_u64_be v) = 8.
Proof.
  intros Hv. split; [|by cbn].
  assert (E : write_u64_be v = be_bytes 8 v).
  { unfold write_u64_be. cbn [map be_bytes app]. unfold u8. rewrite !Z.shiftr_div_pow2 by lia.
    change (56 - 0 * 8) with 56. change (56 - 1 * 8) with 48. change (56 - 2 * 8) with 40. change (56 - 3 * 8) with 32.
    change (56 - 4 * 8) with 24. change (56 - 5 * 8) with 16. change (56 - 6 * 8) with 8. change (56 - 7 * 8) with 0.
    rewrite !Z.div_div by lia. rewrite Z.pow_0_r, Z.div_1_r. done. }
  rewrite read_u64_load, E, <- store_u64_be_spec.
  by apply load_store_u64.
Qed.

Definition image (st : vault_store) (blob : bytes) : bytes := store_header st ++ blob.

Lemma len_store_header st blob : store_ok st blob -> len (store_header st) = 60.
Proof.
  intros [_ _ Hm Hs Hi Ht]. unfold store_header. rewrite !len_app, Hs, Hi, Ht. unfold VAULT_MAX_BLOB_LEN in Hm.
  destruct (u64_octets_back (blob_len st) ltac:(lia)) as [_ ->]. done.
Qed.

(** The fields of the header. *)
Lemma header_of_store st blob : store_ok st blob ->
  let h := store_header st in
  sub 0 8 h = VAULT_FILE_MAGIC /\ read_u64_be (sub 8 8 h) = blob_len st /\ sub 16 16 h = salt st /\ sub 32 12 h = iv st /\ sub 44 16 h = tag st.
Proof.
  intros [_ _ Hm Hs Hi Ht]. cbv zeta. unfold VAULT_MAX_BLOB_LEN in Hm. destruct (u64_octets_back (blob_len st) ltac:(lia)) as [Hb Hl].
  unfold store_header. assert (H8 : len VAULT_FILE_MAGIC = 8) by done. split_and!.
  - by apply sub_here.
  - rewrite sub_app_r by lia. rewrite H8. by rewrite sub_here by done.
  - rewrite sub_app_r by lia. rewrite sub_app_r by lia. rewrite H8, Hl. by apply sub_here.
  - rewrite sub_app_r by lia. rewrite sub_app_r by lia. rewrite sub_app_r by lia. rewrite H8, Hl, Hs. by apply sub_here.
  - rewrite sub_app_r by lia. rewrite sub_app_r by lia. rewrite sub_app_r by lia. rewrite sub_app_r by lia. rewrite H8, Hl, Hs, Hi.
    by apply sub_all.
Qed.

Lemma sub_prefix_of n (b rest : bytes) : sub 0 n b `prefix_of` b ++ rest.
Proof. unfold sub. cbn [Z.to_nat drop]. exists (drop (Z.to_nat n) b ++ rest). by rewrite app_assoc, take_drop. Qed.

(** A save that says so has written the store; a crash leaves the old file or a prefix of the
    new one. *)
Lemma wp_save path st blob w (C : bytes -> Prop) :
  store_ok st blob -> C (file w) -> (forall f, f `prefix_of` image st blob -> C f) ->
  wp (alrios_vault_store_save_file (Some path) (Some st)) C
    (fun r w' => exists s, r = Ok s /\ (s = VAULT_OK -> file w' = image st blob)) w.
Proof.
  intros Hst Hc Hcp. pose proof (len_store_header _ _ Hst) as Hh. destruct Hst as [Hb Hl Hm _ _ _].
  assert (Hend : forall e w', e <> VAULT_OK -> exists s, Ok (A := Z) e = Ok s /\ (s = VAULT_OK -> file w' = image st blob)) by (intros e w' He; by exists e).
  unfold alrios_vault_store_save_file. rewrite Hb.
  replace (blob_len st =? 0) with false by lia. replace (blob_len st >? VAULT_MAX_BLOB_LEN) with false by lia. cbn [orb].
  unfold sys_unit. apply wp_bind, wp_bind, wp_event; [done|]. intros ev w1 [Hf1 _].
  destruct ev; [|apply wp_ret, wp_ret; by apply Hend|apply wp_ret, wp_ret; by apply Hend].
  apply wp_bind. unfold wp at 1, set_file. apply wp_ret. set (w2 := with_file _ w1).
  assert (H2 : file w2 = []) by done. clearbody w2. apply wp_bind, wp_sys_ok; [rewrite H2; apply Hcp, prefix_nil|]. intros stream w3 [Hf3 _].
  destruct stream; cbn [negb]; [|apply wp_ret; by apply Hend]. apply wp_bind.
  assert (Hclose : forall result w4, C (file w4) -> (result = VAULT_OK -> file w4 = image st blob) ->
    wp (let* r := close_file result in done_ r) C (fun r w' => exists s, r = Ok s /\ (s = VAULT_OK -> file w' = image st blob)) w4).
  { intros result w4 H4 Hr. apply wp_bind, wp_bind, wp_sys_ok; [done|]. intros b w5 [Hf5 _]. apply wp_ret, wp_ret.
    exists (if b then result else VAULT_ERR_IO). split; [done|]. destruct b; [|done]. intros E. rewrite Hf5. by apply Hr. }
  eapply wp_mono; [apply (wp_file_write_all _ []); [congruence|intros k; apply Hcp, sub_prefix_of]|].
  intros result w4 [Hok4 [k4 Hk4]]. cbn [app] in *. destruct (result =? VAULT_OK) eqn:E4; bool_hyps; cbn [negb].
  2:{ apply Hclose; [|done]. rewrite Hk4. apply Hcp, sub_prefix_of. }
  specialize (Hok4 E4). unfold mbind. apply wp_bind. rewrite rd_ok by lia. apply wp_ret. rewrite sub_all by lia.
  apply wp_bind. eapply wp_mono; [apply (wp_file_write_all _ (store_header st)); [done|]|].
  { intros k. apply Hcp. unfold image. apply prefix_app. rewrite <- (app_nil_r blob) at 2. apply sub_prefix_of. }
  intros result5 w5 [Hok5 [k5 Hk5]]. assert (Hc5 : C (file w5)).
  { rewrite Hk5. apply Hcp. unfold image. apply prefix_app. rewrite <- (app_nil_r blob) at 2. apply sub_prefix_of. }
  destruct (result5 =? VAULT_OK) eqn:E5; bool_hyps; cbn [negb]; [|by apply Hclose].
  apply wp_bind, wp_sys_ok; [done|]. intros flushed w6 [Hf6 _]. apply Hclose; [by rewrite Hf6|]. intros _. rewrite Hf6. by apply Hok5.
Qed.

Lemma wp_fread (C : bytes -> Prop) off n Q w :
  C (file w) -> (forall data w', file w' = file w -> (len data = n -> data = sub off n (file w)) -> Q data w') -> wp (fread off n) C Q w.
Proof.
  intros Hc HQ. unfold fread. apply wp_bind, wp_pread; [done|]. intros r w' [Hf _] Hr. apply wp_ret. apply HQ; [done|].
  destruct r as [data| |]; [|intros Hl; change (len (@nil Z)) with 0 in Hl; unfold sub; by rewrite <- Hl..].
  destruct (Hr data eq_refl) as (k & Hk & ->). intros Hl. pose proof (len_sub_le off k (file w)) as Hle.
  pose proof (len_nonneg (sub off k (file w))). destruct (Z.eq_dec k n) as [->|]; [done|]. assert (n = 0) as -> by lia.
  unfold sub. by replace (Z.to_nat k) with (Z.to_nat 0) by lia.
Qed.

(** A load that says so has read the store that was saved. *)
Lemma wp_load path st blob w (C : bytes -> Prop) :
  store_ok st blob -> file w = image st blob -> C (file w) ->
  wp (alrios_vault_store_load_file (Some path)) C
    (fun r w' => file w' = file w /\ match r with Ok st' => st' = st | Err e => bad e | Fault => False end) w.
Proof.
  intros Hst Hf Hc. pose proof (len_store_header _ _ Hst) as Hh. destruct (header_of_store _ _ Hst) as (_ & Hb & Hs & Hi & Ht).
  unfold alrios_vault_store_load_file. apply wp_bind, wp_sys_ok; [done|]. intros [] w1 [Hf1 _]; cbn [negb]; [|by apply wp_ret].
  apply wp_bind, wp_fread; [by rewrite Hf1|]. intros header w2 Hf2 Hd. destruct (negb (len header =? _) || _) eqn:E1; [apply wp_ret; split; [congruence|done]|].
  bool_hyps. unfold VAULT_FILE_HEADER_LEN in *. specialize (Hd ltac:(done)). rewrite Hf1, Hf in Hd. unfold image in Hd. rewrite sub_here in Hd by done.
  rewrite Hd, Hb, Hs, Hi, Ht in *. destruct (_ || _) eqn:E2; [apply wp_ret; split; [congruence|done]|].
  unfold mbind. apply wp_bind. eapply wp_mono; [eapply wp_weaken; [apply (mwp_allocate (E := bad) (F := False) (fun _ => True)); done|]|].
  { intros f <-. by rewrite Hf2, Hf1. }
  intros [[]|e|] w3 [Hf3 Hr]; [|apply wp_ret; split; [congruence|done]|done].
  apply wp_bind, wp_fread; [by rewrite Hf3, Hf2, Hf1|]. intros ciphertext w4 Hf4 Hd4.
  destruct (len ciphertext =? blob_len st) eqn:E3; bool_hyps; cbn [negb]; [|apply wp_ret; split; [congruence|done]].
  specialize (Hd4 ltac:(done)). rewrite Hf3, Hf2, Hf1, Hf in Hd4. unfold image in Hd4. rewrite sub_app_r in Hd4 by lia. rewrite Hh in Hd4.
  rewrite sub_all in Hd4 by (by rewrite (so_len _ _ Hst)). subst ciphertext.
  apply wp_bind. unfold more. apply wp_bind, wp_sys_ok; [by rewrite Hf4, Hf3, Hf2, Hf1|]. intros ok w5 [Hf5 _].
  apply wp_bind. unfold wp at 1, get_file. apply wp_ret. destruct (_ && _); [apply wp_ret; split; [congruence|done]|].
  apply wp_ret. split; [congruence|]. pose proof (so_blob _ _ Hst) as Hblob. clear - Hblob. destruct st. cbn in *. by rewrite Hblob.
Qed.

(** ** Undisturbed runs *)


Lemma smooth_close k result w (C : bytes -> Prop) Q :
  smooth (S k) w -> (forall w', file w' = file w -> smooth k w' -> Q (Ok result) w') ->
  wp (let* r := close_file result in done_ r) C Q w.
Proof.
  intros Hs HQ. apply wp_bind, wp_bind. eapply smooth_sys_ok; [done|]. intros w1 Hf1 Hs1. apply wp_ret, wp_ret. by apply HQ.
Qed.

Lemma smooth_file_write_all n f buffer w (C : bytes -> Prop) Q :
  smooth (S n) w -> file w = f -> 0 < len buffer <= SIZE_MAX ->
  (forall w', file w' = f ++ buffer -> smooth n w' -> Q VAULT_OK w') -> wp (file_write_all (len f) buffer) C Q w.
Proof.
  intros Hs Hf Hl HQ. unfold file_write_all. eapply smooth_loop2; [done|]. intros k.
  replace (0 <? len buffer) with true by lia. cbn [negb]. change (drop (Z.to_nat 0) buffer) with buffer. rewrite Z.sub_0_r, Z.add_0_r.
  apply wp_bind. eapply smooth_pwrite; [done|done|done|]. intros w1 Hf1 Hs1.
  replace (len buffer =? 0) with false by lia. apply wp_ret. rewrite Z.add_0_l. replace (len buffer <? len buffer) with false by lia.
  cbn [negb]. apply wp_ret, HQ; [|done]. rewrite Hf1, Hf. by apply splice_end.
Qed.

(** A save that nothing disturbs takes six events. *)
Lemma smooth_save n path st blob w (C : bytes -> Prop) Q :
  store_ok st blob -> smooth (6 + n) w ->
  (forall w', file w' = image st blob -> smooth n w' -> Q (Ok VAULT_OK) w') ->
  wp (alrios_vault_store_save_file (Some path) (Some st)) C Q w.
Proof.
  intros Hst Hs HQ. pose proof (len_store_header _ _ Hst) as Hh. destruct Hst as [Hb Hl Hm _ _ _].
  assert (Hsz : 0 < len blob <= SIZE_MAX) by (unfold VAULT_MAX_BLOB_LEN, SIZE_MAX, UINT64_MAX in *; lia).
  unfold alrios_vault_store_save_file. rewrite Hb.
  replace (blob_len st =? 0) with false by lia. replace (blob_len st >? VAULT_MAX_BLOB_LEN) with false by lia. cbn [orb].
  apply wp_bind. eapply (smooth_sys_unit _ _ (fun _ => [])); [exact Hs|done|]. intros w1 Hf1 Hs1.
  apply wp_bind. eapply smooth_sys_ok; [exact Hs1|]. intros w2 Hf2 Hs2. cbn [negb].
  apply wp_bind. eapply (smooth_file_write_all _ []); [exact Hs2|congruence|rewrite Hh; done|]. intros w3 Hf3 Hs3.
  change (negb (VAULT_OK =? VAULT_OK)) with false. cbv iota. unfold mbind. apply wp_bind. rewrite rd_ok by lia. apply wp_ret.
  rewrite sub_all by done. apply wp_bind. eapply (smooth_file_write_all _ (store_header st)); [exact Hs3|done|done|]. intros w4 Hf4 Hs4.
  change (negb (VAULT_OK =? VAULT_OK)) with false. cbv iota. apply wp_bind. eapply smooth_sys_ok; [exact Hs4|]. intros w5 Hf5 Hs5.
  eapply smooth_close; [exact Hs5|]. intros w6 Hf6 Hs6. apply HQ; [|done]. by rewrite Hf6, Hf5, Hf4.
Qed.

Lemma smooth_fread n off k w (C : bytes -> Prop) Q :
  smooth (S n) w -> k <= SIZE_MAX -> (forall w', file w' = file w -> smooth n w' -> Q (sub off k (file w)) w') ->
  wp (fread off k) C Q w.
Proof. intros Hs Hk HQ. apply wp_bind. eapply smooth_pread; [done|done|]. intros w1 Hf1 Hs1. by apply wp_ret, HQ. Qed.

(** So does a load, which takes five. *)
Lemma smooth_load n path st blob w (C : bytes -> Prop) Q :
  store_ok st blob -> file w = image st blob -> smooth (5 + n) w ->
  (forall w', file w' = file w -> smooth n w' -> Q (Ok st) w') ->
  wp (alrios_vault_store_load_file (Some path)) C Q w.
Proof.
  intros Hst Hf Hs HQ. pose proof (len_store_header _ _ Hst) as Hh. destruct (header_of_store _ _ Hst) as (Hmagic & Hb & Hsa & Hi & Ht).
  pose proof (so_max _ _ Hst) as Hm. unfold VAULT_MAX_BLOB_LEN in Hm. pose proof (so_len _ _ Hst) as Hl.
  unfold alrios_vault_store_load_file. apply wp_bind. eapply smooth_sys_ok; [exact Hs|]. intros w1 Hf1 Hs1. cbn [negb].
  apply wp_bind. eapply smooth_fread; [exact Hs1|done|]. intros w2 Hf2 Hs2. rewrite Hf1, Hf. unfold image.
  rewrite (sub_here 0 VAULT_FILE_HEADER_LEN (store_header st)) by done. rewrite Hh, Hmagic, Hb, Hsa, Hi, Ht.
  change (negb (60 =? VAULT_FILE_HEADER_LEN) || negb (bytes_eqb VAULT_FILE_MAGIC VAULT_FILE_MAGIC)) with false. cbv iota zeta.
  replace (blob_len st =? 0) with false by lia. replace (blob_len st >? VAULT_MAX_BLOB_LEN) with false by (unfold VAULT_MAX_BLOB_LEN; lia). cbn [orb].
  unfold mbind. apply wp_bind. eapply (exact_smooth _ 1 (2 + n) tt); [apply exact_allocate|by apply Hs2|]. intros w3 Hf3 Hs3.
  apply wp_bind. eapply smooth_fread; [exact Hs3|unfold SIZE_MAX, UINT64_MAX; lia|]. intros w4 Hf4 Hs4. rewrite Hf3, Hf2, Hf1, Hf. unfold image.
  assert (Hc : sub VAULT_FILE_HEADER_LEN (blob_len st) (store_header st ++ blob) = blob).
  { rewrite sub_app_r by (rewrite Hh; done). rewrite Hh. by apply sub_all. }
  rewrite Hc, Hl, Z.eqb_refl. cbn [negb]. apply wp_bind, wp_bind. eapply smooth_sys_ok; [exact Hs4|]. intros w5 Hf5 Hs5.
  apply wp_bind. unfold wp at 1, get_file. apply wp_ret. rewrite Hf5, Hf4, Hf3, Hf2, Hf1, Hf. unfold image. rewrite len_app, Hh, Hl.
  replace (_ <? _) with false by (unfold VAULT_FILE_HEADER_LEN; lia). cbn [andb]. apply wp_ret.
  replace (mk_store (Some blob) (blob_len st) (salt st) (iv st) (tag st)) with st; [apply HQ; [congruence|done]|].
  pose proof (so_blob _ _ Hst) as Hblob. clear - Hblob. destruct st. cbn in *. by rewrite Hblob.
Qed.

Lemma smooth_attempt {A} (m : may A) n k a (C : bytes -> Prop) w Q :
  exact m n a -> smooth (n + k) w -> (forall w', file w' = file w -> smooth k w' -> Q (Ok (inr a)) w') ->
  wp (attempt m) C Q w.
Proof. intros He Hs HQ. apply wp_bind. eapply exact_smooth; [done|done|]. intros w' Hf Hs'. by apply wp_ret, HQ. Qed.

(** ** Documents *)

Lemma commas_long {A} (print : A -> bytes) (size : A -> Z) items :
  (forall i, size i <= len (print i)) -> foldr (fun i n => size i + n) 0 items <= len (commas (map print items)).
Proof.
  intros H. induction items as [|i [|j items] IH]; [done| |]; pose proof (H i) as Hi.
  - cbn [map commas foldr]. lia.
  - cbn [map commas foldr] in *. rewrite len_app, len_cons. lia.
Qed.

Lemma entry_long e : len (entry_records e) <= len (print_entry e).
Proof.
  destruct e as [app_id secrets|key value]; cbn [entry_records print_entry].
  - transitivity (foldr (fun _ n => 1 + n) 0 secrets).
    + induction secrets as [|s secrets IH]; [done|]. cbn [map foldr]. rewrite len_cons. lia.
    + rewrite !len_app. unfold print_secrets. rewrite (len_cons 123), len_app. pose proof (len_nonneg (print_string app_id)).
      pose proof (len_nonneg [58]). pose proof (len_nonneg [125]). etransitivity; [apply (commas_long print_secret (fun _ => 1))|lia].
      intros s. unfold print_secret, print_string. rewrite len_app, (len_cons 34). pose proof (len_nonneg (concat (map escape s.1) ++ [34])).
      pose proof (len_nonneg ([58] ++ 34 :: concat (map escape s.2) ++ [34])). lia.
  - unfold print_secret, print_string. rewrite len_app, (len_cons 34). pose proof (len_nonneg (concat (map escape (key, value).1) ++ [34])).
    pose proof (len_nonneg ([58] ++ 34 :: concat (map escape (key, value).2) ++ [34])). unfold len at 1. cbn [length]. lia.
Qed.

Lemma document_long es : len (all_records es) <= len (print_json es).
Proof.
  transitivity (foldr (fun e n => len (entry_records e) + n) 0 es).
  - unfold all_records. induction es as [|e es IH]; [done|]. cbn [map concat foldr]. rewrite len_app. lia.
  - etransitivity; [apply (commas_long print_entry _ es entry_long)|]. unfold print_json. rewrite len_cons, len_app.
    pose proof (len_nonneg [125]). lia.
Qed.

(** A document that a vault can keep. *)
Record document_ok (es : list entry) : Prop := {
  doc_entries : es <> [];
  doc_ok : Forall entry_ok es;
  doc_size : len (print_json es) <= VAULT_MAX_BLOB_LEN;
}.

Lemma document_text es : document_ok es -> text_ok (print_json es).
Proof.
  intros [_ Hok H]. split; [split; [|done]|eapply list.Forall_impl; [by apply print_json_chars|by unfold char_ok, byte_ok; lia]]. unfold print_json. rewrite len_cons. pose proof (len_nonneg (commas (map print_entry es) ++ [125])). lia.
Qed.

Lemma document_parses es : document_ok es ->
  exists rs, records rs = all_records es /\ exact (parse_records (print_json es ++ [0])) (entry_costs es) rs.
Proof.
  intros [H1 H2 H3]. apply exact_json; [done|done|]. pose proof (document_long es). unfold VAULT_MAX_BLOB_LEN in H3. lia.
Qed.

Lemma mwp_conj {A} (m : may A) (Q Q' : A -> Prop) (E E' : Z -> Prop) (F F' : Prop) :
  mwp m Q E F -> mwp m Q' E' F' -> mwp m (fun a => Q a /\ Q' a) (fun e => E e /\ E' e) (F /\ F').
Proof.
  intros H H' w. specialize (H w). specialize (H' w). unfold wp in *. destruct (m w) as [[r| |] w']; [|done|done].
  destruct H as [Hf Hr], H' as [_ Hr']. split; [done|]. by destruct r.
Qed.

(** What was sealed is all that a sealed store opens to. *)
Lemma sealed_opens text key_material random_salt random_iv text' :
  text_ok text -> len random_iv = 12 -> opens (sealed text key_material random_salt random_iv) key_material text' -> text' = text.
Proof.
  intros [[Ht _] Htb] Hiv (blob & Hb & Ho). unfold sealed in *.
  pose proof (gcm_open_seal (c := crypto) (store_key random_salt key_material) random_iv text (store_key_len _ _) Hiv Htb) as Hs.
  destruct (gcm_seal_len (c := crypto) (store_key random_salt key_material) random_iv text) as [Hl _].
  destruct (gcm_seal _ _ text) as [ciphertext tag']. cbn in *. injection Hb as <-. rewrite sub_all in Ho by done. congruence.
Qed.

Lemma document_safe es text key_material random_salt random_iv :
  document_ok es -> len random_iv = 12 -> opens (sealed (print_json es) key_material random_salt random_iv) key_material text ->
  mwp (parse_records (text ++ [0])) (fun rs => records rs = all_records es /\ costs (records rs) <= len text + 1) bad False.
Proof.
  intros Hes Hiv Ho. pose proof (parse_safe _ _ _ Ho) as Hp. pose proof (sealed_opens _ _ _ _ _ (document_text es Hes) Hiv Ho) as ->.
  destruct (document_parses es Hes) as (rs & Hr & He). pose proof (mwp_conj _ _ _ _ _ _ _ Hp (exact_mwp _ _ _ He)) as H.
  eapply mwp_weaken; [exact H| | |].
  - intros rs' [[_ Hc] <-]. by rewrite Hr in *.
  - by intros e [? _].
  - by intros [_ ?].
Qed.

(** The document is longer than what is read from it. *)
Lemma document_costs es : document_ok es -> costs (all_records es) <= len (print_json es) + 1.
Proof.
  intros Hes. destruct (document_parses es Hes) as (rs & Hr & He).
  assert (Hb : bytes_ok (print_json es ++ [0])) by (apply Forall_app; split; [by apply document_text|by apply list.Forall_singleton]).
  set (w := mk_world [] 0 (replicate (entry_costs es + 0) (Go SIZE_MAX))).
  pose proof (parse_records_safe _ Hb ltac:(apply in_or_app; right; by left) w) as Hp. specialize (He w). unfold wp in Hp.
  destruct (parse_records _ w) as [r w']. destruct He as (_ & _ & He). destruct (He 0%nat) as [-> _]; [by exists (entry_costs es + 0)%nat|].
  destruct Hp as (_ & _ & _ & Hc). rewrite Hr, len_app in Hc. exact Hc.
Qed.

(** What the injection of [rs] leaves: status and buffer. *)
Definition given (app_id : option bytes) (keys : option (list (option bytes))) (n : Z) (rs : list record) (buf : bytes) : Z * bytes :=
  let text := env_text (chosen app_id keys n rs) in
  if match app_id with Some _ => len (chosen app_id keys n rs) =? 0 | None => false end then (VAULT_ERR_NOT_FOUND, zeros (len buf))
  else (VAULT_OK, text ++ 0 :: drop (length text + 1) buf).

(** The arguments of an injection that are not refused. *)
Definition request_ok (app_id : option bytes) (keys : option (list (option bytes))) (n : Z) : Prop :=
  match app_id with Some _ => is_valid_app_id app_id = true | None => True end /\ (0 < n -> is_Some keys).

Lemma smooth_inject es key_material random_salt random_iv app_id keys n buf k w (C : bytes -> Prop) Q :
  document_ok es -> material_ok key_material -> request_ok app_id keys n ->
  len random_iv = 12 -> len (print_json es) + 1 < len buf < 2 ^ 62 -> smooth (8 + entry_costs es + k) w ->
  (forall w', file w' = file w -> smooth k w' -> Q (Ok (given app_id keys n (all_records es) buf)) w') ->
  wp (alrios_vault_decrypt_and_inject_for_app (Some (sealed (print_json es) key_material random_salt random_iv)) (Some key_material)
        app_id keys n buf) C Q w.
Proof.
  intros Hes Hm [Ha Hk] Hiv Hb Hs HQ. pose proof (document_text es Hes) as Ht. destruct (document_parses es Hes) as (rs & Hr & Hp).
  pose proof (document_costs es Hes) as Hc. pose proof (chosen_costs app_id keys n (all_records es)) as Hcc.
  assert (Hsalt : salt (sealed (print_json es) key_material random_salt random_iv) = random_salt) by (unfold sealed; by destruct (gcm_seal _ _ _)).
  unfold alrios_vault_decrypt_and_inject_for_app.
  replace (len key_material =? 0) with false by (destruct Hm; lia).
  replace (match app_id with Some _ => negb (is_valid_app_id app_id) | None => false end) with false by (destruct app_id; by rewrite ?Ha).
  replace ((n >? 0) && match keys with None => true | Some _ => false end) with false
    by (destruct keys; [by rewrite andb_false_r|]; destruct (n >? 0) eqn:E; [|done]; bool_hyps; by destruct (Hk ltac:(lia))).
  pose proof (len_nonneg (print_json es)). replace (len buf =? 0) with false by lia. cbn [orb].
  destruct buf as [|b0 buf]; [change (len (@nil Z)) with 0 in Hb; lia|].
  assert (Hst0 : VaultText.store 0 [0] (b0 :: buf) = Ok (0 :: buf)).
  { unfold VaultText.store. change (len [0]) with 1. rewrite len_cons. pose proof (len_nonneg buf). by replace (0 + 1 <=? 1 + len buf) with true by lia. }
  rewrite Hst0. unfold mbind at 1. apply wp_bind, wp_ret. unfold mbind at 1. apply wp_bind.
  eapply (smooth_attempt _ (1 + 7) (entry_costs es + k)).
  { eapply exact_bind; [by apply derive_exact|]. rewrite Hsalt. by apply open_exact. }
  { exact Hs. }
  intros w1 Hf1 Hs1. unfold mbind at 1. apply wp_bind. eapply smooth_attempt; [exact Hp|exact Hs1|]. intros w2 Hf2 Hs2.
  assert (Hlen : len (0 :: buf) = len (b0 :: buf)) by (by rewrite !len_cons). rewrite <- Hlen in Hb.
  rewrite Hr, render_fits by lia. unfold mbind. apply wp_bind, wp_ret.
  assert (Hq : forall r, r = given app_id keys n (all_records es) (b0 :: buf) -> wp (done_ r) C Q w2).
  { intros r ->. apply wp_ret, HQ; [congruence|done]. }
  unfold given in Hq. destruct (match app_id with Some _ => _ | None => false end); apply Hq; [by rewrite !Hlen, len_zeros by apply len_nonneg|].
  change (negb (VAULT_OK =? VAULT_OK)) with false. cbv iota. do 3 f_equal. by rewrite !Nat.add_1_r.
Qed.

(** ** The life of a secret *)

(** A document is sealed, kept in a file, loaded from it and given to an application. *)
Definition keep_and_inject (text key_material random_salt random_iv path : bytes) (app_id : option bytes)
    (keys : option (list (option bytes))) (n : Z) (buf : bytes) : may (Z * bytes) :=
  let+ st := alrios_vault_encrypt_store (Some text) (Some key_material) random_salt random_iv in
  let+ saved := alrios_vault_store_save_file (Some path) (Some st) in
  if negb (saved =? VAULT_OK) then fail saved
  else
    let+ st := alrios_vault_store_load_file (Some path) in
    alrios_vault_decrypt_and_inject_for_app (Some st) (Some key_material) app_id keys n buf.

Lemma keep_calm es key_material random_salt random_iv path app_id keys n buf w :
  document_ok es -> material_ok key_material -> len random_salt = 16 -> len random_iv = 12 -> request_ok app_id keys n ->
  len (print_json es) + 1 < len buf < 2 ^ 62 -> smooth (30 + entry_costs es) w ->
  wp (keep_and_inject (print_json es) key_material random_salt random_iv path app_id keys n buf) (fun _ => False)
    (fun r _ => r = Ok (given app_id keys n (all_records es) buf)) w.
Proof.
  intros Hes Hm Hsa Hiv Hrq Hb Hs. pose proof (document_text es Hes) as Ht.
  destruct (sealed_ok _ key_material random_salt random_iv Ht Hsa Hiv) as [blob Hst]. unfold keep_and_inject.
  unfold mbind at 1. apply wp_bind. eapply (exact_smooth _ 11 (19 + entry_costs es)); [by apply seal_exact|exact Hs|]. intros w1 _ Hs1.
  unfold mbind at 1. apply wp_bind. eapply smooth_save; [done|exact Hs1|]. intros w2 Hf2 Hs2.
  change (negb (VAULT_OK =? VAULT_OK)) with false. cbv iota. unfold mbind at 1. apply wp_bind.
  eapply smooth_load; [done|done|exact Hs2|]. intros w3 _ Hs3.
  eapply (smooth_inject _ _ _ _ _ _ _ _ 0); [done|done|done|done|done| |done]. by rewrite Nat.add_0_r.
Qed.

(** The injection of a document's store, however it goes. *)
Lemma document_inject es key_material random_salt random_iv app_id keys n buf :
  document_ok es -> len random_salt = 16 -> len random_iv = 12 -> len (print_json es) + 1 < len buf < 2 ^ 62 ->
  mwp (alrios_vault_decrypt_and_inject_for_app (Some (sealed (print_json es) key_material random_salt random_iv)) (Some key_material)
         app_id keys n buf)
    (injected app_id keys n (eq (all_records es)) buf) (fun _ => False) False.
Proof.
  intros Hes Hsa Hiv Hb. pose proof (document_text es Hes) as Ht.
  destruct (sealed_ok _ key_material random_salt random_iv Ht Hsa Hiv) as [blob Hst].
  assert (Hl : blob_len (sealed (print_json es) key_material random_salt random_iv) = len (print_json es)) by (unfold sealed; by destruct (gcm_seal _ _ _)).
  apply inject_safe.
  - split; [pose proof (so_max _ _ Hst); lia|]. intros b E. rewrite (so_blob _ _ Hst) in E. injection E as <-. by rewrite (so_len _ _ Hst).
  - by rewrite Hl.
  - intros text Ho. eapply mwp_mono; [by eapply document_safe|]. intros rs [-> Hc]. by split.
Qed.

Lemma keep_disturbed es key_material random_salt random_iv path app_id keys n buf w :
  document_ok es -> material_ok key_material -> len random_salt = 16 -> len random_iv = 12 ->
  len (print_json es) + 1 < len buf < 2 ^ 62 ->
  wp (keep_and_inject (print_json es) key_material random_salt random_iv path app_id keys n buf) (fun _ => True)
    (fun r _ => match r with
                | Ok result => injected app_id keys n (eq (all_records es)) buf result
                | Err _ => True
                | Fault => False
                end) w.
Proof.
  intros Hes Hm Hsa Hiv Hb. pose proof (document_text es Hes) as Ht.
  destruct (sealed_ok _ key_material random_salt random_iv Ht Hsa Hiv) as [blob Hst]. unfold keep_and_inject.
  unfold mbind at 1. apply wp_bind. eapply wp_mono; [eapply exact_wp; [by apply seal_exact|done]|].
  intros r w1 [_ [-> | [e ->]]]; [|by apply wp_ret]. unfold mbind at 1. apply wp_bind.
  eapply wp_mono; [by apply (wp_save path _ blob)|]. intros r w2 (s & -> & Hf2). destruct (s =? VAULT_OK) eqn:Es; bool_hyps; cbn [negb]; [|by apply wp_ret].
  unfold mbind. apply wp_bind. eapply wp_mono; [apply (wp_load path (sealed (print_json es) key_material random_salt random_iv) blob); [done|by apply Hf2|done]|].
  intros [st|e|] w3 [_ Hl]; [|by apply wp_ret|done]. subst st.
  eapply wp_mono; [eapply wp_weaken; [by apply document_inject|done]|]. intros r w4 [_ Hr]. by destruct r.
Qed.

(** C15: What is kept in the vault is what is given out. A document of secrets is sealed with
    a key or a passphrase, saved to a file, loaded from it and injected for an application.
    If no call fails, the status and the buffer are exactly the settings of the records of
    the document that the application may have, in the order of the document, or that there
    are none; control characters and quotes in values come back from their JSON escapes.
    Whatever fails in between, an injection that succeeds puts exactly these settings in the
    buffer, and one that fails leaves no secret there. *)
Theorem vault_roundtrip es key_material random_salt random_iv path app_id keys n buf w :
  document_ok es -> material_ok key_material -> len random_salt = 16 -> len random_iv = 12 -> request_ok app_id keys n ->
  len (print_json es) + 1 < len buf < 2 ^ 62 ->
  let run := keep_and_inject (print_json es) key_material random_salt random_iv path app_id keys n buf in
  (smooth (30 + entry_costs es) w -> wp run (fun _ => False) (fun r _ => r = Ok (given app_id keys n (all_records es) buf)) w) /\
  wp run (fun _ => True)
    (fun r _ => match r with
                | Ok result => injected app_id keys n (eq (all_records es)) buf result
                | Err _ => True
                | Fault => False
                end) w.
Proof. intros. split; [intros; by apply keep_calm|by apply keep_disturbed]. Qed.

(** C16: The outcomes of an injection. For every store that holds as many octets as it says,
    whoever made it, any key material and a buffer of any size: success means that the store
    opened with its tag right, and the buffer is the settings of the records of that text that
    belong to the application and are authorised, with a terminator behind; an error means
    that the buffer holds no secret (it is zeros, or what it was but for a first terminator).
    An octet outside a buffer is touched in two cases only: a text that ends inside a [\u]
    escape is read behind its end, and lines that fill the buffer to its last octet have
    their terminator stored behind it; a buffer with room for more than the text and a
    terminator is never left. *)
Theorem injection_isolated st key_material app_id keys n buf w :
  store_sound st -> len buf < 2 ^ 62 ->
  wp (alrios_vault_decrypt_and_inject_for_app (Some st) (Some key_material) app_id keys n buf) (fun _ => True)
    (fun r w' => file w' = file w /\
       match r with
       | Ok (status, env) => len env = len buf /\
           ((status = VAULT_OK /\ exists rs, secrets_of st key_material rs /\ cstr env = env_text (chosen app_id keys n rs) /\
               (is_Some app_id -> chosen app_id keys n rs <> [])) \/
            (status <> VAULT_OK /\ (env = zeros (len buf) \/ env = buf \/ env = 0 :: drop 1 buf)))
       | Err _ => False
       | Fault => cut_short st key_material \/
           (len buf <= blob_len st + 1 /\ exists rs, secrets_of st key_material rs /\ fills (chosen app_id keys n rs) (len buf))
       end) w.
Proof.
  intros Hst Hb. eapply wp_mono; [eapply wp_weaken; [apply (inject_any st key_material app_id keys n buf
    (fun rs => secrets_of st key_material rs /\ costs rs <= blob_len st + 1) (cut_short st key_material) Hst Hb)|done]|].
  - intros text Ho. eapply mwp_mono; [by apply parse_safe|]. intros rs [Hp Hc]. split; [by exists text|]. by rewrite <- (opens_len _ _ _ Hst Ho).
  - intros [[status env]|e|] w' [Hf Hr]; (split; [done|]); try done.
    + destruct Hr as [Hl Hr]. cbn [fst snd] in *. split; [done|]. destruct Hr as [(? & rs & rest & [Hrs _] & -> & Hne)|[? ?]]; [left|by right].
      split; [done|]. exists rs. split_and!; [done| |done]. pose proof (secrets_ok _ _ _ Hrs). by rewrite cstr_of_text by (by apply env_chars, chosen_ok).
    + destruct Hr as [?|(rs & [Hrs Hc] & Hfi)]; [by left|right]. split; [|by exists rs].
      apply fills_cost in Hfi. pose proof (chosen_costs app_id keys n rs). lia.
Qed.

(** What the process of an application is started with. Both forms that allocate for
    themselves make a buffer that is always big enough and an array of as many pointers as
    there are lines and one more, whatever the secrets are. The environment is one string per
    record the application may have, [KEY=VALUE], if no value has a line feed in it; the
    memory file holds the same lines, complete, before it is sealed and handed out. *)
Theorem process_gets_its_secrets st key_material app_id keys n w :
  store_sound st ->
  wp (alrios_vault_inject_envp_for_app (Some st) (Some key_material) app_id keys n) (fun _ => True)
    (fun r _ => match r with
       | Ok envp => exists rs, secrets_of st key_material rs /\
           let mine := chosen app_id keys n rs in
           (Forall (fun r => Forall (fun c => newline c = false) (r_value r)) mine -> envp = map setting mine)
       | Err e => e <> VAULT_OK
       | Fault => cut_short st key_material
       end) w /\
  wp (alrios_vault_inject_memfd_for_app (Some st) (Some key_material) app_id keys n) (fun _ => True)
    (fun r w' => match r with
       | Ok _ => exists rs, secrets_of st key_material rs /\
           file w' = env_text (chosen app_id keys n rs) /\ (is_Some app_id -> chosen app_id keys n rs <> [])
       | Err e => e <> VAULT_OK
       | Fault => cut_short st key_material
       end) w.
Proof.
  intros Hst. split; [|by apply memfd_wp].
  eapply wp_mono; [eapply wp_weaken; [by apply envp_safe|done]|]. intros [envp|e|] w' [_ Hr]; [|done..].
  destruct Hr as (rs & Hrs & ->). exists rs. split; [done|]. cbv zeta. intros Hv. apply tokens_settings.
  pose proof (chosen_ok app_id keys n rs (secrets_ok _ _ _ Hrs)) as Hok. rewrite Forall_forall in *.
  intros r Hr. split; [by apply Hok|by apply Hv].
Qed.
End Laws.

(** A store that is sealed for another number of iterations than the default is not opened
    with its passphrase: the injection derives the key with the default. *)
Lemma passphrase_iterations_lost store passphrase iterations :
  len passphrase <> 32 -> 0 < len passphrase <= INT_MAX -> 0 < iterations <= INT_MAX ->
  exact (derive_store_key store passphrase iterations) 1 (pbkdf2 passphrase (salt store) iterations) /\
  exact (derive_store_key store passphrase 0) 1 (pbkdf2 passphrase (salt store) VAULT_DEFAULT_PBKDF2_ITERS).
Proof.
  intros Hl Hp Hi. assert (Hk : forall i, 0 < i <= INT_MAX -> exact (alrios_vault_derive_key_pbkdf2 (Some passphrase) (Some (salt store)) i) 1
                                          (pbkdf2 passphrase (salt store) i)).
  { intros i Hi'. unfold alrios_vault_derive_key_pbkdf2, checked_size_to_int. replace (len passphrase =? 0) with false by lia.
    replace (len passphrase >? INT_MAX) with false by lia. replace (i =? 0) with false by lia. replace (i >? INT_MAX) with false by lia.
    cbn [orb negb]. change 1%nat with (1 + 0)%nat. apply exact_sys_ok; [apply exact_done|apply fails_fail]. }
  unfold derive_store_key. replace (len passphrase =? 0) with false by lia. replace (len passphrase =? VAULT_KEY_LEN) with false by (unfold VAULT_KEY_LEN; lia).
  cbn [andb]. replace (iterations =? 0) with false by lia. change (0 =? 0) with true. cbv iota. split; by apply Hk.
Qed.
End Vault.

(** ** Runs *)

(** A cipher that adds to every octet, and a tag that is the beginning of the key. *)
#[local] Instance toy : VaultCrypto := {
  gcm_seal key iv text := (map (fun x => (x + 7) mod 256) text, sub 0 16 (key ++ zeros 16));
  gcm_open key iv ciphertext tag :=
    if bytes_eqb tag (sub 0 16 (key ++ zeros 16)) then Some (map (fun x => (x - 7) mod 256) ciphertext) else None;
  pbkdf2 passphrase salt iterations := sub 0 32 (passphrase ++ salt ++ zeros 32);
  hkdf key salt info := sub 0 32 (key ++ salt ++ info ++ zeros 32);
}.

Lemma len_padded b n : 0 <= n -> len (sub 0 n (b ++ zeros n)) = n.
Proof. intros. apply len_sub; [lia|lia|]. rewrite len_app, len_zeros by lia. pose proof (len_nonneg b). lia. Qed.

Lemma toy_back text : bytes_ok text -> map (fun x => (x - 7) mod 256) (map (fun x => (x + 7) mod 256) text) = text.
Proof.
  intros H. rewrite map_map. rewrite <- (map_id text) at 2. apply map_ext_in. intros x Hx. unfold bytes_ok in H. rewrite Forall_forall in H.
  specialize (H x Hx). unfold byte_ok in H. rewrite Zminus_mod_idemp_l. replace (x + 7 - 7) with x by lia. apply Z.mod_small. lia.
Qed.

Lemma len_map (f : Z -> Z) l : len (map f l) = len l.
Proof. unfold len. by rewrite length_map. Qed.

#[local] Instance toy_laws : VaultLaws toy.
Proof.
  split; cbn [gcm_seal gcm_open pbkdf2 hkdf toy fst snd].
  - intros key iv text _ _ Hb. cbn. rewrite (proj2 (bytes_eqb_eq _ _)) by done. by rewrite toy_back.
  - intros key iv text. split; [by rewrite len_map|by apply len_padded].
  - intros key iv ciphertext tag text. cbn. destruct (bytes_eqb _ _); [|done]. intros [= <-]. split; [by rewrite len_map|].
    apply Forall_forall. intros y Hy. apply in_map_iff in Hy as (x & <- & _). unfold byte_ok. by apply Z.mod_pos_bound.
  - intros. rewrite app_assoc. by apply len_padded.
  - intros. rewrite !app_assoc. by apply len_padded.
Qed.

(** The application [app] has a password with a quote and a tab in it; [TOKEN] is anyone's. *)
Definition sample_document : list entry :=
  [AppSecrets (lit "app") [(lit "PASSWORD", [97; 34; 9; 98])]; Secret (lit "TOKEN") (lit "t0"); AppSecrets (lit "other") [(lit "KEY", lit "x")]].

Definition calm_world : world := mk_world [] 0 (replicate 200 (Go SIZE_MAX)).

Lemma secret_check s :
  is_valid_secret_key (Some s.1) && forallb (fun c => (0 <? c) && (c <? 256)) s.2 && (len s.2 <=? VAULT_MAX_BLOB_LEN) = true -> secret_ok s.
Proof.
  intros H. apply andb_prop in H as [H Hl]. apply andb_prop in H as [Hk Hc]. rewrite forallb_forall in Hc.
  split_and!; [done| |lia]. apply Forall_forall. intros c Hi. specialize (Hc c Hi). cbn beta in Hc. unfold char_ok. lia.
Qed.

Lemma sample_document_ok : document_ok sample_document.
Proof.
  split; [done| |by vm_compute]. unfold sample_document.
  repeat (apply list.Forall_cons; split); try apply Forall_nil_2; cbn [entry_ok].
  - split_and!; [by vm_compute|done|]. apply list.Forall_singleton, secret_check. by vm_compute.
  - apply secret_check. by vm_compute.
  - split_and!; [by vm_compute|done|]. apply list.Forall_singleton, secret_check. by vm_compute.
Qed.

Example sample_run :
  fst (keep_and_inject (print_json sample_document) (lit "passphrase") (zeros 16) (zeros 12) (lit "vault") (Some (lit "app")) None 0 (zeros 200) calm_world)
  = Ret (Ok (given (Some (lit "app")) None 0 (all_records sample_document) (zeros 200))).
Proof. by vm_compute. Qed.

Definition sample_store : vault_store := sealed (print_json sample_document) (lit "passphrase") (zeros 16) (zeros 12).

Lemma sample_sound : store_sound sample_store.
Proof. split; [by vm_compute|]. intros blob [= <-]. by vm_compute. Qed.

Lemma vault_roundtrip_witness :
  wp (keep_and_inject (print_json sample_document) (lit "passphrase") (zeros 16) (zeros 12) (lit "vault") (Some (lit "app")) None 0 (zeros 200))
    (fun _ => False) (fun r _ => r = Ok (given (Some (lit "app")) None 0 (all_records sample_document) (zeros 200))) calm_world.
Proof.
  refine (proj1 (vault_roundtrip toy_laws sample_document (lit "passphrase") (zeros 16) (zeros 12) (lit "vault") (Some (lit "app")) None 0
                   (zeros 200) calm_world _ _ _ _ _ _) _).
  - exact sample_document_ok.
  - by vm_compute.
  - done.
  - done.
  - by vm_compute.
  - by vm_compute.
  - exists 200%nat. split; [by apply Nat.leb_le; vm_compute|done].
Defined.

Lemma injection_isolated_witness :
  wp (alrios_vault_decrypt_and_inject_for_app (Some sample_store) (Some (lit "passphrase")) (Some (lit "app")) None 0 (zeros 200)) (fun _ => True)
    (fun r w' => file w' = [] /\
       match r with
       | Ok (status, env) => len env = 200 /\
           ((status = VAULT_OK /\ exists rs, secrets_of sample_store (lit "passphrase") rs /\ cstr env = env_text (chosen (Some (lit "app")) None 0 rs) /\
               (is_Some (Some (lit "app")) -> chosen (Some (lit "app")) None 0 rs <> [])) \/
            (status <> VAULT_OK /\ (env = zeros 200 \/ env = zeros 200 \/ env = 0 :: drop 1 (zeros 200))))
       | Err _ => False
       | Fault => cut_short sample_store (lit "passphrase") \/
           (200 <= blob_len sample_store + 1 /\
            exists rs, secrets_of sample_store (lit "passphrase") rs /\ fills (chosen (Some (lit "app")) None 0 rs) 200)
       end) calm_world.
Proof.
  refine (injection_isolated toy_laws sample_store (lit "passphrase") (Some (lit "app")) None 0 (zeros 200) calm_world _ _); [exact sample_sound|by vm_compute].
Defined.

Lemma process_gets_its_secrets_witness :
  wp (alrios_vault_inject_memfd_for_app (Some sample_store) (Some (lit "passphrase")) (Some (lit "app")) None 0) (fun _ => True)
    (fun r w' => match r with
       | Ok _ => exists rs, secrets_of sample_store (lit "passphrase") rs /\
           file w' = env_text (chosen (Some (lit "app")) None 0 rs) /\ (is_Some (Some (lit "app")) -> chosen (Some (lit "app")) None 0 rs <> [])
       | Err e => e <> VAULT_OK
       | Fault => cut_short sample_store (lit "passphrase")
       end) calm_world.
Proof.
  refine (proj2 (process_gets_its_secrets toy_laws sample_store (lit "passphrase") (Some (lit "app")) None 0 calm_world _)). exact sample_sound.
Defined.

(** ** What the code does at its edges *)

(** Four octets behind the text are looked at when it ends with a [\u]. *)
Example unicode_cut_short : fst (parse_records (lit "{" ++ [34; 92; 117; 0]) calm_world) = Ret Fault.
Proof. by vm_compute. Qed.

(** The error of a bad [\u] escape is forgotten at the next good one. *)
Example bad_unicode_accepted :
  match fst (parse_records (lit "{" ++ [34; 75; 34; 58; 34] ++ lit "\u0000\u0041" ++ [34] ++ lit "}" ++ [0]) calm_world) with
  | Ret (Ok rs) => records rs = [mk_record None (lit "K") (lit "A")]
  | _ => False
  end.
Proof. by vm_compute. Qed.

(** A line feed in a value makes it two strings of the environment, the second of which may be
    a setting that was not authorised. *)
Example line_feed_splits :
  fst (keep_and_inject (print_json [Secret (lit "A") (lit "1" ++ [10] ++ lit "B=2")]) (lit "k") (zeros 16) (zeros 12) (lit "vault") None
        (Some [Some (lit "A")]) 1 (zeros 200) calm_world)
  = Ret (Ok (VAULT_OK, lit "A=1" ++ [10] ++ lit "B=2" ++ [10] ++ zeros 192)) /\
  tokens newline (lit "A=1" ++ [10] ++ lit "B=2" ++ [10]) [] = [lit "A=1"; lit "B=2"].
Proof. by vm_compute. Qed.

(** The lines [A=1] and [B=2] take eight octets; in a buffer of eight the terminator is
    written behind it. *)
Example exact_buffer_overrun :
  fst (keep_and_inject (print_json [Secret (lit "A") (lit "1"); Secret (lit "B") (lit "2")]) (lit "k") (zeros 16) (zeros 12) (lit "vault") None
        None 0 (zeros 8) calm_world) = Ret Fault.
Proof. by vm_compute. Qed.
