(* ===== verification/VaultMatrix.v ===== *)
(** The two vaults that live in memory only: the key and value pairs of
    src/libraries/vault/vault.c, and the configuration matrix that
    src/platform/core/vault_loader.c validates and turns into an environment.

    Keys and values are the C arrays they are stored in; what the caller passes are C strings,
    without their terminator. Memory that is freed is not modelled but for what is in it. *)

From stdpp Require Import gmap.
From S2P Require Import Prelude Posix VaultText.

(** ** Pairs *)

Definition ALRIOS_VAULT_MAX_ENTRIES : Z := 128.

Definition ALRIOS_VAULT_KEY_MAX : Z := 64.

Definition ALRIOS_VAULT_VAL_MAX : Z := 1024.

Record slot := mk_slot {
  key : bytes;
  value : bytes;
}.

Record vault := mk_vault {
  count : Z;
  entries : list slot;
}.

Definition cleared : vault :=
  mk_vault 0 (replicate (Z.to_nat ALRIOS_VAULT_MAX_ENTRIES) (mk_slot (zeros ALRIOS_VAULT_KEY_MAX) (zeros ALRIOS_VAULT_VAL_MAX))).

Definition alrios_vault_init (v : option vault) : Z * option vault :=
  match v with
  | None => (-1, None)
  | Some _ => (0, Some cleared)
  end.

(** [strncpy(dst, src, n)]: at most [n] octets, padded with zeros up to [n]. *)
Definition strncpy (n : Z) (src dst : bytes) : bytes := sub 0 n (src ++ zeros n) ++ drop (Z.to_nat n) dst.

(** [strcmp(entries[i].key, key) == 0] for the first such [i]. *)
Fixpoint find_key (l : list slot) (k : bytes) : option nat :=
  match l with
  | [] => None
  | s :: l => if bytes_eqb (cstr (key s)) k then Some O else S <$> find_key l k
  end.

(** The entries in use. *)
Definition used (v : vault) : list slot := take (Z.to_nat (count v)) (entries v).

Definition alrios_vault_set (v : option vault) (k val : option bytes) : Z * option vault :=
  match v, k, val with
  | Some v0, Some k, Some val =>
      if count v0 >=? ALRIOS_VAULT_MAX_ENTRIES then (-1, v)
      else
        match find_key (used v0) k with
        | Some i =>
            (0, Some (mk_vault (count v0)
                        (alter (fun s => mk_slot (key s) (strncpy (ALRIOS_VAULT_VAL_MAX - 1) val (value s))) i (entries v0))))
        | None =>
            (0, Some (mk_vault (count v0 + 1)
                        (alter (fun s => mk_slot (strncpy (ALRIOS_VAULT_KEY_MAX - 1) k (key s)) (strncpy (ALRIOS_VAULT_VAL_MAX - 1) val (value s)))
                           (Z.to_nat (count v0)) (entries v0))))
        end
  | _, _, _ => (-1, v)
  end.

Definition alrios_vault_get (v : option vault) (k : option bytes) : option bytes :=
  match v, k with
  | Some v, Some k =>
      match find_key (used v) k with
      | Some i => match entries v !! i with Some s => Some (cstr (value s)) | None => None end
      | None => None
      end
  | _, _ => None
  end.

(** [malloc] or [calloc] of a function that returns [e] when there is no memory. *)
Definition allocate_or (e : Z) : may unit := let* ok := sys_ok in if ok then done_ tt else fail e.

(** [snprintf(line, size, "%s=%s", key, value)] *)
Definition print_line (size : Z) (k val : bytes) : bytes := sub 0 (size - 1) (k ++ [61] ++ val).

Fixpoint build_loop (l : list slot) (envp : list bytes) : may (list bytes) :=
  match l with
  | [] => done_ envp
  | s :: l =>
      let size := len (cstr (key s)) + len (cstr (value s)) + 2 in
      let+ _ := allocate_or (-3) in
      build_loop l (envp ++ [print_line size (cstr (key s)) (cstr (value s))])
  end.

Definition alrios_vault_build_envp (v : option vault) (out_envp : bool) : may (list bytes) :=
  match v with
  | Some v => if negb out_envp then fail (-1) else let+ _ := allocate_or (-2) in build_loop (used v) []
  | None => fail (-1)
  end.

(** What the strings hold when they are given back. *)
Definition alrios_vault_free_envp (envp : list bytes) (count : Z) : list bytes :=
  map (fun s => zeros (len s)) (take (Z.to_nat count) envp) ++ drop (Z.to_nat count) envp.

(** ** The matrix *)

Definition VAULT_MAX_ENTRIES : Z := 128.

Definition VAULT_KEY_MAX : Z := 65.

Definition VAULT_VAL_MAX : Z := 1025.

Definition LOADER_OK : Z := 0.

Definition ERR_NULL_PARAM : Z := -1.

Definition ERR_EMPTY : Z := -2.

Definition ERR_COUNT_OVERFLOW : Z := -3.

Definition ERR_INVALID_KEY : Z := -4.

Definition ERR_INVALID_VALUE : Z := -5.

Definition ERR_KEY_TOO_LONG : Z := -6.

Definition ERR_VAL_TOO_LONG : Z := -7.

Definition ERR_SIZE_OVERFLOW : Z := -8.

Definition ERR_OOM : Z := -9.

(** [safe_strnlen] of an array of at least [maxlen] octets. *)
Fixpoint safe_strnlen (s : bytes) (maxlen : nat) : Z :=
  match maxlen, s with
  | S maxlen, c :: s => if c =? 0 then 0 else 1 + safe_strnlen s maxlen
  | _, _ => 0
  end.

Definition isdigit (c : Z) : bool := (48 <=? c) && (c <=? 57).

Definition key_char (c : Z) : bool := ((65 <=? c) && (c <=? 90)) || isdigit c || (c =? 95).

Definition validate_key (k : bytes) (n : Z) : Z :=
  if n =? 0 then ERR_INVALID_KEY
  else if isdigit (at_ k 0) then ERR_INVALID_KEY
  else if negb (forallb key_char (sub 0 n k)) then ERR_INVALID_KEY
  else LOADER_OK.

Definition validate_val (val : bytes) (n : Z) : Z :=
  if n =? 0 then LOADER_OK
  else if at_ val 0 =? 61 then ERR_INVALID_VALUE
  else LOADER_OK.

Fixpoint validate_loop (l : list slot) : Z :=
  match l with
  | [] => LOADER_OK
  | e :: l =>
      let klen := safe_strnlen (key e) (Z.to_nat VAULT_KEY_MAX) in
      if klen >=? VAULT_KEY_MAX then ERR_KEY_TOO_LONG
      else
        let k_rc := validate_key (key e) klen in
        if negb (k_rc =? LOADER_OK) then k_rc
        else
          let vlen := safe_strnlen (value e) (Z.to_nat VAULT_VAL_MAX) in
          if vlen >=? VAULT_VAL_MAX then ERR_VAL_TOO_LONG
          else
            let v_rc := validate_val (value e) vlen in
            if negb (v_rc =? LOADER_OK) then v_rc
            else if klen >? SIZE_MAX - vlen - 2 then ERR_SIZE_OVERFLOW
            else validate_loop l
  end.

Definition alrios_vault_validate (v : option vault) : Z :=
  match v with
  | None => ERR_NULL_PARAM
  | Some v =>
      if count v =? 0 then ERR_EMPTY
      else if count v >? VAULT_MAX_ENTRIES then ERR_COUNT_OVERFLOW
      else validate_loop (used v)
  end.

(** [snprintf(line, size, "%.*s=%.*s", ...)]: what it would write, cut to the size. *)
Fixpoint inject_loop (l : list slot) (envp : list bytes) : may (list bytes) :=
  match l with
  | [] => done_ envp
  | e :: l =>
      let klen := safe_strnlen (key e) (Z.to_nat VAULT_KEY_MAX) in
      let vlen := safe_strnlen (value e) (Z.to_nat VAULT_VAL_MAX) in
      let line_len := klen + vlen + 2 in
      let+ _ := allocate_or ERR_OOM in
      let text := cstr (sub 0 klen (key e)) ++ [61] ++ cstr (sub 0 vlen (value e)) in
      if len text >=? line_len then fail ERR_SIZE_OVERFLOW
      else inject_loop l (envp ++ [text])
  end.

Definition alrios_vault_inject_envp (v : option vault) (out_envp : bool) : may (list bytes) :=
  if negb out_envp then fail ERR_NULL_PARAM
  else
    match v with
    | None => fail ERR_NULL_PARAM
    | Some v0 =>
        let val_rc := alrios_vault_validate v in
        if negb (val_rc =? LOADER_OK) then fail val_rc
        else if count v0 >? SIZE_MAX / 8 - 1 then fail ERR_SIZE_OVERFLOW
        else let+ _ := allocate_or ERR_OOM in inject_loop (used v0) []
    end.

(** ** Arrays that hold strings *)

Lemma len_strncpy n src dst : 0 <= n <= len dst -> len (strncpy n src dst) = len dst.
Proof.
  intros H. unfold strncpy. rewrite len_app, len_drop, len_sub; [lia|lia|lia|]. rewrite len_app, len_zeros by lia. pose proof (len_nonneg src). lia.
Qed.

Lemma strncpy_last n src dst : 0 <= n -> at_ (strncpy n src dst) n = at_ dst n.
Proof.
  intros Hn. unfold strncpy, at_. assert (Hl : length (sub 0 n (src ++ zeros n)) = Z.to_nat n).
  { assert (len (sub 0 n (src ++ zeros n)) = n) by (apply len_sub; [lia|lia|rewrite len_app, len_zeros by lia; pose proof (len_nonneg src); lia]). unfold len in *. lia. }
  rewrite app_nth2 by lia. by rewrite Hl, Nat.sub_diag, List.nth_skipn, Nat.add_0_r.
Qed.

(** What a copied string reads as. *)
Lemma cstr_strncpy n src dst :
  0 <= n < len dst -> at_ dst n = 0 -> Forall (fun c => c <> 0) src -> cstr (strncpy n src dst) = sub 0 n src.
Proof.
  intros Hn Hd Hs. assert (Hsub : Forall (fun c => c <> 0) (sub 0 n src)) by (unfold sub; cbn; by apply Forall_take).
  assert (exists rest, strncpy n src dst = sub 0 n src ++ 0 :: rest) as [rest ->]; [|by apply cstr_terminated].
  unfold strncpy. destruct (Z.le_gt_cases n (len src)).
  - rewrite sub_app_l by lia. assert (Hdr : exists d, drop (Z.to_nat n) dst = 0 :: d).
    { destruct (drop (Z.to_nat n) dst) as [|d0 d] eqn:E.
      - apply (f_equal length) in E. rewrite length_drop in E. unfold len in Hn. cbn in E. lia.
      - exists d. f_equal. rewrite <- Hd. unfold at_. rewrite <- (take_drop (Z.to_nat n) dst), E. rewrite app_nth2 by (rewrite length_take; lia).
        rewrite length_take. unfold len in Hn. by replace (Z.to_nat n - Z.to_nat n `min` length dst)%nat with 0%nat by lia. }
    destruct Hdr as [d ->]. by exists d.
  - assert (Hz : sub 0 n (src ++ zeros n) = src ++ 0 :: zeros (n - len src - 1)).
    { unfold sub, zeros, len in *. change (Z.to_nat 0) with 0%nat. rewrite drop_0, take_app, (take_ge src) by lia. f_equal. rewrite take_replicate.
      replace ((Z.to_nat n - length src) `min` Z.to_nat n)%nat with (S (Z.to_nat (n - Z.of_nat (length src) - 1))) by lia. done. }
    rewrite Hz. replace (sub 0 n src) with src; [by rewrite <- app_assoc; eexists|]. unfold sub. change (Z.to_nat 0) with 0%nat. rewrite drop_0, take_ge; [done|]. unfold len in *. lia.
Qed.

(** ** The vault as a map *)

Record slot_ok (s : slot) : Prop := {
  ok_key : len (key s) = ALRIOS_VAULT_KEY_MAX /\ at_ (key s) (ALRIOS_VAULT_KEY_MAX - 1) = 0;
  ok_value : len (value s) = ALRIOS_VAULT_VAL_MAX /\ at_ (value s) (ALRIOS_VAULT_VAL_MAX - 1) = 0;
}.

Definition contents (v : vault) : list (bytes * bytes) := map (fun s => (cstr (key s), cstr (value s))) (used v).

Definition view (v : vault) : gmap bytes bytes := list_to_map (contents v).

Record vault_ok (v : vault) : Prop := {
  v_size : len (entries v) = ALRIOS_VAULT_MAX_ENTRIES;
  v_count : 0 <= count v <= ALRIOS_VAULT_MAX_ENTRIES;
  v_slots : Forall slot_ok (entries v);
  v_distinct : NoDup (contents v).*1;
}.

Definition no_nul (s : bytes) : Prop := Forall (fun c => c <> 0) s.

Lemma find_key_view l k :
  match find_key l k with
  | Some i => exists s, l !! i = Some s /\ cstr (key s) = k
  | None => k ∉ map (fun s => cstr (key s)) l
  end.
Proof.
  induction l as [|s l IH]; cbn [find_key map]; [by apply not_elem_of_nil|].
  destruct (bytes_eqb (cstr (key s)) k) eqn:E; [apply bytes_eqb_eq in E; by exists s|]. apply bytes_eqb_neq in E.
  destruct (find_key l k) as [i|]; cbn; [exact IH|]. intros [->|?]%elem_of_cons; done.
Qed.

Lemma contents_keys v : (contents v).*1 = map (fun s => cstr (key s)) (used v).
Proof. unfold contents. induction (used v) as [|s l IH]; [done|]. cbn. by rewrite <- IH. Qed.

Lemma view_find v k : vault_ok v ->
  view v !! k = match find_key (used v) k with
                | Some i => match entries v !! i with Some s => Some (cstr (value s)) | None => None end
                | None => None
                end.
Proof.
  intros Hv. pose proof (find_key_view (used v) k) as Hf. destruct (find_key (used v) k) as [i|].
  - destruct Hf as (s & Hi & <-). pose proof Hi as Hi'. unfold used in Hi'. apply lookup_take_Some in Hi' as [-> _].
    apply elem_of_list_to_map_1; [by apply Hv|]. unfold contents. apply list_elem_of_fmap. exists s. split; [done|by eapply list_elem_of_lookup_2].
  - apply not_elem_of_list_to_map_1. by rewrite contents_keys.
Qed.

Lemma list_to_map_update (l : list (bytes * bytes)) i k x y :
  NoDup l.*1 -> l !! i = Some (k, y) -> (list_to_map (<[i := (k, x)]> l) : gmap bytes bytes) = <[k := x]> (list_to_map l).
Proof.
  revert i. induction l as [|[k' y'] l IH]; intros i Hd Hi; [done|]. cbn in Hd. apply list.NoDup_cons in Hd as [Hn Hd]. destruct i as [|i].
  - injection Hi as -> ->. cbn. by rewrite insert_insert_eq.
  - change (<[S i := (k, x)]> ((k', y') :: l)) with ((k', y') :: <[i := (k, x)]> l). cbn in Hi.
    rewrite !list_to_map_cons, (IH i) by done. apply insert_insert_ne. intros ->. apply Hn. apply list_elem_of_fmap. exists (k, y). split; [done|].
    by eapply list_elem_of_lookup_2.
Qed.

Lemma lookup_used v i s : used v !! i = Some s -> entries v !! i = Some s /\ (i < Z.to_nat (count v))%nat.
Proof. intros H. unfold used in H. apply lookup_take_Some in H. tauto. Qed.

Lemma contents_replace v i s s' :
  used v !! i = Some s -> cstr (key s') = cstr (key s) ->
  contents (mk_vault (count v) (<[i := s']> (entries v))) = <[i := (cstr (key s), cstr (value s'))]> (contents v).
Proof.
  intros Hi Hk. apply lookup_used in Hi as [_ Hi]. unfold contents, used. cbn [count entries].
  rewrite take_insert_lt by done. rewrite <- Hk. clear. generalize (take (Z.to_nat (count v)) (entries v)). intros l. revert i.
  induction l as [|x l IH]; intros [|i]; cbn; [done..|]. by rewrite IH.
Qed.

Lemma contents_append v s' :
  (Z.to_nat (count v) < length (entries v))%nat -> 0 <= count v ->
  contents (mk_vault (count v + 1) (<[Z.to_nat (count v) := s']> (entries v))) = contents v ++ [(cstr (key s'), cstr (value s'))].
Proof.
  intros Hl H0. unfold contents, used. cbn [count entries]. replace (Z.to_nat (count v + 1)) with (S (Z.to_nat (count v))) by lia.
  rewrite (take_S_r _ _ s') by (by apply list_lookup_insert_eq). rewrite take_insert_ge by lia. by rewrite map_app.
Qed.

Lemma alter_insert {A} (f : A -> A) i (l : list A) s : l !! i = Some s -> alter f i l = <[i := f s]> l.
Proof. revert i. induction l as [|x l IH]; intros [|i] H; cbn in *; [done..|by injection H as ->|]. by rewrite IH. Qed.

Lemma sub_short n (b : bytes) : len b <= n -> sub 0 n b = b.
Proof. intros H. unfold sub. change (Z.to_nat 0) with 0%nat. rewrite drop_0, take_ge; [done|]. unfold len in H. lia. Qed.

Lemma len_insert {A} i (x : A) l : len (<[i := x]> l) = len l.
Proof. unfold len. by rewrite length_insert. Qed.

Lemma set_value_ok s val : slot_ok s -> slot_ok (mk_slot (key s) (strncpy (ALRIOS_VAULT_VAL_MAX - 1) val (value s))).
Proof.
  intros [Hk [Hl Hz]]. split; [done|]. cbn [value]. unfold ALRIOS_VAULT_VAL_MAX in *. split; [rewrite len_strncpy by lia; done|by rewrite strncpy_last].
Qed.

Lemma set_key_ok s k : slot_ok s -> slot_ok (mk_slot (strncpy (ALRIOS_VAULT_KEY_MAX - 1) k (key s)) (value s)).
Proof.
  intros [[Hl Hz] Hv]. split; [|done]. cbn [key]. unfold ALRIOS_VAULT_KEY_MAX in *. split; [rewrite len_strncpy by lia; done|by rewrite strncpy_last].
Qed.

(** The text a value is kept as. *)
Definition kept (val : bytes) : bytes := sub 0 (ALRIOS_VAULT_VAL_MAX - 1) val.

Lemma cstr_value s val : slot_ok s -> no_nul val -> cstr (strncpy (ALRIOS_VAULT_VAL_MAX - 1) val (value s)) = kept val.
Proof. intros [_ [Hl Hz]] Hn. unfold ALRIOS_VAULT_VAL_MAX in *. apply cstr_strncpy; [lia|done|done]. Qed.

Lemma cstr_key s k : slot_ok s -> no_nul k -> len k < ALRIOS_VAULT_KEY_MAX -> cstr (strncpy (ALRIOS_VAULT_KEY_MAX - 1) k (key s)) = k.
Proof.
  intros [[Hl Hz] _] Hn Hk. unfold ALRIOS_VAULT_KEY_MAX in *. rewrite cstr_strncpy by (done || lia). apply sub_short. lia.
Qed.

(** Every operation is the one of a map with room for 128 keys. *)
Lemma set_refines v k val :
  vault_ok v -> no_nul k -> no_nul val -> len k < ALRIOS_VAULT_KEY_MAX -> count v < ALRIOS_VAULT_MAX_ENTRIES ->
  exists v', alrios_vault_set (Some v) (Some k) (Some val) = (0, Some v') /\ vault_ok v' /\ view v' = <[k := kept val]> (view v).
Proof.
  intros Hv Hk Hval Hlk Hc. pose proof (v_slots _ Hv) as Hs. rewrite Forall_lookup in Hs. unfold alrios_vault_set.
  replace (count v >=? ALRIOS_VAULT_MAX_ENTRIES) with false by lia. pose proof (find_key_view (used v) k) as Hf.
  destruct (find_key (used v) k) as [i|].
  - destruct Hf as (s & Hi & Hks). pose proof (lookup_used _ _ _ Hi) as [He Hlt]. erewrite alter_insert by done. eexists. split; [done|].
    set (s' := mk_slot _ _). assert (Hcv := contents_replace v i s s' Hi eq_refl). specialize (Hs i s He).
    assert (Hv' : cstr (value s') = kept val) by (by apply cstr_value). rewrite Hv', Hks in Hcv.
    assert (Hold : contents v !! i = Some (k, cstr (value s))).
    { unfold contents. rewrite list_lookup_fmap, Hi. cbn. by rewrite Hks. }
    split.
    + split; cbn [entries count]; [rewrite len_insert; apply Hv|apply Hv|by apply Forall_insert; [apply Hv|by apply set_value_ok]|].
      rewrite Hcv, list_fmap_insert, list_insert_id; [apply Hv|]. by rewrite list_lookup_fmap, Hold.
    + unfold view. rewrite Hcv. by apply (list_to_map_update _ _ _ _ (cstr (value s))); [apply Hv|].
  - assert (Hl : (Z.to_nat (count v) < length (entries v))%nat) by (pose proof (v_size _ Hv); pose proof (v_count _ Hv); unfold len in *; lia).
    destruct (lookup_lt_is_Some_2 (entries v) _ Hl) as [s He]. erewrite alter_insert by done. eexists. split; [done|].
    set (s' := mk_slot _ _). specialize (Hs _ _ He). assert (Hok : slot_ok s') by (by apply (set_value_ok (mk_slot _ (value s))), set_key_ok).
    assert (Hcv := contents_append v s' Hl (proj1 (v_count _ Hv))).
    assert (Hk' : cstr (key s') = k) by (by apply cstr_key). assert (Hv' : cstr (value s') = kept val) by (by apply cstr_value).
    rewrite Hk', Hv' in Hcv. rewrite <- contents_keys in Hf. split.
    + split; cbn [entries count]; [rewrite len_insert; apply Hv|pose proof (v_count _ Hv); lia|by apply Forall_insert; [apply Hv|]|].
      rewrite Hcv, fmap_app. apply list.NoDup_app. split; [apply Hv|]. split; [|apply list.NoDup_singleton].
      intros x Hx Hx'. apply list_elem_of_singleton in Hx' as ->. done.
    + unfold view. rewrite Hcv. by apply list_to_map_snoc.
Qed.

Lemma cleared_ok : vault_ok cleared /\ view cleared = ∅.
Proof.
  split; [|done]. split; [done|done| |apply base.NoDup_nil_2]. unfold cleared. cbn [entries]. apply Forall_replicate. by split.
Qed.

(** ** Environments *)

Lemma exact_allocate_or e : exact (allocate_or e) 1 tt.
Proof.
  intros w. unfold allocate_or, sys_ok, bind, next_event. destruct (script w) as [|ev rest] eqn:Es; cbn.
  - split_and!; [done|by right; right|]. intros k Hk. apply smooth_cons in Hk as (? & Hr & _). congruence.
  - destruct ev; cbn; (split_and!; [done|first [by left|right; left; by eexists]|]); intros k Hk; apply smooth_cons in Hk as (rest' & Hr & Hs);
      rewrite Es in Hr; injection Hr as ? <-; done.
Qed.

(** The setting of an entry. *)
Definition line (s : slot) : bytes := cstr (key s) ++ [61] ++ cstr (value s).

Lemma build_exact l envp : exact (build_loop l envp) (length l) (envp ++ map line l).
Proof.
  revert envp. induction l as [|s l IH]; intros envp; cbn [build_loop length map]; [rewrite app_nil_r; apply exact_done|].
  change (S (length l)) with (1 + length l)%nat. eapply exact_bind; [apply exact_allocate_or|].
  replace (envp ++ line s :: map line l) with ((envp ++ [line s]) ++ map line l) by (by rewrite <- app_assoc).
  replace (print_line _ _ _) with (line s); [apply IH|]. unfold print_line. symmetry. apply sub_short. unfold line.
  rewrite !len_app. change (len [61]) with 1. lia.
Qed.

Lemma strnlen_cstr s n : safe_strnlen s n = Z.min (len (cstr s)) (Z.of_nat n).
Proof.
  revert s. induction n as [|n IH]; intros s.
  - destruct s; cbn [safe_strnlen]; (rewrite Z.min_r; [done|apply len_nonneg]).
  - destruct s as [|c s]; cbn [safe_strnlen cstr]; [change (len (@nil Z)) with 0; lia|]. destruct (c =? 0); [change (len (@nil Z)) with 0; lia|].
    rewrite IH, len_cons. lia.
Qed.

Lemma sub_cstr n s : n = len (cstr s) -> cstr (sub 0 n s) = cstr s /\ sub 0 n s = cstr s.
Proof.
  intros ->. assert (H : sub 0 (len (cstr s)) s = cstr s).
  { induction s as [|c s IH]; [done|]. cbn [cstr]. destruct (c =? 0); [done|]. rewrite len_cons. pose proof (len_nonneg (cstr s)).
    unfold sub in *. change (Z.to_nat 0) with 0%nat in *. rewrite drop_0 in IH |- *.
    replace (Z.to_nat (1 + len (cstr s))) with (S (Z.to_nat (len (cstr s)))) by lia. cbn [take]. by rewrite IH. }
  rewrite H. split; [|done]. apply cstr_id, cstr_no_nul.
Qed.

(** An entry that the matrix may have: a terminated key of capitals, digits and underscores
    that does not begin with a digit, and a terminated value that does not begin with an
    equals sign. *)
Record entry_valid (e : slot) : Prop := {
  e_key_len : 0 < len (cstr (key e)) < VAULT_KEY_MAX;
  e_key_chars : Forall (fun c => key_char c = true) (cstr (key e));
  e_key_first : isdigit (at_ (cstr (key e)) 0) = false;
  e_value_len : len (cstr (value e)) < VAULT_VAL_MAX;
  e_value_first : at_ (cstr (value e)) 0 <> 61;
}.

Lemma at_cstr s : 0 < len (cstr s) -> at_ s 0 = at_ (cstr s) 0.
Proof. destruct s as [|c s]; [done|]. cbn [cstr]. destruct (c =? 0); [|done]. change (len (@nil Z)) with 0. lia. Qed.

Lemma key_valid e : len (cstr (key e)) < VAULT_KEY_MAX ->
  validate_key (key e) (len (cstr (key e))) = LOADER_OK <->
  0 < len (cstr (key e)) /\ Forall (fun c => key_char c = true) (cstr (key e)) /\ isdigit (at_ (cstr (key e)) 0) = false.
Proof.
  intros Hl. unfold validate_key. pose proof (len_nonneg (cstr (key e))). destruct (len (cstr (key e)) =? 0) eqn:E; [split; [done|lia]|].
  rewrite at_cstr by lia. destruct (isdigit _); [split; [done|by intros (_ & _ & ?)]|]. rewrite (proj2 (sub_cstr _ (key e) eq_refl)).
  destruct (forallb key_char (cstr (key e))) eqn:Ec; cbn [negb].
  - split; [intros _; split_and!; [lia| |done]|done]. apply Forall_forall. by rewrite forallb_forall in Ec.
  - split; [done|]. intros (_ & Hf & _). assert (Hc : forallb key_char (cstr (key e)) = true); [|congruence].
    apply forallb_forall. by rewrite Forall_forall in Hf.
Qed.

Lemma value_valid e : validate_val (value e) (len (cstr (value e))) = LOADER_OK <-> at_ (cstr (value e)) 0 <> 61.
Proof.
  unfold validate_val. pose proof (len_nonneg (cstr (value e))). destruct (len (cstr (value e)) =? 0) eqn:E; bool_hyps.
  - split; [intros _|done]. destruct (cstr (value e)); [done|]. rewrite len_cons in E. pose proof (len_nonneg l). lia.
  - rewrite at_cstr by lia. destruct (at_ (cstr (value e)) 0 =? 61) eqn:Ef; bool_hyps; split; done.
Qed.

Lemma validate_loop_ok l : validate_loop l = LOADER_OK <-> Forall entry_valid l.
Proof.
  induction l as [|e l IH]; cbn [validate_loop]; [split; [intros _; apply Forall_nil_2|done]|]. rewrite !strnlen_cstr.
  rewrite list.Forall_cons. pose proof (len_nonneg (cstr (key e))). pose proof (len_nonneg (cstr (value e))).
  destruct (_ >=? VAULT_KEY_MAX) eqn:E1; rewrite Z.geb_leb in E1; bool_hyps.
  { split; [done|]. intros [[[] _ _ _ _] _]. unfold VAULT_KEY_MAX in *. lia. }
  rewrite Z.min_l in * by (unfold VAULT_KEY_MAX in *; lia). destruct (key_valid e ltac:(unfold VAULT_KEY_MAX in *; lia)) as [Hk Hk'].
  destruct (validate_key _ _ =? LOADER_OK) eqn:E2; bool_hyps; cbn [negb].
  2:{ split; [done|]. intros [[[] ? ? _ _] _]. by destruct E2; apply Hk'. }
  destruct (Hk E2) as (H1 & H2 & H3). destruct (_ >=? VAULT_VAL_MAX) eqn:E3; rewrite Z.geb_leb in E3; bool_hyps.
  { split; [done|]. intros [[_ _ _ ? _] _]. unfold VAULT_VAL_MAX in *. lia. }
  rewrite Z.min_l in * by (unfold VAULT_VAL_MAX in *; lia). destruct (value_valid e) as [Hv Hv'].
  destruct (validate_val _ _ =? LOADER_OK) eqn:E4; bool_hyps; cbn [negb].
  2:{ split; [done|]. intros [[_ _ _ _ ?] _]. by destruct E4; apply Hv'. }
  specialize (Hv E4). replace (_ >? _) with false by (unfold SIZE_MAX, UINT64_MAX, VAULT_KEY_MAX, VAULT_VAL_MAX in *; lia).
  rewrite IH. split; [intros Hr; split; [|done]|tauto]. split; [unfold VAULT_KEY_MAX in *; lia|done|done|unfold VAULT_VAL_MAX in *; lia|done].
Qed.

Lemma inject_exact l envp : Forall entry_valid l -> exact (inject_loop l envp) (length l) (envp ++ map line l).
Proof.
  revert envp. induction l as [|e l IH]; intros envp H; cbn [inject_loop length map]; [rewrite app_nil_r; apply exact_done|].
  apply list.Forall_cons in H as [He Hl]. change (S (length l)) with (1 + length l)%nat. eapply exact_bind; [apply exact_allocate_or|].
  rewrite !strnlen_cstr. rewrite !Z.min_l by (destruct He; unfold VAULT_KEY_MAX, VAULT_VAL_MAX in *; lia).
  rewrite (proj1 (sub_cstr _ (key e) eq_refl)), (proj1 (sub_cstr _ (value e) eq_refl)). fold (line e).
  replace (len (line e) >=? _) with false.
  2:{ symmetry. rewrite Z.geb_leb. apply Z.leb_gt. unfold line. rewrite !len_app. change (len [61]) with 1. lia. }
  replace (envp ++ line e :: map line l) with ((envp ++ [line e]) ++ map line l) by (by rewrite <- app_assoc). by apply IH.
Qed.

(** ** Theorems *)

(** The in-memory vault is a map. In every vault it can have made, a lookup finds what the
    map of its entries has, a set inserts the value (as much of it as the array holds)
    whether the key was there or not and keeps the vault well formed with every key once, and
    a vault of 128 entries refuses and is as it was; the environment that is built from it is
    one setting per entry, in the order of insertion. The keys are those that fit their
    array. *)
Theorem vault_is_a_map v k val :
  vault_ok v -> no_nul k -> no_nul val -> len k < ALRIOS_VAULT_KEY_MAX ->
  alrios_vault_get (Some v) (Some k) = view v !! k /\
  Z.of_nat (size (view v)) = count v /\
  (exists status v', alrios_vault_set (Some v) (Some k) (Some val) = (status, Some v') /\ vault_ok v' /\
     if count v =? ALRIOS_VAULT_MAX_ENTRIES then status = -1 /\ v' = v
     else status = 0 /\ view v' = <[k := kept val]> (view v)) /\
  exact (alrios_vault_build_envp (Some v) true) (1 + length (contents v)) (map (fun p => p.1 ++ [61] ++ p.2) (contents v)).
Proof.
  intros Hv Hk Hval Hlk. split_and!.
  - by rewrite (view_find v k Hv).
  - unfold view. rewrite map_size_list_to_map by apply Hv. unfold contents, used. rewrite length_map, length_take.
    pose proof (v_size _ Hv). pose proof (v_count _ Hv). unfold len in *. lia.
  - destruct (count v =? ALRIOS_VAULT_MAX_ENTRIES) eqn:E; bool_hyps.
    + exists (-1), v. split_and!; [|done..]. unfold alrios_vault_set. by rewrite E.
    + destruct (set_refines v k val Hv Hk Hval Hlk) as (v' & Hs & Hv' & Hm); [pose proof (v_count _ Hv); lia|]. by exists 0, v'.
  - unfold alrios_vault_build_envp. cbn [negb]. eapply exact_bind; [apply exact_allocate_or|].
    unfold contents. rewrite length_map, map_map. apply (build_exact (used v) []).
Qed.

(** The configuration matrix. A matrix is valid exactly if it has between one and 128
    entries and every one is a terminated name of the environment with a terminated value; the
    injection of a valid matrix, if there is memory, is exactly the settings of its entries in
    order, and nothing else when there is not; one that is not valid is refused with the
    status of the validation before anything is allocated. *)
Theorem matrix_becomes_environment v :
  0 <= count v ->
  (alrios_vault_validate (Some v) = LOADER_OK <-> 0 < count v <= VAULT_MAX_ENTRIES /\ Forall entry_valid (used v)) /\
  (alrios_vault_validate (Some v) = LOADER_OK ->
   exact (alrios_vault_inject_envp (Some v) true) (1 + length (used v)) (map line (used v))) /\
  (alrios_vault_validate (Some v) <> LOADER_OK ->
   alrios_vault_inject_envp (Some v) true = fail (alrios_vault_validate (Some v))).
Proof.
  intros H0. assert (Hv : alrios_vault_validate (Some v) = LOADER_OK <-> 0 < count v <= VAULT_MAX_ENTRIES /\ Forall entry_valid (used v)).
  { unfold alrios_vault_validate. rewrite <- validate_loop_ok. destruct (count v =? 0) eqn:E; bool_hyps; [split; [done|lia]|].
    rewrite Z.gtb_ltb. destruct (VAULT_MAX_ENTRIES <? count v) eqn:E2; bool_hyps; [split; [done|lia]|]. split; [intros; split; [lia|done]|tauto]. }
  split_and!; [done| |]; intros H; unfold alrios_vault_inject_envp; cbn [negb].
  - rewrite H. change (negb (LOADER_OK =? LOADER_OK)) with false. cbv iota. apply Hv in H as [Hc Hf].
    change (SIZE_MAX / 8 - 1) with 2305843009213693950. replace (count v >? 2305843009213693950) with false by (unfold VAULT_MAX_ENTRIES in *; lia).
    eapply exact_bind; [apply exact_allocate_or|]. by apply (inject_exact _ []).
  - by destruct (_ =? LOADER_OK) eqn:E; bool_hyps.
Qed.

(** ** Runs *)

Definition sample_vault : vault :=
  match (alrios_vault_set (Some cleared) (Some (lit "HOME")) (Some (lit "/srv"))).2 with Some v => v | None => cleared end.

Lemma vault_is_a_map_witness :
  exists status v', alrios_vault_set (Some cleared) (Some (lit "HOME")) (Some (lit "/srv")) = (status, Some v') /\ vault_ok v' /\
    if count cleared =? ALRIOS_VAULT_MAX_ENTRIES then status = -1 /\ v' = cleared
    else status = 0 /\ view v' = <[lit "HOME" := kept (lit "/srv")]> (view cleared).
Proof.
  refine (proj1 (proj2 (proj2 (vault_is_a_map cleared (lit "HOME") (lit "/srv") (proj1 cleared_ok) _ _ _)))); [by repeat constructor..|by vm_compute].
Defined.

Lemma matrix_becomes_environment_witness :
  alrios_vault_validate (Some sample_vault) = LOADER_OK /\
  exact (alrios_vault_inject_envp (Some sample_vault) true) (1 + length (used sample_vault)) (map line (used sample_vault)).
Proof. split; [by vm_compute|]. apply (matrix_becomes_environment sample_vault); by vm_compute. Defined.

(** A key that fills its array is cut and never found again, so it is added every time. *)
Example long_key_is_lost :
  let k := replicate 64 65 in
  let v1 := (alrios_vault_set (Some cleared) (Some k) (Some (lit "a"))).2 in
  let v2 := (alrios_vault_set v1 (Some k) (Some (lit "b"))).2 in
  alrios_vault_get v2 (Some k) = None /\ match v2 with Some v => (contents v).*1 = [replicate 63 65; replicate 63 65] | None => False end.
Proof. by vm_compute. Qed.

(** Only what is before the first NUL of a value is injected; nothing reports the rest. *)
Example embedded_nul_passes :
  let e := mk_slot (lit "KEY" ++ zeros 62) (lit "a" ++ [0] ++ lit "b" ++ zeros 1022) in
  alrios_vault_validate (Some (mk_vault 1 [e])) = LOADER_OK /\ line e = lit "KEY=a".
Proof. by vm_compute. Qed.
