(* ===== verification/Seccomp.v ===== *)
(** The system-call filters of the sandbox: [alrios_sandbox_apply_seccomp]
    (src/libraries/sandbox/seccomp_filter.c) and [alrios_devmode_jail_apply_seccomp]
    (src/libraries/sandbox/devmode_jail.c), as the arrays of instructions they are, with the
    semantics of the filter language on the data of a system call.

    The language is classic BPF as far as the filters use it; the numbers are those of
    x86-64. The filters are little-endian in the arguments, as both supported targets are. *)

From S2P Require Import Prelude.

(** ** The language *)

Definition BPF_LD : Z := 0.

Definition BPF_ALU : Z := 4.

Definition BPF_JMP : Z := 5.

Definition BPF_RET : Z := 6.

Definition BPF_W : Z := 0.

Definition BPF_ABS : Z := 32.

Definition BPF_K : Z := 0.

Definition BPF_JA : Z := 0.

Definition BPF_JEQ : Z := 16.

Definition BPF_JGE : Z := 48.

Definition BPF_AND : Z := 80.

Declare Scope bpf_scope.
Notation "a .| b" := (Z.lor a b) (at level 40, left associativity) : bpf_scope.
#[local] Open Scope bpf_scope.

Record sock_filter := mk_filter {
  code : Z;
  jt : nat;
  jf : nat;
  k : Z;
}.

Definition BPF_STMT (code k : Z) : sock_filter := mk_filter code 0 0 k.

Definition BPF_JUMP (code k : Z) (jt jf : nat) : sock_filter := mk_filter code jt jf k.

(** What a filter is given of a system call. *)
Record seccomp_data := mk_data {
  nr : Z;
  arch : Z;
  instruction_pointer : Z;
  args : list Z;
}.

Definition offset_nr : Z := 0.

Definition offset_arch : Z := 4.

Definition offset_args (i : Z) : Z := 16 + 8 * i.

(** The low and the high half of a 64-bit number. *)
Definition low (v : Z) : Z := v mod 2 ^ 32.

Definition high (v : Z) : Z := v / 2 ^ 32 mod 2 ^ 32.

(** The aligned word at an offset of the 64 octets. *)
Definition load (d : seccomp_data) (off : Z) : option Z :=
  if off =? 0 then Some (nr d)
  else if off =? 4 then Some (arch d)
  else if off =? 8 then Some (low (instruction_pointer d))
  else if off =? 12 then Some (high (instruction_pointer d))
  else if (16 <=? off) && (off <? 64) && (off mod 4 =? 0) then
    let arg := nth (Z.to_nat ((off - 16) / 8)) (args d) 0 in
    Some (if off mod 8 =? 0 then low arg else high arg)
  else None.

(** A run from the instruction at the head of [prog], with the accumulator. *)
Fixpoint run (fuel : nat) (d : seccomp_data) (prog : list sock_filter) (A : Z) : option Z :=
  match fuel, prog with
  | S fuel, i :: rest =>
      if code i =? BPF_LD .| BPF_W .| BPF_ABS then
        match load d (k i) with Some w => run fuel d rest w | None => None end
      else if code i =? BPF_JMP .| BPF_K .| BPF_JEQ then run fuel d (drop (if A =? k i then jt i else jf i) rest) A
      else if code i =? BPF_JMP .| BPF_K .| BPF_JGE then run fuel d (drop (if A >=? k i then jt i else jf i) rest) A
      else if code i =? BPF_JMP .| BPF_JA then run fuel d (drop (Z.to_nat (k i)) rest) A
      else if code i =? BPF_ALU .| BPF_K .| BPF_AND then run fuel d rest (Z.land A (k i))
      else if code i =? BPF_RET .| BPF_K then Some (k i)
      else None
  | _, _ => None
  end.

Definition verdict (prog : list sock_filter) (d : seccomp_data) : option Z := run (length prog) d prog 0.

(** ** The filters *)

Definition AUDIT_ARCH_X86_64 : Z := 3221225534.

Definition X32_SYSCALL_BIT : Z := 1073741824.

Definition SECCOMP_RET_KILL_PROCESS : Z := 2147483648.

Definition SECCOMP_RET_ERRNO : Z := 327680.

Definition SECCOMP_RET_ALLOW : Z := 2147418112.

Definition SECCOMP_RET_DATA : Z := 65535.

Definition EPERM : Z := 1.

Definition EACCES : Z := 13.

Definition SOCK_RAW : Z := 3.

Definition SYS_read : Z := 0.

Definition SYS_write : Z := 1.

Definition SYS_close : Z := 3.

Definition SYS_mmap : Z := 9.

Definition SYS_mprotect : Z := 10.

Definition SYS_munmap : Z := 11.

Definition SYS_brk : Z := 12.

Definition SYS_rt_sigaction : Z := 13.

Definition SYS_rt_sigprocmask : Z := 14.

Definition SYS_nanosleep : Z := 35.

Definition SYS_getpid : Z := 39.

Definition SYS_socket : Z := 41.

Definition SYS_connect : Z := 42.

Definition SYS_bind : Z := 49.

Definition SYS_exit : Z := 60.

Definition SYS_uname : Z := 63.

Definition SYS_ptrace : Z := 101.

Definition SYS_getuid : Z := 102.

Definition SYS_getgid : Z := 104.

Definition SYS_sigaltstack : Z := 131.

Definition SYS_chroot : Z := 161.

Definition SYS_mount : Z := 165.

Definition SYS_umount2 : Z := 166.

Definition SYS_reboot : Z := 169.

Definition SYS_clock_gettime : Z := 228.

Definition SYS_exit_group : Z := 231.

Definition SYS_kexec_load : Z := 246.

Definition SYS_bpf : Z := 321.

Definition ret_errno (e : Z) : Z := SECCOMP_RET_ERRNO .| Z.land e SECCOMP_RET_DATA.

(** [BPF_JUMP(... JEQ, value, 0, 1), BPF_STMT(BPF_RET | BPF_K, answer)] *)
Definition return_if (answer value : Z) : list sock_filter :=
  [BPF_JUMP (BPF_JMP .| BPF_K .| BPF_JEQ) value 0 1; BPF_STMT (BPF_RET .| BPF_K) answer].

(** The same for one number after the other. *)
Definition return_for (answer : Z) (values : list Z) : list sock_filter := concat (map (return_if answer) values).

(** Both filters begin with the architecture, the number and the x32 numbers. *)
Definition filter_head : list sock_filter :=
  [BPF_STMT (BPF_LD .| BPF_W .| BPF_ABS) offset_arch;
   BPF_JUMP (BPF_JMP .| BPF_K .| BPF_JEQ) AUDIT_ARCH_X86_64 1 0;
   BPF_STMT (BPF_RET .| BPF_K) SECCOMP_RET_KILL_PROCESS;
   BPF_STMT (BPF_LD .| BPF_W .| BPF_ABS) offset_nr;
   BPF_JUMP (BPF_JMP .| BPF_K .| BPF_JGE) X32_SYSCALL_BIT 0 1;
   BPF_STMT (BPF_RET .| BPF_K) SECCOMP_RET_KILL_PROCESS].

Definition sandbox_killed : list Z := [SYS_ptrace; SYS_reboot; SYS_mount; SYS_umount2; SYS_kexec_load; SYS_chroot].

Definition sandbox_allowed : list Z :=
  [SYS_read; SYS_write; SYS_close; SYS_mmap; SYS_mprotect; SYS_munmap; SYS_brk; SYS_exit_group; SYS_exit;
   SYS_sigaltstack; SYS_rt_sigaction; SYS_rt_sigprocmask; SYS_clock_gettime].

Definition sandbox_sockets : list sock_filter :=
  [BPF_JUMP (BPF_JMP .| BPF_K .| BPF_JEQ) SYS_socket 1 0;
   BPF_STMT (BPF_JMP .| BPF_JA) 6;
   BPF_STMT (BPF_LD .| BPF_W .| BPF_ABS) (offset_args 0);
   BPF_JUMP (BPF_JMP .| BPF_K .| BPF_JEQ) 16 0 1;
   BPF_STMT (BPF_RET .| BPF_K) (ret_errno EACCES);
   BPF_JUMP (BPF_JMP .| BPF_K .| BPF_JEQ) 17 0 1;
   BPF_STMT (BPF_RET .| BPF_K) (ret_errno EACCES);
   BPF_STMT (BPF_LD .| BPF_W .| BPF_ABS) offset_nr].

(** The array of [alrios_sandbox_apply_seccomp]. *)
Definition sandbox_filter : list sock_filter :=
  filter_head ++ return_for SECCOMP_RET_KILL_PROCESS sandbox_killed ++ sandbox_sockets
    ++ return_for SECCOMP_RET_ALLOW sandbox_allowed ++ [BPF_STMT (BPF_RET .| BPF_K) (ret_errno EPERM)].

Definition devmode_killed : list Z := sandbox_killed ++ [SYS_bpf].

Definition devmode_allowed : list Z :=
  sandbox_allowed ++ [SYS_getpid; SYS_getuid; SYS_getgid; SYS_socket; SYS_connect; SYS_bind; SYS_nanosleep; SYS_uname].

Definition devmode_sockets : list sock_filter :=
  [BPF_JUMP (BPF_JMP .| BPF_K .| BPF_JEQ) SYS_socket 1 0;
   BPF_STMT (BPF_JMP .| BPF_JA) 10;
   BPF_STMT (BPF_LD .| BPF_W .| BPF_ABS) (offset_args 0);
   BPF_JUMP (BPF_JMP .| BPF_K .| BPF_JEQ) 16 0 1;
   BPF_STMT (BPF_RET .| BPF_K) (ret_errno EPERM);
   BPF_JUMP (BPF_JMP .| BPF_K .| BPF_JEQ) 17 0 1;
   BPF_STMT (BPF_RET .| BPF_K) (ret_errno EPERM);
   BPF_STMT (BPF_LD .| BPF_W .| BPF_ABS) (offset_args 1);
   BPF_STMT (BPF_ALU .| BPF_K .| BPF_AND) 15;
   BPF_JUMP (BPF_JMP .| BPF_K .| BPF_JEQ) SOCK_RAW 0 1;
   BPF_STMT (BPF_RET .| BPF_K) (ret_errno EPERM);
   BPF_STMT (BPF_LD .| BPF_W .| BPF_ABS) offset_nr].

(** The array of [alrios_devmode_jail_apply_seccomp]. *)
Definition devmode_filter : list sock_filter :=
  filter_head ++ return_for SECCOMP_RET_KILL_PROCESS devmode_killed ++ devmode_sockets
    ++ return_for SECCOMP_RET_ALLOW devmode_allowed ++ [BPF_STMT (BPF_RET .| BPF_K) (ret_errno EPERM)].

(** ** What a filter must be to be accepted and to end *)

Definition insn_ok (i : sock_filter) (rest : nat) : bool :=
  if code i =? BPF_LD .| BPF_W .| BPF_ABS then (0 <=? k i) && (k i <? 64) && (k i mod 4 =? 0) && (0 <? rest)%nat
  else if (code i =? BPF_JMP .| BPF_K .| BPF_JEQ) || (code i =? BPF_JMP .| BPF_K .| BPF_JGE) then (jt i <? rest)%nat && (jf i <? rest)%nat
  else if code i =? BPF_JMP .| BPF_JA then (0 <=? k i) && (Z.to_nat (k i) <? rest)%nat
  else if code i =? BPF_ALU .| BPF_K .| BPF_AND then (0 <? rest)%nat
  else code i =? BPF_RET .| BPF_K.

Fixpoint checked (prog : list sock_filter) : bool :=
  match prog with
  | [] => true
  | i :: rest => insn_ok i (length rest) && checked rest
  end.

(** The answers in a program. *)
Definition answers (prog : list sock_filter) : list Z := map k (List.filter (fun i => code i =? BPF_RET .| BPF_K) prog).

(** ** Running a program

    Jumps go forward only, so the length of what is left is fuel enough, and a program can be
    run one instruction at a time. *)

Lemma run_fuel d n m prog A :
  (length prog <= n)%nat -> (length prog <= m)%nat -> run n d prog A = run m d prog A.
Proof.
  revert m prog A. induction n as [|n IH]; intros [|m] [|i rest] A Hn Hm; cbn in Hn, Hm; try lia; [reflexivity..|].
  cbn [run].
  assert (forall j B, run n d (drop j rest) B = run m d (drop j rest) B)
    by (intros; apply IH; rewrite length_drop; lia).
  pose proof (fun B => H 0%nat B) as H0. setoid_rewrite drop_0 in H0.
  repeat case_match; auto.
Qed.

Definition exec (d : seccomp_data) (prog : list sock_filter) (A : Z) : option Z := run (length prog) d prog A.

Lemma exec_cons d i rest A :
  exec d (i :: rest) A =
    if code i =? 32 then match load d (k i) with Some w => exec d rest w | None => None end
    else if code i =? 21 then exec d (drop (if A =? k i then jt i else jf i) rest) A
    else if code i =? 53 then exec d (drop (if A >=? k i then jt i else jf i) rest) A
    else if code i =? 5 then exec d (drop (Z.to_nat (k i)) rest) A
    else if code i =? 84 then exec d rest (Z.land A (k i))
    else if code i =? 6 then Some (k i)
    else None.
Proof.
  unfold exec. cbn [run length].
  assert (forall j B, run (length rest) d (drop j rest) B = run (length (drop j rest)) d (drop j rest) B) as H
    by (intros; apply run_fuel; rewrite length_drop; lia).
  rewrite !H. reflexivity.
Qed.

(** One equation per instruction. *)
Lemma exec_load d off rest A :
  exec d (BPF_STMT (BPF_LD .| BPF_W .| BPF_ABS) off :: rest) A = match load d off with Some w => exec d rest w | None => None end.
Proof. rewrite exec_cons. reflexivity. Qed.

Lemma exec_jeq d v t f rest A :
  exec d (BPF_JUMP (BPF_JMP .| BPF_K .| BPF_JEQ) v t f :: rest) A = exec d (drop (if A =? v then t else f) rest) A.
Proof. rewrite exec_cons. reflexivity. Qed.

Lemma exec_jge d v t f rest A :
  exec d (BPF_JUMP (BPF_JMP .| BPF_K .| BPF_JGE) v t f :: rest) A = exec d (drop (if A >=? v then t else f) rest) A.
Proof. rewrite exec_cons. reflexivity. Qed.

Lemma exec_ja d n rest A :
  exec d (BPF_STMT (BPF_JMP .| BPF_JA) n :: rest) A = exec d (drop (Z.to_nat n) rest) A.
Proof. rewrite exec_cons. reflexivity. Qed.

Lemma exec_and d m rest A :
  exec d (BPF_STMT (BPF_ALU .| BPF_K .| BPF_AND) m :: rest) A = exec d rest (Z.land A m).
Proof. rewrite exec_cons. reflexivity. Qed.

Lemma exec_ret d answer rest A : exec d (BPF_STMT (BPF_RET .| BPF_K) answer :: rest) A = Some answer.
Proof. rewrite exec_cons. reflexivity. Qed.

Lemma load_nr d : load d offset_nr = Some (nr d).
Proof. reflexivity. Qed.

Lemma load_arch d : load d offset_arch = Some (arch d).
Proof. reflexivity. Qed.

Lemma load_arg0 d : load d (offset_args 0) = Some (low (nth 0 (args d) 0)).
Proof. reflexivity. Qed.

Lemma load_arg1 d : load d (offset_args 1) = Some (low (nth 1 (args d) 0)).
Proof. reflexivity. Qed.

Create Rewrite HintDb bpf.
#[local] Hint Rewrite exec_load exec_jeq exec_jge exec_ja exec_and exec_ret load_nr load_arch load_arg0 load_arg1 @drop_0 : bpf.

(** A run with its tests decided is a chain of rewrites. *)
Ltac run_block :=
  repeat (autorewrite with bpf;
          repeat match goal with E : (_ =? _) = _ |- _ => rewrite !E | E : (_ >=? _) = _ |- _ => rewrite !E end;
          try change (Z.to_nat 6) with 6%nat; try change (Z.to_nat 10) with 10%nat; cbn [drop skipn]);
  reflexivity.

Lemma exec_return_if d answer value rest A :
  exec d (return_if answer value ++ rest) A = if A =? value then Some answer else exec d rest A.
Proof. cbn [return_if app]. destruct (A =? value) eqn:?; run_block. Qed.

(** A list of numbers with one answer is a membership test. *)
Definition among (v : Z) (l : list Z) : bool := existsb (Z.eqb v) l.

Lemma exec_return_for d answer values rest A :
  exec d (return_for answer values ++ rest) A = if among A values then Some answer else exec d rest A.
Proof.
  induction values as [|v values IH]; [reflexivity|].
  unfold return_for. cbn [map concat]. rewrite <- app_assoc, exec_return_if.
  cbn [among existsb]. destruct (A =? v); [reflexivity|exact IH].
Qed.

Lemma exec_head d rest :
  exec d (filter_head ++ rest) 0 =
    if negb (arch d =? AUDIT_ARCH_X86_64) || (nr d >=? X32_SYSCALL_BIT) then Some SECCOMP_RET_KILL_PROCESS
    else exec d rest (nr d).
Proof.
  cbn [filter_head app].
  destruct (arch d =? AUDIT_ARCH_X86_64) eqn:?; [|run_block].
  destruct (nr d >=? X32_SYSCALL_BIT) eqn:?; run_block.
Qed.

Lemma exec_sandbox_sockets d rest :
  exec d (sandbox_sockets ++ rest) (nr d) =
    if (nr d =? SYS_socket) && among (low (nth 0 (args d) 0)) [16; 17] then Some (ret_errno EACCES)
    else exec d rest (nr d).
Proof.
  unfold sandbox_sockets, among. cbn [app existsb].
  destruct (nr d =? SYS_socket) eqn:?; [|run_block].
  destruct (low (nth 0 (args d) 0) =? 16) eqn:?; [run_block|].
  destruct (low (nth 0 (args d) 0) =? 17) eqn:?; run_block.
Qed.

Lemma exec_devmode_sockets d rest :
  exec d (devmode_sockets ++ rest) (nr d) =
    if (nr d =? SYS_socket)
       && (among (low (nth 0 (args d) 0)) [16; 17] || (Z.land (low (nth 1 (args d) 0)) 15 =? SOCK_RAW))
    then Some (ret_errno EPERM)
    else exec d rest (nr d).
Proof.
  unfold devmode_sockets, among. cbn [app existsb].
  destruct (nr d =? SYS_socket) eqn:?; [|run_block].
  destruct (low (nth 0 (args d) 0) =? 16) eqn:?; [run_block|].
  destruct (low (nth 0 (args d) 0) =? 17) eqn:?; [run_block|].
  destruct (Z.land (low (nth 1 (args d) 0)) 15 =? SOCK_RAW) eqn:?; run_block.
Qed.

(** ** What the filters decide *)

(** A decision: the calls that end the process, the families that are refused, the calls
    that are allowed; everything else gets EPERM. *)
Definition decision (killed allowed : list Z) (refused : seccomp_data -> option Z) (d : seccomp_data) : Z :=
  if negb (arch d =? AUDIT_ARCH_X86_64) || (nr d >=? X32_SYSCALL_BIT) || among (nr d) killed then SECCOMP_RET_KILL_PROCESS
  else match refused d with
       | Some answer => answer
       | None => if among (nr d) allowed then SECCOMP_RET_ALLOW else ret_errno EPERM
       end.

Definition sandbox_decision : seccomp_data -> Z :=
  decision sandbox_killed sandbox_allowed (fun d =>
    if (nr d =? SYS_socket) && among (low (nth 0 (args d) 0)) [16; 17] then Some (ret_errno EACCES) else None).

Definition devmode_decision : seccomp_data -> Z :=
  decision devmode_killed devmode_allowed (fun d =>
    if (nr d =? SYS_socket)
       && (among (low (nth 0 (args d) 0)) [16; 17] || (Z.land (low (nth 1 (args d) 0)) 15 =? SOCK_RAW))
    then Some (ret_errno EPERM) else None).

Lemma among_app v l l' : among v (l ++ l') = among v l || among v l'.
Proof. apply existsb_app. Qed.

Lemma checked_drop j prog : checked prog = true -> checked (drop j prog) = true.
Proof.
  revert j. induction prog as [|i rest IH]; intros [|j]; cbn; auto.
  intros [_ ?]%andb_prop. auto.
Qed.

Lemma answers_drop a i j rest : In a (answers (drop j rest)) -> In a (answers (i :: rest)).
Proof.
  unfold answers. rewrite !in_map_iff. intros (x & <- & Hx). exists x. split; [reflexivity|].
  apply filter_In in Hx as [Hx Hp]. apply filter_In. split; [|exact Hp].
  right. rewrite <- (take_drop j rest). apply in_or_app. auto.
Qed.

Lemma answer_here i rest : (code i =? 6) = true -> In (k i) (answers (i :: rest)).
Proof.
  intros E. unfold answers. apply in_map, filter_In. split; [now left|exact E].
Qed.

Lemma load_aligned d off : 0 <= off < 64 -> off mod 4 = 0 -> exists w, load d off = Some w.
Proof.
  intros Ho Ha. unfold load. repeat case_match; eauto.
  assert (off = 0 \/ off = 4 \/ off = 8 \/ off = 12 \/ 16 <= off)
    by (Z.to_euclidean_division_equations; lia). lia.
Qed.

(** A program that the kernel accepts always answers, with one of the answers it lists. *)
Lemma checked_program_answers d prog A :
  checked prog = true -> prog <> [] -> exists a, exec d prog A = Some a /\ In a (answers prog).
Proof.
  remember (length prog) as n eqn:En. revert prog A En.
  induction n as [n IH] using lt_wf_ind. intros [|i rest] A -> Hc Hne; [easy|].
  cbn [checked] in Hc. apply andb_prop in Hc as [Hi Hc]. unfold insn_ok in Hi.
  assert (forall j B, (j < length rest)%nat ->
            exists a, exec d (drop j rest) B = Some a /\ In a (answers (i :: rest))) as Hrest.
  { intros j B Hj. pose proof (length_drop rest j) as Hl.
    destruct (IH (length (drop j rest)) ltac:(cbn [length]; lia) (drop j rest) B eq_refl (checked_drop j rest Hc))
      as (a & Ha & Hin); [intros E; rewrite E in Hl; cbn in Hl; lia|].
    exists a. split; [exact Ha|]. exact (answers_drop a i j rest Hin). }
  pose proof (fun B => Hrest 0%nat B) as Hnext. setoid_rewrite drop_0 in Hnext.
  rewrite exec_cons.
  change (BPF_LD .| BPF_W .| BPF_ABS) with 32 in Hi. change (BPF_JMP .| BPF_K .| BPF_JEQ) with 21 in Hi.
  change (BPF_JMP .| BPF_K .| BPF_JGE) with 53 in Hi. change (BPF_JMP .| BPF_JA) with 5 in Hi.
  change (BPF_ALU .| BPF_K .| BPF_AND) with 84 in Hi. change (BPF_RET .| BPF_K) with 6 in Hi.
  destruct (code i =? 32).
  { apply andb_prop in Hi as [[[Hlo Hhi]%andb_prop Ha]%andb_prop Hr%Nat.ltb_lt].
    destruct (load_aligned d (k i)) as [w ->]; [split; lia|lia|]. apply Hnext. lia. }
  destruct (code i =? 21); [apply andb_prop in Hi as [?%Nat.ltb_lt ?%Nat.ltb_lt]; apply Hrest; case_match; lia|].
  destruct (code i =? 53); [apply andb_prop in Hi as [?%Nat.ltb_lt ?%Nat.ltb_lt]; apply Hrest; case_match; lia|].
  cbn [orb] in Hi.
  destruct (code i =? 5); [apply andb_prop in Hi as [_ ?%Nat.ltb_lt]; apply Hrest; lia|].
  destruct (code i =? 84); [apply Nat.ltb_lt in Hi; apply Hnext; lia|].
  rewrite Hi. exists (k i). split; [reflexivity|exact (answer_here i rest Hi)].
Qed.

Lemma allowed_in_both d : sandbox_decision d = SECCOMP_RET_ALLOW -> devmode_decision d = SECCOMP_RET_ALLOW.
Proof.
  unfold sandbox_decision, devmode_decision, decision.
  destruct (among (nr d) sandbox_allowed) eqn:E; [|intros H; exfalso; revert H; repeat case_match; simplify_eq; discriminate].
  destruct (negb (arch d =? AUDIT_ARCH_X86_64)); [discriminate|]. intros _.
  apply existsb_exists in E as (v & Hv & E). apply Z.eqb_eq in E. rewrite E.
  repeat (destruct Hv as [<-|Hv]; [reflexivity|]). destruct Hv.
Qed.

Lemma killed_in_both d :
  sandbox_decision d = SECCOMP_RET_KILL_PROCESS -> devmode_decision d = SECCOMP_RET_KILL_PROCESS.
Proof.
  unfold sandbox_decision, devmode_decision, decision. unfold devmode_killed. rewrite among_app.
  destruct (negb _ || _); [reflexivity|]. cbn [orb].
  destruct (among (nr d) sandbox_killed); [reflexivity|].
  intros H. exfalso. revert H. repeat case_match; simplify_eq; discriminate.
Qed.

(** C36: both arrays of instructions pass the kernel's checks, and running one on the data of
    any system call gives the entry of its decision table: the listed dangerous calls, the
    calls of another architecture and the x32 calls end the process; a socket of the packet or
    netlink families gets EACCES (EPERM in developer mode, where raw sockets get it as well);
    the listed calls are allowed; all others get EPERM. Developer mode allows every call that
    the sandbox allows and ends the process wherever the sandbox does. *)
Theorem filters_decide :
  checked sandbox_filter = true /\ checked devmode_filter = true
  /\ (forall d, verdict sandbox_filter d = Some (sandbox_decision d))
  /\ (forall d, verdict devmode_filter d = Some (devmode_decision d))
  /\ (forall d, sandbox_decision d = SECCOMP_RET_ALLOW -> devmode_decision d = SECCOMP_RET_ALLOW)
  /\ (forall d, sandbox_decision d = SECCOMP_RET_KILL_PROCESS -> devmode_decision d = SECCOMP_RET_KILL_PROCESS).
Proof.
  split; [reflexivity|]. split; [reflexivity|]. split; [|split; [|split]]; intros d.
  - change (verdict sandbox_filter d) with (exec d sandbox_filter 0). unfold sandbox_filter.
    rewrite exec_head, exec_return_for, exec_sandbox_sockets, exec_return_for, exec_cons.
    unfold sandbox_decision, decision. repeat case_match; try discriminate; try reflexivity; congruence.
  - change (verdict devmode_filter d) with (exec d devmode_filter 0). unfold devmode_filter.
    rewrite exec_head, exec_return_for, exec_devmode_sockets, exec_return_for, exec_cons.
    unfold devmode_decision, decision. repeat case_match; try discriminate; try reflexivity; congruence.
  - apply allowed_in_both.
  - apply killed_in_both.
Qed.
