(* ===== verification/Sandbox.v ===== *)
(** The sandbox of an application: control groups (src/libraries/sandbox/cgroups_init.c), the
    probe of namespaces (ns_unshare.c), the developer's jail (devmode_jail.c) and the mounts
    (mounts.c).

    The components are sequences of system calls. The environment is a function that answers
    a call, given the calls that were made before and their answers: not negative, or the
    negative of an [errno]. A computation gets the calls so far and adds its own, so that the
    state of the process and of the mount table are functions of the log. *)

From S2P Require Import Prelude Profiles Seccomp.

(** ** System calls *)

Definition EINTR : Z := 4.

Definition ENOENT : Z := 2.

Definition EEXIST : Z := 17.

Definition EINVAL : Z := 22.

Inductive call :=
  | Access (path : bytes)
  | Mkdir (path : bytes) (mode : Z)
  | StatDir (path : bytes)                    (* 0: it is a directory *)
  | OpenWrite (path : bytes) (create : bool)
  | Write (path content : bytes)              (* the octets written *)
  | Close (path : bytes)
  | Unlink (path : bytes)
  | Rmdir (path : bytes)
  | Unshare (flags : Z)
  | Sethostname (name : bytes)
  | Loopback (step : Z)                       (* socket, SIOCGIFFLAGS, SIOCSIFFLAGS *)
  | Mount (source : option bytes) (target : bytes) (flags : Z)
  | MountSetattr (target : bytes) (attr_set : Z)
  | Umount2 (target : bytes) (flags : Z)
  | NoNewPrivs
  | SetFilter (prog : list sock_filter).

(** The calls made and their answers, the last one first. *)
Abbreviation log := (list (call * Z)).

Record environment := mk_environment {
  answer : log -> call -> Z;
  getenv_root : option bytes;
  realpath : bytes -> option bytes;
  uid : Z;
  gid : Z;
}.

Definition sys (A : Type) : Type := log -> A * log.

Definition ret {A} (a : A) : sys A := fun l => (a, l).

Definition bind {A B} (m : sys A) (k : A -> sys B) : sys B := fun l => let (a, l) := m l in k a l.

Declare Scope sys_scope.
Notation "'let*' x ':=' m 'in' k" := (bind m (fun x => k))
  (at level 10, x pattern, m at level 100, k at level 200) : sys_scope.
#[local] Open Scope sys_scope.

Section Sandbox.
Context (env : environment).

Definition do_ (c : call) : sys Z := fun l => let r := answer env l c in (r, (c, r) :: l).

(** ** Paths *)

Definition PATH_MAX : Z := 4096.

(** [snprintf(path, size, "%s/%s", dir, name)], if it fits. *)
Definition join (size : Z) (dir name : bytes) : option bytes :=
  let path := dir ++ [47] ++ name in
  if len path >=? size then None else Some path.

(** The prefixes that end before a slash, but for one at the beginning. *)
Fixpoint parents (done_ rest : bytes) : list bytes :=
  match rest with
  | [] => []
  | c :: rest => if (c =? 47) && negb (len done_ =? 0) then done_ :: parents (done_ ++ [c]) rest else parents (done_ ++ [c]) rest
  end.

Definition slot_char (c : Z) : bool :=
  ((97 <=? c) && (c <=? 122)) || ((65 <=? c) && (c <=? 90)) || ((48 <=? c) && (c <=? 57)) || (c =? 95) || (c =? 45).

Definition CGROUP_SLOT_MAX : Z := 64.

(** [is_valid_slot_id], which stands three times in the code. *)
Definition is_valid_slot_id (slot_id : option bytes) : bool :=
  match slot_id with
  | None => false
  | Some s => (0 <? len s) && (len s <=? CGROUP_SLOT_MAX) && forallb slot_char s
  end.

(** ** Control groups *)

Definition SANDBOX_OK : Z := 0.

Definition ERR_UNSHARE_FAIL : Z := -2003.

Definition ERR_CGROUP_FAIL : Z := -2004.

Definition CGROUP_RAM_CAP_BYTES : Z := 256 * 1024 * 1024.

Definition CGROUP_SWAP_MAX_BYTES : Z := 0.

Definition CGROUP_PIDS_MAX : Z := 32.

Definition CGROUP_DEFAULT_ROOT : bytes := lit "/sys/fs/cgroup/alrios".

Definition CGROUP_FALLBACK_ROOT : bytes := lit "/tmp/alrios_cgroup".

Definition absolute (path : bytes) : bool := at_ path 0 =? 47.

(** Status and [s_custom_cgroup_root]. *)
Definition alrios_sandbox_set_cgroup_root (custom : bytes) (root_path : option bytes) : Z * bytes :=
  match root_path with
  | None => (SANDBOX_OK, [])
  | Some root =>
      if (len root =? 0) || (len root >=? PATH_MAX) || negb (absolute root) then (ERR_CGROUP_FAIL, custom)
      else (SANDBOX_OK, root)
  end.

Definition alrios_sandbox_get_cgroup_root (custom : bytes) : sys bytes :=
  if negb (len custom =? 0) then ret custom
  else
    match getenv_root env with
    | Some root => if absolute root then ret root else
        let* r := do_ (Access (lit "/sys/fs/cgroup")) in ret (if r =? 0 then CGROUP_DEFAULT_ROOT else CGROUP_FALLBACK_ROOT)
    | None => let* r := do_ (Access (lit "/sys/fs/cgroup")) in ret (if r =? 0 then CGROUP_DEFAULT_ROOT else CGROUP_FALLBACK_ROOT)
    end.

(** One directory: made, or there. *)
Definition make_dir (path : bytes) : sys bool :=
  let* r := do_ (Mkdir path 493) in
  if r =? 0 then ret true
  else if negb (r =? - EEXIST) then ret false
  else let* r := do_ (StatDir path) in ret (r =? 0).

Fixpoint make_dirs (paths : list bytes) : sys bool :=
  match paths with
  | [] => ret true
  | path :: paths => let* ok := make_dir path in if negb ok then ret false else make_dirs paths
  end.

Definition ensure_dir_exists (dir : bytes) : sys Z :=
  if (len dir =? 0) || (len dir >=? PATH_MAX) then ret (-1)
  else let* ok := make_dirs (parents [] dir ++ [dir]) in ret (if ok then 0 else -1).

Definition write_control_file (dir filename content : bytes) : sys Z :=
  match join PATH_MAX dir filename with
  | None => ret (-1)
  | Some path =>
      let* fd := do_ (OpenWrite path false) in
      let* fd := if fd =? - ENOENT then do_ (OpenWrite path true) else ret fd in
      if fd <? 0 then ret (-1)
      else
        let* written := do_ (Write path content) in
        let* _ := do_ (Close path) in
        ret (if (written <? 0) || negb (written =? len content) then -1 else 0)
  end.

Definition try_enable_controllers (root_dir : bytes) : sys unit :=
  match join PATH_MAX root_dir (lit "cgroup.subtree_control") with
  | None => ret tt
  | Some path =>
      let* fd := do_ (OpenWrite path false) in
      if fd <? 0 then ret tt
      else
        let* _ := do_ (Write path (lit "+memory +pids" ++ [10])) in
        let* _ := do_ (Close path) in ret tt
  end.

(** Control files one after the other, until one cannot be written. *)
Fixpoint write_controls (dir : bytes) (files : list (bytes * bytes)) : sys bool :=
  match files with
  | [] => ret true
  | (name, content) :: files =>
      let* r := write_control_file dir name content in
      if negb (r =? 0) then ret false else write_controls dir files
  end.

Definition number (n : Z) : bytes := decimal n ++ [10].

(** The limits of a slot, and the process that is put in it. *)
Definition cgroup_files (pid : Z) : list (bytes * bytes) :=
  [(lit "memory.max", number CGROUP_RAM_CAP_BYTES); (lit "memory.swap.max", number CGROUP_SWAP_MAX_BYTES);
   (lit "pids.max", number CGROUP_PIDS_MAX); (lit "cgroup.procs", number pid)].

Definition alrios_sandbox_setup_cgroups (custom : bytes) (slot_id : option bytes) (pid : Z) : sys Z :=
  match slot_id with
  | Some slot =>
      if negb (is_valid_slot_id slot_id) || (pid <=? 0) then ret ERR_CGROUP_FAIL
      else
        let* root := alrios_sandbox_get_cgroup_root custom in
        if negb (absolute root) then ret ERR_CGROUP_FAIL
        else
          let* made := ensure_dir_exists root in
          if negb (made =? 0) then ret ERR_CGROUP_FAIL
          else
            let* _ := try_enable_controllers root in
            match join PATH_MAX root slot with
            | None => ret ERR_CGROUP_FAIL
            | Some slot_path =>
                let* made := ensure_dir_exists slot_path in
                if negb (made =? 0) then ret ERR_CGROUP_FAIL
                else
                  let* ok := write_controls slot_path (cgroup_files pid) in
                  ret (if ok then SANDBOX_OK else ERR_CGROUP_FAIL)
            end
  | None => ret ERR_CGROUP_FAIL
  end.

Fixpoint unlink_files (dir : bytes) (names : list bytes) : sys unit :=
  match names with
  | [] => ret tt
  | name :: names =>
      match join PATH_MAX dir name with
      | Some path => let* _ := do_ (Unlink path) in unlink_files dir names
      | None => unlink_files dir names
      end
  end.

Definition alrios_sandbox_cleanup_cgroups (custom : bytes) (slot_id : option bytes) : sys Z :=
  match slot_id with
  | Some slot =>
      if negb (is_valid_slot_id slot_id) then ret ERR_CGROUP_FAIL
      else
        let* root := alrios_sandbox_get_cgroup_root custom in
        if negb (absolute root) then ret ERR_CGROUP_FAIL
        else
          match join PATH_MAX root slot with
          | None => ret ERR_CGROUP_FAIL
          | Some slot_path =>
              let* _ := unlink_files slot_path [lit "cgroup.procs"; lit "memory.max"; lit "memory.swap.max"; lit "pids.max"] in
              let* _ := do_ (Rmdir slot_path) in ret SANDBOX_OK
          end
  | None => ret ERR_CGROUP_FAIL
  end.

(** ** The probe of namespaces *)

Definition CLONE_NEWNS : Z := 131072.

Definition CLONE_NEWUTS : Z := 67108864.

Definition CLONE_NEWIPC : Z := 134217728.

Definition CLONE_NEWUSER : Z := 268435456.

Definition CLONE_NEWPID : Z := 536870912.

Definition CLONE_NEWNET : Z := 1073741824.

Definition flags_of (l : list Z) : Z := fold_left Z.lor l 0.

Definition NS_MAP_BUF_MAX : Z := 64.

Definition NS_WRITE_RETRY_MAX : Z := 16.

(** [alrios_ns_write_all] from an offset on: -1 and the [errno], or 0. *)
Fixpoint ns_write_loop (fuel : nat) (path buf : bytes) (offset retries : Z) : sys (option (Z * Z)) :=
  match fuel with
  | O => ret None
  | S fuel =>
      if negb (offset <? len buf) then ret (Some (0, 0))
      else
        let* written := do_ (Write path (drop (Z.to_nat offset) buf)) in
        if written <? 0 then
          if (written =? - EINTR) && (retries <? NS_WRITE_RETRY_MAX) then ns_write_loop fuel path buf offset (retries + 1)
          else ret (Some (-1, - written))
        else if written =? 0 then ret (Some (-1, 0))
        else ns_write_loop fuel path buf (offset + written) 0
  end.

(** A turn for every octet and every retry of it. *)
Definition alrios_ns_write_all (path buf : bytes) : sys (option (Z * Z)) :=
  ns_write_loop (S (length buf * 17 + 16)) path buf 0 0.

(** The status and the [errno] behind it. *)
Definition alrios_ns_write_file (path content : bytes) : sys (option (Z * Z)) :=
  if (len content =? 0) || (len content >=? NS_MAP_BUF_MAX) then ret (Some (-1, 0))
  else
    let* fd := do_ (OpenWrite path false) in
    if fd <? 0 then ret (Some (-1, - fd))
    else
      let* result := alrios_ns_write_all path content in
      match result with
      | None => ret None
      | Some (result, errno) =>
          let* closed := do_ (Close path) in
          ret (Some (if negb (closed =? 0) && (result =? 0) then (-1, - closed) else (result, errno)))
      end.

Definition alrios_ns_write_optional_file (path content : bytes) : sys (option Z) :=
  let* r := alrios_ns_write_file path content in
  ret (match r with
       | None => None
       | Some (result, errno) => Some (if result =? 0 then 0 else if errno =? ENOENT then 0 else -1)
       end).

(** [snprintf(map, sizeof(map), "0 %lu 1\n", id)] *)
Definition id_map (id : Z) : bytes := lit "0 " ++ decimal id ++ lit " 1" ++ [10].

Definition alrios_ns_map_current_user (host_uid host_gid : Z) : sys (option Z) :=
  let* groups := alrios_ns_write_optional_file (lit "/proc/self/setgroups") (lit "deny" ++ [10]) in
  match groups with
  | None => ret None
  | Some groups =>
      if negb (groups =? 0) then ret (Some (-1))
      else if len (id_map host_gid) >=? NS_MAP_BUF_MAX then ret (Some (-1))
      else
        let* g := alrios_ns_write_file (lit "/proc/self/gid_map") (id_map host_gid) in
        match g with
        | None => ret None
        | Some (g, _) =>
            if negb (g =? 0) then ret (Some (-1))
            else if len (id_map host_uid) >=? NS_MAP_BUF_MAX then ret (Some (-1))
            else
              let* u := alrios_ns_write_file (lit "/proc/self/uid_map") (id_map host_uid) in
              match u with
              | None => ret None
              | Some (u, _) => ret (Some (if u =? 0 then 0 else -1))
              end
        end
  end.

Definition probe_flags : Z := flags_of [CLONE_NEWPID; CLONE_NEWNET; CLONE_NEWNS].

Definition alrios_ns_unshare_pid_net_mount (host_uid host_gid : Z) : sys (option Z) :=
  let* r := do_ (Unshare probe_flags) in
  if r =? 0 then ret (Some 0)
  else if negb ((r =? - EPERM) || (r =? - EACCES)) then ret (Some (-1))
  else
    let* r := do_ (Unshare CLONE_NEWUSER) in
    if negb (r =? 0) then ret (Some (-1))
    else
      let* mapped := alrios_ns_map_current_user host_uid host_gid in
      match mapped with
      | None => ret None
      | Some mapped =>
          if negb (mapped =? 0) then ret (Some (-1))
          else let* r := do_ (Unshare probe_flags) in ret (Some (if r =? 0 then 0 else -1))
      end.

(** The probe runs in a process of its own, whose calls leave nothing in this one. *)
Definition alrios_ns_probe_kernel_support : sys (option Z) :=
  fun l => (fst (alrios_ns_unshare_pid_net_mount (uid env) (gid env) l), l).

Definition alrios_sandbox_enter_jail (slot_id : option bytes) (pid : Z) : sys (option Z) :=
  if negb (is_valid_slot_id slot_id) || (pid <=? 0) then ret (Some ERR_UNSHARE_FAIL)
  else
    let* r := alrios_ns_probe_kernel_support in
    ret (match r with None => None | Some r => Some (if r =? 0 then SANDBOX_OK else ERR_UNSHARE_FAIL) end).

(** ** The developer's jail *)

Definition POLICY_ABI_VERSION : Z := 1.

Definition POLICY_OK : Z := 0.

Definition POLICY_ERR_INVALID : Z := -5100.

Definition POLICY_ERR_DISABLED : Z := -5101.

Definition POLICY_ERR_UNSIGNED_SOVEREIGN : Z := -5102.

Definition DEPLOYMENT_DEVELOPMENT : Z := 1.

Definition DEPLOYMENT_PRODUCTION : Z := 2.

Definition ARTIFACT_UNSIGNED : Z := 1.

Definition ARTIFACT_SIGNATURE_VERIFIED : Z := 2.

Definition RING_DEVMODE : Z := 1.

Definition RING_SOVEREIGN : Z := 2.

Record devmode_policy := mk_policy {
  policy_abi : Z;
  deployment : Z;
  devmode_enabled : Z;
}.

Record devmode_request := mk_request {
  artifact_trust : Z;
  requested_ring : Z;
}.

Record devmode_admission := mk_admission {
  adm_abi : Z;
  adm_trust : Z;
  adm_ring : Z;
}.

(** Status and what is put in [out_admission]. *)
Definition alrios_devmode_policy_evaluate (policy : option devmode_policy) (request : option devmode_request)
    (out_admission : option devmode_admission) : Z * option devmode_admission :=
  match policy, request, out_admission with
  | Some policy, Some request, Some _ =>
      if negb (policy_abi policy =? POLICY_ABI_VERSION) then (POLICY_ERR_INVALID, out_admission)
      else if negb (deployment policy =? DEPLOYMENT_DEVELOPMENT) && negb (deployment policy =? DEPLOYMENT_PRODUCTION)
      then (POLICY_ERR_INVALID, out_admission)
      else if negb (artifact_trust request =? ARTIFACT_UNSIGNED) && negb (artifact_trust request =? ARTIFACT_SIGNATURE_VERIFIED)
      then (POLICY_ERR_INVALID, out_admission)
      else if negb (requested_ring request =? RING_DEVMODE) && negb (requested_ring request =? RING_SOVEREIGN)
      then (POLICY_ERR_INVALID, out_admission)
      else if ((deployment policy =? DEPLOYMENT_PRODUCTION) || (devmode_enabled policy =? 0))
              && ((artifact_trust request =? ARTIFACT_UNSIGNED) || (requested_ring request =? RING_DEVMODE))
      then (POLICY_ERR_DISABLED, out_admission)
      else if artifact_trust request =? ARTIFACT_UNSIGNED then
        if requested_ring request =? RING_SOVEREIGN then (POLICY_ERR_UNSIGNED_SOVEREIGN, out_admission)
        else (POLICY_OK, Some (mk_admission POLICY_ABI_VERSION ARTIFACT_UNSIGNED RING_DEVMODE))
      else (POLICY_OK, Some (mk_admission POLICY_ABI_VERSION ARTIFACT_SIGNATURE_VERIFIED (requested_ring request)))
  | _, _, _ => (POLICY_ERR_INVALID, out_admission)
  end.

Definition JAIL_OK : Z := 0.

Definition JAIL_ERR_INVALID : Z := -5201.

Definition JAIL_ERR_REJECTED : Z := -5202.

Definition JAIL_ERR_SOVEREIGN_DENIED : Z := -5203.

Definition JAIL_ERR_CGROUP : Z := -5204.

Definition JAIL_ERR_UNSHARE : Z := -5205.

Definition JAIL_ERR_SECCOMP : Z := -5206.

Definition JAIL_ERR_NET : Z := -5207.

Definition NET_LOOPBACK_ONLY : Z := 2.

Record jail_config := mk_config {
  slot : option bytes;
  target_pid : Z;
  memory_max_bytes : Z;
  pids_max : Z;
  net_mode : Z;
}.

Definition alrios_devmode_jail_validate_admission (node_profile : Z) (devmode_allowed_on_node app_marked_devmode app_signed : bool) : Z :=
  if node_profile =? PROFILE_SOVEREIGN_MAX then
    if negb app_signed || app_marked_devmode then JAIL_ERR_SOVEREIGN_DENIED else JAIL_OK
  else if negb app_signed then
    if negb devmode_allowed_on_node || negb app_marked_devmode then JAIL_ERR_REJECTED else JAIL_OK
  else if app_marked_devmode && negb devmode_allowed_on_node then JAIL_ERR_REJECTED
  else JAIL_OK.

Definition CPU_MAX_DEFAULT : bytes := lit "50000 100000" ++ [10].

(** The limits of the jail, those of the configuration if it has any. *)
Definition jail_limits (config : jail_config) : list (bytes * bytes) :=
  (lit "cpu.max", CPU_MAX_DEFAULT)
    :: (if memory_max_bytes config >? 0 then [(lit "memory.max", number (memory_max_bytes config))] else [])
    ++ (if pids_max config >? 0 then [(lit "pids.max", number (pids_max config))] else []).

Definition alrios_devmode_jail_setup_cgroups (custom : bytes) (config : option jail_config) : sys Z :=
  match config with
  | None => ret JAIL_ERR_INVALID
  | Some config =>
      match slot config with
      | Some slot_id =>
          if negb (is_valid_slot_id (slot config)) || (target_pid config <=? 0) then ret JAIL_ERR_INVALID
          else
            let* rc := alrios_sandbox_setup_cgroups custom (slot config) (target_pid config) in
            if negb (rc =? SANDBOX_OK) then ret JAIL_ERR_CGROUP
            else
              let* root := alrios_sandbox_get_cgroup_root custom in
              if negb (absolute root) then ret JAIL_ERR_CGROUP
              else
                match join PATH_MAX root slot_id with
                | None => ret JAIL_ERR_CGROUP
                | Some slot_path =>
                    let* ok := write_controls slot_path (jail_limits config) in
                    ret (if ok then JAIL_OK else JAIL_ERR_CGROUP)
                end
      | None => ret JAIL_ERR_INVALID
      end
  end.

Definition alrios_devmode_jail_cleanup_cgroups (custom : bytes) (slot_id : option bytes) : sys Z :=
  match slot_id with
  | None => ret JAIL_ERR_INVALID
  | Some s =>
      if negb (is_valid_slot_id slot_id) then ret JAIL_ERR_INVALID
      else
        let* root := alrios_sandbox_get_cgroup_root custom in
        let path := root ++ [47] ++ s ++ lit "/cpu.max" in
        let* _ := (if absolute root && (len path <? PATH_MAX) then do_ (Unlink path) else ret 0) in
        let* rc := alrios_sandbox_cleanup_cgroups custom slot_id in
        ret (if rc =? SANDBOX_OK then JAIL_OK else JAIL_ERR_CGROUP)
  end.

(** One write to a file of /proc/self that must be complete. *)
Definition write_map (path map : bytes) : sys Z :=
  if len map >=? 64 then ret (-1)
  else
    let* fd := do_ (OpenWrite path false) in
    if fd <? 0 then ret (-1)
    else
      let* written := do_ (Write path map) in
      let* _ := do_ (Close path) in
      ret (if written =? len map then 0 else -1).

Definition map_user_ns_root (host_uid host_gid : Z) : sys Z :=
  let* fd := do_ (OpenWrite (lit "/proc/self/setgroups") false) in
  let* _ :=
    (if fd >=? 0 then
       let* _ := do_ (Write (lit "/proc/self/setgroups") (lit "deny" ++ [10])) in do_ (Close (lit "/proc/self/setgroups"))
     else ret 0) in
  let* g := write_map (lit "/proc/self/gid_map") (id_map host_gid) in
  if negb (g =? 0) then ret (-1) else write_map (lit "/proc/self/uid_map") (id_map host_uid).

Definition bring_loopback_up : sys Z :=
  let* s := do_ (Loopback 0) in
  if s <? 0 then ret (-1)
  else
    let* got := do_ (Loopback 1) in
    if negb (got =? 0) then ret (-1)
    else let* set := do_ (Loopback 2) in ret (if set =? 0 then 0 else -1).

Definition jail_flags : Z := flags_of [CLONE_NEWNS; CLONE_NEWPID; CLONE_NEWIPC; CLONE_NEWUTS; CLONE_NEWNET].

Definition MS_RDONLY : Z := 1.

Definition MS_NOSUID : Z := 2.

Definition MS_NODEV : Z := 4.

Definition MS_NOEXEC : Z := 8.

Definition MS_REMOUNT : Z := 32.

Definition MS_BIND : Z := 4096.

Definition MS_REC : Z := 16384.

Definition MS_PRIVATE : Z := 262144.

(** The namespaces, directly or as the root of a new user namespace. *)
Definition enter_namespaces : sys Z :=
  let* r := do_ (Unshare jail_flags) in
  if r =? 0 then ret JAIL_OK
  else if negb ((r =? - EPERM) || (r =? - EACCES)) then ret JAIL_ERR_UNSHARE
  else
    let* r := do_ (Unshare CLONE_NEWUSER) in
    if negb (r =? 0) then ret JAIL_ERR_UNSHARE
    else
      let* mapped := map_user_ns_root (uid env) (gid env) in
      if negb (mapped =? 0) then ret JAIL_ERR_UNSHARE
      else let* r := do_ (Unshare jail_flags) in ret (if r =? 0 then JAIL_OK else JAIL_ERR_UNSHARE).

Definition alrios_devmode_jail_apply_namespaces (config : option jail_config) : sys Z :=
  let* entered := enter_namespaces in
  if negb (entered =? JAIL_OK) then ret entered
  else
    let* _ := do_ (Sethostname (lit "alrios-devmode-jail")) in
    let* _ := do_ (Mount None (lit "/") (flags_of [MS_REC; MS_PRIVATE])) in
    match config with
    | Some config =>
        if net_mode config =? NET_LOOPBACK_ONLY then
          let* up := bring_loopback_up in ret (if negb (up =? 0) then JAIL_ERR_NET else JAIL_OK)
        else ret JAIL_OK
    | None => ret JAIL_OK
    end.

(** Both forms of [apply_seccomp], with their statuses. *)
Definition apply_filter (prog : list sock_filter) (no_privs_status filter_status : Z) : sys Z :=
  let* r := do_ NoNewPrivs in
  if negb (r =? 0) then ret no_privs_status
  else let* r := do_ (SetFilter prog) in ret (if negb (r =? 0) then filter_status else 0).

Definition ERR_PRCTL_FAIL : Z := -2001.

Definition ERR_SECCOMP_FAIL : Z := -2002.

Definition alrios_sandbox_apply_seccomp : sys Z := apply_filter sandbox_filter ERR_PRCTL_FAIL ERR_SECCOMP_FAIL.

Definition alrios_devmode_jail_apply_seccomp : sys Z := apply_filter devmode_filter JAIL_ERR_SECCOMP JAIL_ERR_SECCOMP.

Definition alrios_devmode_jail_enter (custom : bytes) (node_profile : Z) (devmode_allowed_on_node app_marked_devmode app_signed : bool)
    (config : option jail_config) : sys Z :=
  let rc := alrios_devmode_jail_validate_admission node_profile devmode_allowed_on_node app_marked_devmode app_signed in
  if negb (rc =? JAIL_OK) then ret rc
  else
    let* rc := match config with
               | Some c => match slot c with Some _ => alrios_devmode_jail_setup_cgroups custom config | None => ret JAIL_OK end
               | None => ret JAIL_OK
               end in
    if negb (rc =? JAIL_OK) then ret rc
    else
      let* rc := alrios_devmode_jail_apply_namespaces config in
      if negb (rc =? JAIL_OK) then ret rc else alrios_devmode_jail_apply_seccomp.

(** ** Mounts *)

Definition MOUNT_OK : Z := 0.

Definition MOUNT_ERR_INVALID_ARG : Z := -5201.

Definition MOUNT_ERR_APP_ID : Z := -5202.

Definition MOUNT_ERR_PATH_TRAVERSAL : Z := -5203.

Definition MOUNT_ERR_NOT_FOUND : Z := -5204.

Definition MOUNT_ERR_MKDIR : Z := -5205.

Definition MOUNT_ERR_UNSHARE : Z := -5206.

Definition MOUNT_ERR_MOUNT : Z := -5207.

Definition MOUNT_ERR_UMOUNT : Z := -5208.

Definition APP_ID_MAX_LEN : Z := 128.

Definition MOUNT_PATH_MAX : Z := 4096.

Definition MNT_DETACH : Z := 2.

Record mount_entry := mk_entry {
  target_path : bytes;
  flags : Z;
  is_mounted : bool;
}.

(** The strings that [snprintf] stores; the entries in use are a list of at most four. *)
Record mount_context := mk_context {
  ctx_app_id : bytes;
  ctx_sandbox_root : bytes;
  ctx_code_source : bytes;
  ctx_code_target : bytes;
  ctx_data_source : bytes;
  ctx_data_target : bytes;
  ctx_entries : list mount_entry;
  ctx_active : bool;
}.

(** What [snprintf(_, size, "%s", s)] stores. *)
Definition stored (size : Z) (s : bytes) : bytes := sub 0 (size - 1) s.

Definition app_id_char (c : Z) : bool := slot_char c || (c =? 46).

Definition alrios_mount_validate_app_id (app_id : bytes) : bool :=
  (0 <? len app_id) && (len app_id <=? APP_ID_MAX_LEN - 1) && forallb app_id_char app_id.

(** [strstr(s, "..") != NULL] *)
Fixpoint has_dots (s : bytes) : bool :=
  match s with
  | 46 :: ((46 :: _) as s') => true
  | _ :: s => has_dots s
  | [] => false
  end.

(** The path before the last slash and the name behind it. *)
Fixpoint split_last (s : bytes) : option (bytes * bytes) :=
  match s with
  | [] => None
  | c :: s =>
      match split_last s with
      | Some (a, b) => Some (c :: a, b)
      | None => if c =? 47 then Some ([], s) else None
      end
  end.

(** The canonical form of a path, or of its parent if it does not exist. *)
Definition resolve_candidate (candidate : bytes) : bytes + Z :=
  match realpath env candidate with
  | Some path => inl path
  | None =>
      if len candidate >=? PATH_MAX then inr MOUNT_ERR_INVALID_ARG
      else
        match split_last candidate with
        | None => inr MOUNT_ERR_PATH_TRAVERSAL
        | Some ([], _) => inr MOUNT_ERR_PATH_TRAVERSAL
        | Some (parent, name) =>
            match realpath env parent with
            | None => inr MOUNT_ERR_NOT_FOUND
            | Some parent =>
                match join PATH_MAX parent name with
                | None => inr MOUNT_ERR_PATH_TRAVERSAL
                | Some path => inl path
                end
            end
        end
  end.

(** [strncmp(base, candidate, strlen(base)) == 0] and the end of a component behind it. *)
Definition below (base candidate : bytes) : bool :=
  negb (len candidate <? len base) && bytes_eqb base (sub 0 (len base) candidate)
  && ((len candidate =? len base) || (at_ candidate (len base) =? 47)).

(** Without the slash at the end. *)
Definition strip_slash (base : bytes) : bytes :=
  if at_ base (len base - 1) =? 47 then sub 0 (len base - 1) base else base.

Definition alrios_mount_validate_path_containment (base_dir candidate_path : option bytes) : Z :=
  match base_dir, candidate_path with
  | Some base_dir, Some candidate_path =>
      if (len base_dir =? 0) || (len candidate_path =? 0) then MOUNT_ERR_INVALID_ARG
      else if has_dots candidate_path then MOUNT_ERR_PATH_TRAVERSAL
      else
        match realpath env base_dir with
        | None => MOUNT_ERR_NOT_FOUND
        | Some resolved_base =>
            match resolve_candidate candidate_path with
            | inr e => e
            | inl candidate => if below (strip_slash resolved_base) candidate then MOUNT_OK else MOUNT_ERR_PATH_TRAVERSAL
            end
        end
  | _, _ => MOUNT_ERR_INVALID_ARG
  end.

(** Status and path. *)
Definition alrios_mount_get_data_path (base_storage_dir app_id : option bytes) (max_len : Z) : Z * option bytes :=
  match base_storage_dir, app_id with
  | Some base, Some app_id =>
      if max_len =? 0 then (MOUNT_ERR_INVALID_ARG, None)
      else if negb (alrios_mount_validate_app_id app_id) then (MOUNT_ERR_APP_ID, None)
      else match join max_len base app_id with
           | None => (MOUNT_ERR_PATH_TRAVERSAL, None)
           | Some path => (MOUNT_OK, Some path)
           end
  | _, _ => (MOUNT_ERR_INVALID_ARG, None)
  end.

Definition alrios_mount_setup_private_namespace : sys Z :=
  let* r := do_ (Unshare CLONE_NEWNS) in
  let* entered :=
    (if r =? 0 then ret true
     else if (r =? - EPERM) || (r =? - EACCES) then let* r := do_ (Unshare (flags_of [CLONE_NEWUSER; CLONE_NEWNS])) in ret (r =? 0)
     else ret false) in
  if negb entered then ret MOUNT_ERR_UNSHARE
  else
    let* r := do_ (Mount (Some (lit "none")) (lit "/") (flags_of [MS_REC; MS_PRIVATE])) in
    ret (if negb (r =? 0) && negb (r =? - EINVAL) && negb (r =? - EACCES) then MOUNT_ERR_MOUNT else MOUNT_OK).

Fixpoint mkdir_each (paths : list bytes) (mode : Z) : sys Z :=
  match paths with
  | [] => ret 0
  | path :: paths =>
      let* r := do_ (Mkdir path mode) in
      if negb (r =? 0) && negb (r =? - EEXIST) then ret (-1) else mkdir_each paths mode
  end.

Definition alrios_mkdir_p (path : bytes) (mode : Z) : sys Z :=
  if (len path =? 0) || (len path >=? PATH_MAX) then ret (-1) else mkdir_each (parents [] path ++ [path]) mode.

Definition alrios_mount_unmount_path (target_path : option bytes) : sys Z :=
  match target_path with
  | None => ret MOUNT_ERR_INVALID_ARG
  | Some target =>
      if len target =? 0 then ret MOUNT_ERR_INVALID_ARG
      else
        let* r := do_ (Umount2 target 0) in
        if r =? 0 then ret MOUNT_OK
        else if (r =? - ENOENT) || (r =? - EINVAL) then ret MOUNT_OK
        else
          let* r := do_ (Umount2 target MNT_DETACH) in
          ret (if r =? 0 then MOUNT_OK else if (r =? - ENOENT) || (r =? - EINVAL) then MOUNT_OK else MOUNT_ERR_UMOUNT)
  end.

(** The entries in reverse order; the first status that is not success is kept. *)
Fixpoint teardown_loop (reversed : list mount_entry) (overall_status : Z) : sys Z :=
  match reversed with
  | [] => ret overall_status
  | e :: reversed =>
      if is_mounted e then
        let* r := alrios_mount_unmount_path (Some (target_path e)) in
        teardown_loop reversed (if negb (r =? MOUNT_OK) && (overall_status =? MOUNT_OK) then r else overall_status)
      else teardown_loop reversed overall_status
  end.

Definition with_entries (ctx : mount_context) (entries : list mount_entry) (active : bool) : mount_context :=
  mk_context (ctx_app_id ctx) (ctx_sandbox_root ctx) (ctx_code_source ctx) (ctx_code_target ctx) (ctx_data_source ctx)
    (ctx_data_target ctx) entries active.

(** Status and context. *)
Definition alrios_mount_teardown_app_mounts (ctx : option mount_context) : sys (Z * option mount_context) :=
  match ctx with
  | None => ret (MOUNT_ERR_INVALID_ARG, None)
  | Some ctx =>
      let* overall_status := teardown_loop (rev (ctx_entries ctx)) MOUNT_OK in
      ret (overall_status, Some (with_entries ctx [] false))
  end.

(** [if (ctx && ctx->entry_count < 4U)] *)
Definition add_entry (ctx : option mount_context) (target : bytes) (fl : Z) : option mount_context :=
  match ctx with
  | Some c =>
      if len (ctx_entries c) <? 4 then
        Some (with_entries c (ctx_entries c ++ [mk_entry (stored MOUNT_PATH_MAX target) fl true]) (ctx_active c))
      else ctx
  | None => None
  end.

(** A second [mount] that sets the flags, and what is tried when it fails. *)
Definition remount (target : bytes) (fl attr_set : Z) : sys bool :=
  let* r := do_ (Mount (Some target) target fl) in
  if r =? 0 then ret true
  else
    let* r := do_ (Mount None target fl) in
    if r =? 0 then ret true
    else let* r := do_ (MountSetattr target attr_set) in ret (r =? 0).

Fixpoint unmount_each (targets : list bytes) : sys unit :=
  match targets with
  | [] => ret tt
  | t :: targets => let* _ := alrios_mount_unmount_path (Some t) in unmount_each targets
  end.

(** After a failure: the context's entries, or what was mounted without one. *)
Definition undo (ctx : option mount_context) (targets : list bytes) : sys (option mount_context) :=
  match ctx with
  | Some _ => let* r := alrios_mount_teardown_app_mounts ctx in ret (snd r)
  | None => let* _ := unmount_each targets in ret None
  end.

Definition ro_flags : Z := flags_of [MS_BIND; MS_REMOUNT; MS_RDONLY; MS_NOSUID; MS_NODEV; MS_REC].

Definition data_flags : Z := flags_of [MS_BIND; MS_REMOUNT; MS_NOSUID; MS_NODEV; MS_NOEXEC].

Definition code_attr : Z := flags_of [1; 2; 4].

Definition data_attr : Z := flags_of [2; 4; 8].

(** The second half: data on its target, with the code mounted. *)
Definition mount_data (data_dir code_target data_target : bytes) (ctx : option mount_context) : sys (Z * option mount_context) :=
  let* r := do_ (Mount (Some data_dir) data_target (flags_of [MS_BIND; MS_REC])) in
  if negb (r =? 0) then let* ctx := undo ctx [code_target] in ret (MOUNT_ERR_MOUNT, ctx)
  else
    let ctx := add_entry ctx data_target (flags_of [MS_NOSUID; MS_NODEV; MS_NOEXEC; MS_BIND]) in
    let* ok := remount data_target data_flags data_attr in
    if negb ok then let* ctx := undo ctx [data_target; code_target] in ret (MOUNT_ERR_MOUNT, ctx)
    else ret (MOUNT_OK, match ctx with Some c => Some (with_entries c (ctx_entries c) true) | None => None end).

Definition mount_both (code_dir data_dir code_target data_target : bytes) (ctx : option mount_context) : sys (Z * option mount_context) :=
  let* r := do_ (Mount (Some code_dir) code_target (flags_of [MS_BIND; MS_REC])) in
  if negb (r =? 0) then ret (MOUNT_ERR_MOUNT, ctx)
  else
    let ctx := add_entry ctx code_target (flags_of [MS_RDONLY; MS_NOSUID; MS_NODEV; MS_BIND; MS_REC]) in
    let* ok := remount code_target ro_flags code_attr in
    if negb ok then let* ctx := undo ctx [code_target] in ret (MOUNT_ERR_MOUNT, ctx)
    else mount_data data_dir code_target data_target ctx.

Definition alrios_mount_setup_app_mounts (app_id code_dir data_dir sandbox_root : option bytes) (ctx : option mount_context)
    : sys (Z * option mount_context) :=
  match app_id, code_dir, data_dir, sandbox_root with
  | Some app_id, Some code_dir, Some data_dir, Some sandbox_root =>
      if negb (alrios_mount_validate_app_id app_id) then ret (MOUNT_ERR_APP_ID, ctx)
      else
        let with_targets code data :=
          match ctx with
          | Some _ => Some (mk_context (stored APP_ID_MAX_LEN app_id) (stored MOUNT_PATH_MAX sandbox_root) (stored MOUNT_PATH_MAX code_dir) code
                              (stored MOUNT_PATH_MAX data_dir) data [] false)
          | None => None
          end in
        match join MOUNT_PATH_MAX sandbox_root (lit "app"), join MOUNT_PATH_MAX (sandbox_root ++ lit "/data") app_id with
        | Some code_target, Some data_target =>
            let ctx := with_targets (stored MOUNT_PATH_MAX code_target) (stored MOUNT_PATH_MAX data_target) in
            let* c := alrios_mkdir_p code_dir 493 in
            let* d := (if c =? 0 then alrios_mkdir_p data_dir 448 else ret (-1)) in
            if negb (d =? 0) then ret (MOUNT_ERR_MKDIR, ctx)
            else
              let* c := alrios_mkdir_p code_target 493 in
              let* d := (if c =? 0 then alrios_mkdir_p data_target 448 else ret (-1)) in
              if negb (d =? 0) then ret (MOUNT_ERR_MKDIR, ctx)
              else mount_both code_dir data_dir code_target data_target ctx
        | _, _ => ret (MOUNT_ERR_PATH_TRAVERSAL, with_targets [] [])
        end
  | _, _, _, _ => ret (MOUNT_ERR_INVALID_ARG, ctx)
  end.

(** ** Reasoning about the log *)

Definition wp {A} (m : sys A) (Q : A -> log -> Prop) (l : log) : Prop := let (a, l') := m l in Q a l'.

Lemma sys_wp_ret {A} (a : A) (Q : A -> log -> Prop) l : Q a l -> wp (ret a) Q l.
Proof. done. Qed.

Lemma sys_wp_bind {A B} (m : sys A) (k : A -> sys B) Q l : wp m (fun a l' => wp (k a) Q l') l -> wp (bind m k) Q l.
Proof. unfold wp, bind. by destruct (m l). Qed.

Lemma sys_wp_mono {A} (m : sys A) (Q Q' : A -> log -> Prop) l : wp m Q l -> (forall a l', Q a l' -> Q' a l') -> wp m Q' l.
Proof. unfold wp. destruct (m l). auto. Qed.

Lemma wp_do c (Q : Z -> log -> Prop) l : (forall r, Q r ((c, r) :: l)) -> wp (do_ c) Q l.
Proof. intros H. apply H. Qed.

(** [m] makes only calls of a kind. *)
Definition calls_only {A} (P : call * Z -> Prop) (m : sys A) (R : A -> log -> Prop) : Prop :=
  forall l, wp m (fun a l' => exists new, l' = new ++ l /\ Forall P new /\ R a new) l.

Lemma only_ret {A} P (a : A) (R : A -> log -> Prop) : R a [] -> calls_only P (ret a) R.
Proof. intros H l. apply sys_wp_ret. by exists []. Qed.

Lemma only_do P c (R : Z -> log -> Prop) : (forall r, P (c, r)) -> (forall r, R r [(c, r)]) -> calls_only P (do_ c) R.
Proof. intros HP HR l. apply wp_do. intros r. exists [(c, r)]. split_and!; [done|by apply list.Forall_singleton|done]. Qed.

Lemma only_bind {A B} P (m : sys A) (k : A -> sys B) (R : A -> log -> Prop) (S : B -> log -> Prop) :
  calls_only P m R -> (forall a new, R a new -> calls_only P (k a) (fun b new' => S b (new' ++ new))) -> calls_only P (bind m k) S.
Proof.
  intros Hm Hk l. apply sys_wp_bind. eapply sys_wp_mono; [apply Hm|]. intros a l1 (new & -> & Hf & HR).
  eapply sys_wp_mono; [by apply (Hk a new HR)|]. intros b l2 (new' & -> & Hf' & HS). exists (new' ++ new).
  split_and!; [by rewrite app_assoc|by apply Forall_app|done].
Qed.

Lemma only_mono {A} (P P' : call * Z -> Prop) (m : sys A) (R R' : A -> log -> Prop) :
  calls_only P m R -> (forall c, P c -> P' c) -> (forall a new, R a new -> R' a new) -> calls_only P' m R'.
Proof.
  intros Hm HP HR l. eapply sys_wp_mono; [apply Hm|]. intros a l' (new & -> & Hf & Hr). exists new.
  split_and!; [done|by eapply list.Forall_impl|by apply HR].
Qed.

Definition any {A} (a : A) (new : log) : Prop := True.

(** Calls that are neither the filter's nor those of the namespaces and of mounts. *)
Definition plain (c : call * Z) : Prop :=
  match c.1 with
  | SetFilter _ | NoNewPrivs | Unshare _ | Sethostname _ | Mount _ _ _ | MountSetattr _ _ | Umount2 _ _ => False
  | _ => True
  end.

(** Straight-line code that makes plain calls. *)
Ltac plain_calls :=
  repeat match goal with
  | |- calls_only _ (bind (do_ _) _) _ => eapply (only_bind _ _ _ any); [apply only_do; intros; done|intros ? ? _]
  | |- calls_only _ (ret _) any => by apply only_ret
  | |- calls_only _ (ret _) (fun _ _ => any _ _) => by apply only_ret
  | |- calls_only _ (do_ _) _ => apply only_do; intros; done
  | |- calls_only _ (if ?c then _ else _) _ => destruct c
  | |- calls_only _ (match ?c with _ => _ end) _ => destruct c
  end.

Lemma root_plain custom : calls_only plain (alrios_sandbox_get_cgroup_root custom) any.
Proof. unfold alrios_sandbox_get_cgroup_root. plain_calls. Qed.

Lemma make_dirs_plain paths : calls_only plain (make_dirs paths) any.
Proof.
  induction paths as [|path paths IH]; cbn [make_dirs]; [by apply only_ret|]. eapply (only_bind _ _ _ any); [unfold make_dir; plain_calls|].
  intros ok new _. destruct ok; cbn [negb]; [|by apply only_ret]. by eapply only_mono; [apply IH|..].
Qed.

Lemma ensure_plain dir : calls_only plain (ensure_dir_exists dir) any.
Proof.
  unfold ensure_dir_exists. destruct (_ || _); [by apply only_ret|]. eapply (only_bind _ _ _ any); [apply make_dirs_plain|].
  intros. by apply only_ret.
Qed.

Lemma enable_plain root : calls_only plain (try_enable_controllers root) any.
Proof. unfold try_enable_controllers. plain_calls. Qed.

(** The complete write of a control file is in the log. *)
Definition control_written (dir : bytes) (f : bytes * bytes) (new : log) : Prop :=
  exists path, join PATH_MAX dir f.1 = Some path /\ In (Write path f.2, len f.2) new.

Lemma control_file_spec dir f :
  calls_only plain (write_control_file dir f.1 f.2) (fun r new => r = 0 -> control_written dir f new).
Proof.
  unfold write_control_file. destruct (join PATH_MAX dir f.1) as [path|] eqn:Ej; [|by apply only_ret].
  eapply (only_bind _ _ _ any); [by apply only_do; intros|]. intros fd new0 _.
  eapply (only_bind _ _ _ any); [plain_calls; by apply only_ret|]. intros fd1 new1 _. destruct (fd1 <? 0); [by apply only_ret|].
  eapply (only_bind _ _ _ (fun r new => new = [(Write path f.2, r)])); [by apply only_do; intros|]. intros written new2 ->.
  eapply (only_bind _ _ _ any); [by apply only_do; intros|]. intros ? new3 _. apply only_ret.
  destruct ((written <? 0) || _) eqn:E; [done|]. intros _. bool_hyps. subst written. exists path. split; [done|].
  rewrite app_nil_l. apply in_or_app. left. apply in_or_app. left. apply in_or_app. right. by left.
Qed.

Lemma controls_spec dir files :
  calls_only plain (write_controls dir files) (fun ok new => ok = true -> Forall (fun f => control_written dir f new) files).
Proof.
  induction files as [|[name content] files IH]; cbn [write_controls]; [by apply only_ret|].
  eapply only_bind; [apply (control_file_spec dir (name, content))|]. intros r new Hr. cbn [fst snd] in Hr.
  destruct (r =? 0) eqn:E; bool_hyps; cbn [negb]; [|by apply only_ret]. eapply only_mono; [apply IH|done|].
  intros ok new' Hok Ht. apply list.Forall_cons. split.
  - destruct (Hr E) as (path & Hj & Hin). exists path. split; [done|]. apply in_or_app. by right.
  - eapply list.Forall_impl; [by apply Hok|]. intros f (path & Hj & Hin). exists path. split; [done|]. apply in_or_app. by left.
Qed.

(** The limits of a slot are written under some root. *)
Definition limits_written (slot_id : bytes) (files : list (bytes * bytes)) (new : log) : Prop :=
  exists root dir, absolute root = true /\ join PATH_MAX root slot_id = Some dir /\ Forall (fun f => control_written dir f new) files.

Lemma limits_more slot_id files new new' :
  limits_written slot_id files new -> (forall c, In c new -> In c new') -> limits_written slot_id files new'.
Proof.
  intros (root & dir & Ha & Hj & Hf) Hin. exists root, dir. split_and!; [done|done|]. eapply list.Forall_impl; [done|].
  intros f (path & Hp & Hi). exists path. split; [done|by apply Hin].
Qed.

Lemma cgroups_spec custom slot_id pid :
  calls_only plain (alrios_sandbox_setup_cgroups custom (Some slot_id) pid)
    (fun rc new => rc = SANDBOX_OK -> limits_written slot_id (cgroup_files pid) new).
Proof.
  unfold alrios_sandbox_setup_cgroups. destruct (negb _ || _); [by apply only_ret|].
  eapply (only_bind _ _ _ any); [apply root_plain|]. intros root new0 _. destruct (absolute root) eqn:Ea; cbn [negb]; [|by apply only_ret].
  eapply (only_bind _ _ _ any); [apply ensure_plain|]. intros made new1 _. destruct (made =? 0); cbn [negb]; [|by apply only_ret].
  eapply (only_bind _ _ _ any); [apply enable_plain|]. intros ? new2 _. destruct (join PATH_MAX root slot_id) as [dir|] eqn:Ej; [|by apply only_ret].
  eapply (only_bind _ _ _ any); [apply ensure_plain|]. intros made' new3 _. destruct (made' =? 0); cbn [negb]; [|by apply only_ret].
  eapply only_bind; [apply controls_spec|]. intros ok new4 Hok. apply only_ret. destruct ok; [|done]. intros _.
  exists root, dir. split_and!; [done|done|]. eapply list.Forall_impl; [by apply Hok|]. intros f (path & Hj & Hin).
  exists path. split; [done|]. do 4 (apply in_or_app; left). by apply in_or_app; right.
Qed.

(** ** The jail *)

Lemma jail_cgroups_spec custom c slot_id :
  slot c = Some slot_id ->
  calls_only plain (alrios_devmode_jail_setup_cgroups custom (Some c))
    (fun rc new => rc = JAIL_OK -> limits_written slot_id (cgroup_files (target_pid c)) new /\ limits_written slot_id (jail_limits c) new).
Proof.
  intros Hs. unfold alrios_devmode_jail_setup_cgroups. rewrite Hs. destruct (negb _ || _); [by apply only_ret|].
  eapply only_bind; [apply cgroups_spec|]. intros rc new0 H0. destruct (rc =? SANDBOX_OK) eqn:E; bool_hyps; cbn [negb]; [|by apply only_ret].
  eapply (only_bind _ _ _ any); [apply root_plain|]. intros root new1 _. destruct (absolute root) eqn:Ea; cbn [negb]; [|by apply only_ret].
  destruct (join PATH_MAX root slot_id) as [dir|] eqn:Ej; [|by apply only_ret].
  eapply only_bind; [apply controls_spec|]. intros ok new2 Hok. apply only_ret. destruct ok; [|done]. intros _. rewrite app_nil_l. split.
  - eapply limits_more; [by apply H0|]. intros x Hx. apply in_or_app. right. done.
  - exists root, dir. split_and!; [done|done|]. eapply list.Forall_impl; [by apply Hok|]. intros f (path & Hj & Hin).
    exists path. split; [done|]. do 2 (apply in_or_app; left). done.
Qed.

(** Neither the filter nor the promise that goes before it. *)
Definition unfiltered (c : call * Z) : Prop :=
  match c.1 with SetFilter _ | NoNewPrivs => False | _ => True end.

Lemma plain_unfiltered c : plain c -> unfiltered c.
Proof. unfold plain, unfiltered. by destruct c as [[] ?]. Qed.

Ltac unfiltered_calls :=
  repeat match goal with
  | |- calls_only _ (bind (do_ _) _) _ => eapply (only_bind _ _ _ any); [apply only_do; intros; done|intros ? ? _]
  | |- calls_only _ (ret _) _ => by apply only_ret
  | |- calls_only _ (do_ _) _ => apply only_do; intros; done
  | |- calls_only _ (if ?c then _ else _) _ => destruct c
  | |- calls_only _ (match ?c with _ => _ end) _ => destruct c
  end.

Lemma write_map_unfiltered path map : calls_only unfiltered (write_map path map) any.
Proof. unfold write_map. unfiltered_calls. Qed.

Lemma user_map_unfiltered u g : calls_only unfiltered (map_user_ns_root u g) any.
Proof.
  unfold map_user_ns_root. eapply (only_bind _ _ _ any); [by apply only_do; intros|]. intros fd new0 _.
  eapply (only_bind _ _ _ any); [unfiltered_calls|]. intros ? new1 _.
  eapply (only_bind _ _ _ any); [apply write_map_unfiltered|]. intros r new2 _. destruct (negb _); [by apply only_ret|].
  by eapply only_mono; [apply write_map_unfiltered|..].
Qed.

(** The namespaces are entered, or an error says they are not. *)
Lemma namespaces_spec :
  calls_only unfiltered enter_namespaces (fun rc new => rc = JAIL_OK -> In (Unshare jail_flags, 0) new).
Proof.
  unfold enter_namespaces. eapply (only_bind _ _ _ (fun r new => new = [(Unshare jail_flags, r)])); [by apply only_do; intros|]. intros r new0 ->.
  destruct (r =? 0) eqn:E; bool_hyps; [apply only_ret; intros _; by left; rewrite E|]. destruct (negb _); [by apply only_ret|].
  eapply (only_bind _ _ _ any); [by apply only_do; intros|]. intros r1 new1 _. destruct (negb _); [by apply only_ret|].
  eapply (only_bind _ _ _ any); [apply user_map_unfiltered|]. intros r2 new2 _. destruct (negb _); [by apply only_ret|].
  eapply (only_bind _ _ _ (fun r new => new = [(Unshare jail_flags, r)])); [by apply only_do; intros|]. intros r3 new3 ->.
  apply only_ret. destruct (r3 =? 0) eqn:E3; bool_hyps; [|done]. intros _. subst r3. rewrite app_nil_l. do 3 (apply in_or_app; left). by left.
Qed.

Lemma loopback_unfiltered : calls_only unfiltered bring_loopback_up any.
Proof. unfold bring_loopback_up. unfiltered_calls. Qed.

Lemma apply_namespaces_spec config :
  calls_only unfiltered (alrios_devmode_jail_apply_namespaces config) (fun rc new => rc = JAIL_OK -> In (Unshare jail_flags, 0) new).
Proof.
  unfold alrios_devmode_jail_apply_namespaces. eapply only_bind; [apply namespaces_spec|]. intros rc new0 H0.
  destruct (rc =? JAIL_OK) eqn:E; bool_hyps; cbn [negb]; [|by apply only_ret]. specialize (H0 E).
  assert (Hend : forall rc new, rc = JAIL_OK -> In (Unshare jail_flags, 0) (new ++ new0)) by (intros; apply in_or_app; by right).
  eapply (only_bind _ _ _ any); [by apply only_do; intros|]. intros ? new1 _.
  eapply (only_bind _ _ _ any); [by apply only_do; intros|]. intros ? new2 _.
  assert (Hall : forall rc new, rc = JAIL_OK -> In (Unshare jail_flags, 0) (((new ++ new2) ++ new1) ++ new0)) by (intros; by eapply Hend).
  destruct config as [config|]; [|apply only_ret; by apply Hall]. destruct (net_mode config =? NET_LOOPBACK_ONLY); [|apply only_ret; by apply Hall].
  eapply (only_bind _ _ _ any); [apply loopback_unfiltered|]. intros up new3 _. apply only_ret. intros Hrc. rewrite app_nil_l. by eapply Hall.
Qed.

(** The last two calls. *)
Lemma apply_filter_spec prog e1 e2 l (Q : Z -> log -> Prop) :
  e1 <> 0 -> e2 <> 0 ->
  Q 0 ((SetFilter prog, 0) :: (NoNewPrivs, 0) :: l) ->
  (forall e r, e <> 0 -> r <> 0 -> Q e ((NoNewPrivs, r) :: l) /\ Q e ((SetFilter prog, r) :: (NoNewPrivs, 0) :: l)) ->
  wp (apply_filter prog e1 e2) Q l.
Proof.
  intros He1 He2 Hok Hbad. unfold apply_filter. apply sys_wp_bind, wp_do. intros r. destruct (r =? 0) eqn:E; bool_hyps; cbn [negb].
  - subst r. apply sys_wp_bind, wp_do. intros r. apply sys_wp_ret. destruct (r =? 0) eqn:E; bool_hyps; cbn [negb]; [by subst r|by apply Hbad].
  - apply sys_wp_ret. by apply Hbad.
Qed.

(** The filters that are in force. *)
Definition filters (l : log) : list (list sock_filter) :=
  omap (fun c => match c with (SetFilter prog, 0) => Some prog | _ => None end) l.

Lemma filters_app new l : filters (new ++ l) = filters new ++ filters l.
Proof. unfold filters. apply omap_app. Qed.

Lemma filters_none new : Forall unfiltered new -> filters new = [].
Proof.
  induction new as [|[c r] new IH]; intros H; [done|]. apply list.Forall_cons in H as [Hc H]. unfold filters in *. cbn.
  destruct c; try done; by apply IH.
Qed.

(** The limits of the jail's slot are in the log, those that every slot has and those of the
    configuration; without a slot nothing was done. *)
Definition limited (config : option jail_config) (new : log) : Prop :=
  match config with
  | Some c =>
      match slot c with
      | Some slot_id =>
          limits_written slot_id (cgroup_files (target_pid c)) new /\ limits_written slot_id (jail_limits c) new
      | None => new = []
      end
  | None => new = []
  end.

Lemma jail_cgroup_step custom config :
  calls_only plain
    (match config with
     | Some c => match slot c with Some _ => alrios_devmode_jail_setup_cgroups custom config | None => ret JAIL_OK end
     | None => ret JAIL_OK
     end)
    (fun rc new => rc = JAIL_OK -> limited config new).
Proof.
  unfold limited. destruct config as [c|]; [|by apply only_ret]. destruct (slot c) as [slot_id|] eqn:Es; [|by apply only_ret].
  by apply jail_cgroups_spec.
Qed.

Lemma unfiltered_forall new : Forall plain new -> Forall unfiltered new.
Proof. intros H. eapply list.Forall_impl; [exact H|apply plain_unfiltered]. Qed.

(** C18: Whoever is told that the jail was entered is in it. When the entry succeeds, the
    application was admitted, and the calls that were made are, in this order: those that
    write the limits of its slot completely to the control files under the cgroup root (none
    for a configuration without a slot), with no call on namespaces among them; those that
    make the namespaces of mounts, processes, IPC, names and network the process's own; the
    one that gives up new privileges; and the one that puts the jail's filter in force. When
    it fails, at whatever call, no filter was added. *)
Theorem jail_entered custom node_profile allowed marked signed config l :
  wp (alrios_devmode_jail_enter custom node_profile allowed marked signed config)
    (fun rc l' =>
       (rc = JAIL_OK ->
        alrios_devmode_jail_validate_admission node_profile allowed marked signed = JAIL_OK /\
        exists limits_ entered,
          l' = (SetFilter devmode_filter, 0) :: (NoNewPrivs, 0) :: entered ++ limits_ ++ l /\
          Forall plain limits_ /\ limited config limits_ /\
          Forall unfiltered entered /\ In (Unshare jail_flags, 0) entered) /\
       (rc <> JAIL_OK -> filters l' = filters l)) l.
Proof.
  unfold alrios_devmode_jail_enter. set (adm := alrios_devmode_jail_validate_admission _ _ _ _).
  destruct (adm =? JAIL_OK) eqn:Ea; bool_hyps; cbn [negb]; [|by apply sys_wp_ret].
  assert (Hnone : forall new, Forall unfiltered new -> filters (new ++ l) = filters l)
    by (intros; by rewrite filters_app, filters_none).
  apply sys_wp_bind. eapply sys_wp_mono; [apply jail_cgroup_step|]. intros rc l1 (new1 & -> & Hf1 & H1). cbn beta.
  pose proof (unfiltered_forall new1 Hf1) as Hu1.
  destruct (rc =? JAIL_OK) eqn:E1; bool_hyps; cbn [negb]; [|apply sys_wp_ret; split; [done|auto]]. specialize (H1 E1).
  apply sys_wp_bind. eapply sys_wp_mono; [apply apply_namespaces_spec|]. intros rc2 l2 (new2 & -> & Hf2 & H2).
  assert (Hf : Forall unfiltered (new2 ++ new1)) by (by apply Forall_app). specialize (Hnone _ Hf). rewrite <- app_assoc in Hnone.
  destruct (rc2 =? JAIL_OK) eqn:E2; bool_hyps; cbn [negb]; [|by apply sys_wp_ret]. specialize (H2 E2).
  apply apply_filter_spec; [done|done| |].
  - split; [|done]. intros _. split; [done|]. exists new1, new2. by split_and!.
  - intros e r He Hr. split; (split; [done|]; intros _); [exact Hnone|]. by destruct r.
Qed.

(** ** The probe *)

(** A write ends within a turn for every octet and sixteen for its retries. *)
Lemma write_loop_ends fuel path buf offset retries l :
  0 <= retries <= 16 -> 0 < Z.of_nat fuel -> (len buf - offset) * 17 + (16 - retries) < Z.of_nat fuel ->
  wp (ns_write_loop fuel path buf offset retries) (fun r _ => r <> None) l.
Proof.
  revert offset retries l. induction fuel as [|fuel IH]; intros offset retries l Hr H0 Hf; [lia|]. cbn [ns_write_loop].
  destruct (negb (offset <? len buf)) eqn:E; bool_hyps; [by apply sys_wp_ret|]. apply sys_wp_bind, wp_do. intros r.
  destruct (r <? 0) eqn:Er; bool_hyps.
  - destruct ((r =? - EINTR) && (retries <? NS_WRITE_RETRY_MAX)) eqn:Eb; [|by apply sys_wp_ret]. unfold NS_WRITE_RETRY_MAX in Eb. bool_hyps.
    apply IH; lia.
  - destruct (r =? 0) eqn:Ez; bool_hyps; [by apply sys_wp_ret|]. apply IH; lia.
Qed.

Definition ends {A} (m : sys (option A)) : Prop := forall l, wp m (fun r _ => r <> None) l.

Lemma sys_ends_bind {A B} (m : sys A) (k : A -> sys (option B)) : (forall a, ends (k a)) -> ends (bind m k).
Proof. intros Hk l. apply sys_wp_bind. unfold wp at 1. destruct (m l) as [a l']. apply Hk. Qed.

Lemma ends_then {A B} (m : sys (option A)) (k : option A -> sys (option B)) : ends m -> (forall a, ends (k (Some a))) -> ends (bind m k).
Proof. intros Hm Hk l. apply sys_wp_bind. eapply sys_wp_mono; [apply Hm|]. intros [a|] l' Ha; [apply Hk|done]. Qed.

Lemma ends_ret {A} (a : A) : ends (ret (Some a)).
Proof. intros l. by apply sys_wp_ret. Qed.

Lemma write_all_ends path buf : ends (alrios_ns_write_all path buf).
Proof. intros l. apply write_loop_ends; unfold len; lia. Qed.

Lemma write_file_ends path content : ends (alrios_ns_write_file path content).
Proof.
  unfold alrios_ns_write_file. destruct (_ || _); [apply ends_ret|]. apply sys_ends_bind. intros fd. destruct (fd <? 0); [apply ends_ret|].
  apply ends_then; [apply write_all_ends|]. intros [result errno]. apply sys_ends_bind. intros. apply ends_ret.
Qed.

Lemma map_user_ends u g : ends (alrios_ns_map_current_user u g).
Proof.
  unfold alrios_ns_map_current_user. apply ends_then.
  { apply ends_then; [apply write_file_ends|]. intros [result errno]. apply ends_ret. }
  intros groups. destruct (negb _); [apply ends_ret|]. destruct (_ >=? _); [apply ends_ret|]. apply ends_then; [apply write_file_ends|].
  intros [a ?]. destruct (negb _); [apply ends_ret|]. destruct (_ >=? _); [apply ends_ret|]. apply ends_then; [apply write_file_ends|].
  intros [b ?]. apply ends_ret.
Qed.

Lemma probe_ends u g : ends (alrios_ns_unshare_pid_net_mount u g).
Proof.
  unfold alrios_ns_unshare_pid_net_mount. apply sys_ends_bind. intros r. destruct (r =? 0); [apply ends_ret|]. destruct (negb _); [apply ends_ret|].
  apply sys_ends_bind. intros r1. destruct (negb _); [apply ends_ret|]. apply ends_then; [apply map_user_ends|]. intros m.
  destruct (negb _); [apply ends_ret|]. apply sys_ends_bind. intros. apply ends_ret.
Qed.

(** [alrios_sandbox_enter_jail] comes to an end with a status, and leaves the process as it
    was: no call of it is made in this process. *)
Lemma enter_jail_enters_nothing slot_id pid l :
  wp (alrios_sandbox_enter_jail slot_id pid) (fun r l' => (r = Some SANDBOX_OK \/ r = Some ERR_UNSHARE_FAIL) /\ l' = l) l.
Proof.
  unfold alrios_sandbox_enter_jail. destruct (negb _ || _); [apply sys_wp_ret; by split; [right|]|]. apply sys_wp_bind.
  unfold alrios_ns_probe_kernel_support. unfold wp at 1. pose proof (probe_ends (uid env) (gid env) l) as Hp. unfold wp in Hp.
  destruct (alrios_ns_unshare_pid_net_mount _ _ l) as [r l']. apply sys_wp_ret. cbn [fst]. destruct r as [r|]; [|done].
  split; [|done]. destruct (r =? 0); [by left|by right].
Qed.

(** ** The mount table

    Paths are compared as strings: the table says what is mounted under which name. *)

(** Where something is mounted, and the protections it has, the last one first. *)
Abbreviation table := (list (bytes * Z)).

Definition protections (fl : Z) : Z := Z.land fl (flags_of [MS_RDONLY; MS_NOSUID; MS_NODEV; MS_NOEXEC]).

(** What comes behind the path [p] in [q], if [q] is deeper: a slash and more. *)
Fixpoint under (p q : bytes) : option bytes :=
  match p, q with
  | [], c :: _ => if c =? 47 then Some q else None
  | x :: p, y :: q => if x =? y then under p q else None
  | _, [] => None
  end.

Definition is_under (p q : bytes) : bool := match under p q with Some _ => true | None => false end.

(** The mounts below a directory, by the rest of their paths; not those that a later mount,
    one of [later], hides. *)
Fixpoint submounts (source : bytes) (later : list bytes) (t : table) : table :=
  match t with
  | [] => []
  | (p, fl) :: t =>
      let others := submounts source (p :: later) t in
      match under (strip_slash source) p with
      | Some rest => if existsb (fun q => is_under q p) later then others else (rest, fl) :: others
      | None => others
      end
  end.

(** What a recursive bind mount makes of them. *)
Definition copies (source target : bytes) (t : table) : table :=
  map (fun e => (target ++ e.1, e.2)) (submounts source [] t).

(** The protections of the mount a directory is in, none if it is not in the table. *)
Fixpoint inherited (source : bytes) (t : table) : Z :=
  match t with
  | [] => 0
  | (p, fl) :: t => if bytes_eqb p (strip_slash source) || is_under p source then fl else inherited source t
  end.

(** The mount on top at [target]. *)
Fixpoint change_top (t : table) (target : bytes) (f : Z -> Z) : table :=
  match t with
  | [] => []
  | (p, fl) :: t => if bytes_eqb p target then (p, f fl) :: t else (p, fl) :: change_top t target f
  end.

(** The mount on top at [target] and what was mounted below it since. *)
Fixpoint change_tree (t : table) (target : bytes) (f : Z -> Z) : table :=
  match t with
  | [] => []
  | (p, fl) :: t =>
      if bytes_eqb p target then (p, f fl) :: t
      else (p, if is_under target p then f fl else fl) :: change_tree t target f
  end.

Fixpoint remove_tree (t : table) (target : bytes) : table :=
  match t with
  | [] => []
  | (p, fl) :: t =>
      if bytes_eqb p target then t
      else if is_under target p then remove_tree t target else (p, fl) :: remove_tree t target
  end.

(** What a call does to the table: only one that succeeds does anything. A bind mount has the
    protections of its source, and one with [MS_REC] brings the mounts below the source with
    it; a remount replaces the protections of the mount on top and of no other, while
    [mount_setattr], called with [AT_RECURSIVE], adds to those of the whole tree. A mount with
    others below it can only be detached, and they go with it. *)
Definition effect (c : call * Z) (t : table) : table :=
  match c with
  | (Mount source target fl, 0) =>
      if negb (Z.land fl MS_REMOUNT =? 0) then change_top t target (fun _ => protections fl)
      else if negb (Z.land fl MS_BIND =? 0) then
        match source with
        | Some source =>
            (if negb (Z.land fl MS_REC =? 0) then copies source target t else []) ++ (target, inherited source t) :: t
        | None => t
        end
      else t
  | (MountSetattr target attr, 0) => change_tree t target (fun fl => Z.lor fl attr)
  | (Umount2 target _, 0) => remove_tree t target
  | _ => t
  end.

Definition mounted (l : log) : table := foldr effect [] l.

Lemma mounted_app new l : mounted (new ++ l) = foldr effect (mounted l) new.
Proof. apply foldr_app. Qed.

Lemma mounted_cons c l : mounted (c :: l) = effect c (mounted l).
Proof. done. Qed.

Lemma mounted_plain new l : Forall plain new -> mounted (new ++ l) = mounted l.
Proof.
  rewrite mounted_app. induction new as [|[c r] new IH]; intros H; [done|]. apply list.Forall_cons in H as [Hc H]. cbn [foldr].
  rewrite IH by done. destruct c; first [done|by destruct Hc].
Qed.

(** Unmounting works: a plain [umount2] answers 0, or an error other than that there is
    nothing to unmount (such as [EBUSY]), and one with [MNT_DETACH] answers 0. *)
Definition unmounts_work (new : log) : Prop :=
  Forall (fun c => match c.1 with
                   | Umount2 _ fl => c.2 = 0 \/ fl <> MNT_DETACH /\ c.2 <> - ENOENT /\ c.2 <> - EINVAL
                   | _ => True
                   end) new.

Lemma plain_unmounts new : Forall plain new -> unmounts_work new.
Proof. intros H. eapply list.Forall_impl; [done|]. intros [[] ?] Hp; done. Qed.

Lemma mkdirs_plain path mode : calls_only plain (alrios_mkdir_p path mode) any.
Proof.
  unfold alrios_mkdir_p. destruct (_ || _); [by apply only_ret|]. generalize (parents [] path ++ [path]). intros paths.
  induction paths as [|p paths IH]; cbn [mkdir_each]; [by apply only_ret|].
  eapply (only_bind _ _ _ any); [by apply only_do; intros|]. intros r new _. destruct (_ && _); [by apply only_ret|].
  by eapply only_mono; [apply IH|..].
Qed.

(** The mounts of a tree: what is below its root, and the root. *)
Definition tree (target : bytes) (s : table) : Prop :=
  exists kids fl, s = kids ++ [(target, fl)] /\ Forall (fun e => is_under target e.1 = true) kids.

Lemma under_app p rest : at_ rest 0 = 47 -> under p (p ++ rest) = Some rest.
Proof.
  intros Hr. induction p as [|x p IH]; cbn [app under]; [|by rewrite Z.eqb_refl].
  destruct rest as [|c rest]; [done|]. change (at_ (c :: rest) 0) with c in Hr. by rewrite Hr.
Qed.

Lemma under_slash p q rest : under p q = Some rest -> at_ rest 0 = 47.
Proof.
  revert q. induction p as [|x p IH]; intros [|y q]; cbn [under]; try done.
  - destruct (Z.eqb_spec y 47) as [->|]; [by intros [= <-]|done].
  - destruct (x =? y); [apply IH|done].
Qed.

Lemma under_self p : is_under p p = false.
Proof. unfold is_under. induction p as [|x p IH]; cbn [under]; [done|]. by rewrite Z.eqb_refl. Qed.

Lemma under_neq p q : is_under p q = true -> bytes_eqb q p = false.
Proof.
  intros H. destruct (bytes_eqb q p) eqn:E; [|done]. apply bytes_eqb_eq in E as ->. by rewrite under_self in H.
Qed.

Lemma submounts_slash source later t : Forall (fun e => at_ e.1 0 = 47) (submounts source later t).
Proof.
  revert later. induction t as [|[p fl] t IH]; intros later; cbn [submounts]; [constructor|].
  destruct (under _ p) as [rest|] eqn:E; [|apply IH]. destruct (existsb _ _); [apply IH|].
  constructor; [by eapply under_slash|apply IH].
Qed.

Lemma copies_under source target t : Forall (fun e => is_under target e.1 = true) (copies source target t).
Proof.
  unfold copies. apply Forall_map. eapply list.Forall_impl; [apply submounts_slash|]. intros [rest fl] Hr. cbn [fst] in *.
  unfold is_under. by rewrite under_app.
Qed.

Lemma tree_removed target s t : tree target s -> remove_tree (s ++ t) target = t.
Proof.
  intros (kids & fl & -> & Hk). rewrite <- app_assoc. cbn [app]. induction Hk as [|[p f] kids Hp _ IH]; cbn [app remove_tree].
  - by rewrite bytes_eqb_refl.
  - cbn [fst] in Hp. by rewrite under_neq, Hp.
Qed.

Lemma top_changed kids target fl t f :
  Forall (fun e => is_under target e.1 = true) kids ->
  change_top (kids ++ (target, fl) :: t) target f = kids ++ (target, f fl) :: t.
Proof.
  induction 1 as [|[p g] kids Hp _ IH]; cbn [app change_top]; [by rewrite bytes_eqb_refl|].
  cbn [fst] in Hp. by rewrite under_neq, IH.
Qed.

(** Protections added to every mount of a list. *)
Definition protected (attr : Z) (kids : table) : table := map (fun e => (e.1, Z.lor e.2 attr)) kids.

Lemma tree_changed kids target fl t attr :
  Forall (fun e => is_under target e.1 = true) kids ->
  change_tree (kids ++ (target, fl) :: t) target (fun fl => Z.lor fl attr) = protected attr kids ++ (target, Z.lor fl attr) :: t.
Proof.
  induction 1 as [|[p g] kids Hp _ IH]; cbn [app change_tree protected map]; [by rewrite bytes_eqb_refl|].
  cbn [fst snd] in *. rewrite under_neq, Hp by done. by rewrite IH.
Qed.

(** An unmount of the tree on top, whether its root is busy or not. *)
Lemma unmount_spec target s t l :
  len target <> 0 -> tree target s -> mounted l = s ++ t ->
  wp (alrios_mount_unmount_path (Some target))
    (fun r l' => exists new, l' = new ++ l /\ (unmounts_work new -> r = MOUNT_OK /\ mounted l' = t)) l.
Proof.
  intros Hl Ht Hm. unfold alrios_mount_unmount_path. replace (len target =? 0) with false by lia. apply sys_wp_bind, wp_do. intros r.
  assert (Hdone : forall fl, effect (Umount2 target fl, 0) (s ++ t) = t) by (intros; by apply tree_removed).
  destruct (r =? 0) eqn:E; bool_hyps.
  { subst r. apply sys_wp_ret. exists [(Umount2 target 0, 0)]. split; [done|]. intros _. split; [done|].
    by rewrite mounted_cons, Hm. }
  assert (Hskip : mounted ((Umount2 target 0, r) :: l) = mounted l) by (rewrite mounted_cons; by destruct r).
  destruct (_ || _) eqn:En.
  - apply sys_wp_ret. exists [(Umount2 target 0, r)]. split; [done|]. intros H. exfalso.
    apply list.Forall_cons in H as [[H|(_ & H1 & H2)] _]; [done|]. cbn [snd] in *. apply orb_prop in En as [En|En]; bool_hyps; done.
  - apply sys_wp_bind, wp_do. intros r2. apply sys_wp_ret. exists [(Umount2 target MNT_DETACH, r2); (Umount2 target 0, r)]. split; [done|].
    intros H. apply list.Forall_cons in H as [[H|(H & _)] _]; [|done]. cbn [snd] in H. subst r2. split; [done|].
    rewrite mounted_cons, Hskip, Hm. apply Hdone.
Qed.

(** [remount] gives the mount on top at least its protections, or leaves it. *)
Lemma remount_spec target kids fl0 t l fl attr :
  Forall (fun e => is_under target e.1 = true) kids ->
  mounted l = kids ++ (target, fl0) :: t -> Z.land fl MS_REMOUNT <> 0 -> protections fl = attr ->
  wp (remount target fl attr)
    (fun ok l' => exists new, l' = new ++ l /\ exists kids' fl', mounted l' = kids' ++ (target, fl') :: t /\
       (kids' = kids \/ kids' = protected attr kids) /\ (ok = true -> Z.land fl' attr = attr)) l.
Proof.
  intros Hk Hm Hf <-. unfold remount. assert (Hre : (Z.land fl MS_REMOUNT =? 0) = false) by lia.
  assert (Hdone : forall s, effect (Mount s target fl, 0) (kids ++ (target, fl0) :: t) = kids ++ (target, protections fl) :: t).
  { intros s. cbn [effect]. rewrite Hre. cbn [negb]. exact (top_changed kids target fl0 t (fun _ => protections fl) Hk). }
  assert (Hskip : forall s r t', r <> 0 -> effect (Mount s target fl, r) t' = t') by (intros s [] ? ?; done).
  apply sys_wp_bind, wp_do. intros r. destruct (r =? 0) eqn:E; bool_hyps.
  { subst r. apply sys_wp_ret. eexists [_]. split; [done|]. exists kids, (protections fl).
    rewrite mounted_cons, Hm, Hdone. split_and!; [done|by left|]. intros _. apply Z.land_diag. }
  apply sys_wp_bind, wp_do. intros r2. destruct (r2 =? 0) eqn:E2; bool_hyps.
  { subst r2. apply sys_wp_ret. eexists [_; _]. split; [done|]. exists kids, (protections fl).
    rewrite !mounted_cons, (Hskip (Some target) r), Hm, Hdone by done. split_and!; [done|by left|]. intros _. apply Z.land_diag. }
  apply sys_wp_bind, wp_do. intros r3. apply sys_wp_ret. eexists [_; _; _]. split; [done|].
  destruct (r3 =? 0) eqn:E3; bool_hyps.
  - subst r3. exists (protected (protections fl) kids), (Z.lor fl0 (protections fl)).
    rewrite !mounted_cons, !Hskip, Hm by done. split_and!; [exact (tree_changed kids target fl0 t (protections fl) Hk)|by right|]. intros _.
    apply Z.bits_inj'. intros n Hn. rewrite Z.land_spec, Z.lor_spec. by destruct (Z.testbit fl0 n), (Z.testbit _ n).
  - exists kids, fl0. rewrite !mounted_cons, !Hskip, Hm by done. split_and!; [by destruct r3|by left|done].
Qed.

Lemma protected_under target attr kids :
  Forall (fun e => is_under target e.1 = true) kids -> Forall (fun e => is_under target e.1 = true) (protected attr kids).
Proof. intros H. unfold protected. by apply Forall_map. Qed.

(** The trees at [targets] are mounted over [base], the first one on top. *)
Definition stacked (targets : list bytes) (base t : table) : Prop :=
  exists trees, Forall2 tree targets trees /\ t = concat trees ++ base.

Definition named (t : bytes) : Prop := len t <> 0.

Lemma works_app new new' : unmounts_work (new ++ new') -> unmounts_work new /\ unmounts_work new'.
Proof. intros H. by apply Forall_app in H. Qed.

(** Without what is on top: any unmount makes some calls. *)
Lemma unmount_calls target l :
  wp (alrios_mount_unmount_path (Some target)) (fun _ l' => exists new, l' = new ++ l) l.
Proof.
  unfold alrios_mount_unmount_path. destruct (len target =? 0); [apply sys_wp_ret; by exists []|]. apply sys_wp_bind, wp_do. intros r.
  destruct (r =? 0); [apply sys_wp_ret; by eexists [_]|]. destruct (_ || _); [apply sys_wp_ret; by eexists [_]|].
  apply sys_wp_bind, wp_do. intros r2. apply sys_wp_ret. by eexists [_; _].
Qed.

Lemma unmount_step targets t base l :
  Forall named (t :: targets) -> stacked (t :: targets) base (mounted l) ->
  wp (alrios_mount_unmount_path (Some t))
    (fun r l' => exists new, l' = new ++ l /\ (unmounts_work new -> r = MOUNT_OK /\ stacked targets base (mounted l'))) l.
Proof.
  intros Hn (trees & Hl & Hm). inversion Hl as [|? s ? trees' Hs Hl']; subst. apply list.Forall_cons in Hn as [Ht Hn].
  cbn [concat] in Hm. rewrite <- app_assoc in Hm.
  eapply sys_wp_mono; [by apply (unmount_spec t s (concat trees' ++ base))|]. intros r l1 (new & -> & H1). exists new. split; [done|].
  intros Hw. destruct (H1 Hw) as [-> Hm1]. split; [done|]. by exists trees'.
Qed.

(** After a failed unmount nothing is claimed but that the log grew. *)
Lemma unmount_each_spec targets base l :
  Forall named targets -> wp (unmount_each targets)
    (fun _ l' => exists new, l' = new ++ l /\ (stacked targets base (mounted l) -> unmounts_work new -> mounted l' = base)) l.
Proof.
  revert l. induction targets as [|t targets IH]; intros l Hn; cbn [unmount_each].
  { apply sys_wp_ret. exists []. split; [done|]. intros (trees & Hl & Hm) _. rewrite Hm. by inversion Hl. }
  apply sys_wp_bind. pose proof (unmount_step targets t base l Hn) as Hs. pose proof (unmount_calls t l) as Hc. unfold wp at 1 in Hc. unfold wp at 1 in Hs.
  unfold wp at 1. destruct (alrios_mount_unmount_path (Some t) l) as [r l1]. destruct Hc as [new ->].
  apply list.Forall_cons in Hn as [_ Hn]. eapply sys_wp_mono; [by apply IH|]. intros _ l2 (new2 & -> & H2). exists (new2 ++ new).
  split; [by rewrite app_assoc|]. intros Hst Hw. apply works_app in Hw as [Hw2 Hw]. destruct (Hs Hst) as (new' & E & Hs').
  apply app_inv_tail in E as ->. apply H2; [by apply Hs'|done].
Qed.

Lemma teardown_loop_spec es status base l :
  Forall (fun e => is_mounted e = true /\ named (target_path e)) es ->
  wp (teardown_loop es status)
    (fun r l' => exists new, l' = new ++ l /\
       (stacked (map target_path es) base (mounted l) -> unmounts_work new -> r = status /\ mounted l' = base)) l.
Proof.
  revert l status. induction es as [|e es IH]; intros l status He; cbn [teardown_loop map].
  { apply sys_wp_ret. exists []. split; [done|]. intros (trees & Hl & Hm) _. rewrite Hm. by inversion Hl. }
  apply list.Forall_cons in He as [[Hmt Hn] He]. rewrite Hmt. apply sys_wp_bind.
  assert (Hall : Forall named (target_path e :: map target_path es)).
  { apply list.Forall_cons. split; [done|]. apply Forall_fmap. eapply list.Forall_impl; [done|]. by intros ? [_ ?]. }
  pose proof (unmount_step _ _ base l Hall) as Hs. pose proof (unmount_calls (target_path e) l) as Hc. unfold wp at 1 in Hc. unfold wp at 1 in Hs.
  unfold wp at 1. destruct (alrios_mount_unmount_path (Some (target_path e)) l) as [r l1]. destruct Hc as [new ->].
  eapply sys_wp_mono; [by apply IH|]. intros r2 l2 (new2 & -> & H2). exists (new2 ++ new).
  split; [by rewrite app_assoc|]. intros Hst Hw. apply works_app in Hw as [Hw2 Hw]. destruct (Hs Hst) as (new' & E & Hs').
  apply app_inv_tail in E as ->. destruct (Hs' Hw) as [-> Hst']. destruct (H2 Hst' Hw2) as [-> ->]. done.
Qed.

(** ** Setting up and tearing down *)

Lemma stored_fits size s : len s < size -> stored size s = s.
Proof.
  intros H. unfold stored, sub. change (Z.to_nat 0) with 0%nat. rewrite drop_0, take_ge; [done|]. unfold len in H. lia.
Qed.

Lemma join_fits size dir name path : join size dir name = Some path -> len path < size /\ named path.
Proof.
  unfold join. destruct (_ >=? _) eqn:E; [done|]. intros [= <-]. rewrite Z.geb_leb in E. bool_hyps. split; [done|].
  unfold named. rewrite len_app. change (dir ++ [47] ++ name) with (dir ++ 47 :: name). rewrite len_cons.
  pose proof (len_nonneg dir). pose proof (len_nonneg name). lia.
Qed.

(** The context lists what is mounted, the first one on top. *)
Definition tracks (ctx : option mount_context) (targets : list bytes) : Prop :=
  match ctx with
  | None => True
  | Some c => map target_path (rev (ctx_entries c)) = targets /\ ctx_active c = false /\
      Forall (fun e => is_mounted e = true /\ named (target_path e)) (rev (ctx_entries c))
  end.

Definition emptied (ctx : option mount_context) : option mount_context :=
  match ctx with Some c => Some (with_entries c [] false) | None => None end.

Lemma undo_spec ctx targets base l :
  Forall named targets -> tracks ctx targets ->
  wp (undo ctx targets) (fun ctx' l' => ctx' = emptied ctx /\ exists new, l' = new ++ l /\
      (stacked targets base (mounted l) -> unmounts_work new -> mounted l' = base)) l.
Proof.
  intros Hn Ht. destruct ctx as [c|]; cbn [undo].
  - destruct Ht as (Hp & _ & He). apply sys_wp_bind, sys_wp_bind. eapply sys_wp_mono; [by apply (teardown_loop_spec _ MOUNT_OK base)|].
    intros r l' (new & -> & H). apply sys_wp_ret, sys_wp_ret. split; [done|]. exists new. split; [done|]. rewrite Hp in H. intros Hs Hw. by apply H.
  - apply sys_wp_bind. eapply sys_wp_mono; [by apply (unmount_each_spec _ base)|]. intros _ l' (new & -> & H). apply sys_wp_ret. split; [done|]. by exists new.
Qed.

Lemma tracks_add ctx target targets fl :
  tracks ctx targets -> len targets < 4 -> len target < MOUNT_PATH_MAX -> named target -> tracks (add_entry ctx target fl) (target :: targets).
Proof.
  intros Ht Hl Hp Hn. destruct ctx as [c|]; [|done]. destruct Ht as (Hm & Ha & He). cbn [add_entry].
  assert (Hlen : len (ctx_entries c) = len targets) by (rewrite <- Hm; unfold len; by rewrite length_map, length_rev).
  replace (len (ctx_entries c) <? 4) with true by lia. unfold tracks. cbn [with_entries ctx_entries ctx_active].
  rewrite rev_app_distr. cbn [rev app map target_path]. rewrite stored_fits by done. split_and!; [by rewrite Hm|done|].
  by apply list.Forall_cons.
Qed.

(** The table [t] is [base] and, over it, a bind mount of [source] on [target] that has at
    least the protections [attr], with the mounts that were below the source: these as they
    were, or with the same protections. *)
Definition bound (source target : bytes) (attr : Z) (base t : table) : Prop :=
  exists kids fl, t = kids ++ (target, fl) :: base /\ Z.land fl attr = attr /\
    (kids = copies source target base \/ kids = protected attr (copies source target base)).

(** What the two outcomes of a setup are. *)
Definition set_up (ctx : option mount_context) (code_dir data_dir code data : bytes) (base : table)
    (r : Z * option mount_context) (new l' : log) : Prop :=
  if r.1 =? MOUNT_OK then
    (exists middle, bound code_dir code code_attr base middle /\ bound data_dir data data_attr middle (mounted l')) /\
    match r.2 with
    | Some c => is_Some ctx /\ ctx_active c = true /\ map target_path (ctx_entries c) = [code; data] /\
        Forall (fun e => is_mounted e = true /\ named (target_path e)) (ctx_entries c)
    | None => ctx = None
    end
  else
    (unmounts_work new -> mounted l' = base) /\
    match r.2 with
    | Some c => is_Some ctx /\ ctx_active c = false /\ ctx_entries c = []
    | None => ctx = None
    end.

Lemma bound_tree source target attr base t : bound source target attr base t -> exists s, tree target s /\ t = s ++ base.
Proof.
  intros (kids & fl & -> & _ & Hk). exists (kids ++ [(target, fl)]). rewrite <- app_assoc. split; [|done]. exists kids, fl. split; [done|].
  destruct Hk as [-> | ->]; [|apply protected_under]; apply copies_under.
Qed.

Lemma bound_stacked source target attr base t : bound source target attr base t -> stacked [target] base t.
Proof.
  intros (s & Hs & ->)%bound_tree. exists [s]. split; [by repeat constructor|]. cbn. by rewrite app_nil_r.
Qed.

Lemma bound_two source1 target1 attr1 source2 target2 attr2 base middle t :
  bound source1 target1 attr1 base middle -> bound source2 target2 attr2 middle t -> stacked [target2; target1] base t.
Proof.
  intros (s1 & H1 & ->)%bound_tree (s2 & H2 & ->)%bound_tree. exists [s2; s1]. split; [by repeat constructor|]. cbn.
  by rewrite app_nil_r, <- app_assoc.
Qed.

Lemma set_up_failed ctx ctx' code_dir data_dir code data base targets new l' :
  tracks ctx targets -> ctx' = emptied ctx -> (unmounts_work new -> mounted l' = base) ->
  set_up ctx code_dir data_dir code data base (MOUNT_ERR_MOUNT, ctx') new l'.
Proof. intros Ht -> H. split; [done|]. by destruct ctx as [c|]; cbn. Qed.

(** A call that fails changes nothing. *)
Lemma failed_mount s t fl r l : r <> 0 -> mounted ((Mount s t fl, r) :: l) = mounted l.
Proof. intros H. rewrite mounted_cons. by destruct r. Qed.

(** A recursive bind mount and the second mount that protects it. *)
Lemma bind_spec source target fl attr l :
  Z.land fl MS_REMOUNT <> 0 -> protections fl = attr ->
  wp (remount target fl attr)
    (fun ok l' => exists new, l' = new ++ (Mount (Some source) target (flags_of [MS_BIND; MS_REC]), 0) :: l /\
       stacked [target] (mounted l) (mounted l') /\ (ok = true -> bound source target attr (mounted l) (mounted l')))
    ((Mount (Some source) target (flags_of [MS_BIND; MS_REC]), 0) :: l).
Proof.
  intros Hf Hp. pose proof (copies_under source target (mounted l)) as Hk.
  eapply sys_wp_mono; [by apply (remount_spec target (copies source target (mounted l)) (inherited source (mounted l)) (mounted l))|].
  intros ok l' (new & -> & kids & fl' & Hm & Hkids & Hok). exists new. split; [done|]. rewrite Hm. split.
  - exists [kids ++ [(target, fl')]]. split; [|cbn; by rewrite app_nil_r, <- app_assoc]. constructor; [|constructor].
    exists kids, fl'. split; [done|]. destruct Hkids as [-> | ->]; [done|by apply protected_under].
  - intros H. exists kids, fl'. split_and!; [done|by apply Hok|done].
Qed.

Lemma added_some ctx target fl : is_Some (add_entry ctx target fl) <-> is_Some ctx.
Proof. destruct ctx as [c|]; cbn; [destruct (_ <? _); split; by eexists|done]. Qed.

(** A failure that is undone. *)
Lemma undone ctx ctx1 code_dir data_dir code data targets base pre l :
  Forall named targets -> tracks ctx1 targets -> (is_Some ctx1 <-> is_Some ctx) -> stacked targets base (mounted (pre ++ l)) ->
  wp (let* ctx' := undo ctx1 targets in ret (MOUNT_ERR_MOUNT, ctx'))
    (fun r l' => exists new, l' = new ++ l /\ set_up ctx code_dir data_dir code data base r new l') (pre ++ l).
Proof.
  intros Hn Ht Hs Hst. apply sys_wp_bind. eapply sys_wp_mono; [by apply (undo_spec ctx1 targets base)|].
  intros ctx' l' (Hctx & new & -> & Hun). apply sys_wp_ret. exists (new ++ pre). split; [by rewrite app_assoc|].
  pose proof (set_up_failed ctx1 ctx' code_dir data_dir code data base targets (new ++ pre) (new ++ pre ++ l) Ht Hctx) as H.
  rewrite app_assoc in *. unfold set_up in *. cbn [fst snd] in *. change (MOUNT_ERR_MOUNT =? MOUNT_OK) with false in *.
  destruct H as [H1 H2]; [intros [Hw _]%works_app; by apply Hun|]. split; [exact H1|].
  destruct ctx' as [c|]; [destruct H2 as (? & ? & ?); split; [by apply Hs|done]|]. destruct ctx as [c|]; [|done]. subst ctx1. by destruct (proj2 Hs).
Qed.

Lemma mount_data_spec code_dir data_dir code data ctx base l :
  named code -> named data -> len data < MOUNT_PATH_MAX -> tracks ctx [code] -> bound code_dir code code_attr base (mounted l) ->
  wp (mount_data data_dir code data ctx)
    (fun r l' => exists new, l' = new ++ l /\ set_up ctx code_dir data_dir code data base r new l') l.
Proof.
  intros Hc Hd Hld Ht Hm. unfold mount_data. apply sys_wp_bind, wp_do. intros r. destruct (r =? 0) eqn:E; bool_hyps; cbn [negb].
  2:{ apply (undone ctx ctx code_dir data_dir code data [code] base [(Mount (Some data_dir) data (flags_of [MS_BIND; MS_REC]), r)]);
        [by apply list.Forall_singleton|done|done|]. cbn [app]. rewrite failed_mount by done. by eapply bound_stacked. }
  subst r. assert (Ht1 : tracks (add_entry ctx data (flags_of [MS_NOSUID; MS_NODEV; MS_NOEXEC; MS_BIND])) [data; code]) by (by apply tracks_add).
  pose proof (added_some ctx data (flags_of [MS_NOSUID; MS_NODEV; MS_NOEXEC; MS_BIND])) as Hsome. set (ctx1 := add_entry _ _ _) in *.
  apply sys_wp_bind. eapply sys_wp_mono; [by apply (bind_spec data_dir data data_flags data_attr l)|]. intros ok l2 (new2 & -> & Hst & Hok).
  change (new2 ++ ?c :: l) with (new2 ++ [c] ++ l). rewrite app_assoc. destruct ok; cbn [negb].
  - apply sys_wp_ret. eexists. split; [done|]. split; [exists (mounted l); split; [done|rewrite <- app_assoc; by apply Hok]|].
    destruct ctx1 as [c|]; cbn [fst snd]; [|destruct ctx; [destruct (proj2 Hsome); [by eexists|done]|done]].
    split; [by apply Hsome|]. split; [done|]. cbn. destruct Ht1 as (Hp & _ & He). rewrite <- (rev_involutive (ctx_entries c)).
    split; [by rewrite map_rev, Hp|by apply Forall_rev].
  - apply undone; [by repeat (apply list.Forall_cons; split)|done|done|]. rewrite <- app_assoc. cbn [app].
    destruct (bound_tree _ _ _ _ _ Hm) as (s & Hs & Em). destruct Hst as (trees & Htr & ->). rewrite Em.
    inversion Htr as [|? s2 ? tr2 Hs2 Hnil]; subst. inversion Hnil; subst. exists [s2; s]. split; [by repeat constructor|].
    cbn. by rewrite !app_nil_r, <- app_assoc.
Qed.

Lemma tracks_none ctx code_dir data_dir code data base e new l' :
  tracks ctx [] -> e <> MOUNT_OK -> mounted l' = base -> set_up ctx code_dir data_dir code data base (e, ctx) new l'.
Proof.
  intros Ht He Hm. unfold set_up. cbn [fst snd]. replace (e =? MOUNT_OK) with false by lia. split; [done|].
  destruct ctx as [c|]; [|done]. destruct Ht as (Hp & Ha & _). split_and!; [by eexists|done|].
  rewrite <- (rev_involutive (ctx_entries c)). by destruct (rev (ctx_entries c)).
Qed.

Lemma set_up_more ctx ctx1 code_dir data_dir code data base r new new' l' :
  (is_Some ctx1 <-> is_Some ctx) -> set_up ctx1 code_dir data_dir code data base r new l' ->
  set_up ctx code_dir data_dir code data base r (new ++ new') l'.
Proof.
  intros Hs H. unfold set_up in *. assert (Hn : ctx1 = None -> ctx = None).
  { intros ->. destruct ctx as [c|]; [|done]. by destruct (proj2 Hs). }
  destruct (r.1 =? MOUNT_OK); destruct H as [H1 H2].
  - split; [done|]. destruct r.2; [|by apply Hn]. destruct H2 as (? & ? & ?). split; [by apply Hs|done].
  - split; [intros [Hw _]%works_app; by apply H1|]. destruct r.2; [|by apply Hn]. destruct H2 as (? & ? & ?). split; [by apply Hs|done].
Qed.

Lemma mount_both_spec code_dir data_dir code data ctx l :
  named code -> named data -> len code < MOUNT_PATH_MAX -> len data < MOUNT_PATH_MAX -> tracks ctx [] ->
  wp (mount_both code_dir data_dir code data ctx)
    (fun r l' => exists new, l' = new ++ l /\ set_up ctx code_dir data_dir code data (mounted l) r new l') l.
Proof.
  intros Hc Hd Hlc Hld Ht. unfold mount_both. apply sys_wp_bind, wp_do. intros r. destruct (r =? 0) eqn:E; bool_hyps; cbn [negb].
  2:{ apply sys_wp_ret. eexists [_]. split; [done|]. apply tracks_none; [done|done|]. by apply failed_mount. }
  subst r. assert (Ht1 : tracks (add_entry ctx code (flags_of [MS_RDONLY; MS_NOSUID; MS_NODEV; MS_BIND; MS_REC])) [code]) by (by apply tracks_add).
  pose proof (added_some ctx code (flags_of [MS_RDONLY; MS_NOSUID; MS_NODEV; MS_BIND; MS_REC])) as Hsome. set (ctx1 := add_entry _ _ _) in *.
  apply sys_wp_bind. eapply sys_wp_mono; [by apply (bind_spec code_dir code ro_flags code_attr l)|]. intros ok l2 (new2 & -> & Hst & Hok).
  change (new2 ++ ?c :: l) with (new2 ++ [c] ++ l) in *. rewrite app_assoc in *. destruct ok; cbn [negb].
  - eapply sys_wp_mono; [by apply (mount_data_spec code_dir data_dir code data ctx1 (mounted l)); [..|apply Hok]|].
    intros res l' (new3 & -> & Hs). eexists. split; [by rewrite app_assoc|]. by eapply set_up_more.
  - apply undone; [by apply list.Forall_singleton|done|done|exact Hst].
Qed.

(** Two directories that are made, or an error. *)
Lemma wp_two_dirs {A} a b modea modeb (k : Z -> sys A) Q l :
  (forall d new, Forall plain new -> wp (k d) Q (new ++ l)) ->
  wp (let* c := alrios_mkdir_p a modea in let* d := (if c =? 0 then alrios_mkdir_p b modeb else ret (-1)) in k d) Q l.
Proof.
  intros Hk. apply sys_wp_bind. eapply sys_wp_mono; [apply mkdirs_plain|]. intros c l1 (new & -> & Hf & _). apply sys_wp_bind.
  destruct (c =? 0); [|apply sys_wp_ret; by apply Hk]. eapply sys_wp_mono; [apply mkdirs_plain|]. intros d l2 (new2 & -> & Hf2 & _).
  rewrite app_assoc. apply Hk. by apply Forall_app.
Qed.

(** What a successful setup mounted is taken away. *)
Lemma teardown_spec ctx code_dir data_dir code data base new l r :
  r.1 = MOUNT_OK -> set_up ctx code_dir data_dir code data base r new l ->
  wp (alrios_mount_teardown_app_mounts r.2)
    (fun r' l' => exists new', l' = new' ++ l /\ (is_Some ctx -> unmounts_work new' -> r'.1 = MOUNT_OK /\ mounted l' = base)) l.
Proof.
  intros Hok H. unfold set_up in H. rewrite Hok in H. change (MOUNT_OK =? MOUNT_OK) with true in H. destruct H as [(middle & Hb1 & Hb2) H].
  destruct r as [status [c|]]; cbn [snd] in *; [|apply sys_wp_ret; exists []; split; [done|]; subst ctx; by intros [? ?]].
  destruct H as (_ & _ & Hp & He). apply sys_wp_bind. eapply sys_wp_mono; [apply (teardown_loop_spec _ MOUNT_OK base); by apply Forall_rev|].
  intros st l' (new' & -> & Ht). apply sys_wp_ret. exists new'. split; [done|]. intros _ Hw. cbn [fst]. apply Ht; [|done].
  rewrite map_rev, Hp. by eapply bound_two.
Qed.

(** C19: The mounts of an application are all there, protected, or none of them is. When the
    setup succeeds, the code directory is mounted read-only, without set-uid and devices, on
    [app], and over it the data directory without execution, set-uid and devices on
    [data/<id>]; both bring along the mounts that were below them, which are not always
    protected too; nothing else is changed, and the context, if there is one, is active and
    lists both. When it fails, at whatever call, the mount table is what it was, also when a
    mount is busy and has to be detached, as long as detaching works and no call to unmount
    denies that there is a mount; and the context lists nothing. The teardown of an active
    context takes away exactly these two and what came with them. *)
Theorem mounts_all_or_none app_id code_dir data_dir root ctx l :
  wp (alrios_mount_setup_app_mounts (Some app_id) (Some code_dir) (Some data_dir) (Some root) ctx)
    (fun r l' => exists new, l' = new ++ l /\
       if r.1 =? MOUNT_OK then
         exists code data, join MOUNT_PATH_MAX root (lit "app") = Some code /\ join MOUNT_PATH_MAX (root ++ lit "/data") app_id = Some data /\
           alrios_mount_validate_app_id app_id = true /\
           set_up ctx code_dir data_dir code data (mounted l) r new l' /\
           wp (alrios_mount_teardown_app_mounts r.2)
             (fun r' l'' => exists new', l'' = new' ++ l' /\ (is_Some ctx -> unmounts_work new' -> r'.1 = MOUNT_OK /\ mounted l'' = mounted l)) l'
       else (unmounts_work new -> mounted l' = mounted l) /\
            (alrios_mount_validate_app_id app_id = true ->
             match r.2 with Some c => ctx_active c = false /\ ctx_entries c = [] | None => ctx = None end)) l.
Proof.
  unfold alrios_mount_setup_app_mounts. destruct (alrios_mount_validate_app_id app_id) eqn:Ev; cbn [negb].
  2:{ apply sys_wp_ret. exists []. split; [done|]. by split. }
  destruct (join MOUNT_PATH_MAX root (lit "app")) as [code|] eqn:Ec.
  2:{ apply sys_wp_ret. exists []. split; [done|]. split; [done|]. intros _. by destruct ctx. }
  destruct (join MOUNT_PATH_MAX (root ++ lit "/data") app_id) as [data|] eqn:Ed.
  2:{ apply sys_wp_ret. exists []. split; [done|]. split; [done|]. intros _. by destruct ctx. }
  destruct (join_fits _ _ _ _ Ec) as [Hlc Hc], (join_fits _ _ _ _ Ed) as [Hld Hd]. cbv zeta.
  set (ctx0 := match ctx with Some _ => _ | None => None end). assert (Ht : tracks ctx0 []) by (unfold ctx0; by destruct ctx).
  assert (Hs : is_Some ctx0 <-> is_Some ctx) by (unfold ctx0; destruct ctx; [split; by eexists|done]).
  assert (Hfail : forall new, Forall plain new -> exists new', new ++ l = new' ++ l /\ ((unmounts_work new' -> mounted (new ++ l) = mounted l) /\
     (true = true -> match ctx0 with Some c => ctx_active c = false /\ ctx_entries c = [] | None => ctx = None end))).
  { intros new Hn. exists new. split; [done|]. split; [intros _; by apply mounted_plain|]. intros _. unfold ctx0. by destruct ctx. }
  apply wp_two_dirs. intros d new1 H1. destruct (negb (d =? 0)); [apply sys_wp_ret; by apply Hfail|].
  apply wp_two_dirs. intros d2 new2 H2. rewrite app_assoc. assert (Hp : Forall plain (new2 ++ new1)) by (by apply Forall_app).
  destruct (negb (d2 =? 0)); [apply sys_wp_ret; by apply Hfail|].
  eapply sys_wp_mono; [by apply mount_both_spec|]. intros r l' (new3 & -> & Hset). rewrite mounted_plain in Hset by done.
  exists (new3 ++ new2 ++ new1). split; [by rewrite <- !app_assoc|]. eapply set_up_more in Hset; [|exact Hs].
  destruct (r.1 =? MOUNT_OK) eqn:Er; bool_hyps.
  - exists code, data. split_and!; [done|done|done|exact Hset|]. by eapply teardown_spec.
  - unfold set_up in Hset. replace (r.1 =? MOUNT_OK) with false in Hset by lia. destruct Hset as [H3 H4]. split; [exact H3|].
    intros _. destruct r.2; [|done]. tauto.
Qed.

Lemma below_spec base path : below base path = true <-> exists rest, path = base ++ rest /\ (rest = [] \/ exists tail, rest = 47 :: tail).
Proof.
  unfold below. split.
  - intros H. bool_hyps. exists (drop (length base) path). rewrite bytes_eqb_eq in *.
    assert (Hp : path = base ++ drop (length base) path).
    { rewrite H1 at 1. unfold sub, len. change (Z.to_nat 0) with 0%nat. by rewrite Nat2Z.id, drop_0, take_drop. }
    split; [exact Hp|]. destruct (drop (length base) path) as [|c tail] eqn:Ed; [by left|right]. exists tail.
    rewrite Hp, len_app, len_cons in H0. pose proof (len_nonneg tail). unfold at_, len in H0. rewrite app_nth2 in H0 by lia.
    replace (Z.to_nat (Z.of_nat (length base)) - length base)%nat with 0%nat in H0 by lia. cbn [nth] in H0.
    apply orb_prop in H0 as [?|?]; bool_hyps; [lia|congruence].
  - intros (rest & -> & Hr). rewrite sub_here by done. rewrite bytes_eqb_refl, len_app. pose proof (len_nonneg rest).
    replace (len base + len rest <? len base) with false by lia. cbn [negb andb]. destruct Hr as [-> | [tail ->]].
    + change (len (@nil Z)) with 0. rewrite Z.add_0_r, Z.eqb_refl. done.
    + unfold at_, len. rewrite app_nth2 by lia. replace (Z.to_nat (Z.of_nat (length base)) - length base)%nat with 0%nat by lia.
      by rewrite orb_true_r.
Qed.

(** What the code takes as the canonical form of a candidate: what [realpath] gives, or, when
    it fails, the canonical form of what stands before the last slash (and is not empty),
    with that slash and the name behind it, if this fits in [PATH_MAX]. *)
Definition canonical_form (candidate path : bytes) : Prop :=
  realpath env candidate = Some path \/
  realpath env candidate = None /\
    exists directory name directory', candidate = directory ++ [47] ++ name /\ ~ In 47 name /\ directory <> [] /\
      realpath env directory = Some directory' /\ path = directory' ++ [47] ++ name /\
      len candidate < PATH_MAX /\ len path < PATH_MAX.

(** Two dots in a row stand somewhere. *)
Definition dotted (s : bytes) : Prop := exists a b, s = a ++ [46; 46] ++ b.

(** [path] is the directory [base] itself or something in it; a slash at the end of [base]
    does not matter. *)
Definition inside (base path : bytes) : Prop :=
  exists directory, (base = directory ++ [47] \/ base = directory /\ ~ exists d, base = d ++ [47]) /\
    (path = directory \/ exists rest, path = directory ++ [47] ++ rest).

Lemma inside_spec base path :
  inside base path <-> exists rest, path = strip_slash base ++ rest /\ (rest = [] \/ exists tail, rest = 47 :: tail).
Proof.
  assert (Hs : forall d, strip_slash base = d <-> base = d ++ [47] \/ base = d /\ ~ exists d, base = d ++ [47]).
  { intros d. unfold strip_slash. destruct base as [|c base _] using rev_ind.
    - change (at_ [] (len [] - 1) =? 47) with false. cbv iota. split.
      + intros <-. right. split; [done|]. by intros ([|? ?] & ?).
      + intros [E|[-> _]]; [by destruct d|done].
    - rewrite len_app. change (len [c]) with 1. rewrite Z.add_simpl_r. assert (at_ (base ++ [c]) (len base) = c) as ->.
      { unfold at_, len. by rewrite Nat2Z.id, app_nth2, Nat.sub_diag by lia. }
      rewrite sub_here by done. destruct (Z.eqb_spec c 47) as [->|Hc].
      + split; [intros ->; by left|]. intros [E|[_ Hn]]; [by apply app_inj_tail in E as [-> _]|]. destruct Hn. by eexists.
      + split; [intros <-; right; split; [done|]; intros (d' & E); by apply app_inj_tail in E as [_ ?]|].
        intros [E|[-> _]]; [by apply app_inj_tail in E as [_ ?]|done]. }
  unfold inside. split.
  - intros (d & Hd & Hp). apply Hs in Hd as <-. destruct Hp as [-> |[rest ->]].
    + exists []. rewrite app_nil_r. by split; [|left].
    + exists ([47] ++ rest). split; [done|right]. by exists rest.
  - intros (rest & -> & Hr). exists (strip_slash base). split; [by apply Hs|].
    destruct Hr as [-> |[tail ->]]; [left; apply app_nil_r|right]. by exists tail.
Qed.

Lemma has_dots_cons c s : has_dots (c :: s) = (c =? 46) && (at_ s 0 =? 46) || has_dots s.
Proof.
  destruct s as [|x s]; [by rewrite andb_false_r; cbn [has_dots]; repeat case_match|]. change (at_ (x :: s) 0) with x.
  destruct (Z.eqb_spec c 46) as [->|Hc]; [destruct (Z.eqb_spec x 46) as [->|Hx]; [done|]|];
    cbn [andb orb]; cbn [has_dots]; by repeat (case_match; try done).
Qed.

Lemma has_dots_spec s : has_dots s = true <-> dotted s.
Proof.
  unfold dotted. induction s as [|c s IH]; [split; [done|by intros ([|? ?] & ? & ?)]|].
  rewrite has_dots_cons, orb_true_iff, andb_true_iff, !Z.eqb_eq, IH. split.
  - intros [[-> H]|(a & b & ->)]; [|by exists (c :: a), b]. destruct s as [|x s]; [done|]. change (at_ (x :: s) 0) with x in H.
    subst x. by exists [], s.
  - intros ([|x a] & b & E); injection E as -> ->; [by left|right]. by exists a, b.
Qed.

Lemma split_last_spec s : match split_last s with
  | Some (a, b) => s = a ++ [47] ++ b /\ ~ In 47 b
  | None => ~ In 47 s
  end.
Proof.
  induction s as [|c s IH]; cbn [split_last]; [by intros []|]. destruct (split_last s) as [[a b]|].
  - destruct IH as [-> Hb]. by split.
  - destruct (Z.eqb_spec c 47) as [->|]; [by split|]. by intros [?|?].
Qed.

Lemma last_slash a b c d : a ++ [47] ++ b = c ++ [47] ++ d -> ~ In 47 b -> ~ In 47 d -> a = c /\ b = d.
Proof.
  revert c. induction a as [|x a IH]; intros [|y c] E Hb Hd; cbn [app] in *.
  - by injection E.
  - injection E as <- ->. destruct Hb. apply in_or_app. right. by left.
  - injection E as -> <-. destruct Hd. apply in_or_app. right. by left.
  - injection E as -> E. destruct (IH c E Hb Hd) as [-> ->]. done.
Qed.

Lemma resolve_candidate_spec candidate path : resolve_candidate candidate = inl path <-> canonical_form candidate path.
Proof.
  unfold resolve_candidate, canonical_form. destruct (realpath env candidate) as [p|] eqn:Er.
  { split; [intros [= ->]; by left|]. by intros [[= ->]|[? _]]. }
  rewrite Z.geb_leb. destruct (Z.leb_spec PATH_MAX (len candidate)) as [Hl|Hl].
  { split; [done|]. intros [?|(_ & ? & ? & ? & _ & _ & _ & _ & _ & ? & _)]; [done|lia]. }
  pose proof (split_last_spec candidate) as Hs. destruct (split_last candidate) as [[a b]|].
  2: { split; [done|]. intros [?|(_ & a & b & d & -> & _)]; [done|]. destruct Hs. apply in_or_app. right. by left. }
  destruct Hs as [-> Hb].
  assert (Hiff : forall d, realpath env a = Some d -> join PATH_MAX d b = Some path <->
    path = d ++ [47] ++ b /\ len path < PATH_MAX).
  { intros d _. unfold join. rewrite Z.geb_leb. destruct (Z.leb_spec PATH_MAX (len (d ++ [47] ++ b))); split;
      [done|intros [-> ?]; lia|intros [= <-]; done|by intros [-> _]]. }
  destruct a as [|x a].
  { split; [done|]. intros [?|(_ & c & d & e & E & Hd & Hc & _)]; [done|]. by destruct (last_slash _ _ _ _ E Hb Hd) as [<- _]. }
  destruct (realpath env (x :: a)) as [d|] eqn:Ea.
  - destruct (join PATH_MAX d b) as [p|] eqn:Ej.
    + split.
      * intros [= ->]. apply Hiff in Ej as [Ep ?]; [|done]. right. split; [done|]. by exists (x :: a), b, d.
      * intros [?|(_ & c & e & f & E & He & _ & Hf & Hp & _ & Hlp)]; [done|].
        destruct (last_slash _ _ _ _ E Hb He) as [<- <-]. rewrite Ea in Hf. injection Hf as <-.
        assert (join PATH_MAX d b = Some path) as E2 by (by apply Hiff). congruence.
    + split; [done|]. intros [?|(_ & c & e & f & E & He & _ & Hf & Hp & _ & Hlp)]; [done|].
      destruct (last_slash _ _ _ _ E Hb He) as [<- <-]. rewrite Ea in Hf. injection Hf as <-.
      assert (join PATH_MAX d b = Some path) as E2 by (by apply Hiff). congruence.
  - split; [done|]. intros [?|(_ & c & e & f & E & He & _ & Hf & _)]; [done|].
    destruct (last_slash _ _ _ _ E Hb He) as [<- _]. congruence.
Qed.

(** C37: The containment check succeeds exactly if neither path is empty, no two dots follow
    each other anywhere in the candidate, the base has a canonical form, and the canonical
    form of the candidate is that of the base or continues it behind a slash. For a
    candidate that [realpath] cannot resolve, the canonical form is that of its directory
    with its last name, whatever that name is (a link to nowhere included). *)
Theorem containment_checked base_dir candidate :
  alrios_mount_validate_path_containment (Some base_dir) (Some candidate) = MOUNT_OK <->
  base_dir <> [] /\ candidate <> [] /\ ~ dotted candidate /\
  exists base path, realpath env base_dir = Some base /\ canonical_form candidate path /\ inside base path.
Proof.
  unfold alrios_mount_validate_path_containment. destruct base_dir as [|b0 base_dir]; [by split; [|intros (? & _)]|].
  destruct candidate as [|c0 candidate]; [split; [change (len (@nil Z) =? 0) with true; by rewrite orb_true_r|by intros (_ & ? & _)]|].
  rewrite !len_cons. pose proof (len_nonneg base_dir). pose proof (len_nonneg candidate).
  replace (1 + len base_dir =? 0) with false by lia. replace (1 + len candidate =? 0) with false by lia. cbn [orb].
  rewrite <- has_dots_spec. setoid_rewrite <- resolve_candidate_spec. setoid_rewrite inside_spec.
  destruct (has_dots (c0 :: candidate)); [by split; [|intros (_ & _ & ? & _)]|].
  destruct (realpath env (b0 :: base_dir)) as [base|]; [|by split; [|intros (_ & _ & _ & ? & ? & ? & _)]].
  destruct (resolve_candidate (c0 :: candidate)) as [path|e] eqn:Er.
  - destruct (below (strip_slash base) path) eqn:Eb.
    + split; [|done]. intros _. split_and!; [done|done|done|]. exists base, path. split_and!; [done|done|]. by apply below_spec.
    + split; [done|]. intros (_ & _ & _ & base' & path' & [= <-] & [= <-] & Hr). apply below_spec in Hr. congruence.
  - split; [|by intros (_ & _ & _ & ? & ? & _ & ? & _)]. intros ->. unfold resolve_candidate in Er.
    repeat (match goal with H : (match ?x with _ => _ end) = _ |- _ => destruct x end; try done).
Qed.
End Sandbox.

(** ** Runs *)

(** An environment in which everything works, but for unshare when it is not allowed. *)
Definition willing : environment :=
  mk_environment (fun _ c => match c with Write _ content => len content | OpenWrite _ _ => 3 | Loopback 0 => 4 | _ => 0 end)
    (Some (lit "/cg")) Some 1000 1000.

(** One in which the second mount and its fallbacks fail. *)
Definition no_remount : environment :=
  mk_environment (fun _ c => match c with
                             | Write _ content => len content
                             | Mount _ _ fl => if Z.land fl MS_REMOUNT =? 0 then 0 else - EPERM
                             | MountSetattr _ _ => - EPERM
                             | _ => 0
                             end) None Some 0 0.

Example jail_run :
  let (rc, l) := alrios_devmode_jail_enter willing [] 2 true true false (Some (mk_config (Some (lit "slot1")) 77 0 16 2)) [] in
  rc = JAIL_OK /\ filters l = [devmode_filter] /\ In (Write (lit "/cg/slot1/pids.max") (lit "16" ++ [10]), 3) l.
Proof. vm_compute. split; [reflexivity|]. split; [reflexivity|tauto]. Qed.

Definition empty_context : mount_context := mk_context [] [] [] [] [] [] [] false.

Example mount_run :
  let (r, l) := alrios_mount_setup_app_mounts willing (Some (lit "app1")) (Some (lit "/opt/app1")) (Some (lit "/data/app1")) (Some (lit "/run/box"))
                  (Some empty_context) [] in
  r.1 = MOUNT_OK /\ mounted l = [(lit "/run/box/data/app1", 14); (lit "/run/box/app", 7)].
Proof. by vm_compute. Qed.

Example mount_undone :
  let (r, l) := alrios_mount_setup_app_mounts no_remount (Some (lit "app1")) (Some (lit "/opt/app1")) (Some (lit "/data/app1")) (Some (lit "/run/box"))
                  None [] in
  r.1 = MOUNT_ERR_MOUNT /\ mounted l = [].
Proof. by vm_compute. Qed.

(** One in which, besides, whatever is mounted is busy: it has to be detached. *)
Definition busy : environment :=
  mk_environment (fun l c => match c with
                             | Umount2 _ 0 => - 16
                             | _ => answer no_remount l c
                             end) None Some 0 0.

Example busy_undone :
  let (r, l) := alrios_mount_setup_app_mounts busy (Some (lit "app1")) (Some (lit "/opt/app1")) (Some (lit "/data/app1")) (Some (lit "/run/box"))
                  None [] in
  r.1 = MOUNT_ERR_MOUNT /\ mounted l = [] /\ In (Umount2 (lit "/run/box/app") MNT_DETACH, 0) l.
Proof. vm_compute. split; [reflexivity|]. split; [reflexivity|tauto]. Qed.

(** A mount below the code directory is brought into the sandbox without any protection. *)
Example submount_unprotected :
  let before := [(Mount (Some (lit "/srv/plug")) (lit "/opt/app1/plug") MS_BIND, 0)] in
  let (r, l) := alrios_mount_setup_app_mounts willing (Some (lit "app1")) (Some (lit "/opt/app1")) (Some (lit "/data/app1")) (Some (lit "/run/box"))
                  (Some empty_context) before in
  r.1 = MOUNT_OK /\
  mounted l = [(lit "/run/box/data/app1", 14); (lit "/run/box/app/plug", 0); (lit "/run/box/app", 7); (lit "/opt/app1/plug", 0)].
Proof. by vm_compute. Qed.

(** Two dots are an application's name: its data directory is the parent of the storage, and
    its data is mounted on the root of the sandbox. *)
Example dots_are_a_name :
  alrios_mount_get_data_path (Some (lit "/srv/data")) (Some (lit "..")) 4096 = (MOUNT_OK, Some (lit "/srv/data/..")) /\
  mounted (alrios_mount_setup_app_mounts willing (Some (lit "..")) (Some (lit "/opt/x")) (Some (lit "/evil")) (Some (lit "/run/box")) None []).2
  = [(lit "/run/box/data/..", 14); (lit "/run/box/app", 7)].
Proof. by vm_compute. Qed.

(** A path that does not resolve is judged by its parent: a link to nowhere passes. *)
Example dangling_link_passes :
  let env := mk_environment (fun _ _ => 0) None
               (fun p => if bytes_eqb p (lit "/srv/app/link") then None else Some p) 0 0 in
  alrios_mount_validate_path_containment env (Some (lit "/srv/app")) (Some (lit "/srv/app/link")) = MOUNT_OK.
Proof. by vm_compute. Qed.

(** The base itself passes, and a name with two dots in it does not. *)
Example base_passes :
  alrios_mount_validate_path_containment willing (Some (lit "/srv/app")) (Some (lit "/srv/app")) = MOUNT_OK /\
  alrios_mount_validate_path_containment willing (Some (lit "/srv/app")) (Some (lit "/srv/app/a..b")) = MOUNT_ERR_PATH_TRAVERSAL.
Proof. by vm_compute. Qed.
