(* ===== verification/Psi.v ===== *)
(** Memory pressure (src/libraries/resources/psi.c, include/alrios/resources/psi.h): the parser
    of the kernel's pressure file, the levels, the choice of a process to shed and the
    notifications.

    The averages are C doubles: [spec_float] with 53 bits, so that reading a decimal rounds to
    the nearest double as [strtod] does and comparisons are those of the machine. The
    notification callback is a function of the notifications before; what the calls on the
    pressure file return is a record. *)

From Stdlib Require Import SpecFloat.
From stdpp Require Import sorting.
From S2P Require Import Prelude.

(** ** Constants *)

Definition PSI_MAX_SOURCE_BYTES : Z := 4096.

Definition PSI_OK : Z := 0.

Definition PSI_ERR_ARGUMENT : Z := -1.

Definition PSI_ERR_IO : Z := -2.

Definition PSI_ERR_FORMAT : Z := -3.

Definition PSI_ERR_TOO_LARGE : Z := -4.

Definition PSI_ERR_UNSUPPORTED : Z := -5.

Definition PSI_ERR_NO_CANDIDATE : Z := -6.

Definition PSI_ERR_NOTIFY : Z := -7.

Definition TIER_CORE : Z := 0.

Definition NOTIFY_WARNING : Z := 1.

Definition NOTIFY_SHED : Z := 2.

Inductive pressure_level := PRESSURE_NORMAL | PRESSURE_WARNING | PRESSURE_SHEDDING.

(** ** Doubles *)

Abbreviation double := spec_float.

(** The double nearest to a quotient of integers. *)
Definition nearest (n d : Z) : double :=
  match n, d with
  | Zpos n, Zpos d => SFdiv 53 1024 (S754_finite false n 0) (S754_finite false d 0)
  | _, _ => S754_zero false
  end.

Definition finite (x : double) : bool :=
  match x with S754_zero _ | S754_finite _ _ _ => true | _ => false end.

Definition PSI_WARNING_PERCENT : double := nearest 80 1.

Definition PSI_SHEDDING_PERCENT : double := nearest 90 1.

(** ** Data *)

Record psi_values := mk_values {
  avg10 : double;
  avg60 : double;
  avg300 : double;
  total_us : Z;
}.

Record psi_sample := mk_sample {
  some : psi_values;
  full : psi_values;
}.

Definition zero_values : psi_values := mk_values (S754_zero false) (S754_zero false) (S754_zero false) 0.

Definition zero_sample : psi_sample := mk_sample zero_values zero_values.

(** ** Fields *)

Definition isdigit (c : Z) : bool := (48 <=? c) && (c <=? 57).

(** The check of the characters: digits with at most one dot that is neither first nor last. *)
Fixpoint decimal_chars (index length : Z) (decimal_seen : bool) (value : bytes) : bool :=
  match value with
  | [] => true
  | c :: value =>
      if c =? 46 then
        if decimal_seen || (index =? 0) || (index + 1 =? length) then false
        else decimal_chars (index + 1) length true value
      else if negb (isdigit c) then false
      else decimal_chars (index + 1) length decimal_seen value
  end.

(** The digits as a number, and how many there are behind the dot. *)
Fixpoint scan_decimal (n k : Z) (behind : bool) (value : bytes) : Z * Z :=
  match value with
  | [] => (n, k)
  | c :: value =>
      if c =? 46 then scan_decimal n k true value
      else scan_decimal (n * 10 + (c - 48)) (if behind then k + 1 else k) behind value
  end.

(** [strtod] on such a string: it reads all of it, and the result is in range. *)
Definition strtod (value : bytes) : double :=
  let '(n, k) := scan_decimal 0 0 false value in nearest n (10 ^ k).

Definition parse_double_field (value : bytes) : res double :=
  if (len value =? 0) || (len value >=? 64) then Err PSI_ERR_FORMAT
  else if negb (decimal_chars 0 (len value) false value) then Err PSI_ERR_FORMAT
  else
    let parsed := strtod value in
    if negb (finite parsed) || SFltb parsed (S754_zero false) || SFltb (nearest 100 1) parsed
    then Err PSI_ERR_FORMAT
    else Ok parsed.

Fixpoint total_loop (parsed : Z) (value : bytes) : res Z :=
  match value with
  | [] => Ok parsed
  | c :: value =>
      if negb (isdigit c) then Err PSI_ERR_FORMAT
      else
        let digit := c - 48 in
        if parsed >? (UINT64_MAX - digit) / 10 then Err PSI_ERR_FORMAT
        else total_loop (parsed * 10 + digit) value
  end.

Definition parse_total_field (value : bytes) : res Z :=
  if len value =? 0 then Err PSI_ERR_FORMAT else total_loop 0 value.

(** ** Lines *)

(** The octets before the next space and those from it on; [None]: a forbidden octet. *)
Fixpoint scan_token (line : bytes) : option (bytes * bytes) :=
  match line with
  | [] => Some ([], [])
  | c :: rest =>
      if c =? 32 then Some ([], line)
      else if (c =? 9) || (c =? 13) || (c =? 0) then None
      else match scan_token rest with Some (token, rest) => Some (c :: token, rest) | None => None end
  end.

(** The octets before the first [=] and those from it on. *)
Fixpoint scan_name (token : bytes) : bytes * bytes :=
  match token with
  | [] => ([], [])
  | c :: rest => if c =? 61 then ([], token) else let '(name, rest) := scan_name rest in (c :: name, rest)
  end.

Definition field_names : list bytes := [lit "avg10"; lit "avg60"; lit "avg300"; lit "total"].

(** The index of a name among the fields. *)
Fixpoint field_index (name : bytes) (index : nat) (names : list bytes) : option nat :=
  match names with
  | [] => None
  | n :: names => if bytes_eqb name n then Some index else field_index name (S index) names
  end.

(** The value of a field goes to its place. *)
Definition set_field (index : nat) (value : bytes) (out : psi_values) : res psi_values :=
  match index with
  | 3%nat => let! v := parse_total_field value in Ok (mk_values (avg10 out) (avg60 out) (avg300 out) v)
  | 0%nat => let! v := parse_double_field value in Ok (mk_values v (avg60 out) (avg300 out) (total_us out))
  | 1%nat => let! v := parse_double_field value in Ok (mk_values (avg10 out) v (avg300 out) (total_us out))
  | _ => let! v := parse_double_field value in Ok (mk_values (avg10 out) (avg60 out) v (total_us out))
  end.

(** The loop over the fields, with fuel for the octets that are left: status and the values
    that were read. *)
Fixpoint line_loop (fuel : nat) (line : bytes) (seen : list nat) (out : psi_values) : Z * psi_values * list nat :=
  match fuel, line with
  | _, [] => (PSI_OK, out, seen)
  | O, _ => (PSI_ERR_FORMAT, out, seen)
  | S fuel, c :: _ =>
      if c =? 32 then (PSI_ERR_FORMAT, out, seen)
      else
        match scan_token line with
        | None => (PSI_ERR_FORMAT, out, seen)
        | Some (token, rest) =>
            let '(name, value) := scan_name token in
            if (len name =? 0) || (len value <? 2) then (PSI_ERR_FORMAT, out, seen)
            else
              match field_index name 0 field_names with
              | None => (PSI_ERR_FORMAT, out, seen)
              | Some index =>
                  if existsb (Nat.eqb index) seen then (PSI_ERR_FORMAT, out, seen)
                  else
                    let seen := index :: seen in
                    match set_field index (drop 1 value) out with
                    | Ok out =>
                        match rest with
                        | [] => (PSI_OK, out, seen)
                        | [_] => (PSI_ERR_FORMAT, out, seen)
                        | _ :: rest => line_loop fuel rest seen out
                        end
                    | Err status => (status, out, seen)
                    | Fault => (PSI_ERR_FORMAT, out, seen)
                    end
              end
        end
  end.

(** Status and what is in [*out_values] afterwards; [None]: nothing was written. *)
Definition parse_psi_line (line : bytes) (expected_name : bytes) : Z * option psi_values :=
  let expected_length := len expected_name in
  if (len line <=? expected_length) || negb (bytes_eqb (sub 0 expected_length line) expected_name)
     || negb (at_ line expected_length =? 32)
  then (PSI_ERR_FORMAT, None)
  else
    let rest := drop (Z.to_nat (expected_length + 1)) line in
    let '(status, out, seen) := line_loop (length rest) rest [] zero_values in
    if negb (status =? PSI_OK) then (status, Some out)
    else if forallb (fun i => existsb (Nat.eqb i) seen) [0; 1; 2; 3]%nat then (PSI_OK, Some out)
    else (PSI_ERR_FORMAT, Some out).

(** The octets before the next newline and those from it on. *)
Fixpoint scan_line (data : bytes) : bytes * bytes :=
  match data with
  | [] => ([], [])
  | c :: rest => if c =? 10 then ([], data) else let '(line, rest) := scan_line rest in (c :: line, rest)
  end.

(** Status and what is in [*out_sample] afterwards; [None]: nothing was written. *)
Definition alrios_psi_parse_memory (data : option bytes) (length_ : Z) (out_present : bool) : Z * option psi_sample :=
  match data with
  | None => (PSI_ERR_ARGUMENT, None)
  | Some data =>
      if negb out_present then (PSI_ERR_ARGUMENT, None)
      else if (length_ =? 0) || (length_ >? PSI_MAX_SOURCE_BYTES)
      then (if length_ >? PSI_MAX_SOURCE_BYTES then PSI_ERR_TOO_LARGE else PSI_ERR_FORMAT, None)
      else
        let data := sub 0 length_ data in
        if existsb (Z.eqb 0) data then (PSI_ERR_FORMAT, None)
        else
          let '(first, rest) := scan_line data in
          match rest with
          | [] => (PSI_ERR_FORMAT, None)
          | _ :: rest =>
              if len first =? 0 then (PSI_ERR_FORMAT, None)
              else
                let '(second, rest) := scan_line rest in
                if len second =? 0 then (PSI_ERR_FORMAT, None)
                else if 1 <? len rest then (PSI_ERR_FORMAT, None)
                else
                  let '(status, values) := parse_psi_line first (lit "some") in
                  let sample := mk_sample (default zero_values values) zero_values in
                  if negb (status =? PSI_OK) then (status, Some sample)
                  else
                    let '(status, values) := parse_psi_line second (lit "full") in
                    if negb (status =? PSI_OK) then (status, Some zero_sample)
                    else (PSI_OK, Some (mk_sample (some sample) (default zero_values values)))
          end
  end.

(** ** Sources *)

(** A source writes into a buffer of 4096 octets: status, the buffer, the length it reports. *)
Definition alrios_psi_read_source (read : option (Z * bytes * Z)) (out_present : bool) : Z * option psi_sample :=
  match read with
  | None => (PSI_ERR_ARGUMENT, None)
  | Some (status, buffer, length_) =>
      if negb out_present then (PSI_ERR_ARGUMENT, None)
      else if negb (status =? PSI_OK) then (status, None)
      else if length_ >? PSI_MAX_SOURCE_BYTES then (PSI_ERR_TOO_LARGE, None)
      else alrios_psi_parse_memory (Some buffer) length_ out_present
  end.

(** The outcomes of the calls on the file. *)
Record psi_file := mk_file {
  fopen : bool;
  enoent : bool;
  contents : bytes;
  ferror : bool;
  fgetc_error : bool;
  fclose : bool;
}.

Definition read_file_source (file : psi_file) (capacity : Z) : Z * bytes * Z :=
  if capacity <? 2 then (PSI_ERR_ARGUMENT, [], 0)
  else if negb (fopen file) then (if enoent file then PSI_ERR_UNSUPPORTED else PSI_ERR_IO, [], 0)
  else
    let buffer := sub 0 capacity (contents file) in
    let length_ := len buffer in
    if ferror file then (PSI_ERR_IO, buffer, 0)
    else if (length_ =? capacity) && (capacity <? len (contents file)) then (PSI_ERR_TOO_LARGE, buffer, 0)
    else if (length_ =? capacity) && fgetc_error file then (PSI_ERR_IO, buffer, 0)
    else if negb (fclose file) then (PSI_ERR_IO, buffer, 0)
    else (PSI_OK, buffer, length_).

Definition alrios_psi_read_memory_path (file : psi_file) (path_present out_present : bool) : Z * option psi_sample :=
  if negb path_present || negb out_present then (PSI_ERR_ARGUMENT, None)
  else alrios_psi_read_source (Some (read_file_source file PSI_MAX_SOURCE_BYTES)) out_present.

Definition alrios_psi_read_memory (file : psi_file) (out_present : bool) : Z * option psi_sample :=
  alrios_psi_read_memory_path file true out_present.

(** ** Levels *)

Definition alrios_psi_memory_pressure_percent (sample : option psi_sample) : double :=
  match sample with None => S754_zero false | Some sample => avg10 (some sample) end.

Definition alrios_psi_classify_memory (sample : option psi_sample) : pressure_level :=
  let pressure := alrios_psi_memory_pressure_percent sample in
  if SFleb PSI_SHEDDING_PERCENT pressure then PRESSURE_SHEDDING
  else if SFleb PSI_WARNING_PERCENT pressure then PRESSURE_WARNING
  else PRESSURE_NORMAL.

(** ** Candidates *)

Record psi_candidate := mk_candidate {
  name : option bytes;
  process_id : Z;
  tier : Z;
  allow_shedding : Z;
  deny_shedding : Z;
  protected_process : Z;
}.

(** The part of a path behind the last slash, which [found] says was seen. *)
Fixpoint extract_basename (path : bytes) : bytes :=
  match path with
  | [] => []
  | c :: rest => if existsb (Z.eqb 47) rest then extract_basename rest else if c =? 47 then rest else path
  end.

Definition protected_names : list bytes :=
  [lit "arcore"; lit "arkernel"; lit "arauth"; lit "ardb"; lit "ar_resourced"; lit "supervisor"; lit "router";
   lit "guest_router"; lit "ar_supervisor"; lit "ar_router"; lit "ar_auditd"; lit "ar_chronod"; lit "ar_cored"; lit "ar_eventd"].

Definition alrios_psi_is_core_daemon (name : option bytes) : bool :=
  match name with
  | None | Some [] => false
  | Some name => existsb (bytes_eqb (extract_basename name)) protected_names
  end.

(** [candidate->name != NULL && candidate->name\[0\] != '\0'] *)
Definition has_name (c : psi_candidate) : bool := match name c with None | Some [] => false | Some _ => true end.

Definition candidate_is_eligible (c : psi_candidate) : bool :=
  has_name c && (process_id c >? 0) && negb (allow_shedding c =? 0) && (deny_shedding c =? 0)
  && (protected_process c =? 0) && negb (tier c =? TIER_CORE) && negb (alrios_psi_is_core_daemon (name c)).

Definition candidate_is_worker (c : psi_candidate) : bool :=
  has_name c && (process_id c >? 0) && (protected_process c =? 0) && negb (tier c =? TIER_CORE)
  && negb (alrios_psi_is_core_daemon (name c)).

(** [strcmp] of strings without NUL: the sign is what counts. *)
Fixpoint strcmp (a b : bytes) : Z :=
  match a, b with
  | [], [] => 0
  | [], _ => -1
  | _, [] => 1
  | x :: a, y :: b => if x <? y then -1 else if y <? x then 1 else strcmp a b
  end.

Definition compare_candidate_priority (a b : psi_candidate) : Z :=
  if tier a >? tier b then -1
  else if tier a <? tier b then 1
  else
    let name_cmp := strcmp (default [] (name a)) (default [] (name b)) in
    if negb (name_cmp =? 0) then name_cmp
    else if process_id a <? process_id b then -1
    else if process_id a >? process_id b then 1
    else 0.

(** The candidate at an index of the array. *)
Definition no_candidate : psi_candidate := mk_candidate None 0 0 0 0 0.

Definition at_index (candidates : list psi_candidate) (i : nat) : psi_candidate := nth i candidates no_candidate.

(** The loop over the array from [index] on, with the best index so far. *)
Fixpoint select_loop (all candidates : list psi_candidate) (index : nat) (best : option nat) : option nat :=
  match candidates with
  | [] => best
  | c :: rest =>
      select_loop all rest (S index)
        (if negb (candidate_is_eligible c) then best
         else match best with
              | None => Some index
              | Some b => if compare_candidate_priority c (at_index all b) <? 0 then Some index else best
              end)
  end.

(** Status and [*out_candidate_index]; [None]: not written. *)
Definition alrios_psi_select_candidate (candidates : option (list psi_candidate)) (candidate_count : Z) (out_present : bool)
    : Z * option nat :=
  match candidates with
  | None => (PSI_ERR_ARGUMENT, None)
  | Some cs =>
      if (candidate_count =? 0) || negb out_present then (PSI_ERR_ARGUMENT, None)
      else
        match select_loop cs cs 0 None with
        | None => (PSI_ERR_NO_CANDIDATE, None)
        | Some best => (PSI_OK, Some best)
        end
  end.

(** ** Notifications *)

Record notification := mk_event {
  type : Z;
  level : pressure_level;
  pressure_percent : double;
  candidate : option nat;
}.

(** The insertion sort of the indices. [sorted] is the sorted part from its end: the key moves
    in front of every element that comes after it. *)
Fixpoint insert_index (before : nat -> nat -> bool) (key : nat) (sorted : list nat) : list nat :=
  match sorted with
  | [] => [key]
  | prev :: rest => if before key prev then prev :: insert_index before key rest else key :: sorted
  end.

Fixpoint sort_indices (before : nat -> nat -> bool) (sorted keys : list nat) : list nat :=
  match keys with
  | [] => rev sorted
  | key :: keys => sort_indices before (insert_index before key sorted) keys
  end.

(** [for (i = 0U; i < candidate_count; ++i) if (candidate_is_worker(c)) ...] *)
Fixpoint worker_indices (index : nat) (candidates : list psi_candidate) : list nat :=
  match candidates with
  | [] => []
  | c :: rest => if candidate_is_worker c then index :: worker_indices (S index) rest else worker_indices (S index) rest
  end.

Definition before_in (candidates : list psi_candidate) (i j : nat) : bool :=
  compare_candidate_priority (at_index candidates i) (at_index candidates j) <? 0.

Section Evaluate.
(** The callback, given the notifications before. *)
Variable notify : list notification -> notification -> Z.

(** One notification after the other, until the callback fails. *)
Fixpoint notify_loop (event : option nat -> notification) (workers : list nat) (sent : list notification)
    : Z * list notification :=
  match workers with
  | [] => (PSI_OK, sent)
  | i :: workers =>
      let e := event (Some i) in
      if negb (notify sent e =? 0) then (PSI_ERR_NOTIFY, sent ++ [e])
      else notify_loop event workers (sent ++ [e])
  end.

(** Status, the notifications, [*out_candidate_index] ([None]: not written). [malloc_ok]: the
    array for more than 64 indices is allocated. The callback is a function, so it is not null. *)
Definition alrios_psi_evaluate (malloc_ok : bool) (sample : option psi_sample) (candidates : option (list psi_candidate))
    (candidate_count : Z) (out_present : bool) : Z * list notification * option nat :=
  match sample with
  | None => (PSI_ERR_ARGUMENT, [], None)
  | Some _ =>
      let level := alrios_psi_classify_memory sample in
      let event := mk_event (match level with PRESSURE_SHEDDING => NOTIFY_SHED | _ => NOTIFY_WARNING end) level
                     (alrios_psi_memory_pressure_percent sample) in
      match level with
      | PRESSURE_NORMAL => (PSI_OK, [], None)
      | PRESSURE_SHEDDING =>
          match alrios_psi_select_candidate candidates candidate_count true with
          | (status, Some i) =>
              if negb (status =? PSI_OK) then (status, [], None)
              else
                let e := event (Some i) in
                (if negb (notify [] e =? 0) then PSI_ERR_NOTIFY else PSI_OK, [e], if out_present then Some i else None)
          | (status, None) => (status, [], None)
          end
      | PRESSURE_WARNING =>
          let general := (if negb (notify [] (event None) =? 0) then PSI_ERR_NOTIFY else PSI_OK, [event None], None) in
          match candidates with
          | None => general
          | Some cs =>
              if candidate_count =? 0 then general
              else if (candidate_count >? 64) && negb malloc_ok then (PSI_ERR_IO, [], None)
              else
                match worker_indices 0 cs with
                | [] => general
                | first :: others =>
                    let sorted := sort_indices (before_in cs) [first] others in
                    let '(status, sent) := notify_loop event sorted [] in
                    (status, sent, if out_present then head sorted else None)
                end
          end
      end
  end.
End Evaluate.

(** ** The order of the candidates *)

Lemma strcmp_refl a : strcmp a a = 0.
Proof. induction a as [|x a IH]; cbn; [done|]. by rewrite !Z.ltb_irrefl. Qed.

Lemma strcmp_sym a b : strcmp b a = - strcmp a b.
Proof.
  revert b. induction a as [|x a IH]; intros [|y b]; cbn; try done.
  destruct (Z.ltb_spec x y), (Z.ltb_spec y x); try lia. apply IH.
Qed.

Lemma strcmp_eq a b : strcmp a b = 0 -> a = b.
Proof.
  revert b. induction a as [|x a IH]; intros [|y b]; cbn; try done.
  destruct (Z.ltb_spec x y), (Z.ltb_spec y x); try done. intros E%IH. f_equal; [lia|done].
Qed.

Lemma strcmp_trans a b c : strcmp a b < 0 -> strcmp b c < 0 -> strcmp a c < 0.
Proof.
  revert b c. induction a as [|x a IH]; intros [|y b] [|z c]; cbn; try done.
  destruct (Z.ltb_spec x y), (Z.ltb_spec y z), (Z.ltb_spec x z), (Z.ltb_spec y x), (Z.ltb_spec z y), (Z.ltb_spec z x);
    try done; try lia. apply IH.
Qed.

Lemma compare_sym a b : compare_candidate_priority b a = - compare_candidate_priority a b.
Proof.
  unfold compare_candidate_priority. rewrite (strcmp_sym (default [] (name a))), !Z.gtb_ltb.
  destruct (Z.ltb_spec (tier a) (tier b)), (Z.ltb_spec (tier b) (tier a)); try lia.
  set (s := strcmp _ _). destruct (Z.eqb_spec s 0), (Z.eqb_spec (- s) 0); cbn [negb]; try lia.
  destruct (Z.ltb_spec (process_id a) (process_id b)), (Z.ltb_spec (process_id b) (process_id a)); lia.
Qed.

(** Priority as a lexicographic order. *)
Lemma compare_le a b :
  compare_candidate_priority a b <= 0 <->
  tier b < tier a \/ (tier a = tier b /\
    (strcmp (default [] (name a)) (default [] (name b)) < 0 \/
     (default [] (name a) = default [] (name b) /\ process_id a <= process_id b))).
Proof.
  unfold compare_candidate_priority. rewrite !Z.gtb_ltb.
  pose proof (strcmp_eq (default [] (name a)) (default [] (name b))) as He.
  assert (Hr : default [] (name a) = default [] (name b) -> strcmp (default [] (name a)) (default [] (name b)) = 0)
    by (intros ->; apply strcmp_refl).
  destruct (Z.ltb_spec (tier b) (tier a)), (Z.ltb_spec (tier a) (tier b)); [lia| | |]; [split; intros; [by left|lia]|lia|].
  destruct (Z.eqb_spec (strcmp (default [] (name a)) (default [] (name b))) 0) as [E|E]; cbn [negb].
  - specialize (He E). destruct (Z.ltb_spec (process_id a) (process_id b)), (Z.ltb_spec (process_id b) (process_id a));
      split; intros; try lia; right; split; try lia; right; split; try done; lia.
  - split; [intros; right; split; lia|]. intros [|[_ [|[? _]]]]; [lia|lia|]. exfalso. by apply E, Hr.
Qed.

Lemma compare_trans a b c :
  compare_candidate_priority a b <= 0 -> compare_candidate_priority b c <= 0 -> compare_candidate_priority a c <= 0.
Proof.
  rewrite !compare_le. intros [?|[? [?|[E ?]]]] [?|[? [?|[E' ?]]]]; try (left; lia); right; (split; [lia|]).
  - left. by eapply strcmp_trans.
  - left. by rewrite <- E'.
  - left. by rewrite E.
  - right. split; [congruence|lia].
Qed.

(** Which index comes first: the better candidate, or the earlier of two equal ones. *)
Definition rank (cs : list psi_candidate) (i j : nat) : Prop :=
  compare_candidate_priority (at_index cs i) (at_index cs j) < 0 \/
  (compare_candidate_priority (at_index cs i) (at_index cs j) = 0 /\ (i < j)%nat).

Lemma rank_trans cs i j k : rank cs i j -> rank cs j k -> rank cs i k.
Proof.
  unfold rank. set (a := at_index cs i). set (b := at_index cs j). set (c := at_index cs k). intros Hij Hjk.
  pose proof (compare_trans a b c ltac:(lia) ltac:(lia)) as Hac.
  destruct (Z.eq_dec (compare_candidate_priority a c) 0) as [E|]; [right|left; lia]. split; [done|].
  pose proof (compare_sym a c). pose proof (compare_sym a b). pose proof (compare_sym b c).
  pose proof (compare_trans c a b ltac:(lia) ltac:(lia)). pose proof (compare_trans b c a ltac:(lia) ltac:(lia)). lia.
Qed.

Lemma rank_total cs i j : rank cs i j \/ i = j \/ rank cs j i.
Proof.
  unfold rank. pose proof (compare_sym (at_index cs i) (at_index cs j)). destruct (Nat.lt_trichotomy i j) as [?|[?|?]]; lia.
Qed.

(** ** The choice *)

(** The best of the indices below [n]. *)
Definition best_below (cs : list psi_candidate) (n : nat) (best : option nat) : Prop :=
  match best with
  | None => forall j, (j < n)%nat -> candidate_is_eligible (at_index cs j) = false
  | Some i => (i < n)%nat /\ candidate_is_eligible (at_index cs i) = true /\
      forall j, (j < n)%nat -> candidate_is_eligible (at_index cs j) = true -> i = j \/ rank cs i j
  end.

Lemma best_step cs n best :
  best_below cs n best ->
  best_below cs (S n)
    (if negb (candidate_is_eligible (at_index cs n)) then best
     else match best with
          | None => Some n
          | Some b => if compare_candidate_priority (at_index cs n) (at_index cs b) <? 0 then Some n else best
          end).
Proof.
  intros Hb. destruct (candidate_is_eligible (at_index cs n)) eqn:En; cbn [negb].
  - destruct best as [b|]; cbn [best_below] in *.
    + destruct Hb as (Hbn & Heb & Hmin). pose proof (compare_sym (at_index cs n) (at_index cs b)) as Hsym.
      destruct (Z.ltb_spec (compare_candidate_priority (at_index cs n) (at_index cs b)) 0) as [Hlt|Hge].
      * split; [lia|]. split; [done|]. intros j Hj Hej. destruct (decide (n = j)) as [->|]; [by left|right].
        destruct (Hmin j ltac:(lia) Hej) as [<-|Hr]; [by left|]. eapply rank_trans; [by left|exact Hr].
      * split; [lia|]. split; [done|]. intros j Hj Hej. destruct (decide (n = j)) as [<-|].
        { right. unfold rank. lia. }
        apply Hmin; [lia|done].
    + split; [lia|]. split; [done|]. intros j Hj Hej. destruct (decide (n = j)) as [->|]; [by left|].
      rewrite Hb in Hej by lia. done.
  - destruct best as [b|]; cbn [best_below] in *.
    + destruct Hb as (? & ? & Hmin). split; [lia|]. split; [done|]. intros j Hj Hej.
      destruct (decide (n = j)) as [<-|]; [congruence|]. apply Hmin; [lia|done].
    + intros j Hj. destruct (decide (n = j)) as [<-|]; [done|]. apply Hb. lia.
Qed.

Lemma select_loop_best all cs index best :
  (exists pre, all = pre ++ cs /\ length pre = index) -> best_below all index best ->
  best_below all (length all) (select_loop all cs index best).
Proof.
  revert index best. induction cs as [|c cs IH]; intros index best (pre & -> & <-) Hb; cbn [select_loop].
  - by rewrite app_nil_r in *.
  - apply IH.
    + exists (pre ++ [c]). rewrite <- app_assoc, length_app. split; [done|cbn; lia].
    + pose proof (best_step _ _ _ Hb) as Hs.
      assert (at_index (pre ++ c :: cs) (length pre) = c) as E by (unfold at_index; rewrite app_nth2, Nat.sub_diag; done || lia).
      by rewrite E in Hs.
Qed.

(** ** The order of the notifications *)

(** The sorted part, from its end: every element comes after those behind it. *)
Lemma insert_index_sorted cs key s :
  StronglySorted (fun i j => rank cs j i) s -> Forall (fun i => (i < key)%nat) s ->
  StronglySorted (fun i j => rank cs j i) (insert_index (before_in cs) key s) /\ insert_index (before_in cs) key s ≡ₚ key :: s.
Proof.
  induction 1 as [|prev s Hs IH Hp]; intros Hk; cbn [insert_index]; [split; [by repeat constructor|done]|].
  apply list.Forall_cons in Hk as [Hk Hks]. unfold before_in at 1 3.
  pose proof (compare_sym (at_index cs key) (at_index cs prev)) as Hsym.
  destruct (Z.ltb_spec (compare_candidate_priority (at_index cs key) (at_index cs prev)) 0) as [Hlt|Hge].
  - destruct (IH Hks) as [IHs IHp]. split; [|rewrite IHp; apply Permutation_swap]. constructor; [done|].
    rewrite IHp. apply list.Forall_cons. split; [by left|done].
  - assert (Hr : rank cs prev key) by (unfold rank; lia). split; [|done]. constructor; [by constructor|].
    apply list.Forall_cons. split; [done|]. eapply list.Forall_impl; [exact Hp|].
    intros j Hj. cbn beta in *. by eapply rank_trans.
Qed.

Lemma rev_sorted {A} (R : A -> A -> Prop) (l : list A) :
  StronglySorted (fun x y => R y x) l -> StronglySorted R (rev l).
Proof.
  induction 1 as [|x l _ IH Hx]; cbn [rev]; [constructor|].
  revert IH. assert (Hall : Forall (fun y => R y x) (rev l)) by (rewrite <- Permutation_rev; exact Hx).
  induction Hall as [|y m Hy Hm IHm]; cbn [app]; intros Hs; [by repeat constructor|].
  apply StronglySorted_inv in Hs as [Hs Hall']. constructor; [by apply IHm|].
  apply Forall_app. split; [done|]. by apply list.Forall_singleton.
Qed.

Lemma sort_indices_sorted cs keys s :
  StronglySorted (fun i j => rank cs j i) s -> StronglySorted lt keys -> Forall (fun k => Forall (fun i => (i < k)%nat) s) keys ->
  StronglySorted (rank cs) (sort_indices (before_in cs) s keys) /\ sort_indices (before_in cs) s keys ≡ₚ keys ++ s.
Proof.
  revert s. induction keys as [|k keys IH]; intros s Hs Hk Hlt; cbn [sort_indices].
  - split; [by apply rev_sorted|]. cbn. by rewrite <- Permutation_rev.
  - apply StronglySorted_inv in Hk as [Hk Hk']. apply list.Forall_cons in Hlt as [Hlt Hlts].
    destruct (insert_index_sorted cs k s Hs Hlt) as [Hs' Hp']. destruct (IH _ Hs' Hk) as [H1 H2].
    + rewrite !list.Forall_forall in *. intros k' Hin. rewrite Hp'. apply list.Forall_cons. split; [by apply Hk'|by apply Hlts].
    + split; [done|]. rewrite H2, Hp'. by rewrite <- Permutation_middle.
Qed.

(** The workers of an array, in its order. *)
Lemma worker_indices_spec index cs :
  StronglySorted lt (worker_indices index cs) /\
  (forall i, In i (worker_indices index cs) <->
     (index <= i < index + length cs)%nat /\ candidate_is_worker (at_index cs (i - index)) = true).
Proof.
  revert index. induction cs as [|c cs IH]; intros index; cbn [worker_indices length].
  - split; [constructor|]. intros i. split; [done|lia].
  - destruct (IH (S index)) as [Hs Hi].
    assert (Hcase : forall i, (index <= i < index + S (length cs))%nat /\ candidate_is_worker (at_index (c :: cs) (i - index)) = true <->
      (i = index /\ candidate_is_worker c = true) \/ In i (worker_indices (S index) cs)).
    { intros i. rewrite Hi. destruct (decide (i = index)) as [->|Hne].
      - rewrite Nat.sub_diag. cbn. split; [intros [_ ?]; by left|]. intros [[_ ?]|[? _]]; [split; [lia|done]|lia].
      - destruct (decide (index <= i)%nat).
        + replace (i - index)%nat with (S (i - S index)) by lia. cbn [at_index nth]. split.
          * intros [? ?]. right. split; [lia|done].
          * intros [[? _]|[? ?]]; [done|]. split; [lia|done].
        + split; [intros [? _]; lia|]. intros [[? _]|[? _]]; lia. }
    destruct (candidate_is_worker c) eqn:Ec.
    + split.
      * constructor; [done|]. apply list.Forall_forall. intros j Hj%list_elem_of_In%Hi. lia.
      * intros i. rewrite Hcase. cbn [In]. split; [intros [<-|?]; [by left|by right]|]. intros [[-> _]|?]; [by left|by right].
    + split; [done|]. intros i. rewrite Hcase. split; [by right|]. by intros [[_ ?]|?].
Qed.

(** The workers in the order they are notified in. *)
Definition notified_order (cs : list psi_candidate) (order : list nat) : Prop :=
  StronglySorted (rank cs) order /\ NoDup order /\
  forall i, In i order <-> (i < length cs)%nat /\ candidate_is_worker (at_index cs i) = true.

Lemma sorted_workers cs first others :
  worker_indices 0 cs = first :: others -> notified_order cs (sort_indices (before_in cs) [first] others).
Proof.
  intros E. destruct (worker_indices_spec 0 cs) as [Hs Hi]. rewrite E in Hs, Hi.
  pose proof (StronglySorted_inv Hs) as [Hs' Hf].
  destruct (sort_indices_sorted cs others [first]) as [H1 H2].
  - repeat constructor.
  - done.
  - eapply list.Forall_impl; [exact Hf|]. intros k Hk. by apply list.Forall_singleton.
  - assert (Hp : sort_indices (before_in cs) [first] others ≡ₚ first :: others).
    { rewrite H2. apply (Permutation_app_comm others [first]). }
    split; [done|]. split.
    + rewrite Hp. clear -Hs. induction Hs as [|x l _ IH Hx]; constructor; [|done].
      intros Hin. rewrite list.Forall_forall in Hx. specialize (Hx x Hin). cbn in Hx. lia.
    + intros i. rewrite Hp, Hi. by rewrite Nat.add_0_l, Nat.sub_0_r; split; intros [? ?]; split; [lia|done|lia|done].
Qed.

Section Callback.
Variable notify : list notification -> notification -> Z.

(** What the loop sends: one notification per index, up to the first that the callback
    refuses. *)
Lemma notify_loop_spec event workers sent rc sent' :
  notify_loop notify event workers sent = (rc, sent') ->
  (rc = PSI_OK /\ sent' = sent ++ map (fun i => event (Some i)) workers) \/
  (rc = PSI_ERR_NOTIFY /\ exists done last rest, workers = done ++ last :: rest /\
     sent' = sent ++ map (fun i => event (Some i)) (done ++ [last]) /\
     notify (sent ++ map (fun i => event (Some i)) done) (event (Some last)) <> 0).
Proof.
  revert sent. induction workers as [|i workers IH]; intros sent; cbn [notify_loop].
  - intros [= <- <-]. left. by rewrite app_nil_r.
  - destruct (Z.eqb_spec (notify sent (event (Some i))) 0) as [E|E]; cbn [negb].
    + intros Hl. destruct (IH _ Hl) as [[-> ->]|(-> & done & last & rest & -> & -> & Hn)].
      * left. split; [done|]. by rewrite <- app_assoc.
      * right. split; [done|]. exists (i :: done), last, rest. rewrite <- !app_assoc in *. done.
    + intros [= <- <-]. right. split; [done|]. exists [], i, workers. by rewrite app_nil_r.
Qed.
End Callback.

Lemma select_candidate_spec cs :
  cs <> [] ->
  match alrios_psi_select_candidate (Some cs) (len cs) true with
  | (st, Some i) => st = PSI_OK /\ (i < length cs)%nat /\ candidate_is_eligible (at_index cs i) = true /\
      forall j, (j < length cs)%nat -> candidate_is_eligible (at_index cs j) = true -> i = j \/ rank cs i j
  | (st, None) => st = PSI_ERR_NO_CANDIDATE /\ forall c, In c cs -> candidate_is_eligible c = false
  end.
Proof.
  intros Hne. unfold alrios_psi_select_candidate. destruct (Z.eqb_spec (len cs) 0) as [E|_]; [by destruct cs|]. cbn [orb negb].
  assert (Hb : best_below cs (length cs) (select_loop cs cs 0 None)).
  { apply select_loop_best; [by exists []|]. intros j ?. lia. }
  destruct (select_loop cs cs 0 None) as [i|]; cbn [best_below] in Hb; [done|].
  split; [done|]. intros c Hin. apply (In_nth _ _ no_candidate) in Hin as (j & Hj & <-). by apply Hb.
Qed.

(** ** Properties *)

(** The process that is shed. The selection returns the eligible candidate of the highest
    priority, the first one if several are equal, and reports that there is none exactly when
    no candidate is eligible; an eligible candidate has a name and a process, allows to be shed
    and does not deny it, is not protected, not of the core tier and not a core daemon. *)
Theorem shed_candidate_best cs :
  cs <> [] ->
  match alrios_psi_select_candidate (Some cs) (len cs) true with
  | (st, Some i) => st = PSI_OK /\ (i < length cs)%nat /\ candidate_is_eligible (at_index cs i) = true /\
      forall j, (j < length cs)%nat -> candidate_is_eligible (at_index cs j) = true -> i = j \/ rank cs i j
  | (st, None) => st = PSI_ERR_NO_CANDIDATE /\ forall c, In c cs -> candidate_is_eligible c = false
  end.
Proof. apply select_candidate_spec. Qed.

Lemma eligible_facts c :
  candidate_is_eligible c = true ->
  0 < process_id c /\ allow_shedding c <> 0 /\ deny_shedding c = 0 /\ protected_process c = 0 /\ tier c <> TIER_CORE /\
  alrios_psi_is_core_daemon (name c) = false.
Proof. unfold candidate_is_eligible. intros H. bool_hyps. done. Qed.

Section Evaluation.
Variable notify : list notification -> notification -> Z.

(** C22: nothing is shed that must not be. Whatever the callback answers, a shedding
    notification is sent only at a pressure of at least 90 percent, alone, and it names a
    process that allows to be shed and does not deny it, is not protected, not of the core
    tier and not a core daemon by its name; no other such candidate has a higher priority. *)
Theorem shedding_is_safe malloc_ok sample candidates out_present rc sent out e :
  alrios_psi_evaluate notify malloc_ok (Some sample) (Some candidates) (len candidates) out_present = (rc, sent, out) ->
  In e sent -> type e = NOTIFY_SHED ->
  SFleb PSI_SHEDDING_PERCENT (avg10 (some sample)) = true /\ sent = [e] /\
  exists i, let c := at_index candidates i in
    candidate e = Some i /\ (i < length candidates)%nat /\ 0 < process_id c /\ allow_shedding c <> 0 /\ deny_shedding c = 0 /\
    protected_process c = 0 /\ tier c <> TIER_CORE /\ alrios_psi_is_core_daemon (name c) = false /\
    forall j, (j < length candidates)%nat -> candidate_is_eligible (at_index candidates j) = true -> i = j \/ rank candidates i j.
Proof.
  unfold alrios_psi_evaluate. destruct (alrios_psi_classify_memory (Some sample)) eqn:Ec; intros H Hin Ht.
  - injection H as <- <- <-. destruct Hin.
  - assert (Hw : Forall (fun e => type e = NOTIFY_WARNING) sent); [|by rewrite List.Forall_forall in Hw; apply Hw in Hin; rewrite Hin in Ht].
    clear e Hin Ht. destruct (len candidates =? 0); [injection H as <- <- <-; by repeat constructor|].
    destruct (_ && _); [by injection H as <- <- <-|].
    destruct (worker_indices 0 candidates) as [|first others]; [injection H as <- <- <-; by repeat constructor|].
    set (order := sort_indices _ _ _) in H. destruct (notify_loop _ _ order []) as [st s] eqn:El. injection H as <- <- <-.
    apply notify_loop_spec in El as [[_ ->]|(_ & done & last & rest & _ & -> & _)]; cbn [app];
      apply List.Forall_forall; intros x (i & <- & _)%in_map_iff; reflexivity.
  - destruct (decide (candidates = [])) as [->|Hne]; [by injection H as <- <- <-|].
    pose proof (select_candidate_spec candidates Hne) as Hs.
    destruct (alrios_psi_select_candidate (Some candidates) (len candidates) true) as [st [i|]].
    + destruct Hs as [-> Hs]. cbn [negb Z.eqb PSI_OK] in H. injection H as <- <- <-. destruct Hin as [<-|[]].
      split.
      * unfold alrios_psi_classify_memory, alrios_psi_memory_pressure_percent in Ec.
        destruct (SFleb PSI_SHEDDING_PERCENT _); [done|]. by destruct (SFleb _ _).
      * split; [done|]. exists i. destruct Hs as (Hi & He & Hmin). pose proof (eligible_facts _ He) as (? & ? & ? & ? & ? & ?). done.
    + by injection H as <- <- <-.
Qed.

(** Who is warned. Between 80 and 90 percent every worker is notified once, the ones of a
    higher tier first, then by name and process; with no worker there is one general
    notification. The call succeeds exactly if the callback takes all of them, and stops at
    the first that it refuses; the index returned is that of the first worker. *)
Theorem warnings_in_order sample candidates out_present rc sent out :
  alrios_psi_classify_memory (Some sample) = PRESSURE_WARNING ->
  alrios_psi_evaluate notify true (Some sample) (Some candidates) (len candidates) out_present = (rc, sent, out) ->
  let event := mk_event NOTIFY_WARNING PRESSURE_WARNING (avg10 (some sample)) in
  exists order, notified_order candidates order /\
    (order = [] -> sent = [event None] /\ (rc = PSI_OK <-> notify [] (event None) = 0)) /\
    (order <> [] -> out = (if out_present then head order else None) /\
       ((rc = PSI_OK /\ sent = map (fun i => event (Some i)) order) \/
        (rc = PSI_ERR_NOTIFY /\ exists done last rest, order = done ++ last :: rest /\
           sent = map (fun i => event (Some i)) (done ++ [last]) /\
           notify (map (fun i => event (Some i)) done) (event (Some last)) <> 0))).
Proof.
  intros Hc H event. unfold alrios_psi_evaluate in H. rewrite Hc in H. cbn [alrios_psi_memory_pressure_percent] in H. fold event in H.
  assert (Hnone : worker_indices 0 candidates = [] -> notified_order candidates []).
  { intros E. split; [constructor|]. split; [constructor|]. intros i. rewrite <- E. destruct (worker_indices_spec 0 candidates) as [_ Hi].
    rewrite Hi, Nat.add_0_l, Nat.sub_0_r. split; intros [? ?]; split; [lia|done|lia|done]. }
  assert (Hgen : (if negb (notify [] (event None) =? 0) then PSI_ERR_NOTIFY else PSI_OK, [event None], None) = (rc, sent, out) ->
    sent = [event None] /\ (rc = PSI_OK <-> notify [] (event None) = 0)).
  { intros [= <- <- <-]. split; [done|]. by destruct (Z.eqb_spec (notify [] (event None)) 0). }
  destruct (Z.eqb_spec (len candidates) 0) as [E0|_].
  { exists []. split; [apply Hnone; by destruct candidates|]. split; [intros _; by apply Hgen|done]. }
  rewrite andb_false_r in H. destruct (worker_indices 0 candidates) as [|first others] eqn:E.
  { exists []. split; [by apply Hnone|]. split; [intros _; by apply Hgen|done]. }
  exists (sort_indices (before_in candidates) [first] others). split; [by apply sorted_workers|].
  destruct (notify_loop _ _ _ []) as [st s] eqn:El. injection H as <- <- <-. apply notify_loop_spec in El. split; [|done].
  intros E'. pose proof (sorted_workers _ _ _ E) as (_ & _ & Hi). rewrite E' in Hi.
  destruct (worker_indices_spec 0 candidates) as [_ Hw]. rewrite E in Hw. destruct (proj1 (Hw first) ltac:(by left)) as [? Hf].
  rewrite Nat.sub_0_r in Hf. exfalso. apply (proj2 (Hi first)). split; [lia|done].
Qed.
End Evaluation.

(** ** The text of a pressure file *)

(** A field is the index of its name and the text of its value. *)
Definition render_field (f : nat * bytes) : bytes := nth (fst f) field_names [] ++ 61 :: snd f.

Fixpoint render (fields : list (nat * bytes)) : bytes :=
  match fields with
  | [] => []
  | f :: rest => match rest with [] => render_field f | _ :: _ => render_field f ++ 32 :: render rest end
  end.

(** Each value, read, goes to its place. *)
Fixpoint values_of (fields : list (nat * bytes)) (out : psi_values) : res psi_values :=
  match fields with
  | [] => Ok out
  | f :: fields => let! out := set_field (fst f) (snd f) out in values_of fields out
  end.

(** A line as the parser goes through it: the name, then the four fields in any order, each
    once, with single spaces. *)
Definition fields_line (name line : bytes) (v : psi_values) : Prop :=
  exists fields, line = name ++ 32 :: render fields /\ map fst fields ≡ₚ [0; 1; 2; 3]%nat /\ values_of fields zero_values = Ok v.

(** The octets of names and values. *)
Definition plain (c : Z) : Prop := c <> 32 /\ c <> 9 /\ c <> 13 /\ c <> 0 /\ c <> 10.

Lemma digit_plain c : isdigit c = true -> plain c.
Proof. unfold isdigit, plain. intros H. bool_hyps. lia. Qed.

Lemma decimal_plain i n seen v : decimal_chars i n seen v = true -> Forall plain v.
Proof.
  revert i seen. induction v as [|c v IH]; intros i seen; cbn [decimal_chars]; [constructor|].
  destruct (Z.eqb_spec c 46) as [->|]; [destruct (_ || _); [done|]; intros H; constructor; [by unfold plain|by eapply IH]|].
  destruct (isdigit c) eqn:E; cbn [negb]; [|done]. intros H. constructor; [by apply digit_plain|by eapply IH].
Qed.

Lemma total_plain n v r : total_loop n v = Ok r -> Forall plain v.
Proof.
  revert n. induction v as [|c v IH]; intros n; cbn [total_loop]; [constructor|].
  destruct (isdigit c) eqn:E; cbn [negb]; [|done]. split_if; [done|]. intros H. constructor; [by apply digit_plain|by eapply IH].
Qed.

Lemma double_field_plain v x : parse_double_field v = Ok x -> v <> [] /\ Forall plain v.
Proof.
  unfold parse_double_field. destruct ((len v =? 0) || _) eqn:E0; [done|]. destruct (decimal_chars _ _ _ _) eqn:E; [|done]. intros _.
  split; [by intros ->|by eapply decimal_plain].
Qed.

Lemma total_field_plain v x : parse_total_field v = Ok x -> v <> [] /\ Forall plain v.
Proof. unfold parse_total_field. destruct (len v =? 0) eqn:E; [done|]. intros H. split; [by intros ->|by eapply total_plain]. Qed.

Lemma set_field_plain i v out out' : set_field i v out = Ok out' -> v <> [] /\ Forall plain v.
Proof.
  destruct i as [|[|[|[|i]]]]; cbn [set_field]; intros (x & Hx & _)%rbind_ok_inv;
    solve [by apply double_field_plain in Hx | by apply total_field_plain in Hx].
Qed.

Lemma field_index_iff name i : field_index name 0 field_names = Some i <-> (i < 4)%nat /\ name = nth i field_names [].
Proof.
  unfold field_index, field_names. split.
  - repeat match goal with |- context [bytes_eqb name ?n] =>
      let E := fresh "E" in destruct (bytes_eqb name n) eqn:E; [apply bytes_eqb_eq in E as ->; intros [= <-]; split; [lia|done]|] end.
    done.
  - intros [Hi ->]. assert (i = 0 \/ i = 1 \/ i = 2 \/ i = 3)%nat as [-> |[-> |[-> | ->]]] by lia; reflexivity.
Qed.

Lemma name_plain i : (i < 4)%nat -> Forall (fun c => plain c /\ c <> 61) (nth i field_names []) /\ nth i field_names [] <> [].
Proof.
  intros Hi. assert (i = 0 \/ i = 1 \/ i = 2 \/ i = 3)%nat as [-> |[-> |[-> | ->]]] by lia; cbn [nth field_names]; (split; [|done]);
    apply List.Forall_forall; intros c Hc; repeat (destruct Hc as [<-|Hc]; [by unfold plain|]); destruct Hc.
Qed.

Lemma scan_token_inv line token rest :
  scan_token line = Some (token, rest) -> line = token ++ rest /\ (rest = [] \/ exists r, rest = 32 :: r).
Proof.
  revert token rest. induction line as [|c line IH]; intros token rest; cbn [scan_token].
  - intros [= <- <-]. by split; [|left].
  - destruct (Z.eqb_spec c 32) as [->|]; [intros [= <- <-]; split; [done|right; by eexists]|].
    destruct (_ || _); [done|]. destruct (scan_token line) as [[t r]|]; [|done]. intros [= <- <-].
    destruct (IH t r eq_refl) as [-> ?]. done.
Qed.

Lemma scan_token_plain token rest :
  Forall plain token -> (rest = [] \/ exists r, rest = 32 :: r) -> scan_token (token ++ rest) = Some (token, rest).
Proof.
  intros Ht Hr. induction Ht as [|c token (? & ? & ? & ? & _) _ IH]; cbn [app scan_token].
  - destruct Hr as [-> | [r ->]]; done.
  - rewrite (proj2 (Z.eqb_neq c 32)), (proj2 (Z.eqb_neq c 9)), (proj2 (Z.eqb_neq c 13)), (proj2 (Z.eqb_neq c 0)) by done.
    cbn [orb]. by rewrite IH.
Qed.

Lemma scan_name_inv token name value :
  scan_name token = (name, value) -> token = name ++ value /\ (value = [] \/ exists v, value = 61 :: v).
Proof.
  revert name value. induction token as [|c token IH]; intros name value; cbn [scan_name].
  - intros [= <- <-]. by split; [|left].
  - destruct (Z.eqb_spec c 61) as [->|]; [intros [= <- <-]; split; [done|right; by eexists]|].
    destruct (scan_name token) as [nm vl]. intros [= <- <-]. destruct (IH nm vl eq_refl) as [-> ?]. done.
Qed.

Lemma scan_name_plain name v : Forall (fun c => plain c /\ c <> 61) name -> scan_name (name ++ 61 :: v) = (name, 61 :: v).
Proof.
  induction 1 as [|c name [_ Hc] _ IH]; cbn [app scan_name]; [done|]. by rewrite (proj2 (Z.eqb_neq c 61)), IH.
Qed.

(** A field that is taken. *)
Lemma render_field_plain i v : (i < 4)%nat -> Forall plain v -> Forall plain (render_field (i, v)).
Proof.
  intros Hi Hv. unfold render_field. cbn [fst snd]. apply Forall_app. split.
  - eapply list.Forall_impl; [apply name_plain, Hi|]. by intros c [? _].
  - by constructor; [unfold plain|].
Qed.

Lemma existsb_eqb_In i seen : existsb (Nat.eqb i) seen = false <-> ~ In i seen.
Proof.
  rewrite <- not_true_iff_false, existsb_exists. split; intros H.
  - intros Hin. apply H. exists i. split; [done|apply Nat.eqb_refl].
  - intros (j & Hj & E%Nat.eqb_eq). subst j. done.
Qed.

(** One round of the loop on a field that is there. *)
Lemma line_loop_field fuel i v rest seen out :
  (i < 4)%nat -> Forall plain v -> v <> [] -> (rest = [] \/ exists r, rest = 32 :: r) ->
  line_loop (S fuel) (render_field (i, v) ++ rest) seen out =
    if existsb (Nat.eqb i) seen then (PSI_ERR_FORMAT, out, seen)
    else match set_field i v out with
         | Ok out => match rest with
                     | [] => (PSI_OK, out, i :: seen)
                     | [_] => (PSI_ERR_FORMAT, out, i :: seen)
                     | _ :: rest => line_loop fuel rest (i :: seen) out
                     end
         | Err status => (status, out, i :: seen)
         | Fault => (PSI_ERR_FORMAT, out, i :: seen)
         end.
Proof.
  intros Hi Hv Hne Hr. destruct (name_plain i Hi) as [Hname Hn0].
  pose proof (scan_token_plain (render_field (i, v)) rest (render_field_plain i v Hi Hv) Hr) as Ht.
  destruct (render_field (i, v) ++ rest) as [|c l] eqn:E.
  { unfold render_field in E. cbn [fst snd] in E. by destruct (nth i field_names []). }
  cbn [line_loop].
  assert (c <> 32) as Hc.
  { pose proof (render_field_plain i v Hi Hv) as Hp. unfold render_field in E, Hp. cbn [fst snd] in E, Hp.
    destruct (nth i field_names []) as [|c' n']; [done|]. injection E as -> _. apply list.Forall_cons in Hp as [[? _] _]. done. }
  rewrite (proj2 (Z.eqb_neq c 32) Hc), Ht. unfold render_field. cbn [fst snd]. rewrite scan_name_plain by done.
  assert ((len (nth i field_names []) =? 0) = false) as -> by (by destruct (nth i field_names [])).
  assert ((len (61 :: v) <? 2) = false) as ->.
  { rewrite len_cons. destruct v as [|x v]; [done|]. rewrite len_cons. pose proof (len_nonneg v). lia. }
  cbn [orb]. rewrite (proj2 (field_index_iff (nth i field_names []) i)) by done. cbn [drop skipn]. done.
Qed.

(** The fields the loop takes after those of [seen]. *)
Record taken (fields : list (nat * bytes)) (seen seen' : list nat) (out out' : psi_values) : Prop := {
  tk_known : Forall (fun f => (fst f < 4)%nat) fields;
  tk_nodup : NoDup (map fst fields);
  tk_fresh : Forall (fun f => ~ In (fst f) seen) fields;
  tk_values : values_of fields out = Ok out';
  tk_seen : seen' = rev (map fst fields) ++ seen;
}.

Lemma taken_one i v seen out out' :
  (i < 4)%nat -> ~ In i seen -> set_field i v out = Ok out' -> taken [(i, v)] seen (i :: seen) out out'.
Proof.
  intros Hi Hs Ho. constructor; try done; [by apply list.Forall_singleton|apply NoDup_singleton|by apply list.Forall_singleton|]. cbn. by rewrite Ho.
Qed.

Lemma taken_cons i v fields seen seen' out out1 out' :
  (i < 4)%nat -> ~ In i seen -> set_field i v out = Ok out1 -> taken fields (i :: seen) seen' out1 out' ->
  taken ((i, v) :: fields) seen seen' out out'.
Proof.
  intros Hi Hs Ho [Hk Hn Hf Hv ->]. constructor.
  - by constructor.
  - cbn [map fst]. constructor; [|done]. intros Hin%list_elem_of_In. apply in_map_iff in Hin as (f & <- & Hin).
    rewrite List.Forall_forall in Hf. apply (Hf f Hin). by left.
  - constructor; [done|]. eapply list.Forall_impl; [exact Hf|]. intros f Hnot Hin. apply Hnot. by right.
  - cbn [values_of fst snd]. by rewrite Ho.
  - cbn [map rev fst]. by rewrite <- app_assoc.
Qed.

(** A value that is refused is refused with an error. *)
Lemma set_field_status i v out : set_field i v out <> Err PSI_OK.
Proof.
  assert (Hd : forall v, parse_double_field v <> Err PSI_OK) by (intros; unfold parse_double_field; cbv zeta; repeat split_if; done).
  assert (Ht : forall v n, total_loop n v <> Err PSI_OK).
  { intros w. induction w as [|c w IH]; intros n; cbn [total_loop]; [done|]. split_if; [done|]. split_if; [done|]. apply IH. }
  assert (Hp : parse_total_field v <> Err PSI_OK) by (unfold parse_total_field; split_if; [done|apply Ht]).
  specialize (Hd v). destruct i as [|[|[|[|i]]]]; cbn [set_field];
    (destruct (parse_double_field v), (parse_total_field v); cbn [rbind]; congruence).
Qed.

Lemma line_loop_sound fuel line seen out out' seen' :
  (length line <= fuel)%nat -> line <> [] -> line_loop fuel line seen out = (PSI_OK, out', seen') ->
  exists fields, fields <> [] /\ line = render fields /\ taken fields seen seen' out out'.
Proof.
  revert line seen out. induction fuel as [|fuel IH]; intros line seen out Hl Hne; [by destruct line; cbn in Hl|].
  destruct line as [|c l]; [done|]. cbn [line_loop]. destruct (c =? 32); [done|].
  destruct (scan_token (c :: l)) as [[token rest]|] eqn:Et; [|done]. apply scan_token_inv in Et as [El Hrest].
  destruct (scan_name token) as [nm value] eqn:En. apply scan_name_inv in En as [-> Hvalue].
  destruct ((len nm =? 0) || (len value <? 2)) eqn:Eg; [done|].
  destruct Hvalue as [-> | [v ->]]; [by rewrite orb_true_r in Eg|]. change (drop 1 (61 :: v)) with v.
  destruct (field_index nm 0 field_names) as [i|] eqn:Ei; [|done]. apply field_index_iff in Ei as [Hi ->].
  destruct (existsb (Nat.eqb i) seen) eqn:Es; [done|]. apply existsb_eqb_In in Es.
  destruct (set_field i v out) as [out1|e|] eqn:Eo; [|intros H; exfalso; apply (set_field_status i v out); rewrite Eo; congruence|done].
  destruct Hrest as [-> | [r ->]].
  - intros [= <- <-]. exists [(i, v)]. rewrite app_nil_r in El. split; [done|]. split; [exact El|by apply taken_one].
  - destruct r as [|x r]; [done|]. intros Hloop.
    apply IH in Hloop as (fields & Hf & Er & Htk); [|rewrite El, !length_app in Hl; cbn in Hl; cbn; lia|done].
    exists ((i, v) :: fields). split; [done|]. split; [|by eapply taken_cons].
    rewrite El, Er. cbn [render]. by destruct fields.
Qed.

Lemma render_cons f fields : fields <> [] -> render (f :: fields) = render_field f ++ 32 :: render fields.
Proof. by destruct fields. Qed.

Lemma render_not_nil fields : fields <> [] -> Forall (fun f => (fst f < 4)%nat) fields -> render fields <> [].
Proof.
  intros Hf Hk. destruct fields as [|[i v] fields]; [done|]. apply list.Forall_cons in Hk as [Hi _].
  destruct (name_plain i Hi) as [_ Hn]. cbn [render]. unfold render_field. cbn [fst snd].
  by destruct (nth i field_names []), fields.
Qed.

Lemma line_loop_complete fuel fields seen seen' out out' :
  (length (render fields) <= fuel)%nat -> fields <> [] -> taken fields seen seen' out out' ->
  line_loop fuel (render fields) seen out = (PSI_OK, out', seen').
Proof.
  revert fields seen seen' out. induction fuel as [|fuel IH]; intros fields seen seen' out Hl Hf [Hk Hn Hfr Hv ->].
  { pose proof (render_not_nil fields Hf Hk). destruct (render fields); [done|cbn in Hl; lia]. }
  destruct fields as [|[i v] fields]; [done|]. apply list.Forall_cons in Hk as [Hi Hk], Hfr as [Hs Hfr].
  cbn [map fst] in Hn. apply list.NoDup_cons in Hn as [Hnot Hn]. cbn [values_of fst snd] in Hv.
  apply rbind_ok_inv in Hv as (out1 & Ho & Hv). destruct (set_field_plain i v out out1 Ho) as [Hvne Hvp].
  cbn [fst] in Hi, Hs. apply existsb_eqb_In in Hs.
  destruct (decide (fields = [])) as [->|Hne].
  - cbn [render]. rewrite <- (app_nil_r (render_field (i, v))), line_loop_field by (done || by left).
    rewrite Hs, Ho. cbn in Hv. by injection Hv as ->.
  - rewrite render_cons in * by done. rewrite line_loop_field by (done || (right; by eexists)). rewrite Hs, Ho.
    pose proof (render_not_nil fields Hne Hk) as Hrn. destruct (render fields) as [|x r] eqn:Er; [done|]. rewrite <- Er.
    cbn [map rev fst]. rewrite <- app_assoc. apply IH; [|done|].
    + rewrite Er. rewrite length_app in Hl. cbn in Hl. cbn. lia.
    + constructor; try done. rewrite list.Forall_forall in *. intros f Hin [E|Hs']; [|by apply (Hfr f Hin)].
      apply Hnot. rewrite E. apply list_elem_of_fmap. by exists f.
Qed.

Lemma drop_at n (l : bytes) : (n < length l)%nat -> drop n l = nth n l 0 :: drop (S n) l.
Proof. revert l. induction n as [|n IH]; intros [|x l] Hn; cbn in Hn; try lia; [done|]. cbn. apply IH. lia. Qed.

(** The four fields in any order are all of them. *)
Lemma all_fields l :
  NoDup l -> Forall (fun i => (i < 4)%nat) l -> forallb (fun i => existsb (Nat.eqb i) l) [0; 1; 2; 3]%nat = true <-> l ≡ₚ [0; 1; 2; 3]%nat.
Proof.
  intros Hn Hk. rewrite forallb_forall. split.
  - intros H. apply NoDup_Permutation; [done|by apply (bool_decide_unpack _)|]. intros i. rewrite !list_elem_of_In. split.
    + intros Hin%list_elem_of_In. rewrite list.Forall_forall in Hk. apply Hk in Hin. cbn. lia.
    + intros Hin. apply H, existsb_exists in Hin as (j & Hj & E%Nat.eqb_eq). by subst j.
  - intros Hp i Hin. apply existsb_exists. exists i. split; [|apply Nat.eqb_refl].
    apply list_elem_of_In. rewrite Hp. by apply list_elem_of_In.
Qed.

(** A line is taken exactly if it has the form of one. *)
Lemma parse_line_iff line nm v : parse_psi_line line nm = (PSI_OK, Some v) <-> fields_line nm line v.
Proof.
  unfold parse_psi_line, fields_line. pose proof (len_nonneg nm) as Hn0. split.
  - destruct ((len line <=? len nm) || _ || _) eqn:Eg; [done|]. apply orb_false_iff in Eg as [[El%Z.leb_gt Em]%orb_false_iff Es].
    apply negb_false_iff, bytes_eqb_eq in Em. apply negb_false_iff, Z.eqb_eq in Es.
    set (rest := drop (Z.to_nat (len nm + 1)) line).
    assert (Hline : line = nm ++ 32 :: rest).
    { rewrite (sub_0_split (len nm) line) at 1 by done. rewrite Em. f_equal. unfold rest.
      rewrite drop_at by (unfold len in *; lia). unfold at_ in Es. rewrite Es. do 2 f_equal. lia. }
    destruct (line_loop (length rest) rest [] zero_values) as [[st out] seen] eqn:Eloop.
    destruct (Z.eqb_spec st PSI_OK) as [->|]; cbn [negb]; [|intros [= -> _]; done].
    destruct (forallb _ _) eqn:Eall; [|done]. intros [= ->].
    destruct (decide (rest = [])) as [E|Hne]; [rewrite E in Eloop; cbn in Eloop; injection Eloop as _ <-; done|].
    apply line_loop_sound in Eloop as (fields & Hf & Er & [Hk Hn Hfr Hv ->]); [|done|done].
    exists fields. rewrite <- Er. split; [done|]. split; [|done]. rewrite app_nil_r in Eall.
    rewrite Permutation_rev. apply all_fields; [by rewrite <- Permutation_rev|rewrite <- Permutation_rev; by apply Forall_map|done].
  - intros (fields & -> & Hp & Hv).
    assert (Hf : fields <> []) by (intros ->; apply Permutation_nil_l in Hp; done).
    assert (Htk : taken fields [] (rev (map fst fields) ++ []) zero_values v).
    { constructor; try done.
      - apply (Forall_map fst (fun i => (i < 4)%nat)). rewrite Hp. repeat (constructor; [lia|]). constructor.
      - rewrite Hp. by apply (bool_decide_unpack _).
      - apply list.Forall_forall. intros f _ []. }
    rewrite len_app, len_cons. pose proof (len_nonneg (render fields)).
    assert ((len nm + (1 + len (render fields)) <=? len nm) = false) as -> by lia.
    rewrite sub_here, bytes_eqb_refl by done. cbn [negb orb].
    assert (at_ (nm ++ 32 :: render fields) (len nm) = 32) as ->.
    { unfold at_, len. rewrite Nat2Z.id, app_nth2, Nat.sub_diag by lia. done. }
    change (negb (32 =? 32)) with false. cbv iota.
    replace (drop (Z.to_nat (len nm + 1)) (nm ++ 32 :: render fields)) with (render fields).
    2: { unfold len. replace (Z.to_nat (Z.of_nat (length nm) + 1)) with (length nm + 1)%nat by lia.
         by rewrite drop_app_add. }
    rewrite (line_loop_complete _ fields [] _ _ v) by (done || exact Htk). change (negb (PSI_OK =? PSI_OK)) with false. cbv iota.
    rewrite app_nil_r.
    assert (Hn : NoDup (rev (map fst fields))) by (rewrite <- Permutation_rev; apply Htk).
    assert (Hk : Forall (fun i => (i < 4)%nat) (rev (map fst fields))) by (rewrite <- Permutation_rev; apply Forall_map, Htk).
    by rewrite (proj2 (all_fields (rev (map fst fields)) Hn Hk)) by (by rewrite <- Permutation_rev).
Qed.

(** ** The text of a pressure file, by itself *)

Definition digit (c : Z) : Prop := 48 <= c <= 57.

(** A string of digits as a number. *)
Definition decimal_value (digits : bytes) : Z := foldl (fun n c => n * 10 + (c - 48)) 0 digits.

(** [value] is a percentage, and [x] the double nearest to it: digits, then possibly a dot and
    more digits; fewer than 64 characters; between 0 and 100. *)
Definition percent_text (value : bytes) (x : double) : Prop :=
  exists whole fraction, Forall digit whole /\ Forall digit fraction /\ whole <> [] /\
    (value = whole /\ fraction = [] \/ value = whole ++ [46] ++ fraction /\ fraction <> []) /\
    len value < 64 /\ x = nearest (decimal_value (whole ++ fraction)) (10 ^ len fraction) /\
    finite x = true /\ SFltb x (S754_zero false) = false /\ SFltb (nearest 100 1) x = false.

(** [value] is the decimal number [n], in 64 bits. *)
Definition total_text (value : bytes) (n : Z) : Prop :=
  Forall digit value /\ value <> [] /\ n = decimal_value value /\ n <= UINT64_MAX.

(** Names and values, [name=value] with single spaces between them. *)
Fixpoint spaced (fields : list (bytes * bytes)) : bytes :=
  match fields with
  | [] => []
  | (name, value) :: rest =>
      name ++ [61] ++ value ++ match rest with [] => [] | _ :: _ => [32] ++ spaced rest end
  end.

(** A line: its name and the four fields in any order, each of which gives the value of its
    name. *)
Definition psi_line (name line : bytes) (v : psi_values) : Prop :=
  exists fields, line = name ++ [32] ++ spaced fields /\
    map fst fields ≡ₚ [lit "avg10"; lit "avg60"; lit "avg300"; lit "total"] /\
    (forall value, In (lit "avg10", value) fields -> percent_text value (avg10 v)) /\
    (forall value, In (lit "avg60", value) fields -> percent_text value (avg60 v)) /\
    (forall value, In (lit "avg300", value) fields -> percent_text value (avg300 v)) /\
    (forall value, In (lit "total", value) fields -> total_text value (total_us v)).

Lemma isdigit_iff c : isdigit c = true <-> digit c.
Proof. unfold isdigit, digit. rewrite andb_true_iff, !Z.leb_le. done. Qed.

Lemma decimal_after_dot i n v : decimal_chars i n true v = true <-> Forall digit v.
Proof.
  revert i. induction v as [|c v IH]; intros i; cbn [decimal_chars orb]; [done|].
  rewrite list.Forall_cons. destruct (Z.eqb_spec c 46) as [->|Hc]; [split; [done|intros [[? ?] _]; lia]|].
  rewrite <- isdigit_iff. destruct (isdigit c); cbn [negb]; [|split; [done|by intros []]]. rewrite IH. tauto.
Qed.

(** Digits, or digits around one dot. *)
Lemma decimal_chars_iff i v :
  0 <= i -> decimal_chars i (i + len v) false v = true <->
  Forall digit v \/ exists a b, v = a ++ 46 :: b /\ Forall digit a /\ Forall digit b /\ (i = 0 -> a <> []) /\ b <> [].
Proof.
  revert i. induction v as [|c v IH]; intros i Hi0; cbn [decimal_chars orb].
  { split; [by left|done]. }
  rewrite len_cons. destruct (Z.eqb_spec c 46) as [->|Hc].
  - pose proof (len_nonneg v). destruct (Z.eqb_spec i 0) as [->|Hi]; cbn [orb].
    + split; [done|]. intros [[[? ?] _]%list.Forall_cons|(a & b & E & Ha & _ & Hn & _)]; [lia|].
      destruct a as [|x a]; [by destruct (Hn eq_refl)|]. injection E as <- _. apply list.Forall_cons in Ha as [[? ?] _]. lia.
    + destruct (Z.eqb_spec (i + 1) (i + (1 + len v))) as [El|El].
      * split; [done|]. assert (v = []) as -> by (destruct v; [done|rewrite len_cons in *; pose proof (len_nonneg v); lia]).
        intros [[[? ?] _]%list.Forall_cons|(a & b & E & Ha & _ & _ & Hb)]; [lia|].
        destruct a as [|x a]; [by injection E as <-|]. injection E as <- _. apply list.Forall_cons in Ha as [[? ?] _]. lia.
      * rewrite decimal_after_dot. split.
        -- intros Hv. right. exists [], v. split; [done|]. split; [constructor|]. split; [done|]. split; [done|].
           intros ->. by rewrite len_nil in El.
        -- intros [[[? ?] _]%list.Forall_cons|(a & b & E & Ha & Hb & _)]; [lia|].
           destruct a as [|x a]; [by injection E as ->|]. injection E as <- _. apply list.Forall_cons in Ha as [[? ?] _]. lia.
  - destruct (isdigit c) eqn:Ed; cbn [negb].
    + apply isdigit_iff in Ed. replace (i + (1 + len v)) with (i + 1 + len v) by lia. rewrite IH, list.Forall_cons by lia. split.
      * intros [Hv|(a & b & -> & Ha & Hb & _ & Hne)]; [by left|right]. exists (c :: a), b. split; [done|]. split; [by constructor|]. by split.
      * intros [[_ Hv]|(a & b & E & Ha & Hb & Hn & Hne)]; [by left|right]. destruct a as [|x a]; [by injection E as ->|].
        injection E as -> ->. apply list.Forall_cons in Ha as [_ Ha]. exists a, b. split_and!; try done. lia.
    + apply not_true_iff_false in Ed. rewrite isdigit_iff in Ed. split; [done|].
      intros [[? _]%list.Forall_cons|(a & b & E & Ha & _)]; [done|]. destruct a as [|x a]; [by injection E as ->|].
      injection E as -> _. by apply list.Forall_cons in Ha as [? _].
Qed.

Lemma scan_decimal_digits n k behind v rest :
  Forall digit v ->
  scan_decimal n k behind (v ++ rest) =
  scan_decimal (foldl (fun n c => n * 10 + (c - 48)) n v) (if behind then k + len v else k) behind rest.
Proof.
  intros Hv. revert n k. induction Hv as [|c v [Hc1 Hc2] _ IH]; intros n k; cbn [app scan_decimal foldl].
  - rewrite len_nil, Z.add_0_r. by destruct behind.
  - rewrite (proj2 (Z.eqb_neq c 46)) by lia. rewrite IH, len_cons. destruct behind; [|done]. f_equal. lia.
Qed.

(** What the decimal reader makes of a number. *)
Lemma strtod_whole v : Forall digit v -> strtod v = nearest (decimal_value v) (10 ^ 0).
Proof.
  intros Hv. unfold strtod. rewrite <- (app_nil_r v) at 1. by rewrite (scan_decimal_digits 0 0 false v []).
Qed.

Lemma strtod_point a b :
  Forall digit a -> Forall digit b -> strtod (a ++ 46 :: b) = nearest (decimal_value (a ++ b)) (10 ^ len b).
Proof.
  intros Ha Hb. unfold strtod. rewrite scan_decimal_digits by done. cbn [scan_decimal].
  change (46 =? 46) with true. cbv iota. rewrite <- (app_nil_r b) at 1. rewrite (scan_decimal_digits _ 0 true b []) by done.
  cbn [scan_decimal]. unfold decimal_value. rewrite foldl_app. done.
Qed.

Lemma parse_double_iff value x : parse_double_field value = Ok x <-> percent_text value x.
Proof.
  unfold parse_double_field, percent_text. rewrite Z.geb_leb. pose proof (decimal_chars_iff 0 value ltac:(done)) as Hd.
  rewrite Z.add_0_l in Hd. split.
  - destruct ((len value =? 0) || (64 <=? len value)) eqn:El; [done|]. bool_hyps.
    destruct (decimal_chars 0 (len value) false value); [|done]. cbn [negb].
    destruct (negb (finite (strtod value)) || _ || _) eqn:Er; [done|]. intros [= <-].
    rewrite !orb_false_iff, negb_false_iff in Er. destruct Er as [[? ?] ?].
    destruct (proj1 Hd eq_refl) as [Hv|(a & b & -> & Ha & Hb & Hn & Hne)].
    + exists value, []. rewrite !app_nil_r, len_nil, <- (strtod_whole value Hv).
      split_and!; try done; [by intros ->|by left].
    + exists a, b. rewrite <- (strtod_point a b Ha Hb). split_and!; try done; [by apply Hn|by right].
  - intros (a & b & Ha & Hb & Hn & Hv & Hl & -> & Hf & H0 & H100).
    assert (Hs : strtod value = nearest (decimal_value (a ++ b)) (10 ^ len b)).
    { destruct Hv as [[-> ->]|[-> _]]; [rewrite app_nil_r; by apply strtod_whole|by apply strtod_point]. }
    assert (value <> []) by (destruct Hv as [[-> _]|[-> _]]; by destruct a).
    assert ((len value =? 0) = false) as -> by (destruct value; [done|rewrite len_cons; pose proof (len_nonneg value); lia]).
    rewrite (proj2 (Z.leb_gt 64 (len value))) by done. cbn [orb]. rewrite (proj2 Hd).
    + cbn [negb]. by rewrite Hs, Hf, H0, H100.
    + destruct Hv as [[-> ->]|[-> Hne]]; [by left|right]. by exists a, b.
Qed.

Lemma total_loop_iff value n r :
  0 <= n <= UINT64_MAX -> total_loop n value = Ok r <->
  Forall digit value /\ r = foldl (fun n c => n * 10 + (c - 48)) n value /\ r <= UINT64_MAX.
Proof.
  revert n. induction value as [|c value IH]; intros n Hn; cbn [total_loop foldl].
  { split; [intros [= <-]; split; [constructor|split; [done|lia]]|by intros (_ & -> & _)]. }
  rewrite list.Forall_cons, <- isdigit_iff. destruct (isdigit c) eqn:Ed; cbn [negb]; [|split; [done|by intros [[? _] _]]].
  apply isdigit_iff in Ed as [Hc1 Hc2]. rewrite Z.gtb_ltb.
  assert (Hgrow : forall v m, Forall digit v -> 0 <= m -> m <= foldl (fun n c => n * 10 + (c - 48)) m v).
  { induction v as [|y v IHv]; intros m Hv Hm; [done|]. apply list.Forall_cons in Hv as [[? ?] Hv]. cbn [foldl].
    etransitivity; [|apply IHv; [done|lia]]. lia. }
  destruct (Z.ltb_spec ((UINT64_MAX - (c - 48)) / 10) n) as [Hlt|Hge].
  - split; [done|]. intros ([_ Hv] & -> & Hmax). exfalso.
    pose proof (Hgrow value (n * 10 + (c - 48)) Hv ltac:(lia)).
    pose proof (Z.mul_succ_div_gt (UINT64_MAX - (c - 48)) 10 ltac:(lia)). lia.
  - pose proof (Z.mul_div_le (UINT64_MAX - (c - 48)) 10 ltac:(lia)). rewrite IH by lia. tauto.
Qed.

Lemma parse_total_iff value n : parse_total_field value = Ok n <-> total_text value n.
Proof.
  unfold parse_total_field, total_text. destruct value as [|c value]; [by split; [|intros (_ & ? & _)]|].
  assert ((len (c :: value) =? 0) = false) as -> by (rewrite len_cons; pose proof (len_nonneg value); lia).
  rewrite (total_loop_iff (c :: value) 0 n) by done. unfold decimal_value. split; [intros (? & ? & ?)|intros (? & _ & ? & ?)]; by split_and!.
Qed.

(** The value of field [i] is read from [value]. *)
Definition reads (i : nat) (value : bytes) (v : psi_values) : Prop :=
  match i with
  | 0%nat => percent_text value (avg10 v)
  | 1%nat => percent_text value (avg60 v)
  | 2%nat => percent_text value (avg300 v)
  | _ => total_text value (total_us v)
  end.

(** Field [i] is the same. *)
Definition agree (i : nat) (a b : psi_values) : Prop :=
  match i with
  | 0%nat => avg10 a = avg10 b
  | 1%nat => avg60 a = avg60 b
  | 2%nat => avg300 a = avg300 b
  | _ => total_us a = total_us b
  end.

Lemma agree_trans i a b c : agree i a b -> agree i b c -> agree i a c.
Proof. destruct i as [|[|[|i]]]; cbn; congruence. Qed.

Lemma agree_sym i a b : agree i a b -> agree i b a.
Proof. by destruct i as [|[|[|i]]]. Qed.

Lemma agree_reads i value a b : agree i a b -> reads i value a -> reads i value b.
Proof. destruct i as [|[|[|i]]]; cbn; by intros ->. Qed.

Lemma agree_eq a b : (forall i, (i < 4)%nat -> agree i a b) -> a = b.
Proof.
  intros H. pose proof (H 0%nat ltac:(lia)). pose proof (H 1%nat ltac:(lia)). pose proof (H 2%nat ltac:(lia)).
  pose proof (H 3%nat ltac:(lia)). destruct a, b. cbn in *. by subst.
Qed.

(** A value is put in its place, and nowhere else. *)
Lemma set_field_iff i value out out' :
  (i < 4)%nat -> set_field i value out = Ok out' <->
  reads i value out' /\ forall j, (j < 4)%nat -> j <> i -> agree j out out'.
Proof.
  intros Hi. assert (Hj : forall P : nat -> Prop, (forall j, (j < 4)%nat -> P j) <-> P 0%nat /\ P 1%nat /\ P 2%nat /\ P 3%nat).
  { intros P. split; [intros H; split_and!; apply H; lia|]. intros (? & ? & ? & ?) j Hlt.
    by assert (j = 0 \/ j = 1 \/ j = 2 \/ j = 3)%nat as [-> |[-> |[-> | ->]]] by lia. }
  rewrite (Hj (fun j => j <> i -> agree j out out')). clear Hj.
  assert (i = 0 \/ i = 1 \/ i = 2 \/ i = 3)%nat as [-> |[-> |[-> | ->]]] by lia; cbn [set_field reads agree];
    rewrite <- ?parse_double_iff, <- ?parse_total_iff; (split;
    [intros (x & -> & [= <-])%rbind_ok_inv; by cbn
    |destruct out, out'; cbn; intros (-> & H0 & H1 & H2 & H3); cbn [rbind];
     rewrite ?H0, ?H1, ?H2, ?H3 by done; done]).
Qed.

(** Fields with different names give their values independently. *)
Lemma values_of_iff fields out v :
  NoDup (map fst fields) -> Forall (fun f => (fst f < 4)%nat) fields ->
  values_of fields out = Ok v <->
  (forall i value, In (i, value) fields -> reads i value v) /\
  (forall j, (j < 4)%nat -> ~ In j (map fst fields) -> agree j out v).
Proof.
  revert out. induction fields as [|[i value] fields IH]; intros out Hn Hk; cbn [values_of map fst snd].
  { split.
    - intros [= ->]. split; [by intros ? ? []|]. by intros [|[|[|j]]].
    - intros [_ Ha]. f_equal. apply agree_eq. intros j Hj. apply Ha; [done|by intros []]. }
  cbn [map fst] in Hn. apply list.NoDup_cons in Hn as [Hnot Hn]. apply list.Forall_cons in Hk as [Hi Hk]. cbn [fst] in Hi.
  rewrite list_elem_of_In in Hnot. split.
  - intros (out1 & Ho & Hv)%rbind_ok_inv. apply set_field_iff in Ho as [Hr Ha]; [|done].
    apply IH in Hv as [Hv1 Hv2]; [|done..]. split.
    + intros j w [[= <- <-]|Hin]; [|by apply Hv1]. eapply agree_reads; [|exact Hr]. by apply Hv2.
    + intros j Hj Hnj. apply (agree_trans j _ out1).
      * apply Ha; [done|]. intros ->. apply Hnj. by left.
      * apply Hv2; [done|]. intros Hin. apply Hnj. by right.
  - intros [Hr Ha].
    assert (exists out1, (forall j, (j < 4)%nat -> agree j out1 (if Nat.eqb j i then v else out))) as (out1 & H1).
    { exists (mk_values (avg10 (if Nat.eqb 0 i then v else out)) (avg60 (if Nat.eqb 1 i then v else out))
        (avg300 (if Nat.eqb 2 i then v else out)) (total_us (if Nat.eqb 3 i then v else out))).
      intros j Hj. by assert (j = 0 \/ j = 1 \/ j = 2 \/ j = 3)%nat as [-> |[-> |[-> | ->]]] by lia. }
    assert (Hi1 : agree i out1 v) by (specialize (H1 i Hi); by rewrite Nat.eqb_refl in H1).
    assert (Ho1 : forall j, (j < 4)%nat -> j <> i -> agree j out1 out).
    { intros j Hj Hne. specialize (H1 j Hj). by rewrite (proj2 (Nat.eqb_neq j i) Hne) in H1. }
    assert (set_field i value out = Ok out1) as ->.
    { apply set_field_iff; [done|]. split.
      - eapply agree_reads; [by apply agree_sym|]. apply Hr. by left.
      - intros j Hj Hne. by apply agree_sym, Ho1. }
    cbn [rbind]. apply IH; [done..|]. split.
    + intros j w Hin. apply Hr. by right.
    + intros j Hj Hnj. destruct (decide (j = i)) as [->|Hne]; [done|].
      apply (agree_trans j _ out); [by apply Ho1|]. apply Ha; [done|]. intros [E|Hin]; [by apply Hne|done].
Qed.

(** The fields of a line by index, and by name. *)
Definition named (f : nat * bytes) : bytes * bytes := (nth (fst f) field_names [], snd f).

Lemma spaced_named fields : spaced (map named fields) = render fields.
Proof.
  induction fields as [|[i value] fields IH]; [done|]. cbn [map spaced named fst snd]. rewrite IH. cbn [render].
  unfold render_field. cbn [fst snd]. destruct fields; cbn [map]; [by rewrite app_nil_r|].
  rewrite <- app_assoc. done.
Qed.

Lemma name_of_index i j : (i < 4)%nat -> (j < 4)%nat -> nth i field_names [] = nth j field_names [] -> i = j.
Proof.
  intros Hi Hj E. assert (i = 0 \/ i = 1 \/ i = 2 \/ i = 3)%nat as [-> |[-> |[-> | ->]]] by lia;
    assert (j = 0 \/ j = 1 \/ j = 2 \/ j = 3)%nat as [-> |[-> |[-> | ->]]] by lia; done || (vm_compute in E; discriminate E).
Qed.

Lemma in_named i value fields :
  (i < 4)%nat -> Forall (fun f => (fst f < 4)%nat) fields ->
  In (nth i field_names [], value) (map named fields) <-> In (i, value) fields.
Proof.
  intros Hi Hk. rewrite in_map_iff. split.
  - intros ([j w] & [= E ->] & Hin). rewrite List.Forall_forall in Hk. specialize (Hk _ Hin). cbn [fst] in Hk.
    by rewrite (name_of_index i j Hi Hk) by done.
  - intros Hin. by exists (i, value).
Qed.

(** Every list of fields with the four names comes from one with their indices. *)
Lemma named_surjective fields :
  Forall (fun f => In (fst f) field_names) fields -> exists l, fields = map named l /\ Forall (fun f => (fst f < 4)%nat) l.
Proof.
  induction 1 as [|[n value] fields Hn _ (l & -> & Hl)]; [by exists []|]. cbn [fst] in Hn.
  apply (In_nth _ _ []) in Hn as (i & Hi & <-). exists ((i, value) :: l). split; [done|by constructor].
Qed.

Lemma indices_of_names l :
  Forall (fun i => (i < 4)%nat) l -> map (fun i => nth i field_names []) l ≡ₚ field_names <-> l ≡ₚ [0; 1; 2; 3]%nat.
Proof.
  intros Hk. split; [|by intros ->].
  intros Hp. assert (Hn : NoDup l).
  { assert (Hq : NoDup (map (fun i => nth i field_names []) l)) by (rewrite Hp; by apply (bool_decide_unpack _)).
    exact (NoDup_fmap_1 (fun i => nth i field_names []) l Hq). }
  apply NoDup_Permutation; [done|by apply (bool_decide_unpack _)|]. intros i. split.
  - intros Hi. rewrite list.Forall_forall in Hk. apply Hk in Hi.
    apply list_elem_of_In. cbn. lia.
  - intros Hi. assert (Hlt : (i < 4)%nat) by (apply list_elem_of_In in Hi; cbn in Hi; lia).
    assert (Hin : In (nth i field_names []) (map (fun i => nth i field_names []) l)).
    { rewrite Hp. by apply nth_In. }
    apply in_map_iff in Hin as (j & E & Hj). apply list_elem_of_In in Hj. rewrite list.Forall_forall in Hk.
    by rewrite <- (name_of_index j i (Hk j Hj) Hlt E).
Qed.

(** The parser's lines are those of the specification. *)
Lemma psi_line_iff nm line v : psi_line nm line v <-> fields_line nm line v.
Proof.
  assert (Hvals : forall l : list (nat * bytes), map fst l ≡ₚ [0; 1; 2; 3]%nat ->
    NoDup (map fst l) /\ Forall (fun f => (fst f < 4)%nat) l /\
    forall i, (i < 4)%nat -> In i (map fst l)).
  { intros l Hp. split; [rewrite Hp; by apply (bool_decide_unpack _)|]. split.
    - apply (Forall_map fst (fun i => (i < 4)%nat)). rewrite Hp. repeat (constructor; [lia|]). constructor.
    - intros i Hi. rewrite Hp. cbn. lia. }
  split.
  - intros (fields & -> & Hp & H0 & H1 & H2 & H3). change ([lit "avg10"; _; _; _]) with field_names in Hp.
    destruct (named_surjective fields) as (l & -> & Hl).
    { apply List.Forall_forall. intros f Hf. rewrite <- Hp. by apply in_map. }
    rewrite spaced_named. exists l. split; [done|]. rewrite map_map in Hp. cbn [named fst] in Hp.
    rewrite <- (map_map fst (fun i => nth i field_names [])) in Hp. apply indices_of_names in Hp; [|by apply Forall_map].
    split; [done|]. destruct (Hvals l Hp) as (Hn & Hk & Hall). apply values_of_iff; [done..|].
    split; [|intros j Hj Hnj; by destruct (Hnj (Hall j Hj))]. intros i value Hin.
    assert (Hi : (i < 4)%nat) by (rewrite List.Forall_forall in Hk; by apply (Hk (i, value))).
    apply (in_named i value l Hi Hk) in Hin.
    assert (i = 0 \/ i = 1 \/ i = 2 \/ i = 3)%nat as [-> |[-> |[-> | ->]]] by lia; cbn [reads]; auto.
  - intros (l & -> & Hp & Hv). destruct (Hvals l Hp) as (Hn & Hk & _). apply values_of_iff in Hv as [Hr _]; [|done..].
    exists (map named l). rewrite spaced_named. split; [done|]. split.
    + change ([lit "avg10"; _; _; _]) with field_names. rewrite map_map. cbn [named fst].
      rewrite <- (map_map fst (fun i => nth i field_names [])). apply indices_of_names; [by apply Forall_map|done].
    + split_and!; intros value Hin; [apply (Hr 0%nat)|apply (Hr 1%nat)|apply (Hr 2%nat)|apply (Hr 3%nat)];
        (eapply in_named; [|exact Hk|exact Hin]; lia).
Qed.

(** ** The whole file *)

Lemma scan_line_inv data line rest :
  scan_line data = (line, rest) -> data = line ++ rest /\ (rest = [] \/ exists r, rest = 10 :: r).
Proof.
  revert line rest. induction data as [|c data IH]; intros line rest; cbn [scan_line].
  - intros [= <- <-]. by split; [|left].
  - destruct (Z.eqb_spec c 10) as [->|]; [intros [= <- <-]; split; [done|right; by eexists]|].
    destruct (scan_line data) as [l r]. intros [= <- <-]. destruct (IH l r eq_refl) as [-> ?]. done.
Qed.

Lemma scan_line_plain line rest :
  Forall (fun c => c <> 10 /\ c <> 0) line -> (rest = [] \/ exists r, rest = 10 :: r) -> scan_line (line ++ rest) = (line, rest).
Proof.
  intros Hl Hr. induction Hl as [|c line [Hc _] _ IH]; cbn [app scan_line].
  - by destruct Hr as [-> | [r ->]].
  - by rewrite (proj2 (Z.eqb_neq c 10)), IH.
Qed.

Lemma render_plain fields out v :
  Forall (fun f => (fst f < 4)%nat) fields -> values_of fields out = Ok v -> Forall (fun c => c <> 10 /\ c <> 0) (render fields).
Proof.
  intros Hk. revert out. induction Hk as [|[i w] fields Hi Hk IH]; intros out; [constructor|].
  cbn [values_of fst snd]. intros (out1 & Ho & Hv)%rbind_ok_inv. apply set_field_plain in Ho as [_ Hw].
  assert (Hf : Forall (fun c => c <> 10 /\ c <> 0) (render_field (i, w))).
  { eapply list.Forall_impl; [by apply render_field_plain|]. unfold plain. cbn. lia. }
  specialize (IH out1 Hv). cbn [render]. destruct fields; [done|]. apply Forall_app. split; [done|]. by constructor.
Qed.

Lemma fields_line_plain nm line v :
  Forall (fun c => c <> 10 /\ c <> 0) nm -> fields_line nm line v -> Forall (fun c => c <> 10 /\ c <> 0) line /\ line <> [].
Proof.
  intros Hn (fields & -> & Hp & Hv). split; [|by destruct nm]. apply Forall_app. split; [done|]. constructor; [done|].
  apply (render_plain fields zero_values v); [|done].
  apply (Forall_map fst (fun i => (i < 4)%nat)). rewrite Hp. repeat (constructor; [lia|]). constructor.
Qed.

Lemma no_nul l : Forall (fun c => c <> 10 /\ c <> 0) l -> existsb (Z.eqb 0) l = false.
Proof. induction 1 as [|c l [_ Hc] _ IH]; cbn [existsb]; [done|]. by rewrite (proj2 (Z.eqb_neq 0 c)). Qed.

Lemma name_lit_plain : Forall (fun c => c <> 10 /\ c <> 0) (lit "some") /\ Forall (fun c => c <> 10 /\ c <> 0) (lit "full").
Proof. split; repeat (constructor; [done|]); constructor. Qed.

Lemma parse_memory_sound data s :
  alrios_psi_parse_memory (Some data) (len data) true = (PSI_OK, Some s) ->
  len data <= PSI_MAX_SOURCE_BYTES /\ exists first second ending,
    fields_line (lit "some") first (some s) /\ fields_line (lit "full") second (full s) /\
    data = first ++ 10 :: second ++ ending /\ (ending = [] \/ ending = [10]).
Proof.
  unfold alrios_psi_parse_memory. cbn [negb]. rewrite Z.gtb_ltb.
  destruct (Z.ltb_spec PSI_MAX_SOURCE_BYTES (len data)); [by rewrite orb_true_r|]. rewrite orb_false_r.
  destruct (len data =? 0); [done|]. rewrite sub_full. destruct (existsb _ data); [done|].
  destruct (scan_line data) as [first rest] eqn:E1. apply scan_line_inv in E1 as [-> Hr].
  destruct rest as [|c rest]; [done|]. destruct Hr as [|[r [= -> <-]]]; [done|].
  destruct (len first =? 0); [done|]. destruct (scan_line rest) as [second ending] eqn:E2. apply scan_line_inv in E2 as [-> Hr].
  destruct (len second =? 0); [done|]. destruct (Z.ltb_spec 1 (len ending)) as [|Hle]; [done|].
  destruct (parse_psi_line first (lit "some")) as [st1 v1] eqn:P1.
  destruct (Z.eqb_spec st1 PSI_OK) as [->|]; cbn [negb]; [|intros [= -> _]; done].
  destruct (parse_psi_line second (lit "full")) as [st2 v2] eqn:P2.
  destruct (Z.eqb_spec st2 PSI_OK) as [->|]; cbn [negb]; [|intros [= -> _]; done]. intros [= <-]. cbn [some full].
  assert (Hsome : forall line nm v, parse_psi_line line nm = (PSI_OK, v) -> exists w, v = Some w).
  { intros line nm v. unfold parse_psi_line. destruct (_ || _ || _); [done|]. destruct (line_loop _ _ _ _) as [[? ?] ?].
    destruct (negb _); [intros [= _ <-]; eauto|]. destruct (forallb _ _); intros [= <-]; eauto. }
  destruct (Hsome _ _ _ P1) as [w1 ->], (Hsome _ _ _ P2) as [w2 ->]. apply parse_line_iff in P1, P2.
  split; [done|]. exists first, second, ending. split; [done|]. split; [done|]. split; [done|].
  destruct Hr as [->|[r ->]]; [by left|right]. rewrite len_cons in Hle. pose proof (len_nonneg r). destruct r; [done|].
  rewrite len_cons in Hle. pose proof (len_nonneg r). lia.
Qed.

Lemma parse_memory_complete first second ending s :
  fields_line (lit "some") first (some s) -> fields_line (lit "full") second (full s) -> ending = [] \/ ending = [10] ->
  len (first ++ 10 :: second ++ ending) <= PSI_MAX_SOURCE_BYTES ->
  alrios_psi_parse_memory (Some (first ++ 10 :: second ++ ending)) (len (first ++ 10 :: second ++ ending)) true = (PSI_OK, Some s).
Proof.
  intros H1 H2 He Hl. destruct name_lit_plain as [Hn1 Hn2].
  destruct (fields_line_plain _ _ _ Hn1 H1) as [Hp1 Hne1], (fields_line_plain _ _ _ Hn2 H2) as [Hp2 Hne2].
  unfold alrios_psi_parse_memory. cbn [negb]. rewrite Z.gtb_ltb, (proj2 (Z.ltb_ge _ _) Hl), orb_false_r, sub_full.
  assert (Hz : forall l : bytes, l <> [] -> (len l =? 0) = false) by (intros [|x l]; [done|]; intros _; rewrite len_cons; pose proof (len_nonneg l); lia).
  rewrite (Hz (first ++ _)) by (by destruct first).
  rewrite existsb_app. cbn [existsb]. rewrite existsb_app, !no_nul by done.
  assert (existsb (Z.eqb 0) ending = false) as -> by (by destruct He as [-> | ->]). cbn [orb Z.eqb].
  rewrite scan_line_plain by (done || (right; by eexists)). rewrite (Hz first) by done.
  rewrite scan_line_plain by (done || (destruct He as [-> | ->]; [by left|right; by eexists])). rewrite (Hz second) by done.
  assert ((1 <? len ending) = false) as -> by (by destruct He as [-> | ->]).
  apply parse_line_iff in H1, H2. rewrite H1, H2. by destruct s.
Qed.

(** C39: the parser of the pressure file accepts exactly its texts: at most 4096 octets, a line
    [some] and a line [full], the last one with or without its newline, in each the fields
    [avg10], [avg60], [avg300] and [total] once, in any order, with single spaces. An average is
    a decimal of 0 to 100 and is read as the nearest double, a total is a decimal of 64 bits; the
    sample has the value of each name in the member of that name. *)
Theorem psi_parse_correct data s :
  alrios_psi_parse_memory (Some data) (len data) true = (PSI_OK, Some s) <->
  len data <= PSI_MAX_SOURCE_BYTES /\ exists first second ending,
    psi_line (lit "some") first (some s) /\ psi_line (lit "full") second (full s) /\
    data = first ++ 10 :: second ++ ending /\ (ending = [] \/ ending = [10]).
Proof.
  setoid_rewrite psi_line_iff. split; [apply parse_memory_sound|].
  intros (Hl & first & second & ending & H1 & H2 & -> & He). by apply parse_memory_complete.
Qed.

(** ** Witnesses *)

Definition sample_workers : list psi_candidate :=
  [mk_candidate (Some (lit "web")) 10 1 1 0 0; mk_candidate (Some (lit "/bin/ar_eventd")) 11 2 1 0 0;
   mk_candidate (Some (lit "batch")) 12 2 1 0 0; mk_candidate (Some (lit "index")) 13 2 1 1 0].

Definition pressure_of (percent : Z) : psi_sample :=
  mk_sample (mk_values (nearest percent 1) (nearest 1 2) (nearest 1 4) 7) zero_values.

Example psi_parse_sample :
  fst (alrios_psi_parse_memory (Some (lit "some avg10=85.50 avg60=0.25 avg300=100 total=12" ++ 10 ::
    lit "full total=18446744073709551615 avg10=0.00 avg60=0.00 avg300=0.00")) 116 true) = PSI_OK.
Proof. vm_compute. reflexivity. Qed.

Lemma shed_candidate_best_witness : candidate_is_eligible (at_index sample_workers 2) = true.
Proof. exact (proj1 (proj2 (proj2 (shed_candidate_best sample_workers ltac:(discriminate))))). Defined.

Lemma shedding_is_safe_witness :
  SFleb PSI_SHEDDING_PERCENT (nearest 95 1) = true.
Proof.
  refine (proj1 (shedding_is_safe (fun _ _ => 0) true (pressure_of 95) sample_workers true PSI_OK
    [mk_event NOTIFY_SHED PRESSURE_SHEDDING (nearest 95 1) (Some 2%nat)] (Some 2%nat)
    (mk_event NOTIFY_SHED PRESSURE_SHEDDING (nearest 95 1) (Some 2%nat)) _ _ _)).
  - vm_compute. reflexivity.
  - now left.
  - reflexivity.
Defined.

Lemma warnings_in_order_witness :
  exists order, notified_order sample_workers order.
Proof.
  destruct (warnings_in_order (fun _ _ => 0) (pressure_of 85) sample_workers true PSI_OK
    [mk_event NOTIFY_WARNING PRESSURE_WARNING (nearest 85 1) (Some 2%nat);
     mk_event NOTIFY_WARNING PRESSURE_WARNING (nearest 85 1) (Some 3%nat);
     mk_event NOTIFY_WARNING PRESSURE_WARNING (nearest 85 1) (Some 0%nat)] (Some 2%nat)) as (order & Ho & _).
  - vm_compute. reflexivity.
  - vm_compute. reflexivity.
  - exists order. exact Ho.
Defined.
