(* ===== verification/AppManifest.v ===== *)
(** The manifests of version 1 packages (libraries/manifest/arapp_parser.c): the parser of the
    text [ar_manifest_parse], the lookup of a platform's entry, and the name of the platform.

    A pointer into the text is the list of the octets that are left before the NUL, so [*p] is
    the head and [p++] the tail. A character array is the C string it holds, an array with a
    counter the list of the elements that count. The loops of the parser run on fuel; a result
    [Running] is a parser that has not come to an end, [Bad] an access outside an object (the
    text behind the last element of an array, or a null pointer). *)

From S2P Require Import Prelude.

(** ** Data *)

Definition AR_APP_NAME_MAX : Z := 64.

Definition AR_APP_VERSION_MAX : Z := 16.

Definition AR_RUNTIME_MAX : Z := 32.

Definition AR_ENTRY_MAX : Z := 256.

Definition AR_SERVICE_NAME_MAX : Z := 64.

Definition AR_APP_MAX_SERVICES : Z := 16.

Definition AR_MAX_FILES : Z := 64.

Definition AR_FILE_PATH_MAX : Z := 256.

Definition AR_MAX_REQUIRES : Z := 8.

Definition AR_REQUIRE_MAX : Z := 64.

Definition AR_PLATFORM_RAW_MAX : Z := 1024.

Definition AR_BUILD_MAX_STEPS : Z := 32.

Definition AR_BUILD_STEP_CMD_MAX : Z := 8192.

Definition AR_BUILD_STEP_CWD_MAX : Z := 1024.

Definition AR_BUILD_STEP_NAME_MAX : Z := 128.

Definition AR_BUILD_STAGING_MAX : Z := 2048.

Definition AR_BUILD_CLEANUP_MAX : Z := 32.

Definition AR_BUILD_CLEANUP_PATH : Z := 1024.

(** [sizeof(out->build.command)] and the buffers of the keys. *)
Definition COMMAND_MAX : Z := 512.

Definition KEY_MAX : Z := 64.

Inductive ar_runtime_t :=
  | AR_RUNTIME_NATIVE
  | AR_RUNTIME_PYTHON3
  | AR_RUNTIME_NODE
  | AR_RUNTIME_JAVA
  | AR_RUNTIME_LUA
  | AR_RUNTIME_RUBY
  | AR_RUNTIME_GO
  | AR_RUNTIME_UNKNOWN.

Record ar_service_def := mk_service {
  svc_name : bytes;
  svc_entry : bytes;
}.

Record ar_build_step := mk_step {
  step_name : bytes;
  step_cmd : bytes;
  step_cwd : bytes;
}.

(** [slot] is the element behind the steps that count, which the next step is written to. *)
Record ar_build_config := mk_build {
  steps : list ar_build_step;
  slot : ar_build_step;
  cleanup : list bytes;
  staging : bytes;
  command : bytes;
}.

Record ar_app_manifest := mk_app {
  app_name : bytes;
  version : bytes;
  bin : bytes;
  runtime : ar_runtime_t;
  entry : bytes;
  services : list ar_service_def;
  files : list bytes;
  files_windows : list bytes;
  files_linux : list bytes;
  is_runtime : Z;
  requires : list bytes;
  platforms_raw : bytes;
  build : ar_build_config;
}.

Definition set_svc_name (x : bytes) (s : ar_service_def) := mk_service x (svc_entry s).

Definition set_svc_entry (x : bytes) (s : ar_service_def) := mk_service (svc_name s) x.

Definition set_step_name (x : bytes) (s : ar_build_step) := mk_step x (step_cmd s) (step_cwd s).

Definition set_step_cmd (x : bytes) (s : ar_build_step) := mk_step (step_name s) x (step_cwd s).

Definition set_step_cwd (x : bytes) (s : ar_build_step) := mk_step (step_name s) (step_cmd s) x.

Definition set_steps (x : list ar_build_step) (b : ar_build_config) := mk_build x (slot b) (cleanup b) (staging b) (command b).

Definition set_slot (x : ar_build_step) (b : ar_build_config) := mk_build (steps b) x (cleanup b) (staging b) (command b).

Definition set_cleanup (x : list bytes) (b : ar_build_config) := mk_build (steps b) (slot b) x (staging b) (command b).

Definition set_staging (x : bytes) (b : ar_build_config) := mk_build (steps b) (slot b) (cleanup b) x (command b).

Definition set_command (x : bytes) (b : ar_build_config) := mk_build (steps b) (slot b) (cleanup b) (staging b) x.

Definition set_app_name (x : bytes) (m : ar_app_manifest) := mk_app x (version m) (bin m) (runtime m) (entry m) (services m) (files m) (files_windows m) (files_linux m) (is_runtime m) (requires m) (platforms_raw m) (build m).

Definition set_version (x : bytes) (m : ar_app_manifest) := mk_app (app_name m) x (bin m) (runtime m) (entry m) (services m) (files m) (files_windows m) (files_linux m) (is_runtime m) (requires m) (platforms_raw m) (build m).

Definition set_bin (x : bytes) (m : ar_app_manifest) := mk_app (app_name m) (version m) x (runtime m) (entry m) (services m) (files m) (files_windows m) (files_linux m) (is_runtime m) (requires m) (platforms_raw m) (build m).

Definition set_runtime (x : ar_runtime_t) (m : ar_app_manifest) := mk_app (app_name m) (version m) (bin m) x (entry m) (services m) (files m) (files_windows m) (files_linux m) (is_runtime m) (requires m) (platforms_raw m) (build m).

Definition set_entry (x : bytes) (m : ar_app_manifest) := mk_app (app_name m) (version m) (bin m) (runtime m) x (services m) (files m) (files_windows m) (files_linux m) (is_runtime m) (requires m) (platforms_raw m) (build m).

Definition set_services (x : list ar_service_def) (m : ar_app_manifest) := mk_app (app_name m) (version m) (bin m) (runtime m) (entry m) x (files m) (files_windows m) (files_linux m) (is_runtime m) (requires m) (platforms_raw m) (build m).

Definition set_files (x : list bytes) (m : ar_app_manifest) := mk_app (app_name m) (version m) (bin m) (runtime m) (entry m) (services m) x (files_windows m) (files_linux m) (is_runtime m) (requires m) (platforms_raw m) (build m).

Definition set_files_windows (x : list bytes) (m : ar_app_manifest) := mk_app (app_name m) (version m) (bin m) (runtime m) (entry m) (services m) (files m) x (files_linux m) (is_runtime m) (requires m) (platforms_raw m) (build m).

Definition set_files_linux (x : list bytes) (m : ar_app_manifest) := mk_app (app_name m) (version m) (bin m) (runtime m) (entry m) (services m) (files m) (files_windows m) x (is_runtime m) (requires m) (platforms_raw m) (build m).

Definition set_is_runtime (x : Z) (m : ar_app_manifest) := mk_app (app_name m) (version m) (bin m) (runtime m) (entry m) (services m) (files m) (files_windows m) (files_linux m) x (requires m) (platforms_raw m) (build m).

Definition set_requires (x : list bytes) (m : ar_app_manifest) := mk_app (app_name m) (version m) (bin m) (runtime m) (entry m) (services m) (files m) (files_windows m) (files_linux m) (is_runtime m) x (platforms_raw m) (build m).

Definition set_platforms_raw (x : bytes) (m : ar_app_manifest) := mk_app (app_name m) (version m) (bin m) (runtime m) (entry m) (services m) (files m) (files_windows m) (files_linux m) (is_runtime m) (requires m) x (build m).

Definition set_build (x : ar_build_config) (m : ar_app_manifest) := mk_app (app_name m) (version m) (bin m) (runtime m) (entry m) (services m) (files m) (files_windows m) (files_linux m) (is_runtime m) (requires m) (platforms_raw m) x.

Definition no_step : ar_build_step := mk_step [] [] [].

(** [memset(out, 0, sizeof( *out))], then the runtime. *)
Definition no_manifest : ar_app_manifest :=
  mk_app [] [] [] AR_RUNTIME_UNKNOWN [] [] [] [] [] 0 [] [] (mk_build [] no_step [] [] []).

(** ** Control *)

Inductive outcome (A : Type) : Type :=
  | Value (a : A)
  | Failed
  | Bad
  | Running.
Arguments Value {A} _.
Arguments Failed {A}.
Arguments Bad {A}.
Arguments Running {A}.

Definition obind {A B} (m : outcome A) (k : A -> outcome B) : outcome B :=
  match m with
  | Value a => k a
  | Failed => Failed
  | Bad => Bad
  | Running => Running
  end.

Notation "'do' x <- m ; k" := (obind m (fun x => k))
  (at level 10, x pattern, m at level 100, k at level 200).

(** [if (!p) return -1;] *)
Definition checked {A} (m : outcome (option A)) : outcome A :=
  do p <- m; match p with Some p => Value p | None => Failed end.

Inductive turn (A : Type) : Type :=
  | Again (a : A)
  | Leave (a : A).
Arguments Again {A} _.
Arguments Leave {A} _.

(** A loop whose body says whether it goes on. *)
Fixpoint loop {A} (fuel : nat) (body : A -> outcome (turn A)) (s : A) : outcome A :=
  match fuel with
  | O => Running
  | S fuel => do t <- body s; match t with Again s => loop fuel body s | Leave s => Value s end
  end.

(** [*p == c] *)
Definition starts (c : Z) (p : bytes) : bool := match p with x :: _ => x =? c | [] => false end.

Definition i32 (z : Z) : Z := (z + 2 ^ 31) mod 2 ^ 32 - 2 ^ 31.

(** ** Words of the text *)

Definition is_ws (c : Z) : bool := (c =? 32) || (c =? 9) || (c =? 10) || (c =? 13).

Fixpoint skip_ws (p : bytes) : bytes :=
  match p with
  | c :: q => if is_ws c then skip_ws q else p
  | [] => []
  end.

(** The loop over a string's octets: up to the closing quote or the end, or the [return NULL]
    for a backslash at the end. *)
Fixpoint scan_string (p : bytes) : option bytes :=
  match p with
  | [] => Some []
  | c :: q =>
      if c =? 34 then Some p
      else if c =? 92 then match q with [] => None | _ :: q => scan_string q end
      else scan_string q
  end.

(** [memcpy(out, start, len); out[len] = 0] of the [n] octets from [start] on, cut to [max]. *)
Definition copy_out (start : bytes) (n max : Z) : outcome bytes :=
  let n := i32 n in
  let n := if n >=? max then max - 1 else n in
  if n <? 0 then Bad else Value (sub 0 n start).

Definition parse_string (p : bytes) (max : Z) : outcome (option (bytes * bytes)) :=
  match skip_ws p with
  | [] => Value None
  | c :: start =>
      if negb (c =? 34) then Value None
      else match scan_string start with
           | Some (q :: rest) => do out <- copy_out start (len start - len (q :: rest)) max; Value (Some (out, rest))
           | Some [] | None => Value None
           end
  end.

(** Up to a comma, a closing bracket or the end of the line. *)
Fixpoint skip_plain (p : bytes) : bytes :=
  match p with
  | c :: q => if (c =? 44) || (c =? 125) || (c =? 93) || (c =? 10) then p else skip_plain q
  | [] => []
  end.

(** Past the quote, if there is one. *)
Definition skip_quote (p : bytes) : bytes := if starts 34 p then tail p else p.

(** One turn of a loop over nested brackets; the pointer is null after the [return] for a
    backslash at the end. *)
Definition nest_body (opens closes : Z -> bool) (s : option bytes * Z) : outcome (turn (option bytes * Z)) :=
  let (p, depth) := s in
  Value
    match p with
    | None | Some [] => Leave s
    | Some (c :: q) =>
        if negb (depth >? 0) then Leave s
        else if c =? 34 then
          match scan_string q with
          | None => Leave (None, depth)
          | Some q => Again (Some (skip_quote q), depth)
          end
        else
          let depth := if opens c then depth + 1 else if closes c then depth - 1 else depth in
          if depth >? 0 then Again (Some q, depth) else Again (Some (c :: q), depth)
    end.

Definition any_open (c : Z) : bool := (c =? 123) || (c =? 91).

Definition any_close (c : Z) : bool := (c =? 125) || (c =? 93).

Section Parser.
Variable fuel : nat.

(** From behind the first bracket to the last one, or null. *)
Definition skip_nested (opens closes : Z -> bool) (p : bytes) : outcome (option bytes) :=
  do (p, depth) <- loop fuel (nest_body opens closes) (Some p, 1);
  Value match p with
        | None => None
        | Some p => if depth >? 0 then None else Some p
        end.

Definition skip_value (p : bytes) : outcome (option bytes) :=
  match skip_ws p with
  | [] => Value None
  | c :: q =>
      if c =? 34 then
        Value match scan_string q with None => None | Some q => Some (skip_quote q) end
      else if any_open c then
        do p <- skip_nested any_open any_close q;
        Value match p with Some p => Some (tail p) | None => None end
      else Value (Some (skip_plain (c :: q)))
  end.

Definition parse_bool (p : bytes) (out : Z) : bytes * Z :=
  let p := skip_ws p in
  if starts 116 p || starts 84 p then (skip_plain p, 1)
  else if starts 102 p || starts 70 p then (skip_plain p, 0)
  else if starts 49 p then (tail p, 1)
  else if starts 48 p then (tail p, 0)
  else (p, out).

Definition parse_runtime (buf : bytes) (old : ar_runtime_t) : ar_runtime_t :=
  if bytes_eqb buf (lit "native") then AR_RUNTIME_NATIVE
  else if bytes_eqb buf (lit "python3") then AR_RUNTIME_PYTHON3
  else if bytes_eqb buf (lit "node") then AR_RUNTIME_NODE
  else if bytes_eqb buf (lit "java") then AR_RUNTIME_JAVA
  else if bytes_eqb buf (lit "lua") then AR_RUNTIME_LUA
  else if bytes_eqb buf (lit "ruby") then AR_RUNTIME_RUBY
  else if bytes_eqb buf (lit "go") then AR_RUNTIME_GO
  else old.

(** ** Arrays *)

(** One turn of the loops over [requires], [files], [files_windows] and [files_linux]. The
    string is written to the element behind the last that counts; an empty one does not count. *)
Definition list_body (cap size : Z) (s : bytes * list bytes) : outcome (turn (bytes * list bytes)) :=
  let (p, items) := s in
  match p with
  | [] => Value (Leave s)
  | _ =>
      let p := skip_ws p in
      if starts 93 p then Value (Leave (tail p, items))
      else if starts 44 p then Value (Again (tail p, items))
      else
        do (item, p) <- checked (parse_string p size);
        if len items >=? cap then Bad
        else
          let items := match item with [] => items | _ => items ++ [item] end in
          Value (if len items >=? cap then Leave (p, items) else Again (p, items))
  end.

Definition parse_list (cap size : Z) (items : list bytes) (p : bytes) : outcome (bytes * list bytes) :=
  let p := skip_ws p in
  if negb (starts 91 p) then Failed else loop fuel (list_body cap size) (tail p, items).

(** A turn of a loop over the members of an object: [value] reads what follows the colon. *)
Definition member_body {A} (value : bytes -> bytes -> A -> outcome (bytes * A)) (s : bytes * A) : outcome (turn (bytes * A)) :=
  let (p, a) := s in
  match p with
  | [] => Value (Leave s)
  | _ =>
      let p := skip_ws p in
      if starts 125 p then Value (Leave (tail p, a))
      else if starts 44 p then Value (Again (tail p, a))
      else
        do (key, p) <- checked (parse_string p KEY_MAX);
        let p := skip_ws p in
        if negb (starts 58 p) then Failed
        else do s <- value key (tail p) a; Value (Again s)
  end.

(** A string member, and one that is passed over. *)
Definition string_value {A} (max : Z) (set : bytes -> A -> A) (p : bytes) (a : A) : outcome (bytes * A) :=
  do (s, p) <- checked (parse_string p max); Value (p, set s a).

Definition other_value {A} (p : bytes) (a : A) : outcome (bytes * A) :=
  do p <- checked (skip_value p); Value (p, a).

Definition service_value (key p : bytes) (svc : ar_service_def) : outcome (bytes * ar_service_def) :=
  if bytes_eqb key (lit "name") then string_value AR_SERVICE_NAME_MAX set_svc_name p svc
  else if bytes_eqb key (lit "entry") then string_value AR_ENTRY_MAX set_svc_entry p svc
  else other_value p svc.

Definition services_body (s : bytes * list ar_service_def) : outcome (turn (bytes * list ar_service_def)) :=
  let (p, svcs) := s in
  match p with
  | [] => Value (Leave s)
  | _ =>
      let p := skip_ws p in
      if starts 93 p then Value (Leave (tail p, svcs))
      else if starts 44 p then Value (Again (tail p, svcs))
      else if negb (starts 123 p) then Failed
      else if len svcs >=? AR_APP_MAX_SERVICES then Bad
      else
        do (p, svc) <- loop fuel (member_body service_value) (tail p, mk_service [] []);
        let svcs := match svc_name svc with [] => svcs | _ => svcs ++ [svc] end in
        Value (if len svcs >=? AR_APP_MAX_SERVICES then Leave (p, svcs) else Again (p, svcs))
  end.

Definition parse_services (p : bytes) (svcs : list ar_service_def) : outcome (bytes * list ar_service_def) :=
  let p := skip_ws p in
  if negb (starts 91 p) then Failed else loop fuel services_body (tail p, svcs).

(** ** The member build *)

Definition cleanup_body (s : bytes * ar_build_config) : outcome (turn (bytes * ar_build_config)) :=
  let (p, b) := s in
  match p with
  | [] => Value (Leave s)
  | _ =>
      if negb (len (cleanup b) <? AR_BUILD_CLEANUP_MAX) then Value (Leave s)
      else
        let p := skip_ws p in
        if starts 93 p then Value (Leave (tail p, b))
        else if starts 44 p then Value (Again (tail p, b))
        else
          do (item, p) <- checked (parse_string p AR_BUILD_CLEANUP_PATH);
          Value (Again (p, set_cleanup (cleanup b ++ [item]) b))
  end.

Definition step_value (key p : bytes) (step : ar_build_step) : outcome (bytes * ar_build_step) :=
  if bytes_eqb key (lit "name") then string_value AR_BUILD_STEP_NAME_MAX set_step_name p step
  else if bytes_eqb key (lit "cmd") then string_value AR_BUILD_STEP_CMD_MAX set_step_cmd p step
  else if bytes_eqb key (lit "cwd") then string_value AR_BUILD_STEP_CWD_MAX set_step_cwd p step
  else other_value p step.

(** [if (step->cmd[0]) out->build.step_count++;] *)
Definition count_step (step : ar_build_step) (b : ar_build_config) : ar_build_config :=
  match step_cmd step with
  | [] => set_slot step b
  | _ => set_slot no_step (set_steps (steps b ++ [step]) b)
  end.

(** A value that is not an object is passed over, and the pointer is looked at again without a
    test for null. *)
Definition steps_body (s : bytes * ar_build_config) : outcome (turn (bytes * ar_build_config)) :=
  let (p, b) := s in
  match p with
  | [] => Value (Leave s)
  | _ =>
      if negb (len (steps b) <? AR_BUILD_MAX_STEPS) then Value (Leave s)
      else
        let p := skip_ws p in
        if starts 93 p then Value (Leave (tail p, b))
        else if starts 44 p then Value (Again (tail p, b))
        else if negb (starts 123 p) then
          do p <- skip_value p; match p with Some p => Value (Again (p, b)) | None => Bad end
        else
          do (p, step) <- loop fuel (member_body step_value) (tail p, slot b);
          Value (Again (p, count_step step b))
  end.

Definition build_value (key p : bytes) (b : ar_build_config) : outcome (bytes * ar_build_config) :=
  let p := skip_ws p in
  if bytes_eqb key (lit "command") then string_value COMMAND_MAX set_command p b
  else if bytes_eqb key (lit "staging") then string_value AR_BUILD_STAGING_MAX set_staging p b
  else if bytes_eqb key (lit "cleanup") then
    if starts 91 p then loop fuel cleanup_body (tail p, b) else other_value p b
  else if bytes_eqb key (lit "steps") then
    if starts 91 p then loop fuel steps_body (tail p, b) else other_value p b
  else other_value p b.

Definition parse_build (p : bytes) (b : ar_build_config) : outcome (bytes * ar_build_config) :=
  let p := skip_ws p in
  if starts 123 p then loop fuel (member_body build_value) (tail p, b) else other_value p b.

(** ** The manifest *)

Definition brace_open (c : Z) : bool := c =? 123.

Definition brace_close (c : Z) : bool := c =? 125.

(** The object [platforms] is kept as it is written. *)
Definition parse_platforms (p : bytes) (m : ar_app_manifest) : outcome (bytes * ar_app_manifest) :=
  let start := skip_ws p in
  if starts 123 start then
    do p <- checked (skip_nested brace_open brace_close (tail start));
    match p with
    | [] => Failed
    | _ :: p => do raw <- copy_out start (len start - len p) AR_PLATFORM_RAW_MAX; Value (p, set_platforms_raw raw m)
    end
  else other_value start m.

Definition with_list (cap size : Z) (get : ar_app_manifest -> list bytes)
    (set : list bytes -> ar_app_manifest -> ar_app_manifest) (p : bytes) (m : ar_app_manifest) :
    outcome (bytes * ar_app_manifest) :=
  do (p, items) <- parse_list cap size (get m) p; Value (p, set items m).

Definition manifest_value (key p : bytes) (m : ar_app_manifest) : outcome (bytes * ar_app_manifest) :=
  if bytes_eqb key (lit "name") then string_value AR_APP_NAME_MAX set_app_name p m
  else if bytes_eqb key (lit "version") then string_value AR_APP_VERSION_MAX set_version p m
  else if bytes_eqb key (lit "runtime") then
    string_value AR_RUNTIME_MAX (fun buf m => set_runtime (parse_runtime buf (runtime m)) m) p m
  else if bytes_eqb key (lit "entry") then string_value AR_ENTRY_MAX set_entry p m
  else if bytes_eqb key (lit "bin") then string_value AR_FILE_PATH_MAX set_bin p m
  else if bytes_eqb key (lit "is_runtime") then
    let (p, flag) := parse_bool p (is_runtime m) in Value (p, set_is_runtime flag m)
  else if bytes_eqb key (lit "requires") then with_list AR_MAX_REQUIRES AR_REQUIRE_MAX requires set_requires p m
  else if bytes_eqb key (lit "platforms") then parse_platforms p m
  else if bytes_eqb key (lit "files") then with_list AR_MAX_FILES AR_FILE_PATH_MAX files set_files p m
  else if bytes_eqb key (lit "files_windows") then with_list AR_MAX_FILES AR_FILE_PATH_MAX files_windows set_files_windows p m
  else if bytes_eqb key (lit "files_linux") then with_list AR_MAX_FILES AR_FILE_PATH_MAX files_linux set_files_linux p m
  else if bytes_eqb key (lit "services") then
    do (p, svcs) <- parse_services p (services m); Value (p, set_services svcs m)
  else if bytes_eqb key (lit "build") then
    do (p, b) <- parse_build p (build m); Value (p, set_build b m)
  else other_value p m.

(** [*out] when 0 is returned. *)
Definition ar_manifest_parse (json : option bytes) : outcome ar_app_manifest :=
  match json with
  | None => Failed
  | Some json =>
      let p := skip_ws (cstr json) in
      if negb (starts 123 p) then Failed
      else do (_, m) <- loop fuel (member_body manifest_value) (tail p, no_manifest); Value m
  end.

(** ** The entry of a platform *)

Definition entry_value (key p : bytes) (entry_val : bytes) : outcome (bytes * bytes) :=
  if bytes_eqb key (lit "entry") then string_value AR_ENTRY_MAX (fun s _ => s) p entry_val
  else other_value p entry_val.

(** A turn of the loop over the platforms, which returns with the first entry that is found. *)
Definition platform_body (platform : bytes) (s : bytes * option bytes) : outcome (turn (bytes * option bytes)) :=
  let (p, _) := s in
  match p with
  | [] => Value (Leave s)
  | _ =>
      let p := skip_ws p in
      if starts 125 p then Value (Leave (p, None))
      else if starts 44 p then Value (Again (tail p, None))
      else
        do (key, p) <- checked (parse_string p KEY_MAX);
        let p := skip_ws p in
        if negb (starts 58 p) then Failed
        else
          let p := skip_ws (tail p) in
          if starts 123 p then
            do (p, entry_val) <- loop fuel (member_body entry_value) (tail p, []);
            if bytes_eqb key platform && negb (bytes_eqb entry_val []) then Value (Leave (p, Some entry_val))
            else Value (Again (p, None))
          else do p <- checked (skip_value p); Value (Again (p, None))
  end.

(** [snprintf] of a string into [max] octets. *)
Definition snprintf_s (max : Z) (s : bytes) : bytes := sub 0 (u64 max - 1) s.

(** [out] when 0 is returned. *)
Definition ar_manifest_get_platform_entry (m : option ar_app_manifest) (platform : option bytes) (max : Z) : outcome bytes :=
  match m, platform with
  | Some m, Some platform =>
      match platforms_raw m with
      | [] => Failed
      | c :: p =>
          if negb (c =? 123) then Failed
          else
            do (_, found) <- loop fuel (platform_body platform) (p, None);
            match found with Some entry_val => Value (snprintf_s max entry_val) | None => Failed end
      end
  | _, _ => Failed
  end.

End Parser.

(** [machine] is what [uname] answers. *)
Definition ar_platform_detect (machine : option bytes) (max : Z) : bytes :=
  match machine with
  | Some mach =>
      if bytes_eqb mach (lit "x86_64") || bytes_eqb mach (lit "amd64") then snprintf_s max (lit "linux-x64")
      else if bytes_eqb mach (lit "aarch64") || bytes_eqb mach (lit "arm64") then snprintf_s max (lit "linux-arm64")
      else snprintf_s max (lit "linux-" ++ mach)
  | None => snprintf_s max (lit "linux-unknown")
  end.

(** ** Examples *)

(** A text with apostrophes for the quotes. *)
Definition text (s : String.string) : bytes := map (fun c => if c =? 39 then 34 else c) (lit s).

Arguments text _%_string_scope.

Definition parse_text (s : String.string) : outcome ar_app_manifest := ar_manifest_parse 400 (Some (text s)).

Arguments parse_text _%_string_scope.

(** A text that ends early is a manifest. *)
Example truncated_accepted : parse_text "{'name': 'a', 'requires': ['x'," = Value (set_requires [lit "x"] (set_app_name (lit "a") no_manifest)).
Proof. vm_compute. reflexivity. Qed.

(** Eight requirements are too many for the array of eight. *)
Example full_array_refused :
  parse_text "{'requires': ['1','2','3','4','5','6','7','8']}" = Failed.
Proof. vm_compute. reflexivity. Qed.

(** After the eighth, the list can be given again, and is written behind the array. *)
Example array_overrun :
  parse_text "{'requires': ['1','2','3','4','5','6','7','8', 'requires': ['9']}" = Bad.
Proof. vm_compute. reflexivity. Qed.

Example services_overrun :
  ar_manifest_parse 4000 (Some (text "{'services': [" ++ concat (replicate 16 (text "{'name':'s'},")) ++ text "'services': [{'name':'s'}]}")) = Bad.
Proof. vm_compute. reflexivity. Qed.

(** A text that ends in the list of the steps. *)
Example steps_null : parse_text "{'build': {'steps': [ " = Bad.
Proof. vm_compute. reflexivity. Qed.

(** A step without a command leaves its name to the next one. *)
Example step_inherits :
  parse_text "{'build': {'steps': [{'name': 'old'}, {'cmd': 'make'}]}}" =
  Value (set_build (set_steps [mk_step (lit "old") (lit "make") []] (build no_manifest)) no_manifest).
Proof. vm_compute. reflexivity. Qed.

Example platform_entry :
  (do m <- parse_text "{'platforms': {'linux': {'args': [1, {}], 'entry': 'bin/app'}, 'windows': {'entry': 'app.exe'}}}";
   ar_manifest_get_platform_entry 400 (Some m) (Some (lit "windows")) 256) = Value (lit "app.exe").
Proof. vm_compute. reflexivity. Qed.

(** ** Loops *)

Section Loops.
Context {A : Type} (body : A -> outcome (turn A)).

(** What is true of the state at the end, if every turn keeps it. *)
Lemma loop_post (P : A -> Prop) fuel s r :
  P s -> (forall s t, P s -> body s = Value t -> P match t with Again s => s | Leave s => s end) ->
  loop fuel body s = Value r -> P r.
Proof.
  intros H0 Hb. revert s H0. induction fuel as [|n IH]; intros s H0; [done|]. cbn.
  destruct (body s) as [[s'|s']| | |] eqn:E; try done; cbn.
  - apply IH. exact (Hb _ _ H0 E).
  - intros [= <-]. exact (Hb _ _ H0 E).
Qed.

(** A loop that has come to an end does so with more fuel, too. *)
Lemma loop_mono n k s : (n <= k)%nat -> loop n body s <> Running -> loop k body s = loop n body s.
Proof.
  revert k s. induction n as [|n IH]; intros k s Hk; [done|]. destruct k as [|k]; [lia|]. cbn.
  destruct (body s) as [[s'|s']| | |]; try done; cbn. apply IH. lia.
Qed.
End Loops.

(** A result with a rest of the text that is part of [p]; the rest after a turn that is not the
    last is shorter. *)
Definition within {A} (p : bytes) (o : outcome (bytes * A)) : Prop :=
  match o with Value (q, _) => q `suffix_of` p | Running => False | Failed | Bad => True end.

Definition turn_within {A} (p : bytes) (o : outcome (turn (bytes * A))) : Prop :=
  match o with
  | Value (Again (q, _)) => q `suffix_of` p /\ (length q < length p)%nat
  | Value (Leave (q, _)) => q `suffix_of` p
  | Running => False
  | Failed | Bad => True
  end.

Lemma loop_within {A} (whole : bytes) fuel (body : bytes * A -> outcome (turn (bytes * A))) p a :
  (forall p a, p `suffix_of` whole -> turn_within p (body (p, a))) ->
  p `suffix_of` whole -> (length p < fuel)%nat -> within p (loop fuel body (p, a)).
Proof.
  intros Hb. revert p a. induction fuel as [|n IH]; intros p a Hp Hn; [lia|]. cbn.
  specialize (Hb p a Hp). destruct (body (p, a)) as [[[q b]|[q b]]| | |]; try done; cbn in *.
  destruct Hb as [Hq Hl]. specialize (IH q b ltac:(by etrans) ltac:(lia)).
  destruct (loop n body (q, b)) as [[r c]| | |]; try done. cbn in *. by etrans.
Qed.

Lemma within_mono {A} p q (o : outcome (bytes * A)) : p `suffix_of` q -> within p o -> within q o.
Proof. destruct o as [[r a]| | |]; try done. cbn. intros. by etrans. Qed.

Lemma within_bind {A B} p (o : outcome (bytes * A)) (k : bytes * A -> outcome (bytes * B)) :
  within p o -> (forall q a, q `suffix_of` p -> within p (k (q, a))) -> within p (obind o k).
Proof. destruct o as [[r a]| | |]; try done. cbn. auto. Qed.

(** ** Progress *)

Lemma suffix_tail (p : bytes) : tail p `suffix_of` p.
Proof. destruct p as [|c p]; [done|]. by apply suffix_cons_r. Qed.

Lemma suffix_cons_l (c : Z) (p q : bytes) : (c :: p) `suffix_of` q -> p `suffix_of` q.
Proof. intros H. etrans; [|exact H]. by apply suffix_cons_r. Qed.

Lemma skip_ws_suffix p : skip_ws p `suffix_of` p.
Proof. induction p as [|c p IH]; [done|]. cbn. destruct (is_ws c); [by apply suffix_cons_r|done]. Qed.

Lemma skip_plain_suffix p : skip_plain p `suffix_of` p.
Proof. induction p as [|c p IH]; [done|]. cbn. destruct (_ || _); [done|by apply suffix_cons_r]. Qed.

Lemma skip_quote_suffix p : skip_quote p `suffix_of` p.
Proof. unfold skip_quote. destruct (starts 34 p); [apply suffix_tail|done]. Qed.

Lemma scan_string_suffix p q : scan_string p = Some q -> q `suffix_of` p.
Proof.
  revert q. induction p as [p IH] using (induction_ltof1 _ (@length Z)); intros q. unfold ltof in IH.
  destruct p as [|c p]; cbn; [by intros [= <-]|]. destruct (c =? 34); [by intros [= <-]|].
  destruct (c =? 92).
  - destruct p as [|d p]; [done|]. intros E. apply IH in E; [|cbn; lia]. by do 2 apply suffix_cons_r.
  - intros E. apply IH in E; [|cbn; lia]. by apply suffix_cons_r.
Qed.

Lemma suffix_length_le (p q : bytes) : p `suffix_of` q -> (length p <= length q)%nat.
Proof. apply suffix_length. Qed.

Create HintDb rest.
#[export] Hint Resolve skip_ws_suffix skip_plain_suffix skip_quote_suffix scan_string_suffix suffix_tail : rest.

Lemma starts_cons c p : starts c p = true -> exists q, p = c :: q.
Proof. destruct p as [|x p]; [done|]. cbn. intros ->%Z.eqb_eq. by exists p. Qed.

(** A string is shorter than its text by its quotes. *)
Lemma parse_string_value p max s q :
  parse_string p max = Value (Some (s, q)) ->
  exists start stop, skip_ws p = 34 :: start /\ scan_string start = Some (34 :: stop) /\ q = stop /\
    copy_out start (len start - len (34 :: stop)) max = Value s.
Proof.
  unfold parse_string. destruct (skip_ws p) as [|c start]; [done|]. destruct (c =? 34) eqn:Ec; [|done]. bool_hyps. subst c. cbn [negb].
  destruct (scan_string start) as [[|d rest]|] eqn:E; try done.
  assert (d = 34) as ->.
  { clear -E. revert E. induction start as [p IH] using (induction_ltof1 _ (@length Z)). unfold ltof in IH. destruct p as [|c p]; cbn; [done|].
    destruct (c =? 34) eqn:Ec; bool_hyps; [by intros [= -> ->]|]. destruct (c =? 92); [destruct p; [done|]|]; apply IH; cbn; lia. }
  destruct (copy_out _ _ _) as [out| | |] eqn:Eo; try done. cbn. intros [= <- <-]. eexists _, _. by split_and!.
Qed.

Lemma parse_string_shorter p max s q :
  parse_string p max = Value (Some (s, q)) -> q `suffix_of` p /\ (length q < length p)%nat.
Proof.
  intros (start & stop & Ew & Es & -> & _)%parse_string_value. apply scan_string_suffix in Es. pose proof (skip_ws_suffix p) as Hw. rewrite Ew in Hw.
  assert (stop `suffix_of` start) by (by apply suffix_cons_l in Es). split.
  - apply suffix_cons_l in Hw. by etrans.
  - apply suffix_length in Hw, Es. cbn in *. lia.
Qed.

Lemma parse_string_answers p max : parse_string p max <> Running.
Proof.
  unfold parse_string, copy_out. destruct (skip_ws p) as [|c start]; [done|]. destruct (negb _); [done|].
  destruct (scan_string start) as [[|d rest]|]; try done. repeat (case_match; try done).
Qed.

Lemma string_value_within {A} max (set : bytes -> A -> A) p a : within p (string_value max set p a).
Proof.
  unfold string_value. pose proof (parse_string_answers p max). destruct (parse_string p max) as [[[s q]|]| | |] eqn:E; try done.
  by apply parse_string_shorter in E as [? _].
Qed.

Section Progress.
Variables (whole : bytes) (fuel : nat).
Hypothesis enough : (length whole < fuel)%nat.

Lemma scan_string_rest (p : bytes) (q : bytes) : scan_string p = Some q -> (length q <= length p)%nat.
Proof. intros E. by apply suffix_length, scan_string_suffix. Qed.

Lemma nest_within opens closes n p depth :
  (length p + (if depth >? 0 then 1 else 0) < n)%nat ->
  exists q depth', loop n (nest_body opens closes) (Some p, depth) = Value (q, depth') /\
    match q with Some q => q `suffix_of` p | None => True end.
Proof.
  revert p depth. induction n as [|n IH]; intros p depth Hn; [lia|]. cbn.
  destruct p as [|c p]; [by exists (Some []), depth|]. destruct (depth >? 0) eqn:Ed; cbn [negb].
  2:{ by exists (Some (c :: p)), depth. }
  cbn [length] in Hn. destruct (c =? 34).
  { destruct (scan_string p) as [q|] eqn:Eq; [|by exists None, depth]. cbn [obind].
    pose proof (skip_quote_suffix q) as Hs. pose proof (scan_string_suffix _ _ Eq) as Hq. pose proof (suffix_length _ _ Hs). pose proof (suffix_length _ _ Hq).
    destruct (IH (skip_quote q) depth) as (r & d & -> & Hr); [rewrite Ed; lia|]. exists r, d. split; [done|]. destruct r; [|done].
    etrans; [done|]. etrans; [done|]. by apply suffix_cons_r. }
  set (depth' := if opens c then _ else _). destruct (depth' >? 0) eqn:Ed'.
  - destruct (IH p depth') as (r & d & E & Hr); [rewrite Ed'; lia|]. cbn [obind]. exists r, d. split; [done|]. destruct r; [|done]. by apply suffix_cons_r.
  - destruct (IH (c :: p) depth') as (r & d & E & Hr); [rewrite Ed'; cbn [length]; lia|]. cbn [obind]. exists r, d. by split.
Qed.

Lemma skip_nested_value opens closes p :
  p `suffix_of` whole -> (length p < length whole)%nat ->
  exists q, skip_nested fuel opens closes p = Value q /\ match q with Some q => q `suffix_of` p | None => True end.
Proof.
  intros Hp Hl. unfold skip_nested. destruct (nest_within opens closes fuel p 1) as (q & d & -> & Hq); [cbn; lia|]. cbn [obind].
  destruct q as [q|]; [|by exists None]. destruct (d >? 0); [by exists None|]. by exists (Some q).
Qed.

Lemma skip_value_value p :
  p `suffix_of` whole -> exists q, skip_value fuel p = Value q /\ match q with Some q => q `suffix_of` p | None => True end.
Proof.
  intros Hp. unfold skip_value. pose proof (skip_ws_suffix p) as Hw. destruct (skip_ws p) as [|c q]; [by exists None|].
  assert (Hq : q `suffix_of` p) by (by apply suffix_cons_l in Hw). pose proof (suffix_length _ _ Hp). pose proof (suffix_length _ _ Hw). cbn [length] in *.
  destruct (c =? 34).
  { destruct (scan_string q) as [r|] eqn:Er; [|by exists None]. exists (Some (skip_quote r)). split; [done|].
    etrans; [apply skip_quote_suffix|]. etrans; [by apply scan_string_suffix|done]. }
  destruct (any_open c).
  - destruct (skip_nested_value any_open any_close q) as (r & -> & Hr); [by etrans|lia|]. cbn [obind].
    destruct r as [r|]; [|by exists None]. exists (Some (tail r)). split; [done|]. etrans; [apply suffix_tail|]. by etrans.
  - exists (Some (skip_plain (c :: q))). split; [done|]. etrans; [apply skip_plain_suffix|done].
Qed.

Lemma other_value_within {A} p (a : A) : p `suffix_of` whole -> within p (other_value fuel p a).
Proof. intros Hp. unfold other_value. destruct (skip_value_value p Hp) as ([q|] & -> & Hq); done. Qed.

(** The text has no string [word]. *)
Definition unquoted (word : bytes) : Prop := forall a b, whole <> a ++ 34 :: word ++ 34 :: b.

(** The key of a member is in the text, in its quotes. *)
Lemma key_quoted p key q word :
  p `suffix_of` whole -> unquoted word -> len word < KEY_MAX - 1 -> len whole < 2 ^ 31 ->
  parse_string p KEY_MAX = Value (Some (key, q)) -> key <> word.
Proof.
  intros Hp Hu Hw Hlen (start & stop & Ew & Es & -> & Ec)%parse_string_value ->.
  pose proof (skip_ws_suffix p) as Hs. rewrite Ew in Hs. destruct (scan_string_suffix _ _ Es) as [raw Hraw]. destruct Hs as [a Ha]. destruct Hp as [b Hb].
  revert Ec. unfold copy_out. assert (E : len start - len (34 :: stop) = len raw) by (rewrite Hraw, len_app; lia). rewrite E.
  assert (Hr : 0 <= len raw < 2 ^ 31).
  { split; [apply len_nonneg|]. rewrite Hb, Ha, Hraw in Hlen. rewrite !len_app, len_cons, len_app in Hlen.
    pose proof (len_nonneg b). pose proof (len_nonneg a). pose proof (len_nonneg (34 :: stop)). lia. }
  replace (i32 (len raw)) with (len raw) by (unfold i32; rewrite Z.mod_small by lia; lia).
  destruct (len raw >=? KEY_MAX) eqn:Ek; bool_hyps; (destruct (_ <? 0) eqn:El; [done|]; intros [= Eq]).
  - apply (f_equal len) in Eq. rewrite len_sub in Eq; [lia|lia|vm_compute; discriminate|]. rewrite Hraw, len_app. pose proof (len_nonneg (34 :: stop)). lia.
  - rewrite Hraw in Eq. rewrite sub_app_l in Eq by lia. rewrite sub_full in Eq. subst raw.
    apply (Hu (b ++ a) stop). rewrite Hb, Ha, Hraw. by rewrite <- !app_assoc.
Qed.

Lemma member_within {A} (value : bytes -> bytes -> A -> outcome (bytes * A)) p a word :
  unquoted word -> len word < KEY_MAX - 1 -> len whole < 2 ^ 31 ->
  (forall key q a, key <> word -> q `suffix_of` whole -> within q (value key q a)) ->
  p `suffix_of` whole -> turn_within p (member_body value (p, a)).
Proof.
  intros Hu Hw Hlen Hv Hp. unfold member_body. pose proof (skip_ws_suffix p) as Hs.
  destruct p as [|c p']; [by cbn|]. set (p := c :: p') in *.
  assert (Ht : tail (skip_ws p) `suffix_of` p) by (etrans; [apply suffix_tail|done]).
  destruct (starts 125 (skip_ws p)) eqn:E1; [done|].
  destruct (starts 44 (skip_ws p)) eqn:E2.
  { apply starts_cons in E2 as [q Eq]. rewrite Eq in Hs, Ht |- *. apply suffix_length in Hs. cbn [turn_within tail length] in *. split; [done|lia]. }
  pose proof (parse_string_answers (skip_ws p) KEY_MAX) as Hne. unfold checked.
  destruct (parse_string (skip_ws p) KEY_MAX) as [[[key q]|]| | |] eqn:Ep; try done. cbn [obind].
  assert (Hkey : key <> word) by exact (key_quoted _ _ _ _ (transitivity Hs Hp) Hu Hw Hlen Ep).
  apply parse_string_shorter in Ep as [Hq Hl]. apply suffix_length in Hs as Hls.
  destruct (negb (starts 58 (skip_ws q))); [done|].
  assert (Hr : tail (skip_ws q) `suffix_of` q) by (etrans; [apply suffix_tail|apply skip_ws_suffix]). apply suffix_length in Hr as Hlr.
  assert (Hrp : tail (skip_ws q) `suffix_of` p) by (etrans; [done|]; by etrans).
  specialize (Hv key (tail (skip_ws q)) a Hkey ltac:(by etrans)). destruct (value key _ a) as [[r b]| | |]; try done. cbn [turn_within within obind] in Hv |- *.
  split; [by etrans|]. apply suffix_length in Hv. lia.
Qed.
End Progress.

(** The first steps of a turn over an array: its end, the closing bracket, a comma. *)
Ltac array_turn p Hs w t :=
  pose proof (skip_ws_suffix p) as Hs; destruct p as [|? ?]; [by cbn|];
  match type of Hs with _ `suffix_of` ?l => set (w := skip_ws l) in *; set (t := l) in * end;
  repeat match goal with
  | |- turn_within _ (if negb (_ <? _) then _ else _) => case_match; [by cbn|]
  | |- turn_within _ (if starts _ _ then Value (Leave _) else _) =>
      case_match; [cbn [turn_within]; etrans; [apply suffix_tail|done]|]
  | |- turn_within _ (if starts 44 ?x then Value (Again _) else _) =>
      let E := fresh in let q := fresh in let Eq := fresh in
      destruct (starts 44 x) eqn:E;
      [apply starts_cons in E as [q Eq]; rewrite Eq in Hs |- *; cbn [turn_within tail]; split;
       [by apply suffix_cons_l in Hs|apply suffix_length in Hs; cbn [length] in Hs; lia]|]
  end.

Lemma list_within cap size p items : turn_within p (list_body cap size (p, items)).
Proof.
  unfold list_body. array_turn p Hs w t. unfold checked. pose proof (parse_string_answers w size).
  destruct (parse_string w size) as [[[item q]|]| | |] eqn:E; try done. cbn [obind]. apply parse_string_shorter in E as [Hq Hl].
  pose proof (suffix_length _ _ Hs). destruct (_ >=? _); [done|]. destruct (len _ >=? cap); cbn [turn_within].
  - by etrans.
  - split; [by etrans|lia].
Qed.

Lemma cleanup_within p b : turn_within p (cleanup_body (p, b)).
Proof.
  unfold cleanup_body. array_turn p Hs w t. unfold checked. pose proof (parse_string_answers w AR_BUILD_CLEANUP_PATH).
  destruct (parse_string w _) as [[[item q]|]| | |] eqn:E; try done. cbn [obind turn_within]. apply parse_string_shorter in E as [Hq Hl].
  pose proof (suffix_length _ _ Hs). split; [by etrans|lia].
Qed.

(** ** The parser comes to an end *)

Section Termination.
Variables (whole : bytes) (fuel : nat).
Hypothesis enough : (length whole < fuel)%nat.
Hypothesis short : len whole < 2 ^ 31.
Hypothesis no_steps : unquoted whole (lit "steps").

(** What the parser of a value needs: it reads on from where it is. *)
Abbreviation reads f := (forall p, p `suffix_of` whole -> forall a, within p (f p a)).

Lemma members_within {A} (value : bytes -> bytes -> A -> outcome (bytes * A)) :
  (forall key, key <> lit "steps" -> reads (value key)) -> reads (fun p a => loop fuel (member_body value) (tail p, a)).
Proof.
  intros Hv p Hp a. assert (Ht : tail p `suffix_of` whole) by (etrans; [apply suffix_tail|done]).
  eapply within_mono; [apply suffix_tail|]. apply (loop_within whole); [|done|apply suffix_length in Ht; lia].
  intros q b Hq. apply (member_within whole fuel) with (word := lit "steps"); try done. intros. by apply Hv.
Qed.

Lemma service_value_within key : reads (service_value fuel key).
Proof.
  intros p Hp a. unfold service_value. repeat case_match; try apply string_value_within. by apply (other_value_within whole).
Qed.

Lemma entry_value_within key : reads (entry_value fuel key).
Proof.
  intros p Hp a. unfold entry_value. case_match; [apply string_value_within|]. by apply (other_value_within whole).
Qed.

Lemma services_within p svcs : p `suffix_of` whole -> turn_within p (services_body fuel (p, svcs)).
Proof.
  intros Hp. unfold services_body. array_turn p Hs w t. destruct (starts 123 w) eqn:Eb; [|done]. cbn [negb].
  destruct (_ >=? _); [done|]. apply starts_cons in Eb as [q Eq].
  assert (Hq : tail w `suffix_of` t) by (etrans; [apply suffix_tail|done]).
  assert (Hl : (length (tail w) < length t)%nat) by (rewrite Eq in Hs |- *; apply suffix_length in Hs; cbn in Hs |- *; lia).
  assert (Hm : within (tail w) (loop fuel (member_body (service_value fuel)) (tail w, mk_service [] []))).
  { apply (loop_within whole); [|by etrans|].
    - intros r b Hr. apply (member_within whole fuel) with (word := lit "steps"); try done. intros. by apply service_value_within.
    - apply suffix_length in Hp. lia. }
  destruct (loop _ _ _) as [[r svc]| | |]; try done. cbn [obind within] in *. apply suffix_length in Hm as Hlr.
  destruct (len _ >=? _); cbn [turn_within]; [|split]; [by etrans|by etrans|lia].
Qed.

Lemma parse_list_within cap size items p : p `suffix_of` whole -> within p (parse_list fuel cap size items p).
Proof.
  intros Hp. unfold parse_list. destruct (negb _); [done|]. assert (Ht : tail (skip_ws p) `suffix_of` p) by (etrans; [apply suffix_tail|apply skip_ws_suffix]).
  eapply within_mono; [exact Ht|]. apply (loop_within whole); [intros; apply list_within|by etrans|].
  apply suffix_length in Ht. apply suffix_length in Hp. lia.
Qed.

Lemma parse_services_within : reads (parse_services fuel).
Proof.
  intros p Hp svcs. unfold parse_services. destruct (negb _); [done|]. assert (Ht : tail (skip_ws p) `suffix_of` p) by (etrans; [apply suffix_tail|apply skip_ws_suffix]).
  eapply within_mono; [exact Ht|]. apply (loop_within whole); [intros; by apply services_within|by etrans|].
  apply suffix_length in Ht. apply suffix_length in Hp. lia.
Qed.

Lemma build_value_within key : key <> lit "steps" -> reads (build_value fuel key).
Proof.
  intros Hk p Hp b. unfold build_value. pose proof (skip_ws_suffix p) as Hs. eapply within_mono; [exact Hs|].
  assert (Hw : skip_ws p `suffix_of` whole) by (by etrans).
  assert (Ek : bytes_eqb key (lit "steps") = false) by (apply not_true_iff_false; by rewrite bytes_eqb_eq). rewrite Ek.
  repeat case_match; try apply string_value_within; try by apply (other_value_within whole).
  assert (Ht : tail (skip_ws p) `suffix_of` skip_ws p) by apply suffix_tail.
  eapply within_mono; [exact Ht|]. apply (loop_within whole); [intros; apply cleanup_within|by etrans|].
  apply suffix_length in Ht, Hw. lia.
Qed.

Lemma parse_build_within : reads (parse_build fuel).
Proof.
  intros p Hp b. unfold parse_build. pose proof (skip_ws_suffix p) as Hs. eapply within_mono; [exact Hs|].
  assert (Hw : skip_ws p `suffix_of` whole) by (by etrans).
  case_match; [|by apply (other_value_within whole)]. apply members_within; [|done]. intros key Hk. by apply build_value_within.
Qed.

Lemma parse_platforms_within : reads (parse_platforms fuel).
Proof.
  intros p Hp m. unfold parse_platforms. pose proof (skip_ws_suffix p) as Hs. assert (Hw : skip_ws p `suffix_of` whole) by (by etrans).
  eapply within_mono; [exact Hs|].
  destruct (starts 123 (skip_ws p)) eqn:Eb; [|by apply (other_value_within whole)]. apply starts_cons in Eb as [q Eq]. rewrite Eq in *. cbn [tail].
  assert (Hq : q `suffix_of` whole) by (by apply suffix_cons_l in Hw).
  destruct (skip_nested_value whole fuel enough brace_open brace_close q Hq) as (r & -> & Hr); [apply suffix_length in Hw; cbn in Hw; lia|].
  destruct r as [[|c r]|]; cbn [checked obind]; try done. destruct (copy_out _ _ _) as [raw| | |] eqn:Ec; try done; cbn [obind within].
  - apply suffix_cons_l in Hr. by apply suffix_cons_r.
  - revert Ec. unfold copy_out. by case_match.
Qed.

Lemma manifest_value_within key : reads (manifest_value fuel key).
Proof.
  intros p Hp m. unfold manifest_value.
  repeat match goal with |- within _ (if bytes_eqb key _ then _ else _) => destruct (bytes_eqb key _) end;
    try apply string_value_within; try (apply within_bind; [by apply parse_list_within|done]);
    try by apply (other_value_within whole).
  - unfold parse_bool. repeat case_match; simplify_eq; cbn [within]; pose proof (skip_ws_suffix p);
      try (etrans; [first [apply skip_plain_suffix|apply suffix_tail]|]); done.
  - by apply parse_platforms_within.
  - apply within_bind; [by apply parse_services_within|done].
  - apply within_bind; [by apply parse_build_within|done].
Qed.
End Termination.

(** The parser of manifests comes to an end: with a turn for every octet of the text it has
    a result, if the text names no steps. *)
Theorem manifest_parse_ends fuel json :
  len json < 2 ^ 31 -> unquoted (cstr json) (lit "steps") -> (length json < fuel)%nat ->
  ar_manifest_parse fuel (Some json) <> Running.
Proof.
  intros Hlen Hu Hf. unfold ar_manifest_parse. pose proof (skip_ws_suffix (cstr json)) as Hs.
  assert (Hc : (length (cstr json) <= length json)%nat) by (clear; induction json as [|c b IH]; cbn; [lia|case_match; cbn; lia]).
  destruct (negb _); [done|]. pose proof (members_within (cstr json) fuel ltac:(lia) ltac:(unfold len in *; lia) Hu (manifest_value fuel)) as Hm.
  specialize (Hm ltac:(intros; by apply (manifest_value_within (cstr json) fuel ltac:(lia) ltac:(unfold len in *; lia) Hu)) _ Hs no_manifest).
  cbv beta in Hm. by destruct (loop _ _ _) as [[q m]| | |].
Qed.

(** A list of steps that is closed by a brace keeps the parser where it is. *)
Lemma steps_stay fuel n b rest : len (steps b) < AR_BUILD_MAX_STEPS -> loop n (steps_body fuel) (125 :: rest, b) = Running.
Proof.
  intros Hb. induction n as [|n IH]; [done|]. cbn [loop]. unfold steps_body at 1. rewrite (proj2 (Z.ltb_lt _ _) Hb). exact IH.
Qed.

(** A text of octets that occur nowhere in the word. *)
Lemma without_octet whole word c : In c word -> ~ In c whole -> unquoted whole word.
Proof. intros Hc Hn a b ->. apply Hn. apply in_or_app. right. right. apply in_or_app. by left. Qed.

Lemma manifest_parse_ends_witness : ar_manifest_parse 50 (Some (text "{'name': 'demo', 'bin': [[{")) <> Running.
Proof.
  apply manifest_parse_ends; [vm_compute; reflexivity| |vm_compute; lia].
  apply without_octet with (c := 115); [vm_compute; tauto|vm_compute; intuition discriminate].
Defined.

(** ** What a manifest can hold *)

Definition list_fits (cap size : Z) (l : list bytes) : Prop := len l <= cap /\ Forall (fun s => len s < size) l.

Definition service_fits (s : ar_service_def) : Prop := len (svc_name s) < AR_SERVICE_NAME_MAX /\ len (svc_entry s) < AR_ENTRY_MAX.

Definition step_fits (s : ar_build_step) : Prop :=
  len (step_name s) < AR_BUILD_STEP_NAME_MAX /\ len (step_cmd s) < AR_BUILD_STEP_CMD_MAX /\ len (step_cwd s) < AR_BUILD_STEP_CWD_MAX.

Record build_fits (b : ar_build_config) : Prop := {
  bf_steps : len (steps b) <= AR_BUILD_MAX_STEPS /\ Forall (fun s => step_fits s /\ step_cmd s <> []) (steps b);
  bf_slot : step_fits (slot b);
  bf_cleanup : list_fits AR_BUILD_CLEANUP_MAX AR_BUILD_CLEANUP_PATH (cleanup b);
  bf_staging : len (staging b) < AR_BUILD_STAGING_MAX;
  bf_command : len (command b) < COMMAND_MAX;
}.

(** Every string with its NUL in its array, and no more elements than an array has. *)
Record manifest_fits (m : ar_app_manifest) : Prop := {
  mf_name : len (app_name m) < AR_APP_NAME_MAX;
  mf_version : len (version m) < AR_APP_VERSION_MAX;
  mf_bin : len (bin m) < AR_FILE_PATH_MAX;
  mf_entry : len (entry m) < AR_ENTRY_MAX;
  mf_services : len (services m) <= AR_APP_MAX_SERVICES /\ Forall (fun s => service_fits s /\ svc_name s <> []) (services m);
  mf_files : list_fits AR_MAX_FILES AR_FILE_PATH_MAX (files m);
  mf_files_windows : list_fits AR_MAX_FILES AR_FILE_PATH_MAX (files_windows m);
  mf_files_linux : list_fits AR_MAX_FILES AR_FILE_PATH_MAX (files_linux m);
  mf_is_runtime : is_runtime m = 0 \/ is_runtime m = 1;
  mf_requires : list_fits AR_MAX_REQUIRES AR_REQUIRE_MAX (requires m);
  mf_platforms : len (platforms_raw m) < AR_PLATFORM_RAW_MAX;
  mf_build : build_fits (build m);
}.

Lemma copy_out_fit start n max s : 0 < max -> copy_out start n max = Value s -> len s < max.
Proof.
  intros Hm. unfold copy_out. set (k := i32 n). destruct (k >=? max) eqn:E; bool_hyps; (destruct (_ <? 0) eqn:E0; [done|]); intros [= <-]; bool_hyps.
  - pose proof (len_sub_le 0 (max - 1) start). lia.
  - pose proof (len_sub_le 0 k start). lia.
Qed.

Lemma parse_string_fit p max s q : 0 < max -> checked (parse_string p max) = Value (s, q) -> len s < max.
Proof.
  intros Hm. destruct (parse_string p max) as [[[s' q']|]| | |] eqn:E; try done. intros [= -> ->].
  apply parse_string_value in E as (start & stop & _ & _ & _ & E). by eapply copy_out_fit.
Qed.

Section Kept.
Context {A : Type} (P : A -> Prop).

(** A reader of values keeps [P]. *)
Definition keeps (o : outcome (bytes * A)) : Prop := forall q b, o = Value (q, b) -> P b.

Lemma string_keeps max set p a : 0 < max -> (forall s, len s < max -> P (set s a)) -> keeps (string_value max set p a).
Proof.
  intros Hm Hs q b. unfold string_value. destruct (checked (parse_string p max)) as [[s r]| | |] eqn:E; try done. intros [= _ <-].
  apply Hs. by eapply parse_string_fit.
Qed.

Lemma other_keeps fuel p a : P a -> keeps (other_value fuel p a).
Proof. intros Ha q b. unfold other_value. destruct (checked _); try done. by intros [= _ <-]. Qed.

Lemma members_keep fuel (value : bytes -> bytes -> A -> outcome (bytes * A)) p a :
  P a -> (forall key p a, P a -> keeps (value key p a)) -> keeps (loop fuel (member_body value) (p, a)).
Proof.
  intros Ha Hv q b E. revert E. apply (loop_post _ (fun s => P s.2)); [done|]. clear p a Ha q b. intros [p a] t Ha. cbn [snd] in Ha. unfold member_body.
  destruct p; [by intros [= <-]|]. destruct (starts 125 _); [by intros [= <-]|]. destruct (starts 44 _); [by intros [= <-]|].
  destruct (checked _) as [[key q]| | |]; try done. cbn [obind]. destruct (negb _); [done|].
  destruct (value _ _ a) as [[r b]| | |] eqn:E; try done. intros [= <-]. by apply Hv in E.
Qed.
End Kept.

Lemma service_keeps fuel key p a : service_fits a -> keeps service_fits (service_value fuel key p a).
Proof.
  intros Ha. unfold service_value. destruct Ha. repeat case_match; [..|by apply other_keeps];
    (apply string_keeps; [done|]; intros s Hs; split; done).
Qed.

Lemma step_keeps fuel key p a : step_fits a -> keeps step_fits (step_value fuel key p a).
Proof.
  intros Ha. unfold step_value. pose proof Ha as (? & ? & ?). repeat case_match; [..|by apply other_keeps];
    (apply string_keeps; [done|]; intros s Hs; split_and!; done).
Qed.

Lemma len_snoc {A} (l : list A) x : len (l ++ [x]) = len l + 1.
Proof. rewrite len_app, len_cons, len_nil. lia. Qed.

Lemma list_fits_snoc cap size l s : list_fits cap size l -> len l < cap -> len s < size -> list_fits cap size (l ++ [s]).
Proof. intros [Hl Hf] Hc Hs. split; [rewrite len_snoc; lia|]. apply Forall_app. by split; [|constructor]. Qed.

Lemma list_keeps fuel cap size items p :
  0 < size -> list_fits cap size items -> keeps (list_fits cap size) (parse_list fuel cap size items p).
Proof.
  intros Hs Hi q l. unfold parse_list. destruct (negb _); [done|]. apply (loop_post _ (fun s => list_fits cap size s.2)); [done|].
  clear p items Hi q l. intros [p items] t Hi. cbn [snd] in Hi. unfold list_body. destruct p; [by intros [= <-]|].
  destruct (starts 93 _); [by intros [= <-]|]. destruct (starts 44 _); [by intros [= <-]|].
  destruct (checked _) as [[item q]| | |] eqn:E; try done. cbn [obind]. apply parse_string_fit in E; [|done].
  destruct (len items >=? cap) eqn:Ec; [done|]. bool_hyps. intros [= <-].
  set (items' := match item with [] => items | _ => items ++ [item] end).
  assert (list_fits cap size items') by (unfold items'; destruct item; [done|]; by apply list_fits_snoc). by destruct (len items' >=? cap).
Qed.

Lemma services_keep fuel p svcs :
  len svcs <= AR_APP_MAX_SERVICES /\ Forall (fun s => service_fits s /\ svc_name s <> []) svcs ->
  keeps (fun l => len l <= AR_APP_MAX_SERVICES /\ Forall (fun s => service_fits s /\ svc_name s <> []) l) (parse_services fuel p svcs).
Proof.
  intros Hi q l. unfold parse_services. destruct (negb _); [done|].
  apply (loop_post _ (fun s => len s.2 <= AR_APP_MAX_SERVICES /\ Forall (fun s => service_fits s /\ svc_name s <> []) s.2)); [done|].
  clear p svcs Hi q l. intros [p l] t Hi. cbn [snd] in Hi. unfold services_body. destruct p; [by intros [= <-]|].
  destruct (starts 93 _); [by intros [= <-]|]. destruct (starts 44 _); [by intros [= <-]|]. destruct (negb _); [done|].
  destruct (len l >=? AR_APP_MAX_SERVICES) eqn:Ec; [done|]. bool_hyps.
  destruct (loop _ _ _) as [[q svc]| | |] eqn:E; try done. cbn [obind]. intros [= <-].
  assert (Hf : service_fits svc) by (refine (members_keep service_fits _ _ _ _ _ _ _ _ E); [by split|intros; by apply service_keeps]).
  set (l' := match svc_name svc with [] => l | _ => l ++ [svc] end).
  assert (len l' <= AR_APP_MAX_SERVICES /\ Forall (fun s => service_fits s /\ svc_name s <> []) l').
  { unfold l'. destruct (svc_name svc) eqn:En; [done|]. rewrite len_snoc. split; [lia|]. apply Forall_app. split; [apply Hi|].
    constructor; [|done]. split; [done|]. by rewrite En. }
  by destruct (len l' >=? AR_APP_MAX_SERVICES).
Qed.

Lemma cleanup_keeps fuel p b : build_fits b -> keeps build_fits (loop fuel cleanup_body (p, b)).
Proof.
  intros Hb q c. apply (loop_post _ (fun s => build_fits s.2)); [done|]. clear p b Hb q c. intros [p b] t Hb. cbn [snd] in Hb.
  unfold cleanup_body. destruct p; [by intros [= <-]|]. destruct (_ <? _) eqn:Ec; [|by intros [= <-]]. bool_hyps. cbn [negb].
  destruct (starts 93 _); [by intros [= <-]|]. destruct (starts 44 _); [by intros [= <-]|].
  destruct (checked _) as [[item q]| | |] eqn:E; try done. cbn [obind]. apply parse_string_fit in E; [|done]. intros [= <-].
  destruct Hb. constructor; try done. cbn. by apply list_fits_snoc.
Qed.

Lemma steps_keep fuel p b : build_fits b -> keeps build_fits (loop fuel (steps_body fuel) (p, b)).
Proof.
  intros Hb q c. apply (loop_post _ (fun s => build_fits s.2)); [done|]. clear p b Hb q c. intros [p b] t Hb. cbn [snd] in Hb.
  unfold steps_body. destruct p; [by intros [= <-]|]. destruct (_ <? _) eqn:Ec; [|by intros [= <-]]. bool_hyps. cbn [negb].
  destruct (starts 93 _); [by intros [= <-]|]. destruct (starts 44 _); [by intros [= <-]|].
  destruct (negb _); [destruct (skip_value _ _) as [[q|]| | |]; try done; by intros [= <-]|].
  destruct (loop _ _ _) as [[q step]| | |] eqn:E; try done. cbn [obind]. intros [= <-].
  assert (Hf : step_fits step) by (refine (members_keep step_fits _ _ _ _ _ _ _ _ E); [apply Hb|intros; by apply step_keeps]).
  destruct Hb as [[Hl Hs] ? ? ? ?]. unfold count_step. destruct (step_cmd step) eqn:En; constructor; try done; cbn in *.
  - rewrite len_snoc. split; [lia|]. apply Forall_app. split; [done|]. constructor; [|done]. split; [done|]. by rewrite En.
Qed.

Lemma build_keeps fuel p b : build_fits b -> keeps build_fits (parse_build fuel p b).
Proof.
  intros Hb. unfold parse_build. destruct (starts 123 _); [|by apply other_keeps]. apply members_keep; [done|]. clear. intros key p b Hb. unfold build_value.
  pose proof Hb as [? ? ? ? ?]. repeat case_match; try (by apply other_keeps); try (by apply cleanup_keeps); try (by apply steps_keep);
    (apply string_keeps; [done|]; intros s Hs; constructor; done).
Qed.

Lemma manifest_value_keeps fuel key p m : manifest_fits m -> keeps manifest_fits (manifest_value fuel key p m).
Proof.
  intros Hm. unfold manifest_value. pose proof Hm as [].
  assert (Hlist : forall cap size get set, 0 < size -> list_fits cap size (get m) ->
    (forall l, list_fits cap size l -> manifest_fits (set l m)) -> keeps manifest_fits (with_list fuel cap size get set p m)).
  { intros cap size get set Hs Hg Hset q b. unfold with_list. destruct (parse_list _ _ _ _ _) as [[r l]| | |] eqn:E; try done. intros [= _ <-].
    apply list_keeps in E; [by apply Hset|done|done]. }
  repeat match goal with |- keeps _ (if bytes_eqb key _ then _ else _) => destruct (bytes_eqb key _) end;
    try (apply string_keeps; [done|]; intros s Hs; constructor; done);
    try (apply Hlist; [done|done|]; intros l Hl; constructor; done); [..|by apply other_keeps].
  - intros q b. unfold parse_bool. repeat case_match; intros [= _ <-]; simplify_eq; constructor; try done; cbn; auto.
  - intros q b. unfold parse_platforms. destruct (starts 123 _); [|by apply other_keeps]. destruct (checked _) as [[|c r]| | |]; try done. cbn [obind].
    destruct (copy_out _ _ _) as [raw| | |] eqn:E; try done. cbn [obind]. intros [= _ <-]. apply copy_out_fit in E; [|done]. constructor; done.
  - intros q b. destruct (parse_services _ _ _) as [[r l]| | |] eqn:E; try done. intros [= _ <-]. apply services_keep in E; [|done]. constructor; done.
  - intros q b. destruct (parse_build _ _ _) as [[r l]| | |] eqn:E; try done. intros [= _ <-]. apply build_keeps in E; [|done]. constructor; done.
Qed.

(** Whatever text the parser accepts, every string of the manifest is in its array with its
    NUL and no counter is greater than its array is long. *)
Theorem manifest_parse_fits fuel json m : ar_manifest_parse fuel json = Value m -> manifest_fits m.
Proof.
  unfold ar_manifest_parse. destruct json as [json|]; [|done]. destruct (negb _); [done|].
  destruct (loop _ _ _) as [[q m']| | |] eqn:E; try done. intros [= <-]. revert E. apply members_keep.
  - repeat constructor; try done.
  - intros. by apply manifest_value_keeps.
Qed.

Lemma manifest_parse_fits_witness : manifest_fits (set_requires [lit "x"] (set_app_name (lit "a") no_manifest)).
Proof. apply (manifest_parse_fits 400 (Some (text "{'name': 'a', 'requires': ['x',"))). apply truncated_accepted. Defined.
