(* ===== verification/AppManifestText.v ===== *)
(** Manifests of version 1 packages as text: a writer of what the parser of AppManifest reads, and
    that the parser gives back what was written; the entries of the platforms; a text that keeps
    the parser for ever. *)

From S2P Require Import Prelude AppManifest.

(** ** Writing manifests *)

(** The text of a string as the parser takes it: no quote that is not escaped, no NUL. *)
Fixpoint raw_ok (s : bytes) : bool :=
  match s with
  | [] => true
  | c :: q =>
      negb (c =? 0) && negb (c =? 34)
      && (if c =? 92 then match q with [] => false | d :: q => negb (d =? 0) && raw_ok q end else raw_ok q)
  end.

Definition string_ok (max : Z) (s : bytes) : bool := raw_ok s && (len s <? max).

Definition quote (s : bytes) : bytes := 34 :: s ++ [34].

(** Elements with commas between them. *)
Fixpoint sep (l : list bytes) : bytes :=
  match l with
  | [] => []
  | x :: l => x ++ match l with [] => [] | _ => 44 :: sep l end
  end.

Abbreviation member := (bytes * bytes)%type.

Definition render_member (kv : member) : bytes := quote kv.1 ++ 58 :: kv.2.

Definition render_object (ms : list member) : bytes := 123 :: sep (map render_member ms) ++ [125].

Definition render_array (l : list bytes) : bytes := 91 :: sep l ++ [93].

Definition render_list (l : list bytes) : bytes := render_array (map quote l).

Definition service_members (s : ar_service_def) : list member :=
  [(lit "name", quote (svc_name s)); (lit "entry", quote (svc_entry s))].

Definition step_members (s : ar_build_step) : list member :=
  [(lit "name", quote (step_name s)); (lit "cmd", quote (step_cmd s)); (lit "cwd", quote (step_cwd s))].

Definition build_members (b : ar_build_config) : list member :=
  [(lit "command", quote (command b)); (lit "staging", quote (staging b));
   (lit "cleanup", render_list (cleanup b));
   (lit "steps", render_array (map (fun s => render_object (step_members s)) (steps b)))].

Definition runtime_name (r : ar_runtime_t) : bytes :=
  match r with
  | AR_RUNTIME_NATIVE => lit "native"
  | AR_RUNTIME_PYTHON3 => lit "python3"
  | AR_RUNTIME_NODE => lit "node"
  | AR_RUNTIME_JAVA => lit "java"
  | AR_RUNTIME_LUA => lit "lua"
  | AR_RUNTIME_RUBY => lit "ruby"
  | AR_RUNTIME_GO => lit "go"
  | AR_RUNTIME_UNKNOWN => lit "unknown"
  end.

Abbreviation table := (list (bytes * bytes)).

(** The platforms with their entries. *)
Definition platform_members (platforms : table) : list member :=
  map (fun pe => (pe.1, render_object [(lit "entry", quote pe.2)])) platforms.

Definition render_platforms (platforms : table) : bytes := render_object (platform_members platforms).

Definition platforms_text (raw : bytes) : bytes := match raw with [] => lit "null" | _ => raw end.

Definition manifest_members (m : ar_app_manifest) : list member :=
  [(lit "name", quote (app_name m)); (lit "version", quote (version m)); (lit "bin", quote (bin m));
   (lit "runtime", quote (runtime_name (runtime m))); (lit "entry", quote (entry m));
   (lit "services", render_array (map (fun s => render_object (service_members s)) (services m)));
   (lit "files", render_list (files m)); (lit "files_windows", render_list (files_windows m));
   (lit "files_linux", render_list (files_linux m));
   (lit "is_runtime", if is_runtime m =? 1 then lit "true" else lit "false");
   (lit "requires", render_list (requires m));
   (lit "platforms", platforms_text (platforms_raw m));
   (lit "build", render_object (build_members (build m)))].

Definition render (m : ar_app_manifest) : bytes := render_object (manifest_members m).

(** A list that fills its array. *)
Definition full {A} (cap : Z) (l : list A) : bool := len l >=? cap.

Definition some_full (m : ar_app_manifest) : bool :=
  full AR_APP_MAX_SERVICES (services m) || full AR_MAX_FILES (files m) || full AR_MAX_FILES (files_windows m)
  || full AR_MAX_FILES (files_linux m) || full AR_MAX_REQUIRES (requires m)
  || full AR_BUILD_CLEANUP_MAX (cleanup (build m)) || full AR_BUILD_MAX_STEPS (steps (build m)).

(** An array of strings that are not empty. *)
Definition list_ok (cap size : Z) (l : list bytes) : Prop :=
  len l <= cap /\ Forall (fun s => string_ok size s = true /\ s <> []) l.

Definition platforms_ok (raw : bytes) : Prop :=
  raw = [] \/
  len raw < AR_PLATFORM_RAW_MAX /\
  exists platforms : table, raw = render_platforms platforms /\
    Forall (fun pe => string_ok KEY_MAX pe.1 = true /\ string_ok AR_ENTRY_MAX pe.2 = true) platforms.

Record build_ok (b : ar_build_config) : Prop := {
  bo_command : string_ok COMMAND_MAX (command b) = true;
  bo_staging : string_ok AR_BUILD_STAGING_MAX (staging b) = true;
  bo_cleanup : len (cleanup b) <= AR_BUILD_CLEANUP_MAX /\ Forall (fun s => string_ok AR_BUILD_CLEANUP_PATH s = true) (cleanup b);
  bo_steps : len (steps b) <= AR_BUILD_MAX_STEPS /\
    Forall (fun s => string_ok AR_BUILD_STEP_NAME_MAX (step_name s) = true /\ string_ok AR_BUILD_STEP_CMD_MAX (step_cmd s) = true /\
      string_ok AR_BUILD_STEP_CWD_MAX (step_cwd s) = true /\ step_cmd s <> []) (steps b);
  bo_slot : slot b = no_step;
}.

(** The manifests that a text can describe. *)
Record manifest_ok (m : ar_app_manifest) : Prop := {
  mo_name : string_ok AR_APP_NAME_MAX (app_name m) = true;
  mo_version : string_ok AR_APP_VERSION_MAX (version m) = true;
  mo_bin : string_ok AR_FILE_PATH_MAX (bin m) = true;
  mo_entry : string_ok AR_ENTRY_MAX (entry m) = true;
  mo_services : len (services m) <= AR_APP_MAX_SERVICES /\
    Forall (fun s => string_ok AR_SERVICE_NAME_MAX (svc_name s) = true /\ string_ok AR_ENTRY_MAX (svc_entry s) = true /\ svc_name s <> []) (services m);
  mo_files : list_ok AR_MAX_FILES AR_FILE_PATH_MAX (files m);
  mo_files_windows : list_ok AR_MAX_FILES AR_FILE_PATH_MAX (files_windows m);
  mo_files_linux : list_ok AR_MAX_FILES AR_FILE_PATH_MAX (files_linux m);
  mo_is_runtime : is_runtime m = 0 \/ is_runtime m = 1;
  mo_requires : list_ok AR_MAX_REQUIRES AR_REQUIRE_MAX (requires m);
  mo_platforms : platforms_ok (platforms_raw m);
  mo_build : build_ok (build m);
}.

(** ** The parser on what is written *)

Lemma scan_raw s rest : raw_ok s = true -> scan_string (s ++ 34 :: rest) = Some (34 :: rest).
Proof.
  induction s as [s IH] using (induction_ltof1 _ (@length Z)). unfold ltof in IH. destruct s as [|c s]; [done|]. cbn.
  intros H. bool_hyps. rewrite (proj2 (Z.eqb_neq c 34)) by done.
  destruct (c =? 92).
  - destruct s as [|d s]; [done|]. bool_hyps. cbn [app]. apply IH; [cbn; lia|done].
  - apply IH; [cbn; lia|done].
Qed.

Lemma skip_ws_quote s rest : skip_ws (quote s ++ rest) = quote s ++ rest.
Proof. done. Qed.

Lemma copy_out_fits s rest n max : n = len s -> len s < max -> max <= 2 ^ 31 -> copy_out (s ++ rest) n max = Value s.
Proof.
  intros -> Hs Hm. pose proof (len_nonneg s). unfold copy_out. replace (i32 (len s)) with (len s) by (unfold i32; rewrite Z.mod_small by lia; lia).
  decide_if. decide_if. by rewrite sub_here.
Qed.

Lemma parse_quote s rest max :
  string_ok max s = true -> max <= 2 ^ 31 -> parse_string (quote s ++ rest) max = Value (Some (s, rest)).
Proof.
  unfold string_ok. intros H Hm. bool_hyps. unfold parse_string. rewrite skip_ws_quote. unfold quote at 1. cbn [app Z.eqb Pos.eqb negb].
  rewrite <- app_assoc. cbn [app]. rewrite scan_raw by done. rewrite copy_out_fits; [done| |done|done]. rewrite len_app. lia.
Qed.

(** What may follow a member's value. *)
Definition follows (rest : bytes) : Prop := exists c q, rest = c :: q /\ (c = 44 \/ c = 125).

Section Members.
Context {A : Type} (value : bytes -> bytes -> A -> outcome (bytes * A)).

Lemma member_turn key v rest a :
  string_ok KEY_MAX key = true ->
  member_body value (render_member (key, v) ++ rest, a) = do s <- value key (v ++ rest) a; Value (Again s).
Proof.
  intros Hk. unfold render_member, fst, snd. rewrite <- app_assoc. unfold member_body.
  change (match quote key ++ ?x with [] => ?a | _ :: _ => ?b end) with b. rewrite skip_ws_quote.
  change (starts 125 (quote key ++ ?x)) with false. change (starts 44 (quote key ++ ?x)) with false. cbv iota.
  rewrite parse_quote by done. reflexivity.
Qed.

(** Reading members one after the other: the value at the end, or [None] where the parser gives
    up, because a value is refused or the text goes on with a closing bracket. *)
Inductive members_run : list member -> A -> option A -> Prop :=
  | run_done a : members_run [] a (Some a)
  | run_one key v ms a a' r :
      string_ok KEY_MAX key = true -> (forall rest, follows rest -> value key (v ++ rest) a = Value (rest, a')) ->
      members_run ms a' r -> members_run ((key, v) :: ms) a r
  | run_stuck key v ms a :
      string_ok KEY_MAX key = true ->
      (forall rest, follows rest -> value key (v ++ rest) a = Failed \/ exists a', value key (v ++ rest) a = Value (93 :: rest, a')) ->
      members_run ((key, v) :: ms) a None.

Definition run_result (rest : bytes) (r : option A) : outcome (bytes * A) :=
  match r with Some a => Value (rest, a) | None => Failed end.

Lemma object_read fuel ms a r rest :
  (2 * length ms < fuel)%nat -> members_run ms a r ->
  loop fuel (member_body value) (sep (map render_member ms) ++ 125 :: rest, a) = run_result rest r.
Proof.
  intros Hf Hr. revert fuel Hf. induction Hr as [a|key v ms a a' r Hk Hv Hr IH|key v ms a Hk Hv]; intros fuel Hf.
  - destruct fuel as [|fuel]; [lia|]. reflexivity.
  - cbn [length] in Hf. destruct fuel as [|[|fuel]]; [lia|lia|]. cbn [map sep loop]. rewrite <- app_assoc, member_turn by done.
    destruct ms as [|kv ms].
    + rewrite Hv by (eexists _, _; split; [done|by right]). inversion Hr; subst. reflexivity.
    + cbn [map]. cbn [map] in IH. cbn [app]. rewrite Hv by (eexists _, _; split; [done|by left]). cbn [obind].
      rewrite <- (IH fuel) by (cbn [length] in *; lia). reflexivity.
  - cbn [length] in Hf. destruct fuel as [|[|fuel]]; [lia|lia|]. cbn [map sep loop]. rewrite <- app_assoc, member_turn by done.
    assert (Hn : forall q a', member_body value (93 :: q, a') = Failed) by done.
    edestruct Hv as [E|[a' E]]; [|by rewrite E|rewrite E; cbn [obind]; by rewrite Hn].
    destruct (map render_member ms); eexists _, _; split; [done|by right|done|by left].
Qed.

Lemma render_object_app ms rest : render_object ms ++ rest = 123 :: sep (map render_member ms) ++ 125 :: rest.
Proof. unfold render_object. cbn [app]. by rewrite <- app_assoc. Qed.
End Members.

Arguments members_run {A} value ms a r.

(** ** Arrays of what is written *)

(** A loop that reads the elements of an array one after the other up to [cap]: the rest, where
    the bracket of an array that is full is left, and the elements. *)
Lemma array_read {A B} (body : bytes * B -> outcome (turn (bytes * B))) (render_one : A -> bytes) (push : B -> A -> B) (count : B -> Z) (inv : B -> Prop) cap :
  (forall b rest, count b < cap -> body (93 :: rest, b) = Value (Leave (rest, b))) ->
  (forall b rest, count b < cap -> body (44 :: rest, b) = Value (Again (rest, b))) ->
  forall l fuel b rest,
    (forall b x rest, In x l -> count b < cap -> inv b ->
       count (push b x) = count b + 1 /\ inv (push b x) /\
       (body (render_one x ++ rest, b) = Value (Again (rest, push b x)) /\
          (count (push b x) >= cap -> forall q, body (93 :: q, push b x) = Value (Leave (93 :: q, push b x))) \/
        body (render_one x ++ rest, b) = Value (if count (push b x) >=? cap then Leave (rest, push b x) else Again (rest, push b x)))) ->
    (2 * length l + 1 < fuel)%nat -> inv b -> count b < cap -> count b + len l <= cap ->
    loop fuel body (sep (map render_one l) ++ 93 :: rest, b) =
    Value (if count b + len l >=? cap then 93 :: rest else rest, fold_left push l b).
Proof.
  intros Hend Hcomma. induction l as [|x l IH]; intros fuel b rest Hone Hf Hi Hc Hl.
  { destruct fuel as [|fuel]; [cbn in Hf; lia|]. cbn [map sep app loop fold_left]. rewrite Hend by done. cbn [obind].
    rewrite len_nil. decide_if. done. }
  cbn [length] in Hf. destruct fuel as [|[|fuel]]; [lia|lia|]. rewrite len_cons in *. cbn [map sep loop fold_left]. rewrite <- app_assoc.
  destruct (Hone b x (match map render_one l with [] => [] | _ => 44 :: sep (map render_one l) end ++ 93 :: rest) (in_eq _ _) Hc Hi) as (Hcount & Hi' & H).
  pose proof (len_nonneg l).
  destruct l as [|y l].
  - cbn [map app fold_left] in *. rewrite len_nil in *. replace (count b + (1 + 0)) with (count (push b x)) by lia.
    destruct H as [[-> Hq]| ->]; cbn [obind].
    + destruct (count (push b x) >=? cap) eqn:Ef; bool_hyps; [rewrite Hq by lia|rewrite Hend by lia]; done.
    + destruct (count (push b x) >=? cap) eqn:Ef; bool_hyps; [done|]. cbn [obind]. by rewrite Hend by lia.
  - rewrite len_cons in *. pose proof (len_nonneg l). replace (count b + (1 + (1 + len l))) with (count (push b x) + (1 + len l)) by lia.
    cbn [map] in *. cbn [app] in *.
    assert (Hnext : loop (S fuel) body (44 :: sep (render_one y :: map render_one l) ++ 93 :: rest, push b x) =
      Value (if count (push b x) + (1 + len l) >=? cap then 93 :: rest else rest, fold_left push (y :: l) (push b x))).
    { cbn [loop]. rewrite Hcomma by lia. cbn [obind]. apply IH; [|cbn [length] in *; lia|done|lia|lia].
      intros. apply Hone; [by right|done|done]. }
    destruct H as [[-> Hq]| ->]; cbn [obind]; [|decide_if; cbn [obind]]; exact Hnext.
Qed.

Lemma fold_append {A} (l acc : list A) : fold_left (fun acc x => acc ++ [x]) l acc = acc ++ l.
Proof. revert acc. induction l as [|x l IH]; intros acc; cbn; [by rewrite app_nil_r|]. by rewrite IH, <- app_assoc. Qed.

Lemma body_quote {A} (t : A) (e : outcome (turn A)) s rest : (match quote s ++ rest with [] => Value (Leave t) | _ => e end) = e.
Proof. done. Qed.

(** What is left of the text behind an array: its bracket, if it fills the array. *)
Definition after_array {A} (cap : Z) (l : list A) (rest : bytes) : bytes := if full cap l then 93 :: rest else rest.

Section Written.
Variable fuel : nat.
Hypothesis enough : (1100 <= fuel)%nat.

Lemma list_read cap size l rest :
  0 < cap <= 64 -> size <= 2 ^ 31 -> list_ok cap size l ->
  parse_list fuel cap size [] (render_list l ++ rest) = Value (after_array cap l rest, l).
Proof.
  intros Hcap Hsize [Hl Hok]. unfold parse_list, render_list, render_array. cbn [app skip_ws is_ws Z.eqb Pos.eqb orb starts negb tail].
  rewrite <- app_assoc. cbn [app].
  rewrite (array_read (list_body cap size) quote (fun acc x => acc ++ [x]) len (fun _ => True) cap).
  - by rewrite fold_append.
  - done.
  - done.
  - intros b x q Hin Hb _. rewrite len_snoc. split; [done|]. split; [done|]. right. rewrite List.Forall_forall in Hok. destruct (Hok x Hin) as [Hx Hne].
    unfold list_body. rewrite body_quote, skip_ws_quote. change (starts 93 (quote x ++ q)) with false. change (starts 44 (quote x ++ q)) with false. cbv iota.
    rewrite parse_quote by done. cbn [checked obind]. decide_if. destruct x; [done|]. by rewrite len_snoc.
  - unfold len in *. lia.
  - done.
  - rewrite len_nil. lia.
  - rewrite len_nil. lia.
Qed.

Lemma cleanup_read b l rest :
  cleanup b = [] -> len l <= AR_BUILD_CLEANUP_MAX -> Forall (fun s => string_ok AR_BUILD_CLEANUP_PATH s = true) l ->
  loop fuel cleanup_body (sep (map quote l) ++ 93 :: rest, b) = Value (after_array AR_BUILD_CLEANUP_MAX l rest, set_cleanup l b).
Proof.
  intros Hb Hl Hok.
  rewrite (array_read cleanup_body quote (fun b x => set_cleanup (cleanup b ++ [x]) b) (fun b => len (cleanup b)) (fun _ => True) AR_BUILD_CLEANUP_MAX).
  - rewrite Hb. f_equal. f_equal. assert (E : forall l b, fold_left (fun b x => set_cleanup (cleanup b ++ [x]) b) l b = set_cleanup (cleanup b ++ l) b).
    { clear. induction l as [|x l IH]; intros b; cbn; [destruct b; cbn; by rewrite app_nil_r|]. rewrite IH. cbn. by rewrite <- app_assoc. }
    by rewrite E, Hb.
  - intros c q Hc. unfold cleanup_body. by rewrite (proj2 (Z.ltb_lt _ _) Hc).
  - intros c q Hc. unfold cleanup_body. by rewrite (proj2 (Z.ltb_lt _ _) Hc).
  - intros c x q Hin Hc _. cbn [cleanup set_cleanup]. rewrite len_snoc. split; [done|]. split; [done|]. left. rewrite List.Forall_forall in Hok. specialize (Hok x Hin). split.
    + unfold cleanup_body. rewrite body_quote, (proj2 (Z.ltb_lt _ _) Hc), skip_ws_quote.
      change (starts 93 (quote x ++ q)) with false. change (starts 44 (quote x ++ q)) with false. cbv iota. cbn [negb].
      by rewrite parse_quote by done.
    + intros Hge r. unfold cleanup_body. cbn [cleanup set_cleanup]. rewrite len_snoc. by rewrite (proj2 (Z.ltb_ge _ _)) by lia.
  - unfold AR_BUILD_CLEANUP_MAX, len in *. lia.
  - done.
  - rewrite Hb. done.
  - rewrite Hb, len_nil. lia.
Qed.

(** A member that is a string. *)
Lemma string_member {A} (value : bytes -> bytes -> A -> outcome (bytes * A)) key (set : bytes -> A -> A) max s ms a r :
  string_ok KEY_MAX key = true -> string_ok max s = true -> max <= 2 ^ 31 ->
  (forall rest, value key (quote s ++ rest) a = string_value max set (quote s ++ rest) a) ->
  members_run value ms (set s a) r -> members_run value ((key, quote s) :: ms) a r.
Proof. intros Hk Hs Hm Hv. apply run_one; [done|]. intros rest _. rewrite Hv. unfold string_value. by rewrite parse_quote by done. Qed.

Lemma service_read svc rest :
  string_ok AR_SERVICE_NAME_MAX (svc_name svc) = true -> string_ok AR_ENTRY_MAX (svc_entry svc) = true ->
  loop fuel (member_body (service_value fuel)) (sep (map render_member (service_members svc)) ++ 125 :: rest, mk_service [] []) = Value (rest, svc).
Proof.
  intros Hn He. rewrite object_read with (r := Some svc); [done|cbn; lia|]. destruct svc as [n e]. unfold service_members.
  apply string_member with (set := set_svc_name) (max := AR_SERVICE_NAME_MAX); [done|done|done|done|].
  apply string_member with (set := set_svc_entry) (max := AR_ENTRY_MAX); [done|done|done|done|]. apply run_done.
Qed.

Lemma step_read step rest :
  string_ok AR_BUILD_STEP_NAME_MAX (step_name step) = true -> string_ok AR_BUILD_STEP_CMD_MAX (step_cmd step) = true ->
  string_ok AR_BUILD_STEP_CWD_MAX (step_cwd step) = true ->
  loop fuel (member_body (step_value fuel)) (sep (map render_member (step_members step)) ++ 125 :: rest, no_step) = Value (rest, step).
Proof.
  intros Hn Hc Hw. rewrite object_read with (r := Some step); [done|cbn; lia|]. destruct step as [n c w]. unfold step_members.
  apply string_member with (set := set_step_name) (max := AR_BUILD_STEP_NAME_MAX); [done|done|done|done|].
  apply string_member with (set := set_step_cmd) (max := AR_BUILD_STEP_CMD_MAX); [done|done|done|done|].
  apply string_member with (set := set_step_cwd) (max := AR_BUILD_STEP_CWD_MAX); [done|done|done|done|]. apply run_done.
Qed.

Lemma body_object {A} (t : A) (e : outcome (turn A)) ms rest : (match render_object ms ++ rest with [] => Value (Leave t) | _ => e end) = e.
Proof. done. Qed.

Lemma services_read l rest :
  len l <= AR_APP_MAX_SERVICES ->
  Forall (fun s => string_ok AR_SERVICE_NAME_MAX (svc_name s) = true /\ string_ok AR_ENTRY_MAX (svc_entry s) = true /\ svc_name s <> []) l ->
  parse_services fuel (render_array (map (fun s => render_object (service_members s)) l) ++ rest) [] = Value (after_array AR_APP_MAX_SERVICES l rest, l).
Proof.
  intros Hl Hok. unfold parse_services, render_array. cbn [app skip_ws is_ws Z.eqb Pos.eqb orb starts negb tail]. rewrite <- app_assoc. cbn [app].
  rewrite (array_read (services_body fuel) (fun s => render_object (service_members s)) (fun acc x => acc ++ [x]) len (fun _ => True) AR_APP_MAX_SERVICES).
  - by rewrite fold_append.
  - done.
  - done.
  - intros b x q Hin Hb _. rewrite len_snoc. split; [done|]. split; [done|]. right. rewrite List.Forall_forall in Hok. destruct (Hok x Hin) as (Hn & He & Hne).
    unfold services_body. rewrite body_object, render_object_app. cbn [skip_ws is_ws Z.eqb Pos.eqb orb starts negb tail]. decide_if.
    rewrite service_read by done. cbn [obind]. destruct (svc_name x); [done|]. by rewrite len_snoc.
  - unfold AR_APP_MAX_SERVICES, len in *. lia.
  - done.
  - rewrite len_nil. done.
  - rewrite len_nil. lia.
Qed.

Lemma fold_count_steps l b : Forall (fun s => step_cmd s <> []) l -> slot b = no_step ->
  fold_left (fun b s => count_step s b) l b = set_steps (steps b ++ l) b.
Proof.
  intros Hl. revert b. induction Hl as [|s l Hs Hl IH]; intros b Hb; cbn.
  - destruct b. cbn in *. by rewrite app_nil_r.
  - unfold count_step at 2. destruct (step_cmd s) eqn:E; [done|]. rewrite IH by done. cbn. rewrite <- app_assoc. destruct b. cbn in *. by rewrite Hb.
Qed.

Lemma steps_read b l rest :
  steps b = [] -> slot b = no_step -> len l <= AR_BUILD_MAX_STEPS ->
  Forall (fun s => string_ok AR_BUILD_STEP_NAME_MAX (step_name s) = true /\ string_ok AR_BUILD_STEP_CMD_MAX (step_cmd s) = true /\
      string_ok AR_BUILD_STEP_CWD_MAX (step_cwd s) = true /\ step_cmd s <> []) l ->
  loop fuel (steps_body fuel) (sep (map (fun s => render_object (step_members s)) l) ++ 93 :: rest, b) =
  Value (after_array AR_BUILD_MAX_STEPS l rest, set_steps l b).
Proof.
  intros Hb Hslot Hl Hok.
  rewrite (array_read (steps_body fuel) (fun s => render_object (step_members s)) (fun b s => count_step s b) (fun b => len (steps b))
    (fun b => slot b = no_step) AR_BUILD_MAX_STEPS).
  - rewrite Hb. f_equal. f_equal. rewrite fold_count_steps; [by rewrite Hb| |done]. eapply Forall_impl; [|exact Hok]. by intros s (_ & _ & _ & ?).
  - intros c q Hc. unfold steps_body. by rewrite (proj2 (Z.ltb_lt _ _) Hc).
  - intros c q Hc. unfold steps_body. by rewrite (proj2 (Z.ltb_lt _ _) Hc).
  - intros c x q Hin Hc Hs. rewrite List.Forall_forall in Hok. destruct (Hok x Hin) as (Hn & Hcmd & Hw & Hne).
    assert (Ec : count_step x c = set_slot no_step (set_steps (steps c ++ [x]) c)) by (unfold count_step; by destruct (step_cmd x)).
    rewrite Ec. cbn [steps set_steps set_slot slot]. rewrite len_snoc. split; [done|]. split; [done|]. left. split.
    + unfold steps_body. rewrite body_object, (proj2 (Z.ltb_lt _ _) Hc), render_object_app. cbn [skip_ws is_ws Z.eqb Pos.eqb orb starts negb tail].
      rewrite Hs, step_read by done. cbn [obind]. by rewrite Ec.
    + intros Hge r. unfold steps_body. cbn [steps set_steps set_slot]. rewrite len_snoc. by rewrite (proj2 (Z.ltb_ge _ _)) by lia.
  - unfold AR_BUILD_MAX_STEPS, len in *. lia.
  - done.
  - rewrite Hb. done.
  - rewrite Hb, len_nil. lia.
Qed.

(** A member that is an array: the parser gives up behind one that is full. *)
Lemma array_member {A} {B} (value : bytes -> bytes -> A -> outcome (bytes * A)) key v cap (l : list B) ms a a' r :
  string_ok KEY_MAX key = true -> (forall rest, value key (v ++ rest) a = Value (after_array cap l rest, a')) ->
  (full cap l = false -> members_run value ms a' r) ->
  members_run value ((key, v) :: ms) a (if full cap l then None else r).
Proof.
  intros Hk Hv Hr. unfold after_array in Hv. destruct (full cap l).
  - apply run_stuck; [done|]. intros rest _. right. exists a'. by rewrite Hv.
  - apply run_one with (a' := a'); [done| |by apply Hr]. intros rest _. by rewrite Hv.
Qed.

Definition build_full (b : ar_build_config) : bool := full AR_BUILD_CLEANUP_MAX (cleanup b) || full AR_BUILD_MAX_STEPS (steps b).

Lemma build_run b : build_ok b ->
  members_run (build_value fuel) (build_members b) (build no_manifest) (if build_full b then None else Some b).
Proof.
  intros [Hc Hs [Hcl Hcls] [Hst Hsts] Hsl]. unfold build_members, build_full.
  apply string_member with (set := set_command) (max := COMMAND_MAX); [done|done|done|done|].
  apply string_member with (set := set_staging) (max := AR_BUILD_STAGING_MAX); [done|done|done|done|].
  destruct b as [st sl cl sg cm]. cbn [cleanup steps staging command slot] in *. subst sl.
  replace (if full AR_BUILD_CLEANUP_MAX cl || full AR_BUILD_MAX_STEPS st then None else Some (mk_build st no_step cl sg cm)) with
    (if full AR_BUILD_CLEANUP_MAX cl then None else if full AR_BUILD_MAX_STEPS st then None else Some (mk_build st no_step cl sg cm)) by (by destruct (full _ cl)).
  eapply (array_member (build_value fuel)); [done| |intros _; eapply (array_member (build_value fuel)); [done| |intros _; apply run_done]].
  - intros rest. unfold render_list, render_array. cbn [app]. rewrite <- app_assoc. apply (cleanup_read _ cl rest); done.
  - intros rest. unfold render_array. cbn [app]. rewrite <- app_assoc. by apply (steps_read (set_cleanup cl (set_staging sg (set_command cm (build no_manifest)))) st rest).
Qed.

Lemma build_read b rest : build_ok b ->
  parse_build fuel (render_object (build_members b) ++ rest) (build no_manifest) = if build_full b then Failed else Value (rest, b).
Proof.
  intros Hb. unfold parse_build. rewrite render_object_app. cbn [skip_ws is_ws Z.eqb Pos.eqb orb starts tail].
  rewrite (object_read (build_value fuel)) with (2 := build_run b Hb) by (cbn; lia). by destruct (build_full b).
Qed.
End Written.

(** ** Platforms *)

(** A text between two brackets that the loop over nested brackets passes as a whole. *)
Definition passes (opens closes : Z -> bool) (t : bytes) : Prop :=
  forall n depth rest, 0 < depth -> (length t < n)%nat ->
    exists n', (n <= n' + length t)%nat /\
      loop n (nest_body opens closes) (Some (t ++ rest), depth) = loop n' (nest_body opens closes) (Some rest, depth).

Section Nested.
Variables opens closes : Z -> bool.
Abbreviation passes := (passes opens closes).

Lemma passes_app t u : passes t -> passes u -> passes (t ++ u).
Proof.
  intros Ht Hu n depth rest Hd Hn. rewrite length_app in Hn. destruct (Ht n depth (u ++ rest) Hd ltac:(lia)) as (n1 & H1 & E1).
  destruct (Hu n1 depth rest Hd ltac:(lia)) as (n2 & H2 & E2). exists n2. rewrite length_app, <- app_assoc, E1, E2. split; [lia|done].
Qed.

Lemma nest_turn c q depth : c <> 34 -> 0 < depth ->
  nest_body opens closes (Some (c :: q), depth) =
  let depth := if opens c then depth + 1 else if closes c then depth - 1 else depth in
  Value (if depth >? 0 then Again (Some q, depth) else Again (Some (c :: q), depth)).
Proof. intros Hc Hd. unfold nest_body. by rewrite (proj2 (Z.gtb_lt _ _) Hd), (proj2 (Z.eqb_neq _ _) Hc). Qed.

Lemma passes_char c : c <> 34 -> opens c = false -> closes c = false -> passes [c].
Proof.
  intros Hc Ho Hcl n depth rest Hd Hn. destruct n as [|n]; [lia|]. exists n. split; [cbn; lia|]. cbn [loop app].
  rewrite nest_turn, Ho, Hcl by done. cbv iota zeta. by decide_if.
Qed.

Lemma passes_quote s : raw_ok s = true -> passes (quote s).
Proof.
  intros Hs n depth rest Hd Hn. destruct n as [|n]; [lia|]. exists n. split; [cbn; lia|]. unfold quote. cbn [loop app]. unfold nest_body at 1.
  rewrite (proj2 (Z.gtb_lt _ _) Hd), <- app_assoc. cbn [app Z.eqb Pos.eqb negb]. by rewrite scan_raw.
Qed.

Lemma passes_block o c t :
  o <> 34 -> c <> 34 -> opens o = true -> opens c = false -> closes c = true -> passes t -> passes (o :: t ++ [c]).
Proof.
  intros Ho Hc Eo Ec1 Ec2 Ht n depth rest Hd Hn. destruct n as [|n]; [lia|]. cbn [length] in Hn. rewrite length_app in Hn. cbn [length] in Hn. cbn [loop app].
  rewrite nest_turn, Eo by done. cbv iota zeta. decide_if. cbn [obind].
  destruct (Ht n (depth + 1) (c :: rest) ltac:(lia) ltac:(lia)) as (n1 & H1 & E1). rewrite <- app_assoc. cbn [app]. rewrite E1.
  destruct n1 as [|n1]; [lia|]. exists n1. cbn [length]. rewrite length_app. cbn [length]. split; [lia|]. cbn [loop].
  rewrite nest_turn, Ec1, Ec2 by (done || lia). cbv iota zeta. decide_if. cbn [obind]. by replace (depth + 1 - 1) with depth by lia.
Qed.

(** The object's last bracket is where the loop stops. *)
Lemma nested_object t c rest fuel :
  c <> 34 -> opens c = false -> closes c = true -> passes t -> (length t + 2 < fuel)%nat ->
  skip_nested fuel opens closes (t ++ c :: rest) = Value (Some (c :: rest)).
Proof.
  intros Hc Ec1 Ec2 Ht Hf. unfold skip_nested. destruct (Ht fuel 1 (c :: rest) ltac:(lia) ltac:(lia)) as (n & Hn & ->).
  destruct n as [|[|n]]; [lia|lia|]. cbn [loop]. rewrite nest_turn, Ec1, Ec2 by done. reflexivity.
Qed.

Lemma passes_nothing : passes [].
Proof. intros n depth rest _ Hn. exists n. split; [lia|done]. Qed.

Lemma passes_sep l : opens 44 = false -> closes 44 = false -> Forall passes l -> passes (sep l).
Proof.
  intros H1 H2 Hl. induction Hl as [|t l Ht Hl IH]; [apply passes_nothing|]. cbn [sep]. apply passes_app; [done|].
  destruct l as [|u l]; [apply passes_nothing|]. change (44 :: sep (u :: l)) with ([44] ++ sep (u :: l)). apply passes_app; [by apply passes_char|done].
Qed.
End Nested.

Lemma passes_object ms :
  Forall (fun kv => string_ok KEY_MAX kv.1 = true /\ passes brace_open brace_close kv.2) ms ->
  passes brace_open brace_close (sep (map render_member ms)).
Proof.
  intros Hms. apply passes_sep; [done|done|]. apply Forall_map. eapply Forall_impl; [|exact Hms]. intros [k v] [Hk Hv]. cbn [fst snd] in *.
  unfold render_member. cbn [fst snd]. apply passes_app; [apply passes_quote; unfold string_ok in Hk; by bool_hyps|].
  change (58 :: v) with ([58] ++ v). apply passes_app; [by apply passes_char|done].
Qed.

Definition table_ok (platforms : table) : Prop :=
  Forall (fun pe => string_ok KEY_MAX pe.1 = true /\ string_ok AR_ENTRY_MAX pe.2 = true) platforms.

Lemma platforms_pass platforms : table_ok platforms -> passes brace_open brace_close (sep (map render_member (platform_members platforms))).
Proof.
  intros H. apply passes_object. unfold platform_members. apply Forall_map. eapply Forall_impl; [|exact H]. intros [p e] [Hp He]. cbn [fst snd] in *. split; [done|].
  unfold render_object. apply passes_block; [done|done|done|done|done|]. apply passes_object. constructor; [|done]. split; [done|].
  cbn [snd]. apply passes_quote. unfold string_ok in He. by bool_hyps.
Qed.

Lemma platforms_read fuel platforms m rest :
  (1100 <= fuel)%nat -> table_ok platforms -> len (render_platforms platforms) < AR_PLATFORM_RAW_MAX ->
  parse_platforms fuel (render_platforms platforms ++ rest) m = Value (rest, set_platforms_raw (render_platforms platforms) m).
Proof.
  intros Hf Ht Hlen. unfold parse_platforms.
  change (skip_ws (render_platforms platforms ++ rest)) with (render_platforms platforms ++ rest).
  change (starts 123 (render_platforms platforms ++ rest)) with true. cbv iota.
  change (tail (render_platforms platforms ++ rest)) with ((sep (map render_member (platform_members platforms)) ++ [125]) ++ rest).
  assert (E : len (render_platforms platforms) = 2 + len (sep (map render_member (platform_members platforms)))).
  { unfold render_platforms, render_object. rewrite len_cons, len_app, len_cons, len_nil. lia. }
  unfold AR_PLATFORM_RAW_MAX in *.
  rewrite <- app_assoc. cbn [app]. rewrite nested_object; [|done|done|done|by apply platforms_pass|unfold len in *; lia]. cbn [checked obind].
  rewrite copy_out_fits; [done| |done|done]. rewrite len_app. lia.
Qed.

(** ** Texts without a NUL *)

Abbreviation no_nul := (Forall (fun c : Z => c <> 0)).

Lemma raw_no_nul s : raw_ok s = true -> no_nul s.
Proof.
  induction s as [s IH] using (induction_ltof1 _ (@length Z)). unfold ltof in IH. destruct s as [|c s]; [constructor|]. cbn. intros H. bool_hyps.
  constructor; [done|]. destruct (c =? 92).
  - destruct s as [|d s]; [done|]. bool_hyps. constructor; [done|]. apply IH; [cbn; lia|done].
  - apply IH; [cbn; lia|done].
Qed.

Lemma string_no_nul max s : string_ok max s = true -> no_nul s.
Proof. unfold string_ok. intros H. bool_hyps. by apply raw_no_nul. Qed.

Lemma quote_no_nul s : no_nul s -> no_nul (quote s).
Proof. intros H. constructor; [done|]. apply Forall_app. split; [done|by constructor]. Qed.

Lemma sep_no_nul l : Forall (fun t => no_nul t) l -> no_nul (sep l).
Proof.
  intros H. induction H as [|t l Ht Hl IH]; [constructor|]. cbn [sep]. apply Forall_app. split; [done|]. destruct l; [constructor|]. by constructor.
Qed.

Lemma object_no_nul ms : Forall (fun kv : member => no_nul kv.1 /\ no_nul kv.2) ms -> no_nul (render_object ms).
Proof.
  intros H. constructor; [done|]. apply Forall_app. split; [|by constructor]. apply sep_no_nul, Forall_map.
  eapply Forall_impl; [|exact H]. intros [k v] [Hk Hv]. apply Forall_app. split; [by apply quote_no_nul|by constructor].
Qed.

Lemma array_no_nul {A} (f : A -> bytes) l : (forall x, In x l -> no_nul (f x)) -> no_nul (render_array (map f l)).
Proof.
  intros H. constructor; [done|]. apply Forall_app. split; [|by constructor]. apply sep_no_nul, Forall_map, List.Forall_forall. exact H.
Qed.

Lemma list_no_nul size l : Forall (fun s => string_ok size s = true) l -> no_nul (render_list l).
Proof. intros H. apply array_no_nul. intros x Hx. rewrite List.Forall_forall in H. eapply quote_no_nul, string_no_nul. by apply H. Qed.

Lemma list_ok_no_nul cap size l : list_ok cap size l -> no_nul (render_list l).
Proof. intros [_ H]. apply list_no_nul with size. eapply Forall_impl; [|exact H]. by intros s [? _]. Qed.

Lemma lit_no_nul s : forallb (fun c => negb (c =? 0)) (lit s) = true -> no_nul (lit s).
Proof. intros H. apply List.Forall_forall. intros c Hc. rewrite forallb_forall in H. specialize (H c Hc). by bool_hyps. Qed.

(** The members of an object whose keys are literals. *)
Ltac members_no_nul := apply object_no_nul; repeat (constructor; [split; cbn [fst snd]; [apply lit_no_nul; reflexivity|]|]); [..|constructor].

Lemma build_no_nul b : build_ok b -> no_nul (render_object (build_members b)).
Proof.
  intros [Hc Hs [_ Hcl] [_ Hst] _]. members_no_nul.
  - by eapply quote_no_nul, string_no_nul.
  - by eapply quote_no_nul, string_no_nul.
  - by eapply list_no_nul.
  - apply array_no_nul. intros x Hx. rewrite List.Forall_forall in Hst. destruct (Hst x Hx) as (Hn & Hcm & Hw & _).
    members_no_nul; by eapply quote_no_nul, string_no_nul.
Qed.

Lemma platforms_no_nul raw : platforms_ok raw -> no_nul (platforms_text raw).
Proof.
  intros [->|(_ & platforms & -> & H)]; [by apply lit_no_nul|]. change (platforms_text (render_platforms platforms)) with (render_platforms platforms).
  unfold render_platforms, platform_members. apply object_no_nul, Forall_map. eapply Forall_impl; [|exact H]. intros [p e] [Hp He]. cbn [fst snd] in *.
  split; [by eapply string_no_nul|]. members_no_nul. by eapply quote_no_nul, string_no_nul.
Qed.

Lemma render_no_nul m : manifest_ok m -> no_nul (render m).
Proof.
  intros [Hn Hv Hb He [_ Hss] Hf Hfw Hfl Hr Hq Hp Hbd]. members_no_nul; try (by eapply quote_no_nul, string_no_nul); try (by eapply list_ok_no_nul).
  - apply quote_no_nul. by destruct (runtime m); apply lit_no_nul.
  - apply array_no_nul. intros x Hx. rewrite List.Forall_forall in Hss. destruct (Hss x Hx) as (Hsn & Hse & _).
    members_no_nul; by eapply quote_no_nul, string_no_nul.
  - by destruct (is_runtime m =? 1); apply lit_no_nul.
  - by apply platforms_no_nul.
  - by apply build_no_nul.
Qed.

Lemma cstr_rendered s rest : no_nul s -> cstr (s ++ 0 :: rest) = s.
Proof. intros H. induction H as [|c s Hc Hs IH]; [done|]. cbn. by rewrite (proj2 (Z.eqb_neq c 0)), IH. Qed.

(** ** Manifests *)

Lemma orb_if {A} (b c : bool) (x y : A) : (if b || c then x else y) = if b then x else if c then x else y.
Proof. by destruct b. Qed.

Section Manifest.
Variable fuel : nat.
Hypothesis enough : (1100 <= fuel)%nat.

Lemma list_member get set key cap size ms m l r :
  string_ok KEY_MAX key = true -> 0 < cap <= 64 -> size <= 2 ^ 31 -> list_ok cap size l -> get m = [] ->
  (forall p, manifest_value fuel key p m = with_list fuel cap size get set p m) ->
  (full cap l = false -> members_run (manifest_value fuel) ms (set l m) r) ->
  members_run (manifest_value fuel) ((key, render_list l) :: ms) m (if full cap l then None else r).
Proof.
  intros Hk Hc Hsz Hl Hg Hv. eapply array_member; [done|]. intros rest. rewrite Hv. unfold with_list. rewrite Hg, list_read by done. done.
Qed.

Lemma runtime_read r : string_ok AR_RUNTIME_MAX (runtime_name r) = true /\ parse_runtime (runtime_name r) AR_RUNTIME_UNKNOWN = r.
Proof. destruct r; split; vm_compute; reflexivity. Qed.

Lemma flag_member ms m flag r :
  flag = 0 \/ flag = 1 -> members_run (manifest_value fuel) ms (set_is_runtime flag m) r ->
  members_run (manifest_value fuel) ((lit "is_runtime", if flag =? 1 then lit "true" else lit "false") :: ms) m r.
Proof.
  intros Hf. apply run_one; [done|]. intros rest (c & q & -> & Hc). change (manifest_value fuel (lit "is_runtime")) with
    (fun p (m : ar_app_manifest) => let (p, flag) := parse_bool p (is_runtime m) in Value (A := bytes * ar_app_manifest) (p, set_is_runtime flag m)).
  cbv beta. destruct Hf as [->| ->], Hc as [->| ->]; reflexivity.
Qed.

Lemma platforms_member ms m raw r :
  platforms_ok raw -> platforms_raw m = [] -> members_run (manifest_value fuel) ms (set_platforms_raw raw m) r ->
  members_run (manifest_value fuel) ((lit "platforms", platforms_text raw) :: ms) m r.
Proof.
  intros Hraw Hm. apply run_one; [done|]. intros rest Hrest.
  change (manifest_value fuel (lit "platforms")) with (parse_platforms fuel).
  destruct Hraw as [->|(Hlen & platforms & -> & Ht)].
  - destruct Hrest as (c & q & -> & Hc). destruct m. cbn in Hm. subst. destruct Hc as [->| ->]; reflexivity.
  - change (platforms_text (render_platforms platforms)) with (render_platforms platforms). by apply platforms_read.
Qed.

Lemma manifest_run m : manifest_ok m ->
  members_run (manifest_value fuel) (manifest_members m) no_manifest (if some_full m then None else Some m).
Proof.
  intros [Hn Hv Hb He [Hs Hss] Hf Hfw Hfl Hr Hq Hp Hbd]. pose proof Hbd as [_ _ _ _ _].
  unfold some_full. rewrite !orb_if. unfold manifest_members.
  apply string_member with (set := set_app_name) (max := AR_APP_NAME_MAX); [done|done|done|done|].
  apply string_member with (set := set_version) (max := AR_APP_VERSION_MAX); [done|done|done|done|].
  apply string_member with (set := set_bin) (max := AR_FILE_PATH_MAX); [done|done|done|done|].
  destruct (runtime_read (runtime m)) as [Hrt Ert].
  apply string_member with (set := fun buf m => set_runtime (parse_runtime buf (runtime m)) m) (max := AR_RUNTIME_MAX); [done|done|done|done|].
  cbn [runtime set_bin set_version set_app_name no_manifest]. rewrite Ert.
  apply string_member with (set := set_entry) (max := AR_ENTRY_MAX); [done|done|done|done|].
  eapply (array_member (manifest_value fuel)); [done| |intros _].
  { intros rest. change (manifest_value fuel (lit "services")) with
      (fun p (m : ar_app_manifest) => do (p, svcs) <- parse_services fuel p (services m); Value (A := bytes * ar_app_manifest) (p, set_services svcs m)).
    cbv beta. change (services (set_entry _ _)) with (@nil ar_service_def). by rewrite services_read. }
  apply (list_member files set_files _ AR_MAX_FILES AR_FILE_PATH_MAX); [done|by split|done|done|done|done|intros _].
  apply (list_member files_windows set_files_windows _ AR_MAX_FILES AR_FILE_PATH_MAX); [done|by split|done|done|done|done|intros _].
  apply (list_member files_linux set_files_linux _ AR_MAX_FILES AR_FILE_PATH_MAX); [done|by split|done|done|done|done|intros _].
  apply flag_member; [done|]. apply (list_member requires set_requires _ AR_MAX_REQUIRES AR_REQUIRE_MAX); [done|by split|done|done|done|done|intros _].
  apply platforms_member; [done|done|].
  set (m' := set_platforms_raw _ _). assert (Hm : build m' = build no_manifest) by done.
  assert (E : set_build (build m) m' = m) by (by destruct m). clearbody m'.
  change (if full AR_BUILD_CLEANUP_MAX (cleanup (build m)) then None else if full AR_BUILD_MAX_STEPS (steps (build m)) then None else Some m)
    with (if full AR_BUILD_CLEANUP_MAX (cleanup (build m)) then None else (fun b : bool => if b then None else Some m) (full AR_BUILD_MAX_STEPS (steps (build m)))).
  cbv beta. rewrite <- orb_if. change (full _ _ || full _ _) with (build_full (build m)).
  assert (Hval : forall rest, manifest_value fuel (lit "build") (render_object (build_members (build m)) ++ rest) m' =
    if build_full (build m) then Failed else Value (rest, m)).
  { intros rest. change (manifest_value fuel (lit "build")) with
      (fun p (m : ar_app_manifest) => do (p, b) <- parse_build fuel p (build m); Value (A := bytes * ar_app_manifest) (p, set_build b m)).
    cbv beta. rewrite Hm, build_read by done. destruct (build_full (build m)); [done|]. cbn [obind]. by rewrite E. }
  destruct (build_full (build m)).
  - apply run_stuck; [done|]. intros rest _. left. apply Hval.
  - eapply run_one; [done|intros rest _; apply Hval|apply run_done].
Qed.
End Manifest.

(** A manifest that is written is read back, with eleven hundred turns for every loop and
    whatever follows the text. A manifest with a list that fills its array is refused. *)
Theorem manifest_roundtrip fuel m rest :
  manifest_ok m -> (1100 <= fuel)%nat ->
  ar_manifest_parse fuel (Some (render m ++ 0 :: rest)) = if some_full m then Failed else Value m.
Proof.
  intros Hm Hf. unfold ar_manifest_parse. rewrite cstr_rendered by (by apply render_no_nul).
  rewrite <- (app_nil_r (render m)). unfold render. rewrite render_object_app.
  cbn [skip_ws is_ws Z.eqb Pos.eqb orb starts negb tail].
  rewrite (object_read (manifest_value fuel)) with (2 := manifest_run fuel Hf m Hm) by (cbn; lia). by destruct (some_full m).
Qed.

(** ** The entry of a platform *)

(** The first entry of the platform that is not empty. *)
Fixpoint find_entry (platform : bytes) (platforms : table) : option bytes :=
  match platforms with
  | [] => None
  | (p, e) :: platforms => if bytes_eqb p platform && negb (bytes_eqb e []) then Some e else find_entry platform platforms
  end.

Lemma entry_read fuel e rest :
  (1100 <= fuel)%nat -> string_ok AR_ENTRY_MAX e = true ->
  loop fuel (member_body (entry_value fuel)) (sep (map render_member [(lit "entry", quote e)]) ++ 125 :: rest, []) = Value (rest, e).
Proof.
  intros Hf He. rewrite object_read with (r := Some e); [done|cbn; lia|].
  apply string_member with (set := fun s _ => s) (max := AR_ENTRY_MAX); [done|done|done|done|]. apply run_done.
Qed.

Lemma platform_turn fuel platform p e found rest :
  (1100 <= fuel)%nat -> string_ok KEY_MAX p = true -> string_ok AR_ENTRY_MAX e = true ->
  platform_body fuel platform (render_member (p, render_object [(lit "entry", quote e)]) ++ rest, found) =
  Value (if bytes_eqb p platform && negb (bytes_eqb e []) then Leave (rest, Some e) else Again (rest, None)).
Proof.
  intros Hf Hp He. unfold render_member, fst, snd. rewrite <- app_assoc. unfold platform_body. rewrite body_quote, skip_ws_quote.
  change (starts 125 (quote p ++ ?x)) with false. change (starts 44 (quote p ++ ?x)) with false. cbv iota.
  rewrite parse_quote by done. cbn [checked obind]. cbn [app]. rewrite render_object_app. cbn [skip_ws is_ws Z.eqb Pos.eqb orb starts negb tail].
  rewrite entry_read by done. cbn [obind]. by destruct (_ && _).
Qed.

Lemma platforms_search fuel n platform platforms found rest :
  (1100 <= fuel)%nat -> (2 * length platforms < n)%nat -> table_ok platforms ->
  exists q, loop n (platform_body fuel platform) (sep (map render_member (platform_members platforms)) ++ 125 :: rest, found) =
    Value (q, find_entry platform platforms).
Proof.
  intros Hf Hn Ht. revert n found Hn. induction Ht as [|[p e] platforms [Hp He] Ht IH]; intros n found Hn; cbn [fst snd] in *.
  - destruct n as [|n]; [lia|]. by eexists.
  - cbn [length] in Hn. destruct n as [|[|n]]; [lia|lia|]. cbn [platform_members map sep find_entry fst snd]. rewrite <- app_assoc. cbn [loop].
    rewrite platform_turn by done. destruct (_ && _); [by eexists|]. cbn [obind].
    destruct platforms as [|pe platforms]; [by eexists|]. destruct (IH n None) as [q E]; [cbn [length] in *; lia|]. exists q. exact E.
Qed.

(** The entry that is looked up is the first one of the platform that is not empty, cut to the
    caller's buffer; without one the lookup fails. *)
Theorem platform_entry_correct fuel m platform platforms max :
  platforms_raw m = render_platforms platforms -> table_ok platforms -> (1100 <= fuel)%nat -> (2 * length platforms < fuel)%nat ->
  ar_manifest_get_platform_entry fuel (Some m) (Some platform) max =
  match find_entry platform platforms with Some e => Value (snprintf_s max e) | None => Failed end.
Proof.
  intros Hraw Ht Hf Hn. unfold ar_manifest_get_platform_entry. rewrite Hraw.
  rewrite <- (app_nil_r (render_platforms platforms)). unfold render_platforms. rewrite render_object_app. cbn [Z.eqb Pos.eqb negb].
  destruct (platforms_search fuel fuel platform platforms None [] Hf Hn Ht) as [q ->]. cbn [obind]. by destruct (find_entry platform platforms).
Qed.

(** ** A list of steps that is closed by a brace *)

Lemma member_stays {A} (value : bytes -> bytes -> A -> outcome (bytes * A)) n key v a :
  string_ok KEY_MAX key = true -> value key v a = Running -> loop n (member_body value) (render_member (key, v), a) = Running.
Proof.
  intros Hk Hv. destruct n as [|n]; [done|]. cbn [loop]. rewrite <- (app_nil_r (render_member (key, v))), member_turn by done.
  by rewrite app_nil_r, Hv.
Qed.

(** There is a text of 22 octets that keeps the parser for ever. *)
Theorem manifest_parse_hangs fuel : ar_manifest_parse fuel (Some (text "{'build':{'steps':[}}}")) = Running.
Proof.
  assert (E : skip_ws (cstr (text "{'build':{'steps':[}}}")) =
    123 :: render_member (lit "build", 123 :: render_member (lit "steps", 91 :: 125 :: [125; 125]))) by (vm_compute; reflexivity).
  unfold ar_manifest_parse. rewrite E. cbn [starts Z.eqb Pos.eqb negb tail]. rewrite member_stays; [done|done|].
  change (manifest_value fuel (lit "build")) with
    (fun p (m : ar_app_manifest) => do (p, b) <- parse_build fuel p (build m); Value (A := bytes * ar_app_manifest) (p, set_build b m)).
  cbv beta. unfold parse_build. cbn [skip_ws is_ws Z.eqb Pos.eqb orb starts tail]. rewrite member_stays; [done|done|]. by apply (steps_stay fuel).
Qed.

(** ** Witnesses *)

Definition sample_platforms : table := [(lit "linux", lit "bin/app"); (lit "windows", lit "app.exe")].

Definition sample_manifest : ar_app_manifest :=
  mk_app (lit "demo") (lit "1.0") (lit "demo.arapp") AR_RUNTIME_NODE (lit "main.js") [mk_service (lit "web") (lit "web.js")]
    [lit "main.js"; lit "web.js"] [] [] 1 [lit "node"] (render_platforms sample_platforms)
    (mk_build [mk_step (lit "spa") (lit "make spa") []] no_step [lit "tmp"] (lit "out") []).

Lemma sample_manifest_ok : manifest_ok sample_manifest.
Proof.
  constructor; try (vm_compute; reflexivity); try (split; [vm_compute; discriminate|]; repeat constructor; vm_compute; congruence).
  - by right.
  - right. split; [vm_compute; reflexivity|]. exists sample_platforms. split; [done|]. repeat constructor; vm_compute; reflexivity.
  - constructor; try (vm_compute; reflexivity); (split; [vm_compute; discriminate|]; repeat constructor; vm_compute; congruence).
Qed.

Lemma manifest_roundtrip_witness : ar_manifest_parse 1100 (Some (render sample_manifest ++ [0])) = Value sample_manifest.
Proof. apply (manifest_roundtrip 1100 sample_manifest [] sample_manifest_ok (le_n 1100)). Defined.

Lemma platform_entry_correct_witness :
  ar_manifest_get_platform_entry 1100 (Some sample_manifest) (Some (lit "windows")) 256 = Value (lit "app.exe").
Proof.
  apply (platform_entry_correct 1100 sample_manifest (lit "windows") sample_platforms 256); [reflexivity| |lia|vm_compute; lia].
  repeat constructor; vm_compute; reflexivity.
Defined.
